(* ===== verification/_CoqProject ===== *)
-Q . S2P
Prelude.v
JsString.v
JsCollections.v
JsNum.v
Types.v
PacketWire.v
PathUtils.v
PathProps.v
MessageCache.v
MessageCacheProps.v
AckProps.v
ConversationHook.v
ConversationHookProps.v
Visualizer.v
VisualizerProps.v
NetworkGraph.v
NetworkGraphProps.v
RawPacketStats.v
RawPacketStatsProps.v
RawPacketStore.v
RawPacketStoreProps.v
UnreadState.v
UnreadProps.v
Json.v
WebSocket.v
WebSocketProps.v
Directory.v
RealtimeApp.v
RealtimeProps.v
Uri.v
UrlHash.v
Router.v
RouterProps.v
Regex.v
RichPayloads.v
RichPayloadsProps.v
TextReplace.v
CommunityFrames.v
CommunityFramesProps.v
LivePackets.v
LivePacketsProps.v
ApiErrors.v
RepeaterDashboard.v
RepeaterDashboardProps.v
RepeaterDashboardErrors.v
ObserverReach.v
ObserverReachProps.v
ObserverReachLive.v
Aes.v
AesProps.v
GroupData.v
GroupDataProps.v
HashtagProps.v
OssUpdates.v
OssUpdatesProps.v
OssUpdatesLive.v
RadioWifi.v
RadioWifiProps.v
RadioControl.v
RadioControlProps.v
CommunityStore.v
MeshTest.v
MeshTestView.v
MeshTestProps.v
MeshTestViewProps.v
MeshTestLife.v
ListActions.v
ListActionsProps.v
ResendWindow.v
ConversationActions.v
VisualizerFocus.v
VisualizerDirectory.v
VisualizerData.v
VisualizerDataProps.v
VisualizerStream.v
Locate.v
LocateProofs.v
Composer.v
SearchView.v
