(* ===== verification/Prelude.v ===== *)
(** * Meshloom web client: verification library

    Meshloom is a web client for MeshCore radios. A server (app/, Python) drives a radio and
    relays what it hears; the client (src/frontend/src/, TypeScript and React) keeps the
    conversations, the overheard packets and the state of the screen. This library models the
    client's own logic: the pure functions of [utils/] as functions, and the stores and hooks as
    state records with one definition per operation. File names below are relative to
    src/frontend/src/.

    ** The parts

    Shared ground. [Prelude]: notations, record updates [r <| f := v |>], lemmas on lists.
    [JsString]: strings as UTF-16 units and their methods. [JsCollections]: [Map] with its
    insertion order ([om_get], [om_set], [om_delete]) and the stable [sort]. [JsNum]: binary64 on
    [SpecFloat]. [Json]: the values of [JSON.parse]. [Regex]: regular expressions, matched by
    backtracking. [Types]: the records of types.ts. [ApiErrors]: [fetchJson] of api.ts, its errors
    and the notice of an expired session.

    Messages. [MessageCache] is the cache, the content key and the reconciliation of
    hooks/useConversationMessages.ts, [ConversationHook] the hook itself. Their theorems
    ([MessageCacheProps], [AckProps], [ConversationHookProps]): the cache refines a bounded list
    in recency order; the list on screen only holds messages of its conversation, whatever the
    order of renders, socket events and replies, and each once, but for one kind of page that is
    named; late replies are dropped.
    [ResendWindow] is the button that sends again, and the timers that take it away.

    The socket. [WebSocket] is useWebSocket.ts and the envelope checks of wsEvents.ts, a state
    machine over what the browser does ([WebSocketProps]: one live connection, never stranded,
    a refinement of a four-state automaton, a handler called exactly by the frames it is for).
    [RealtimeApp] is hooks/useRealtimeAppState.ts: it composes the conversation hook, the counters
    of [UnreadState] (hooks/useUnreadCounts.ts), the packet store and the lists of [Directory]
    ([RealtimeProps]: the components agree on the conversation on screen, which has no counter
    unless a counted conversation was renamed to it; a reloaded snapshot never undoes an update
    received on its way).

    The address bar. [Uri] and [UrlHash] are utils/urlHash.ts; [Router] is
    hooks/useConversationRouter.ts ([RouterProps]: what is written into the hash
    is read back, a link opens its conversation, back returns, the effects settle).

    What the user does. [ListActions] is hooks/useContactsAndChannels.ts: handlers that await
    several replies, as interaction trees over the class [Surroundings] ([ListActionsProps]: the
    paging of the contacts ends with all of them, in order). [ConversationActions] is
    hooks/useConversationActions.ts and the leaving of views in useConversationNavigation.ts.
    [Composer] is components/MessageInput.tsx with its drafts, on the desk of
    components/ConversationPane.tsx that takes composers down and mounts others: what is sent from
    the field fits the packet, a draft is there on return. [SearchView] is components/SearchView.tsx
    over a server whose list changes between the answers: the results are of the query and the
    version searched, each once, and a beginning of the server's list while that only grows at its
    front.

    Packets. [PacketWire] is the payload parser of utils/pathUtils.ts against an encoder of the
    layout; [PathUtils] the routes, hops and distances; [RawPacketStore] the stores of packets,
    refined by buffers that scan; [RawPacketStats] the statistics; [Visualizer] and [NetworkGraph]
    the packet network of networkGraph/packetNetworkGraph.ts, an invariant graph; [VisualizerFocus],
    [VisualizerDirectory] and [VisualizerData] the packet handed to the visualizer, the names its
    nodes take from the directory, and its hook ([VisualizerDataProps], [VisualizerStream]: a packet
    that waits is shown when its window ends; between two resets the network drawn is the fold of
    what was heard and of the prune ticks). [CommunityFrames] and [LivePackets] are
    utils/livePackets.ts and stores/livePacketStore.ts: frames of other observers, the lines they
    are drawn through, the rays of a flood.

    Group data. [Aes] is the cipher written in utils/parseGroupData.ts ([AesProps] proves it
    inverts FIPS 197), [GroupData] the envelopes and payloads, over the class
    [ChannelCryptoLib] of the package's hash and MAC; [HashtagProps] proves the search of
    channel names, whose code GroupData holds too.

    Hooks that poll. [RepeaterDashboard] is hooks/useRepeaterDashboard.ts, the calls under way as
    state ([RepeaterDashboardProps], [RepeaterDashboardErrors]: no spinner without a call, bounded
    requests to the mesh, everything settles). [ObserverReach] is hooks/useVisibleObserverReach.ts
    ([ObserverReachProps], [ObserverReachLive]: a final count stays, a count that is not final is
    polled while its message is young). [OssUpdates] is hooks/useOssUpdates.ts ([OssUpdatesProps],
    [OssUpdatesLive]: the page reloads only on the answer that was waited for, and the wait ends).
    [RadioWifi] and [RadioControl] are stores/radioWifiStore.ts and hooks/useRadioControl.ts.
    [CommunityStore] is stores/communityStore.ts. [MeshTest] and [MeshTestView] are the radio test
    ([MeshTestProps], [MeshTestViewProps], [MeshTestLife]: a run that listens is polled, a report
    belongs to its run, a page opened again listens on). [Locate] is utils/locateOverlay.ts and
    components/LocatePane.tsx ([LocateProofs]: no hop is lost by the overlays, the spinners stand
    for requests).

    Text. [RichPayloads] is utils/meshcoreOpenPayloads.ts, the payloads carried as text;
    [TextReplace] is utils/textReplace.ts.
    A file [XProps] proves what [X] promises and opens with what it shows; a small component has its
    theorems in its own file, after its definitions.

    ** How code becomes definitions

    A function of the source is a definition of its name, guards and early returns in their order; a
    loop is a fold or a fixpoint, its body a definition of its own. [null] and [undefined] are
    [None]; a function that can throw returns an option, [None] being the throw, where its callers
    do not catch. A React hook is a record of its state, refs and props. An event (a render with
    other props, a call, a reply, a timer) runs to its end; React then renders and runs the effects,
    before the next event. An updater given to a state setter runs at the call, or in that render
    when another update is queued, as React does; where the code reads its result at once, an event
    says which ([EvQueued] of [ConversationHook]). A request is put in flight by the event that
    sends it and answered, refused or aborted by a later one, in any order; the theorems about hooks
    quantify over the lists of events.

    Integers the client counts or compares are [Z]; 32-bit operations wrap ([to_int32], [u32],
    [wrap32]); coordinates, signal strengths and shares are binary64.

    ** Parameters

    Code that is not in the repository is an argument: the packet decoder (the class
    [MeshDecoder]), the hash, MAC and message decryption of the decoder package (the class
    [ChannelCryptoLib]), [Math.sin], [Math.cos] and [Math.atan2] (the class [JsMath]),
    [JSON.parse] and [JSON.stringify] of what is kept in the storage (the classes [RunText] and
    [IdsText] with their laws), [localeCompare], the text of a number, locale time formats, the
    Unicode tables behind [toLowerCase] on names and [Extended_Pictographic], and [i18n.t].
    [Date.now()] and [Math.random()] are arguments of the event that reads them. No theorem
    assumes anything of them that its statement, or a class it names, does not say.

    ** Bounds

    Fuel is spent by definitions whose recursion is not structural, and is always enough: a star
    of [Regex] uses the length of what is left, each turn consuming; [Router]'s effects get four
    renders, and [RouterProps.router_settles] shows that is enough; [linked_references],
    [cut_hops], [replace_loop] and [chunks_from] get the length of the input and advance at each
    turn; [digits] gets the number of binary digits and divides at each turn; the multiplication
    of [Aes] gets 32 turns for a multiplier of 8 bits. The paging of the contacts has no fuel: it
    is an interaction tree, and that it ends is a theorem.

    ** Not modelled

    The markup of the views (components/), the drawing of the maps, of the 3D scene and its
    force simulation; the endpoints of api.ts, whose replies are events; third-party packages;
    the display texts of the packet inspector and its cache; message previews; the ring in which
    the disks of a located node meet; preferences kept in localStorage; meshcore:// links, the
    badge of the icon, toasts, sounds and console output. The server is a separate program. *)

From stdpp Require Export base tactics option list gmap sets sorting.
From Stdlib Require Export ZArith Lia.

#[global] Open Scope Z_scope.

Declare Scope meshloom_scope.
Delimit Scope meshloom_scope with meshloom.
#[global] Open Scope meshloom_scope.

(** JavaScript's [a && b] and [a || b] on conditions are [andb] and [orb];
    [===] on a type with decidable equality is [a =? b] below. *)
Notation "a ≟ b" := (bool_decide (a = b)) (at level 70, no associativity) : meshloom_scope.

(** [x ?? d]: the value of a nullable, or the default. *)
Notation "x ?? d" := (default d x) (at level 60, right associativity) : meshloom_scope.

(** The length of an array or a string, as the integer JavaScript gives it. *)
Definition len {A} (l : list A) : Z := Z.of_nat (length l).

(** ** Record updates

    [r <| f := v |>] is JavaScript's [{...r, f: v}]. The setter of a field is found
    from the record's eta expansion, which each state record gives as an [Eta] instance. *)

Class Eta (R : Type) := eta : R -> R.
Class Setter {R T : Type} (proj : R -> T) := set : (T -> T) -> R -> R.
Arguments set {R T} proj {_} f r : simpl nomatch.

Ltac build_setter proj :=
  lazymatch type of proj with
  | ?R -> _ =>
    let i := constr:(_ : Eta R) in
    let e := eval red in i in
    lazymatch eval pattern proj in e with
    | ?k _ => exact (fun f => k (fun r => f (proj r)))
    end
  end.
#[export] Hint Extern 1 (Setter ?proj) => build_setter proj : typeclass_instances.

Notation "r <| proj := v |>" := (set proj (fun _ => v) r)
  (at level 1, left associativity, proj at level 0, v at level 200) : meshloom_scope.

(** ** Tactics *)

(** Splits every boolean comparison of integers in the goal. *)
Ltac split_cmp :=
  repeat match goal with
  | |- context [?a <? ?b] => destruct (Z.ltb_spec a b)
  | |- context [?a <=? ?b] => destruct (Z.leb_spec a b)
  | |- context [?a =? ?b] => destruct (Z.eqb_spec a b)
  end.

(** Turns boolean tests among the hypotheses into the propositions they decide. *)
Ltac to_prop :=
  repeat match goal with
  | H : _ && _ = true |- _ => apply andb_true_iff in H as [? ?]
  | H : _ || _ = false |- _ => apply orb_false_iff in H as [? ?]
  | H : _ || _ = true |- _ => apply orb_true_iff in H
  | H : _ && _ = false |- _ => apply andb_false_iff in H
  | H : negb _ = true |- _ => apply negb_true_iff in H
  | H : negb _ = false |- _ => apply negb_false_iff in H
  | H : (_ <? _) = true |- _ => apply Z.ltb_lt in H
  | H : (_ <? _) = false |- _ => apply Z.ltb_ge in H
  | H : (_ <=? _) = true |- _ => apply Z.leb_le in H
  | H : (_ <=? _) = false |- _ => apply Z.leb_gt in H
  | H : (_ =? _) = true |- _ => apply Z.eqb_eq in H
  | H : (_ =? _) = false |- _ => apply Z.eqb_neq in H
  | H : bool_decide _ = true |- _ => apply bool_decide_eq_true in H
  | H : bool_decide _ = false |- _ => apply bool_decide_eq_false in H
  end.

(** Case analysis on the innermost test of the goal, with the equations as propositions. *)
Ltac cases := repeat (case_match; to_prop; simplify_eq/=).

(** Splits on the outermost test of an equation's left side;
    [pass_ifs] passes the tests whose positive branch is absurd. *)
Ltac split_if :=
  lazymatch goal with
  | |- (if ?b then _ else _) = _ => destruct b eqn:?
  | |- (if ?b then _ else _) = _ -> _ => destruct b eqn:?
  end.
Ltac pass_ifs := repeat (split_if; [done|]).

(** Decides a closed proposition by evaluation. *)
Lemma decide_by_vm (P : Prop) `{!Decision P} : bool_decide P = true -> P.
Proof. apply bool_decide_eq_true_1. Qed.

(** ** Lists *)

Section lists.
Context {A B : Type}.
Implicit Types l k : list A.

Lemma len_nil : len (@nil A) = 0.
Proof. reflexivity. Qed.

Lemma len_cons (x : A) l : len (x :: l) = len l + 1.
Proof. unfold len. simpl. lia. Qed.

Lemma len_app l k : len (l ++ k) = len l + len k.
Proof. unfold len. rewrite length_app. lia. Qed.

Lemma len_nonneg l : 0 <= len l.
Proof. unfold len. lia. Qed.

Lemma len_fmap (f : A -> B) l : len (f <$> l) = len l.
Proof. unfold len. by rewrite length_fmap. Qed.

Lemma len_zero l : len l = 0 -> l = [].
Proof. destruct l; [done|]. rewrite len_cons. pose proof (len_nonneg l). lia. Qed.

Lemma len_drop n l : len (drop n l) = Z.max 0 (len l - Z.of_nat n).
Proof. unfold len. rewrite length_drop. lia. Qed.

Lemma len_filter_le (P : A -> Prop) `{!∀ x, Decision (P x)} l : len (filter P l) <= len l.
Proof. unfold len. pose proof (length_filter P l). lia. Qed.

Lemma Forall_filter (P Q : A -> Prop) `{!∀ x, Decision (Q x)} l :
  Forall P l -> Forall P (filter Q l).
Proof. rewrite !Forall_forall. intros Hall x [_ Hx]%list_elem_of_filter. auto. Qed.

Lemma NoDup_fmap_filter (f : A -> B) (P : A -> Prop) `{!∀ x, Decision (P x)} l :
  NoDup (f <$> l) -> NoDup (f <$> filter P l).
Proof.
  intros Hnd. eapply sublist_NoDup; [exact Hnd|].
  apply fmap_sublist, sublist_filter.
Qed.

Lemma NoDup_fmap_drop (f : A -> B) n l : NoDup (f <$> l) -> NoDup (f <$> drop n l).
Proof. rewrite fmap_drop. intros Hnd. eapply sublist_NoDup; [done|apply sublist_drop]. Qed.

Lemma NoDup_fmap_take (f : A -> B) n l : NoDup (f <$> l) -> NoDup (f <$> take n l).
Proof. rewrite fmap_take. intros Hnd. eapply sublist_NoDup; [done|apply sublist_take]. Qed.

Lemma foldl_pointwise (f g : B -> A -> B) l b :
  (forall b x, f b x = g b x) -> foldl f b l = foldl g b l.
Proof. intros E. revert b. induction l as [|x l IH]; intros b; cbn; [done|]. by rewrite E. Qed.

Lemma NoDup_snoc l (x : A) : NoDup (l ++ [x]) <-> NoDup l /\ x ∉ l.
Proof.
  rewrite NoDup_app. split; [intros (?&Hd&_)|intros [? Hx]]; repeat split; try done.
  - intros Hx. by apply (Hd x Hx), list_elem_of_singleton.
  - intros y Hy ->%list_elem_of_singleton. done.
  - apply NoDup_singleton.
Qed.
End lists.

(** ** Runs *)

(** What holds at the start of a run holds at its end, or was lost in a step of kind [Q],
    since which every step was of the kind [S] (those that may not bring it back). *)
Lemma rtc_unless {A} (R S Q : A -> A -> Prop) (P : A -> Prop) (x y : A) :
  P x ->
  (forall a b, rtc R x a -> R a b -> P a -> P b \/ Q a b) ->
  (forall a b, rtc R x a -> R a b -> P b \/ S a b) ->
  rtc R x y ->
  P y \/ exists a b, rtc R x a /\ Q a b /\ rtc S b y.
Proof.
  intros Hx Hkeep Hback. revert y.
  apply (rtc_ind_r (fun y => P y \/ exists a b, rtc R x a /\ Q a b /\ rtc S b y)); [by left|].
  intros b c Hxb Hbc IH. destruct IH as [Hb|(a & b' & Ha & Hq & Hs)].
  - destruct (Hkeep b c Hxb Hbc Hb) as [?|?]; [by left|]. right. by exists b, c.
  - destruct (Hback b c Hxb Hbc) as [?|?]; [by left|]. right. exists a, b'.
    split; [done|]. split; [done|]. by eapply rtc_r.
Qed.

Create HintDb meshloom.
Create Rewrite HintDb len.
#[export] Hint Resolve len_nonneg NoDup_fmap_filter NoDup_fmap_drop NoDup_fmap_take : meshloom.
#[export] Hint Rewrite @len_nil @len_cons @len_app @len_fmap : len.
