(* ===== verification/JsString.v ===== *)
(** JavaScript strings, as sequences of UTF-16 code units, and the operations
    on them that the client uses. *)
From S2P Require Import Prelude.
From stdpp Require Export strings.

#[global] Open Scope Z_scope.
#[global] Open Scope list_scope.
#[global] Open Scope meshloom_scope.

(** A string is its code units. *)
Abbreviation jstr := (list Z).

(** ** UTF-8 (the decoding of [new TextDecoder('utf-8', {fatal: true})]) *)

Definition in_range (lo hi x : Z) : bool := (lo <=? x) && (x <=? hi).

Definition utf16_of_code_point (c : Z) : jstr :=
  if c <? 65536 then [c]
  else let c' := c - 65536 in [55296 + c' / 1024; 56320 + c' mod 1024].

(** The WHATWG decoder: shortest forms only, no surrogates, at most U+10FFFF;
    [None] is the [TypeError] of the fatal mode. *)
Fixpoint utf8_units (bs : list Z) : option jstr :=
  match bs with
  | [] => Some []
  | b0 :: r0 =>
    if b0 <? 128 then cons b0 <$> utf8_units r0
    else match r0 with
    | [] => None
    | b1 :: r1 =>
      if in_range 194 223 b0 then
        if in_range 128 191 b1
        then app (utf16_of_code_point ((b0 - 192) * 64 + (b1 - 128))) <$> utf8_units r1
        else None
      else match r1 with
      | [] => None
      | b2 :: r2 =>
        if in_range 224 239 b0 then
          let lo := if b0 =? 224 then 160 else 128 in
          let hi := if b0 =? 237 then 159 else 191 in
          if in_range lo hi b1 && in_range 128 191 b2
          then app (utf16_of_code_point
                      ((b0 - 224) * 4096 + (b1 - 128) * 64 + (b2 - 128))) <$> utf8_units r2
          else None
        else match r2 with
        | [] => None
        | b3 :: r3 =>
          let lo := if b0 =? 240 then 144 else 128 in
          let hi := if b0 =? 244 then 143 else 191 in
          if in_range 240 244 b0 && in_range lo hi b1
             && in_range 128 191 b2 && in_range 128 191 b3
          then app (utf16_of_code_point
                      ((b0 - 240) * 262144 + (b1 - 128) * 4096 + (b2 - 128) * 64 + (b3 - 128)))
                 <$> utf8_units r3
          else None
        end
      end
    end
  end.

(** [TextDecoder] drops one leading byte order mark. *)
Definition text_decode (bs : list Z) : option jstr :=
  match bs with
  | 239 :: 187 :: 191 :: r => utf8_units r
  | _ => utf8_units bs
  end.

Fixpoint string_bytes (s : string) : list Z :=
  match s with
  | EmptyString => []
  | String c s' => Z.of_nat (Ascii.nat_of_ascii c) :: string_bytes s'
  end.

(** A string literal of the source (its file is UTF-8). *)
Definition js (s : string) : jstr := default [] (utf8_units (string_bytes s)).

(** A nullable string that is [null], [undefined] or empty is falsy. *)
Definition truthy (s : option jstr) : option jstr :=
  match s with Some [] | None => None | Some s => Some s end.

(** ** Slicing and searching *)

(** A relative index: negative counts from the end, and the result is clamped. *)
Definition rel_index (n a : Z) : Z := if a <? 0 then Z.max (n + a) 0 else Z.min a n.

(** [l.slice(a, b)], on strings and arrays. *)
Definition slice {A} (l : list A) (a b : Z) : list A :=
  let n := len l in
  let from := rel_index n a in
  let to := rel_index n b in
  take (Z.to_nat (to - from)) (drop (Z.to_nat from) l).

(** [l.slice(a)]. *)
Definition slice_from {A} (l : list A) (a : Z) : list A := slice l a (len l).

Fixpoint startsWith (s p : jstr) : bool :=
  match p, s with
  | [], _ => true
  | x :: p', y :: s' => (x =? y) && startsWith s' p'
  | _ :: _, [] => false
  end.

(** [s.indexOf(p)], -1 when absent. *)
Fixpoint indexOf_from (i : Z) (s p : jstr) : Z :=
  if startsWith s p then i
  else match s with
  | [] => -1
  | _ :: s' => indexOf_from (i + 1) s' p
  end.
Definition indexOf (s p : jstr) : Z := indexOf_from 0 s p.
Definition str_includes (s p : jstr) : bool := 0 <=? indexOf s p.

Fixpoint join (sep : jstr) (l : list jstr) : jstr :=
  match l with
  | [] => []
  | [s] => s
  | s :: l' => s ++ sep ++ join sep l'
  end.

(** [s.split(c)] for a separator of one code unit. *)
Fixpoint split_char (c : Z) (s : jstr) : list jstr :=
  match s with
  | [] => [[]]
  | x :: s' =>
    if x =? c then [] :: split_char c s'
    else match split_char c s' with
         | [] => [[x]]
         | w :: ws => (x :: w) :: ws
         end
  end.

(** ** Case and white space *)

(** Case mapping is the ASCII one: the client applies it to hexadecimal keys,
    hashes and hop tokens. Other code units are left as they are. *)
Definition unit_upper (c : Z) : Z := if in_range 97 122 c then c - 32 else c.
Definition unit_lower (c : Z) : Z := if in_range 65 90 c then c + 32 else c.
Definition toUpperCase (s : jstr) : jstr := unit_upper <$> s.
Definition toLowerCase (s : jstr) : jstr := unit_lower <$> s.

(** ECMAScript WhiteSpace and LineTerminator, what [trim] and [\s] accept. *)
Definition is_space (c : Z) : bool :=
  in_range 9 13 c || (c =? 32) || (c =? 160) || (c =? 5760) || in_range 8192 8202 c
  || (c =? 8232) || (c =? 8233) || (c =? 8239) || (c =? 8287) || (c =? 12288) || (c =? 65279).

Fixpoint trimStart (s : jstr) : jstr :=
  match s with
  | c :: s' => if is_space c then trimStart s' else s
  | [] => []
  end.
Definition trim (s : jstr) : jstr := reverse (trimStart (reverse (trimStart s))).

(** ** Numerals *)

(** The digits of [n >= 0] in base [b], least significant first. *)
Fixpoint digits_fuel (fuel : nat) (b n : Z) : list Z :=
  match fuel with
  | O => []
  | S f => if n <? b then [n] else n mod b :: digits_fuel f b (n / b)
  end.
Definition digits (b n : Z) : list Z := digits_fuel (S (Z.to_nat (Z.log2 n))) b n.
Definition digit_unit (d : Z) : Z := if d <? 10 then 48 + d else 87 + d.

(** [n.toString(b)] for an integer [n]; a template literal uses base 10. *)
Definition toString_radix (b n : Z) : jstr :=
  if n <? 0 then 45 :: (digit_unit <$> reverse (digits b (- n)))
  else digit_unit <$> reverse (digits b n).
Definition int_str (n : Z) : jstr := toString_radix 10 n.

Definition padStart (s : jstr) (n : Z) (c : Z) : jstr :=
  replicate (Z.to_nat (n - len s)) c ++ s.

(** The value of a hexadecimal digit. *)
Definition hex_val (c : Z) : option Z :=
  if in_range 48 57 c then Some (c - 48)
  else if in_range 97 102 c then Some (c - 87)
  else if in_range 65 70 c then Some (c - 55)
  else None.
Definition is_hex (c : Z) : bool := bool_decide (is_Some (hex_val c)).

(** The value of the longest prefix of hexadecimal digits; [None] when it is empty. *)
Fixpoint hex_prefix (acc : option Z) (s : jstr) : option Z :=
  match s with
  | [] => acc
  | c :: s' =>
    match hex_val c with
    | Some d => hex_prefix (Some (default 0 acc * 16 + d)) s'
    | None => acc
    end
  end.

(** [Number.parseInt(s, 16)]: leading white space, a sign, an optional [0x], then
    the longest prefix of digits. [None] is [NaN]. *)
Definition parseInt16 (s : jstr) : option Z :=
  let s := trimStart s in
  let '(neg, s) :=
    match s with
    | 45 :: s' => (true, s')
    | 43 :: s' => (false, s')
    | _ => (false, s)
    end in
  let s :=
    match s with
    | 48 :: 120 :: s' | 48 :: 88 :: s' => s'
    | _ => s
    end in
  (fun n => if neg : bool then - n else n) <$> hex_prefix None s.

(** ToInt32, which the bitwise operators apply to their operands; [NaN] gives 0. *)
Definition wrap32 (n : Z) : Z := (n + 2147483648) mod 4294967296 - 2147483648.
Definition to_int32 (n : option Z) : Z := default 0 (wrap32 <$> n).

(** Comparison of strings by code units ([<], and [sort] without a comparator). *)
Fixpoint str_compare (s t : jstr) : comparison :=
  match s, t with
  | [], [] => Eq
  | [], _ :: _ => Lt
  | _ :: _, [] => Gt
  | x :: s', y :: t' => match x ?= y with Eq => str_compare s' t' | c => c end
  end.

(** ** Lemmas *)

Lemma js_emoji_example : js "a👍" = [97; 55357; 56397].
Proof. reflexivity. Qed.

Lemma length_toUpperCase s : length (toUpperCase s) = length s.
Proof. apply length_fmap. Qed.
Lemma length_toLowerCase s : length (toLowerCase s) = length s.
Proof. apply length_fmap. Qed.
Lemma len_toUpperCase s : len (toUpperCase s) = len s.
Proof. apply len_fmap. Qed.
Lemma len_toLowerCase s : len (toLowerCase s) = len s.
Proof. apply len_fmap. Qed.

Lemma in_range_true lo hi x : in_range lo hi x = true <-> lo <= x <= hi.
Proof. unfold in_range. rewrite andb_true_iff, !Z.leb_le. done. Qed.
Lemma in_range_false lo hi x : in_range lo hi x = false <-> x < lo \/ hi < x.
Proof. unfold in_range. rewrite andb_false_iff, !Z.leb_gt. lia. Qed.

(** Splits on every range test, leaving its bounds as hypotheses. *)
Ltac ranges :=
  repeat match goal with
  | H : in_range _ _ _ = true |- _ => apply in_range_true in H
  | H : in_range _ _ _ = false |- _ => apply in_range_false in H
  | |- context [in_range ?lo ?hi ?x] => destruct (in_range lo hi x) eqn:?
  end.

Lemma unit_upper_idemp c : unit_upper (unit_upper c) = unit_upper c.
Proof. unfold unit_upper. ranges; lia. Qed.
Lemma unit_lower_idemp c : unit_lower (unit_lower c) = unit_lower c.
Proof. unfold unit_lower. ranges; lia. Qed.

Lemma toUpperCase_idemp s : toUpperCase (toUpperCase s) = toUpperCase s.
Proof.
  unfold toUpperCase. rewrite <- list_fmap_compose. apply list_fmap_ext.
  intros. apply unit_upper_idemp.
Qed.
Lemma toLowerCase_idemp s : toLowerCase (toLowerCase s) = toLowerCase s.
Proof.
  unfold toLowerCase. rewrite <- list_fmap_compose. apply list_fmap_ext.
  intros. apply unit_lower_idemp.
Qed.

Lemma toLowerCase_app s t : toLowerCase (s ++ t) = toLowerCase s ++ toLowerCase t.
Proof. apply fmap_app. Qed.
Lemma toUpperCase_app s t : toUpperCase (s ++ t) = toUpperCase s ++ toUpperCase t.
Proof. apply fmap_app. Qed.

(** Slices with indexes in range are the usual take and drop. *)
Lemma slice_nonneg {A} (l : list A) a b :
  0 <= a -> 0 <= b -> slice l a b = take (Z.to_nat b - Z.to_nat a) (drop (Z.to_nat a) l).
Proof.
  intros Ha Hb. unfold slice, rel_index. pose proof (len_nonneg l).
  replace (a <? 0) with false by (symmetry; apply Z.ltb_ge; lia).
  replace (b <? 0) with false by (symmetry; apply Z.ltb_ge; lia).
  unfold len in *.
  destruct (Z.le_gt_cases a (Z.of_nat (length l))) as [Hle|Hgt].
  - rewrite (Z.min_l a) by lia.
    destruct (Z.le_gt_cases b (Z.of_nat (length l))).
    + rewrite Z.min_l by lia. f_equal. lia.
    + rewrite Z.min_r by lia. rewrite !take_ge by (rewrite length_drop; lia). done.
  - rewrite (Z.min_r a) by lia. rewrite !drop_ge by lia. by rewrite !take_nil.
Qed.

Lemma slice_from_nonneg {A} (l : list A) a :
  0 <= a -> slice_from l a = drop (Z.to_nat a) l.
Proof.
  intros Ha. unfold slice_from. rewrite slice_nonneg by (auto using len_nonneg).
  apply take_ge. rewrite length_drop. unfold len. lia.
Qed.

Lemma slice_to {A} (l : list A) b : 0 <= b -> slice l 0 b = take (Z.to_nat b) l.
Proof. intros. rewrite slice_nonneg by lia. by rewrite Nat.sub_0_r, drop_0. Qed.

Lemma len_slice_le {A} (l : list A) b : 0 <= b -> len (slice l 0 b) <= b.
Proof. intros. rewrite slice_to by done. unfold len. rewrite length_take. lia. Qed.

(** A slice between the ends of a middle segment is that segment. *)
Lemma slice_app_mid {A} (l k r : list A) a b :
  a = len l -> b = len l + len k -> slice (l ++ k ++ r) a b = k.
Proof.
  intros -> ->. pose proof (len_nonneg l); pose proof (len_nonneg k).
  rewrite slice_nonneg by lia. unfold len. rewrite Z2Nat.inj_add, !Nat2Z.id by lia.
  rewrite drop_app_length. replace (_ + _ - _)%nat with (length k) by lia.
  apply take_app_length.
Qed.

Lemma slice_app_front {A} (k r : list A) b : b = len k -> slice (k ++ r) 0 b = k.
Proof. intros ->. by apply (slice_app_mid [] k r). Qed.

Lemma slice_from_app {A} (l r : list A) a : a = len l -> slice_from (l ++ r) a = r.
Proof.
  intros ->. rewrite slice_from_nonneg by auto with meshloom.
  unfold len. rewrite Nat2Z.id. apply drop_app_length.
Qed.

Lemma len_slice {A} (l : list A) a b : 0 <= a <= b -> b <= len l -> len (slice l a b) = b - a.
Proof.
  intros. rewrite slice_nonneg by lia. unfold len in *. rewrite length_take, length_drop. lia.
Qed.

(** Adjacent slices join. *)
Lemma slice_split {A} (l : list A) a b c :
  0 <= a <= b -> b <= c -> slice l a b ++ slice l b c = slice l a c.
Proof.
  intros. rewrite !slice_nonneg by lia.
  replace (drop (Z.to_nat b) l) with (drop (Z.to_nat b - Z.to_nat a) (drop (Z.to_nat a) l))
    by (rewrite drop_drop; f_equal; lia).
  replace (Z.to_nat c - Z.to_nat a)%nat
    with ((Z.to_nat b - Z.to_nat a) + (Z.to_nat c - Z.to_nat b))%nat by lia.
  apply take_take_drop.
Qed.

Lemma slice_full {A} (l : list A) b : len l <= b -> slice l 0 b = l.
Proof.
  intros. pose proof (len_nonneg l). rewrite slice_to by lia. apply take_ge. unfold len in *. lia.
Qed.

(** [l.slice(-n)] is the last [n] elements. *)
Lemma slice_from_neg {A} (l : list A) n :
  0 < n -> slice_from l (- n) = drop (length l - Z.to_nat n) l.
Proof.
  intros Hn. unfold slice_from, slice, rel_index. pose proof (len_nonneg l).
  replace (- n <? 0) with true by (symmetry; apply Z.ltb_lt; lia).
  replace (len l <? 0) with false by (symmetry; apply Z.ltb_ge; lia).
  unfold len in *. rewrite take_ge; [f_equal; lia|]. rewrite length_drop. lia.
Qed.

Lemma len_slice_from_neg {A} (l : list A) n : 0 < n -> len (slice_from l (- n)) <= n.
Proof. intros. rewrite slice_from_neg by done. rewrite len_drop. unfold len. lia. Qed.

Lemma startsWith_spec s p : startsWith s p = true <-> p `prefix_of` s.
Proof.
  revert s. induction p as [|x p IH]; intros s; simpl.
  - split; intros _; [apply prefix_nil | by destruct s].
  - destruct s as [|y s].
    + split; [done|]. intros Hp. by apply prefix_nil_not in Hp.
    + simpl. destruct (Z.eqb_spec x y) as [->|]; simpl.
      * rewrite IH. split; [apply prefix_cons | apply prefix_cons_inv_2].
      * split; [done|]. intros Hp. by apply prefix_cons_inv_1 in Hp.
Qed.

(** *** Numerals are faithful: a non-negative integer is recovered from its digits. *)

Fixpoint digits_value (b : Z) (ds : list Z) : Z :=
  match ds with [] => 0 | d :: ds' => d + b * digits_value b ds' end.

Lemma digits_fuel_value fuel b n :
  2 <= b -> 0 <= n < b ^ Z.of_nat fuel -> digits_value b (digits_fuel fuel b n) = n.
Proof.
  revert n. induction fuel as [|f IH]; intros n Hb Hn; cbn [digits_fuel].
  - change (b ^ Z.of_nat 0) with 1 in Hn. simpl. lia.
  - destruct (Z.ltb_spec n b); simpl; [lia|].
    rewrite Nat2Z.inj_succ, Z.pow_succ_r in Hn by lia.
    rewrite IH; [|done|].
    + pose proof (Z.div_mod n b). lia.
    + split; [apply Z.div_pos; lia|]. apply Z.div_lt_upper_bound; lia.
Qed.

Lemma digits_value_digits b n : 2 <= b -> 0 <= n -> digits_value b (digits b n) = n.
Proof.
  intros Hb Hn. apply digits_fuel_value; [done|]. split; [done|].
  rewrite Nat2Z.inj_succ, Z2Nat.id by apply Z.log2_nonneg.
  destruct (Z.eq_dec n 0) as [->|]; [apply Z.pow_pos_nonneg; pose proof (Z.log2_nonneg 0); lia|].
  apply Z.lt_le_trans with (2 ^ Z.succ (Z.log2 n)); [apply Z.log2_spec; lia|].
  apply Z.pow_le_mono_l. lia.
Qed.

Lemma digits_fuel_bounds fuel b n :
  2 <= b -> 0 <= n -> Forall (fun d => 0 <= d < b) (digits_fuel fuel b n).
Proof.
  intros Hb. revert n. induction fuel as [|f IH]; intros n Hn; cbn [digits_fuel]; [constructor|].
  destruct (Z.ltb_spec n b); constructor; auto with lia.
  - apply Z.mod_pos_bound. lia.
  - apply IH. apply Z.div_pos; lia.
Qed.

Lemma digit_unit_inj c d : 0 <= c < 36 -> 0 <= d < 36 -> digit_unit c = digit_unit d -> c = d.
Proof. unfold digit_unit. split_cmp; lia. Qed.

Lemma fmap_digit_unit_inj l k :
  Forall (fun d => 0 <= d < 36) l -> Forall (fun d => 0 <= d < 36) k ->
  digit_unit <$> l = digit_unit <$> k -> l = k.
Proof.
  intros Hl. revert k. induction Hl as [|x l Hx Hl IH]; intros k Hk E.
  - symmetry in E. by apply fmap_nil_inv in E.
  - destruct Hk as [|y k Hy Hk]; [done|]. simplify_eq/=.
    f_equal; [by apply digit_unit_inj | by apply IH].
Qed.

Lemma toString_radix_inj b m n :
  2 <= b <= 36 -> 0 <= m -> 0 <= n -> toString_radix b m = toString_radix b n -> m = n.
Proof.
  intros Hb Hm Hn. unfold toString_radix.
  replace (m <? 0) with false by (symmetry; apply Z.ltb_ge; lia).
  replace (n <? 0) with false by (symmetry; apply Z.ltb_ge; lia).
  assert (Hd : forall k, 0 <= k -> Forall (fun d => 0 <= d < 36) (digits b k)).
  { intros k Hk. eapply Forall_impl; [apply digits_fuel_bounds; lia|]. simpl. lia. }
  intros E. apply fmap_digit_unit_inj in E; [|by apply Forall_reverse, Hd..].
  apply (f_equal reverse) in E. rewrite !reverse_involutive in E.
  rewrite <- (digits_value_digits b m), <- (digits_value_digits b n) by lia. by rewrite E.
Qed.

Lemma int_str_inj m n : 0 <= m -> 0 <= n -> int_str m = int_str n -> m = n.
Proof. intros. by apply (toString_radix_inj 10). Qed.

(** Numerals of non-negative integers hold digits only. *)
Definition is_digit (c : Z) : bool := in_range 48 57 c.

Lemma int_str_digits n : 0 <= n -> Forall (fun c => is_digit c = true) (int_str n).
Proof.
  intros Hn. unfold int_str, toString_radix.
  replace (n <? 0) with false by (symmetry; apply Z.ltb_ge; lia).
  apply Forall_fmap. apply Forall_reverse.
  eapply Forall_impl; [apply digits_fuel_bounds; lia|].
  intros d Hd. unfold compose, is_digit, digit_unit. cbn beta in *. apply in_range_true. split_cmp; lia.
Qed.

(** [trim] leaves a string alone that starts and ends with something else than white space. *)
Lemma trimStart_id s : match s with c :: _ => is_space c = false | [] => True end -> trimStart s = s.
Proof. destruct s as [|c s]; cbn; [done|]. by intros ->. Qed.

Lemma trim_id c s d : is_space c = false -> is_space d = false -> trim (c :: s ++ [d]) = c :: s ++ [d].
Proof.
  intros Hc Hd. unfold trim. rewrite (trimStart_id (c :: s ++ [d])) by exact Hc.
  rewrite app_comm_cons, reverse_snoc, trimStart_id by exact Hd.
  by rewrite reverse_cons, reverse_involutive.
Qed.

Lemma trimStart_snoc s c : is_space c = false -> trimStart (s ++ [c]) = trimStart s ++ [c].
Proof. intros Hc. induction s as [|d s IH]; cbn; [by rewrite Hc|]. rewrite IH. by destruct (is_space d). Qed.

Lemma trimStart_idemp s : trimStart (trimStart s) = trimStart s.
Proof. induction s as [|c s IH]; [done|]. cbn. destruct (is_space c) eqn:E; [done|]. cbn. by rewrite E. Qed.

Lemma trimStart_head s c t : trimStart s = c :: t -> is_space c = false.
Proof. induction s as [|d s IH]; [done|]. cbn. destruct (is_space d) eqn:E; [done|]. by intros [= <- <-]. Qed.

Lemma trim_idemp s : trim (trim s) = trim s.
Proof.
  unfold trim at 2 3. destruct (trimStart s) as [|c t] eqn:E; [done|].
  assert (Hc := trimStart_head _ _ _ E). rewrite reverse_cons, trimStart_snoc, reverse_snoc by done.
  unfold trim. rewrite (trimStart_id (c :: _)) by done.
  by rewrite reverse_cons, reverse_involutive, trimStart_snoc, trimStart_idemp, reverse_snoc.
Qed.
