(* ===== verification/JsCollections.v ===== *)
(** JavaScript's [Map] with its insertion order, and [Array.prototype.sort]. *)
From S2P Require Import Prelude JsString.

(** ** Map *)

Section ordered_map.
Context {K V : Type} `{EqDecision K}.
Implicit Types (m : list (K * V)) (k : K) (v : V).

(** A [Map] is its entries in insertion order. *)
Fixpoint om_get m k : option V :=
  match m with
  | [] => None
  | (k', v) :: m' => if decide (k' = k) then Some v else om_get m' k
  end.

(** [set] keeps the place of a key that is present, and appends one that is not. *)
Fixpoint om_set m k v : list (K * V) :=
  match m with
  | [] => [(k, v)]
  | (k', v') :: m' => if decide (k' = k) then (k, v) :: m' else (k', v') :: om_set m' k v
  end.

Definition om_delete m k : list (K * V) := filter (fun p => p.1 <> k) m.
Definition om_keys m : list K := m.*1.

(** [m.keys().next().value] *)
Definition om_first_key m : option K := head (om_keys m).

(** A map never holds a key twice. *)
Definition om_wf m : Prop := NoDup (om_keys m).

Lemma om_get_set_eq m k v : om_get (om_set m k v) k = Some v.
Proof. induction m as [|[k' v'] m IH]; simpl; repeat (case_decide; simpl); congruence. Qed.

Lemma om_get_set_ne m k k' v : k <> k' -> om_get (om_set m k v) k' = om_get m k'.
Proof.
  intros Hne. induction m as [|[k1 v1] m IH]; simpl; repeat (case_decide; simpl); congruence.
Qed.

Lemma om_get_delete_eq m k : om_get (om_delete m k) k = None.
Proof.
  unfold om_delete. induction m as [|[k1 v1] m IH]; [done|].
  rewrite filter_cons. simpl. case_decide; simpl; [by rewrite decide_False|done].
Qed.

Lemma om_get_delete_ne m k k' : k <> k' -> om_get (om_delete m k) k' = om_get m k'.
Proof.
  intros Hne. unfold om_delete. induction m as [|[k1 v1] m IH]; [done|].
  rewrite filter_cons. simpl. repeat (case_decide; simpl); congruence.
Qed.

Lemma om_get_Some_elem m k v : om_get m k = Some v -> (k, v) ∈ m.
Proof.
  induction m as [|[k1 v1] m IH]; simpl; [done|].
  case_decide; intros; simplify_eq; [left|right]; auto.
Qed.

Lemma om_elem_get m k v : om_wf m -> (k, v) ∈ m -> om_get m k = Some v.
Proof.
  unfold om_wf, om_keys. induction m as [|[k1 v1] m IH]; intros Hwf Hin; simpl.
  - by apply not_elem_of_nil in Hin.
  - apply NoDup_cons in Hwf as [Hni Hwf].
    apply elem_of_cons in Hin as [E|Hin]; simplify_eq; [by rewrite decide_True|].
    rewrite decide_False; [by apply IH|]. intros ->. apply Hni.
    apply list_elem_of_fmap. by exists (k, v).
Qed.

Lemma om_get_None m k : om_get m k = None <-> k ∉ om_keys m.
Proof.
  unfold om_keys. induction m as [|[k1 v1] m IH]; simpl.
  - split; [intros _; apply not_elem_of_nil|done].
  - rewrite not_elem_of_cons. case_decide; [split; [done|intros []; congruence]|].
    rewrite IH. intuition congruence.
Qed.

Lemma om_keys_set_present m k v : k ∈ om_keys m -> om_keys (om_set m k v) = om_keys m.
Proof.
  unfold om_keys. induction m as [|[k1 v1] m IH]; simpl; intros Hin.
  - by apply not_elem_of_nil in Hin.
  - case_decide as Hd; simpl; [by rewrite Hd|]. f_equal. apply IH.
    by apply elem_of_cons in Hin as [->|].
Qed.

Lemma om_set_absent m k v : k ∉ om_keys m -> om_set m k v = m ++ [(k, v)].
Proof.
  unfold om_keys. induction m as [|[k1 v1] m IH]; simpl; intros Hin; [done|].
  apply not_elem_of_cons in Hin as [? ?]. rewrite decide_False by congruence.
  f_equal. by apply IH.
Qed.

Lemma om_wf_set m k v : om_wf m -> om_wf (om_set m k v).
Proof.
  unfold om_wf. intros Hwf. destruct (decide (k ∈ om_keys m)) as [Hin|Hni].
  - by rewrite om_keys_set_present.
  - rewrite om_set_absent by done. unfold om_keys in *. rewrite fmap_app. simpl.
    by apply NoDup_snoc.
Qed.

Lemma om_keys_delete m k : om_keys (om_delete m k) = filter (fun k' => k' <> k) (om_keys m).
Proof.
  unfold om_keys, om_delete. induction m as [|[k1 v1] m IH]; [done|].
  rewrite fmap_cons, !filter_cons. cbn [fst].
  case_decide; [rewrite fmap_cons; by f_equal | done].
Qed.

Lemma om_wf_delete m k : om_wf m -> om_wf (om_delete m k).
Proof. unfold om_wf. rewrite om_keys_delete. apply NoDup_filter. Qed.

Lemma om_delete_notin m k : k ∉ om_keys (om_delete m k).
Proof. rewrite om_keys_delete, list_elem_of_filter. tauto. Qed.

Lemma om_delete_absent m k : k ∉ om_keys m -> om_delete m k = m.
Proof.
  unfold om_keys, om_delete. intros Hni. induction m as [|[k1 v1] m IH]; [done|].
  rewrite filter_cons. simpl in *. apply not_elem_of_cons in Hni as [? ?].
  rewrite decide_True by congruence. f_equal. by apply IH.
Qed.

(** Deleting a present key shortens the map by one. *)
Lemma om_delete_length m k :
  om_wf m -> k ∈ om_keys m -> S (length (om_delete m k)) = length m.
Proof.
  unfold om_wf. induction m as [|[k1 v1] m IH]; simpl; intros Hwf Hin.
  - by apply not_elem_of_nil in Hin.
  - apply NoDup_cons in Hwf as [Hni Hwf]. unfold om_delete. rewrite filter_cons. simpl.
    case_decide as Hd.
    + simpl. f_equal. apply IH; [done|]. by apply elem_of_cons in Hin as [->|].
    + destruct (decide (k1 = k)) as [->|]; [|done]. f_equal.
      change (length (om_delete m k) = length m). by rewrite om_delete_absent.
Qed.

Lemma om_delete_length_le m k : (length (om_delete m k) <= length m)%nat.
Proof. apply length_filter. Qed.

Lemma om_elem_set m k v p : p ∈ om_set m k v -> p = (k, v) \/ p ∈ m.
Proof.
  induction m as [|[k1 v1] m IH]; simpl.
  - intros ->%list_elem_of_singleton. by left.
  - case_decide; rewrite !elem_of_cons; [tauto|]. intros [->|Hin]; [tauto|].
    apply IH in Hin. tauto.
Qed.

Lemma om_get_app m n k :
  om_get (m ++ n) k = match om_get m k with Some v => Some v | None => om_get n k end.
Proof. induction m as [|[k1 v1] m IH]; cbn; [done|]. by case_decide. Qed.

Lemma om_elem_delete m k p : p ∈ om_delete m k -> p ∈ m /\ p.1 <> k.
Proof. unfold om_delete. rewrite list_elem_of_filter. tauto. Qed.
End ordered_map.

#[export] Hint Resolve om_wf_set om_wf_delete om_delete_notin : meshloom.

(** ** Sorting *)

Section sort.
Context {A : Type} (cmp : A -> A -> comparison).

(** [Array.prototype.sort] is stable: [x], which comes before the elements of
    [l] in the array, goes before the first one it does not exceed. The sign of
    the comparator's result is the [comparison]; a zero or [NaN] is [Eq]. *)
Fixpoint insert_sorted (x : A) (l : list A) : list A :=
  match l with
  | [] => [x]
  | y :: l' => match cmp x y with Gt => y :: insert_sorted x l' | _ => x :: y :: l' end
  end.
Definition js_sort (l : list A) : list A := foldr insert_sorted [] l.

Lemma insert_sorted_perm x l : insert_sorted x l ≡ₚ x :: l.
Proof.
  induction l as [|y l IH]; simpl; [done|]. destruct (cmp x y); try done.
  rewrite IH. apply Permutation_swap.
Qed.

Lemma js_sort_perm l : js_sort l ≡ₚ l.
Proof. induction l as [|x l IH]; simpl; [done|]. by rewrite insert_sorted_perm, IH. Qed.

Lemma length_js_sort l : length (js_sort l) = length l.
Proof. by rewrite js_sort_perm. Qed.

(** The order a comparator decides. *)
Definition cmp_le (x y : A) : Prop := cmp x y <> Gt.

Class TotalPreorder : Prop := {
  cmp_total : forall x y, cmp_le x y \/ cmp_le y x;
  cmp_trans : forall x y z, cmp_le x y -> cmp_le y z -> cmp_le x z;
}.

Lemma insert_sorted_Sorted `{TotalPreorder} x l :
  StronglySorted cmp_le l -> StronglySorted cmp_le (insert_sorted x l).
Proof.
  induction l as [|y l IH]; simpl; intros Hs; [repeat constructor|].
  inversion Hs as [|? ? Hs' Hall]; subst.
  destruct (cmp x y) eqn:E.
  1,2: constructor; [done|]; constructor; [unfold cmp_le; congruence|];
       eapply Forall_impl; [exact Hall|]; intros z; apply cmp_trans; unfold cmp_le; congruence.
  constructor; [by apply IH|].
  rewrite insert_sorted_perm. constructor; [|done].
  destruct (cmp_total x y) as [Hc|Hc]; [by destruct Hc|done].
Qed.

Lemma js_sort_Sorted `{TotalPreorder} l : StronglySorted cmp_le (js_sort l).
Proof. induction l; simpl; [constructor|]. by apply insert_sorted_Sorted. Qed.

(** An order the comparator respects without deciding it, as the first key of several. *)
Lemma insert_sorted_coarse (R : A -> A -> Prop) `{!Transitive R} x l :
  (forall x y, cmp x y <> Gt -> R x y) -> (forall x y, cmp x y = Gt -> R y x) ->
  StronglySorted R l -> StronglySorted R (insert_sorted x l).
Proof.
  intros Hle Hgt. induction l as [|y l IH]; simpl; intros Hs; [repeat constructor|].
  inversion Hs as [|? ? Hs' Hall]; subst.
  destruct (cmp x y) eqn:E.
  1,2: assert (R x y) by (apply Hle; congruence);
       constructor; [done|]; constructor; [done|]; eapply Forall_impl; [exact Hall|]; intros z; by etrans.
  constructor; [by apply IH|]. rewrite insert_sorted_perm. constructor; [by apply Hgt|done].
Qed.

Lemma js_sort_coarse (R : A -> A -> Prop) `{!Transitive R} l :
  (forall x y, cmp x y <> Gt -> R x y) -> (forall x y, cmp x y = Gt -> R y x) ->
  StronglySorted R (js_sort l).
Proof. intros. induction l; simpl; [constructor|]. by apply insert_sorted_coarse. Qed.
End sort.

(** Comparators written [(a, b) => f(a) - f(b)] on integers. *)
Definition by_key {A} (f : A -> Z) (x y : A) : comparison := f x ?= f y.

#[export] Instance by_key_total {A} (f : A -> Z) : TotalPreorder (by_key f).
Proof.
  split; unfold cmp_le, by_key; intros.
  - rewrite !Z.compare_gt_iff. lia.
  - rewrite Z.compare_gt_iff in *. lia.
Qed.

Lemma str_compare_antisym s t : str_compare s t = CompOpp (str_compare t s).
Proof.
  revert t. induction s as [|x s IH]; intros [|y t]; simpl; try done.
  rewrite (Z.compare_antisym x y). destruct (x ?= y); simpl; auto.
Qed.

Lemma str_compare_Eq s t : str_compare s t = Eq -> s = t.
Proof.
  revert t. induction s as [|x s IH]; intros [|y t]; simpl; try done.
  destruct (Z.compare_spec x y); try done. intros E%IH. by subst.
Qed.

#[export] Instance str_compare_total : TotalPreorder str_compare.
Proof.
  split; unfold cmp_le.
  - intros s t. rewrite (str_compare_antisym t s). destruct (str_compare s t); simpl; auto.
  - intros s. induction s as [|x s IH]; intros [|y t] [|z u]; cbn; try done.
    destruct (Z.compare_spec x y), (Z.compare_spec y z), (Z.compare_spec x z); try done; try lia.
    apply IH.
Qed.

(** [(a, b) => p(a, b) || q(a, b)]: the second comparator breaks the ties of the first. *)
Definition then_by {A} (p q : A -> A -> comparison) (x y : A) : comparison :=
  match p x y with Eq => q x y | c => c end.

Lemma then_by_Gt {A} (p q : A -> A -> comparison) x y :
  then_by p q x y <> Gt -> p x y <> Gt.
Proof. unfold then_by. by destruct (p x y). Qed.

(** ** [Array.prototype.find] *)

Definition array_find {A} (p : A -> bool) (l : list A) : option A := head (filter (fun x => p x = true) l).

Lemma array_find_Some {A} (p : A -> bool) (l : list A) x :
  array_find p l = Some x -> x ∈ l /\ p x = true.
Proof.
  unfold array_find. intros H.
  assert (Hin : x ∈ filter (fun x => p x = true) l).
  { destruct (filter _ l) as [|y k]; [done|]. injection H as ->. by left. }
  apply list_elem_of_filter in Hin as [Hp Hin]. done.
Qed.

Lemma array_find_None {A} (p : A -> bool) (l : list A) x :
  array_find p l = None -> x ∈ l -> p x = false.
Proof.
  unfold array_find. intros H Hin. destruct (p x) eqn:Ep; [|done].
  assert (Hf : x ∈ filter (fun x => p x = true) l) by by apply list_elem_of_filter.
  destruct (filter _ l); [by apply not_elem_of_nil in Hf|done].
Qed.

Lemma array_find_unique {A} (p : A -> bool) (l : list A) x :
  x ∈ l -> p x = true -> (forall y, y ∈ l -> p y = true -> y = x) -> array_find p l = Some x.
Proof.
  intros Hin Hp Hu. unfold array_find. induction l as [|y l IH]; [by apply not_elem_of_nil in Hin|].
  rewrite filter_cons. destruct (decide (p y = true)) as [Hy|Hy].
  - cbn. by rewrite (Hu y (list_elem_of_here _ _) Hy).
  - apply IH; [|intros z Hz; apply Hu; by right].
    apply elem_of_cons in Hin as [->|Hin]; [done|exact Hin].
Qed.
