(* ===== verification/JsNum.v ===== *)
(** JavaScript's number: IEEE 754 binary64, on the Standard Library's executable
    specification [SpecFloat] (no primitive floats, no axiom).

    Quantities the client only counts, indexes or compares as integers (ids,
    lengths, hop counts, timestamps) are [Z] in the other files; [num] is used
    where the value is a fraction: coordinates, SNR, shares, distances. *)
From S2P Require Import Prelude.
From Corelib Require Import SpecFloat.

Abbreviation num := spec_float.

#[export] Instance num_eq_dec : EqDecision num.
Proof. solve_decision. Defined.

Definition num_of_Z (z : Z) : num := binary_normalize 53 1024 z 0 false.

Definition num_add (x y : num) : num := SFadd 53 1024 x y.
Definition num_sub (x y : num) : num := SFsub 53 1024 x y.
Definition num_mul (x y : num) : num := SFmul 53 1024 x y.
Definition num_div (x y : num) : num := SFdiv 53 1024 x y.
Definition num_sqrt (x : num) : num := SFsqrt 53 1024 x.

(** [<], [<=] and [===]: false whenever an operand is [NaN], and the zeros are equal. *)
Definition num_lt (x y : num) : bool := SFltb x y.
Definition num_le (x y : num) : bool := SFleb x y.
Definition num_eq (x y : num) : bool := SFeqb x y.

(** [Number.isFinite] *)
Definition num_isFinite (x : num) : bool :=
  match x with S754_zero _ | S754_finite _ _ _ => true | _ => false end.

(** The decimal literal [p / 10^k] ([p] and [10^k] below 2^53, so the quotient is
    the literal correctly rounded). *)
Definition num_dec (p k : Z) : num := num_div (num_of_Z p) (num_of_Z (10 ^ k)).

(** The binary64 nearest to [± p / q]. *)
Definition num_of_ratio (neg : bool) (p q : Z) : num :=
  match p with
  | Zpos _ => let '(mz, ez, lz) := SFdiv_core_binary 53 1024 p 0 q 0 in
              binary_round_aux 53 1024 neg mz ez lz
  | _ => S754_zero neg
  end.

(** The sign of [x - y], as [sort] reads a comparator's result; [NaN] counts as zero. *)
Definition num_cmp (x y : num) : comparison :=
  match SFcompare (num_sub x y) (S754_zero false) with Some c => c | None => Eq end.

(** [Math.max] and [Math.min] of two numbers. *)
Definition num_max (x y : num) : num :=
  match SFcompare x y with
  | None => S754_nan
  | Some Lt => y
  | Some Gt => x
  | Some Eq => match x with S754_zero true => y | _ => x end
  end.
Definition num_min (x y : num) : num :=
  match SFcompare x y with
  | None => S754_nan
  | Some Gt => y
  | Some Lt => x
  | Some Eq => match x with S754_zero false => y | _ => x end
  end.

(** The value of [Math.floor]: an integer, an infinity or [NaN]. *)
Inductive jint :=
| JInt (z : Z)
| JInfinity (negative : bool)
| JNaN.

Definition math_floor (x : num) : jint :=
  match x with
  | S754_zero _ => JInt 0
  | S754_infinity s => JInfinity s
  | S754_nan => JNaN
  | S754_finite s m e =>
    let z := if s then Zneg m else Zpos m in
    JInt (if 0 <=? e then z * 2 ^ e else z / 2 ^ (- e))
  end.

(** [Math.round]: the nearest integer, halves upwards. *)
Definition math_round (x : num) : jint :=
  match x with
  | S754_zero _ => JInt 0
  | S754_infinity s => JInfinity s
  | S754_nan => JNaN
  | S754_finite s m e =>
    let z := if s then Zneg m else Zpos m in
    JInt (if 0 <=? e then z * 2 ^ e else (2 * z + 2 ^ (- e)) / (2 * 2 ^ (- e)))
  end.

(** [Math.max(lo, Math.min(hi, i))] as an array index; [NaN] is not one. *)
Definition clamp_index (lo hi : Z) (i : jint) : option Z :=
  match i with
  | JInt z => Some (Z.max lo (Z.min hi z))
  | JInfinity s => Some (if s then lo else Z.max lo hi)
  | JNaN => None
  end.

(** The functions of [Math] that ECMAScript leaves to the implementation. *)
Class JsMath := {
  math_sin : num -> num;
  math_cos : num -> num;
  math_atan2 : num -> num -> num;
}.

(** [Math.PI], the double nearest to pi. *)
Definition math_pi : num := S754_finite false 7074237752028440 (-51).

Section comparisons.
Implicit Types x y : num.

Lemma SFcompare_None x y : SFcompare x y = None <-> x = S754_nan \/ y = S754_nan.
Proof.
  destruct x as [[]|[]| |[] mx ex], y as [[]|[]| |[] my ey]; cbn;
    try (split; [congruence | intros []; congruence]); try (split; auto; fail).
  all: split; [|intros []; congruence].
  all: destruct (Z.compare ex ey); congruence.
Qed.

Lemma SFcompare_zero_l s y : SFcompare (S754_zero s) y = SFcompare (S754_zero (negb s)) y.
Proof. by destruct s, y. Qed.

Lemma num_isFinite_not_nan x : num_isFinite x = true -> x <> S754_nan.
Proof. by destruct x. Qed.

(** A finite number is on one side or the other of every finite bound. *)
Lemma num_lt_total x y :
  x <> S754_nan -> y <> S754_nan -> num_lt x y = false -> num_le y x = true.
Proof.
  intros Hx Hy. unfold num_lt, num_le, SFltb, SFleb.
  destruct (SFcompare x y) as [c|] eqn:E;
    [|apply SFcompare_None in E as []; congruence].
  destruct x as [[]|[]| |[] mx ex], y as [[]|[]| |[] my ey]; cbn in *; try congruence; simplify_eq;
    try done.
  all: rewrite (Z.compare_antisym ex ey) in *; destruct (Z.compare ex ey) eqn:E2; cbn in *;
    simplify_eq/=; try done.
  all: change (Pos.compare_cont Eq my mx) with (Pos.compare my mx);
    change (Pos.compare_cont Eq mx my) with (Pos.compare mx my) in *;
    rewrite (Pos.compare_antisym mx my) in *; destruct (Pos.compare mx my); by simplify_eq/=.
Qed.

Lemma num_lt_irrefl x : num_lt x x = false.
Proof.
  unfold num_lt, SFltb. destruct x as [|[]| |[] m e]; cbn; try done;
    rewrite Z.compare_refl; change (Pos.compare_cont Eq m m) with (Pos.compare m m);
    by rewrite Pos.compare_refl.
Qed.

(** The order of finite mantissa and exponent pairs is lexicographic. *)
Lemma magnitude_trans m1 e1 m2 e2 m3 e3 :
  match e1 ?= e2 with Eq => (m1 ?= m2)%positive | c => c end = Lt ->
  match e2 ?= e3 with Eq => (m2 ?= m3)%positive | c => c end = Lt ->
  match e1 ?= e3 with Eq => (m1 ?= m3)%positive | c => c end = Lt.
Proof.
  intros H1 H2. destruct (Z.compare_spec e1 e2), (Z.compare_spec e2 e3); try done; subst;
    destruct (Z.compare_spec e1 e3) || destruct (Z.compare_spec e2 e3) || destruct (Z.compare_spec e3 e3);
    try done; try lia; rewrite Pos.compare_lt_iff in *; lia.
Qed.

Lemma magnitude_flip m1 e1 m2 e2 :
  match e1 ?= e2 with Eq => CompOpp (m1 ?= m2)%positive | Lt => Gt | Gt => Lt end
  = match e2 ?= e1 with Eq => (m2 ?= m1)%positive | c => c end.
Proof. rewrite (Z.compare_antisym e1 e2), (Pos.compare_antisym m1 m2). by destruct (e1 ?= e2). Qed.

Lemma num_lt_trans x y z : num_lt x y = true -> num_lt y z = true -> num_lt x z = true.
Proof.
  assert (Hlt : forall a b, num_lt a b = true <-> SFcompare a b = Some Lt).
  { intros a b. unfold num_lt, SFltb. by destruct (SFcompare a b) as [[]|]. }
  rewrite !Hlt. clear Hlt.
  destruct x as [[]|[]| |[] mx ex], y as [[]|[]| |[] my ey], z as [[]|[]| |[] mz ez]; cbn; try done.
  all: change (Pos.compare_cont Eq) with Pos.compare; intros [= H1] [= H2]; f_equal.
  - rewrite magnitude_flip in *. exact (magnitude_trans _ _ _ _ _ _ H2 H1).
  - exact (magnitude_trans _ _ _ _ _ _ H1 H2).
Qed.
End comparisons.

(** ** When an operation gives [NaN] *)

Section rounding.

Lemma shr_1_nonneg r : 0 <= shr_m r -> 0 <= shr_m (shr_1 r).
Proof. destruct r as [[|[]|[]] ? ?]; cbn; lia. Qed.

Lemma iter_pos_shr_nonneg p r : 0 <= shr_m r -> 0 <= shr_m (iter_pos shr_1 p r).
Proof. revert r. induction p; intros r Hr; cbn; eauto using shr_1_nonneg. Qed.

Lemma shr_record_of_loc_m m l : shr_m (shr_record_of_loc m l) = m.
Proof. by destruct l as [|[]]. Qed.

Lemma shr_fexp_nonneg m e l : 0 <= m -> 0 <= shr_m (shr_fexp 53 1024 m e l).1.
Proof.
  intros Hm. unfold shr_fexp, shr. destruct (_ - e); cbn [fst]; rewrite ?shr_record_of_loc_m; try done.
  apply iter_pos_shr_nonneg. by rewrite shr_record_of_loc_m.
Qed.

Lemma round_nearest_even_nonneg m l : 0 <= m -> 0 <= round_nearest_even m l.
Proof. intros. destruct l as [|[]]; cbn; try lia. destruct (Z.even m); lia. Qed.

Lemma binary_round_aux_not_nan s m e l : 0 <= m -> binary_round_aux 53 1024 s m e l <> S754_nan.
Proof.
  intros Hm. unfold binary_round_aux.
  assert (H1 := shr_fexp_nonneg m e l Hm). destruct (shr_fexp 53 1024 m e l) as [r e'].
  cbn [fst] in H1.
  assert (H2 := shr_fexp_nonneg _ e' loc_Exact
    (round_nearest_even_nonneg _ (loc_of_shr_record r) H1)).
  destruct (shr_fexp 53 1024 (round_nearest_even _ _) e' _) as [r' e'']. cbn [fst] in H2.
  destruct (shr_m r'); [done| |lia]. by destruct (_ <=? _).
Qed.

Lemma num_of_Z_not_nan z : num_of_Z z <> S754_nan.
Proof.
  unfold num_of_Z, binary_normalize, binary_round. destruct z; [done| |];
    destruct (shl_align _ _ _); by apply binary_round_aux_not_nan.
Qed.

(** A quotient is [NaN] only for [0/0], [inf/inf] or a [NaN] operand. *)
Lemma num_div_not_nan x y :
  num_isFinite x = true -> y <> S754_nan -> num_eq y (S754_zero false) = false ->
  num_div x y <> S754_nan.
Proof.
  unfold num_div, num_eq, SFeqb.
  destruct x as [|[]| |sx mx ex], y as [[]|[]| |sy my ey]; cbn -[SFdiv_core_binary binary_round_aux];
    try done; intros _ _ _.
  unfold SFdiv_core_binary.
  destruct (Z.div_eucl _ _) as [q r] eqn:E. apply binary_round_aux_not_nan.
  set (n := match _ with Z0 => _ | Zpos _ => _ | Zneg _ => _ end) in E.
  assert (0 <= n) by (unfold n; destruct (ex - ey - _); [lia|by apply Z.shiftl_nonneg|lia]).
  replace q with (n / Z.pos my) by (unfold Z.div; by rewrite E). apply Z.div_pos; lia.
Qed.

Lemma digits2_pos_shift m k :
  Zpos (digits2_pos (Pos.iter xO m k)) = Zpos (digits2_pos m) + Zpos k.
Proof. induction k as [|k IH] using Pos.peano_ind; [cbn; lia|]. rewrite Pos.iter_succ. cbn. lia. Qed.

Lemma digits2_pos_le m : 2 ^ (Zpos (digits2_pos m) - 1) <= Zpos m.
Proof.
  assert (Hs : forall p, 2 ^ (Zpos (Pos.succ p) - 1) = 2 * 2 ^ (Zpos p - 1)).
  { intros p. replace (Zpos (Pos.succ p) - 1) with (Z.succ (Zpos p - 1)) by lia.
    rewrite Z.pow_succ_r; lia. }
  induction m; cbn [digits2_pos]; rewrite ?Hs; [lia|lia|done].
Qed.

Lemma iter_xO m k : Zpos (Pos.iter xO m k) = Zpos m * 2 ^ Zpos k.
Proof.
  induction k as [|k IH] using Pos.peano_ind; [cbn; lia|]. rewrite Pos.iter_succ.
  rewrite Pos2Z.inj_succ, Z.pow_succ_r by lia. change (Zpos (Pos.iter xO m k)~0) with (2 * Zpos (Pos.iter xO m k)). lia.
Qed.

(** An integer of at most 53 bits is represented exactly. *)
Lemma binary_round_small s m :
  (Zpos (digits2_pos m) <= 53) ->
  exists p e, binary_round 53 1024 s m 0 = S754_finite s p e /\ e <= 0 /\ Zpos p = Zpos m * 2 ^ (- e).
Proof.
  intros Hd. set (d := Zpos (digits2_pos m)) in *. assert (0 < d) by done.
  assert (Hex : forall p, Zpos (digits2_pos p) = 53 ->
    binary_round_aux 53 1024 s (Zpos p) (d - 53) loc_Exact = S754_finite s p (d - 53)).
  { intros p Hp. unfold binary_round_aux, shr_fexp, shr, fexp, emin.
    assert (He : Z.max (Zpos (digits2_pos p) + (d - 53) - 53) (3 - 1024 - 53) - (d - 53) = 0) by lia.
    cbn [Zdigits2]. rewrite He. cbn [shr_record_of_loc shr_m loc_of_shr_record round_nearest_even Zdigits2].
    rewrite He. cbn [shr_record_of_loc shr_m]. by rewrite (proj2 (Z.leb_le _ _)) by lia. }
  unfold binary_round, shl_align, fexp, emin. rewrite Z.add_0_r. fold d.
  replace (Z.max (d - 53) (3 - 1024 - 53) - 0) with (d - 53) by lia.
  replace (Z.max (d - 53) (3 - 1024 - 53)) with (d - 53) by lia.
  destruct (d - 53) as [|k|k] eqn:E in *; [|lia|].
  - rewrite Hex by (fold d; lia). eexists _, _. split; [done|]. split; [done|]. cbn. lia.
  - rewrite Hex by (rewrite digits2_pos_shift; fold d; lia). eexists _, _. split; [done|].
    split; [done|]. by rewrite iter_xO.
Qed.

Lemma digits2_pos_small m : Zpos m < 2 ^ 53 -> Zpos (digits2_pos m) <= 53.
Proof.
  intros Hm. assert (Hl := digits2_pos_le m).
  destruct (Z.le_gt_cases (Zpos (digits2_pos m)) 53) as [|Hgt]; [done|].
  assert (2 ^ 53 <= 2 ^ (Zpos (digits2_pos m) - 1)) by (apply Z.pow_le_mono_r; lia). lia.
Qed.

Lemma num_of_Z_finite z : Z.abs z < 2 ^ 53 -> num_isFinite (num_of_Z z) = true.
Proof.
  intros Hz. destruct z as [|m|m]; cbn [num_of_Z binary_normalize]; [done| |];
    [destruct (binary_round_small false m) as (p & e & -> & _)|destruct (binary_round_small true m) as (p & e & -> & _)];
    try done; apply digits2_pos_small; lia.
Qed.

Lemma math_floor_of_Z z : Z.abs z < 2 ^ 53 -> math_floor (num_of_Z z) = JInt z.
Proof.
  assert (Hf : forall s m p e, e <= 0 -> Zpos p = Zpos m * 2 ^ (- e) ->
    math_floor (S754_finite s p e) = JInt (if s then Zneg m else Zpos m)).
  { intros s m p e He Hp. cbn [math_floor]. f_equal.
    assert (Hs : (if s then Zneg p else Zpos p) = (if s then Zneg m else Zpos m) * 2 ^ (- e)) by (destruct s; lia).
    rewrite Hs. destruct (Z.leb_spec 0 e); [replace e with 0 by lia; cbn; lia|].
    apply Z.div_mul. apply Z.pow_nonzero; lia. }
  intros Hz. destruct z as [|m|m]; cbn [num_of_Z binary_normalize]; [done| |];
    [destruct (binary_round_small false m) as (p & e & -> & He & Hp)
    |destruct (binary_round_small true m) as (p & e & -> & He & Hp)];
    try (apply digits2_pos_small; lia);
    [exact (Hf false m p e He Hp)|exact (Hf true m p e He Hp)].
Qed.

Lemma num_max_one y : y <> S754_nan ->
  num_max (num_of_Z 1) y <> S754_nan /\ num_eq (num_max (num_of_Z 1) y) (S754_zero false) = false.
Proof.
  intros Hy. unfold num_max. destruct (SFcompare (num_of_Z 1) y) as [[]|] eqn:E.
  - done.
  - split; [done|]. by destruct y as [[]|[]| |[] m e].
  - done.
  - apply SFcompare_None in E as [|]; done.
Qed.

Lemma math_floor_not_nan x : x <> S754_nan -> math_floor x <> JNaN.
Proof. by destruct x. Qed.

Lemma clamp_index_bounds lo hi i j : lo <= hi -> clamp_index lo hi i = Some j -> lo <= j <= hi.
Proof. destruct i as [z|[]|]; intros ? [=]; lia. Qed.
Lemma clamp_index_some lo hi i : i <> JNaN -> is_Some (clamp_index lo hi i).
Proof. by destruct i. Qed.
End rounding.
