(* ===== verification/Types.v ===== *)
(** The API records of [types.ts] that the modelled code reads and writes.

    [T | null] is [option T]. A field declared [f?: T | null] is [option T] when
    the code treats [undefined] and [null] alike, and [option (option T)] when it
    tells them apart ([None] is [undefined], [Some None] is [null]). *)
From S2P Require Import Prelude JsString JsNum.

(** ** Contacts and the radio *)

Record ContactRoute := {
  cr_path : jstr;
  cr_path_len : Z;
  cr_path_hash_mode : Z;
}.

Inductive RouteSource := SrcOverride | SrcDirect | SrcFlood.

Record Contact := {
  c_public_key : jstr;
  c_name : option jstr;
  c_type : Z;
  c_flags : Z;
  c_direct_path : option jstr;
  c_direct_path_len : Z;
  c_direct_path_hash_mode : Z;
  c_direct_path_updated_at : option Z;
  c_route_override_path : option jstr;
  c_route_override_len : option Z;
  c_route_override_hash_mode : option Z;
  c_effective_route : option ContactRoute;
  c_effective_route_source : option RouteSource;
  c_direct_route : option ContactRoute;
  c_route_override : option ContactRoute;
  c_last_advert : option Z;
  c_lat : option num;
  c_lon : option num;
  c_last_seen : option Z;
  c_on_radio : bool;
  c_favorite : bool;
  c_pinned : option bool;
  c_last_contacted : option Z;
  c_last_read_at : option Z;
  c_first_seen : option Z;
}.

Definition CONTACT_TYPE_REPEATER : Z := 2.

Record ContactAdvertPath := {
  ap_path : jstr;
  ap_path_len : Z;
  ap_next_hop : option jstr;
  ap_first_seen : Z;
  ap_last_seen : Z;
  ap_heard_count : Z;
}.

Record ContactAdvertPathSummary := {
  aps_public_key : jstr;
  aps_paths : list ContactAdvertPath;
}.

(** The radio's own settings; the transmit parameters no modelled code reads are left out. *)
Record RadioConfig := {
  rc_public_key : jstr;
  rc_name : jstr;
  rc_lat : num;
  rc_lon : num;
  rc_path_hash_mode : Z;
}.

(** ** Channels *)

Inductive Membership := Adopted | Pending.
#[export] Instance Membership_eq_dec : EqDecision Membership.
Proof. solve_decision. Defined.

Record Channel := {
  ch_key : jstr;
  ch_name : jstr;
  ch_is_hashtag : bool;
  ch_on_radio : bool;
  ch_flood_scope_override : option jstr;
  ch_path_hash_mode_override : option Z;
  ch_last_read_at : option Z;
  ch_favorite : bool;
  ch_pinned : option bool;
  ch_muted : bool;
  ch_muted_until : option Z;
  ch_membership : option Membership;
}.

(** ** Messages *)

Record MessagePath := {
  mp_path : jstr;
  mp_received_at : Z;
  mp_path_len : option Z;
  mp_rssi : option num;
  mp_snr : option num;
}.

Inductive MessageType := PRIV | CHAN.

Record Message := {
  m_id : Z;
  m_type : MessageType;
  m_conversation_key : jstr;
  m_text : jstr;
  m_sender_timestamp : option Z;
  m_received_at : Z;
  m_paths : option (list MessagePath);
  m_txt_type : Z;
  m_signature : option jstr;
  m_sender_key : option jstr;
  m_outgoing : bool;
  m_acked : Z;
  m_sender_name : option jstr;
  m_channel_name : option jstr;
  m_packet_id : option (option Z);
  m_transport_code : option Z;
  m_region : option jstr;
  m_packet_hash : option (option jstr);
  m_observer_reach_eligible : option (option bool);
}.

Inductive ConversationType :=
| CtContact | CtChannel | CtRaw | CtControl | CtMap | CtLive | CtVisualizer | CtSearch
| CtTrace | CtLocate | CtDiscovered | CtTest.

Record Conversation := {
  cv_type : ConversationType;
  cv_id : jstr;
  cv_name : jstr;
  cv_mapFocusKey : option jstr;
  cv_locateKey : option jstr;
}.

(** ** Overheard packets *)

Record GroupDataInfo := {
  gd_data_type : Z;
  gd_data_len : Z;
  gd_data_hex : jstr;
  gd_data_text : option jstr;
}.

Record DecryptedInfo := {
  di_channel_name : option jstr;
  di_sender : option jstr;
  di_channel_key : option jstr;
  di_contact_key : option jstr;
  di_sender_timestamp : option Z;
  di_message : option jstr;
  di_group_data : option GroupDataInfo;
}.

Record RawPacket := {
  rp_id : Z;
  rp_observation_id : option Z;
  rp_timestamp : Z;
  rp_received_at_ms : option Z;
  rp_data : jstr;
  rp_payload_type : jstr;
  rp_snr : option num;
  rp_rssi : option num;
  rp_decrypted : bool;
  rp_decrypted_info : option DecryptedInfo;
  rp_transport_code : option Z;
  rp_region : option jstr;
  rp_packet_hash : option jstr;
}.

(** ** Unread state, as the server answers it *)

Record UnreadCounts := {
  un_counts : gmap jstr Z;
  un_mentions : gmap jstr bool;
  un_last_message_times : gmap jstr Z;
  un_last_message_previews : gmap jstr jstr;
  un_last_message_outgoing : option (gmap jstr bool);
  un_last_read_ats : gmap jstr (option Z);
  un_first_unread_ids : gmap jstr (option Z);
}.

(** ** Decidable equality *)

#[export] Instance ContactRoute_eq_dec : EqDecision ContactRoute.
Proof. solve_decision. Defined.
#[export] Instance RouteSource_eq_dec : EqDecision RouteSource.
Proof. solve_decision. Defined.
#[export] Instance Contact_eq_dec : EqDecision Contact.
Proof. solve_decision. Defined.
#[export] Instance MessagePath_eq_dec : EqDecision MessagePath.
Proof. solve_decision. Defined.
#[export] Instance MessageType_eq_dec : EqDecision MessageType.
Proof. solve_decision. Defined.
#[export] Instance Message_eq_dec : EqDecision Message.
Proof. solve_decision. Defined.
#[export] Instance ConversationType_eq_dec : EqDecision ConversationType.
Proof. solve_decision. Defined.
#[export] Instance GroupDataInfo_eq_dec : EqDecision GroupDataInfo.
Proof. solve_decision. Defined.
#[export] Instance DecryptedInfo_eq_dec : EqDecision DecryptedInfo.
Proof. solve_decision. Defined.
#[export] Instance RawPacket_eq_dec : EqDecision RawPacket.
Proof. solve_decision. Defined.

(** [m], with the fields an ACK or an echo updates replaced. *)
Definition message_with (m : Message) (acked : Z) (paths : option (list MessagePath))
    (packet_id : option (option Z)) (packet_hash : option (option jstr))
    (observer_reach_eligible : option (option bool)) : Message :=
  {| m_id := m.(m_id); m_type := m.(m_type); m_conversation_key := m.(m_conversation_key);
     m_text := m.(m_text); m_sender_timestamp := m.(m_sender_timestamp);
     m_received_at := m.(m_received_at); m_paths := paths; m_txt_type := m.(m_txt_type);
     m_signature := m.(m_signature); m_sender_key := m.(m_sender_key);
     m_outgoing := m.(m_outgoing); m_acked := acked; m_sender_name := m.(m_sender_name);
     m_channel_name := m.(m_channel_name); m_packet_id := packet_id;
     m_transport_code := m.(m_transport_code); m_region := m.(m_region);
     m_packet_hash := packet_hash; m_observer_reach_eligible := observer_reach_eligible |}.
