(* ===== verification/PacketWire.v ===== *)
(** The wire layout of an overheard packet: the payload extraction of
    [utils/pathUtils.ts], against an encoder of the firmware's layout. *)
From S2P Require Import Prelude JsString.

Definition MAX_PATH_BYTES : Z := 64.

(** ** The extraction *)

Definition extractPacketPayloadHex (packetHex : jstr) : option jstr :=
  if len packetHex <? 4 then None else
  let normalized := toUpperCase packetHex in
  let header := parseInt16 (slice normalized 0 2) in
  let routeType := Z.land (to_int32 header) 3 in
  let transport := (routeType =? 0) || (routeType =? 3) in
  if transport && (len normalized <? 2 + 8) then None else
  let offset := if transport then 2 + 8 else 2 in
  if len normalized <? offset + 2 then None else
  let pathByte := parseInt16 (slice normalized offset (offset + 2)) in
  let offset := offset + 2 in
  let hashMode := Z.land (Z.shiftr (to_int32 pathByte) 6) 3 in
  if hashMode =? 3 then None else
  let hopCount := Z.land (to_int32 pathByte) 63 in
  let hashSize := hashMode + 1 in
  let pathByteLen := hopCount * hashSize in
  if MAX_PATH_BYTES <? pathByteLen then None else
  let pathHexChars := pathByteLen * 2 in
  if len normalized <? offset + pathHexChars then None else
  let offset := offset + pathHexChars in
  if len normalized <=? offset then None else
  Some (slice_from normalized offset).

(** ** The layout it decodes *)

(** Bytes as upper-case hexadecimal. *)
Definition hex_digit_upper (d : Z) : Z := if d <? 10 then 48 + d else 55 + d.
Definition hex_byte (b : Z) : jstr := [hex_digit_upper (b / 16); hex_digit_upper (b mod 16)].
Definition hex_bytes (bs : list Z) : jstr := mjoin (hex_byte <$> bs).

Arguments hex_byte : simpl never.
Arguments app : simpl nomatch.

Definition is_byte (b : Z) : Prop := 0 <= b < 256.

(** A packet of the firmware: the header byte, the transport codes of the two
    transport route types, the path byte and the path's hash tokens, the payload. *)
Record wire_packet := {
  wp_header : Z;
  wp_transport : list Z;
  wp_hash_mode : Z;
  wp_hops : list (list Z);
  wp_payload : list Z;
}.

Definition wp_route_type (p : wire_packet) : Z := p.(wp_header) mod 4.
Definition wp_has_transport (p : wire_packet) : bool :=
  (wp_route_type p =? 0) || (wp_route_type p =? 3).

Record wire_ok (p : wire_packet) : Prop := {
  ok_header : is_byte p.(wp_header);
  ok_transport : length p.(wp_transport) = if wp_has_transport p then 4%nat else 0%nat;
  ok_mode : 0 <= p.(wp_hash_mode) <= 2;
  ok_hops : Forall (fun h => len h = p.(wp_hash_mode) + 1) p.(wp_hops);
  ok_hop_count : len p.(wp_hops) < 64;
  ok_path : len p.(wp_hops) * (p.(wp_hash_mode) + 1) <= MAX_PATH_BYTES;
  ok_payload : p.(wp_payload) <> [];
}.

Definition wire_path_byte (p : wire_packet) : Z := p.(wp_hash_mode) * 64 + len p.(wp_hops).

Definition encode_packet (p : wire_packet) : jstr :=
  hex_byte p.(wp_header) ++ hex_bytes p.(wp_transport) ++ hex_byte (wire_path_byte p)
  ++ hex_bytes (mjoin p.(wp_hops)) ++ hex_bytes p.(wp_payload).

(** ** Hexadecimal bytes *)

Lemma hex_digit_upper_stable d : 0 <= d < 16 -> unit_upper (hex_digit_upper d) = hex_digit_upper d.
Proof. intros. unfold unit_upper, hex_digit_upper. split_cmp; ranges; lia. Qed.

(** A decidable fact about every byte is checked on the 256 of them. *)
Lemma byte_cases (P : Z -> Prop) `{!forall b, Decision (P b)} b :
  forallb (fun b => bool_decide (P b)) (Z.of_nat <$> seq 0 256) = true -> is_byte b -> P b.
Proof.
  intros Hall Hb. rewrite forallb_forall in Hall. apply (bool_decide_eq_true (P b)), Hall.
  apply list_elem_of_In, list_elem_of_fmap. exists (Z.to_nat b).
  unfold is_byte in Hb. rewrite elem_of_seq. lia.
Qed.

Lemma parseInt16_hex_byte b : is_byte b -> parseInt16 (hex_byte b) = Some b.
Proof. apply (byte_cases (fun b => parseInt16 (hex_byte b) = Some b)). vm_compute. reflexivity. Qed.

Lemma toUpperCase_hex_byte b : is_byte b -> toUpperCase (hex_byte b) = hex_byte b.
Proof.
  intros Hb. unfold hex_byte, toUpperCase, is_byte in *. cbn [fmap list_fmap].
  rewrite !hex_digit_upper_stable; [done|apply Z.mod_pos_bound; lia|].
  split; [apply Z.div_pos; lia | apply Z.div_lt_upper_bound; lia].
Qed.

Lemma hex_bytes_cons b bs : hex_bytes (b :: bs) = hex_byte b ++ hex_bytes bs.
Proof. reflexivity. Qed.

Lemma hex_bytes_app bs cs : hex_bytes (bs ++ cs) = hex_bytes bs ++ hex_bytes cs.
Proof. unfold hex_bytes. by rewrite fmap_app, join_app. Qed.

Lemma toUpperCase_hex_bytes bs : Forall is_byte bs -> toUpperCase (hex_bytes bs) = hex_bytes bs.
Proof.
  intros Hbs. induction Hbs as [|b bs Hb Hbs IH]; [done|].
  by rewrite hex_bytes_cons, toUpperCase_app, toUpperCase_hex_byte, IH.
Qed.

Lemma length_hex_bytes bs : length (hex_bytes bs) = (2 * length bs)%nat.
Proof. induction bs as [|b bs IH]; [done|]. rewrite hex_bytes_cons, length_app, IH. simpl. lia. Qed.

Lemma to_int32_small n : 0 <= n < 2147483648 -> to_int32 (Some n) = n.
Proof. intros. unfold to_int32, wrap32. simpl. rewrite Z.mod_small; lia. Qed.

Lemma land_ones_mod n k : 0 <= k -> Z.land n (2 ^ k - 1) = n mod 2 ^ k.
Proof.
  intros. replace (2 ^ k - 1) with (Z.ones k) by (rewrite Z.ones_equiv; lia).
  by apply Z.land_ones.
Qed.

Lemma length_join_hops n (hs : list (list Z)) :
  Forall (fun h => len h = n) hs -> len (mjoin hs) = len hs * n.
Proof.
  intros Hh. induction Hh as [|h hs Hh Hhs IH]; [done|].
  change (mjoin (h :: hs)) with (h ++ mjoin hs). rewrite len_app, len_cons, Hh, IH. lia.
Qed.

(** ** Round trip *)

Lemma path_byte_fields p :
  wire_ok p ->
  is_byte (wire_path_byte p)
  /\ Z.land (Z.shiftr (wire_path_byte p) 6) 3 = p.(wp_hash_mode)
  /\ Z.land (wire_path_byte p) 63 = len p.(wp_hops).
Proof.
  intros [_ _ Hm _ Hc _ _]. pose proof (len_nonneg p.(wp_hops)). unfold wire_path_byte, is_byte.
  change 3 with (2 ^ 2 - 1). change 63 with (2 ^ 6 - 1).
  rewrite !land_ones_mod, Z.shiftr_div_pow2 by lia. change (2 ^ 2) with 4. change (2 ^ 6) with 64.
  split; [lia|]. split.
  - rewrite Z.div_add_l, Z.div_small, Z.mod_small by lia. lia.
  - rewrite Z.add_comm, Z.mod_add, Z.mod_small by lia. done.
Qed.

Lemma wire_route_type p :
  wire_ok p -> Z.land (to_int32 (Some p.(wp_header))) 3 = wp_route_type p.
Proof.
  intros [[] _ _ _ _ _ _]. rewrite to_int32_small by lia.
  change 3 with (2 ^ 2 - 1). by rewrite land_ones_mod.
Qed.

(** The offset after the transport codes, as the code computes it. *)
Lemma wire_prefix_len p :
  wire_ok p ->
  (if wp_has_transport p then 2 + 8 else 2)
  = len (hex_byte p.(wp_header) ++ hex_bytes p.(wp_transport)).
Proof.
  intros [_ Ht _ _ _ _ _]. rewrite len_app. unfold len. rewrite length_hex_bytes, Ht.
  by destruct (wp_has_transport p).
Qed.

Lemma extract_encoded p s :
  wire_ok p -> toUpperCase s = encode_packet p ->
  extractPacketPayloadHex s = Some (hex_bytes p.(wp_payload)).
Proof.
  intros Hok Hs. unfold extractPacketPayloadHex. cbv zeta.
  destruct (path_byte_fields p Hok) as (Hpb & Hmode & Hcount).
  rewrite Hs, <- (len_toUpperCase s), Hs. unfold encode_packet.
  rewrite (slice_app_front (hex_byte _)), parseInt16_hex_byte, wire_route_type
    by (done || apply Hok).
  fold (wp_has_transport p). rewrite (app_assoc (hex_byte _)).
  rewrite wire_prefix_len by done.
  set (pre := hex_byte (wp_header p) ++ hex_bytes (wp_transport p)) in *.
  assert (Hpre : len pre = if wp_has_transport p then 10 else 2).
  { unfold pre. rewrite <- wire_prefix_len by done. by destruct (wp_has_transport p). }
  assert (Hpay : 2 <= len (hex_bytes p.(wp_payload))).
  { destruct (wp_payload p) eqn:E; [by destruct (ok_payload p Hok)|].
    rewrite hex_bytes_cons, len_app. change (len (hex_byte z)) with 2. auto with meshloom.
    pose proof (len_nonneg (hex_bytes l)). lia. }
  rewrite slice_app_mid, parseInt16_hex_byte, to_int32_small by (done || (unfold is_byte in Hpb; lia)).
  rewrite Hmode, Hcount. destruct Hok as [_ _ Hm Hh Hc Hp _].
  pose proof (length_join_hops _ _ Hh) as Hj.
  assert (Hhops : len (hex_bytes (mjoin p.(wp_hops))) = len p.(wp_hops) * (p.(wp_hash_mode) + 1) * 2).
  { rewrite <- Hj. unfold len. rewrite length_hex_bytes. lia. }
  rewrite !(app_assoc pre), !(app_assoc (pre ++ _)), slice_from_app; rewrite !len_app, ?Hhops;
    change (len (hex_byte _)) with 2; [|lia].
  pose proof (len_nonneg p.(wp_hops)).
  destruct (wp_has_transport p); cbn [andb]; split_cmp; simpl; (done || nia).
Qed.

(** ** Every accepted byte string is an encoding *)

(** A list of [n * w] elements is [n] groups of [w]. *)
Lemma group_list {A} (n w : nat) (l : list A) :
  length l = (n * w)%nat ->
  exists ls, l = mjoin ls /\ length ls = n /\ Forall (fun g => length g = w) ls.
Proof.
  revert l. induction n as [|n IH]; intros l Hl.
  - exists []. by destruct l.
  - destruct (IH (drop w l)) as (ls & Hj & Hn & Hw); [rewrite length_drop; lia|].
    exists (take w l :: ls). split; [|split].
    + change (mjoin (take w l :: ls)) with (take w l ++ mjoin ls). by rewrite <- Hj, take_drop.
    + simpl. by rewrite Hn.
    + constructor; [rewrite length_take; lia|done].
Qed.

Lemma len_hex_bytes bs : len (hex_bytes bs) = 2 * len bs.
Proof. unfold len. rewrite length_hex_bytes. lia. Qed.

Lemma path_byte_split b :
  is_byte b ->
  b = Z.land (Z.shiftr b 6) 3 * 64 + Z.land b 63
  /\ 0 <= Z.land (Z.shiftr b 6) 3 < 4 /\ 0 <= Z.land b 63 < 64.
Proof.
  apply (byte_cases (fun b => b = Z.land (Z.shiftr b 6) 3 * 64 + Z.land b 63
    /\ 0 <= Z.land (Z.shiftr b 6) 3 < 4 /\ 0 <= Z.land b 63 < 64)).
  vm_compute. reflexivity.
Qed.

Lemma byte_mod4 b : is_byte b -> Z.land (to_int32 (Some b)) 3 = b mod 4.
Proof.
  intros []. rewrite to_int32_small by lia. change 3 with (2 ^ 2 - 1). by rewrite land_ones_mod.
Qed.

(** The bytes behind the pass_ifs: the header, the transport codes, the path byte and the rest. *)
Lemma split_head (bs : list Z) (n : nat) :
  (S n < length bs)%nat ->
  exists h t pb rest, bs = h :: t ++ pb :: rest /\ length t = n.
Proof.
  intros Hl. destruct bs as [|h bs]; [simpl in Hl; lia|]. simpl in Hl.
  destruct (lookup_lt_is_Some_2 bs n) as [pb Hpb]; [lia|].
  exists h, (take n bs), pb, (drop (S n) bs). split.
  - f_equal. symmetry. by apply take_drop_middle.
  - rewrite length_take. lia.
Qed.

Lemma extract_accepts_only bs pl :
  Forall is_byte bs -> extractPacketPayloadHex (hex_bytes bs) = Some pl ->
  exists p, wire_ok p /\ hex_bytes bs = encode_packet p /\ pl = hex_bytes p.(wp_payload).
Proof.
  intros Hbs. unfold extractPacketPayloadHex. cbv zeta.
  rewrite toUpperCase_hex_bytes, !len_hex_bytes by done.
  destruct bs as [|h0 bs0] eqn:Ebs; [done|]. rewrite <- Ebs in *.
  assert (Hh0 : is_byte h0) by (subst bs; by inversion Hbs).
  assert (Hsl : slice (hex_bytes bs) 0 2 = hex_byte h0)
    by (subst bs; rewrite hex_bytes_cons; by apply slice_app_front).
  rewrite Hsl, parseInt16_hex_byte, byte_mod4 by done.
  set (tr := (h0 mod 4 =? 0) || (h0 mod 4 =? 3)).
  split_if; [done|]. split_if; [done|]. split_if; [done|].
  destruct (split_head bs (if tr then 4 else 0)) as (h & t & pb & rest & Hsplit & Ht).
  { to_prop. unfold len in *. destruct tr; lia. }
  assert (h = h0) as -> by congruence. clear Hsl Ebs.
  assert (is_byte pb) as Hpb by (subst bs; by apply Forall_cons, proj2, Forall_app, proj2, Forall_cons, proj1 in Hbs).
  assert (Hhex : hex_bytes bs = (hex_byte h0 ++ hex_bytes t) ++ hex_byte pb ++ hex_bytes rest)
    by (subst bs; by rewrite hex_bytes_cons, hex_bytes_app, hex_bytes_cons, <- app_assoc).
  assert (Hpre : (if tr then 2 + 8 else 2) = len (hex_byte h0 ++ hex_bytes t))
    by (rewrite len_app, len_hex_bytes; unfold len; rewrite Ht; by destruct tr).
  rewrite Hhex, Hpre, slice_app_mid by done.
  rewrite parseInt16_hex_byte, to_int32_small by (done || (unfold is_byte in Hpb; lia)).
  destruct (path_byte_split pb Hpb) as (Epb & Hm & Hc).
  set (mode := Z.land (Z.shiftr pb 6) 3) in *. set (cnt := Z.land pb 63) in *.
  pass_ifs. intros <-%(inj Some). to_prop.
  assert (Hrest : len bs = 2 + len t + len rest)
    by (subst bs; rewrite len_cons, len_app, len_cons; lia).
  assert (Htl : len (hex_byte h0 ++ hex_bytes t) = 2 + 2 * len t)
    by (rewrite len_app, len_hex_bytes; change (len (hex_byte h0)) with 2; lia).
  destruct (group_list (Z.to_nat cnt) (Z.to_nat (mode + 1)) (take (Z.to_nat (cnt * (mode + 1))) rest))
    as (hs & Hj & Hn & Hw).
  { rewrite length_take. unfold len in *. nia. }
  exists {| wp_header := h0; wp_transport := t; wp_hash_mode := mode; wp_hops := hs;
            wp_payload := drop (Z.to_nat (cnt * (mode + 1))) rest |}.
  assert (Hcnt : len hs = cnt) by (unfold len; lia).
  split; [|split].
  - constructor; cbn [wp_header wp_transport wp_hash_mode wp_hops wp_payload]; try done; [lia| |lia|rewrite Hcnt; lia|].
    + eapply Forall_impl; [exact Hw|]. intros g Hg. cbn beta in *. unfold len. lia.
    + intros E. apply (f_equal length) in E. rewrite length_drop in E. simpl in E. unfold len in *. nia.
  - unfold encode_packet, wire_path_byte.
    cbn [wp_header wp_transport wp_hash_mode wp_hops wp_payload].
    by rewrite Hcnt, <- Epb, <- Hj, <- hex_bytes_app, take_drop, <- app_assoc.
  - cbn [wp_payload]. rewrite <- (take_drop (Z.to_nat (cnt * (mode + 1))) rest) at 1.
    rewrite hex_bytes_app, !app_assoc, slice_from_app; [done|].
    rewrite !len_app, len_hex_bytes, len_hex_bytes. change (len (hex_byte _)) with 2.
    unfold len in *. rewrite length_take. nia.
Qed.

(** ** The claims *)

(** A transport-coded flood packet with two transport-code pairs, two one-byte hops and a payload. *)
Definition example_wire : wire_packet :=
  {| wp_header := 20; wp_transport := [1; 2; 3; 4]; wp_hash_mode := 0;
     wp_hops := [[171]; [205]]; wp_payload := [222; 173] |}.

Lemma example_wire_ok : wire_ok example_wire.
Proof. constructor; try done; repeat constructor. Qed.

(** [extractPacketPayloadHex] decodes what the firmware encodes: whatever the case of
    the hexadecimal letters, the payload of a well-formed packet comes back, in upper case. *)
Theorem extractPacketPayloadHex_roundtrip (p : wire_packet) (s : jstr)
    (Hok : wire_ok p) (Hs : toUpperCase s = encode_packet p) :
  extractPacketPayloadHex s = Some (hex_bytes p.(wp_payload)).
Proof. by apply extract_encoded. Qed.

Lemma extractPacketPayloadHex_roundtrip_witness :
  extractPacketPayloadHex (js "140102030402abCDdead") = Some (js "DEAD").
Proof.
  apply (extractPacketPayloadHex_roundtrip example_wire); [exact example_wire_ok|].
  vm_compute. reflexivity.
Defined.

(** [extractPacketPayloadHex] accepts exactly the byte strings that encode a
    well-formed packet (transport codes when the route type has them, a hash size of at
    most three bytes, at most 64 path bytes, a payload that is not empty), and answers
    that packet's payload. *)
Theorem extractPacketPayloadHex_accepts (bs : list Z) (pl : jstr) (Hbs : Forall is_byte bs) :
  extractPacketPayloadHex (hex_bytes bs) = Some pl <->
  exists p, wire_ok p /\ hex_bytes bs = encode_packet p /\ pl = hex_bytes p.(wp_payload).
Proof.
  split; [by apply extract_accepts_only|]. intros (p & Hok & Hbytes & ->).
  apply extract_encoded; [done|]. by rewrite <- Hbytes, toUpperCase_hex_bytes.
Qed.

Lemma extractPacketPayloadHex_accepts_witness :
  exists p, wire_ok p /\ hex_bytes [20; 1; 2; 3; 4; 2; 171; 205; 222] = encode_packet p
            /\ js "DE" = hex_bytes p.(wp_payload).
Proof.
  apply (extractPacketPayloadHex_accepts [20; 1; 2; 3; 4; 2; 171; 205; 222] (js "DE")).
  - unfold is_byte. repeat constructor; lia.
  - vm_compute. reflexivity.
Defined.
