(* ===== verification/PathUtils.v ===== *)
(** Routes, hops and path resolution: [utils/pathUtils.ts]. *)
From S2P Require Import Prelude JsString JsCollections JsNum Types.

(** ** Locations and distances *)

(** [null] coordinates, coordinates out of range and (0, 0) are not locations. *)
Definition isValidLocation (lat lon : option num) : bool :=
  match lat, lon with
  | Some lat, Some lon =>
    if num_lt lat (num_of_Z (-90)) || num_lt (num_of_Z 90) lat
       || num_lt lon (num_of_Z (-180)) || num_lt (num_of_Z 180) lon then false
    else if num_eq lat (num_of_Z 0) && num_eq lon (num_of_Z 0) then false
    else true
  | _, _ => false
  end.

Section distances.
Context `{JsMath}.

Definition toRad (deg : num) : num := num_div (num_mul deg math_pi) (num_of_Z 180).

(** Haversine, in km. *)
Definition calculateDistance (lat1 lon1 lat2 lon2 : option num) : option num :=
  match lat1, lon1, lat2, lon2 with
  | Some lat1, Some lon1, Some lat2, Some lon2 =>
    let R := num_of_Z 6371 in
    let dLat := toRad (num_sub lat2 lat1) in
    let dLon := toRad (num_sub lon2 lon1) in
    let two := num_of_Z 2 in
    let a := num_add
      (num_mul (math_sin (num_div dLat two)) (math_sin (num_div dLat two)))
      (num_mul (num_mul (num_mul (math_cos (toRad lat1)) (math_cos (toRad lat2)))
                  (math_sin (num_div dLon two)))
         (math_sin (num_div dLon two))) in
    let c := num_mul two (math_atan2 (num_sqrt a) (num_sqrt (num_sub (num_of_Z 1) a))) in
    Some (num_mul R c)
  | _, _, _, _ => None
  end.

Definition cmp_distance (fromLat fromLon : option num) (a b : Contact) : comparison :=
  match calculateDistance fromLat fromLon a.(c_lat) a.(c_lon),
        calculateDistance fromLat fromLon b.(c_lat) b.(c_lon) with
  | None, None => Eq
  | None, Some _ => Gt
  | Some _, None => Lt
  | Some distA, Some distB => num_cmp distA distB
  end.

Definition sortContactsByDistance (contacts : list Contact) (fromLat fromLon : option num)
    : list Contact :=
  match fromLat, fromLon with
  | Some _, Some _ => js_sort (cmp_distance fromLat fromLon) contacts
  | _, _ => contacts
  end.
End distances.

(** ** Hop tokens *)

Definition MIN_NAMED_HOP_HEX_CHARS : Z := 4.

Record PathHop := {
  ph_prefix : jstr;
  ph_matches : list Contact;
  ph_distanceFromPrev : option num;
}.

Inductive LocalHopDisplay :=
| HexOnly
| UnknownHop
| Ambiguous (matches : list Contact)
| Known (contact : Contact).

Definition resolveLocalHopDisplay (prefix : jstr) (matches : list Contact) : LocalHopDisplay :=
  if len prefix <? MIN_NAMED_HOP_HEX_CHARS then HexOnly
  else match matches with
  | [] => UnknownHop
  | [contact] =>
    if negb (contact.(c_type) =? CONTACT_TYPE_REPEATER) then UnknownHop else Known contact
  | _ => Ambiguous matches
  end.

(** A directory answer; its source is always ['corescope']. *)
Record DirectoryHopHit := {
  dh_name : jstr;
  dh_corescope : bool;
  dh_public_key : option jstr;
  dh_lat : option num;
  dh_lon : option num;
}.

Inductive HopDisplay :=
| Local (display : LocalHopDisplay)
| Directory (name : jstr).

Definition resolveHopDisplay (prefix : jstr) (matches : list Contact)
    (directory : option DirectoryHopHit) : HopDisplay :=
  let local := resolveLocalHopDisplay prefix matches in
  match local with
  | Known _ | HexOnly | Ambiguous _ => Local local
  | UnknownHop =>
    match directory with
    | Some d =>
      if d.(dh_corescope) && negb (d.(dh_name) ≟ [])
         && (MIN_NAMED_HOP_HEX_CHARS <=? len prefix)
      then Directory d.(dh_name)
      else Local local
    | None => Local local
    end
  end.

(** Latitude, longitude and name. *)
Definition directoryHopLocation (prefix : jstr) (matches : list Contact)
    (directory : option DirectoryHopHit) : option (num * num * jstr) :=
  match resolveHopDisplay prefix matches directory, directory with
  | Directory _, Some d =>
    if negb (isValidLocation d.(dh_lat) d.(dh_lon)) then None
    else match d.(dh_lat), d.(dh_lon) with
    | Some lat, Some lon => Some (lat, lon, d.(dh_name))
    | _, _ => None
    end
  | _, _ => None
  end.

(** ** Path bytes *)

(** Modes 0, 1 and 2: one, two or three bytes per hop. *)
Definition normalizePathHashMode (mode : option Z) : option Z :=
  match mode with
  | Some m => if (m <? 0) || (2 <? m) then None else Some m
  | None => None
  end.

(** [path.length / hopCount] is exact on lengths below 2^53, so a fractional
    quotient fails the parity test: the quotient is even exactly when the
    remainder is zero and the integer quotient is even. *)
Definition inferPathHashMode (path : option jstr) (hopCount : option Z) : option Z :=
  match truthy path, hopCount with
  | Some path, Some hopCount =>
    if hopCount <=? 0 then None else
    let charsPerHop := len path / hopCount in
    if (len path <? 2 * hopCount) || (6 * hopCount <? len path)
       || negb ((len path mod hopCount =? 0) && (charsPerHop mod 2 =? 0))
       || negb (charsPerHop * hopCount =? len path)
    then None
    else Some (charsPerHop / 2 - 1)
  | _, _ => None
  end.

Definition formatEndpointPrefix (key : option jstr) (pathHashMode : option Z) : jstr :=
  match truthy key with
  | None => js "??"
  | Some key =>
    let normalized := toUpperCase key in
    let hashMode := normalizePathHashMode pathHashMode ?? 0 in
    let chars := (hashMode + 1) * 2 in
    slice normalized 0 (Z.min chars (len normalized))
  end.

(** The width [parsePathHops] cuts at. *)
Definition charsPerHop (normalized : jstr) (hopCount : option Z) : Z :=
  match hopCount with
  | Some n =>
    if 0 <? n then
      let derived := len normalized / n in
      if (2 * n <=? len normalized) && (len normalized mod n =? 0) && (derived mod 2 =? 0)
         && (derived * n =? len normalized)
      then derived
      else 2
    else 2
  | None => 2
  end.

(** The loop [for (let i = 0; i + w <= s.length; i += w)]; the fuel is the length
    of the string, and [w >= 2] characters are consumed at each turn. *)
Fixpoint cut_hops (fuel : nat) (i w : Z) (s : jstr) : list jstr :=
  match fuel with
  | O => []
  | S f => if i + w <=? len s then slice s i (i + w) :: cut_hops f (i + w) w s else []
  end.

Definition parsePathHops (path : option jstr) (hopCount : option Z) : list jstr :=
  match truthy path with
  | None => []
  | Some path =>
    let normalized := toUpperCase path in
    cut_hops (length normalized) 0 (charsPerHop normalized hopCount) normalized
  end.

(** ** Routes *)

Record EffectiveContactRoute := {
  er_path : option jstr;
  er_pathLen : Z;
  er_pathHashMode : Z;
  er_forced : bool;
  er_source : RouteSource;
}.

Definition hasRoutingOverride (contact : Contact) : bool :=
  bool_decide (is_Some contact.(c_route_override))
  || bool_decide (is_Some contact.(c_route_override_len)).

Definition getDirectContactRoute (contact : Contact) : option ContactRoute :=
  match contact.(c_direct_route) with
  | Some r => Some r
  | None =>
    if contact.(c_direct_path_len) <? 0 then None
    else Some {|
      cr_path := contact.(c_direct_path) ?? [];
      cr_path_len := contact.(c_direct_path_len);
      cr_path_hash_mode :=
        match normalizePathHashMode (Some contact.(c_direct_path_hash_mode)) with
        | Some m => m
        | None => inferPathHashMode contact.(c_direct_path) (Some contact.(c_direct_path_len)) ?? 0
        end |}
  end.

Definition getRouteOverride (contact : Contact) : option ContactRoute :=
  match contact.(c_route_override) with
  | Some r => Some r
  | None =>
    if negb (hasRoutingOverride contact) then None else
    let pathLen := contact.(c_route_override_len) ?? -1 in
    let pathHashMode :=
      if pathLen =? -1 then -1
      else match normalizePathHashMode contact.(c_route_override_hash_mode) with
      | Some m => m
      | None => inferPathHashMode contact.(c_route_override_path) (Some pathLen) ?? 0
      end in
    Some {| cr_path := contact.(c_route_override_path) ?? []; cr_path_len := pathLen;
            cr_path_hash_mode := pathHashMode |}
  end.

Definition getEffectiveContactRoute (contact : Contact) : EffectiveContactRoute :=
  match contact.(c_effective_route) with
  | Some route =>
    {| er_path := truthy (Some route.(cr_path));
       er_pathLen := route.(cr_path_len);
       er_pathHashMode := route.(cr_path_hash_mode);
       er_forced := bool_decide (contact.(c_effective_route_source) = Some SrcOverride);
       er_source := contact.(c_effective_route_source) ?? SrcFlood |}
  | None =>
    let directRoute := getDirectContactRoute contact in
    let overrideRoute := getRouteOverride contact in
    let resolvedRoute := match overrideRoute with Some r => Some r | None => directRoute end in
    let source :=
      match overrideRoute, directRoute with
      | Some _, _ => SrcOverride
      | None, Some _ => SrcDirect
      | None, None => SrcFlood
      end in
    let pathLen := (cr_path_len <$> resolvedRoute) ?? -1 in
    let pathHashMode := cr_path_hash_mode <$> resolvedRoute in
    let pathHashMode :=
      if pathLen =? -1 then -1
      else match pathHashMode with
      | Some m =>
        if (m <? 0) || (2 <? m)
        then inferPathHashMode (cr_path <$> resolvedRoute) (Some pathLen) ?? 0
        else m
      | None => inferPathHashMode (cr_path <$> resolvedRoute) (Some pathLen) ?? 0
      end in
    {| er_path := truthy (cr_path <$> resolvedRoute);
       er_pathLen := pathLen;
       er_pathHashMode := pathHashMode;
       er_forced := bool_decide (source = SrcOverride);
       er_source := source |}
  end.

Definition formatRouteLabel (pathLen : Z) (capitalize : bool) : jstr :=
  let label :=
    if pathLen =? -1 then js "flood"
    else if pathLen =? 0 then js "direct"
    else int_str pathLen ++ js " hop" ++ (if pathLen =? 1 then [] else js "s") in
  if capitalize then toUpperCase (slice label 0 1) ++ slice_from label 1 else label.

(** The hops of a route in parentheses after its label. *)
Definition label_with_hops (label : jstr) (hops : list jstr) : jstr :=
  if 0 <? len hops then label ++ js " (" ++ join (js " -> ") hops ++ js ")" else label.

Definition formatLearnedRouteSummary (contact : Contact) : jstr :=
  match getDirectContactRoute contact with
  | None => formatRouteLabel (-1) true
  | Some r =>
    label_with_hops (formatRouteLabel r.(cr_path_len) true)
      (parsePathHops (Some r.(cr_path)) (Some r.(cr_path_len)))
  end.

Definition formatForcedRouteSummary (contact : Contact) : option jstr :=
  if negb (hasRoutingOverride contact) then None
  else
    let effectiveRoute := getEffectiveContactRoute contact in
    if effectiveRoute.(er_pathLen) =? -1 then Some (formatRouteLabel (-1) true)
    else Some (label_with_hops (formatRouteLabel effectiveRoute.(er_pathLen) true)
      (parsePathHops effectiveRoute.(er_path) (Some effectiveRoute.(er_pathLen)))).

Definition formatRoutingOverrideInput (contact : Contact) : jstr :=
  match getRouteOverride contact with
  | None => []
  | Some r =>
    if r.(cr_path_len) =? -1 then js "-1"
    else if r.(cr_path_len) =? 0 then js "0"
    else join (js ",") (toLowerCase <$> parsePathHops (Some r.(cr_path)) (Some r.(cr_path_len)))
  end.

Definition findContactsByPrefix (prefix : jstr) (contacts : list Contact) (repeatersOnly : bool)
    : list Contact :=
  let normalizedPrefix := toUpperCase prefix in
  filter (fun c =>
    (if repeatersOnly && negb (c.(c_type) =? CONTACT_TYPE_REPEATER) then false
     else startsWith (toUpperCase c.(c_public_key)) normalizedPrefix) = true) contacts.

(** ** Hop counts for display *)

Definition getHopCount (path : jstr) (hopCount : option Z) : Z :=
  match hopCount with
  | Some n => if 0 <=? n then n else if bool_decide (path = []) then 0 else len path / 2
  | None => if bool_decide (path = []) then 0 else len path / 2
  end.

Record HopCountDisplay := {
  hc_display : jstr;
  hc_allDirect : bool;
  hc_hasMultiple : bool;
}.

Definition formatHopCounts (paths : option (list MessagePath)) : HopCountDisplay :=
  match paths with
  | None | Some [] => {| hc_display := []; hc_allDirect := true; hc_hasMultiple := false |}
  | Some paths =>
    let hopCounts := js_sort (by_key id) ((fun p => getHopCount p.(mp_path) p.(mp_path_len)) <$> paths) in
    {| hc_display := join (js "/") ((fun h => if h =? 0 then js "d" else int_str h) <$> hopCounts);
       hc_allDirect := forallb (fun h => h =? 0) hopCounts;
       hc_hasMultiple := 1 <? len paths |}
  end.

(** [new Set] of the widths, in insertion order. *)
Definition set_add (l : list Z) (x : Z) : list Z := if decide (x ∈ l) then l else l ++ [x].

Definition formatPathHopWidths (paths : option (list MessagePath)) : option jstr :=
  match paths with
  | None | Some [] => None
  | Some paths =>
    let bytesPerHop :=
      foldl (fun acc p =>
        match inferPathHashMode (Some p.(mp_path)) p.(mp_path_len) with
        | Some mode => set_add acc (mode + 1)
        | None => acc
        end) [] paths in
    if len bytesPerHop =? 0 then None
    else Some (join (js "/") ((fun w => int_str w ++ js "B") <$> js_sort (by_key id) bytesPerHop))
  end.

(** ** Path resolution *)

Record SenderInfo := {
  si_name : jstr;
  si_publicKeyOrPrefix : jstr;
  si_lat : option num;
  si_lon : option num;
  si_pathHashMode : option Z;
}.

(** A resolved end of a path; [publicKey] is the receiver's. *)
Record Endpoint := {
  ep_name : jstr;
  ep_prefix : jstr;
  ep_lat : option num;
  ep_lon : option num;
  ep_publicKey : option jstr;
}.

Record ResolvedPath := {
  rpa_sender : Endpoint;
  rpa_hops : list PathHop;
  rpa_receiver : Endpoint;
  rpa_totalDistances : option (list num);
  rpa_hasGaps : bool;
}.

(** The one match of a hop, when it is unique. *)
Definition unique_match (matches : list Contact) : option Contact :=
  match matches with [c] => Some c | _ => None end.

(** [matches.length === 1 && isValidLocation(matches[0].lat, matches[0].lon)] *)
Definition hop_located (matches : list Contact) : bool :=
  match unique_match matches with
  | Some c => isValidLocation c.(c_lat) c.(c_lon)
  | None => false
  end.

Section resolution.
Context `{JsMath}.

(** One turn of the loop over the hop prefixes: the hop, and the location and
    uncertainty the next one starts from. *)
Definition resolve_hop (contacts : list Contact) (prefix : jstr)
    (prevLat prevLon : option num) (prevHopUncertain : bool)
    : PathHop * (option num * option num * bool) :=
  let matches := findContactsByPrefix prefix contacts true in
  let sortedMatches := sortContactsByDistance matches prevLat prevLon in
  let distanceFromPrev :=
    match sortedMatches with
    | [m] =>
      if negb prevHopUncertain && isValidLocation m.(c_lat) m.(c_lon)
      then calculateDistance prevLat prevLon m.(c_lat) m.(c_lon)
      else None
    | _ => None
    end in
  let hop := {| ph_prefix := prefix; ph_matches := sortedMatches;
                ph_distanceFromPrev := distanceFromPrev |} in
  (hop,
   match sortedMatches with
   | [] => (None, None, true)
   | [m] => if isValidLocation m.(c_lat) m.(c_lon) then (m.(c_lat), m.(c_lon), false)
            else (None, None, true)
   | m :: _ => if isValidLocation m.(c_lat) m.(c_lon) then (m.(c_lat), m.(c_lon), true)
               else (None, None, true)
   end).

Fixpoint resolve_hops (contacts : list Contact) (prefixes : list jstr)
    (prevLat prevLon : option num) (prevHopUncertain : bool) : list PathHop :=
  match prefixes with
  | [] => []
  | prefix :: rest =>
    let '(hop, (lat, lon, uncertain)) :=
      resolve_hop contacts prefix prevLat prevLon prevHopUncertain in
    hop :: resolve_hops contacts rest lat lon uncertain
  end.

(** The first hop with a known, unambiguous, valid location, with the hops after it. *)
Fixpoint first_located (hops : list PathHop) : option (option num * option num * list PathHop) :=
  match hops with
  | [] => None
  | hop :: rest =>
    match unique_match hop.(ph_matches) with
    | Some c =>
      if isValidLocation c.(c_lat) c.(c_lon) then Some (c.(c_lat), c.(c_lon), rest)
      else first_located rest
    | None => first_located rest
    end
  end.

(** The accumulator of the summing loop. [ts_lastLocated] says that the last hop
    visited was unambiguous ([lastUnambiguousHopIndex === hops.length - 1] after it). *)
Record total_state := {
  ts_lat : option num;
  ts_lon : option num;
  ts_total : num;
  ts_any : bool;
  ts_lastLocated : bool;
}.

Definition add_leg (st : total_state) (lat lon : option num) : num * bool :=
  match st.(ts_lat), st.(ts_lon) with
  | Some _, Some _ =>
    match calculateDistance st.(ts_lat) st.(ts_lon) lat lon with
    | Some dist => (num_add st.(ts_total) dist, true)
    | None => (st.(ts_total), st.(ts_any))
    end
  | _, _ => (st.(ts_total), st.(ts_any))
  end.

Definition total_step (st : total_state) (hop : PathHop) : total_state :=
  match unique_match hop.(ph_matches) with
  | Some c =>
    if isValidLocation c.(c_lat) c.(c_lon) then
      let '(total, any) := add_leg st c.(c_lat) c.(c_lon) in
      {| ts_lat := c.(c_lat); ts_lon := c.(c_lon); ts_total := total; ts_any := any;
         ts_lastLocated := true |}
    else {| ts_lat := None; ts_lon := None; ts_total := st.(ts_total); ts_any := st.(ts_any);
            ts_lastLocated := false |}
  | None => {| ts_lat := None; ts_lon := None; ts_total := st.(ts_total); ts_any := st.(ts_any);
               ts_lastLocated := false |}
  end.

(** The summing loop and the final leg. When no hop is left after the starting
    point, [lastUnambiguousHopIndex] stays -1 and the final leg is not added. *)
Definition sum_legs (prevLat prevLon : option num) (hops : list PathHop)
    (receiverLat receiverLon : option num) : option (list num) :=
  let st := foldl total_step
    {| ts_lat := prevLat; ts_lon := prevLon; ts_total := num_of_Z 0; ts_any := false;
       ts_lastLocated := false |} hops in
  let '(total, any) :=
    if st.(ts_lastLocated) && isValidLocation receiverLat receiverLon
    then add_leg st receiverLat receiverLon
    else (st.(ts_total), st.(ts_any)) in
  if any : bool then Some [total] else None.

Definition calculateTotalDistances (senderLat senderLon : option num) (hops : list PathHop)
    (receiverLat receiverLon : option num) : option (list num) :=
  match hops with
  | [] =>
    if negb (isValidLocation senderLat senderLon) || negb (isValidLocation receiverLat receiverLon)
    then None
    else match calculateDistance senderLat senderLon receiverLat receiverLon with
         | Some dist => Some [dist]
         | None => None
         end
  | _ =>
    if isValidLocation senderLat senderLon
    then sum_legs senderLat senderLon hops receiverLat receiverLon
    else match first_located hops with
         | None => None
         | Some (lat, lon, rest) => sum_legs lat lon rest receiverLat receiverLon
         end
  end.

Definition resolvePath (path : option jstr) (sender : SenderInfo) (contacts : list Contact)
    (config : option RadioConfig) (hopCount : option Z) : ResolvedPath :=
  let hopPrefixes := parsePathHops path hopCount in
  let inferredPathHashMode := inferPathHashMode path hopCount in
  let orInferred m := match m with Some m => Some m | None => inferredPathHashMode end in
  let senderPrefix := formatEndpointPrefix (Some sender.(si_publicKeyOrPrefix))
    (orInferred (normalizePathHashMode sender.(si_pathHashMode))) in
  let resolvedSender := {|
    ep_name := sender.(si_name); ep_prefix := senderPrefix;
    ep_lat := sender.(si_lat); ep_lon := sender.(si_lon); ep_publicKey := None |} in
  let receiverPrefix := formatEndpointPrefix (rc_public_key <$> config)
    (orInferred (normalizePathHashMode (rc_path_hash_mode <$> config))) in
  let resolvedReceiver := {|
    ep_name := truthy (rc_name <$> config) ?? js "Unknown"; ep_prefix := receiverPrefix;
    ep_lat := rc_lat <$> config; ep_lon := rc_lon <$> config;
    ep_publicKey := rc_public_key <$> config |} in
  let hops := resolve_hops contacts hopPrefixes sender.(si_lat) sender.(si_lon)
    (negb (isValidLocation sender.(si_lat) sender.(si_lon))) in
  {| rpa_sender := resolvedSender;
     rpa_hops := hops;
     rpa_receiver := resolvedReceiver;
     rpa_totalDistances := calculateTotalDistances sender.(si_lat) sender.(si_lon) hops
       (rc_lat <$> config) (rc_lon <$> config);
     rpa_hasGaps :=
       negb (isValidLocation sender.(si_lat) sender.(si_lon))
       || negb (isValidLocation (rc_lat <$> config) (rc_lon <$> config))
       || existsb (fun hop => negb (hop_located hop.(ph_matches))) hops |}.
End resolution.
