(* ===== verification/PathProps.v ===== *)
(** What the path utilities guarantee: hop cutting, routes, hop naming, and the
    distances of a resolved path. *)
From S2P Require Import Prelude JsString JsCollections JsNum Types PathUtils.

(** ** Hop cutting *)

Lemma cut_hops_spec fuel i w s :
  1 <= w -> 0 <= i <= len s -> (len s - i) / w <= Z.of_nat fuel ->
  let n := (len s - i) / w in
  let hops := cut_hops fuel i w s in
  len hops = n /\ Forall (fun h => len h = w) hops /\ mjoin hops = slice s i (i + n * w).
Proof.
  intros Hw. revert i. induction fuel as [|f IH]; intros i Hi Hf; cbn [cut_hops].
  - assert ((len s - i) / w = 0) as -> by (pose proof (Z.div_pos (len s - i) w); lia).
    rewrite Z.add_0_r, slice_nonneg, Nat.sub_diag by lia. by repeat split.
  - destruct (Z.leb_spec (i + w) (len s)).
    + assert (Hn : (len s - i) / w = 1 + (len s - (i + w)) / w).
      { replace (len s - i) with (1 * w + (len s - (i + w))) by lia. apply Z.div_add_l. lia. }
      destruct (IH (i + w)) as (IHl & IHw & IHj); [lia|lia|].
      pose proof (Z.div_pos (len s - (i + w)) w).
      cbn zeta. rewrite len_cons, IHl, Hn. split; [lia|]. split.
      * constructor; [|done]. rewrite len_slice; lia.
      * change (mjoin (?x :: ?l)) with (x ++ mjoin l). rewrite IHj, slice_split by lia.
        f_equal. lia.
    + assert ((len s - i) / w = 0) as -> by (apply Z.div_small; lia).
      rewrite Z.add_0_r, slice_nonneg, Nat.sub_diag by lia. by repeat split.
Qed.

Lemma charsPerHop_bounds s n : 2 <= charsPerHop s n /\ Z.even (charsPerHop s n) = true.
Proof.
  unfold charsPerHop. destruct n as [n|]; [|done].
  destruct (Z.ltb_spec 0 n); [|done]. cbn zeta.
  destruct (_ && (len s / n * n =? len s)) eqn:?; [|done]. to_prop. split.
  - apply Z.div_le_lower_bound; lia.
  - rewrite Zeven_mod. by apply Z.eqb_eq.
Qed.

Lemma parsePathHops_cut path hopCount s :
  truthy path = Some s ->
  let u := toUpperCase s in
  let w := charsPerHop u hopCount in
  len (parsePathHops path hopCount) = len u / w
  /\ Forall (fun h => len h = w) (parsePathHops path hopCount)
  /\ mjoin (parsePathHops path hopCount) = slice u 0 (len u / w * w).
Proof.
  intros Hs u w. unfold parsePathHops. rewrite Hs. fold u. fold w.
  pose proof (charsPerHop_bounds u hopCount). pose proof (len_nonneg u).
  destruct (cut_hops_spec (length u) 0 w u) as (?&?&?); [lia|lia| |].
  - rewrite Z.sub_0_r. change (Z.of_nat (length u)) with (len u).
    apply Z.div_le_upper_bound; [lia|]. nia.
  - rewrite Z.sub_0_r in *. done.
Qed.

Lemma truthy_None_nil path hopCount : truthy path = None -> parsePathHops path hopCount = [].
Proof. unfold parsePathHops. by intros ->. Qed.

(** With usable metadata, the width is the one the metadata says. *)
Lemma charsPerHop_metadata s n b :
  1 <= n -> 1 <= b -> len s = 2 * b * n -> charsPerHop s (Some n) = 2 * b.
Proof.
  intros Hn Hb Hl. unfold charsPerHop. rewrite (proj2 (Z.ltb_lt 0 n)) by lia.
  rewrite Hl, Z.div_mul, Z.mod_mul by lia.
  replace (2 * b * n =? 2 * b * n) with true by (symmetry; lia).
  replace ((2 * b) mod 2) with 0 by (rewrite Z.mul_comm, Z.mod_mul; lia).
  replace (2 * n <=? 2 * b * n) with true by (symmetry; nia). done.
Qed.

Lemma inferPathHashMode_iff path hopCount m :
  inferPathHashMode path hopCount = Some m <->
  exists s n, truthy path = Some s /\ hopCount = Some n /\ 0 < n /\ 0 <= m <= 2
    /\ len s = 2 * (m + 1) * n.
Proof.
  unfold inferPathHashMode. split.
  - destruct (truthy path) as [s|], hopCount as [n|]; try done.
    destruct (Z.leb_spec n 0); [done|]. split_if; [done|]. intros [= <-]. to_prop.
    exists s, n. pose proof (Z.div_mod (len s) n). pose proof (Z.div_mod (len s / n) 2).
    repeat split; try lia; nia.
  - intros (s & n & -> & -> & Hn & Hm & Hl).
    destruct (Z.leb_spec n 0); [lia|]. rewrite Hl, Z.div_mul, Z.mod_mul by lia.
    replace (2 * (m + 1) * n <? 2 * n) with false by (symmetry; nia).
    replace (6 * n <? 2 * (m + 1) * n) with false by (symmetry; nia).
    replace ((2 * (m + 1)) mod 2) with 0 by (rewrite Z.mul_comm, Z.mod_mul; lia).
    rewrite !Z.eqb_refl. cbn [andb orb negb]. f_equal.
    rewrite (Z.mul_comm 2), Z.div_mul; lia.
Qed.

Lemma inferPathHashMode_range path hopCount m :
  inferPathHashMode path hopCount = Some m -> 0 <= m <= 2.
Proof. intros (?&?&?&?&?&?&?)%inferPathHashMode_iff. done. Qed.

Lemma normalizePathHashMode_range mode m : normalizePathHashMode mode = Some m -> 0 <= m <= 2.
Proof.
  unfold normalizePathHashMode. destruct mode; [|done]. split_if; [done|]. intros [= <-].
  to_prop. lia.
Qed.

Lemma infer_default_range path hopCount : 0 <= default 0 (inferPathHashMode path hopCount) <= 2.
Proof.
  destruct (inferPathHashMode path hopCount) as [m|] eqn:E; simpl; [|lia].
  by eapply inferPathHashMode_range.
Qed.

(** ** Hop naming *)

Lemma resolveHopDisplay_directory prefix matches directory name :
  resolveHopDisplay prefix matches directory = Directory name ->
  4 <= len prefix
  /\ (matches = [] \/ exists c, matches = [c] /\ c.(c_type) <> CONTACT_TYPE_REPEATER)
  /\ exists d, directory = Some d /\ d.(dh_name) = name /\ name <> [].
Proof.
  unfold resolveHopDisplay, resolveLocalHopDisplay, MIN_NAMED_HOP_HEX_CHARS.
  destruct (Z.ltb_spec (len prefix) 4); [done|].
  destruct matches as [|c [|c' cs]]; [| |done].
  2: destruct (negb _) eqn:Ht; [|done].
  all: destruct directory as [d|]; [|done]; split_if; [|done]; intros [= <-]; to_prop;
       split; [lia|]; split; [|by exists d].
  - by left.
  - right. exists c. by to_prop.
Qed.

(** ** Distances of a resolved path *)

Section distances.
Context `{JsMath}.

Lemma isValidLocation_Some lat lon : isValidLocation lat lon = true -> is_Some lat /\ is_Some lon.
Proof. destruct lat, lon; [|done..]. eauto. Qed.

Lemma calculateDistance_valid a b c d :
  isValidLocation a b = true -> isValidLocation c d = true ->
  is_Some (calculateDistance a b c d).
Proof.
  intros [[? ->] [? ->]]%isValidLocation_Some [[? ->] [? ->]]%isValidLocation_Some.
  unfold calculateDistance. eauto.
Qed.

Lemma sortContactsByDistance_perm cs lat lon : sortContactsByDistance cs lat lon ≡ₚ cs.
Proof. unfold sortContactsByDistance. destruct lat, lon; try done. apply js_sort_perm. Qed.

Lemma resolve_hops_prefixes contacts ps lat lon u :
  ph_prefix <$> resolve_hops contacts ps lat lon u = ps.
Proof.
  revert lat lon u. induction ps as [|p ps IH]; intros lat lon u; [done|].
  cbn [resolve_hops]. destruct (resolve_hop contacts p lat lon u) as [hop [[? ?] ?]] eqn:E.
  rewrite fmap_cons, IH. unfold resolve_hop in E. by simplify_eq.
Qed.

Lemma resolve_hops_matches contacts ps lat lon u :
  Forall (fun h => h.(ph_matches) ≡ₚ findContactsByPrefix h.(ph_prefix) contacts true)
    (resolve_hops contacts ps lat lon u).
Proof.
  revert lat lon u. induction ps as [|p ps IH]; intros lat lon u; [constructor|].
  cbn [resolve_hops]. destruct (resolve_hop contacts p lat lon u) as [hop [[? ?] ?]] eqn:E.
  constructor; [|done]. unfold resolve_hop in E. simplify_eq/=.
  apply sortContactsByDistance_perm.
Qed.

(** What a hop's distance is measured from: the previous hop when it is located. *)
Definition located (matches : list Contact) : option (option num * option num) :=
  match unique_match matches with
  | Some c => if isValidLocation c.(c_lat) c.(c_lon) then Some (c.(c_lat), c.(c_lon)) else None
  | None => None
  end.

(** The distance of each hop is exact: present if and only if the hop and the one
    before it are both located, and then the distance between the two. *)
Fixpoint exact_distances (prev : option (option num * option num)) (hops : list PathHop) : Prop :=
  match hops with
  | [] => True
  | hop :: rest =>
    hop.(ph_distanceFromPrev) =
      match prev, located hop.(ph_matches) with
      | Some (lat, lon), Some (lat', lon') => calculateDistance lat lon lat' lon'
      | _, _ => None
      end
    /\ exact_distances (located hop.(ph_matches)) rest
  end.

Lemma resolve_hops_exact contacts ps lat lon u :
  exact_distances (if u : bool then None else Some (lat, lon))
    (resolve_hops contacts ps lat lon u).
Proof.
  revert lat lon u. induction ps as [|p ps IH]; intros lat lon u; [done|].
  cbn [resolve_hops]. unfold resolve_hop. cbn zeta.
  set (ms := sortContactsByDistance _ _ _).
  destruct ms as [|m [|m' ms']] eqn:E; cbn [exact_distances ph_distanceFromPrev ph_matches].
  - split; [by destruct u|]. apply (IH None None true).
  - destruct (isValidLocation (c_lat m) (c_lon m)) eqn:Hv.
    + cbn [exact_distances ph_distanceFromPrev ph_matches].
      unfold located; cbn [unique_match]; rewrite Hv.
      split; [by destruct u|]. apply (IH _ _ false).
    + cbn [exact_distances ph_distanceFromPrev ph_matches].
      unfold located; cbn [unique_match]; rewrite Hv.
      split; [by destruct u|]. apply (IH None None true).
  - destruct (isValidLocation (c_lat m) (c_lon m));
      (cbn [exact_distances ph_distanceFromPrev ph_matches]; split; [by destruct u|];
       apply (IH _ _ true)).
Qed.
(** *** The total of a path without gaps *)

Lemma located_true matches :
  hop_located matches = true ->
  exists lat lon, located matches = Some (lat, lon) /\ isValidLocation lat lon = true.
Proof.
  unfold hop_located, located. destruct (unique_match matches) as [c|]; [|done].
  intros Hv. rewrite Hv. eauto.
Qed.

Lemma total_step_located st hop lat lon :
  located hop.(ph_matches) = Some (lat, lon) ->
  total_step st hop =
    let '(total, any) := add_leg st lat lon in
    {| ts_lat := lat; ts_lon := lon; ts_total := total; ts_any := any; ts_lastLocated := true |}.
Proof.
  unfold located, total_step. destruct (unique_match _) as [c|]; [|done].
  destruct (isValidLocation _ _); [|done]. intros [= <- <-].
  by destruct (add_leg st (c_lat c) (c_lon c)).
Qed.

Lemma add_leg_valid st lat lon d :
  isValidLocation st.(ts_lat) st.(ts_lon) = true ->
  calculateDistance st.(ts_lat) st.(ts_lon) lat lon = Some d ->
  add_leg st lat lon = (num_add st.(ts_total) d, true).
Proof.
  intros [[? E1] [? E2]]%isValidLocation_Some Hd. unfold add_leg. by rewrite Hd, E1, E2.
Qed.

(** Where a path stands after its hops, [from] being where it starts. *)
Definition end_location (from : option num * option num) (hops : list PathHop) :=
  foldl (fun p h => located h.(ph_matches) ?? p) from hops.

Lemma foldl_total_gapless hops st :
  isValidLocation st.(ts_lat) st.(ts_lon) = true ->
  Forall (fun h => hop_located h.(ph_matches) = true) hops ->
  exact_distances (Some (st.(ts_lat), st.(ts_lon))) hops ->
  exists ds,
    Forall2 (fun h d => h.(ph_distanceFromPrev) = Some d) hops ds
    /\ let st' := foldl total_step st hops in
       isValidLocation st'.(ts_lat) st'.(ts_lon) = true
       /\ (st'.(ts_lat), st'.(ts_lon)) = end_location (st.(ts_lat), st.(ts_lon)) hops
       /\ st'.(ts_total) = foldl num_add st.(ts_total) ds
       /\ (hops <> [] -> st'.(ts_lastLocated) = true /\ st'.(ts_any) = true).
Proof.
  intros Hv Hl. revert st Hv. induction Hl as [|hop hops Hh Hl IH]; intros st Hv Hex.
  - exists []. by repeat split.
  - destruct (located_true _ Hh) as (lat & lon & Eloc & Hv').
    destruct Hex as [Hd Hex]. rewrite Eloc in Hd, Hex.
    destruct (calculateDistance_valid _ _ _ _ Hv Hv') as [d Ed]. rewrite Ed in Hd.
    cbn [foldl]. rewrite (total_step_located _ _ _ _ Eloc), (add_leg_valid _ _ _ _ Hv Ed).
    edestruct (IH {| ts_lat := lat; ts_lon := lon; ts_total := num_add st.(ts_total) d;
                     ts_any := true; ts_lastLocated := true |}) as (ds & Hds & H1 & H2 & H3 & H4);
      [done..|].
    exists (d :: ds). split; [by constructor|]. cbn [ts_lat ts_lon ts_total foldl] in *.
    repeat split; try done.
    + rewrite H2. unfold end_location. cbn [foldl]. by rewrite Eloc.
    + destruct hops; [done|]. by apply H4.
    + destruct hops; [done|]. by apply H4.
Qed.

Lemma existsb_negb_Forall {A} (f : A -> bool) l :
  existsb (fun x => negb (f x)) l = false -> Forall (fun x => f x = true) l.
Proof.
  induction l as [|x l IH]; [constructor|]. simpl. intros [? ?]%orb_false_iff.
  constructor; [by apply negb_false_iff|auto].
Qed.

Lemma calculateTotalDistances_gapless slat slon hops rlat rlon :
  isValidLocation slat slon = true -> isValidLocation rlat rlon = true ->
  Forall (fun h => hop_located h.(ph_matches) = true) hops ->
  exact_distances (Some (slat, slon)) hops ->
  exists ds final lat lon,
    Forall2 (fun h d => h.(ph_distanceFromPrev) = Some d) hops ds
    /\ end_location (slat, slon) hops = (lat, lon)
    /\ calculateDistance lat lon rlat rlon = Some final
    /\ calculateTotalDistances slat slon hops rlat rlon =
       Some [if decide (hops = []) then final
             else foldl num_add (num_of_Z 0) (ds ++ [final])].
Proof.
  intros Hs Hr Hl Hex.
  destruct (decide (hops = [])) as [->|Hne].
  { destruct (calculateDistance_valid _ _ _ _ Hs Hr) as [d Hd].
    exists [], d, slat, slon. repeat split; [constructor|done|].
    simpl. by rewrite Hs, Hr, Hd. }
  destruct (foldl_total_gapless hops
    {| ts_lat := slat; ts_lon := slon; ts_total := num_of_Z 0; ts_any := false;
       ts_lastLocated := false |}) as (ds & Hds & H1 & H2 & H3 & H4); [done..|].
  set (st' := foldl total_step _ _) in *.
  destruct (H4 Hne) as [H5 H6].
  destruct (calculateDistance_valid _ _ _ _ H1 Hr) as [d Hd].
  exists ds, d, st'.(ts_lat), st'.(ts_lon). repeat split; try done.
  transitivity (sum_legs slat slon hops rlat rlon).
  { unfold calculateTotalDistances. destruct hops; [done|]. by rewrite Hs. }
  unfold sum_legs. fold st'. rewrite H5, Hr, (add_leg_valid _ _ _ _ H1 Hd). simpl.
  by rewrite foldl_app, H3.
Qed.

(** The starting hop's own leg to the receiver is never counted. *)
Lemma calculateTotalDistances_last_only slat slon hops lat lon rlat rlon :
  isValidLocation slat slon = false -> first_located hops = Some (lat, lon, []) ->
  calculateTotalDistances slat slon hops rlat rlon = None.
Proof.
  intros Hs Hf. unfold calculateTotalDistances. destruct hops; [done|]. by rewrite Hs, Hf.
Qed.
End distances.

(** ** Routes *)

Lemma getRouteOverride_Some contact :
  is_Some (getRouteOverride contact) <-> hasRoutingOverride contact = true.
Proof.
  unfold getRouteOverride, hasRoutingOverride.
  destruct (c_route_override contact); [by split; eauto|].
  destruct (c_route_override_len contact); simpl; [by split; eauto|].
  split; [by intros []|done].
Qed.

Lemma resolved_mode_range path pathLen (m : option Z) :
  0 <= match m with
       | Some m => if (m <? 0) || (2 <? m) then inferPathHashMode path pathLen ?? 0 else m
       | None => inferPathHashMode path pathLen ?? 0
       end <= 2.
Proof.
  pose proof (infer_default_range path pathLen). destruct m as [m|]; [|done].
  destruct (_ || _) eqn:E; [done|]. to_prop. lia.
Qed.

(** ** Properties *)

(** [parsePathHops] cuts the upper-cased path into tokens of one even width of at
    least two characters, keeps every whole token in order, and with consistent
    metadata ([hopCount] hops of [b] bytes) returns exactly [hopCount] tokens that
    join back to the path. *)
Theorem parsePathHops_cuts (path hopCount : _) (s : jstr) (Hs : truthy path = Some s) :
  (exists w, 2 <= w /\ Z.even w = true
     /\ Forall (fun h => len h = w) (parsePathHops path hopCount)
     /\ len (parsePathHops path hopCount) = len s / w
     /\ mjoin (parsePathHops path hopCount) = slice (toUpperCase s) 0 (len s / w * w))
  /\ forall n b, hopCount = Some n -> 1 <= n -> 1 <= b -> len s = 2 * b * n ->
     len (parsePathHops path hopCount) = n
     /\ mjoin (parsePathHops path hopCount) = toUpperCase s.
Proof.
  destruct (parsePathHops_cut path hopCount s Hs) as (Hl & Hw & Hj).
  rewrite len_toUpperCase in *. split.
  - destruct (charsPerHop_bounds (toUpperCase s) hopCount). eauto 8.
  - intros n b -> Hn Hb Hlen. rewrite Hj, Hl.
    rewrite (charsPerHop_metadata _ n b) by (rewrite ?len_toUpperCase; lia).
    replace (len s) with (n * (2 * b)) by lia. rewrite Z.div_mul by lia.
    split; [done|]. apply slice_full. rewrite len_toUpperCase. lia.
Qed.

Lemma parsePathHops_cuts_witness :
  truthy (Some (js "1a2b3c4d")) = Some (js "1a2b3c4d")
  /\ parsePathHops (Some (js "1a2b3c4d")) (Some 2) = [js "1A2B"; js "3C4D"]
  /\ len (parsePathHops (Some (js "1a2b3c4d")) (Some 2)) = 2.
Proof.
  split; [reflexivity|split; [reflexivity|]].
  apply (proj2 (parsePathHops_cuts (Some (js "1a2b3c4d")) (Some 2) (js "1a2b3c4d") eq_refl)
           2 2 eq_refl); [lia|lia|reflexivity].
Defined.

(** Without a route computed by the server, [getEffectiveContactRoute] always
    returns a coherent route: the hash mode is -1 for a flood and 0, 1 or 2 otherwise,
    the source is the override exactly when one is set, [forced] says so, and a flood
    source carries no path. *)
Theorem getEffectiveContactRoute_coherent (contact : Contact)
    (Hserver : contact.(c_effective_route) = None) :
  let r := getEffectiveContactRoute contact in
  (r.(er_pathLen) = -1 -> r.(er_pathHashMode) = -1)
  /\ (r.(er_pathLen) <> -1 -> 0 <= r.(er_pathHashMode) <= 2)
  /\ (r.(er_forced) = true <-> r.(er_source) = SrcOverride)
  /\ (r.(er_source) = SrcOverride <-> hasRoutingOverride contact = true)
  /\ (r.(er_source) = SrcFlood -> r.(er_pathLen) = -1 /\ r.(er_path) = None)
  /\ (r.(er_source) = SrcDirect ->
      exists d, getDirectContactRoute contact = Some d /\ r.(er_pathLen) = d.(cr_path_len)).
Proof.
  unfold getEffectiveContactRoute. rewrite Hserver. cbn zeta.
  cbn [er_pathLen er_pathHashMode er_forced er_source er_path].
  rewrite <- getRouteOverride_Some, bool_decide_eq_true.
  destruct (getRouteOverride contact) as [o|], (getDirectContactRoute contact) as [d|];
    cbn [fmap option_fmap option_map default from_option].
  all: split; [intros E%Z.eqb_eq; first [done | by rewrite E]|]; split; [intros Hne%Z.eqb_neq;
    first [done | rewrite Hne; apply (resolved_mode_range _ _ (Some _))]|].
  all: repeat split; try done; try (by intros []); eauto.
Qed.

Definition example_contact : Contact :=
  {| c_public_key := js "a1b2c3d4e5f60718"; c_name := Some (js "Relay"); c_type := 2; c_flags := 0;
     c_direct_path := Some (js "1a2b3c4d"); c_direct_path_len := 2; c_direct_path_hash_mode := 7;
     c_direct_path_updated_at := None; c_route_override_path := None; c_route_override_len := None;
     c_route_override_hash_mode := None; c_effective_route := None;
     c_effective_route_source := None; c_direct_route := None; c_route_override := None;
     c_last_advert := None; c_lat := Some (num_of_Z 10); c_lon := Some (num_of_Z 20);
     c_last_seen := None; c_on_radio := false; c_favorite := false; c_pinned := None;
     c_last_contacted := None; c_last_read_at := None; c_first_seen := None |}.

Lemma getEffectiveContactRoute_coherent_witness :
  (getEffectiveContactRoute example_contact).(er_source) = SrcDirect
  /\ 0 <= (getEffectiveContactRoute example_contact).(er_pathHashMode) <= 2.
Proof.
  split; [reflexivity|].
  apply (getEffectiveContactRoute_coherent example_contact eq_refl). discriminate.
Defined.

(** [inferPathHashMode] answers a mode exactly when the path is the given number of
    hops of [mode + 1] bytes each, and the mode is 0, 1 or 2. *)
Theorem inferPathHashMode_spec (path : option jstr) (hopCount : option Z) (m : Z) :
  inferPathHashMode path hopCount = Some m <->
  exists s n, truthy path = Some s /\ hopCount = Some n /\ 0 < n /\ 0 <= m <= 2
    /\ len s = 2 * (m + 1) * n.
Proof. apply inferPathHashMode_iff. Qed.

(** A directory name is shown only for a token of at least two bytes that matches no
    contact, or one contact that is not a repeater; a one-byte token never has a name,
    and an ambiguous or known hop keeps its local display. *)
Theorem resolveHopDisplay_local_first (prefix : jstr) (matches : list Contact)
    (directory : option DirectoryHopHit) :
  (forall name, resolveHopDisplay prefix matches directory = Directory name ->
     4 <= len prefix
     /\ (matches = [] \/ exists c, matches = [c] /\ c.(c_type) <> CONTACT_TYPE_REPEATER)
     /\ exists d, directory = Some d /\ d.(dh_name) = name /\ name <> [])
  /\ (len prefix < 4 -> resolveHopDisplay prefix matches directory = Local HexOnly)
  /\ (4 <= len prefix -> 2 <= len matches ->
      resolveHopDisplay prefix matches directory = Local (Ambiguous matches)).
Proof.
  split; [intros name; apply resolveHopDisplay_directory|].
  unfold resolveHopDisplay, resolveLocalHopDisplay, MIN_NAMED_HOP_HEX_CHARS.
  destruct (Z.ltb_spec (len prefix) 4); split; try (done || lia).
  intros _ Hm. destruct matches as [|? [|? ?]]; unfold len in Hm; simpl in Hm; [lia..|done].
Qed.

Lemma resolveHopDisplay_local_first_witness :
  resolveHopDisplay (js "1A") [example_contact] None = Local HexOnly
  /\ resolveHopDisplay (js "A1B2") [] (Some {| dh_name := js "Peak"; dh_corescope := true;
       dh_public_key := None; dh_lat := None; dh_lon := None |}) = Directory (js "Peak").
Proof.
  split; [|reflexivity].
  apply (proj1 (proj2 (resolveHopDisplay_local_first (js "1A") [example_contact] None))).
  reflexivity.
Defined.

(** [resolvePath] returns one hop per token, in order; the matches of a hop are a
    permutation of the repeaters whose key starts with the token; and a hop's
    distance is present exactly when it and its predecessor (the sender for the
    first) are unambiguous and located, and is then the distance between the two. *)
Theorem resolvePath_hops `{JsMath} (path : option jstr) (sender : SenderInfo)
    (contacts : list Contact) (config : option RadioConfig) (hopCount : option Z) :
  let r := resolvePath path sender contacts config hopCount in
  ph_prefix <$> r.(rpa_hops) = parsePathHops path hopCount
  /\ Forall (fun h => h.(ph_matches) ≡ₚ findContactsByPrefix h.(ph_prefix) contacts true) r.(rpa_hops)
  /\ exact_distances
       (if isValidLocation sender.(si_lat) sender.(si_lon)
        then Some (sender.(si_lat), sender.(si_lon)) else None) r.(rpa_hops).
Proof.
  cbn. split; [apply resolve_hops_prefixes|]. split; [apply resolve_hops_matches|].
  pose proof (resolve_hops_exact contacts (parsePathHops path hopCount) (si_lat sender)
    (si_lon sender) (negb (isValidLocation (si_lat sender) (si_lon sender)))) as Hex.
  by destruct (isValidLocation _ _).
Qed.

(** When [resolvePath] reports no gap, every hop has a distance and the total is the
    sum of those distances, in path order, and of the last leg to the receiver (or
    just the distance from sender to receiver when there is no hop). *)
Theorem resolvePath_gapless_total `{JsMath} (path : option jstr) (sender : SenderInfo)
    (contacts : list Contact) (config : option RadioConfig) (hopCount : option Z)
    (Hgap : (resolvePath path sender contacts config hopCount).(rpa_hasGaps) = false) :
  let r := resolvePath path sender contacts config hopCount in
  exists ds final lat lon,
    Forall2 (fun h d => h.(ph_distanceFromPrev) = Some d) r.(rpa_hops) ds
    /\ end_location (sender.(si_lat), sender.(si_lon)) r.(rpa_hops) = (lat, lon)
    /\ calculateDistance lat lon r.(rpa_receiver).(ep_lat) r.(rpa_receiver).(ep_lon) = Some final
    /\ r.(rpa_totalDistances) =
       Some [if decide (r.(rpa_hops) = []) then final
             else foldl num_add (num_of_Z 0) (ds ++ [final])].
Proof.
  cbn in *. apply orb_false_iff in Hgap as [Hgap Hhops]. apply orb_false_iff in Hgap as [Hs Hr].
  apply negb_false_iff in Hs, Hr. apply existsb_negb_Forall in Hhops.
  pose proof (resolve_hops_exact contacts (parsePathHops path hopCount) (si_lat sender)
    (si_lon sender) false) as Hex.
  rewrite Hs in *. by apply calculateTotalDistances_gapless.
Qed.

Definition example_math : JsMath :=
  {| math_sin := fun x => x; math_cos := fun x => x; math_atan2 := fun x _ => x |}.
Definition example_sender (lat lon : option num) : SenderInfo :=
  {| si_name := js "Alice"; si_publicKeyOrPrefix := js "aabbcc"; si_lat := lat; si_lon := lon;
     si_pathHashMode := None |}.
Definition example_config : RadioConfig :=
  {| rc_public_key := js "0102030405060708"; rc_name := js "Home"; rc_lat := num_of_Z 45;
     rc_lon := num_of_Z 5; rc_path_hash_mode := 1 |}.

Lemma resolvePath_gapless_total_witness :
  let r := @resolvePath example_math (Some (js "a1b2"))
    (example_sender (Some (num_of_Z 1)) (Some (num_of_Z 2))) [example_contact]
    (Some example_config) (Some 1) in
  r.(rpa_hasGaps) = false /\ len r.(rpa_hops) = 1 /\ exists d, r.(rpa_totalDistances) = Some [d].
Proof.
  split; [vm_compute; reflexivity|]. split; [vm_compute; reflexivity|].
  destruct (@resolvePath_gapless_total example_math (Some (js "a1b2"))
    (example_sender (Some (num_of_Z 1)) (Some (num_of_Z 2))) [example_contact]
    (Some example_config) (Some 1)) as (? & ? & ? & ? & _ & _ & _ & Ht);
    [vm_compute; reflexivity|].
  eexists. exact Ht.
Defined.

(** A sender without a location and only the last hop located: the leg from that
    hop to the receiver is left out and no total is returned, although both its ends
    are located. (The loop marks the last unambiguous hop only after the starting one.) *)
Theorem calculateTotalDistances_drops_start_leg `{JsMath} (slat slon : option num)
    (hops : list PathHop) (lat lon rlat rlon : option num)
    (Hsender : isValidLocation slat slon = false)
    (Hstart : first_located hops = Some (lat, lon, []))
    (Hlast : isValidLocation lat lon = true) (Hreceiver : isValidLocation rlat rlon = true) :
  calculateTotalDistances slat slon hops rlat rlon = None
  /\ is_Some (calculateDistance lat lon rlat rlon).
Proof.
  split; [by eapply calculateTotalDistances_last_only|by apply calculateDistance_valid].
Qed.

Lemma calculateTotalDistances_drops_start_leg_witness :
  let r := @resolvePath example_math (Some (js "a1b2")) (example_sender None None)
    [example_contact] (Some example_config) (Some 1) in
  r.(rpa_totalDistances) = None.
Proof.
  apply (@calculateTotalDistances_drops_start_leg example_math None None
    (@resolve_hops example_math [example_contact] [js "A1B2"] None None true)
    (Some (num_of_Z 10)) (Some (num_of_Z 20)) (Some (num_of_Z 45)) (Some (num_of_Z 5)));
    vm_compute; reflexivity.
Defined.
