(* ===== verification/MessageCache.v ===== *)
(** The conversation message cache and the message reconciliation:
    [utils/messageIdentity.ts] and the first half of [hooks/useConversationMessages.ts]. *)
From S2P Require Import Prelude JsString JsCollections JsNum Types.

(** ** Message identity *)

Definition type_str (t : MessageType) : jstr :=
  match t with PRIV => js "PRIV" | CHAN => js "CHAN" end.

Definition getMessageContentKey (msg : Message) : jstr :=
  let ts :=
    match msg.(m_sender_timestamp) with
    | Some ts => int_str ts
    | None => js "r" ++ int_str msg.(m_received_at) ++ js "-" ++ int_str msg.(m_id)
    end in
  let senderSuffix :=
    match msg.(m_type), msg.(m_sender_key) with
    | PRIV, Some ((_ :: _) as k) => js "-" ++ k
    | _, _ => []
    end in
  type_str msg.(m_type) ++ js "-" ++ msg.(m_conversation_key) ++ js "-" ++ msg.(m_text)
    ++ js "-" ++ ts ++ senderSuffix.

(** ** The cache *)

Definition MAX_CACHED_CONVERSATIONS : Z := 20.
Definition MAX_MESSAGES_PER_ENTRY : Z := 200.

Record CachedEntry := {
  ce_messages : list Message;
  ce_hasOlderMessages : bool;
}.

Record InternalEntry := {
  ie_messages : list Message;
  ie_hasOlderMessages : bool;
  ie_contentKeys : gset jstr;
}.

Definition content_keys (messages : list Message) : gset jstr :=
  list_to_set (getMessageContentKey <$> messages).

(** The cache: conversations in least-recently-used order. *)
Abbreviation cache := (list (jstr * InternalEntry)).

(** [messages.sort((a, b) => b.received_at - a.received_at)] *)
Definition newest_first (messages : list Message) : list Message :=
  js_sort (fun a b => b.(m_received_at) ?= a.(m_received_at)) messages.

Definition normalizeEntry (entry : CachedEntry) : InternalEntry :=
  let trim := MAX_MESSAGES_PER_ENTRY <? len entry.(ce_messages) in
  let messages :=
    if trim then slice (newest_first entry.(ce_messages)) 0 MAX_MESSAGES_PER_ENTRY
    else entry.(ce_messages) in
  {| ie_messages := messages;
     ie_hasOlderMessages := if trim then true else entry.(ce_hasOlderMessages);
     ie_contentKeys := content_keys messages |}.

Definition external (e : InternalEntry) : CachedEntry :=
  {| ce_messages := e.(ie_messages); ce_hasOlderMessages := e.(ie_hasOlderMessages) |}.

(** [get] moves the entry to the most recent end. *)
Definition cache_get (c : cache) (id : jstr) : option CachedEntry * cache :=
  match om_get c id with
  | None => (None, c)
  | Some entry => (Some (external entry), om_set (om_delete c id) id entry)
  end.

Definition cache_peek (c : cache) (id : jstr) : option CachedEntry := external <$> om_get c id.

(** [if (size > MAX) delete(keys().next().value)] *)
Definition evict (c : cache) : cache :=
  if MAX_CACHED_CONVERSATIONS <? len c then
    match om_first_key c with
    | Some lruKey => om_delete c lruKey
    | None => c
    end
  else c.

Definition cache_set (c : cache) (id : jstr) (entry : CachedEntry) : cache :=
  evict (om_set (om_delete c id) id (normalizeEntry entry)).

Definition has_id (messages : list Message) (id : Z) : bool :=
  existsb (fun m => m.(m_id) =? id) messages.

Definition cache_addMessage (c : cache) (id : jstr) (msg : Message) : bool * cache :=
  let contentKey := getMessageContentKey msg in
  match om_get c id with
  | None =>
    (true, evict (om_set c id {| ie_messages := [msg]; ie_hasOlderMessages := true;
                                 ie_contentKeys := {[contentKey]} |}))
  | Some entry =>
    if bool_decide (contentKey ∈ entry.(ie_contentKeys)) then (false, c)
    else if has_id entry.(ie_messages) msg.(m_id) then (false, c)
    else
      let nextEntry := normalizeEntry
        {| ce_messages := entry.(ie_messages) ++ [msg];
           ce_hasOlderMessages := entry.(ie_hasOlderMessages) |} in
      (true, om_set (om_delete c id) id nextEntry)
  end.

(** *** Acknowledgements *)

(** The optional part of an ACK event. The outer [None] of a field is [undefined]. *)
Record AckExtras := {
  ax_packet_hash : option (option jstr);
  ax_observer_reach_eligible : option (option bool);
}.

(** An ACK event: its count, and the fields it may carry. *)
Record Ack := {
  ak_ackCount : Z;
  ak_paths : option (list MessagePath);
  ak_packetId : option (option Z);
  ak_extras : AckExtras;
}.

(** [m.paths?.length ?? 0] *)
Definition paths_len (paths : option (list MessagePath)) : Z := default 0 (len <$> paths).

(** [...(x !== undefined && { field: x })] over the current field. *)
Definition spread {A} (new old : option A) : option A :=
  match new with Some _ => new | None => old end.

(** The update an ACK makes to a loaded message. *)
Definition ack_message (current : Message) (a : Ack) : Message :=
  message_with current
    (Z.max current.(m_acked) a.(ak_ackCount))
    (match a.(ak_paths) with
     | Some paths => if paths_len current.(m_paths) <=? len paths then Some paths else current.(m_paths)
     | None => current.(m_paths)
     end)
    (spread a.(ak_packetId) current.(m_packet_id))
    (spread a.(ak_extras).(ax_packet_hash) current.(m_packet_hash))
    (spread a.(ak_extras).(ax_observer_reach_eligible) current.(m_observer_reach_eligible)).

(** [findIndex] and the update at that index: the first message with the id. *)
Fixpoint ack_first (messages : list Message) (messageId : Z) (a : Ack) : list Message :=
  match messages with
  | [] => []
  | m :: rest =>
    if m.(m_id) =? messageId then ack_message m a :: rest else m :: ack_first rest messageId a
  end.

Fixpoint cache_updateAck (c : cache) (messageId : Z) (a : Ack) : cache :=
  match c with
  | [] => []
  | (id, entry) :: rest =>
    if has_id entry.(ie_messages) messageId then
      (id, {| ie_messages := ack_first entry.(ie_messages) messageId a;
              ie_hasOlderMessages := entry.(ie_hasOlderMessages);
              ie_contentKeys := entry.(ie_contentKeys) |}) :: rest
    else (id, entry) :: cache_updateAck rest messageId a
  end.

(** *** Removal and renaming *)

Definition cache_remove (c : cache) (id : jstr) : cache := om_delete c id.

(** The merge loop of [rename]: [seenIds] grows with the messages pushed. *)
Fixpoint merge_by_id (merged : list Message) (older : list Message) : list Message :=
  match older with
  | [] => merged
  | m :: rest => merge_by_id (if has_id merged m.(m_id) then merged else merged ++ [m]) rest
  end.

Definition cache_rename (c : cache) (oldId newId : jstr) : cache :=
  if bool_decide (oldId = newId) then c else
  match om_get c oldId with
  | None => c
  | Some oldEntry =>
    match om_get c newId with
    | None => om_set (om_delete c oldId) newId oldEntry
    | Some newEntry =>
      om_set (om_delete c oldId) newId (normalizeEntry
        {| ce_messages := merge_by_id newEntry.(ie_messages) oldEntry.(ie_messages);
           ce_hasOlderMessages :=
             newEntry.(ie_hasOlderMessages) || oldEntry.(ie_hasOlderMessages) |})
    end
  end.

(** The loop returns at the first entry that holds the message; [set] on a key that
    is present keeps the entry's place. *)
Fixpoint cache_removeMessage (c : cache) (messageId : Z) : cache :=
  match c with
  | [] => []
  | (id, entry) :: rest =>
    if has_id entry.(ie_messages) messageId then
      (id, normalizeEntry
        {| ce_messages := filter (fun m => m.(m_id) <> messageId) entry.(ie_messages);
           ce_hasOlderMessages := entry.(ie_hasOlderMessages) |}) :: rest
    else (id, entry) :: cache_removeMessage rest messageId
  end.

Definition cache_clear (c : cache) : cache := [].

(** ** Reconciliation with a fetched page *)

(** [currentById.get(id)]: a later message with the same id replaces an earlier one. *)
Definition find_last (current : list Message) (id : Z) : option Message :=
  foldl (fun acc m => if m.(m_id) =? id then Some m else acc) None current.

(** The fields whose change makes a page worth merging. *)
Definition same_row (a b : Message) : bool :=
  (a.(m_acked) =? b.(m_acked)) && (paths_len a.(m_paths) =? paths_len b.(m_paths))
  && (a.(m_text) ≟ b.(m_text)) && (a.(m_packet_id) ≟ b.(m_packet_id)).

Definition reconcileConversationMessages (current fetched : list Message) : option (list Message) :=
  let needsUpdate :=
    existsb (fun message =>
      match find_last current message.(m_id) with
      | None => true
      | Some currentMessage => negb (same_row currentMessage message)
      end) fetched in
  if negb needsUpdate then None
  else
    let olderMessages := filter (fun m => has_id fetched m.(m_id) = false) current in
    Some (fetched ++ olderMessages).

(** ** Pending acknowledgements *)

Definition MAX_PENDING_ACKS : Z := 500.

Record PendingAckUpdate := {
  pa_ackCount : Z;
  pa_paths : option (list MessagePath);
  pa_packetId : option (option Z);
  pa_packetHash : option (option jstr);
  pa_observerReachEligible : option (option bool);
}.

#[export] Instance AckExtras_eq_dec : EqDecision AckExtras.
Proof. solve_decision. Defined.
#[export] Instance PendingAckUpdate_eq_dec : EqDecision PendingAckUpdate.
Proof. solve_decision. Defined.

Definition mergePendingAck (existing : option PendingAckUpdate) (a : Ack) : PendingAckUpdate :=
  let x := a.(ak_extras) in
  match existing with
  | None =>
    {| pa_ackCount := a.(ak_ackCount); pa_paths := a.(ak_paths); pa_packetId := a.(ak_packetId);
       pa_packetHash := x.(ax_packet_hash);
       pa_observerReachEligible := x.(ax_observer_reach_eligible) |}
  | Some e =>
    if e.(pa_ackCount) <? a.(ak_ackCount) then
      {| pa_ackCount := a.(ak_ackCount);
         pa_paths := spread a.(ak_paths) e.(pa_paths);
         pa_packetId := spread a.(ak_packetId) e.(pa_packetId);
         pa_packetHash := spread x.(ax_packet_hash) e.(pa_packetHash);
         pa_observerReachEligible :=
           spread x.(ax_observer_reach_eligible) e.(pa_observerReachEligible) |}
    else if a.(ak_ackCount) <? e.(pa_ackCount) then e
    else
      let packetIdChanged :=
        bool_decide (is_Some a.(ak_packetId)) && negb (a.(ak_packetId) ≟ e.(pa_packetId)) in
      match a.(ak_paths) with
      | None =>
        if negb packetIdChanged && negb (bool_decide (is_Some x.(ax_packet_hash)))
           && negb (bool_decide (is_Some x.(ax_observer_reach_eligible)))
        then e
        else
          {| pa_ackCount := e.(pa_ackCount); pa_paths := e.(pa_paths);
             pa_packetId := if packetIdChanged then a.(ak_packetId) else e.(pa_packetId);
             pa_packetHash := spread x.(ax_packet_hash) e.(pa_packetHash);
             pa_observerReachEligible :=
               spread x.(ax_observer_reach_eligible) e.(pa_observerReachEligible) |}
      | Some paths =>
        let existingPathCount := default (-1) (len <$> e.(pa_paths)) in
        if existingPathCount <=? len paths then
          {| pa_ackCount := a.(ak_ackCount); pa_paths := Some paths; pa_packetId := a.(ak_packetId);
             pa_packetHash := spread x.(ax_packet_hash) e.(pa_packetHash);
             pa_observerReachEligible :=
               spread x.(ax_observer_reach_eligible) e.(pa_observerReachEligible) |}
        else if negb packetIdChanged then e
        else
          {| pa_ackCount := e.(pa_ackCount); pa_paths := e.(pa_paths);
             pa_packetId := a.(ak_packetId);
             pa_packetHash := e.(pa_packetHash);
             pa_observerReachEligible := e.(pa_observerReachEligible) |}
      end
  end.

(** The buffer of ACKs that came before their message: a [Map] by message id. *)
Abbreviation pending := (list (Z * PendingAckUpdate)).

Definition setPendingAck (p : pending) (messageId : Z) (a : Ack) : pending :=
  let merged := mergePendingAck (om_get p messageId) a in
  let p' := om_set (om_delete p messageId) messageId merged in
  if MAX_PENDING_ACKS <? len p' then
    match om_first_key p' with
    | Some oldestMessageId => om_delete p' oldestMessageId
    | None => p'
    end
  else p'.

Definition apply_pending (msg : Message) (u : PendingAckUpdate) : Message :=
  message_with msg (Z.max msg.(m_acked) u.(pa_ackCount))
    (match u.(pa_paths) with Some paths => Some paths | None => msg.(m_paths) end)
    (spread u.(pa_packetId) msg.(m_packet_id))
    (spread u.(pa_packetHash) msg.(m_packet_hash))
    (spread u.(pa_observerReachEligible) msg.(m_observer_reach_eligible)).

Definition applyPendingAck (p : pending) (msg : Message) : Message * pending :=
  match om_get p msg.(m_id) with
  | None => (msg, p)
  | Some u => (apply_pending msg u, om_delete p msg.(m_id))
  end.

(** ** Appending a page *)

(** The loop over [incoming]: the ids and content keys seen so far, and the additions. *)
Fixpoint append_loop (seenIds : gset Z) (seenContent : gset jstr) (incoming : list Message)
    : list Message :=
  match incoming with
  | [] => []
  | msg :: rest =>
    let contentKey := getMessageContentKey msg in
    if bool_decide (msg.(m_id) ∈ seenIds) || bool_decide (contentKey ∈ seenContent)
    then append_loop seenIds seenContent rest
    else msg :: append_loop ({[msg.(m_id)]} ∪ seenIds) ({[contentKey]} ∪ seenContent) rest
  end.

(** [None]: the same array is returned. *)
Definition appendUniqueMessages (current incoming : list Message) : option (list Message) :=
  match incoming with
  | [] => None
  | _ =>
    let additions :=
      append_loop (list_to_set (m_id <$> current)) (content_keys current) incoming in
    match additions with
    | [] => None
    | _ => Some (current ++ additions)
    end
  end.

(** ** Which conversations hold messages *)

Definition isMessageConversation (conversation : option Conversation) : bool :=
  match conversation with
  | None => false
  | Some c =>
    match c.(cv_type) with
    | CtRaw | CtControl | CtMap | CtVisualizer | CtSearch | CtTrace | CtLocate => false
    | CtContact | CtChannel | CtLive | CtDiscovered | CtTest => true
    end
  end.

Definition isActiveConversationMessage (active : option Conversation) (msg : Message) : bool :=
  match active with
  | None => false
  | Some c =>
    match msg.(m_type), c.(cv_type) with
    | CHAN, CtChannel | PRIV, CtContact => msg.(m_conversation_key) ≟ c.(cv_id)
    | _, _ => false
    end
  end.
