(* ===== verification/MessageCacheProps.v ===== *)
(** Invariants and behaviour of the message cache, the reconciliation and the
    pending-ACK buffer. *)
From S2P Require Import Prelude JsString JsCollections JsNum Types MessageCache.

(** ** Least-recently-used maps *)

Section lru.
Context {V : Type}.
Implicit Types c : list (jstr * V).

Lemma om_keys_move_last c id v :
  om_keys (om_set (om_delete c id) id v) = filter (fun k => k <> id) (om_keys c) ++ [id].
Proof.
  rewrite om_set_absent by apply om_delete_notin. unfold om_keys at 1. rewrite fmap_app.
  by rewrite <- om_keys_delete.
Qed.

Lemma om_get_move_last c id v k :
  om_get (om_set (om_delete c id) id v) k = if decide (k = id) then Some v else om_get c k.
Proof.
  case_decide as E; [subst; apply om_get_set_eq|].
  by rewrite om_get_set_ne, om_get_delete_ne by congruence.
Qed.

Lemma len_move_last c id v : len (om_set (om_delete c id) id v) <= len c + 1.
Proof.
  rewrite om_set_absent by apply om_delete_notin. rewrite len_app. unfold len.
  pose proof (om_delete_length_le c id). simpl. lia.
Qed.

Lemma len_move_last_present c id v :
  om_wf c -> id ∈ om_keys c -> len (om_set (om_delete c id) id v) = len c.
Proof.
  intros Hwf Hin. rewrite om_set_absent by apply om_delete_notin. rewrite len_app. unfold len.
  pose proof (om_delete_length c id Hwf Hin). simpl. lia.
Qed.
End lru.

(** ** The cache invariant *)

Record entry_ok (e : InternalEntry) : Prop := {
  eo_bound : len e.(ie_messages) <= MAX_MESSAGES_PER_ENTRY;
  eo_keys : e.(ie_contentKeys) = content_keys e.(ie_messages);
}.

Record cache_ok (c : cache) : Prop := {
  co_wf : om_wf c;
  co_bound : len c <= MAX_CACHED_CONVERSATIONS;
  co_entries : Forall (fun p => entry_ok p.2) c;
}.

Lemma len_take_slice {A} (l : list A) n : 0 <= n -> len (slice l 0 n) <= n.
Proof. apply len_slice_le. Qed.

Lemma normalizeEntry_ok e : entry_ok (normalizeEntry e).
Proof.
  unfold normalizeEntry. constructor; cbn [ie_messages ie_contentKeys]; [|done].
  destruct (Z.ltb_spec MAX_MESSAGES_PER_ENTRY (len (ce_messages e))); [|lia].
  apply len_take_slice. done.
Qed.

Lemma Forall_om_set {V} (P : jstr * V -> Prop) (c : list (jstr * V)) id v :
  Forall P c -> P (id, v) -> Forall P (om_set c id v).
Proof.
  intros Hc Hv. apply Forall_forall. intros p [->|Hp]%om_elem_set; [done|].
  by eapply Forall_forall in Hc.
Qed.

Lemma Forall_om_delete {V} (P : jstr * V -> Prop) (c : list (jstr * V)) id :
  Forall P c -> Forall P (om_delete c id).
Proof.
  intros Hc. apply Forall_forall. intros p [Hp _]%om_elem_delete. by eapply Forall_forall in Hc.
Qed.

Lemma om_keys_first {V} (c : list (jstr * V)) k :
  om_first_key c = Some k -> k ∈ om_keys c.
Proof. unfold om_first_key. destruct (om_keys c); intros; simplify_eq/=. left. Qed.

Lemma evict_len c : om_wf c -> len c <= MAX_CACHED_CONVERSATIONS + 1 ->
  len (evict c) <= MAX_CACHED_CONVERSATIONS.
Proof.
  intros Hwf Hl. unfold evict. destruct (Z.ltb_spec MAX_CACHED_CONVERSATIONS (len c)); [|lia].
  destruct (om_first_key c) as [k|] eqn:E.
  - pose proof (om_delete_length c k Hwf (om_keys_first _ _ E)). unfold len in *. lia.
  - unfold om_first_key, om_keys in E. destruct c; [|done]. done.
Qed.

Lemma evict_ok c :
  om_wf c -> len c <= MAX_CACHED_CONVERSATIONS + 1 -> Forall (fun p => entry_ok p.2) c ->
  cache_ok (evict c).
Proof.
  intros Hwf Hl Hf. constructor; [|by apply evict_len|].
  - unfold evict. destruct (_ <? _); [|done]. destruct (om_first_key c); auto with meshloom.
  - unfold evict. destruct (_ <? _); [|done]. destruct (om_first_key c); [|done].
    by apply Forall_om_delete.
Qed.

Lemma entry_of_get c id e : cache_ok c -> om_get c id = Some e -> entry_ok e.
Proof.
  intros [_ _ Hf] Hg%om_get_Some_elem. eapply Forall_forall in Hf; [|exact Hg]. done.
Qed.

Lemma get_in_keys {V} (c : list (jstr * V)) id e : om_get c id = Some e -> id ∈ om_keys c.
Proof.
  intros Hg. destruct (decide (id ∈ om_keys c)) as [|Hn]; [done|].
  apply om_get_None in Hn. congruence.
Qed.

#[export] Hint Resolve normalizeEntry_ok entry_of_get get_in_keys Forall_om_set Forall_om_delete
  evict_ok : meshloom.

(** The operations keep the invariant. *)
Lemma cache_get_ok c id : cache_ok c -> cache_ok (cache_get c id).2.
Proof.
  intros Hc. unfold cache_get. destruct (om_get c id) as [e|] eqn:E; [|done]. simpl.
  pose proof Hc as [Hwf Hl Hf]. constructor; [auto with meshloom| |].
  - rewrite len_move_last_present; eauto with meshloom.
  - apply Forall_om_set; [by apply Forall_om_delete|]. simpl. eauto with meshloom.
Qed.

Lemma cache_set_ok c id e : cache_ok c -> cache_ok (cache_set c id e).
Proof.
  intros [Hwf Hl Hf]. apply evict_ok; [auto with meshloom| |].
  - pose proof (len_move_last c id (normalizeEntry e)). lia.
  - apply Forall_om_set; [by apply Forall_om_delete|]. apply normalizeEntry_ok.
Qed.

Lemma singleton_entry_ok msg : entry_ok {| ie_messages := [msg]; ie_hasOlderMessages := true;
  ie_contentKeys := {[getMessageContentKey msg]} |}.
Proof. constructor; cbn; [done|]. unfold content_keys. set_solver. Qed.

Lemma cache_addMessage_ok c id msg : cache_ok c -> cache_ok (cache_addMessage c id msg).2.
Proof.
  intros Hc. unfold cache_addMessage. pose proof Hc as [Hwf Hl Hf].
  destruct (om_get c id) as [e|] eqn:E.
  - case_bool_decide; [done|]. destruct (has_id _ _); [done|]. simpl.
    constructor; [auto with meshloom| |].
    + rewrite len_move_last_present; eauto with meshloom.
    + apply Forall_om_set; [by apply Forall_om_delete|]. apply normalizeEntry_ok.
  - simpl. apply evict_ok; [auto with meshloom| |].
    + rewrite om_set_absent by (by apply om_get_None). rewrite len_app. simpl. unfold len in *.
      simpl. lia.
    + apply Forall_om_set; [done|]. apply singleton_entry_ok.
Qed.

(** An ACK does not touch what identifies a message. *)
Lemma ack_message_id m a : (ack_message m a).(m_id) = m.(m_id).
Proof. reflexivity. Qed.
Lemma content_key_with m a p i h o : getMessageContentKey (message_with m a p i h o) = getMessageContentKey m.
Proof. reflexivity. Qed.

Lemma ack_first_keys ms id a : content_keys (ack_first ms id a) = content_keys ms.
Proof.
  unfold content_keys. f_equal. induction ms as [|m ms IH]; [done|]. cbn [ack_first].
  destruct (_ =? _); rewrite !fmap_cons; [done|by rewrite IH].
Qed.

Lemma ack_first_length ms id a : length (ack_first ms id a) = length ms.
Proof. induction ms as [|m ms IH]; [done|]. simpl. destruct (_ =? _); simpl; auto. Qed.

Lemma ack_first_ids ms id a : m_id <$> ack_first ms id a = m_id <$> ms.
Proof.
  induction ms as [|m ms IH]; [done|]. cbn [ack_first].
  destruct (_ =? _); rewrite !fmap_cons; [done|by rewrite IH].
Qed.

Lemma cache_updateAck_keys c id a : om_keys (cache_updateAck c id a) = om_keys c.
Proof.
  unfold om_keys. induction c as [|[k e] c IH]; [done|].
  cbn [cache_updateAck cache_removeMessage].
  destruct (has_id _ _); rewrite !fmap_cons; [done|by rewrite IH].
Qed.

Lemma cache_updateAck_ok c id a : cache_ok c -> cache_ok (cache_updateAck c id a).
Proof.
  intros [Hwf Hl Hf]. constructor.
  - unfold om_wf. by rewrite cache_updateAck_keys.
  - replace (len (cache_updateAck c id a)) with (len (om_keys (cache_updateAck c id a)))
      by apply len_fmap.
    rewrite cache_updateAck_keys. unfold om_keys. by rewrite len_fmap.
  - clear Hwf Hl. induction Hf as [|[k e] c [Hb Hk] Hf IH]; [constructor|]. simpl in *.
    destruct (has_id _ _); constructor; try done.
    constructor; simpl; [unfold len in *; by rewrite ack_first_length | by rewrite ack_first_keys].
Qed.

Lemma cache_remove_ok c id : cache_ok c -> cache_ok (cache_remove c id).
Proof.
  intros [Hwf Hl Hf]. constructor; [by apply om_wf_delete| |by apply Forall_om_delete].
  pose proof (om_delete_length_le c id). unfold cache_remove, len in *. lia.
Qed.

Lemma len_set_after_delete {V} (c : list (jstr * V)) oldId newId v :
  om_wf c -> oldId ∈ om_keys c -> len (om_set (om_delete c oldId) newId v) <= len c.
Proof.
  intros Hwf Hin. pose proof (om_delete_length c oldId Hwf Hin) as Hd.
  destruct (decide (newId ∈ om_keys (om_delete c oldId))) as [Hi|Hn].
  - rewrite <- (len_fmap fst (om_set _ _ _)). fold (om_keys (om_set (om_delete c oldId) newId v)).
    rewrite om_keys_set_present by done. unfold om_keys. rewrite len_fmap. unfold len. lia.
  - rewrite om_set_absent by done. rewrite len_app. unfold len. simpl. lia.
Qed.

Lemma cache_rename_ok c o n : cache_ok c -> cache_ok (cache_rename c o n).
Proof.
  intros Hc. unfold cache_rename. case_bool_decide; [done|]. pose proof Hc as [Hwf Hl Hf].
  destruct (om_get c o) as [eo|] eqn:Eo; [|done].
  destruct (om_get c n) as [en|] eqn:En; (constructor;
    [auto with meshloom
    |pose proof (len_set_after_delete c o n) as Hx; etransitivity; [apply Hx; eauto with meshloom|done]
    |apply Forall_om_set; [by apply Forall_om_delete|]; simpl; eauto with meshloom]).
Qed.

Lemma cache_removeMessage_keys c id : om_keys (cache_removeMessage c id) = om_keys c.
Proof.
  unfold om_keys. induction c as [|[k e] c IH]; [done|].
  cbn [cache_updateAck cache_removeMessage].
  destruct (has_id _ _); rewrite !fmap_cons; [done|by rewrite IH].
Qed.

Lemma cache_removeMessage_ok c id : cache_ok c -> cache_ok (cache_removeMessage c id).
Proof.
  intros [Hwf Hl Hf]. constructor.
  - unfold om_wf. by rewrite cache_removeMessage_keys.
  - rewrite <- (len_fmap fst). change (len (om_keys (cache_removeMessage c id)) <= MAX_CACHED_CONVERSATIONS).
    rewrite cache_removeMessage_keys. unfold om_keys. by rewrite len_fmap.
  - clear Hwf Hl. induction Hf as [|[k e] c He Hf IH]; [constructor|]. simpl in *.
    destruct (has_id _ _); constructor; try done. apply normalizeEntry_ok.
Qed.

(** ** The abstract cache: a bounded list in recency order *)

Module LruSpec.
(** Conversations, least recently used first. *)
Abbreviation state := (list (jstr * CachedEntry)).

Definition lookup (s : state) (id : jstr) : option CachedEntry :=
  snd <$> head (filter (fun p => p.1 = id) s).

Definition without (s : state) (id : jstr) : state := filter (fun p => p.1 <> id) s.

(** Most recently used last. *)
Definition touch (s : state) (id : jstr) (e : CachedEntry) : state := without s id ++ [(id, e)].

(** Over capacity, the least recently used goes. *)
Definition bound (s : state) : state :=
  if MAX_CACHED_CONVERSATIONS <? len s then tail s else s.
End LruSpec.

Definition abs (c : cache) : LruSpec.state := prod_map id external <$> c.

Lemma abs_delete c k : abs (om_delete c k) = LruSpec.without (abs c) k.
Proof.
  unfold abs, om_delete, LruSpec.without. induction c as [|[k1 e] c IH]; [done|].
  rewrite fmap_cons, !filter_cons. cbn [prod_map fst id].
  case_decide; [rewrite fmap_cons; by f_equal | done].
Qed.

Lemma abs_move_last c k e :
  abs (om_set (om_delete c k) k e) = LruSpec.touch (abs c) k (external e).
Proof.
  rewrite om_set_absent by apply om_delete_notin. unfold abs. rewrite fmap_app.
  fold (abs (om_delete c k)). by rewrite abs_delete.
Qed.

Lemma om_delete_first {V} (c : list (jstr * V)) k :
  om_wf c -> om_first_key c = Some k -> om_delete c k = tail c.
Proof.
  unfold om_wf, om_first_key, om_keys. destruct c as [|[k1 e] c]; [done|]. simpl.
  intros [Hni _]%NoDup_cons [= ->]. unfold om_delete. rewrite filter_cons. simpl.
  rewrite decide_False by tauto. by apply (om_delete_absent c k).
Qed.

Lemma abs_evict c : om_wf c -> abs (evict c) = LruSpec.bound (abs c).
Proof.
  intros Hwf. unfold evict, LruSpec.bound. unfold abs at 2. rewrite len_fmap.
  destruct (_ <? _) eqn:E; [|done]. to_prop.
  destruct (om_first_key c) as [k|] eqn:Ek.
  - rewrite (om_delete_first _ _ Hwf Ek). unfold abs. by destruct c.
  - by destruct c.
Qed.

Lemma abs_lookup c k : LruSpec.lookup (abs c) k = external <$> om_get c k.
Proof.
  unfold LruSpec.lookup, abs. induction c as [|[k1 e] c IH]; [done|].
  rewrite fmap_cons, filter_cons. cbn [prod_map fst om_get id]. by case_decide.
Qed.

(** ** Trimming keeps the newest messages *)

#[export] Instance newest_total : TotalPreorder (fun a b => b.(m_received_at) ?= a.(m_received_at)).
Proof.
  split; unfold cmp_le; intros.
  - rewrite !Z.compare_gt_iff. lia.
  - rewrite Z.compare_gt_iff in *. lia.
Qed.

Lemma StronglySorted_take_drop {A} (R : A -> A -> Prop) n (l : list A) x y :
  StronglySorted R l -> x ∈ take n l -> y ∈ drop n l -> R x y.
Proof.
  revert n. induction l as [|z l IH]; intros n Hs Hx Hy.
  - rewrite take_nil in Hx. by apply not_elem_of_nil in Hx.
  - destruct n as [|n]; [by apply not_elem_of_nil in Hx|].
    simpl in *. apply StronglySorted_inv in Hs as [Hs Hall].
    apply elem_of_cons in Hx as [->|Hx]; [|by eapply IH].
    eapply Forall_forall; [exact Hall|]. rewrite <- (take_drop n l). set_solver.
Qed.

Lemma normalizeEntry_trim e :
  MAX_MESSAGES_PER_ENTRY < len e.(ce_messages) ->
  exists dropped,
    (normalizeEntry e).(ie_messages) ++ dropped ≡ₚ e.(ce_messages)
    /\ len (normalizeEntry e).(ie_messages) = MAX_MESSAGES_PER_ENTRY
    /\ (normalizeEntry e).(ie_hasOlderMessages) = true
    /\ forall kept d, kept ∈ (normalizeEntry e).(ie_messages) -> d ∈ dropped ->
       d.(m_received_at) <= kept.(m_received_at).
Proof.
  intros Hl. unfold normalizeEntry. rewrite (proj2 (Z.ltb_lt _ _) Hl). cbn [ie_messages ie_hasOlderMessages].
  set (s := newest_first (ce_messages e)).
  assert (Hs : s ≡ₚ ce_messages e) by apply js_sort_perm.
  assert (Hsl : length s = length (ce_messages e)) by by rewrite Hs.
  rewrite slice_to by done. exists (drop (Z.to_nat MAX_MESSAGES_PER_ENTRY) s).
  split; [by rewrite take_drop|]. split; [unfold MAX_MESSAGES_PER_ENTRY, len in *; rewrite length_take; lia|].
  split; [done|]. intros kept d Hk Hd.
  pose proof (StronglySorted_take_drop _ _ _ _ _ (js_sort_Sorted _ (ce_messages e)) Hk Hd) as Hle.
  unfold cmp_le in Hle. rewrite Z.compare_gt_iff in Hle. lia.
Qed.

Lemma normalizeEntry_small e :
  len e.(ce_messages) <= MAX_MESSAGES_PER_ENTRY ->
  external (normalizeEntry e) = e.
Proof.
  intros Hl. unfold normalizeEntry, external.
  replace (MAX_MESSAGES_PER_ENTRY <? len (ce_messages e)) with false by (symmetry; lia).
  by destruct e.
Qed.

(** ** Deduplication *)

Lemma has_id_iff ms id : has_id ms id = true <-> id ∈ (m_id <$> ms).
Proof.
  unfold has_id. rewrite existsb_exists, list_elem_of_fmap. setoid_rewrite <- list_elem_of_In.
  setoid_rewrite Z.eqb_eq. firstorder.
Qed.

Lemma has_id_false ms id : has_id ms id = false <-> id ∉ (m_id <$> ms).
Proof. rewrite <- has_id_iff. by destruct (has_id ms id). Qed.

Lemma elem_content_keys k ms : k ∈ content_keys ms <-> exists m, m ∈ ms /\ getMessageContentKey m = k.
Proof.
  unfold content_keys. rewrite elem_of_list_to_set, list_elem_of_fmap. firstorder.
Qed.

(** A conversation already holds a message: the same content key, or the same id. *)
Definition duplicate_in (ms : list Message) (msg : Message) : Prop :=
  exists m, m ∈ ms /\ (getMessageContentKey m = getMessageContentKey msg \/ m.(m_id) = msg.(m_id)).

Lemma cache_addMessage_rejects c id msg :
  cache_ok c ->
  (cache_addMessage c id msg).1 = false <->
  exists e, om_get c id = Some e /\ duplicate_in e.(ie_messages) msg.
Proof.
  intros Hc. unfold cache_addMessage, duplicate_in.
  destruct (om_get c id) as [e|] eqn:E; [|split; [done|by intros (?&?&?)]].
  rewrite (eo_keys e) by eauto with meshloom.
  case_bool_decide as Hk.
  - apply elem_content_keys in Hk as (m & Hm & Hk). split; [|done]. intros _. eauto 8.
  - destruct (has_id (ie_messages e) (m_id msg)) eqn:Hid; simpl; split; try done.
    + intros _. apply has_id_iff, list_elem_of_fmap in Hid as (m & ? & ?). eauto 8.
    + intros (? & [= <-] & m & Hm & [Hk'|Hid']).
      * destruct Hk. apply elem_content_keys. eauto.
      * apply has_id_false in Hid. destruct Hid. rewrite <- Hid'. by apply list_elem_of_fmap_2.
Qed.

(** ** Reconciliation *)

Lemma find_last_app current m id :
  find_last (current ++ [m]) id = if m.(m_id) =? id then Some m else find_last current id.
Proof. unfold find_last. by rewrite foldl_app. Qed.

Lemma find_last_Some current id m : find_last current id = Some m -> m ∈ current /\ m.(m_id) = id.
Proof.
  induction current as [|x l IH] using rev_ind; [done|]. rewrite find_last_app.
  destruct (Z.eqb_spec (m_id x) id); [intros [= <-]|intros ?%IH]; set_solver.
Qed.

Lemma find_last_NoDup current m :
  NoDup (m_id <$> current) -> m ∈ current -> find_last current m.(m_id) = Some m.
Proof.
  induction current as [|x l IH] using rev_ind; intros Hnd Hm; [by apply not_elem_of_nil in Hm|].
  rewrite fmap_app in Hnd. apply NoDup_snoc in Hnd as [Hnd Hx].
  rewrite find_last_app. apply elem_of_app in Hm as [Hm|Hm%list_elem_of_singleton].
  - destruct (Z.eqb_spec (m_id x) (m_id m)) as [E|]; [|by apply IH].
    destruct Hx. rewrite E. by apply list_elem_of_fmap_2.
  - subst. by rewrite Z.eqb_refl.
Qed.

Lemma find_last_skip l k id :
  id ∉ (m_id <$> k) -> find_last (l ++ k) id = find_last l id.
Proof.
  induction k as [|x k IH] using rev_ind; intros Hn; [by rewrite app_nil_r|].
  rewrite fmap_app in Hn. apply not_elem_of_app in Hn as [Hn Hx].
  rewrite app_assoc, find_last_app, IH by done.
  destruct (Z.eqb_spec (m_id x) id); [set_solver|done].
Qed.

Lemma same_row_refl m : same_row m m = true.
Proof. unfold same_row. rewrite !Z.eqb_refl, !bool_decide_eq_true_2; done. Qed.

Lemma reconcile_None_iff current fetched :
  reconcileConversationMessages current fetched = None <->
  Forall (fun m => exists m', find_last current m.(m_id) = Some m' /\ same_row m' m = true) fetched.
Proof.
  unfold reconcileConversationMessages. cbv zeta.
  destruct (existsb _ fetched) eqn:E; simpl; split; try done.
  - intros Hall. apply existsb_exists in E as (m & Hm%list_elem_of_In & Hb).
    eapply Forall_forall in Hall as (m' & Hf & Hs); [|exact Hm]. by rewrite Hf, Hs in Hb.
  - intros _. apply Forall_forall. intros m Hm%list_elem_of_In.
    destruct (find_last current (m_id m)) as [m'|] eqn:Ef.
    + exists m'. split; [done|]. destruct (same_row m' m) eqn:Es; [done|].
      exfalso. enough (Hx : existsb (fun message => match find_last current (m_id message) with
        | Some currentMessage => negb (same_row currentMessage message) | None => true end) fetched = true)
        by congruence.
      apply existsb_exists. exists m. by rewrite Ef, Es.
    + exfalso. enough (Hx : existsb (fun message => match find_last current (m_id message) with
        | Some currentMessage => negb (same_row currentMessage message) | None => true end) fetched = true)
        by congruence.
      apply existsb_exists. exists m. by rewrite Ef.
Qed.

Lemma elem_older (current fetched : list Message) m :
  m ∈ filter (fun m => has_id fetched m.(m_id) = false) current <->
  m ∈ current /\ m.(m_id) ∉ (m_id <$> fetched).
Proof. rewrite list_elem_of_filter, has_id_false. tauto. Qed.

Lemma reconcile_Some current fetched merged :
  reconcileConversationMessages current fetched = Some merged ->
  merged = fetched ++ filter (fun m => has_id fetched m.(m_id) = false) current.
Proof.
  unfold reconcileConversationMessages. cbv zeta. split_if; [done|]. by intros [= <-].
Qed.

Lemma NoDup_ids_merged (current fetched : list Message) :
  NoDup (m_id <$> current) -> NoDup (m_id <$> fetched) ->
  NoDup (m_id <$> (fetched ++ filter (fun m => has_id fetched m.(m_id) = false) current)).
Proof.
  intros Hc Hf. rewrite fmap_app. apply NoDup_app. split; [done|]. split.
  - intros i Hi (m & -> & [_ Hn]%elem_older)%list_elem_of_fmap. done.
  - by apply NoDup_fmap_filter.
Qed.

(** ** Reachable caches *)

(** The calls the hook makes, in any order. *)
Inductive cache_step : cache -> cache -> Prop :=
| step_get c id : cache_step c (cache_get c id).2
| step_set c id entry : cache_step c (cache_set c id entry)
| step_add c id msg : cache_step c (cache_addMessage c id msg).2
| step_ack c id a : cache_step c (cache_updateAck c id a)
| step_remove c id : cache_step c (cache_remove c id)
| step_rename c oldId newId : cache_step c (cache_rename c oldId newId)
| step_remove_message c id : cache_step c (cache_removeMessage c id)
| step_clear c : cache_step c (cache_clear c).

Lemma cache_step_ok c c' : cache_step c c' -> cache_ok c -> cache_ok c'.
Proof.
  intros [] Hc; auto using cache_get_ok, cache_set_ok, cache_addMessage_ok, cache_updateAck_ok,
    cache_remove_ok, cache_rename_ok, cache_removeMessage_ok.
  constructor; [constructor|done|constructor].
Qed.

Lemma empty_cache_ok : cache_ok [].
Proof. constructor; [constructor|done|constructor]. Qed.

(** ** Properties *)

(** Whatever calls were made, the cache holds each conversation once, at most 20
    of them, at most 200 messages in each, and the content-key index of every entry
    is the set of its messages' keys. *)
Theorem cache_reachable_invariant (c : cache) (Hreach : rtc cache_step [] c) :
  NoDup (om_keys c)
  /\ len c <= MAX_CACHED_CONVERSATIONS
  /\ Forall (fun p => len p.2.(ie_messages) <= MAX_MESSAGES_PER_ENTRY
                      /\ p.2.(ie_contentKeys) = content_keys p.2.(ie_messages)) c.
Proof.
  assert (cache_ok c) as [Hwf Hl Hf].
  { revert Hreach. apply (rtc_ind_r (R := cache_step) cache_ok); [apply empty_cache_ok|].
    eauto using cache_step_ok. }
  split; [done|]. split; [done|]. eapply Forall_impl; [exact Hf|]. by intros p [].
Qed.

Definition example_message (id ts : Z) (text : jstr) : Message :=
  {| m_id := id; m_type := CHAN; m_conversation_key := js "8B3387E9"; m_text := text;
     m_sender_timestamp := Some ts; m_received_at := ts + 1; m_paths := None; m_txt_type := 0;
     m_signature := None; m_sender_key := None; m_outgoing := false; m_acked := 0;
     m_sender_name := None; m_channel_name := None; m_packet_id := None; m_transport_code := None;
     m_region := None; m_packet_hash := None; m_observer_reach_eligible := None |}.

Definition example_cache : cache :=
  (cache_addMessage [] (js "8B3387E9") (example_message 1 100 (js "hi"))).2.

Lemma cache_reachable_invariant_witness :
  len example_cache = 1 /\ len example_cache <= MAX_CACHED_CONVERSATIONS.
Proof.
  split; [reflexivity|].
  apply (cache_reachable_invariant example_cache).
  apply rtc_once. apply (step_add [] (js "8B3387E9") (example_message 1 100 (js "hi"))).
Defined.

(** C15: the cache refines a bounded list in recency order. [get] answers the
    specification's lookup and makes the entry the most recent; [set] makes the
    (trimmed) entry the most recent and drops the least recent one over capacity;
    [peek] reads without reordering; [remove] takes the entry out. *)
Theorem cache_refines_lru (c : cache) (id : jstr) (entry : CachedEntry) (Hok : cache_ok c) :
  (cache_get c id).1 = LruSpec.lookup (abs c) id
  /\ abs (cache_get c id).2 =
     match LruSpec.lookup (abs c) id with
     | Some e => LruSpec.touch (abs c) id e
     | None => abs c
     end
  /\ cache_peek c id = LruSpec.lookup (abs c) id
  /\ abs (cache_set c id entry) =
     LruSpec.bound (LruSpec.touch (abs c) id (external (normalizeEntry entry)))
  /\ abs (cache_remove c id) = LruSpec.without (abs c) id.
Proof.
  rewrite abs_lookup. unfold cache_get, cache_peek, cache_set, cache_remove.
  repeat split.
  - by destruct (om_get c id).
  - destruct (om_get c id) as [e|]; [apply abs_move_last|done].
  - rewrite abs_evict by (destruct Hok; auto with meshloom). by rewrite abs_move_last.
  - apply abs_delete.
Qed.

Lemma cache_refines_lru_witness :
  cache_ok example_cache /\ (cache_get example_cache (js "8B3387E9")).1 <> None.
Proof.
  assert (Hok : cache_ok example_cache) by apply (cache_addMessage_ok _ _ _ empty_cache_ok).
  split; [exact Hok|].
  rewrite (proj1 (cache_refines_lru example_cache (js "8B3387E9")
    {| ce_messages := []; ce_hasOlderMessages := false |} Hok)).
  vm_compute. discriminate.
Defined.

(** Trimming an entry over 200 messages keeps exactly 200 of its messages, none of
    them older than a dropped one, and records that older messages exist; an entry
    within the bound is stored as it is. *)
Theorem normalizeEntry_keeps_newest (e : CachedEntry) :
  (len e.(ce_messages) <= MAX_MESSAGES_PER_ENTRY -> external (normalizeEntry e) = e)
  /\ (MAX_MESSAGES_PER_ENTRY < len e.(ce_messages) ->
      exists dropped,
        (normalizeEntry e).(ie_messages) ++ dropped ≡ₚ e.(ce_messages)
        /\ len (normalizeEntry e).(ie_messages) = MAX_MESSAGES_PER_ENTRY
        /\ (normalizeEntry e).(ie_hasOlderMessages) = true
        /\ forall kept d, kept ∈ (normalizeEntry e).(ie_messages) -> d ∈ dropped ->
           d.(m_received_at) <= kept.(m_received_at)).
Proof. split; [apply normalizeEntry_small|apply normalizeEntry_trim]. Qed.

Lemma normalizeEntry_keeps_newest_witness :
  let e := {| ce_messages := (fun n => example_message (Z.of_nat n) (Z.of_nat n) []) <$> seq 0 201;
              ce_hasOlderMessages := false |} in
  MAX_MESSAGES_PER_ENTRY < len e.(ce_messages)
  /\ len (normalizeEntry e).(ie_messages) = MAX_MESSAGES_PER_ENTRY.
Proof.
  intros e. split; [reflexivity|].
  destruct (proj2 (normalizeEntry_keeps_newest e) eq_refl) as (? & _ & Hl & _). exact Hl.
Defined.

(** [addMessage] refuses a message exactly when its conversation is cached and
    already holds a message with the same content key or the same id, and then
    changes nothing; otherwise the conversation becomes the most recent one and ends
    with the message, unless its entry had to be trimmed. *)
Theorem cache_addMessage_dedup (c : cache) (id : jstr) (msg : Message) (Hok : cache_ok c) :
  ((cache_addMessage c id msg).1 = false <->
   exists e, om_get c id = Some e /\ duplicate_in e.(ie_messages) msg)
  /\ ((cache_addMessage c id msg).1 = false -> (cache_addMessage c id msg).2 = c)
  /\ ((cache_addMessage c id msg).1 = true ->
      forall e, om_get c id = Some e -> len e.(ie_messages) < MAX_MESSAGES_PER_ENTRY ->
      cache_peek (cache_addMessage c id msg).2 id =
        Some {| ce_messages := e.(ie_messages) ++ [msg];
                ce_hasOlderMessages := e.(ie_hasOlderMessages) |}
      /\ om_keys (cache_addMessage c id msg).2 = filter (fun k => k <> id) (om_keys c) ++ [id]).
Proof.
  split; [by apply cache_addMessage_rejects|]. unfold cache_addMessage.
  destruct (om_get c id) as [e|] eqn:E; [|done].
  case_bool_decide; [done|]. destruct (has_id _ _); [done|]. simpl. split; [done|].
  intros _ ? [= <-] Hl. split; [|apply om_keys_move_last].
  unfold cache_peek. rewrite om_get_move_last, decide_True by done. simpl.
  rewrite normalizeEntry_small; [done|]. cbn [ce_messages]. rewrite len_app. change (len [msg]) with 1. lia.
Qed.

Lemma cache_addMessage_dedup_witness :
  (cache_addMessage example_cache (js "8B3387E9") (example_message 2 100 (js "hi"))).1 = false
  /\ (cache_addMessage example_cache (js "8B3387E9") (example_message 2 100 (js "hi"))).2
     = example_cache.
Proof.
  split; [reflexivity|].
  apply (cache_addMessage_dedup example_cache (js "8B3387E9") (example_message 2 100 (js "hi"))).
  - apply (cache_addMessage_ok _ _ _ empty_cache_ok).
  - reflexivity.
Defined.

(** Reconciling a fetched page returns [None] exactly when every fetched row is
    shown with the same ACK count, path count, text and packet id; otherwise the
    result is the page followed by the shown messages it does not contain, so no
    message is lost or doubled, and reconciling again changes nothing. *)
Theorem reconcile_spec (current fetched : list Message)
    (Hcur : NoDup (m_id <$> current)) (Hfet : NoDup (m_id <$> fetched)) :
  (reconcileConversationMessages current fetched = None <->
   Forall (fun m => exists m', m' ∈ current /\ m'.(m_id) = m.(m_id) /\ same_row m' m = true) fetched)
  /\ forall merged, reconcileConversationMessages current fetched = Some merged ->
     NoDup (m_id <$> merged)
     /\ (forall m, m ∈ merged <-> m ∈ fetched \/ (m ∈ current /\ m.(m_id) ∉ (m_id <$> fetched)))
     /\ fetched `prefix_of` merged
     /\ reconcileConversationMessages merged fetched = None.
Proof.
  split.
  - rewrite reconcile_None_iff, !Forall_forall. split; intros Hall m Hm.
    + destruct (Hall m Hm) as (m' & [? ?]%find_last_Some & ?). eauto.
    + destruct (Hall m Hm) as (m' & Hm' & Hid & Hs). exists m'.
      rewrite <- Hid. by rewrite find_last_NoDup.
  - intros merged ->%reconcile_Some. split; [by apply NoDup_ids_merged|].
    split; [intros m; rewrite elem_of_app, elem_older; tauto|].
    split; [by apply prefix_app_r|]. apply reconcile_None_iff, Forall_forall. intros m Hm.
    exists m. split; [|apply same_row_refl].
    rewrite find_last_skip; [by apply find_last_NoDup|].
    intros (m' & Hid & [_ Hn]%elem_older)%list_elem_of_fmap. destruct Hn. rewrite <- Hid.
    by apply list_elem_of_fmap_2.
Qed.

Lemma reconcile_spec_witness :
  let cur := [example_message 1 100 (js "hi")] in
  let fet := [example_message 2 200 (js "yo")] in
  reconcileConversationMessages cur fet = Some (fet ++ cur)
  /\ reconcileConversationMessages (fet ++ cur) fet = None.
Proof.
  intros cur fet. split; [reflexivity|].
  apply (proj2 (reconcile_spec cur fet (NoDup_singleton _) (NoDup_singleton _)) (fet ++ cur)).
  reflexivity.
Defined.
