(* ===== verification/AckProps.v ===== *)
(** Message identity and acknowledgements: what the content key identifies, and how
    the ACKs that come before or after their message are merged. *)
From S2P Require Import Prelude JsString JsCollections JsNum Types MessageCache MessageCacheProps.

(** ** Content keys *)

(** The part of a string before its first dash is determined by the string. *)
Lemma split_first_dash (k k' r r' : jstr) :
  45 ∉ k -> 45 ∉ k' -> k ++ 45 :: r = k' ++ 45 :: r' -> k = k' /\ r = r'.
Proof.
  revert k'. induction k as [|x k IH]; intros [|x' k'] Hk Hk' E; simplify_eq/=; try done.
  - by destruct Hk'; left.
  - by destruct Hk; left.
  - apply not_elem_of_cons in Hk as [? ?], Hk' as [? ?]. by edestruct IH as [-> ->].
Qed.

(** The part after its last dash too. *)
Lemma split_last_dash (t t' d d' : jstr) :
  45 ∉ d -> 45 ∉ d' -> t ++ 45 :: d = t' ++ 45 :: d' -> t = t' /\ d = d'.
Proof.
  intros Hd Hd' E. apply (f_equal reverse) in E.
  rewrite !reverse_app, !reverse_cons, <- !app_assoc in E. simpl in E.
  apply split_first_dash in E as [E1 E2]; [|by rewrite elem_of_reverse..].
  apply (inj reverse) in E1, E2. done.
Qed.

Lemma int_str_no_dash n : 0 <= n -> 45 ∉ int_str n.
Proof.
  intros Hn Hin. pose proof (int_str_digits n Hn) as Hf.
  eapply Forall_forall in Hf; [|exact Hin]. done.
Qed.

Lemma type_str_inj t t' r r' : type_str t ++ r = type_str t' ++ r' -> t = t' /\ r = r'.
Proof. destruct t, t'; cbn; intros; by simplify_eq. Qed.

(** A message whose key ends with its timestamp: it has one, and no sender suffix. *)
Definition plain_key (m : Message) (ts : Z) : Prop :=
  m.(m_sender_timestamp) = Some ts /\ 0 <= ts /\ 45 ∉ m.(m_conversation_key)
  /\ (m.(m_type) = CHAN \/ m.(m_sender_key) = None).

Lemma plain_key_eq m ts :
  plain_key m ts ->
  getMessageContentKey m =
    type_str m.(m_type) ++ 45 :: m.(m_conversation_key) ++ 45 :: m.(m_text) ++ 45 :: int_str ts.
Proof.
  intros (Hts & _ & _ & Hs). unfold getMessageContentKey. rewrite Hts. cbn zeta.
  assert ((match m.(m_type), m.(m_sender_key) with
           | PRIV, Some ((_ :: _) as k) => js "-" ++ k | _, _ => [] end) = []) as ->
    by (destruct Hs as [-> | ->]; [done|by destruct (m_type m)]).
  by rewrite app_nil_r.
Qed.

Lemma plain_key_inj a b ta tb :
  plain_key a ta -> plain_key b tb ->
  getMessageContentKey a = getMessageContentKey b ->
  a.(m_type) = b.(m_type) /\ a.(m_conversation_key) = b.(m_conversation_key)
  /\ a.(m_text) = b.(m_text) /\ ta = tb.
Proof.
  intros Ha Hb. rewrite (plain_key_eq a ta Ha), (plain_key_eq b tb Hb).
  destruct Ha as (_ & Hta & Hka & _), Hb as (_ & Htb & Hkb & _).
  intros [Ht E]%type_str_inj. simplify_eq/=.
  apply split_first_dash in E as [Hk E]; [|done..].
  apply split_last_dash in E as [Hx E]; [|by apply int_str_no_dash..].
  apply int_str_inj in E; done.
Qed.

(** ** Acknowledgements *)

Lemma mergePendingAck_count e a :
  (mergePendingAck (Some e) a).(pa_ackCount) = Z.max e.(pa_ackCount) a.(ak_ackCount).
Proof.
  unfold mergePendingAck. destruct (Z.ltb_spec e.(pa_ackCount) a.(ak_ackCount)); [simpl; lia|].
  destruct (Z.ltb_spec a.(ak_ackCount) e.(pa_ackCount)); [lia|].
  destruct (ak_paths a); cbn zeta; repeat (case_match; simpl); lia.
Qed.

Lemma mergePendingAck_paths e a :
  a.(ak_ackCount) = e.(pa_ackCount) ->
  paths_len e.(pa_paths) <= paths_len (mergePendingAck (Some e) a).(pa_paths).
Proof.
  intros E. unfold mergePendingAck. rewrite E, Z.ltb_irrefl. cbn zeta.
  destruct (ak_paths a) as [ps|]; [|by case_match].
  destruct (Z.leb_spec (default (-1) (len <$> pa_paths e)) (len ps)) as [Hle|].
  - unfold paths_len in *. simpl. destruct (pa_paths e); simpl in *; auto with meshloom.
  - by case_match.
Qed.

(** ** The pending buffer *)

Record pending_ok (p : pending) : Prop := {
  po_wf : om_wf p;
  po_bound : len p <= MAX_PENDING_ACKS;
}.

Section pending_lemmas.
Context {V : Type}.
Implicit Types p : list (Z * V).

Lemma om_delete_first_tail p k : om_wf p -> om_first_key p = Some k -> om_delete p k = tail p.
Proof.
  unfold om_wf, om_first_key, om_keys. destruct p as [|[k1 e] p]; [done|]. simpl.
  intros [Hni _]%NoDup_cons [= ->]. unfold om_delete. rewrite filter_cons. simpl.
  rewrite decide_False by tauto. by apply (om_delete_absent p k).
Qed.

Lemma om_wf_tail p : om_wf p -> om_wf (tail p).
Proof. unfold om_wf, om_keys. destruct p; simpl; [done|]. by intros [_ ?]%NoDup_cons. Qed.
End pending_lemmas.

(** The bounded insertion, as a function of the list. *)
Lemma setPendingAck_eq p id a :
  om_wf p ->
  setPendingAck p id a =
    let p' := om_delete p id ++ [(id, mergePendingAck (om_get p id) a)] in
    if MAX_PENDING_ACKS <? len p' then tail p' else p'.
Proof.
  intros Hwf. unfold setPendingAck. cbn zeta.
  rewrite om_set_absent by apply om_delete_notin.
  set (p' := om_delete p id ++ _).
  assert (Hwf' : om_wf p').
  { unfold p'. rewrite <- om_set_absent by apply om_delete_notin. auto with meshloom. }
  destruct (_ <? _); [|done]. destruct (om_first_key p') as [k|] eqn:E.
  - by rewrite (om_delete_first_tail _ _ Hwf' E).
  - unfold om_first_key, om_keys in E. by destruct p'.
Qed.

Lemma setPendingAck_ok p id a : pending_ok p -> pending_ok (setPendingAck p id a).
Proof.
  intros [Hwf Hl]. rewrite setPendingAck_eq by done. cbn zeta.
  set (p' := om_delete p id ++ _).
  assert (Hwf' : om_wf p').
  { unfold p'. rewrite <- om_set_absent by apply om_delete_notin. auto with meshloom. }
  assert (len p' <= MAX_PENDING_ACKS + 1).
  { unfold p'. rewrite len_app. pose proof (om_delete_length_le p id). unfold len in *. simpl. lia. }
  destruct (Z.ltb_spec MAX_PENDING_ACKS (len p')); constructor; auto using om_wf_tail.
  destruct p'; [done|]. rewrite len_cons in *. simpl. lia.
Qed.

Lemma applyPendingAck_ok p msg : pending_ok p -> pending_ok (applyPendingAck p msg).2.
Proof.
  intros [Hwf Hl]. unfold applyPendingAck. destruct (om_get _ _); [|done].
  constructor; [by apply om_wf_delete|]. pose proof (om_delete_length_le p msg.(m_id)).
  unfold len in *. simpl. lia.
Qed.

Lemma setPendingAck_get p id a :
  pending_ok p -> om_get (setPendingAck p id a) id = Some (mergePendingAck (om_get p id) a).
Proof.
  intros [Hwf Hl]. rewrite setPendingAck_eq by done. cbn zeta.
  set (v := mergePendingAck _ _).
  pose proof (om_delete_notin p id) as Hn.
  destruct (om_delete p id) as [|[k1 v1] d] eqn:Ed; simpl.
  - by rewrite decide_True.
  - unfold om_keys in Hn. simpl in Hn. apply not_elem_of_cons in Hn as [Hne Hn].
    assert (Hd : om_get d id = None) by by apply om_get_None.
    destruct (_ <? _); simpl; [|rewrite decide_False by congruence];
      rewrite om_get_app, Hd; simpl; by rewrite decide_True.
Qed.

(** Buffering an ACK and applying it to its message when that comes gives what
    updating the loaded message gives. *)
Lemma ack_buffered_is_ack m a :
  (forall paths, a.(ak_paths) = Some paths -> paths_len m.(m_paths) <= len paths) ->
  apply_pending m (mergePendingAck None a) = ack_message m a.
Proof.
  intros Hp. unfold apply_pending, ack_message. simpl. f_equal.
  destruct (ak_paths a) as [ps|]; [|done].
  by rewrite (proj2 (Z.leb_le _ _) (Hp ps eq_refl)).
Qed.

(** ** Properties *)

(** On messages that carry a timestamp and no sender suffix, in conversations whose
    key has no dash, the content key identifies exactly the type, the conversation,
    the text and the timestamp. *)
Theorem content_key_identifies (a b : Message) (ta tb : Z)
    (Ha : plain_key a ta) (Hb : plain_key b tb) :
  getMessageContentKey a = getMessageContentKey b <->
  a.(m_type) = b.(m_type) /\ a.(m_conversation_key) = b.(m_conversation_key)
  /\ a.(m_text) = b.(m_text) /\ ta = tb.
Proof.
  split; [by apply plain_key_inj|]. intros (Ht & Hk & Hx & <-).
  by rewrite (plain_key_eq a ta Ha), (plain_key_eq b ta Hb), Ht, Hk, Hx.
Qed.

Lemma content_key_identifies_witness :
  getMessageContentKey (example_message 1 100 (js "hi")) <>
  getMessageContentKey (example_message 2 101 (js "hi")).
Proof.
  intros E. apply (content_key_identifies _ _ 100 101) in E as (_ & _ & _ & Hts); [discriminate| |];
    (split; [reflexivity|]; split; [lia|]; split; [|left; reflexivity]);
    apply (bool_decide_unpack (45 ∉ js "8B3387E9")); vm_compute; exact I.
Defined.

(** Merging a pending ACK keeps the larger count, ignores a stale ACK entirely,
    lets a newer one replace only the fields it carries, and at an equal count never
    shortens the stored paths. *)
Theorem mergePendingAck_monotone (e : PendingAckUpdate) (a : Ack) :
  (mergePendingAck (Some e) a).(pa_ackCount) = Z.max e.(pa_ackCount) a.(ak_ackCount)
  /\ (a.(ak_ackCount) < e.(pa_ackCount) -> mergePendingAck (Some e) a = e)
  /\ (e.(pa_ackCount) < a.(ak_ackCount) ->
      mergePendingAck (Some e) a =
        {| pa_ackCount := a.(ak_ackCount);
           pa_paths := spread a.(ak_paths) e.(pa_paths);
           pa_packetId := spread a.(ak_packetId) e.(pa_packetId);
           pa_packetHash := spread a.(ak_extras).(ax_packet_hash) e.(pa_packetHash);
           pa_observerReachEligible :=
             spread a.(ak_extras).(ax_observer_reach_eligible) e.(pa_observerReachEligible) |})
  /\ (a.(ak_ackCount) = e.(pa_ackCount) ->
      paths_len e.(pa_paths) <= paths_len (mergePendingAck (Some e) a).(pa_paths)).
Proof.
  split; [apply mergePendingAck_count|]. split; [|split; [|apply mergePendingAck_paths]];
    intros Hlt; unfold mergePendingAck.
  - replace (pa_ackCount e <? ak_ackCount a) with false by (symmetry; lia).
    by rewrite (proj2 (Z.ltb_lt _ _) Hlt).
  - by rewrite (proj2 (Z.ltb_lt _ _) Hlt).
Qed.

Definition example_ack (n : Z) (paths : option (list MessagePath)) (packetId : option (option Z)) : Ack :=
  {| ak_ackCount := n; ak_paths := paths; ak_packetId := packetId;
     ak_extras := {| ax_packet_hash := None; ax_observer_reach_eligible := None |} |}.
Definition example_path : MessagePath :=
  {| mp_path := js "a1b2"; mp_received_at := 5; mp_path_len := Some 1; mp_rssi := None; mp_snr := None |}.

Lemma mergePendingAck_monotone_witness :
  let e := mergePendingAck None (example_ack 3 None (Some (Some 9))) in
  mergePendingAck (Some e) (example_ack 2 None None) = e.
Proof.
  intros e. apply (proj1 (proj2 (mergePendingAck_monotone e (example_ack 2 None None)))).
  reflexivity.
Defined.

(** An ACK of the same count that brings paths but no packet id erases the packet
    id stored by an earlier ACK, which an ACK of a larger count would have kept. *)
Theorem mergePendingAck_drops_packet_id (e : PendingAckUpdate) (a : Ack)
    (paths : list MessagePath) (id : option Z)
    (Hcount : a.(ak_ackCount) = e.(pa_ackCount)) (Hpaths : a.(ak_paths) = Some paths)
    (Hmore : paths_len e.(pa_paths) <= len paths)
    (Hid : e.(pa_packetId) = Some id) (Hnone : a.(ak_packetId) = None) :
  (mergePendingAck (Some e) a).(pa_packetId) = None.
Proof.
  unfold mergePendingAck. rewrite Hcount, Z.ltb_irrefl, Hpaths, Hnone. cbn zeta.
  pose proof (len_nonneg paths).
  replace (default (-1) (len <$> pa_paths e) <=? len paths) with true; [done|].
  symmetry. apply Z.leb_le. unfold paths_len in Hmore. destruct (pa_paths e); simpl in *; lia.
Qed.

Lemma mergePendingAck_drops_packet_id_witness :
  let e := mergePendingAck None (example_ack 1 None (Some (Some 9))) in
  e.(pa_packetId) = Some (Some 9)
  /\ (mergePendingAck (Some e) (example_ack 1 (Some [example_path]) None)).(pa_packetId) = None.
Proof.
  intros e. split; [reflexivity|].
  apply (mergePendingAck_drops_packet_id e (example_ack 1 (Some [example_path]) None)
           [example_path] (Some 9)); reflexivity || (vm_compute; discriminate).
Defined.

(** The pending buffer holds each message id once and at most 500 of them; the ACK
    just set is the last entry and reads back merged; applying it to its message
    empties its entry, and gives what updating the loaded message would have given
    whenever the ACK's paths are not fewer than the message's. *)
Theorem pending_ack_roundtrip (p : pending) (m : Message) (a : Ack) (Hok : pending_ok p)
    (Hfresh : om_get p m.(m_id) = None)
    (Hpaths : forall paths, a.(ak_paths) = Some paths -> paths_len m.(m_paths) <= len paths) :
  pending_ok (setPendingAck p m.(m_id) a)
  /\ (applyPendingAck (setPendingAck p m.(m_id) a) m).1 = ack_message m a
  /\ om_get (applyPendingAck (setPendingAck p m.(m_id) a) m).2 m.(m_id) = None
  /\ pending_ok (applyPendingAck (setPendingAck p m.(m_id) a) m).2.
Proof.
  assert (Hs : pending_ok (setPendingAck p m.(m_id) a)) by by apply setPendingAck_ok.
  split; [done|]. split; [|split; [|by apply applyPendingAck_ok]].
  - unfold applyPendingAck. rewrite setPendingAck_get, Hfresh by done. simpl.
    by apply ack_buffered_is_ack.
  - unfold applyPendingAck. rewrite setPendingAck_get by done. simpl. apply om_get_delete_eq.
Qed.

Lemma pending_ack_roundtrip_witness :
  (applyPendingAck (setPendingAck [] 1 (example_ack 2 (Some [example_path]) None))
     (example_message 1 100 (js "hi"))).1
  = ack_message (example_message 1 100 (js "hi")) (example_ack 2 (Some [example_path]) None).
Proof.
  apply (pending_ack_roundtrip [] (example_message 1 100 (js "hi"))
           (example_ack 2 (Some [example_path]) None)).
  - constructor; [constructor|vm_compute; discriminate].
  - reflexivity.
  - intros paths [= <-]. vm_compute. discriminate.
Defined.

(** The order matters when the ACK carries fewer paths than the message: applied to
    a loaded message it leaves the message's paths, buffered before the message it
    replaces them with the shorter list. *)
Theorem pending_ack_order_matters (m : Message) (a : Ack) (paths : list MessagePath)
    (Hpaths : a.(ak_paths) = Some paths) (Hfewer : len paths < paths_len m.(m_paths)) :
  (ack_message m a).(m_paths) = m.(m_paths)
  /\ (apply_pending m (mergePendingAck None a)).(m_paths) = Some paths
  /\ paths_len (apply_pending m (mergePendingAck None a)).(m_paths) < paths_len m.(m_paths).
Proof.
  unfold ack_message, apply_pending. cbn. rewrite Hpaths.
  by rewrite (proj2 (Z.leb_gt _ _) Hfewer).
Qed.

Lemma pending_ack_order_matters_witness :
  let m := message_with (example_message 1 100 (js "hi")) 0 (Some [example_path; example_path])
             None None None in
  paths_len (apply_pending m (mergePendingAck None (example_ack 1 (Some [example_path]) None))).(m_paths)
  < paths_len m.(m_paths).
Proof.
  intros m.
  apply (pending_ack_order_matters m (example_ack 1 (Some [example_path]) None) [example_path]);
    reflexivity.
Defined.
