(* ===== verification/ConversationHook.v ===== *)
(** The conversation hook of [hooks/useConversationMessages.ts]: the state
    [useConversationMessages] keeps, its callbacks, its effect on a conversation switch
    and the replies of the server, as functions on one state record.

    A React state variable and the ref that mirrors it are two fields: a callback's
    [setMessages] changes the first, and [commit] (the effects that run after a render)
    copies it to the second. An updater function given to [setMessages] runs at the call when
    React has nothing queued for the component, and in the next render otherwise: which of the
    two is a field of the state that an event may change at any time. Every event runs to its
    end, and React renders and runs the effects before the next one; [activeConversationRef]
    is then the [activeConversation] prop. A reply is an event of its own: a request is put
    in flight by the callback that makes it, and is answered, refused or aborted later. *)
From S2P Require Import Prelude JsString JsCollections JsNum Types MessageCache.

Definition MESSAGE_PAGE_SIZE : Z := 200.

(** The code after an [await] or in a [then], with what its closure captured. *)
Inductive Continuation :=
| KLatest (showLoading : bool)
| KReconcile (requestId : Z)
| KOlder
| KNewer
| KAround.

(** A request in flight: the conversation the closure captured, the cursor of a page, and
    the [AbortController] whose signal it was given. *)
Record Request := {
  rq_then : Continuation;
  rq_conversation : Conversation;
  rq_type : MessageType;
  rq_cursor : option (Z * Z);
  rq_signal : option nat;
}.

(** What the server answers. [has_older] and [has_newer] come with [getMessagesAround]. *)
Record Response := {
  rs_messages : list Message;
  rs_has_older : bool;
  rs_has_newer : bool;
}.

Record Hook := {
  hk_activeConversation : option Conversation;
  hk_targetMessageId : option Z;
  hk_messages : list Message;
  hk_messagesLoading : bool;
  hk_loadingOlder : bool;
  hk_hasOlderMessages : bool;
  hk_hasNewerMessages : bool;
  hk_loadingNewer : bool;
  hk_reloadVersion : Z;
  hk_messagesRef : list Message;
  hk_loadingOlderRef : bool;
  hk_loadingNewerRef : bool;
  hk_hasOlderMessagesRef : bool;
  hk_hasNewerMessagesRef : bool;
  hk_seenMessageContent : gset jstr;
  hk_pendingAcks : pending;
  hk_abortController : option nat;
  hk_olderAbortController : option nat;
  hk_newerAbortController : option nat;
  hk_fetchingConversationId : option jstr;
  hk_prevConversationId : option jstr;
  hk_prevReloadVersion : Z;
  hk_latestReconcileRequestId : Z;
  hk_pendingReconnectReconcile : bool;
  hk_cache : cache;
  hk_inFlight : list Request;
  hk_aborted : gset nat;
  hk_controllers : nat;
  (** React has work queued for the component: an updater waits for the next render. *)
  hk_updatesQueued : bool;
}.

#[export] Instance Hook_eta : Eta Hook := fun h =>
  Build_Hook h.(hk_activeConversation) h.(hk_targetMessageId) h.(hk_messages)
    h.(hk_messagesLoading) h.(hk_loadingOlder) h.(hk_hasOlderMessages)
    h.(hk_hasNewerMessages) h.(hk_loadingNewer) h.(hk_reloadVersion) h.(hk_messagesRef)
    h.(hk_loadingOlderRef) h.(hk_loadingNewerRef) h.(hk_hasOlderMessagesRef)
    h.(hk_hasNewerMessagesRef) h.(hk_seenMessageContent) h.(hk_pendingAcks)
    h.(hk_abortController) h.(hk_olderAbortController) h.(hk_newerAbortController)
    h.(hk_fetchingConversationId) h.(hk_prevConversationId) h.(hk_prevReloadVersion)
    h.(hk_latestReconcileRequestId) h.(hk_pendingReconnectReconcile) h.(hk_cache)
    h.(hk_inFlight) h.(hk_aborted) h.(hk_controllers) h.(hk_updatesQueued).

#[export] Instance Conversation_eq_dec : EqDecision Conversation.
Proof. solve_decision. Defined.
#[export] Instance Continuation_eq_dec : EqDecision Continuation.
Proof. solve_decision. Defined.
#[export] Instance Request_eq_dec : EqDecision Request.
Proof. solve_decision. Defined.

(** The first render: [useState] and [useRef] initial values. The cache outlives the hook. *)
Definition initial_hook (c : cache) : Hook :=
  {| hk_activeConversation := None; hk_targetMessageId := None; hk_messages := [];
     hk_messagesLoading := false; hk_loadingOlder := false; hk_hasOlderMessages := false;
     hk_hasNewerMessages := false; hk_loadingNewer := false; hk_reloadVersion := 0;
     hk_messagesRef := []; hk_loadingOlderRef := false; hk_loadingNewerRef := false;
     hk_hasOlderMessagesRef := false; hk_hasNewerMessagesRef := false;
     hk_seenMessageContent := ∅; hk_pendingAcks := []; hk_abortController := None;
     hk_olderAbortController := None; hk_newerAbortController := None;
     hk_fetchingConversationId := None; hk_prevConversationId := None;
     hk_prevReloadVersion := 0; hk_latestReconcileRequestId := 0;
     hk_pendingReconnectReconcile := false; hk_cache := c; hk_inFlight := [];
     hk_aborted := ∅; hk_controllers := 0%nat; hk_updatesQueued := false |}.

(** ** Shared steps *)

(** The effects that mirror the state variables into their refs. *)
Definition commit (h : Hook) : Hook :=
  h <| hk_messagesRef := h.(hk_messages) |>
    <| hk_loadingOlderRef := h.(hk_loadingOlder) |>
    <| hk_loadingNewerRef := h.(hk_loadingNewer) |>
    <| hk_hasOlderMessagesRef := h.(hk_hasOlderMessages) |>
    <| hk_hasNewerMessagesRef := h.(hk_hasNewerMessages) |>.

Definition syncSeenContent (h : Hook) (nextMessages : list Message) : Hook :=
  h <| hk_seenMessageContent := content_keys nextMessages |>.

(** [data.map((msg) => applyPendingAck(msg))]: each call may consume a buffered ACK. *)
Fixpoint apply_acks (p : pending) (data : list Message) : list Message * pending :=
  match data with
  | [] => ([], p)
  | msg :: rest =>
    let '(msg', p) := applyPendingAck p msg in
    let '(rest', p) := apply_acks p rest in
    (msg' :: rest', p)
  end.

Definition wire_type (c : Conversation) : MessageType :=
  match c.(cv_type) with CtChannel => CHAN | _ => PRIV end.

(** [new AbortController()] *)
Definition new_controller (h : Hook) : nat * Hook :=
  (h.(hk_controllers), h <| hk_controllers := S h.(hk_controllers) |>).

Definition abort (h : Hook) (controller : option nat) : Hook :=
  match controller with
  | Some k => h <| hk_aborted := {[k]} ∪ h.(hk_aborted) |>
  | None => h
  end.

Definition send (h : Hook) (rq : Request) : Hook :=
  h <| hk_inFlight := h.(hk_inFlight) ++ [rq] |>.

(** ** Fetching the latest page *)

(** The callback up to its [await]. *)
Definition fetchLatestMessages (h : Hook) (showLoading : bool) (signal : option nat) : Hook :=
  match h.(hk_activeConversation) with
  | Some conversation =>
    if isMessageConversation (Some conversation) then
      let h := h <| hk_pendingReconnectReconcile := false |> in
      let h := if showLoading
               then h <| hk_messagesLoading := true |> <| hk_messages := [] |> else h in
      send h {| rq_then := KLatest showLoading; rq_conversation := conversation;
                rq_type := wire_type conversation; rq_cursor := None; rq_signal := signal |}
    else h <| hk_messages := [] |> <| hk_hasOlderMessages := false |>
  | None => h <| hk_messages := [] |> <| hk_hasOlderMessages := false |>
  end.

Definition full_page (data : list Message) : bool := MESSAGE_PAGE_SIZE <=? len data.

(** The rest of it; the [finally] clears the loading flag in every case. *)
Definition fetchLatestMessages_then (h : Hook) (conversation : Conversation) (showLoading : bool)
    (reply : option Response) : Hook :=
  let h :=
    match reply with
    | None => h
    | Some r =>
      if negb (h.(hk_fetchingConversationId) ≟ Some conversation.(cv_id)) then h else
      let '(withAcks, p) := apply_acks h.(hk_pendingAcks) r.(rs_messages) in
      let h := h <| hk_pendingAcks := p |> in
      let merged := reconcileConversationMessages h.(hk_messagesRef) withAcks in
      let nextMessages := default h.(hk_messagesRef) merged in
      let h := match merged with Some m => h <| hk_messages := m |> | None => h end in
      let h := syncSeenContent h nextMessages in
      h <| hk_hasOlderMessages := full_page withAcks |>
    end in
  if showLoading then h <| hk_messagesLoading := false |> else h.

(** ** Reconciling in the background *)

Definition reconcileFromBackend (h : Hook) (conversation : Conversation) (signal : nat)
    (requestId : Z) : Hook :=
  send h {| rq_then := KReconcile requestId; rq_conversation := conversation;
            rq_type := wire_type conversation; rq_cursor := None; rq_signal := Some signal |}.

Definition reconcileFromBackend_then (h : Hook) (conversation : Conversation) (requestId : Z)
    (reply : option Response) : Hook :=
  match reply with
  | None => h
  | Some r =>
    if negb (h.(hk_fetchingConversationId) ≟ Some conversation.(cv_id)) then h
    else if negb (h.(hk_latestReconcileRequestId) =? requestId) then h
    else
      let '(dataWithPendingAck, p) := apply_acks h.(hk_pendingAcks) r.(rs_messages) in
      let h := h <| hk_pendingAcks := p |>
                 <| hk_hasOlderMessages := full_page dataWithPendingAck |> in
      match reconcileConversationMessages h.(hk_messagesRef) dataWithPendingAck with
      | None => h
      | Some merged => syncSeenContent (h <| hk_messages := merged |>) merged
      end
  end.

(** [latestReconcileRequestIdRef.current += 1] and the request with that id. *)
Definition next_reconcile (h : Hook) (conversation : Conversation) (signal : nat) : Hook :=
  let requestId := h.(hk_latestReconcileRequestId) + 1 in
  reconcileFromBackend (h <| hk_latestReconcileRequestId := requestId |>)
    conversation signal requestId.

(** ** Paging *)

(** [a] comes before [b] in the pager's order: by reception, then by id. *)
Definition page_before (a b : Message) : bool :=
  (a.(m_received_at) <? b.(m_received_at))
  || ((a.(m_received_at) =? b.(m_received_at)) && (a.(m_id) <? b.(m_id))).

Definition oldest_message (messages : list Message) : option Message :=
  foldl (fun oldest msg =>
    match oldest with
    | None => Some msg
    | Some o => if page_before msg o then Some msg else Some o
    end) None messages.

Definition newest_message (messages : list Message) : option Message :=
  foldl (fun newest msg =>
    match newest with
    | None => Some msg
    | Some n => if page_before n msg then Some msg else Some n
    end) None messages.

Definition cursor_of (m : Message) : Z * Z := (m.(m_received_at), m.(m_id)).

Definition fetchOlderMessages (h : Hook) : Hook :=
  if negb (isMessageConversation h.(hk_activeConversation)) || h.(hk_loadingOlderRef)
     || negb h.(hk_hasOlderMessagesRef) then h else
  match h.(hk_activeConversation), oldest_message h.(hk_messagesRef) with
  | Some conversation, Some oldestMessage =>
    let h := h <| hk_loadingOlderRef := true |> <| hk_loadingOlder := true |> in
    let '(controller, h) := new_controller h in
    let h := h <| hk_olderAbortController := Some controller |> in
    send h {| rq_then := KOlder; rq_conversation := conversation;
              rq_type := wire_type conversation; rq_cursor := Some (cursor_of oldestMessage);
              rq_signal := Some controller |}
  | _, _ => h
  end.

(** [if (ref.current === controller) ref.current = null] *)
Definition release (current : option nat) (controller : option nat) : option nat :=
  if current ≟ controller then None else current.

(** [nextMessages] is set by the updater: it still is null when the updater waits for the
    render, and the ref and the content set are then left alone. *)
Definition fetchOlderMessages_then (h : Hook) (conversation : Conversation)
    (controller : option nat) (reply : option Response) : Hook :=
  let h :=
    match reply with
    | None => h
    | Some r =>
      if negb (h.(hk_fetchingConversationId) ≟ Some conversation.(cv_id)) then h else
      let '(dataWithPendingAck, p) := apply_acks h.(hk_pendingAcks) r.(rs_messages) in
      let h := h <| hk_pendingAcks := p |> in
      let h :=
        match appendUniqueMessages h.(hk_messages) dataWithPendingAck with
        | Some merged =>
          let nextMessages := if h.(hk_updatesQueued) then None else Some merged in
          let h := h <| hk_messages := merged |> in
          match nextMessages with
          | Some nextMessages => syncSeenContent (h <| hk_messagesRef := nextMessages |>) nextMessages
          | None => h
          end
        | None => h
        end in
      h <| hk_hasOlderMessages := full_page dataWithPendingAck |>
    end in
  h <| hk_olderAbortController := release h.(hk_olderAbortController) controller |>
    <| hk_loadingOlderRef := false |> <| hk_loadingOlder := false |>.

Definition fetchNewerMessages (h : Hook) : Hook :=
  if negb (isMessageConversation h.(hk_activeConversation)) || h.(hk_loadingNewerRef)
     || negb h.(hk_hasNewerMessagesRef) then h else
  match h.(hk_activeConversation), newest_message h.(hk_messagesRef) with
  | Some conversation, Some newestMessage =>
    let h := h <| hk_loadingNewerRef := true |> <| hk_loadingNewer := true |> in
    let '(controller, h) := new_controller h in
    let h := h <| hk_newerAbortController := Some controller |> in
    send h {| rq_then := KNewer; rq_conversation := conversation;
              rq_type := wire_type conversation; rq_cursor := Some (cursor_of newestMessage);
              rq_signal := Some controller |}
  | _, _ => h
  end.

Definition unseen (seen : gset jstr) (data : list Message) : list Message :=
  filter (fun msg => getMessageContentKey msg ∉ seen) data.

Definition fetchNewerMessages_then (h : Hook) (conversation : Conversation)
    (controller : option nat) (reply : option Response) : Hook :=
  let h :=
    match reply with
    | None => h
    | Some r =>
      if negb (h.(hk_fetchingConversationId) ≟ Some conversation.(cv_id)) then h else
      let '(dataWithPendingAck, p) := apply_acks h.(hk_pendingAcks) r.(rs_messages) in
      let h := h <| hk_pendingAcks := p |> in
      let newMessages := unseen h.(hk_seenMessageContent) dataWithPendingAck in
      let h := h <| hk_messages := h.(hk_messages) ++ newMessages |>
                 <| hk_seenMessageContent := content_keys newMessages ∪ h.(hk_seenMessageContent) |> in
      let stillHasNewerMessages := full_page dataWithPendingAck in
      let h := h <| hk_hasNewerMessages := stillHasNewerMessages |> in
      if negb stillHasNewerMessages && h.(hk_pendingReconnectReconcile) then
        let h := h <| hk_pendingReconnectReconcile := false |> in
        let '(reconcileController, h) := new_controller h in
        next_reconcile h conversation reconcileController
      else h
    end in
  h <| hk_newerAbortController := release h.(hk_newerAbortController) controller |>
    <| hk_loadingNewerRef := false |> <| hk_loadingNewer := false |>.

(** ** Reloading and reconnecting *)

Definition jumpToBottom (h : Hook) : Hook :=
  match h.(hk_activeConversation) with
  | None => h
  | Some conversation =>
    let h := h <| hk_hasNewerMessages := false |>
               <| hk_cache := cache_remove h.(hk_cache) conversation.(cv_id) |> in
    fetchLatestMessages h true None
  end.

Definition reloadCurrentConversation (h : Hook) : Hook :=
  match h.(hk_activeConversation) with
  | Some conversation =>
    if isMessageConversation (Some conversation) then
      h <| hk_hasNewerMessages := false |>
        <| hk_cache := cache_remove h.(hk_cache) conversation.(cv_id) |>
        <| hk_reloadVersion := h.(hk_reloadVersion) + 1 |>
    else h
  | None => h
  end.

Definition reconcileOnReconnect (h : Hook) : Hook :=
  match h.(hk_activeConversation) with
  | Some current =>
    if negb (isMessageConversation (Some current)) then h
    else if h.(hk_hasNewerMessagesRef) then h <| hk_pendingReconnectReconcile := true |>
    else
      let h := h <| hk_pendingReconnectReconcile := false |> in
      let '(controller, h) := new_controller h in
      next_reconcile h current controller
  | None => h
  end.

(** ** The effect on a switch of conversation, target or reload version *)

(** [if (id)] on an id: absent and 0 are false. *)
Definition truthy_id (id : option Z) : option Z :=
  match id with Some 0 => None | _ => id end.

Definition abort_all (h : Hook) : Hook :=
  let h := abort h h.(hk_abortController) in
  let h := abort h h.(hk_olderAbortController) in
  let h := abort h h.(hk_newerAbortController) in
  h <| hk_olderAbortController := None |> <| hk_newerAbortController := None |>.

(** Handing the list of the conversation that is left to the cache. *)
Definition hand_to_cache (h : Hook) (prevId : option jstr) (conversationChanged : bool) : Hook :=
  match prevId with
  | Some ((_ :: _) as id) =>
    if conversationChanged && (0 <? len h.(hk_messagesRef)) && negb h.(hk_hasNewerMessagesRef)
    then h <| hk_cache := cache_set h.(hk_cache) id
                {| ce_messages := h.(hk_messagesRef);
                   ce_hasOlderMessages := h.(hk_hasOlderMessagesRef) |} |>
    else h
  | _ => h
  end.

(** Loading the conversation that is entered. *)
Definition enter_conversation (h : Hook) (conversation : Conversation) : Hook :=
  let '(controller, h) := new_controller h in
  let h := h <| hk_abortController := Some controller |> in
  match truthy_id h.(hk_targetMessageId) with
  | Some targetMessageId =>
    let h := h <| hk_messagesLoading := true |> <| hk_messages := [] |> in
    send h {| rq_then := KAround; rq_conversation := conversation;
              rq_type := wire_type conversation; rq_cursor := Some (targetMessageId, 0);
              rq_signal := Some controller |}
  | None =>
    let '(cached, c) := cache_get h.(hk_cache) conversation.(cv_id) in
    let h := h <| hk_cache := c |> in
    match cached with
    | Some entry =>
      let h := h <| hk_messages := entry.(ce_messages) |>
                 <| hk_seenMessageContent := content_keys entry.(ce_messages) |>
                 <| hk_hasOlderMessages := entry.(ce_hasOlderMessages) |>
                 <| hk_messagesLoading := false |> in
      next_reconcile h conversation controller
    | None => fetchLatestMessages h true (Some controller)
    end
  end.

Definition conversation_effect (h : Hook) : Hook :=
  let h := abort_all h in
  let prevId := h.(hk_prevConversationId) in
  let newId := cv_id <$> h.(hk_activeConversation) in
  let conversationChanged := negb (prevId ≟ newId) in
  let reloadRequested := negb (h.(hk_prevReloadVersion) =? h.(hk_reloadVersion)) in
  let h := h <| hk_fetchingConversationId := newId |> <| hk_prevConversationId := newId |>
             <| hk_prevReloadVersion := h.(hk_reloadVersion) |>
             <| hk_latestReconcileRequestId := 0 |>
             <| hk_pendingReconnectReconcile := false |> in
  if negb conversationChanged && bool_decide (truthy_id h.(hk_targetMessageId) = None)
     && negb reloadRequested then h else
  let h := h <| hk_loadingOlder := false |> <| hk_loadingOlderRef := false |>
             <| hk_loadingNewer := false |> in
  let h := if conversationChanged then h <| hk_hasNewerMessages := false |> else h in
  let h := hand_to_cache h prevId conversationChanged in
  match h.(hk_activeConversation) with
  | Some conversation =>
    if isMessageConversation (Some conversation) then enter_conversation h conversation
    else h <| hk_messages := [] |> <| hk_hasOlderMessages := false |>
  | None => h <| hk_messages := [] |> <| hk_hasOlderMessages := false |>
  end.

(** The reply to [getMessagesAround]. *)
Definition around_then (h : Hook) (conversation : Conversation) (reply : option Response) : Hook :=
  let h :=
    match reply with
    | None => h
    | Some r =>
      if negb (h.(hk_fetchingConversationId) ≟ Some conversation.(cv_id)) then h else
      let '(withAcks, p) := apply_acks h.(hk_pendingAcks) r.(rs_messages) in
      let h := syncSeenContent (h <| hk_pendingAcks := p |> <| hk_messages := withAcks |>) withAcks in
      h <| hk_hasOlderMessages := r.(rs_has_older) |>
        <| hk_hasNewerMessages := r.(rs_has_newer) |>
    end in
  h <| hk_messagesLoading := false |>.

(** ** Messages and ACKs from the socket *)

Definition appendActiveMessageIfNew (h : Hook) (msg : Message) : bool * Hook :=
  let '(msgWithPendingAck, p) := applyPendingAck h.(hk_pendingAcks) msg in
  let h := h <| hk_pendingAcks := p |> in
  let contentKey := getMessageContentKey msgWithPendingAck in
  if bool_decide (contentKey ∈ h.(hk_seenMessageContent)) then (false, h) else
  let seen := {[contentKey]} ∪ h.(hk_seenMessageContent) in
  let seen := if 1000 <? Z.of_nat (size seen)
              then {[contentKey]} ∪ content_keys h.(hk_messagesRef) else seen in
  let h := h <| hk_seenMessageContent := seen |> in
  let h := if has_id h.(hk_messages) msgWithPendingAck.(m_id) then h
           else h <| hk_messages := h.(hk_messages) ++ [msgWithPendingAck] |> in
  (true, h).

Definition updateMessageAck (h : Hook) (messageId : Z) (a : Ack) : Hook :=
  let hasMessageLoaded := has_id h.(hk_messagesRef) messageId in
  if negb hasMessageLoaded
  then h <| hk_pendingAcks := setPendingAck h.(hk_pendingAcks) messageId a |>
  else
    let h := h <| hk_pendingAcks := om_delete h.(hk_pendingAcks) messageId |> in
    if has_id h.(hk_messages) messageId
    then h <| hk_messages := ack_first h.(hk_messages) messageId a |>
    else h <| hk_pendingAcks := setPendingAck h.(hk_pendingAcks) messageId a |>.

Definition receiveMessageAck (h : Hook) (messageId : Z) (a : Ack) : Hook :=
  let h := updateMessageAck h messageId a in
  h <| hk_cache := cache_updateAck h.(hk_cache) messageId a |>.

(** The answer is [{ added, activeConversation }]. *)
Definition observeMessage (h : Hook) (msg : Message) : (bool * bool) * Hook :=
  let '(msgWithPendingAck, p) := applyPendingAck h.(hk_pendingAcks) msg in
  let h := h <| hk_pendingAcks := p |> in
  if isActiveConversationMessage h.(hk_activeConversation) msgWithPendingAck then
    if h.(hk_hasNewerMessagesRef) then ((false, true), h)
    else let '(added, h) := appendActiveMessageIfNew h msgWithPendingAck in ((added, true), h)
  else
    let '(added, c) := cache_addMessage h.(hk_cache) msgWithPendingAck.(m_conversation_key)
                         msgWithPendingAck in
    ((added, false), h <| hk_cache := c |>).

Definition renameConversationMessages (h : Hook) (oldId newId : jstr) : Hook :=
  h <| hk_cache := cache_rename h.(hk_cache) oldId newId |>.

Definition removeConversationMessages (h : Hook) (conversationId : jstr) : Hook :=
  h <| hk_cache := cache_remove h.(hk_cache) conversationId |>.

Definition removeMessage (h : Hook) (messageId : Z) : Hook :=
  h <| hk_messages := filter (fun m => m.(m_id) <> messageId) h.(hk_messages) |>
    <| hk_cache := cache_removeMessage h.(hk_cache) messageId |>.

Definition clearConversationMessages (h : Hook) : Hook :=
  h <| hk_cache := cache_clear h.(hk_cache) |>.

(** ** Events *)

(** A render with new props: the effect runs when one of its dependencies changed. *)
Definition same_deps (a b : option Conversation) : bool :=
  ((cv_id <$> a) ≟ (cv_id <$> b)) && ((cv_type <$> a) ≟ (cv_type <$> b)).

Definition render (h : Hook) (active : option Conversation) (target : option Z) : Hook :=
  let run := negb (same_deps h.(hk_activeConversation) active)
             || negb (h.(hk_targetMessageId) ≟ target) in
  let h := commit (h <| hk_activeConversation := active |> <| hk_targetMessageId := target |>) in
  if run then commit (conversation_effect h) else h.

(** The request is answered once: the first equal one leaves the list. *)
Fixpoint settle (rq : Request) (l : list Request) : list Request :=
  match l with
  | [] => []
  | r :: rest => if decide (r = rq) then rest else r :: settle rq rest
  end.

(** A reply to a request in flight: [None] is a refusal. The reply to an aborted request
    is a refusal, whatever the server sent. *)
Definition receive (h : Hook) (rq : Request) (reply : option Response) : Hook :=
  let h := h <| hk_inFlight := settle rq h.(hk_inFlight) |> in
  let aborted := match rq.(rq_signal) with
                 | Some k => bool_decide (k ∈ h.(hk_aborted)) | None => false end in
  let reply := if aborted then None else reply in
  let c := rq.(rq_conversation) in
  match rq.(rq_then) with
  | KLatest showLoading => fetchLatestMessages_then h c showLoading reply
  | KReconcile requestId => reconcileFromBackend_then h c requestId reply
  | KOlder => fetchOlderMessages_then h c rq.(rq_signal) reply
  | KNewer => fetchNewerMessages_then h c rq.(rq_signal) reply
  | KAround => around_then h c reply
  end.

Inductive Event :=
| EvRender (active : option Conversation) (target : option Z)
| EvFetchOlder
| EvFetchNewer
| EvJumpToBottom
| EvReload
| EvReconnect
| EvMessage (msg : Message)
| EvAck (messageId : Z) (a : Ack)
| EvRename (oldId newId : jstr)
| EvRemoveConversation (id : jstr)
| EvRemoveMessage (messageId : Z)
| EvClear
| EvQueued (queued : bool)
| EvReply (rq : Request) (reply : option Response).

Definition handle (h : Hook) (e : Event) : Hook :=
  match e with
  | EvRender active target => render h active target
  | EvFetchOlder => commit (fetchOlderMessages h)
  | EvFetchNewer => commit (fetchNewerMessages h)
  | EvJumpToBottom => commit (jumpToBottom h)
  | EvReload =>
    let h' := commit (reloadCurrentConversation h) in
    if h'.(hk_reloadVersion) =? h.(hk_reloadVersion) then h'
    else commit (conversation_effect h')
  | EvReconnect => commit (reconcileOnReconnect h)
  | EvMessage msg => commit (observeMessage h msg).2
  | EvAck messageId a => commit (receiveMessageAck h messageId a)
  | EvRename oldId newId => commit (renameConversationMessages h oldId newId)
  | EvRemoveConversation id => commit (removeConversationMessages h id)
  | EvRemoveMessage messageId => commit (removeMessage h messageId)
  | EvClear => commit (clearConversationMessages h)
  | EvQueued queued => commit (h <| hk_updatesQueued := queued |>)
  | EvReply rq reply => commit (receive h rq reply)
  end.
