(* ===== verification/ConversationHookProps.v ===== *)
(** The conversation hook keeps its conversations apart: whatever the order of renders,
    socket events and replies, the displayed list and the cached lists only hold messages
    of their own conversation; a message is displayed once, except after a page asked after the
    newest message repeated one whose content was not noted; replies that come too late are
    dropped. *)
From S2P Require Import Prelude JsString JsCollections JsNum Types MessageCache MessageCacheProps ConversationHook.

Section hook.
(** [belongs id key]: messages with the conversation key [key] are those of the
    conversation [id]: the conversation's own key, and the keys it was renamed from. *)
Context (belongs : jstr -> jstr -> Prop) `{!Reflexive belongs}.
(** Whether every page asked after the newest message was fresh ([fresh_event] below). *)
Context (fresh : Prop).

Definition row_ok (id : jstr) (m : Message) : Prop := belongs id m.(m_conversation_key).

(** A list of messages of the conversation [id], each once as long as the pages are fresh. *)
Record list_ok (id : jstr) (ms : list Message) : Prop := {
  lo_rows : Forall (row_ok id) ms;
  lo_nodup : fresh -> NoDup (m_id <$> ms);
}.

Definition cache_lists (c : cache) : Prop :=
  Forall (fun p => list_ok p.1 p.2.(ie_messages)) c.

(** ** Lists *)

Lemma list_ok_nil id : list_ok id [].
Proof. repeat constructor. Qed.

Lemma list_ok_app id ms ns :
  list_ok id (ms ++ ns) <->
  list_ok id ms /\ list_ok id ns /\ (fresh -> forall x, x ∈ m_id <$> ms -> x ∉ m_id <$> ns).
Proof.
  split.
  - intros [Hr Hn]. rewrite fmap_app in Hn.
    apply Forall_app in Hr as [? ?]. split_and!; [split|split|]; try done;
      intros Hf; by apply Hn, NoDup_app in Hf as (?&?&?).
  - intros ([? ?] & [? ?] & ?). split; [by apply Forall_app|].
    intros Hf. rewrite fmap_app. apply NoDup_app. auto.
Qed.

Lemma list_ok_perm id ms ns : ms ≡ₚ ns -> list_ok id ns -> list_ok id ms.
Proof. intros Hp [Hr Hn]. split; [by rewrite Hp|by rewrite Hp]. Qed.

Lemma list_ok_filter id (P : Message -> Prop) `{!forall m, Decision (P m)} ms :
  list_ok id ms -> list_ok id (filter P ms).
Proof. intros [Hr Hn]. split; [by apply Forall_filter|]. intros Hf. auto with meshloom. Qed.

Lemma list_ok_snoc id ms m :
  list_ok id ms -> row_ok id m -> has_id ms m.(m_id) = false -> list_ok id (ms ++ [m]).
Proof.
  intros Hms Hm Hid%has_id_false. apply list_ok_app. split; [done|]. split.
  - split; [by constructor|]. intros _. apply NoDup_singleton.
  - intros _ x Hx Hx'. apply list_elem_of_singleton in Hx'. by subst.
Qed.

(** ** ACKs change neither the identity nor the content of a message *)

Lemma row_ok_with id m a ps i hash o :
  row_ok id (message_with m a ps i hash o) <-> row_ok id m.
Proof. done. Qed.

Lemma ack_first_ok id ms i a : list_ok id ms -> list_ok id (ack_first ms i a).
Proof.
  intros [Hr Hn]. split; [|by rewrite ack_first_ids].
  clear Hn. induction Hr as [|m ms Hm Hr IH]; [constructor|]. cbn [ack_first].
  destruct (_ =? _); by constructor.
Qed.

Lemma applyPendingAck_same p m :
  (applyPendingAck p m).1.(m_id) = m.(m_id)
  /\ getMessageContentKey (applyPendingAck p m).1 = getMessageContentKey m
  /\ (applyPendingAck p m).1.(m_conversation_key) = m.(m_conversation_key)
  /\ (applyPendingAck p m).1.(m_type) = m.(m_type).
Proof. unfold applyPendingAck. by destruct (om_get p m.(m_id)). Qed.

Lemma row_ok_applied id p m : row_ok id (applyPendingAck p m).1 <-> row_ok id m.
Proof.
  destruct (applyPendingAck_same p m) as (_ & _ & E & _). unfold row_ok. by rewrite E.
Qed.

(** [m'] is [m], whatever its acknowledgements. *)
Definition same_message (m' m : Message) : Prop :=
  m'.(m_id) = m.(m_id) /\ getMessageContentKey m' = getMessageContentKey m
  /\ m'.(m_conversation_key) = m.(m_conversation_key).

Lemma apply_acks_same p data : Forall2 same_message (apply_acks p data).1 data.
Proof.
  revert p. induction data as [|m data IH]; intros p; [constructor|]. cbn [apply_acks].
  pose proof (applyPendingAck_same p m) as (E1 & E2 & E3 & _).
  destruct (applyPendingAck p m) as [m' p']. specialize (IH p').
  destruct (apply_acks p' data). by constructor.
Qed.

Lemma apply_acks_ok id data p : list_ok id data -> list_ok id (apply_acks p data).1.
Proof.
  intros [Hr Hn]. pose proof (apply_acks_same p data) as Hs.
  set (l := (apply_acks p data).1) in *. clearbody l. split.
  - clear Hn. induction Hs as [|m' m l data (_ & _ & E) _ IH]; [constructor|].
    inversion Hr; subst. constructor; [|by apply IH]. unfold row_ok. by rewrite E.
  - intros Hf. replace (m_id <$> l) with (m_id <$> data); [by apply Hn|].
    clear Hr Hn. induction Hs as [|m' m l data (E & _) _ IH]; [done|]. rewrite !fmap_cons. congruence.
Qed.

(** ** The merges *)

Lemma reconcile_ok id current fetched merged :
  list_ok id current -> list_ok id fetched ->
  reconcileConversationMessages current fetched = Some merged -> list_ok id merged.
Proof.
  unfold reconcileConversationMessages. intros Hc Hf. destruct (negb _); [done|].
  intros <-%(inj Some). apply list_ok_app. split; [done|]. split; [by apply list_ok_filter|].
  intros _ x Hx (m & -> & [Hm _]%list_elem_of_filter)%list_elem_of_fmap.
  by apply has_id_false in Hm.
Qed.

Lemma append_loop_ok id incoming ids contents :
  Forall (row_ok id) incoming ->
  list_ok id (append_loop ids contents incoming)
  /\ forall m, m ∈ append_loop ids contents incoming -> m.(m_id) ∉ ids.
Proof.
  intros Hin. revert ids contents. induction Hin as [|m incoming Hm Hin IH]; intros ids contents.
  - split; [apply list_ok_nil|]. intros m Hm. by apply not_elem_of_nil in Hm.
  - cbn [append_loop]. destruct (bool_decide (m_id m ∈ ids)) eqn:E; [apply IH|].
    destruct (bool_decide (_ ∈ contents)); [apply IH|]. cbn [orb].
    destruct (IH ({[m_id m]} ∪ ids) ({[getMessageContentKey m]} ∪ contents)) as [[Hr Hn] Hnew].
    to_prop. split; [split|].
    + by constructor.
    + intros Hf. apply NoDup_cons. split; [|by apply Hn].
      intros (m' & E' & Hm')%list_elem_of_fmap. apply (Hnew m' Hm'). set_solver.
    + intros m' [->|Hm']%elem_of_cons; [done|]. specialize (Hnew m' Hm'). set_solver.
Qed.

Lemma appendUnique_ok id current incoming merged :
  list_ok id current -> Forall (row_ok id) incoming ->
  appendUniqueMessages current incoming = Some merged -> list_ok id merged.
Proof.
  unfold appendUniqueMessages. intros Hc Hi.
  destruct incoming as [|m0 incoming]; [done|].
  destruct (append_loop_ok id (m0 :: incoming) (list_to_set (m_id <$> current))
              (content_keys current) Hi) as [Hok Hnew].
  destruct (append_loop _ _ _) as [|a additions]; [done|]. intros <-%(inj Some).
  apply list_ok_app. split; [done|]. split; [done|].
  intros _ x Hx (m & -> & Hm)%list_elem_of_fmap. apply (Hnew m Hm). by apply elem_of_list_to_set.
Qed.

(** Every message of [data] that is in [ms] has its content in the deduplication set. *)
Definition fresh_page (ms data : list Message) (seen : gset jstr) : Prop :=
  Forall (fun m => m.(m_id) ∈ m_id <$> ms -> getMessageContentKey m ∈ seen) data.

Lemma unseen_ok id ms data p seen :
  list_ok id ms -> list_ok id data -> (fresh -> fresh_page ms data seen) ->
  list_ok id (ms ++ unseen seen (apply_acks p data).1).
Proof.
  intros Hms Hdata Hfresh. apply list_ok_app. split; [done|].
  split; [by apply list_ok_filter, apply_acks_ok|].
  intros Hf x Hx (m' & -> & [Hns Hm']%list_elem_of_filter)%list_elem_of_fmap.
  pose proof (apply_acks_same p data) as Hs.
  apply list_elem_of_lookup in Hm' as [i Hi].
  destruct (Forall2_lookup_l _ _ _ _ _ Hs Hi) as (m & Hm%list_elem_of_lookup_2 & E1 & E2 & _).
  apply Hns. rewrite E2. specialize (Hfresh Hf). eapply Forall_forall in Hfresh; [|exact Hm].
  apply Hfresh. by rewrite <- E1.
Qed.

Lemma merge_by_id_ok id older merged :
  list_ok id merged -> Forall (row_ok id) older -> list_ok id (merge_by_id merged older).
Proof.
  intros Hm Ho. revert merged Hm.
  induction Ho as [|m older Hrow Ho IH]; intros merged Hm; [done|]. simpl. apply IH.
  destruct (has_id merged (m_id m)) eqn:E; [done|]. by apply list_ok_snoc.
Qed.

(** ** The cache's lists *)

Lemma normalizeEntry_lists id e :
  list_ok id e.(ce_messages) -> list_ok id (normalizeEntry e).(ie_messages).
Proof.
  intros He. destruct (decide (MAX_MESSAGES_PER_ENTRY < len e.(ce_messages))) as [Hl|Hl].
  - destruct (normalizeEntry_trim e Hl) as (dropped & Hp & _).
    apply (list_ok_perm _ _ _ Hp) in He. by apply list_ok_app in He as [? _].
  - pose proof (normalizeEntry_small e ltac:(lia)) as E%(f_equal ce_messages). cbn [external ce_messages] in E. by rewrite E.
Qed.

Lemma lists_get c id e : cache_lists c -> om_get c id = Some e -> list_ok id e.(ie_messages).
Proof. intros Hc Hg%om_get_Some_elem. by eapply Forall_forall in Hc; [|exact Hg]. Qed.

Lemma lists_delete c id : cache_lists c -> cache_lists (om_delete c id).
Proof. apply Forall_om_delete. Qed.

Lemma lists_set c id e : cache_lists c -> list_ok id e.(ie_messages) -> cache_lists (om_set c id e).
Proof. intros. by apply Forall_om_set. Qed.

Lemma lists_evict c : cache_lists c -> cache_lists (evict c).
Proof.
  intros Hc. unfold evict. destruct (_ <? _); [|done].
  destruct (om_first_key c); [by apply lists_delete|done].
Qed.

Lemma lists_cache_get c id : cache_lists c -> cache_lists (cache_get c id).2.
Proof.
  intros Hc. unfold cache_get. destruct (om_get c id) eqn:E; [|done].
  apply lists_set; [by apply lists_delete|]. by eapply lists_get.
Qed.

Lemma lists_cache_set c id e :
  cache_lists c -> list_ok id e.(ce_messages) -> cache_lists (cache_set c id e).
Proof.
  intros. apply lists_evict, lists_set; [by apply lists_delete|]. by apply normalizeEntry_lists.
Qed.

Lemma lists_addMessage c id m :
  cache_lists c -> row_ok id m -> cache_lists (cache_addMessage c id m).2.
Proof.
  intros Hc Hm. unfold cache_addMessage. destruct (om_get c id) as [e|] eqn:E.
  - case_bool_decide; [done|]. destruct (has_id _ _) eqn:Eid; [done|].
    apply lists_set; [by apply lists_delete|]. apply normalizeEntry_lists. simpl.
    apply list_ok_snoc; [by eapply lists_get|done..].
  - apply lists_evict, lists_set; [done|]. by apply (list_ok_snoc id [] m (list_ok_nil id)).
Qed.

Lemma lists_updateAck c i a : cache_lists c -> cache_lists (cache_updateAck c i a).
Proof.
  unfold cache_lists. intros Hc. induction Hc as [|[id e] c He Hc IH]; [constructor|]. simpl.
  destruct (has_id _ _); constructor; [by apply ack_first_ok|done..].
Qed.

Lemma lists_removeMessage c i : cache_lists c -> cache_lists (cache_removeMessage c i).
Proof.
  unfold cache_lists. intros Hc. induction Hc as [|[id e] c He Hc IH]; [constructor|]. simpl.
  destruct (has_id _ _); constructor; try done.
  apply normalizeEntry_lists. by apply list_ok_filter.
Qed.

Lemma list_ok_rename o n ms :
  (forall k, belongs o k -> belongs n k) -> list_ok o ms -> list_ok n ms.
Proof.
  intros Hb [Hr Hn]. split; [|done]. eapply Forall_impl; [exact Hr|].
  intros m ?. by apply Hb.
Qed.

Lemma lists_rename c o n :
  (forall k, belongs o k -> belongs n k) -> cache_lists c -> cache_lists (cache_rename c o n).
Proof.
  intros Hb Hc. unfold cache_rename. case_bool_decide; [done|].
  destruct (om_get c o) as [eo|] eqn:Eo; [|done].
  pose proof (lists_get _ _ _ Hc Eo) as Ho%(list_ok_rename _ _ _ Hb).
  destruct (om_get c n) as [en|] eqn:En; (apply lists_set; [by apply lists_delete|]); [|done].
  apply normalizeEntry_lists, merge_by_id_ok; [by eapply lists_get|apply Ho].
Qed.

(** ** The invariant *)

Definition shown (id : option jstr) (ms : list Message) : Prop :=
  match id with Some id => list_ok id ms | None => ms = [] end.

(** What every event keeps. *)
Record hook_inv (h : Hook) : Prop := {
  hi_fetching : h.(hk_fetchingConversationId) = cv_id <$> h.(hk_activeConversation);
  hi_prev : h.(hk_prevConversationId) = cv_id <$> h.(hk_activeConversation);
  hi_shown : shown h.(hk_fetchingConversationId) h.(hk_messages);
  hi_cache : cache_lists h.(hk_cache);
}.

(** What holds between events: the refs mirror the state as well. *)
Record hook_ok (h : Hook) : Prop := {
  ho_inv : hook_inv h;
  ho_ref : h.(hk_messagesRef) = h.(hk_messages);
  ho_newer : h.(hk_hasNewerMessagesRef) = h.(hk_hasNewerMessages);
}.

Lemma commit_ok h : hook_inv h -> hook_ok (commit h).
Proof. intros [H1 H2 H3 H4]. by repeat split. Qed.

Lemma shown_nil id : shown id [].
Proof. destruct id; [apply list_ok_nil|done]. Qed.

(** An update that leaves the conversation, the list and the cache alone. *)
Definition same_lists (h h' : Hook) : Prop :=
  h'.(hk_activeConversation) = h.(hk_activeConversation)
  /\ h'.(hk_fetchingConversationId) = h.(hk_fetchingConversationId)
  /\ h'.(hk_prevConversationId) = h.(hk_prevConversationId)
  /\ h'.(hk_messages) = h.(hk_messages)
  /\ h'.(hk_cache) = h.(hk_cache).

Lemma same_lists_inv h h' : same_lists h h' -> hook_inv h -> hook_inv h'.
Proof.
  intros (E1 & E2 & E3 & E4 & E5) [H1 H2 H3 H4].
  constructor; rewrite ?E1, ?E2, ?E3, ?E4, ?E5; done.
Qed.

(** A new list for the conversation shown. *)
Lemma inv_show h ms :
  hook_inv h -> shown h.(hk_fetchingConversationId) ms -> hook_inv (h <| hk_messages := ms |>).
Proof. by intros [H1 H2 H3 H4] ?. Qed.

Lemma inv_clear h : hook_inv h -> hook_inv (h <| hk_messages := [] |>).
Proof. intros Hi. apply inv_show; [done|apply shown_nil]. Qed.

Lemma inv_cache h c : hook_inv h -> cache_lists c -> hook_inv (h <| hk_cache := c |>).
Proof. by intros [H1 H2 H3 H4] ?. Qed.

(** ** Replies *)

Lemma guard_passed h conversation :
  negb (h.(hk_fetchingConversationId) ≟ Some conversation.(cv_id)) = false ->
  h.(hk_fetchingConversationId) = Some conversation.(cv_id).
Proof. intros. by to_prop. Qed.

Lemma fetchLatest_then_inv h c sl reply :
  hook_ok h -> (forall r, reply = Some r -> list_ok c.(cv_id) r.(rs_messages)) ->
  hook_inv (fetchLatestMessages_then h c sl reply).
Proof.
  intros [Hi Hr Hn] Hreply. unfold fetchLatestMessages_then.
  assert (Hfin : forall g, hook_inv g -> hook_inv (if sl then g <| hk_messagesLoading := false |> else g)).
  { intros g Hg. destruct sl; [|done]. by apply (same_lists_inv g). }
  apply Hfin. destruct reply as [r|]; [|done].
  destruct (negb (_ ≟ _)) eqn:Eg; [done|]. apply guard_passed in Eg.
  pose proof (apply_acks_ok _ _ h.(hk_pendingAcks) (Hreply r eq_refl)) as Hacks.
  destruct (apply_acks _ _) as [withAcks p]. cbn [fst] in Hacks.
  pose proof (hi_shown h Hi) as Hshown. rewrite Eg in Hshown. simpl in Hshown.
  assert (Hm : forall ms, list_ok c.(cv_id) ms ->
    hook_inv ((syncSeenContent (h <| hk_pendingAcks := p |> <| hk_messages := ms |>) ms)
              <| hk_hasOlderMessages := full_page withAcks |>)).
  { intros ms Hms. apply (same_lists_inv (h <| hk_messages := ms |>)); [done|].
    apply inv_show; [done|]. by rewrite Eg. }
  cbn [hk_messagesRef set]. destruct (reconcileConversationMessages _ _) as [merged|] eqn:Em.
  - apply Hm. rewrite Hr in Em. exact (reconcile_ok _ _ _ _ Hshown Hacks Em).
  - cbn [default]. rewrite Hr. specialize (Hm _ Hshown).
    by eapply same_lists_inv; [|exact Hm].
Qed.

Lemma reconcile_then_inv h c requestId reply :
  hook_ok h -> (forall r, reply = Some r -> list_ok c.(cv_id) r.(rs_messages)) ->
  hook_inv (reconcileFromBackend_then h c requestId reply).
Proof.
  intros [Hi Hr Hn] Hreply. unfold reconcileFromBackend_then.
  destruct reply as [r|]; [|done]. destruct (negb (_ ≟ _)) eqn:Eg; [done|].
  destruct (negb (_ =? _)); [done|]. apply guard_passed in Eg.
  pose proof (apply_acks_ok _ _ h.(hk_pendingAcks) (Hreply r eq_refl)) as Hacks.
  destruct (apply_acks _ _) as [withAcks p]. cbn [fst] in Hacks.
  pose proof (hi_shown h Hi) as Hshown. rewrite Eg in Hshown.
  cbn [hk_messagesRef set]. destruct (reconcileConversationMessages _ _) as [merged|] eqn:Em.
  - rewrite Hr in Em. pose proof (reconcile_ok _ _ _ _ Hshown Hacks Em) as Hm.
    apply (same_lists_inv (h <| hk_messages := merged |>)); [done|].
    apply inv_show; [done|]. by rewrite Eg.
  - by apply (same_lists_inv h).
Qed.

Lemma fetchOlder_then_inv h c k reply :
  hook_ok h -> (forall r, reply = Some r -> list_ok c.(cv_id) r.(rs_messages)) ->
  hook_inv (fetchOlderMessages_then h c k reply).
Proof.
  intros [Hi Hr Hn] Hreply. unfold fetchOlderMessages_then.
  eapply (same_lists_inv (match reply with None => h | Some r => _ end)); [done|].
  destruct reply as [r|]; [|done]. destruct (negb (_ ≟ _)) eqn:Eg; [done|]. apply guard_passed in Eg.
  pose proof (apply_acks_ok _ _ h.(hk_pendingAcks) (Hreply r eq_refl)) as Hacks.
  destruct (apply_acks _ _) as [withAcks p]. cbn [fst] in Hacks.
  pose proof (hi_shown h Hi) as Hshown. rewrite Eg in Hshown.
  cbn [hk_messages set]. destruct (appendUniqueMessages _ _) as [merged|] eqn:Em.
  - pose proof (appendUnique_ok _ _ _ _ Hshown (lo_rows _ _ Hacks) Em) as Hm.
    apply (same_lists_inv (h <| hk_messages := merged |>)).
    { by destruct (hk_updatesQueued h) eqn:Eq; cbn; rewrite Eq. }
    apply inv_show; [done|]. by rewrite Eg.
  - by apply (same_lists_inv h).
Qed.

Lemma fetchNewer_then_inv h c k reply :
  hook_ok h -> (forall r, reply = Some r -> list_ok c.(cv_id) r.(rs_messages)) ->
  (fresh -> forall r, reply = Some r ->
     fresh_page h.(hk_messages) r.(rs_messages) h.(hk_seenMessageContent)) ->
  hook_inv (fetchNewerMessages_then h c k reply).
Proof.
  intros [Hi Hr Hn] Hreply Hfresh. unfold fetchNewerMessages_then.
  eapply (same_lists_inv (match reply with None => h | Some r => _ end)); [done|].
  destruct reply as [r|]; [|done]. destruct (negb (_ ≟ _)) eqn:Eg; [done|]. apply guard_passed in Eg.
  pose proof (hi_shown h Hi) as Hshown. rewrite Eg in Hshown.
  pose proof (unseen_ok _ _ _ h.(hk_pendingAcks) _ Hshown (Hreply r eq_refl)
    (fun Hf => Hfresh Hf r eq_refl)) as Hok.
  destruct (apply_acks _ _) as [withAcks p]. cbn [fst] in Hok.
  set (new := unseen h.(hk_seenMessageContent) withAcks) in *.
  apply (same_lists_inv (h <| hk_messages := h.(hk_messages) ++ new |>)); [by destruct (_ && _)|].
  apply inv_show; [done|]. by rewrite Eg.
Qed.

Lemma around_then_inv h c reply :
  hook_ok h -> (forall r, reply = Some r -> list_ok c.(cv_id) r.(rs_messages)) ->
  hook_inv (around_then h c reply).
Proof.
  intros [Hi Hr Hn] Hreply. unfold around_then.
  eapply (same_lists_inv (match reply with None => h | Some r => _ end)); [done|].
  destruct reply as [r|]; [|done]. destruct (negb (_ ≟ _)) eqn:Eg; [done|]. apply guard_passed in Eg.
  pose proof (apply_acks_ok _ _ h.(hk_pendingAcks) (Hreply r eq_refl)) as Hacks.
  destruct (apply_acks _ _) as [withAcks p]. cbn [fst] in Hacks.
  apply (same_lists_inv (h <| hk_messages := withAcks |>)); [done|].
  apply inv_show; [done|]. by rewrite Eg.
Qed.

(** ** Callbacks *)

Lemma fetchLatest_inv h sl k : hook_inv h -> hook_inv (fetchLatestMessages h sl k).
Proof.
  intros Hi. unfold fetchLatestMessages.
  assert (hook_inv (h <| hk_messages := [] |> <| hk_hasOlderMessages := false |>))
    by (by apply (same_lists_inv (h <| hk_messages := [] |>)), inv_clear).
  destruct h.(hk_activeConversation) as [c|] eqn:Ea; [|done].
  destruct (isMessageConversation _); [|done]. destruct sl.
  - by apply (same_lists_inv (h <| hk_messages := [] |>)), inv_clear.
  - by apply (same_lists_inv h).
Qed.

Lemma fetchOlder_same h : same_lists h (fetchOlderMessages h).
Proof.
  unfold fetchOlderMessages. destruct (_ || _ || _); [done|].
  destruct h.(hk_activeConversation); [|done]. by destruct (oldest_message _).
Qed.

Lemma fetchNewer_same h : same_lists h (fetchNewerMessages h).
Proof.
  unfold fetchNewerMessages. destruct (_ || _ || _); [done|].
  destruct h.(hk_activeConversation); [|done]. by destruct (newest_message _).
Qed.

Lemma reconnect_same h : same_lists h (reconcileOnReconnect h).
Proof.
  unfold reconcileOnReconnect. destruct h.(hk_activeConversation) as [c|]; [|done].
  destruct (negb _); [done|]. by destruct h.(hk_hasNewerMessagesRef).
Qed.

Lemma jumpToBottom_inv h : hook_inv h -> hook_inv (jumpToBottom h).
Proof.
  intros Hi. unfold jumpToBottom. destruct h.(hk_activeConversation) as [c|] eqn:Ea; [|done].
  apply fetchLatest_inv.
  apply (same_lists_inv (h <| hk_cache := cache_remove h.(hk_cache) c.(cv_id) |>)); [done|].
  apply inv_cache; [done|]. apply lists_delete, Hi.
Qed.

Lemma reload_inv h : hook_inv h -> hook_inv (reloadCurrentConversation h).
Proof.
  intros Hi. unfold reloadCurrentConversation.
  destruct h.(hk_activeConversation) as [c|] eqn:Ea; [|done].
  destruct (isMessageConversation _); [|done].
  apply (same_lists_inv (h <| hk_cache := cache_remove h.(hk_cache) c.(cv_id) |>)); [done|].
  apply inv_cache; [done|]. apply lists_delete, Hi.
Qed.

Lemma append_active_inv h m :
  hook_ok h -> isActiveConversationMessage h.(hk_activeConversation) m = true ->
  hook_inv (appendActiveMessageIfNew h m).2.
Proof.
  intros [Hi Hr _] Hact. unfold appendActiveMessageIfNew.
  assert (Hfetch : h.(hk_fetchingConversationId) = Some m.(m_conversation_key)).
  { rewrite (hi_fetching h Hi). unfold isActiveConversationMessage in Hact.
    destruct h.(hk_activeConversation) as [c|]; [|done]. cbn.
    destruct m.(m_type), c.(cv_type); try done; to_prop; by rewrite Hact. }
  assert (Hrow : row_ok m.(m_conversation_key) m) by (unfold row_ok; reflexivity).
  pose proof (proj2 (row_ok_applied _ h.(hk_pendingAcks) m) Hrow) as Hrow'. clear Hrow.
  destruct (applyPendingAck h.(hk_pendingAcks) m) as [m' p]. cbn [fst] in Hrow'.
  case_bool_decide; [by apply (same_lists_inv h)|]. cbn [snd].
  pose proof (hi_shown h Hi) as Hshown. rewrite Hfetch in Hshown.
  cbn [hk_messages set]. destruct (has_id h.(hk_messages) m'.(m_id)) eqn:Eid.
  - by apply (same_lists_inv h).
  - apply (same_lists_inv (h <| hk_messages := h.(hk_messages) ++ [m'] |>)); [done|].
    apply inv_show; [done|]. rewrite Hfetch. by apply list_ok_snoc.
Qed.

Lemma hook_ok_same h h' :
  same_lists h h' -> h'.(hk_messagesRef) = h.(hk_messagesRef) ->
  h'.(hk_hasNewerMessagesRef) = h.(hk_hasNewerMessagesRef) ->
  h'.(hk_hasNewerMessages) = h.(hk_hasNewerMessages) -> hook_ok h -> hook_ok h'.
Proof.
  intros Hs E1 E2 E3 [Hi Hr Hn]. split; [by eapply same_lists_inv| |congruence].
  destruct Hs as (_&_&_&E&_). congruence.
Qed.

Lemma observe_inv h m : hook_ok h -> hook_inv (observeMessage h m).2.
Proof.
  intros Hok. unfold observeMessage.
  destruct (applyPendingAck h.(hk_pendingAcks) m) as [m' p]. cbn [fst] in *.
  assert (Hok' : hook_ok (h <| hk_pendingAcks := p |>)) by (by apply (hook_ok_same h)).
  destruct (isActiveConversationMessage _ m') eqn:Ea.
  - destruct (hk_hasNewerMessagesRef _); [by destruct Hok'|].
    pose proof (append_active_inv _ m' Hok' Ea) as Hi.
    by destruct (appendActiveMessageIfNew _ m') as [added h'].
  - pose proof (lists_addMessage h.(hk_cache) m'.(m_conversation_key) m' (hi_cache h (ho_inv h Hok))
      (reflexivity _)) as Hc.
    cbn [hk_cache set]. destruct (cache_addMessage _ _ m') as [added c]. cbn [snd] in *.
    apply inv_cache; [apply Hok'|done].
Qed.

Lemma shown_ack id ms i a : shown id ms -> shown id (ack_first ms i a).
Proof. destruct id; [apply ack_first_ok|]. by intros ->. Qed.

Lemma receiveAck_inv h i a : hook_inv h -> hook_inv (receiveMessageAck h i a).
Proof.
  intros Hi. unfold receiveMessageAck. apply inv_cache.
  - unfold updateMessageAck. destruct (negb _); [by apply (same_lists_inv h)|].
    cbn [hk_messages set]. destruct (has_id h.(hk_messages) i); [|by apply (same_lists_inv h)].
    apply (same_lists_inv (h <| hk_messages := ack_first h.(hk_messages) i a |>)); [done|].
    apply inv_show; [done|]. apply shown_ack, Hi.
  - apply lists_updateAck. unfold updateMessageAck. destruct (negb _); [apply Hi|].
    cbn [hk_messages set]. destruct (has_id _ _); apply Hi.
Qed.

Lemma removeMessage_inv h i : hook_inv h -> hook_inv (removeMessage h i).
Proof.
  intros Hi. unfold removeMessage. apply inv_cache; [|apply lists_removeMessage, Hi].
  apply inv_show; [done|]. pose proof (hi_shown h Hi) as Hs.
  destruct (hk_fetchingConversationId h); [by apply list_ok_filter|]. simpl in *. by rewrite Hs.
Qed.

(** ** The switch of conversation *)

(** Before the effect: the list still is the one of the conversation that is left. *)
Record leaving (h : Hook) : Prop := {
  lv_prev : h.(hk_prevConversationId) = h.(hk_fetchingConversationId);
  lv_shown : shown h.(hk_fetchingConversationId) h.(hk_messages);
  lv_cache : cache_lists h.(hk_cache);
  lv_ref : h.(hk_messagesRef) = h.(hk_messages);
}.

Lemma abort_all_frame h :
  (abort_all h).(hk_activeConversation) = h.(hk_activeConversation)
  /\ (abort_all h).(hk_fetchingConversationId) = h.(hk_fetchingConversationId)
  /\ (abort_all h).(hk_prevConversationId) = h.(hk_prevConversationId)
  /\ (abort_all h).(hk_messages) = h.(hk_messages)
  /\ (abort_all h).(hk_messagesRef) = h.(hk_messagesRef)
  /\ (abort_all h).(hk_cache) = h.(hk_cache).
Proof.
  unfold abort_all.
  destruct h.(hk_abortController) eqn:E1, h.(hk_olderAbortController) eqn:E2,
    h.(hk_newerAbortController) eqn:E3; cbn; rewrite ?E2; cbn; rewrite ?E3; done.
Qed.

Lemma abort_all_leaving h : leaving h -> leaving (abort_all h).
Proof.
  intros [H1 H2 H3 H4]. destruct (abort_all_frame h) as (_ & E1 & E2 & E3 & E4 & E5).
  constructor; rewrite ?E1, ?E2, ?E3, ?E4, ?E5; done.
Qed.

(** What the rest of the effect relies on: it clears or replaces the list. *)
Record entering (h : Hook) : Prop := {
  en_fetching : h.(hk_fetchingConversationId) = cv_id <$> h.(hk_activeConversation);
  en_prev : h.(hk_prevConversationId) = cv_id <$> h.(hk_activeConversation);
  en_cache : cache_lists h.(hk_cache);
}.

Lemma entering_show h h' ms :
  entering h -> shown h.(hk_fetchingConversationId) ms ->
  same_lists (h <| hk_messages := ms |>) h' ->
  hook_inv h'.
Proof. intros [H1 H2 H3] Hs Hl. eapply same_lists_inv; [exact Hl|]. by constructor. Qed.

Lemma entering_clear h h' :
  entering h -> same_lists (h <| hk_messages := [] |>) h' -> hook_inv h'.
Proof.
  intros [H1 H2 H3] Hl. eapply same_lists_inv; [exact Hl|].
  constructor; [done|done|apply shown_nil|done].
Qed.

Lemma enter_inv h c :
  entering h -> h.(hk_activeConversation) = Some c -> isMessageConversation (Some c) = true ->
  hook_inv (enter_conversation h c).
Proof.
  intros He Ha Hm. unfold enter_conversation, new_controller.
  set (h1 := (h <| hk_controllers := _ |>) <| hk_abortController := _ |>).
  assert (He1 : entering h1) by (by destruct He).
  destruct (truthy_id _); [by apply (entering_clear h1)|].
  pose proof (lists_cache_get h1.(hk_cache) c.(cv_id) (en_cache h1 He1)) as Hc.
  assert (Hget : forall e, (cache_get h1.(hk_cache) c.(cv_id)).1 = Some e ->
            list_ok c.(cv_id) e.(ce_messages)).
  { unfold cache_get. destruct (om_get _ _) as [ie|] eqn:E; [|done]. cbn.
    intros e <-%(inj Some). exact (lists_get _ _ _ (en_cache h1 He1) E). }
  destruct (cache_get _ _) as [[e|] c']; cbn [fst snd] in *.
  - apply (entering_show (h1 <| hk_cache := c' |>) _ e.(ce_messages)); [by destruct He1| |done].
    cbn. rewrite (en_fetching h He), Ha. by apply Hget.
  - unfold fetchLatestMessages.
    change (hk_activeConversation (h1 <| hk_cache := c' |>)) with h.(hk_activeConversation).
    rewrite Ha, Hm.
    apply (entering_clear (h1 <| hk_cache := c' |>)); [by destruct He1|done].
Qed.

Lemma hand_to_cache_lists h prev changed :
  cache_lists h.(hk_cache) -> shown prev h.(hk_messagesRef) ->
  cache_lists (hand_to_cache h prev changed).(hk_cache).
Proof.
  intros Hc Hs. unfold hand_to_cache. destruct prev as [[|u id]|]; [done| |done].
  destruct (_ && _ && _); [|done]. by apply lists_cache_set.
Qed.

Lemma hand_to_cache_frame h prev changed :
  (hand_to_cache h prev changed).(hk_activeConversation) = h.(hk_activeConversation)
  /\ (hand_to_cache h prev changed).(hk_fetchingConversationId) = h.(hk_fetchingConversationId)
  /\ (hand_to_cache h prev changed).(hk_prevConversationId) = h.(hk_prevConversationId).
Proof.
  unfold hand_to_cache. destruct prev as [[|u id]|]; [done| |done]. by destruct (_ && _ && _).
Qed.

Lemma conversation_effect_inv h : leaving h -> hook_inv (conversation_effect h).
Proof.
  intros Hl. unfold conversation_effect. apply abort_all_leaving in Hl.
  set (g := abort_all h) in *. destruct Hl as [H1 H2 H3 H4].
  set (changed := negb (_ ≟ _)).
  set (g1 := g <| hk_fetchingConversationId := _ |> <| hk_prevConversationId := _ |>
               <| hk_prevReloadVersion := _ |> <| hk_latestReconcileRequestId := _ |>
               <| hk_pendingReconnectReconcile := _ |>).
  destruct (negb changed && _ && _) eqn:Estay.
  - to_prop. unfold changed in *. to_prop. constructor; [done|done| |done..].
    change (shown (cv_id <$> g.(hk_activeConversation)) g.(hk_messages)). congruence.
  - set (g2 := g1 <| hk_loadingOlder := _ |> <| hk_loadingOlderRef := _ |>
                  <| hk_loadingNewer := _ |>).
    set (g3 := if changed then g2 <| hk_hasNewerMessages := false |> else g2).
    destruct (hand_to_cache_frame g3 g.(hk_prevConversationId) changed) as (F1 & F2 & F3).
    pose proof (hand_to_cache_lists g3 g.(hk_prevConversationId) changed) as Hc.
    set (g4 := hand_to_cache _ _ _) in *.
    assert (He : entering g4).
    { constructor; [rewrite F1, F2|rewrite F1, F3|apply Hc]; unfold g3; destruct changed; try done;
        change (shown g.(hk_prevConversationId) g.(hk_messagesRef)); by rewrite H1, H4. }
    destruct g4.(hk_activeConversation) as [c|] eqn:Ea; [|by apply (entering_clear g4)].
    destruct (isMessageConversation _) eqn:Em; [by apply enter_inv|by apply (entering_clear g4)].
Qed.

Lemma leaving_commit h : leaving h -> leaving (commit h).
Proof. by intros [H1 H2 H3 H4]. Qed.

Lemma hook_ok_leaving h : hook_ok h -> leaving h.
Proof. intros [[H1 H2 H3 H4] Hr _]. constructor; congruence || done. Qed.

(** ** Every event *)

(** What the environment guarantees: a reply answers a request in flight, with messages
    of that request's conversation, each once; a rename only goes to the conversation the old
    one's messages belong to. *)
Definition event_ok (h : Hook) (e : Event) : Prop :=
  match e with
  | EvReply rq reply =>
    rq ∈ h.(hk_inFlight)
    /\ forall r, reply = Some r ->
         Forall (row_ok rq.(rq_conversation).(cv_id)) r.(rs_messages) /\ NoDup (m_id <$> r.(rs_messages))
  | EvRename o n => forall k, belongs o k -> belongs n k
  | _ => True
  end.

(** A page asked after the newest message brings no message that is displayed, unless the
    deduplication set has its content. *)
Definition fresh_event (h : Hook) (e : Event) : Prop :=
  match e with
  | EvReply rq (Some r) =>
    rq.(rq_then) = KNewer -> fresh_page h.(hk_messages) r.(rs_messages) h.(hk_seenMessageContent)
  | _ => True
  end.

Inductive hook_step : Hook -> Hook -> Prop :=
| hook_event h e : event_ok h e -> hook_step h (handle h e).

Lemma receive_inv h rq reply :
  hook_ok h ->
  (forall r, reply = Some r -> list_ok rq.(rq_conversation).(cv_id) r.(rs_messages)) ->
  (fresh -> fresh_event h (EvReply rq reply)) ->
  hook_inv (receive h rq reply).
Proof.
  intros Hok Hreply Hfresh. unfold receive.
  set (h1 := h <| hk_inFlight := _ |>).
  assert (Hok1 : hook_ok h1) by (by apply (hook_ok_same h)).
  match goal with |- context [if ?b then None else reply] => set (reply' := if b then None else reply) end.
  assert (Hsub : forall r, reply' = Some r -> reply = Some r).
  { unfold reply'. intros r. destruct (rq_signal rq); [destruct (bool_decide _)|]; congruence. }
  assert (Hreply' : forall r, reply' = Some r -> list_ok rq.(rq_conversation).(cv_id) r.(rs_messages)) by auto.
  destruct rq.(rq_then) eqn:Ek; auto using fetchLatest_then_inv, reconcile_then_inv,
    fetchOlder_then_inv, around_then_inv.
  apply fetchNewer_then_inv; [done|done|]. intros Hf r Hr%Hsub. specialize (Hfresh Hf). rewrite Hr in Hfresh.
  by apply Hfresh.
Qed.

Lemma same_conversation (a b : option Conversation) :
  same_deps a b = true -> cv_id <$> a = cv_id <$> b.
Proof. unfold same_deps. intros. by to_prop. Qed.

Lemma render_ok h active target : hook_ok h -> hook_ok (render h active target).
Proof.
  intros Hok. unfold render.
  destruct (negb (same_deps _ _)) eqn:E1; cbn [orb];
    [|destruct (negb (_ ≟ _)) eqn:E2; cbn [orb]].
  1, 2: apply commit_ok, conversation_effect_inv; by destruct (hook_ok_leaving h Hok).
  apply commit_ok. destruct Hok as [[H1 H2 H3 H4] Hr Hn].
  to_prop. apply same_conversation in E1. by constructor; cbn; rewrite <- ?E1.
Qed.

Lemma handle_ok h e :
  event_ok h e -> (fresh -> fresh_event h e) -> hook_ok h -> hook_ok (handle h e).
Proof.
  intros He Hfresh Hok. pose proof (ho_inv h Hok) as Hi. destruct e; simpl in He.
  1: by apply render_ok.
  4: { unfold handle. cbv zeta. pose proof (commit_ok _ (reload_inv h Hi)) as Hok'.
       destruct (_ =? _); [done|]. by apply commit_ok, conversation_effect_inv, hook_ok_leaving. }
  all: apply commit_ok.
  - exact (same_lists_inv _ _ (fetchOlder_same h) Hi).
  - exact (same_lists_inv _ _ (fetchNewer_same h) Hi).
  - by apply jumpToBottom_inv.
  - exact (same_lists_inv _ _ (reconnect_same h) Hi).
  - by apply observe_inv.
  - by apply receiveAck_inv.
  - apply inv_cache; [done|]. apply lists_rename; [done|apply Hi].
  - apply inv_cache; [done|]. apply lists_delete, Hi.
  - by apply removeMessage_inv.
  - apply inv_cache; [done|constructor].
  - by apply (same_lists_inv h).
  - destruct He as [_ He]. apply receive_inv; [done| |done].
    intros r [? ?]%He. by split.
Qed.

Lemma initial_ok c : cache_lists c -> hook_ok (initial_hook c).
Proof. intros Hc. by repeat split. Qed.

End hook.

(** ** Reachable states *)

Lemma cache_lists_weaken belongs (fresh : Prop) c :
  cache_lists belongs True c -> cache_lists belongs fresh c.
Proof. intros Hc. eapply Forall_impl; [exact Hc|]. intros p [? Hn]. split; auto. Qed.

#[export] Instance fresh_event_dec h e : Decision (fresh_event h e).
Proof. destruct e as [| | | | | | | | | | | | |rq [r|]]; unfold fresh_event, fresh_page; apply _. Defined.

(** A page asked after the newest message repeats a displayed message: the deduplication set
    lacks its content. *)
Definition repeats (h : Hook) (rq : Request) (r : Response) : Prop :=
  rq.(rq_then) = KNewer
  /\ exists m, m ∈ r.(rs_messages) /\ m.(m_id) ∈ m_id <$> h.(hk_messages)
               /\ getMessageContentKey m ∉ h.(hk_seenMessageContent).

Inductive repeating_page (belongs : jstr -> jstr -> Prop) : Hook -> Hook -> Prop :=
| repeating_page_event h rq r :
    event_ok belongs h (EvReply rq (Some r)) -> repeats h rq r ->
    repeating_page belongs h (handle h (EvReply rq (Some r))).

Lemma not_fresh h e :
  ~ fresh_event h e -> exists rq r, e = EvReply rq (Some r) /\ repeats h rq r.
Proof.
  intros Hf. destruct e as [| | | | | | | | | | | | |rq [r|]]; try by destruct Hf.
  cbn [fresh_event] in Hf. destruct (decide (rq.(rq_then) = KNewer)) as [E|E]; [|by destruct Hf].
  assert (Hx : ~ fresh_page h.(hk_messages) r.(rs_messages) h.(hk_seenMessageContent)) by auto.
  apply not_Forall_Exists in Hx; [|apply _]. apply Exists_exists in Hx as (m & Hm & Hx).
  exists rq, r. split; [done|]. split; [done|]. exists m. split; [done|].
  destruct (decide (m.(m_id) ∈ m_id <$> h.(hk_messages))); [|by destruct Hx].
  split; [done|]. by intros ?; apply Hx.
Qed.

Lemma reachable_ok belongs c h :
  Reflexive belongs -> cache_lists belongs False c ->
  rtc (hook_step belongs) (initial_hook c) h -> hook_ok belongs False h.
Proof.
  intros Hrefl Hc%initial_ok Hr. induction Hr as [|h h1 h2 [g e He] Hr IH]; [done|].
  by apply IH, handle_ok.
Qed.

Lemma reachable_once belongs c h :
  Reflexive belongs -> cache_lists belongs True c ->
  rtc (hook_step belongs) (initial_hook c) h ->
  hook_ok belongs True h
  \/ exists a b, rtc (hook_step belongs) (initial_hook c) a /\ repeating_page belongs a b
                 /\ rtc (hook_step belongs) b h.
Proof.
  intros Hrefl Hc%initial_ok Hr. apply (rtc_unless _ _ _ _ _ _ Hc); [| |exact Hr].
  - intros a b _ Hab Ha. revert Ha. destruct Hab as [g e He]. intros Hg.
    destruct (decide (fresh_event g e)) as [Hf|Hf]; [left; by apply handle_ok|].
    right. destruct (not_fresh g e Hf) as (rq & r & -> & ?). by constructor.
  - by right.
Qed.

(** ** The pager *)

Definition page_le (a b : Message) : Prop := page_before b a = false.

Lemma page_le_trans a b c : page_le a b -> page_le b c -> page_le a c.
Proof. unfold page_le, page_before. intros. split_cmp; simpl in *; (done || lia). Qed.

Lemma page_le_total a b : page_before a b = true -> page_le a b.
Proof. unfold page_le, page_before. split_cmp; simpl; (done || lia). Qed.

Lemma page_le_refl a : page_le a a.
Proof. unfold page_le, page_before. split_cmp; simpl; (done || lia). Qed.

Section pick.
(** The two reducers keep the best message so far. *)
Context (R : Message -> Message -> Prop) (better : Message -> Message -> bool).
Context (Hrefl : forall a, R a a) (Htrans : forall a b c, R a b -> R b c -> R a c).
Context (Hyes : forall a b, better a b = true -> R a b).
Context (Hno : forall a b, better a b = false -> R b a).

Definition pick (acc : option Message) (msg : Message) : option Message :=
  match acc with
  | None => Some msg
  | Some o => if better msg o then Some msg else Some o
  end.

Lemma pick_from ms o :
  exists x, foldl pick (Some o) ms = Some x /\ x ∈ o :: ms /\ Forall (R x) (o :: ms).
Proof.
  revert o. induction ms as [|m ms IH]; intros o.
  - exists o. split; [done|]. split; [left|]. by constructor.
  - cbn [foldl pick]. destruct (better m o) eqn:E.
    + destruct (IH m) as (x & Hx & Hin & Hall). exists x. split; [done|]. split; [set_solver|].
      inversion Hall; subst. constructor; [|done]. eauto.
    + destruct (IH o) as (x & Hx & Hin & Hall). exists x. split; [done|].
      split; [set_solver|]. inversion Hall; subst. constructor; [done|]. constructor; [|done]. eauto.
Qed.

Lemma pick_best ms :
  ms <> [] -> exists x, foldl pick None ms = Some x /\ x ∈ ms /\ Forall (R x) ms.
Proof. destruct ms as [|m ms]; [done|]. intros _. apply (pick_from ms m). Qed.
End pick.

Lemma oldest_message_spec ms :
  ms <> [] -> exists x, oldest_message ms = Some x /\ x ∈ ms /\ Forall (page_le x) ms.
Proof.
  apply (pick_best page_le (fun m o => page_before m o)); eauto using page_le_refl, page_le_trans, page_le_total.
Qed.

Lemma newest_message_spec ms :
  ms <> [] -> exists x, newest_message ms = Some x /\ x ∈ ms /\ Forall (fun m => page_le m x) ms.
Proof.
  apply (pick_best (fun a b => page_le b a) (fun m o => page_before o m));
    eauto using page_le_refl, page_le_trans, page_le_total.
Qed.

(** ** Properties *)

(** A contact's conversation, a message of it, and the events of a run. *)
Definition example_conversation (id : jstr) : Conversation :=
  {| cv_type := CtContact; cv_id := id; cv_name := id;
     cv_mapFocusKey := None; cv_locateKey := None |}.

Definition conversation_message (id : jstr) (acked : Z) : Message :=
  message_with {| m_id := 1; m_type := PRIV; m_conversation_key := id; m_text := js "hi";
       m_sender_timestamp := Some 10; m_received_at := 11; m_paths := None; m_txt_type := 0;
       m_signature := None; m_sender_key := None; m_outgoing := true; m_acked := 0;
       m_sender_name := None; m_channel_name := None; m_packet_id := None;
       m_transport_code := None; m_region := None; m_packet_hash := None;
       m_observer_reach_eligible := None |} acked None None None None.

Definition page_of (ms : list Message) : option Response :=
  Some {| rs_messages := ms; rs_has_older := false; rs_has_newer := false |}.

Definition latest_request (id : jstr) (k : nat) : Request :=
  {| rq_then := KLatest true; rq_conversation := example_conversation id; rq_type := PRIV;
     rq_cursor := None; rq_signal := Some k |}.

Definition reconcile_request (id : jstr) (n : Z) (k : nat) : Request :=
  {| rq_then := KReconcile n; rq_conversation := example_conversation id; rq_type := PRIV;
     rq_cursor := None; rq_signal := Some k |}.

Definition run (events : list Event) : Hook := foldl handle (initial_hook []) events.

(** C1: whatever the order of renders, socket events, user actions and replies, and whether
    React runs an updater at the call or in the next render, the displayed list holds only
    messages of the active conversation, and a cached list holds only messages of the
    conversation it is cached under. A message is displayed once, with one exception: a page
    asked after the newest message brought a displayed message whose content the deduplication
    set lacked (the content of a waiting older page never entered it, or the server moved the
    message to the contact's full key). Asked of the events: a reply holds messages of the
    conversation it was asked for (its key, and the keys its messages had before), each once,
    and a contact is renamed to one its messages belong to; each event is followed by a render. *)
Theorem hook_conversation_isolation (belongs : jstr -> jstr -> Prop)
    (c : cache) (h : Hook) (Hrefl : Reflexive belongs) (Hcache : cache_lists belongs True c)
    (Hrun : rtc (hook_step belongs) (initial_hook c) h) :
  (forall m, m ∈ h.(hk_messages) ->
     exists conv, h.(hk_activeConversation) = Some conv
                  /\ belongs conv.(cv_id) m.(m_conversation_key))
  /\ (forall id e m, om_get h.(hk_cache) id = Some e -> m ∈ e.(ie_messages) ->
       belongs id m.(m_conversation_key))
  /\ (NoDup (m_id <$> h.(hk_messages))
      \/ exists h1 h2, rtc (hook_step belongs) (initial_hook c) h1 /\ repeating_page belongs h1 h2
                       /\ rtc (hook_step belongs) h2 h).
Proof.
  destruct (reachable_ok belongs c h Hrefl (cache_lists_weaken _ _ _ Hcache) Hrun) as [[H1 H2 H3 H4] _ _].
  rewrite H1 in H3. split; [|split].
  - intros m Hm. destruct h.(hk_activeConversation) as [conv|].
    + exists conv. split; [done|]. destruct H3 as [Hrows _]. by eapply Forall_forall in Hrows.
    + simpl in H3. rewrite H3 in Hm. by apply not_elem_of_nil in Hm.
  - intros id e m He Hm. destruct (lists_get _ _ _ _ _ H4 He) as [Hrows _].
    by eapply Forall_forall in Hrows.
  - destruct (reachable_once belongs c h Hrefl Hcache Hrun) as [[[E _ Hs _] _ _]|]; [left|by right].
    rewrite E in Hs. destruct h.(hk_activeConversation); [by apply Hs|]. simpl in Hs. rewrite Hs. constructor.
Qed.

Lemma hook_conversation_isolation_witness :
  let h := run [EvRender (Some (example_conversation (js "A"))) None;
                EvReply (latest_request (js "A") 0) (page_of [conversation_message (js "A") 0])] in
  hk_messages h = [conversation_message (js "A") 0]
  /\ forall m, m ∈ h.(hk_messages) ->
       exists conv, h.(hk_activeConversation) = Some conv /\ conv.(cv_id) = m.(m_conversation_key).
Proof.
  intros h. split; [vm_compute; reflexivity|].
  refine (proj1 (hook_conversation_isolation eq [] h _ (Forall_nil_2 _) _)).
  unfold h, run. cbn [foldl].
  refine (rtc_l _ _ _ _ (hook_event _ _ (EvRender _ _) I) _).
  refine (rtc_once _ _ (hook_event _ _ (EvReply _ _) _)).
  split; [vm_compute; left|]. intros r <-%(inj Some). split.
  - repeat constructor.
  - cbn. apply NoDup_singleton.
Defined.

Definition sent_message (id : jstr) (i : Z) (text : jstr) : Message :=
  {| m_id := i; m_type := PRIV; m_conversation_key := id; m_text := text;
     m_sender_timestamp := Some 10; m_received_at := 10 + i; m_paths := None; m_txt_type := 0;
     m_signature := None; m_sender_key := None; m_outgoing := false; m_acked := 0;
     m_sender_name := None; m_channel_name := None; m_packet_id := None; m_transport_code := None;
     m_region := None; m_packet_hash := None; m_observer_reach_eligible := None |}.

(** A jump to a message, a page of older messages, and the echo of one of these under a new id. *)
Definition older_page_run (queued : bool) : Hook := run
  [EvRender (Some (example_conversation (js "A"))) (Some 2);
   EvReply {| rq_then := KAround; rq_conversation := example_conversation (js "A"); rq_type := PRIV;
              rq_cursor := Some (2, 0); rq_signal := Some 0%nat |}
     (Some {| rs_messages := [sent_message (js "A") 2 (js "two")]; rs_has_older := true;
              rs_has_newer := false |});
   EvFetchOlder; EvQueued queued;
   EvReply {| rq_then := KOlder; rq_conversation := example_conversation (js "A"); rq_type := PRIV;
              rq_cursor := Some (12, 2); rq_signal := Some 1%nat |}
     (page_of [sent_message (js "A") 1 (js "one")]);
   EvMessage (sent_message (js "A") 3 (js "one"))].

(** When React has work queued, the content of an older page does not enter the deduplication
    set: an echo of it is displayed again, and is dropped otherwise. *)
Theorem queued_older_page_repeats :
  m_id <$> (older_page_run true).(hk_messages) = [2; 1; 3]
  /\ m_id <$> (older_page_run false).(hk_messages) = [2; 1].
Proof. split; vm_compute; reflexivity. Qed.

(** A reply that comes after the conversation was left, or whose request was aborted,
    changes neither the displayed list, the deduplication set, the buffered ACKs, the cache
    nor the page flags: it can only clear the loading flags. *)
Theorem stale_reply_dropped (h : Hook) (rq : Request) (reply : option Response)
    (Hstale : h.(hk_fetchingConversationId) <> Some rq.(rq_conversation).(cv_id)
              \/ exists k, rq.(rq_signal) = Some k /\ k ∈ h.(hk_aborted)) :
  let h' := receive h rq reply in
  h'.(hk_messages) = h.(hk_messages)
  /\ h'.(hk_seenMessageContent) = h.(hk_seenMessageContent)
  /\ h'.(hk_pendingAcks) = h.(hk_pendingAcks)
  /\ h'.(hk_cache) = h.(hk_cache)
  /\ h'.(hk_hasOlderMessages) = h.(hk_hasOlderMessages)
  /\ h'.(hk_hasNewerMessages) = h.(hk_hasNewerMessages).
Proof.
  cbv zeta. unfold receive. cbn [hk_aborted set].
  set (h1 := h <| hk_inFlight := _ |>).
  match goal with |- context [if ?b then None else reply] => set (aborted := b) end.
  assert (Hdrop : (if aborted then None else reply) = None
                  \/ negb (h1.(hk_fetchingConversationId) ≟ Some rq.(rq_conversation).(cv_id)) = true).
  { destruct Hstale as [Hs|(k & Hk & Hin)].
    - right. by rewrite bool_decide_eq_false_2.
    - left. unfold aborted. by rewrite Hk, bool_decide_eq_true_2. }
  destruct (rq_then rq) as [[]| | | |];
    unfold fetchLatestMessages_then, reconcileFromBackend_then, fetchOlderMessages_then,
      fetchNewerMessages_then, around_then;
    destruct Hdrop as [->|E]; [done| |done| |done| |done| |done| |done|];
    destruct (if aborted then None else reply); rewrite ?E; done.
Qed.

Lemma stale_reply_dropped_witness :
  hk_messages (receive (run [EvRender (Some (example_conversation (js "A"))) None;
                             EvRender (Some (example_conversation (js "B"))) None])
                 (latest_request (js "A") 0) (page_of [conversation_message (js "A") 0])) = [].
Proof.
  refine (eq_trans (proj1 (stale_reply_dropped _ _ _ _)) _).
  - left. vm_compute. discriminate.
  - vm_compute. reflexivity.
Defined.

Lemma fetchOlder_locked h : h.(hk_loadingOlderRef) = true -> fetchOlderMessages h = h.
Proof. intros E. unfold fetchOlderMessages. by rewrite E, orb_true_r. Qed.

Lemma fetchNewer_locked h : h.(hk_loadingNewerRef) = true -> fetchNewerMessages h = h.
Proof. intros E. unfold fetchNewerMessages. by rewrite E, orb_true_r. Qed.

Definition page_request (k : Continuation) (h : Hook) (c : Conversation) (x : Message) : Request :=
  {| rq_then := k; rq_conversation := c; rq_type := wire_type c;
     rq_cursor := Some (cursor_of x); rq_signal := Some h.(hk_controllers) |}.

Lemma fetchOlder_eq h c x :
  h.(hk_activeConversation) = Some c -> isMessageConversation (Some c) = true ->
  h.(hk_loadingOlderRef) = false -> h.(hk_hasOlderMessagesRef) = true ->
  oldest_message h.(hk_messagesRef) = Some x ->
  fetchOlderMessages h =
    send ((h <| hk_loadingOlderRef := true |> <| hk_loadingOlder := true |>)
          <| hk_controllers := S h.(hk_controllers) |>
          <| hk_olderAbortController := Some h.(hk_controllers) |>) (page_request KOlder h c x).
Proof. intros Ha Hc Hl Hh Hx. unfold fetchOlderMessages. by rewrite Ha, Hc, Hl, Hh, Hx. Qed.

Lemma fetchNewer_eq h c x :
  h.(hk_activeConversation) = Some c -> isMessageConversation (Some c) = true ->
  h.(hk_loadingNewerRef) = false -> h.(hk_hasNewerMessagesRef) = true ->
  newest_message h.(hk_messagesRef) = Some x ->
  fetchNewerMessages h =
    send ((h <| hk_loadingNewerRef := true |> <| hk_loadingNewer := true |>)
          <| hk_controllers := S h.(hk_controllers) |>
          <| hk_newerAbortController := Some h.(hk_controllers) |>) (page_request KNewer h c x).
Proof. intros Ha Hc Hl Hh Hx. unfold fetchNewerMessages. by rewrite Ha, Hc, Hl, Hh, Hx. Qed.

(** The pager asks for the page before the oldest loaded message (by reception, then by
    id), or after the newest, and asks once: until the reply, another call is a no-op. *)
Theorem pager_requests_adjacent_page (h : Hook) (c : Conversation)
    (Hactive : h.(hk_activeConversation) = Some c) (Hconv : isMessageConversation (Some c) = true)
    (Hmessages : h.(hk_messagesRef) <> []) :
  (h.(hk_loadingOlderRef) = false -> h.(hk_hasOlderMessagesRef) = true ->
   exists x, x ∈ h.(hk_messagesRef) /\ Forall (page_le x) h.(hk_messagesRef)
     /\ (fetchOlderMessages h).(hk_inFlight) = h.(hk_inFlight) ++
          [page_request KOlder h c x]
     /\ fetchOlderMessages (fetchOlderMessages h) = fetchOlderMessages h)
  /\ (h.(hk_loadingNewerRef) = false -> h.(hk_hasNewerMessagesRef) = true ->
   exists x, x ∈ h.(hk_messagesRef) /\ Forall (fun m => page_le m x) h.(hk_messagesRef)
     /\ (fetchNewerMessages h).(hk_inFlight) = h.(hk_inFlight) ++
          [page_request KNewer h c x]
     /\ fetchNewerMessages (fetchNewerMessages h) = fetchNewerMessages h).
Proof.
  split; intros Hl Hh.
  - destruct (oldest_message_spec _ Hmessages) as (x & Hx & Hin & Hall). exists x.
    split; [done|]. split; [done|]. rewrite (fetchOlder_eq h c x) by done.
    split; [done|]. by apply fetchOlder_locked.
  - destruct (newest_message_spec _ Hmessages) as (x & Hx & Hin & Hall). exists x.
    split; [done|]. split; [done|]. rewrite (fetchNewer_eq h c x) by done.
    split; [done|]. by apply fetchNewer_locked.
Qed.

Lemma pager_requests_adjacent_page_witness :
  let h := run [EvRender (Some (example_conversation (js "A"))) None;
                EvReply (latest_request (js "A") 0) (page_of [conversation_message (js "A") 0])] in
  let h := h <| hk_hasOlderMessagesRef := true |> in
  fetchOlderMessages (fetchOlderMessages h) = fetchOlderMessages h.
Proof.
  intros h0 h. destruct (pager_requests_adjacent_page h (example_conversation (js "A"))) as [Ho _].
  - reflexivity.
  - reflexivity.
  - vm_compute. discriminate.
  - destruct Ho as (x & _ & _ & _ & E); [reflexivity|reflexivity|]. exact E.
Defined.

Definition reentered : Hook := run
  [EvRender (Some (example_conversation (js "A"))) None;
   EvReply (latest_request (js "A") 0) (page_of [conversation_message (js "A") 0]);
   EvReconnect;
   EvRender (Some (example_conversation (js "B"))) None;
   EvRender (Some (example_conversation (js "A"))) None;
   EvReply (reconcile_request (js "A") 1 3) (page_of [conversation_message (js "A") 1])].

(** The request id does not tell a late reconciliation from the current one. It restarts
    at 0 on every switch and the reconnect's request is never aborted, so leaving and
    re-entering a conversation gives two live requests with the same id: the late reply is
    taken and puts back an older acknowledgement count. *)
Theorem reconcile_request_id_reused :
  m_acked <$> reentered.(hk_messages) = [1]
  /\ reconcile_request (js "A") 1 1 ∈ reentered.(hk_inFlight)
  /\ m_acked <$> (handle reentered (EvReply (reconcile_request (js "A") 1 1)
                     (page_of [conversation_message (js "A") 0]))).(hk_messages) = [0].
Proof. refine (decide_by_vm _ _). vm_compute. reflexivity. Qed.

(** What a refused page of older messages leaves. *)
Lemma refused_page h c k :
  exists g, fetchOlderMessages_then h c k None = g
    /\ g.(hk_activeConversation) = h.(hk_activeConversation) /\ g.(hk_loadingOlder) = false
    /\ g.(hk_hasOlderMessages) = h.(hk_hasOlderMessages) /\ g.(hk_messages) = h.(hk_messages).
Proof. eexists. repeat split. Qed.

Lemma unlocked_pager g c x :
  g.(hk_activeConversation) = Some c -> isMessageConversation (Some c) = true ->
  g.(hk_loadingOlder) = false -> g.(hk_hasOlderMessages) = true ->
  oldest_message g.(hk_messages) = Some x ->
  len (fetchOlderMessages (commit g)).(hk_inFlight) = len (commit g).(hk_inFlight) + 1.
Proof.
  intros. rewrite (fetchOlder_eq (commit g) c x) by done. apply len_app.
Qed.

(** The reply to an aborted page of a conversation that was left unlocks the pager of
    the current one while that has a page in flight: a second request for the same page can
    be made. *)
Theorem aborted_page_unlocks_pager (h : Hook) (rq : Request) (reply : option Response) (k : nat)
    (Holder : rq.(rq_then) = KOlder) (Haborted : rq.(rq_signal) = Some k /\ k ∈ h.(hk_aborted))
    (Hcurrent : h.(hk_loadingOlderRef) = true)
    (Hactive : isMessageConversation h.(hk_activeConversation) = true)
    (Hhas : h.(hk_hasOlderMessages) = true) (Hrefs : h.(hk_messagesRef) = h.(hk_messages))
    (Hmessages : h.(hk_messages) <> []) :
  let h' := handle h (EvReply rq reply) in
  fetchOlderMessages h = h
  /\ len (fetchOlderMessages h').(hk_inFlight) = len h'.(hk_inFlight) + 1.
Proof.
  cbv zeta. split; [by apply fetchOlder_locked|].
  destruct Haborted as [Hk Hin]. cbn [handle]. unfold receive. rewrite Holder, Hk.
  cbn [hk_aborted set]. rewrite bool_decide_eq_true_2 by done.
  destruct (oldest_message_spec _ Hmessages) as (x & Hx & _).
  destruct h.(hk_activeConversation) as [c|] eqn:Ea; [|done].
  destruct (refused_page (h <| hk_inFlight := settle rq h.(hk_inFlight) |>) rq.(rq_conversation) (Some k))
    as (g & -> & E1 & E2 & E3 & E4).
  apply (unlocked_pager g c x); [by rewrite E1|done|done|by rewrite E3|by rewrite E4].
Qed.

Lemma aborted_page_unlocks_pager_witness :
  let old := {| rq_then := KOlder; rq_conversation := example_conversation (js "B");
                rq_type := PRIV; rq_cursor := None; rq_signal := Some 9%nat |} in
  let h := run [EvRender (Some (example_conversation (js "A"))) None;
                EvReply (latest_request (js "A") 0) (page_of [conversation_message (js "A") 0])] in
  let h := h <| hk_aborted := {[9%nat]} |> <| hk_hasOlderMessages := true |>
             <| hk_loadingOlderRef := true |> in
  len (fetchOlderMessages (handle h (EvReply old None))).(hk_inFlight) = 1.
Proof.
  intros old h0 h.
  refine (eq_trans (proj2 (aborted_page_unlocks_pager h old None 9%nat _ _ _ _ _ _ _)) _).
  - reflexivity.
  - split; [reflexivity|]. vm_compute. reflexivity.
  - reflexivity.
  - reflexivity.
  - reflexivity.
  - vm_compute. reflexivity.
  - vm_compute. discriminate.
  - vm_compute. reflexivity.
Defined.
