(* ===== verification/Visualizer.v ===== *)
(** The data layer of the packet visualizer: [utils/visualizerUtils.ts], [hashString] of
    [utils/contactAvatar.ts] and [normalizePacketTimestampMs] of
    [components/visualizer/shared.ts].

    [MeshCoreDecoder.decode] and the values of its [PayloadType] are a third-party
    package: the class [MeshDecoder]. [Date.now()] is the argument [now]. *)
From S2P Require Import Prelude JsString JsCollections JsNum Types.

(** ** The decoder package *)

(** The fields of [decoded.payload.decoded] the code casts to and reads; each payload
    type sets its own. *)
Record DecodedPayload := {
  dp_pathHashes : option (list jstr);
  dp_sourceHash : option jstr;
  dp_destinationHash : option jstr;
  dp_publicKey : option jstr;
  dp_decrypted_sender : option (option jstr);
  dp_senderPublicKey : option jstr;
}.

Record DecodedPacket := {
  dk_isValid : bool;
  dk_payloadType : Z;
  dk_routeType : Z;
  dk_pathHashSize : option Z;
  dk_messageHash : option jstr;
  dk_path : option (list jstr);
  dk_payload_decoded : option DecodedPayload;
}.

Class MeshDecoder := {
  (** [None]: the call throws. *)
  decode : jstr -> option DecodedPacket;
  PT_Request : Z;
  PT_Response : Z;
  PT_TextMessage : Z;
  PT_Ack : Z;
  PT_Advert : Z;
  PT_GroupText : Z;
  PT_AnonRequest : Z;
  PT_Trace : Z;
  (** [Utils.getPayloadTypeName] and [Utils.getRouteTypeName]. *)
  getPayloadTypeName : Z -> jstr;
  getRouteTypeName : Z -> jstr;
}.

(** ** Types *)

Inductive NodeType := NtSelf | NtRepeater | NtClient.
#[export] Instance NodeType_eq_dec : EqDecision NodeType.
Proof. solve_decision. Defined.

Record ParsedPacket := {
  pp_payloadType : Z;
  pp_messageHash : option jstr;
  pp_pathBytes : list jstr;
  pp_srcHash : option jstr;
  pp_dstHash : option jstr;
  pp_advertPubkey : option jstr;
  pp_groupTextSender : option jstr;
  pp_anonRequestPubkey : option jstr;
}.

Record TrafficObservation := {
  to_source : jstr;
  to_nextHop : option jstr;
  to_timestamp : Z;
}.

Record RepeaterTrafficData := {
  rt_hopKey : jstr;
  rt_observations : list TrafficObservation;
}.

Record PathStep := {
  ps_nodeId : option jstr;
  ps_markHiddenLinkWhenOmitted : bool;
  ps_hiddenLabel : option jstr;
}.

Definition MIN_OBSERVATIONS_TO_SPLIT : Z := 20.
Definition MAX_TRAFFIC_OBSERVATIONS : Z := 200.
Definition TRAFFIC_OBSERVATION_MAX_AGE_MS : Z := 30 * 60 * 1000.

(** ** Identifiers *)

Definition normalizeHopToken (hop : option jstr) : option jstr :=
  truthy (Some (toLowerCase (trim (default [] hop)))).

Definition buildAmbiguousRepeaterNodeId (hop : jstr) (nextHop : option jstr) : jstr :=
  match normalizeHopToken (Some hop) with
  | None => js "?"
  | Some hopKey =>
    match normalizeHopToken nextHop with
    | Some nextHopKey => js "?" ++ hopKey ++ js ":>" ++ nextHopKey
    | None => js "?" ++ hopKey
    end
  end.

Definition buildAmbiguousRepeaterLabel (hop : jstr) (nextHop : option jstr) : jstr :=
  match truthy (toUpperCase <$> normalizeHopToken (Some hop)) with
  | None => js "?"
  | Some hopKey =>
    match truthy (toUpperCase <$> normalizeHopToken nextHop) with
    | Some nextHopKey => hopKey ++ js ":>" ++ nextHopKey
    | None => hopKey
    end
  end.

(** [[sourceId, targetId].sort().join('->')] *)
Definition buildLinkKey (sourceId targetId : jstr) : jstr :=
  join (js "->") (js_sort str_compare [sourceId; targetId]).

Arguments buildLinkKey : simpl never.

(** DJB2 on 32-bit integers. *)
Definition hash_step (hash char : Z) : Z := wrap32 (wrap32 (Z.shiftl hash 5) - hash + char).
Definition hashString (str : jstr) : Z := Z.abs (foldl hash_step 0 str).

(** ** Packets *)

Section decoder.
Context `{MeshDecoder}.

Definition parsePacket (hexData : jstr) : option ParsedPacket :=
  match decode hexData with
  | None => None
  | Some decoded =>
    if negb decoded.(dk_isValid) then None else
    let t := decoded.(dk_payloadType) in
    let payload := decoded.(dk_payload_decoded) in
    let tracePayload := if t =? PT_Trace then payload else None in
    let pathBytes :=
      match tracePayload ≫= dp_pathHashes with
      | Some hashes => hashes
      | None => default [] decoded.(dk_path)
      end in
    let is_text := t =? PT_TextMessage in
    let is_advert := negb is_text && (t =? PT_Advert) in
    let is_group := negb is_text && negb is_advert && (t =? PT_GroupText) in
    let is_anon := negb is_text && negb is_advert && negb is_group && (t =? PT_AnonRequest) in
    let field (b : bool) (f : DecodedPayload -> option jstr) :=
      if b then truthy (payload ≫= f) else None in
    Some {|
      pp_payloadType := t;
      pp_messageHash := truthy decoded.(dk_messageHash);
      pp_pathBytes := pathBytes;
      pp_srcHash := field is_text dp_sourceHash;
      pp_dstHash := field is_text dp_destinationHash;
      pp_advertPubkey := field is_advert dp_publicKey;
      pp_groupTextSender := field is_group (fun p => p.(dp_decrypted_sender) ≫= id);
      pp_anonRequestPubkey := field is_anon dp_senderPublicKey |}
  end.

Definition getPacketLabel (payloadType : Z) : jstr :=
  if payloadType =? PT_Advert then js "AD"
  else if payloadType =? PT_GroupText then js "GT"
  else if payloadType =? PT_TextMessage then js "DM"
  else if payloadType =? PT_Ack then js "ACK"
  else if payloadType =? PT_Trace then js "TR"
  else if (payloadType =? PT_Request) || (payloadType =? PT_AnonRequest) then js "RQ"
  else if payloadType =? PT_Response then js "RS"
  else js "?".

Definition generatePacketKey (parsed : ParsedPacket) (rawPacket : RawPacket) : jstr :=
  let contentHash :=
    slice (match truthy parsed.(pp_messageHash) with
           | Some h => h
           | None => padStart (toString_radix 16 (hashString rawPacket.(rp_data))) 8 48
           end) 0 8 in
  let t := parsed.(pp_payloadType) in
  match (if t =? PT_Advert then truthy parsed.(pp_advertPubkey) else None) with
  | Some k => js "ad:" ++ slice k 0 12
  | None =>
    if t =? PT_GroupText then
      let sender := match truthy parsed.(pp_groupTextSender) with
                    | Some s => s
                    | None => truthy (rawPacket.(rp_decrypted_info) ≫= di_sender) ?? js "?"
                    end in
      let channel := truthy (rawPacket.(rp_decrypted_info) ≫= di_channel_name) ?? js "?" in
      js "gt:" ++ channel ++ js ":" ++ sender ++ js ":" ++ contentHash
    else if t =? PT_TextMessage then
      js "dm:" ++ (truthy parsed.(pp_srcHash) ?? js "?") ++ js ":"
        ++ (truthy parsed.(pp_dstHash) ?? js "?") ++ js ":" ++ contentHash
    else match (if t =? PT_AnonRequest then truthy parsed.(pp_anonRequestPubkey) else None) with
         | Some k => js "rq:" ++ slice k 0 12 ++ js ":" ++ contentHash
         | None => js "other:" ++ contentHash
         end
  end.
End decoder.

Definition getNodeType (contact : option Contact) : NodeType :=
  match contact with
  | Some c => if c.(c_type) =? CONTACT_TYPE_REPEATER then NtRepeater else NtClient
  | None => NtClient
  end.

(** The time stamp of a packet, in milliseconds; values up to 10^12 are seconds. *)
Definition normalizePacketTimestampMs (now : Z) (timestamp : option Z) : Z :=
  match timestamp with
  | Some ts => if ts <=? 0 then now else if 1000000000000 <? ts then ts else ts * 1000
  | None => now
  end.

(** ** Paths *)

(** Keeps the first item and each one that differs from its predecessor in the array. *)
Fixpoint dedupe_after {A} `{EqDecision A} (prev : A) (arr : list A) : list A :=
  match arr with
  | [] => []
  | x :: rest => if decide (x = prev) then dedupe_after x rest else x :: dedupe_after x rest
  end.
Definition dedupeConsecutive {A} `{EqDecision A} (arr : list A) : list A :=
  match arr with [] => [] | x :: rest => x :: dedupe_after x rest end.

(** Appends a label that is not there yet. *)
Definition push_new (labels : list jstr) (label : jstr) : list jstr :=
  if bool_decide (label ∈ labels) then labels else labels ++ [label].

(** The variables of the loop of [compactPathSteps]. *)
Record CompactState := {
  cs_nodes : list jstr;
  cs_dashedLinkDetails : gmap jstr (list jstr);
  cs_pendingHiddenLink : bool;
  cs_pendingHiddenLabels : list jstr;
}.

Definition compact_step (s : CompactState) (step : PathStep) : CompactState :=
  match truthy step.(ps_nodeId) with
  | Some nodeId =>
    let previousNodeId := last s.(cs_nodes) in
    let dashed :=
      match previousNodeId with
      | Some prev =>
        if s.(cs_pendingHiddenLink) && negb (prev ≟ nodeId) then
          let key := buildLinkKey prev nodeId in
          let existing := default [] (s.(cs_dashedLinkDetails) !! key) in
          <[key := foldl push_new existing s.(cs_pendingHiddenLabels)]> s.(cs_dashedLinkDetails)
        else s.(cs_dashedLinkDetails)
      | None => s.(cs_dashedLinkDetails)
      end in
    {| cs_nodes := if previousNodeId ≟ Some nodeId then s.(cs_nodes) else s.(cs_nodes) ++ [nodeId];
       cs_dashedLinkDetails := dashed;
       cs_pendingHiddenLink := false; cs_pendingHiddenLabels := [] |}
  | None =>
    if step.(ps_markHiddenLinkWhenOmitted) && (0 <? len s.(cs_nodes)) then
      {| cs_nodes := s.(cs_nodes); cs_dashedLinkDetails := s.(cs_dashedLinkDetails);
         cs_pendingHiddenLink := true;
         cs_pendingHiddenLabels :=
           match truthy step.(ps_hiddenLabel) with
           | Some label => push_new s.(cs_pendingHiddenLabels) label
           | None => s.(cs_pendingHiddenLabels)
           end |}
    else s
  end.

Definition compactPathSteps (steps : list PathStep) : list jstr * gmap jstr (list jstr) :=
  let s := foldl compact_step
    {| cs_nodes := []; cs_dashedLinkDetails := ∅; cs_pendingHiddenLink := false;
       cs_pendingHiddenLabels := [] |} steps in
  (s.(cs_nodes), s.(cs_dashedLinkDetails)).

(** ** Traffic patterns *)

Definition recent (now : Z) (observations : list TrafficObservation) : list TrafficObservation :=
  filter (fun obs => now - obs.(to_timestamp) < TRAFFIC_OBSERVATION_MAX_AGE_MS) observations.

(** The sources seen for each next hop; a last hop counts as [self]. *)
Definition group_by_next_hop (observations : list TrafficObservation) : gmap jstr (gset jstr) :=
  foldl (fun m obs =>
    let hopKey := obs.(to_nextHop) ?? js "self" in
    <[hopKey := {[obs.(to_source)]} ∪ default ∅ (m !! hopKey)]> m) ∅ observations.

(** The nested loop over the groups: the next hops of each source, one entry per group. *)
Definition next_hops_of_sources (byNextHop : gmap jstr (gset jstr)) : gmap jstr (list jstr) :=
  foldl (fun m p => <[p.1 := default [] (m !! p.1) ++ [p.2]]> m) ∅
    (map_to_list byNextHop ≫= fun g => (fun s => (s, g.1)) <$> elements g.2).

(** The groups when the repeater is to be split, and [None] otherwise. *)
Definition analyzeRepeaterTraffic (now : Z) (data : RepeaterTrafficData)
    : option (gmap jstr (gset jstr)) :=
  let byNextHop := group_by_next_hop (recent now data.(rt_observations)) in
  if Z.of_nat (size byNextHop) <=? 1 then None
  else if existsb (fun p => 1 <? len p.2) (map_to_list (next_hops_of_sources byNextHop)) then None
  else if existsb (fun p => Z.of_nat (size p.2) <? MIN_OBSERVATIONS_TO_SPLIT) (map_to_list byNextHop)
  then None
  else Some byNextHop.

Definition recordTrafficObservation (now : Z) (trafficData : gmap jstr RepeaterTrafficData)
    (hopKey source : jstr) (nextHop : option jstr) : gmap jstr RepeaterTrafficData :=
  match normalizeHopToken (Some hopKey) with
  | None => trafficData
  | Some normalizedHopKey =>
    let observations :=
      match trafficData !! normalizedHopKey with Some d => d.(rt_observations) | None => [] end in
    let observations := recent now (observations ++
      [{| to_source := source; to_nextHop := normalizeHopToken nextHop; to_timestamp := now |}]) in
    let observations :=
      if MAX_TRAFFIC_OBSERVATIONS <? len observations
      then slice_from observations (- MAX_TRAFFIC_OBSERVATIONS) else observations in
    let key := match trafficData !! normalizedHopKey with
               | Some d => d.(rt_hopKey) | None => normalizedHopKey end in
    <[normalizedHopKey := {| rt_hopKey := key; rt_observations := observations |}]> trafficData
  end.
