(* ===== verification/VisualizerProps.v ===== *)
(** Paths and traffic of the visualizer: what [compactPathSteps] keeps, when a repeater is
    split, and the bounds of the traffic buffer. *)
From S2P Require Import Prelude JsString JsCollections JsNum Types Visualizer.

(** A decoder that reads every packet as an advertisement relayed by the hop [32]. *)
Definition example_decoder : MeshDecoder :=
  {| decode := fun _ => Some {| dk_isValid := true; dk_payloadType := 4;
       dk_routeType := 1; dk_pathHashSize := None; dk_messageHash := None;
       dk_path := Some [js "32"];
       dk_payload_decoded := Some {| dp_pathHashes := None; dp_sourceHash := None;
         dp_destinationHash := None; dp_publicKey := Some (js "AABBCCDDEEFF00"); dp_decrypted_sender := None;
         dp_senderPublicKey := None |} |};
     PT_Request := 0; PT_Response := 1; PT_TextMessage := 2; PT_Ack := 3; PT_Advert := 4;
     PT_GroupText := 5; PT_AnonRequest := 7; PT_Trace := 9;
     getPayloadTypeName := fun _ => js "Advert"; getRouteTypeName := fun _ => js "Flood" |}.

Definition example_packet (at_ms : Z) : RawPacket :=
  {| rp_id := 1; rp_observation_id := None; rp_timestamp := 1; rp_received_at_ms := Some at_ms;
     rp_data := js "00"; rp_payload_type := js "ADVERT"; rp_snr := None; rp_rssi := None;
     rp_decrypted := false; rp_decrypted_info := None; rp_transport_code := None;
     rp_region := None; rp_packet_hash := None |}.

(** ** Deduplication *)

(** No element equals its successor. *)
Definition no_repeat {A} (l : list A) : Prop :=
  forall i x y, l !! i = Some x -> l !! S i = Some y -> x <> y.

Section dedupe.
Context {A : Type} `{EqDecision A}.
Implicit Types l : list A.

Lemma no_repeat_nil : no_repeat (@nil A).
Proof. done. Qed.

Lemma no_repeat_cons x l : no_repeat (x :: l) <-> head l <> Some x /\ no_repeat l.
Proof.
  split.
  - intros Hn. split.
    + intros E. destruct l as [|y l]; simplify_eq/=. by apply (Hn 0%nat x x).
    + intros i a b Ha Hb. by apply (Hn (S i) a b).
  - intros [Hh Hn] [|i] a b Ha Hb; simpl in *; [|by apply (Hn i a b)].
    simplify_eq. intros ->. apply Hh. by destruct l.
Qed.

Lemma head_dedupe_after p l : head (dedupe_after p l) <> Some p.
Proof.
  revert p. induction l as [|x l IH]; intros p; simpl; [done|].
  case_decide as E; [subst; apply IH|]. simpl. congruence.
Qed.

Lemma no_repeat_dedupe_after p l : no_repeat (dedupe_after p l).
Proof.
  revert p. induction l as [|x l IH]; intros p; simpl; [apply no_repeat_nil|].
  case_decide; [apply IH|]. apply no_repeat_cons. split; [apply head_dedupe_after|apply IH].
Qed.

Lemma no_repeat_dedupe l : no_repeat (dedupeConsecutive l).
Proof.
  destruct l as [|x l]; [apply no_repeat_nil|]. simpl. apply no_repeat_cons.
  split; [apply head_dedupe_after|apply no_repeat_dedupe_after].
Qed.

Lemma dedupe_after_id p l : no_repeat (p :: l) -> dedupe_after p l = l.
Proof.
  revert p. induction l as [|x l IH]; intros p Hn; [done|]. apply no_repeat_cons in Hn as [Hh Hn].
  simpl in *. rewrite decide_False by congruence. f_equal. by apply IH.
Qed.

Lemma dedupe_id l : no_repeat l -> dedupeConsecutive l = l.
Proof. destruct l as [|x l]; [done|]. simpl. intros. f_equal. by apply dedupe_after_id. Qed.

Lemma elem_of_dedupe_after p l x : x ∈ p :: dedupe_after p l <-> x ∈ p :: l.
Proof.
  revert p. induction l as [|y l IH]; intros p; simpl; [done|].
  case_decide as E; [subst y; rewrite IH; set_solver|].
  rewrite elem_of_cons, IH. set_solver.
Qed.

Lemma elem_of_dedupe l x : x ∈ dedupeConsecutive l <-> x ∈ l.
Proof. destruct l; [done|]. apply elem_of_dedupe_after. Qed.

(** Appending to a deduplicated list. *)
Lemma dedupe_after_snoc p l x :
  dedupe_after p (l ++ [x]) =
    if decide (default p (last l) = x) then dedupe_after p l else dedupe_after p l ++ [x].
Proof.
  revert p. induction l as [|y l IH]; intros p; simpl.
  - repeat case_decide; congruence.
  - assert (El : default p (last (y :: l)) = default y (last l)) by (rewrite last_cons; by destruct (last l)).
    rewrite El, IH. repeat case_decide; done.
Qed.

Lemma dedupe_snoc l x :
  dedupeConsecutive (l ++ [x]) =
    if decide (last l = Some x) then dedupeConsecutive l else dedupeConsecutive l ++ [x].
Proof.
  destruct l as [|y l]; [done|]. cbn [app dedupeConsecutive].
  rewrite dedupe_after_snoc.
  assert (El : last (y :: l) = Some (default y (last l))) by (rewrite last_cons; by destruct (last l)).
  rewrite El. repeat case_decide; simplify_eq; done.
Qed.

Lemma last_dedupe l : last (dedupeConsecutive l) = last l.
Proof.
  induction l as [|x l IH] using rev_ind; [done|].
  rewrite dedupe_snoc, last_snoc. case_decide; [congruence|]. apply last_snoc.
Qed.
End dedupe.

(** ** Compacting a path *)

(** The node ids of the steps that name one. *)
Definition shown_ids (steps : list PathStep) : list jstr :=
  omap (fun s => truthy s.(ps_nodeId)) steps.

Definition omitted (step : PathStep) : Prop := truthy step.(ps_nodeId) = None.
Definition marked (step : PathStep) : Prop := step.(ps_markHiddenLinkWhenOmitted) = true.

(** A shown node, then steps that are all omitted, one of them marked. *)
Definition open_gap (steps : list PathStep) (a : jstr) : Prop :=
  exists pre sa mid, steps = pre ++ sa :: mid /\ truthy sa.(ps_nodeId) = Some a
    /\ Forall omitted mid /\ Exists marked mid.

(** A gap closed by the next shown node. *)
Definition closed_gap (steps : list PathStep) (a b : jstr) : Prop :=
  exists xs sb post, steps = xs ++ sb :: post /\ open_gap xs a /\ truthy sb.(ps_nodeId) = Some b.

Lemma shown_ids_app xs ys : shown_ids (xs ++ ys) = shown_ids xs ++ shown_ids ys.
Proof. apply omap_app. Qed.

Lemma shown_ids_omitted mid : Forall omitted mid -> shown_ids mid = [].
Proof. induction 1 as [|s mid Hs Hm IH]; [done|]. unfold shown_ids. simpl. by rewrite Hs. Qed.

Lemma open_gap_last xs a : open_gap xs a -> last (shown_ids xs) = Some a.
Proof.
  intros (pre & sa & mid & -> & Ha & Hm & _).
  rewrite shown_ids_app. change (sa :: mid) with ([sa] ++ mid).
  rewrite shown_ids_app, (shown_ids_omitted mid), app_nil_r by done.
  unfold shown_ids at 2. simpl. rewrite Ha. apply last_snoc.
Qed.

Lemma open_gap_snoc_omitted xs s a :
  omitted s -> open_gap (xs ++ [s]) a <->
  open_gap xs a \/ (marked s /\ last (shown_ids xs) = Some a).
Proof.
  intros Hs. split.
  - intros (pre & sa & mid & E & Ha & Hm & He).
    destruct mid as [|m mid _] using rev_ind.
    { apply Exists_nil in He. done. }
    rewrite app_comm_cons, app_assoc in E. apply app_inj_tail in E as [-> ->].
    apply Forall_app in Hm as [Hm _]. apply Exists_app in He as [He|He].
    + left. by exists pre, sa, mid.
    + right. apply Exists_cons in He as [He|He]; [|by apply Exists_nil in He]. split; [done|].
      rewrite shown_ids_app. change (sa :: mid) with ([sa] ++ mid).
      rewrite shown_ids_app, (shown_ids_omitted mid), app_nil_r by done.
      unfold shown_ids at 2. simpl. rewrite Ha. apply last_snoc.
  - intros [(pre & sa & mid & -> & Ha & Hm & He)|[Hmk Hl]].
    + exists pre, sa, (mid ++ [s]). rewrite <- app_assoc. split; [done|]. split; [done|].
      split; [by apply Forall_app; split; [|constructor]|]. apply Exists_app. by left.
    + assert (Hex : exists pre sa mid, xs = pre ++ sa :: mid /\ truthy sa.(ps_nodeId) = Some a
                      /\ Forall omitted mid).
      { clear -Hl. induction xs as [|x xs IH] using rev_ind; [done|].
        rewrite shown_ids_app in Hl. destruct (truthy x.(ps_nodeId)) as [b|] eqn:Ex.
        - unfold shown_ids at 2 in Hl. simpl in Hl. rewrite Ex, last_snoc in Hl. simplify_eq.
          exists xs, x, []. by repeat constructor.
        - unfold shown_ids at 2 in Hl. simpl in Hl. rewrite Ex, app_nil_r in Hl.
          destruct (IH Hl) as (pre & sa & mid & -> & ? & ?). exists pre, sa, (mid ++ [x]).
          rewrite <- app_assoc. repeat split; try done. apply Forall_app; split; [done|].
          by constructor. }
      destruct Hex as (pre & sa & mid & -> & Ha & Hm). exists pre, sa, (mid ++ [s]).
      rewrite <- app_assoc. split; [done|]. split; [done|].
      split; [apply Forall_app; split; [done|by constructor]|]. apply Exists_app. right. by left.
Qed.

Lemma open_gap_snoc_shown xs s a b : truthy s.(ps_nodeId) = Some b -> ~ open_gap (xs ++ [s]) a.
Proof.
  intros Hs (pre & sa & mid & E & Ha & Hm & He). destruct mid as [|m mid _] using rev_ind.
  { by apply Exists_nil in He. }
  rewrite app_comm_cons, app_assoc in E. apply app_inj_tail in E as [-> ->].
  apply Forall_app in Hm as [_ Hm]. inversion Hm as [|? ? Ho]. unfold omitted in Ho. congruence.
Qed.

Lemma closed_gap_snoc xs s a b :
  closed_gap (xs ++ [s]) a b <->
  closed_gap xs a b \/ (open_gap xs a /\ truthy s.(ps_nodeId) = Some b).
Proof.
  split.
  - intros (ys & sb & post & E & Ho & Hb). destruct post as [|p post _] using rev_ind.
    + apply app_inj_tail in E as [-> ->]. by right.
    + rewrite app_comm_cons, app_assoc in E. apply app_inj_tail in E as [-> ->].
      left. by exists ys, sb, post.
  - intros [(ys & sb & post & -> & Ho & Hb)|[Ho Hb]].
    + exists ys, sb, (post ++ [s]). by rewrite <- app_assoc.
    + by exists xs, s, [].
Qed.

(** What the loop has computed after a prefix of the steps. *)
Record compact_inv (xs : list PathStep) (s : CompactState) : Prop := {
  ci_nodes : s.(cs_nodes) = dedupeConsecutive (shown_ids xs);
  ci_pending : s.(cs_pendingHiddenLink) = true <-> exists a, open_gap xs a;
  ci_dashed : forall key, is_Some (s.(cs_dashedLinkDetails) !! key) <->
    exists a b, closed_gap xs a b /\ a <> b /\ key = buildLinkKey a b;
}.

Lemma compact_inv_omitted xs s step :
  omitted step -> compact_inv xs s -> compact_inv (xs ++ [step]) (compact_step s step).
Proof.
  intros Ho [Hn Hp Hd]. unfold compact_step. rewrite Ho.
  assert (Hshown : shown_ids (xs ++ [step]) = shown_ids xs)
    by (rewrite shown_ids_app, (shown_ids_omitted [step]), app_nil_r; [done|by constructor]).
  assert (Hclosed : forall a b, closed_gap (xs ++ [step]) a b <-> closed_gap xs a b).
  { intros a b. rewrite closed_gap_snoc. unfold omitted in Ho. split; [intros [?|[_ ?]]; congruence|tauto]. }
  assert (Hne : 0 < len s.(cs_nodes) <-> exists a, last (shown_ids xs) = Some a).
  { rewrite Hn, <- (last_dedupe (shown_ids xs)). unfold len.
    destruct (dedupeConsecutive (shown_ids xs)) as [|y ys]; simpl; [split; [lia|by intros [? ?]]|].
    split; [|lia]. intros _. change (is_Some (last (y :: ys))). by apply last_is_Some. }
  destruct (ps_markHiddenLinkWhenOmitted step) eqn:Em; simpl.
  - destruct (Z.ltb_spec 0 (len (cs_nodes s))) as [Hl|Hl].
    + constructor; cbn; [by rewrite Hshown| |by setoid_rewrite Hclosed].
      split; [|done]. intros _. apply Hne in Hl as [a Ha]. exists a.
      apply open_gap_snoc_omitted; [done|]. by right.
    + constructor; [by rewrite Hshown| |by setoid_rewrite Hclosed].
      rewrite Hp. split; [intros [a ?]; exists a; apply open_gap_snoc_omitted; tauto|].
      intros [a [?|[_ Ha]]%open_gap_snoc_omitted]; [by exists a| |done]. exfalso. assert (0 < len s.(cs_nodes)) by (apply Hne; eauto). lia.
  - constructor; [by rewrite Hshown| |by setoid_rewrite Hclosed].
    rewrite Hp. split; [intros [a ?]; exists a; apply open_gap_snoc_omitted; tauto|].
    intros [a [?|[Hm _]]%open_gap_snoc_omitted]; [by exists a| |done].
    unfold marked in Hm. congruence.
Qed.

Lemma compact_inv_shown xs s step b :
  truthy step.(ps_nodeId) = Some b -> compact_inv xs s ->
  compact_inv (xs ++ [step]) (compact_step s step).
Proof.
  intros Hb [Hn Hp Hd]. unfold compact_step. rewrite Hb. constructor; cbn.
  - rewrite shown_ids_app. unfold shown_ids at 2. simpl. rewrite Hb, dedupe_snoc, Hn, last_dedupe.
    by repeat case_decide || case_bool_decide.
  - split; [done|]. intros [a Ha]. by apply (open_gap_snoc_shown _ _ _ _ Hb) in Ha.
  - intros key. setoid_rewrite closed_gap_snoc. rewrite Hn, last_dedupe.
    destruct (last (shown_ids xs)) as [prev|] eqn:El.
    + destruct (cs_pendingHiddenLink s) eqn:Ep.
      * destruct (proj1 Hp eq_refl) as [a0 Ha0]. pose proof (open_gap_last _ _ Ha0). simplify_eq.
        case_bool_decide as Ene; simpl.
        -- rewrite Hd. subst b. split; [intros (a & c & ? & ? & ->); exists a, c; tauto|].
           intros (a & c & [?|[Ho ?]] & Hne & ->); [by exists a, c|].
           pose proof (open_gap_last _ _ Ho). congruence.
        -- rewrite lookup_insert_is_Some', Hd. split.
           ++ intros [<-|(a & c & ? & ? & ->)]; [exists prev, b; tauto|exists a, c; tauto].
           ++ intros (a & c & [?|[Ho ?]] & Hne & ->); [right; by exists a, c|]. left.
              pose proof (open_gap_last _ _ Ho). congruence.
      * simpl. rewrite Hd. split; [intros (a & c & ? & ? & ->); exists a, c; tauto|].
        intros (a & c & [?|[Ho ?]] & Hne & ->); [by exists a, c|].
        assert (false = true) by (apply Hp; eauto). done.
    + rewrite Hd. split; [intros (a & c & ? & ? & ->); exists a, c; tauto|].
      intros (a & c & [?|[Ho ?]] & Hne & ->); [by exists a, c|].
      pose proof (open_gap_last _ _ Ho). congruence.
Qed.

Lemma compact_fold xs :
  compact_inv xs (foldl compact_step
    {| cs_nodes := []; cs_dashedLinkDetails := ∅; cs_pendingHiddenLink := false;
       cs_pendingHiddenLabels := [] |} xs).
Proof.
  induction xs as [|x xs IH] using rev_ind.
  - constructor; cbn; [done| |].
    + split; [done|]. intros (a & pre & sa & mid & E & _). by destruct pre.
    + intros key. rewrite lookup_empty. split; [intros [? ?]; done|].
      intros (a & b & (ys & sb & post & E & _) & _). by destruct ys.
  - rewrite foldl_app. simpl. destruct (truthy x.(ps_nodeId)) as [b|] eqn:E.
    + by apply (compact_inv_shown _ _ _ b).
    + by apply compact_inv_omitted.
Qed.

(** ** Traffic groups *)

(** The source [s] was seen going to the next hop [h]. *)
Definition seen_to (obs : list TrafficObservation) (h s : jstr) : Prop :=
  exists o, o ∈ obs /\ o.(to_nextHop) ?? js "self" = h /\ o.(to_source) = s.

Lemma group_by_next_hop_spec obs h s :
  s ∈ default ∅ (group_by_next_hop obs !! h) <-> seen_to obs h s.
Proof.
  unfold group_by_next_hop. induction obs as [|o obs IH] using rev_ind.
  - cbn [foldl]. rewrite lookup_empty. split; [set_solver|]. intros (o & Ho & _). set_solver.
  - rewrite foldl_app. cbn [foldl]. set (m := foldl _ _ obs) in *. unfold seen_to in *.
    destruct (decide (o.(to_nextHop) ?? js "self" = h)) as [<-|Hne].
    + rewrite lookup_insert_eq. cbn [default from_option id]. rewrite elem_of_union, IH, elem_of_singleton.
      setoid_rewrite elem_of_app. setoid_rewrite list_elem_of_singleton. naive_solver.
    + rewrite lookup_insert_ne by done. rewrite IH. setoid_rewrite elem_of_app.
      setoid_rewrite list_elem_of_singleton. naive_solver.
Qed.

Lemma group_by_next_hop_nonempty obs h g :
  group_by_next_hop obs !! h = Some g -> exists s, s ∈ g.
Proof.
  unfold group_by_next_hop. revert h g. induction obs as [|o obs IH] using rev_ind; intros h g; [done|].
  rewrite foldl_app. cbn [foldl]. destruct (decide (o.(to_nextHop) ?? js "self" = h)) as [<-|Hne].
  - rewrite lookup_insert_eq. intros <-%(inj Some). exists o.(to_source). set_solver.
  - rewrite lookup_insert_ne by done. apply IH.
Qed.

(** The pairs the nested loop visits. *)
Definition source_hops (m : gmap jstr (gset jstr)) : list (jstr * jstr) :=
  map_to_list m ≫= fun g => (fun s => (s, g.1)) <$> elements g.2.

Lemma elem_of_source_hops m s h : (s, h) ∈ source_hops m <-> s ∈ default ∅ (m !! h).
Proof.
  unfold source_hops. rewrite list_elem_of_bind. split.
  - intros ([h' g] & (s' & E & Hs)%list_elem_of_fmap & Hg%elem_of_map_to_list). simplify_eq/=.
    rewrite Hg. simpl. by apply elem_of_elements.
  - destruct (m !! h) as [g|] eqn:E; simpl; [|set_solver]. intros Hs. exists (h, g).
    split; [|by apply elem_of_map_to_list]. apply list_elem_of_fmap. exists s.
    by rewrite elem_of_elements.
Qed.

(** The accumulator holds, for each source, the hops of its pairs in order. *)
Lemma fold_pairs_lookup (ps : list (jstr * jstr)) (k : jstr) :
  default [] (foldl (fun m p => <[p.1 := default [] (m !! p.1) ++ [p.2]]> m)
               (∅ : gmap jstr (list jstr)) ps !! k)
  = (filter (fun p => p.1 = k) ps).*2.
Proof.
  induction ps as [|[s h] ps IH] using rev_ind; [done|].
  rewrite foldl_app, filter_app, fmap_app. cbn [foldl fst snd]. rewrite filter_cons, filter_nil.
  case_decide as E; cbn [fst] in E.
  - subst. rewrite lookup_insert_eq. cbn [default from_option id]. by rewrite IH.
  - rewrite lookup_insert_ne by done. by rewrite IH, app_nil_r.
Qed.

Lemma two_elements {A} (l : list A) x y : x ∈ l -> y ∈ l -> x <> y -> 1 < len l.
Proof.
  destruct l as [|a [|b l]]; [set_solver|set_solver|]. intros. rewrite !len_cons.
  pose proof (len_nonneg l). lia.
Qed.

Lemma NoDup_two {A} (l : list A) : NoDup l -> 1 < len l -> exists x y, x ∈ l /\ y ∈ l /\ x <> y.
Proof.
  destruct l as [|a [|b l]]; [unfold len; simpl; lia..|]. intros [Hn _]%NoDup_cons _.
  exists a, b. set_solver.
Qed.

Lemma NoDup_source_hops (m : gmap jstr (gset jstr)) : NoDup (source_hops m).
Proof.
  unfold source_hops. pose proof (NoDup_fst_map_to_list m) as Hnd.
  induction (map_to_list m) as [|[h g] l IH]; [constructor|].
  cbn [mbind list_bind]. apply NoDup_cons in Hnd as [Hni Hnd]. apply NoDup_app. split; [|split].
  - apply NoDup_fmap_2; [intros ? ? [=]; done|apply NoDup_elements].
  - intros x (s & -> & _)%list_elem_of_fmap ([h' g'] & (s' & E & _)%list_elem_of_fmap & Hin)%list_elem_of_bind.
    simplify_eq/=. apply Hni. apply list_elem_of_fmap. by exists (h', g').
  - by apply IH.
Qed.

(** Some source routes to two next hops. *)
Lemma hub_spec m :
  existsb (fun p => 1 <? len p.2) (map_to_list (next_hops_of_sources m)) = true <->
  exists s h1 h2, h1 <> h2 /\ s ∈ default ∅ (m !! h1) /\ s ∈ default ∅ (m !! h2).
Proof.
  rewrite existsb_exists. unfold next_hops_of_sources. fold (source_hops m).
  set (acc := foldl _ _ _). pose proof (fun k => fold_pairs_lookup (source_hops m) k) as Hacc.
  fold acc in Hacc. split.
  - intros ([s hs] & Hin%list_elem_of_In%elem_of_map_to_list & Hl%Z.ltb_lt). cbn [snd] in Hl.
    specialize (Hacc s). rewrite Hin in Hacc. simpl in Hacc. subst hs.
    assert (Hnd : NoDup (filter (fun p => p.1 = s) (source_hops m)).*2).
    { apply NoDup_fmap_2_strong; [|apply NoDup_filter, NoDup_source_hops].
      intros [s1 x1] [s2 x2] [E1 _]%list_elem_of_filter [E2 _]%list_elem_of_filter E. by simplify_eq/=. }
    destruct (NoDup_two _ Hnd Hl)
      as (h1 & h2 & H1 & H2 & Hne).
    exists s, h1, h2. split; [done|].
    apply list_elem_of_fmap in H1 as ([s1 ?] & -> & [? H1]%list_elem_of_filter).
    apply list_elem_of_fmap in H2 as ([s2 ?] & -> & [? H2]%list_elem_of_filter). simplify_eq/=.
    by rewrite <- !elem_of_source_hops.
  - intros (s & h1 & h2 & Hne & H1%elem_of_source_hops & H2%elem_of_source_hops).
    specialize (Hacc s).
    assert (Hl : 1 < len (default [] (acc !! s))).
    { rewrite Hacc. apply (two_elements _ h1 h2); [..|done]; apply list_elem_of_fmap.
      - exists (s, h1). split; [done|]. by apply list_elem_of_filter.
      - exists (s, h2). split; [done|]. by apply list_elem_of_filter. }
    destruct (acc !! s) as [hs|] eqn:E; [|unfold len in Hl; simpl in Hl; lia].
    exists (s, hs). split; [by apply list_elem_of_In, elem_of_map_to_list|]. by apply Z.ltb_lt.
Qed.

Lemma small_group_spec (m : gmap jstr (gset jstr)) n :
  existsb (fun p => Z.of_nat (size p.2) <? n) (map_to_list m) = false <->
  forall h g, m !! h = Some g -> n <= Z.of_nat (size g).
Proof.
  rewrite <- not_true_iff_false, existsb_exists. split.
  - intros Hno h g Hg. destruct (Z.leb_spec n (Z.of_nat (size g))) as [|Hlt]; [done|]. destruct Hno.
    exists (h, g). split; [by apply list_elem_of_In, elem_of_map_to_list|]. by apply Z.ltb_lt.
  - intros Hall ([h g] & Hin%list_elem_of_In%elem_of_map_to_list & Hl%Z.ltb_lt).
    specialize (Hall h g Hin). simpl in Hl. lia.
Qed.

Lemma last_drop {A} (l : list A) n : (n < length l)%nat -> last (drop n l) = last l.
Proof.
  intros Hn. rewrite <- (take_drop n l) at 2. rewrite last_app.
  destruct (last (drop n l)) eqn:E; [done|]. apply last_None in E.
  apply (f_equal length) in E. rewrite length_drop in E. simpl in E. lia.
Qed.

Lemma recent_snoc now obs o :
  now - o.(to_timestamp) < TRAFFIC_OBSERVATION_MAX_AGE_MS ->
  recent now (obs ++ [o]) = recent now obs ++ [o].
Proof.
  intros. unfold recent. rewrite filter_app, filter_cons, filter_nil. by rewrite decide_True.
Qed.

(** ** Properties *)

(** Compacting keeps the shown nodes in order, without two equal neighbours, and dashes
    exactly the links between two different nodes with only omitted steps between them, one
    of which asks for it. *)
Theorem compactPathSteps_spec (steps : list PathStep) :
  (compactPathSteps steps).1 = dedupeConsecutive (shown_ids steps)
  /\ no_repeat (compactPathSteps steps).1
  /\ forall key, is_Some ((compactPathSteps steps).2 !! key) <->
       exists a b, closed_gap steps a b /\ a <> b /\ key = buildLinkKey a b.
Proof.
  unfold compactPathSteps. destruct (compact_fold steps) as [Hn _ Hd]. cbn [fst snd].
  rewrite Hn. split; [done|]. split; [apply no_repeat_dedupe|exact Hd].
Qed.

(** A repeater is split exactly when its recent traffic goes to at least two next hops,
    no source uses two of them, and each has at least 20 sources; the groups are then the
    sources seen for each next hop. *)
Theorem analyzeRepeaterTraffic_spec (now : Z) (data : RepeaterTrafficData)
    (groups : gmap jstr (gset jstr)) :
  let obs := recent now data.(rt_observations) in
  (analyzeRepeaterTraffic now data = Some groups <->
   groups = group_by_next_hop obs /\ (2 <= size groups)%nat
   /\ (forall s h1 h2, seen_to obs h1 s -> seen_to obs h2 s -> h1 = h2)
   /\ forall h g, groups !! h = Some g -> MIN_OBSERVATIONS_TO_SPLIT <= Z.of_nat (size g))
  /\ forall h s, s ∈ default ∅ (group_by_next_hop obs !! h) <-> seen_to obs h s.
Proof.
  intros obs. split; [|intros; apply group_by_next_hop_spec].
  unfold analyzeRepeaterTraffic. fold obs. set (m := group_by_next_hop obs).
  assert (Hhub : forall s h, s ∈ default ∅ (m !! h) <-> seen_to obs h s)
    by (intros; apply group_by_next_hop_spec).
  destruct (Z.leb_spec (Z.of_nat (size m)) 1) as [Hs|Hs].
  { split; [done|]. intros (-> & ? & _). fold m in H. lia. }
  destruct (existsb _ (map_to_list (next_hops_of_sources m))) eqn:Eh.
  { split; [done|]. intros (-> & _ & Hd & _).
    apply hub_spec in Eh as (s & h1 & h2 & Hne & H1 & H2). destruct Hne.
    apply (Hd s); by apply Hhub. }
  assert (Hd : forall s h1 h2, seen_to obs h1 s -> seen_to obs h2 s -> h1 = h2).
  { intros s h1 h2 H1 H2. destruct (decide (h1 = h2)) as [|Hne]; [done|].
    rewrite <- not_true_iff_false, hub_spec in Eh. destruct Eh. exists s, h1, h2. by rewrite !Hhub. }
  destruct (existsb _ (map_to_list m)) eqn:Eg.
  - split; [done|]. intros (-> & _ & _ & Hg). fold m in Hg.
    apply (proj2 (small_group_spec m MIN_OBSERVATIONS_TO_SPLIT)) in Hg. congruence.
  - pose proof (proj1 (small_group_spec m MIN_OBSERVATIONS_TO_SPLIT) Eg). split.
    + intros <-%(inj Some). split; [done|]. split; [lia|]. by split.
    + by intros (-> & _).
Qed.

(** Recording an observation keeps at most 200 of the hop's observations, all of them
    recent and the new one last, and touches no other hop. *)
Theorem recordTrafficObservation_bounded (now : Z) (m : gmap jstr RepeaterTrafficData)
    (hopKey source : jstr) (nextHop : option jstr) (k : jstr)
    (Hk : normalizeHopToken (Some hopKey) = Some k) :
  let m' := recordTrafficObservation now m hopKey source nextHop in
  (exists d, m' !! k = Some d /\ len d.(rt_observations) <= MAX_TRAFFIC_OBSERVATIONS
     /\ Forall (fun o => now - o.(to_timestamp) < TRAFFIC_OBSERVATION_MAX_AGE_MS) d.(rt_observations)
     /\ last d.(rt_observations) = Some {| to_source := source;
          to_nextHop := normalizeHopToken nextHop; to_timestamp := now |})
  /\ forall k', k' <> k -> m' !! k' = m !! k'.
Proof.
  cbv zeta. unfold recordTrafficObservation. rewrite Hk.
  set (o := {| to_source := source; to_nextHop := _; to_timestamp := now |}).
  set (old := match m !! k with Some d => rt_observations d | None => [] end).
  assert (Ho : now - to_timestamp o < TRAFFIC_OBSERVATION_MAX_AGE_MS) by (simpl; unfold TRAFFIC_OBSERVATION_MAX_AGE_MS; lia).
  rewrite (recent_snoc now old o Ho). set (obs := recent now old ++ [o]).
  assert (Hrec : Forall (fun o => now - o.(to_timestamp) < TRAFFIC_OBSERVATION_MAX_AGE_MS) obs).
  { apply Forall_app. split; [|by constructor]. apply Forall_forall. by intros x [? _]%list_elem_of_filter. }
  assert (Hlast : last obs = Some o) by apply last_snoc.
  split; [|intros k' Hne; by apply lookup_insert_ne].
  eexists. split; [apply lookup_insert_eq|]. cbn [rt_observations].
  destruct (Z.ltb_spec MAX_TRAFFIC_OBSERVATIONS (len obs)) as [Hl|Hl]; [|by split].
  split; [by apply len_slice_from_neg|]. rewrite slice_from_neg by done.
  split; [by apply Forall_drop|]. rewrite last_drop; [done|].
  unfold len, MAX_TRAFFIC_OBSERVATIONS in *. lia.
Qed.

Lemma recordTrafficObservation_bounded_witness :
  normalizeHopToken (Some (js "AB")) = Some (js "ab")
  /\ recordTrafficObservation 5 ∅ (js "AB") (js "x") None !! js "cd" = None.
Proof.
  split; [vm_compute; reflexivity|].
  refine (eq_trans (proj2 (recordTrafficObservation_bounded 5 ∅ (js "AB") (js "x") None (js "ab") _)
    (js "cd") _) _); [vm_compute; reflexivity|vm_compute; discriminate|reflexivity].
Defined.
