(* ===== verification/NetworkGraph.v ===== *)
(** The packet network of the visualizer: [networkGraph/packetNetworkGraph.ts].

    The state is the object's fields as finite maps; a JavaScript [Map] is read by key only
    where the order of its entries is not observable. Each exported operation reads the
    clock once, the argument [now]. [localeCompare] is a parameter. *)
From S2P Require Import Prelude JsString JsCollections JsNum Types Visualizer.

(** ** State *)

Record ContactIndex := {
  cx_byPrefix12 : gmap jstr Contact;
  cx_byName : gmap jstr Contact;
  cx_byPrefix : gmap jstr (list Contact);
}.

Record PacketNetworkContext := {
  cxt_advertPaths : gmap jstr (list ContactAdvertPath);
  cxt_contactIndex : ContactIndex;
  cxt_myPrefix : option jstr;
  cxt_splitAmbiguousByTraffic : bool;
  cxt_useAdvertPathHints : bool;
}.

Record VisibilityOptions := {
  vo_showAmbiguousNodes : bool;
  vo_showAmbiguousPaths : bool;
  vo_collapseLikelyKnownSiblingRepeaters : bool;
}.

Record PacketNetworkNode := {
  nd_id : jstr;
  nd_name : option jstr;
  nd_type : NodeType;
  nd_isAmbiguous : bool;
  nd_lastActivity : Z;
  nd_lastActivityReason : option jstr;
  nd_lastSeen : option (option Z);
  nd_probableIdentity : option (option jstr);
  nd_probableIdentityNodeId : option (option jstr);
  nd_ambiguousNames : option (list jstr);
}.

#[export] Instance PacketNetworkNode_eta : Eta PacketNetworkNode := fun n =>
  Build_PacketNetworkNode n.(nd_id) n.(nd_name) n.(nd_type) n.(nd_isAmbiguous)
    n.(nd_lastActivity) n.(nd_lastActivityReason) n.(nd_lastSeen) n.(nd_probableIdentity)
    n.(nd_probableIdentityNodeId) n.(nd_ambiguousNames).

Record PacketNetworkLink := {
  lk_sourceId : jstr;
  lk_targetId : jstr;
  lk_lastActivity : Z;
}.

Record PacketNetworkObservation := {
  ob_nodes : list jstr;
  ob_activityAtMs : Z;
}.

Record PacketNetworkState := {
  ns_nodes : gmap jstr PacketNetworkNode;
  ns_links : gmap jstr PacketNetworkLink;
  ns_neighborIds : gmap jstr (gset jstr);
  ns_observations : list PacketNetworkObservation;
  ns_trafficPatterns : gmap jstr RepeaterTrafficData;
}.

#[export] Instance PacketNetworkState_eta : Eta PacketNetworkState := fun s =>
  Build_PacketNetworkState s.(ns_nodes) s.(ns_links) s.(ns_neighborIds) s.(ns_observations)
    s.(ns_trafficPatterns).

Record IngestResult := {
  ir_parsed : ParsedPacket;
  ir_label : jstr;
  ir_canonicalPath : list jstr;
  ir_activityAtMs : Z;
}.

Record ProjectedLink := {
  pl_sourceId : jstr;
  pl_targetId : jstr;
  pl_lastActivity : Z;
  pl_hasDirectObservation : bool;
  pl_hasHiddenIntermediate : bool;
  pl_hiddenHopLabels : list jstr;
}.

Record ProjectedPath := {
  pj_nodes : list jstr;
  pj_dashedLinkDetails : gmap jstr (list jstr);
}.

Record PacketNetworkProjection := {
  pn_nodes : gmap jstr PacketNetworkNode;
  pn_links : gmap jstr ProjectedLink;
  pn_renderedNodeIds : gset jstr;
}.

Definition self_id : jstr := js "self".
Arguments self_id : simpl never.

(** ** The context *)

(** [public_key.slice(0, 12).toLowerCase()] *)
Definition prefix12 (publicKey : jstr) : jstr := toLowerCase (slice publicKey 0 12).

(** One turn of the loop over [len]: the contact joins the matches of one prefix. *)
Definition index_prefix (contact : Contact) (m : gmap jstr (list Contact)) (len : Z)
    : gmap jstr (list Contact) :=
  let prefix := slice (prefix12 contact.(c_public_key)) 0 len in
  <[prefix := default [] (m !! prefix) ++ [contact]]> m.

Definition index_contact (ix : ContactIndex) (contact : Contact) : ContactIndex :=
  {| cx_byPrefix12 := <[prefix12 contact.(c_public_key) := contact]> ix.(cx_byPrefix12);
     cx_byName :=
       match truthy contact.(c_name) with
       | Some name => match ix.(cx_byName) !! name with
                      | None => <[name := contact]> ix.(cx_byName)
                      | Some _ => ix.(cx_byName)
                      end
       | None => ix.(cx_byName)
       end;
     cx_byPrefix := foldl (index_prefix contact) ix.(cx_byPrefix) (seqZ 1 12) |}.

Definition buildPacketNetworkContext (config : option RadioConfig) (contacts : list Contact)
    (repeaterAdvertPaths : list ContactAdvertPathSummary)
    (splitAmbiguousByTraffic useAdvertPathHints : bool) : PacketNetworkContext :=
  {| cxt_contactIndex :=
       foldl index_contact {| cx_byPrefix12 := ∅; cx_byName := ∅; cx_byPrefix := ∅ |} contacts;
     cxt_advertPaths :=
       foldl (fun m summary => <[prefix12 summary.(aps_public_key) := summary.(aps_paths)]> m)
         ∅ repeaterAdvertPaths;
     cxt_myPrefix := truthy (prefix12 <$> (rc_public_key <$> config));
     cxt_splitAmbiguousByTraffic := splitAmbiguousByTraffic;
     cxt_useAdvertPathHints := useAdvertPathHints |}.

(** ** Creating and clearing *)

Definition self_node (now : Z) (selfName : jstr) (lastSeen : option (option Z)) : PacketNetworkNode :=
  {| nd_id := self_id; nd_name := Some selfName; nd_type := NtSelf; nd_isAmbiguous := false;
     nd_lastActivity := now; nd_lastActivityReason := None; nd_lastSeen := lastSeen;
     nd_probableIdentity := None; nd_probableIdentityNodeId := None; nd_ambiguousNames := None |}.

Definition createPacketNetworkState (now : Z) (selfName : jstr) : PacketNetworkState :=
  {| ns_nodes := {[self_id := self_node now selfName None]}; ns_links := ∅; ns_neighborIds := ∅;
     ns_observations := []; ns_trafficPatterns := ∅ |}.

Definition ensureSelfNode (now : Z) (state : PacketNetworkState) (selfName : jstr)
    : PacketNetworkState :=
  match state.(ns_nodes) !! self_id with
  | Some existing =>
    state <| ns_nodes := <[self_id := existing <| nd_name := Some selfName |>]> state.(ns_nodes) |>
  | None =>
    state <| ns_nodes := <[self_id := self_node now selfName None]> state.(ns_nodes) |>
  end.

(** The last assignment of the source sets the name to the one it already has. *)
Definition clearPacketNetworkState (now : Z) (selfName : jstr) : PacketNetworkState :=
  {| ns_nodes := {[self_id := self_node now selfName (Some None)]}; ns_links := ∅;
     ns_neighborIds := ∅; ns_observations := []; ns_trafficPatterns := ∅ |}.

(** ** Nodes and links *)

Record NodeUpdate := {
  nu_id : jstr;
  nu_name : option jstr;
  nu_type : NodeType;
  nu_isAmbiguous : bool;
  nu_lastSeen : option (option Z);
  nu_probableIdentity : option (option jstr);
  nu_probableIdentityNodeId : option (option jstr);
  nu_ambiguousNames : option (list jstr);
  nu_activityAtMs : Z;
}.

Definition or_old {A} (new old : option A) : option A :=
  match new with Some _ => new | None => old end.

Definition addOrUpdateNode (state : PacketNetworkState) (u : NodeUpdate) : PacketNetworkState :=
  let node :=
    match state.(ns_nodes) !! u.(nu_id) with
    | Some existing =>
      existing
        <| nd_lastActivity := Z.max existing.(nd_lastActivity) u.(nu_activityAtMs) |>
        <| nd_name := or_old (truthy u.(nu_name)) existing.(nd_name) |>
        <| nd_probableIdentity := or_old u.(nu_probableIdentity) existing.(nd_probableIdentity) |>
        <| nd_probableIdentityNodeId :=
             or_old u.(nu_probableIdentityNodeId) existing.(nd_probableIdentityNodeId) |>
        <| nd_ambiguousNames := or_old u.(nu_ambiguousNames) existing.(nd_ambiguousNames) |>
        <| nd_lastSeen := or_old u.(nu_lastSeen) existing.(nd_lastSeen) |>
    | None =>
      {| nd_id := u.(nu_id); nd_name := u.(nu_name); nd_type := u.(nu_type);
         nd_isAmbiguous := u.(nu_isAmbiguous); nd_lastActivity := u.(nu_activityAtMs);
         nd_lastActivityReason := None; nd_lastSeen := u.(nu_lastSeen);
         nd_probableIdentity := u.(nu_probableIdentity);
         nd_probableIdentityNodeId := u.(nu_probableIdentityNodeId);
         nd_ambiguousNames := u.(nu_ambiguousNames) |}
    end in
  state <| ns_nodes := <[u.(nu_id) := node]> state.(ns_nodes) |>.

Definition addCanonicalLink (links : gmap jstr PacketNetworkLink) (sourceId targetId : jstr)
    (activityAtMs : Z) : gmap jstr PacketNetworkLink :=
  let key := buildLinkKey sourceId targetId in
  match links !! key with
  | Some existing =>
    <[key := {| lk_sourceId := existing.(lk_sourceId); lk_targetId := existing.(lk_targetId);
                lk_lastActivity := Z.max existing.(lk_lastActivity) activityAtMs |}]> links
  | None =>
    <[key := {| lk_sourceId := sourceId; lk_targetId := targetId;
                lk_lastActivity := activityAtMs |}]> links
  end.

Definition add_neighbor (m : gmap jstr (gset jstr)) (id other : jstr) : gmap jstr (gset jstr) :=
  <[id := {[other]} ∪ default ∅ (m !! id)]> m.

Definition upsertNeighbor (neighborIds : gmap jstr (gset jstr)) (sourceId targetId : jstr)
    : gmap jstr (gset jstr) :=
  add_neighbor (add_neighbor neighborIds sourceId targetId) targetId sourceId.

(** ** Resolving a token to a node *)

Inductive NodeSource := FromPrefix (value : jstr) | FromPubkey (value : jstr) | FromName (value : jstr).

Record TrafficContext := {
  tc_packetSource : option jstr;
  tc_nextPrefix : option jstr;
}.

Record Scored := {
  sd_candidate : Contact;
  sd_matchScore : Z;
  sd_totalScore : Z;
}.

Section locale.
Context (localeCompare : jstr -> jstr -> comparison).

Definition score_candidate (context : PacketNetworkContext) (nextHop : option jstr)
    (candidate : Contact) : Scored :=
  let paths := default [] (context.(cxt_advertPaths) !! prefix12 candidate.(c_public_key)) in
  {| sd_candidate := candidate;
     sd_matchScore := foldl (fun acc p =>
       if (toLowerCase <$> p.(ap_next_hop)) ≟ nextHop then acc + p.(ap_heard_count) else acc) 0 paths;
     sd_totalScore := foldl (fun acc p => acc + p.(ap_heard_count)) 0 paths |}.

Definition scored_order : Scored -> Scored -> comparison :=
  then_by (fun a b => b.(sd_matchScore) ?= a.(sd_matchScore))
    (then_by (fun a b => b.(sd_totalScore) ?= a.(sd_totalScore))
       (fun a b => localeCompare a.(sd_candidate).(c_public_key) b.(sd_candidate).(c_public_key))).

Definition pickLikelyRepeaterByAdvertPath (context : PacketNetworkContext)
    (candidates : list Contact) (nextPrefix : option jstr) : option Contact :=
  let nextHop := toLowerCase <$> nextPrefix in
  let scored := js_sort scored_order
    (filter (fun e => 0 < e.(sd_totalScore)) (score_candidate context nextHop <$> candidates)) in
  match scored with
  | [] => None
  | top :: rest =>
    if top.(sd_matchScore) <? 2 then None
    else match rest with
         | second :: _ =>
           if top.(sd_matchScore) <? second.(sd_matchScore) * 2 then None
           else Some top.(sd_candidate)
         | [] => Some top.(sd_candidate)
         end
  end.

(** The update for a contact that a token names without ambiguity. *)
Definition contact_update (contact : Contact) (nodeId : jstr) (activityAtMs : Z) : NodeUpdate :=
  {| nu_id := nodeId; nu_name := contact.(c_name); nu_type := getNodeType (Some contact);
     nu_isAmbiguous := false; nu_lastSeen := Some contact.(c_last_seen);
     nu_probableIdentity := None; nu_probableIdentityNodeId := None; nu_ambiguousNames := None;
     nu_activityAtMs := activityAtMs |}.

(** A node known by its key or its sender name only. *)
Definition plain_update (nodeId : jstr) (name : option jstr) (activityAtMs : Z) : NodeUpdate :=
  {| nu_id := nodeId; nu_name := name; nu_type := NtClient; nu_isAmbiguous := false;
     nu_lastSeen := None; nu_probableIdentity := None; nu_probableIdentityNodeId := None;
     nu_ambiguousNames := None; nu_activityAtMs := activityAtMs |}.

Definition is_self (context : PacketNetworkContext) (nodeId : jstr) : bool :=
  truthy context.(cxt_myPrefix) ≟ Some nodeId.

Definition resolvePubkey (state : PacketNetworkState) (context : PacketNetworkContext)
    (value : jstr) (activityAtMs : Z) : option jstr * PacketNetworkState :=
  if len value <? 12 then (None, state) else
  let nodeId := prefix12 value in
  if is_self context nodeId then (Some self_id, state) else
  let u := match context.(cxt_contactIndex).(cx_byPrefix12) !! nodeId with
           | Some contact =>
             let u := contact_update contact nodeId activityAtMs in
             {| nu_id := u.(nu_id); nu_name := truthy contact.(c_name); nu_type := u.(nu_type);
                nu_isAmbiguous := false; nu_lastSeen := u.(nu_lastSeen);
                nu_probableIdentity := None; nu_probableIdentityNodeId := None;
                nu_ambiguousNames := None; nu_activityAtMs := activityAtMs |}
           | None => plain_update nodeId None activityAtMs
           end in
  (Some nodeId, addOrUpdateNode state u).

Definition resolveName (state : PacketNetworkState) (context : PacketNetworkContext)
    (value : jstr) (activityAtMs : Z) : option jstr * PacketNetworkState :=
  match context.(cxt_contactIndex).(cx_byName) !! value with
  | Some contact =>
    let nodeId := prefix12 contact.(c_public_key) in
    if is_self context nodeId then (Some self_id, state)
    else (Some nodeId, addOrUpdateNode state (contact_update contact nodeId activityAtMs))
  | None =>
    let nodeId := js "name:" ++ value in
    (Some nodeId, addOrUpdateNode state (plain_update nodeId (Some value) activityAtMs))
  end.

(** [candidate.last_seen && (!max || candidate.last_seen > max) ? candidate.last_seen : max] *)
Definition latest_seen (filtered : list Contact) : option Z :=
  foldl (fun max candidate =>
    match candidate.(c_last_seen) with
    | Some seen =>
      if negb (seen =? 0) && match max with Some m => (m =? 0) || (m <? seen) | None => true end
      then Some seen else max
    | None => max
    end) None filtered.

Definition short_name (candidate : Contact) : jstr :=
  match truthy candidate.(c_name) with
  | Some name => name
  | None => slice candidate.(c_public_key) 0 8
  end.

(** The variables a token of several candidates sets before its node is written. *)
Record AmbiguousNode := {
  am_nodeId : jstr;
  am_displayName : jstr;
  am_probableIdentity : option jstr;
  am_probableIdentityNodeId : option jstr;
  am_ambiguousNames : option (list jstr);
}.

Definition ambiguous_base (lookupValue : jstr) (filtered : list Contact) : AmbiguousNode :=
  let names := short_name <$> filtered in
  {| am_nodeId := buildAmbiguousRepeaterNodeId lookupValue None;
     am_displayName := buildAmbiguousRepeaterLabel lookupValue None;
     am_probableIdentity := None; am_probableIdentityNodeId := None;
     am_ambiguousNames := if 0 <? len names then Some names else None |}.

Definition advert_hint (context : PacketNetworkContext) (filtered : list Contact)
    (nextPrefix : option jstr) (a : AmbiguousNode) : AmbiguousNode :=
  match pickLikelyRepeaterByAdvertPath context filtered nextPrefix with
  | Some likely =>
    let likelyName := match truthy likely.(c_name) with
                      | Some name => name
                      | None => toUpperCase (slice likely.(c_public_key) 0 12)
                      end in
    {| am_nodeId := a.(am_nodeId); am_displayName := likelyName;
       am_probableIdentity := Some likelyName;
       am_probableIdentityNodeId := Some (prefix12 likely.(c_public_key));
       am_ambiguousNames := Some (short_name <$>
         filter (fun c => c.(c_public_key) <> likely.(c_public_key)) filtered) |}
  | None => a
  end.

Definition traffic_split (now : Z) (traffic : gmap jstr RepeaterTrafficData) (lookupValue : jstr)
    (tc : TrafficContext) (a : AmbiguousNode) : AmbiguousNode * gmap jstr RepeaterTrafficData :=
  let normalizedNext := toLowerCase <$> tc.(tc_nextPrefix) in
  let traffic :=
    match truthy tc.(tc_packetSource) with
    | Some source => recordTrafficObservation now traffic lookupValue source normalizedNext
    | None => traffic
    end in
  match traffic !! lookupValue with
  | Some trafficData =>
    match analyzeRepeaterTraffic now trafficData, truthy normalizedNext with
    | Some _, Some next =>
      ({| am_nodeId := buildAmbiguousRepeaterNodeId lookupValue (Some next);
          am_displayName :=
            match truthy a.(am_probableIdentity) with
            | Some _ => a.(am_displayName)
            | None => buildAmbiguousRepeaterLabel lookupValue (Some next)
            end;
          am_probableIdentity := a.(am_probableIdentity);
          am_probableIdentityNodeId := a.(am_probableIdentityNodeId);
          am_ambiguousNames := a.(am_ambiguousNames) |}, traffic)
    | _, _ => (a, traffic)
    end
  | None => (a, traffic)
  end.

(** A token with no contact of its kind, or with several: the node is marked ambiguous. *)
Definition resolveAmbiguous (now : Z) (state : PacketNetworkState) (context : PacketNetworkContext)
    (lookupValue : jstr) (filtered : list Contact) (isRepeater : bool) (activityAtMs : Z)
    (trafficContext : option TrafficContext) : option jstr * PacketNetworkState :=
  if (len filtered =? 0) && negb isRepeater then (None, state) else
  let a := ambiguous_base lookupValue filtered in
  let a := match trafficContext with
           | Some tc => if context.(cxt_useAdvertPathHints) && isRepeater
                        then advert_hint context filtered tc.(tc_nextPrefix) a else a
           | None => a
           end in
  let '(a, traffic) :=
    match trafficContext with
    | Some tc => if context.(cxt_splitAmbiguousByTraffic) && isRepeater
                 then traffic_split now state.(ns_trafficPatterns) lookupValue tc a
                 else (a, state.(ns_trafficPatterns))
    | None => (a, state.(ns_trafficPatterns))
    end in
  let state := state <| ns_trafficPatterns := traffic |> in
  (Some a.(am_nodeId), addOrUpdateNode state
    {| nu_id := a.(am_nodeId); nu_name := Some a.(am_displayName);
       nu_type := if isRepeater then NtRepeater else NtClient; nu_isAmbiguous := true;
       nu_lastSeen := Some (latest_seen filtered);
       nu_probableIdentity := Some a.(am_probableIdentity);
       nu_probableIdentityNodeId := Some a.(am_probableIdentityNodeId);
       nu_ambiguousNames := a.(am_ambiguousNames); nu_activityAtMs := activityAtMs |}).

Definition resolvePrefix (now : Z) (state : PacketNetworkState) (context : PacketNetworkContext)
    (value : jstr) (isRepeater showAmbiguous : bool) (activityAtMs : Z)
    (trafficContext : option TrafficContext) : option jstr * PacketNetworkState :=
  let lookupValue := toLowerCase value in
  let matches := default [] (context.(cxt_contactIndex).(cx_byPrefix) !! lookupValue) in
  match matches with
  | [contact] =>
    let nodeId := prefix12 contact.(c_public_key) in
    if is_self context nodeId then (Some self_id, state)
    else (Some nodeId, addOrUpdateNode state (contact_update contact nodeId activityAtMs))
  | _ =>
    if negb showAmbiguous then (None, state) else
    let filtered :=
      filter (fun c => (c.(c_type) =? CONTACT_TYPE_REPEATER) = isRepeater) matches in
    match filtered with
    | [only] =>
      let nodeId := prefix12 only.(c_public_key) in
      (Some nodeId, addOrUpdateNode state (contact_update only nodeId activityAtMs))
    | _ => resolveAmbiguous now state context lookupValue filtered isRepeater activityAtMs
             trafficContext
    end
  end.

Definition resolveNode (now : Z) (state : PacketNetworkState) (context : PacketNetworkContext)
    (source : NodeSource) (isRepeater showAmbiguous : bool) (activityAtMs : Z)
    (trafficContext : option TrafficContext) : option jstr * PacketNetworkState :=
  match source with
  | FromPubkey value => resolvePubkey state context value activityAtMs
  | FromName value => resolveName state context value activityAtMs
  | FromPrefix value =>
    resolvePrefix now state context value isRepeater showAmbiguous activityAtMs trafficContext
  end.

(** ** Ingesting a packet *)

Section decoder.
Context `{MeshDecoder}.

(** The source of the packet: the node the path starts with, if any. *)
Definition resolveSource (now : Z) (state : PacketNetworkState) (context : PacketNetworkContext)
    (parsed : ParsedPacket) (packet : RawPacket) (activityAtMs : Z)
    : option jstr * PacketNetworkState :=
  let t := parsed.(pp_payloadType) in
  let resolve source showAmbiguous :=
    resolveNode now state context source false showAmbiguous activityAtMs None in
  match (if t =? PT_Advert then truthy parsed.(pp_advertPubkey) else None),
        (if t =? PT_AnonRequest then truthy parsed.(pp_anonRequestPubkey) else None),
        (if t =? PT_TextMessage then truthy parsed.(pp_srcHash) else None) with
  | Some key, _, _ => resolve (FromPubkey key) false
  | None, Some key, _ => resolve (FromPubkey key) false
  | None, None, Some src =>
    if is_self context (toLowerCase src) then (Some self_id, state)
    else resolve (FromPrefix src) true
  | None, None, None =>
    if t =? PT_GroupText then
      match (match truthy parsed.(pp_groupTextSender) with
             | Some s => Some s
             | None => truthy (packet.(rp_decrypted_info) ≫= di_sender)
             end) with
      | Some senderName => resolve (FromName senderName) false
      | None => (None, state)
      end
    else (None, state)
  end.

(** The loop over the hop tokens. *)
Fixpoint resolve_hops_from (now : Z) (state : PacketNetworkState) (context : PacketNetworkContext)
    (packetSource : option jstr) (activityAtMs : Z) (pathBytes path : list jstr)
    : list jstr * PacketNetworkState :=
  match pathBytes with
  | [] => (path, state)
  | hop :: rest =>
    let '(nodeId, state) :=
      resolveNode now state context (FromPrefix hop) true true activityAtMs
        (Some {| tc_packetSource := packetSource; tc_nextPrefix := truthy (head rest) |}) in
    let path := match truthy nodeId with Some id => path ++ [id] | None => path end in
    resolve_hops_from now state context packetSource activityAtMs rest path
  end.

Definition buildCanonicalPathForPacket (now : Z) (state : PacketNetworkState)
    (context : PacketNetworkContext) (parsed : ParsedPacket) (packet : RawPacket)
    (activityAtMs : Z) : list jstr * PacketNetworkState :=
  let t := parsed.(pp_payloadType) in
  let isDm := t =? PT_TextMessage in
  let isOutgoingDm :=
    isDm && match truthy context.(cxt_myPrefix) with
            | Some p => (toLowerCase <$> parsed.(pp_srcHash)) ≟ Some p
            | None => false
            end in
  let '(source, state) := resolveSource now state context parsed packet activityAtMs in
  let packetSource := truthy source in
  let path := match packetSource with Some id => [id] | None => [] end in
  let '(path, state) :=
    resolve_hops_from now state context packetSource activityAtMs parsed.(pp_pathBytes) path in
  let path :=
    match (if isDm then truthy parsed.(pp_dstHash) else None) with
    | Some dst =>
      if is_self context (toLowerCase dst) then path ++ [self_id]
      else if negb isOutgoingDm && (0 <? len path) then path ++ [self_id] else path
    | None => if 0 <? len path then path ++ [self_id] else path
    end in
  (dedupeConsecutive path, state).

(** [node.lastActivityReason = ...] for every node of the path but [self], in order. *)
Definition mark_reason (label : jstr) (nodes : gmap jstr PacketNetworkNode) (p : nat * jstr)
    : gmap jstr PacketNetworkNode :=
  match nodes !! p.2 with
  | Some node =>
    if negb (node.(nd_id) ≟ self_id) then
      <[p.2 := node <| nd_lastActivityReason :=
                 Some (if (p.1 =? 0)%nat then label ++ js " source" else js "Relayed " ++ label) |>]>
        nodes
    else nodes
  | None => nodes
  end.

Definition index_list {A} (l : list A) : list (nat * A) := imap pair l.

(** The consecutive pairs of a path. *)
Fixpoint path_edges (path : list jstr) : list (jstr * jstr) :=
  match path with
  | a :: (b :: _) as rest => (a, b) :: path_edges rest
  | _ => []
  end.

Definition link_edge (activityAtMs : Z) (s : PacketNetworkState) (e : jstr * jstr)
    : PacketNetworkState :=
  if negb (e.1 ≟ e.2) then
    s <| ns_links := addCanonicalLink s.(ns_links) e.1 e.2 activityAtMs |>
      <| ns_neighborIds := upsertNeighbor s.(ns_neighborIds) e.1 e.2 |>
  else s.

Definition ingestPacketIntoPacketNetwork (now : Z) (state : PacketNetworkState)
    (context : PacketNetworkContext) (packet : RawPacket)
    : option IngestResult * PacketNetworkState :=
  match parsePacket packet.(rp_data) with
  | None => (None, state)
  | Some parsed =>
    let activityAtMs := packet.(rp_received_at_ms) ??
      normalizePacketTimestampMs now (Some packet.(rp_timestamp)) in
    let '(canonicalPath, state) :=
      buildCanonicalPathForPacket now state context parsed packet activityAtMs in
    if len canonicalPath <? 2 then (None, state) else
    let label := getPacketLabel parsed.(pp_payloadType) in
    let state := state <| ns_nodes :=
      foldl (mark_reason label) state.(ns_nodes) (index_list canonicalPath) |> in
    let state := state <| ns_observations := state.(ns_observations) ++
      [{| ob_nodes := canonicalPath; ob_activityAtMs := activityAtMs |}] |> in
    let state := foldl (link_edge activityAtMs) state (path_edges canonicalPath) in
    (Some {| ir_parsed := parsed; ir_label := label; ir_canonicalPath := canonicalPath;
             ir_activityAtMs := activityAtMs |}, state)
  end.
End decoder.
End locale.

(** ** Projecting the network on what is shown *)

Definition isPacketNetworkNodeVisible (node : option PacketNetworkNode)
    (visibility : VisibilityOptions) : bool :=
  match node with
  | None => false
  | Some node =>
    if node.(nd_id) ≟ self_id then true
    else if negb node.(nd_isAmbiguous) then true
    else if node.(nd_type) ≟ NtRepeater then visibility.(vo_showAmbiguousPaths)
    else visibility.(vo_showAmbiguousNodes)
  end.

(** The next hops seen after each repeater that is known without ambiguity. *)
Definition known_next_hop (nodes : gmap jstr PacketNetworkNode) (m : gmap jstr (gset jstr))
    (e : jstr * jstr) : gmap jstr (gset jstr) :=
  match nodes !! e.1 with
  | Some n =>
    if negb (n.(nd_type) ≟ NtRepeater) || n.(nd_isAmbiguous) then m
    else <[n.(nd_id) := {[e.2]} ∪ default ∅ (m !! n.(nd_id))]> m
  | None => m
  end.

Definition alias_edge (nodes : gmap jstr PacketNetworkNode) (known : gmap jstr (gset jstr))
    (aliases : gmap jstr jstr) (e : jstr * jstr) : gmap jstr jstr :=
  match nodes !! e.1 with
  | Some n =>
    if negb (n.(nd_type) ≟ NtRepeater) || negb n.(nd_isAmbiguous) then aliases else
    match truthy (n.(nd_probableIdentityNodeId) ≫= id) ≫= (nodes !!.) with
    | Some probable =>
      if negb (probable.(nd_type) ≟ NtRepeater) || probable.(nd_isAmbiguous) then aliases
      else if bool_decide (e.2 ∈ default ∅ (known !! probable.(nd_id)))
           then <[e.1 := probable.(nd_id)]> aliases else aliases
    | None => aliases
    end
  | None => aliases
  end.

Definition all_edges (state : PacketNetworkState) : list (jstr * jstr) :=
  state.(ns_observations) ≫= fun o => path_edges o.(ob_nodes).

Definition buildKnownSiblingRepeaterAliasMap (state : PacketNetworkState)
    (visibility : VisibilityOptions) : gmap jstr jstr :=
  if negb visibility.(vo_collapseLikelyKnownSiblingRepeaters)
     || negb visibility.(vo_showAmbiguousPaths) then ∅ else
  let known := foldl (known_next_hop state.(ns_nodes)) ∅ (all_edges state) in
  foldl (alias_edge state.(ns_nodes) known) ∅ (all_edges state).

Definition path_step (state : PacketNetworkState) (visibility : VisibilityOptions)
    (aliases : gmap jstr jstr) (n : Z) (p : nat * jstr) : PathStep :=
  let node := state.(ns_nodes) !! p.2 in
  let visible := isPacketNetworkNodeVisible node visibility in
  {| ps_nodeId := if visible then Some (aliases !! p.2 ?? p.2) else None;
     ps_markHiddenLinkWhenOmitted :=
       negb visible
       && match node with Some nd => nd.(nd_type) ≟ NtRepeater | None => false end
       && (0 <? Z.of_nat p.1) && (Z.of_nat p.1 <? n - 1);
     ps_hiddenLabel := None |}.

Definition projectCanonicalPathWithAliases (state : PacketNetworkState) (canonicalPath : list jstr)
    (visibility : VisibilityOptions) (aliases : gmap jstr jstr) : ProjectedPath :=
  let '(nodes, dashed) := compactPathSteps
    (path_step state visibility aliases (len canonicalPath) <$> index_list canonicalPath) in
  {| pj_nodes := dedupeConsecutive nodes; pj_dashedLinkDetails := dashed |}.

Definition projectCanonicalPath (state : PacketNetworkState) (canonicalPath : list jstr)
    (visibility : VisibilityOptions) : ProjectedPath :=
  projectCanonicalPathWithAliases state canonicalPath visibility
    (buildKnownSiblingRepeaterAliasMap state visibility).

(** One link of a projected path, merged into the links so far. *)
Definition project_edge (activityAtMs : Z) (dashed : gmap jstr (list jstr))
    (links : gmap jstr ProjectedLink) (e : jstr * jstr) : gmap jstr ProjectedLink :=
  if e.1 ≟ e.2 then links else
  let key := buildLinkKey e.1 e.2 in
  let hidden := bool_decide (is_Some (dashed !! key)) in
  match links !! key with
  | Some ex =>
    <[key := {| pl_sourceId := ex.(pl_sourceId); pl_targetId := ex.(pl_targetId);
                pl_lastActivity := Z.max ex.(pl_lastActivity) activityAtMs;
                pl_hasDirectObservation := if hidden then ex.(pl_hasDirectObservation) else true;
                pl_hasHiddenIntermediate := if hidden then true else ex.(pl_hasHiddenIntermediate);
                pl_hiddenHopLabels :=
                  if hidden then foldl push_new ex.(pl_hiddenHopLabels) (default [] (dashed !! key))
                  else ex.(pl_hiddenHopLabels) |}]> links
  | None =>
    <[key := {| pl_sourceId := e.1; pl_targetId := e.2; pl_lastActivity := activityAtMs;
                pl_hasDirectObservation := negb hidden; pl_hasHiddenIntermediate := hidden;
                pl_hiddenHopLabels := default [] (dashed !! key) |}]> links
  end.

Definition project_observation (state : PacketNetworkState) (visibility : VisibilityOptions)
    (aliases : gmap jstr jstr)
    (acc : gmap jstr PacketNetworkNode * gmap jstr ProjectedLink) (o : PacketNetworkObservation)
    : gmap jstr PacketNetworkNode * gmap jstr ProjectedLink :=
  let projected := projectCanonicalPathWithAliases state o.(ob_nodes) visibility aliases in
  if len projected.(pj_nodes) <? 2 then acc else
  (foldl (fun m id => match state.(ns_nodes) !! id with
                      | Some node => <[id := node]> m | None => m end) acc.1 projected.(pj_nodes),
   foldl (project_edge o.(ob_activityAtMs) projected.(pj_dashedLinkDetails)) acc.2
     (path_edges projected.(pj_nodes))).

Definition projectPacketNetwork (state : PacketNetworkState) (visibility : VisibilityOptions)
    : PacketNetworkProjection :=
  let aliases := buildKnownSiblingRepeaterAliasMap state visibility in
  let nodes := match state.(ns_nodes) !! self_id with
               | Some selfNode => {[self_id := selfNode]} | None => ∅ end in
  let '(nodes, links) :=
    foldl (project_observation state visibility aliases) (nodes, ∅) state.(ns_observations) in
  {| pn_nodes := nodes; pn_links := links; pn_renderedNodeIds := dom nodes |}.

(** ** Pruning *)

Definition kept (cutoff : Z) (p : jstr * PacketNetworkNode) : Prop :=
  p.1 = self_id \/ cutoff <= p.2.(nd_lastActivity).
#[export] Instance kept_dec cutoff p : Decision (kept cutoff p).
Proof. unfold kept. apply _. Defined.

(** The neighbour sets rebuilt from the links that are left. *)
Definition neighbors_of (links : gmap jstr PacketNetworkLink) : gmap jstr (gset jstr) :=
  foldl (fun m p => upsertNeighbor m p.2.(lk_sourceId) p.2.(lk_targetId)) ∅ (map_to_list links).

Definition prunePacketNetworkState (state : PacketNetworkState) (cutoff : Z)
    : bool * PacketNetworkState :=
  let nodes := filter (kept cutoff) state.(ns_nodes) in
  let pruned := negb (size nodes =? size state.(ns_nodes))%nat in
  if negb pruned then (false, state) else
  let links := filter (fun p => is_Some (nodes !! p.2.(lk_sourceId))
                                /\ is_Some (nodes !! p.2.(lk_targetId))) state.(ns_links) in
  (true, state
    <| ns_nodes := nodes |>
    <| ns_links := links |>
    <| ns_observations :=
         filter (fun o => Forall (fun id => is_Some (nodes !! id)) o.(ob_nodes))
           state.(ns_observations) |>
    <| ns_neighborIds := neighbors_of links |>).

Definition snapshotNeighborIds (state : PacketNetworkState) : gmap jstr (list jstr) :=
  (fun ids : gset jstr => js_sort str_compare (elements ids)) <$> state.(ns_neighborIds).
