(* ===== verification/NetworkGraphProps.v ===== *)
(** The packet network stays a graph: every link, neighbour and observation is about nodes
    that are there, pruning keeps what is still active, and the projection shows visible
    nodes only. *)
From S2P Require Import Prelude JsString JsCollections JsNum Types Visualizer VisualizerProps NetworkGraph.

(** ** Link keys *)

Lemma buildLinkKey_comm a b : buildLinkKey a b = buildLinkKey b a.
Proof.
  unfold buildLinkKey. cbn [js_sort foldr insert_sorted].
  rewrite (str_compare_antisym b a). destruct (str_compare a b) eqn:E; simpl; try done.
  by apply str_compare_Eq in E as ->.
Qed.

(** ** The invariant *)

Notation node_map := (gmap jstr PacketNetworkNode).

Definition nbrs (m : gmap jstr (gset jstr)) (id : jstr) : gset jstr := default ∅ (m !! id).

(** A node that was active at [t] or later; [self] never expires. *)
Definition alive (nodes : node_map) (t : Z) (id : jstr) : Prop :=
  exists n, nodes !! id = Some n /\ (id = self_id \/ t <= n.(nd_lastActivity)).

Definition link_ok (nodes : node_map) (key : jstr) (l : PacketNetworkLink) : Prop :=
  key = buildLinkKey l.(lk_sourceId) l.(lk_targetId) /\ l.(lk_sourceId) <> l.(lk_targetId)
  /\ is_Some (nodes !! l.(lk_sourceId)) /\ is_Some (nodes !! l.(lk_targetId)).

Definition obs_ok (nodes : node_map) (o : PacketNetworkObservation) : Prop :=
  2 <= len o.(ob_nodes) /\ no_repeat o.(ob_nodes)
  /\ Forall (alive nodes o.(ob_activityAtMs)) o.(ob_nodes).

Record net_ok (s : PacketNetworkState) : Prop := {
  nk_self : is_Some (s.(ns_nodes) !! self_id);
  nk_ids : map_Forall (fun id n => n.(nd_id) = id) s.(ns_nodes);
  nk_links : map_Forall (link_ok s.(ns_nodes)) s.(ns_links);
  nk_obs : Forall (obs_ok s.(ns_nodes)) s.(ns_observations);
  nk_sym : forall a b, b ∈ nbrs s.(ns_neighborIds) a <-> a ∈ nbrs s.(ns_neighborIds) b;
  nk_nbr : forall a b, b ∈ nbrs s.(ns_neighborIds) a -> is_Some (s.(ns_links) !! buildLinkKey a b);
  nk_link_nbr : map_Forall (fun _ l =>
    l.(lk_targetId) ∈ nbrs s.(ns_neighborIds) l.(lk_sourceId)) s.(ns_links);
}.

(** Nodes are only added, and their activity only grows. *)
Definition grown (m m' : node_map) : Prop :=
  forall id n, m !! id = Some n ->
    exists n', m' !! id = Some n' /\ n.(nd_lastActivity) <= n'.(nd_lastActivity).

#[export] Instance grown_preorder : PreOrder grown.
Proof.
  split.
  - intros m id n E. exists n. split; [done|lia].
  - intros m1 m2 m3 H1 H2 id n E. destruct (H1 id n E) as (n2 & E2 & ?).
    destruct (H2 id n2 E2) as (n3 & E3 & ?). exists n3. split; [done|lia].
Qed.

Lemma grown_is_Some m m' id : grown m m' -> is_Some (m !! id) -> is_Some (m' !! id).
Proof. intros Hg [n E]. destruct (Hg id n E) as (n' & -> & _). done. Qed.

Lemma grown_alive m m' t id : grown m m' -> alive m t id -> alive m' t id.
Proof.
  intros Hg (n & E & Ht). destruct (Hg id n E) as (n' & E' & Hle). exists n'.
  split; [done|]. destruct Ht; [by left|right; lia].
Qed.

Lemma grown_link m m' key l : grown m m' -> link_ok m key l -> link_ok m' key l.
Proof. intros Hg (?&?&?&?). repeat split; eauto using grown_is_Some. Qed.

Lemma grown_obs m m' o : grown m m' -> obs_ok m o -> obs_ok m' o.
Proof.
  intros Hg (?&?&Hf). split; [done|]. split; [done|].
  eapply Forall_impl; [exact Hf|]. intros id. by apply grown_alive.
Qed.

Lemma grown_insert m id n :
  (forall n0, m !! id = Some n0 -> n0.(nd_lastActivity) <= n.(nd_lastActivity)) ->
  grown m (<[id := n]> m).
Proof.
  intros Hle id' n' E. destruct (decide (id = id')) as [<-|Hne].
  - exists n. rewrite lookup_insert_eq. split; [done|]. by apply Hle.
  - exists n'. rewrite lookup_insert_ne by done. split; [done|lia].
Qed.

(** A step that only touches nodes. *)
Record nodes_step (s s' : PacketNetworkState) : Prop := {
  st_links : s'.(ns_links) = s.(ns_links);
  st_nbrs : s'.(ns_neighborIds) = s.(ns_neighborIds);
  st_obs : s'.(ns_observations) = s.(ns_observations);
  st_grown : grown s.(ns_nodes) s'.(ns_nodes);
  st_ids : map_Forall (fun id n => n.(nd_id) = id) s.(ns_nodes) ->
           map_Forall (fun id n => n.(nd_id) = id) s'.(ns_nodes);
}.

#[export] Instance nodes_step_preorder : PreOrder nodes_step.
Proof.
  split; [done|]. intros s1 s2 s3 [A1 B1 C1 D1 E1] [A2 B2 C2 D2 E2].
  constructor; [congruence..|by etrans|auto].
Qed.

Lemma nodes_step_ok s s' : nodes_step s s' -> net_ok s -> net_ok s'.
Proof.
  intros [A B C D E] [H1 H2 H3 H4 H5 H6 H7]. constructor; rewrite ?A, ?B, ?C; auto.
  - by eapply grown_is_Some.
  - eapply map_Forall_impl; [exact H3|]. intros key l. by apply grown_link.
  - eapply Forall_impl; [exact H4|]. intros o. by apply grown_obs.
Qed.

Lemma addOrUpdateNode_step s u : nodes_step s (addOrUpdateNode s u).
Proof.
  constructor; try done; cbn.
  - apply grown_insert. intros n0 ->. cbn. lia.
  - intros Hids. apply map_Forall_insert_2; [|done].
    destruct (ns_nodes s !! nu_id u) as [n0|] eqn:E; [|done]. cbn. by apply (Hids _ _ E).
Qed.

Lemma addOrUpdateNode_alive s u :
  alive (addOrUpdateNode s u).(ns_nodes) u.(nu_activityAtMs) u.(nu_id).
Proof.
  unfold alive, addOrUpdateNode. cbn. rewrite lookup_insert_eq. eexists. split; [done|]. right.
  destruct (ns_nodes s !! nu_id u); cbn; lia.
Qed.

(** ** Resolving *)

(** What resolving a token does: nodes may be added, and the answer is a live node. *)
Definition resolves (s : PacketNetworkState) (t : Z) (r : option jstr * PacketNetworkState) : Prop :=
  nodes_step s r.2
  /\ (is_Some (s.(ns_nodes) !! self_id) -> forall id, r.1 = Some id -> alive r.2.(ns_nodes) t id).

Lemma resolves_none s t : resolves s t (None, s).
Proof. split; [done|]. by intros _ id. Qed.

Lemma resolves_self s t : resolves s t (Some self_id, s).
Proof. split; [done|]. intros [n E] id [= <-]. exists n. split; [done|by left]. Qed.

Lemma resolves_update s u :
  resolves s u.(nu_activityAtMs) (Some u.(nu_id), addOrUpdateNode s u).
Proof. split; [apply addOrUpdateNode_step|]. intros _ id [= <-]. apply addOrUpdateNode_alive. Qed.

Section resolve.
Context (localeCompare : jstr -> jstr -> comparison).

Lemma resolveAmbiguous_resolves now s c v filtered rep t tc :
  resolves s t (resolveAmbiguous localeCompare now s c v filtered rep t tc).
Proof.
  unfold resolveAmbiguous. destruct (_ && negb rep); [apply resolves_none|]. cbv zeta.
  match goal with |- resolves s t (let '(a, traffic) := ?p in _) => destruct p as [a traffic] end.
  cbv zeta. match goal with |- resolves s t (_, addOrUpdateNode _ ?u) =>
    destruct (resolves_update (s <| ns_trafficPatterns := traffic |>) u) as [[A B C D E] Ha] end.
  split; [by constructor|exact Ha].
Qed.

Lemma resolveNode_resolves now s c src rep amb t tc :
  resolves s t (resolveNode localeCompare now s c src rep amb t tc).
Proof.
  assert (Hupd : forall id u, u.(nu_id) = id -> u.(nu_activityAtMs) = t ->
    resolves s t (Some id, addOrUpdateNode s u)) by (intros id u <- <-; apply resolves_update).
  assert (Hcontact : forall contact, resolves s t
    (let nodeId := prefix12 contact.(c_public_key) in
     if is_self c nodeId then (Some self_id, s)
     else (Some nodeId, addOrUpdateNode s (contact_update contact nodeId t)))).
  { intros contact. cbv zeta. destruct (is_self _ _); [apply resolves_self|by apply Hupd]. }
  destruct src as [value|value|value]; cbn [resolveNode].
  - unfold resolvePrefix. cbv zeta.
    destruct (default [] _) as [|m0 [|m1 ms]]; [|apply Hcontact|];
      (destruct (negb amb); [apply resolves_none|]);
      (destruct (filter _ _) as [|f0 [|f1 fs]];
         [apply resolveAmbiguous_resolves|by apply Hupd|apply resolveAmbiguous_resolves]).
  - unfold resolvePubkey. cbv zeta. destruct (_ <? 12); [apply resolves_none|].
    destruct (is_self _ _); [apply resolves_self|]. apply Hupd; by destruct (cx_byPrefix12 _ !! _).
  - unfold resolveName. destruct (cx_byName _ !! value) as [contact|]; [apply Hcontact|by apply Hupd].
Qed.
End resolve.

(** ** Canonical paths *)

Definition path_ok (s : PacketNetworkState) (t : Z) (path : list jstr) : Prop :=
  Forall (alive s.(ns_nodes) t) path.

Lemma path_ok_step s s' t path : nodes_step s s' -> path_ok s t path -> path_ok s' t path.
Proof.
  intros [_ _ _ Hg _] Hp. eapply Forall_impl; [exact Hp|]. intros id. by apply grown_alive.
Qed.

Lemma nodes_step_self s s' :
  nodes_step s s' -> is_Some (s.(ns_nodes) !! self_id) -> is_Some (s'.(ns_nodes) !! self_id).
Proof. intros [_ _ _ Hg _]. by apply grown_is_Some. Qed.

Lemma path_ok_snoc_opt s t path r :
  path_ok s t path -> (forall id, r = Some id -> alive s.(ns_nodes) t id) ->
  path_ok s t (match truthy r with Some id => path ++ [id] | None => path end).
Proof.
  intros Hp Hr. destruct r as [[|u id]|]; [done| |done]. simpl.
  apply Forall_app. split; [done|]. constructor; [by apply Hr|constructor].
Qed.

Lemma self_alive s t : is_Some (s.(ns_nodes) !! self_id) -> alive s.(ns_nodes) t self_id.
Proof. intros [n E]. exists n. split; [done|by left]. Qed.

Section canonical.
Context (localeCompare : jstr -> jstr -> comparison) `{MeshDecoder}.

Lemma resolveSource_resolves now s c parsed packet t :
  resolves s t (resolveSource localeCompare now s c parsed packet t).
Proof.
  unfold resolveSource. cbv zeta.
  destruct (if _ =? PT_Advert then _ else None); [apply resolveNode_resolves|].
  destruct (if _ =? PT_AnonRequest then _ else None); [apply resolveNode_resolves|].
  destruct (if _ =? PT_TextMessage then _ else None) as [src|].
  - destruct (is_self _ _); [apply resolves_self|apply resolveNode_resolves].
  - destruct (_ =? PT_GroupText); [|apply resolves_none].
    destruct (match truthy parsed.(pp_groupTextSender) with Some s => Some s | None => _ end);
      [apply resolveNode_resolves|apply resolves_none].
Qed.

Lemma resolve_hops_ok now c src t hops s path :
  is_Some (s.(ns_nodes) !! self_id) -> path_ok s t path ->
  let r := resolve_hops_from localeCompare now s c src t hops path in
  nodes_step s r.2 /\ path_ok r.2 t r.1.
Proof.
  cbv zeta. revert s path. induction hops as [|hop hops IH]; intros s path Hself Hp; [done|].
  cbn [resolve_hops_from].
  match goal with |- context [resolveNode ?a ?b ?c ?d ?e ?f ?g ?h ?i] =>
    pose proof (resolveNode_resolves a b c d e f g h i) as [Hs Hr];
    destruct (resolveNode a b c d e f g h i) as [r s'] end.
  cbn [fst snd] in *. specialize (Hr Hself).
  edestruct (IH s') as [Hs' Hp']; [by eapply nodes_step_self| |split; [by etrans|exact Hp']].
  apply path_ok_snoc_opt; [by eapply path_ok_step|done].
Qed.

Lemma canonical_path_ok now s c parsed packet t :
  is_Some (s.(ns_nodes) !! self_id) ->
  let r := buildCanonicalPathForPacket localeCompare now s c parsed packet t in
  nodes_step s r.2 /\ path_ok r.2 t r.1 /\ no_repeat r.1
  /\ (parsed.(pp_payloadType) <> PT_TextMessage -> r.1 <> [] -> last r.1 = Some self_id).
Proof.
  intros Hself. cbv zeta. unfold buildCanonicalPathForPacket. cbv zeta.
  pose proof (resolveSource_resolves now s c parsed packet t) as [Hs Hr].
  destruct (resolveSource _ _ _ _ _ _ _) as [src s1]. cbn [fst snd] in *. specialize (Hr Hself).
  assert (Hself1 : is_Some (s1.(ns_nodes) !! self_id)) by (by eapply nodes_step_self).
  assert (Hp0 : path_ok s1 t (match truthy src with Some id => [id] | None => [] end))
    by (apply (path_ok_snoc_opt s1 t [] src); [constructor|done]).
  pose proof (resolve_hops_ok now c (truthy src) t parsed.(pp_pathBytes) s1 _ Hself1 Hp0) as [Hs2 Hp].
  destruct (resolve_hops_from _ _ _ _ _ _ _ _) as [path s2]. cbn [fst snd] in *.
  assert (Hself2 : is_Some (s2.(ns_nodes) !! self_id)) by (by eapply nodes_step_self).
  split; [by etrans|].
  match goal with |- path_ok s2 t (dedupeConsecutive ?p) /\ _ => set (path' := p) end.
  assert (Hp' : path_ok s2 t path').
  { assert (path_ok s2 t (path ++ [self_id]))
      by (apply Forall_app; split; [done|]; constructor; [by apply self_alive|constructor]).
    unfold path'. repeat case_match; done. }
  split; [|split; [apply no_repeat_dedupe|]].
  - apply Forall_forall. intros id Hid. apply (proj1 (elem_of_dedupe _ _)) in Hid.
    exact (proj1 (Forall_forall _ _) Hp' id Hid).
  - intros Ht Hne. rewrite last_dedupe. unfold path' in *.
    destruct (Z.eqb_spec parsed.(pp_payloadType) PT_TextMessage); [done|].
    destruct (Z.ltb_spec 0 (len path)) as [Hl|Hl]; [by rewrite last_snoc|].
    destruct path; [done|]. rewrite len_cons in Hl. pose proof (len_nonneg path). lia.
Qed.
End canonical.

(** ** Links *)

Lemma nbrs_add m id other x :
  nbrs (add_neighbor m id other) x = if decide (id = x) then {[other]} ∪ nbrs m id else nbrs m x.
Proof.
  unfold nbrs, add_neighbor. case_decide as E; [subst; by rewrite lookup_insert_eq|].
  by rewrite lookup_insert_ne.
Qed.

Lemma elem_of_upsert m a b x y :
  y ∈ nbrs (upsertNeighbor m a b) x <->
  y ∈ nbrs m x \/ (x = a /\ y = b) \/ (x = b /\ y = a).
Proof.
  unfold upsertNeighbor. rewrite !nbrs_add. repeat case_decide; subst; rewrite ?nbrs_add;
    repeat case_decide; subst; set_solver.
Qed.

Lemma addCanonicalLink_lookup links a b t key :
  is_Some (addCanonicalLink links a b t !! key) <->
  is_Some (links !! key) \/ key = buildLinkKey a b.
Proof.
  unfold addCanonicalLink.
  destruct (links !! buildLinkKey a b); rewrite lookup_insert_is_Some'; naive_solver.
Qed.

Lemma addCanonicalLink_Forall (P : jstr -> jstr -> jstr -> Prop) links a b t :
  map_Forall (fun key l => P key l.(lk_sourceId) l.(lk_targetId)) links ->
  P (buildLinkKey a b) a b ->
  map_Forall (fun key l => P key l.(lk_sourceId) l.(lk_targetId)) (addCanonicalLink links a b t).
Proof.
  intros Hl Hp. unfold addCanonicalLink.
  destruct (links !! buildLinkKey a b) as [ex|] eqn:E; apply map_Forall_insert_2; try done.
  cbn. by apply (Hl _ _ E).
Qed.

(** What the loop over the edges of a path keeps. *)
Lemma link_edge_ok t s e :
  net_ok s -> is_Some (s.(ns_nodes) !! e.1) -> is_Some (s.(ns_nodes) !! e.2) ->
  net_ok (link_edge t s e).
Proof.
  destruct e as [a b]. intros [H1 H2 H3 H4 H5 H6 H7] Ha Hb. unfold link_edge. cbn [fst snd] in *.
  case_bool_decide as Hne; [by constructor|]. cbn [negb]. constructor; cbn; try done.
  - by apply (addCanonicalLink_Forall (fun key x y => key = buildLinkKey x y /\ x <> y
      /\ is_Some (ns_nodes s !! x) /\ is_Some (ns_nodes s !! y))).
  - intros x y. rewrite !elem_of_upsert, H5. tauto.
  - intros x y [Hxy|[[-> ->]|[-> ->]]]%elem_of_upsert; apply addCanonicalLink_lookup.
    + left. by apply H6.
    + by right.
    + right. apply buildLinkKey_comm.
  - apply (addCanonicalLink_Forall (fun _ x y => y ∈ nbrs (upsertNeighbor (ns_neighborIds s) a b) x)).
    + eapply map_Forall_impl; [exact H7|]. intros key l Hl. apply elem_of_upsert. by left.
    + apply elem_of_upsert. tauto.
Qed.

Lemma link_edge_nodes t s e : (link_edge t s e).(ns_nodes) = s.(ns_nodes).
Proof. unfold link_edge. by destruct (negb _). Qed.
Lemma link_edge_obs t s e : (link_edge t s e).(ns_observations) = s.(ns_observations).
Proof. unfold link_edge. by destruct (negb _). Qed.

Lemma link_edge_grows t s e a b :
  b ∈ nbrs s.(ns_neighborIds) a -> b ∈ nbrs (link_edge t s e).(ns_neighborIds) a.
Proof.
  intros Hb. unfold link_edge. destruct (negb _); [|done]. cbn. apply elem_of_upsert. by left.
Qed.

Lemma fold_edges t es s :
  net_ok s -> Forall (fun e => is_Some (s.(ns_nodes) !! e.1) /\ is_Some (s.(ns_nodes) !! e.2)) es ->
  let s' := foldl (link_edge t) s es in
  net_ok s' /\ s'.(ns_nodes) = s.(ns_nodes) /\ s'.(ns_observations) = s.(ns_observations)
  /\ (forall a b, b ∈ nbrs s.(ns_neighborIds) a -> b ∈ nbrs s'.(ns_neighborIds) a)
  /\ forall a b, (a, b) ∈ es -> a <> b -> b ∈ nbrs s'.(ns_neighborIds) a.
Proof.
  cbv zeta. revert s. induction es as [|e es IH]; intros s Hs Hes; [set_solver|].
  apply Forall_cons in Hes as [[Ha Hb] Hes]. cbn [foldl].
  destruct (IH (link_edge t s e)) as (A & B & C & D & E); [by apply link_edge_ok|by rewrite link_edge_nodes|].
  rewrite link_edge_nodes in B. rewrite link_edge_obs in C. split_and!; [done|done|done| |].
  - intros a b Hab. by apply D, link_edge_grows.
  - intros a b [Heq|Hin]%elem_of_cons Hne; [|by apply E]. apply D. subst e. unfold link_edge.
    cbn [fst snd]. rewrite bool_decide_eq_false_2 by done. cbn. apply elem_of_upsert. tauto.
Qed.

Lemma elem_of_path_edges path a b : (a, b) ∈ path_edges path -> a ∈ path /\ b ∈ path.
Proof.
  induction path as [|x path IH]; [set_solver|]. destruct path as [|y path]; [set_solver|].
  cbn [path_edges]. rewrite elem_of_cons. intros [E|Hin]; [simplify_eq; set_solver|].
  apply IH in Hin. set_solver.
Qed.

Lemma path_edges_in path (P : jstr -> Prop) :
  Forall P path -> Forall (fun e => P e.1 /\ P e.2) (path_edges path).
Proof.
  rewrite !Forall_forall. intros Hp [a b] [Ha Hb]%elem_of_path_edges. split; auto.
Qed.

(** ** Ingesting *)

Lemma mark_reason_grown label m p : grown m (mark_reason label m p).
Proof.
  unfold mark_reason. destruct (m !! p.2) as [n|] eqn:E; [|done].
  destruct (negb _); [|done]. apply grown_insert. intros n0 E0. simplify_eq. cbn. lia.
Qed.

Lemma mark_reason_ids label m p :
  map_Forall (fun id n => n.(nd_id) = id) m ->
  map_Forall (fun id n => n.(nd_id) = id) (mark_reason label m p).
Proof.
  intros Hm. unfold mark_reason. destruct (m !! p.2) as [n|] eqn:E; [|done].
  destruct (negb _); [|done]. apply map_Forall_insert_2; [|done]. cbn. by apply (Hm _ _ E).
Qed.

Lemma mark_reasons_step s label ps :
  nodes_step s (s <| ns_nodes := foldl (mark_reason label) s.(ns_nodes) ps |>).
Proof.
  constructor; try done; cbn.
  - generalize s.(ns_nodes) as m. induction ps as [|p ps IH]; intros m; [done|]. cbn [foldl].
    etrans; [apply mark_reason_grown|apply IH].
  - generalize s.(ns_nodes) as m. induction ps as [|p ps IH]; intros m Hm; [done|]. cbn [foldl].
    by apply IH, mark_reason_ids.
Qed.

Lemma add_observation_ok s o :
  net_ok s -> obs_ok s.(ns_nodes) o ->
  net_ok (s <| ns_observations := s.(ns_observations) ++ [o] |>).
Proof.
  intros [H1 H2 H3 H4 H5 H6 H7] Ho. constructor; try done. cbn. apply Forall_app.
  split; [done|]. by constructor.
Qed.

Section ingest.
Context (localeCompare : jstr -> jstr -> comparison) `{MeshDecoder}.

(** What a packet leaves: the state is still a graph, and an accepted packet's path is the
    last observation, alive, with an edge between its consecutive nodes. *)
Lemma ingest_ok now s c packet :
  net_ok s ->
  let r := ingestPacketIntoPacketNetwork localeCompare now s c packet in
  net_ok r.2
  /\ forall x, r.1 = Some x ->
       last r.2.(ns_observations) =
         Some {| ob_nodes := x.(ir_canonicalPath); ob_activityAtMs := x.(ir_activityAtMs) |}
       /\ obs_ok r.2.(ns_nodes)
            {| ob_nodes := x.(ir_canonicalPath); ob_activityAtMs := x.(ir_activityAtMs) |}
       /\ (forall a b, (a, b) ∈ path_edges x.(ir_canonicalPath) -> a <> b ->
             b ∈ nbrs r.2.(ns_neighborIds) a)
       /\ (x.(ir_parsed).(pp_payloadType) <> PT_TextMessage ->
             last x.(ir_canonicalPath) = Some self_id).
Proof.
  intros Hok. cbv zeta. unfold ingestPacketIntoPacketNetwork. cbv zeta.
  destruct (parsePacket packet.(rp_data)) as [parsed|]; [|split; [done|by intros x]].
  set (t := packet.(rp_received_at_ms) ?? _).
  pose proof (canonical_path_ok localeCompare now s c parsed packet t (nk_self s Hok)) as Hc.
  cbv zeta in Hc. destruct (buildCanonicalPathForPacket _ _ _ _ _ _ _) as [path s1].
  cbn [fst snd] in Hc. destruct Hc as (Hs1 & Hp & Hnr & Hlast).
  pose proof (nodes_step_ok _ _ Hs1 Hok) as Hok1.
  destruct (Z.ltb_spec (len path) 2) as [Hl|Hl]; [split; [done|by intros x]|].
  set (label := getPacketLabel _).
  pose proof (mark_reasons_step s1 label (index_list path)) as Hs2.
  set (s2 := s1 <| ns_nodes := _ |>) in *.
  pose proof (nodes_step_ok _ _ Hs2 Hok1) as Hok2.
  assert (Hobs : obs_ok s2.(ns_nodes) {| ob_nodes := path; ob_activityAtMs := t |})
    by (split; [done|]; split; [done|]; exact (path_ok_step _ _ _ _ Hs2 Hp)).
  pose proof (add_observation_ok _ _ Hok2 Hobs) as Hok3.
  set (s3 := s2 <| ns_observations := _ |>) in *.
  destruct (fold_edges t (path_edges path) s3 Hok3) as (Hok4 & Hn & Ho & _ & He).
  { apply (path_edges_in path (fun id => is_Some (s3.(ns_nodes) !! id))).
    eapply Forall_impl; [exact (proj2 (proj2 Hobs))|].
    intros id (n & E & _). by exists n. }
  set (s4 := foldl _ s3 _) in *. cbn [fst snd]. split; [done|].
  intros x <-%(inj Some). cbn [ir_canonicalPath ir_activityAtMs ir_parsed]. split_and!.
  - rewrite Ho. apply last_snoc.
  - by rewrite Hn.
  - exact He.
  - intros Ht. apply Hlast; [done|]. intros ->. unfold len in Hl. simpl in Hl. lia.
Qed.
End ingest.

(** ** Pruning *)

Lemma neighbors_of_spec (links : gmap jstr PacketNetworkLink) a b :
  b ∈ nbrs (neighbors_of links) a <->
  exists key l, links !! key = Some l
    /\ ((l.(lk_sourceId) = a /\ l.(lk_targetId) = b) \/ (l.(lk_sourceId) = b /\ l.(lk_targetId) = a)).
Proof.
  unfold neighbors_of.
  assert (Hgen : forall ls : list (jstr * PacketNetworkLink),
    b ∈ nbrs (foldl (fun m p => upsertNeighbor m p.2.(lk_sourceId) p.2.(lk_targetId)) ∅ ls) a <->
    exists p, p ∈ ls /\ ((p.2.(lk_sourceId) = a /\ p.2.(lk_targetId) = b)
                       \/ (p.2.(lk_sourceId) = b /\ p.2.(lk_targetId) = a))).
  { intros ls. induction ls as [|p ls IH] using rev_ind.
    - cbn [foldl]. unfold nbrs. rewrite lookup_empty. set_solver.
    - rewrite foldl_app. cbn [foldl]. rewrite elem_of_upsert, IH.
      setoid_rewrite elem_of_app. setoid_rewrite list_elem_of_singleton.
      split; [intros [(q & ? & ?)|[[-> ->]|[-> ->]]]|intros (q & [?| ->] & [[<- <-]|[<- <-]])]; eauto 10. }
  rewrite Hgen. split.
  - intros ([key l] & Hin%elem_of_map_to_list & ?). by exists key, l.
  - intros (key & l & Hin & ?). exists (key, l). by rewrite elem_of_map_to_list.
Qed.

Lemma filter_kept (nodes : node_map) cutoff id n :
  filter (kept cutoff) nodes !! id = Some n <->
  nodes !! id = Some n /\ (id = self_id \/ cutoff <= n.(nd_lastActivity)).
Proof. apply map_lookup_filter_Some. Qed.

Lemma kept_alive nodes cutoff t id :
  cutoff <= t -> alive nodes t id -> alive (filter (kept cutoff) nodes) t id.
Proof.
  intros Ht (n & E & Hn). exists n. split; [|done]. apply filter_kept. split; [done|].
  destruct Hn; [by left|right; lia].
Qed.

Lemma prune_ok s cutoff : net_ok s -> net_ok (prunePacketNetworkState s cutoff).2.
Proof.
  intros [H1 H2 H3 H4 H5 H6 H7]. unfold prunePacketNetworkState. cbv zeta.
  destruct (negb _); [by constructor|]. cbn [snd].
  set (nodes := filter (kept cutoff) s.(ns_nodes)).
  set (links := filter _ s.(ns_links)).
  assert (Hlinks : forall key l, links !! key = Some l ->
    s.(ns_links) !! key = Some l /\ is_Some (nodes !! l.(lk_sourceId)) /\ is_Some (nodes !! l.(lk_targetId))).
  { intros key l Hl. unfold links in Hl. apply map_lookup_filter_Some in Hl. naive_solver. }
  constructor; cbn.
  - destruct H1 as [n E]. exists n. apply filter_kept. split; [done|by left].
  - intros id n [E _]%filter_kept. by apply (H2 _ _ E).
  - intros key l (E & ? & ?)%Hlinks. destruct (H3 _ _ E) as (? & ? & _). done.
  - apply Forall_forall. intros o [Hf Ho]%list_elem_of_filter.
    destruct (proj1 (Forall_forall _ _) H4 o Ho) as (Hl & Hnr & Ha).
    split; [done|]. split; [done|]. apply Forall_forall. intros id Hid.
    destruct (proj1 (Forall_forall _ _) Hf id Hid) as [n E].
    destruct (proj1 (Forall_forall _ _) Ha id Hid) as (n' & E' & Hn').
    exists n. split; [done|]. apply filter_kept in E as [E _]. by simplify_eq.
  - intros a b. rewrite !neighbors_of_spec.
    split; intros (key & l & E & [?|?]); exists key, l; tauto.
  - intros a b (key & l & E & Hab)%neighbors_of_spec.
    destruct (Hlinks _ _ E) as (E' & _). destruct (H3 _ _ E') as (Hkey & _).
    exists l. destruct Hab as [[<- <-]|[<- <-]]; [by rewrite <- Hkey|].
    by rewrite buildLinkKey_comm, <- Hkey.
  - intros key l E. apply neighbors_of_spec. exists key, l. split; [done|]. by left.
Qed.

Lemma prune_pruned s cutoff :
  (prunePacketNetworkState s cutoff).1 = false ->
  filter (kept cutoff) s.(ns_nodes) = s.(ns_nodes) /\ (prunePacketNetworkState s cutoff).2 = s.
Proof.
  unfold prunePacketNetworkState. cbv zeta.
  destruct (_ =? _)%nat eqn:E; [|done]. intros _. split; [|done].
  apply Nat.eqb_eq in E. apply map_subseteq_size_eq; [apply map_filter_subseteq|lia].
Qed.

(** ** Projecting *)

Section projection.
Context (s : PacketNetworkState) (v : VisibilityOptions).

(** A node of the state that is shown. *)
Definition shown_node (id : jstr) : Prop :=
  exists n, s.(ns_nodes) !! id = Some n /\ isPacketNetworkNodeVisible (Some n) v = true.

Lemma unambiguous_visible n : n.(nd_isAmbiguous) = false -> isPacketNetworkNodeVisible (Some n) v = true.
Proof. intros E. cbn. rewrite E. by destruct (_ ≟ _). Qed.

Context (Hids : map_Forall (fun id n => n.(nd_id) = id) s.(ns_nodes)).

Lemma alias_shown id x : buildKnownSiblingRepeaterAliasMap s v !! id = Some x -> shown_node x.
Proof.
  unfold buildKnownSiblingRepeaterAliasMap. destruct (_ || _); [done|]. cbv zeta.
  generalize (foldl (known_next_hop s.(ns_nodes)) ∅ (all_edges s)). intros known.
  revert id x. change (map_Forall (fun _ x => shown_node x)
    (foldl (alias_edge s.(ns_nodes) known) ∅ (all_edges s))).
  induction (all_edges s) as [|e es IH] using rev_ind; [done|]. rewrite foldl_app. cbn [foldl].
  set (m := foldl _ _ es) in *. unfold alias_edge.
  destruct (s.(ns_nodes) !! e.1) as [n|]; [|done]. destruct (_ || _); [done|].
  destruct (truthy _ ≫= _) as [probable|] eqn:Ep; [|done].
  destruct (_ || _) eqn:Et; [done|]. destruct (bool_decide (e.2 ∈ _)); [|done].
  apply map_Forall_insert_2; [|done]. apply bind_Some in Ep as (pid & _ & Ep).
  apply orb_false_iff in Et as [_ Ha].
  exists probable. rewrite (Hids _ _ Ep). split; [done|]. by apply unambiguous_visible.
Qed.

Lemma projected_shown path id :
  id ∈ (projectCanonicalPathWithAliases s path v (buildKnownSiblingRepeaterAliasMap s v)).(pj_nodes) ->
  shown_node id.
Proof.
  unfold projectCanonicalPathWithAliases. set (al := buildKnownSiblingRepeaterAliasMap s v).
  unfold compactPathSteps. set (steps := _ <$> _). destruct (compact_fold steps) as [Hn _ _].
  cbn [fst snd pj_nodes]. rewrite Hn. intros Hid.
  apply (proj1 (elem_of_dedupe _ _)), (proj1 (elem_of_dedupe _ _)) in Hid.
  unfold shown_ids in Hid. apply list_elem_of_omap in Hid as (st & Hst & Ht).
  apply list_elem_of_fmap in Hst as (p & -> & _). cbn [ps_nodeId path_step] in Ht.
  destruct (isPacketNetworkNodeVisible (s.(ns_nodes) !! p.2) v) eqn:Ev; [|done].
  assert (E : al !! p.2 ?? p.2 = id) by (destruct (al !! p.2 ?? p.2); simplify_eq/=; done).
  destruct (al !! p.2) as [x|] eqn:Ex; simpl in E; subst id; [by apply (alias_shown p.2)|].
  unfold shown_node. destruct (s.(ns_nodes) !! p.2) as [n|]; [|done]. by exists n.
Qed.

(** What the links of the projection satisfy. *)
Definition plink_ok (nodes : node_map) (key : jstr) (l : ProjectedLink) : Prop :=
  key = buildLinkKey l.(pl_sourceId) l.(pl_targetId) /\ l.(pl_sourceId) <> l.(pl_targetId)
  /\ is_Some (nodes !! l.(pl_sourceId)) /\ is_Some (nodes !! l.(pl_targetId))
  /\ l.(pl_hasDirectObservation) || l.(pl_hasHiddenIntermediate) = true.

Definition nodes_shown (nodes : node_map) : Prop :=
  map_Forall (fun id n => s.(ns_nodes) !! id = Some n /\ isPacketNetworkNodeVisible (Some n) v = true) nodes.

Lemma add_shown (ids : list jstr) (nodes : node_map) :
  Forall shown_node ids -> nodes_shown nodes ->
  let nodes' := foldl (fun m id => match s.(ns_nodes) !! id with
                                   | Some node => <[id := node]> m | None => m end) nodes ids in
  nodes_shown nodes' /\ (forall id, is_Some (nodes !! id) -> is_Some (nodes' !! id))
  /\ Forall (fun id => is_Some (nodes' !! id)) ids.
Proof.
  cbv zeta. intros Hids'. revert nodes. induction Hids' as [|id ids (n & E & Ev) Hids' IH];
    intros nodes Hn; [done|]. cbn [foldl]. rewrite E.
  destruct (IH (<[id := n]> nodes)) as (A & B & C); [by apply map_Forall_insert_2|].
  split; [done|]. split.
  - intros id' Hid. apply B. apply lookup_insert_is_Some'. by right.
  - constructor; [|done]. apply B. apply lookup_insert_is_Some'. by left.
Qed.

Lemma project_edges_ok (nodes : node_map) t dashed (es : list (jstr * jstr)) links :
  map_Forall (plink_ok nodes) links ->
  Forall (fun e => is_Some (nodes !! e.1) /\ is_Some (nodes !! e.2)) es ->
  map_Forall (plink_ok nodes) (foldl (project_edge t dashed) links es).
Proof.
  intros Hl Hes. revert links Hl. induction Hes as [|[a b] es [Ha Hb] Hes IH]; intros links Hl; [done|].
  cbn [foldl]. apply IH. unfold project_edge. cbn [fst snd] in *.
  case_bool_decide as Hne; [done|]. destruct (links !! buildLinkKey a b) as [ex|] eqn:E;
    apply map_Forall_insert_2; try done.
  - destruct (Hl _ _ E) as (?&?&?&?&Hor). split_and!; try done. cbn.
    destruct (bool_decide _); [apply orb_true_r|done].
  - split_and!; try done. cbn. by destruct (bool_decide _).
Qed.

(** One observation keeps the nodes shown and the links between them. *)
Definition proj_inv (acc : node_map * gmap jstr ProjectedLink) : Prop :=
  nodes_shown acc.1 /\ is_Some (acc.1 !! self_id) /\ map_Forall (plink_ok acc.1) acc.2.

Lemma project_observation_ok acc o :
  proj_inv acc ->
  proj_inv (project_observation s v (buildKnownSiblingRepeaterAliasMap s v) acc o).
Proof.
  intros (H1 & H2 & H3). unfold project_observation. cbv zeta.
  set (al := buildKnownSiblingRepeaterAliasMap s v).
  set (pr := projectCanonicalPathWithAliases s o.(ob_nodes) v al).
  destruct (len (pj_nodes pr) <? 2); [by split|].
  assert (Hsh : Forall shown_node pr.(pj_nodes))
    by (apply Forall_forall; intros id; apply projected_shown).
  destruct (add_shown _ _ Hsh H1) as (A & B & C). split; [done|]. split; [by apply B|].
  apply project_edges_ok; [|exact (path_edges_in _ _ C)].
  eapply map_Forall_impl; [exact H3|]. intros key l (?&?&?&?&?). split_and!; auto.
Qed.

Lemma project_ok :
  is_Some (s.(ns_nodes) !! self_id) ->
  let p := projectPacketNetwork s v in
  nodes_shown p.(pn_nodes) /\ is_Some (p.(pn_nodes) !! self_id)
  /\ map_Forall (plink_ok p.(pn_nodes)) p.(pn_links).
Proof.
  intros [self Eself]. unfold projectPacketNetwork. cbv zeta. rewrite Eself.
  assert (Hgen : forall os acc, proj_inv acc ->
    proj_inv (foldl (project_observation s v (buildKnownSiblingRepeaterAliasMap s v)) acc os)).
  { induction os as [|o os IH]; intros acc Hacc; [done|]. cbn [foldl].
    by apply IH, project_observation_ok. }
  pose proof (Hgen s.(ns_observations) ({[self_id := self]}, ∅)) as Hr.
  destruct (foldl _ _ _) as [nodes links]. apply Hr. split_and!; cbn [fst snd].
  - intros id n [<- <-]%lookup_singleton_Some. split; [done|]. cbn. by rewrite (Hids _ _ Eself).
  - by rewrite lookup_singleton_eq.
  - done.
Qed.
End projection.

(** ** The contact index *)

Lemma len_prefix12 key : 12 <= len key -> len (prefix12 key) = 12.
Proof. intros. unfold prefix12. rewrite len_toLowerCase, len_slice; lia. Qed.

Lemma prefix_slice (s p : jstr) k :
  0 <= k <= len s -> slice s 0 k = p <-> startsWith s p = true /\ len p = k.
Proof.
  intros Hk. rewrite slice_to, startsWith_spec by lia. split.
  - intros <-. split; [exists (drop (Z.to_nat k) s); by rewrite take_drop|].
    unfold len in *. rewrite length_take. lia.
  - intros [[r ->] <-]. unfold len. rewrite Nat2Z.id. apply take_app_length.
Qed.

Lemma index_prefixes_lookup c m ks p :
  NoDup ks -> Forall (fun k => 0 <= k <= len (prefix12 c.(c_public_key))) ks ->
  default [] (foldl (index_prefix c) m ks !! p) =
    default [] (m !! p)
      ++ (if startsWith (prefix12 c.(c_public_key)) p && bool_decide (len p ∈ ks) then [c] else []).
Proof.
  intros Hnd Hks. induction ks as [|k ks IH] using rev_ind.
  - cbn [foldl]. by rewrite andb_false_r, app_nil_r.
  - apply NoDup_snoc in Hnd as [Hnd Hni]. apply Forall_app in Hks as [Hks Hk].
    apply Forall_cons in Hk as [Hk _]. rewrite foldl_app. cbn [foldl]. unfold index_prefix at 1.
    set (pre := prefix12 c.(c_public_key)) in *.
    destruct (decide (slice pre 0 k = p)) as [E|Hne].
    + rewrite E, lookup_insert_eq. cbn [default from_option id]. rewrite IH by done.
      apply prefix_slice in E as [-> <-]; [|done].
      rewrite bool_decide_eq_false_2, bool_decide_eq_true_2 by set_solver. simpl.
      by rewrite app_nil_r.
    + rewrite lookup_insert_ne, IH by done. f_equal.
      destruct (startsWith pre p) eqn:Es; [|done]. simpl.
      assert (len p <> k) by (intros <-; apply Hne, prefix_slice; [done|by split]).
      rewrite (bool_decide_ext (len p ∈ ks ++ [k]) (len p ∈ ks)) by set_solver. done.
Qed.

Lemma seqZ_1_12 n : n ∈ seqZ 1 12 <-> 1 <= n <= 12.
Proof. rewrite elem_of_seqZ. lia. Qed.

Lemma index_contacts_prefix contacts ix p :
  Forall (fun c => 12 <= len c.(c_public_key)) contacts -> 1 <= len p <= 12 ->
  default [] ((foldl index_contact ix contacts).(cx_byPrefix) !! p) =
    default [] (ix.(cx_byPrefix) !! p)
      ++ filter (fun c => startsWith (prefix12 c.(c_public_key)) p = true) contacts.
Proof.
  intros Hk Hp. induction contacts as [|c contacts IH] using rev_ind; [by rewrite app_nil_r|].
  apply Forall_app in Hk as [Hk Hc%Forall_cons]. destruct Hc as [Hc _].
  rewrite foldl_app, filter_app, filter_cons, filter_nil. cbn [foldl index_contact cx_byPrefix].
  rewrite index_prefixes_lookup; [|apply NoDup_seqZ|].
  - rewrite IH by done. rewrite <- app_assoc. do 2 f_equal.
    rewrite (bool_decide_eq_true_2 (len p ∈ _)) by (by apply seqZ_1_12). rewrite andb_true_r.
    case_decide as E; [by rewrite E|]. by destruct (startsWith _ p).
  - rewrite len_prefix12 by done. apply Forall_forall. intros k Hin%seqZ_1_12. lia.
Qed.

Lemma index_contacts_name contacts ix n :
  n <> [] ->
  (foldl index_contact ix contacts).(cx_byName) !! n =
    match ix.(cx_byName) !! n with
    | Some c => Some c
    | None => head (filter (fun c => c.(c_name) = Some n) contacts)
    end.
Proof.
  intros Hn. revert ix. induction contacts as [|c contacts IH]; intros ix; simpl.
  - by destruct (cx_byName ix !! n).
  - rewrite IH, filter_cons. cbn [cx_byName index_contact].
    destruct c.(c_name) as [[|u name]|] eqn:En; cbn [truthy].
    + rewrite decide_False by congruence. done.
    + destruct (decide (u :: name = n)) as [<-|Hne].
      * rewrite decide_True by done. destruct (cx_byName ix !! (u :: name)) as [c0|] eqn:Ec.
        -- by rewrite Ec.
        -- by rewrite lookup_insert_eq.
      * rewrite decide_False by congruence. destruct (cx_byName ix !! (u :: name)); [done|].
        by rewrite lookup_insert_ne.
    + by rewrite decide_False.
Qed.

(** ** Reachable states *)

Section steps.
Context (localeCompare : jstr -> jstr -> comparison) `{MeshDecoder}.

Inductive net_step : PacketNetworkState -> PacketNetworkState -> Prop :=
| step_ensure now s name : net_step s (ensureSelfNode now s name)
| step_clear now s name : net_step s (clearPacketNetworkState now name)
| step_ingest now s c packet :
    net_step s (ingestPacketIntoPacketNetwork localeCompare now s c packet).2
| step_prune s cutoff : net_step s (prunePacketNetworkState s cutoff).2.

Lemma fresh_ok n lifted :
  n.(nd_id) = self_id ->
  net_ok {| ns_nodes := {[self_id := n]}; ns_links := ∅; ns_neighborIds := ∅;
            ns_observations := []; ns_trafficPatterns := lifted |}.
Proof.
  intros Hn. constructor; cbn [ns_nodes ns_links ns_neighborIds ns_observations]; try done.
  - by intros id n' [<- <-]%lookup_singleton_Some.
Qed.

Lemma ensureSelf_ok now s name : net_ok s -> net_ok (ensureSelfNode now s name).
Proof.
  intros Hok. apply (nodes_step_ok s); [|done]. unfold ensureSelfNode.
  destruct (ns_nodes s !! self_id) as [n|] eqn:E; constructor; try done; cbn.
  - apply grown_insert. intros n0 E0. simplify_eq. cbn. lia.
  - intros Hids. apply map_Forall_insert_2; [|done]. cbn. by apply (Hids _ _ E).
  - apply grown_insert. intros n0 E0. congruence.
  - intros Hids. by apply map_Forall_insert_2.
Qed.

Lemma net_step_ok s s' : net_step s s' -> net_ok s -> net_ok s'.
Proof.
  intros [now s1 name|now s1 name|now s1 c packet|s1 cutoff] Hok.
  - by apply ensureSelf_ok.
  - by apply fresh_ok.
  - by apply ingest_ok.
  - by apply prune_ok.
Qed.

Lemma net_reachable now name s : rtc net_step (createPacketNetworkState now name) s -> net_ok s.
Proof.
  intros Hr. assert (Hok : net_ok (createPacketNetworkState now name)) by (by apply fresh_ok).
  induction Hr as [|s1 s2 s3 Hs Hr IH]; [done|]. by apply IH, (net_step_ok s1).
Qed.
End steps.

(** ** Properties *)

#[local] Existing Instance example_decoder.

Definition example_context : PacketNetworkContext := buildPacketNetworkContext None [] [] false false.

Definition example_network : PacketNetworkState :=
  (ingestPacketIntoPacketNetwork str_compare 100 (createPacketNetworkState 100 (js "Me"))
     example_context (example_packet 100)).2.

Lemma example_run : rtc (net_step str_compare) (createPacketNetworkState 100 (js "Me")) example_network.
Proof. apply rtc_once, step_ingest. Qed.

(** C14: whatever packets were ingested, ensured, cleared and pruned, the network is a graph:
    the own node is there, every node is stored under its id, every link joins two different
    nodes of the network under the key of its ends, the neighbour relation is symmetric and
    agrees with the links, and every observation is a path of at least two live nodes with
    no two equal neighbours. *)
Theorem network_invariant (localeCompare : jstr -> jstr -> comparison) (dec : MeshDecoder)
    (now : Z) (selfName : jstr) (s : PacketNetworkState)
    (Hrun : rtc (net_step localeCompare) (createPacketNetworkState now selfName) s) :
  net_ok s.
Proof. by eapply net_reachable. Qed.

Lemma network_invariant_witness :
  size (ns_links example_network) = 2%nat /\ net_ok example_network.
Proof.
  split; [vm_compute; reflexivity|].
  exact (network_invariant str_compare example_decoder 100 (js "Me") _ example_run).
Defined.

(** An accepted packet's path has at least two live nodes and no two equal neighbours;
    it becomes the last observation, its consecutive nodes become neighbours of each other,
    and unless the packet is a direct message it ends at the own node. *)
Theorem ingest_links_path (localeCompare : jstr -> jstr -> comparison) (dec : MeshDecoder)
    (now : Z) (s : PacketNetworkState) (c : PacketNetworkContext) (packet : RawPacket)
    (x : IngestResult) (Hok : net_ok s)
    (Hx : (ingestPacketIntoPacketNetwork localeCompare now s c packet).1 = Some x) :
  let s' := (ingestPacketIntoPacketNetwork localeCompare now s c packet).2 in
  let o := {| ob_nodes := x.(ir_canonicalPath); ob_activityAtMs := x.(ir_activityAtMs) |} in
  last s'.(ns_observations) = Some o
  /\ obs_ok s'.(ns_nodes) o
  /\ (forall a b, (a, b) ∈ path_edges x.(ir_canonicalPath) ->
        b ∈ nbrs s'.(ns_neighborIds) a /\ a ∈ nbrs s'.(ns_neighborIds) b)
  /\ (x.(ir_parsed).(pp_payloadType) <> PT_TextMessage -> last x.(ir_canonicalPath) = Some self_id).
Proof.
  cbv zeta. destruct (ingest_ok localeCompare now s c packet Hok) as [Hok' Hres].
  destruct (Hres x Hx) as (Ho & Hobs & He & Hl). split_and!; [done|done| |done].
  intros a b Hab. assert (a <> b).
  { destruct Hobs as (_ & Hnr & _). cbn [ob_nodes] in Hnr. clear -Hnr Hab.
    induction (ir_canonicalPath x) as [|y l IH]; [set_solver|]. destruct l as [|z l]; [set_solver|].
    apply no_repeat_cons in Hnr as [Hh Hnr]. cbn [path_edges] in Hab.
    apply elem_of_cons in Hab as [E|Hab]; [simplify_eq/=; congruence|by apply IH]. }
  assert (b ∈ nbrs (ns_neighborIds (ingestPacketIntoPacketNetwork localeCompare now s c packet).2) a)
    by (by apply He).
  split; [done|]. by apply (nk_sym _ Hok').
Qed.

Lemma ingest_links_path_witness :
  exists x, (ingestPacketIntoPacketNetwork str_compare 200 example_network example_context
               (example_packet 200)).1 = Some x
            /\ last x.(ir_canonicalPath) = Some self_id.
Proof.
  eexists. split; [vm_compute; reflexivity|].
  refine (proj2 (proj2 (proj2 (ingest_links_path str_compare example_decoder 200 example_network
    example_context (example_packet 200) _ (net_reachable _ _ _ _ example_run) _))) _).
  - vm_compute. reflexivity.
  - vm_compute. discriminate.
Defined.

(** Pruning keeps exactly the own node and the nodes active since the cutoff; it keeps
    every observation since the cutoff and no link with a missing end, after it two nodes
    are neighbours exactly when a link joins them; and it answers [false] only when there
    was nothing to remove, leaving the state as it was. *)
Theorem prune_keeps_active (s : PacketNetworkState) (cutoff : Z) (Hok : net_ok s) :
  let r := prunePacketNetworkState s cutoff in
  net_ok r.2
  /\ (forall id n, r.2.(ns_nodes) !! id = Some n <->
        s.(ns_nodes) !! id = Some n /\ (id = self_id \/ cutoff <= n.(nd_lastActivity)))
  /\ (forall o, o ∈ s.(ns_observations) -> cutoff <= o.(ob_activityAtMs) -> o ∈ r.2.(ns_observations))
  /\ (forall key l, r.2.(ns_links) !! key = Some l <->
        s.(ns_links) !! key = Some l /\ is_Some (r.2.(ns_nodes) !! l.(lk_sourceId))
        /\ is_Some (r.2.(ns_nodes) !! l.(lk_targetId)))
  /\ (r.1 = true -> forall a b, b ∈ nbrs r.2.(ns_neighborIds) a <->
        exists key l, r.2.(ns_links) !! key = Some l
          /\ ((l.(lk_sourceId) = a /\ l.(lk_targetId) = b) \/ (l.(lk_sourceId) = b /\ l.(lk_targetId) = a)))
  /\ (r.1 = false -> r.2 = s).
Proof.
  cbv zeta. split; [by apply prune_ok|].
  destruct (prunePacketNetworkState s cutoff).1 eqn:E.
  - assert (E2 : prunePacketNetworkState s cutoff = (true, (prunePacketNetworkState s cutoff).2))
      by (rewrite <- E; by destruct (prunePacketNetworkState s cutoff)).
    unfold prunePacketNetworkState in *. cbv zeta in *. destruct (negb (negb _)); [done|]. clear E E2.
    cbn. split_and!; [intros; apply filter_kept| | |intros _ a b; apply neighbors_of_spec|done].
    + intros o Ho Hc. apply list_elem_of_filter. split; [|done]. apply Forall_forall. intros id Hid.
      destruct (proj1 (Forall_forall _ _) (nk_obs s Hok) o Ho) as (_ & _ & Ha).
      destruct (kept_alive _ _ _ _ Hc (proj1 (Forall_forall _ _) Ha id Hid)) as (n & En & _).
      by exists n.
    + intros key l. by rewrite map_lookup_filter_Some.
  - destruct (prune_pruned s cutoff E) as [Hf ->].
    split_and!; [|done| |done|done].
    + intros id n. rewrite <- filter_kept, Hf. done.
    + intros key l. split; [|by intros [? _]]. intros El. split; [done|].
      by destruct (nk_links s Hok _ _ El) as (_ & _ & ? & ?).
Qed.

Lemma prune_keeps_active_witness :
  (prunePacketNetworkState example_network 50).2 = example_network
  /\ net_ok (prunePacketNetworkState example_network 200).2.
Proof.
  destruct (prune_keeps_active example_network 50 (net_reachable _ _ _ _ example_run))
    as (_ & _ & _ & _ & _ & H50).
  destruct (prune_keeps_active example_network 200 (net_reachable _ _ _ _ example_run)) as [H200 _].
  split; [apply H50; vm_compute; reflexivity|exact H200].
Defined.

(** The projection renders the own node and visible nodes of the network only; each of
    its links joins two different rendered nodes under the key of its ends, and was seen
    directly or over hidden hops. *)
Theorem projection_well_formed (s : PacketNetworkState) (v : VisibilityOptions) (Hok : net_ok s) :
  let p := projectPacketNetwork s v in
  is_Some (p.(pn_nodes) !! self_id)
  /\ (forall id n, p.(pn_nodes) !! id = Some n ->
        s.(ns_nodes) !! id = Some n /\ isPacketNetworkNodeVisible (Some n) v = true)
  /\ p.(pn_renderedNodeIds) = dom p.(pn_nodes)
  /\ forall key l, p.(pn_links) !! key = Some l ->
       key = buildLinkKey l.(pl_sourceId) l.(pl_targetId) /\ l.(pl_sourceId) <> l.(pl_targetId)
       /\ l.(pl_sourceId) ∈ p.(pn_renderedNodeIds) /\ l.(pl_targetId) ∈ p.(pn_renderedNodeIds)
       /\ l.(pl_hasDirectObservation) || l.(pl_hasHiddenIntermediate) = true.
Proof.
  cbv zeta. destruct (project_ok s v (nk_ids s Hok) (nk_self s Hok)) as (Hn & Hs & Hl).
  assert (Hdom : (projectPacketNetwork s v).(pn_renderedNodeIds) = dom (projectPacketNetwork s v).(pn_nodes)).
  { unfold projectPacketNetwork. cbv zeta. by destruct (foldl _ _ _). }
  split; [done|]. split; [exact Hn|]. split; [done|]. intros key l El. rewrite Hdom, !elem_of_dom.
  by destruct (Hl _ _ El) as (?&?&?&?&?).
Qed.

Lemma projection_well_formed_witness :
  let v := {| vo_showAmbiguousNodes := true; vo_showAmbiguousPaths := false;
              vo_collapseLikelyKnownSiblingRepeaters := false |} in
  is_Some (pn_nodes (projectPacketNetwork example_network v) !! self_id).
Proof.
  intros v. exact (proj1 (projection_well_formed example_network v (net_reachable _ _ _ _ example_run))).
Defined.

(** The contact index answers, for a prefix of 1 to 12 characters, the contacts whose
    key starts with it, in order, and for a name the first contact of that name. *)
Theorem contact_index_spec (config : option RadioConfig) (contacts : list Contact)
    (paths : list ContactAdvertPathSummary) (split hints : bool) (p n : jstr)
    (Hkeys : Forall (fun c => 12 <= len c.(c_public_key)) contacts)
    (Hp : 1 <= len p <= 12) (Hn : n <> []) :
  let ix := (buildPacketNetworkContext config contacts paths split hints).(cxt_contactIndex) in
  default [] (ix.(cx_byPrefix) !! p) =
    filter (fun c => startsWith (prefix12 c.(c_public_key)) p = true) contacts
  /\ ix.(cx_byName) !! n = head (filter (fun c => c.(c_name) = Some n) contacts).
Proof.
  cbv zeta. cbn [buildPacketNetworkContext cxt_contactIndex]. split.
  - by rewrite index_contacts_prefix.
  - by rewrite index_contacts_name.
Qed.

Lemma contact_index_spec_witness :
  cx_byName (cxt_contactIndex (buildPacketNetworkContext None [] [] false false)) !! js "x" = None.
Proof.
  refine (proj2 (contact_index_spec None [] [] false false (js "ab") (js "x") (Forall_nil_2 _) _ _)).
  - vm_compute. split; discriminate.
  - vm_compute. discriminate.
Defined.
