(* ===== verification/RawPacketStats.v ===== *)
(** The statistics of overheard packets: [utils/rawPacketIdentity.ts] and
    [utils/rawPacketStats.ts].

    The packet decoder is the class [MeshDecoder]. [localeCompare] and the locale's time
    format are the variables of the sections that use them, and so is
    [String.prototype.toLowerCase] on a sender's name, which needs the Unicode tables.
    Time stamps are integers, and the shares, rates and signal strengths are [num]. *)
From S2P Require Import Prelude JsString JsCollections JsNum Types Visualizer.
From Corelib Require Import SpecFloat.

(** [{...packet, f: v}] *)
#[export] Instance RawPacket_eta : Eta RawPacket :=
  fun p => Build_RawPacket p.(rp_id) p.(rp_observation_id) p.(rp_timestamp) p.(rp_received_at_ms)
             p.(rp_data) p.(rp_payload_type) p.(rp_snr) p.(rp_rssi) p.(rp_decrypted)
             p.(rp_decrypted_info) p.(rp_transport_code) p.(rp_region) p.(rp_packet_hash).

(** ** Identity *)

Definition getRawPacketObservationKey (packet : RawPacket) : jstr :=
  match packet.(rp_observation_id) with
  | Some observation_id => js "obs-" ++ int_str observation_id
  | None => js "db-" ++ int_str packet.(rp_id)
  end.

Arguments getRawPacketObservationKey : simpl never.

Definition appendRawPacketUnique (prev : list RawPacket) (packet : RawPacket) (maxPackets : nat)
    : list RawPacket :=
  let packetKey := getRawPacketObservationKey packet in
  if existsb (fun p => getRawPacketObservationKey p ≟ packetKey) prev then prev else
  let updated := prev ++ [packet] in
  if Z.of_nat maxPackets <? len updated then slice_from updated (- Z.of_nat maxPackets)
  else updated.

(** ** Types *)

Inductive RawPacketStatsWindow := W1m | W5m | W10m | W30m | WSession.
#[export] Instance RawPacketStatsWindow_eq_dec : EqDecision RawPacketStatsWindow.
Proof. solve_decision. Defined.

(** [RAW_PACKET_STATS_WINDOW_SECONDS], [null] for the session. *)
Definition window_seconds (w : RawPacketStatsWindow) : option Z :=
  match w with
  | W1m => Some 60 | W5m => Some (5 * 60) | W10m => Some (10 * 60) | W30m => Some (30 * 60)
  | WSession => None
  end.

Definition MAX_RAW_PACKET_STATS_OBSERVATIONS : Z := 20000.

Definition KNOWN_PAYLOAD_TYPES : list jstr :=
  [js "Advert"; js "GroupText"; js "TextMessage"; js "Ack"; js "Request"; js "Response";
   js "Trace"; js "Path"; js "Control"; js "GroupData"; js "AnonRequest"; js "Multipart";
   js "RawCustom"; js "Unknown"].

Definition KNOWN_ROUTE_TYPES : list jstr :=
  [js "Flood"; js "Direct"; js "TransportFlood"; js "TransportDirect"; js "Unknown"].

Record RawPacketStatsObservation := {
  so_observationKey : jstr;
  so_timestamp : Z;
  so_payloadType : jstr;
  so_routeType : jstr;
  so_decrypted : bool;
  so_rssi : option num;
  so_snr : option num;
  so_sourceKey : option jstr;
  so_sourceLabel : option jstr;
  so_pathTokenCount : Z;
  so_pathSignature : option jstr;
  so_hopByteWidth : option Z;
}.

#[export] Instance RawPacketStatsObservation_eta : Eta RawPacketStatsObservation :=
  fun r => Build_RawPacketStatsObservation r.(so_observationKey) r.(so_timestamp)
             r.(so_payloadType) r.(so_routeType) r.(so_decrypted) r.(so_rssi) r.(so_snr)
             r.(so_sourceKey) r.(so_sourceLabel) r.(so_pathTokenCount) r.(so_pathSignature)
             r.(so_hopByteWidth).

Record RawPacketStatsSessionState := {
  ss_sessionStartedAt : Z;
  ss_totalObservedPackets : Z;
  ss_trimmedObservationCount : Z;
  ss_observations : list RawPacketStatsObservation;
}.
#[export] Instance RawPacketStatsSessionState_eta : Eta RawPacketStatsSessionState :=
  fun r => Build_RawPacketStatsSessionState r.(ss_sessionStartedAt) r.(ss_totalObservedPackets)
             r.(ss_trimmedObservationCount) r.(ss_observations).

Record RankedPacketStat := { rs_label : jstr; rs_count : Z; rs_share : num }.

Record NeighborStat := {
  nb_key : jstr;
  nb_label : jstr;
  nb_count : Z;
  nb_bestRssi : option num;
  nb_lastSeen : Z;
}.
#[export] Instance NeighborStat_eta : Eta NeighborStat :=
  fun r => Build_NeighborStat r.(nb_key) r.(nb_label) r.(nb_count) r.(nb_bestRssi) r.(nb_lastSeen).

(** [countsByType] is read and written by payload type; no code depends on its key order. *)
Record PacketTimelineBin := {
  tb_label : jstr;
  tb_total : Z;
  tb_countsByType : gmap jstr Z;
}.

Record RawPacketStatsSnapshot := {
  sn_window : RawPacketStatsWindow;
  sn_nowSec : Z;
  sn_packets : list RawPacketStatsObservation;
  sn_packetCount : Z;
  sn_packetsPerMinute : num;
  sn_uniqueSources : Z;
  sn_decryptedCount : Z;
  sn_undecryptedCount : Z;
  sn_decryptRate : num;
  sn_pathBearingCount : Z;
  sn_pathBearingRate : num;
  sn_distinctPaths : Z;
  sn_payloadBreakdown : list RankedPacketStat;
  sn_routeBreakdown : list RankedPacketStat;
  sn_topPacketTypes : list RankedPacketStat;
  sn_hopProfile : list RankedPacketStat;
  sn_hopByteWidthProfile : list RankedPacketStat;
  sn_strongestNeighbors : list NeighborStat;
  sn_mostActiveNeighbors : list NeighborStat;
  sn_newestNeighbors : list NeighborStat;
  sn_averageRssi : option num;
  sn_medianRssi : option num;
  sn_bestRssi : option num;
  sn_rssiBuckets : list RankedPacketStat;
  sn_coverageSeconds : Z;
  sn_windowFullyCovered : bool;
  sn_oldestStoredTimestamp : option Z;
  sn_timeline : list PacketTimelineBin;
}.

(** ** Summarising a packet *)

Section summarize.
Context `{MeshDecoder} (lowerName : jstr -> jstr).

Definition toSourceLabel (sourceKey : jstr) : jstr :=
  if startsWith sourceKey (js "name:") then slice_from sourceKey 5
  else toUpperCase (slice sourceKey 0 12).

Definition getPathTokens (decoded : DecodedPacket) : list jstr :=
  let tracePayload :=
    if decoded.(dk_payloadType) =? PT_Trace then decoded.(dk_payload_decoded) else None in
  match tracePayload ≫= dp_pathHashes with
  | Some hashes => hashes
  | None => default [] decoded.(dk_path)
  end.

Definition info_sender (packet : RawPacket) : option jstr :=
  truthy (packet.(rp_decrypted_info) ≫= di_sender).

(** The source named by the contact key the server decrypted the packet with, the first
    case of several branches. *)
Definition contact_source (packet : RawPacket) : option (jstr * jstr) :=
  match truthy (toUpperCase <$> (packet.(rp_decrypted_info) ≫= di_contact_key)) with
  | Some contactKey => Some (contactKey, default (toSourceLabel contactKey) (info_sender packet))
  | None => None
  end.

(** The source named only by the sender of the decrypted text. *)
Definition sender_source (packet : RawPacket) : option (jstr * jstr) :=
  match info_sender packet with
  | Some sender => Some (js "name:" ++ lowerName sender, sender)
  | None => None
  end.

Definition or_source (a b : option (jstr * jstr)) : option (jstr * jstr) :=
  match a with Some _ => a | None => b end.

Definition public_key_source (publicKey : option jstr) : option (jstr * jstr) :=
  match truthy publicKey with
  | Some key => Some (toUpperCase key, toUpperCase (slice key 0 12))
  | None => None
  end.

(** The [sourceKey] and [sourceLabel] pair; both are [null] together. *)
Definition getSourceInfo (packet : RawPacket) (decoded : DecodedPacket) : option (jstr * jstr) :=
  match (if decoded.(dk_isValid) then decoded.(dk_payload_decoded) else None) with
  | None => or_source (contact_source packet) (sender_source packet)
  | Some payload =>
    let t := decoded.(dk_payloadType) in
    if t =? PT_Advert then public_key_source payload.(dp_publicKey)
    else if (t =? PT_TextMessage) || (t =? PT_Request) || (t =? PT_Response) then
      or_source (contact_source packet)
        (match truthy payload.(dp_sourceHash) with
         | Some sourceHash => Some (js "hash1:" ++ toUpperCase sourceHash, toUpperCase sourceHash)
         | None => None
         end)
    else if t =? PT_GroupText then or_source (contact_source packet) (sender_source packet)
    else if t =? PT_AnonRequest then public_key_source payload.(dp_senderPublicKey)
    else contact_source packet
  end.

Definition getObservationTimestampSec (packet : RawPacket) : Z :=
  match packet.(rp_received_at_ms) with
  | Some ms => ms / 1000
  | None => packet.(rp_timestamp)
  end.

Definition summarizeRawPacketForStats (packet : RawPacket) : RawPacketStatsObservation :=
  match decode packet.(rp_data) with
  | Some decoded =>
    let pathTokens := if decoded.(dk_isValid) then getPathTokens decoded else [] in
    let sourceInfo := getSourceInfo packet decoded in
    {| so_observationKey := getRawPacketObservationKey packet;
       so_timestamp := getObservationTimestampSec packet;
       so_payloadType := if decoded.(dk_isValid) then getPayloadTypeName decoded.(dk_payloadType)
                         else packet.(rp_payload_type);
       so_routeType := if decoded.(dk_isValid) then getRouteTypeName decoded.(dk_routeType)
                       else js "Unknown";
       so_decrypted := packet.(rp_decrypted);
       so_rssi := packet.(rp_rssi);
       so_snr := packet.(rp_snr);
       so_sourceKey := fst <$> sourceInfo;
       so_sourceLabel := snd <$> sourceInfo;
       so_pathTokenCount := len pathTokens;
       so_pathSignature := if 0 <? len pathTokens then Some (join (js ">") pathTokens) else None;
       so_hopByteWidth := if 0 <? len pathTokens then Some (default 1 decoded.(dk_pathHashSize))
                          else None |}
  | None =>
    {| so_observationKey := getRawPacketObservationKey packet;
       so_timestamp := getObservationTimestampSec packet;
       so_payloadType := packet.(rp_payload_type);
       so_routeType := js "Unknown";
       so_decrypted := packet.(rp_decrypted);
       so_rssi := packet.(rp_rssi);
       so_snr := packet.(rp_snr);
       so_sourceKey := None;
       so_sourceLabel := None;
       so_pathTokenCount := 0;
       so_pathSignature := None;
       so_hopByteWidth := None |}
  end.
End summarize.

(** ** The snapshot's parts *)

Definition inferHopByteWidth (packet : RawPacketStatsObservation) : option Z :=
  if packet.(so_pathTokenCount) <=? 0 then None else
  let inferred :=
    match truthy (packet.(so_pathSignature) ≫= fun sig => head (split_char 62 sig)) with
    | None => None
    | Some firstToken =>
      if negb (len firstToken mod 2 =? 0) then None else
      let inferred := len firstToken / 2 in
      if (1 <=? inferred) && (inferred <=? 3) then Some inferred else None
    end in
  match packet.(so_hopByteWidth) with
  | Some w => if 0 <? w then Some w else inferred
  | None => inferred
  end.

Definition share (count total : Z) : num :=
  if total <=? 0 then num_of_Z 0 else num_div (num_of_Z count) (num_of_Z total).

(** A [Map] of counters. *)
Abbreviation counts := (list (jstr * Z)).

Definition createCountsMap (labels : list jstr) : counts :=
  foldl (fun m label => om_set m label 0) [] labels.

(** [counts.set(k, (counts.get(k) ?? 0) + 1)] *)
Definition count_one (m : counts) (k : jstr) : counts := om_set m k (default 0 (om_get m k) + 1).

Definition to_stat (total : Z) (p : jstr * Z) : RankedPacketStat :=
  {| rs_label := p.1; rs_count := p.2; rs_share := share p.2 total |}.

Section ranking.
Context (localeCompare : jstr -> jstr -> comparison).

Definition rank_cmp : jstr * Z -> jstr * Z -> comparison :=
  then_by (by_key (fun p => - p.2)) (fun a b => localeCompare a.1 b.1).

Definition rankedBreakdown (c : counts) (total : Z) : list RankedPacketStat :=
  to_stat total <$> js_sort rank_cmp c.
End ranking.

Definition orderedBreakdown (c : counts) (total : Z) : list RankedPacketStat := to_stat total <$> c.

Definition median (values : list num) : option num :=
  match values with
  | [] => None
  | _ =>
    let sorted := js_sort num_cmp values in
    let mid := Nat.div (length sorted) 2 in
    if Nat.odd (length sorted) then sorted !! mid
    else match sorted !! (mid - 1)%nat, sorted !! mid with
         | Some a, Some b => Some (num_div (num_add a b) (num_of_Z 2))
         | _, _ => None
         end
  end.

Definition getHopProfileBucket (pathTokenCount : Z) : jstr :=
  if pathTokenCount <=? 0 then js "0"
  else if pathTokenCount =? 1 then js "1"
  else if pathTokenCount <=? 5 then js "2-5"
  else if pathTokenCount <=? 10 then js "6-10"
  else if pathTokenCount <=? 15 then js "11-15"
  else if pathTokenCount <=? 20 then js "16-20"
  else if pathTokenCount <=? 31 then js "21-31"
  else js "32+".

Definition HOP_LABELS : list jstr :=
  [js "0"; js "1"; js "2-5"; js "6-10"; js "11-15"; js "16-20"; js "21-31"; js "32+"].
Definition WIDTH_LABELS : list jstr :=
  [js "No path"; js "1 byte / hop"; js "2 bytes / hop"; js "3 bytes / hop"; js "Unknown width"].
Definition RSSI_LABELS : list jstr :=
  [js "Strong (>-70 dBm)"; js "Okay (-70 to -85 dBm)"; js "Weak (<-85 dBm)"].

(** The label of [hopByteWidthCounts] a packet is counted under. *)
Definition hop_width_label (packet : RawPacketStatsObservation) : jstr :=
  let hopByteWidth := inferHopByteWidth packet in
  if packet.(so_pathTokenCount) <=? 0 then js "No path"
  else if hopByteWidth ≟ Some 1 then js "1 byte / hop"
  else if hopByteWidth ≟ Some 2 then js "2 bytes / hop"
  else if hopByteWidth ≟ Some 3 then js "3 bytes / hop"
  else js "Unknown width".

Definition rssi_label (rssi : num) : jstr :=
  if num_lt (num_of_Z (-70)) rssi then js "Strong (>-70 dBm)"
  else if num_le (num_of_Z (-85)) rssi then js "Okay (-70 to -85 dBm)"
  else js "Weak (<-85 dBm)".

(** The entry of [neighborMap] after one more packet of its source. *)
Definition neighbor_seen (packet : RawPacketStatsObservation) (existing : NeighborStat)
    : NeighborStat :=
  let existing := existing <| nb_count := existing.(nb_count) + 1 |> in
  let existing :=
    existing <| nb_lastSeen := Z.max existing.(nb_lastSeen) packet.(so_timestamp) |> in
  match packet.(so_rssi) with
  | Some rssi =>
    if match existing.(nb_bestRssi) with None => true | Some best => num_lt best rssi end
    then existing <| nb_bestRssi := Some rssi |> else existing
  | None => existing
  end.

Definition neighbor_step (neighborMap : list (jstr * NeighborStat))
    (packet : RawPacketStatsObservation) : list (jstr * NeighborStat) :=
  match truthy packet.(so_sourceKey), truthy packet.(so_sourceLabel) with
  | Some sourceKey, Some sourceLabel =>
    om_set neighborMap sourceKey
      (match om_get neighborMap sourceKey with
       | None => {| nb_key := sourceKey; nb_label := sourceLabel; nb_count := 1;
                    nb_bestRssi := packet.(so_rssi); nb_lastSeen := packet.(so_timestamp) |}
       | Some existing => neighbor_seen packet existing
       end)
  | _, _ => neighborMap
  end.

(** The variables of the first loop. *)
Record Tally := {
  ty_payloadCounts : counts;
  ty_routeCounts : counts;
  ty_hopCounts : counts;
  ty_hopByteWidthCounts : counts;
  ty_neighborMap : list (jstr * NeighborStat);
  ty_rssiValues : list num;
  ty_rssiBucketCounts : counts;
}.

Definition empty_tally : Tally := {|
  ty_payloadCounts := createCountsMap KNOWN_PAYLOAD_TYPES;
  ty_routeCounts := createCountsMap KNOWN_ROUTE_TYPES;
  ty_hopCounts := createCountsMap HOP_LABELS;
  ty_hopByteWidthCounts := createCountsMap WIDTH_LABELS;
  ty_neighborMap := [];
  ty_rssiValues := [];
  ty_rssiBucketCounts := createCountsMap RSSI_LABELS |}.

Definition tally_step (t : Tally) (packet : RawPacketStatsObservation) : Tally := {|
  ty_payloadCounts := count_one t.(ty_payloadCounts) packet.(so_payloadType);
  ty_routeCounts := count_one t.(ty_routeCounts) packet.(so_routeType);
  ty_hopCounts := count_one t.(ty_hopCounts) (getHopProfileBucket packet.(so_pathTokenCount));
  ty_hopByteWidthCounts := count_one t.(ty_hopByteWidthCounts) (hop_width_label packet);
  ty_neighborMap := neighbor_step t.(ty_neighborMap) packet;
  ty_rssiValues := match packet.(so_rssi) with
                   | Some rssi => t.(ty_rssiValues) ++ [rssi]
                   | None => t.(ty_rssiValues)
                   end;
  ty_rssiBucketCounts := match packet.(so_rssi) with
                         | Some rssi => count_one t.(ty_rssiBucketCounts) (rssi_label rssi)
                         | None => t.(ty_rssiBucketCounts)
                         end |}.

Definition tally (packets : list RawPacketStatsObservation) : Tally :=
  foldl tally_step empty_tally packets.

(** ** The timeline *)

Definition timelineBinCount : Z := 10.

(** The bin of a packet: its floored offset in bin widths, clamped to the array. *)
Definition timeline_index (windowStart : Z) (binWidth : num) (timestamp : Z) : option Z :=
  clamp_index 0 (timelineBinCount - 1)
    (math_floor (num_div (num_of_Z (timestamp - windowStart)) binWidth)).

(** One packet of the second loop; reading past the array throws. *)
Definition timeline_step (windowStart : Z) (binWidth : num) (timeline : list PacketTimelineBin)
    (packet : RawPacketStatsObservation) : option (list PacketTimelineBin) :=
  index ← timeline_index windowStart binWidth packet.(so_timestamp);
  bin ← timeline !! Z.to_nat index;
  Some (<[Z.to_nat index := {|
    tb_label := bin.(tb_label);
    tb_total := bin.(tb_total) + 1;
    tb_countsByType := <[packet.(so_payloadType) :=
      default 0 (bin.(tb_countsByType) !! packet.(so_payloadType)) + 1]> bin.(tb_countsByType)
    |}]> timeline).

Fixpoint fill_timeline (windowStart : Z) (binWidth : num) (timeline : list PacketTimelineBin)
    (packets : list RawPacketStatsObservation) : option (list PacketTimelineBin) :=
  match packets with
  | [] => Some timeline
  | packet :: rest =>
    timeline ← timeline_step windowStart binWidth timeline packet;
    fill_timeline windowStart binWidth timeline rest
  end.

(** ** The snapshot *)

(** Where the window starts. *)
Definition window_start (session : RawPacketStatsSessionState) (window : RawPacketStatsWindow)
    (nowSec : Z) : Z :=
  match window_seconds window with
  | None => session.(ss_sessionStartedAt) / 1000
  | Some s => nowSec - s
  end.

Definition in_window (session : RawPacketStatsSessionState) (window : RawPacketStatsWindow)
    (nowSec : Z) : list RawPacketStatsObservation :=
  filter (fun p => window_start session window nowSec <= p.(so_timestamp)) session.(ss_observations).

Definition timeline_bin_width (session : RawPacketStatsSessionState)
    (window : RawPacketStatsWindow) (nowSec : Z) : num :=
  let timelineSpanSeconds :=
    Z.max (window_seconds window ?? Z.max 60 (nowSec - session.(ss_sessionStartedAt) / 1000)) 60 in
  num_max (num_of_Z 1) (num_div (num_of_Z timelineSpanSeconds) (num_of_Z timelineBinCount)).

(** [new Set(values.filter(Boolean)).size] *)
Definition distinct_truthy (values : list (option jstr)) : Z :=
  Z.of_nat (size (list_to_set (omap truthy values) : gset jstr)).

Section snapshot.
Context (localeCompare : jstr -> jstr -> comparison).
(** [new Date(ms).toLocaleTimeString(...)] *)
Context (toLocaleTimeString : num -> jstr).

Definition formatTimelineLabel (timestamp : num) : jstr :=
  toLocaleTimeString (num_mul timestamp (num_of_Z 1000)).

Definition label_cmp (a b : NeighborStat) : comparison :=
  localeCompare a.(nb_label) b.(nb_label).
Definition count_cmp : NeighborStat -> NeighborStat -> comparison :=
  by_key (fun n => - n.(nb_count)).
Definition seen_cmp : NeighborStat -> NeighborStat -> comparison :=
  by_key (fun n => - n.(nb_lastSeen)).
Definition strength_cmp (a b : NeighborStat) : comparison :=
  num_cmp (default (S754_infinity true) b.(nb_bestRssi))
          (default (S754_infinity true) a.(nb_bestRssi)).

Definition strongest (neighbors : list NeighborStat) : list NeighborStat :=
  slice (js_sort (then_by strength_cmp (then_by count_cmp label_cmp))
    (filter (fun n => n.(nb_bestRssi) <> None) neighbors)) 0 5.
Definition most_active (neighbors : list NeighborStat) : list NeighborStat :=
  slice (js_sort (then_by count_cmp (then_by seen_cmp label_cmp)) neighbors) 0 5.
Definition newest (neighbors : list NeighborStat) : list NeighborStat :=
  slice (js_sort (then_by seen_cmp (then_by count_cmp label_cmp)) neighbors) 0 5.

Definition floor_num (x : num) : num :=
  match math_floor x with
  | JInt z => num_of_Z z
  | JInfinity s => S754_infinity s
  | JNaN => S754_nan
  end.

Definition empty_timeline (windowStart : Z) (binWidth : num) : list PacketTimelineBin :=
  (fun index => {|
    tb_label := formatTimelineLabel (floor_num
      (num_add (num_of_Z windowStart) (num_mul (num_of_Z (Z.of_nat index)) binWidth)));
    tb_total := 0;
    tb_countsByType := ∅ |}) <$> seq 0 (Z.to_nat timelineBinCount).

(** [None]: the second loop throws. *)
Definition buildRawPacketStatsSnapshot (session : RawPacketStatsSessionState)
    (window : RawPacketStatsWindow) (nowSec : Z) : option RawPacketStatsSnapshot :=
  let sessionStartedSec := session.(ss_sessionStartedAt) / 1000 in
  let windowSeconds := window_seconds window in
  let windowStart := window_start session window nowSec in
  let packets := in_window session window nowSec in
  let packetCount := len packets in
  let decryptedCount := len (filter (fun p => p.(so_decrypted) = true) packets) in
  let pathBearingCount := len (filter (fun p => 0 < p.(so_pathTokenCount)) packets) in
  let effectiveCoverageSeconds :=
    windowSeconds ?? Z.max 1 (nowSec - Z.min sessionStartedSec nowSec) in
  let packetsPerMinute :=
    num_div (num_of_Z packetCount)
      (num_max (num_div (num_of_Z effectiveCoverageSeconds) (num_of_Z 60))
               (num_div (num_of_Z 1) (num_of_Z 60))) in
  let t := tally packets in
  let rssiValues := t.(ty_rssiValues) in
  let neighbors := snd <$> t.(ty_neighborMap) in
  let oldestStoredTimestamp := so_timestamp <$> head session.(ss_observations) in
  let detailedCoverageStart :=
    if 0 <? session.(ss_trimmedObservationCount) then oldestStoredTimestamp ?? nowSec
    else sessionStartedSec in
  let windowFullyCovered :=
    if window ≟ WSession then session.(ss_trimmedObservationCount) =? 0
    else detailedCoverageStart <=? windowStart in
  let coverageStart := Z.max windowStart detailedCoverageStart in
  let coverageSeconds :=
    if window ≟ WSession then Z.max 1 (nowSec - detailedCoverageStart)
    else Z.max 1 (nowSec - coverageStart) in
  let binWidth := timeline_bin_width session window nowSec in
  timeline ← fill_timeline windowStart binWidth (empty_timeline windowStart binWidth) packets;
  Some {|
    sn_window := window;
    sn_nowSec := nowSec;
    sn_packets := packets;
    sn_packetCount := packetCount;
    sn_packetsPerMinute := packetsPerMinute;
    sn_uniqueSources := distinct_truthy (so_sourceKey <$> packets);
    sn_decryptedCount := decryptedCount;
    sn_undecryptedCount := packetCount - decryptedCount;
    sn_decryptRate := share decryptedCount packetCount;
    sn_pathBearingCount := pathBearingCount;
    sn_pathBearingRate := share pathBearingCount packetCount;
    sn_distinctPaths := distinct_truthy (so_pathSignature <$> packets);
    sn_payloadBreakdown := rankedBreakdown localeCompare t.(ty_payloadCounts) packetCount;
    sn_routeBreakdown := rankedBreakdown localeCompare t.(ty_routeCounts) packetCount;
    sn_topPacketTypes := slice (rankedBreakdown localeCompare t.(ty_payloadCounts) packetCount) 0 5;
    sn_hopProfile := orderedBreakdown t.(ty_hopCounts) packetCount;
    sn_hopByteWidthProfile := rankedBreakdown localeCompare t.(ty_hopByteWidthCounts) packetCount;
    sn_strongestNeighbors := strongest neighbors;
    sn_mostActiveNeighbors := most_active neighbors;
    sn_newestNeighbors := newest neighbors;
    sn_averageRssi :=
      if 0 <? len rssiValues
      then Some (num_div (foldl num_add (num_of_Z 0) rssiValues) (num_of_Z (len rssiValues)))
      else None;
    sn_medianRssi := median rssiValues;
    sn_bestRssi :=
      if 0 <? len rssiValues then Some (foldl num_max (S754_infinity true) rssiValues) else None;
    sn_rssiBuckets := rankedBreakdown localeCompare t.(ty_rssiBucketCounts) (len rssiValues);
    sn_coverageSeconds := coverageSeconds;
    sn_windowFullyCovered := windowFullyCovered;
    sn_oldestStoredTimestamp := oldestStoredTimestamp;
    sn_timeline := timeline |}.
End snapshot.
