(* ===== verification/RawPacketStatsProps.v ===== *)
(** The statistics snapshot: every packet of the window is counted once in each breakdown,
    the rankings are ordered, the neighbours carry the data of their packets, and the
    timeline is always filled. *)
From S2P Require Import Prelude JsString JsCollections JsNum Types Visualizer VisualizerProps RawPacketStats.
From Corelib Require Import SpecFloat.

(** ** Counters *)

Definition sum_counts (m : counts) : Z := foldr (fun p acc => p.2 + acc) 0 m.

(** How often [k] occurs. *)
Definition occurrences (k : jstr) (ks : list jstr) : Z := len (filter (fun x => x = k) ks).

Lemma sum_counts_app m m' : sum_counts (m ++ m') = sum_counts m + sum_counts m'.
Proof. induction m as [|p m IH]; simpl; [done|]. rewrite IH. lia. Qed.

Lemma sum_counts_perm m m' : m ≡ₚ m' -> sum_counts m = sum_counts m'.
Proof. induction 1; simpl; lia. Qed.

Lemma sum_counts_cons p m : sum_counts (p :: m) = p.2 + sum_counts m.
Proof. reflexivity. Qed.

Lemma sum_counts_set m k v :
  om_wf m -> sum_counts (om_set m k v) = sum_counts m - default 0 (om_get m k) + v.
Proof.
  unfold om_wf. induction m as [|[k1 v1] m IH]; cbn [om_set om_get]; intros Hwf; [cbn; lia|].
  apply NoDup_cons in Hwf as [_ Hwf]. case_decide; rewrite !sum_counts_cons; [cbn; lia|].
  rewrite IH by done. cbn. lia.
Qed.

Lemma sum_count_one m k : om_wf m -> sum_counts (count_one m k) = sum_counts m + 1.
Proof. intros. unfold count_one. rewrite sum_counts_set by done. lia. Qed.

Lemma count_one_wf m k : om_wf m -> om_wf (count_one m k).
Proof. apply om_wf_set. Qed.

Lemma count_one_get m k k' :
  default 0 (om_get (count_one m k) k')
  = default 0 (om_get m k') + (if decide (k = k') then 1 else 0).
Proof.
  unfold count_one. case_decide as Hk.
  - subst. by rewrite om_get_set_eq.
  - rewrite om_get_set_ne by done. lia.
Qed.

Lemma occurrences_cons k x ks :
  occurrences k (x :: ks) = (if decide (x = k) then 1 else 0) + occurrences k ks.
Proof. unfold occurrences. rewrite filter_cons. case_decide; [|done]. rewrite len_cons. lia. Qed.

(** Counting a list of labels into a map of counters. *)
Lemma count_fold ks m :
  om_wf m ->
  om_wf (foldl count_one m ks)
  /\ sum_counts (foldl count_one m ks) = sum_counts m + len ks
  /\ forall k, default 0 (om_get (foldl count_one m ks) k)
               = default 0 (om_get m k) + occurrences k ks.
Proof.
  revert m. induction ks as [|x ks IH]; intros m Hwf; cbn [foldl].
  - rewrite len_nil, Z.add_0_r. split_and!; [done|done|]. intros k.
    unfold occurrences. by rewrite Z.add_0_r.
  - destruct (IH (count_one m x) (count_one_wf m x Hwf)) as (Hw & Hs & Hg).
    split_and!; [done| |].
    + rewrite Hs, sum_count_one, len_cons by done. lia.
    + intros k. rewrite Hg, count_one_get, occurrences_cons. lia.
Qed.

(** Fresh counters for distinct labels. *)
Definition zero_counts (m : counts) : Prop :=
  om_wf m /\ sum_counts m = 0 /\ forall k, default 0 (om_get m k) = 0.

Lemma createCountsMap_zero labels : zero_counts (createCountsMap labels).
Proof.
  unfold createCountsMap. assert (Hz : zero_counts []) by (split_and!; [apply NoDup_nil_2|done|done]).
  revert Hz. generalize (@nil (jstr * Z)). induction labels as [|l labels IH]; intros m Hz; [done|].
  cbn [foldl]. apply IH. destruct Hz as (Hw & Hs & Hg). split_and!.
  - by apply om_wf_set.
  - rewrite sum_counts_set, Hs, Hg by done. done.
  - intros k. destruct (decide (l = k)) as [->|]; [by rewrite om_get_set_eq|].
    by rewrite om_get_set_ne.
Qed.

Lemma count_labels labels ks :
  let m := foldl count_one (createCountsMap labels) ks in
  om_wf m /\ sum_counts m = len ks /\ forall k, default 0 (om_get m k) = occurrences k ks.
Proof.
  destruct (createCountsMap_zero labels) as (Hw & Hs & Hg).
  destruct (count_fold ks (createCountsMap labels) Hw) as (Hw' & Hs' & Hg').
  cbv zeta. rewrite Hs', Hs. split_and!; [done|lia|]. intros k. rewrite Hg', Hg. lia.
Qed.

(** ** Breakdowns *)

(** A breakdown of [n] packets by label, where [ks] are the packets' labels. *)
Record breakdown_of (ks : list jstr) (b : list RankedPacketStat) : Prop := {
  bd_labels : NoDup (rs_label <$> b);
  bd_sum : foldr (fun r acc => r.(rs_count) + acc) 0 b = len ks;
  bd_count : forall r, r ∈ b -> r.(rs_count) = occurrences r.(rs_label) ks;
  bd_all : forall k, k ∈ ks -> k ∈ rs_label <$> b;
  bd_share : forall r, r ∈ b -> r.(rs_share) = share r.(rs_count) (len ks);
}.

Lemma stats_labels total m : rs_label <$> (to_stat total <$> m) = om_keys m.
Proof. unfold om_keys. rewrite <- list_fmap_compose. by apply list_fmap_ext. Qed.

Lemma stats_sum total m :
  foldr (fun r acc => r.(rs_count) + acc) 0 (to_stat total <$> m) = sum_counts m.
Proof. induction m as [|p m IH]; [done|]. by rewrite sum_counts_cons, <- IH. Qed.

Lemma occurrences_pos k ks : k ∈ ks -> 0 < occurrences k ks.
Proof.
  intros Hk. unfold occurrences.
  assert (Hin : k ∈ filter (fun x => x = k) ks) by (by apply list_elem_of_filter).
  destruct (filter _ ks) as [|y l] eqn:E; [by apply not_elem_of_nil in Hin|].
  rewrite len_cons. pose proof (len_nonneg l). lia.
Qed.

Lemma breakdown_intro ks m m' total :
  om_wf m -> sum_counts m = len ks -> (forall k, default 0 (om_get m k) = occurrences k ks) ->
  m' ≡ₚ m -> total = len ks -> breakdown_of ks (to_stat total <$> m').
Proof.
  intros Hw Hs Hg Hp ->. constructor.
  - rewrite stats_labels. unfold om_keys. by rewrite Hp.
  - by rewrite stats_sum, (sum_counts_perm _ _ Hp).
  - intros r ([k v] & -> & Hin)%list_elem_of_fmap. rewrite Hp in Hin. cbn.
    rewrite <- Hg, (om_elem_get m k v) by done. done.
  - intros k Hk. rewrite stats_labels. unfold om_keys. rewrite Hp.
    destruct (om_get m k) as [v|] eqn:E.
    + apply list_elem_of_fmap. exists (k, v). split; [done|]. by apply om_get_Some_elem.
    + specialize (Hg k). rewrite E in Hg. apply occurrences_pos in Hk. cbn in Hg. lia.
  - intros r ([k v] & -> & Hin)%list_elem_of_fmap. done.
Qed.

Lemma ranked_breakdown_of lc labels ks total :
  total = len ks ->
  breakdown_of ks (rankedBreakdown lc (foldl count_one (createCountsMap labels) ks) total).
Proof.
  destruct (count_labels labels ks) as (Hw & Hs & Hg). intros Ht.
  by eapply breakdown_intro; [exact Hw|exact Hs|exact Hg|apply js_sort_perm|].
Qed.

Lemma ordered_breakdown_of labels ks total :
  total = len ks ->
  breakdown_of ks (orderedBreakdown (foldl count_one (createCountsMap labels) ks) total).
Proof.
  destruct (count_labels labels ks) as (Hw & Hs & Hg). intros Ht.
  by eapply breakdown_intro; [exact Hw|exact Hs|exact Hg| |].
Qed.

(** ** Rankings *)

#[export] Instance then_by_key_total {A} (f : A -> Z) (q : A -> A -> comparison) :
  TotalPreorder q -> TotalPreorder (then_by (by_key f) q).
Proof.
  assert (Hle : forall x y, cmp_le (then_by (by_key f) q) x y
                <-> f x < f y \/ (f x = f y /\ cmp_le q x y)).
  { intros x y. unfold cmp_le, then_by, by_key.
    destruct (Z.compare_spec (f x) (f y)) as [?|?|?]; split; intros E; try done.
    - by right.
    - by destruct E as [|[_ E]]; [lia|].
    - by left.
    - lia. }
  intros [Ht Htr]. split; intros x y.
  - rewrite !Hle. destruct (Z.lt_total (f x) (f y)) as [|[|]]; destruct (Ht x y); auto.
  - intros z. rewrite !Hle. intros [|[? Hxy]] [|[? Hyz]]; try lia.
    right. split; [lia|]. exact (Htr x y z Hxy Hyz).
Qed.

Lemma then_by_key_le {A} (f : A -> Z) q x y : cmp_le (then_by (by_key f) q) x y -> f x <= f y.
Proof. unfold cmp_le, then_by, by_key. destruct (Z.compare_spec (f x) (f y)); [lia|lia|done]. Qed.

(** What a sorted array's first [n] entries leave out comes after what they keep. *)
Lemma top_of_sorted {A} (cmp : A -> A -> comparison) `{!TotalPreorder cmp} (l : list A) n x y :
  0 <= n ->
  x ∈ slice (js_sort cmp l) 0 n -> y ∈ l -> y ∈ slice (js_sort cmp l) 0 n \/ cmp_le cmp x y.
Proof.
  intros Hn Hx Hy. assert (Hs := js_sort_Sorted cmp l).
  rewrite slice_to in * by done.
  rewrite <- (js_sort_perm cmp l) in Hy.
  rewrite <- (take_drop (Z.to_nat n) (js_sort cmp l)) in Hy, Hs.
  apply elem_of_app in Hy as [Hy|Hy]; [by left|right].
  by eapply StronglySorted_app_1_elem_of in Hs.
Qed.

Lemma ranked_Sorted lc `{!TotalPreorder lc} m total :
  StronglySorted (fun a b => b.(rs_count) < a.(rs_count)
      \/ (a.(rs_count) = b.(rs_count) /\ lc a.(rs_label) b.(rs_label) <> Gt))
    (rankedBreakdown lc m total).
Proof.
  assert (Hp : TotalPreorder (fun a b : jstr * Z => lc a.1 b.1)).
  { split.
    - intros x y. exact (cmp_total lc x.1 y.1).
    - intros x y z. exact (cmp_trans lc x.1 y.1 z.1). }
  unfold rankedBreakdown.
  assert (Hs := js_sort_Sorted (rank_cmp lc) m).
  induction Hs as [|p l _ IH Hall]; [constructor|]. rewrite fmap_cons. constructor; [done|].
  apply Forall_fmap. eapply Forall_impl; [exact Hall|]. intros q.
  unfold cmp_le, rank_cmp, then_by, by_key. cbn.
  destruct (Z.compare_spec (- p.2) (- q.2)); intros; [|lia|done].
  right. split; [lia|done].
Qed.

(** ** The tally as folds over the packets *)

Section tally_folds.
Implicit Types (ps : list RawPacketStatsObservation) (t : Tally).

Definition rssis ps : list num := omap so_rssi ps.
Definition hop_labels ps : list jstr := (fun p => getHopProfileBucket p.(so_pathTokenCount)) <$> ps.

Lemma tally_folds ps t :
  let t' := foldl tally_step t ps in
  t'.(ty_payloadCounts) = foldl count_one t.(ty_payloadCounts) (so_payloadType <$> ps)
  /\ t'.(ty_routeCounts) = foldl count_one t.(ty_routeCounts) (so_routeType <$> ps)
  /\ t'.(ty_hopCounts) = foldl count_one t.(ty_hopCounts) (hop_labels ps)
  /\ t'.(ty_hopByteWidthCounts)
     = foldl count_one t.(ty_hopByteWidthCounts) (hop_width_label <$> ps)
  /\ t'.(ty_neighborMap) = foldl neighbor_step t.(ty_neighborMap) ps
  /\ t'.(ty_rssiValues) = t.(ty_rssiValues) ++ rssis ps
  /\ t'.(ty_rssiBucketCounts)
     = foldl count_one t.(ty_rssiBucketCounts) (rssi_label <$> rssis ps).
Proof.
  revert t. induction ps as [|p ps IH]; intros t; cbv zeta; cbn [foldl].
  { split_and!; try done. cbn. by rewrite app_nil_r. }
  destruct (IH (tally_step t p)) as (-> & -> & -> & -> & -> & -> & ->).
  assert (Hr : rssis (p :: ps) = match so_rssi p with Some r => r :: rssis ps | None => rssis ps end)
    by done.
  rewrite !Hr. cbn [tally_step ty_payloadCounts ty_routeCounts ty_hopCounts ty_hopByteWidthCounts
    ty_neighborMap ty_rssiValues ty_rssiBucketCounts].
  destruct (so_rssi p); split_and!; try done. by rewrite <- app_assoc.
Qed.
End tally_folds.

(** ** Neighbours *)

Section neighbors.
Implicit Types (ps : list RawPacketStatsObservation).

(** The packets counted for the neighbour [k]. *)
Definition from_source (k : jstr) (p : RawPacketStatsObservation) : bool :=
  match truthy p.(so_sourceKey), truthy p.(so_sourceLabel) with
  | Some sourceKey, Some _ => sourceKey ≟ k
  | _, _ => false
  end.
Definition packets_of (k : jstr) ps : list RawPacketStatsObservation :=
  filter (fun p => from_source k p = true) ps.

(** The strongest of some measurements: one of them, with none above it. *)
Definition best_of (rs : list num) (best : option num) : Prop :=
  match best with
  | None => rs = []
  | Some b => b ∈ rs /\ forall r, r ∈ rs -> num_lt b r = false
  end.

(** The neighbour [k] as seen through its packets [ps]. *)
Record neighbor_ok (k : jstr) ps (n : NeighborStat) : Prop := {
  nb_ok_key : n.(nb_key) = k;
  nb_ok_label : exists p, head ps = Some p /\ p.(so_sourceLabel) = Some n.(nb_label);
  nb_ok_count : n.(nb_count) = len ps;
  nb_ok_seen : n.(nb_lastSeen) ∈ so_timestamp <$> ps;
  nb_ok_last : Forall (fun p => p.(so_timestamp) <= n.(nb_lastSeen)) ps;
  nb_ok_best : best_of (rssis ps) n.(nb_bestRssi);
}.

Lemma best_of_snoc rs best r :
  best_of rs best ->
  best_of (rs ++ [r])
    (if match best with None => true | Some b => num_lt b r end then Some r else best).
Proof.
  destruct best as [b|]; cbn.
  - intros [Hb Hmax]. destruct (num_lt b r) eqn:E; cbn.
    + split; [set_solver|]. intros x [Hx| ->%list_elem_of_singleton]%elem_of_app.
      * destruct (num_lt r x) eqn:E'; [|done].
        assert (Hbx := num_lt_trans _ _ _ E E'). rewrite Hmax in Hbx; done.
      * apply num_lt_irrefl.
    + split; [set_solver|]. intros x [Hx| ->%list_elem_of_singleton]%elem_of_app; auto.
  - intros ->. split; [set_solver|]. intros x ->%list_elem_of_singleton. apply num_lt_irrefl.
Qed.

Lemma neighbor_seen_ok k ps n p :
  neighbor_ok k ps n -> neighbor_ok k (ps ++ [p]) (neighbor_seen p n).
Proof.
  intros [Hk (p0 & Hh & Hl) Hc Hs Hlast Hb].
  assert (Hfields : nb_key (neighbor_seen p n) = nb_key n
    /\ nb_label (neighbor_seen p n) = nb_label n
    /\ nb_count (neighbor_seen p n) = nb_count n + 1
    /\ nb_lastSeen (neighbor_seen p n) = Z.max (nb_lastSeen n) (so_timestamp p)
    /\ nb_bestRssi (neighbor_seen p n) =
       match so_rssi p with
       | Some r => if match nb_bestRssi n with None => true | Some b => num_lt b r end
                   then Some r else nb_bestRssi n
       | None => nb_bestRssi n
       end).
  { unfold neighbor_seen. destruct (so_rssi p) as [r|]; [|done].
    cbn [nb_bestRssi set]. destruct n as [? ? ? [b|] ?]; cbn; [|done]. by destruct (num_lt b r). }
  destruct Hfields as (Ek & El & Ec & Els & Eb).
  constructor; rewrite ?Ek, ?El, ?Ec, ?Els, ?Eb.
  - done.
  - exists p0. split; [by destruct ps|done].
  - by rewrite Hc, len_app.
  - rewrite fmap_app. apply elem_of_app. destruct (Z.max_spec (nb_lastSeen n) (so_timestamp p))
      as [[_ ->]|[_ ->]]; [right; by apply list_elem_of_singleton|by left].
  - apply Forall_app. split; [|repeat constructor; lia].
    eapply Forall_impl; [exact Hlast|]. cbn. lia.
  - unfold rssis in *. rewrite omap_app. cbn. destruct (so_rssi p) as [r|].
    + by apply best_of_snoc.
    + by rewrite app_nil_r.
Qed.

Lemma neighbor_first_ok k label p :
  truthy p.(so_sourceLabel) = Some label ->
  neighbor_ok k [p] {| nb_key := k; nb_label := label; nb_count := 1; nb_bestRssi := p.(so_rssi);
                       nb_lastSeen := p.(so_timestamp) |}.
Proof.
  intros Hl. constructor; cbn.
  - done.
  - exists p. split; [done|]. by destruct (so_sourceLabel p) as [[]|].
  - done.
  - by apply list_elem_of_singleton.
  - repeat constructor. lia.
  - unfold rssis. cbn. destruct (so_rssi p) as [r|]; cbn; [|done].
    split; [by apply list_elem_of_singleton|]. intros x ->%list_elem_of_singleton.
    apply num_lt_irrefl.
Qed.

(** The map of neighbours after [ps]. *)
Definition neighbors_ok ps (m : list (jstr * NeighborStat)) : Prop :=
  om_wf m /\ forall k, match om_get m k with
                       | None => packets_of k ps = []
                       | Some n => neighbor_ok k (packets_of k ps) n
                       end.

Lemma packets_of_snoc k ps p :
  packets_of k (ps ++ [p]) = packets_of k ps ++ (if from_source k p then [p] else []).
Proof.
  unfold packets_of. rewrite filter_app, filter_cons. f_equal.
  destruct (from_source k p); [by rewrite decide_True|by rewrite decide_False].
Qed.

Lemma neighbor_step_ok ps m p : neighbors_ok ps m -> neighbors_ok (ps ++ [p]) (neighbor_step m p).
Proof.
  intros [Hw Hm]. unfold neighbor_step.
  destruct (truthy (so_sourceKey p)) as [sk|] eqn:Ek; [destruct (truthy (so_sourceLabel p)) as [sl|] eqn:El|].
  2,3: split; [done|]; intros k; rewrite packets_of_snoc; unfold from_source; rewrite Ek, ?El, app_nil_r;
    apply Hm.
  split; [by apply om_wf_set|]. intros k. rewrite packets_of_snoc. unfold from_source. rewrite Ek, El.
  destruct (decide (sk = k)) as [->|Hne].
  - rewrite om_get_set_eq, bool_decide_eq_true_2 by done. specialize (Hm k).
    destruct (om_get m k) as [n|].
    + by apply neighbor_seen_ok.
    + rewrite Hm. by apply neighbor_first_ok.
  - rewrite om_get_set_ne, bool_decide_eq_false_2, app_nil_r by done. apply Hm.
Qed.

Lemma neighbor_fold_ok ps : neighbors_ok ps (foldl neighbor_step [] ps).
Proof.
  induction ps as [|p ps IH] using rev_ind.
  - split; [apply NoDup_nil_2|done].
  - rewrite foldl_app. by apply neighbor_step_ok.
Qed.
End neighbors.

(** ** The timeline *)

Section timeline.
Context (windowStart : Z) (binWidth : num).
Implicit Types (ps : list RawPacketStatsObservation) (tl : list PacketTimelineBin).

(** The packets that fall in bin [i]. *)
Definition binned (i : Z) ps : list RawPacketStatsObservation :=
  filter (fun p => timeline_index windowStart binWidth p.(so_timestamp) = Some i) ps.

Definition sum_totals tl : Z := foldr (fun b acc => b.(tb_total) + acc) 0 tl.

Record timeline_ok ps tl : Prop := {
  tl_length : length tl = Z.to_nat timelineBinCount;
  tl_sum : sum_totals tl = len ps;
  tl_bin : forall i bin, tl !! i = Some bin ->
    bin.(tb_total) = len (binned (Z.of_nat i) ps)
    /\ forall ty, default 0 (bin.(tb_countsByType) !! ty)
                  = occurrences ty (so_payloadType <$> binned (Z.of_nat i) ps);
}.

Lemma sum_totals_insert tl i b b' :
  tl !! i = Some b -> sum_totals (<[i := b']> tl) = sum_totals tl - b.(tb_total) + b'.(tb_total).
Proof.
  assert (Hc : forall x l, sum_totals (x :: l) = x.(tb_total) + sum_totals l) by done.
  revert i. induction tl as [|x tl IH]; intros [|i] E; try done.
  - injection E as ->. change (<[0%nat:=b']> (b :: tl)) with (b' :: tl). rewrite !Hc. lia.
  - change (<[S i:=b']> (x :: tl)) with (x :: <[i:=b']> tl). rewrite !Hc, (IH i) by done. lia.
Qed.

Lemma binned_snoc i ps p :
  binned i (ps ++ [p]) = binned i ps ++
    (if decide (timeline_index windowStart binWidth p.(so_timestamp) = Some i) then [p] else []).
Proof. unfold binned. by rewrite filter_app, filter_cons. Qed.

Lemma occurrences_app k ks ks' : occurrences k (ks ++ ks') = occurrences k ks + occurrences k ks'.
Proof. unfold occurrences. by rewrite filter_app, len_app. Qed.

Lemma timeline_index_bounds ts i :
  timeline_index windowStart binWidth ts = Some i -> 0 <= i < timelineBinCount.
Proof. unfold timeline_index, timelineBinCount. intros Hi%clamp_index_bounds; lia. Qed.

Lemma timeline_step_ok ps tl p :
  is_Some (timeline_index windowStart binWidth p.(so_timestamp)) -> timeline_ok ps tl ->
  exists tl', timeline_step windowStart binWidth tl p = Some tl' /\ timeline_ok (ps ++ [p]) tl'
         /\ tb_label <$> tl' = tb_label <$> tl.
Proof.
  intros [i Hi] [Hlen Hsum Hbin]. assert (Hb := timeline_index_bounds _ _ Hi).
  unfold timeline_step. rewrite Hi. cbn [mbind option_bind].
  destruct (lookup_lt_is_Some_2 tl (Z.to_nat i)) as [b Hlk]; [lia|]. rewrite Hlk.
  cbn [mbind option_bind]. eexists. split; [reflexivity|]. split.
  - constructor.
    + by rewrite length_insert.
    + rewrite (sum_totals_insert _ _ b) by done. rewrite Hsum, len_app.
      change (len [p]) with 1. cbn [tb_total]. lia.
    + intros j bin Hj. rewrite binned_snoc, Hi.
      destruct (decide (j = Z.to_nat i)) as [->|Hne].
      * rewrite list_lookup_insert_eq in Hj by lia. injection Hj as <-. cbn [tb_total tb_countsByType].
        destruct (Hbin _ _ Hlk) as [Ht Hc]. rewrite Z2Nat.id in * by lia.
        rewrite decide_True by done. split; [by rewrite len_app, Ht|]. intros ty.
        rewrite fmap_app, occurrences_app, <- Hc. cbn [fmap list_fmap]. rewrite occurrences_cons.
        unfold occurrences at 1. cbn [filter list_filter len length].
        rewrite lookup_insert. case_decide; subst; cbn [default from_option id]; unfold len; cbn; lia.
      * rewrite list_lookup_insert_ne in Hj by done. rewrite decide_False, app_nil_r; [by apply Hbin|].
        intros [=]. lia.
  - apply list_eq. intros j. rewrite !list_lookup_fmap.
    destruct (decide (j = Z.to_nat i)) as [->|Hne].
    + rewrite list_lookup_insert_eq by lia. by rewrite Hlk.
    + by rewrite list_lookup_insert_ne.
Qed.

Lemma fill_timeline_ok ps done_ps tl :
  Forall (fun p => is_Some (timeline_index windowStart binWidth p.(so_timestamp))) ps ->
  timeline_ok done_ps tl ->
  exists tl', fill_timeline windowStart binWidth tl ps = Some tl' /\ timeline_ok (done_ps ++ ps) tl'
         /\ tb_label <$> tl' = tb_label <$> tl.
Proof.
  intros Hps. revert done_ps tl. induction Hps as [|p ps Hp _ IH]; intros dp tl Hok; cbn [fill_timeline].
  - exists tl. by rewrite app_nil_r.
  - destruct (timeline_step_ok dp tl p Hp Hok) as (tl' & -> & Hok' & Hl). cbn [mbind option_bind].
    destruct (IH _ _ Hok') as (tl'' & -> & Hok'' & Hl'). exists tl''.
    rewrite <- app_assoc in Hok''. split; [done|]. split; [done|]. congruence.
Qed.

Lemma empty_timeline_ok fmt : timeline_ok [] (empty_timeline fmt windowStart binWidth).
Proof.
  constructor; [done|done|]. intros i bin. unfold empty_timeline. rewrite list_lookup_fmap.
  destruct (seq 0 _ !! i); [|done]. intros [= <-]. split; [done|]. intros ty.
  cbn [tb_countsByType]. by rewrite lookup_empty.
Qed.
End timeline.

(** Integers JavaScript represents exactly. *)
Definition safe (z : Z) : Prop := Z.abs z < 2 ^ 53.

Lemma timeline_index_some session window nowSec ts :
  safe (ts - window_start session window nowSec) ->
  is_Some (timeline_index (window_start session window nowSec)
             (timeline_bin_width session window nowSec) ts).
Proof.
  intros Hs. unfold timeline_index. apply clamp_index_some, math_floor_not_nan.
  assert (Hq : forall z, num_div (num_of_Z z) (num_of_Z timelineBinCount) <> S754_nan
                      \/ num_isFinite (num_of_Z z) = false).
  { intros z. destruct (num_isFinite (num_of_Z z)) eqn:E; [left|by right].
    by apply num_div_not_nan. }
  unfold timeline_bin_width. set (span := Z.max _ 60). destruct (num_max_one
    (num_div (num_of_Z span) (num_of_Z timelineBinCount))) as [Hn Hz].
  - destruct (Hq span) as [|Hinf]; [done|]. pose proof (num_of_Z_not_nan span).
    by destruct (num_of_Z span) as [|[]| |].
  - apply num_div_not_nan; [by apply num_of_Z_finite|done|done].
Qed.

(** ** Properties *)

Section snapshot_facts.
Context (lc : jstr -> jstr -> comparison) (fmt : num -> jstr).

(** The parts of a snapshot, in terms of the packets it counts. *)
Lemma snapshot_inv session window nowSec s :
  buildRawPacketStatsSnapshot lc fmt session window nowSec = Some s ->
  let ps := in_window session window nowSec in
  let t := tally ps in
  s.(sn_packets) = ps /\ s.(sn_packetCount) = len ps
  /\ s.(sn_payloadBreakdown) = rankedBreakdown lc t.(ty_payloadCounts) (len ps)
  /\ s.(sn_routeBreakdown) = rankedBreakdown lc t.(ty_routeCounts) (len ps)
  /\ s.(sn_hopProfile) = orderedBreakdown t.(ty_hopCounts) (len ps)
  /\ s.(sn_hopByteWidthProfile) = rankedBreakdown lc t.(ty_hopByteWidthCounts) (len ps)
  /\ s.(sn_rssiBuckets) = rankedBreakdown lc t.(ty_rssiBucketCounts) (len t.(ty_rssiValues))
  /\ s.(sn_decryptedCount) = len (filter (fun p => p.(so_decrypted) = true) ps)
  /\ s.(sn_decryptedCount) + s.(sn_undecryptedCount) = len ps
  /\ s.(sn_mostActiveNeighbors) = most_active lc (snd <$> t.(ty_neighborMap))
  /\ s.(sn_newestNeighbors) = newest lc (snd <$> t.(ty_neighborMap)).
Proof.
  unfold buildRawPacketStatsSnapshot. cbv zeta.
  destruct (fill_timeline _ _ _ _) as [tl|]; cbn [mbind option_bind]; [|done].
  intros [= <-]. cbn [sn_packets sn_packetCount sn_payloadBreakdown sn_routeBreakdown sn_hopProfile
    sn_hopByteWidthProfile sn_rssiBuckets sn_decryptedCount sn_undecryptedCount
    sn_mostActiveNeighbors sn_newestNeighbors].
  split_and!; try done. lia.
Qed.
End snapshot_facts.

Definition example_observation (source : jstr) (timestamp : Z) (rssi : Z)
    : RawPacketStatsObservation :=
  (summarizeRawPacketForStats (H := example_decoder) id
    ((example_packet (timestamp * 1000)) <| rp_rssi := Some (num_of_Z rssi) |>))
  <| so_sourceKey := Some source |> <| so_sourceLabel := Some source |>.

Definition example_session : RawPacketStatsSessionState :=
  {| ss_sessionStartedAt := 900000; ss_totalObservedPackets := 3; ss_trimmedObservationCount := 0;
     ss_observations := [example_observation (js "AB") 905 (-60);
       example_observation (js "CD") 980 (-80); example_observation (js "AB") 999 (-90)] |}.

(** The snapshot is always built: with time stamps within the integers JavaScript
    represents exactly, every packet of the window lands in one of the ten bins, the bins'
    totals add up to the packet count, and each bin counts exactly its packets, in total and
    by payload type. *)
Theorem snapshot_timeline_complete (lc : jstr -> jstr -> comparison) (fmt : num -> jstr)
    (session : RawPacketStatsSessionState) (window : RawPacketStatsWindow) (nowSec : Z)
    (Hsafe : Forall (fun p => safe (p.(so_timestamp) - window_start session window nowSec))
               session.(ss_observations)) :
  exists s, buildRawPacketStatsSnapshot lc fmt session window nowSec = Some s
    /\ timeline_ok (window_start session window nowSec) (timeline_bin_width session window nowSec)
         s.(sn_packets) s.(sn_timeline)
    /\ sum_totals s.(sn_timeline) = s.(sn_packetCount).
Proof.
  set (ws := window_start session window nowSec). set (bw := timeline_bin_width session window nowSec).
  destruct (fill_timeline_ok ws bw (in_window session window nowSec) [] (empty_timeline fmt ws bw))
    as (tl & Hfill & Hok & _).
  - apply Forall_filter. eapply Forall_impl; [exact Hsafe|]. intros p. apply timeline_index_some.
  - apply empty_timeline_ok.
  - cbn [app] in Hok. unfold buildRawPacketStatsSnapshot. cbv zeta. fold ws bw. rewrite Hfill.
    cbn [mbind option_bind]. eexists. split; [reflexivity|].
    cbn [sn_packets sn_timeline sn_packetCount]. split; [exact Hok|apply Hok].
Qed.

Lemma snapshot_timeline_complete_witness :
  exists s, buildRawPacketStatsSnapshot str_compare (fun _ => []) example_session W1m 1000 = Some s
    /\ sum_totals s.(sn_timeline) = s.(sn_packetCount).
Proof.
  assert (Hs : Forall (fun p => safe (p.(so_timestamp) - window_start example_session W1m 1000))
                 example_session.(ss_observations)) by (repeat constructor).
  destruct (snapshot_timeline_complete str_compare (fun _ => []) example_session W1m 1000 Hs)
    as (s & Hb & _ & Hsum).
  exists s. split; [exact Hb|exact Hsum].
Defined.

(** Each breakdown of a snapshot partitions the packets of the window: its labels are
    distinct, the count of a label is the number of packets with it, every label that occurs
    is listed, the counts add up to the packet count (for the signal buckets: to the packets
    that have a measurement), and the shares are these counts over that total. *)
Theorem snapshot_breakdowns_partition (lc : jstr -> jstr -> comparison) (fmt : num -> jstr)
    (session : RawPacketStatsSessionState) (window : RawPacketStatsWindow) (nowSec : Z)
    (s : RawPacketStatsSnapshot)
    (Hs : buildRawPacketStatsSnapshot lc fmt session window nowSec = Some s) :
  breakdown_of (so_payloadType <$> s.(sn_packets)) s.(sn_payloadBreakdown)
  /\ breakdown_of (so_routeType <$> s.(sn_packets)) s.(sn_routeBreakdown)
  /\ breakdown_of (hop_labels s.(sn_packets)) s.(sn_hopProfile)
  /\ breakdown_of (hop_width_label <$> s.(sn_packets)) s.(sn_hopByteWidthProfile)
  /\ breakdown_of (rssi_label <$> rssis s.(sn_packets)) s.(sn_rssiBuckets)
  /\ s.(sn_packetCount) = len s.(sn_packets)
  /\ s.(sn_decryptedCount) + s.(sn_undecryptedCount) = s.(sn_packetCount).
Proof.
  destruct (snapshot_inv _ _ _ _ _ _ Hs)
    as (-> & -> & -> & -> & -> & -> & -> & _ & -> & _ & _).
  destruct (tally_folds (in_window session window nowSec) empty_tally)
    as (Ep & Er & Eh & Ew & _ & Ev & Eb).
  unfold tally. rewrite Ep, Er, Eh, Ew, Ev, Eb. cbn [empty_tally ty_payloadCounts ty_routeCounts
    ty_hopCounts ty_hopByteWidthCounts ty_rssiValues ty_rssiBucketCounts app].
  split_and!; try done; (apply ranked_breakdown_of || apply ordered_breakdown_of);
    unfold hop_labels; by rewrite len_fmap.
Qed.

Lemma snapshot_breakdowns_partition_witness :
  exists s, buildRawPacketStatsSnapshot str_compare (fun _ => []) example_session W1m 1000 = Some s
    /\ breakdown_of (rssi_label <$> rssis s.(sn_packets)) s.(sn_rssiBuckets)
    /\ s.(sn_packetCount) = 2.
Proof.
  eexists. split; [vm_compute; reflexivity|]. split; [|reflexivity].
  refine (proj1 (proj2 (proj2 (proj2 (proj2 (snapshot_breakdowns_partition str_compare (fun _ => [])
    example_session W1m 1000 _ _)))))). vm_compute. reflexivity.
Defined.

(** When the locale's comparison is a total preorder, the ranked breakdowns are in
    descending order of their counts with ties in label order, and whatever neighbour the
    list of the most active leaves out has no more packets than any it shows (and was seen no
    later when it has as many); the list of the newest likewise by the last time seen. *)
Theorem snapshot_rankings (lc : jstr -> jstr -> comparison) (fmt : num -> jstr)
    (session : RawPacketStatsSessionState) (window : RawPacketStatsWindow) (nowSec : Z)
    (s : RawPacketStatsSnapshot) (Hlc : TotalPreorder lc)
    (Hs : buildRawPacketStatsSnapshot lc fmt session window nowSec = Some s) :
  let ranked := StronglySorted (fun a b => b.(rs_count) < a.(rs_count)
    \/ (a.(rs_count) = b.(rs_count) /\ lc a.(rs_label) b.(rs_label) <> Gt)) in
  let neighbors := snd <$> (tally s.(sn_packets)).(ty_neighborMap) in
  ranked s.(sn_payloadBreakdown) /\ ranked s.(sn_routeBreakdown)
  /\ ranked s.(sn_hopByteWidthProfile) /\ ranked s.(sn_rssiBuckets)
  /\ (forall x y, x ∈ s.(sn_mostActiveNeighbors) -> y ∈ neighbors ->
        y ∈ s.(sn_mostActiveNeighbors) \/ y.(nb_count) < x.(nb_count)
        \/ (y.(nb_count) = x.(nb_count) /\ y.(nb_lastSeen) <= x.(nb_lastSeen)))
  /\ (forall x y, x ∈ s.(sn_newestNeighbors) -> y ∈ neighbors ->
        y ∈ s.(sn_newestNeighbors) \/ y.(nb_lastSeen) < x.(nb_lastSeen)
        \/ (y.(nb_lastSeen) = x.(nb_lastSeen) /\ y.(nb_count) <= x.(nb_count))).
Proof.
  intros ranked neighbors. unfold neighbors. clear neighbors.
  destruct (snapshot_inv _ _ _ _ _ _ Hs)
    as (-> & _ & -> & -> & _ & -> & -> & _ & _ & -> & ->).
  set (neighbors := snd <$> _).
  assert (Hl : TotalPreorder (label_cmp lc)).
  { split; [intros x y; exact (cmp_total lc (nb_label x) (nb_label y))|].
    intros x y z. exact (cmp_trans lc (nb_label x) (nb_label y) (nb_label z)). }
  split_and!; [by apply ranked_Sorted..| |]; intros x y Hx Hy.
  - destruct (top_of_sorted _ neighbors 5 x y ltac:(lia) Hx Hy) as [|Hle]; [by left|right].
    assert (Hc := then_by_key_le _ _ _ _ Hle). apply then_by_Gt in Hle as Hle'. cbn in Hc, Hle'.
    unfold cmp_le, then_by, count_cmp, seen_cmp, by_key in Hle.
    destruct (Z.compare_spec (- nb_count x) (- nb_count y)); [right|left; lia|done].
    destruct (Z.compare_spec (- nb_lastSeen x) (- nb_lastSeen y)); [lia|lia|done].
  - destruct (top_of_sorted _ neighbors 5 x y ltac:(lia) Hx Hy) as [|Hle]; [by left|right].
    unfold cmp_le, then_by, count_cmp, seen_cmp, by_key in Hle.
    destruct (Z.compare_spec (- nb_lastSeen x) (- nb_lastSeen y)); [right|left; lia|done].
    destruct (Z.compare_spec (- nb_count x) (- nb_count y)); [lia|lia|done].
Qed.

Lemma snapshot_rankings_witness :
  exists s, buildRawPacketStatsSnapshot str_compare (fun _ => []) example_session WSession 1000 = Some s
    /\ nb_key <$> s.(sn_mostActiveNeighbors) = [js "AB"; js "CD"]
    /\ forall x y, x ∈ s.(sn_newestNeighbors) -> y ∈ snd <$> (tally s.(sn_packets)).(ty_neighborMap) ->
         y ∈ s.(sn_newestNeighbors) \/ y.(nb_lastSeen) < x.(nb_lastSeen)
         \/ (y.(nb_lastSeen) = x.(nb_lastSeen) /\ y.(nb_count) <= x.(nb_count)).
Proof.
  eexists. split; [vm_compute; reflexivity|]. split; [reflexivity|].
  refine (proj2 (proj2 (proj2 (proj2 (proj2 (snapshot_rankings str_compare (fun _ => [])
    example_session WSession 1000 _ str_compare_total _)))))). vm_compute. reflexivity.
Defined.

(** The neighbours of a snapshot are exactly the sources of its packets, each once, under
    its key, with the label of its first packet, the number of its packets, the latest of
    their time stamps, and the strongest of their measurements ([null] only when none has one). *)
Theorem snapshot_neighbors (packets : list RawPacketStatsObservation) :
  let m := (tally packets).(ty_neighborMap) in
  NoDup (om_keys m)
  /\ (forall k n, (k, n) ∈ m -> neighbor_ok k (packets_of k packets) n)
  /\ (forall k, k ∈ om_keys m <-> packets_of k packets <> []).
Proof.
  intros m. unfold m, tally. destruct (tally_folds packets empty_tally) as (_ & _ & _ & _ & -> & _).
  destruct (neighbor_fold_ok packets) as [Hw Hm]. cbn [empty_tally ty_neighborMap].
  split_and!; [done| |].
  - intros k n Hin%om_elem_get; [|done]. specialize (Hm k). by rewrite Hin in Hm.
  - intros k. specialize (Hm k). destruct (om_get _ k) as [n|] eqn:E.
    + split; [|intros _; apply list_elem_of_fmap; exists (k, n); split; [done|by apply om_get_Some_elem]].
      intros _ Hnil. destruct Hm as [_ (p & Hh & _) _ _ _ _]. by rewrite Hnil in Hh.
    + split; [|done]. intros Hin. by apply om_get_None in E.
Qed.

(** ** Summaries *)

Lemma split_char_no c s : Forall (fun x => x <> c) s -> split_char c s = [s].
Proof.
  intros Hs. induction Hs as [|x s Hx _ IH]; [done|]. cbn [split_char].
  rewrite (proj2 (Z.eqb_neq x c) Hx), IH. done.
Qed.

Lemma split_char_app c s t :
  Forall (fun x => x <> c) s -> head (split_char c (s ++ c :: t)) = Some s.
Proof.
  intros Hs. induction Hs as [|x s Hx _ IH]; cbn [split_char app].
  - by rewrite Z.eqb_refl.
  - rewrite (proj2 (Z.eqb_neq x c) Hx). destruct (split_char c (s ++ c :: t)); [done|].
    cbn in IH. by simplify_eq.
Qed.

Lemma first_token c tokens w :
  head tokens = Some w -> Forall (fun x => x <> c) w ->
  head (split_char c (join [c] tokens)) = Some w.
Proof.
  destruct tokens as [|t [|t' ts]]; intros [= ->] Hw; cbn [join].
  - by rewrite split_char_no.
  - by apply split_char_app.
Qed.

(** A summary is consistent: the source key and label are present together, a path count
    is positive exactly when there is a signature; and the hop width of a path is the width
    the decoder reports or, when it reports none, the one recovered from the signature:
    half the length of the first token, for hexadecimal tokens of one to three bytes. *)
Theorem summary_consistent (dec : MeshDecoder) (lowerName : jstr -> jstr) (packet : RawPacket) :
  let o := summarizeRawPacketForStats lowerName packet in
  (is_Some o.(so_sourceKey) <-> is_Some o.(so_sourceLabel))
  /\ (0 < o.(so_pathTokenCount) <-> is_Some o.(so_pathSignature))
  /\ (forall decoded token w,
        decode packet.(rp_data) = Some decoded -> decoded.(dk_isValid) = true ->
        head (getPathTokens decoded) = Some token ->
        (forall v, decoded.(dk_pathHashSize) = Some v -> 0 < v) ->
        inferHopByteWidth o = Some (default 1 decoded.(dk_pathHashSize))
        /\ (1 <= w <= 3 -> len token = 2 * w -> Forall (fun c => is_hex c = true) token ->
            inferHopByteWidth (o <| so_hopByteWidth := None |>) = Some w)).
Proof.
  intros o. unfold o, summarizeRawPacketForStats. destruct (decode (rp_data packet)) as [d|] eqn:Ed.
  2: { cbn. split_and!; [done| |done]. split; [lia|by intros []]. }
  cbn [so_sourceKey so_sourceLabel so_pathTokenCount so_pathSignature].
  split_and!.
  - by rewrite !fmap_is_Some.
  - destruct (Z.ltb_spec 0 (len (if dk_isValid d then getPathTokens d else []))); split; [done|done|lia|by intros [? ?]].
  - intros d' token w [= <-] Hv Hh Hpos. rewrite Hv.
    assert (Hl : 0 < len (getPathTokens d)).
    { destruct (getPathTokens d) as [|t ts]; [done|]. rewrite len_cons. pose proof (len_nonneg ts). lia. }
    unfold inferHopByteWidth. cbn [so_pathTokenCount so_hopByteWidth so_pathSignature set].
    rewrite (proj2 (Z.leb_gt _ _) Hl), (proj2 (Z.ltb_lt _ _) Hl). split.
    + destruct (dk_pathHashSize d) as [v|] eqn:Es; cbn [default from_option id]; [|done].
      specialize (Hpos v eq_refl). by rewrite (proj2 (Z.ltb_lt _ _) Hpos).
    + intros Hw Hlen Hhex. cbn [mbind option_bind].
      change (js ">") with [62]. rewrite (first_token 62 (getPathTokens d) token Hh).
      2: { eapply Forall_impl; [exact Hhex|]. by intros c Hc ->. }
      destruct token as [|c token]; [rewrite len_nil in Hlen; lia|]. cbn [truthy]. rewrite Hlen.
      replace (2 * w) with (w * 2) by lia. rewrite Z.mod_mul, Z.div_mul by lia. cbn [negb Z.eqb].
      by rewrite (proj2 (Z.leb_le 1 w)), (proj2 (Z.leb_le w 3)) by lia.
Qed.

Lemma summary_consistent_witness :
  let o := summarizeRawPacketForStats (H := example_decoder) id (example_packet 5000) in
  o.(so_sourceKey) = Some (js "AABBCCDDEEFF00") /\ o.(so_pathTokenCount) = 1
  /\ inferHopByteWidth (o <| so_hopByteWidth := None |>) = Some 1.
Proof.
  split; [reflexivity|]. split; [reflexivity|].
  refine (proj2 (proj2 (proj2 (summary_consistent example_decoder id (example_packet 5000)))
    _ (js "32") 1 eq_refl eq_refl eq_refl _) _ _ _).
  - discriminate.
  - lia.
  - reflexivity.
  - repeat constructor.
Defined.
