(* ===== verification/RawPacketStore.v ===== *)
(** The client's packet stores: [stores/rawPacketStore.ts], the clock estimate it serves
    ([utils/rawPacketHistoryBounds.ts]), and the history replay overlay
    ([stores/rawPacketReplayStore.ts]).

    A store is a record of its module's variables; [emit()] is counted, its listeners being
    React's. [Date.now()] is the argument [now]. *)
From S2P Require Import Prelude JsString JsCollections JsNum Types Visualizer RawPacketStats.

(** ** The server's clock *)

Inductive HistoryPeriod := P1h | P24h | P7d | PCustom.
#[export] Instance HistoryPeriod_eq_dec : EqDecision HistoryPeriod.
Proof. solve_decision. Defined.

(** [HISTORY_PERIOD_SECONDS]; a custom range has none. *)
Definition period_seconds (p : HistoryPeriod) : option Z :=
  match p with
  | P1h => Some 3600 | P24h => Some 86400 | P7d => Some (7 * 86400) | PCustom => None
  end.

Definition OFFSET_SAMPLE_SIZE : nat := 15.

(** The loop over [packets] from the newest, [n] samples wanted. A server time stamp is an
    integer here, so it is finite. *)
Fixpoint clock_samples (n : nat) (newest_first : list RawPacket) : list Z :=
  match n, newest_first with
  | S n', packet :: rest =>
    match packet.(rp_received_at_ms) with
    | None => clock_samples n rest
    | Some ms => (ms / 1000 - packet.(rp_timestamp)) :: clock_samples n' rest
    end
  | _, _ => []
  end.

Definition measureServerClockOffsetSec (packets : list RawPacket) : option Z :=
  let samples := clock_samples OFFSET_SAMPLE_SIZE (reverse packets) in
  if len samples =? 0 then None else
  js_sort (by_key id) samples !! Nat.div (length samples) 2.

Definition estimateServerClockOffsetSec (packets : list RawPacket) : Z :=
  measureServerClockOffsetSec packets ?? 0.

Record HistoryBounds := { hb_since : option Z; hb_until : option Z; hb_invalid : bool }.

Section bounds.
(** [new Date(localValue).getTime()]; [None] is [NaN]. *)
Context (date_ms : jstr -> option Z).

Definition toUnixSeconds (localValue : jstr) : option Z :=
  if localValue ≟ [] then None else (fun ms => ms / 1000) <$> date_ms localValue.

Definition resolveHistoryBounds (period : HistoryPeriod) (customSince customUntil : jstr)
    (serverClockOffsetSec browserNowMs : Z) : HistoryBounds :=
  match period_seconds period with
  | None =>
    let since := toUnixSeconds customSince in
    let until := toUnixSeconds customUntil in
    {| hb_since := since; hb_until := until;
       hb_invalid := match since, until with Some s, Some u => u <? s | _, _ => false end |}
  | Some seconds =>
    let serverNow := browserNowMs / 1000 - serverClockOffsetSec in
    {| hb_since := Some (serverNow - seconds); hb_until := None; hb_invalid := false |}
  end.
End bounds.

(** ** The live store *)

Definition MAX_RAW_PACKETS : nat := 500.

Record Store := {
  st_packets : list RawPacket;
  st_statsSession : RawPacketStatsSessionState;
  st_packetKeys : gset jstr;
  st_observationKeys : gset jstr;
  (** How often [emit()] ran. *)
  st_emits : Z;
}.
#[export] Instance Store_eta : Eta Store :=
  fun s => Build_Store s.(st_packets) s.(st_statsSession) s.(st_packetKeys)
             s.(st_observationKeys) s.(st_emits).

Definition createStatsSession (now : Z) : RawPacketStatsSessionState :=
  {| ss_sessionStartedAt := now; ss_totalObservedPackets := 0; ss_trimmedObservationCount := 0;
     ss_observations := [] |}.

Definition key_set (keys : list jstr) : gset jstr := list_to_set keys.

(** The module's initial variables. *)
Definition initial_store (now : Z) : Store :=
  {| st_packets := []; st_statsSession := createStatsSession now; st_packetKeys := ∅;
     st_observationKeys := ∅; st_emits := 0 |}.

Definition rebuildKeyIndexes (s : Store) : Store :=
  s <| st_packetKeys := key_set (getRawPacketObservationKey <$> s.(st_packets)) |>
    <| st_observationKeys :=
         key_set (so_observationKey <$> s.(st_statsSession).(ss_observations)) |>.

Definition emit (s : Store) : Store := s <| st_emits := s.(st_emits) + 1 |>.

(** The next [packets] and [packetKeys]; [None] when [packets] itself is returned. *)
Definition appendPacket (s : Store) (packet : RawPacket) (maxPackets : nat)
    : option (list RawPacket * gset jstr) :=
  let key := getRawPacketObservationKey packet in
  if bool_decide (key ∈ s.(st_packetKeys)) then None else
  let updated := s.(st_packets) ++ [packet] in
  let packetKeys := {[key]} ∪ s.(st_packetKeys) in
  if len updated <=? Z.of_nat maxPackets then Some (updated, packetKeys) else
  let overflow := Z.to_nat (len updated - Z.of_nat maxPackets) in
  let packetKeys :=
    foldl (fun keys p => keys ∖ {[getRawPacketObservationKey p]}) packetKeys (take overflow updated) in
  Some (drop overflow updated, packetKeys).

Section store.
Context `{MeshDecoder} (lowerName : jstr -> jstr).

(** The next session and [observationKeys]; [None] when [session] itself is returned. *)
Definition observePacket (s : Store) (packet : RawPacket)
    : option (RawPacketStatsSessionState * gset jstr) :=
  let session := s.(st_statsSession) in
  let observation := summarizeRawPacketForStats lowerName packet in
  let key := observation.(so_observationKey) in
  if bool_decide (key ∈ s.(st_observationKeys)) then None else
  let observationKeys := {[key]} ∪ s.(st_observationKeys) in
  let observations := session.(ss_observations) ++ [observation] in
  let session := session <| ss_totalObservedPackets := session.(ss_totalObservedPackets) + 1 |> in
  if len observations <=? MAX_RAW_PACKET_STATS_OBSERVATIONS then
    Some (session <| ss_observations := observations |>, observationKeys)
  else
    let overflow := Z.to_nat (len observations - MAX_RAW_PACKET_STATS_OBSERVATIONS) in
    let observationKeys :=
      foldl (fun keys o => keys ∖ {[o.(so_observationKey)]}) observationKeys
        (take overflow observations) in
    Some (session <| ss_trimmedObservationCount :=
                       session.(ss_trimmedObservationCount) + Z.of_nat overflow |>
                  <| ss_observations := drop overflow observations |>, observationKeys).

(** The receipt time a packet is stamped with when it has none. *)
Definition stamp (now : Z) (packet : RawPacket) : RawPacket :=
  match packet.(rp_received_at_ms) with
  | None => packet <| rp_received_at_ms := Some now |>
  | Some _ => packet
  end.

Definition recordRawPacket (now : Z) (packet : RawPacket) (maxPackets : nat) (s : Store) : Store :=
  let packet := stamp now packet in
  let nextPackets := appendPacket s packet maxPackets in
  let nextStats := observePacket s packet in
  match nextPackets, nextStats with
  | None, None => s
  | _, _ =>
    let '(packets, packetKeys) := default (s.(st_packets), s.(st_packetKeys)) nextPackets in
    let '(statsSession, observationKeys) :=
      default (s.(st_statsSession), s.(st_observationKeys)) nextStats in
    emit (s <| st_packets := packets |> <| st_packetKeys := packetKeys |>
            <| st_statsSession := statsSession |> <| st_observationKeys := observationKeys |>)
  end.

Definition clearRawPackets (s : Store) : Store :=
  if len s.(st_packets) =? 0 then s
  else emit (s <| st_packets := [] |> <| st_packetKeys := ∅ |>).

Definition resetRawPacketStore (now : Z) (s : Store) : Store :=
  emit (rebuildKeyIndexes
    (s <| st_packets := [] |> <| st_statsSession := createStatsSession now |>)).

Definition seedRawPacketStore (packets : option (list RawPacket))
    (statsSession : option RawPacketStatsSessionState) (s : Store) : Store :=
  let s := match packets with Some packets => s <| st_packets := packets |> | None => s end in
  let s := match statsSession with
           | Some session => s <| st_statsSession := session |>
           | None => s
           end in
  emit (rebuildKeyIndexes s).

Definition getServerClockOffsetSec (s : Store) : Z := estimateServerClockOffsetSec s.(st_packets).
Definition getMeasuredServerClockOffsetSec (s : Store) : option Z :=
  measureServerClockOffsetSec s.(st_packets).

(** ** The calls of the application *)

Inductive StoreCall :=
| Record_packet (now : Z) (packet : RawPacket)
| Clear_packets
| Reset_store (now : Z)
| Seed_store (packets : option (list RawPacket)) (session : option RawPacketStatsSessionState).

Definition run_call (maxPackets : nat) (s : Store) (c : StoreCall) : Store :=
  match c with
  | Record_packet now packet => recordRawPacket now packet maxPackets s
  | Clear_packets => clearRawPackets s
  | Reset_store now => resetRawPacketStore now s
  | Seed_store packets session => seedRawPacketStore packets session s
  end.
End store.

(** ** The replay overlay *)

Record ReplayStore := {
  rr_packets : list RawPacket;
  rr_replayActive : bool;
  rr_emits : Z;
}.
#[export] Instance ReplayStore_eta : Eta ReplayStore :=
  fun s => Build_ReplayStore s.(rr_packets) s.(rr_replayActive) s.(rr_emits).

(** [getRawPacketReplayCacheKey] *)
Definition getReplayPacketKey (packet : RawPacket) : jstr := js "hist-" ++ int_str packet.(rp_id).

Definition toReplayPacket (item : RawPacket) : RawPacket :=
  item <| rp_observation_id := None |> <| rp_received_at_ms := None |>
       <| rp_rssi := None |> <| rp_snr := None |>.

Definition emit_replay (s : ReplayStore) : ReplayStore := s <| rr_emits := s.(rr_emits) + 1 |>.

Definition getReplayPacketKeys (s : ReplayStore) : list jstr := getReplayPacketKey <$> s.(rr_packets).

Definition loadReplayPackets (next : list RawPacket) (s : ReplayStore) : ReplayStore :=
  emit_replay (s <| rr_packets := toReplayPacket <$> next |> <| rr_replayActive := true |>).

Definition clearReplayPackets (s : ReplayStore) : ReplayStore :=
  if negb s.(rr_replayActive) && (len s.(rr_packets) =? 0) then s
  else emit_replay (s <| rr_packets := [] |> <| rr_replayActive := false |>).

Definition resetRawPacketReplayStore (s : ReplayStore) : ReplayStore :=
  emit_replay (s <| rr_packets := [] |> <| rr_replayActive := false |>).
