(* ===== verification/RawPacketStoreProps.v ===== *)
(** The packet stores against their specification: buffers that scan for duplicates and keep
    the newest entries, with no key index. *)
From S2P Require Import Prelude JsString JsCollections JsNum Types Visualizer VisualizerProps RawPacketStats RawPacketStore.

(** ** A buffer of keyed entries *)

Section buffer.
Context {A : Type} (key : A -> jstr) (cap : nat).
Implicit Types l : list A.

(** Appends [x] unless its key is there, and keeps the newest [cap] entries. *)
Definition append_scan l (x : A) : option (list A) :=
  if decide (key x ∈ key <$> l) then None else Some (drop (length l + 1 - cap) (l ++ [x])).

Lemma trimmed_keys l n :
  NoDup (key <$> l) ->
  foldl (fun keys x => keys ∖ {[key x]}) (key_set (key <$> l)) (take n l)
  = key_set (key <$> drop n l).
Proof.
  unfold key_set. revert n. induction l as [|x l IH]; intros [|n] Hnd; try done.
  rewrite fmap_cons in Hnd. apply NoDup_cons in Hnd as [Hx Hnd].
  cbn [take drop foldl]. rewrite <- IH by done. f_equal. cbn. set_solver.
Qed.

Lemma append_scan_NoDup l x l' :
  NoDup (key <$> l) -> append_scan l x = Some l' -> NoDup (key <$> l').
Proof.
  intros Hnd. unfold append_scan. case_decide as Hx; [done|]. intros [= <-].
  apply NoDup_fmap_drop. rewrite fmap_app. by apply NoDup_snoc.
Qed.

Lemma append_scan_length l x l' :
  append_scan l x = Some l' -> length l' = Nat.min (length l + 1) cap.
Proof.
  unfold append_scan. case_decide; [done|]. intros [= <-].
  rewrite length_drop, length_app. simpl. lia.
Qed.

Lemma append_scan_last l x l' :
  (0 < cap)%nat -> append_scan l x = Some l' -> last l' = Some x.
Proof.
  intros Hc. unfold append_scan. case_decide; [done|]. intros [= <-].
  assert (length l + 1 - cap <= length l)%nat as Hle by lia.
  by rewrite drop_app_le, last_snoc by exact Hle.
Qed.

Lemma append_scan_changes l x l' : (0 < cap)%nat -> append_scan l x = Some l' -> l' <> l.
Proof.
  intros Hc Hs ->. assert (Hl := append_scan_last _ _ _ Hc Hs).
  unfold append_scan in Hs. case_decide as Hx; [done|]. apply Hx, list_elem_of_fmap.
  exists x. split; [done|]. by apply last_Some_elem_of.
Qed.

Lemma existsb_key l k : existsb (fun x => key x ≟ k) l = bool_decide (k ∈ key <$> l).
Proof.
  induction l as [|x l IH]; simpl; [done|]. rewrite IH. apply Bool.eq_iff_eq_true.
  rewrite orb_true_iff, !bool_decide_eq_true, elem_of_cons.
  split; intros []; auto.
Qed.

(** The key index after the deletions of the overflow, as the store computes it. *)
Lemma indexed_append l x :
  NoDup (key <$> l) -> key x ∉ key <$> l ->
  foldl (fun keys y => keys ∖ {[key y]}) ({[key x]} ∪ key_set (key <$> l))
    (take (length l + 1 - cap) (l ++ [x]))
  = key_set (key <$> drop (length l + 1 - cap) (l ++ [x])).
Proof.
  intros Hnd Hx. rewrite <- trimmed_keys.
  - f_equal. unfold key_set. rewrite fmap_app. cbn. set_solver.
  - rewrite fmap_app. by apply NoDup_snoc.
Qed.
End buffer.

(** ** The specification: no index, a scan per packet *)

Record Spec := { sp_packets : list RawPacket; sp_session : RawPacketStatsSessionState }.

Section spec.
Context `{MeshDecoder} (lowerName : jstr -> jstr) (maxPackets : nat).

Definition stats_cap : nat := Z.to_nat MAX_RAW_PACKET_STATS_OBSERVATIONS.

Definition observe_spec (session : RawPacketStatsSessionState) (o : RawPacketStatsObservation)
    : RawPacketStatsSessionState :=
  match append_scan so_observationKey stats_cap session.(ss_observations) o with
  | None => session
  | Some observations =>
    {| ss_sessionStartedAt := session.(ss_sessionStartedAt);
       ss_totalObservedPackets := session.(ss_totalObservedPackets) + 1;
       ss_trimmedObservationCount :=
         session.(ss_trimmedObservationCount) + (len session.(ss_observations) + 1 - len observations);
       ss_observations := observations |}
  end.

Definition spec_call (s : Spec) (c : StoreCall) : Spec :=
  match c with
  | Record_packet now packet =>
    let packet := stamp now packet in
    {| sp_packets := default s.(sp_packets)
         (append_scan getRawPacketObservationKey maxPackets s.(sp_packets) packet);
       sp_session := observe_spec s.(sp_session) (summarizeRawPacketForStats lowerName packet) |}
  | Clear_packets => {| sp_packets := []; sp_session := s.(sp_session) |}
  | Reset_store now => {| sp_packets := []; sp_session := createStatsSession now |}
  | Seed_store packets session =>
    {| sp_packets := default s.(sp_packets) packets;
       sp_session := default s.(sp_session) session |}
  end.

Definition abs (s : Store) : Spec :=
  {| sp_packets := s.(st_packets); sp_session := s.(st_statsSession) |}.

(** ** The invariant *)

Record store_ok (s : Store) : Prop := {
  ok_packet_keys : s.(st_packetKeys) = key_set (getRawPacketObservationKey <$> s.(st_packets));
  ok_packets_nodup : NoDup (getRawPacketObservationKey <$> s.(st_packets));
  ok_observation_keys :
    s.(st_observationKeys) = key_set (so_observationKey <$> s.(st_statsSession).(ss_observations));
  ok_observations_nodup : NoDup (so_observationKey <$> s.(st_statsSession).(ss_observations));
}.

(** A fixture without duplicate keys. *)
Definition seed_ok (c : StoreCall) : Prop :=
  match c with
  | Seed_store packets session =>
    (forall l, packets = Some l -> NoDup (getRawPacketObservationKey <$> l))
    /\ (forall x, session = Some x -> NoDup (so_observationKey <$> x.(ss_observations)))
  | _ => True
  end.

Lemma appendPacket_spec s packet :
  store_ok s ->
  appendPacket s packet maxPackets =
  (fun l => (l, key_set (getRawPacketObservationKey <$> l)))
    <$> append_scan getRawPacketObservationKey maxPackets s.(st_packets) packet.
Proof.
  intros [Hk Hnd _ _]. unfold appendPacket, append_scan. rewrite Hk.
  destruct (decide (getRawPacketObservationKey packet ∈ getRawPacketObservationKey <$> st_packets s))
    as [Hin|Hni].
  { rewrite bool_decide_eq_true_2; [done|]. unfold key_set. set_solver. }
  rewrite bool_decide_eq_false_2 by (unfold key_set; set_solver).
  cbn [fmap option_fmap option_map]. rewrite <- indexed_append by done.
  rewrite len_app, len_cons, len_nil. unfold len.
  replace (Z.to_nat (Z.of_nat (length (st_packets s)) + (0 + 1) - Z.of_nat maxPackets))
    with (length (st_packets s) + 1 - maxPackets)%nat by lia.
  destruct (Z.leb_spec (Z.of_nat (length (st_packets s)) + (0 + 1)) (Z.of_nat maxPackets)); [|done].
  by replace (length (st_packets s) + 1 - maxPackets)%nat with 0%nat by lia.
Qed.

Lemma observePacket_spec s packet :
  store_ok s ->
  let o := summarizeRawPacketForStats lowerName packet in
  let session := observe_spec s.(st_statsSession) o in
  observePacket lowerName s packet =
  (fun l => (session, key_set (so_observationKey <$> l)))
    <$> append_scan so_observationKey stats_cap s.(st_statsSession).(ss_observations) o.
Proof.
  intros [_ _ Hk Hnd] o session. unfold session, observe_spec, observePacket. fold o.
  set (obs := ss_observations (st_statsSession s)) in *.
  destruct (append_scan so_observationKey stats_cap obs o) as [l|] eqn:Ea; cbn [fmap option_fmap option_map].
  - assert (Hlen := append_scan_length _ _ _ _ _ Ea).
    unfold append_scan in Ea. case_decide as Hni; [done|]. injection Ea as <-.
    rewrite Hk, bool_decide_eq_false_2 by (unfold key_set; set_solver).
    rewrite <- indexed_append by done.
    rewrite len_app, len_cons, len_nil. unfold len in *. rewrite Hlen.
    unfold stats_cap in *. set (cap := MAX_RAW_PACKET_STATS_OBSERVATIONS) in *.
    assert (0 < cap) by (unfold cap; reflexivity). clearbody cap.
    replace (Z.to_nat (Z.of_nat (length obs) + (0 + 1) - cap))
      with (length obs + 1 - Z.to_nat cap)%nat by lia.
    destruct (Z.leb_spec (Z.of_nat (length obs) + (0 + 1)) cap).
    + replace (length obs + 1 - Z.to_nat cap)%nat with 0%nat by lia.
      replace (_ + (_ - _)) with (ss_trimmedObservationCount (st_statsSession s)) by lia. done.
    + replace (Z.of_nat (length obs) + 1 - Z.of_nat ((length obs + 1) `min` Z.to_nat cap))
        with (Z.of_nat (length obs + 1 - Z.to_nat cap)) by lia. done.
  - unfold append_scan in Ea. case_decide as Hin; [|done].
    rewrite Hk, bool_decide_eq_true_2; [done|]. unfold key_set. set_solver.
Qed.

Lemma observe_spec_NoDup session o :
  NoDup (so_observationKey <$> session.(ss_observations)) ->
  NoDup (so_observationKey <$> (observe_spec session o).(ss_observations)).
Proof.
  intros Hnd. unfold observe_spec. destruct (append_scan _ _ _ o) as [l|] eqn:E; [|done].
  exact (append_scan_NoDup _ _ _ _ _ Hnd E).
Qed.

Lemma rebuild_ok s :
  NoDup (getRawPacketObservationKey <$> s.(st_packets)) ->
  NoDup (so_observationKey <$> s.(st_statsSession).(ss_observations)) ->
  store_ok (emit (rebuildKeyIndexes s)).
Proof. by constructor. Qed.

(** A record call, as the specification's buffers and the emission it makes. *)
Lemma recordRawPacket_spec now packet s :
  store_ok s ->
  let p := stamp now packet in
  let o := summarizeRawPacketForStats lowerName p in
  let s' := recordRawPacket lowerName now packet maxPackets s in
  store_ok s' /\ abs s' = spec_call (abs s) (Record_packet now packet)
  /\ match append_scan getRawPacketObservationKey maxPackets s.(st_packets) p,
           append_scan so_observationKey stats_cap s.(st_statsSession).(ss_observations) o with
     | None, None => s' = s
     | _, _ => s'.(st_emits) = s.(st_emits) + 1
     end.
Proof.
  intros Hok p o. destruct s as [packets session keys okeys emits].
  pose proof Hok as [Hk Hnd Hk' Hnd']. cbn in Hk, Hnd, Hk', Hnd'. cbv zeta.
  unfold recordRawPacket. fold p.
  rewrite appendPacket_spec, observePacket_spec by done. fold o.
  assert (Hs := observe_spec_NoDup session o Hnd').
  unfold spec_call, abs. cbn [st_packets st_statsSession sp_packets sp_session]. fold p o.
  destruct (append_scan getRawPacketObservationKey _ packets p) as [l|] eqn:El;
    [apply append_scan_NoDup in El; [|done]|];
    unfold observe_spec in *;
    destruct (append_scan so_observationKey _ _ o) as [l'|] eqn:El'.
  all: cbn [fmap option_fmap option_map default from_option id]; split_and!; try done.
  all: by constructor.
Qed.

Lemma run_call_sim s c :
  store_ok s -> seed_ok c ->
  store_ok (run_call lowerName maxPackets s c)
  /\ abs (run_call lowerName maxPackets s c) = spec_call (abs s) c.
Proof.
  intros Hok Hc. destruct c as [now packet| |now|packets session]; cbn [run_call spec_call].
  - destruct (recordRawPacket_spec now packet s Hok) as (? & ? & _). done.
  - destruct s as [l session keys okeys emits]. pose proof Hok as [_ _ Hk' Hnd'].
    unfold clearRawPackets. cbn [st_packets]. destruct (Z.eqb_spec (len l) 0) as [E|].
    + by apply len_zero in E as ->.
    + split; [|done]. constructor; [done|apply NoDup_nil_2|done|done].
  - split; [|done]. apply rebuild_ok; apply NoDup_nil_2.
  - destruct Hc as [Hp Hs], Hok as [_ Hnd _ Hnd']. split.
    + apply rebuild_ok; destruct packets, session; cbn; eauto.
    + by destruct packets, session, s.
Qed.

Lemma run_calls_sim calls s :
  store_ok s -> Forall seed_ok calls ->
  store_ok (foldl (run_call lowerName maxPackets) s calls)
  /\ abs (foldl (run_call lowerName maxPackets) s calls) = foldl spec_call (abs s) calls.
Proof.
  intros Hok Hc. revert s Hok. induction Hc as [|c calls Hc _ IH]; intros s Hok; [done|].
  cbn [foldl]. destruct (run_call_sim s c Hok Hc) as [Hok' <-]. by apply IH.
Qed.

Lemma initial_store_ok now : store_ok (initial_store now).
Proof. constructor; [done|apply NoDup_nil_2|done|apply NoDup_nil_2]. Qed.

(** *** Bounds and accounting *)

(** What stays true of the specification's buffers while nothing is seeded. *)
Record spec_ok (s : Spec) : Prop := {
  ok_packets_len : (length s.(sp_packets) <= maxPackets)%nat;
  ok_observations_len : len s.(sp_session).(ss_observations) <= MAX_RAW_PACKET_STATS_OBSERVATIONS;
  ok_total : s.(sp_session).(ss_totalObservedPackets)
             = s.(sp_session).(ss_trimmedObservationCount) + len s.(sp_session).(ss_observations);
  ok_trimmed : 0 <= s.(sp_session).(ss_trimmedObservationCount);
  ok_full : 0 < s.(sp_session).(ss_trimmedObservationCount) ->
            len s.(sp_session).(ss_observations) = MAX_RAW_PACKET_STATS_OBSERVATIONS;
}.

Definition is_seed (c : StoreCall) : bool :=
  match c with Seed_store _ _ => true | _ => false end.

Lemma stats_cap_Z : Z.of_nat stats_cap = MAX_RAW_PACKET_STATS_OBSERVATIONS.
Proof. reflexivity. Qed.

Lemma spec_call_ok s c : is_seed c = false -> spec_ok s -> spec_ok (spec_call s c).
Proof.
  intros Hc [Hp Ho Ht Htr Hf]. destruct c as [now packet| |now|]; cbn [spec_call]; try done.
  - assert (Hp' : (length (default (sp_packets s)
        (append_scan getRawPacketObservationKey maxPackets (sp_packets s) (stamp now packet)))
        <= maxPackets)%nat).
    { destruct (append_scan _ _ (sp_packets s) _) eqn:E; [|done].
      apply append_scan_length in E. simpl. lia. }
    pose proof stats_cap_Z. unfold observe_spec.
    destruct (append_scan _ stats_cap _ _) as [l|] eqn:E; [|by constructor].
    apply append_scan_length in E. unfold len in *.
    constructor; cbn [sp_packets sp_session ss_observations ss_totalObservedPackets
      ss_trimmedObservationCount]; try exact Hp'; unfold len; lia.
  - constructor; cbn [sp_packets sp_session]; try done. apply Nat.le_0_l.
  - constructor; cbn; unfold len; simpl; try lia. unfold MAX_RAW_PACKET_STATS_OBSERVATIONS. lia.
Qed.

Lemma initial_spec_ok now : spec_ok (abs (initial_store now)).
Proof.
  constructor; cbn; unfold len; simpl; try lia. unfold MAX_RAW_PACKET_STATS_OBSERVATIONS. lia.
Qed.
End spec.

(** ** The clock estimate *)

(** The clock difference a live packet shows. *)
Definition clock_difference (p : RawPacket) : option Z :=
  (fun ms => ms / 1000 - p.(rp_timestamp)) <$> p.(rp_received_at_ms).

Lemma clock_samples_spec n l : clock_samples n l = take n (omap clock_difference l).
Proof.
  revert n. induction l as [|p l IH]; intros [|n]; try done; cbn [clock_samples omap list_omap].
  all: change (omap clock_difference (p :: l)) with
    (match clock_difference p with Some x => x :: omap clock_difference l
                              | None => omap clock_difference l end);
    unfold clock_difference at 1; destruct (rp_received_at_ms p); cbn [fmap option_fmap option_map].
  all: cbn [take]; rewrite ?IH; done.
Qed.

(** How many elements are outside a range. *)
Definition outside (lo hi : Z) (l : list Z) : nat := length (filter (fun x => ~ (lo <= x <= hi)) l).

Lemma outside_all lo hi l :
  Forall (fun x => ~ (lo <= x <= hi)) l -> outside lo hi l = length l.
Proof.
  intros Hall. unfold outside. induction Hall as [|x l Hx _ IH]; [done|].
  rewrite filter_cons, decide_True by done. simpl. by rewrite IH.
Qed.

Lemma outside_app lo hi l k : outside lo hi (l ++ k) = (outside lo hi l + outside lo hi k)%nat.
Proof. unfold outside. by rewrite filter_app, length_app. Qed.

(** In a sorted list, an element outside the range has everything on one side outside. *)
Lemma sorted_side_outside lo hi (l k : list Z) x :
  StronglySorted Z.le (l ++ x :: k) -> ~ (lo <= x <= hi) ->
  (length l + 1 <= outside lo hi (l ++ x :: k))%nat
  \/ (length k + 1 <= outside lo hi (l ++ x :: k))%nat.
Proof.
  intros Hs Hx. rewrite outside_app. apply StronglySorted_app in Hs as (Hcross & _ & Hxk).
  assert (outside lo hi (x :: k) = S (outside lo hi k)) as Hc
    by (unfold outside; by rewrite filter_cons, decide_True).
  destruct (Z.lt_ge_cases x lo) as [Hlt|Hge].
  - left. rewrite (outside_all lo hi l); [lia|]. rewrite Forall_forall. intros y Hy.
    assert (y <= x) by (apply Hcross; [done|constructor]). lia.
  - right. rewrite Hc, (outside_all lo hi k); [lia|]. apply StronglySorted_cons in Hxk as [Hall _].
    rewrite Forall_forall in *. intros y Hy. specialize (Hall y Hy). lia.
Qed.

Lemma sorted_ints l : StronglySorted Z.le (js_sort (by_key id) l).
Proof.
  assert (Hs := js_sort_Sorted (by_key (@id Z)) l).
  induction Hs as [|x k _ IH Hall]; constructor; [done|].
  eapply Forall_impl; [exact Hall|]. intros y. unfold cmp_le, by_key, id. by rewrite <- Z.compare_le_iff.
Qed.

Lemma outside_perm lo hi l k : l ≡ₚ k -> outside lo hi l = outside lo hi k.
Proof. intros E. unfold outside. by rewrite E. Qed.

Lemma median_in_majority lo hi l x :
  js_sort (by_key id) l !! Nat.div (length l) 2 = Some x ->
  (2 * outside lo hi l < length l)%nat -> lo <= x <= hi.
Proof.
  intros Hx Hout. destruct (decide (lo <= x <= hi)) as [|Hno]; [done|exfalso].
  set (s := js_sort (by_key id) l) in *.
  assert (Hlen : length s = length l) by apply length_js_sort.
  assert (Hs : StronglySorted Z.le s) by apply sorted_ints.
  rewrite <- (outside_perm lo hi s l) in Hout by apply js_sort_perm.
  rewrite <- (take_drop_middle s _ x Hx) in Hs, Hout.
  pose proof (lookup_lt_Some _ _ _ Hx).
  pose proof (Nat.div_mod_eq (length l) 2). pose proof (Nat.mod_upper_bound (length l) 2).
  destruct (sorted_side_outside lo hi _ _ _ Hs Hno) as [Hl|Hr];
    rewrite ?length_take, ?length_drop in *; lia.
Qed.

Lemma measure_median packets :
  let samples := clock_samples OFFSET_SAMPLE_SIZE (reverse packets) in
  samples <> [] ->
  exists x, measureServerClockOffsetSec packets = Some x
       /\ js_sort (by_key id) samples !! Nat.div (length samples) 2 = Some x.
Proof.
  intros samples Hne. unfold measureServerClockOffsetSec. fold samples.
  destruct (Z.eqb_spec (len samples) 0) as [E%len_zero|]; [done|].
  destruct (lookup_lt_is_Some_2 (js_sort (by_key id) samples) (Nat.div (length samples) 2)) as [x Hx].
  - rewrite length_js_sort. destruct samples; [done|]. apply Nat.div_lt; simpl; lia.
  - exists x. by rewrite Hx.
Qed.

(** ** Properties *)

(** A packet with the database id [id]. *)
Definition packet_numbered (id : Z) : RawPacket := (example_packet 5000) <| rp_id := id |>.

Definition example_calls : list StoreCall :=
  [Record_packet 7000 (packet_numbered 1); Record_packet 8000 (packet_numbered 2);
   Record_packet 9000 (packet_numbered 1); Seed_store (Some [packet_numbered 4]) None;
   Record_packet 9000 (packet_numbered 3); Clear_packets; Record_packet 9500 (packet_numbered 3)].

Lemma example_seeds_ok : Forall seed_ok example_calls.
Proof.
  assert (Hnd : NoDup (getRawPacketObservationKey <$> [packet_numbered 4]))
    by (apply NoDup_cons_2; [apply not_elem_of_nil|apply NoDup_nil_2]).
  repeat constructor; try done. by intros l [= <-].
Qed.

(** C31: the store's key indexes are an optimisation: over any calls (fixtures seeded without
    duplicates), the packet buffer and the session are those of buffers that scan for the key,
    append, and keep the newest entries; and each index is the set of the keys it mirrors. *)
Theorem store_refines_scan (dec : MeshDecoder) (lowerName : jstr -> jstr) (maxPackets : nat)
    (now : Z) (calls : list StoreCall) (Hseeds : Forall seed_ok calls) :
  let s := foldl (run_call lowerName maxPackets) (initial_store now) calls in
  abs s = foldl (spec_call lowerName maxPackets) (abs (initial_store now)) calls
  /\ s.(st_packetKeys) = key_set (getRawPacketObservationKey <$> s.(st_packets))
  /\ s.(st_observationKeys)
     = key_set (so_observationKey <$> s.(st_statsSession).(ss_observations)).
Proof.
  intros s. destruct (run_calls_sim lowerName maxPackets calls (initial_store now)
    (initial_store_ok now) Hseeds) as [Hok Habs].
  split; [exact Habs|]. split; [apply Hok | apply Hok].
Qed.

Lemma store_refines_scan_witness :
  let s := foldl (run_call (H := example_decoder) id 2) (initial_store 0) example_calls in
  abs s = foldl (spec_call (H := example_decoder) id 2) (abs (initial_store 0)) example_calls
  /\ s.(st_statsSession).(ss_totalObservedPackets) = 3
  /\ rp_id <$> s.(st_packets) = [3].
Proof.
  split; [|vm_compute; split; reflexivity].
  exact (proj1 (store_refines_scan example_decoder id 2 0 example_calls example_seeds_ok)).
Defined.

(** While nothing is seeded, the buffer keeps at most [maxPackets] packets and the session
    at most 20000 observations; every packet counted is retained or counted as trimmed; and
    once something was trimmed the retained observations are exactly 20000. *)
Theorem store_bounded (dec : MeshDecoder) (lowerName : jstr -> jstr) (maxPackets : nat)
    (now : Z) (calls : list StoreCall) (Hno : Forall (fun c => is_seed c = false) calls) :
  let s := foldl (run_call lowerName maxPackets) (initial_store now) calls in
  let session := s.(st_statsSession) in
  len s.(st_packets) <= Z.of_nat maxPackets
  /\ len session.(ss_observations) <= MAX_RAW_PACKET_STATS_OBSERVATIONS
  /\ session.(ss_totalObservedPackets)
     = session.(ss_trimmedObservationCount) + len session.(ss_observations)
  /\ (0 < session.(ss_trimmedObservationCount) ->
      len session.(ss_observations) = MAX_RAW_PACKET_STATS_OBSERVATIONS).
Proof.
  intros s session.
  assert (Hseeds : Forall seed_ok calls)
    by (eapply Forall_impl; [exact Hno|]; intros [] Hc; done).
  destruct (run_calls_sim lowerName maxPackets calls (initial_store now)
    (initial_store_ok now) Hseeds) as [_ Habs].
  assert (Hok : spec_ok maxPackets (abs s)).
  { unfold s. rewrite Habs. generalize (abs (initial_store now)) (initial_spec_ok maxPackets now).
    clear - Hno. induction Hno as [|c calls Hc _ IH]; intros a Ha; [done|].
    cbn [foldl]. apply IH. by apply spec_call_ok. }
  destruct Hok as [Hp Ho Ht Htr Hf]. cbn [abs sp_packets sp_session] in *.
  split_and!; try done. unfold len. lia.
Qed.

Lemma store_bounded_witness :
  let s := foldl (run_call (H := example_decoder) id 2) (initial_store 0)
    [Record_packet 7000 (packet_numbered 1); Record_packet 8000 (packet_numbered 2);
     Record_packet 9000 (packet_numbered 3)] in
  len s.(st_packets) <= 2 /\ rp_id <$> s.(st_packets) = [2; 3].
Proof.
  split; [|vm_compute; reflexivity].
  refine (proj1 (store_bounded example_decoder id 2 0 _ _)). repeat constructor.
Defined.

(** Recording a packet notifies the views exactly when they have something to read: either
    the store is left as it was, or one notification goes out and the packet buffer or the
    session differs from before. *)
Theorem record_notifies_changes (dec : MeshDecoder) (lowerName : jstr -> jstr)
    (maxPackets : nat) (now : Z) (packet : RawPacket) (s : Store)
    (Hok : store_ok s) (Hmax : (0 < maxPackets)%nat) :
  let s' := recordRawPacket lowerName now packet maxPackets s in
  s' = s \/ (s'.(st_emits) = s.(st_emits) + 1
             /\ (s'.(st_packets) <> s.(st_packets) \/ s'.(st_statsSession) <> s.(st_statsSession))).
Proof.
  intros s'. destruct (recordRawPacket_spec lowerName maxPackets now packet s Hok)
    as (_ & Habs & Hem). fold s' in Habs, Hem.
  injection Habs as Hp Hs. cbn [abs sp_packets sp_session] in Hp, Hs.
  destruct (append_scan getRawPacketObservationKey _ _ _) as [l|] eqn:El.
  - right. split; [exact Hem|]. left. rewrite Hp.
    by eapply append_scan_changes.
  - destruct (append_scan so_observationKey _ _ _) as [l'|] eqn:El'; [|by left].
    right. split; [done|]. right. rewrite Hs. unfold observe_spec. rewrite El'.
    intros E. apply (f_equal ss_totalObservedPackets) in E. cbn in E. lia.
Qed.

Lemma record_notifies_changes_witness :
  let s := initial_store 0 in
  let s' := recordRawPacket (H := example_decoder) id 7000 (packet_numbered 1) 500 s in
  s' = s \/ (s'.(st_emits) = s.(st_emits) + 1
             /\ (s'.(st_packets) <> s.(st_packets) \/ s'.(st_statsSession) <> s.(st_statsSession))).
Proof.
  apply (record_notifies_changes example_decoder id 500 7000 (packet_numbered 1) (initial_store 0)).
  - apply initial_store_ok.
  - lia.
Defined.

(** The indexed append of the store agrees with the plain [appendRawPacketUnique] for every
    positive bound. With the bound 0 the plain one keeps everything: [slice(-0)] is the whole
    array. *)
Theorem append_unique_agrees (s : Store) (packet : RawPacket) (maxPackets : nat)
    (Hok : store_ok s) :
  ((0 < maxPackets)%nat ->
   default s.(st_packets) (fst <$> appendPacket s packet maxPackets)
   = appendRawPacketUnique s.(st_packets) packet maxPackets)
  /\ (getRawPacketObservationKey packet ∉ getRawPacketObservationKey <$> s.(st_packets) ->
      appendRawPacketUnique s.(st_packets) packet 0 = s.(st_packets) ++ [packet]
      /\ fst <$> appendPacket s packet 0 = Some []).
Proof.
  rewrite !appendPacket_spec by done. unfold append_scan.
  assert (Hscan := existsb_key getRawPacketObservationKey (st_packets s)
    (getRawPacketObservationKey packet)).
  split.
  - intros Hm. unfold appendRawPacketUnique. rewrite Hscan.
    destruct (decide (getRawPacketObservationKey packet ∈ getRawPacketObservationKey <$> st_packets s))
      as [Hin|Hni]; [by rewrite bool_decide_eq_true_2|].
    rewrite bool_decide_eq_false_2 by done. cbn [fmap option_fmap option_map default fst from_option id].
    rewrite len_app, len_cons, len_nil. unfold len.
    destruct (Z.ltb_spec (Z.of_nat maxPackets) (Z.of_nat (length (st_packets s)) + (0 + 1))).
    + rewrite slice_from_neg, length_app, Nat2Z.id by lia. done.
    + by replace (length (st_packets s) + 1 - maxPackets)%nat with 0%nat by lia.
  - intros Hni. rewrite decide_False by done. unfold appendRawPacketUnique.
    rewrite Hscan, bool_decide_eq_false_2 by done.
    rewrite Nat.sub_0_r, drop_ge by (rewrite length_app; simpl; lia). split; [|done].
    destruct (Z.of_nat 0 <? len (st_packets s ++ [packet])); [|done]. by apply slice_full.
Qed.

Lemma append_unique_agrees_witness :
  default [] (fst <$> appendPacket (initial_store 0) (packet_numbered 1) 500)
  = appendRawPacketUnique [] (packet_numbered 1) 500
  /\ appendRawPacketUnique [] (packet_numbered 1) 0 = [packet_numbered 1].
Proof.
  split.
  - refine (proj1 (append_unique_agrees (initial_store 0) (packet_numbered 1) 500
      (initial_store_ok 0)) _). lia.
  - refine (proj1 (proj2 (append_unique_agrees (initial_store 0) (packet_numbered 1) 500
      (initial_store_ok 0)) _)). apply not_elem_of_nil.
Defined.

(** A preset history range is robust to outliers: when more than half of the newest fifteen
    live packets show the browser clock ahead of the server's by [lo] to [hi] seconds, the
    range starts at the server's now minus the period, within those bounds; it has no upper
    bound and is valid. *)
Theorem preset_bounds_follow_majority (date_ms : jstr -> option Z) (period : HistoryPeriod)
    (seconds : Z) (customSince customUntil : jstr) (browserNowMs : Z) (s : Store) (lo hi : Z)
    (Hperiod : period_seconds period = Some seconds)
    (Hmajority :
      let samples := take OFFSET_SAMPLE_SIZE (omap clock_difference (reverse s.(st_packets))) in
      (2 * outside lo hi samples < length samples)%nat) :
  exists since,
    resolveHistoryBounds date_ms period customSince customUntil (getServerClockOffsetSec s)
      browserNowMs = {| hb_since := Some since; hb_until := None; hb_invalid := false |}
    /\ browserNowMs / 1000 - hi - seconds <= since <= browserNowMs / 1000 - lo - seconds.
Proof.
  cbv zeta in Hmajority. rewrite <- clock_samples_spec in Hmajority.
  destruct (measure_median s.(st_packets)) as (x & Hx & Hmed).
  { intros E. rewrite E in Hmajority. simpl in Hmajority. lia. }
  apply median_in_majority with (lo := lo) (hi := hi) in Hmed; [|done].
  unfold resolveHistoryBounds. rewrite Hperiod. eexists. split; [reflexivity|].
  unfold getServerClockOffsetSec, estimateServerClockOffsetSec. rewrite Hx.
  cbn [default from_option id]. lia.
Qed.

(** A live packet received at [ms] and stamped by the server with [ts]. *)
Definition packet_stamped (ms ts : Z) : RawPacket := (example_packet ms) <| rp_timestamp := ts |>.

Lemma preset_bounds_follow_majority_witness :
  let s := (initial_store 0) <| st_packets :=
    [packet_stamped 1000000 900; packet_stamped 1001000 5; packet_stamped 1002000 902] |> in
  exists since,
    resolveHistoryBounds (fun _ => None) P1h [] [] (getServerClockOffsetSec s) 2000000
    = {| hb_since := Some since; hb_until := None; hb_invalid := false |}
    /\ 2000 - 100 - 3600 <= since <= 2000 - 100 - 3600.
Proof.
  apply (preset_bounds_follow_majority (fun _ => None) P1h 3600 [] [] 2000000
    ((initial_store 0) <| st_packets :=
      [packet_stamped 1000000 900; packet_stamped 1001000 5; packet_stamped 1002000 902] |>) 100 100).
  - reflexivity.
  - apply Nat.ltb_lt. vm_compute. reflexivity.
Defined.

(** *** Replay *)

Lemma replay_key_not_live p q : getReplayPacketKey p <> getRawPacketObservationKey q.
Proof.
  unfold getReplayPacketKey, getRawPacketObservationKey.
  by destruct (rp_observation_id q).
Qed.

(** Loading a history page installs a replay whose keys are never keys of live packets,
    distinct when the database ids are, and whose packets claim no signal measurement and no
    receipt time; clearing it afterwards leaves the overlay empty and inactive. *)
Theorem replay_is_isolated (next : list RawPacket) (s : ReplayStore)
    (Hids : NoDup (rp_id <$> next)) (Hpos : Forall (fun id => 0 <= id) (rp_id <$> next)) :
  let s' := loadReplayPackets next s in
  NoDup (getReplayPacketKeys s')
  /\ (forall k q, k ∈ getReplayPacketKeys s' -> k <> getRawPacketObservationKey q)
  /\ rp_id <$> s'.(rr_packets) = rp_id <$> next
  /\ (forall p, p ∈ s'.(rr_packets) ->
        p.(rp_rssi) = None /\ p.(rp_snr) = None /\ p.(rp_received_at_ms) = None
        /\ p.(rp_observation_id) = None /\ clock_difference p = None)
  /\ s'.(rr_replayActive) = true
  /\ clearReplayPackets s'
     = {| rr_packets := []; rr_replayActive := false; rr_emits := s.(rr_emits) + 2 |}.
Proof.
  intros s'. assert (Hpk : rr_packets s' = toReplayPacket <$> next) by done.
  assert (Hid : rp_id <$> rr_packets s' = rp_id <$> next).
  { rewrite Hpk, <- list_fmap_compose. by apply list_fmap_ext. }
  split_and!; [| |exact Hid| |done|].
  - unfold getReplayPacketKeys. rewrite <- Hid in Hids, Hpos.
    replace (getReplayPacketKey <$> rr_packets s')
      with ((fun id => js "hist-" ++ int_str id) <$> (rp_id <$> rr_packets s'))
      by (rewrite <- list_fmap_compose; by apply list_fmap_ext).
    apply NoDup_fmap_2_strong; [|done]. rewrite Forall_forall in Hpos.
    intros a b Ha Hb E%(inj (app (js "hist-"))). apply int_str_inj; auto.
  - intros k q (p & -> & _)%list_elem_of_fmap. apply replay_key_not_live.
  - rewrite Hpk. by intros p (q & -> & _)%list_elem_of_fmap.
  - unfold s'. destruct s as [packets active emits].
    change (clearReplayPackets _) with
      {| rr_packets := []; rr_replayActive := false; rr_emits := emits + 1 + 1 |}.
    by rewrite <- Z.add_assoc.
Qed.

Lemma replay_is_isolated_witness :
  let s' := loadReplayPackets [packet_numbered 1; packet_numbered 2]
    {| rr_packets := []; rr_replayActive := false; rr_emits := 0 |} in
  NoDup (getReplayPacketKeys s')
  /\ clearReplayPackets s' = {| rr_packets := []; rr_replayActive := false; rr_emits := 2 |}.
Proof.
  assert (Hids : NoDup (rp_id <$> [packet_numbered 1; packet_numbered 2]))
    by (refine (decide_by_vm _ _); vm_compute; reflexivity).
  split.
  - refine (proj1 (replay_is_isolated _ _ Hids _)).
    by repeat constructor.
  - reflexivity.
Defined.
