(* ===== verification/UnreadState.v ===== *)
(** The unread state of the conversations: [hooks/useUnreadCounts.ts], the module state of
    [utils/conversationState.ts] it writes, and [utils/unreadConversations.ts].

    The hook is a record of its React state and refs; a render that changes its inputs, a
    reply of the server and a call of the application are its events. The requests it sends
    are logged. [Date.now()] is the argument [now]. JavaScript objects used as maps are
    [gmap]s: their keys are the prefixed state keys, and no code depends on their order. *)
From S2P Require Import Prelude JsString JsNum Types.

Definition PREVIEW_MAX_LEN : Z := 120.

(** ** Conversation times ([conversationState.ts]) *)

Inductive StateKind := KChannel | KContact.

Definition getStateKey (type : StateKind) (id : jstr) : jstr :=
  match type with KChannel => js "channel-" | KContact => js "contact-" end ++ id.

Arguments getStateKey : simpl never.

(** The argument and result are [lastMessageTimesCache]; each function returns a copy of it. *)
Definition setLastMessageTime (key : jstr) (timestamp : Z) (cache : gmap jstr Z) : gmap jstr Z :=
  <[key := timestamp]> cache.

Definition renameConversationTimeKey (oldKey newKey : jstr) (cache : gmap jstr Z) : gmap jstr Z :=
  if oldKey ≟ newKey then cache else
  match cache !! oldKey with
  | None => cache
  | Some oldTimestamp =>
    delete oldKey (<[newKey := match cache !! newKey with
                               | None => oldTimestamp
                               | Some newTimestamp => Z.max newTimestamp oldTimestamp
                               end]> cache)
  end.

(** ** The hook *)

Inductive ApiCall :=
| GetUnreads
| MarkChannelRead (id : jstr)
| MarkContactRead (id : jstr)
| MarkAllRead.

Record Unread := {
  ur_unreadCounts : gmap jstr Z;
  ur_mentions : gmap jstr bool;
  ur_lastMessageTimes : gmap jstr Z;
  ur_lastMessagePreviews : gmap jstr jstr;
  ur_lastMessageOutgoing : gmap jstr bool;
  ur_unreadLastReadAts : gmap jstr (option Z);
  ur_firstUnreadIds : gmap jstr (option Z);
  (** [activeConversation], [prevActiveConversation] and [activeConvRef] after a commit. *)
  ur_active : option Conversation;
  (** [hasObservedCountsRef] with the lengths the effect last ran for. *)
  ur_lengths : option (Z * Z);
  (** [lastMessageTimesCache] *)
  ur_timesCache : gmap jstr Z;
  ur_calls : list ApiCall;
}.
#[export] Instance Unread_eta : Eta Unread :=
  fun r => Build_Unread r.(ur_unreadCounts) r.(ur_mentions) r.(ur_lastMessageTimes)
    r.(ur_lastMessagePreviews) r.(ur_lastMessageOutgoing) r.(ur_unreadLastReadAts)
    r.(ur_firstUnreadIds) r.(ur_active) r.(ur_lengths) r.(ur_timesCache) r.(ur_calls).

(** [isUnreadTrackedConversation], with the state key of the conversation. *)
Definition tracked_key (conversation : option Conversation) : option jstr :=
  match conversation with
  | Some c =>
    match c.(cv_type) with
    | CtChannel => Some (getStateKey KChannel c.(cv_id))
    | CtContact => Some (getStateKey KContact c.(cv_id))
    | _ => None
    end
  | None => None
  end.

Definition call (c : ApiCall) (s : Unread) : Unread := s <| ur_calls := s.(ur_calls) ++ [c] |>.

(** The mark-as-read request for the active conversation. *)
Definition mark_active_read (s : Unread) : Unread :=
  match s.(ur_active) with
  | Some c =>
    match c.(cv_type) with
    | CtChannel => call (MarkChannelRead c.(cv_id)) s
    | CtContact => call (MarkContactRead c.(cv_id)) s
    | _ => s
    end
  | None => s
  end.

Definition delete_opt {V} (k : option jstr) (m : gmap jstr V) : gmap jstr V :=
  match k with Some k => delete k m | None => m end.

(** [Object.keys(m).length > 0] *)
Definition nonempty {V} (m : gmap jstr V) : bool := 0 <? Z.of_nat (size m).

Definition applyUnreads (data : UnreadCounts) (s : Unread) : Unread :=
  let activeKey := tracked_key s.(ur_active) in
  let s := s <| ur_unreadCounts := delete_opt activeKey data.(un_counts) |>
             <| ur_mentions := delete_opt activeKey data.(un_mentions) |>
             <| ur_unreadLastReadAts := data.(un_last_read_ats) |>
             <| ur_firstUnreadIds := data.(un_first_unread_ids) |> in
  let s :=
    if nonempty data.(un_last_message_times) then
      let cache := data.(un_last_message_times) ∪ s.(ur_timesCache) in
      s <| ur_timesCache := cache |> <| ur_lastMessageTimes := cache |>
    else s in
  let s :=
    if nonempty data.(un_last_message_previews) then
      s <| ur_lastMessagePreviews := data.(un_last_message_previews) ∪ s.(ur_lastMessagePreviews) |>
    else s in
  let outgoing := default ∅ data.(un_last_message_outgoing) in
  if nonempty outgoing then
    s <| ur_lastMessageOutgoing := outgoing ∪ s.(ur_lastMessageOutgoing) |>
  else s.

(** The end of [fetchUnreads]: its reply ([None] when it failed), then the mark as read. *)
Definition fetchUnreads_then (reply : option UnreadCounts) (s : Unread) : Unread :=
  mark_active_read (match reply with Some data => applyUnreads data s | None => s end).

Definition fetchUnreads (s : Unread) : Unread := call GetUnreads s.

(** The effect on the lengths of the collections: not on the first run. *)
Definition observe_lengths (lengths : Z * Z) (s : Unread) : Unread :=
  match s.(ur_lengths) with
  | None => s <| ur_lengths := Some lengths |>
  | Some l => if l ≟ lengths then s else fetchUnreads (s <| ur_lengths := Some lengths |>)
  end.

(** A render with another active conversation: the adjustment during the render, the commit,
    and the effect that marks it as read. *)
Definition open_conversation (conversation : option Conversation) (s : Unread) : Unread :=
  let s :=
    match tracked_key conversation with
    | Some key =>
      let counts := s.(ur_unreadCounts) in
      let mentions := s.(ur_mentions) in
      s <| ur_unreadCounts := if negb (default 0 (counts !! key) =? 0) then delete key counts
                              else counts |>
        <| ur_mentions := if default false (mentions !! key) then delete key mentions
                          else mentions |>
    | None => s
    end in
  mark_active_read (s <| ur_active := conversation |>).

Definition incrementUnread (stateKey : jstr) (messageId : Z) (hasMention : bool) (s : Unread)
    : Unread :=
  let counts := s.(ur_unreadCounts) in
  let s := s <| ur_unreadCounts := <[stateKey := default 0 (counts !! stateKey) + 1]> counts |> in
  let s :=
    match s.(ur_firstUnreadIds) !! stateKey with
    | Some (Some _) => s
    | _ => s <| ur_firstUnreadIds := <[stateKey := Some messageId]> s.(ur_firstUnreadIds) |>
    end in
  if hasMention then s <| ur_mentions := <[stateKey := true]> s.(ur_mentions) |> else s.

Definition message_state_key (msg : Message) : option jstr :=
  match msg.(m_conversation_key) with
  | [] => None
  | key => Some (getStateKey (match msg.(m_type) with CHAN => KChannel | PRIV => KContact end) key)
  end.

Definition recordMessageEvent (now : Z) (msg : Message) (isActiveConversation isNewMessage : bool)
    (hasMention : bool) (s : Unread) : Unread :=
  match message_state_key msg with
  | None => s
  | Some stateKey =>
    let timestamp := if msg.(m_received_at) =? 0 then now / 1000 else msg.(m_received_at) in
    let cache := setLastMessageTime stateKey timestamp s.(ur_timesCache) in
    let s := s <| ur_timesCache := cache |> <| ur_lastMessageTimes := cache |>
               <| ur_lastMessagePreviews :=
                    <[stateKey := slice msg.(m_text) 0 PREVIEW_MAX_LEN]> s.(ur_lastMessagePreviews) |>
               <| ur_lastMessageOutgoing :=
                    <[stateKey := msg.(m_outgoing)]> s.(ur_lastMessageOutgoing) |> in
    if negb isActiveConversation && negb msg.(m_outgoing) && isNewMessage
    then incrementUnread stateKey msg.(m_id) hasMention s else s
  end.

(** Moves the entry of a key, merging it with the entry of the new key. *)
Definition rename_key {V} (merge : option V -> V -> V) (oldKey newKey : jstr) (m : gmap jstr V)
    : gmap jstr V :=
  match m !! oldKey with
  | None => m
  | Some v => delete oldKey (<[newKey := merge (m !! newKey) v]> m)
  end.

Definition renameConversationState (oldStateKey newStateKey : jstr) (s : Unread) : Unread :=
  if oldStateKey ≟ newStateKey then s else
  let cache := renameConversationTimeKey oldStateKey newStateKey s.(ur_timesCache) in
  s <| ur_unreadCounts :=
         rename_key (fun n o => default 0 n + o) oldStateKey newStateKey s.(ur_unreadCounts) |>
    <| ur_mentions :=
         rename_key (fun n o => default false n || o) oldStateKey newStateKey s.(ur_mentions) |>
    <| ur_firstUnreadIds :=
         rename_key (fun n o => match n with Some (Some id) => Some id | _ => o end)
           oldStateKey newStateKey s.(ur_firstUnreadIds) |>
    <| ur_lastMessagePreviews :=
         rename_key (fun n o => default o n) oldStateKey newStateKey s.(ur_lastMessagePreviews) |>
    <| ur_lastMessageOutgoing :=
         rename_key (fun n o => default o n) oldStateKey newStateKey s.(ur_lastMessageOutgoing) |>
    <| ur_timesCache := cache |> <| ur_lastMessageTimes := cache |>.

Definition removeConversationState (stateKey : jstr) (s : Unread) : Unread :=
  s <| ur_unreadCounts := delete stateKey s.(ur_unreadCounts) |>
    <| ur_mentions := delete stateKey s.(ur_mentions) |>
    <| ur_firstUnreadIds := delete stateKey s.(ur_firstUnreadIds) |>
    <| ur_unreadLastReadAts := delete stateKey s.(ur_unreadLastReadAts) |>
    <| ur_lastMessagePreviews := delete stateKey s.(ur_lastMessagePreviews) |>
    <| ur_lastMessageOutgoing := delete stateKey s.(ur_lastMessageOutgoing) |>.

Definition markAllRead (s : Unread) : Unread :=
  call MarkAllRead
    (s <| ur_unreadCounts := ∅ |> <| ur_mentions := ∅ |> <| ur_unreadLastReadAts := ∅ |>
       <| ur_firstUnreadIds := ∅ |>).

(** The hook's mount: its initial state, then its effects (the first one sends the request or
    takes the reply prefetched before the page loaded). *)
Definition mount (timesCache : gmap jstr Z) (conversation : option Conversation) (lengths : Z * Z)
    : Unread :=
  mark_active_read (observe_lengths lengths (call GetUnreads
    {| ur_unreadCounts := ∅; ur_mentions := ∅; ur_lastMessageTimes := timesCache;
       ur_lastMessagePreviews := ∅; ur_lastMessageOutgoing := ∅; ur_unreadLastReadAts := ∅;
       ur_firstUnreadIds := ∅; ur_active := conversation; ur_lengths := None;
       ur_timesCache := timesCache; ur_calls := [] |})).

Inductive UnreadEvent :=
| EvMountReply (reply : UnreadCounts)
| EvFetchReply (reply : option UnreadCounts)
| EvRefresh
| EvLengths (channelsLen contactsLen : Z)
| EvOpen (conversation : option Conversation)
| EvMessage (now : Z) (msg : Message) (isActiveConversation isNewMessage hasMention : bool)
| EvRename (oldStateKey newStateKey : jstr)
| EvRemove (stateKey : jstr)
| EvMarkAllRead.

Definition handle_unread (s : Unread) (e : UnreadEvent) : Unread :=
  match e with
  | EvMountReply data => applyUnreads data s
  | EvFetchReply reply => fetchUnreads_then reply s
  | EvRefresh => fetchUnreads s
  | EvLengths channelsLen contactsLen => observe_lengths (channelsLen, contactsLen) s
  | EvOpen conversation => open_conversation conversation s
  | EvMessage now msg active new mention => recordMessageEvent now msg active new mention s
  | EvRename oldKey newKey => renameConversationState oldKey newKey s
  | EvRemove key => removeConversationState key s
  | EvMarkAllRead => markAllRead s
  end.

(** ** Counting conversations ([unreadConversations.ts]) *)

Definition isPendingChannel (channel : Channel) : bool :=
  channel.(ch_membership) ≟ Some Pending.

Definition countUnreadConversations (channels : list Channel) (contacts : list Contact)
    (unreadCounts : gmap jstr Z) : Z :=
  let total :=
    foldl (fun total channel =>
      if isPendingChannel channel then total
      else if 0 <? default 0 (unreadCounts !! getStateKey KChannel channel.(ch_key))
      then total + 1 else total) 0 channels in
  foldl (fun total contact =>
    if 0 <? default 0 (unreadCounts !! getStateKey KContact contact.(c_public_key))
    then total + 1 else total) total contacts.
