(* ===== verification/UnreadProps.v ===== *)
(** The unread state: what holds of it whatever happens, with the one way in which the conversation
    on screen comes to have a counter, and how the counters follow the messages. *)
From S2P Require Import Prelude JsString JsNum Types UnreadState.

(** ** Keys *)

Lemma rename_key_lookup {V} (m : gmap jstr V) merge a b k :
  a <> b ->
  rename_key merge a b m !! k =
  if decide (k = a) then None
  else if decide (k = b) then match m !! a with Some v => Some (merge (m !! b) v) | None => m !! b end
  else m !! k.
Proof.
  intros Hab. unfold rename_key. destruct (m !! a) as [v|] eqn:Ea.
  - destruct (decide (k = a)) as [->|Hka]; [by rewrite lookup_delete_eq|].
    rewrite lookup_delete_ne by done. destruct (decide (k = b)) as [->|Hkb].
    + by rewrite lookup_insert_eq.
    + by rewrite lookup_insert_ne.
  - destruct (decide (k = a)) as [->|]; [done|]. by destruct (decide (k = b)) as [->|].
Qed.

Lemma getStateKey_inj t t' i i' : getStateKey t i = getStateKey t' i' -> t = t' /\ i = i'.
Proof. destruct t, t'; intros E; try done; by apply app_inv_head in E. Qed.

(** ** The invariant *)

Section tables.
Implicit Types (counts : gmap jstr Z) (mentions : gmap jstr bool) (firsts : gmap jstr (option Z)).

(** Counters are positive, a mention has a counter, and a counter has a boundary. *)
Record tables_ok counts mentions firsts : Prop := {
  tk_positive : forall k n, counts !! k = Some n -> 0 < n;
  tk_mention : forall k, mentions !! k = Some true -> is_Some (counts !! k);
  tk_boundary : forall k, is_Some (counts !! k) -> exists id, firsts !! k = Some (Some id);
}.

Lemma tables_empty : tables_ok ∅ ∅ ∅.
Proof. constructor; intros k; rewrite lookup_empty; [done|done|by intros []]. Qed.

Lemma tables_clear counts mentions firsts k :
  tables_ok counts mentions firsts -> tables_ok (delete k counts) (delete k mentions) firsts.
Proof.
  intros [Hp Hm Hb]. constructor; intros j.
  - intros n. rewrite lookup_delete_Some. intros [_ ?]. eauto.
  - rewrite lookup_delete_Some. intros [Hne Hj]. rewrite lookup_delete_ne by done. eauto.
  - intros [n Hn]. apply lookup_delete_Some in Hn as [_ Hn]. eauto.
Qed.

Lemma tables_delete counts mentions firsts k :
  tables_ok counts mentions firsts ->
  tables_ok (delete k counts) (delete k mentions) (delete k firsts).
Proof.
  intros Hok. destruct (tables_clear _ _ _ k Hok) as [Hp Hm Hb]. constructor; [done|done|].
  intros j Hj. destruct (decide (j = k)) as [->|Hne].
  - rewrite lookup_delete_eq in Hj. by destruct Hj.
  - rewrite lookup_delete_ne by done. by apply Hb.
Qed.

Lemma tables_increment counts mentions firsts k id (mention : bool) :
  tables_ok counts mentions firsts ->
  tables_ok (<[k := default 0 (counts !! k) + 1]> counts)
    (if mention then <[k := true]> mentions else mentions)
    (match firsts !! k with Some (Some _) => firsts | _ => <[k := Some id]> firsts end).
Proof.
  intros [Hp Hm Hb]. constructor; intros j.
  - intros n [[-> <-]|[_ Hn]]%lookup_insert_Some; [|by eapply Hp].
    destruct (counts !! j) as [c|] eqn:E; cbn; [specialize (Hp _ _ E)|]; lia.
  - destruct (decide (j = k)) as [->|Hne]; [by rewrite lookup_insert_eq|].
    rewrite lookup_insert_ne by done. destruct mention; [rewrite lookup_insert_ne by done|]; apply Hm.
  - destruct (decide (j = k)) as [->|Hne].
    + intros _. destruct (firsts !! k) as [[b|]|] eqn:E; [by exists b|..];
        exists id; by rewrite lookup_insert_eq.
    + rewrite lookup_insert_ne by done. intros Hj.
      destruct (firsts !! k) as [[b|]|]; rewrite ?lookup_insert_ne by done; by apply Hb.
Qed.

Lemma tables_rename counts mentions firsts a b :
  a <> b -> tables_ok counts mentions firsts ->
  tables_ok (rename_key (fun n o => default 0 n + o) a b counts)
    (rename_key (fun n o => default false n || o) a b mentions)
    (rename_key (fun n o => match n with Some (Some id) => Some id | _ => o end) a b firsts).
Proof.
  intros Hab [Hp Hm Hb]. constructor; intros k; rewrite !rename_key_lookup by done.
  - intros n. case_decide; [done|]. case_decide; [|eauto]. subst.
    destruct (counts !! a) as [na|] eqn:Ea; [|eauto]. intros [= <-]. assert (0 < na) by eauto.
    destruct (counts !! b) as [nb|] eqn:Eb; cbn; [specialize (Hp _ _ Eb)|]; lia.
  - case_decide; [done|]. case_decide; [|auto]. subst.
    destruct (counts !! a) eqn:Ea; [done|].
    destruct (mentions !! a) as [ma|] eqn:Ema; [|auto]. intros [= Hor].
    apply orb_true_iff in Hor as [Hn| ->].
    + apply Hm. by destruct (mentions !! b) as [[]|].
    + apply Hm in Ema. rewrite Ea in Ema. by destruct Ema.
  - case_decide; [by intros []|]. case_decide; [|auto]. subst.
    destruct (counts !! a) as [na|] eqn:Ea.
    + intros _. destruct (Hb a) as [ia ->]; [by rewrite Ea|].
      destruct (firsts !! b) as [[ib|]|]; eauto.
    + intros Hk. destruct (Hb b Hk) as [ib Eb].
      rewrite Eb. destruct (firsts !! a); eauto.
Qed.
End tables.

(** What the server answers. *)
Definition data_ok (d : UnreadCounts) : Prop :=
  tables_ok d.(un_counts) d.(un_mentions) d.(un_first_unread_ids).

(** The conversation on screen has no counter. *)
Definition active_clear (s : Unread) : Prop :=
  forall k, tracked_key s.(ur_active) = Some k -> s.(ur_unreadCounts) !! k = None.

(** [clear]: whether the conversation on screen is known to have no counter. *)
Record unread_ok (clear : Prop) (s : Unread) : Prop := {
  uo_tables : tables_ok s.(ur_unreadCounts) s.(ur_mentions) s.(ur_firstUnreadIds);
  uo_active : clear -> active_clear s;
}.

(** What the tables ask of an event: a consistent answer, and a message flagged as active when
    it is for the active conversation. *)
Definition event_ok (s : Unread) (e : UnreadEvent) : Prop :=
  match e with
  | EvMountReply d => data_ok d
  | EvFetchReply (Some d) => data_ok d
  | EvMessage _ msg active _ _ =>
    forall k, message_state_key msg = Some k -> tracked_key s.(ur_active) = Some k -> active = true
  | _ => True
  end.

(** A rename of [a] gives the conversation on screen a counter: [a] is counted, and renamed to it. *)
Definition counts_active (s : Unread) (a b : jstr) : Prop :=
  tracked_key s.(ur_active) = Some b /\ is_Some (s.(ur_unreadCounts) !! a).

#[export] Instance counts_active_dec s a b : Decision (counts_active s a b).
Proof. unfold counts_active. apply _. Defined.

Definition clear_event (s : Unread) (e : UnreadEvent) : Prop :=
  match e with EvRename a b => ~ counts_active s a b | _ => True end.

#[export] Instance clear_event_dec s e : Decision (clear_event s e).
Proof. destruct e; apply _. Defined.

Inductive unread_step : Unread -> Unread -> Prop :=
| unread_step_event s e : event_ok s e -> unread_step s (handle_unread s e).

(** The requests do not touch the tables. *)
Lemma call_ok clear c s : unread_ok clear s -> unread_ok clear (call c s).
Proof. intros [? ?]. by constructor. Qed.

Lemma mark_active_read_ok clear s : unread_ok clear s -> unread_ok clear (mark_active_read s).
Proof.
  intros Hok. unfold mark_active_read. destruct (ur_active s) as [c|]; [|done].
  destruct (cv_type c); auto using call_ok.
Qed.

(** What [applyUnreads] sets, whatever else it merges. *)
Lemma applyUnreads_tables d s :
  ur_unreadCounts (applyUnreads d s) = delete_opt (tracked_key s.(ur_active)) d.(un_counts)
  /\ ur_mentions (applyUnreads d s) = delete_opt (tracked_key s.(ur_active)) d.(un_mentions)
  /\ ur_firstUnreadIds (applyUnreads d s) = d.(un_first_unread_ids)
  /\ ur_active (applyUnreads d s) = s.(ur_active).
Proof.
  unfold applyUnreads. cbv zeta.
  destruct (nonempty (un_last_message_times d)), (nonempty (un_last_message_previews d)),
    (nonempty (default ∅ (un_last_message_outgoing d))); done.
Qed.

Lemma applyUnreads_ok clear d s : data_ok d -> unread_ok clear (applyUnreads d s).
Proof.
  intros Hd. destruct (applyUnreads_tables d s) as (Ec & Em & Ef & Ea).
  constructor; rewrite ?Ec, ?Em, ?Ef, ?Ea.
  - destruct (tracked_key (ur_active s)) as [k|]; [by apply tables_clear|done].
  - intros _ k. rewrite Ea, Ec. intros ->. cbn. apply lookup_delete_eq.
Qed.

(** Clearing the counters of the conversation that is opened. *)
Lemma open_tables clear conversation s :
  unread_ok clear s ->
  let s' := open_conversation conversation s in
  ur_unreadCounts s' = delete_opt (tracked_key conversation) s.(ur_unreadCounts)
  /\ (forall k, ur_mentions s' !! k = Some true <->
        delete_opt (tracked_key conversation) s.(ur_mentions) !! k = Some true)
  /\ ur_firstUnreadIds s' = s.(ur_firstUnreadIds) /\ ur_active s' = conversation.
Proof.
  intros [[Hp _ _] _] s'.
  assert (Hs' : forall P : Unread -> Prop, (forall calls, P
    (match tracked_key conversation with
     | Some key =>
       s <| ur_unreadCounts := if negb (default 0 (ur_unreadCounts s !! key) =? 0)
                               then delete key (ur_unreadCounts s) else ur_unreadCounts s |>
         <| ur_mentions := if default false (ur_mentions s !! key)
                           then delete key (ur_mentions s) else ur_mentions s |>
     | None => s
     end <| ur_active := conversation |> <| ur_calls := calls |>)) -> P s').
  { intros P HP. unfold s', open_conversation, mark_active_read, call.
    destruct (tracked_key conversation); cbn [ur_active set];
      (destruct conversation as [c|]; [destruct (cv_type c)|]); apply HP. }
  pattern s'. apply Hs'. intros calls. destruct (tracked_key conversation) as [key|];
    split_and!; try done; cbn [ur_unreadCounts ur_mentions set delete_opt].
  - destruct (ur_unreadCounts s !! key) as [n|] eqn:E; cbn [default from_option id].
    + specialize (Hp _ _ E). by rewrite (proj2 (Z.eqb_neq n 0)) by lia.
    + symmetry. by apply delete_id.
  - intros k. destruct (ur_mentions s !! key) as [[]|] eqn:E; cbn [default from_option id]; [done|..].
    + destruct (decide (k = key)) as [->|Hne]; [|by rewrite lookup_delete_ne].
      by rewrite E, lookup_delete_eq.
    + by rewrite delete_id.
Qed.

Lemma open_ok clear clear' conversation s :
  unread_ok clear s -> unread_ok clear' (open_conversation conversation s).
Proof.
  intros Hok. destruct (open_tables clear conversation s Hok) as (Ec & Em & Ef & Ea).
  destruct Hok as [Ht _]. constructor; rewrite ?Ea.
  - destruct (tracked_key conversation) as [key|]; cbn [delete_opt] in *.
    + destruct (tables_clear _ _ _ key Ht) as [Hp Hm Hb].
      constructor; rewrite ?Ec, ?Ef; [done| |done]. intros k Hk. by apply Hm, Em.
    + destruct Ht as [Hp Hm Hb]. constructor; rewrite ?Ec, ?Ef; [done| |done].
      intros k Hk. by apply Hm, Em.
  - intros _ k. rewrite Ea. intros E. rewrite Ec, E. apply lookup_delete_eq.
Qed.

(** The counting part of a message event; the rest of the state is about times and previews. *)
Definition counted (e : UnreadEvent) : option (jstr * (Z * bool)) :=
  match e with
  | EvMessage _ msg active new mention =>
    match message_state_key msg with
    | Some k => if negb active && negb msg.(m_outgoing) && new then Some (k, (msg.(m_id), mention)) else None
    | None => None
    end
  | _ => None
  end.

Lemma message_tables s now msg active new mention :
  let s' := recordMessageEvent now msg active new mention s in
  ur_active s' = ur_active s /\
  match counted (EvMessage now msg active new mention) with
  | Some (k, (id, m)) =>
    ur_unreadCounts s' = <[k := default 0 (ur_unreadCounts s !! k) + 1]> (ur_unreadCounts s)
    /\ ur_mentions s' = (if m then <[k := true]> (ur_mentions s) else ur_mentions s)
    /\ ur_firstUnreadIds s' = match ur_firstUnreadIds s !! k with
                              | Some (Some _) => ur_firstUnreadIds s
                              | _ => <[k := Some id]> (ur_firstUnreadIds s)
                              end
  | None => ur_unreadCounts s' = ur_unreadCounts s /\ ur_mentions s' = ur_mentions s
            /\ ur_firstUnreadIds s' = ur_firstUnreadIds s
  end.
Proof.
  unfold recordMessageEvent, counted. destruct (message_state_key msg) as [k|]; [|done].
  destruct (negb active && negb (m_outgoing msg) && new); [|done].
  unfold incrementUnread. cbn [ur_firstUnreadIds set].
  destruct (ur_firstUnreadIds s !! k) as [[|]|], mention; done.
Qed.

Lemma handle_unread_ok (clear : Prop) s e :
  unread_ok clear s -> event_ok s e -> (clear -> clear_event s e) ->
  unread_ok clear (handle_unread s e).
Proof.
  intros Hok He Hc. pose proof Hok as [Ht Ha]. destruct e; cbn [handle_unread event_ok] in *.
  - by apply applyUnreads_ok.
  - unfold fetchUnreads_then. apply mark_active_read_ok. destruct reply; [by apply applyUnreads_ok|done].
  - by apply call_ok.
  - unfold observe_lengths. destruct (ur_lengths s) as [l|].
    + destruct (l ≟ _); [done|]. unfold fetchUnreads. apply call_ok. by constructor.
    + by constructor.
  - by eapply open_ok.
  - destruct (message_tables s now msg isActiveConversation isNewMessage hasMention) as [Ea Hm].
    destruct (counted _) as [[k [id m]]|] eqn:Ec.
    + destruct Hm as (Ecn & Em & Ef). constructor; rewrite ?Ecn, ?Em, ?Ef, ?Ea.
      * by apply tables_increment.
      * intros Hcl k'. rewrite Ea. intros Hk'. rewrite Ecn. unfold counted in Ec. destruct (message_state_key msg) as [k0|]; [|done].
        destruct (negb isActiveConversation && negb (m_outgoing msg) && isNewMessage) eqn:Ef'; [|done].
        injection Ec as -> <- <-. rewrite lookup_insert_ne; [by apply (Ha Hcl)|].
        intros ->. by rewrite (He k' eq_refl Hk') in Ef'.
    + destruct Hm as (Ecn & Em & Ef). constructor; unfold active_clear; rewrite ?Ecn, ?Em, ?Ef, ?Ea; done.
  - unfold renameConversationState. destruct (bool_decide_reflect (oldStateKey = newStateKey)) as [|Hne];
      [done|]. constructor; cbn [ur_unreadCounts ur_mentions ur_firstUnreadIds ur_active set].
    + by apply tables_rename.
    + intros Hcl k Hk. cbn [ur_unreadCounts set]. rewrite rename_key_lookup by done.
      case_decide; [done|]. case_decide; [|by apply (Ha Hcl)]. subst.
      destruct (ur_unreadCounts s !! oldStateKey) eqn:E; [|by apply (Ha Hcl)].
      exfalso. apply (Hc Hcl). split; [done|]. by rewrite E.
  - constructor; cbn [ur_unreadCounts ur_mentions ur_firstUnreadIds ur_active set removeConversationState].
    + by apply tables_delete.
    + intros Hcl k Hk. apply lookup_delete_None. right. by apply (Ha Hcl).
  - unfold markAllRead. apply call_ok. constructor; [apply tables_empty|]. intros ? ? ?. apply lookup_empty.
Qed.

Lemma mount_ok clear times conversation lengths : unread_ok clear (mount times conversation lengths).
Proof.
  unfold mount, observe_lengths. cbn [ur_lengths call set]. apply mark_active_read_ok.
  constructor; [apply tables_empty|]. intros ? ? ?. apply lookup_empty.
Qed.

Lemma unread_reachable times conversation lengths s :
  rtc unread_step (mount times conversation lengths) s -> unread_ok False s.
Proof.
  intros Hr. assert (Hm := mount_ok False times conversation lengths). revert Hm.
  induction Hr as [|s1 s2 s3 [s e He] _ IH]; [done|]. intros Hok. by apply IH, handle_unread_ok.
Qed.

(** The steps that open no conversation. *)
Inductive unread_stay : Unread -> Unread -> Prop :=
| unread_stay_event s e :
    event_ok s e -> match e with EvOpen _ => False | _ => True end ->
    unread_stay s (handle_unread s e).

(** A counted conversation is renamed to the one on screen. *)
Inductive rename_onto_active : Unread -> Unread -> Prop :=
| rename_onto_active_event s a b :
    a <> b -> counts_active s a b -> rename_onto_active s (handle_unread s (EvRename a b)).

(** A step keeps the conversation on screen without a counter, or is such a rename. *)
Lemma step_clear s s' :
  unread_ok False s -> unread_step s s' -> active_clear s ->
  active_clear s' \/ rename_onto_active s s'.
Proof.
  intros Hu Hstep. revert Hu. destruct Hstep as [g e He]. intros [Ht _] Hclear.
  assert (Hok : unread_ok True g) by (constructor; [exact Ht|intros _; exact Hclear]).
  destruct (decide (clear_event g e)) as [Hc|Hc].
  { left. by apply (handle_unread_ok True g e Hok He). }
  destruct e as [| | | | | |a b| |]; try done. cbn [clear_event] in Hc.
  apply dec_stable in Hc. destruct (decide (a = b)) as [->|Hne]; [|by right].
  left. cbn [handle_unread]. unfold renameConversationState. by rewrite bool_decide_eq_true_2.
Qed.

Lemma open_clear s s' :
  unread_ok False s -> unread_step s s' -> active_clear s' \/ unread_stay s s'.
Proof.
  intros Hok Hstep. revert Hok. destruct Hstep as [g e He]. intros Hok.
  destruct e as [| | | |conversation| | | |]; try by right; constructor.
  left. by apply (open_ok False True conversation g Hok).
Qed.

(** ** The ledger of a conversation *)

(** An event that leaves the counters of [k] to the messages. *)
Definition quiet (k : jstr) (e : UnreadEvent) : Prop :=
  match e with
  | EvMessage _ _ _ _ _ | EvRefresh | EvLengths _ _ | EvFetchReply None => True
  | EvOpen conversation => tracked_key conversation <> Some k
  | EvRename a b => a <> k /\ b <> k
  | EvRemove a => a <> k
  | _ => False
  end.

(** The ids and mention flags of the messages counted for [k]. *)
Definition counted_for (k : jstr) (events : list UnreadEvent) : list (Z * bool) :=
  omap (fun e => match counted e with
                 | Some (k', x) => if decide (k' = k) then Some x else None
                 | None => None
                 end) events.

(** The ledger of a key: its count, its first unread message and its mention flag. *)
Definition ledger (s : Unread) (k : jstr) : Z * option Z * bool :=
  (default 0 (s.(ur_unreadCounts) !! k), s.(ur_firstUnreadIds) !! k ≫= id,
   default false (s.(ur_mentions) !! k)).

Definition ledger_add (l : Z * option Z * bool) (x : Z * bool) : Z * option Z * bool :=
  let '(n, first, mention) := l in
  (n + 1, match first with Some _ => first | None => Some x.1 end, mention || x.2).

Lemma ledger_calls s calls k : ledger (s <| ur_calls := calls |>) k = ledger s k.
Proof. reflexivity. Qed.

Lemma ledger_mark s k : ledger (mark_active_read s) k = ledger s k.
Proof. unfold mark_active_read. destruct (ur_active s) as [c|]; [destruct (cv_type c)|]; done. Qed.

Lemma ledger_quiet s e k :
  quiet k e ->
  ledger (handle_unread s e) k
  = match counted e with
    | Some (k', x) => if decide (k' = k) then ledger_add (ledger s k) x else ledger s k
    | None => ledger s k
    end.
Proof.
  intros Hq. destruct e as [| [|] | | | conversation |now msg active new mention|a b|a|];
    cbn [quiet handle_unread] in *; try done.
  - cbn [counted]. apply ledger_mark.
  - cbn [counted]. unfold observe_lengths. destruct (ur_lengths s) as [l|]; [|done]. by destruct (l ≟ _).
  - cbn [counted]. unfold open_conversation. rewrite ledger_mark.
    destruct (tracked_key conversation) as [key|]; [|done]. assert (key <> k) by congruence.
    unfold ledger. cbn [ur_unreadCounts ur_mentions ur_firstUnreadIds set].
    destruct (negb _), (default false (ur_mentions s !! key));
      by rewrite ?lookup_delete_ne by done.
  - destruct (message_tables s now msg active new mention) as [_ Hm].
    destruct (counted _) as [[k' [i m]]|]; destruct Hm as (Ec & Em & Ef);
      unfold ledger; rewrite Ec, Em, Ef; [|done].
    destruct (decide (k' = k)) as [->|Hne].
    + rewrite lookup_insert_eq. cbn [default from_option ledger_add fst snd].
      assert (E1 : (match ur_firstUnreadIds s !! k with Some (Some _) => ur_firstUnreadIds s
        | _ => <[k := Some i]> (ur_firstUnreadIds s) end) !! k ≫= id
        = match ur_firstUnreadIds s !! k ≫= id with Some x => Some x | None => Some i end).
      { destruct (ur_firstUnreadIds s !! k) as [[b|]|] eqn:Eb; rewrite ?lookup_insert_eq, ?Eb; done. }
      rewrite E1. destruct m; rewrite ?lookup_insert_eq; cbn.
      * rewrite orb_true_r. by destruct (ur_firstUnreadIds s !! k ≫= _).
      * rewrite orb_false_r. by destruct (ur_firstUnreadIds s !! k ≫= _).
    + rewrite lookup_insert_ne by done.
      destruct (ur_firstUnreadIds s !! k') as [[b|]|], m; by rewrite ?lookup_insert_ne by done.
  - cbn [counted]. unfold renameConversationState. destruct (bool_decide_reflect (a = b)); [done|].
    unfold ledger. cbn [ur_unreadCounts ur_mentions ur_firstUnreadIds set].
    rewrite !rename_key_lookup by done. by rewrite !decide_False by naive_solver.
  - cbn [counted]. unfold ledger, removeConversationState.
    cbn [ur_unreadCounts ur_mentions ur_firstUnreadIds set]. by rewrite !lookup_delete_ne.
Qed.

Lemma ledger_trace k events s :
  Forall (quiet k) events ->
  ledger (foldl handle_unread s events) k = foldl ledger_add (ledger s k) (counted_for k events).
Proof.
  intros Hq. revert s. induction Hq as [|e events He _ IH]; intros s; [done|].
  cbn [foldl]. rewrite IH, ledger_quiet by done. unfold counted_for.
  cbn [omap list_omap]. destruct (counted e) as [[k' x]|]; [|done]. by destruct (decide (k' = k)).
Qed.

Lemma ledger_add_fold n first mention xs :
  foldl ledger_add (n, first, mention) xs
  = (n + len xs, match first with Some _ => first | None => fst <$> head xs end,
     mention || existsb snd xs).
Proof.
  revert n first mention. induction xs as [|[i m] xs IH]; intros n first mention; cbn [foldl].
  - rewrite len_nil, Z.add_0_r. cbn. rewrite orb_false_r. by destruct first.
  - cbn [ledger_add fst snd]. rewrite IH, len_cons. cbn [head existsb fmap option_fmap option_map].
    f_equal; [f_equal; [lia|by destruct first]|by rewrite orb_assoc].
Qed.

(** ** Properties *)

Definition unread_message (k : jstr) (i : Z) (outgoing : bool) : Message :=
  {| m_id := i; m_type := CHAN; m_conversation_key := k; m_text := js "hi";
     m_sender_timestamp := None; m_received_at := 1000 + i; m_paths := None; m_txt_type := 0;
     m_signature := None; m_sender_key := None; m_outgoing := outgoing; m_acked := 0;
     m_sender_name := None; m_channel_name := None; m_packet_id := None; m_transport_code := None;
     m_region := None; m_packet_hash := None; m_observer_reach_eligible := None |}.

Definition channel_conversation (k : jstr) : Conversation :=
  {| cv_type := CtChannel; cv_id := k; cv_name := k;
     cv_mapFocusKey := None; cv_locateKey := None |}.

Definition chan (k : jstr) : jstr := getStateKey KChannel k.

(** C11: in every state the hook can reach, a counter is positive, a conversation flagged with
    a mention has unread messages, and a conversation with unread messages has the boundary that
    places its divider. The conversation on screen has no counter, with exactly one exception:
    while it was on screen a conversation with unread messages was renamed to it, and no
    conversation was opened since. Asked of the events: the server's answers have the first
    three properties, and a message of the conversation on screen is flagged as such. *)
Theorem unread_invariant (times : gmap jstr Z) (conversation : option Conversation)
    (lengths : Z * Z) (s : Unread)
    (Hreach : rtc unread_step (mount times conversation lengths) s) :
  (forall k n, s.(ur_unreadCounts) !! k = Some n -> 0 < n)
  /\ (forall k, s.(ur_mentions) !! k = Some true -> is_Some (s.(ur_unreadCounts) !! k))
  /\ (forall k, is_Some (s.(ur_unreadCounts) !! k) ->
        exists i, s.(ur_firstUnreadIds) !! k = Some (Some i))
  /\ ((forall k, tracked_key s.(ur_active) = Some k -> s.(ur_unreadCounts) !! k = None)
      \/ exists s1 s2, rtc unread_step (mount times conversation lengths) s1
                       /\ rename_onto_active s1 s2 /\ rtc unread_stay s2 s).
Proof.
  destruct (unread_reachable _ _ _ _ Hreach) as [[Hp Hm Hb] _].
  split; [exact Hp|]. split; [exact Hm|]. split; [exact Hb|].
  apply (rtc_unless unread_step unread_stay rename_onto_active active_clear); [| | |exact Hreach].
  - by apply (mount_ok True).
  - intros a b Ha%unread_reachable. by apply step_clear.
  - intros a b Ha%unread_reachable. by apply open_clear.
Qed.

Lemma unread_invariant_witness :
  let s := handle_unread (mount ∅ (Some (channel_conversation (js "A"))) (0, 0))
    (EvMessage 0 (unread_message (js "B") 7 false) false true true) in
  s.(ur_unreadCounts) !! chan (js "B") = Some 1
  /\ exists i, s.(ur_firstUnreadIds) !! chan (js "B") = Some (Some i).
Proof.
  split; [vm_compute; reflexivity|].
  refine (proj1 (proj2 (proj2 (unread_invariant ∅ (Some (channel_conversation (js "A"))) (0, 0) _ _)))
    _ _).
  - apply rtc_once. constructor. intros k Hk E. rewrite <- Hk in E. discriminate.
  - vm_compute. eauto.
Defined.

(** The counters follow the messages: over any events that leave a conversation to its
    messages (messages of any conversation, requests, other conversations opened, renamed or
    removed), its count grows by the number of its messages that are new, incoming and not on
    screen, its boundary is kept or is the first of them, and it is flagged when one of them
    mentions the user. *)
Theorem unread_ledger (s : Unread) (k : jstr) (events : list UnreadEvent)
    (Hquiet : Forall (quiet k) events) :
  let s' := foldl handle_unread s events in
  let xs := counted_for k events in
  default 0 (s'.(ur_unreadCounts) !! k) = default 0 (s.(ur_unreadCounts) !! k) + len xs
  /\ s'.(ur_firstUnreadIds) !! k ≫= id
     = match s.(ur_firstUnreadIds) !! k ≫= id with Some i => Some i | None => fst <$> head xs end
  /\ default false (s'.(ur_mentions) !! k)
     = default false (s.(ur_mentions) !! k) || existsb snd xs.
Proof.
  intros s' xs. assert (Hl := ledger_trace k events s Hquiet). fold s' xs in Hl.
  unfold ledger in Hl at 2. rewrite ledger_add_fold in Hl. unfold ledger in Hl.
  injection Hl as H1 H2 H3. split; [exact H1|]. split; [|exact H3].
  rewrite H2. by destruct (ur_firstUnreadIds s !! k ≫= id).
Qed.

Lemma unread_ledger_witness :
  let s := mount ∅ None (0, 0) in
  let events :=
    [EvMessage 0 (unread_message (js "B") 7 false) false true false; EvRefresh;
     EvOpen (Some (channel_conversation (js "A")));
     EvMessage 0 (unread_message (js "B") 8 true) false true false;
     EvMessage 0 (unread_message (js "B") 9 false) false true true] in
  default 0 ((foldl handle_unread s events).(ur_unreadCounts) !! chan (js "B")) = 2
  /\ len (counted_for (chan (js "B")) events) = 2.
Proof.
  intros s events. assert (Hq : Forall (quiet (chan (js "B"))) events).
  { repeat constructor. vm_compute. discriminate. }
  split; [|vm_compute; reflexivity].
  rewrite (proj1 (unread_ledger s (chan (js "B")) events Hq)). vm_compute. reflexivity.
Defined.

(** *** Totals *)

Definition total_unread (counts : gmap jstr Z) : Z := map_fold (fun _ n acc => n + acc) 0 counts.

Lemma total_insert counts k n :
  counts !! k = None -> total_unread (<[k := n]> counts) = n + total_unread counts.
Proof. intros. unfold total_unread. rewrite map_fold_insert_L; [done|lia|done]. Qed.

Lemma total_delete counts k n :
  counts !! k = Some n -> total_unread counts = n + total_unread (delete k counts).
Proof. intros Hk. unfold total_unread. rewrite (map_fold_delete_L _ _ k n counts); [done|lia|done]. Qed.

Lemma total_set counts k n :
  total_unread (<[k := n]> counts) = n + total_unread (delete k counts).
Proof. rewrite <- insert_delete_eq. apply total_insert, lookup_delete_eq. Qed.

(** Resolving a contact loses no unread message: renaming a key moves its counter, its
    mention flag and its boundary to the new key, merged with what is there, changes no other
    key, and keeps the total. *)
Theorem rename_conserves_unread (s : Unread) (a b : jstr) (Hab : a <> b) :
  let s' := renameConversationState a b s in
  total_unread s'.(ur_unreadCounts) = total_unread s.(ur_unreadCounts)
  /\ (forall k, k <> a -> k <> b -> ledger s' k = ledger s k)
  /\ (forall n, s.(ur_unreadCounts) !! a = Some n ->
        s'.(ur_unreadCounts) !! b = Some (default 0 (s.(ur_unreadCounts) !! b) + n)
        /\ s'.(ur_unreadCounts) !! a = None)
  /\ (s.(ur_mentions) !! a = Some true -> s'.(ur_mentions) !! b = Some true)
  /\ (forall i, s.(ur_firstUnreadIds) !! a = Some (Some i) ->
        s'.(ur_firstUnreadIds) !! b
        = Some (Some (default i (s.(ur_firstUnreadIds) !! b ≫= id)))).
Proof.
  intros s'. unfold s', renameConversationState. rewrite bool_decide_eq_false_2 by done.
  cbn [ur_unreadCounts ur_mentions ur_firstUnreadIds set]. split_and!.
  - unfold rename_key. destruct (ur_unreadCounts s !! a) as [n|] eqn:Ea; [|done].
    rewrite delete_insert_ne, total_set by done.
    rewrite (total_delete (ur_unreadCounts s) a n) by done.
    destruct (ur_unreadCounts s !! b) as [m|] eqn:Eb; cbn [default from_option id].
    + rewrite (total_delete (delete a (ur_unreadCounts s)) b m)
        by (by rewrite lookup_delete_ne). lia.
    + rewrite (delete_id (delete a _) b) by (by rewrite lookup_delete_ne). lia.
  - intros k Hka Hkb. unfold ledger. cbn [ur_unreadCounts ur_mentions ur_firstUnreadIds set].
    by rewrite !rename_key_lookup, !decide_False by done.
  - intros n Hn. rewrite !rename_key_lookup by done. rewrite Hn.
    by rewrite (decide_False (P := b = a)), !decide_True by done.
  - intros Hm. rewrite rename_key_lookup, Hm by done.
    rewrite (decide_False (P := b = a)), decide_True by done. by rewrite orb_true_r.
  - intros i Hi. rewrite rename_key_lookup, Hi by done.
    rewrite (decide_False (P := b = a)), decide_True by done.
    by destruct (ur_firstUnreadIds s !! b) as [[j|]|].
Qed.

Lemma rename_conserves_unread_witness :
  let s := foldl handle_unread (mount ∅ None (0, 0))
    [EvMessage 0 (unread_message (js "B") 7 false) false true false;
     EvMessage 0 (unread_message (js "C") 8 false) false true false] in
  total_unread (renameConversationState (chan (js "B")) (chan (js "C")) s).(ur_unreadCounts)
  = total_unread s.(ur_unreadCounts) /\ total_unread s.(ur_unreadCounts) = 2.
Proof.
  intros s. split; [|vm_compute; reflexivity].
  apply (rename_conserves_unread s (chan (js "B")) (chan (js "C"))). vm_compute. discriminate.
Defined.

(** The boundary of a conversation outlives its reading: a conversation that was opened
    and left, whose next message arrives before the server's counts are fetched again, has
    that one unread message but keeps the boundary of the messages already read. *)
Theorem reopened_boundary_is_stale (s : Unread) (k : jstr) (old : Z) (now : Z) (msg : Message)
    (mention : bool) (other : option Conversation)
    (Hmsg : message_state_key msg = Some k) (Hin : msg.(m_outgoing) = false)
    (Hactive : tracked_key s.(ur_active) = Some k) (Hother : tracked_key other <> Some k)
    (Hread : s.(ur_unreadCounts) !! k = None)
    (Hold : s.(ur_firstUnreadIds) !! k = Some (Some old)) :
  let s' := foldl handle_unread s [EvOpen other; EvMessage now msg false true mention] in
  s'.(ur_unreadCounts) !! k = Some 1 /\ s'.(ur_firstUnreadIds) !! k = Some (Some old).
Proof.
  intros s'. set (events := [EvOpen other; EvMessage now msg false true mention]).
  assert (Hq : Forall (quiet k) events) by (repeat constructor; exact Hother).
  assert (Hx : counted_for k events = [(msg.(m_id), mention)]).
  { unfold counted_for, events. cbn [omap list_omap counted]. rewrite Hmsg, Hin. cbn [negb andb].
    by rewrite decide_True. }
  assert (Hl := ledger_trace k events s Hq). rewrite Hx in Hl.
  change (foldl handle_unread s events) with s' in Hl.
  unfold ledger in Hl. rewrite Hread, Hold in Hl. injection Hl as H1 H2 _. split.
  - destruct (ur_unreadCounts s' !! k) as [n|]; cbn in H1; [by subst|done].
  - destruct (ur_firstUnreadIds s' !! k) as [[i|]|]; cbn in H2; try done. by simplify_eq.
Qed.

Lemma reopened_boundary_is_stale_witness :
  let k := chan (js "B") in
  let s := foldl handle_unread (mount ∅ None (0, 0))
    [EvMessage 0 (unread_message (js "B") 7 false) false true false;
     EvOpen (Some (channel_conversation (js "B")))] in
  let s' := foldl handle_unread s
    [EvOpen None; EvMessage 0 (unread_message (js "B") 9 false) false true false] in
  s'.(ur_unreadCounts) !! k = Some 1 /\ s'.(ur_firstUnreadIds) !! k = Some (Some 7).
Proof.
  apply (reopened_boundary_is_stale _ (chan (js "B")) 7 0 (unread_message (js "B") 9 false) false None);
    vm_compute; try reflexivity. discriminate.
Defined.

(** The badge counts conversations the reader can open: the adopted channels and the
    contacts with a positive counter, and no counter without a conversation. *)
Theorem countUnread_counts_openable (channels : list Channel) (contacts : list Contact)
    (counts : gmap jstr Z) :
  countUnreadConversations channels contacts counts
  = len (filter (fun c => c.(ch_membership) <> Some Pending
                          /\ 0 < default 0 (counts !! getStateKey KChannel c.(ch_key))) channels)
    + len (filter (fun c => 0 < default 0 (counts !! getStateKey KContact c.(c_public_key))) contacts).
Proof.
  assert (Hfold : forall {A} (f : A -> bool) (P : A -> Prop) `{!forall x, Decision (P x)} l n,
    (forall x, f x = true <-> P x) ->
    foldl (fun t x => if f x then t + 1 else t) n l = n + len (filter P l)).
  { intros A f P ? l n Hf. revert n. induction l as [|x l IH]; intros n; cbn [foldl].
    - change (len (filter P [])) with 0. lia.
    - rewrite IH, filter_cons. destruct (f x) eqn:E.
      + rewrite decide_True by (by apply Hf). rewrite len_cons. lia.
      + rewrite decide_False; [done|]. by rewrite <- Hf, E. }
  unfold countUnreadConversations. cbv zeta.
  rewrite (Hfold Contact (fun c => 0 <? default 0 (counts !! getStateKey KContact c.(c_public_key)))
    (fun c => 0 < default 0 (counts !! getStateKey KContact c.(c_public_key))) _ contacts)
    by (intros; apply Z.ltb_lt).
  f_equal. rewrite <- (Z.add_0_l (len _)), <- (Hfold Channel (fun c => negb (isPendingChannel c)
    && (0 <? default 0 (counts !! getStateKey KChannel c.(ch_key)))) _ _ channels 0).
  - apply foldl_pointwise. intros t c. by destruct (isPendingChannel c).
  - intros c. unfold isPendingChannel.
    by rewrite andb_true_iff, negb_true_iff, bool_decide_eq_false, Z.ltb_lt.
Qed.
