(* ===== verification/Json.v ===== *)
(** The values of [JSON.parse], and the questions the client asks of them before it trusts one. *)
From S2P Require Import Prelude JsString JsCollections JsNum.

(** A value of [JSON.parse]. *)
Inductive Json :=
| Jnull
| Jbool (b : bool)
| Jnumber (x : num)
| Jstring (s : jstr)
| Jarray (l : list Json)
| Jobject (fields : list (jstr * Json)).

Definition isRecord (v : option Json) : bool :=
  match v with Some (Jobject _) => true | _ => false end.

(** [data.k]: [None] when reading a property of [undefined] or [null] throws. Values that are
    not objects have none of the properties read here. *)
Definition field (v : option Json) (k : jstr) : option (option Json) :=
  match v with
  | None | Some Jnull => None
  | Some (Jobject fields) => Some (om_get fields k)
  | Some _ => Some None
  end.

Definition is_string (v : option (option Json)) : bool :=
  match v with Some (Some (Jstring _)) => true | _ => false end.
Definition is_number (v : option (option Json)) : bool :=
  match v with Some (Some (Jnumber _)) => true | _ => false end.

(** ** Reading the fields of an object written with literal keys *)

Lemma om_get_cons (k' : jstr) (v : Json) m k : om_get ((k', v) :: m) k = if k' ≟ k then Some v else om_get m k.
Proof. cbn. case_decide; case_bool_decide; done. Qed.

(** Evaluates the comparison of two literal keys. *)
Ltac eval_keys :=
  repeat match goal with
  | |- context [bool_decide (js ?a = js ?b)] =>
    let r := eval vm_compute in (bool_decide (js a = js b)) in
    change (bool_decide (js a = js b)) with r; cbv iota
  end.
Ltac read_keys := rewrite ?om_get_app, ?om_get_cons; cbn [om_get]; eval_keys.
