(* ===== verification/WebSocket.v ===== *)
(** The socket that feeds the client: [useWebSocket.ts] and the envelope checks of
    [wsEvents.ts].

    The hook is a state machine: its refs, the browser's sockets and pending timers, and the
    handler calls it makes. Its events are what the browser does to it. [JSON.parse] is the
    parameter [json_parse]; [Math.random()] is an argument of the event that draws it. *)
From S2P Require Import Prelude JsString JsCollections JsNum Json.
From Corelib Require Import SpecFloat.

(** ** Envelopes ([wsEvents.ts]) *)

Inductive WsType :=
| THealth | TMessage | TContact | TContactResolved | TChannel | TContactDeleted | TChannelDeleted
| TRawPacket | TCommunityPacket | TCommunityLive | TMessageAcked | TMessageDeleted | TRadioWifi
| TError | TSuccess | TPong.

(** The cases of [parseWsEvent]'s switch. *)
Definition ws_types : list (jstr * WsType) :=
  [(js "health", THealth); (js "message", TMessage); (js "contact", TContact);
   (js "contact_resolved", TContactResolved); (js "channel", TChannel);
   (js "contact_deleted", TContactDeleted); (js "channel_deleted", TChannelDeleted);
   (js "raw_packet", TRawPacket); (js "community_packet", TCommunityPacket);
   (js "community_live", TCommunityLive); (js "message_acked", TMessageAcked);
   (js "message_deleted", TMessageDeleted); (js "radio_wifi", TRadioWifi); (js "error", TError);
   (js "success", TSuccess); (js "pong", TPong)].

Inductive ParsedWsEvent :=
| KnownWsEvent (type : WsType) (data : option Json)
| UnknownWsEvent (rawType : jstr) (data : option Json).

(** True when the payload fields the dispatch reads are present. *)
Definition isDispatchableWsEvent (event : ParsedWsEvent) : bool :=
  match event with
  | UnknownWsEvent _ _ => true
  | KnownWsEvent type data =>
    match type with
    | TMessage => isRecord data
    | TContact => isRecord data && is_string (field data (js "public_key"))
    | TContactResolved =>
      isRecord data && is_string (field data (js "previous_public_key"))
      && isRecord (default None (field data (js "contact")))
    | TContactDeleted => isRecord data && is_string (field data (js "public_key"))
    | TChannelDeleted => isRecord data && is_string (field data (js "key"))
    | TMessageAcked =>
      isRecord data && is_number (field data (js "message_id"))
      && is_number (field data (js "ack_count"))
    | TMessageDeleted => isRecord data && is_number (field data (js "message_id"))
    | TRadioWifi => isRecord data && is_string (field data (js "check"))
    | TCommunityPacket | TCommunityLive => isRecord data
    | TError | TSuccess => isRecord data && is_string (field data (js "message"))
    | THealth | TChannel | TRawPacket | TPong => true
    end
  end.

(** The calls of the application's handlers. *)
Inductive HandlerCall :=
| OnHealth (data : option Json)
| OnMessage (data : option Json)
| OnContact (data : option Json)
| OnContactResolved (previous contact : option Json)
| OnContactDeleted (publicKey : option Json)
| OnChannel (data : option Json)
| OnChannelDeleted (key : option Json)
| OnRawPacket (data : option Json)
| OnCommunityPacket (data : option Json)
| OnCommunityLive (data : option Json)
| OnMessageAcked (messageId ackCount paths packetId : option Json)
    (extras : option (option Json * option Json))
| OnMessageDeleted (messageId : option Json)
| OnRadioWifi (data : option Json)
| OnError (data : option Json)
| OnSuccess (data : option Json)
| OnReconnect
| SendPing.

(** The switch of [onmessage]; [None] when it throws. *)
Definition dispatch (msg : ParsedWsEvent) : option (list HandlerCall) :=
  match msg with
  | UnknownWsEvent _ _ => Some []
  | KnownWsEvent type data =>
    match type with
    | THealth => Some [OnHealth data]
    | TMessage => Some [OnMessage data]
    | TContact => Some [OnContact data]
    | TContactResolved =>
      previous ← field data (js "previous_public_key");
      contact ← field data (js "contact");
      Some [OnContactResolved previous contact]
    | TChannel => Some [OnChannel data]
    | TContactDeleted => key ← field data (js "public_key"); Some [OnContactDeleted key]
    | TChannelDeleted => key ← field data (js "key"); Some [OnChannelDeleted key]
    | TRawPacket => Some [OnRawPacket data]
    | TCommunityPacket => Some [OnCommunityPacket data]
    | TCommunityLive => Some [OnCommunityLive data]
    | TMessageAcked =>
      packet_hash ← field data (js "packet_hash");
      eligible ← field data (js "observer_reach_eligible");
      message_id ← field data (js "message_id");
      ack_count ← field data (js "ack_count");
      paths ← field data (js "paths");
      packet_id ← field data (js "packet_id");
      Some [OnMessageAcked message_id ack_count paths packet_id
              (match packet_hash, eligible with
               | None, None => None
               | _, _ => Some (packet_hash, eligible)
               end)]
    | TMessageDeleted => message_id ← field data (js "message_id"); Some [OnMessageDeleted message_id]
    | TRadioWifi => Some [OnRadioWifi data]
    | TError => Some [OnError data]
    | TSuccess => Some [OnSuccess data]
    | TPong => Some []
    end
  end.

(** ** Back-off *)

Definition RECONNECT_BASE_MS : Z := 1000.
Definition RECONNECT_MAX_MS : Z := 30000.
Definition STABLE_CONNECTION_MS : Z := 10000.

Definition reconnect_base (attempt : Z) : Z :=
  Z.min RECONNECT_MAX_MS (RECONNECT_BASE_MS * 2 ^ Z.min attempt 10).

Definition reconnectDelayMs (attempt : Z) (random : num) : jint :=
  math_round (num_mul (num_of_Z (reconnect_base attempt))
    (num_add (num_dec 75 2) (num_mul random (num_dec 5 1)))).

(** ** The hook *)

(** [readyState] *)
Inductive SocketState := SockConnecting | SockOpen | SockClosing | SockClosed.
#[export] Instance SocketState_eq_dec : EqDecision SocketState.
Proof. solve_decision. Defined.

Inductive Timer := TimerReconnect (delay : jint) | TimerStable.

Record Ws := {
  ws_ref : option positive;
  ws_reconnectTimeoutRef : option positive;
  ws_shouldReconnectRef : bool;
  ws_hasConnectedRef : bool;
  ws_attemptRef : Z;
  ws_stableTimerRef : option positive;
  (** Whether the mount effect's listeners and interval are installed. *)
  ws_mounted : bool;
  (** The browser: every socket made, the pending timers, and the next identifier. *)
  ws_sockets : gmap positive SocketState;
  ws_timers : gmap positive Timer;
  ws_fresh : positive;
  ws_log : list HandlerCall;
}.
#[export] Instance Ws_eta : Eta Ws :=
  fun r => Build_Ws r.(ws_ref) r.(ws_reconnectTimeoutRef) r.(ws_shouldReconnectRef)
    r.(ws_hasConnectedRef) r.(ws_attemptRef) r.(ws_stableTimerRef) r.(ws_mounted) r.(ws_sockets)
    r.(ws_timers) r.(ws_fresh) r.(ws_log).

(** The refs before the mount effect. *)
Definition initial_ws : Ws :=
  {| ws_ref := None; ws_reconnectTimeoutRef := None; ws_shouldReconnectRef := true;
     ws_hasConnectedRef := false; ws_attemptRef := 0; ws_stableTimerRef := None;
     ws_mounted := false; ws_sockets := ∅; ws_timers := ∅; ws_fresh := 1; ws_log := [] |}.

(** [clearTimeout] of a ref's timer, and the ref set to [null]. *)
Definition clear_timer (t : option positive) (timers : gmap positive Timer) : gmap positive Timer :=
  match t with Some id => delete id timers | None => timers end.

Definition clearStableTimer (s : Ws) : Ws :=
  s <| ws_timers := clear_timer s.(ws_stableTimerRef) s.(ws_timers) |>
    <| ws_stableTimerRef := None |>.

Definition clearReconnect (s : Ws) : Ws :=
  s <| ws_timers := clear_timer s.(ws_reconnectTimeoutRef) s.(ws_timers) |>
    <| ws_reconnectTimeoutRef := None |>.

Definition connect (s : Ws) : Ws :=
  s <| ws_ref := Some s.(ws_fresh) |>
    <| ws_sockets := <[s.(ws_fresh) := SockConnecting]> s.(ws_sockets) |>
    <| ws_fresh := Pos.succ s.(ws_fresh) |>.

Definition isCurrent (s : Ws) (ws : positive) : bool := s.(ws_ref) ≟ Some ws.

Definition log_calls (calls : list HandlerCall) (s : Ws) : Ws := s <| ws_log := s.(ws_log) ++ calls |>.

Definition onopen (ws : positive) (s : Ws) : Ws :=
  if negb (isCurrent s ws) then s else
  let s := clearStableTimer s in
  let s := s <| ws_stableTimerRef := Some s.(ws_fresh) |>
             <| ws_timers := <[s.(ws_fresh) := TimerStable]> s.(ws_timers) |>
             <| ws_fresh := Pos.succ s.(ws_fresh) |> in
  let s := clearReconnect s in
  let s := if s.(ws_hasConnectedRef) then log_calls [OnReconnect] s else s in
  s <| ws_hasConnectedRef := true |>.

Definition onclose (ws : positive) (random : num) (s : Ws) : Ws :=
  if negb (isCurrent s ws) then s else
  let s := clearStableTimer s in
  let s := s <| ws_ref := None |> in
  if negb s.(ws_shouldReconnectRef) then s else
  let delay := reconnectDelayMs s.(ws_attemptRef) random in
  let s := s <| ws_timers := clear_timer s.(ws_reconnectTimeoutRef) s.(ws_timers) |> in
  let s := s <| ws_attemptRef := s.(ws_attemptRef) + 1 |> in
  s <| ws_reconnectTimeoutRef := Some s.(ws_fresh) |>
    <| ws_timers := <[s.(ws_fresh) := TimerReconnect delay]> s.(ws_timers) |>
    <| ws_fresh := Pos.succ s.(ws_fresh) |>.

(** The callback of a timer that fires. *)
Definition timer_fired (t : Timer) (s : Ws) : Ws :=
  match t with
  | TimerStable => s <| ws_attemptRef := 0 |>
  | TimerReconnect _ => connect (s <| ws_reconnectTimeoutRef := None |>)
  end.

Definition mount_ws (s : Ws) : Ws :=
  connect (s <| ws_shouldReconnectRef := true |> <| ws_attemptRef := 0 |> <| ws_mounted := true |>).

Definition reconnectNow (s : Ws) : Ws :=
  if negb s.(ws_shouldReconnectRef) || negb (s.(ws_ref) ≟ None) then s
  else connect (clearReconnect s).

(** [setInterval]'s callback. *)
Definition ping (s : Ws) : Ws :=
  match s.(ws_ref) with
  | Some ws => if s.(ws_sockets) !! ws ≟ Some SockOpen then log_calls [SendPing] s else s
  | None => s
  end.

(** [close()] on a socket: its close event comes later. *)
Definition close_socket (ws : option positive) (sockets : gmap positive SocketState)
    : gmap positive SocketState :=
  match ws with
  | Some ws => match sockets !! ws with
               | Some SockClosed | None => sockets
               | Some _ => <[ws := SockClosing]> sockets
               end
  | None => sockets
  end.

Definition unmount_ws (s : Ws) : Ws :=
  let s := s <| ws_shouldReconnectRef := false |> <| ws_mounted := false |> in
  let s := clearStableTimer s in
  let s := clearReconnect s in
  s <| ws_ref := None |> <| ws_sockets := close_socket s.(ws_ref) s.(ws_sockets) |>.

Section parsing.
Context (json_parse : jstr -> option Json).

(** [None]: the envelope is invalid and the function throws. *)
Definition parseWsEvent (raw : jstr) : option ParsedWsEvent :=
  match json_parse raw with
  | Some (Jobject fields) =>
    match om_get fields (js "type") with
    | Some (Jstring type) =>
      let data := om_get fields (js "data") in
      Some (match om_get ws_types type with
            | Some t => KnownWsEvent t data
            | None => UnknownWsEvent type data
            end)
    | _ => None
    end
  | _ => None
  end.

Definition onmessage (ws : positive) (raw : jstr) (s : Ws) : Ws :=
  if negb (isCurrent s ws) then s else
  let s := if negb (s.(ws_attemptRef) =? 0) then clearStableTimer (s <| ws_attemptRef := 0 |>)
           else s in
  match parseWsEvent raw with
  | None => s
  | Some msg =>
    if negb (isDispatchableWsEvent msg) then s else
    match dispatch msg with Some calls => log_calls calls s | None => s end
  end.

(** ** What the browser does *)

Inductive WsEvent :=
| EvMount
| EvUnmount
| EvOpened (ws : positive)
| EvClosed (ws : positive) (random : num)
| EvErrored (ws : positive)
| EvData (ws : positive) (raw : jstr)
| EvTimer (t : positive)
| EvPing
| EvOnline
| EvVisibility (visible : bool).

(** When the browser can raise the event: a connecting socket opens, a socket that is not
    closed closes, an open one delivers, a pending timer fires, and the listeners and the
    interval run while they are installed. *)
Definition enabled (s : Ws) (e : WsEvent) : Prop :=
  match e with
  | EvMount => s.(ws_mounted) = false
  | EvUnmount | EvPing | EvOnline | EvVisibility _ => s.(ws_mounted) = true
  | EvOpened ws => s.(ws_sockets) !! ws = Some SockConnecting
  | EvClosed ws _ =>
    exists st, s.(ws_sockets) !! ws = Some st /\ st <> SockClosed
  | EvErrored ws => is_Some (s.(ws_sockets) !! ws)
  | EvData ws _ => s.(ws_sockets) !! ws = Some SockOpen \/ s.(ws_sockets) !! ws = Some SockClosing
  | EvTimer t => is_Some (s.(ws_timers) !! t)
  end.

Definition handle_ws (s : Ws) (e : WsEvent) : Ws :=
  match e with
  | EvMount => mount_ws s
  | EvUnmount => unmount_ws s
  | EvOpened ws => onopen ws (s <| ws_sockets := <[ws := SockOpen]> s.(ws_sockets) |>)
  | EvClosed ws random => onclose ws random (s <| ws_sockets := <[ws := SockClosed]> s.(ws_sockets) |>)
  | EvErrored ws => s
  | EvData ws raw => onmessage ws raw s
  | EvTimer t =>
    match s.(ws_timers) !! t with
    | Some timer => timer_fired timer (s <| ws_timers := delete t s.(ws_timers) |>)
    | None => s
    end
  | EvPing => ping s
  | EvOnline => reconnectNow s
  | EvVisibility visible => if visible then reconnectNow s else s
  end.

Inductive ws_step : Ws -> Ws -> Prop :=
| ws_step_event s e : enabled s e -> ws_step s (handle_ws s e).
End parsing.
