(* ===== verification/WebSocketProps.v ===== *)
(** The socket hook: one live connection at a time, never stranded while mounted, connected
    again once the server answers, and a handler called exactly by the frames that are for it. *)
From S2P Require Import Prelude JsString JsCollections JsNum Json WebSocket.
From Corelib Require Import SpecFloat.

(** ** Phases *)

(** What the hook is doing, with the timer it waits for or the socket it uses and, once
    connected, the pending timer that proves the link stable. *)
Inductive Phase :=
| Unmounted
| Waiting (t : positive) (delay : jint)
| Connecting (c : positive)
| Connected (c : positive) (stable : option positive).

Definition phase_socket (p : Phase) : option positive :=
  match p with Connecting c | Connected c _ => Some c | _ => None end.

Definition phase_timers (p : Phase) : gmap positive Timer :=
  match p with
  | Waiting t d => {[t := TimerReconnect d]}
  | Connected _ (Some t) => {[t := TimerStable]}
  | _ => ∅
  end.

Definition live (st : SocketState) : Prop := st = SockConnecting \/ st = SockOpen.

Record ws_in (s : Ws) (p : Phase) : Prop := {
  in_mounted : s.(ws_mounted) = match p with Unmounted => false | _ => true end;
  in_should : p <> Unmounted -> s.(ws_shouldReconnectRef) = true;
  in_ref : s.(ws_ref) = phase_socket p;
  in_retry : s.(ws_reconnectTimeoutRef) = match p with Waiting t _ => Some t | _ => None end;
  in_timers : s.(ws_timers) = phase_timers p;
  in_stable : match p with
              | Connected _ None => True
              | Connected _ (Some t) => s.(ws_stableTimerRef) = Some t
              | _ => s.(ws_stableTimerRef) = None
              end;
  in_current : match p with
               | Connecting c => s.(ws_sockets) !! c = Some SockConnecting
               | Connected c _ => s.(ws_sockets) !! c = Some SockOpen
               | _ => True
               end;
  in_others : forall c st, s.(ws_sockets) !! c = Some st -> live st -> s.(ws_ref) = Some c;
  in_fresh : forall c, is_Some (s.(ws_sockets) !! c) -> (c < s.(ws_fresh))%positive;
}.

Section hook.
Context (json_parse : jstr -> option Json).
Notation handle := (handle_ws json_parse).

(** The log is written and never read. *)
Lemma ws_in_log s p calls : ws_in s p -> ws_in (log_calls calls s) p.
Proof. intros []. by constructor. Qed.

Lemma ws_in_connect s :
  s.(ws_mounted) = true -> s.(ws_shouldReconnectRef) = true -> s.(ws_reconnectTimeoutRef) = None ->
  s.(ws_timers) = ∅ -> s.(ws_stableTimerRef) = None ->
  (forall c st, s.(ws_sockets) !! c = Some st -> live st -> False) ->
  (forall c, is_Some (s.(ws_sockets) !! c) -> (c < s.(ws_fresh))%positive) ->
  ws_in (connect s) (Connecting s.(ws_fresh)).
Proof.
  intros Hm Hs Hr Ht Hst Hl Hf. constructor; cbn; try done.
  - by rewrite lookup_insert_eq.
  - intros c st [[<- _]|[_ Hc]]%lookup_insert_Some Hlive; [done|]. by destruct (Hl c st).
  - intros c Hc. destruct (decide (c = ws_fresh s)) as [->|Hne]; [lia|].
    rewrite lookup_insert_ne in Hc by done. specialize (Hf c Hc). lia.
Qed.

Lemma ws_in_not_live s p :
  ws_in s p -> phase_socket p = None ->
  forall c st, s.(ws_sockets) !! c = Some st -> live st -> False.
Proof. intros Hin Hp c st Hc Hl. assert (E := in_others _ _ Hin c st Hc Hl).
  rewrite (in_ref _ _ Hin) in E. congruence. Qed.

(** An event of a socket that is not current changes the socket only. *)
Lemma ws_in_stale s p c st :
  ws_in s p -> phase_socket p <> Some c -> is_Some (s.(ws_sockets) !! c) -> ~ live st ->
  ws_in (s <| ws_sockets := <[c := st]> s.(ws_sockets) |>) p.
Proof.
  intros [? ? Href ? ? ? Hcur Hoth Hf] Hp Hc Hst. constructor; cbn; try done.
  - destruct p; cbn in *; try done; by rewrite lookup_insert_ne by congruence.
  - intros c' st' [[<- <-]|[Hne Hc']]%lookup_insert_Some Hlive; [by destruct Hst|eauto].
  - intros c' [x Hx]. apply lookup_insert_Some in Hx as [[<- _]|[_ Hx]]; eauto.
Qed.

Lemma isCurrent_phase s p c : ws_in s p -> isCurrent s c = bool_decide (phase_socket p = Some c).
Proof. intros Hin. unfold isCurrent. by rewrite (in_ref _ _ Hin). Qed.

Lemma clear_singleton t x : clear_timer (Some t) {[t := x]} = ∅.
Proof. apply delete_singleton_eq. Qed.

(** Splits a state into its fields, with the phase's equations applied. *)
Ltac open_state s Hin :=
  destruct s as [ref retry should connected attempt stableref mounted sockets timers fresh log];
  destruct Hin as [Hm Hs Href Hretry Ht Hst Hcur Hoth Hf]; cbn in *; subst.

Lemma opened_in s p c :
  ws_in s p -> s.(ws_sockets) !! c = Some SockConnecting ->
  p = Connecting c /\ ws_in (handle s (EvOpened c)) (Connected c (Some s.(ws_fresh))).
Proof.
  intros Hin Hc.
  assert (Hp : p = Connecting c).
  { assert (Hr := in_others _ _ Hin c _ Hc (or_introl eq_refl)).
    rewrite (in_ref _ _ Hin) in Hr. assert (Hx := in_current _ _ Hin).
    destruct p; cbn in *; simplify_eq; done. }
  subst p. split; [done|]. open_state s Hin.
  unfold handle_ws, onopen, isCurrent. cbn. rewrite bool_decide_eq_true_2 by done. cbn.
  destruct connected; (constructor; cbn; try done;
    [intros _; by apply Hs
    |by rewrite lookup_insert_eq
    |intros c' st [[<- _]|[_ Hc']]%lookup_insert_Some Hl; [done|eauto]
    |intros c' [x [[<- _]|[_ Hc']]%lookup_insert_Some]; [specialize (Hf c ltac:(eauto))|
      specialize (Hf c' ltac:(eauto))]; lia]).
Qed.

Lemma closed_in s p c r :
  ws_in s p -> is_Some (s.(ws_sockets) !! c) ->
  if decide (phase_socket p = Some c)
  then exists a, s.(ws_attemptRef) = a
       /\ ws_in (handle s (EvClosed c r)) (Waiting s.(ws_fresh) (reconnectDelayMs a r))
       /\ (handle s (EvClosed c r)).(ws_attemptRef) = a + 1
  else ws_in (handle s (EvClosed c r)) p.
Proof.
  intros Hin Hc. case_decide as Hp.
  - eexists. split; [reflexivity|]. assert (Hsh := in_should _ _ Hin).
    assert (Hret : ws_reconnectTimeoutRef s = None) by (rewrite (in_retry _ _ Hin); by destruct p).
    assert (Hclear : clear_timer (ws_stableTimerRef s) (ws_timers s) = ∅).
    { rewrite (in_timers _ _ Hin). assert (Hst := in_stable _ _ Hin).
      destruct p as [| |c0|c0 [t|]]; cbn in *; try done.
      - by rewrite Hst.
      - rewrite Hst. apply clear_singleton.
      - destruct (ws_stableTimerRef s); cbn; [apply delete_empty|done]. }
    assert (Hsh' : ws_shouldReconnectRef s = true) by (apply Hsh; by destruct p).
    assert (Hm' : ws_mounted s = true) by (rewrite (in_mounted _ _ Hin); by destruct p).
    assert (Hoth := in_others _ _ Hin). assert (Hf := in_fresh _ _ Hin).
    rewrite (in_ref _ _ Hin), Hp in Hoth. assert (Hr := in_ref _ _ Hin). rewrite Hp in Hr. clear Hin.
    destruct s as [ref retry should connected attempt stableref mounted sockets timers fresh log].
    cbn in *. subst. unfold handle_ws, onclose, isCurrent. cbn.
    rewrite bool_decide_eq_true_2 by done. cbn. split; [|done].
    constructor; cbn; try done.
    + by rewrite Hclear.
    + intros c' st [[<- <-]|[Hne Hc']]%lookup_insert_Some Hl; [by destruct Hl|].
      specialize (Hoth _ _ Hc' Hl). congruence.
    + intros c' [x [[<- _]|[_ Hc']]%lookup_insert_Some]; [specialize (Hf c Hc)|
        specialize (Hf c' ltac:(eauto))]; lia.
  - unfold handle_ws, onclose. rewrite (isCurrent_phase _ p); [|apply ws_in_stale; try done; by intros []].
    rewrite bool_decide_eq_false_2 by done. cbn. apply ws_in_stale; try done. by intros [].
Qed.

Lemma data_in s p c raw :
  ws_in s p -> ws_in (handle s (EvData c raw)) p
  \/ exists c0 st, p = Connected c0 st /\ ws_in (handle s (EvData c raw)) (Connected c0 None).
Proof.
  intros Hin. unfold handle_ws, onmessage. rewrite (isCurrent_phase _ p) by done.
  destruct (bool_decide (phase_socket p = Some c)) eqn:E; cbn [negb]; [|by left].
  apply bool_decide_eq_true in E.
  assert (Hlog : forall s' q, ws_in s' q ->
    ws_in (match parseWsEvent json_parse raw with
           | None => s'
           | Some msg => if negb (isDispatchableWsEvent msg) then s' else
               match dispatch msg with Some calls => log_calls calls s' | None => s' end
           end) q).
  { intros s' q Hq. destruct (parseWsEvent _ _) as [msg|]; [|done].
    destruct (negb _); [done|]. destruct (dispatch msg); [by apply ws_in_log|done]. }
  destruct (negb (ws_attemptRef s =? 0)); [|left; by apply Hlog].
  destruct p as [| |c0|c0 st]; cbn in E; simplify_eq.
  - left. apply Hlog. open_state s Hin. by constructor.
  - right. exists c, st. split; [done|]. apply Hlog. open_state s Hin.
    constructor; cbn; try done; [intros _; by apply Hs|]. destruct st; [subst; apply clear_singleton|].
    destruct stableref; cbn; [apply delete_empty|done].
Qed.

Lemma timer_in s p t :
  ws_in s p -> is_Some (s.(ws_timers) !! t) ->
  match p with
  | Waiting t' _ => t = t' /\ ws_in (handle s (EvTimer t)) (Connecting s.(ws_fresh))
                    /\ (handle s (EvTimer t)).(ws_attemptRef) = s.(ws_attemptRef)
  | Connected c (Some t') => t = t' /\ ws_in (handle s (EvTimer t)) (Connected c None)
  | _ => False
  end.
Proof.
  intros Hin [x Hx]. rewrite (in_timers _ _ Hin) in Hx.
  destruct p as [|t' d|c|c [t'|]]; cbn in Hx; try (by rewrite lookup_empty in Hx);
    apply lookup_singleton_Some in Hx as [-> <-]; unfold handle_ws;
    rewrite (in_timers _ _ Hin); cbn [phase_timers]; rewrite lookup_singleton_eq; (split; [done|]).
  - cbn [timer_fired]. rewrite delete_singleton_eq. split; [|done].
    assert (Hn := ws_in_not_live _ _ Hin eq_refl). open_state s Hin.
    apply ws_in_connect; try done. by apply Hs.
  - rewrite delete_singleton_eq. open_state s Hin.
    constructor; cbn; try done. intros _. by apply Hs.
Qed.

Lemma mount_in s : ws_in s Unmounted -> ws_in (handle s EvMount) (Connecting s.(ws_fresh)).
Proof.
  intros Hin. assert (Hn := ws_in_not_live _ _ Hin eq_refl). open_state s Hin.
  by apply ws_in_connect.
Qed.

Lemma unmount_in s p : ws_in s p -> ws_in (handle s EvUnmount) Unmounted.
Proof.
  intros Hin. assert (Hclear : clear_timer (ws_reconnectTimeoutRef s)
    (clear_timer (ws_stableTimerRef s) (ws_timers s)) = ∅).
  { rewrite (in_timers _ _ Hin), (in_retry _ _ Hin). assert (Hst := in_stable _ _ Hin).
    destruct p as [|t d|c|c [t|]]; cbn in *; rewrite ?Hst; cbn; try done.
    - apply delete_singleton_eq.
    - apply delete_singleton_eq.
    - destruct (ws_stableTimerRef s); cbn; [apply delete_empty|done]. }
  assert (Hoth := in_others _ _ Hin). assert (Hf := in_fresh _ _ Hin). clear Hin.
  destruct s as [ref retry should connected attempt stableref mounted sockets timers fresh log].
  cbn in *. constructor; cbn; try done.
  - intros c st Hc Hl. exfalso. unfold close_socket in Hc. destruct ref as [c0|].
    + destruct (sockets !! c0) as [[]|] eqn:E;
        try (apply lookup_insert_Some in Hc as [[<- <-]|[Hne Hc]]; [by destruct Hl|];
             specialize (Hoth _ _ Hc Hl); congruence).
      * specialize (Hoth _ _ Hc Hl). assert (c0 = c) by congruence. subst.
        rewrite E in Hc. injection Hc as <-. by destruct Hl.
      * specialize (Hoth _ _ Hc Hl). congruence.
    + by specialize (Hoth _ _ Hc Hl).
  - intros c Hc. apply Hf. unfold close_socket in Hc. destruct ref as [c0|]; [|done].
    destruct (sockets !! c0) as [[]|] eqn:E; try done;
      (destruct (decide (c = c0)) as [->|Hne]; [by rewrite E|by rewrite lookup_insert_ne in Hc]).
Qed.

Lemma retry_in s p :
  ws_in s p ->
  match p with
  | Waiting _ _ => ws_in (reconnectNow s) (Connecting s.(ws_fresh))
  | _ => reconnectNow s = s \/ p = Unmounted
  end.
Proof.
  intros Hin. destruct p as [|t d|c|c st]; [by right| |left..].
  - assert (Hn := ws_in_not_live _ _ Hin eq_refl). open_state s Hin.
    unfold reconnectNow. cbn. rewrite (Hs ltac:(done)). cbn.
    apply ws_in_connect; cbn; try done. apply delete_singleton_eq.
  - unfold reconnectNow. rewrite (in_ref _ _ Hin). cbn. by rewrite orb_true_r.
  - unfold reconnectNow. rewrite (in_ref _ _ Hin). cbn. by rewrite orb_true_r.
Qed.

Lemma ping_in s p : ws_in s p -> ws_in (ping s) p.
Proof.
  intros Hin. unfold ping. destruct (ws_ref s); [|done].
  destruct (_ ≟ _); [by apply ws_in_log|done].
Qed.

(** ** The connection as an automaton *)

Inductive Link := LinkDown | LinkWaiting | LinkConnecting | LinkUp.

Definition phase_link (p : Phase) : Link :=
  match p with
  | Unmounted => LinkDown | Waiting _ _ => LinkWaiting
  | Connecting _ => LinkConnecting | Connected _ _ => LinkUp
  end.

(** The state of the connection, read off the hook. *)
Definition link_of (s : Ws) : Link :=
  if negb s.(ws_mounted) then LinkDown else
  match s.(ws_ref) with
  | None => LinkWaiting
  | Some c => if s.(ws_sockets) !! c ≟ Some SockOpen then LinkUp else LinkConnecting
  end.

(** What an event does to the connection; [current] tells the events of the socket in use
    from those of sockets the hook has left. *)
Definition link_step (current : bool) (e : WsEvent) (l : Link) : Link :=
  match e, l with
  | EvMount, _ => LinkConnecting
  | EvUnmount, _ => LinkDown
  | EvOpened _, LinkConnecting => if current then LinkUp else l
  | EvClosed _ _, (LinkConnecting | LinkUp) => if current then LinkWaiting else l
  | EvTimer _, LinkWaiting | EvOnline, LinkWaiting | EvVisibility true, LinkWaiting => LinkConnecting
  | _, _ => l
  end.

Definition event_current (s : Ws) (e : WsEvent) : bool :=
  match e with
  | EvOpened c | EvClosed c _ | EvErrored c | EvData c _ => isCurrent s c
  | _ => true
  end.

Lemma link_of_phase s p : ws_in s p -> link_of s = phase_link p.
Proof.
  intros Hin. unfold link_of. rewrite (in_mounted _ _ Hin), (in_ref _ _ Hin).
  assert (Hc := in_current _ _ Hin). destruct p; cbn in *; rewrite ?Hc; done.
Qed.

Lemma handle_phase s p e :
  ws_in s p -> enabled s e ->
  exists p', ws_in (handle s e) p' /\ phase_link p' = link_step (event_current s e) e (phase_link p).
Proof.
  intros Hin He. destruct e as [| |c|c r|c|c raw|t| | |visible]; cbn [enabled] in He.
  - rewrite (in_mounted _ _ Hin) in He. destruct p; try done.
    eexists. split; [by apply mount_in|done].
  - eexists. split; [by eapply unmount_in|]. by destruct p.
  - destruct (opened_in s p c Hin He) as [-> Hin']. eexists. split; [exact Hin'|].
    cbn [event_current]. rewrite (isCurrent_phase _ _ c Hin). cbn.
    by rewrite bool_decide_eq_true_2.
  - destruct He as (st & Hst & _). assert (Hc := closed_in s p c r Hin ltac:(eauto)).
    cbn [event_current]. rewrite (isCurrent_phase _ _ c Hin). case_decide as Hp.
    + destruct Hc as (a & _ & Hin' & _). eexists. split; [exact Hin'|].
      rewrite bool_decide_eq_true_2 by done. by destruct p.
    + exists p. split; [done|]. rewrite bool_decide_eq_false_2 by done. by destruct p.
  - exists p. split; [done|]. by destruct p.
  - destruct (data_in s p c raw Hin) as [Hin'|(c0 & st & -> & Hin')].
    + exists p. split; [done|]. by destruct p.
    + eexists. split; [exact Hin'|done].
  - assert (Ht := timer_in s p t Hin He). destruct p as [|t' d|c|c [t'|]]; try done.
    + destruct Ht as (_ & Hin' & _). eexists. split; [exact Hin'|done].
    + destruct Ht as [_ Hin']. eexists. split; [exact Hin'|done].
  - exists p. split; [by apply ping_in|by destruct p].
  - assert (Hr := retry_in s p Hin). cbn [handle_ws]. destruct p as [|t d|c|c st].
    + by rewrite (in_mounted _ _ Hin) in He.
    + eexists. split; [exact Hr|done].
    + destruct Hr as [->|]; [|done]. eexists. split; [exact Hin|done].
    + destruct Hr as [->|]; [|done]. eexists. split; [exact Hin|done].
  - assert (Hr := retry_in s p Hin). cbn [handle_ws]. destruct visible;
      [|exists p; split; [done|by destruct p]]. destruct p as [|t d|c|c st].
    + by rewrite (in_mounted _ _ Hin) in He.
    + eexists. split; [exact Hr|done].
    + destruct Hr as [->|]; [|done]. eexists. split; [exact Hin|done].
    + destruct Hr as [->|]; [|done]. eexists. split; [exact Hin|done].
Qed.

Lemma initial_in : ws_in initial_ws Unmounted.
Proof.
  constructor; try done. intros c [x Hx]. done.
Qed.

Lemma reachable_in s : rtc (ws_step json_parse) initial_ws s -> exists p, ws_in s p.
Proof.
  intros Hr. cut (forall s0, rtc (ws_step json_parse) s0 s -> (exists p, ws_in s0 p) -> exists p, ws_in s p).
  { intros Hcut. apply (Hcut _ Hr). eauto using initial_in. }
  clear Hr. intros s0 Hr. induction Hr as [|s1 s2 s3 [s1' e He] _ IH]; [done|].
  intros [p Hp]. apply IH. destruct (handle_phase _ _ _ Hp He) as (p' & ? & _). eauto.
Qed.

(** ** Getting connected *)

Definition connected (s : Ws) : Prop := link_of s = LinkUp.

(** The event the hook waits for: its retry timer, or the opening of its socket. *)
Definition awaited (s : Ws) : option WsEvent :=
  match s.(ws_ref) with
  | None => EvTimer <$> s.(ws_reconnectTimeoutRef)
  | Some c => if s.(ws_sockets) !! c ≟ Some SockConnecting then Some (EvOpened c) else None
  end.

(** Anything the browser does but losing the socket in use or unmounting the hook. *)
Inductive calm_step (s : Ws) : Ws -> Prop :=
| calm_event e :
  enabled s e -> e <> EvUnmount -> (forall c r, e = EvClosed c r -> isCurrent s c = false) ->
  calm_step s (handle s e).

(** Under fairness: whatever calm events come first, the awaited event can still happen, and
    it brings the hook nearer to [P]. *)
Inductive eventually (P : Ws -> Prop) (s : Ws) : Prop :=
| eventually_now : P s -> eventually P s
| eventually_later :
  (forall s1, rtc calm_step s s1 ->
     P s1 \/ exists e, awaited s1 = Some e /\ enabled s1 e /\ eventually P (handle s1 e)) ->
  eventually P s.

Definition distance (p : Phase) : nat :=
  match p with Unmounted => 3 | Waiting _ _ => 2 | Connecting _ => 1 | Connected _ _ => 0 end.

Lemma calm_phase s p s' :
  ws_in s p -> p <> Unmounted -> calm_step s s' ->
  exists p', ws_in s' p' /\ p' <> Unmounted /\ (distance p' <= distance p)%nat.
Proof.
  intros Hin Hp [e He Hu Hc]. destruct (handle_phase s p e Hin He) as (p' & Hin' & Hl).
  exists p'. split; [done|]. assert (Hmnt : ws_mounted s = true)
    by (rewrite (in_mounted _ _ Hin); by destruct p).
  assert (Hlink : link_step (event_current s e) e (phase_link p) = phase_link p
    \/ (phase_link p = LinkWaiting /\ link_step (event_current s e) e (phase_link p) = LinkConnecting)
    \/ (phase_link p = LinkConnecting /\ link_step (event_current s e) e (phase_link p) = LinkUp)).
  { destruct e as [| |c|c r|c|c raw|t| | |[]]; cbn [link_step event_current]; try done;
      try (by destruct p; auto).
    - cbn in He. congruence.
    - destruct p; cbn; auto. destruct (isCurrent s c); auto.
    - rewrite (Hc c r eq_refl). destruct p; cbn; auto. }
  rewrite <- Hl in Hlink. destruct p, p'; cbn in *; try done; split; try done; try lia;
    destruct Hlink as [|[[]|[]]]; done.
Qed.

Lemma calm_run_phase s p s' :
  rtc calm_step s s' -> ws_in s p -> p <> Unmounted ->
  exists p', ws_in s' p' /\ p' <> Unmounted /\ (distance p' <= distance p)%nat.
Proof.
  intros Hr. revert p. induction Hr as [|s1 s2 s3 Hs _ IH]; intros p Hin Hp; [eauto|].
  destruct (calm_phase s1 p s2 Hin Hp Hs) as (p2 & Hin2 & Hp2 & Hd).
  destruct (IH p2 Hin2 Hp2) as (p3 & Hin3 & Hp3 & Hd'). exists p3. split_and!; [done|done|lia].
Qed.

Lemma eventually_connected n s p :
  ws_in s p -> p <> Unmounted -> (distance p <= n)%nat -> eventually connected s.
Proof.
  revert s p. induction n as [|n IH]; intros s p Hin Hp Hd.
  { apply eventually_now. unfold connected. rewrite (link_of_phase _ _ Hin). destruct p; cbn in Hd; done || lia. }
  apply eventually_later. intros s1 Hr. destruct (calm_run_phase _ _ _ Hr Hin Hp) as (p1 & Hin1 & Hp1 & Hd1).
  unfold connected. rewrite (link_of_phase _ _ Hin1). unfold awaited. rewrite (in_ref _ _ Hin1).
  destruct p1 as [|t d|c|c st]; [done| | |by left]; right.
  - exists (EvTimer t). rewrite (in_retry _ _ Hin1). cbn [phase_socket fmap option_fmap option_map].
    assert (He : is_Some (ws_timers s1 !! t)).
    { rewrite (in_timers _ _ Hin1). cbn. by rewrite lookup_singleton_eq. }
    split; [done|]. split; [exact He|].
    destruct (timer_in s1 _ t Hin1 He) as (_ & Hin2 & _). eapply (IH _ _ Hin2); [done|]. cbn in *. lia.
  - assert (He := in_current _ _ Hin1). cbn in He. cbn [phase_socket]. rewrite He.
    rewrite bool_decide_eq_true_2 by done. exists (EvOpened c). split; [done|]. split; [exact He|].
    destruct (opened_in s1 _ c Hin1 He) as [_ Hin2]. eapply (IH _ _ Hin2); [done|]. cbn in *. lia.
Qed.

(** ** Notifications *)

(** A run of the hook from its start, with the events the browser raised. *)
Inductive ws_run : list WsEvent -> Ws -> Prop :=
| run_start : ws_run [] initial_ws
| run_event es s e : ws_run es s -> enabled s e -> ws_run (es ++ [e]) (handle s e).

Definition is_open (e : WsEvent) : bool := match e with EvOpened _ => true | _ => false end.
Definition is_reconnect (c : HandlerCall) : bool := match c with OnReconnect => true | _ => false end.
Definition count {A} (f : A -> bool) (l : list A) : Z := len (filter (fun x => f x = true) l).

Lemma count_app {A} (f : A -> bool) l k : count f (l ++ k) = count f l + count f k.
Proof. unfold count. by rewrite filter_app, len_app. Qed.

Lemma ws_run_in es s : ws_run es s -> exists p, ws_in s p.
Proof.
  induction 1 as [|es s e _ [p Hin] He]; [eexists; apply initial_in|].
  destruct (handle_phase s p e Hin He) as (p' & ? & _). eauto.
Qed.

Lemma dispatch_no_reconnect msg calls : dispatch msg = Some calls -> count is_reconnect calls = 0.
Proof.
  unfold dispatch. destruct msg as [type data|]; [|by intros [= <-]].
  destruct type; try (by intros [= <-]);
    repeat (lazymatch goal with |- (?x ≫= _) = _ -> _ => destruct x end;
            cbn [mbind option_bind]; [|done]); by intros [= <-].
Qed.

(** An event that is not the opening of a socket notifies nobody of a reconnection. *)
Lemma handle_log s p e :
  ws_in s p -> enabled s e ->
  count is_reconnect (ws_log (handle s e))
  = count is_reconnect (ws_log s) + (if is_open e && s.(ws_hasConnectedRef) then 1 else 0)
  /\ ws_hasConnectedRef (handle s e) = ws_hasConnectedRef s || is_open e.
Proof.
  intros Hin He. rewrite (orb_comm _ (is_open e)).
  destruct e as [| |c|c r|c|c raw|t| | |visible]; cbn [handle_ws is_open andb orb];
    rewrite ?Z.add_0_r; try done.
  - unfold onopen. destruct (opened_in s p c Hin He) as [-> _].
    replace (isCurrent _ c) with true.
    + cbn [negb]. unfold clearStableTimer, clearReconnect, log_calls.
      cbn [ws_hasConnectedRef ws_log set]. destruct (ws_hasConnectedRef s); cbn [ws_log set].
      * rewrite count_app. done.
      * split; [lia|done].
    + symmetry. unfold isCurrent. cbn. rewrite (in_ref _ _ Hin). by apply bool_decide_eq_true_2.
  - unfold onclose. destruct (negb (isCurrent _ c)); [done|]. unfold clearStableTimer.
    cbn [ws_shouldReconnectRef set]. by destruct (negb (ws_shouldReconnectRef s)).
  - unfold onmessage. destruct (negb (isCurrent s c)); [done|].
    assert (Hl : forall s', ws_log s' = ws_log s -> ws_hasConnectedRef s' = ws_hasConnectedRef s ->
      let s'' := match parseWsEvent json_parse raw with
        | None => s'
        | Some msg => if negb (isDispatchableWsEvent msg) then s' else
            match dispatch msg with Some calls => log_calls calls s' | None => s' end
        end in
      count is_reconnect (ws_log s'') = count is_reconnect (ws_log s)
      /\ ws_hasConnectedRef s'' = ws_hasConnectedRef s).
    { intros s' E1 E2. cbv zeta. destruct (parseWsEvent _ _) as [msg|]; [|by rewrite E1].
      destruct (negb _); [by rewrite E1|]. destruct (dispatch msg) as [calls|] eqn:Ed; [|by rewrite E1].
      unfold log_calls. cbn [ws_log ws_hasConnectedRef set]. rewrite count_app, E1, E2.
      rewrite (dispatch_no_reconnect _ _ Ed). split; [lia|done]. }
    by destruct (negb (ws_attemptRef s =? 0)); apply Hl.
  - destruct (ws_timers s !! t) as [[]|]; done.
  - unfold ping. destruct (ws_ref s) as [c|]; [|done]. destruct (_ ≟ _); [|done].
    unfold log_calls. cbn [ws_log ws_hasConnectedRef set]. rewrite count_app.
    change (count is_reconnect [SendPing]) with 0. split; [lia|done].
  - unfold reconnectNow. by destruct (_ || _).
  - destruct visible; [|done]. unfold reconnectNow. by destruct (_ || _).
Qed.

Lemma run_notifications es s :
  ws_run es s ->
  count is_reconnect (ws_log s) = Z.max 0 (count is_open es - 1)
  /\ ws_hasConnectedRef s = (0 <? count is_open es).
Proof.
  induction 1 as [|es s e Hr [IHc IHh] He]; [done|].
  destruct (ws_run_in _ _ Hr) as [p Hin]. destruct (handle_log s p e Hin He) as [-> ->].
  rewrite count_app, IHc, IHh. assert (0 <= count is_open es) by apply len_nonneg.
  assert (Ho : count is_open [e] = if is_open e then 1 else 0).
  { unfold count. rewrite filter_cons. by destruct (is_open e). }
  rewrite Ho. destruct (is_open e); cbn [andb]; rewrite ?orb_true_r, ?orb_false_r.
  - split; [split_cmp; lia|]. symmetry. apply Z.ltb_lt. lia.
  - split; [lia|]. by rewrite Z.add_0_r.
Qed.

(** ** Failing attempts *)

(** The connection attempt fails and its retry timer fires. *)
Definition fail_once (s : Ws) (random : num) : Ws :=
  match s.(ws_ref) with
  | Some c =>
    let s1 := handle s (EvClosed c random) in
    match s1.(ws_reconnectTimeoutRef) with Some t => handle s1 (EvTimer t) | None => s1 end
  | None => s
  end.

Lemma fail_once_in s c r :
  ws_in s (Connecting c) ->
  exists c', ws_in (fail_once s r) (Connecting c')
        /\ (fail_once s r).(ws_attemptRef) = s.(ws_attemptRef) + 1.
Proof.
  intros Hin. unfold fail_once. rewrite (in_ref _ _ Hin). cbn [phase_socket].
  assert (Hc := closed_in s _ c r Hin ltac:(rewrite (in_current _ _ Hin); eauto)).
  rewrite decide_True in Hc by done. destruct Hc as (a & Ha & Hin1 & Hatt).
  cbv zeta. rewrite (in_retry _ _ Hin1).
  assert (Ht : is_Some (ws_timers (handle s (EvClosed c r)) !! ws_fresh s)).
  { rewrite (in_timers _ _ Hin1). cbn. by rewrite lookup_singleton_eq. }
  destruct (timer_in _ _ _ Hin1 Ht) as (_ & Hin2 & Hatt2).
  eexists. split; [exact Hin2|]. rewrite Hatt2, Hatt. lia.
Qed.

Lemma fail_many_in rs s c :
  ws_in s (Connecting c) ->
  exists c', ws_in (foldl fail_once s rs) (Connecting c')
        /\ (foldl fail_once s rs).(ws_attemptRef) = s.(ws_attemptRef) + len rs.
Proof.
  revert s c. induction rs as [|r rs IH]; intros s c Hin; cbn [foldl].
  - exists c. split; [done|]. rewrite len_nil. lia.
  - destruct (fail_once_in s c r Hin) as (c1 & Hin1 & Ha).
    destruct (IH _ _ Hin1) as (c2 & Hin2 & Ha2). exists c2. split; [done|].
    rewrite Ha2, Ha, len_cons. lia.
Qed.

Lemma reconnect_base_spec n :
  0 <= n ->
  reconnect_base n = (if n <? 5 then 1000 * 2 ^ n else 30000)
  /\ 1000 <= reconnect_base n <= 30000.
Proof.
  intros Hn. unfold reconnect_base, RECONNECT_MAX_MS, RECONNECT_BASE_MS.
  destruct (Z.ltb_spec n 5).
  - assert (n = 0 \/ n = 1 \/ n = 2 \/ n = 3 \/ n = 4) as Hc by lia.
    repeat destruct Hc as [->|Hc]; subst; vm_compute; split; congruence || (split; congruence).
  - assert (2 ^ 5 <= 2 ^ Z.min n 10) by (apply Z.pow_le_mono_r; lia). lia.
Qed.

(** ** Properties *)

(** C30: the hook holds one connection: in every reachable state the only socket that is
    connecting or open is the one it uses; while mounted it either uses a socket or waits on
    its retry timer, never both and never neither; no other timer is pending but the one that
    proves an open link stable; and once unmounted no socket is live and no timer pending. *)
Theorem ws_single_connection (s : Ws) (Hreach : rtc (ws_step json_parse) initial_ws s) :
  (forall c st, s.(ws_sockets) !! c = Some st -> live st -> s.(ws_ref) = Some c)
  /\ (forall c, s.(ws_ref) = Some c -> exists st, s.(ws_sockets) !! c = Some st /\ live st)
  /\ (s.(ws_mounted) = true ->
        (s.(ws_ref) = None <-> exists t d, s.(ws_timers) = {[t := TimerReconnect d]}))
  /\ (forall t, s.(ws_timers) !! t = Some TimerStable -> connected s)
  /\ (size s.(ws_timers) <= 1)%nat
  /\ (s.(ws_mounted) = false -> s.(ws_ref) = None /\ s.(ws_timers) = ∅).
Proof.
  destruct (reachable_in s Hreach) as [p Hin]. split; [apply (in_others _ _ Hin)|].
  assert (Hl := link_of_phase _ _ Hin). assert (Hcur := in_current _ _ Hin).
  unfold connected, live. rewrite Hl, (in_ref _ _ Hin), (in_mounted _ _ Hin), (in_timers _ _ Hin).
  destruct p as [|t d|c|c [t|]]; cbn [phase_socket phase_timers phase_link]; split_and!;
    rewrite ?map_size_singleton, ?map_size_empty; try done; try lia;
    try (by intros ? [= <-]; eauto); try (by intros t' Ht%lookup_singleton_Some; destruct Ht).
  - intros _. split; [intros _; by exists t, d|done].
  - intros _. split; [done|]. intros (t & d & E). by apply (f_equal size) in E; rewrite map_size_singleton in E.
  - intros _. split; [done|]. intros (t' & d & E).
    assert (Ht : ({[t := TimerStable]} : gmap positive Timer) !! t = Some TimerStable)
      by apply lookup_singleton_eq.
    rewrite E in Ht. by apply lookup_singleton_Some in Ht as [_ ?].
  - intros _. split; [done|]. intros (t & d & E). by apply (f_equal size) in E; rewrite map_size_singleton in E.
Qed.

(** The hook refines a four-state connection: whatever the browser does, the state read
    off the hook (down, waiting to retry, connecting, up) moves as that automaton does, on the
    events of the socket in use; the late events of sockets it has left move nothing. *)
Theorem ws_refines_link (s : Ws) (e : WsEvent)
    (Hreach : rtc (ws_step json_parse) initial_ws s) (He : enabled s e) :
  link_of initial_ws = LinkDown
  /\ link_of (handle s e) = link_step (event_current s e) e (link_of s).
Proof.
  split; [done|]. destruct (reachable_in s Hreach) as [p Hin].
  destruct (handle_phase s p e Hin He) as (p' & Hin' & Hl).
  by rewrite (link_of_phase _ _ Hin), (link_of_phase _ _ Hin').
Qed.

(** C4: a mounted hook gets connected: from every reachable mounted state, whatever else
    happens short of losing the socket in use or unmounting, the event the hook waits for (its
    retry timer, then the opening of its socket) stays possible, and once those happen the
    connection is up. *)
Theorem ws_eventually_connected (s : Ws) (Hreach : rtc (ws_step json_parse) initial_ws s)
    (Hmounted : s.(ws_mounted) = true) :
  eventually connected s.
Proof.
  destruct (reachable_in s Hreach) as [p Hin]. apply (eventually_connected 2 s p Hin).
  - intros ->. by rewrite (in_mounted _ _ Hin) in Hmounted.
  - rewrite (in_mounted _ _ Hin) in Hmounted. destruct p; cbn; done || lia.
Qed.

(** The application is told of a reconnection at every connection but the first, and at
    nothing else: over any run the handler is called once less than sockets opened. *)
Theorem ws_notifies_reconnections (es : list WsEvent) (s : Ws) (Hrun : ws_run es s) :
  count is_reconnect s.(ws_log) = Z.max 0 (count is_open es - 1).
Proof. apply (run_notifications es s Hrun). Qed.

(** The retries back off: after [n] attempts that failed in a row, counted from the
    attempt counter's value, the next failure arms the retry timer for the jittered delay of
    that attempt; its base doubles from one second and is capped at thirty. *)
Theorem ws_backoff (s : Ws) (rs : list num) (r : num)
    (Hreach : rtc (ws_step json_parse) initial_ws s) (Hlink : link_of s = LinkConnecting) :
  let n := s.(ws_attemptRef) + len rs in
  let s' := foldl fail_once s rs in
  s'.(ws_attemptRef) = n
  /\ (exists c t, s'.(ws_ref) = Some c
        /\ (handle s' (EvClosed c r)).(ws_timers) = {[t := TimerReconnect (reconnectDelayMs n r)]})
  /\ (0 <= n -> reconnect_base n = (if n <? 5 then 1000 * 2 ^ n else 30000)
                /\ 1000 <= reconnect_base n <= 30000).
Proof.
  intros n s'. destruct (reachable_in s Hreach) as [p Hin].
  rewrite (link_of_phase _ _ Hin) in Hlink. destruct p as [| |c|]; try done.
  destruct (fail_many_in rs s c Hin) as (c' & Hin' & Ha). fold s' in Hin', Ha.
  split; [exact Ha|]. split; [|apply reconnect_base_spec]. exists c'.
  assert (Hc := closed_in s' _ c' r Hin' ltac:(rewrite (in_current _ _ Hin'); eauto)).
  rewrite decide_True in Hc by done. destruct Hc as (a & Hatt & Hin1 & _).
  eexists. split; [apply (in_ref _ _ Hin')|]. rewrite (in_timers _ _ Hin1). cbn [phase_timers].
  by rewrite <- Hatt, Ha.
Qed.

(** *** Typed dispatch *)

(** The name of a type on the wire. *)
Definition wire_name (t : WsType) : jstr :=
  match t with
  | THealth => js "health" | TMessage => js "message" | TContact => js "contact"
  | TContactResolved => js "contact_resolved" | TChannel => js "channel"
  | TContactDeleted => js "contact_deleted" | TChannelDeleted => js "channel_deleted"
  | TRawPacket => js "raw_packet" | TCommunityPacket => js "community_packet"
  | TCommunityLive => js "community_live" | TMessageAcked => js "message_acked"
  | TMessageDeleted => js "message_deleted" | TRadioWifi => js "radio_wifi"
  | TError => js "error" | TSuccess => js "success" | TPong => js "pong"
  end.

Lemma ws_types_name type t : om_get ws_types type = Some t <-> type = wire_name t.
Proof.
  split; [|intros ->; destruct t; vm_compute; reflexivity].
  intros H%om_get_Some_elem. unfold ws_types in H.
  repeat (apply elem_of_cons in H as [H|H]; [injection H as -> ->; reflexivity|]). by apply not_elem_of_nil in H.
Qed.

(** The optional fields of an acknowledgement, [undefined] when the frame has neither. *)
Definition ack_extras (f : list (jstr * Json)) : option (option Json * option Json) :=
  match om_get f (js "packet_hash"), om_get f (js "observer_reach_eligible") with
  | None, None => None
  | _, _ => Some (om_get f (js "packet_hash"), om_get f (js "observer_reach_eligible"))
  end.

(** What a frame of this type and with these [data] must hold for a handler to be called, and the
    call. The payloads of [health], [channel] and [raw_packet] are handed on unchecked. *)
Inductive call_for : WsType -> option Json -> HandlerCall -> Prop :=
| for_health data : call_for THealth data (OnHealth data)
| for_channel data : call_for TChannel data (OnChannel data)
| for_raw_packet data : call_for TRawPacket data (OnRawPacket data)
| for_message f : call_for TMessage (Some (Jobject f)) (OnMessage (Some (Jobject f)))
| for_community_packet f : call_for TCommunityPacket (Some (Jobject f)) (OnCommunityPacket (Some (Jobject f)))
| for_community_live f : call_for TCommunityLive (Some (Jobject f)) (OnCommunityLive (Some (Jobject f)))
| for_contact f key : om_get f (js "public_key") = Some (Jstring key) ->
    call_for TContact (Some (Jobject f)) (OnContact (Some (Jobject f)))
| for_contact_resolved f previous contact :
    om_get f (js "previous_public_key") = Some (Jstring previous) -> om_get f (js "contact") = Some (Jobject contact) ->
    call_for TContactResolved (Some (Jobject f)) (OnContactResolved (Some (Jstring previous)) (Some (Jobject contact)))
| for_contact_deleted f key : om_get f (js "public_key") = Some (Jstring key) ->
    call_for TContactDeleted (Some (Jobject f)) (OnContactDeleted (Some (Jstring key)))
| for_channel_deleted f key : om_get f (js "key") = Some (Jstring key) ->
    call_for TChannelDeleted (Some (Jobject f)) (OnChannelDeleted (Some (Jstring key)))
| for_acked f id count : om_get f (js "message_id") = Some (Jnumber id) -> om_get f (js "ack_count") = Some (Jnumber count) ->
    call_for TMessageAcked (Some (Jobject f))
      (OnMessageAcked (Some (Jnumber id)) (Some (Jnumber count)) (om_get f (js "paths")) (om_get f (js "packet_id"))
         (ack_extras f))
| for_message_deleted f id : om_get f (js "message_id") = Some (Jnumber id) ->
    call_for TMessageDeleted (Some (Jobject f)) (OnMessageDeleted (Some (Jnumber id)))
| for_radio_wifi f check : om_get f (js "check") = Some (Jstring check) ->
    call_for TRadioWifi (Some (Jobject f)) (OnRadioWifi (Some (Jobject f)))
| for_error f text : om_get f (js "message") = Some (Jstring text) ->
    call_for TError (Some (Jobject f)) (OnError (Some (Jobject f)))
| for_success f text : om_get f (js "message") = Some (Jstring text) ->
    call_for TSuccess (Some (Jobject f)) (OnSuccess (Some (Jobject f))).

Lemma is_string_true v : is_string v = true -> exists s, v = Some (Some (Jstring s)).
Proof. destruct v as [[[]|]|]; try done. eauto. Qed.
Lemma is_number_true v : is_number v = true -> exists x, v = Some (Some (Jnumber x)).
Proof. destruct v as [[[]|]|]; try done. eauto. Qed.
Lemma isRecord_true v : isRecord v = true -> exists f, v = Some (Jobject f).
Proof. destruct v as [[]|]; try done. eauto. Qed.

(** Turns the guard's tests into the shapes they decide. *)
Ltac shapes :=
  repeat match goal with
  | H : _ && _ = true |- _ => apply andb_true_iff in H as [? ?]
  | H : isRecord _ = true |- _ => apply isRecord_true in H as [? ?]
  | H : is_string _ = true |- _ => apply is_string_true in H as [? ?]
  | H : is_number _ = true |- _ => apply is_number_true in H as [? ?]
  end.

(** An event that passes the check calls the one handler it is for, or, a [pong], none. *)
Lemma dispatch_calls t data :
  isDispatchableWsEvent (KnownWsEvent t data) = true ->
  (t = TPong /\ dispatch (KnownWsEvent t data) = Some [])
  \/ exists call, dispatch (KnownWsEvent t data) = Some [call] /\ call_for t data call.
Proof.
  unfold isDispatchableWsEvent, dispatch. destruct t; intros Hd; [right..|by left]; shapes; subst; cbn [field] in *;
    simplify_eq; cbn [mbind option_bind];
    (eexists; split; [reflexivity|]); unfold default, from_option, Datatypes.id in *;
    repeat match goal with H : om_get _ _ = Some _ |- _ => rewrite ?H; revert H end;
    intros; try by econstructor.
Qed.

Lemma call_for_checked t data call :
  call_for t data call -> isDispatchableWsEvent (KnownWsEvent t data) = true /\ t <> TPong.
Proof.
  intros H. split; [|by destruct H]. destruct H; try done; unfold isDispatchableWsEvent; cbn [field isRecord andb];
    by repeat match goal with E : om_get _ _ = _ |- _ => rewrite E; clear E end.
Qed.

Lemma call_for_one t data c1 c2 : call_for t data c1 -> call_for t data c2 -> c1 = c2.
Proof. intros []; inversion 1; subst; congruence. Qed.

(** The frame is JSON in an envelope, and this is the call it is for. *)
Definition frame_asks (raw : jstr) (call : HandlerCall) : Prop :=
  exists fields t, json_parse raw = Some (Jobject fields)
    /\ om_get fields (js "type") = Some (Jstring (wire_name t)) /\ call_for t (om_get fields (js "data")) call.

Lemma frame_asks_parsed raw call :
  frame_asks raw call <->
  exists t data, parseWsEvent json_parse raw = Some (KnownWsEvent t data) /\ call_for t data call.
Proof.
  unfold frame_asks, parseWsEvent. split.
  - intros (fields & t & -> & -> & Hc). exists t, (om_get fields (js "data")).
    by rewrite (proj2 (ws_types_name _ t) eq_refl).
  - intros (t & data & Hp & Hc). destruct (json_parse raw) as [[]|]; try done.
    destruct (om_get fields (js "type")) as [[]|] eqn:Ht; try done.
    destruct (om_get ws_types s) as [t'|] eqn:E; [|done]. injection Hp as -> <-. apply ws_types_name in E as ->.
    by exists fields, t.
Qed.

(** The calls of a frame on the current socket. *)
Lemma frame_calls raw :
  match parseWsEvent json_parse raw with
  | Some msg => if isDispatchableWsEvent msg
                then exists calls, dispatch msg = Some calls /\ len calls <= 1 /\ forall call, call ∈ calls <-> frame_asks raw call
                else forall call, ~ frame_asks raw call
  | None => forall call, ~ frame_asks raw call
  end.
Proof.
  destruct (parseWsEvent json_parse raw) as [[t data|type data]|] eqn:Hp.
  - destruct (isDispatchableWsEvent (KnownWsEvent t data)) eqn:Hd.
    + destruct (dispatch_calls t data Hd) as [[-> ->]|(c & -> & Hc)]; (eexists; split; [reflexivity|]);
        (split; [done|]); intros call; rewrite frame_asks_parsed, Hp.
      * split; [by intros ?%not_elem_of_nil|]. intros (t & d & [= <- <-] & H). by destruct (call_for_checked _ _ _ H).
      * rewrite list_elem_of_singleton. split; [intros ->; by exists t, data|].
        intros (t' & d' & [= <- <-] & H). by eapply call_for_one.
    + intros call. rewrite frame_asks_parsed, Hp. intros (t' & d' & [= <- <-] & H).
      destruct (call_for_checked _ _ _ H). congruence.
  - exists []. split; [done|]. split; [done|]. intros call. rewrite frame_asks_parsed, Hp.
    split; [by intros ?%not_elem_of_nil|]. by intros (? & ? & ? & _).
  - intros call. rewrite frame_asks_parsed, Hp. by intros (? & ? & ? & _).
Qed.

(** C22: a frame makes at most one handler call, and it makes exactly the call its JSON is for: the
    socket is the current one, the frame is an object whose [type] names the handler, and its
    [data] have the fields and types [call_for] lists for that type; the handler gets these very
    data, or the fields it takes, unchanged. The data of [health], [channel] and [raw_packet]
    frames are handed on as they came, unchecked. Every other frame calls nothing, and on events
    that pass the check reading the fields never throws. *)
Theorem onmessage_typed (s : Ws) (c : positive) (raw : jstr) :
  (exists calls, (onmessage json_parse c raw s).(ws_log) = s.(ws_log) ++ calls /\ len calls <= 1
     /\ forall call, call ∈ calls <-> s.(ws_ref) = Some c /\ frame_asks raw call)
  /\ (forall msg, isDispatchableWsEvent msg = true -> is_Some (dispatch msg)).
Proof.
  split.
  - unfold onmessage, isCurrent. destruct (decide (s.(ws_ref) = Some c)) as [Hc|Hc]; cycle 1.
    { rewrite bool_decide_false by done. exists []. rewrite app_nil_r. split_and!; [done..|]. intros call.
      split; [by intros ?%not_elem_of_nil|tauto]. }
    rewrite bool_decide_true by done. cbn [negb]. set (s1 := if negb (ws_attemptRef s =? 0) then _ else _).
    assert (Hs : s1.(ws_log) = s.(ws_log)) by (subst s1; by destruct (negb _)). pose proof (frame_calls raw) as Hf.
    assert (Hnone : (forall call, ~ frame_asks raw call) -> exists calls, s1.(ws_log) = s.(ws_log) ++ calls /\ len calls <= 1
      /\ forall call, call ∈ calls <-> s.(ws_ref) = Some c /\ frame_asks raw call).
    { intros Hn. exists []. rewrite app_nil_r. split_and!; [done..|]. intros call.
      split; [by intros ?%not_elem_of_nil|]. intros [_ H]. by destruct (Hn call). }
    destruct (parseWsEvent json_parse raw) as [msg|]; [|by apply Hnone].
    destruct (isDispatchableWsEvent msg); cbn [negb]; [|by apply Hnone].
    destruct Hf as (calls & -> & Hl & Hcalls). exists calls. cbn. rewrite Hs. split_and!; [done..|].
    intros call. rewrite Hcalls. tauto.
  - intros [t data|type data] Hd; [|by eexists].
    destruct (dispatch_calls t data Hd) as [[_ ->]|(call & -> & _)]; by eexists.
Qed.
End hook.

(** ** Witnesses *)

(** A parser that knows the frame ["{}"] and refuses the rest. *)
Definition example_parse (raw : jstr) : option Json :=
  if raw ≟ js "{}" then Some (Jobject []) else None.

Notation example_run := (foldl (handle_ws example_parse) initial_ws).

Definition mounted_ws : Ws := example_run [EvMount].
Definition retrying_ws : Ws := example_run [EvMount; EvClosed 1 (S754_zero false)].

Lemma mounted_reachable : rtc (ws_step example_parse) initial_ws mounted_ws.
Proof. apply rtc_once. apply (ws_step_event example_parse initial_ws EvMount). done. Qed.

Lemma retrying_reachable : rtc (ws_step example_parse) initial_ws retrying_ws.
Proof.
  eapply rtc_r; [apply mounted_reachable|].
  apply (ws_step_event example_parse mounted_ws (EvClosed 1 (S754_zero false))).
  exists SockConnecting. split; [by vm_compute|done].
Qed.

Lemma ws_single_connection_witness :
  (size retrying_ws.(ws_timers) <= 1)%nat /\ retrying_ws.(ws_ref) = None.
Proof.
  split; [|by vm_compute].
  exact (proj1 (proj2 (proj2 (proj2 (proj2 (ws_single_connection example_parse retrying_ws
    retrying_reachable)))))).
Defined.

Lemma ws_refines_link_witness :
  link_of retrying_ws = LinkWaiting
  /\ link_of (handle_ws example_parse retrying_ws EvOnline) = LinkConnecting.
Proof.
  split; [by vm_compute|].
  rewrite (proj2 (ws_refines_link example_parse retrying_ws EvOnline retrying_reachable eq_refl)).
  by vm_compute.
Defined.

Lemma ws_eventually_connected_witness :
  retrying_ws.(ws_ref) = None /\ eventually example_parse connected retrying_ws.
Proof.
  split; [by vm_compute|].
  exact (ws_eventually_connected example_parse retrying_ws retrying_reachable eq_refl).
Defined.

Lemma ws_notifies_reconnections_witness :
  count is_reconnect
    (example_run [EvMount; EvOpened 1; EvClosed 1 (S754_zero false); EvOnline; EvOpened 4]).(ws_log)
  = 1.
Proof.
  assert (Hrun : ws_run example_parse
    [EvMount; EvOpened 1; EvClosed 1 (S754_zero false); EvOnline; EvOpened 4]
    (example_run [EvMount; EvOpened 1; EvClosed 1 (S754_zero false); EvOnline; EvOpened 4])).
  { apply (run_event example_parse [EvMount; EvOpened 1; EvClosed 1 (S754_zero false); EvOnline]);
      [|by vm_compute].
    apply (run_event example_parse [EvMount; EvOpened 1; EvClosed 1 (S754_zero false)]);
      [|by vm_compute].
    apply (run_event example_parse [EvMount; EvOpened 1]);
      [|exists SockOpen; split; [by vm_compute|done]].
    apply (run_event example_parse [EvMount]); [|by vm_compute].
    apply (run_event example_parse []); [constructor|by vm_compute]. }
  rewrite (ws_notifies_reconnections example_parse _ _ Hrun). by vm_compute.
Defined.

Lemma ws_backoff_witness :
  (foldl (fail_once example_parse) mounted_ws [S754_zero false; S754_zero false]).(ws_attemptRef) = 2
  /\ reconnectDelayMs 2 (S754_zero false) = JInt 3000.
Proof.
  split; [|by vm_compute].
  exact (proj1 (ws_backoff example_parse mounted_ws [S754_zero false; S754_zero false]
    (S754_zero false) mounted_reachable ltac:(by vm_compute))).
Defined.
