(* ===== verification/Directory.v ===== *)
(** The lists of contacts and channels: display names ([utils/pubkey.ts]), the Public channel
    ([utils/publicChannel.ts]), the updates of a list by one row ([utils/contactMerge.ts] and
    [mergeChannelIntoList]) and by a reloaded snapshot ([mergeSnapshot] of
    [hooks/useRealtimeAppState.ts]). *)
From S2P Require Import Prelude JsString JsCollections JsNum Types.

(** ** Names and keys *)

Definition PUBKEY_PREFIX_LENGTH : Z := 12.

Definition getPubkeyPrefix (key : jstr) : jstr := slice key 0 PUBKEY_PREFIX_LENGTH.

(** [!n] for a nullable number. *)
Definition falsy (n : option Z) : bool := default 0 n =? 0.

Definition isUnknownFullKeyContact (pubkey : jstr) (lastAdvert : option Z) : bool :=
  (len pubkey =? 64) && falsy lastAdvert.

Definition isPrefixOnlyContact (pubkey : jstr) : bool := len pubkey <? 64.

Definition getContactDisplayName (name : option jstr) (pubkey : jstr) (lastAdvert : option Z) : jstr :=
  match truthy name with
  | Some name => name
  | None =>
    if isUnknownFullKeyContact pubkey lastAdvert then js "[unknown sender]"
    else getPubkeyPrefix pubkey
  end.

Definition PUBLIC_CHANNEL_KEY : jstr := js "8B3387E9C5CDEA6AC9E5EDBAA115CD72".
Definition PUBLIC_CHANNEL_NAME : jstr := js "Public".

Definition isPublicChannelKey (key : jstr) : bool := toUpperCase key ≟ PUBLIC_CHANNEL_KEY.

Definition findPublicChannel (channels : list Channel) : option Channel :=
  array_find (fun channel => isPublicChannelKey channel.(ch_key)) channels.

(** ** One row *)

(** The optional fields of a contact, which an incoming object may lack. *)
Inductive OptionalField :=
| FDirectPathUpdatedAt | FRouteOverridePath | FRouteOverrideLen | FRouteOverrideHashMode
| FEffectiveRoute | FEffectiveRouteSource | FDirectRoute | FRouteOverride | FPinned.

(** A contact as it arrives, with the optional fields its object has. *)
Record IncomingContact := {
  in_contact : Contact;
  in_has : OptionalField -> bool;
}.

(** [{ ...existing, ...incoming }] *)
Definition spread_contact (existing : Contact) (incoming : IncomingContact) : Contact :=
  let n := incoming.(in_contact) in
  let has := incoming.(in_has) in
  {| c_public_key := n.(c_public_key); c_name := n.(c_name); c_type := n.(c_type);
     c_flags := n.(c_flags); c_direct_path := n.(c_direct_path);
     c_direct_path_len := n.(c_direct_path_len);
     c_direct_path_hash_mode := n.(c_direct_path_hash_mode);
     c_direct_path_updated_at :=
       if has FDirectPathUpdatedAt then n.(c_direct_path_updated_at)
       else existing.(c_direct_path_updated_at);
     c_route_override_path :=
       if has FRouteOverridePath then n.(c_route_override_path)
       else existing.(c_route_override_path);
     c_route_override_len :=
       if has FRouteOverrideLen then n.(c_route_override_len) else existing.(c_route_override_len);
     c_route_override_hash_mode :=
       if has FRouteOverrideHashMode then n.(c_route_override_hash_mode)
       else existing.(c_route_override_hash_mode);
     c_effective_route :=
       if has FEffectiveRoute then n.(c_effective_route) else existing.(c_effective_route);
     c_effective_route_source :=
       if has FEffectiveRouteSource then n.(c_effective_route_source)
       else existing.(c_effective_route_source);
     c_direct_route := if has FDirectRoute then n.(c_direct_route) else existing.(c_direct_route);
     c_route_override :=
       if has FRouteOverride then n.(c_route_override) else existing.(c_route_override);
     c_last_advert := n.(c_last_advert); c_lat := n.(c_lat); c_lon := n.(c_lon);
     c_last_seen := n.(c_last_seen); c_on_radio := n.(c_on_radio); c_favorite := n.(c_favorite);
     c_pinned := if has FPinned then n.(c_pinned) else existing.(c_pinned);
     c_last_contacted := n.(c_last_contacted); c_last_read_at := n.(c_last_read_at);
     c_first_seen := n.(c_first_seen) |}.

(** [a === b] on nullable numbers, where the two zeros are equal and [NaN] is not. *)
Definition same_num (a b : option num) : bool :=
  match a, b with
  | Some a, Some b => num_eq a b
  | None, None => true
  | _, _ => false
  end.

(** Objects are compared by identity: an incoming one is never the existing one. *)
Definition same_object {A} (incoming : bool) (merged : option A) : bool :=
  match merged with Some _ => negb incoming | None => true end.

(** [unchanged]: every field of the merged row is strictly equal to that of the existing one.
    [undefined] and [null] are not told apart. *)
Definition contact_unchanged (existing merged : Contact) (has : OptionalField -> bool) : bool :=
  (existing.(c_public_key) ≟ merged.(c_public_key)) && (existing.(c_name) ≟ merged.(c_name))
  && (existing.(c_type) =? merged.(c_type)) && (existing.(c_flags) =? merged.(c_flags))
  && (existing.(c_direct_path) ≟ merged.(c_direct_path))
  && (existing.(c_direct_path_len) =? merged.(c_direct_path_len))
  && (existing.(c_direct_path_hash_mode) =? merged.(c_direct_path_hash_mode))
  && (existing.(c_direct_path_updated_at) ≟ merged.(c_direct_path_updated_at))
  && (existing.(c_route_override_path) ≟ merged.(c_route_override_path))
  && (existing.(c_route_override_len) ≟ merged.(c_route_override_len))
  && (existing.(c_route_override_hash_mode) ≟ merged.(c_route_override_hash_mode))
  && ((existing.(c_effective_route) ≟ None) ≟ (merged.(c_effective_route) ≟ None))
  && same_object (has FEffectiveRoute) merged.(c_effective_route)
  && (existing.(c_effective_route_source) ≟ merged.(c_effective_route_source))
  && ((existing.(c_direct_route) ≟ None) ≟ (merged.(c_direct_route) ≟ None))
  && same_object (has FDirectRoute) merged.(c_direct_route)
  && ((existing.(c_route_override) ≟ None) ≟ (merged.(c_route_override) ≟ None))
  && same_object (has FRouteOverride) merged.(c_route_override)
  && (existing.(c_last_advert) ≟ merged.(c_last_advert))
  && same_num existing.(c_lat) merged.(c_lat) && same_num existing.(c_lon) merged.(c_lon)
  && (existing.(c_last_seen) ≟ merged.(c_last_seen))
  && eqb existing.(c_on_radio) merged.(c_on_radio) && eqb existing.(c_favorite) merged.(c_favorite)
  && (existing.(c_pinned) ≟ merged.(c_pinned))
  && (existing.(c_last_contacted) ≟ merged.(c_last_contacted))
  && (existing.(c_last_read_at) ≟ merged.(c_last_read_at))
  && (existing.(c_first_seen) ≟ merged.(c_first_seen)).

(** [findIndex]; [None] is -1. *)
Fixpoint find_index {A} (p : A -> bool) (l : list A) : option nat :=
  match l with
  | [] => None
  | x :: l => if p x then Some 0%nat else S <$> find_index p l
  end.

(** [None] when [contacts] itself is returned. *)
Definition mergeContactIntoList (contacts : list Contact) (incoming : IncomingContact)
    : option (list Contact) :=
  let key := incoming.(in_contact).(c_public_key) in
  match find_index (fun c => c.(c_public_key) ≟ key) contacts with
  | Some idx =>
    match contacts !! idx with
    | Some existing =>
      let merged := spread_contact existing incoming in
      if contact_unchanged existing merged incoming.(in_has) then None
      else Some (<[idx := merged]> contacts)
    | None => None
    end
  | None => Some (contacts ++ [incoming.(in_contact)])
  end.

(** ** A snapshot *)

(** [new Map(items.map((item) => [keyOf(item), item]))] *)
Definition by_key_map {T} (keyOf : T -> jstr) (items : list T) : gmap jstr T :=
  foldl (fun m item => <[keyOf item := item]> m) ∅ items.

Definition mergeSnapshot {T} (snapshot live : list T) (touched : list jstr) (keyOf : T -> jstr)
    : list T :=
  if len touched =? 0 then snapshot else
  let liveByKey := by_key_map keyOf live in
  let seen := keyOf <$> snapshot in
  let merged :=
    foldl (fun merged item =>
      let key := keyOf item in
      if negb (bool_decide (key ∈ touched)) then merged ++ [item] else
      match liveByKey !! key with Some current => merged ++ [current] | None => merged end)
      [] snapshot in
  foldl (fun merged key =>
    match liveByKey !! key with
    | Some current => if bool_decide (key ∈ seen) then merged else merged ++ [current]
    | None => merged
    end) merged touched.

Section channels.
Context (localeCompare : jstr -> jstr -> comparison).

Definition mergeChannelIntoList (updated : Channel) (prev : list Channel) : list Channel :=
  match find_index (fun channel => channel.(ch_key) ≟ updated.(ch_key)) prev with
  | None => js_sort (fun a b => localeCompare a.(ch_name) b.(ch_name)) (prev ++ [updated])
  | Some existingIndex => <[existingIndex := updated]> prev
  end.
End channels.
