(* ===== verification/RealtimeApp.v ===== *)
(** The application on the socket: the handlers of [hooks/useRealtimeAppState.ts], which compose
    the conversation hook, the unread counters, the packet store and the lists of contacts and
    channels; the window of [utils/resendWindow.ts]; and the fall-back of
    [hooks/useConversationRouter.ts] when the open conversation is deleted.

    The state is what the hooks share. A handler runs, then React renders and commits: the
    active conversation it set reaches the conversation hook and the counters
    ([commit_app]). Toasts and requests are logged as effects. *)
From S2P Require Import Prelude JsString JsCollections JsNum Types MessageCache.
From S2P Require Import ConversationHook.
From S2P Require Import UnreadState.
From S2P Require Import Visualizer RawPacketStats RawPacketStore Directory.

(** ** Health *)

Inductive RadioState :=
| RsConnected | RsInitializing | RsRebooting | RsConnecting | RsDisconnected | RsPaused
| RsIdentityMismatch | RsIdentityUnboundLegacy.
#[export] Instance RadioState_eq_dec : EqDecision RadioState.
Proof. solve_decision. Defined.

Inductive RadioRebootReason := ClockSync | WifiConfig.
#[export] Instance RadioRebootReason_eq_dec : EqDecision RadioRebootReason.
Proof. solve_decision. Defined.

(** The fields of a health report that the handler reads. *)
Record HealthStatus := {
  hs_radio_connected : bool;
  hs_radio_initializing : bool;
  hs_radio_state : option RadioState;
  hs_reboot_reason : option RadioRebootReason;
  hs_connection_info : option jstr;
}.

(** ** Live sightings ([resendWindow.ts]) *)

Definition LIVE_SIGHTING_RETENTION_MS : Z := 10 * 60 * 1000.

Definition pruneLiveSightings (nowMs : Z) (seen : gmap Z Z) : gmap Z Z :=
  filter (fun p : Z * Z => nowMs - p.2 <= LIVE_SIGHTING_RETENTION_MS) seen.

Definition noteLiveOutgoingChannelMessage (msg : Message) (atMs : Z) (seen : gmap Z Z) : gmap Z Z :=
  match msg.(m_outgoing), msg.(m_type) with
  | true, CHAN =>
    pruneLiveSightings atMs
      (match seen !! msg.(m_id) with
       | Some previous => if atMs <? previous then <[msg.(m_id) := atMs]> seen else seen
       | None => <[msg.(m_id) := atMs]> seen
       end)
  | _, _ => seen
  end.

(** ** State *)

(** A reconnect snapshot in flight: the keys touched meanwhile, in the order they were added,
    and which of its two replies it still waits for. *)
Record SnapshotTracker := {
  tr_contacts : list jstr;
  tr_channels : list jstr;
  tr_contactsPending : bool;
  tr_channelsPending : bool;
}.
#[export] Instance SnapshotTracker_eta : Eta SnapshotTracker := fun t =>
  Build_SnapshotTracker t.(tr_contacts) t.(tr_channels) t.(tr_contactsPending)
    t.(tr_channelsPending).

Inductive Effect :=
| FetchConfig
| FetchChannels (generation : Z)
| FetchContacts (generation : Z)
| RefreshCommunityStatus
| RefreshRadioWifi
| EmitStatusDotPulse (payload_type : jstr)
| ToastRadioConnected (via : option jstr)
| ToastRadioPaused
| ToastRadioRebooting (wifiConfig : bool)
| ToastRadioDisconnected
| ToastDiscovered (channel : Channel).

Record App := {
  app_hook : Hook;
  app_unread : Unread;
  app_store : Store;
  app_contacts : list Contact;
  app_channels : list Channel;
  (** [activeConversation] and [activeConversationRef] after a commit. *)
  app_active : option Conversation;
  (** The argument of [setActiveConversation], until React renders. *)
  app_next : option (option Conversation);
  app_pendingDeleteFallback : bool;
  app_hasSetDefaultConversation : bool;
  app_reconnectGeneration : Z;
  (** [activeSnapshotsRef], by the generation that opened them. *)
  app_activeSnapshots : gmap Z SnapshotTracker;
  app_blockedKeys : list jstr;
  app_blockedNames : list jstr;
  app_liveSightings : gmap Z Z;
  app_prevHealth : option HealthStatus;
  app_effects : list Effect;
}.
#[export] Instance App_eta : Eta App := fun s =>
  Build_App s.(app_hook) s.(app_unread) s.(app_store) s.(app_contacts) s.(app_channels)
    s.(app_active) s.(app_next) s.(app_pendingDeleteFallback) s.(app_hasSetDefaultConversation)
    s.(app_reconnectGeneration) s.(app_activeSnapshots) s.(app_blockedKeys)
    s.(app_blockedNames) s.(app_liveSightings) s.(app_prevHealth) s.(app_effects).

Definition effects (l : list Effect) (s : App) : App := s <| app_effects := s.(app_effects) ++ l |>.

(** ** Rendering *)

Definition setActiveConversation (conv : option Conversation) (s : App) : App :=
  s <| app_next := Some conv |>.

(** The render with the conversation that was set, and its commit. *)
Definition render_next (s : App) : App :=
  match s.(app_next) with
  | None => s
  | Some conv =>
    s <| app_active := conv |> <| app_next := None |>
      <| app_hook := ConversationHook.handle s.(app_hook)
                       (EvRender conv s.(app_hook).(hk_targetMessageId)) |>
      <| app_unread := open_conversation conv s.(app_unread) |>
  end.

Definition channel_conversation_of (channel : Channel) : Conversation :=
  {| cv_type := CtChannel; cv_id := channel.(ch_key); cv_name := channel.(ch_name);
     cv_mapFocusKey := None; cv_locateKey := None |}.

(** The router's effect that recovers to Public. It depends on the active conversation and the
    channels; after a commit that changed neither it has nothing left to do. *)
Definition delete_fallback (s : App) : App :=
  if negb s.(app_pendingDeleteFallback) then s else
  match s.(app_active) with
  | Some _ => s <| app_pendingDeleteFallback := false |>
  | None =>
    match findPublicChannel s.(app_channels) with
    | None => s
    | Some publicChannel =>
      setActiveConversation (Some (channel_conversation_of publicChannel))
        (s <| app_hasSetDefaultConversation := true |> <| app_pendingDeleteFallback := false |>)
    end
  end.

Definition commit_app (s : App) : App :=
  let s := s <| app_unread :=
                  observe_lengths (len s.(app_channels), len s.(app_contacts)) s.(app_unread) |> in
  render_next (delete_fallback (render_next s)).

(** ** Snapshots *)

Definition add_key (l : list jstr) (key : jstr) : list jstr :=
  if bool_decide (key ∈ l) then l else l ++ [key].

Inductive SnapshotKind := SkContacts | SkChannels.

Definition note_keys (kind : SnapshotKind) (keys : list jstr) (t : SnapshotTracker) : SnapshotTracker :=
  match kind with
  | SkContacts => t <| tr_contacts := foldl add_key t.(tr_contacts) keys |>
  | SkChannels => t <| tr_channels := foldl add_key t.(tr_channels) keys |>
  end.

Definition noteDelta (kind : SnapshotKind) (keys : list jstr) (s : App) : App :=
  s <| app_activeSnapshots := note_keys kind keys <$> s.(app_activeSnapshots) |>.

(** The tracker without one of its replies; it is dropped once both have come. *)
Definition settle_snapshot (generation : Z) (kind : SnapshotKind) (s : App) : App :=
  match s.(app_activeSnapshots) !! generation with
  | None => s
  | Some t =>
    let t := match kind with
             | SkContacts => t <| tr_contactsPending := false |>
             | SkChannels => t <| tr_channelsPending := false |>
             end in
    s <| app_activeSnapshots :=
           if t.(tr_contactsPending) || t.(tr_channelsPending)
           then <[generation := t]> s.(app_activeSnapshots)
           else delete generation s.(app_activeSnapshots) |>
  end.

(** The reply of [getChannels]; [None] when it failed. *)
Definition channels_reply (generation : Z) (reply : option (list Channel)) (s : App) : App :=
  let s :=
    match reply, s.(app_activeSnapshots) !! generation with
    | Some data, Some tracker =>
      if negb (generation =? s.(app_reconnectGeneration)) then s else
      let touched := tracker.(tr_channels) in
      s <| app_channels := if len touched =? 0 then data
                           else mergeSnapshot data s.(app_channels) touched ch_key |>
    | _, _ => s
    end in
  settle_snapshot generation SkChannels s.

Definition contacts_reply (generation : Z) (reply : option (list Contact)) (s : App) : App :=
  let s :=
    match reply, s.(app_activeSnapshots) !! generation with
    | Some data, Some tracker =>
      if negb (generation =? s.(app_reconnectGeneration)) then s else
      let touched := tracker.(tr_contacts) in
      s <| app_contacts := if len touched =? 0 then data
                           else mergeSnapshot data s.(app_contacts) touched c_public_key |>
    | _, _ => s
    end in
  settle_snapshot generation SkContacts s.

(** ** Handlers *)

Definition includes (l : list jstr) (x : jstr) : bool := bool_decide (x ∈ l).

Definition isMessageBlocked (msg : Message) (blockedKeys blockedNames : list jstr) : bool :=
  if msg.(m_outgoing) then false else
  if (0 <? len blockedKeys)
     && match msg.(m_type) with
        | PRIV => includes blockedKeys (toLowerCase msg.(m_conversation_key))
        | CHAN => match truthy msg.(m_sender_key) with
                  | Some key => includes blockedKeys (toLowerCase key)
                  | None => false
                  end
        end
  then true
  else (0 <? len blockedNames)
       && match truthy msg.(m_sender_name) with
          | Some name => includes blockedNames name
          | None => false
          end.

Definition onHealth (data : HealthStatus) (s : App) : App :=
  let prev := s.(app_prevHealth) in
  let s := s <| app_prevHealth := Some data |> in
  let nextRadioState :=
    data.(hs_radio_state) ?? (if data.(hs_radio_initializing) then RsInitializing
                              else if data.(hs_radio_connected) then RsConnected
                              else RsDisconnected) in
  match prev with
  | None => s
  | Some prev =>
    let initializationCompleted :=
      prev.(hs_radio_connected) && prev.(hs_radio_initializing) && data.(hs_radio_connected)
      && negb data.(hs_radio_initializing) in
    let s :=
      if eqb prev.(hs_radio_connected) data.(hs_radio_connected) then s else
      if data.(hs_radio_connected) then
        effects [ToastRadioConnected (truthy data.(hs_connection_info)); FetchConfig] s
      else if nextRadioState ≟ RsPaused then effects [ToastRadioPaused] s
      else if nextRadioState ≟ RsRebooting then
        effects [ToastRadioRebooting (data.(hs_reboot_reason) ≟ Some WifiConfig)] s
      else if negb (nextRadioState ≟ RsIdentityMismatch)
              && negb (nextRadioState ≟ RsIdentityUnboundLegacy)
      then effects [ToastRadioDisconnected] s
      else s in
    if initializationCompleted then effects [FetchConfig] s else s
  end.

Definition onReconnect (s : App) : App :=
  let s := s <| app_store := clearRawPackets s.(app_store) |>
             <| app_hook := ConversationHook.handle s.(app_hook) EvReconnect |>
             <| app_unread := fetchUnreads s.(app_unread) |> in
  let s := effects [RefreshCommunityStatus; RefreshRadioWifi] s in
  let generation := s.(app_reconnectGeneration) + 1 in
  effects [FetchChannels generation; FetchContacts generation]
    (s <| app_reconnectGeneration := generation |>
       <| app_activeSnapshots :=
            <[generation := {| tr_contacts := []; tr_channels := []; tr_contactsPending := true;
                               tr_channelsPending := true |}]> s.(app_activeSnapshots) |>).

Section handlers.
(** [checkMention], and the locale's comparison. *)
Context (checkMention : jstr -> bool) (localeCompare : jstr -> jstr -> comparison).
Context `{MeshDecoder} (lowerName : jstr -> jstr).

Definition onMessage (now : Z) (msg : Message) (s : App) : App :=
  let s := s <| app_liveSightings := noteLiveOutgoingChannelMessage msg now s.(app_liveSightings) |> in
  if isMessageBlocked msg s.(app_blockedKeys) s.(app_blockedNames) then s else
  let isMutedChannel :=
    match msg.(m_type) with
    | CHAN => negb (len msg.(m_conversation_key) =? 0)
              && existsb (fun c => (c.(ch_key) ≟ msg.(m_conversation_key)) && c.(ch_muted))
                   s.(app_channels)
    | PRIV => false
    end in
  let '((isNewMessage, isForActiveConversation), hook) := observeMessage s.(app_hook) msg in
  let s := s <| app_hook := commit hook |> in
  if isMutedChannel then s else
  s <| app_unread := recordMessageEvent now msg isForActiveConversation isNewMessage
                       (checkMention msg.(m_text)) s.(app_unread) |>.

Definition set_contacts (next : option (list Contact)) (s : App) : App :=
  match next with Some contacts => s <| app_contacts := contacts |> | None => s end.

Definition onContact (contact : IncomingContact) (s : App) : App :=
  let s := noteDelta SkContacts [contact.(in_contact).(c_public_key)] s in
  set_contacts (mergeContactIntoList s.(app_contacts) contact) s.

Definition without_contact (key : jstr) (contacts : list Contact) : list Contact :=
  filter (fun c => c.(c_public_key) <> key) contacts.
Definition without_channel (key : jstr) (channels : list Channel) : list Channel :=
  filter (fun c => c.(ch_key) <> key) channels.

(** [active?.type === type && active.id === id] *)
Definition is_active (type : ConversationType) (id : jstr) (s : App) : bool :=
  match s.(app_active) with
  | Some active => (active.(cv_type) ≟ type) && (active.(cv_id) ≟ id)
  | None => false
  end.

Definition contact_conversation_of (contact : Contact) : Conversation :=
  {| cv_type := CtContact; cv_id := contact.(c_public_key);
     cv_name := getContactDisplayName contact.(c_name) contact.(c_public_key)
                  contact.(c_last_advert);
     cv_mapFocusKey := None; cv_locateKey := None |}.

Definition onContactResolved (previousPublicKey : jstr) (contact : IncomingContact) (s : App) : App :=
  let key := contact.(in_contact).(c_public_key) in
  let s := noteDelta SkContacts [previousPublicKey; key] s in
  let rest := without_contact previousPublicKey s.(app_contacts) in
  let s := s <| app_contacts := default rest (mergeContactIntoList rest contact) |> in
  let s := s <| app_hook := ConversationHook.handle s.(app_hook)
                              (ConversationHook.EvRename previousPublicKey key) |>
             <| app_unread := renameConversationState (getStateKey KContact previousPublicKey)
                                (getStateKey KContact key) s.(app_unread) |> in
  if is_active CtContact previousPublicKey s
  then setActiveConversation (Some (contact_conversation_of contact.(in_contact))) s
  else s.

Definition onChannel (channel : Channel) (s : App) : App :=
  let s := noteDelta SkChannels [channel.(ch_key)] s in
  let existed := existsb (fun item => item.(ch_key) ≟ channel.(ch_key)) s.(app_channels) in
  let s := s <| app_channels := mergeChannelIntoList localeCompare channel s.(app_channels) |> in
  if negb existed && (channel.(ch_membership) ≟ Some Pending) then effects [ToastDiscovered channel] s
  else s.

(** Leaves the deleted conversation when it is the one on screen. *)
Definition leave_deleted (type : ConversationType) (id : jstr) (s : App) : App :=
  if is_active type id s
  then setActiveConversation None (s <| app_pendingDeleteFallback := true |>)
  else s.

Definition onContactDeleted (publicKey : jstr) (s : App) : App :=
  let s := noteDelta SkContacts [publicKey] s in
  let s := s <| app_contacts := without_contact publicKey s.(app_contacts) |>
             <| app_hook := ConversationHook.handle s.(app_hook) (EvRemoveConversation publicKey) |>
             <| app_unread := removeConversationState (getStateKey KContact publicKey)
                                s.(app_unread) |> in
  leave_deleted CtContact publicKey s.

Definition onChannelDeleted (key : jstr) (s : App) : App :=
  let s := noteDelta SkChannels [key] s in
  let s := s <| app_channels := without_channel key s.(app_channels) |>
             <| app_hook := ConversationHook.handle s.(app_hook) (EvRemoveConversation key) |>
             <| app_unread := removeConversationState (getStateKey KChannel key) s.(app_unread) |> in
  leave_deleted CtChannel key s.

Definition onRawPacket (now : Z) (packet : RawPacket) (s : App) : App :=
  effects [EmitStatusDotPulse packet.(rp_payload_type)]
    (s <| app_store := recordRawPacket lowerName now packet MAX_RAW_PACKETS s.(app_store) |>).

Definition onMessageAcked (messageId : Z) (a : Ack) (s : App) : App :=
  s <| app_hook := ConversationHook.handle s.(app_hook) (EvAck messageId a) |>.

Definition onMessageDeleted (messageId : Z) (s : App) : App :=
  s <| app_hook := ConversationHook.handle s.(app_hook) (EvRemoveMessage messageId) |>.

(** ** Events *)

(** The socket's handler calls, the replies the application waits for, and what the user does:
    opening a conversation, aiming at a message, paging, marking everything as read. *)
Inductive AppEvent :=
| AeHealth (data : HealthStatus)
| AeReconnect
| AeMessage (now : Z) (msg : Message)
| AeContact (contact : IncomingContact)
| AeContactResolved (previousPublicKey : jstr) (contact : IncomingContact)
| AeChannel (channel : Channel)
| AeContactDeleted (publicKey : jstr)
| AeChannelDeleted (key : jstr)
| AeRawPacket (now : Z) (packet : RawPacket)
| AeMessageAcked (messageId : Z) (a : Ack)
| AeMessageDeleted (messageId : Z)
| AeChannelsReply (generation : Z) (reply : option (list Channel))
| AeContactsReply (generation : Z) (reply : option (list Contact))
| AeUnreadsReply (reply : option UnreadCounts)
| AeHookReply (rq : Request) (reply : option Response)
| AeQueued (queued : bool)
| AeOpen (conv : option Conversation)
| AeTarget (target : option Z)
| AeFetchOlder
| AeFetchNewer
| AeJumpToBottom
| AeReload
| AeMarkAllRead.

Definition hook_event (e : ConversationHook.Event) (s : App) : App :=
  s <| app_hook := ConversationHook.handle s.(app_hook) e |>.

Definition run_handler (s : App) (e : AppEvent) : App :=
  match e with
  | AeHealth data => onHealth data s
  | AeReconnect => onReconnect s
  | AeMessage now msg => onMessage now msg s
  | AeContact contact => onContact contact s
  | AeContactResolved previous contact => onContactResolved previous contact s
  | AeChannel channel => onChannel channel s
  | AeContactDeleted publicKey => onContactDeleted publicKey s
  | AeChannelDeleted key => onChannelDeleted key s
  | AeRawPacket now packet => onRawPacket now packet s
  | AeMessageAcked messageId a => onMessageAcked messageId a s
  | AeMessageDeleted messageId => onMessageDeleted messageId s
  | AeChannelsReply generation reply => channels_reply generation reply s
  | AeContactsReply generation reply => contacts_reply generation reply s
  | AeUnreadsReply reply => s <| app_unread := fetchUnreads_then reply s.(app_unread) |>
  | AeHookReply rq reply => hook_event (EvReply rq reply) s
  | AeQueued queued => hook_event (EvQueued queued) s
  | AeOpen conv => setActiveConversation conv s
  | AeTarget target => hook_event (EvRender s.(app_active) target) s
  | AeFetchOlder => hook_event EvFetchOlder s
  | AeFetchNewer => hook_event EvFetchNewer s
  | AeJumpToBottom => hook_event EvJumpToBottom s
  | AeReload => hook_event EvReload s
  | AeMarkAllRead => s <| app_unread := markAllRead s.(app_unread) |>
  end.

Definition handle_app (s : App) (e : AppEvent) : App := commit_app (run_handler s e).
End handlers.

(** The application as mounted, over the cache and the times a page keeps. *)
Definition initial_app (now : Z) (c : cache) (times : gmap jstr Z)
    (blockedKeys blockedNames : list jstr) : App :=
  {| app_hook := initial_hook c; app_unread := mount times None (0, 0);
     app_store := initial_store now; app_contacts := []; app_channels := []; app_active := None;
     app_next := None; app_pendingDeleteFallback := false;
     app_hasSetDefaultConversation := false; app_reconnectGeneration := 0;
     app_activeSnapshots := ∅; app_blockedKeys := blockedKeys; app_blockedNames := blockedNames;
     app_liveSightings := ∅; app_prevHealth := None; app_effects := [] |}.
