(* ===== verification/RealtimeProps.v ===== *)
(** The application on the socket: the components agree on the conversation on screen, the
    exceptions of the hook and of the counters are the only ones, a snapshot never undoes an update received while it was on its way, and a deleted
    conversation is left and forgotten. *)
From S2P Require Import Prelude JsString JsCollections JsNum Types MessageCache MessageCacheProps.
From S2P Require Import ConversationHook.
From S2P Require Import ConversationHookProps.
From S2P Require Import UnreadState UnreadProps.
From S2P Require Import PathUtils PathProps Visualizer VisualizerProps RawPacketStats RawPacketStore Directory RealtimeApp.

(** ** Lists by key *)

Section keyed.
Context {T : Type} (keyOf : T -> jstr).
Implicit Types l : list T.

Lemma by_key_map_snoc l x : by_key_map keyOf (l ++ [x]) = <[keyOf x := x]> (by_key_map keyOf l).
Proof. unfold by_key_map. by rewrite foldl_app. Qed.

Lemma by_key_map_None l k : by_key_map keyOf l !! k = None <-> k ∉ keyOf <$> l.
Proof.
  induction l as [|x l IH] using rev_ind; [split; [intros _; apply not_elem_of_nil|done]|].
  rewrite by_key_map_snoc, fmap_app, not_elem_of_app, <- IH, lookup_insert_None.
  assert (Hs : k ∉ keyOf <$> [x] <-> keyOf x <> k).
  { cbn. rewrite list_elem_of_singleton. split; congruence. }
  by rewrite Hs.
Qed.

Lemma by_key_map_Some l k x : by_key_map keyOf l !! k = Some x -> x ∈ l /\ keyOf x = k.
Proof.
  induction l as [|y l IH] using rev_ind; [done|].
  rewrite by_key_map_snoc, lookup_insert_Some, elem_of_app, list_elem_of_singleton.
  intros [[<- <-]|[_ Hx]]; [by split; [right|]|]. apply IH in Hx as [? ?]. split; [by left|done].
Qed.

Lemma by_key_map_elem l x :
  NoDup (keyOf <$> l) -> x ∈ l -> by_key_map keyOf l !! keyOf x = Some x.
Proof.
  induction l as [|y l IH] using rev_ind; [by intros _ ?%not_elem_of_nil|].
  rewrite fmap_app, elem_of_app, list_elem_of_singleton, by_key_map_snoc.
  intros (Hnd & Hdis & _)%NoDup_app [Hx| ->]; [|by rewrite lookup_insert_eq].
  rewrite lookup_insert_ne; [by apply IH|]. intros E. apply (Hdis (keyOf x)).
  - by apply list_elem_of_fmap_2.
  - rewrite <- E. cbn. by apply list_elem_of_singleton.
Qed.

(** A list with distinct keys is determined, as a map, by its elements. *)
Lemma by_key_map_iff l k x :
  NoDup (keyOf <$> l) -> by_key_map keyOf l !! k = Some x <-> x ∈ l /\ keyOf x = k.
Proof.
  intros Hnd. split; [apply by_key_map_Some|]. intros [Hx <-]. by apply by_key_map_elem.
Qed.

Lemma by_key_map_perm l l' :
  NoDup (keyOf <$> l) -> l ≡ₚ l' -> by_key_map keyOf l = by_key_map keyOf l'.
Proof.
  intros Hnd Hp. assert (Hnd' : NoDup (keyOf <$> l')) by by rewrite <- Hp.
  apply map_eq. intros k. apply option_eq. intros x. rewrite !by_key_map_iff by done. by rewrite Hp.
Qed.

Lemma by_key_map_filter l k :
  NoDup (keyOf <$> l) ->
  by_key_map keyOf (filter (fun x => keyOf x <> k) l) = delete k (by_key_map keyOf l).
Proof.
  intros Hnd. apply map_eq. intros j. apply option_eq. intros x.
  rewrite lookup_delete_Some, !by_key_map_iff, list_elem_of_filter by auto with meshloom.
  split; [intros [[? ?] <-]|intros (Hne & ? & <-)]; auto.
Qed.

Lemma by_key_map_insert l i y x :
  NoDup (keyOf <$> l) -> l !! i = Some x -> keyOf y = keyOf x ->
  by_key_map keyOf (<[i := y]> l) = <[keyOf y := y]> (by_key_map keyOf l).
Proof.
  intros Hnd Hi Hy.
  assert (Hk : keyOf <$> <[i := y]> l = keyOf <$> l).
  { rewrite list_fmap_insert, Hy. apply list_insert_id. by rewrite list_lookup_fmap, Hi. }
  apply map_eq. intros j. apply option_eq. intros z.
  rewrite lookup_insert_Some, !by_key_map_iff by (rewrite ?Hk; done).
  rewrite !list_elem_of_lookup. split.
  - intros [[n Hn] <-]. destruct (decide (n = i)) as [->|Hne].
    + rewrite list_lookup_insert_eq in Hn by by eapply lookup_lt_Some. left. naive_solver.
    + rewrite list_lookup_insert_ne in Hn by done. right. split; [|eauto]. rewrite Hy. intros E.
      apply Hne. eapply (NoDup_lookup (keyOf <$> l)); [exact Hnd|rewrite list_lookup_fmap, Hn; reflexivity|].
      rewrite list_lookup_fmap, Hi. cbn. by rewrite E.
  - intros [[<- <-]|(Hne & [n Hn] & <-)].
    + split; [|done]. exists i. apply list_lookup_insert_eq. by eapply lookup_lt_Some.
    + split; [|done]. exists n. rewrite list_lookup_insert_ne; [done|]. intros ->. congruence.
Qed.

Lemma NoDup_keys_insert l i y x :
  l !! i = Some x -> keyOf y = keyOf x -> NoDup (keyOf <$> l) -> NoDup (keyOf <$> <[i := y]> l).
Proof.
  intros Hi Hy Hnd. rewrite list_fmap_insert, Hy, list_insert_id; [done|].
  by rewrite list_lookup_fmap, Hi.
Qed.
End keyed.

Lemma find_index_Some {A} (p : A -> bool) l i :
  find_index p l = Some i -> exists x, l !! i = Some x /\ p x = true.
Proof.
  revert i. induction l as [|x l IH]; intros i; cbn; [done|]. destruct (p x) eqn:E.
  - intros [= <-]. by exists x.
  - destruct (find_index p l) as [j|]; [|done]. intros [= <-]. by apply IH.
Qed.

Lemma find_index_None {A} (p : A -> bool) l :
  find_index p l = None -> forall x, x ∈ l -> p x = false.
Proof.
  induction l as [|x l IH]; cbn; [by intros _ x ?%not_elem_of_nil|]. destruct (p x) eqn:E; [done|].
  destruct (find_index p l); [done|]. intros _ y [->|?]%elem_of_cons; auto.
Qed.

(** ** Snapshots *)

Lemma foldl_push {A B} (f : A -> option B) (l : list A) acc :
  foldl (fun acc x => match f x with Some y => acc ++ [y] | None => acc end) acc l
  = acc ++ omap f l.
Proof.
  revert acc. induction l as [|x l IH]; intros acc; cbn; [by rewrite app_nil_r|].
  rewrite IH. destruct (f x); [|done]. by rewrite <- app_assoc.
Qed.

(** Keeping some of the elements, under keys that stay. *)
Lemma omap_keys {A} (key : A -> jstr) {B} (key' : B -> jstr) (f : A -> option B) (l : list A) :
  (forall x y, f x = Some y -> key' y = key x) ->
  sublist (key' <$> omap f l) (key <$> l).
Proof.
  intros Hf. induction l as [|x l IH]; cbn; [constructor|]. destruct (f x) as [y|] eqn:E.
  - cbn. rewrite (Hf _ _ E). by constructor.
  - by constructor.
Qed.

Section merge.
Context {T : Type} (keyOf : T -> jstr) (snapshot live : list T) (touched : list jstr).
Context (Hsnap : NoDup (keyOf <$> snapshot)) (Hlive : NoDup (keyOf <$> live)) (Ht : NoDup touched).

(** What becomes of a row of the snapshot, and of a touched key. *)
Definition kept_row (item : T) : option T :=
  if bool_decide (keyOf item ∈ touched) then by_key_map keyOf live !! keyOf item else Some item.
Definition new_row (key : jstr) : option T :=
  if bool_decide (key ∈ keyOf <$> snapshot) then None else by_key_map keyOf live !! key.

Lemma mergeSnapshot_rows :
  touched <> [] ->
  mergeSnapshot snapshot live touched keyOf = omap kept_row snapshot ++ omap new_row touched.
Proof.
  intros Hne. unfold mergeSnapshot. destruct (Z.eqb_spec (len touched) 0) as [E|_].
  { by apply len_zero in E. }
  rewrite <- (app_nil_l (omap kept_row snapshot)), <- foldl_push, <- foldl_push.
  rewrite (foldl_pointwise _ (fun acc x => match kept_row x with Some y => acc ++ [y] | None => acc end)).
  2: { intros acc x. unfold kept_row. by destruct (bool_decide _). }
  apply foldl_pointwise. intros acc k. unfold new_row.
  destruct (bool_decide _); [by destruct (_ !! k)|done].
Qed.

Lemma kept_row_key x y : kept_row x = Some y -> keyOf y = keyOf x.
Proof.
  unfold kept_row. destruct (bool_decide _); [|by intros [= <-]].
  by intros [_ ?]%by_key_map_Some.
Qed.

Lemma new_row_key k y : new_row k = Some y -> keyOf y = k /\ k ∉ keyOf <$> snapshot.
Proof.
  unfold new_row. case_bool_decide; [done|]. by intros [_ ?]%by_key_map_Some.
Qed.

Lemma mergeSnapshot_nodup : NoDup (keyOf <$> mergeSnapshot snapshot live touched keyOf).
Proof.
  destruct (decide (touched = [])) as [E|Hne]; [by rewrite E|].
  rewrite mergeSnapshot_rows, fmap_app by done.
  assert (H1 := omap_keys keyOf keyOf kept_row snapshot kept_row_key).
  apply NoDup_app. split; [eapply sublist_NoDup; [exact Hsnap|exact H1]|]. split.
  - intros k Hk (y & -> & Hy)%list_elem_of_fmap. apply list_elem_of_omap in Hy as (k' & Hk' & Hy).
    apply new_row_key in Hy as [E Hni]. rewrite E in Hk. apply Hni. eapply elem_of_submseteq; [exact Hk|].
    by apply sublist_submseteq.
  - assert (H2 := omap_keys (fun k => k) keyOf new_row touched). rewrite list_fmap_id in H2.
    eapply sublist_NoDup; [exact Ht|]. apply H2. intros k y Hy. by apply new_row_key in Hy as [? _].
Qed.

Lemma mergeSnapshot_lookup k :
  by_key_map keyOf (mergeSnapshot snapshot live touched keyOf) !! k
  = by_key_map keyOf (if bool_decide (k ∈ touched) then live else snapshot) !! k.
Proof.
  destruct (decide (touched = [])) as [E|Hne].
  { rewrite E. rewrite bool_decide_eq_false_2 by apply not_elem_of_nil. done. }
  apply option_eq. intros x. rewrite by_key_map_iff by apply mergeSnapshot_nodup.
  rewrite mergeSnapshot_rows, elem_of_app, !list_elem_of_omap by done.
  case_bool_decide as Hk; split.
  - intros [[(y & Hy & E)|(k' & Hk' & E)] <-].
    + assert (Ey := kept_row_key _ _ E). unfold kept_row in E. rewrite <- Ey in E.
      rewrite bool_decide_eq_true_2 in E by done. exact E.
    + assert (Ek := proj1 (new_row_key _ _ E)). unfold new_row in E. rewrite Ek.
      by destruct (bool_decide _).
  - intros E. split; [|by apply by_key_map_Some in E as [_ ?]].
    destruct (decide (k ∈ keyOf <$> snapshot)) as [Hs|Hs].
    + apply list_elem_of_fmap in Hs as (y & -> & Hy). left. exists y. split; [done|].
      unfold kept_row. by rewrite bool_decide_eq_true_2.
    + right. exists k. split; [done|]. unfold new_row. by rewrite bool_decide_eq_false_2.
  - intros [[(y & Hy & E)|(k' & Hk' & E)] <-].
    + assert (Ey := kept_row_key _ _ E). unfold kept_row in E. rewrite <- Ey in E.
      rewrite bool_decide_eq_false_2 in E by done. injection E as ->. by apply by_key_map_elem.
    + apply new_row_key in E as [<- _]. done.
  - intros [Hx <-]%by_key_map_Some. split; [|done]. left. exists x. split; [done|].
    unfold kept_row. by rewrite bool_decide_eq_false_2.
Qed.

(** The rows the server listed come first, in its order; those it does not know come after. *)
Lemma mergeSnapshot_order :
  exists old new, keyOf <$> mergeSnapshot snapshot live touched keyOf = old ++ new
    /\ sublist old (keyOf <$> snapshot) /\ sublist new touched
    /\ forall k, k ∈ new -> k ∉ keyOf <$> snapshot.
Proof.
  destruct (decide (touched = [])) as [E|Hne].
  { rewrite E. exists (keyOf <$> snapshot), []. rewrite app_nil_r. split_and!; try done.
    intros k Hk. by apply not_elem_of_nil in Hk. }
  exists (keyOf <$> omap kept_row snapshot), (keyOf <$> omap new_row touched).
  rewrite mergeSnapshot_rows, fmap_app by done. split_and!; [done| | |].
  - apply omap_keys, kept_row_key.
  - assert (H2 := omap_keys (fun k => k) keyOf new_row touched). rewrite list_fmap_id in H2.
    apply H2. intros k y Hy. by apply new_row_key in Hy as [? _].
  - intros k (y & -> & Hy)%list_elem_of_fmap. apply list_elem_of_omap in Hy as (k' & Hk' & Hy).
    by apply new_row_key in Hy as [-> ?].
Qed.
End merge.

(** ** One row *)

Lemma merge_contact_nodup l c l' :
  NoDup (c_public_key <$> l) -> mergeContactIntoList l c = Some l' -> NoDup (c_public_key <$> l').
Proof.
  intros Hnd. unfold mergeContactIntoList. destruct (find_index _ l) as [i|] eqn:Ei.
  - destruct (find_index_Some _ _ _ Ei) as (x & Hx & Hk). rewrite Hx. to_prop.
    destruct (contact_unchanged _ _ _); [done|]. intros [= <-].
    by eapply NoDup_keys_insert.
  - intros [= <-]. rewrite fmap_app. apply NoDup_snoc. split; [done|].
    intros (y & Ey & Hy)%list_elem_of_fmap. apply (find_index_None _ _ Ei) in Hy. by to_prop.
Qed.

Section channels.
Context (localeCompare : jstr -> jstr -> comparison).

Lemma merge_channel_view l c :
  NoDup (ch_key <$> l) ->
  NoDup (ch_key <$> mergeChannelIntoList localeCompare c l)
  /\ by_key_map ch_key (mergeChannelIntoList localeCompare c l)
     = <[c.(ch_key) := c]> (by_key_map ch_key l).
Proof.
  intros Hnd. unfold mergeChannelIntoList. destruct (find_index _ l) as [i|] eqn:Ei.
  - destruct (find_index_Some _ _ _ Ei) as (x & Hx & Hk). to_prop.
    split; [by eapply NoDup_keys_insert|by eapply by_key_map_insert].
  - assert (Hnd' : NoDup (ch_key <$> l ++ [c])).
    { rewrite fmap_app. apply NoDup_snoc. split; [done|].
      intros (y & Ey & Hy)%list_elem_of_fmap. apply (find_index_None _ _ Ei) in Hy. by to_prop. }
    set (cmp := fun a b : Channel => localeCompare (ch_name a) (ch_name b)).
    assert (Hp := js_sort_perm cmp (l ++ [c])).
    split; [by rewrite Hp|]. rewrite <- by_key_map_snoc. symmetry.
    apply by_key_map_perm; [done|]. by rewrite Hp.
Qed.
End channels.

(** ** The components agree *)

Lemma add_key_nodup l k : NoDup l -> NoDup (add_key l k).
Proof. intros Hl. unfold add_key. case_bool_decide; [done|]. by apply NoDup_snoc. Qed.

Lemma add_keys_nodup ks l : NoDup l -> NoDup (foldl add_key l ks).
Proof. revert l. induction ks as [|k ks IH]; intros l Hl; cbn; auto using add_key_nodup. Qed.

(** No event but a render changes the conversation of the hook. *)
Create Rewrite HintDb active.

(** Strips updates of other fields, the calls known to keep the conversation, then a test. *)
Ltac keep_active :=
  cbv zeta;
  repeat (autorewrite with active; cbn [fst snd];
          first [reflexivity | assumption
                | lazymatch goal with
                  | |- hk_activeConversation (set _ _ ?h) = ?y => change (hk_activeConversation h = y)
                  | |- hk_activeConversation (match ?x with _ => _ end) = _ => destruct x eqn:?
                  | |- hk_activeConversation (snd (match ?x with _ => _ end)) = _ => destruct x eqn:?
                  end]).

Lemma abort_active h k : (abort h k).(hk_activeConversation) = h.(hk_activeConversation).
Proof. by destruct k. Qed.
#[local] Hint Rewrite abort_active : active.

Lemma abort_all_active h : (abort_all h).(hk_activeConversation) = h.(hk_activeConversation).
Proof. unfold abort_all. keep_active. Qed.
Lemma send_active h rq : (send h rq).(hk_activeConversation) = h.(hk_activeConversation).
Proof. done. Qed.
Lemma sync_active h ms : (syncSeenContent h ms).(hk_activeConversation) = h.(hk_activeConversation).
Proof. done. Qed.
#[local] Hint Rewrite abort_all_active send_active sync_active : active.

Lemma hand_active h prev changed :
  (hand_to_cache h prev changed).(hk_activeConversation) = h.(hk_activeConversation).
Proof. unfold hand_to_cache. destruct prev as [[]|]; keep_active. Qed.
Lemma fetchLatest_active h sl k :
  (fetchLatestMessages h sl k).(hk_activeConversation) = h.(hk_activeConversation).
Proof. unfold fetchLatestMessages. keep_active. Qed.
Lemma next_reconcile_active h c k :
  (next_reconcile h c k).(hk_activeConversation) = h.(hk_activeConversation).
Proof. done. Qed.
#[local] Hint Rewrite hand_active fetchLatest_active next_reconcile_active : active.

Lemma enter_active h c : (enter_conversation h c).(hk_activeConversation) = h.(hk_activeConversation).
Proof. unfold enter_conversation, new_controller. keep_active. Qed.
#[local] Hint Rewrite enter_active : active.

Lemma conversation_effect_active h :
  (conversation_effect h).(hk_activeConversation) = h.(hk_activeConversation).
Proof.
  unfold conversation_effect. cbv zeta.
  set (g := abort_all h). assert (Hg : hk_activeConversation g = hk_activeConversation h)
    by apply abort_all_active.
  destruct (_ && _ && _); [exact Hg|].
  destruct (negb _); cbn [hk_activeConversation set];
    rewrite hand_active; cbn [hk_activeConversation set];
    (destruct (hk_activeConversation g) as [c|] eqn:E;
      [destruct (isMessageConversation _); rewrite ?enter_active|]); cbn [hk_activeConversation set];
    rewrite ?hand_active; cbn [hk_activeConversation set]; congruence.
Qed.
#[local] Hint Rewrite conversation_effect_active : active.

Lemma receive_active h rq reply :
  (receive h rq reply).(hk_activeConversation) = h.(hk_activeConversation).
Proof.
  unfold receive. cbv zeta.
  match goal with |- context [if ?b then None else reply] => generalize (if b then None else reply) end.
  intros r.
  destruct (rq_then rq); unfold fetchLatestMessages_then, reconcileFromBackend_then,
    fetchOlderMessages_then, fetchNewerMessages_then, around_then; keep_active.
Qed.

Lemma append_active h m : (appendActiveMessageIfNew h m).2.(hk_activeConversation) = h.(hk_activeConversation).
Proof. unfold appendActiveMessageIfNew. keep_active. Qed.
#[local] Hint Rewrite append_active : active.

Lemma observe_active h m : (observeMessage h m).2.(hk_activeConversation) = h.(hk_activeConversation).
Proof.
  unfold observeMessage. destruct (applyPendingAck _ _) as [m' p].
  assert (Ha := append_active (h <| hk_pendingAcks := p |>) m').
  cbv zeta. destruct (isActiveConversationMessage _ _).
  - destruct (hk_hasNewerMessagesRef _); [done|].
    by destruct (appendActiveMessageIfNew _ _) as [added h'].
  - by destruct (cache_addMessage _ _ _).
Qed.

Lemma commit_active h : (commit h).(hk_activeConversation) = h.(hk_activeConversation).
Proof. done. Qed.
#[local] Hint Rewrite commit_active : active.

Lemma fetchOlder_active h : (fetchOlderMessages h).(hk_activeConversation) = h.(hk_activeConversation).
Proof. unfold fetchOlderMessages, new_controller. keep_active. Qed.
Lemma fetchNewer_active h : (fetchNewerMessages h).(hk_activeConversation) = h.(hk_activeConversation).
Proof. unfold fetchNewerMessages, new_controller. keep_active. Qed.
Lemma jump_active h : (jumpToBottom h).(hk_activeConversation) = h.(hk_activeConversation).
Proof. unfold jumpToBottom. keep_active. Qed.
Lemma reload_active h :
  (reloadCurrentConversation h).(hk_activeConversation) = h.(hk_activeConversation).
Proof. unfold reloadCurrentConversation. keep_active. Qed.
Lemma reconnect_active h : (reconcileOnReconnect h).(hk_activeConversation) = h.(hk_activeConversation).
Proof. unfold reconcileOnReconnect, new_controller. keep_active. Qed.
Lemma receiveAck_active h i a :
  (receiveMessageAck h i a).(hk_activeConversation) = h.(hk_activeConversation).
Proof. unfold receiveMessageAck, updateMessageAck. keep_active. Qed.
#[local] Hint Rewrite fetchOlder_active fetchNewer_active jump_active reload_active reconnect_active
  receiveAck_active observe_active receive_active : active.

Lemma handle_active h e :
  match e with EvRender _ _ => False | _ => True end ->
  (ConversationHook.handle h e).(hk_activeConversation) = h.(hk_activeConversation).
Proof. intros He. destruct e; try done; unfold ConversationHook.handle; keep_active. Qed.

Lemma render_active h conv target :
  (ConversationHook.handle h (EvRender conv target)).(hk_activeConversation) = conv.
Proof.
  unfold ConversationHook.handle, render. cbv zeta. destruct (_ || _); [|done].
  by rewrite commit_active, conversation_effect_active.
Qed.

Lemma elem_of_add_keys l ks k : k ∈ foldl add_key l ks <-> k ∈ l \/ k ∈ ks.
Proof.
  revert l. induction ks as [|k1 ks IH]; intros l; cbn.
  - rewrite elem_of_nil. tauto.
  - rewrite IH, elem_of_cons. unfold add_key. case_bool_decide; [naive_solver|].
    rewrite elem_of_app, list_elem_of_singleton. tauto.
Qed.

Definition tracker_ok (t : SnapshotTracker) : Prop := NoDup t.(tr_contacts) /\ NoDup t.(tr_channels).

Section app.
Context (belongs : jstr -> jstr -> Prop) `{!Reflexive belongs}.
(** Whether the pages were fresh, and no counted contact was resolved into the one on screen. *)
Context (fresh clear : Prop).
Context (checkMention : jstr -> bool) (localeCompare : jstr -> jstr -> comparison).
Context `{MeshDecoder} (lowerName : jstr -> jstr).
Notation hook_ok := (ConversationHookProps.hook_ok belongs fresh).
Notation hook_event_ok := (ConversationHookProps.event_ok belongs).
Notation handle_app := (handle_app checkMention localeCompare lowerName).
Notation run_handler := (run_handler checkMention localeCompare lowerName).

(** What a handler keeps; a commit also applies the conversation it set. *)
Record app_inv (s : App) : Prop := {
  ai_hook : hook_ok s.(app_hook);
  ai_unread : unread_ok clear s.(app_unread);
  ai_hook_active : s.(app_hook).(hk_activeConversation) = s.(app_active);
  ai_unread_active : s.(app_unread).(ur_active) = s.(app_active);
  ai_contacts : NoDup (c_public_key <$> s.(app_contacts));
  ai_channels : NoDup (ch_key <$> s.(app_channels));
  ai_trackers : map_Forall (fun _ => tracker_ok) s.(app_activeSnapshots);
}.

Definition app_ok (s : App) : Prop := app_inv s /\ s.(app_next) = None.

(** What the application relies on: the server's replies are about what was asked and list a key
    once, and a contact is resolved into the one its messages belong to. *)
Definition app_event_ok (s : App) (e : AppEvent) : Prop :=
  match e with
  | AeContactResolved previous contact =>
    forall k, belongs previous k -> belongs contact.(in_contact).(c_public_key) k
  | AeChannelsReply _ (Some data) => NoDup (ch_key <$> data)
  | AeContactsReply _ (Some data) => NoDup (c_public_key <$> data)
  | AeUnreadsReply (Some data) => data_ok data
  | AeHookReply rq reply => hook_event_ok s.(app_hook) (EvReply rq reply)
  | _ => True
  end.

Definition fresh_app (s : App) (e : AppEvent) : Prop :=
  match e with AeHookReply rq reply => fresh_event s.(app_hook) (EvReply rq reply) | _ => True end.

(** A contact with unread messages is resolved into the one on screen. *)
Definition resolves_active (s : App) (previous : jstr) (contact : IncomingContact) : Prop :=
  is_active CtContact contact.(in_contact).(c_public_key) s = true
  /\ is_Some (s.(app_unread).(ur_unreadCounts) !! getStateKey KContact previous).

Definition clear_app (s : App) (e : AppEvent) : Prop :=
  match e with AeContactResolved previous contact => ~ resolves_active s previous contact | _ => True end.

Lemma mark_active u : ur_active (mark_active_read u) = ur_active u.
Proof. unfold mark_active_read. destruct (ur_active u) as [c|] eqn:E; [by destruct (cv_type c)|done]. Qed.

Lemma unread_active u e :
  match e with EvOpen _ => False | _ => True end -> ur_active (handle_unread u e) = ur_active u.
Proof.
  intros He. destruct e as [| reply| | | |now msg a n m| | |]; try done; cbn [handle_unread].
  - by destruct (applyUnreads_tables reply u) as (_ & _ & _ & ->).
  - unfold fetchUnreads_then. rewrite mark_active. destruct reply as [d|]; [|done].
    apply (applyUnreads_tables d u).
  - unfold observe_lengths. destruct (ur_lengths u); [by destruct (_ ≟ _)|done].
  - apply (message_tables u now msg a n m).
  - unfold renameConversationState. by destruct (_ ≟ _).
Qed.

(** ** The invariant *)

(** An update of the hook, or of the counters, by one of their own events. *)
Lemma inv_hook s e :
  app_inv s -> hook_event_ok s.(app_hook) e -> (fresh -> fresh_event s.(app_hook) e) ->
  match e with EvRender _ _ => False | _ => True end ->
  app_inv (s <| app_hook := ConversationHook.handle s.(app_hook) e |>).
Proof.
  intros [] He Hf Hr. constructor; cbn; try done; [by apply handle_ok|]. by rewrite handle_active.
Qed.

Lemma inv_unread s e :
  app_inv s -> UnreadProps.event_ok s.(app_unread) e -> (clear -> clear_event s.(app_unread) e) ->
  match e with EvOpen _ => False | _ => True end ->
  app_inv (s <| app_unread := handle_unread s.(app_unread) e |>).
Proof.
  intros [] He Hf Hr. constructor; cbn; try done; [by apply handle_unread_ok|]. by rewrite unread_active.
Qed.

Lemma inv_contacts s contacts :
  app_inv s -> NoDup (c_public_key <$> contacts) -> app_inv (s <| app_contacts := contacts |>).
Proof. intros [] ?. by constructor. Qed.

Lemma inv_channels s channels :
  app_inv s -> NoDup (ch_key <$> channels) -> app_inv (s <| app_channels := channels |>).
Proof. intros [] ?. by constructor. Qed.

Lemma inv_note kind keys s : app_inv s -> app_inv (noteDelta kind keys s).
Proof.
  intros [? ? ? ? ? ? Ht]. constructor; cbn; try done. apply map_Forall_fmap.
  eapply map_Forall_impl; [exact Ht|]. intros g t [? ?]. cbn.
  destruct kind; split; cbn; auto using add_keys_nodup.
Qed.

Lemma inv_settle g kind s : app_inv s -> app_inv (settle_snapshot g kind s).
Proof.
  intros Hinv. unfold settle_snapshot. destruct (app_activeSnapshots s !! g) as [t|] eqn:E; [|done].
  cbv zeta. destruct Hinv as [? ? ? ? ? ? Ht]. constructor; cbn; try done.
  assert (Htr := map_Forall_lookup_1 _ _ _ _ Ht E).
  destruct (_ || _); [apply map_Forall_insert_2; [|done]; by destruct kind|by apply map_Forall_delete].
Qed.

Lemma render_next_ok s : app_inv s -> app_ok (render_next s).
Proof.
  intros Hinv. unfold render_next. destruct (app_next s) as [conv|] eqn:E; [|done].
  split; [|done]. destruct Hinv as [Hh Hu ? ? ? ? ?]. constructor; cbn; try done.
  - by apply render_ok.
  - by eapply open_ok.
  - exact (render_active _ _ _).
  - by destruct (open_tables clear conv (app_unread s) Hu) as (_ & _ & _ & ->).
Qed.

Lemma fallback_ok s : app_inv s -> app_ok (render_next (delete_fallback s)).
Proof.
  intros Hinv. apply render_next_ok. unfold delete_fallback.
  destruct (negb _); [done|].
  destruct (app_active s); [|destruct (findPublicChannel _); [|done]];
    destruct Hinv; by constructor.
Qed.

Lemma commit_app_ok s : app_inv s -> app_ok (commit_app s).
Proof.
  intros Hinv. unfold commit_app. cbv zeta.
  set (lengths := (len (app_channels s), len (app_contacts s))).
  assert (H1 := inv_unread s (EvLengths lengths.1 lengths.2) Hinv I (fun _ => I) I).
  apply fallback_ok. apply (render_next_ok _ H1).
Qed.

Lemma inv_effects l s : app_inv s -> app_inv (effects l s).
Proof. intros []. by constructor. Qed.

Lemma inv_next conv s : app_inv s -> app_inv (setActiveConversation conv s).
Proof. intros []. by constructor. Qed.

Lemma inv_if (b : bool) s t : app_inv s -> app_inv t -> app_inv (if b then s else t).
Proof. by destruct b. Qed.

Lemma inv_leave type i s : app_inv s -> app_inv (leave_deleted type i s).
Proof. intros Hinv. unfold leave_deleted. destruct (is_active _ _ _); [|done]. by destruct Hinv. Qed.

Lemma inv_health data s : app_inv s -> app_inv (onHealth data s).
Proof.
  intros Hinv. unfold onHealth. cbv zeta. set (s0 := s <| app_prevHealth := Some data |>).
  assert (H0 : app_inv s0) by by destruct Hinv.
  destruct (app_prevHealth s) as [prev|]; [|done].
  set (s1 := if eqb _ _ then s0 else _). assert (H1 : app_inv s1).
  { unfold s1. repeat (case_match; auto using inv_effects). }
  case_match; auto using inv_effects.
Qed.

(** A message is for the conversation on screen when its counter is that conversation's. *)
Lemma active_message conv m k :
  message_state_key m = Some k -> tracked_key conv = Some k -> isActiveConversationMessage conv m = true.
Proof.
  unfold message_state_key, tracked_key, isActiveConversationMessage.
  destruct (m_conversation_key m) as [|c0 key]; [done|]. intros [= <-].
  destruct conv as [c|]; [|done].
  destruct (m_type m), (cv_type c); intros [= E]; try done; by apply bool_decide_eq_true_2.
Qed.

Lemma observe_flag h m :
  (observeMessage h m).1.2 = isActiveConversationMessage h.(hk_activeConversation) m.
Proof.
  unfold observeMessage. destruct (applyPendingAck_same (hk_pendingAcks h) m) as (_ & _ & E1 & E2).
  destruct (applyPendingAck _ m) as [m' p]. cbn [fst] in E1, E2. cbv zeta.
  assert (E : isActiveConversationMessage (hk_activeConversation h) m'
              = isActiveConversationMessage (hk_activeConversation h) m).
  { unfold isActiveConversationMessage. by rewrite E1, E2. }
  change (hk_activeConversation (h <| hk_pendingAcks := p |>)) with (hk_activeConversation h).
  rewrite E. destruct (isActiveConversationMessage _ m).
  - destruct (hk_hasNewerMessagesRef _); [done|]. by destruct (appendActiveMessageIfNew _ _).
  - by destruct (cache_addMessage _ _ _).
Qed.

Lemma inv_message now m s : app_inv s -> app_inv (onMessage checkMention now m s).
Proof.
  intros Hinv. unfold onMessage. cbv zeta. set (s0 := s <| app_liveSightings := _ |>).
  assert (H0 : app_inv s0) by by destruct Hinv.
  destruct (isMessageBlocked _ _ _); [done|].
  assert (Hf := observe_flag (app_hook s0) m). assert (H1 := inv_hook s0 (ConversationHook.EvMessage m) H0 I (fun _ => I) I).
  cbn [ConversationHook.handle] in H1.
  destruct (observeMessage (app_hook s0) m) as [[added active] hook]. cbn [fst snd] in Hf, H1.
  destruct (match m_type m with PRIV => _ | CHAN => _ end); [done|].
  apply (inv_unread (s0 <| app_hook := commit hook |>)
           (UnreadState.EvMessage now m active added (checkMention (m_text m)))); [done| |done|done].
  intros k Hk Hk'. rewrite Hf, (ai_hook_active _ H0), <- (ai_unread_active _ H0).
  by eapply active_message.
Qed.

Lemma inv_resolved previous contact s :
  app_inv s -> app_event_ok s (AeContactResolved previous contact) ->
  (clear -> clear_app s (AeContactResolved previous contact)) ->
  app_inv (onContactResolved previous contact s).
Proof.
  intros Hinv Hb Hu. unfold onContactResolved. cbv zeta. set (key := c_public_key _) in *.
  set (s1 := noteDelta _ _ s). assert (H1 : app_inv s1) by by apply inv_note.
  set (s2 := s1 <| app_contacts := _ |>).
  assert (H2 : app_inv s2).
  { apply inv_contacts; [done|].
    assert (Hnd : NoDup (c_public_key <$> without_contact previous (app_contacts s1)))
      by (apply NoDup_fmap_filter, H1).
    destruct (mergeContactIntoList _ _) eqn:E; [by eapply merge_contact_nodup|done]. }
  assert (H3 := inv_hook s2 (ConversationHook.EvRename previous key) H2 Hb (fun _ => I) I).
  set (s3 := s2 <| app_hook := _ |>) in H3.
  assert (H4 : app_inv (s3 <| app_unread :=
    handle_unread (app_unread s3) (EvRename (getStateKey KContact previous) (getStateKey KContact key)) |>)).
  { apply inv_unread; [done|done| |done]. intros Hcl [Hk Hcount]. apply (Hu Hcl). split; [|exact Hcount].
    change (app_unread s3) with (app_unread s) in Hk. rewrite (ai_unread_active _ Hinv) in Hk.
    unfold is_active. unfold tracked_key in Hk. destruct (app_active s) as [c|]; [|done].
    destruct (cv_type c) eqn:Et; try done; injection Hk as Hk. fold key.
    rewrite Hk. by rewrite !bool_decide_eq_true_2. }
  apply inv_if; [by apply inv_next|exact H4].
Qed.

Lemma inv_contacts_reply g reply s :
  app_inv s -> app_event_ok s (AeContactsReply g reply) -> app_inv (contacts_reply g reply s).
Proof.
  intros Hinv Hr. unfold contacts_reply. cbv zeta. apply inv_settle.
  destruct reply as [data|]; [|done]. destruct (app_activeSnapshots s !! g) as [t|] eqn:E; [|done].
  destruct (negb _); [done|]. destruct (map_Forall_lookup_1 _ _ _ _ (ai_trackers _ Hinv) E) as [Ht _].
  apply inv_contacts; [done|].
  destruct (_ =? 0); [exact Hr|]. apply mergeSnapshot_nodup; [exact Hr|exact Ht].
Qed.

Lemma inv_channels_reply g reply s :
  app_inv s -> app_event_ok s (AeChannelsReply g reply) -> app_inv (channels_reply g reply s).
Proof.
  intros Hinv Hr. unfold channels_reply. cbv zeta. apply inv_settle.
  destruct reply as [data|]; [|done]. destruct (app_activeSnapshots s !! g) as [t|] eqn:E; [|done].
  destruct (negb _); [done|]. destruct (map_Forall_lookup_1 _ _ _ _ (ai_trackers _ Hinv) E) as [_ Ht].
  apply inv_channels; [done|].
  destruct (_ =? 0); [exact Hr|]. apply mergeSnapshot_nodup; [exact Hr|exact Ht].
Qed.

Lemma inv_reconnect s : app_inv s -> app_inv (onReconnect s).
Proof.
  intros Hinv. unfold onReconnect. cbv zeta. apply inv_effects.
  assert (H1 := inv_hook s EvReconnect Hinv I (fun _ => I) I).
  assert (H2 := inv_unread _ EvRefresh H1 I (fun _ => I) I). destruct H2 as [Hh Hu Ha Hb Hc Hd Ht].
  constructor; [exact Hh|exact Hu|exact Ha|exact Hb|exact Hc|exact Hd|].
  cbn [app_activeSnapshots set]. apply map_Forall_insert_2; [by split; constructor|exact Ht].
Qed.

Lemma run_inv s e :
  app_inv s -> app_event_ok s e -> (fresh -> fresh_app s e) -> (clear -> clear_app s e) ->
  app_inv (run_handler s e).
Proof.
  intros Hinv He Hfr Hcl. destruct e; cbn [RealtimeApp.run_handler].
  - by apply inv_health.
  - by apply inv_reconnect.
  - by apply inv_message.
  - unfold onContact, set_contacts. assert (H1 := inv_note SkContacts [c_public_key (in_contact contact)] s Hinv).
    destruct (mergeContactIntoList _ _) eqn:E; [|done].
    apply inv_contacts; [done|]. eapply merge_contact_nodup; [apply H1|exact E].
  - by apply inv_resolved.
  - unfold onChannel. cbv zeta. assert (H1 := inv_note SkChannels [ch_key channel] s Hinv).
    assert (H2 := inv_channels _ _ H1 (proj1 (merge_channel_view localeCompare _ channel (ai_channels _ H1)))).
    apply inv_if; [by apply inv_effects|exact H2].
  - unfold onContactDeleted. cbv zeta. apply inv_leave.
    assert (H1 := inv_note SkContacts [publicKey] s Hinv).
    assert (H2 := inv_contacts _ (without_contact publicKey (app_contacts s)) H1
      ltac:(apply NoDup_fmap_filter, Hinv)).
    assert (H3 := inv_hook _ (EvRemoveConversation publicKey) H2 I (fun _ => I) I).
    exact (inv_unread _ (EvRemove (getStateKey KContact publicKey)) H3 I (fun _ => I) I).
  - unfold onChannelDeleted. cbv zeta. apply inv_leave.
    assert (H1 := inv_note SkChannels [key] s Hinv).
    assert (H2 := inv_channels _ (without_channel key (app_channels s)) H1
      ltac:(apply NoDup_fmap_filter, Hinv)).
    assert (H3 := inv_hook _ (EvRemoveConversation key) H2 I (fun _ => I) I).
    exact (inv_unread _ (EvRemove (getStateKey KChannel key)) H3 I (fun _ => I) I).
  - apply inv_effects. by destruct Hinv.
  - by apply inv_hook.
  - by apply inv_hook.
  - by apply inv_channels_reply.
  - by apply inv_contacts_reply.
  - apply (inv_unread s (EvFetchReply reply)); [done|by destruct reply|done|done].
  - by apply inv_hook.
  - by apply inv_hook.
  - by apply inv_next.
  - destruct Hinv as [Hh ? ? ? ? ? ?]. constructor; cbn; try done; [by apply render_ok|].
    exact (render_active _ _ _).
  - by apply inv_hook.
  - by apply inv_hook.
  - by apply inv_hook.
  - by apply inv_hook.
  - by apply (inv_unread s EvMarkAllRead).
Qed.

Inductive app_step : App -> App -> Prop :=
| app_step_event s e : app_event_ok s e -> app_step s (handle_app s e).


Lemma handle_app_ok s e :
  app_ok s -> app_event_ok s e -> (fresh -> fresh_app s e) -> (clear -> clear_app s e) ->
  app_ok (handle_app s e).
Proof. intros [Hinv _] He Hf Hc. apply commit_app_ok. by apply run_inv. Qed.

(** A displayed message is repeated by a page asked after the newest message. *)
Inductive repeating_reply : App -> App -> Prop :=
| repeating_reply_event s rq r :
    app_event_ok s (AeHookReply rq (Some r)) -> repeats s.(app_hook) rq r ->
    repeating_reply s (handle_app s (AeHookReply rq (Some r))).

Inductive resolved_onto_active : App -> App -> Prop :=
| resolved_onto_active_event s previous contact :
    app_event_ok s (AeContactResolved previous contact) -> resolves_active s previous contact ->
    resolved_onto_active s (handle_app s (AeContactResolved previous contact)).

(** The steps that open no conversation. *)
Inductive app_stay : App -> App -> Prop :=
| app_stay_event s e :
    app_event_ok s e -> match e with AeOpen _ => False | _ => True end -> app_stay s (handle_app s e).

Lemma initial_app_ok now c times keys names :
  cache_lists belongs fresh c -> app_ok (initial_app now c times keys names).
Proof.
  intros Hc. split; [|done].
  constructor; [exact (initial_ok belongs fresh c Hc)|exact (mount_ok clear times None (0, 0))|done|done
               |constructor|constructor|apply map_Forall_empty].
Qed.
End app.

(** ** Reachable states *)

Section reachable.
Context (belongs : jstr -> jstr -> Prop) `{!Reflexive belongs}.
Context (checkMention : jstr -> bool) (localeCompare : jstr -> jstr -> comparison).
Context `{MeshDecoder} (lowerName : jstr -> jstr).
Context (now : Z) (c : cache) (times : gmap jstr Z) (keys names : list jstr).
Context (Hcache : cache_lists belongs True c).
Notation handle_app := (handle_app checkMention localeCompare lowerName).
Notation app_step := (app_step belongs checkMention localeCompare lowerName).
Notation app_stay := (app_stay belongs checkMention localeCompare lowerName).
Notation app_ok := (app_ok belongs).
Notation app_inv := (app_inv belongs).
Notation init := (initial_app now c times keys names).

#[export] Instance fresh_app_dec s e : Decision (fresh_app s e).
Proof. destruct e; unfold fresh_app; apply _. Defined.

#[export] Instance resolves_active_dec s previous contact :
  Decision (resolves_active s previous contact).
Proof. unfold resolves_active. apply _. Defined.

#[export] Instance clear_app_dec s e : Decision (clear_app s e).
Proof. destruct e; unfold clear_app; apply _. Defined.

Lemma reachable_app_ok s : rtc app_step init s -> app_ok False False s.
Proof using Hcache Reflexive0.
  intros Hr. assert (Hi : app_ok False False init) by (apply initial_app_ok; by eapply cache_lists_weaken).
  induction Hr as [|s1 s2 s3 [s e He] _ IH]; [done|]. by apply IH, handle_app_ok.
Qed.

Lemma reachable_app_once s :
  rtc app_step init s ->
  app_ok True False s
  \/ exists a b, rtc app_step init a
       /\ repeating_reply belongs checkMention localeCompare lowerName a b /\ rtc app_step b s.
Proof using Hcache Reflexive0.
  intros Hr. apply (rtc_unless app_step app_step _ (app_ok True False) init s).
  - by apply initial_app_ok.
  - intros a b _ Hab Ha. revert Ha. destruct Hab as [g e He]. intros Hg.
    destruct (decide (fresh_app g e)) as [Hf|Hf]; [left; by apply handle_app_ok|].
    right. destruct e; try by destruct Hf.
    destruct (not_fresh _ _ Hf) as (rq' & r & [= <- ->] & ?). by constructor.
  - by right.
  - exact Hr.
Qed.

(** Whatever was known, the conversation that is opened has no counter. *)
Lemma commit_app_opens s conv :
  app_inv False False s -> s.(app_next) = Some conv -> app_ok False True (commit_app s).
Proof using Reflexive0.
  intros Hinv Hn. unfold commit_app. cbv zeta.
  set (lengths := (len (app_channels s), len (app_contacts s))).
  assert (H1 := inv_unread _ _ _ s (EvLengths lengths.1 lengths.2) Hinv I (fun _ => I) I).
  apply fallback_ok. unfold render_next at 1. cbn [app_next set]. rewrite Hn.
  destruct H1 as [Hh Hu ? ? ? ? ?]. constructor; cbn; try done.
  - by apply render_ok.
  - by eapply open_ok.
  - exact (render_active _ _ _).
  - destruct (open_tables False conv _ Hu) as (_ & _ & _ & E). exact E.
Qed.

Lemma reachable_app_clear s :
  rtc app_step init s ->
  app_ok False True s
  \/ exists a b, rtc app_step init a
       /\ resolved_onto_active belongs checkMention localeCompare lowerName a b /\ rtc app_stay b s.
Proof using Hcache Reflexive0.
  intros Hr. apply (rtc_unless app_step app_stay _ (app_ok False True) init s).
  - apply initial_app_ok. by eapply cache_lists_weaken.
  - intros a b _ Hab Ha. revert Ha. destruct Hab as [g e He]. intros Hg.
    destruct (decide (clear_app g e)) as [Hf|Hf]; [left; by apply handle_app_ok|].
    right. destruct e; try by destruct Hf. cbn [clear_app] in Hf. constructor; [done|].
    destruct (decide (resolves_active g previousPublicKey contact)); [done|by destruct Hf].
  - intros a b Ha%reachable_app_ok Hab. revert Ha. destruct Hab as [g e He]. intros [Hg _].
    destruct e; try by right; constructor. left. eapply commit_app_opens; [|done].
    by apply inv_next.
  - exact Hr.
Qed.
End reachable.

(** ** A snapshot and the updates received meanwhile *)

Section reconnect.
Context (checkMention : jstr -> bool) (localeCompare : jstr -> jstr -> comparison).
Context `{MeshDecoder} (lowerName : jstr -> jstr).
Notation handle_app := (handle_app checkMention localeCompare lowerName).
Notation run_handler := (run_handler checkMention localeCompare lowerName).

Definition tr_touched (kind : SnapshotKind) (t : SnapshotTracker) : list jstr :=
  match kind with SkContacts => t.(tr_contacts) | SkChannels => t.(tr_channels) end.
Definition tr_pending (kind : SnapshotKind) (t : SnapshotTracker) : bool :=
  match kind with SkContacts => t.(tr_contactsPending) | SkChannels => t.(tr_channelsPending) end.

(** The keys an event touches, and whether it leaves the snapshot [g] of a kind in flight. *)
Definition touched_by (kind : SnapshotKind) (e : AppEvent) : list jstr :=
  match kind, e with
  | SkContacts, AeContact c => [c.(in_contact).(c_public_key)]
  | SkContacts, AeContactResolved previous c => [previous; c.(in_contact).(c_public_key)]
  | SkContacts, AeContactDeleted key => [key]
  | SkChannels, AeChannel c => [c.(ch_key)]
  | SkChannels, AeChannelDeleted key => [key]
  | _, _ => []
  end.
Definition in_flight (kind : SnapshotKind) (g : Z) (e : AppEvent) : Prop :=
  match kind, e with
  | _, AeReconnect => False
  | SkContacts, AeContactsReply g' _ => g' <> g
  | SkChannels, AeChannelsReply g' _ => g' <> g
  | _, _ => True
  end.

(** What a commit leaves alone. *)
Lemma commit_app_frame s :
  (commit_app s).(app_activeSnapshots) = s.(app_activeSnapshots)
  /\ (commit_app s).(app_reconnectGeneration) = s.(app_reconnectGeneration)
  /\ (commit_app s).(app_channels) = s.(app_channels)
  /\ (commit_app s).(app_contacts) = s.(app_contacts).
Proof.
  unfold commit_app. cbv zeta.
  assert (Hr : forall s, app_activeSnapshots (render_next s) = app_activeSnapshots s
    /\ app_reconnectGeneration (render_next s) = app_reconnectGeneration s
    /\ app_channels (render_next s) = app_channels s
    /\ app_contacts (render_next s) = app_contacts s).
  { intros s'. unfold render_next. by destruct (app_next s'). }
  assert (Hd : forall s, app_activeSnapshots (delete_fallback s) = app_activeSnapshots s
    /\ app_reconnectGeneration (delete_fallback s) = app_reconnectGeneration s
    /\ app_channels (delete_fallback s) = app_channels s
    /\ app_contacts (delete_fallback s) = app_contacts s).
  { intros s'. unfold delete_fallback. destruct (negb _); [done|].
    destruct (app_active s'); [done|]. by destruct (findPublicChannel _). }
  destruct (Hr (delete_fallback (render_next (s <| app_unread :=
    observe_lengths (len (app_channels s), len (app_contacts s)) (app_unread s) |>)))) as (-> & -> & -> & ->).
  match goal with |- context [delete_fallback ?x] => destruct (Hd x) as (-> & -> & -> & ->) end.
  match goal with |- context [render_next ?x] => destruct (Hr x) as (-> & -> & -> & ->) end. done.
Qed.

(** The snapshots, their generation and the channels, as a handler sees them. *)
Definition snapshot_view (s : App) := (s.(app_activeSnapshots), s.(app_reconnectGeneration)).

Lemma note_view kind keys s :
  snapshot_view (noteDelta kind keys s)
  = (note_keys kind keys <$> s.(app_activeSnapshots), s.(app_reconnectGeneration)).
Proof. done. Qed.

Definition delta_view (e : AppEvent) (s : App) :=
  match e with
  | AeContact _ | AeContactResolved _ _ | AeContactDeleted _ =>
    snapshot_view (noteDelta SkContacts (touched_by SkContacts e) s)
  | AeChannel _ | AeChannelDeleted _ => snapshot_view (noteDelta SkChannels (touched_by SkChannels e) s)
  | AeChannelsReply g _ => snapshot_view (settle_snapshot g SkChannels s)
  | AeContactsReply g _ => snapshot_view (settle_snapshot g SkContacts s)
  | _ => snapshot_view s
  end.

Lemma run_view s e : e <> AeReconnect -> snapshot_view (run_handler s e) = delta_view e s.
Proof.
  intros Hne. destruct e; try done; cbn [RealtimeApp.run_handler delta_view touched_by].
  - unfold onHealth, effects. cbv zeta. by repeat case_match.
  - unfold onMessage. cbv zeta. destruct (isMessageBlocked _ _ _); [done|].
    destruct (observeMessage _ _) as [[? ?] ?]. by destruct (match m_type msg with PRIV => _ | CHAN => _ end).
  - unfold onContact, set_contacts. by destruct (mergeContactIntoList _ _).
  - unfold onContactResolved. cbv zeta. by destruct (is_active _ _ _).
  - unfold onChannel. cbv zeta. by destruct (_ && _).
  - unfold onContactDeleted, leave_deleted. cbv zeta. by destruct (is_active _ _ _).
  - unfold onChannelDeleted, leave_deleted. cbv zeta. by destruct (is_active _ _ _).
  - unfold channels_reply. cbv zeta. set (s' := match reply with Some _ => _ | None => _ end).
    assert (E : snapshot_view s' = snapshot_view s).
    { unfold s'. destruct reply; [|done]. destruct (app_activeSnapshots s !! generation); [|done].
      by destruct (negb _). }
    injection E as E1 E2. unfold settle_snapshot. rewrite E1.
    destruct (app_activeSnapshots s !! generation); unfold snapshot_view; cbn; by rewrite ?E1, ?E2.
  - unfold contacts_reply. cbv zeta. set (s' := match reply with Some _ => _ | None => _ end).
    assert (E : snapshot_view s' = snapshot_view s).
    { unfold s'. destruct reply; [|done]. destruct (app_activeSnapshots s !! generation); [|done].
      by destruct (negb _). }
    injection E as E1 E2. unfold settle_snapshot. rewrite E1.
    destruct (app_activeSnapshots s !! generation); unfold snapshot_view; cbn; by rewrite ?E1, ?E2.
Qed.

Lemma handle_view s e : e <> AeReconnect -> snapshot_view (handle_app s e) = delta_view e s.
Proof.
  intros Hne. rewrite <- run_view by done. unfold RealtimeApp.handle_app, snapshot_view.
  by destruct (commit_app_frame (run_handler s e)) as (-> & -> & _).
Qed.
(** The snapshot [g] is the newest, still waits for a reply, and has noted these keys. *)
Definition flying (kind : SnapshotKind) (g : Z) (touched : list jstr) (s : App) : Prop :=
  s.(app_reconnectGeneration) = g
  /\ exists t, s.(app_activeSnapshots) !! g = Some t /\ tr_pending kind t = true
               /\ tr_touched kind t = touched.

Lemma flying_note kind g l s kind' keys :
  flying kind g l s ->
  (note_keys kind' keys <$> s.(app_activeSnapshots)) !! g
    = note_keys kind' keys <$> (s.(app_activeSnapshots) !! g).
Proof. intros _. apply lookup_fmap. Qed.

Lemma flying_step kind g l s e :
  in_flight kind g e -> flying kind g l s ->
  flying kind g (foldl add_key l (touched_by kind e)) (handle_app s e).
Proof.
  intros He (Hg & t & Ht & Hp & <-).
  assert (Hne : e <> AeReconnect) by (intros ->; by destruct kind).
  assert (Hv := handle_view s e Hne). unfold flying.
  assert (Hset : forall k' g', (k' = kind -> g' <> g) ->
    exists t', app_activeSnapshots (settle_snapshot g' k' s) !! g = Some t'
      /\ tr_pending kind t' = true /\ tr_touched kind t' = tr_touched kind t).
  { intros k' g' Hk'. unfold settle_snapshot. destruct (app_activeSnapshots s !! g') as [t1|] eqn:E1; [|by exists t].
    destruct (decide (g' = g)) as [->|Hne'].
    - rewrite Ht in E1. injection E1 as <-.
      assert (Hk : k' <> kind) by (intros E; by apply (Hk' E)).
      destruct kind, k'; try done; cbn in Hp |- *; rewrite Hp, ?orb_true_r; cbn;
        rewrite lookup_insert_eq; eexists; (split; [reflexivity|done]).
    - destruct (_ || _); cbn; [rewrite lookup_insert_ne by done|rewrite lookup_delete_ne by done]; by exists t. }
  assert (Hgen : forall k' g', app_reconnectGeneration (settle_snapshot g' k' s) = app_reconnectGeneration s).
  { intros k' g'. unfold settle_snapshot. by destruct (app_activeSnapshots s !! g'). }
  destruct e; try done; cbn [delta_view] in Hv; unfold snapshot_view in Hv; injection Hv as Ev Eg;
    rewrite Ev, Eg; cbn [noteDelta app_activeSnapshots app_reconnectGeneration set];
    rewrite ?Hgen, ?lookup_fmap, ?Ht; (split; [done|]);
    try (destruct kind; eexists; (split; [reflexivity|done])).
  - destruct kind; apply Hset; [done|]. by intros _.
  - destruct kind; apply Hset; [|done]. by intros _.
Qed.

Definition touched_over (kind : SnapshotKind) (es : list AppEvent) : list jstr :=
  concat (touched_by kind <$> es).

Lemma flying_trace kind g es l s :
  Forall (in_flight kind g) es -> flying kind g l s ->
  flying kind g (foldl add_key l (touched_over kind es)) (foldl handle_app s es).
Proof.
  intros Hes. revert l s. induction Hes as [|e es He _ IH]; intros l s Hs; [done|]. cbn.
  rewrite foldl_app. by apply IH, flying_step.
Qed.

Lemma reconnect_flying kind s :
  flying kind (s.(app_reconnectGeneration) + 1) [] (handle_app s AeReconnect).
Proof.
  unfold RealtimeApp.handle_app. unfold flying.
  destruct (commit_app_frame (run_handler s AeReconnect)) as (-> & -> & _).
  split; [done|]. cbn. rewrite lookup_insert_eq. destruct kind; eexists; (split; [reflexivity|done]).
Qed.

(** ** Channels: the updates replayed on the snapshot *)

Definition channel_delta (m : gmap jstr Channel) (e : AppEvent) : gmap jstr Channel :=
  match e with
  | AeChannel c => <[c.(ch_key) := c]> m
  | AeChannelDeleted key => delete key m
  | _ => m
  end.

Lemma channel_delta_touched e m m' k :
  channel_delta m e !! k
  = if bool_decide (k ∈ touched_by SkChannels e) then channel_delta m' e !! k else m !! k.
Proof.
  destruct e; cbn [channel_delta touched_by];
    try (rewrite bool_decide_eq_false_2 by apply not_elem_of_nil; done).
  - case_bool_decide as Hk; rewrite list_elem_of_singleton in Hk; [subst; by rewrite !lookup_insert_eq|].
    by rewrite lookup_insert_ne by congruence.
  - case_bool_decide as Hk; rewrite list_elem_of_singleton in Hk; [subst; by rewrite !lookup_delete_eq|].
    by rewrite lookup_delete_ne by congruence.
Qed.

Lemma channel_deltas_touched es m m' k :
  foldl channel_delta m es !! k
  = if bool_decide (k ∈ touched_over SkChannels es) then foldl channel_delta m' es !! k else m !! k.
Proof.
  revert m m'. induction es as [|e es IH]; intros m m'.
  { cbn. by rewrite bool_decide_eq_false_2 by apply not_elem_of_nil. }
  unfold touched_over. cbn [foldl fmap list_fmap concat]. change (concat _) with (touched_over SkChannels es).
  rewrite (bool_decide_ext (k ∈ _ ++ _) _ (elem_of_app _ _ _)), bool_decide_or.
  rewrite (IH _ (channel_delta m' e)). destruct (bool_decide (k ∈ touched_over _ _)) eqn:E;
    [by rewrite orb_true_r|]. rewrite orb_false_r, (channel_delta_touched e m m').
  by rewrite (IH (channel_delta m' e) m).
Qed.

Lemma channels_step g s e :
  s.(app_reconnectGeneration) = g -> in_flight SkChannels g e -> NoDup (ch_key <$> s.(app_channels)) ->
  NoDup (ch_key <$> (handle_app s e).(app_channels))
  /\ by_key_map ch_key (handle_app s e).(app_channels)
     = channel_delta (by_key_map ch_key s.(app_channels)) e.
Proof.
  intros Hg He Hnd. unfold RealtimeApp.handle_app.
  destruct (commit_app_frame (run_handler s e)) as (_ & _ & -> & _).
  assert (Hs : forall g' k' s', app_channels (settle_snapshot g' k' s') = app_channels s').
  { intros g' k' s'. unfold settle_snapshot. by destruct (app_activeSnapshots s' !! g'). }
  destruct e; try done; cbn [RealtimeApp.run_handler channel_delta].
  - unfold onHealth, effects. cbv zeta. by repeat case_match.
  - unfold onMessage. cbv zeta. destruct (isMessageBlocked _ _ _); [done|].
    destruct (observeMessage _ _) as [[? ?] ?]. by destruct (match m_type msg with PRIV => _ | CHAN => _ end).
  - unfold onContact, set_contacts. by destruct (mergeContactIntoList _ _).
  - unfold onContactResolved. cbv zeta. by destruct (is_active _ _ _).
  - unfold onChannel. cbv zeta. assert (Hc := merge_channel_view localeCompare _ channel Hnd).
    by destruct (_ && _).
  - unfold onContactDeleted, leave_deleted. cbv zeta. by destruct (is_active _ _ _).
  - assert (E : app_channels (onChannelDeleted key s) = without_channel key (app_channels s)).
    { unfold onChannelDeleted, leave_deleted. cbv zeta. by destruct (is_active _ _ _). }
    rewrite E. split; [by apply NoDup_fmap_filter|by apply by_key_map_filter].
  - unfold channels_reply. cbv zeta. rewrite Hs. destruct reply; [|done].
    destruct (app_activeSnapshots s !! generation); [|done].
    cbn [in_flight] in He. destruct (Z.eqb_spec generation (app_reconnectGeneration s)); [congruence|done].
  - unfold contacts_reply. cbv zeta. rewrite Hs. destruct reply; [|done].
    destruct (app_activeSnapshots s !! generation); [|done]. by destruct (negb _).
Qed.

Lemma channels_trace g kind l es s :
  Forall (in_flight SkChannels g) es -> flying kind g l s -> kind = SkChannels ->
  NoDup (ch_key <$> s.(app_channels)) ->
  NoDup (ch_key <$> (foldl handle_app s es).(app_channels))
  /\ by_key_map ch_key (foldl handle_app s es).(app_channels)
     = foldl channel_delta (by_key_map ch_key s.(app_channels)) es.
Proof.
  intros Hes Hf -> Hnd. revert l s Hf Hnd. induction Hes as [|e es He _ IH]; intros l s Hf Hnd; [done|].
  cbn [foldl]. destruct (channels_step g s e (proj1 Hf) He Hnd) as [Hnd' <-].
  eapply IH; [by apply flying_step|done].
Qed.
End reconnect.

(** ** Deletion *)

(** No counter, mention or boundary under a key. *)
Definition unread_gone (k : jstr) (u : Unread) : Prop :=
  u.(ur_unreadCounts) !! k = None /\ u.(ur_mentions) !! k <> Some true
  /\ u.(ur_firstUnreadIds) !! k = None.

Lemma gone_removed k u : unread_gone k (removeConversationState k u).
Proof. split_and!; cbn; rewrite ?lookup_delete_eq; done. Qed.

Lemma gone_open clear k conv u : unread_ok clear u -> unread_gone k u ->
  unread_gone k (open_conversation conv u).
Proof.
  intros Hok (Hc & Hm & Hf). destruct (open_tables clear conv u Hok) as (E1 & E2 & E3 & _). unfold unread_gone.
  rewrite E1, E3. split_and!; [|rewrite E2|done]; destruct (tracked_key conv) as [k'|]; cbn [delete_opt];
    try done.
  - apply lookup_delete_None. by right.
  - rewrite lookup_delete_Some. by intros [_ ?].
Qed.

Lemma gone_lengths k lengths u : unread_gone k u -> unread_gone k (observe_lengths lengths u).
Proof. unfold observe_lengths. destruct (ur_lengths u); [by destruct (_ ≟ _)|done]. Qed.

Section deletion.
Context (belongs : jstr -> jstr -> Prop) `{!Reflexive belongs} (fresh clear : Prop).
Notation app_inv := (app_inv belongs fresh clear).

Lemma gone_render k s :
  app_inv s -> unread_gone k s.(app_unread) -> unread_gone k (render_next s).(app_unread).
Proof.
  intros Hinv Hk. unfold render_next. destruct (app_next s) as [conv|]; [|done].
  cbn [app_unread set]. by eapply gone_open; [apply Hinv|].
Qed.

Lemma gone_commit k s :
  app_inv s -> unread_gone k s.(app_unread) -> unread_gone k (commit_app s).(app_unread).
Proof.
  intros Hinv Hk. unfold commit_app. cbv zeta.
  set (lengths := (len (app_channels s), len (app_contacts s))).
  assert (H1 := inv_unread _ _ _ s (EvLengths lengths.1 lengths.2) Hinv I (fun _ => I) I).
  set (s1 := s <| app_unread := observe_lengths lengths (app_unread s) |>). change (app_inv s1) in H1.
  assert (Hk1 : unread_gone k (app_unread s1)) by by apply gone_lengths.
  destruct (render_next_ok _ _ _ _ H1) as [H2 _]. assert (Hk2 := gone_render k s1 H1 Hk1).
  set (s2 := render_next s1) in *. unfold delete_fallback.
  destruct (negb _); [by apply gone_render|].
  destruct (app_active s2); [|destruct (findPublicChannel _); [|by apply gone_render]].
  - by apply gone_render; [destruct H2|].
  - by apply gone_render; [destruct H2|].
Qed.
End deletion.

(** Where a commit leads: to the conversation that was set, or to Public after a deletion. *)
Lemma commit_app_active s :
  (commit_app s).(app_active)
  = match default s.(app_active) s.(app_next) with
    | Some c => Some c
    | None => if s.(app_pendingDeleteFallback)
              then channel_conversation_of <$> findPublicChannel s.(app_channels) else None
    end.
Proof.
  unfold commit_app. cbv zeta. set (s1 := s <| app_unread := _ |>).
  set (target := default _ _).
  assert (H1 : app_active (render_next s1) = target /\ app_next (render_next s1) = None
    /\ app_pendingDeleteFallback (render_next s1) = app_pendingDeleteFallback s
    /\ app_channels (render_next s1) = app_channels s).
  { unfold render_next, target. change (app_next s1) with (app_next s).
    by destruct (app_next s) as [conv|] eqn:E. }
  destruct H1 as (Ea & En & Ep & Ec). set (s2 := render_next s1) in *.
  unfold delete_fallback. rewrite Ep, Ea, Ec.
  destruct (app_pendingDeleteFallback s); cbn [negb].
  - destruct target as [c|].
    + unfold render_next. cbn [app_next set]. by rewrite En.
    + destruct (findPublicChannel _) as [p|]; [done|]. unfold render_next. by rewrite En.
  - unfold render_next. rewrite En, Ea. by destruct target.
Qed.

(** A commit with nothing to navigate to leaves the hook alone. *)
Lemma commit_stays s :
  s.(app_next) = None -> is_Some s.(app_active) -> (commit_app s).(app_hook) = s.(app_hook).
Proof.
  intros Hn [c Hc]. unfold commit_app. cbv zeta. set (s1 := s <| app_unread := _ |>).
  assert (E : render_next s1 = s1).
  { unfold render_next. change (app_next s1) with (app_next s). by rewrite Hn. }
  rewrite E. unfold delete_fallback. change (app_active s1) with (app_active s). rewrite Hc.
  destruct (negb _); [by rewrite E|]. unfold render_next.
  change (app_next (s1 <| app_pendingDeleteFallback := false |>)) with (app_next s). by rewrite Hn.
Qed.

(** ** Properties *)

(** An application without contacts, and a run of it. *)
Definition example_app : App := initial_app 0 [] ∅ [] [].
Definition example_handle : App -> AppEvent -> App :=
  @handle_app (fun _ => false) str_compare example_decoder (fun name => name).

Definition example_channel (key : jstr) (muted : bool) : Channel :=
  {| ch_key := key; ch_name := key; ch_is_hashtag := false; ch_on_radio := false;
     ch_flood_scope_override := None; ch_path_hash_mode_override := None; ch_last_read_at := None;
     ch_favorite := false; ch_pinned := None; ch_muted := muted; ch_muted_until := None;
     ch_membership := None |}.

(** C2: the components agree: in every state the application can reach, the conversation hook,
    the counters and the router have the same conversation on screen, the list shows only its
    messages, counters are positive, a counted conversation has its boundary, and no contact and
    no channel is listed twice. A message is shown once, except after a page asked after the
    newest message repeated one whose content the deduplication set lacked; and the conversation
    on screen has no counter, except when a contact with unread messages was resolved into it and
    no conversation was opened since. Asked of the events: the server's replies are about what
    was asked and list a key once, its unread counts are consistent, a contact is resolved into
    one its messages belong to, and each event is followed by a render. *)
Theorem app_invariant (belongs : jstr -> jstr -> Prop)
    (checkMention : jstr -> bool) (localeCompare : jstr -> jstr -> comparison)
    (decoder : MeshDecoder) (lowerName : jstr -> jstr)
    (now : Z) (c : cache) (times : gmap jstr Z) (keys names : list jstr) (s : App)
    (Hrefl : Reflexive belongs) (Hcache : cache_lists belongs True c)
    (Hreach : rtc (app_step belongs checkMention localeCompare lowerName)
                (initial_app now c times keys names) s) :
  let init := initial_app now c times keys names in
  let step := app_step belongs checkMention localeCompare lowerName in
  s.(app_hook).(hk_activeConversation) = s.(app_active)
  /\ s.(app_unread).(ur_active) = s.(app_active)
  /\ (forall m, m ∈ s.(app_hook).(hk_messages) ->
        exists conv, s.(app_active) = Some conv /\ belongs conv.(cv_id) m.(m_conversation_key))
  /\ (forall k n, s.(app_unread).(ur_unreadCounts) !! k = Some n ->
        0 < n /\ exists i, s.(app_unread).(ur_firstUnreadIds) !! k = Some (Some i))
  /\ NoDup (c_public_key <$> s.(app_contacts)) /\ NoDup (ch_key <$> s.(app_channels))
  /\ (NoDup (m_id <$> s.(app_hook).(hk_messages))
      \/ exists s1 s2, rtc step init s1
           /\ repeating_reply belongs checkMention localeCompare lowerName s1 s2 /\ rtc step s2 s)
  /\ ((forall k, tracked_key s.(app_active) = Some k -> s.(app_unread).(ur_unreadCounts) !! k = None)
      \/ exists s1 s2, rtc step init s1
           /\ resolved_onto_active belongs checkMention localeCompare lowerName s1 s2
           /\ rtc (app_stay belongs checkMention localeCompare lowerName) s2 s).
Proof.
  intros init step.
  destruct (reachable_app_ok belongs checkMention localeCompare lowerName now c times keys names
              Hcache s Hreach) as [[Hh Hu Ha Hua Hc Hch _] _].
  destruct Hh as [[H1 _ H3 _] _ _]. rewrite H1, Ha in H3. destruct Hu as [[Hp _ Hb] _].
  split_and!; try done.
  - intros m Hm. destruct (app_active s) as [conv|]; cbn in H3.
    + exists conv. split; [done|]. destruct H3 as [Hrows _]. by eapply Forall_forall in Hrows.
    + rewrite H3 in Hm. by apply not_elem_of_nil in Hm.
  - intros k n Hn. split; [by eapply Hp|]. apply Hb. by rewrite Hn.
  - destruct (reachable_app_once belongs checkMention localeCompare lowerName now c times keys names
      Hcache s Hreach) as [[[[[E1 _ Hs _] _ _] _ E _ _ _ _] _]|]; [left|by right].
    rewrite E1, E in Hs. destruct (app_active s); cbn in Hs; [by apply Hs|]. rewrite Hs. constructor.
  - destruct (reachable_app_clear belongs checkMention localeCompare lowerName now c times keys names
      Hcache s Hreach) as [[[_ [_ Hcl] _ E _ _ _] _]|]; [left|by right].
    rewrite <- E. by apply Hcl.
Qed.

Lemma app_invariant_witness :
  let s := example_handle example_app (AeMessage 0 (unread_message (js "B") 7 false)) in
  s.(app_unread).(ur_unreadCounts) !! chan (js "B") = Some 1
  /\ exists i, s.(app_unread).(ur_firstUnreadIds) !! chan (js "B") = Some (Some i).
Proof.
  split; [by vm_compute|].
  refine (proj2 (proj1 (proj2 (proj2 (proj2
    (app_invariant eq (fun _ => false) str_compare example_decoder (fun name => name)
       0 [] ∅ [] [] _ _ (Forall_nil_2 _) _)))) (chan (js "B")) 1 _)).
  - apply rtc_once. by constructor.
  - by vm_compute.
Defined.

(** C3: a reconnect loses no channel update: whatever the order in which the reloaded list and
    the updates of the socket come in (while no newer reconnect has superseded it), the result
    is the updates applied to the reloaded list; the rows the server listed keep its order and
    come first; and the replies of superseded reloads change nothing. *)
Theorem reconnect_replays_deltas (checkMention : jstr -> bool)
    (localeCompare : jstr -> jstr -> comparison) (decoder : MeshDecoder) (lowerName : jstr -> jstr)
    (s : App) (es : list AppEvent) (data : list Channel)
    (Hkeys : NoDup (ch_key <$> s.(app_channels))) (Hdata : NoDup (ch_key <$> data))
    (Hflight : Forall (in_flight SkChannels (s.(app_reconnectGeneration) + 1)) es) :
  let handle := handle_app checkMention localeCompare lowerName in
  let g := s.(app_reconnectGeneration) + 1 in
  let s' := foldl handle (handle s AeReconnect) es in
  let s'' := handle s' (AeChannelsReply g (Some data)) in
  by_key_map ch_key s''.(app_channels) = foldl channel_delta (by_key_map ch_key data) es
  /\ (exists old new, ch_key <$> s''.(app_channels) = old ++ new /\ sublist old (ch_key <$> data)
        /\ forall k, k ∈ new -> k ∉ ch_key <$> data)
  /\ (forall g' reply, g' <> g ->
        (handle s' (AeChannelsReply g' reply)).(app_channels) = s'.(app_channels)).
Proof.
  intros handle g s' s''.
  assert (Hf0 := reconnect_flying checkMention localeCompare lowerName SkChannels s).
  assert (Hc0 : app_channels (handle s AeReconnect) = app_channels s).
  { unfold handle, RealtimeApp.handle_app.
    by destruct (commit_app_frame (run_handler checkMention localeCompare lowerName s AeReconnect))
      as (_ & _ & -> & _). }
  destruct (channels_trace checkMention localeCompare lowerName g SkChannels _ es _ Hflight Hf0 eq_refl)
    as [Hnd Hview].
  { change (NoDup (ch_key <$> app_channels (handle s AeReconnect))). by rewrite Hc0. }
  assert (Hf := flying_trace checkMention localeCompare lowerName SkChannels g es _ _ Hflight Hf0).
  fold handle s' in Hnd, Hview, Hf. destruct Hf as (Hg & t & Ht & _ & Htouch). cbn [tr_touched] in Htouch.
  assert (Htnd : NoDup (tr_channels t)) by (rewrite Htouch; apply add_keys_nodup; constructor).
  assert (Hkt : forall k, k ∈ tr_channels t <-> k ∈ touched_over SkChannels es).
  { intros k. rewrite Htouch, elem_of_add_keys, elem_of_nil. tauto. }
  assert (Hs'' : app_channels s'' = mergeSnapshot data (app_channels s') (tr_channels t) ch_key).
  { unfold s'', handle, RealtimeApp.handle_app.
    match goal with |- context [commit_app ?x] => destruct (commit_app_frame x) as (_ & _ & -> & _) end.
    cbn [run_handler]. unfold channels_reply, settle_snapshot. cbv zeta. rewrite Ht, Hg, Z.eqb_refl.
    cbn [negb app_activeSnapshots set]. rewrite Ht. cbn [app_channels set]. unfold mergeSnapshot.
    by destruct (len (tr_channels t) =? 0). }
  split; [|split].
  - rewrite Hs''. apply map_eq. intros k. rewrite mergeSnapshot_lookup by done.
    rewrite (channel_deltas_touched es (by_key_map ch_key data) (by_key_map ch_key (app_channels s))).
    rewrite (bool_decide_ext _ _ (Hkt k)).
    destruct (bool_decide _); [|done]. rewrite Hview, Hc0. done.
  - rewrite Hs''. destruct (mergeSnapshot_order ch_key data (app_channels s') (tr_channels t))
      as (old & new & E & Ho & _ & Hn). by exists old, new.
  - intros g' reply Hne. unfold handle, RealtimeApp.handle_app.
    match goal with |- context [commit_app ?x] => destruct (commit_app_frame x) as (_ & _ & -> & _) end.
    cbn [run_handler]. unfold channels_reply. cbv zeta.
    assert (Hset : forall x, app_channels (settle_snapshot g' SkChannels x) = app_channels x).
    { intros x. unfold settle_snapshot. by destruct (app_activeSnapshots x !! g'). }
    rewrite Hset. destruct reply; [|done]. destruct (app_activeSnapshots s' !! g'); [|done].
    rewrite Hg. by destruct (Z.eqb_spec g' g).
Qed.

Lemma reconnect_replays_deltas_witness :
  let s := foldl example_handle (example_handle example_app AeReconnect)
    [AeChannel (example_channel (js "B") true); AeChannelDeleted (js "A")] in
  let s' := example_handle s (AeChannelsReply 1
    (Some [example_channel (js "A") false; example_channel (js "B") false;
           example_channel (js "C") false])) in
  by_key_map ch_key s'.(app_channels)
  = <[js "B" := example_channel (js "B") true]> {[js "C" := example_channel (js "C") false]}.
Proof.
  cbv zeta. etrans.
  - refine (proj1 (reconnect_replays_deltas (fun _ => false) str_compare example_decoder
      (fun name => name) example_app [AeChannel (example_channel (js "B") true);
        AeChannelDeleted (js "A")] _ _ _ _)).
    + constructor.
    + apply (decide_by_vm (NoDup _)). by vm_compute.
    + by repeat constructor.
  - vm_compute. reflexivity.
Defined.

(** C27: a reloaded contact list overwrites no contact the socket updated meanwhile: after the
    reply of the newest reload, a key touched since the reconnect has the row it had just before
    the reply (none, if it was deleted), and every other key the server's. *)
Theorem contacts_snapshot_keeps_deltas (checkMention : jstr -> bool)
    (localeCompare : jstr -> jstr -> comparison) (decoder : MeshDecoder) (lowerName : jstr -> jstr)
    (s : App) (es : list AppEvent) (data : list Contact) (k : jstr)
    (Hdata : NoDup (c_public_key <$> data))
    (Hflight : Forall (in_flight SkContacts (s.(app_reconnectGeneration) + 1)) es) :
  let handle := handle_app checkMention localeCompare lowerName in
  let s' := foldl handle (handle s AeReconnect) es in
  let s'' := handle s' (AeContactsReply (s.(app_reconnectGeneration) + 1) (Some data)) in
  NoDup (c_public_key <$> s''.(app_contacts))
  /\ by_key_map c_public_key s''.(app_contacts) !! k
     = by_key_map c_public_key (if bool_decide (k ∈ touched_over SkContacts es)
                                then s'.(app_contacts) else data) !! k.
Proof.
  intros handle s' s''. set (g := app_reconnectGeneration s + 1) in *.
  assert (Hf0 := reconnect_flying checkMention localeCompare lowerName SkContacts s).
  assert (Hf := flying_trace checkMention localeCompare lowerName SkContacts g es _ _ Hflight Hf0).
  fold handle s' in Hf. destruct Hf as (Hg & t & Ht & _ & Htouch). cbn [tr_touched] in Htouch.
  assert (Htnd : NoDup (tr_contacts t)) by (rewrite Htouch; apply add_keys_nodup; constructor).
  assert (Hkt : forall k, k ∈ tr_contacts t <-> k ∈ touched_over SkContacts es).
  { intros k'. rewrite Htouch, elem_of_add_keys, elem_of_nil. tauto. }
  assert (Hs'' : app_contacts s'' = mergeSnapshot data (app_contacts s') (tr_contacts t) c_public_key).
  { unfold s'', handle, RealtimeApp.handle_app.
    match goal with |- context [commit_app ?x] => destruct (commit_app_frame x) as (_ & _ & _ & ->) end.
    cbn [run_handler]. unfold contacts_reply, settle_snapshot. cbv zeta. rewrite Ht, Hg, Z.eqb_refl.
    cbn [negb app_activeSnapshots set]. rewrite Ht. cbn [app_contacts set]. unfold mergeSnapshot.
    by destruct (len (tr_contacts t) =? 0). }
  rewrite Hs''. split; [by apply mergeSnapshot_nodup|]. rewrite mergeSnapshot_lookup by done.
  by rewrite (bool_decide_ext _ _ (Hkt k)).
Qed.

Lemma contacts_snapshot_keeps_deltas_witness :
  let s := foldl example_handle (example_handle example_app AeReconnect)
    [AeContactDeleted example_contact.(c_public_key)] in
  let s' := example_handle s (AeContactsReply 1 (Some [example_contact])) in
  by_key_map c_public_key s'.(app_contacts) !! example_contact.(c_public_key) = None.
Proof.
  cbv zeta. etrans.
  - refine (proj2 (contacts_snapshot_keeps_deltas (fun _ => false) str_compare example_decoder
      (fun name => name) example_app [AeContactDeleted example_contact.(c_public_key)]
      [example_contact] example_contact.(c_public_key) _ _)).
    + apply NoDup_singleton.
    + by repeat constructor.
  - by vm_compute.
Defined.

(** A deleted contact is left and forgotten: its row goes and no other does, its counter,
    mention and boundary go, the application leaves its conversation for Public, or for none
    when there is no Public channel, and stays where it was otherwise; and the messages cached
    for it go, unless it is the conversation on screen. *)
Theorem deleted_contact_forgotten (belongs : jstr -> jstr -> Prop) (fresh clear : Prop)
    (checkMention : jstr -> bool) (localeCompare : jstr -> jstr -> comparison)
    (decoder : MeshDecoder) (lowerName : jstr -> jstr) (s : App) (key : jstr) (conv : Conversation)
    (Hrefl : Reflexive belongs) (Hok : app_ok belongs fresh clear s) (Hopen : s.(app_active) = Some conv) :
  let s' := handle_app checkMention localeCompare lowerName s (AeContactDeleted key) in
  s'.(app_contacts) = without_contact key s.(app_contacts)
  /\ unread_gone (getStateKey KContact key) s'.(app_unread)
  /\ s'.(app_active) = (if is_active CtContact key s
                        then channel_conversation_of <$> findPublicChannel s.(app_channels)
                        else Some conv)
  /\ (is_active CtContact key s = false -> om_get s'.(app_hook).(hk_cache) key = None).
Proof.
  intros s'. destruct Hok as [Hinv Hnext].
  set (s1 := onContactDeleted key s).
  assert (Hinv1 : app_inv belongs fresh clear s1).
  { apply (run_inv belongs fresh clear checkMention localeCompare lowerName s (AeContactDeleted key) Hinv I
      (fun _ => I) (fun _ => I)). }
  assert (Hgone : unread_gone (getStateKey KContact key) (app_unread s1)).
  { unfold s1, onContactDeleted, leave_deleted. cbv zeta.
    destruct (is_active _ _ _); apply gone_removed. }
  assert (Hs1 : s1 = leave_deleted CtContact key
    ((noteDelta SkContacts [key] s) <| app_contacts := without_contact key s.(app_contacts) |>
      <| app_hook := ConversationHook.handle s.(app_hook) (EvRemoveConversation key) |>
      <| app_unread := removeConversationState (getStateKey KContact key) s.(app_unread) |>)) by done.
  unfold leave_deleted in Hs1. change (is_active CtContact key (_ <| app_unread := _ |>))
    with (is_active CtContact key s) in Hs1.
  assert (Hs' : s' = commit_app s1) by done. clearbody s' s1. split_and!.
  - rewrite Hs'. destruct (commit_app_frame s1) as (_ & _ & _ & ->). rewrite Hs1.
    by destruct (is_active CtContact key s).
  - rewrite Hs'. by apply (gone_commit belongs fresh clear).
  - rewrite Hs', commit_app_active, Hs1. destruct (is_active CtContact key s); [done|].
    cbn [app_next app_active set noteDelta]. by rewrite Hnext, Hopen.
  - intros Hact. rewrite Hact in Hs1. cbn [noteDelta] in Hs1. rewrite Hs', commit_stays.
    + rewrite Hs1. apply om_get_delete_eq.
    + rewrite Hs1. exact Hnext.
    + rewrite Hs1. exact (ex_intro _ conv Hopen).
Qed.

(** A contact's conversation is open, and Public is known. *)
Definition example_open : App :=
  example_handle (example_handle example_app (AeChannel (example_channel PUBLIC_CHANNEL_KEY false)))
    (AeOpen (Some (example_conversation (js "A")))).

Lemma example_open_ok : app_ok eq True True example_open.
Proof.
  unfold example_open, example_handle. apply handle_app_ok; [apply _| |done..].
  apply handle_app_ok; [apply _| |done..]. apply initial_app_ok, Forall_nil_2.
Qed.

Lemma example_open_active : app_active example_open = Some (example_conversation (js "A")).
Proof. by vm_compute. Qed.

Lemma deleted_contact_forgotten_witness :
  is_active CtContact (js "A") example_open = true
  /\ app_contacts (example_handle example_open (AeContactDeleted (js "A")))
     = without_contact (js "A") example_open.(app_contacts).
Proof.
  split; [by vm_compute|].
  exact (proj1 (deleted_contact_forgotten eq True True (fun _ => false) str_compare example_decoder
    (fun name => name) example_open (js "A") (example_conversation (js "A")) _
    example_open_ok example_open_active)).
Defined.

(** The messages of a contact that is deleted while its conversation is on screen come back into
    the cache: they are dropped from it first, and leaving the conversation hands the list over. *)
Example deleted_open_contact_recached :
  let message := conversation_message (js "A") 0 in
  let s := foldl example_handle example_app
    [AeOpen (Some (example_conversation (js "A"))); AeMessage 0 message;
     AeContactDeleted (js "A")] in
  s.(app_active) = None
  /\ ce_messages <$> cache_peek s.(app_hook).(hk_cache) (js "A") = Some [message].
Proof. vm_compute. done. Qed.
