(* ===== verification/Uri.v ===== *)
(** [encodeURIComponent] and [decodeURIComponent], which write strings into addresses: the
    UTF-8 bytes of the code points, percent-encoded. [None] is a [URIError]. *)
From S2P Require Import Prelude JsString PacketWire.

(** ** Encoding *)

(** The code points of a string of 16-bit units; [None] on a lone surrogate. *)
Fixpoint code_points (s : jstr) : option (list Z) :=
  match s with
  | [] => Some []
  | c :: s' =>
    if in_range 55296 56319 c then
      match s' with
      | c2 :: s'' =>
        if in_range 56320 57343 c2
        then cons (65536 + (c - 55296) * 1024 + (c2 - 56320)) <$> code_points s''
        else None
      | [] => None
      end
    else if in_range 56320 57343 c then None
    else if in_range 0 65535 c then cons c <$> code_points s'
    else None
  end.

Definition utf8_bytes (cp : Z) : list Z :=
  if cp <? 128 then [cp]
  else if cp <? 2048 then [192 + cp / 64; 128 + cp mod 64]
  else if cp <? 65536 then [224 + cp / 4096; 128 + cp / 64 mod 64; 128 + cp mod 64]
  else [240 + cp / 262144; 128 + cp / 4096 mod 64; 128 + cp / 64 mod 64; 128 + cp mod 64].

(** Letters, digits and [- _ . ! ~ * ' ( )] stay as they are. *)
Definition is_unreserved (c : Z) : bool :=
  in_range 97 122 c || in_range 65 90 c || in_range 48 57 c || (c =? 45) || (c =? 95) || (c =? 46)
  || (c =? 33) || (c =? 126) || (c =? 42) || (c =? 39) || (c =? 40) || (c =? 41).

Definition percent (b : Z) : jstr := 37 :: hex_byte b.

Definition encode_code_point (cp : Z) : jstr :=
  if is_unreserved cp then [cp] else concat (percent <$> utf8_bytes cp).

Definition encodeURIComponent (s : jstr) : option jstr :=
  cps ← code_points s; Some (concat (encode_code_point <$> cps)).

(** ** Decoding *)

(** A unit copied as it is, or the byte of an escape. *)
Inductive OctetToken := RawUnit (c : Z) | Octet (b : Z).

Fixpoint octets (s : jstr) : option (list OctetToken) :=
  match s with
  | [] => Some []
  | c :: r =>
    if c =? 37 then
      match r with
      | h :: l :: r' =>
        match hex_val h, hex_val l with
        | Some a, Some b => cons (Octet (a * 16 + b)) <$> octets r'
        | _, _ => None
        end
      | _ => None
      end
    else cons (RawUnit c) <$> octets r
  end.

(** Each run of escapes is one well-formed UTF-8 sequence after another. *)
Fixpoint decode_octets (ts : list OctetToken) : option jstr :=
  match ts with
  | [] => Some []
  | RawUnit c :: r => cons c <$> decode_octets r
  | Octet b0 :: r0 =>
    if b0 <? 128 then cons b0 <$> decode_octets r0
    else match r0 with
    | Octet b1 :: r1 =>
      if in_range 194 223 b0 then u ← utf8_units [b0; b1]; app u <$> decode_octets r1
      else match r1 with
      | Octet b2 :: r2 =>
        if in_range 224 239 b0 then u ← utf8_units [b0; b1; b2]; app u <$> decode_octets r2
        else match r2 with
        | Octet b3 :: r3 => u ← utf8_units [b0; b1; b2; b3]; app u <$> decode_octets r3
        | _ => None
        end
      | _ => None
      end
    | _ => None
    end
  end.

Definition decodeURIComponent (s : jstr) : option jstr := octets s ≫= decode_octets.

(** ** The round trip *)

Definition valid_code_point (cp : Z) : Prop := 0 <= cp < 55296 \/ 57344 <= cp < 1114112.

Lemma code_points_valid s cps :
  code_points s = Some cps ->
  Forall valid_code_point cps /\ concat (utf16_of_code_point <$> cps) = s.
Proof.
  revert cps. induction s as [s IH] using (induction_ltof1 _ (@length Z)). unfold ltof in IH.
  destruct s as [|c s]; intros cps; cbn [code_points]; [by intros [= <-]|].
  destruct (in_range 55296 56319 c) eqn:E1.
  - destruct s as [|c2 s]; [done|]. destruct (in_range 56320 57343 c2) eqn:E2; [|done].
    destruct (code_points s) as [l|] eqn:El; [|done]. intros [= <-].
    destruct (IH s ltac:(cbn; lia) l El) as [Hl <-].
    apply in_range_true in E1, E2. split.
    + constructor; [unfold valid_code_point; lia|done].
    + cbn [fmap list_fmap concat]. unfold utf16_of_code_point at 1.
      destruct (Z.ltb_spec (65536 + (c - 55296) * 1024 + (c2 - 56320)) 65536); [lia|]. cbn [app].
      replace (65536 + (c - 55296) * 1024 + (c2 - 56320) - 65536)
        with ((c - 55296) * 1024 + (c2 - 56320)) by lia.
      rewrite Z.div_add_l, Z.add_comm with (n := (c - 55296) * 1024), Z.mod_add by lia.
      rewrite Z.div_small, Z.mod_small by lia. f_equal; [lia|f_equal; lia].
  - destruct (in_range 56320 57343 c) eqn:E2; [done|].
    destruct (in_range 0 65535 c) eqn:E3; [|done].
    destruct (code_points s) as [l|] eqn:El; [|done]. intros [= <-].
    destruct (IH s ltac:(cbn; lia) l El) as [Hl <-].
    apply in_range_false in E1, E2. apply in_range_true in E3. split.
    + constructor; [unfold valid_code_point; lia|done].
    + cbn [fmap list_fmap concat]. unfold utf16_of_code_point at 1.
      by destruct (Z.ltb_spec c 65536); [|lia].
Qed.

Lemma octets_percent b r :
  0 <= b < 256 -> octets (percent b ++ r) = cons (Octet b) <$> octets r.
Proof.
  intros Hb. unfold percent, hex_byte. cbn [app octets]. change (37 =? 37) with true. cbv iota.
  assert (Hd : forall d, 0 <= d < 16 -> hex_val (hex_digit_upper d) = Some d).
  { intros d Hd. unfold hex_val, hex_digit_upper. split_cmp; ranges; try lia; f_equal; lia. }
  rewrite !Hd; [|apply Z.mod_pos_bound; lia|split; [apply Z.div_pos; lia|apply Z.div_lt_upper_bound; lia]].
  replace (b / 16 * 16 + b mod 16) with b by (pose proof (Z.div_mod b 16); lia). done.
Qed.

Lemma octets_percents bs r :
  Forall (fun b => 0 <= b < 256) bs ->
  octets (concat (percent <$> bs) ++ r) = app (Octet <$> bs) <$> octets r.
Proof.
  induction 1 as [|b bs Hb _ IH]; cbn [fmap list_fmap concat app].
  - by destruct (octets r).
  - rewrite <- app_assoc, octets_percent, IH by done. by destruct (octets r).
Qed.

Lemma utf8_bytes_byte cp : valid_code_point cp -> Forall (fun b => 0 <= b < 256) (utf8_bytes cp).
Proof.
  unfold valid_code_point, utf8_bytes. intros Hv.
  pose proof (Z.mod_pos_bound cp 64 ltac:(lia)). pose proof (Z.mod_pos_bound (cp / 64) 64 ltac:(lia)).
  pose proof (Z.mod_pos_bound (cp / 4096) 64 ltac:(lia)).
  split_cmp; repeat constructor; try lia.
  all: try (apply Z.add_nonneg_nonneg; [lia|apply Z.div_pos; lia]).
  all: match goal with |- ?k + ?c / ?n < 256 => assert (c / n < 256 - k)
    by (apply Z.div_lt_upper_bound; lia); lia end.
Qed.

(** One sequence of escapes decodes to the units of its code point. *)
Lemma decode_utf8 cp r :
  valid_code_point cp ->
  decode_octets ((Octet <$> utf8_bytes cp) ++ r) = app (utf16_of_code_point cp) <$> decode_octets r.
Proof.
  intros Hv. unfold utf8_bytes.
  pose proof (Z.mod_pos_bound cp 64 ltac:(lia)) as H0. pose proof (Z.div_mod cp 64 ltac:(lia)) as D0.
  pose proof (Z.mod_pos_bound (cp / 64) 64 ltac:(lia)) as H1.
  pose proof (Z.div_mod (cp / 64) 64 ltac:(lia)) as D1.
  rewrite (Z.div_div cp 64 64) in D1 by lia. change (64 * 64) with 4096 in D1.
  pose proof (Z.mod_pos_bound (cp / 4096) 64 ltac:(lia)) as H2.
  pose proof (Z.div_mod (cp / 4096) 64 ltac:(lia)) as D2.
  rewrite (Z.div_div cp 4096 64) in D2 by lia. change (4096 * 64) with 262144 in D2.
  set (m0 := cp mod 64) in *. set (q0 := cp / 64) in *. set (m1 := q0 mod 64) in *.
  set (q1 := cp / 4096) in *. set (m2 := q1 mod 64) in *. set (q2 := cp / 262144) in *.
  clearbody m0 q0 m1 q1 m2 q2. unfold valid_code_point in Hv.
  destruct (Z.ltb_spec cp 128); [|destruct (Z.ltb_spec cp 2048); [|destruct (Z.ltb_spec cp 65536)]];
    cbn [fmap list_fmap app decode_octets].
  - rewrite (proj2 (Z.ltb_lt cp 128)) by lia. unfold utf16_of_code_point.
    by rewrite (proj2 (Z.ltb_lt cp 65536)) by lia.
  - rewrite (proj2 (Z.ltb_ge (192 + q0) 128)) by lia.
    rewrite (proj2 (in_range_true 194 223 (192 + q0))) by lia. cbn [utf8_units].
    rewrite (proj2 (Z.ltb_ge (192 + q0) 128)) by lia.
    rewrite (proj2 (in_range_true 194 223 (192 + q0))) by lia.
    rewrite (proj2 (in_range_true 128 191 (128 + m0))) by lia. cbn [fmap option_fmap option_map mbind option_bind].
    rewrite app_nil_r. repeat f_equal. lia.
  - rewrite (proj2 (Z.ltb_ge (224 + q1) 128)) by lia.
    rewrite (proj2 (in_range_false 194 223 (224 + q1))) by lia.
    rewrite (proj2 (in_range_true 224 239 (224 + q1))) by lia. cbn [utf8_units].
    rewrite (proj2 (Z.ltb_ge (224 + q1) 128)) by lia.
    rewrite (proj2 (in_range_false 194 223 (224 + q1))) by lia.
    rewrite (proj2 (in_range_true 224 239 (224 + q1))) by lia.
    match goal with |- context [in_range ?lo ?hi (128 + m1)] =>
      rewrite (proj2 (in_range_true lo hi (128 + m1))) end.
    2: { destruct (Z.eqb_spec (224 + q1) 224), (Z.eqb_spec (224 + q1) 237); lia. }
    rewrite (proj2 (in_range_true 128 191 (128 + m0))) by lia.
    cbn [andb fmap option_fmap option_map mbind option_bind].
    rewrite app_nil_r. repeat f_equal. lia.
  - rewrite (proj2 (Z.ltb_ge (240 + q2) 128)) by lia.
    rewrite (proj2 (in_range_false 194 223 (240 + q2))) by lia.
    rewrite (proj2 (in_range_false 224 239 (240 + q2))) by lia. cbn [utf8_units].
    rewrite (proj2 (Z.ltb_ge (240 + q2) 128)) by lia.
    rewrite (proj2 (in_range_false 194 223 (240 + q2))) by lia.
    rewrite (proj2 (in_range_false 224 239 (240 + q2))) by lia.
    rewrite (proj2 (in_range_true 240 244 (240 + q2))) by lia.
    match goal with |- context [in_range ?lo ?hi (128 + m2)] =>
      rewrite (proj2 (in_range_true lo hi (128 + m2))) end.
    2: { destruct (Z.eqb_spec (240 + q2) 240), (Z.eqb_spec (240 + q2) 244); lia. }
    rewrite (proj2 (in_range_true 128 191 (128 + m1))), (proj2 (in_range_true 128 191 (128 + m0))) by lia.
    cbn [andb fmap option_fmap option_map mbind option_bind].
    rewrite app_nil_r. repeat f_equal. lia.
Qed.

Lemma unreserved_not_percent c : is_unreserved c = true -> c <> 37.
Proof. intros H ->. done. Qed.

Lemma decode_code_points cps :
  Forall valid_code_point cps ->
  exists ts, octets (concat (encode_code_point <$> cps)) = Some ts
    /\ decode_octets ts = Some (concat (utf16_of_code_point <$> cps)).
Proof.
  induction 1 as [|cp cps Hv _ (ts & E & D)]; [by exists []|].
  rewrite !fmap_cons. cbn [concat]. unfold encode_code_point at 1. destruct (is_unreserved cp) eqn:Eu.
  - exists (RawUnit cp :: ts). cbn [app octets]. rewrite (proj2 (Z.eqb_neq cp 37)) by by apply unreserved_not_percent.
    rewrite E. split; [done|]. cbn [decode_octets]. rewrite D.
    assert (Hs : utf16_of_code_point cp = [cp]).
    { unfold utf16_of_code_point. destruct (Z.ltb_spec cp 65536); [done|].
      unfold is_unreserved in Eu. unfold in_range in Eu.
      repeat (apply orb_true_iff in Eu as [Eu|Eu]); try (apply Z.eqb_eq in Eu; lia);
        apply andb_true_iff in Eu as [_ ?%Z.leb_le]; lia. }
    by rewrite Hs.
  - exists ((Octet <$> utf8_bytes cp) ++ ts). split.
    + rewrite octets_percents by by apply utf8_bytes_byte.
      by rewrite E.
    + by rewrite decode_utf8, D.
Qed.

(** Decoding undoes encoding. *)
Lemma decode_encode s e : encodeURIComponent s = Some e -> decodeURIComponent e = Some s.
Proof.
  unfold encodeURIComponent, decodeURIComponent. destruct (code_points s) as [cps|] eqn:Ec; [|done].
  intros [= <-]. destruct (code_points_valid s cps Ec) as [Hv <-].
  destruct (decode_code_points cps Hv) as (ts & -> & D). exact D.
Qed.
