(* ===== verification/UrlHash.v ===== *)
(** The address bar: [utils/urlHash.ts], which writes the open conversation or settings section
    into the page's hash and reads it back, and [utils/pushUrlHash.ts].

    [window.location.hash] is an argument. A function that calls [decodeURIComponent] or
    [encodeURIComponent] throws when they do: its result is then [None]. *)
From S2P Require Import Prelude JsString JsCollections Types PacketWire Directory Uri.

(** ** Conversations *)

Record ParsedHashConversation := {
  ph_type : ConversationType;
  ph_name : jstr;
  ph_label : option jstr;
  ph_mapFocusKey : option jstr;
  ph_locateKey : option jstr;
}.

(** [{ type, name }] *)
Definition plain_view (type : ConversationType) (name : jstr) : ParsedHashConversation :=
  {| ph_type := type; ph_name := name; ph_label := None; ph_mapFocusKey := None;
     ph_locateKey := None |}.

(** The text before the first slash, and after it when there is one. *)
Definition before_slash (s : jstr) : jstr :=
  let i := indexOf s (js "/") in if i =? -1 then s else slice s 0 i.
Definition after_slash (s : jstr) : jstr :=
  let i := indexOf s (js "/") in if i =? -1 then [] else slice_from s (i + 1).

(** [channel/<value>] and [contact/<value>]; the value is [<token>] or [<token>/<label>]. *)
Definition parse_identified (hash : jstr) : option (option ParsedHashConversation) :=
  if indexOf hash (js "/") =? -1 then Some None else
  let type := before_slash hash in
  let value := after_slash hash in
  if negb ((type ≟ js "channel") || (type ≟ js "contact")) || (len value =? 0) then Some None else
  let tokenRaw := before_slash value in
  let labelRaw := after_slash value in
  token ← decodeURIComponent tokenRaw;
  if len token =? 0 then Some None else
  label ← (if len labelRaw =? 0 then Some None else Some <$> decodeURIComponent labelRaw);
  Some (Some {| ph_type := if type ≟ js "channel" then CtChannel else CtContact; ph_name := token;
                ph_label := label; ph_mapFocusKey := None; ph_locateKey := None |}).

Definition parseHashConversation (location_hash : jstr) : option (option ParsedHashConversation) :=
  let hash := slice_from location_hash 1 in
  if len hash =? 0 then Some None
  else if hash ≟ js "raw" then Some (Some (plain_view CtRaw (js "raw")))
  else if hash ≟ js "control" then Some (Some (plain_view CtControl (js "control")))
  else if hash ≟ js "map" then Some (Some (plain_view CtMap (js "map")))
  else if hash ≟ js "live" then Some (Some (plain_view CtLive (js "live")))
  else if hash ≟ js "visualizer" then Some (Some (plain_view CtVisualizer (js "visualizer")))
  else if hash ≟ js "search" then Some (Some (plain_view CtSearch (js "search")))
  else if hash ≟ js "trace" then Some (Some (plain_view CtTrace (js "trace")))
  else if hash ≟ js "locate" then Some (Some (plain_view CtLocate (js "locate")))
  else if hash ≟ js "discovered" then Some (Some (plain_view CtDiscovered (js "discovered")))
  else if hash ≟ js "test" then Some (Some (plain_view CtTest (js "test")))
  else if startsWith hash (js "locate/") then
    let locateKey := slice_from hash (len (js "locate/")) in
    if negb (len locateKey =? 0) then
      key ← decodeURIComponent locateKey;
      Some (Some {| ph_type := CtLocate; ph_name := js "locate"; ph_label := None;
                    ph_mapFocusKey := None; ph_locateKey := Some key |})
    else Some (Some (plain_view CtLocate (js "locate")))
  else if startsWith hash (js "map/focus/") then
    let focusKey := slice_from hash (len (js "map/focus/")) in
    if negb (len focusKey =? 0) then
      key ← decodeURIComponent focusKey;
      Some (Some {| ph_type := CtMap; ph_name := js "map"; ph_label := None;
                    ph_mapFocusKey := Some key; ph_locateKey := None |})
    else Some (Some (plain_view CtMap (js "map")))
  else parse_identified hash.

Definition getMapFocusHash (publicKeyPrefix : jstr) : option jstr :=
  e ← encodeURIComponent publicKeyPrefix; Some (js "#map/focus/" ++ e).

Definition getLocateHash (query : option jstr) : option jstr :=
  let trimmed := default [] (trim <$> query) in
  if negb (len trimmed =? 0) then e ← encodeURIComponent trimmed; Some (js "#locate/" ++ e)
  else Some (js "#locate").

Definition identified_hash (prefix id label : jstr) : option jstr :=
  e ← encodeURIComponent id;
  l ← encodeURIComponent label;
  Some (prefix ++ e ++ js "/" ++ l).

Definition getConversationHash (conv : option Conversation) : option jstr :=
  match conv with
  | None => Some []
  | Some conv =>
    match conv.(cv_type) with
    | CtRaw => Some (js "#raw")
    | CtControl => Some (js "#control")
    | CtMap => match truthy conv.(cv_mapFocusKey) with
               | Some key => getMapFocusHash key
               | None => Some (js "#map")
               end
    | CtLive => Some (js "#live")
    | CtVisualizer => Some (js "#visualizer")
    | CtSearch => Some (js "#search")
    | CtTrace => Some (js "#trace")
    | CtLocate => getLocateHash conv.(cv_locateKey)
    | CtDiscovered => Some (js "#discovered")
    | CtTest => Some (js "#test")
    | CtChannel =>
      let label := if startsWith conv.(cv_name) (js "#") then slice_from conv.(cv_name) 1
                   else conv.(cv_name) in
      identified_hash (js "#channel/") conv.(cv_id) label
    | CtContact => identified_hash (js "#contact/") conv.(cv_id) conv.(cv_name)
    end
  end.

(** ** Tokens *)

Definition resolveChannelFromHashToken (token : jstr) (channels : list Channel) : option Channel :=
  let normalizedToken := trim token in
  if len normalizedToken =? 0 then None else
  match array_find (fun c => toLowerCase c.(ch_key) ≟ toLowerCase normalizedToken) channels with
  | Some byKey => Some byKey
  | None =>
    let by_name :=
      array_find (fun c => (c.(ch_name) ≟ normalizedToken) || (c.(ch_name) ≟ js "#" ++ normalizedToken))
        channels in
    if toLowerCase normalizedToken ≟ toLowerCase PUBLIC_CHANNEL_NAME then
      match findPublicChannel channels with Some publicChannel => Some publicChannel | None => by_name end
    else by_name
  end.

Definition resolveContactFromHashToken (token : jstr) (contacts : list Contact) : option Contact :=
  let normalizedToken := trim token in
  if len normalizedToken =? 0 then None else
  let lowerToken := toLowerCase normalizedToken in
  match array_find (fun c => toLowerCase c.(c_public_key) ≟ lowerToken) contacts with
  | Some byKey => Some byKey
  | None =>
    array_find (fun c =>
      (getContactDisplayName c.(c_name) c.(c_public_key) c.(c_last_advert) ≟ normalizedToken)
      || startsWith (toLowerCase c.(c_public_key)) lowerToken) contacts
  end.

(** ** Settings *)

(** [SETTINGS_SECTION_ORDER] of [components/settings/settingsConstants.ts]. *)
Definition SETTINGS_SECTIONS : list jstr :=
  [js "radio"; js "proxy"; js "local"; js "notifications"; js "updates"; js "community";
   js "fanout"; js "radio-app"; js "alerts"; js "database"; js "navigation"; js "statistics";
   js "about"].

Definition SETTINGS_ANCHORS (section : jstr) : option (list jstr) :=
  if section ≟ js "database" then Some [js "backup"] else None.

(** The section of the hash, and its anchor when it is one of the section's. *)
Definition parseHashSettingsTarget (location_hash : jstr) : option (option (jstr * option jstr)) :=
  let hash := slice_from location_hash 1 in
  if negb (startsWith hash (js "settings/")) then Some None else
  let parts := split_char 47 (slice_from hash (len (js "settings/"))) in
  let rawSection := default [] (parts !! 0%nat) in
  let rawAnchor := truthy (parts !! 1%nat) in
  section ← decodeURIComponent rawSection;
  if negb (bool_decide (section ∈ SETTINGS_SECTIONS)) then Some None else
  anchor ← match rawAnchor with Some a => Some <$> decodeURIComponent a | None => Some None end;
  Some (Some (section,
    match truthy anchor with
    | Some a => if bool_decide (a ∈ default [] (SETTINGS_ANCHORS section)) then Some a else None
    | None => None
    end)).

Definition parseHashSettingsSection (location_hash : jstr) : option (option jstr) :=
  target ← parseHashSettingsTarget location_hash;
  Some (match target with Some (section, _) => Some section | None => None end).

Definition parseHashSettingsAnchor (location_hash : jstr) : option (option jstr) :=
  target ← parseHashSettingsTarget location_hash;
  Some (match target with Some (_, anchor) => anchor | None => None end).

(** [pendingSettingsAnchor], and the functions that set and take it. *)
Definition rememberSettingsAnchor (location_hash : jstr) (pending : option (jstr * jstr))
    : option (option (jstr * jstr)) :=
  target ← parseHashSettingsTarget location_hash;
  Some (match target with
        | Some (section, Some anchor) => Some (section, anchor)
        | _ => pending
        end).

Definition takeSettingsAnchor (section : jstr) (pending : option (jstr * jstr))
    : option jstr * option (jstr * jstr) :=
  match pending with
  | Some (pendingSection, anchor) =>
    if pendingSection ≟ section then (Some anchor, None) else (None, pending)
  | None => (None, None)
  end.

Definition getSettingsHash (section : jstr) : option jstr :=
  e ← encodeURIComponent section; Some (js "#settings/" ++ e).

(** ** The history *)

(** The page's hash and the entries behind and ahead of it. *)
Record Browser := {
  br_hash : jstr;
  br_back : list jstr;
  br_forward : list jstr;
}.
#[export] Instance Browser_eta : Eta Browser := fun b =>
  Build_Browser b.(br_hash) b.(br_back) b.(br_forward).

Definition replaceState (hash : jstr) (b : Browser) : Browser := b <| br_hash := hash |>.
Definition pushState (hash : jstr) (b : Browser) : Browser :=
  {| br_hash := hash; br_back := b.(br_hash) :: b.(br_back); br_forward := [] |}.

(** Back and forward: the entry the browser moves to, if any. *)
Definition history_back (b : Browser) : option Browser :=
  match b.(br_back) with
  | hash :: rest => Some {| br_hash := hash; br_back := rest; br_forward := b.(br_hash) :: b.(br_forward) |}
  | [] => None
  end.
Definition history_forward (b : Browser) : option Browser :=
  match b.(br_forward) with
  | hash :: rest => Some {| br_hash := hash; br_back := b.(br_hash) :: b.(br_back); br_forward := rest |}
  | [] => None
  end.

Definition updateUrlHash (conv : option Conversation) (b : Browser) : option Browser :=
  newHash ← getConversationHash conv;
  Some (if newHash ≟ b.(br_hash) then b else replaceState newHash b).

Definition pushUrlHash (conv : option Conversation) (b : Browser) : option Browser :=
  newHash ← getConversationHash conv;
  Some (if newHash ≟ b.(br_hash) then b else pushState newHash b).

Definition updateSettingsHash (section : jstr) (b : Browser) : option Browser :=
  newHash ← getSettingsHash section;
  Some (if newHash ≟ b.(br_hash) then b else replaceState newHash b).

Definition pushSettingsHash (section : jstr) (b : Browser) : option Browser :=
  newHash ← getSettingsHash section;
  Some (if newHash ≟ b.(br_hash) then b else pushState newHash b).

(** [pushUrlHash.ts]; [None] is a payload that is not a string. *)
Definition safePushUrlHash (urlHash : option jstr) : jstr :=
  match urlHash with
  | Some hash => if startsWith hash (js "#") then hash else []
  | None => []
  end.

(** The address bar: a conversation written into the hash is read back, and the token of a
    channel or contact leads to it again. *)

(** ** Slices and searches *)

Lemma slice_from_drop {A} (l : list A) n : (n <= length l)%nat -> slice_from l (Z.of_nat n) = drop n l.
Proof.
  intros Hn. unfold slice_from, slice, rel_index, len.
  destruct (Z.ltb_spec (Z.of_nat (length l)) 0); [lia|]. destruct (Z.ltb_spec (Z.of_nat n) 0); [lia|].
  rewrite !Z.min_l by lia. rewrite Nat2Z.id, take_ge; [done|]. rewrite length_drop. lia.
Qed.

Lemma startsWith_app p s : startsWith (p ++ s) p = true.
Proof. induction p as [|c p IH]; [by destruct s|]. cbn. by rewrite Z.eqb_refl. Qed.

Lemma slice_to_app {A} (p l : list A) : slice (p ++ l) 0 (len p) = p.
Proof.
  unfold slice, rel_index, len. rewrite length_app. change (0 <? 0) with false. cbv iota.
  destruct (Z.ltb_spec (Z.of_nat (length p)) 0); [lia|]. rewrite Z.min_l, Z.min_l by lia.
  rewrite Z.sub_0_r, Nat2Z.id. apply take_app_length.
Qed.

Lemma indexOf_from_none i s : 47 ∉ s -> indexOf_from i s (js "/") = -1.
Proof.
  change (js "/") with [47]. revert i. induction s as [|c s IH]; intros i Hs; [done|].
  apply not_elem_of_cons in Hs as [Hc Hs]. cbn [indexOf_from startsWith].
  rewrite (proj2 (Z.eqb_neq 47 c)) by congruence. by apply IH.
Qed.

Lemma indexOf_from_slash i a b : 47 ∉ a -> indexOf_from i (a ++ 47 :: b) (js "/") = i + len a.
Proof.
  change (js "/") with [47]. revert i. induction a as [|c a IH]; intros i Ha; cbn [app indexOf_from].
  - destruct b; cbn; by rewrite Z.add_0_r.
  - apply not_elem_of_cons in Ha as [Hc Ha]. cbn [startsWith].
    rewrite (proj2 (Z.eqb_neq 47 c)) by congruence. cbn [andb]. rewrite IH by done. rewrite len_cons. lia.
Qed.

Lemma before_slash_none s : 47 ∉ s -> before_slash s = s /\ after_slash s = [].
Proof. intros Hs. unfold before_slash, after_slash, indexOf. by rewrite indexOf_from_none. Qed.

Lemma before_slash_app a b : 47 ∉ a -> before_slash (a ++ js "/" ++ b) = a /\ after_slash (a ++ js "/" ++ b) = b.
Proof.
  intros Ha. change (js "/" ++ b) with (47 :: b). unfold before_slash, after_slash, indexOf.
  rewrite indexOf_from_slash by done. pose proof (len_nonneg a).
  destruct (Z.eqb_spec (0 + len a) (-1)); [lia|]. rewrite Z.add_0_l, slice_to_app. split; [done|].
  replace (len a + 1) with (len (a ++ [47])) by (rewrite len_app; done).
  replace (a ++ 47 :: b) with ((a ++ [47]) ++ b) by by rewrite <- app_assoc. by apply slice_from_app.
Qed.

(** ** Encoded text *)

Definition is_encoded (c : Z) : bool := is_unreserved c || (c =? 37).

Lemma hex_digit_unreserved d : 0 <= d < 16 -> is_unreserved (hex_digit_upper d) = true.
Proof.
  intros Hd. unfold is_unreserved, hex_digit_upper. destruct (Z.ltb_spec d 10).
  - by rewrite (proj2 (in_range_true 48 57 (48 + d))), !orb_true_r by lia.
  - by rewrite (proj2 (in_range_true 65 90 (55 + d))), !orb_true_r by lia.
Qed.

Lemma encode_safe s e : encodeURIComponent s = Some e -> Forall (fun c => is_encoded c = true) e.
Proof.
  unfold encodeURIComponent. destruct (code_points s) as [cps|] eqn:E; [|done]. intros [= <-].
  destruct (code_points_valid s cps E) as [Hv _]. clear E. induction Hv as [|cp cps Hv _ IH]; [constructor|].
  rewrite fmap_cons. cbn [concat]. apply Forall_app. split; [|done]. unfold encode_code_point.
  destruct (is_unreserved cp) eqn:Eu; [by constructor; [unfold is_encoded; by rewrite Eu|]|].
  assert (Hb := utf8_bytes_byte cp Hv). induction Hb as [|b bs Hb _ IHb]; [constructor|].
  rewrite fmap_cons. cbn [concat]. apply Forall_app. split; [|done]. unfold percent, hex_byte, is_encoded.
  repeat constructor; rewrite hex_digit_unreserved; try done.
  - split; [apply Z.div_pos; lia|apply Z.div_lt_upper_bound; lia].
  - apply Z.mod_pos_bound. lia.
Qed.

Lemma encode_no_slash s e : encodeURIComponent s = Some e -> 47 ∉ e.
Proof. intros He%encode_safe Hin. eapply Forall_forall in He; [|exact Hin]. done. Qed.

Lemma encode_empty s e : encodeURIComponent s = Some e -> (len e =? 0) = (len s =? 0).
Proof.
  intros He. assert (Hd := decode_encode s e He). destruct s as [|c s].
  - injection He as <-. done.
  - destruct e as [|c' e]; [done|]. rewrite !len_cons. pose proof (len_nonneg e). pose proof (len_nonneg s).
    by rewrite !(proj2 (Z.eqb_neq _ 0)) by lia.
Qed.

(** ** Conversations *)

(** What the hash of a conversation says of it. *)
Definition hash_target (conv : Conversation) : ParsedHashConversation :=
  let view name := {| ph_type := conv.(cv_type); ph_name := name; ph_label := None;
                      ph_mapFocusKey := None; ph_locateKey := None |} in
  match conv.(cv_type) with
  | CtRaw => view (js "raw") | CtControl => view (js "control") | CtLive => view (js "live")
  | CtVisualizer => view (js "visualizer") | CtSearch => view (js "search")
  | CtTrace => view (js "trace") | CtDiscovered => view (js "discovered") | CtTest => view (js "test")
  | CtMap => {| ph_type := CtMap; ph_name := js "map"; ph_label := None;
                ph_mapFocusKey := truthy conv.(cv_mapFocusKey); ph_locateKey := None |}
  | CtLocate => {| ph_type := CtLocate; ph_name := js "locate"; ph_label := None;
                   ph_mapFocusKey := None; ph_locateKey := truthy (trim <$> conv.(cv_locateKey)) |}
  | CtChannel => {| ph_type := CtChannel; ph_name := conv.(cv_id);
                    ph_label := truthy (Some (if startsWith conv.(cv_name) (js "#")
                                              then slice_from conv.(cv_name) 1 else conv.(cv_name)));
                    ph_mapFocusKey := None; ph_locateKey := None |}
  | CtContact => {| ph_type := CtContact; ph_name := conv.(cv_id);
                    ph_label := truthy (Some conv.(cv_name)); ph_mapFocusKey := None;
                    ph_locateKey := None |}
  end.

(** Passes a test on a text whose beginning is known. *)
Ltac skip_view :=
  lazymatch goal with
  | |- (if bool_decide (?a = ?b) then _ else _) = _ =>
    rewrite (bool_decide_eq_false_2 (a = b)) by (let E := fresh in intros E; vm_compute in E; discriminate)
  | |- (if startsWith ?a ?b then _ else _) = _ =>
    let r := eval vm_compute in (startsWith a b) in
    lazymatch r with false => change (startsWith a b) with false; cbv iota end
  | |- (if len ?a =? 0 then _ else _) = _ =>
    rewrite (proj2 (Z.eqb_neq (len a) 0)) by (rewrite !len_app; pose proof (len_nonneg a); vm_compute; congruence)
  end.

Lemma slice_hash rest : slice_from (js "#" ++ rest) 1 = rest.
Proof. exact (slice_from_app (js "#") rest 1 eq_refl). Qed.

Lemma len_prefix p (s : jstr) : 0 < len p -> (len (p ++ s) =? 0) = false.
Proof. intros Hp. rewrite len_app. pose proof (len_nonneg s). apply Z.eqb_neq. lia. Qed.

Lemma truthy_len (s : jstr) :
  truthy (Some s) = if len s =? 0 then None else Some s.
Proof. destruct s as [|c s]; [done|]. rewrite len_cons. pose proof (len_nonneg s).
  by rewrite (proj2 (Z.eqb_neq _ 0)) by lia. Qed.

Lemma parse_identified_hash (type : jstr) (ct : ConversationType) id label e l :
  (type = js "channel" /\ ct = CtChannel) \/ (type = js "contact" /\ ct = CtContact) ->
  id <> [] -> encodeURIComponent id = Some e -> encodeURIComponent label = Some l ->
  parse_identified (type ++ js "/" ++ e ++ js "/" ++ l)
  = Some (Some {| ph_type := ct; ph_name := id; ph_label := truthy (Some label);
                  ph_mapFocusKey := None; ph_locateKey := None |}).
Proof.
  intros Ht Hid He Hl. unfold parse_identified.
  assert (Hns : 47 ∉ type) by (destruct Ht as [[-> _]|[-> _]]; by apply (bool_decide_eq_true_1 _)).
  assert (Hi : indexOf (type ++ js "/" ++ e ++ js "/" ++ l) (js "/") = len type).
  { unfold indexOf. change (js "/" ++ e ++ js "/" ++ l) with (47 :: e ++ js "/" ++ l).
    by rewrite indexOf_from_slash. }
  rewrite Hi. destruct (Z.eqb_spec (len type) (-1)) as [E|_]; [pose proof (len_nonneg type); lia|].
  destruct (before_slash_app type (e ++ js "/" ++ l) Hns) as [-> ->].
  assert (Hty : negb ((type ≟ js "channel") || (type ≟ js "contact")) = false
                /\ (if type ≟ js "channel" then CtChannel else CtContact) = ct)
    by (by destruct Ht as [[-> ->]|[-> ->]]).
  destruct Hty as [-> ->].
  destruct (before_slash_app e l (encode_no_slash _ _ He)) as [-> ->].
  assert (Hlen : (len (e ++ js "/" ++ l) =? 0) = false).
  { apply Z.eqb_neq. rewrite !len_app. change (len (js "/")) with 1.
    pose proof (len_nonneg e). pose proof (len_nonneg l). lia. }
  rewrite Hlen. cbn [orb]. rewrite (decode_encode id e He). cbn [mbind option_bind].
  assert (Hid0 : (len id =? 0) = false) by (apply Z.eqb_neq; intros E; by apply len_zero in E).
  rewrite Hid0, (encode_empty label l Hl), truthy_len.
  destruct (len label =? 0); [done|]. by rewrite (decode_encode label l Hl).
Qed.

Lemma parse_of_identified (type : jstr) (ct : ConversationType) id label e l :
  (type = js "channel" /\ ct = CtChannel) \/ (type = js "contact" /\ ct = CtContact) ->
  id <> [] -> encodeURIComponent id = Some e -> encodeURIComponent label = Some l ->
  parseHashConversation ((js "#" ++ type ++ js "/") ++ e ++ js "/" ++ l)
  = Some (Some {| ph_type := ct; ph_name := id; ph_label := truthy (Some label);
                  ph_mapFocusKey := None; ph_locateKey := None |}).
Proof.
  intros Ht Hid He Hl. rewrite <- (app_assoc (js "#")), <- (app_assoc type).
  unfold parseHashConversation. rewrite slice_hash. cbv zeta.
  rewrite <- (parse_identified_hash type ct id label e l Ht Hid He Hl).
  destruct Ht as [[-> _]|[-> _]]; rewrite len_prefix by done; repeat skip_view; reflexivity.
Qed.

Lemma hash_target_parses (conv : Conversation) (hash : jstr) :
  (conv.(cv_type) = CtChannel \/ conv.(cv_type) = CtContact -> conv.(cv_id) <> []) ->
  getConversationHash (Some conv) = Some hash ->
  parseHashConversation hash = Some (Some (hash_target conv)).
Proof.
  intros Hid Hhash.
  unfold getConversationHash, hash_target in *.
  destruct (cv_type conv) eqn:Et; try (injection Hhash as <-; vm_compute; reflexivity).
  - unfold identified_hash in Hhash.
    destruct (encodeURIComponent (cv_id conv)) as [e|] eqn:Ee; [|done].
    destruct (encodeURIComponent (cv_name conv)) as [l|] eqn:El; [|done]. apply (inj Some) in Hhash as <-.
    apply (parse_of_identified (js "contact")); auto.
  - unfold identified_hash in Hhash.
    destruct (encodeURIComponent (cv_id conv)) as [e|] eqn:Ee; [|done].
    set (label := if startsWith (cv_name conv) (js "#") then _ else _) in *.
    destruct (encodeURIComponent label) as [l|] eqn:El; [|done]. apply (inj Some) in Hhash as <-.
    apply (parse_of_identified (js "channel")); auto.
  - destruct (truthy (cv_mapFocusKey conv)) as [key|] eqn:Ek;
      [|apply (inj Some) in Hhash as <-; by vm_compute].
    assert (Hk : (len key =? 0) = false).
    { destruct (cv_mapFocusKey conv) as [[|c k]|]; try done. injection Ek as <-.
      rewrite len_cons.
      pose proof (len_nonneg k). apply Z.eqb_neq. lia. }
    unfold getMapFocusHash in Hhash. destruct (encodeURIComponent key) as [e|] eqn:Ee; [|done].
    apply (inj Some) in Hhash as <-. change (js "#map/focus/" ++ e) with (js "#" ++ (js "map/focus/" ++ e)).
    unfold parseHashConversation. rewrite slice_hash. cbv zeta. rewrite len_prefix by done.
    repeat skip_view. rewrite startsWith_app, (slice_from_app _ _ _ eq_refl), (encode_empty _ _ Ee), Hk. cbn [negb].
    by rewrite (decode_encode _ _ Ee).
  - unfold getLocateHash in Hhash. set (query := default [] _) in Hhash.
    assert (Hq : truthy (trim <$> cv_locateKey conv) = if len query =? 0 then None else Some query).
    { unfold query. destruct (cv_locateKey conv) as [k|]; [apply truthy_len|done]. }
    rewrite Hq. destruct (len query =? 0) eqn:E0; cbn [negb] in Hhash;
      [apply (inj Some) in Hhash as <-; by vm_compute|].
    destruct (encodeURIComponent query) as [e|] eqn:Ee; [|done]. apply (inj Some) in Hhash as <-.
    change (js "#locate/" ++ e) with (js "#" ++ (js "locate/" ++ e)).
    unfold parseHashConversation. rewrite slice_hash. cbv zeta. rewrite len_prefix by done.
    repeat skip_view. rewrite startsWith_app, (slice_from_app _ _ _ eq_refl), (encode_empty _ _ Ee), E0. cbn [negb].
    by rewrite (decode_encode _ _ Ee).
Qed.

(** C33: a conversation written into the address bar is read back: the hash of any conversation
    parses to its type, its identifier or focus key, and its label, whatever characters they
    hold. *)
Theorem hash_roundtrip (conv : Conversation) (hash : jstr)
    (Hid : conv.(cv_type) = CtChannel \/ conv.(cv_type) = CtContact -> conv.(cv_id) <> [])
    (Hhash : getConversationHash (Some conv) = Some hash) :
  parseHashConversation hash = Some (Some (hash_target conv)).
Proof. by apply hash_target_parses. Qed.

Lemma hash_roundtrip_witness :
  let conv := {| cv_type := CtChannel; cv_id := js "8B33"; cv_name := js "#café/👍 100%";
                 cv_mapFocusKey := None; cv_locateKey := None |} in
  let hash := js "#channel/8B33/caf%C3%A9%2F%F0%9F%91%8D%20100%25" in
  parseHashConversation hash
  = Some (Some {| ph_type := CtChannel; ph_name := js "8B33"; ph_label := Some (js "café/👍 100%");
                  ph_mapFocusKey := None; ph_locateKey := None |}).
Proof.
  cbv zeta. etrans; [apply (hash_roundtrip {| cv_type := CtChannel; cv_id := js "8B33";
    cv_name := js "#café/👍 100%"; cv_mapFocusKey := None; cv_locateKey := None |})|].
  - by intros _.
  - by vm_compute.
  - by vm_compute.
Defined.
