(* ===== verification/Router.v ===== *)
(** Which conversation is open: [hooks/useConversationRouter.ts], and the conversation a device
    remembers ([utils/lastViewedConversation.ts]).

    The hook is a record of its state, refs and props, with the browser's history and the two
    [localStorage] entries it reads. An event is a change of props, a call of the application or
    a move in the history; React then renders and runs the effects whose dependencies changed,
    until no effect sets the conversation again. [i18n.t] is the parameter [t]. A handler that
    throws while effects run takes the page down: its result is [None]. *)
From S2P Require Import Prelude JsString JsCollections Types Directory UrlHash.

(** ** The remembered conversation *)

Definition SUPPORTED_TYPES : list ConversationType :=
  [CtContact; CtChannel; CtRaw; CtControl; CtMap; CtLive; CtVisualizer; CtTrace; CtLocate; CtDiscovered].

(** What is read back of an entry that [saveLastViewedConversation] wrote. *)
Definition getLastViewedConversation (stored : option Conversation) : option Conversation :=
  parsed ← stored;
  if negb (bool_decide (parsed.(cv_type) ∈ SUPPORTED_TYPES)) then None else
  Some {| cv_type := parsed.(cv_type); cv_id := parsed.(cv_id); cv_name := parsed.(cv_name);
          cv_mapFocusKey := if parsed.(cv_type) ≟ CtMap then parsed.(cv_mapFocusKey) else None;
          cv_locateKey := if parsed.(cv_type) ≟ CtLocate then parsed.(cv_locateKey) else None |}.

(** [localStorage]: the entry of the conversation, and whether it is to be reopened. *)
Record Remembered := { re_lastViewed : option Conversation; re_reopen : bool }.
#[export] Instance Remembered_eta : Eta Remembered := fun r =>
  Build_Remembered r.(re_lastViewed) r.(re_reopen).

Definition saveLastViewedConversation (conversation : Conversation) (r : Remembered) : Remembered :=
  r <| re_lastViewed := Some conversation |>.

Definition setReopenLastConversationEnabled (enabled : bool) (r : Remembered) : Remembered :=
  if enabled then r <| re_reopen := true |> else {| re_lastViewed := None; re_reopen := false |}.

(** ** The hook *)

Inductive Toast := ChannelNotFound (token : jstr) | ContactNotFound (token : jstr).

Record Router := {
  ro_activeConversation : option Conversation;
  (** The argument of [setActiveConversationState], until the next render. *)
  ro_next : option (option Conversation);
  ro_hashSyncEnabled : bool;
  ro_shouldPushHistory : bool;
  ro_isHandlingPopstate : bool;
  ro_hasSetDefaultConversation : bool;
  ro_pendingDeleteFallback : bool;
  ro_channels : list Channel;
  ro_contacts : list Contact;
  ro_contactsLoaded : bool;
  ro_settingsLoaded : bool;
  ro_directoryEnabled : bool;
  ro_suspendHashSync : bool;
  ro_narrow : bool;
  ro_browser : Browser;
  ro_remembered : Remembered;
  ro_toasts : list Toast;
}.
#[export] Instance Router_eta : Eta Router := fun s =>
  Build_Router s.(ro_activeConversation) s.(ro_next) s.(ro_hashSyncEnabled) s.(ro_shouldPushHistory)
    s.(ro_isHandlingPopstate) s.(ro_hasSetDefaultConversation) s.(ro_pendingDeleteFallback)
    s.(ro_channels) s.(ro_contacts) s.(ro_contactsLoaded) s.(ro_settingsLoaded)
    s.(ro_directoryEnabled) s.(ro_suspendHashSync) s.(ro_narrow) s.(ro_browser)
    s.(ro_remembered) s.(ro_toasts).

Definition conversation_of_channel (channel : Channel) : Conversation :=
  {| cv_type := CtChannel; cv_id := channel.(ch_key); cv_name := channel.(ch_name);
     cv_mapFocusKey := None; cv_locateKey := None |}.

Definition conversation_of_contact (contact : Contact) : Conversation :=
  {| cv_type := CtContact; cv_id := contact.(c_public_key);
     cv_name := getContactDisplayName contact.(c_name) contact.(c_public_key)
                  contact.(c_last_advert);
     cv_mapFocusKey := None; cv_locateKey := None |}.

Definition resolvePublicFromChannels (channels : list Channel) : option Conversation :=
  conversation_of_channel <$> findPublicChannel channels.

Definition view (type : ConversationType) (id name : jstr) : Conversation :=
  {| cv_type := type; cv_id := id; cv_name := name; cv_mapFocusKey := None; cv_locateKey := None |}.

Section router.
Context (t : jstr -> jstr).

Definition testConversation : Conversation := view CtTest (js "test") (t (js "meshTest.title")).

(** The conversation of a hash that names a view, not a channel or a contact. *)
Definition view_of_hash (hashConv : ParsedHashConversation) : option Conversation :=
  match hashConv.(ph_type) with
  | CtRaw => Some (view CtRaw (js "raw") (js "Raw Packet Feed"))
  | CtControl => Some (view CtControl (js "control") (t (js "sidebar.controlJournal")))
  | CtMap => Some {| cv_type := CtMap; cv_id := js "map"; cv_name := js "Node Map";
                     cv_mapFocusKey := hashConv.(ph_mapFocusKey); cv_locateKey := None |}
  | CtLive => Some (view CtLive (js "live") (js "Live"))
  | CtVisualizer => Some (view CtVisualizer (js "visualizer") (js "Mesh Visualizer"))
  | CtSearch => Some (view CtSearch (js "search") (js "Message Search"))
  | CtTrace => Some (view CtTrace (js "trace") (js "Trace"))
  | CtLocate => Some {| cv_type := CtLocate; cv_id := js "locate"; cv_name := js "RF Locate";
                        cv_mapFocusKey := None; cv_locateKey := hashConv.(ph_locateKey) |}
  | CtDiscovered => Some (view CtDiscovered (js "discovered") (t (js "discovered.title")))
  | CtTest | CtChannel | CtContact => None
  end.

Definition captureLastViewedConversationFromHash (location_hash : jstr) (r : Remembered)
    : option Remembered :=
  hashConv ← parseHashConversation location_hash;
  Some (match hashConv with
        | None => r
        | Some hashConv =>
          saveLastViewedConversation
            (match hashConv.(ph_type) with
             | CtRaw => view CtRaw (js "raw") (js "Raw Packet Feed")
             | CtControl => view CtControl (js "control") (t (js "sidebar.controlJournal"))
             | CtMap => {| cv_type := CtMap; cv_id := js "map"; cv_name := js "Node Map";
                           cv_mapFocusKey := truthy hashConv.(ph_mapFocusKey); cv_locateKey := None |}
             | CtLive => view CtLive (js "live") (js "Live")
             | CtVisualizer => view CtVisualizer (js "visualizer") (js "Mesh Visualizer")
             | CtTrace => view CtTrace (js "trace") (js "Trace")
             | CtLocate => {| cv_type := CtLocate; cv_id := js "locate"; cv_name := js "RF Locate";
                              cv_mapFocusKey := None; cv_locateKey := truthy hashConv.(ph_locateKey) |}
             | CtDiscovered => view CtDiscovered (js "discovered") (js "Discovered channels")
             | type => view type hashConv.(ph_name) (default hashConv.(ph_name) (truthy hashConv.(ph_label)))
             end) r
        end).

Definition resolveConversationFromHash (location_hash : jstr) (channels : list Channel)
    (contacts : list Contact) (directoryEnabled : bool) : option (option Conversation) :=
  hashConv ← parseHashConversation location_hash;
  Some (match hashConv with
        | None => None
        | Some hashConv =>
          match hashConv.(ph_type) with
          | CtTest => if directoryEnabled then Some testConversation else None
          | CtChannel => conversation_of_channel <$> resolveChannelFromHashToken hashConv.(ph_name) channels
          | CtContact => conversation_of_contact <$> resolveContactFromHashToken hashConv.(ph_name) contacts
          | _ => view_of_hash hashConv
          end
        end).

Definition setActiveConversationState (conv : option Conversation) (s : Router) : Router :=
  s <| ro_next := Some conv |>.

(** A conversation opened by the initial load. *)
Definition open_default (conv : Conversation) (s : Router) : Router :=
  setActiveConversationState (Some conv) (s <| ro_hasSetDefaultConversation := true |>).

(** [parseHashSettingsSection() ? null : parseHashConversation()] *)
Definition hash_conversation (s : Router) : option (option ParsedHashConversation) :=
  section ← parseHashSettingsSection s.(ro_browser).(br_hash);
  match truthy section with
  | Some _ => Some None
  | None => parseHashConversation s.(ro_browser).(br_hash)
  end.

Definition is_type (type : ConversationType) (hashConv : option ParsedHashConversation) : bool :=
  (ph_type <$> hashConv) ≟ Some type.

(** [token.length > 16 ? token.substring(0, 16) + '…' : token] *)
Definition toast_token (token : jstr) : jstr :=
  if 16 <? len token then slice token 0 16 ++ js "…" else token.

Definition toast (x : Toast) (s : Router) : Router := s <| ro_toasts := s.(ro_toasts) ++ [x] |>.

Definition is_view_type (type : ConversationType) : bool :=
  match type with
  | CtRaw | CtControl | CtMap | CtLive | CtVisualizer | CtTrace | CtLocate | CtDiscovered => true
  | _ => false
  end.

(** Phase 1, from the last-viewed view on: the hash is not a view's, nor a test run still to be
    decided. *)
Definition phase1_lists (hashConv : option ParsedHashConversation) (s : Router) : Router :=
  let lastViewed := if s.(ro_remembered).(re_reopen)
                    then getLastViewedConversation s.(ro_remembered).(re_lastViewed) else None in
  let no_hash := match hashConv with None => true | Some _ => false end in
  match (if no_hash then lastViewed ≫= fun c => if is_view_type c.(cv_type) then Some c else None
         else None) with
  | Some conv => open_default conv s
  | None =>
    if len s.(ro_channels) =? 0 then s else
    let from_hash := match hashConv with
                     | Some h => if h.(ph_type) ≟ CtChannel
                                 then resolveChannelFromHashToken h.(ph_name) s.(ro_channels) else None
                     | None => None
                     end in
    match from_hash with
    | Some channel => open_default (conversation_of_channel channel) s
    | None =>
      if is_type CtContact hashConv then s else
      let from_memory :=
        match lastViewed with
        | Some c =>
          if no_hash && (c.(cv_type) ≟ CtChannel) then
            match array_find (fun x => toLowerCase x.(ch_key) ≟ toLowerCase c.(cv_id)) s.(ro_channels) with
            | Some channel => Some channel
            | None => resolveChannelFromHashToken c.(cv_id) s.(ro_channels)
            end
          else None
        | None => None
        end in
      match from_memory with
      | Some channel => open_default (conversation_of_channel channel) s
      | None =>
        if no_hash && ((cv_type <$> lastViewed) ≟ Some CtContact) then s
        else if no_hash && s.(ro_narrow) then s
        else match resolvePublicFromChannels s.(ro_channels) with
             | Some publicConversation =>
               let s := match hashConv with
                        | Some h => if h.(ph_type) ≟ CtChannel
                                    then toast (ChannelNotFound (toast_token h.(ph_name))) s else s
                        | None => s
                        end in
               open_default publicConversation s
             | None => s
             end
      end
    end
  end.
Definition phase1 (s : Router) : option Router :=
  match s.(ro_activeConversation) with
  | Some _ => Some s
  | None =>
    if s.(ro_hasSetDefaultConversation) then Some s else
    hashConv ← hash_conversation s;
    Some (match hashConv ≫= view_of_hash with
          | Some conv => open_default conv s
          | None =>
            if is_type CtTest hashConv then
              if negb s.(ro_settingsLoaded) then s
              else if s.(ro_directoryEnabled) then open_default testConversation s
              else phase1_lists hashConv s
            else phase1_lists hashConv s
          end)
  end.

(** Community switched off while the radio test was open. *)
Definition leave_test (s : Router) : Router :=
  if negb s.(ro_settingsLoaded) || s.(ro_directoryEnabled) then s
  else if negb ((cv_type <$> s.(ro_activeConversation)) ≟ Some CtTest) then s
  else match resolvePublicFromChannels s.(ro_channels) with
       | None => s
       | Some publicConversation =>
         setActiveConversationState (Some publicConversation) (s <| ro_hashSyncEnabled := true |>)
       end.

Definition phase2 (s : Router) : option Router :=
  match s.(ro_activeConversation) with
  | Some _ => Some s
  | None =>
    if s.(ro_hasSetDefaultConversation) then Some s else
    hashConv ← hash_conversation s;
    let to_public s := match resolvePublicFromChannels s.(ro_channels) with
                       | Some publicConversation => open_default publicConversation s
                       | None => s
                       end in
    Some (match hashConv with
          | Some h =>
            if negb (h.(ph_type) ≟ CtContact) then s
            else if negb s.(ro_contactsLoaded) then s
            else match resolveContactFromHashToken h.(ph_name) s.(ro_contacts) with
                 | Some contact => open_default (conversation_of_contact contact) s
                 | None => to_public (toast (ContactNotFound (toast_token h.(ph_name))) s)
                 end
          | None =>
            if negb s.(ro_remembered).(re_reopen) then s else
            match getLastViewedConversation s.(ro_remembered).(re_lastViewed) with
            | Some lastViewed =>
              if negb (lastViewed.(cv_type) ≟ CtContact) then s
              else if negb s.(ro_contactsLoaded) then s
              else match
                  match array_find (fun item => toLowerCase item.(c_public_key)
                                                ≟ toLowerCase lastViewed.(cv_id)) s.(ro_contacts) with
                  | Some contact => Some contact
                  | None => resolveContactFromHashToken lastViewed.(cv_id) s.(ro_contacts)
                  end
                with
                | Some contact => open_default (conversation_of_contact contact) s
                | None => to_public s
                end
            | None => s
            end
          end)
  end.

(** The URL and the remembered conversation follow the one on screen. *)
Definition sync_url (s : Router) : option Router :=
  s ← (if s.(ro_isHandlingPopstate) then Some (s <| ro_isHandlingPopstate := false |>)
       else match s.(ro_activeConversation) with
            | None => Some s
            | Some conv =>
              if s.(ro_hashSyncEnabled) && negb s.(ro_suspendHashSync) then
                if s.(ro_shouldPushHistory) then
                  b ← pushUrlHash (Some conv) s.(ro_browser);
                  Some (s <| ro_shouldPushHistory := false |> <| ro_browser := b |>)
                else
                  b ← updateUrlHash (Some conv) s.(ro_browser);
                  Some (s <| ro_browser := b |>)
              else Some s
            end);
  Some (match s.(ro_activeConversation) with
        | Some conv =>
          if conv.(cv_type) ≟ CtSearch then s
          else s <| ro_remembered := saveLastViewedConversation conv s.(ro_remembered) |>
        | None => s
        end).

(** Recovery to Public after a deletion. *)
Definition recover_deleted (s : Router) : Router :=
  if negb s.(ro_pendingDeleteFallback) then s else
  match s.(ro_activeConversation) with
  | Some _ => s <| ro_pendingDeleteFallback := false |>
  | None =>
    match findPublicChannel s.(ro_channels) with
    | None => s
    | Some publicChannel =>
      setActiveConversationState (Some (conversation_of_channel publicChannel))
        (s <| ro_hasSetDefaultConversation := true |> <| ro_pendingDeleteFallback := false |>)
    end
  end.

(** ** Renders *)

(** What changed in a render, as the effects' dependencies see it. *)
Record Changed := {
  chg_active : bool;
  chg_channels : bool;
  chg_contacts : bool;
  chg_settings : bool;
  chg_suspend : bool;
}.
Definition unchanged : Changed :=
  {| chg_active := false; chg_channels := false; chg_contacts := false; chg_settings := false;
     chg_suspend := false |}.
Definition changed_active : Changed :=
  {| chg_active := true; chg_channels := false; chg_contacts := false; chg_settings := false;
     chg_suspend := false |}.

(** The effects of a commit, in the order they are declared. *)
Definition run_effects (c : Changed) (s : Router) : option Router :=
  s ← (if c.(chg_active) || c.(chg_channels) || c.(chg_settings) then phase1 s else Some s);
  let s := if c.(chg_active) || c.(chg_channels) || c.(chg_settings) then leave_test s else s in
  s ← (if c.(chg_active) || c.(chg_channels) || c.(chg_contacts) then phase2 s else Some s);
  s ← (if c.(chg_active) || c.(chg_suspend) then sync_url s else Some s);
  Some (if c.(chg_active) || c.(chg_channels) then recover_deleted s else s).

(** Renders while an effect set the conversation. Two conversations are never the same object;
    setting [null] again renders nothing. *)
Fixpoint settle_router (fuel : nat) (s : Router) : option Router :=
  match fuel with
  | O => Some s
  | S fuel =>
    match s.(ro_next), s.(ro_activeConversation) with
    | None, _ => Some s
    | Some None, None => Some (s <| ro_next := None |>)
    | Some conv, _ =>
      s ← run_effects changed_active (s <| ro_activeConversation := conv |> <| ro_next := None |>);
      settle_router fuel s
    end
  end.

Definition RENDER_FUEL : nat := 4.

Definition commit_router (c : Changed) (s : Router) : option Router :=
  s ← match s.(ro_next), s.(ro_activeConversation) with
      | None, _ | Some None, None => run_effects c (s <| ro_next := None |>)
      | Some conv, _ =>
        run_effects {| chg_active := true; chg_channels := c.(chg_channels);
                       chg_contacts := c.(chg_contacts); chg_settings := c.(chg_settings);
                       chg_suspend := c.(chg_suspend) |}
          (s <| ro_activeConversation := conv |> <| ro_next := None |>)
      end;
  settle_router RENDER_FUEL s.

(** ** Events *)

Definition router_setActiveConversation (conv : option Conversation) (s : Router) : Router :=
  setActiveConversationState conv
    (s <| ro_hashSyncEnabled := true |> <| ro_shouldPushHistory := true |>).

(** The [popstate] handler; one that throws leaves the state as it is. *)
Definition handlePopstate (s : Router) : Router :=
  match parseHashSettingsSection s.(ro_browser).(br_hash) with
  | None | Some (Some _) => s
  | Some None =>
    match resolveConversationFromHash s.(ro_browser).(br_hash) s.(ro_channels) s.(ro_contacts)
            s.(ro_directoryEnabled) with
    | None => s
    | Some fromHash =>
      let land conv s :=
        setActiveConversationState conv
          (s <| ro_hashSyncEnabled := true |> <| ro_isHandlingPopstate := true |>) in
      match fromHash, s.(ro_narrow) with
      | None, true => land None s
      | _, _ =>
        match fromHash with
        | Some conv => land (Some conv) s
        | None => match resolvePublicFromChannels s.(ro_channels) with
                  | Some conv => land (Some conv) s
                  | None => s
                  end
        end
      end
    end
  end.

Inductive RouterEvent :=
| RvMount
| RvChannels (channels : list Channel)
| RvContacts (contacts : list Contact)
| RvContactsLoaded (loaded : bool)
| RvSettings (loaded directory : bool)
| RvSuspend (suspend : bool)
| RvSetActive (conv : option Conversation)
| RvSelect (conv : Conversation)
| RvBack
| RvForward
| RvTypeHash (hash : jstr)
| RvPendingDelete
| RvMarkDefault
| RvReopenSetting (enabled : bool).

Definition handle_router (s : Router) (e : RouterEvent) : option Router :=
  match e with
  | RvMount =>
    commit_router {| chg_active := true; chg_channels := true; chg_contacts := true;
                     chg_settings := true; chg_suspend := true |} s
  | RvChannels channels =>
    commit_router {| chg_active := false; chg_channels := true; chg_contacts := false;
                     chg_settings := false; chg_suspend := false |} (s <| ro_channels := channels |>)
  | RvContacts contacts =>
    commit_router {| chg_active := false; chg_channels := false; chg_contacts := true;
                     chg_settings := false; chg_suspend := false |} (s <| ro_contacts := contacts |>)
  | RvContactsLoaded loaded =>
    commit_router {| chg_active := false; chg_channels := false; chg_contacts := true;
                     chg_settings := false; chg_suspend := false |} (s <| ro_contactsLoaded := loaded |>)
  | RvSettings loaded directory =>
    commit_router {| chg_active := false; chg_channels := false; chg_contacts := false;
                     chg_settings := true; chg_suspend := false |}
      (s <| ro_settingsLoaded := loaded |> <| ro_directoryEnabled := directory |>)
  | RvSuspend suspend =>
    commit_router {| chg_active := false; chg_channels := false; chg_contacts := false;
                     chg_settings := false; chg_suspend := true |} (s <| ro_suspendHashSync := suspend |>)
  | RvSetActive conv => commit_router unchanged (router_setActiveConversation conv s)
  | RvSelect conv => commit_router unchanged (router_setActiveConversation (Some conv) s)
  | RvBack =>
    match history_back s.(ro_browser) with
    | Some b => commit_router unchanged (handlePopstate (s <| ro_browser := b |>))
    | None => Some s
    end
  | RvForward =>
    match history_forward s.(ro_browser) with
    | Some b => commit_router unchanged (handlePopstate (s <| ro_browser := b |>))
    | None => Some s
    end
  | RvTypeHash hash =>
    if hash ≟ s.(ro_browser).(br_hash) then Some s
    else commit_router unchanged (handlePopstate (s <| ro_browser := pushState hash s.(ro_browser) |>))
  | RvPendingDelete => Some (s <| ro_pendingDeleteFallback := true |>)
  | RvMarkDefault => Some (s <| ro_hasSetDefaultConversation := true |>)
  | RvReopenSetting enabled =>
    Some (s <| ro_remembered := setReopenLastConversationEnabled enabled s.(ro_remembered) |>)
  end.

(** The hook as first rendered; [None] when reading the hash throws. *)
Definition initial_router (hash : jstr) (remembered : Remembered) (narrow : bool) : option Router :=
  section ← parseHashSettingsSection hash;
  Some {| ro_activeConversation := None; ro_next := None;
          ro_hashSyncEnabled := (0 <? len hash) && (section ≟ None);
          ro_shouldPushHistory := false; ro_isHandlingPopstate := false;
          ro_hasSetDefaultConversation := false; ro_pendingDeleteFallback := false;
          ro_channels := []; ro_contacts := []; ro_contactsLoaded := false;
          ro_settingsLoaded := false; ro_directoryEnabled := false; ro_suspendHashSync := false;
          ro_narrow := narrow;
          ro_browser := {| br_hash := hash; br_back := []; br_forward := [] |};
          ro_remembered := remembered; ro_toasts := [] |}.
End router.
