(* ===== verification/RouterProps.v ===== *)
(** The conversation router: it settles after every event, a link opens the conversation it was
    made for, and going back returns to the conversation that was left. *)
From S2P Require Import Prelude JsString JsCollections Types Directory Uri UrlHash Router.

(** ** Links *)

(** A key as the lists hold it: not blank at its ends, and no other row's up to case. *)
Definition proper_key {T} (keyOf : T -> jstr) (rows : list T) (x : T) : Prop :=
  x ∈ rows /\ keyOf x <> [] /\ trim (keyOf x) = keyOf x
  /\ forall y, y ∈ rows -> toLowerCase (keyOf y) = toLowerCase (keyOf x) -> y = x.

Lemma proper_find {T} (keyOf : T -> jstr) rows x :
  proper_key keyOf rows x ->
  (len (trim (keyOf x)) =? 0) = false
  /\ array_find (fun y => toLowerCase (keyOf y) ≟ toLowerCase (trim (keyOf x))) rows = Some x.
Proof.
  intros (Hin & Hne & Ht & Hu). rewrite Ht. split.
  - apply Z.eqb_neq. by intros E%len_zero.
  - apply array_find_unique; [done|by apply bool_decide_eq_true_2|].
    intros y Hy E. apply bool_decide_eq_true in E. auto.
Qed.

Lemma resolve_channel_key channels c :
  proper_key ch_key channels c -> resolveChannelFromHashToken c.(ch_key) channels = Some c.
Proof.
  intros Hc. destruct (proper_find _ _ _ Hc) as [E1 E2]. unfold resolveChannelFromHashToken.
  by rewrite E1, E2.
Qed.

Lemma resolve_contact_key contacts c :
  proper_key c_public_key contacts c -> resolveContactFromHashToken c.(c_public_key) contacts = Some c.
Proof.
  intros Hc. destruct (proper_find _ _ _ Hc) as [E1 E2]. unfold resolveContactFromHashToken.
  by rewrite E1, E2.
Qed.

(** The hash of a conversation is no settings section's. *)
Lemma conversation_hash_not_settings conv hash :
  getConversationHash (Some conv) = Some hash -> parseHashSettingsSection hash = Some None.
Proof.
  intros Hh. unfold parseHashSettingsSection.
  enough (E : startsWith (slice_from hash 1) (js "settings/") = false).
  { unfold parseHashSettingsTarget. by rewrite E. }
  assert (Hpre : forall p e, startsWith (p ++ e) (js "settings/") = startsWith p (js "settings/") ->
    startsWith p (js "settings/") = false -> startsWith (slice_from (js "#" ++ p ++ e) 1) (js "settings/") = false).
  { intros p e E1 E2. rewrite slice_hash. congruence. }
  unfold getConversationHash in Hh.
  destruct (cv_type conv); try (injection Hh as <-; by vm_compute).
  - apply bind_Some in Hh as (e & _ & (l & _ & Hl)%bind_Some). apply (inj Some) in Hl as <-.
    exact (Hpre (js "contact/") (e ++ js "/" ++ l) eq_refl eq_refl).
  - apply bind_Some in Hh as (e & _ & (l & _ & Hl)%bind_Some). apply (inj Some) in Hl as <-.
    exact (Hpre (js "channel/") (e ++ js "/" ++ l) eq_refl eq_refl).
  - destruct (truthy _); [|injection Hh as <-; by vm_compute].
    apply bind_Some in Hh as (e & _ & Hl). apply (inj Some) in Hl as <-.
    exact (Hpre (js "map/") (js "focus/" ++ e) eq_refl eq_refl).
  - unfold getLocateHash in Hh. cbv zeta in Hh. destruct (negb _); [|injection Hh as <-; by vm_compute].
    apply bind_Some in Hh as (e & _ & Hl). apply (inj Some) in Hl as <-.
    exact (Hpre (js "locate/") e eq_refl eq_refl).
Qed.

Section router.
Context (t : jstr -> jstr).
Notation handle := (handle_router t).
Notation resolve := (resolveConversationFromHash t).

(** The conversations the lists and the views offer. *)
Inductive offered (channels : list Channel) (contacts : list Contact) (directory : bool)
    : Conversation -> Prop :=
| offered_channel c : proper_key ch_key channels c ->
    offered channels contacts directory (conversation_of_channel c)
| offered_contact c : proper_key c_public_key contacts c ->
    offered channels contacts directory (conversation_of_contact c)
| offered_view type conv : view_of_hash t (plain_view type []) = Some conv ->
    offered channels contacts directory conv
| offered_focus key : key <> [] ->
    offered channels contacts directory
      {| cv_type := CtMap; cv_id := js "map"; cv_name := js "Node Map";
         cv_mapFocusKey := Some key; cv_locateKey := None |}
| offered_locate key : key <> [] -> trim key = key ->
    offered channels contacts directory
      {| cv_type := CtLocate; cv_id := js "locate"; cv_name := js "RF Locate";
         cv_mapFocusKey := None; cv_locateKey := Some key |}
| offered_test : directory = true -> offered channels contacts directory (testConversation t).

Lemma offered_resolves channels contacts directory conv hash :
  offered channels contacts directory conv -> getConversationHash (Some conv) = Some hash ->
  resolve hash channels contacts directory = Some (Some conv).
Proof.
  intros Ho Hh. unfold resolveConversationFromHash. rewrite (hash_target_parses conv hash); [|..|exact Hh].
  - cbn [mbind option_bind]. destruct Ho as [c Hc|c Hc|type conv Hv|key Hk|key Hk Hkt| ->].
    + cbn [hash_target conversation_of_channel cv_type ph_type ph_name cv_id].
      by rewrite resolve_channel_key.
    + cbn [hash_target conversation_of_contact cv_type ph_type ph_name cv_id].
      by rewrite resolve_contact_key.
    + destruct type; try done; apply (inj Some) in Hv as <-; reflexivity.
    + by destruct key.
    + unfold hash_target. cbn [cv_type cv_locateKey fmap option_fmap option_map]. rewrite Hkt.
      by destruct key.
    + reflexivity.
  - intros _. destruct Ho as [c (?&?&?&?)|c (?&?&?&?)|type conv Hv|key Hk|key Hk Hkt|]; try done.
    by destruct type; try done; apply (inj Some) in Hv as <-.
Qed.
(** ** Renders settle *)

(** A conversation no effect leaves at once. *)
Definition calm (s : Router) (c : Conversation) : Prop :=
  c.(cv_type) = CtTest -> s.(ro_directoryEnabled) = true.

(** An effect keeps what is on screen, and sets a conversation that stays. *)
Definition sets_calm (s s' : Router) : Prop :=
  s'.(ro_activeConversation) = s.(ro_activeConversation)
  /\ s'.(ro_directoryEnabled) = s.(ro_directoryEnabled)
  /\ (s'.(ro_next) = s.(ro_next) \/ exists c, s'.(ro_next) = Some (Some c) /\ calm s c).

Lemma sets_calm_refl s : sets_calm s s.
Proof. split_and!; auto. Qed.

Lemma sets_calm_trans s1 s2 s3 : sets_calm s1 s2 -> sets_calm s2 s3 -> sets_calm s1 s3.
Proof.
  intros (Ea & Ed & En) (Ea' & Ed' & En'). split_and!; [congruence|congruence|].
  destruct En' as [->|(c & -> & Hc)]; [exact En|]. right. exists c. split; [done|].
  unfold calm in *. by rewrite <- Ed.
Qed.

Lemma sets_calm_open s s0 c :
  s0.(ro_activeConversation) = s.(ro_activeConversation) ->
  s0.(ro_directoryEnabled) = s.(ro_directoryEnabled) -> calm s c -> sets_calm s (open_default c s0).
Proof. intros Ha Hd Hc. split_and!; [exact Ha|exact Hd|]. right. by exists c. Qed.

Lemma calm_channel s c : calm s (conversation_of_channel c).
Proof. done. Qed.
Lemma calm_contact s c : calm s (conversation_of_contact c).
Proof. done. Qed.
Lemma calm_public s channels c : resolvePublicFromChannels channels = Some c -> calm s c.
Proof. unfold resolvePublicFromChannels. destruct (findPublicChannel channels); [by intros [= <-]|done]. Qed.
Lemma calm_view s h c : view_of_hash t h = Some c -> calm s c.
Proof. unfold view_of_hash. destruct (ph_type h); intros [= <-]; done. Qed.

Lemma phase1_lists_calm h s : sets_calm s (phase1_lists h s).
Proof.
  unfold phase1_lists. cbv zeta.
  repeat lazymatch goal with
  | |- sets_calm _ (open_default _ _) => apply sets_calm_open; [try done..|]
  | |- sets_calm ?s ?s => apply sets_calm_refl
  | |- sets_calm _ (match ?x with _ => _ end) => destruct x eqn:?
  end; eauto using calm_channel, calm_public.
  - destruct h; [done|]. destruct (re_reopen _); [|done].
    destruct (getLastViewedConversation _) as [c0|]; [|done]. cbn in Heqo.
    destruct (is_view_type (cv_type c0)) eqn:Ev; [|done]. injection Heqo as <-. intros Et. by rewrite Et in Ev.
  - by repeat case_match.
  - by repeat case_match.
Qed.

Lemma phase1_calm s s' : phase1 t s = Some s' -> sets_calm s s'.
Proof.
  unfold phase1. destruct (ro_activeConversation s) eqn:Ea; [intros [= <-]; apply sets_calm_refl|].
  destruct (ro_hasSetDefaultConversation s); [intros [= <-]; apply sets_calm_refl|].
  destruct (hash_conversation s) as [h|]; [|done]. intros [= <-].
  destruct (h ≫= view_of_hash t) as [c|] eqn:Ev.
  - apply sets_calm_open; [done|done|]. destruct h; [by eapply calm_view|done].
  - destruct (is_type CtTest h); [|apply phase1_lists_calm].
    destruct (negb (ro_settingsLoaded s)); [apply sets_calm_refl|].
    destruct (ro_directoryEnabled s) eqn:Ed; [|apply phase1_lists_calm].
    apply sets_calm_open; [done|done|]. intros _. exact Ed.
Qed.

Lemma leave_test_calm s : sets_calm s (leave_test s).
Proof.
  unfold leave_test. destruct (_ || _); [apply sets_calm_refl|].
  destruct (negb _); [apply sets_calm_refl|].
  destruct (resolvePublicFromChannels _) as [c|] eqn:E; [|apply sets_calm_refl].
  split_and!; try done. right. exists c. split; [done|]. by eapply calm_public.
Qed.

Lemma phase2_calm s s' : phase2 s = Some s' -> sets_calm s s'.
Proof.
  unfold phase2. destruct (ro_activeConversation s) eqn:Ea; [intros [= <-]; apply sets_calm_refl|].
  destruct (ro_hasSetDefaultConversation s); [intros [= <-]; apply sets_calm_refl|].
  destruct (hash_conversation s) as [h|]; [|done]. cbn [mbind option_bind]. cbv zeta. intros [= <-].
  repeat lazymatch goal with
  | |- sets_calm _ (open_default _ _) => apply sets_calm_open; [try done..|]
  | |- sets_calm ?s ?s => apply sets_calm_refl
  | |- sets_calm _ (match ?x with _ => _ end) => destruct x eqn:?
  end; eauto using calm_contact, calm_public, sets_calm_refl.
  split_and!; [done|done|by left].
Qed.

Lemma sync_url_keeps s s' :
  sync_url s = Some s' ->
  sets_calm s s' /\ s'.(ro_next) = s.(ro_next).
Proof.
  unfold sync_url. intros H.
  assert (Hs : exists s0, s0.(ro_activeConversation) = s.(ro_activeConversation)
    /\ s0.(ro_directoryEnabled) = s.(ro_directoryEnabled) /\ s0.(ro_next) = s.(ro_next)
    /\ s' = match s0.(ro_activeConversation) with
            | Some conv => if conv.(cv_type) ≟ CtSearch then s0
                           else s0 <| ro_remembered := saveLastViewedConversation conv s0.(ro_remembered) |>
            | None => s0 end).
  { destruct (ro_isHandlingPopstate s); 
      [apply (inj Some) in H as <-; by exists (s <| ro_isHandlingPopstate := false |>)|].
    destruct (ro_activeConversation s) as [c|] eqn:Ea;
      [|injection H as <-; exists s; by rewrite Ea].
    destruct (_ && _); [|injection H as <-; exists s; by rewrite Ea].
    destruct (ro_shouldPushHistory s).
    - destruct (pushUrlHash _ _) as [b|]; [|done]. apply (inj Some) in H as <-.
      by exists (s <| ro_shouldPushHistory := false |> <| ro_browser := b |>); rewrite <- Ea.
    - destruct (updateUrlHash _ _) as [b|]; [|done]. apply (inj Some) in H as <-.
      by exists (s <| ro_browser := b |>); rewrite <- Ea. }
  destruct Hs as (s0 & Ea & Ed & En & ->).
  set (s' := match ro_activeConversation s0 with Some _ => _ | None => _ end).
  assert (Hs' : ro_activeConversation s' = ro_activeConversation s0
    /\ ro_directoryEnabled s' = ro_directoryEnabled s0 /\ ro_next s' = ro_next s0).
  { unfold s'. destruct (ro_activeConversation s0) eqn:E; [destruct (_ ≟ CtSearch)|]; by rewrite <- ?E. }
  clearbody s'. destruct Hs' as (Ea' & Ed' & En').
  split; [split_and!; [congruence|congruence|left; congruence]|congruence].
Qed.

Lemma recover_calm s : sets_calm s (recover_deleted s).
Proof.
  unfold recover_deleted. destruct (negb _); [apply sets_calm_refl|].
  destruct (ro_activeConversation s) eqn:Ea; [by split_and!; auto|].
  destruct (findPublicChannel _) as [c|]; [|apply sets_calm_refl].
  split_and!; try done. right. by exists (conversation_of_channel c).
Qed.

(** An effect that runs only when its dependencies changed. *)
Lemma effect_calm (run : bool) (f : option Router) s s' :
  (f = Some s' -> sets_calm s s') -> (if run then f else Some s) = Some s' -> sets_calm s s'.
Proof. destruct run; [auto|]. intros _ [= ->]. apply sets_calm_refl. Qed.

Lemma effect_calm_pure (run : bool) s s' : sets_calm s s' -> sets_calm s (if run then s' else s).
Proof. destruct run; [auto|]. intros _. apply sets_calm_refl. Qed.

Lemma run_effects_calm c s s' : run_effects t c s = Some s' -> sets_calm s s'.
Proof.
  unfold run_effects. intros (s1 & E1 & H)%bind_Some. cbv zeta in H.
  apply bind_Some in H as (s3 & E3 & H). apply bind_Some in H as (s4 & E4 & [= <-]).
  apply (effect_calm _ _ _ _ (phase1_calm s s1)) in E1.
  eapply effect_calm in E3; [|apply phase2_calm].
  eapply effect_calm in E4; [|intros E; by apply sync_url_keeps].
  eapply sets_calm_trans; [exact E1|]. eapply sets_calm_trans; [apply effect_calm_pure, leave_test_calm|].
  eapply sets_calm_trans; [exact E3|]. eapply sets_calm_trans; [exact E4|].
  apply effect_calm_pure, recover_calm.
Qed.

(** On a conversation that stays, no effect sets another. *)
Lemma if_same {A} (b : bool) (x : A) : (if b then x else x) = x.
Proof. by destruct b. Qed.

Lemma leave_test_stable s x :
  s.(ro_activeConversation) = Some x -> calm s x -> leave_test s = s.
Proof.
  intros Ha Hc. unfold leave_test. rewrite Ha. cbn [fmap option_fmap option_map].
  destruct (bool_decide_reflect (Some (cv_type x) = Some CtTest)) as [[= Et]|].
  - by rewrite (Hc Et), orb_true_r.
  - by rewrite if_same.
Qed.

Lemma run_effects_active c s x :
  s.(ro_activeConversation) = Some x -> calm s x ->
  run_effects t c s
  = (if c.(chg_active) || c.(chg_suspend) then sync_url s else Some s) ≫= fun s4 =>
    Some (if c.(chg_active) || c.(chg_channels) then recover_deleted s4 else s4).
Proof.
  intros Ha Hc. unfold run_effects, phase1. rewrite Ha, if_same. cbn [mbind option_bind].
  rewrite (leave_test_stable s x Ha Hc), if_same. unfold phase2. by rewrite Ha, if_same.
Qed.

Lemma run_effects_stable c s s' x :
  run_effects t c s = Some s' -> s.(ro_activeConversation) = Some x -> calm s x ->
  s'.(ro_next) = s.(ro_next).
Proof.
  intros H Ha Hc. rewrite (run_effects_active c s x Ha Hc) in H.
  apply bind_Some in H as (s4 & E4 & [= <-]).
  assert (Hs4 : ro_next s4 = ro_next s /\ ro_activeConversation s4 = Some x).
  { destruct (chg_active c || chg_suspend c); [|by injection E4 as <-].
    destruct (sync_url_keeps s s4 E4) as [(? & _) ?]. split; congruence. }
  destruct Hs4 as [<- Ha4]. unfold recover_deleted. rewrite Ha4.
  by destruct (chg_active c || chg_channels c), (negb (ro_pendingDeleteFallback s4)).
Qed.

Lemma settle_done fuel s s' :
  settle_router t (S (S fuel)) s = Some s' ->
  (s.(ro_next) = None \/ exists c, s.(ro_next) = Some (Some c) /\ calm s c) ->
  s'.(ro_next) = None.
Proof.
  intros H [En|(c & En & Hc)].
  - cbn [settle_router] in H. rewrite En in H. by injection H as <-.
  - cbn [settle_router] in H. rewrite En in H.
    set (s1 := s <| ro_activeConversation := Some c |> <| ro_next := None |>) in H.
    assert (Hs2 : exists s2, run_effects t changed_active s1 = Some s2 /\ ro_next s2 = None).
    { destruct (ro_activeConversation s), (run_effects t changed_active s1) as [s2|] eqn:E2; try done;
        exists s2; (split; [done|]); by rewrite (run_effects_stable _ _ _ c E2). }
    destruct Hs2 as (s2 & E2 & En2). rewrite E2 in H. cbn [mbind option_bind] in H. rewrite En2 in H.
    destruct (ro_activeConversation s); by injection H as <-.
Qed.

Lemma commit_router_done c s s' : commit_router t c s = Some s' -> s'.(ro_next) = None.
Proof.
  unfold commit_router. intros H.
  assert (Hs1 : exists s0 s1 c', s0.(ro_next) = None /\ run_effects t c' s0 = Some s1
    /\ settle_router t RENDER_FUEL s1 = Some s').
  { destruct (ro_next s) as [[x|]|], (ro_activeConversation s);
      lazymatch type of H with (run_effects t ?c' ?s0 ≫= _) = _ =>
        destruct (run_effects t c' s0) as [s1|] eqn:E1; [|done];
        exists s0, s1, c'; (split; [done|]); (split; [done|exact H]) end. }
  destruct Hs1 as (s0 & s1 & c' & En0 & E1 & Hs). apply (settle_done 2 s1 s' Hs).
  destruct (run_effects_calm c' s0 s1 E1) as (_ & Ed & [En|(x & En & Hx)]); [left; congruence|].
  right. exists x. split; [done|]. unfold calm in *. by rewrite Ed.
Qed.

Lemma handle_router_done s e s' :
  s.(ro_next) = None -> handle s e = Some s' -> s'.(ro_next) = None.
Proof.
  intros Hn H. destruct e; cbn [handle_router] in H; try (by eapply commit_router_done);
    try (by injection H as <-).
  - destruct (history_back _); [by eapply commit_router_done|by injection H as <-].
  - destruct (history_forward _); [by eapply commit_router_done|by injection H as <-].
  - destruct (hash ≟ _); [by injection H as <-|by eapply commit_router_done].
Qed.

(** Every event settles: whatever happens, the effects stop setting conversations within the
    renders the model allows, so the screen, the address bar and the history come to rest. *)
Theorem router_settles s e s'
    (Hrest : s.(ro_next) = None) (Hstep : handle s e = Some s') :
  s'.(ro_next) = None.
Proof. by eapply handle_router_done. Qed.

(** ** Back and forward *)

(** The address bar shows the conversation on screen, and nothing is under way. *)
Record synced (s : Router) (conv : Conversation) : Prop := {
  sy_active : s.(ro_activeConversation) = Some conv;
  sy_next : s.(ro_next) = None;
  sy_hash : getConversationHash (Some conv) = Some s.(ro_browser).(br_hash);
  sy_sync : s.(ro_hashSyncEnabled) = true;
  sy_push : s.(ro_shouldPushHistory) = false;
  sy_pop : s.(ro_isHandlingPopstate) = false;
  sy_suspend : s.(ro_suspendHashSync) = false;
}.

Definition offers (s : Router) : Conversation -> Prop :=
  offered s.(ro_channels) s.(ro_contacts) s.(ro_directoryEnabled).

Definition same_offers (s s' : Router) : Prop :=
  s'.(ro_channels) = s.(ro_channels) /\ s'.(ro_contacts) = s.(ro_contacts)
  /\ s'.(ro_directoryEnabled) = s.(ro_directoryEnabled).

Lemma offers_same s s' conv : same_offers s s' -> offers s conv -> offers s' conv.
Proof. unfold offers. by intros (-> & -> & ->). Qed.

Lemma offered_calm s conv : offers s conv -> calm s conv.
Proof.
  intros Ho Ht. destruct Ho as [| |type conv Hv| | |]; try done.
  destruct type; try done; by apply (inj Some) in Hv as <-.
Qed.

(** A render that puts a conversation on screen runs the effect of the address bar. *)
Lemma commit_opens c s conv s1 :
  s.(ro_next) = Some (Some conv) -> calm s conv ->
  sync_url (s <| ro_activeConversation := Some conv |> <| ro_next := None |>) = Some s1 ->
  commit_router t c s = Some (recover_deleted s1).
Proof.
  intros En Hc Hs. unfold commit_router. rewrite En.
  set (s0 := s <| ro_activeConversation := Some conv |> <| ro_next := None |>) in *.
  set (c' := {| chg_active := true; chg_channels := _; chg_contacts := _; chg_settings := _;
                chg_suspend := _ |}).
  assert (E : run_effects t c' s0 = Some (recover_deleted s1)).
  { rewrite (run_effects_active c' s0 conv eq_refl Hc). cbn [c' chg_active orb]. by rewrite Hs. }
  pose proof (run_effects_stable c' s0 _ conv E eq_refl Hc) as En'.
  transitivity (run_effects t c' s0 ≫= settle_router t RENDER_FUEL); [by destruct (ro_activeConversation s)|].
  rewrite E. cbn [mbind option_bind settle_router RENDER_FUEL]. by rewrite En'.
Qed.

(** At rest on [conv] with the lists and the browser given. *)
Definition rests (s0 s : Router) (b : Browser) (conv : Conversation) : Prop :=
  synced s conv /\ same_offers s0 s /\ s.(ro_browser) = b.

Lemma recover_rests s0 s b conv : rests s0 s b conv -> rests s0 (recover_deleted s) b conv.
Proof.
  intros ([] & Hl & Hb). unfold recover_deleted. rewrite sy_active0.
  destruct (negb _); (split; [by split|by split]).
Qed.

Lemma remember_rests s0 s b conv :
  rests s0 s b conv ->
  rests s0 (match s.(ro_activeConversation) with
            | Some conv => if conv.(cv_type) ≟ CtSearch then s
                           else s <| ro_remembered := saveLastViewedConversation conv s.(ro_remembered) |>
            | None => s end) b conv.
Proof.
  intros ([] & Hl & Hb). rewrite sy_active0.
  destruct (cv_type conv ≟ CtSearch); (split; [by split|by split]).
Qed.

Lemma sync_url_rests s0 s conv b hash :
  s.(ro_activeConversation) = Some conv -> s.(ro_next) = None -> same_offers s0 s ->
  getConversationHash (Some conv) = Some hash ->
  s.(ro_hashSyncEnabled) = true -> s.(ro_suspendHashSync) = false ->
  (if s.(ro_isHandlingPopstate) then s.(ro_shouldPushHistory) = false /\ b = s.(ro_browser) /\ b.(br_hash) = hash
   else s.(ro_shouldPushHistory) = true /\ s.(ro_browser).(br_hash) <> hash
        /\ b = pushState hash s.(ro_browser)) ->
  exists s1, sync_url s = Some s1 /\ rests s0 s1 b conv.
Proof.
  intros Ha Hn Hl Hh Hs Hsu Hcase. unfold sync_url, pushUrlHash. rewrite Ha, Hs, Hsu, Hh. cbn [andb negb].
  destruct (ro_isHandlingPopstate s) eqn:Ep.
  - destruct Hcase as (Hp & -> & Hb). eexists. split; [reflexivity|]. apply remember_rests.
    split; [split; try done; by rewrite Hh, <- Hb|by split].
  - destruct Hcase as (Hp & Hb & ->). rewrite Hp. cbn [mbind option_bind].
    rewrite bool_decide_eq_false_2 by congruence. eexists. split; [reflexivity|]. apply remember_rests.
    split; [by split|by split].
Qed.

Lemma select_rests s a b hash :
  synced s a -> offers s b -> getConversationHash (Some b) = Some hash -> hash <> s.(ro_browser).(br_hash) ->
  exists s', handle s (RvSelect b) = Some s' /\ rests s s' (pushState hash s.(ro_browser)) b.
Proof.
  intros [] Ho Hh Hne. cbn [handle_router].
  set (s0 := router_setActiveConversation (Some b) s).
  destruct (sync_url_rests s (s0 <| ro_activeConversation := Some b |> <| ro_next := None |>) b
    (pushState hash s.(ro_browser)) hash) as (s1 & Es & Hr); try done.
  { change (if ro_isHandlingPopstate s then ro_shouldPushHistory s0 = false /\ pushState hash s.(ro_browser) = s.(ro_browser) /\ hash = hash
            else true = true /\ br_hash (ro_browser s) <> hash /\ pushState hash s.(ro_browser) = pushState hash s.(ro_browser)).
    by rewrite sy_pop0. }
  exists (recover_deleted s1). split; [|by apply recover_rests].
  apply (commit_opens _ s0 b s1); [done| |exact Es]. by apply (offered_calm s b).
Qed.

(** Landing on a history entry that holds the hash of an offered conversation. *)
Lemma pop_rests s a conv b :
  synced s a -> offers s conv -> getConversationHash (Some conv) = Some b.(br_hash) ->
  exists s', commit_router t unchanged (handlePopstate t (s <| ro_browser := b |>)) = Some s'
             /\ rests s s' b conv.
Proof.
  intros [] Ho Hh. unfold handlePopstate.
  change (ro_browser (s <| ro_browser := b |>)) with b.
  rewrite (conversation_hash_not_settings conv _ Hh).
  change (ro_channels (s <| ro_browser := b |>)) with (ro_channels s).
  change (ro_contacts (s <| ro_browser := b |>)) with (ro_contacts s).
  change (ro_directoryEnabled (s <| ro_browser := b |>)) with (ro_directoryEnabled s).
  rewrite (offered_resolves _ _ _ conv _ Ho Hh).
  set (s0 := setActiveConversationState (Some conv) _).
  destruct (sync_url_rests s (s0 <| ro_activeConversation := Some conv |> <| ro_next := None |>) conv
    b b.(br_hash)) as (s1 & Es & Hr); try done.
  exists (recover_deleted s1). split; [|by apply recover_rests].
  apply (commit_opens _ s0 conv s1); [done| |exact Es]. by apply (offered_calm s conv).
Qed.

(** C37: back undoes a selection, and forward redoes it: a conversation is left for another, and
    the browser's back button lands on the first with its address, its history as before, and the
    forward button on the second. *)
Theorem back_returns s a b hash
    (Ha : synced s a) (Hoa : offers s a) (Hob : offers s b)
    (Hb : getConversationHash (Some b) = Some hash) (Hne : hash <> s.(ro_browser).(br_hash)) :
  exists s1 s2 s3,
    handle s (RvSelect b) = Some s1
    /\ s1.(ro_activeConversation) = Some b /\ s1.(ro_browser) = pushState hash s.(ro_browser)
    /\ handle s1 RvBack = Some s2
    /\ s2.(ro_activeConversation) = Some a
    /\ s2.(ro_browser) = s.(ro_browser) <| br_forward := [hash] |>
    /\ handle s2 RvForward = Some s3
    /\ s3.(ro_activeConversation) = Some b /\ s3.(ro_browser) = pushState hash s.(ro_browser).
Proof.
  destruct (select_rests s a b hash Ha Hob Hb Hne) as (s1 & E1 & Hs1 & Hl1 & Hb1).
  pose proof (sy_hash s a Ha) as Hh.
  destruct (pop_rests s1 b a {| br_hash := br_hash s.(ro_browser); br_back := br_back s.(ro_browser);
    br_forward := [hash] |} Hs1 (offers_same _ _ _ Hl1 Hoa) Hh) as (s2 & E2 & Hs2 & Hl2 & Hb2).
  destruct (pop_rests s2 a b (pushState hash s.(ro_browser)) Hs2
    (offers_same _ _ _ Hl2 (offers_same _ _ _ Hl1 Hob)) Hb) as (s3 & E3 & Hs3 & Hl3 & Hb3).
  exists s1, s2, s3. split_and!; try done; try apply sy_active; try done.
  - cbn [handle_router]. by rewrite Hb1.
  - cbn [handle_router]. rewrite Hb2. exact E3.
Qed.

(** ** Opening a link *)

(** What the hash of an offered conversation asks for. *)
Inductive asks (channels : list Channel) (contacts : list Contact) (directory : bool) (conv : Conversation)
    : ParsedHashConversation -> Prop :=
| asks_view h : view_of_hash t h = Some conv -> asks channels contacts directory conv h
| asks_test h : h.(ph_type) = CtTest -> conv = testConversation t -> directory = true -> asks channels contacts directory conv h
| asks_channel h c : h.(ph_type) = CtChannel -> conv = conversation_of_channel c ->
    resolveChannelFromHashToken h.(ph_name) channels = Some c -> channels <> [] -> asks channels contacts directory conv h
| asks_contact h c : h.(ph_type) = CtContact -> conv = conversation_of_contact c ->
    resolveContactFromHashToken h.(ph_name) contacts = Some c -> asks channels contacts directory conv h.

Lemma offered_asks channels contacts directory conv hash :
  offered channels contacts directory conv -> getConversationHash (Some conv) = Some hash ->
  exists h, parseHashConversation hash = Some (Some h) /\ asks channels contacts directory conv h.
Proof.
  intros Ho Hh. exists (hash_target conv). split.
  - apply hash_target_parses; [|done]. intros _.
    destruct Ho as [c (?&?&?&?)|c (?&?&?&?)|type conv Hv|key Hk|key Hk Hkt|]; try done.
    by destruct type; try done; apply (inj Some) in Hv as <-.
  - destruct Ho as [c Hc|c Hc|type conv Hv|key Hk|key Hk Hkt|Hd].
    + apply (asks_channel _ _ _ _ _ c); [done|done|by apply resolve_channel_key|].
      destruct Hc as [Hin _]. intros ->. by apply not_elem_of_nil in Hin.
    + by apply (asks_contact _ _ _ _ _ c); [..|apply resolve_contact_key].
    + apply asks_view. destruct type; try done; apply (inj Some) in Hv as <-; reflexivity.
    + apply asks_view. by destruct key.
    + apply asks_view. unfold hash_target. cbn [cv_type cv_locateKey fmap option_fmap option_map].
      rewrite Hkt. by destruct key.
    + by apply asks_test.
Qed.

Section link.
Context (channels : list Channel) (contacts : list Contact) (directory : bool) (conv : Conversation).

(** What has not been loaded yet and keeps the conversation closed. *)
Definition waits (s : Router) : Prop :=
  match conv.(cv_type) with
  | CtChannel => s.(ro_channels) = []
  | CtContact => s.(ro_contactsLoaded) = false
  | CtTest => s.(ro_settingsLoaded) = false
  | _ => False
  end.

(** The page is still where the link led. *)
Record at_link (hash : jstr) (s : Router) : Prop := {
  lo_next : s.(ro_next) = None;
  lo_browser : s.(ro_browser) = {| br_hash := hash; br_back := []; br_forward := [] |};
  lo_push : s.(ro_shouldPushHistory) = false;
  lo_pop : s.(ro_isHandlingPopstate) = false;
  lo_pending : s.(ro_pendingDeleteFallback) = false;
  lo_toasts : s.(ro_toasts) = [];
}.

(** What the loads so far brought. *)
Record loading (hash : jstr) (s : Router) : Prop := {
  lo_at : at_link hash s;
  lo_channels : s.(ro_channels) = [] \/ s.(ro_channels) = channels;
  lo_contacts : s.(ro_contactsLoaded) = true -> s.(ro_contacts) = contacts;
  lo_settings : s.(ro_settingsLoaded) = true -> s.(ro_directoryEnabled) = directory;
}.

Definition closed (s : Router) : Prop :=
  s.(ro_activeConversation) = None /\ s.(ro_hasSetDefaultConversation) = false.

Context (hash : jstr) (Hoffered : offered channels contacts directory conv)
        (Hhash : getConversationHash (Some conv) = Some hash).

Lemma link_hash s : loading hash s ->
  exists h, hash_conversation s = Some (Some h) /\ asks channels contacts directory conv h.
Proof.
  intros [[] _ _ _]. destruct (offered_asks _ _ _ _ hash Hoffered Hhash) as (h & Hp & Ha). exists h. split; [|done].
  unfold hash_conversation. rewrite lo_browser0. cbn [br_hash].
  rewrite (conversation_hash_not_settings conv hash Hhash). exact Hp.
Qed.

Lemma link_phase1 s : loading hash s -> closed s ->
  phase1 t s = Some (open_default conv s)
  \/ phase1 t s = Some s /\ (conv.(cv_type) <> CtContact -> waits s).
Proof.
  intros Hl [Ha Hd]. destruct (link_hash s Hl) as (h & Hh & Hask). unfold phase1. rewrite Ha, Hd, Hh.
  cbn [mbind option_bind]. unfold waits.
  destruct Hask as [h Hv|h Ht -> Hdir|h c Ht -> Hc Hne|h c Ht -> Hc].
  - left. by rewrite Hv.
  - assert (Ev : view_of_hash t h = None) by (unfold view_of_hash; by rewrite Ht).
    rewrite Ev. unfold is_type. cbn [fmap option_fmap option_map]. rewrite Ht.
    destruct (ro_settingsLoaded s) eqn:Es; [left|right].
    + rewrite (lo_settings _ _ Hl Es), Hdir. done.
    + done.
  - assert (Ev : view_of_hash t h = None) by (unfold view_of_hash; by rewrite Ht).
    rewrite Ev. unfold is_type. cbn [fmap option_fmap option_map]. rewrite Ht.
    unfold phase1_lists. cbn [cv_type conversation_of_channel].
    destruct (lo_channels _ _ Hl) as [E|E]; rewrite E; [by right|left].
    cbn [bool_decide]. rewrite (proj2 (Z.eqb_neq _ 0)) by (intros E0; by apply len_zero in E0).
    rewrite Ht. cbn. by rewrite Hc.
  - right. assert (Ev : view_of_hash t h = None) by (unfold view_of_hash; by rewrite Ht).
    rewrite Ev. unfold is_type. cbn [fmap option_fmap option_map]. rewrite Ht.
    split; [|done]. unfold phase1_lists, is_type. cbn [fmap option_fmap option_map].
    rewrite Ht. by destruct (len _ =? 0).
Qed.

Lemma link_phase2 s : loading hash s -> closed s ->
  phase2 s = Some (open_default conv s)
  \/ phase2 s = Some s /\ (conv.(cv_type) = CtContact -> waits s).
Proof.
  intros Hl [Ha Hd]. destruct (link_hash s Hl) as (h & Hh & Hask). unfold phase2. rewrite Ha, Hd, Hh.
  cbn [mbind option_bind]. unfold waits. destruct (bool_decide_reflect (h.(ph_type) = CtContact)) as [Ht|Ht].
  - cbn [negb]. destruct Hask as [h Hv|h Ht' -> Hdir|h c Ht' -> Hc Hne|h c Ht' -> Hc];
      [unfold view_of_hash in Hv; by rewrite Ht in Hv|congruence|congruence|].
    destruct (ro_contactsLoaded s) eqn:Es; [|by right]. left.
    rewrite (lo_contacts _ _ Hl Es), Hc. done.
  - right. split; [done|]. intros Et. exfalso.
    destruct Hask as [h Hv|h Ht' -> Hdir|h c Ht' -> Hc Hne|h c Ht' -> Hc]; try done.
    unfold view_of_hash in Hv. destruct (ph_type h); try done; apply (inj Some) in Hv as <-; done.
Qed.

(** The link is open, and will stay open. *)
Definition opened (s : Router) : Prop := s.(ro_activeConversation) = Some conv /\ calm s conv.

Lemma link_sync_url s : at_link hash s -> opened s ->
  exists s1, sync_url s = Some s1 /\ at_link hash s1 /\ opened s1.
Proof.
  intros Hl [Ha Hc]. unfold sync_url. rewrite (lo_pop _ _ Hl), (lo_push _ _ Hl), Ha.
  unfold updateUrlHash. rewrite Hhash, (lo_browser _ _ Hl). cbn [mbind option_bind br_hash].
  rewrite (bool_decide_eq_true_2 (hash = hash)) by done.
  set (s' := s <| ro_browser := _ |>).
  assert (Hs' : at_link hash s' /\ opened s') by (split; [by destruct Hl|done]).
  assert (Hrem : forall s0, at_link hash s0 -> opened s0 ->
    exists s1, Some (match s0.(ro_activeConversation) with
              | Some conv => if conv.(cv_type) ≟ CtSearch then s0
                             else s0 <| ro_remembered := saveLastViewedConversation conv s0.(ro_remembered) |>
              | None => s0 end) = Some s1 /\ at_link hash s1 /\ opened s1).
  { intros s0 Hl0 [Ha0 Hc0]. rewrite Ha0. eexists. split; [reflexivity|].
    destruct (cv_type conv ≟ CtSearch); [by split|]. split; [by destruct Hl0|by split]. }
  destruct (ro_hashSyncEnabled s && negb (ro_suspendHashSync s)); cbn [mbind option_bind];
    apply Hrem; try done; apply Hs'.
Qed.

Lemma recover_not_pending s : s.(ro_pendingDeleteFallback) = false -> recover_deleted s = s.
Proof. unfold recover_deleted. by intros ->. Qed.

Lemma link_effects_opened c s : at_link hash s -> opened s ->
  exists s1, run_effects t c s = Some s1 /\ at_link hash s1 /\ opened s1.
Proof.
  intros Hl [Ha Hc]. rewrite (run_effects_active c s conv Ha Hc).
  destruct (link_sync_url s Hl (conj Ha Hc)) as (s1 & Es & Hl1 & Ho1).
  exists (if chg_active c || chg_suspend c then s1 else s).
  destruct (chg_active c || chg_suspend c); rewrite ?Es; cbn [mbind option_bind];
    rewrite recover_not_pending by (by eapply lo_pending); by rewrite if_same.
Qed.

Lemma link_settle fuel s : at_link hash s -> settle_router t fuel s = Some s.
Proof. intros Hl. destruct fuel; [done|]. cbn [settle_router]. by rewrite (lo_next _ _ Hl). Qed.

Lemma link_effects_closed c s : loading hash s -> closed s ->
  run_effects t c s = Some (open_default conv s)
  \/ run_effects t c s = Some s
     /\ (chg_active c || chg_channels c || chg_settings c = true -> conv.(cv_type) <> CtContact -> waits s)
     /\ (chg_active c || chg_channels c || chg_contacts c = true -> conv.(cv_type) = CtContact -> waits s).
Proof.
  intros Hl Hcl. pose proof Hcl as [Ha Hd].
  assert (Hleave : forall s0, ro_activeConversation s0 = None -> leave_test s0 = s0).
  { intros s0 E. unfold leave_test. rewrite E. by destruct (_ || _). }
  assert (Hsync : forall s0, ro_activeConversation s0 = None -> ro_isHandlingPopstate s0 = false ->
    sync_url s0 = Some s0).
  { intros s0 E1 E2. unfold sync_url. rewrite E1, E2. cbn [mbind option_bind]. by rewrite E1. }
  assert (Hopen : forall s0, ro_activeConversation s0 = None -> ro_hasSetDefaultConversation s0 = true ->
    phase2 s0 = Some s0).
  { intros s0 E1 E2. unfold phase2. by rewrite E1, E2. }
  assert (Hend : forall s0, (s0 = s \/ s0 = open_default conv s) ->
    (if chg_active c || chg_suspend c then sync_url s0 else Some s0) ≫= (fun s4 =>
      Some (if chg_active c || chg_channels c then recover_deleted s4 else s4)) = Some s0).
  { intros s0 Hs0.
    assert (E : ro_activeConversation s0 = None /\ ro_isHandlingPopstate s0 = false
                /\ ro_pendingDeleteFallback s0 = false)
      by (destruct Hl as [[] _ _ _], Hs0 as [->| ->]; done).
    destruct E as (E1 & E2 & E3). rewrite (Hsync s0 E1 E2), if_same. cbn [mbind option_bind].
    by rewrite (recover_not_pending s0 E3), if_same. }
  unfold run_effects. set (c1 := chg_active c || chg_channels c || chg_settings c).
  set (c2 := chg_active c || chg_channels c || chg_contacts c).
  assert (H1 : (if c1 then phase1 t s else Some s) = Some (open_default conv s)
    \/ (if c1 then phase1 t s else Some s) = Some s /\ (c1 = true -> conv.(cv_type) <> CtContact -> waits s)).
  { destruct c1; [|by right]. destruct (link_phase1 s Hl Hcl) as [E|[E Hw]]; [by left|right; auto]. }
  assert (H2 : (if c2 then phase2 s else Some s) = Some (open_default conv s)
    \/ (if c2 then phase2 s else Some s) = Some s /\ (c2 = true -> conv.(cv_type) = CtContact -> waits s)).
  { destruct c2; [|by right]. destruct (link_phase2 s Hl Hcl) as [E|[E Hw]]; [by left|right; auto]. }
  destruct H1 as [->|[-> Hw1]]; cbn [mbind option_bind].
  - left. rewrite (Hleave (open_default conv s)), if_same by done.
    rewrite (Hopen (open_default conv s)), if_same by done. apply Hend. by right.
  - rewrite (Hleave s Ha), if_same. destruct H2 as [->|[-> Hw2]]; cbn [mbind option_bind].
    + left. apply Hend. by right.
    + right. split; [apply Hend; by left|done].
Qed.

Lemma set_next_none s : s.(ro_next) = None -> s <| ro_next := None |> = s.
Proof. destruct s. cbn. by intros ->. Qed.

Lemma link_commit_opened c s : at_link hash s -> opened s ->
  exists s', commit_router t c s = Some s' /\ at_link hash s' /\ opened s'.
Proof.
  intros Hl Ho. destruct (link_effects_opened c s Hl Ho) as (s1 & E & Hl1 & Ho1).
  exists s1. split; [|done]. unfold commit_router.
  rewrite (lo_next _ _ Hl), (set_next_none s (lo_next _ _ Hl)), E. by apply link_settle.
Qed.

Lemma link_commit_closed c s : loading hash s -> closed s ->
  (exists s', commit_router t c s = Some s' /\ at_link hash s' /\ opened s')
  \/ commit_router t c s = Some s
     /\ (chg_active c || chg_channels c || chg_settings c = true -> conv.(cv_type) <> CtContact -> waits s)
     /\ (chg_active c || chg_channels c || chg_contacts c = true -> conv.(cv_type) = CtContact -> waits s).
Proof.
  intros Hlo Hcl. pose proof (lo_at _ _ Hlo) as Hl.
  assert (Ec : commit_router t c s = run_effects t c s ≫= settle_router t RENDER_FUEL).
  { unfold commit_router. by rewrite (lo_next _ _ Hl), (set_next_none s (lo_next _ _ Hl)). }
  rewrite Ec. destruct (link_effects_closed c s Hlo Hcl) as [E|(E & Hw)]; rewrite E; cbn [mbind option_bind].
  - left. destruct (run_effects_calm c s _ E) as (_ & _ & [En|(x & [= <-] & Hc)]).
    { by rewrite (lo_next _ _ Hl) in En. }
    set (s0 := (open_default conv s) <| ro_activeConversation := Some conv |> <| ro_next := None |>).
    destruct (link_effects_opened changed_active s0) as (s1 & E1 & Hl1 & Ho1);
      [by destruct Hl|by split|].
    exists s1. split; [|done].
    transitivity (run_effects t changed_active s0 ≫= settle_router t 3); [reflexivity|].
    rewrite E1. by apply link_settle.
  - right. split; [|done]. by apply link_settle.
Qed.

(** The loads of a page: the lists and the settings arrive, in any order. *)
Inductive load : RouterEvent -> Prop :=
| load_channels : load (RvChannels channels)
| load_contacts : load (RvContacts contacts)
| load_contactsLoaded : load (RvContactsLoaded true)
| load_settings : load (RvSettings true directory)
| load_suspend suspend : load (RvSuspend suspend).

(** What the loads so far brought to a link that still waits. *)
Definition brought (es : list RouterEvent) (s : Router) : Prop :=
  (RvChannels channels ∈ es -> s.(ro_channels) = channels)
  /\ (RvContacts contacts ∈ es -> s.(ro_contacts) = contacts)
  /\ (RvContactsLoaded true ∈ es -> s.(ro_contactsLoaded) = true)
  /\ (RvSettings true directory ∈ es -> s.(ro_settingsLoaded) = true).

Definition linked (es : list RouterEvent) (s : Router) : Prop :=
  at_link hash s /\ (opened s \/ loading hash s /\ closed s /\ waits s /\ brought es s).

Lemma link_directory s : conv.(cv_type) = CtTest -> s.(ro_directoryEnabled) = directory -> calm s conv.
Proof.
  intros Ht Hd _. rewrite Hd. destruct Hoffered as [| |type conv Hv| | |]; try done.
  by destruct type; try done; apply (inj Some) in Hv as <-.
Qed.

Lemma brought_snoc es e s s0 :
  brought es s ->
  (s0.(ro_channels) = s.(ro_channels) \/ s0.(ro_channels) = channels) ->
  (s0.(ro_contacts) = s.(ro_contacts) \/ s0.(ro_contacts) = contacts) ->
  (s0.(ro_contactsLoaded) = s.(ro_contactsLoaded) \/ s0.(ro_contactsLoaded) = true) ->
  (s0.(ro_settingsLoaded) = s.(ro_settingsLoaded) \/ s0.(ro_settingsLoaded) = true) ->
  (e = RvChannels channels -> s0.(ro_channels) = channels) ->
  (e = RvContacts contacts -> s0.(ro_contacts) = contacts) ->
  (e = RvContactsLoaded true -> s0.(ro_contactsLoaded) = true) ->
  (e = RvSettings true directory -> s0.(ro_settingsLoaded) = true) ->
  brought (es ++ [e]) s0.
Proof.
  intros (B1 & B2 & B3 & B4) C1 C2 C3 C4 D1 D2 D3 D4.
  split_and!; intros [H|H%list_elem_of_singleton]%elem_of_app; auto.
  - destruct C1 as [->|]; auto.
  - destruct C2 as [->|]; auto.
  - destruct C3 as [->|]; auto.
  - destruct C4 as [->|]; auto.
Qed.

Lemma link_event_opened es e s :
  load e -> at_link hash s -> opened s -> exists s', handle s e = Some s' /\ linked (es ++ [e]) s'.
Proof.
  intros He Hl [Ha Hc].
  assert (Hev : exists c s0, handle s e = commit_router t c s0 /\ at_link hash s0 /\ opened s0).
  { destruct He; (eexists _, _; split; [reflexivity|]; split; [by destruct Hl|split; [exact Ha|]]);
      try exact Hc. intros Ht.
    by apply (link_directory (s <| ro_settingsLoaded := true |> <| ro_directoryEnabled := directory |>)). }
  destruct Hev as (c & s0 & -> & Hl0 & Ho0).
  destruct (link_commit_opened c s0 Hl0 Ho0) as (s' & E & Hl' & Ho'). exists s'. split; [done|].
  split; [done|by left].
Qed.

(** The state an event hands to a render, while the link waits. *)
Lemma link_event_closed es e s :
  load e -> (e = RvContactsLoaded true -> RvContacts contacts ∈ es) ->
  loading hash s -> closed s -> waits s -> brought es s ->
  exists c s0, handle s e = commit_router t c s0 /\ loading hash s0 /\ closed s0 /\ brought (es ++ [e]) s0
    /\ (waits s0
        \/ conv.(cv_type) = CtContact /\ chg_active c || chg_channels c || chg_contacts c = true
        \/ conv.(cv_type) <> CtContact /\ chg_active c || chg_channels c || chg_settings c = true).
Proof.
  intros He Hord Hlo Hcl Hw Hb.
  assert (Hwait : forall s0, (conv.(cv_type) = CtChannel -> ro_channels s0 = ro_channels s) ->
    (conv.(cv_type) = CtContact -> ro_contactsLoaded s0 = ro_contactsLoaded s) ->
    (conv.(cv_type) = CtTest -> ro_settingsLoaded s0 = ro_settingsLoaded s) -> waits s0).
  { intros s0 W1 W2 W3. unfold waits in *. destruct (cv_type conv); try done; by rewrite ?W1, ?W2, ?W3. }
  destruct He; (eexists _, _; split; [reflexivity|]);
    (split; [destruct Hlo as [[] ? ? ?]; (split; [done|..]); auto|split; [exact Hcl|split;
      [apply (brought_snoc es _ s); auto; done|]]]).
  - destruct (decide (conv.(cv_type) = CtContact)); right; [by left|by right].
  - destruct (decide (conv.(cv_type) = CtContact)); [by right; left|left; by apply Hwait].
  - intros _. by apply Hb, Hord.
  - destruct (decide (conv.(cv_type) = CtContact)); [by right; left|left; by apply Hwait].
  - destruct (decide (conv.(cv_type) = CtContact)); [left; apply Hwait; intros ?; (done || congruence)|by right; right].
  - left. by apply Hwait.
Qed.

Lemma link_event es e s :
  load e -> (e = RvContactsLoaded true -> RvContacts contacts ∈ es) -> linked es s ->
  exists s', handle s e = Some s' /\ linked (es ++ [e]) s'.
Proof.
  intros He Hord [Hl [Ho|(Hlo & Hcl & Hw & Hb)]]; [by apply link_event_opened|].
  destruct (link_event_closed es e s He Hord Hlo Hcl Hw Hb) as (c & s0 & -> & Hlo0 & Hcl0 & Hb0 & Hw0).
  destruct (link_commit_closed c s0 Hlo0 Hcl0) as [(s' & E & Hl' & Ho')|(E & Hw1 & Hw2)].
  - exists s'. split; [done|]. split; [done|by left].
  - exists s0. split; [done|]. split; [apply Hlo0|right].
    destruct Hw0 as [Hw0|[[Ht Hc]|[Ht Hc]]]; auto.
Qed.

Lemma link_run es : Forall load es ->
  (forall es1 es2, es = es1 ++ RvContactsLoaded true :: es2 -> RvContacts contacts ∈ es1) ->
  forall s0, linked [] s0 ->
  exists s, foldl (fun s e => s ≫= fun s => handle s e) (Some s0) es = Some s /\ linked es s.
Proof.
  intros Hes Hord s0 H0. induction es as [|e es IH] using rev_ind; [by exists s0|].
  apply Forall_app in Hes as [Hes [He _]%Forall_cons_1].
  destruct IH as (s & E & Hl); [done| |].
  - intros es1 es2 ->. apply (Hord es1 (es2 ++ [e])). by rewrite <- app_assoc.
  - rewrite foldl_app, E. cbn [foldl mbind option_bind]. apply link_event; [done| |done].
    intros ->. by apply (Hord es []).
Qed.

Lemma link_initial remembered narrow :
  exists s0 s1, initial_router hash remembered narrow = Some s0 /\ handle s0 RvMount = Some s1 /\ linked [] s1.
Proof.
  unfold initial_router. rewrite (conversation_hash_not_settings conv hash Hhash). cbn [mbind option_bind].
  lazymatch goal with |- exists _ _, Some ?r = _ /\ _ => set (s0 := r) end. exists s0.
  assert (Hlo : loading hash s0) by (split; [done|by left|done|done]).
  destruct (link_commit_closed {| chg_active := true; chg_channels := true; chg_contacts := true;
    chg_settings := true; chg_suspend := true |} s0 Hlo (conj eq_refl eq_refl))
    as [(s' & E & Hl' & Ho')|(E & Hw1 & Hw2)].
  - exists s'. split_and!; [done|exact E|]. split; [done|by left].
  - exists s0. split_and!; [done|exact E|]. split; [apply Hlo|right]. split_and!; try done.
    + destruct (decide (conv.(cv_type) = CtContact)); auto.
    + split_and!; by intros ?%not_elem_of_nil.
Qed.

Lemma linked_open es s : linked es s ->
  RvChannels channels ∈ es -> RvContactsLoaded true ∈ es -> RvSettings true directory ∈ es -> opened s.
Proof.
  intros [_ [Ho|(_ & _ & Hw & B1 & _ & B3 & B4)]] H1 H3 H4; [done|exfalso].
  unfold waits in Hw. rewrite (B3 H3), (B4 H4), (B1 H1) in Hw.
  destruct Hoffered as [c [Hin _]|c Hc|type conv Hv|key Hk|key Hk Hkt|Hd]; try done.
  - cbn in Hw. rewrite Hw in Hin. by apply not_elem_of_nil in Hin.
  - destruct type; try done; by apply (inj Some) in Hv as <-.
Qed.
End link.

(** The page opened at a hash, then its loads. *)
Definition visit (hash : jstr) (remembered : Remembered) (narrow : bool) (es : list RouterEvent) : option Router :=
  s0 ← initial_router hash remembered narrow;
  s1 ← handle s0 RvMount;
  foldl (fun s e => s ≫= fun s => handle s e) (Some s1) es.

(** C7: a link is always followed: the page opened at the hash of a conversation the instance
    offers, whatever the order its channels, contacts and settings load in and whatever this
    device remembers, opens that conversation and no other once they have, without an error
    and without rewriting the address or the history. *)
Theorem link_opens channels contacts directory conv hash remembered narrow es
    (Hoffered : offered channels contacts directory conv)
    (Hhash : getConversationHash (Some conv) = Some hash)
    (Hloads : Forall (load channels contacts directory) es)
    (Hcontacts : forall es1 es2, es = es1 ++ RvContactsLoaded true :: es2 -> RvContacts contacts ∈ es1) :
  exists s, visit hash remembered narrow es = Some s
    /\ s.(ro_browser) = {| br_hash := hash; br_back := []; br_forward := [] |}
    /\ s.(ro_toasts) = []
    /\ (s.(ro_activeConversation) = None \/ s.(ro_activeConversation) = Some conv)
    /\ (RvChannels channels ∈ es -> RvContactsLoaded true ∈ es -> RvSettings true directory ∈ es ->
        s.(ro_activeConversation) = Some conv).
Proof.
  destruct (link_initial channels contacts directory conv hash Hoffered Hhash remembered narrow)
    as (s0 & s1 & E0 & E1 & H1).
  destruct (link_run channels contacts directory conv hash Hoffered Hhash es Hloads Hcontacts s1 H1)
    as (s & E & Hl & Hs).
  exists s. unfold visit. rewrite E0. cbn [mbind option_bind]. rewrite E1. cbn [mbind option_bind].
  split_and!; [exact E|apply Hl|apply Hl| |].
  - destruct Hs as [[Ha _]|(_ & [Ha _] & _)]; [by right|by left].
  - intros I1 I3 I4.
    by apply (linked_open channels contacts directory conv hash Hoffered Hhash es s (conj Hl Hs)).
Qed.
End router.

(** ** Examples *)

Definition example_t (key : jstr) : jstr := key.
Definition route_channel (key name : jstr) : Channel :=
  {| ch_key := key; ch_name := name; ch_is_hashtag := false; ch_on_radio := false;
     ch_flood_scope_override := None; ch_path_hash_mode_override := None; ch_last_read_at := None;
     ch_favorite := false; ch_pinned := None; ch_muted := false; ch_muted_until := None;
     ch_membership := None |}.
Definition route_public : Channel := route_channel PUBLIC_CHANNEL_KEY PUBLIC_CHANNEL_NAME.
Definition route_talk : Channel := route_channel (js "C0FFEE") (js "#talk").
Definition route_channels : list Channel := [route_public; route_talk].

Lemma route_talk_proper : proper_key ch_key route_channels route_talk.
Proof.
  split_and!; [by right; left|done|by vm_compute|].
  intros y [->|[->|[]%not_elem_of_nil]%elem_of_cons]%elem_of_cons E; [|done]. vm_compute in E. discriminate E.
Qed.
Lemma route_public_proper : proper_key ch_key route_channels route_public.
Proof.
  split_and!; [by left|done|by vm_compute|].
  intros y [->|[->|[]%not_elem_of_nil]%elem_of_cons]%elem_of_cons E; [done|]. vm_compute in E. discriminate E.
Qed.

Definition route_loads : list RouterEvent :=
  [RvSettings true false; RvContacts []; RvContactsLoaded true; RvChannels route_channels].
Definition route_none : Remembered := {| re_lastViewed := None; re_reopen := false |}.
Definition route_talk_hash : jstr := js "#channel/C0FFEE/talk".
Definition route_public_hash : jstr := js "#channel/8B3387E9C5CDEA6AC9E5EDBAA115CD72/Public".

(** The page after a link to a channel was followed. *)
Definition route_state : Router :=
  default {| ro_activeConversation := None; ro_next := None; ro_hashSyncEnabled := false;
             ro_shouldPushHistory := false; ro_isHandlingPopstate := false;
             ro_hasSetDefaultConversation := false; ro_pendingDeleteFallback := false;
             ro_channels := []; ro_contacts := []; ro_contactsLoaded := false;
             ro_settingsLoaded := false; ro_directoryEnabled := false; ro_suspendHashSync := false;
             ro_narrow := false; ro_browser := {| br_hash := []; br_back := []; br_forward := [] |};
             ro_remembered := route_none; ro_toasts := [] |}
    (visit example_t route_talk_hash route_none false route_loads).

Lemma route_loads_ordered es1 es2 :
  route_loads = es1 ++ RvContactsLoaded true :: es2 -> RvContacts [] ∈ es1.
Proof.
  intros E. assert (Hat : route_loads !! length es1 = Some (RvContactsLoaded true)).
  { rewrite E. by apply list_lookup_middle. }
  destruct (length es1) as [|[|[|[|n]]]] eqn:El; try discriminate Hat.
  apply (list_elem_of_lookup_2 _ 1).
  rewrite <- (lookup_app_l es1 (RvContactsLoaded true :: es2)) by lia. by rewrite <- E.
Qed.

Lemma link_opens_witness :
  exists s, visit example_t route_talk_hash route_none false route_loads = Some s
    /\ s.(ro_browser) = {| br_hash := route_talk_hash; br_back := []; br_forward := [] |}
    /\ s.(ro_activeConversation) = Some (conversation_of_channel route_talk).
Proof.
  destruct (link_opens example_t route_channels [] false (conversation_of_channel route_talk)
    route_talk_hash route_none false route_loads) as (s & Hv & Hb & _ & _ & Ho).
  - apply offered_channel, route_talk_proper.
  - by vm_compute.
  - repeat constructor.
  - exact route_loads_ordered.
  - exists s. split_and!; [exact Hv|exact Hb|apply Ho; [do 3 right; left|do 2 right; left|left]].
Defined.

Lemma route_state_synced : synced route_state (conversation_of_channel route_talk).
Proof. split; by vm_compute. Qed.

Lemma back_returns_witness :
  exists s1 s2,
    handle_router example_t route_state (RvSelect (conversation_of_channel route_public)) = Some s1
    /\ s1.(ro_browser).(br_hash) = route_public_hash
    /\ handle_router example_t s1 RvBack = Some s2
    /\ s2.(ro_activeConversation) = Some (conversation_of_channel route_talk)
    /\ s2.(ro_browser).(br_hash) = route_talk_hash.
Proof.
  destruct (back_returns example_t route_state (conversation_of_channel route_talk)
    (conversation_of_channel route_public) route_public_hash)
    as (s1 & s2 & s3 & E1 & _ & B1 & E2 & A2 & B2 & _).
  - exact route_state_synced.
  - apply offered_channel, route_talk_proper.
  - apply offered_channel, route_public_proper.
  - by vm_compute.
  - by vm_compute.
  - exists s1, s2. split_and!; [exact E1|by rewrite B1|exact E2|exact A2|by rewrite B2].
Defined.

Definition route_closed : Router :=
  default route_state (handle_router example_t route_state (RvSetActive None)).
Lemma route_closed_eq : handle_router example_t route_state (RvSetActive None) = Some route_closed.
Proof. by vm_compute. Qed.

Lemma router_settles_witness :
  handle_router example_t route_state (RvSetActive None) = Some route_closed
  /\ route_closed.(ro_next) = None.
Proof.
  split; [exact route_closed_eq|].
  exact (router_settles example_t route_state (RvSetActive None) route_closed
    (sy_next _ _ route_state_synced) route_closed_eq).
Defined.

(** On a phone, [null] set while nothing is open renders nothing, so the flag that going back to
    the bare page sets is still there when the next conversation opens: its address is not
    written. *)
Definition phone_events (es : list RouterEvent) : option Router :=
  visit example_t [] route_none true (route_loads ++ es).

Example popstate_flag_leaks :
  (ro_isHandlingPopstate <$> phone_events [RvTypeHash (js "#nothing"); RvBack]) = Some true
  /\ ((fun s => (ro_activeConversation s, br_hash (ro_browser s)))
      <$> phone_events [RvTypeHash (js "#nothing"); RvBack; RvSelect (conversation_of_channel route_talk)])
     = Some (Some (conversation_of_channel route_talk), [])
  /\ ((fun s => br_hash (ro_browser s)) <$> phone_events [RvSelect (conversation_of_channel route_talk)])
     = Some route_talk_hash.
Proof. by vm_compute. Qed.

(** A malformed escape throws while the initial effects run: the page does not come up. *)
Example malformed_hash_throws :
  visit example_t (js "#contact/%") route_none false [] = None
  /\ visit example_t (js "#contact/100%25") route_none false [] <> None.
Proof. by vm_compute. Qed.

(** The radio test replaces the remembered conversation with one that is never reopened. *)
Example test_forgets_last_viewed :
  getLastViewedConversation (re_lastViewed (saveLastViewedConversation (testConversation example_t)
    (saveLastViewedConversation (conversation_of_channel route_talk) route_none))) = None
  /\ getLastViewedConversation (re_lastViewed
       (saveLastViewedConversation (conversation_of_channel route_talk) route_none))
     = Some (conversation_of_channel route_talk).
Proof. by vm_compute. Qed.
