(* ===== verification/Regex.v ===== *)
(** The regular expressions of the source: a backtracking matcher as ECMAScript describes it, on
    expressions transcribed constructor by constructor, and what its results mean.

    [exec] returns the captures of the first match, [None] being [null]. Quantifiers are greedy;
    an iteration that consumes nothing ends a star. A lookahead holds no groups. *)
From S2P Require Import Prelude JsString.

Inductive regex :=
| ReEmpty
| ReChar (p : Z -> bool)
| ReSeq (a b : regex)
| ReAlt (a b : regex)
| ReStar (a : regex)
| ReOpt (a : regex)
| ReGroup (n : nat) (a : regex)
| ReStart
| ReEnd
| ReAhead (a : regex).

Definition RePlus (a : regex) : regex := ReSeq a (ReStar a).
Fixpoint ReTimes (n : nat) (a : regex) : regex :=
  match n with O => ReEmpty | S n => ReSeq a (ReTimes n a) end.
Definition ReLit (s : jstr) : regex := foldr (fun c r => ReSeq (ReChar (Z.eqb c)) r) ReEmpty s.

(** The flag [i], for classes of ASCII characters. *)
Definition ci (p : Z -> bool) (c : Z) : bool := p (unit_lower c) || p (unit_upper c).
Definition ReLitI (s : jstr) : regex := foldr (fun c r => ReSeq (ReChar (ci (Z.eqb c))) r) ReEmpty s.

Definition is_lower (c : Z) : bool := in_range 97 122 c.
Definition is_alpha (c : Z) : bool := in_range 97 122 c || in_range 65 90 c.
(** [.] *)
Definition is_dot (c : Z) : bool := negb ((c =? 10) || (c =? 13) || (c =? 8232) || (c =? 8233)).

(** Where the matcher is, and what the groups captured. *)
Record Cursor := { cu_pos : Z; cu_rest : jstr; cu_caps : gmap nat jstr }.

Definition capture (n : nat) (from to : Cursor) : Cursor :=
  {| cu_pos := to.(cu_pos); cu_rest := to.(cu_rest);
     cu_caps := <[n := take (length from.(cu_rest) - length to.(cu_rest)) from.(cu_rest)]> to.(cu_caps) |}.

Fixpoint star_match {A} (body : (Cursor -> option A) -> Cursor -> option A) (k : Cursor -> option A)
    (fuel : nat) (s : Cursor) : option A :=
  match fuel with
  | O => k s
  | S fuel =>
    match body (fun s' => if (length s'.(cu_rest) <? length s.(cu_rest))%nat
                          then star_match body k fuel s' else None) s with
    | Some x => Some x
    | None => k s
    end
  end.

Fixpoint re_match {A} (r : regex) (k : Cursor -> option A) (s : Cursor) : option A :=
  match r with
  | ReEmpty => k s
  | ReChar p =>
    match s.(cu_rest) with
    | c :: rest => if p c then k {| cu_pos := s.(cu_pos) + 1; cu_rest := rest; cu_caps := s.(cu_caps) |} else None
    | [] => None
    end
  | ReSeq a b => re_match a (re_match b k) s
  | ReAlt a b => match re_match a k s with Some x => Some x | None => re_match b k s end
  | ReStar a => star_match (re_match a) k (length s.(cu_rest)) s
  | ReOpt a =>
    match re_match a (fun s' => if (length s'.(cu_rest) <? length s.(cu_rest))%nat then k s' else None) s with
    | Some x => Some x
    | None => k s
    end
  | ReGroup n a => re_match a (fun s' => k (capture n s s')) s
  | ReStart => if s.(cu_pos) =? 0 then k s else None
  | ReEnd => match s.(cu_rest) with [] => k s | _ => None end
  | ReAhead a =>
    match re_match a Some s with
    | Some _ => k s
    | None => None
    end
  end.

(** A match: where it starts and ends, and its captures. *)
Record Match := { ma_index : Z; ma_end : Z; ma_caps : gmap nat jstr }.

(** [r.exec(text)] of a global expression from [lastIndex = pos]. *)
Fixpoint exec_from (r : regex) (pos : Z) (rest : jstr) : option Match :=
  match re_match r Some {| cu_pos := pos; cu_rest := rest; cu_caps := ∅ |} with
  | Some s => Some {| ma_index := pos; ma_end := s.(cu_pos); ma_caps := s.(cu_caps) |}
  | None => match rest with [] => None | _ :: rest => exec_from r (pos + 1) rest end
  end.

(** [r.exec(text)]; [match[n]] is [caps !! n]. *)
Definition exec (r : regex) (text : jstr) : option (gmap nat jstr) :=
  ma_caps <$> exec_from r 0 text.
Definition re_test (r : regex) (text : jstr) : bool :=
  match exec r text with Some _ => true | None => false end.

(** ** What a match means *)

(** The expression matches from one cursor to another. *)
Inductive matches : regex -> Cursor -> Cursor -> Prop :=
| m_empty s : matches ReEmpty s s
| m_char p c pos rest caps : p c = true ->
    matches (ReChar p) {| cu_pos := pos; cu_rest := c :: rest; cu_caps := caps |}
      {| cu_pos := pos + 1; cu_rest := rest; cu_caps := caps |}
| m_seq a b s1 s2 s3 : matches a s1 s2 -> matches b s2 s3 -> matches (ReSeq a b) s1 s3
| m_alt_l a b s s' : matches a s s' -> matches (ReAlt a b) s s'
| m_alt_r a b s s' : matches b s s' -> matches (ReAlt a b) s s'
| m_star_nil a s : matches (ReStar a) s s
| m_star_cons a s1 s2 s3 : matches a s1 s2 -> (length s2.(cu_rest) < length s1.(cu_rest))%nat ->
    matches (ReStar a) s2 s3 -> matches (ReStar a) s1 s3
| m_opt_none a s : matches (ReOpt a) s s
| m_opt_some a s s' : matches a s s' -> (length s'.(cu_rest) < length s.(cu_rest))%nat -> matches (ReOpt a) s s'
| m_group n a s s' : matches a s s' -> matches (ReGroup n a) s (capture n s s')
| m_start s : s.(cu_pos) = 0 -> matches ReStart s s
| m_end s : s.(cu_rest) = [] -> matches ReEnd s s
| m_ahead a s s' : matches a s s' -> matches (ReAhead a) s s.

(** The matcher's answer is a match the continuation accepts. *)
Lemma re_match_sound {A} r (k : Cursor -> option A) s x :
  re_match r k s = Some x -> exists s', matches r s s' /\ k s' = Some x.
Proof.
  revert A k s x. induction r as [|p|a IHa b IHb|a IHa b IHb|a IHa|a IHa|n a IHa| | |a IHa];
    intros A k s x; cbn [re_match].
  - intros H. eexists. split; [apply m_empty|exact H].
  - destruct s as [pos [|c rest] caps]; cbn; [done|]. destruct (p c) eqn:Ep; [|done]. intros H.
    eexists. split; [by apply m_char|exact H].
  - intros (s2 & Ha & (s3 & Hb & Hk)%IHb)%IHa. exists s3. split; [by eapply m_seq|done].
  - destruct (re_match a k s) as [y|] eqn:E.
    + intros [= <-]. destruct (IHa _ _ _ _ E) as (s' & Hm & Hk). exists s'. split; [by apply m_alt_l|done].
    + intros (s' & Hm & Hk)%IHb. exists s'. split; [by apply m_alt_r|done].
  - generalize (length (cu_rest s)). intros fuel. revert s x.
    induction fuel as [|fuel IHf]; intros s x; cbn [star_match].
    + intros H. exists s. split; [apply m_star_nil|done].
    + destruct (re_match a _ s) as [y|] eqn:E.
      * intros [= <-]. apply IHa in E as (s2 & Hm & Hk).
        destruct (Nat.ltb_spec (length (cu_rest s2)) (length (cu_rest s))); [|done].
        destruct (IHf _ _ Hk) as (s3 & Hm' & Hk'). exists s3. split; [by eapply m_star_cons|done].
      * intros H. exists s. split; [apply m_star_nil|done].
  - destruct (re_match a _ s) as [y|] eqn:E.
    + intros [= <-]. apply IHa in E as (s2 & Hm & Hk).
      destruct (Nat.ltb_spec (length (cu_rest s2)) (length (cu_rest s))); [|done].
      exists s2. split; [by apply m_opt_some|done].
    + intros H. exists s. split; [apply m_opt_none|done].
  - intros (s' & Hm & Hk)%IHa. exists (capture n s s'). split; [by apply m_group|done].
  - destruct (Z.eqb_spec (cu_pos s) 0); [|done]. intros H. exists s. split; [by apply m_start|done].
  - destruct (cu_rest s) eqn:E; [|done]. intros H. exists s. split; [by apply m_end|done].
  - destruct (re_match a Some s) as [s'|] eqn:E; [|done]. intros H.
    apply IHa in E as (s2 & Hm & [= ->]). exists s. split; [by eapply m_ahead|exact H].
Qed.

Lemma re_match_ext {A} r (k k' : Cursor -> option A) s :
  (forall s, k s = k' s) -> re_match r k s = re_match r k' s.
Proof.
  revert A k k' s. induction r as [|p|a IHa b IHb|a IHa b IHb|a IHa|a IHa|n a IHa| | |a IHa];
    intros A k k' s Hk; cbn [re_match].
  - apply Hk.
  - destruct (cu_rest s); [done|]. by destruct (p z).
  - apply IHa. intros s0. by apply IHb.
  - by rewrite (IHa _ k k'), (IHb _ k k').
  - generalize (length (cu_rest s)). intros fuel. revert s.
    induction fuel as [|fuel IHf]; intros s; cbn [star_match]; [apply Hk|].
    rewrite (IHa _ _ (fun s' => if (length s'.(cu_rest) <? length s.(cu_rest))%nat
      then star_match (re_match a) k' fuel s' else None)); [by rewrite Hk|].
    intros s0. by rewrite IHf.
  - rewrite (IHa _ _ (fun s' => if (length s'.(cu_rest) <? length s.(cu_rest))%nat then k' s' else None));
      [by rewrite Hk|]. intros s0. by rewrite Hk.
  - apply IHa. intros s0. apply Hk.
  - by rewrite Hk.
  - destruct (cu_rest s); [apply Hk|done].
  - by destruct (re_match a Some s).
Qed.

(** The fuel of a star is enough: no run of it takes more iterations than there are characters. *)
Lemma star_match_fuel {A} a (k : Cursor -> option A) n m s :
  (length s.(cu_rest) <= n)%nat -> (length s.(cu_rest) <= m)%nat ->
  star_match (re_match a) k n s = star_match (re_match a) k m s.
Proof.
  revert m s. induction n as [n IH] using lt_wf_ind. intros m s Hn Hm.
  assert (H0 : forall m, length (cu_rest s) = 0%nat -> star_match (re_match a) k m s = k s).
  { intros [|m0] E; cbn [star_match]; [done|]. rewrite E.
    destruct (re_match a _ s) as [x|] eqn:Ex; [|done].
    apply re_match_sound in Ex as (s' & _ & Hs'). destruct (Nat.ltb_spec (length (cu_rest s')) 0); [lia|done]. }
  destruct (decide (length (cu_rest s) = 0%nat)) as [E|Hne]; [by rewrite !H0|].
  destruct n as [|n], m as [|m]; try lia. cbn [star_match].
  erewrite re_match_ext; [reflexivity|]. intros s'. cbv beta.
  destruct (Nat.ltb_spec (length (cu_rest s')) (length (cu_rest s))); [|done]. apply IH; lia.
Qed.

(** A match the continuation accepts is never missed. *)
Lemma re_match_complete {A} r (k : Cursor -> option A) s s' :
  matches r s s' -> k s' <> None -> re_match r k s <> None.
Proof.
  intros Hm. revert A k. induction Hm as [s|p c pos rest caps Hp|a b s1 s2 s3 Ha IHa Hb IHb|a b s s' Ha IHa
    |a b s s' Hb IHb|a s|a s1 s2 s3 Ha IHa Hlt Hb IHb|a s|a s s' Ha IHa Hlt|n a s s' Ha IHa|s Hs|s Hs
    |a s s' Ha IHa]; intros A k Hk; cbn [re_match].
  - done.
  - cbn. by rewrite Hp.
  - by apply IHa, IHb.
  - specialize (IHa _ k Hk). by destruct (re_match a k s).
  - specialize (IHb _ k Hk). by destruct (re_match a k s).
  - destruct (length (cu_rest s)); cbn [star_match]; [done|]. by destruct (re_match a _ s).
  - destruct (length (cu_rest s1)) as [|fuel] eqn:E; [lia|]. cbn [star_match]. rewrite E.
    match goal with |- match ?m with _ => _ end <> _ => enough (m <> None) by (by destruct m) end.
    apply IHa. rewrite (proj2 (Nat.ltb_lt _ _) Hlt).
    rewrite (star_match_fuel a k fuel (length (cu_rest s2))) by lia. exact (IHb _ k Hk).
  - by destruct (re_match a _ s).
  - match goal with |- match ?m with _ => _ end <> _ => enough (m <> None) by (by destruct m) end.
    apply IHa. by rewrite (proj2 (Nat.ltb_lt _ _) Hlt).
  - by apply IHa.
  - by rewrite (proj2 (Z.eqb_eq _ _) Hs).
  - by rewrite Hs.
  - specialize (IHa _ Some ltac:(done)). by destruct (re_match a Some s).
Qed.

(** ** Running a match *)

Lemma exec_from_anchored r pos rest :
  0 < pos -> exec_from (ReSeq ReStart r) pos rest = None.
Proof.
  revert pos. induction rest as [|c rest IH]; intros pos Hp; cbn [exec_from re_match cu_pos];
    rewrite (proj2 (Z.eqb_neq pos 0)) by lia; [done|apply IH; lia].
Qed.

Lemma exec_anchored r text :
  exec (ReSeq ReStart r) text
  = cu_caps <$> re_match r Some {| cu_pos := 0; cu_rest := text; cu_caps := ∅ |}.
Proof.
  unfold exec. destruct text as [|c rest]; cbn [exec_from re_match cu_pos Z.eqb];
    (destruct (re_match r Some _) as [s|]; [done|]); [done|]. by rewrite exec_from_anchored.
Qed.

Lemma re_match_seq {A} a b (k : Cursor -> option A) s : re_match (ReSeq a b) k s = re_match a (re_match b k) s.
Proof. done. Qed.

Lemma re_match_group {A} n a (k : Cursor -> option A) s :
  re_match (ReGroup n a) k s = re_match a (fun s' => k (capture n s s')) s.
Proof. done. Qed.

Lemma re_match_lit {A} p (k : Cursor -> option A) pos rest caps :
  re_match (ReLit p) k {| cu_pos := pos; cu_rest := p ++ rest; cu_caps := caps |}
  = k {| cu_pos := pos + len p; cu_rest := rest; cu_caps := caps |}.
Proof.
  revert pos. induction p as [|c p IH]; intros pos; cbn [ReLit foldr re_match cu_rest cu_pos cu_caps app].
  - by rewrite Z.add_0_r.
  - rewrite Z.eqb_refl. fold (ReLit p). rewrite IH, len_cons. do 2 f_equal. lia.
Qed.

(** A class repeated as many times as there are characters of it. *)
Lemma re_match_times {A} p w (k : Cursor -> option A) pos rest caps :
  Forall (fun c => p c = true) w ->
  re_match (ReTimes (length w) (ReChar p)) k {| cu_pos := pos; cu_rest := w ++ rest; cu_caps := caps |}
  = k {| cu_pos := pos + len w; cu_rest := rest; cu_caps := caps |}.
Proof.
  intros Hw. revert pos. induction Hw as [|c w Hc Hw IH]; intros pos;
    cbn [length ReTimes re_match cu_rest cu_pos cu_caps app].
  - by rewrite Z.add_0_r.
  - rewrite Hc, IH, len_cons. do 2 f_equal. lia.
Qed.

Lemma capture_app n w rest pos pos' caps caps' :
  capture n {| cu_pos := pos; cu_rest := w ++ rest; cu_caps := caps |}
    {| cu_pos := pos'; cu_rest := rest; cu_caps := caps' |}
  = {| cu_pos := pos'; cu_rest := rest; cu_caps := <[n := w]> caps' |}.
Proof.
  unfold capture. cbn [cu_pos cu_rest cu_caps]. do 2 f_equal.
  rewrite length_app, Nat.add_sub. apply take_app_length.
Qed.

Lemma re_match_group_times {A} n p w (k : Cursor -> option A) pos rest caps :
  Forall (fun c => p c = true) w ->
  re_match (ReGroup n (ReTimes (length w) (ReChar p))) k {| cu_pos := pos; cu_rest := w ++ rest; cu_caps := caps |}
  = k {| cu_pos := pos + len w; cu_rest := rest; cu_caps := <[n := w]> caps |}.
Proof. intros Hw. by rewrite re_match_group, re_match_times, capture_app. Qed.

(** A star of a class takes the whole run of it, when what follows accepts that. *)
Lemma re_match_star_run {A} p w (k : Cursor -> option A) pos rest caps x :
  Forall (fun c => p c = true) w -> match rest with c :: _ => p c = false | [] => True end ->
  k {| cu_pos := pos + len w; cu_rest := rest; cu_caps := caps |} = Some x ->
  re_match (ReStar (ReChar p)) k {| cu_pos := pos; cu_rest := w ++ rest; cu_caps := caps |} = Some x.
Proof.
  intros Hw Hrest Hk. cbn [re_match cu_rest].
  assert (Hf : forall fuel, (length (w ++ rest) <= fuel)%nat ->
    star_match (re_match (ReChar p)) k fuel {| cu_pos := pos; cu_rest := w ++ rest; cu_caps := caps |} = Some x);
    [|by apply Hf].
  revert pos Hk. induction Hw as [|c w Hc Hw IH]; intros pos Hk fuel Hfuel.
  - rewrite Z.add_0_r in Hk. destruct fuel as [|fuel]; [exact Hk|]. cbn [star_match re_match cu_rest app].
    destruct rest as [|c rest]; [exact Hk|]. by rewrite Hrest.
  - destruct fuel as [|fuel]; [cbn in Hfuel; lia|]. cbn [star_match re_match cu_rest cu_pos cu_caps app].
    rewrite Hc. rewrite (proj2 (Nat.ltb_lt _ _)) by (cbn; lia).
    rewrite IH; [done| |cbn in Hfuel; lia].
    replace (pos + 1 + len w) with (pos + len (c :: w)) by (rewrite len_cons; lia). exact Hk.
Qed.

(** ** Whole strings of a class *)

Lemma matches_times p n s s' :
  matches (ReTimes n (ReChar p)) s s' ->
  exists w, s.(cu_rest) = w ++ s'.(cu_rest) /\ length w = n /\ Forall (fun c => p c = true) w.
Proof.
  revert s. induction n as [|n IH]; intros s Hm; cbn [ReTimes] in Hm; inversion Hm; subst.
  - by exists [].
  - match goal with H : matches (ReChar p) _ _ |- _ => inversion H; subst end.
    destruct (IH _ ltac:(eassumption)) as (w & Hw & Hl & Hf). cbn [cu_rest] in *.
    exists (c :: w). split_and!; [by rewrite Hw|cbn; lia|by constructor].
Qed.

Lemma matches_star p s s' :
  matches (ReStar (ReChar p)) s s' ->
  exists w, s.(cu_rest) = w ++ s'.(cu_rest) /\ Forall (fun c => p c = true) w.
Proof.
  remember (ReStar (ReChar p)) as r eqn:Er. intros Hm. induction Hm; try done.
  - by exists [].
  - injection Er as ->. match goal with H : matches (ReChar p) _ _ |- _ => inversion H; subst end.
    destruct IHHm2 as (w & Hw & Hf); [done|]. cbn [cu_rest] in *.
    exists (c :: w). split; [by rewrite Hw|by constructor].
Qed.

Lemma re_test_anchored r s :
  re_test (ReSeq ReStart r) s = true <->
  exists s', matches r {| cu_pos := 0; cu_rest := s; cu_caps := ∅ |} s'.
Proof.
  unfold re_test. rewrite exec_anchored. split.
  - destruct (re_match r Some _) as [s'|] eqn:E; [|done]. intros _.
    apply re_match_sound in E as (s0 & Hm & _). by exists s0.
  - intros (s' & Hm). pose proof (re_match_complete r Some _ _ Hm ltac:(done)) as H.
    by destruct (re_match r Some _).
Qed.

Lemma matches_char_run p w pos rest caps :
  Forall (fun c => p c = true) w ->
  matches (ReTimes (length w) (ReChar p)) {| cu_pos := pos; cu_rest := w ++ rest; cu_caps := caps |}
    {| cu_pos := pos + len w; cu_rest := rest; cu_caps := caps |}.
Proof.
  intros Hw. revert pos. induction Hw as [|c w Hc Hw IH]; intros pos; cbn [length ReTimes app].
  - rewrite Z.add_0_r. apply m_empty.
  - eapply m_seq; [by apply m_char|]. rewrite len_cons. replace (pos + (len w + 1)) with (pos + 1 + len w) by lia.
    apply IH.
Qed.

Lemma matches_star_run p w pos rest caps :
  Forall (fun c => p c = true) w ->
  matches (ReStar (ReChar p)) {| cu_pos := pos; cu_rest := w ++ rest; cu_caps := caps |}
    {| cu_pos := pos + len w; cu_rest := rest; cu_caps := caps |}.
Proof.
  intros Hw. revert pos. induction Hw as [|c w Hc Hw IH]; intros pos; cbn [app].
  - rewrite Z.add_0_r. apply m_star_nil.
  - eapply m_star_cons; [by apply m_char|cbn; lia|]. rewrite len_cons.
    replace (pos + (len w + 1)) with (pos + 1 + len w) by lia. apply IH.
Qed.

(** [/^[p]{n}$/] *)
Lemma re_test_times p n s :
  re_test (ReSeq ReStart (ReSeq (ReTimes n (ReChar p)) ReEnd)) s = true
  <-> length s = n /\ Forall (fun c => p c = true) s.
Proof.
  rewrite re_test_anchored. split.
  - intros (s' & Hm). inversion Hm; subst.
    match goal with H : matches ReEnd _ _ |- _ => inversion H; subst end.
    match goal with H : matches (ReTimes _ _) _ _ |- _ => apply matches_times in H as (w & Hw & Hl & Hf) end.
    cbn [cu_rest] in Hw. match goal with H : cu_rest _ = [] |- _ => rewrite H, app_nil_r in Hw end. by subst.
  - intros [<- Hs]. pose proof (matches_char_run p s 0 [] ∅ Hs) as H. rewrite app_nil_r in H.
    eexists. eapply m_seq; [exact H|by apply m_end].
Qed.

(** [/^[p]{n,}$/] *)
Lemma re_test_at_least p n s :
  re_test (ReSeq ReStart (ReSeq (ReTimes n (ReChar p)) (ReSeq (ReStar (ReChar p)) ReEnd))) s = true
  <-> (n <= length s)%nat /\ Forall (fun c => p c = true) s.
Proof.
  rewrite re_test_anchored. split.
  - intros (s' & Hm). inversion Hm; subst.
    match goal with H : matches (ReSeq _ ReEnd) _ _ |- _ => inversion H; subst end.
    match goal with H : matches ReEnd _ _ |- _ => inversion H; subst end.
    match goal with H : matches (ReTimes _ _) _ _ |- _ => apply matches_times in H as (w & Hw & Hl & Hf) end.
    match goal with H : matches (ReStar _) _ _ |- _ => apply matches_star in H as (w' & Hw' & Hf') end.
    cbn [cu_rest] in Hw. match goal with H : cu_rest _ = [] |- _ => rewrite H, app_nil_r in Hw' end.
    rewrite Hw' in Hw. subst s. rewrite length_app. split; [lia|by apply Forall_app].
  - intros [Hn Hs]. rewrite <- (take_drop n s) in Hs. apply Forall_app in Hs as [H1 H2].
    pose proof (matches_char_run p (take n s) 0 (drop n s) ∅ H1) as Ha.
    rewrite length_take_le, take_drop in Ha by done.
    pose proof (matches_star_run p (drop n s) (0 + len (take n s)) [] ∅ H2) as Hb. rewrite app_nil_r in Hb.
    eexists. eapply m_seq; [exact Ha|]. eapply m_seq; [exact Hb|by apply m_end].
Qed.
