(* ===== verification/RichPayloads.v ===== *)
(** Rich payloads carried as the text of ordinary messages: [utils/meshcoreOpenPayloads.ts], and
    the sender of a channel message ([utils/messageParser.ts]).

    GIFs, pins, reactions and reply mentions, with the table of emojis the reactions index. The
    Unicode property [Extended_Pictographic] is the parameter [pictographic], on code points. *)
From S2P Require Import Prelude JsString JsCollections JsNum Types Regex.
From Corelib Require Import SpecFloat.

(** ** The sender of a channel message *)

(** [parseSenderFromText]: the sender, if any, and the content. *)
Definition parseSenderFromText (text : jstr) : option jstr * jstr :=
  let colonIndex := indexOf text (js ": ") in
  if (0 <? colonIndex) && (colonIndex <? 50) then
    let potentialSender := slice text 0 colonIndex in
    if negb (str_includes potentialSender (js ":"))
    then (Some potentialSender, slice_from text (colonIndex + 2))
    else (None, text)
  else (None, text).

(** A hashtag, between the start or a space, and the end, a space or one of [. , ; :]. *)
Definition is_hashtag_unit (c : Z) : bool := is_lower c || is_digit c.
Definition HASHTAG_NAME : regex :=
  ReSeq (RePlus (ReChar is_hashtag_unit)) (ReStar (ReSeq (ReLit (js "-")) (RePlus (ReChar is_hashtag_unit)))).
Definition HASHTAG_CHANNEL_NAME_PATTERN : regex := ReSeq ReStart (ReSeq HASHTAG_NAME ReEnd).
Definition HASHTAG_CHANNEL_REFERENCE_PATTERN : regex :=
  ReSeq (ReGroup 1 (ReAlt ReStart (ReChar is_space)))
    (ReSeq (ReGroup 2 (ReSeq (ReLit (js "#")) HASHTAG_NAME))
       (ReAhead (ReAlt ReEnd (ReChar (fun c => is_space c || (c =? 46) || (c =? 44) || (c =? 59) || (c =? 58)))))).

Record HashtagChannelReference := { hr_label : jstr; hr_start : Z; hr_end : Z }.

(** The loop of [exec] from [lastIndex]; each match is at least two units long. *)
Fixpoint linked_references (fuel : nat) (text : jstr) (lastIndex : Z) : list HashtagChannelReference :=
  match fuel with
  | O => []
  | S fuel =>
    match exec_from HASHTAG_CHANNEL_REFERENCE_PATTERN lastIndex (slice_from text lastIndex) with
    | None => []
    | Some m =>
      let prefix := default [] (m.(ma_caps) !! 1%nat) in
      let label := default [] (m.(ma_caps) !! 2%nat) in
      let start := m.(ma_index) + len prefix in
      {| hr_label := label; hr_start := start; hr_end := start + len label |}
        :: linked_references fuel text m.(ma_end)
    end
  end.
Definition findLinkedChannelReferences (text : jstr) : list HashtagChannelReference :=
  linked_references (length text) text 0.

(** ** The emojis, in wire order *)

Definition QUICK_EMOJIS : list jstr :=
  [js "👍"; js "❤️"; js "😂"; js "🎉"; js "👏"; js "🔥"].
Definition SMILEYS : list jstr :=
  [js "😀"; js "😃"; js "😄"; js "😁"; js "😅"; js "😂"; js "🤣"; js "😊"; js "😇"; js "🙂";
   js "🙃"; js "😉"; js "😌"; js "😍"; js "🥰"; js "😘"; js "😗"; js "😙"; js "😚"; js "😋";
   js "😛"; js "😝"; js "😜"; js "🤪"; js "🤨"; js "🧐"; js "🤓"; js "😎"; js "🥸"; js "🤩";
   js "🥳"; js "😏"; js "😒"; js "😞"; js "😔"; js "😟"; js "😕"; js "🙁"; js "😣"; js "😖";
   js "😫"; js "😩"; js "🥺"; js "😢"; js "😭"; js "😤"; js "😠"; js "😡"; js "🤬"; js "🤯";
   js "😳"; js "🥵"; js "🥶"; js "😱"; js "😨"; js "😰"; js "😥"; js "😓"; js "🤗"; js "🤔";
   js "🤭"; js "🤫"; js "🤥"; js "😶"].
Definition GESTURES : list jstr :=
  [js "👍"; js "👎"; js "👊"; js "✊"; js "🤛"; js "🤜"; js "🤞"; js "✌️"; js "🤟"; js "🤘";
   js "👌"; js "🤌"; js "🤏"; js "👈"; js "👉"; js "👆"; js "👇"; js "☝️"; js "👋"; js "🤚";
   js "🖐️"; js "✋"; js "🖖"; js "👏"; js "🙌"; js "👐"; js "🤲"; js "🤝"; js "🙏"; js "✍️";
   js "💅"; js "🤳"; js "💪"].
Definition HEARTS : list jstr :=
  [js "❤️"; js "🧡"; js "💛"; js "💚"; js "💙"; js "💜"; js "🖤"; js "🤍"; js "🤎"; js "💔";
   js "❤️‍🔥"; js "❤️‍🩹"; js "💕"; js "💞"; js "💓"; js "💗"; js "💖"; js "💘"; js "💝"; js "💟";
   js "💌"; js "💢"; js "💥"; js "💫"; js "💦"; js "💨"; js "🕳️"; js "💬"; js "👁️‍🗨️"; js "🗨️";
   js "🗯️"; js "💭"].
Definition OBJECTS : list jstr :=
  [js "🎉"; js "🎊"; js "🎈"; js "🎁"; js "🎀"; js "🪅"; js "🪆"; js "🏆"; js "🥇"; js "🥈";
   js "🥉"; js "⚽"; js "⚾"; js "🥎"; js "🏀"; js "🏐"; js "🏈"; js "🏉"; js "🎾"; js "🥏";
   js "🎳"; js "🏏"; js "🏑"; js "🏒"; js "🥍"; js "🏓"; js "🏸"; js "🥊"; js "🥋"; js "🥅";
   js "⛳"; js "🔥"; js "⭐"; js "🌟"; js "✨"; js "⚡"; js "💡"; js "🔦"; js "🏮"; js "🪔";
   js "📱"; js "💻"; js "⌚"; js "📷"; js "📺"; js "📻"; js "🎵"; js "🎶"; js "🚀"].
Definition REACTION_EMOJIS : list jstr := QUICK_EMOJIS ++ SMILEYS ++ GESTURES ++ HEARTS ++ OBJECTS.

(** ** GIFs *)

Definition is_gif_unit (c : Z) : bool := is_alpha c || is_digit c || (c =? 95) || (c =? 45).
Definition is_word_unit (c : Z) : bool := is_alpha c || is_digit c || (c =? 95).
Definition not_slash_or_query (c : Z) : bool := negb ((c =? 47) || (c =? 63)).

Definition RE_SCHEME : regex :=
  ReOpt (ReSeq (ReLitI (js "http")) (ReSeq (ReOpt (ReLitI (js "s"))) (ReLit (js "://")))).
Definition RE_QUERY : regex := ReOpt (ReSeq (ReLit (js "?")) (ReStar (ReChar is_dot))).

Definition GIF_WIRE : regex :=
  ReSeq ReStart (ReSeq (ReLit (js "g:")) (ReSeq (ReGroup 1 (RePlus (ReChar is_gif_unit))) ReEnd)).
Definition GIF_MEDIA : regex :=
  ReSeq ReStart (ReSeq RE_SCHEME
    (ReSeq (ReOpt (ReSeq (ReLitI (js "media")) (ReSeq (ReStar (ReChar is_digit)) (ReLit (js ".")))))
    (ReSeq (ReLitI (js "giphy.com/media/"))
    (ReSeq (ReStar (ReSeq (RePlus (ReChar not_slash_or_query)) (ReLit (js "/"))))
    (ReSeq (ReGroup 1 (RePlus (ReChar is_gif_unit)))
    (ReSeq (ReLitI (js "/giphy"))
    (ReSeq (ReOpt (ReSeq (ReLit (js "-")) (RePlus (ReChar (ci is_lower)))))
    (ReSeq (ReLitI (js ".gif")) (ReSeq RE_QUERY ReEnd))))))))).
Definition GIF_I : regex :=
  ReSeq ReStart (ReSeq RE_SCHEME (ReSeq (ReLitI (js "i.giphy.com/"))
    (ReSeq (ReGroup 1 (RePlus (ReChar is_gif_unit)))
    (ReSeq (ReOpt (ReLitI (js ".gif"))) (ReSeq RE_QUERY ReEnd))))).
Definition GIF_PAGE : regex :=
  ReSeq ReStart (ReSeq RE_SCHEME (ReSeq (ReOpt (ReLitI (js "www.")))
    (ReSeq (ReLitI (js "giphy.com/gifs/"))
    (ReSeq (ReOpt (ReSeq (ReStar (ReChar not_slash_or_query)) (ReLit (js "-"))))
    (ReSeq (ReGroup 1 (RePlus (ReChar is_word_unit)))
    (ReSeq (ReOpt (ReLit (js "/"))) (ReSeq RE_QUERY ReEnd))))))).

Definition parseGif (text : jstr) : option jstr :=
  let trimmed := trim text in
  let group1 re := exec re trimmed ≫= fun m => m !! 1%nat in
  match group1 GIF_WIRE with
  | Some id => Some id
  | None =>
    match group1 GIF_MEDIA with
    | Some id => Some id
    | None => match group1 GIF_I with Some id => Some id | None => group1 GIF_PAGE end
    end
  end.

Definition formatGif (gifId : jstr) : jstr := js "g:" ++ trim gifId.
Definition giphyUrlForId (gifId : jstr) : jstr :=
  js "https://media.giphy.com/media/" ++ gifId ++ js "/giphy.gif".

(** ** Location pins *)

Inductive LocationKind := LkLoc | LkPoi.
Record ParsedLocation := { pl_lat : num; pl_lon : num; pl_label : jstr; pl_kind : LocationKind }.
Definition location_kind_str (k : LocationKind) : jstr :=
  match k with LkLoc => js "loc" | LkPoi => js "poi" end.

Definition RE_DECIMAL : regex :=
  ReSeq (ReOpt (ReLit (js "-"))) (ReSeq (RePlus (ReChar is_digit))
    (ReOpt (ReSeq (ReLit (js ".")) (RePlus (ReChar is_digit))))).
Definition LOCATION_PATTERN : regex :=
  ReSeq ReStart (ReSeq (ReLit (js "m:")) (ReSeq (ReGroup 1 RE_DECIMAL) (ReSeq (ReLit (js ","))
    (ReSeq (ReGroup 2 RE_DECIMAL) (ReSeq (ReLit (js "|"))
    (ReSeq (ReGroup 3 (ReStar (ReChar (fun c => negb (c =? 124))))) (ReSeq (ReLit (js "|"))
    (ReSeq (ReGroup 4 (ReAlt (ReLit (js "loc")) (ReLit (js "poi")))) ReEnd)))))))).

(** [Number(s)] of a decimal numeral: the nearest binary64. *)
Definition decimal_value (s : jstr) : Z := foldl (fun n c => n * 10 + (c - 48)) 0 s.
Definition Number_decimal (s : jstr) : num :=
  let '(neg, s) := match s with 45 :: s => (true, s) | _ => (false, s) end in
  let dot := indexOf s (js ".") in
  if dot =? -1 then num_of_ratio neg (decimal_value s) 1 else
  let frac := slice_from s (dot + 1) in
  num_of_ratio neg (decimal_value (slice s 0 dot ++ frac)) (10 ^ len frac).

Definition isFiniteCoordinate (lat lon : num) : bool :=
  num_isFinite lat && num_isFinite lon
  && num_le (num_of_Z (-90)) lat && num_le lat (num_of_Z 90)
  && num_le (num_of_Z (-180)) lon && num_le lon (num_of_Z 180).

Definition parseLocation (text : jstr) : option ParsedLocation :=
  m ← exec LOCATION_PATTERN (trim text);
  let lat := Number_decimal (default [] (m !! 1%nat)) in
  let lon := Number_decimal (default [] (m !! 2%nat)) in
  if negb (isFiniteCoordinate lat lon) then None else
  Some {| pl_lat := lat; pl_lon := lon; pl_label := default [] (m !! 3%nat);
          pl_kind := if m !! 4%nat ≟ Some (js "poi") then LkPoi else LkLoc |}.

(** [x.toFixed(6)] of a finite number below 10^21: the nearest multiple of 10^-6, ties upwards. *)
Definition micro (m : positive) (e : Z) : Z :=
  if 0 <=? e then Zpos m * 2 ^ e * 1000000
  else (2 * Zpos m * 1000000 + 2 ^ (- e)) / 2 ^ (1 - e).
Definition fixed6_digits (n : Z) : jstr :=
  int_str (n / 1000000) ++ js "." ++ padStart (int_str (n mod 1000000)) 6 48.
Definition toFixed6 (x : num) : jstr :=
  match x with
  | S754_finite s m e => (if s then js "-" else []) ++ fixed6_digits (micro m e)
  | _ => fixed6_digits 0
  end.

(** The pin is [loc] unless told otherwise. *)
Definition formatLocation (lat lon : num) (label : jstr) (kind : LocationKind) : option jstr :=
  if negb (isFiniteCoordinate lat lon) || (num_eq lat (num_of_Z 0) && num_eq lon (num_of_Z 0))
  then None else
  let replaced := (fun c => if c =? 124 then 47 else c) <$> trim label in
  let safeLabel := if len replaced =? 0 then js "pin" else replaced in
  Some (js "m:" ++ toFixed6 lat ++ js "," ++ toFixed6 lon ++ js "|" ++ safeLabel ++ js "|"
        ++ location_kind_str kind).

(** ** Reactions *)

Record ParsedReaction := { pr_emoji : jstr; pr_targetHash : jstr; pr_targetSender : option jstr }.
Record ReactionHashSource := { rh_timestampSeconds : Z; rh_senderName : option jstr; rh_text : jstr }.

Definition is_lower_hex (c : Z) : bool := is_digit c || in_range 97 102 c.
Definition REACTION_PATTERN : regex :=
  ReSeq ReStart (ReSeq (ReLit (js "r:")) (ReSeq (ReGroup 1 (ReTimes 4 (ReChar is_lower_hex)))
    (ReSeq (ReLit (js ":")) (ReSeq (ReGroup 2 (ReTimes 2 (ReChar is_lower_hex))) ReEnd)))).

Definition parseReaction (text : jstr) : option ParsedReaction :=
  m ← exec REACTION_PATTERN (trim text);
  index ← parseInt16 (default [] (m !! 2%nat));
  if (index <? 0) || (len REACTION_EMOJIS <=? index) then None else
  emoji ← REACTION_EMOJIS !! Z.to_nat index;
  Some {| pr_emoji := emoji; pr_targetHash := default [] (m !! 1%nat); pr_targetSender := None |}.

(** [>>> 0]: the value modulo 2^32. *)
Definition u32 (n : Z) : Z := n mod 4294967296.

(** One step of the hash, then its finalisation to 30 bits; never 0. *)
Definition dart_combine (hash c : Z) : Z :=
  let hash := u32 (hash + c) in
  let hash := u32 (hash + u32 (Z.shiftl hash 10)) in
  u32 (Z.lxor hash (Z.shiftr hash 6)).
Definition dart_finalize (hash : Z) : Z :=
  let hash := u32 (hash + u32 (Z.shiftl hash 3)) in
  let hash := u32 (Z.lxor hash (Z.shiftr hash 11)) in
  let hash := u32 (hash + u32 (Z.shiftl hash 15)) in
  let hash := Z.land hash 1073741823 in
  if hash =? 0 then 1 else hash.
Definition dartStringHash (s : jstr) : Z := dart_finalize (foldl dart_combine 0 s).

Definition computeReactionHash (timestampSeconds : Z) (senderName : option jstr) (text : jstr) : jstr :=
  let first5 := if 5 <=? len text then slice text 0 5 else text in
  let input := int_str timestampSeconds ++ default [] senderName ++ first5 in
  padStart (toString_radix 16 (Z.land (dartStringHash input) 65535)) 4 48.
Definition source_hash (s : ReactionHashSource) : jstr :=
  computeReactionHash s.(rh_timestampSeconds) s.(rh_senderName) s.(rh_text).

(** [l.indexOf(x)] of an array of strings. *)
Fixpoint array_indexOf_from (i : Z) (l : list jstr) (x : jstr) : Z :=
  match l with
  | [] => -1
  | y :: l => if y ≟ x then i else array_indexOf_from (i + 1) l x
  end.

Definition reactionEmojiIndex (emoji : jstr) : option jstr :=
  let index := array_indexOf_from 0 REACTION_EMOJIS emoji in
  if index <? 0 then None else Some (padStart (toString_radix 16 index) 2 48).

Definition formatOpenReaction (timestampSeconds : Z) (senderName : option jstr) (text emoji : jstr)
    : option jstr :=
  index ← reactionEmojiIndex emoji;
  Some (js "r:" ++ computeReactionHash timestampSeconds senderName text ++ js ":" ++ index).

(** ** Reply mentions *)

Definition is_name_unit (c : Z) : bool := negb (c =? 93).
Definition REPLY_MENTION_PREFIX : regex :=
  ReSeq ReStart (ReSeq (ReGroup 1 (ReSeq (ReLit (js "@[")) (ReSeq (RePlus (ReChar is_name_unit)) (ReLit (js "]")))))
    (ReSeq (RePlus (ReChar is_space)) (ReSeq (ReGroup 2 (RePlus (ReChar (fun _ => true)))) ReEnd))).

(** The mention and the body after it. *)
Definition splitReplyMention (text : jstr) : option (jstr * jstr) :=
  m ← exec REPLY_MENTION_PREFIX (trim text);
  Some (default [] (m !! 1%nat), default [] (m !! 2%nat)).

(** ** Reactions of MeshCore One *)

Definition is_crockford (c : Z) : bool := is_digit c || in_range 97 116 c || in_range 118 122 c.
Definition MC1_HASH_PATTERN : regex := ReSeq ReStart (ReSeq (ReTimes 8 (ReChar (ci is_crockford))) ReEnd).
Definition is_head_unit (c : Z) : bool := negb ((c =? 64) || (c =? 91) || (c =? 93)).
Definition MC1_HEAD_PATTERN : regex :=
  ReSeq ReStart (ReSeq (ReAlt
    (ReSeq (ReGroup 1 (RePlus (ReChar is_head_unit)))
       (ReOpt (ReSeq (ReLit (js "@[")) (ReSeq (ReGroup 2 (RePlus (ReChar is_name_unit))) (ReLit (js "]"))))))
    (ReSeq (ReLit (js "@[")) (ReSeq (ReGroup 3 (RePlus (ReChar is_name_unit)))
       (ReSeq (ReLit (js "]")) (ReGroup 4 (RePlus (ReChar is_dot)))))))
    ReEnd).

(** The first code point of a string; a lone surrogate counts as itself. *)
Definition first_code_point (s : jstr) : option Z :=
  match s with
  | [] => None
  | c :: rest =>
    match rest with
    | c2 :: _ => if in_range 55296 56319 c && in_range 56320 57343 c2
                 then Some (65536 + (c - 55296) * 1024 + (c2 - 56320)) else Some c
    | [] => Some c
    end
  end.

Section payloads.
Context (pictographic : Z -> bool).

Definition EMOJI_START (emoji : jstr) : bool :=
  match first_code_point emoji with Some c => pictographic c | None => false end.

Definition parseMeshCoreOneReaction (text : jstr) : option ParsedReaction :=
  match split_char 10 (trim text) with
  | [line0; line1] =>
    let hash := trim line1 in
    if negb (re_test MC1_HASH_PATTERN hash) then None else
    head ← exec MC1_HEAD_PATTERN (trim line0);
    let group n m := match head !! n with Some x => Some x | None => head !! m end in
    let emoji := trim (default [] (group 1%nat 4%nat)) in
    if negb (EMOJI_START emoji) then None else
    Some {| pr_emoji := emoji; pr_targetHash := hash; pr_targetSender := truthy (group 2%nat 3%nat) |}
  | _ => None
  end.

(** ** What a reaction is attached to *)

Definition richMessageBody (type : MessageType) (text : jstr) : jstr :=
  let content := match type with PRIV => text | CHAN => (parseSenderFromText text).2 end in
  match splitReplyMention content with Some (_, body) => body | None => content end.

Definition reactionHashSourceFromFields (type : MessageType) (sender_timestamp : option Z)
    (sender_name : option jstr) (text : jstr) : option ReactionHashSource :=
  timestamp ← sender_timestamp;
  Some (match type with
        | PRIV => {| rh_timestampSeconds := timestamp; rh_senderName := None; rh_text := text |}
        | CHAN =>
          let '(sender, content) := parseSenderFromText text in
          {| rh_timestampSeconds := timestamp;
             rh_senderName := match truthy sender_name with Some n => Some n | None => sender end;
             rh_text := content |}
        end).

Definition openReactionHashSource (type : MessageType) (sender_timestamp : option Z)
    (sender_name : option jstr) (text : jstr) : option ReactionHashSource :=
  match sender_timestamp with
  | None => None
  | Some _ =>
    let body := richMessageBody type text in
    match parseReaction body, parseMeshCoreOneReaction body with
    | None, None => reactionHashSourceFromFields type sender_timestamp sender_name text
    | _, _ => None
    end
  end.
End payloads.

(** The newest message whose hash is the target's, from the end of the first [n] down. *)
Fixpoint find_target {T} (messages : list T) (targetHash : jstr) (getSource : T -> option ReactionHashSource)
    (n : nat) : option nat :=
  match n with
  | O => None
  | S i =>
    match messages !! i ≫= getSource with
    | None => find_target messages targetHash getSource i
    | Some source =>
      if source_hash source ≟ targetHash then Some i else find_target messages targetHash getSource i
    end
  end.
Definition findOpenReactionTargetIndex {T} (messages : list T) (targetHash : jstr)
    (getSource : T -> option ReactionHashSource) : option nat :=
  find_target messages targetHash getSource (length messages).

Definition attachOpenReaction {T} (messages : list T) (reactionOrText : ParsedReaction + jstr)
    (getSource : T -> option ReactionHashSource) : option (nat * ParsedReaction) :=
  reaction ← match reactionOrText with inl reaction => Some reaction | inr text => parseReaction text end;
  targetIndex ← findOpenReactionTargetIndex messages reaction.(pr_targetHash) getSource;
  Some (targetIndex, reaction).
