(* ===== verification/RichPayloadsProps.v ===== *)
(** Rich payloads: a reaction sent to a message lands on that message, and hashes stay in range. *)
From S2P Require Import Prelude JsString JsCollections JsNum Types Regex RichPayloads UrlHash.

(** ** The vectors of the Dart implementation *)

Example hash_hello : computeReactionHash 1700000000 (Some (js "Alice")) (js "hello") = js "b0ba".
Proof. by vm_compute. Qed.
Example hash_direct : computeReactionHash 1700000000 None (js "hello") = js "033f".
Proof. by vm_compute. Qed.
Example hash_short : computeReactionHash 1 (Some (js "A")) (js "hi") = js "1b7d".
Proof. by vm_compute. Qed.
Example hash_accents : computeReactionHash 1700000000 (Some (js "Alizé")) (js "hello") = js "94d9".
Proof. by vm_compute. Qed.

(** ** Hexadecimal fields *)

Lemma length_digits_fuel fuel b n k :
  2 <= b -> 0 <= n < b ^ Z.of_nat k -> (0 < k)%nat -> (length (digits_fuel fuel b n) <= k)%nat.
Proof.
  intros Hb. revert n k. induction fuel as [|fuel IH]; intros n k Hn Hk; cbn [digits_fuel]; [cbn; lia|].
  destruct (Z.ltb_spec n b); [cbn; lia|]. destruct k as [|[|k]]; [lia|cbn in Hn; lia|].
  cbn [length]. apply le_n_S, IH; [|lia]. rewrite Nat2Z.inj_succ, Z.pow_succ_r in Hn by lia.
  split; [apply Z.div_pos; lia|apply Z.div_lt_upper_bound; lia].
Qed.

(** A number below [16^k], padded to [k] digits. *)
Lemma hex_field_shape n k :
  0 <= n < 16 ^ Z.of_nat k -> (0 < k)%nat ->
  length (padStart (toString_radix 16 n) (Z.of_nat k) 48) = k
  /\ Forall (fun c => is_lower_hex c = true) (padStart (toString_radix 16 n) (Z.of_nat k) 48).
Proof.
  intros Hn Hk. unfold padStart, toString_radix, len.
  rewrite (proj2 (Z.ltb_ge n 0)) by lia.
  assert (Hl : (length (digit_unit <$> reverse (digits 16 n)) <= k)%nat).
  { rewrite length_fmap, length_reverse. apply length_digits_fuel; lia. }
  split; [rewrite length_app, length_replicate; lia|].
  apply Forall_app. split; [apply Forall_replicate; done|].
  apply Forall_fmap, Forall_reverse. eapply Forall_impl; [apply digits_fuel_bounds; lia|].
  intros d Hd. cbn beta in Hd. unfold compose, is_lower_hex, is_digit, digit_unit, in_range.
  destruct (Z.ltb_spec d 10); [rewrite (proj2 (Z.leb_le 48 (48 + d))), (proj2 (Z.leb_le (48 + d) 57)) by lia; done|].
  rewrite (proj2 (Z.leb_le 97 (87 + d))), (proj2 (Z.leb_le (87 + d) 102)) by lia. apply orb_true_r.
Qed.

Lemma u32_bounds n : 0 <= u32 n < 2 ^ 32.
Proof. unfold u32. apply Z.mod_pos_bound. lia. Qed.

(** The hash of a string is a positive 30-bit number. *)
Lemma dartStringHash_bounds s : 1 <= dartStringHash s < 2 ^ 30.
Proof.
  unfold dartStringHash, dart_finalize. cbv zeta. set (g := u32 _). clearbody g.
  change 1073741823 with (Z.ones 30). rewrite Z.land_ones by lia.
  pose proof (Z.mod_pos_bound g (2 ^ 30) ltac:(lia)).
  destruct (Z.eqb_spec (g mod 2 ^ 30) 0); lia.
Qed.

Lemma hash_shape timestamp sender text :
  length (computeReactionHash timestamp sender text) = 4%nat
  /\ Forall (fun c => is_lower_hex c = true) (computeReactionHash timestamp sender text).
Proof.
  unfold computeReactionHash. cbv zeta. apply (hex_field_shape _ 4); [|lia].
  change 65535 with (Z.ones 16). rewrite Z.land_ones by lia. apply Z.mod_pos_bound. lia.
Qed.

(** ** The emoji table *)

Lemma array_indexOf_lookup l x i j :
  array_indexOf_from i l x = j -> 0 <= i -> 0 <= j ->
  i <= j < i + len l /\ l !! Z.to_nat (j - i) = Some x.
Proof.
  revert i. induction l as [|y l IH]; intros i; cbn [array_indexOf_from].
  - intros <- ? ?. lia.
  - rewrite len_cons. pose proof (len_nonneg l).
    destruct (bool_decide_reflect (y = x)) as [->|Hne]; intros E Hi Hj.
    + subst j. split; [lia|]. by rewrite Z.sub_diag.
    + destruct (IH (i + 1) E ltac:(lia) Hj) as [Hb Hl]. split; [lia|].
      replace (Z.to_nat (j - i)) with (S (Z.to_nat (j - (i + 1)))) by lia. exact Hl.
Qed.

Lemma reaction_index_table :
  forallb (fun i => match parseInt16 (padStart (toString_radix 16 i) 2 48) with
                    | Some j => i =? j | None => false end) (Z.of_nat <$> seq 0 184) = true.
Proof. by vm_compute. Qed.

Lemma reaction_index emoji index :
  reactionEmojiIndex emoji = Some index ->
  exists i a b, index = [a; b] /\ is_lower_hex a = true /\ is_lower_hex b = true
    /\ parseInt16 index = Some i /\ 0 <= i < len REACTION_EMOJIS
    /\ REACTION_EMOJIS !! Z.to_nat i = Some emoji.
Proof.
  unfold reactionEmojiIndex. set (i := array_indexOf_from 0 REACTION_EMOJIS emoji). cbv zeta.
  destruct (Z.ltb_spec i 0) as [|Hi]; [done|]. intros [= <-].
  destruct (array_indexOf_lookup REACTION_EMOJIS emoji 0 i eq_refl ltac:(lia) Hi) as [Hb Hl].
  rewrite Z.sub_0_r in Hl. change (len REACTION_EMOJIS) with 184 in *.
  pose proof reaction_index_table as Ht. rewrite forallb_forall in Ht.
  assert (Hin : In i (Z.of_nat <$> seq 0 184)).
  { apply in_map_iff. exists (Z.to_nat i). split; [lia|]. apply in_seq. lia. }
  specialize (Ht i Hin). destruct (parseInt16 _) as [j|] eqn:Ej; [|done]. apply Z.eqb_eq in Ht as <-.
  destruct (hex_field_shape i 2) as [Hlen Hhex]; [lia|lia|].
  change (Z.of_nat 2) with 2 in *.
  destruct (padStart (toString_radix 16 i) 2 48) as [|a [|b [|? ?]]] eqn:Ep; try done.
  apply Forall_cons in Hhex as [Ha [Hb' _]%Forall_cons].
  by exists i, a, b.
Qed.

(** ** On the wire *)

Lemma lower_hex_not_space c : is_lower_hex c = true -> is_space c = false.
Proof.
  unfold is_lower_hex, is_digit, is_space. rewrite orb_true_iff, !in_range_true. intros H.
  repeat (rewrite ?(proj2 (in_range_false _ _ _)), ?(proj2 (Z.eqb_neq _ _)) by lia). done.
Qed.

Definition reaction_wire (hash index : jstr) : jstr := js "r:" ++ hash ++ js ":" ++ index.

Lemma parse_wire hash index :
  length hash = 4%nat -> Forall (fun c => is_lower_hex c = true) hash ->
  length index = 2%nat -> Forall (fun c => is_lower_hex c = true) index ->
  exec REACTION_PATTERN (trim (reaction_wire hash index)) = Some (<[2%nat := index]> (<[1%nat := hash]> ∅)).
Proof.
  intros Lh Hh Li Hi.
  assert (Ht : trim (reaction_wire hash index) = reaction_wire hash index).
  { destruct index as [|x [|y [|? ?]]]; try done. apply Forall_cons in Hi as [_ [Hy _]%Forall_cons].
    unfold reaction_wire. change (js "r:") with [114; 58]. change (js ":") with [58].
    replace ([114; 58] ++ hash ++ [58] ++ [x; y]) with (114 :: (58 :: hash ++ [58; x]) ++ [y])
      by (cbn; by rewrite <- app_assoc).
    apply trim_id; [done|by apply lower_hex_not_space]. }
  rewrite Ht. unfold REACTION_PATTERN, reaction_wire. rewrite exec_anchored.
  rewrite re_match_seq, re_match_lit, re_match_seq, <- Lh, re_match_group_times by done.
  rewrite re_match_seq, re_match_lit, re_match_seq.
  pose proof (fun k pos caps => re_match_group_times (A := Cursor) 2 is_lower_hex index k pos [] caps Hi) as E.
  rewrite app_nil_r, Li in E. by rewrite E.
Qed.

Lemma parse_formatted timestamp sender text emoji wire :
  formatOpenReaction timestamp sender text emoji = Some wire ->
  parseReaction wire
  = Some {| pr_emoji := emoji; pr_targetHash := computeReactionHash timestamp sender text;
            pr_targetSender := None |}.
Proof.
  unfold formatOpenReaction. destruct (reactionEmojiIndex emoji) as [index|] eqn:Ei; [|done].
  cbn [mbind option_bind]. intros H. apply (inj Some) in H as <-.
  destruct (reaction_index emoji index Ei) as (i & a & b & -> & Ha & Hb & Hp & Hi & Hl).
  destruct (hash_shape timestamp sender text) as [Lh Hh]. revert Lh Hh.
  generalize (computeReactionHash timestamp sender text). intros hash Lh Hh.
  unfold parseReaction. change (js "r:" ++ hash ++ js ":" ++ [a; b]) with (reaction_wire hash [a; b]).
  rewrite parse_wire by (done || by repeat constructor).
  cbn [mbind option_bind]. rewrite lookup_insert_eq. cbn [from_option id]. rewrite Hp. cbn [mbind option_bind].
  rewrite (proj2 (Z.ltb_ge i 0)), (proj2 (Z.leb_gt (len REACTION_EMOJIS) i)) by lia. cbn [orb].
  rewrite Hl. cbn [mbind option_bind]. by rewrite lookup_insert_ne, lookup_insert_eq by done.
Qed.

Lemma wire_head timestamp sender text emoji wire :
  formatOpenReaction timestamp sender text emoji = Some wire -> exists rest, wire = 114 :: 58 :: rest.
Proof.
  unfold formatOpenReaction. destruct (reactionEmojiIndex emoji); [|done].
  cbn [mbind option_bind]. intros H. apply (inj Some) in H as <-. by eexists.
Qed.

(** A wire form is no reply. *)
Lemma wire_no_mention timestamp sender text emoji wire :
  formatOpenReaction timestamp sender text emoji = Some wire -> splitReplyMention wire = None.
Proof.
  intros (rest & ->)%wire_head. unfold splitReplyMention, REPLY_MENTION_PREFIX. rewrite exec_anchored.
  assert (Ht : exists r, trim (114 :: 58 :: rest) = 114 :: r).
  { unfold trim. rewrite (trimStart_id (114 :: 58 :: rest)) by reflexivity.
    rewrite reverse_cons. generalize (reverse (58 :: rest)). intros l. induction l as [|c l IH].
    - by exists [].
    - cbn [app trimStart]. destruct (is_space c); [exact IH|].
      rewrite app_comm_cons, reverse_snoc. by eexists. }
  destruct Ht as (r & ->). reflexivity.
Qed.

(** ** Delivery *)

Lemma indexOf_colon name rest :
  58 ∉ name -> indexOf (name ++ 58 :: 32 :: rest) (js ": ") = len name.
Proof.
  unfold indexOf. enough (H : forall i, 58 ∉ name ->
    indexOf_from i (name ++ 58 :: 32 :: rest) (js ": ") = i + len name) by (intros Hn; rewrite (H 0 Hn); lia).
  induction name as [|c name IH]; intros i Hn.
  - cbn [app indexOf_from]. change (58 :: 32 :: rest) with (js ": " ++ rest).
    rewrite startsWith_app. unfold len. cbn. lia.
  - apply not_elem_of_cons in Hn as [Hc Hn]. cbn [app indexOf_from].
    change (startsWith (c :: name ++ 58 :: 32 :: rest) (js ": "))
      with ((58 =? c) && startsWith (name ++ 58 :: 32 :: rest) [32]).
    rewrite (proj2 (Z.eqb_neq 58 c)) by congruence. cbn [andb]. rewrite IH by done. rewrite len_cons. lia.
Qed.

Lemma includes_colon name : 58 ∉ name -> str_includes name (js ":") = false.
Proof.
  unfold str_includes, indexOf. intros Hn.
  enough (H : forall i, indexOf_from i name (js ":") = -1) by (by rewrite H).
  induction name as [|c name IH]; intros i; [done|]. apply not_elem_of_cons in Hn as [Hc Hn].
  cbn [indexOf_from]. change (startsWith (c :: name) (js ":")) with ((58 =? c) && startsWith name []).
  rewrite (proj2 (Z.eqb_neq 58 c)) by congruence. by apply IH.
Qed.

(** A name [parseSenderFromText] recognises: 1 to 49 characters, without a colon. *)
Definition sender_name (name : jstr) : Prop := 0 < len name < 50 /\ 58 ∉ name.

Lemma parse_sender name content :
  sender_name name -> parseSenderFromText (name ++ js ": " ++ content) = (Some name, content).
Proof.
  intros [Hlen Hn]. unfold parseSenderFromText.
  change (js ": " ++ content) with (58 :: 32 :: content).
  rewrite (indexOf_colon name content Hn), (proj2 (Z.ltb_lt _ _)), (proj2 (Z.ltb_lt _ _)) by lia. cbn [andb].
  rewrite slice_app_front, (includes_colon name Hn) by done. cbn [negb]. f_equal.
  replace (name ++ 58 :: 32 :: content) with ((name ++ [58; 32]) ++ content) by by rewrite <- app_assoc.
  apply slice_from_app. by rewrite len_app.
Qed.

Lemma find_target_spec {T} (messages : list T) hash getSource n i :
  (i < n)%nat ->
  (exists source, messages !! i ≫= getSource = Some source /\ source_hash source = hash) ->
  (forall j source, (i < j < n)%nat -> messages !! j ≫= getSource = Some source -> source_hash source <> hash) ->
  find_target messages hash getSource n = Some i.
Proof.
  intros Hi (source & Hs & Hh) Hnew. induction n as [|n IH]; [lia|]. cbn [find_target].
  destruct (decide (i = n)) as [->|Hne].
  - rewrite Hs. by rewrite bool_decide_eq_true_2.
  - destruct (messages !! n ≫= getSource) as [s|] eqn:E.
    + rewrite bool_decide_eq_false_2 by (apply (Hnew n); [lia|done]).
      apply IH; [lia|]. intros j s' Hj. apply Hnew. lia.
    + apply IH; [lia|]. intros j s' Hj. apply Hnew. lia.
Qed.

(** How a client receives the text of a message it sent. *)
Inductive received : MessageType -> jstr -> jstr -> Prop :=
| received_direct wire : received PRIV wire wire
| received_channel name wire : sender_name name -> received CHAN (name ++ js ": " ++ wire) wire.

(** C12: a reaction lands on its message: the wire form of a reaction to a message is read back as
    that emoji and attached to that message, when no newer message has its hash, if it is received
    directly, or on a channel under a sender's name the parser of messages recognises: 1 to 49
    characters, none of them a colon (under any other name the text is not taken apart, and the
    reaction stays a line of text). The reaction is never a target itself. *)
Theorem reaction_delivered (pictographic : Z -> bool) {T} (messages : list T)
    (getSource : T -> option ReactionHashSource) i message source emoji wire type text timestamp sender
    (Hmessage : messages !! i = Some message) (Hsource : getSource message = Some source)
    (Hwire : formatOpenReaction source.(rh_timestampSeconds) source.(rh_senderName) source.(rh_text) emoji
             = Some wire)
    (Hnewer : forall j m s, (i < j)%nat -> messages !! j = Some m -> getSource m = Some s ->
              source_hash s <> source_hash source)
    (Hreceived : received type text wire) :
  let reaction := {| pr_emoji := emoji; pr_targetHash := source_hash source; pr_targetSender := None |} in
  attachOpenReaction messages (inr (richMessageBody type text)) getSource = Some (i, reaction)
  /\ openReactionHashSource pictographic type timestamp sender text = None.
Proof.
  cbv zeta. pose proof (parse_formatted _ _ _ _ _ Hwire) as Hparse.
  assert (Hbody : richMessageBody type text = wire).
  { unfold richMessageBody. destruct Hreceived as [wire|name wire Hn]; [|rewrite parse_sender by done];
      cbn [snd]; by rewrite (wire_no_mention _ _ _ _ _ Hwire). }
  split.
  - unfold attachOpenReaction. rewrite Hbody, Hparse. cbn [mbind option_bind pr_targetHash].
    unfold findOpenReactionTargetIndex. rewrite (find_target_spec messages _ getSource _ i); [done|..].
    + by eapply lookup_lt_Some.
    + exists source. by rewrite Hmessage.
    + intros j s [Hj _] E. destruct (messages !! j) as [m|] eqn:Em; [|done]. by apply (Hnewer j m).
  - unfold openReactionHashSource. destruct timestamp; [|done]. by rewrite Hbody, Hparse.
Qed.

Definition example_source : ReactionHashSource :=
  {| rh_timestampSeconds := 1700000000; rh_senderName := Some (js "Alice"); rh_text := js "hello world" |}.

Definition example_other : ReactionHashSource :=
  {| rh_timestampSeconds := 1; rh_senderName := None; rh_text := js "x" |}.
Definition example_messages : list ReactionHashSource := [example_source; example_other].

Lemma example_newer j m s :
  (0 < j)%nat -> example_messages !! j = Some m -> Some m = Some s -> source_hash s <> source_hash example_source.
Proof.
  intros Hj E1 E2. assert (E : Some example_other = Some s).
  { destruct j as [|[|j]]; [lia| |done]. rewrite <- E2, <- E1. reflexivity. }
  apply (inj Some) in E as <-. by vm_compute.
Qed.

Lemma example_received : received CHAN (js "Bob: r:b0ba:05") (js "r:b0ba:05").
Proof.
  change (js "Bob: r:b0ba:05") with (js "Bob" ++ js ": " ++ js "r:b0ba:05").
  apply received_channel. split; [by vm_compute|]. by apply (bool_decide_eq_true_1 _).
Qed.

Lemma reaction_delivered_witness :
  attachOpenReaction example_messages (inr (richMessageBody CHAN (js "Bob: r:b0ba:05"))) Some
  = Some (0%nat, {| pr_emoji := js "🔥"; pr_targetHash := source_hash example_source; pr_targetSender := None |}).
Proof.
  apply (reaction_delivered (fun _ => true) example_messages Some 0 example_source example_source (js "🔥")
    (js "r:b0ba:05") CHAN (js "Bob: r:b0ba:05") None None).
  - reflexivity.
  - reflexivity.
  - by vm_compute.
  - exact example_newer.
  - exact example_received.
Defined.

(** The hash of a string stays in 30 bits and is never 0; its wire form is 4 hexadecimal digits. *)
Lemma reaction_hash_bounds timestamp sender text s :
  1 <= dartStringHash s < 2 ^ 30
  /\ length (computeReactionHash timestamp sender text) = 4%nat.
Proof. split; [apply dartStringHash_bounds|apply hash_shape]. Qed.
