(* ===== verification/TextReplace.v ===== *)
(** Characters replaced as they are typed: [utils/textReplace.ts].

    [JSON.parse] is the parameter [json_parse]: the fields of an object in the order of
    [Object.entries]. A stored map is one [setTextReplaceMapJson] accepted or the default: an
    object of strings. *)
From S2P Require Import Prelude JsString JsCollections JsNum Json UrlHash.

(** Cyrillic letters and the Latin ones drawn like them. *)
Definition DEFAULT_MAP : list (jstr * jstr) :=
  [(js "А", js "A"); (js "В", js "B"); (js "Е", js "E"); (js "Ё", js "E"); (js "З", js "3");
   (js "К", js "K"); (js "М", js "M"); (js "Н", js "H"); (js "О", js "O"); (js "Р", js "P");
   (js "С", js "C"); (js "Т", js "T"); (js "Х", js "X"); (js "Ь", js "b"); (js "а", js "a");
   (js "е", js "e"); (js "ё", js "e"); (js "о", js "o"); (js "р", js "p"); (js "с", js "c");
   (js "у", js "y"); (js "х", js "x")].

(** The entries of an object whose values are all strings. *)
Fixpoint string_entries (fields : list (jstr * Json)) : option (list (jstr * jstr)) :=
  match fields with
  | [] => Some []
  | (k, Jstring v) :: fields => cons (k, v) <$> string_entries fields
  | _ :: _ => None
  end.

(** ** The setting *)

Inductive MapError := NotAnObject | NotStrings | ReExpands (needle replacement : jstr) | InvalidJson.

(** The first needle found inside a replacement, with that replacement. *)
Fixpoint re_expansion (needles entries : list (jstr * jstr)) : option (jstr * jstr) :=
  match needles with
  | [] => None
  | (needle, _) :: needles =>
    match (if len needle =? 0 then None
           else array_find (fun e : jstr * jstr => str_includes e.2 needle) entries) with
    | Some (_, replacement) => Some (needle, replacement)
    | None => re_expansion needles entries
    end
  end.

Section text_replace.
Context (json_parse : jstr -> option Json).

(** The stored map after the call, and the error it returns. *)
Definition setTextReplaceMapJson (json : jstr) (stored : option jstr) : option jstr * option MapError :=
  match json_parse json with
  | None => (stored, Some InvalidJson)
  | Some (Jobject fields) =>
    match string_entries fields with
    | None => (stored, Some NotStrings)
    | Some entries =>
      match re_expansion entries entries with
      | Some (needle, replacement) => (stored, Some (ReExpands needle replacement))
      | None => (Some json, None)
      end
    end
  | Some _ => (stored, Some NotAnObject)
  end.

(** Longest needle first; the sort is stable. *)
Definition buildReplacements (mapJson : jstr) : list (jstr * jstr) :=
  match json_parse mapJson with
  | Some (Jobject fields) =>
    js_sort (by_key (fun e : jstr * jstr => - len e.1))
      (filter (fun e => 0 < len e.1) (default [] (string_entries fields)))
  | _ => []
  end.
End text_replace.

(** ** Replacing *)

Record Replaced := { rp_text : jstr; rp_cursor : Z }.

(** The loop at position [i], with [rest] left to read. A match is at least one unit long, so the
    text's length is fuel enough. *)
Fixpoint replace_loop (fuel : nat) (replacements : list (jstr * jstr)) (cursorPos : Z)
    (rest : jstr) (i : Z) (result : jstr) (newCursor : Z) : Replaced :=
  match fuel, rest with
  | S fuel, c :: rest' =>
    match array_find (fun e : jstr * jstr => startsWith rest e.1) replacements with
    | Some (needle, replacement) =>
      let result := result ++ replacement in
      let newCursor :=
        if i + len needle <=? cursorPos then newCursor + (len replacement - len needle)
        else if i <? cursorPos then len result
        else newCursor in
      replace_loop fuel replacements cursorPos (slice_from rest (len needle)) (i + len needle) result newCursor
    | None => replace_loop fuel replacements cursorPos rest' (i + 1) (result ++ [c]) newCursor
    end
  | _, _ => {| rp_text := result; rp_cursor := newCursor |}
  end.

Definition applyTextReplacements (json_parse : jstr -> option Json) (text : jstr) (cursorPos : Z)
    (mapJson : jstr) : option Replaced :=
  let replacements := buildReplacements json_parse mapJson in
  if len replacements =? 0 then None else
  let r := replace_loop (length text) replacements cursorPos text 0 [] cursorPos in
  if r.(rp_text) ≟ text then None else Some r.

(** Replaced text: the cursor stays in the text, and an accepted map replaces once. *)

(** ** The cursor *)

Lemma startsWith_len s p : startsWith s p = true -> len p <= len s.
Proof.
  intros (k & ->)%startsWith_spec. rewrite len_app. pose proof (len_nonneg k). lia.
Qed.

Lemma len_slice_from_le {A} (l : list A) n : 0 <= n <= len l -> len (slice_from l n) = len l - n.
Proof. intros Hn. unfold slice_from. rewrite len_slice; lia. Qed.

Section loop.
Context (replacements : list (jstr * jstr)) (cursorPos : Z).
Context (Hneedles : forall e, e ∈ replacements -> 0 < len e.1).

Lemma replace_loop_cursor fuel rest i result newCursor :
  (length rest <= fuel)%nat -> cursorPos <= i + len rest ->
  (i <= cursorPos -> newCursor = len result + (cursorPos - i)) ->
  (cursorPos < i -> 0 <= newCursor <= len result) ->
  let r := replace_loop fuel replacements cursorPos rest i result newCursor in
  0 <= r.(rp_cursor) <= len r.(rp_text).
Proof.
  revert rest i result newCursor. induction fuel as [|fuel IH]; intros [|c rest] i result nc Hf Hc H1 H2;
    cbn [replace_loop rp_cursor rp_text]; try (cbn in Hf; lia).
  1,2: pose proof (len_nonneg result); change (len []) with 0 in Hc;
       destruct (Z.le_gt_cases i cursorPos); [rewrite H1 by lia; lia|by apply H2].
  rewrite len_cons in Hc.
  destruct (array_find _ replacements) as [[needle replacement]|] eqn:E.
  - apply array_find_Some in E as [Hin Hs]. cbn [fst] in Hs.
    pose proof (Hneedles _ Hin) as Hpos. cbn [fst] in Hpos.
    apply startsWith_len in Hs. pose proof (len_nonneg replacement). pose proof (len_nonneg result).
    assert (Hr : len (slice_from (c :: rest) (len needle)) = len (c :: rest) - len needle)
      by (apply len_slice_from_le; lia).
    rewrite len_cons in Hr, Hs. apply IH.
    + apply le_S_n. etrans; [|exact Hf]. unfold len in *. cbn [length]. lia.
    + lia.
    + intros Hi. rewrite len_app. destruct (Z.leb_spec (i + len needle) cursorPos); [|lia].
      rewrite H1 by lia. lia.
    + intros Hi. rewrite !len_app. destruct (Z.leb_spec (i + len needle) cursorPos); [lia|].
      destruct (Z.ltb_spec i cursorPos); [lia|].
      destruct (Z.eq_dec i cursorPos) as [->|Hne]; [rewrite H1 by lia; lia|].
      pose proof (H2 ltac:(lia)). lia.
  - apply IH; [cbn in Hf; lia|lia| |]; intros Hi; rewrite len_app; change (len [c]) with 1.
    + rewrite H1 by lia. lia.
    + pose proof (len_nonneg result).
      destruct (Z.eq_dec i cursorPos) as [->|Hne]; [rewrite H1 by lia; lia|]. pose proof (H2 ltac:(lia)). lia.
Qed.

(** ** Needles of one unit *)

Context (Hunits : forall e, e ∈ replacements -> len e.1 = 1).

Definition subst_unit (c : Z) : jstr :=
  match array_find (fun e : jstr * jstr => e.1 ≟ [c]) replacements with
  | Some (_, replacement) => replacement
  | None => [c]
  end.

Lemma array_find_ext {A} (p q : A -> bool) (l : list A) :
  (forall x, x ∈ l -> p x = q x) -> array_find p l = array_find q l.
Proof.
  unfold array_find. intros H. f_equal. induction l as [|x l IH]; [done|].
  rewrite !filter_cons. rewrite (H x) by left. rewrite IH by (intros y Hy; apply H; by right).
  by destruct (decide (q x = true)), (decide (q x = true)).
Qed.

Lemma unit_needle (needle : jstr) : len needle = 1 -> exists k, needle = [k].
Proof.
  destruct needle as [|k [|? needle]]; [done|by exists k|].
  rewrite !len_cons. pose proof (len_nonneg needle). lia.
Qed.

Lemma find_unit c rest :
  array_find (fun e : jstr * jstr => startsWith (c :: rest) e.1) replacements
  = array_find (fun e : jstr * jstr => e.1 ≟ [c]) replacements.
Proof.
  apply array_find_ext. intros [needle v] Hin. destruct (unit_needle _ (Hunits _ Hin)) as [k Hk].
  cbn [fst] in *. subst needle. cbn [startsWith].
  replace (startsWith rest []) with true by by destruct rest. rewrite andb_true_r.
  destruct (Z.eqb_spec k c) as [->|Hne]; [by rewrite bool_decide_eq_true_2|].
  rewrite bool_decide_eq_false_2; congruence.
Qed.

Lemma replace_loop_units fuel rest i result newCursor :
  (length rest <= fuel)%nat ->
  (replace_loop fuel replacements cursorPos rest i result newCursor).(rp_text)
  = result ++ concat (subst_unit <$> rest).
Proof.
  revert rest i result newCursor. induction fuel as [|fuel IH]; intros [|c rest] i result nc Hf;
    cbn [replace_loop rp_text fmap list_fmap concat]; try (cbn in Hf; lia); try by rewrite app_nil_r.
  cbn in Hf. rewrite find_unit. unfold subst_unit at 1.
  destruct (array_find _ replacements) as [[needle replacement]|] eqn:E.
  - apply array_find_Some in E as [Hin He]. cbn [fst] in He. apply bool_decide_eq_true in He as ->.
    change (len [c]) with 1.
    rewrite (slice_from_app [c] rest 1 eq_refl : slice_from (c :: rest) 1 = rest).
    rewrite IH by lia. by rewrite <- app_assoc.
  - rewrite IH by lia. by rewrite <- app_assoc.
Qed.

(** A unit no needle is made of. *)
Definition not_needle (c : Z) : Prop := forall e, e ∈ replacements -> e.1 <> [c].

Lemma subst_unit_clean c :
  (forall e e' k, e ∈ replacements -> e' ∈ replacements -> e.1 = [k] -> k ∉ e'.2) ->
  Forall not_needle (subst_unit c).
Proof.
  intros Hclean. unfold subst_unit. destruct (array_find _ replacements) as [[needle v]|] eqn:E.
  - apply array_find_Some in E as [Hin _]. apply Forall_forall. intros k Hk e He Hek.
    exact (Hclean e (needle, v) k He Hin Hek Hk).
  - apply Forall_singleton. intros e He Hec.
    pose proof (array_find_None _ _ e E He) as H. cbn beta in H. by rewrite bool_decide_eq_false in H.
Qed.

Lemma subst_unit_not_needle c : not_needle c -> subst_unit c = [c].
Proof.
  intros Hn. unfold subst_unit. destruct (array_find _ replacements) as [[needle v]|] eqn:E; [|done].
  apply array_find_Some in E as [Hin He]. apply bool_decide_eq_true in He. by destruct (Hn _ Hin).
Qed.
End loop.

(** ** An accepted map *)

Lemma includes_unit s c : str_includes s [c] = false -> c ∉ s.
Proof.
  unfold str_includes, indexOf. intros H Hin. apply Z.leb_gt in H.
  enough (Hi : forall i, 0 <= i -> 0 <= indexOf_from i s [c]) by (specialize (Hi 0); lia).
  clear H. induction s as [|x s IH]; intros i Hi; [by apply not_elem_of_nil in Hin|].
  cbn [indexOf_from]. cbn [startsWith]. replace (startsWith s []) with true by by destruct s.
  rewrite andb_true_r. destruct (Z.eqb_spec c x) as [->|Hne]; [done|].
  apply elem_of_cons in Hin as [->|Hin]; [done|]. apply IH; [done|lia].
Qed.

Lemma re_expansion_none needles entries :
  re_expansion needles entries = None ->
  forall e e' k, e ∈ needles -> e' ∈ entries -> e.1 = [k] -> k ∉ e'.2.
Proof.
  induction needles as [|[n v] needles IH]; cbn [re_expansion]; intros H e e' k He He' Hk.
  - by apply not_elem_of_nil in He.
  - destruct (if len n =? 0 then None else _) as [[? ?]|] eqn:E; [done|].
    apply elem_of_cons in He as [->|He]; [|by apply (IH H e)]. cbn [fst] in Hk. subst n.
    change (len [k] =? 0) with false in E. cbv iota in E.
    apply (array_find_None _ _ e' E) in He'. by apply includes_unit.
Qed.

Lemma build_elem json_parse json fields entries e :
  json_parse json = Some (Jobject fields) -> string_entries fields = Some entries ->
  e ∈ buildReplacements json_parse json <-> e ∈ entries /\ 0 < len e.1.
Proof.
  intros Hp He. unfold buildReplacements. rewrite Hp, He. cbn [from_option id].
  rewrite (js_sort_perm _ _), list_elem_of_filter. tauto.
Qed.

(** Text settles as it is typed: with a map the setting accepts whose needles are single
    characters, as the default's are, the replaced text holds no needle, so the next keystroke
    replaces nothing; and the cursor stays inside the text. *)
Theorem text_replacement_settles (json_parse : jstr -> option Json) json stored fields text cursor r
    (Hparse : json_parse json = Some (Jobject fields))
    (Haccepted : (setTextReplaceMapJson json_parse json stored).2 = None)
    (Hunits : Forall (fun f : jstr * Json => len f.1 = 1) fields)
    (Hcursor : 0 <= cursor <= len text)
    (Happly : applyTextReplacements json_parse text cursor json = Some r) :
  0 <= r.(rp_cursor) <= len r.(rp_text)
  /\ forall cursor', applyTextReplacements json_parse r.(rp_text) cursor' json = None.
Proof.
  unfold setTextReplaceMapJson in Haccepted. rewrite Hparse in Haccepted.
  destruct (string_entries fields) as [entries|] eqn:He; [|done].
  destruct (re_expansion entries entries) as [[? ?]|] eqn:Hre; [done|]. clear Haccepted.
  set (repl := buildReplacements json_parse json).
  assert (Hin : forall e, e ∈ repl -> e ∈ entries /\ len e.1 = 1).
  { intros e Hin. apply (build_elem _ _ _ _ e Hparse He) in Hin as [Hin _]. split; [done|].
    clear -He Hunits Hin. revert entries He Hin.
    induction Hunits as [|[k [| | |v| |]] fields Hk _ IH]; intros entries; cbn; try done.
    - intros [= <-] Hin. by apply not_elem_of_nil in Hin.
    - destruct (string_entries fields) as [es|]; [|done]. intros H. apply (inj Some) in H as <-.
      intros [->|Hin]%elem_of_cons; [exact Hk|by apply (IH es)]. }
  assert (Hpos : forall e, e ∈ repl -> 0 < len e.1) by (intros e Hi; destruct (Hin e Hi); lia).
  assert (Hone : forall e, e ∈ repl -> len e.1 = 1) by (intros e Hi; by apply Hin).
  assert (Hloop : forall txt c, (replace_loop (length txt) repl c txt 0 [] c).(rp_text)
    = concat (subst_unit repl <$> txt)).
  { intros txt c. by rewrite (replace_loop_units repl c Hone). }
  unfold applyTextReplacements in *. fold repl in Happly |- *. cbv zeta in Happly |- *.
  destruct (len repl =? 0) eqn:E0; [done|].
  set (r0 := replace_loop (length text) repl cursor text 0 [] cursor) in *.
  destruct (rp_text r0 ≟ text); [done|]. apply (inj Some) in Happly as <-. split.
  - apply (replace_loop_cursor repl cursor Hpos); [done|lia| |intros ?; exfalso; lia].
    intros _. unfold len at 1. cbn [length]. lia.
  - intros cursor'.
    assert (Hsame : (replace_loop (length (rp_text r0)) repl cursor' (rp_text r0) 0 [] cursor').(rp_text)
                    = rp_text r0); [|by rewrite bool_decide_eq_true_2].
    rewrite Hloop. unfold r0. rewrite Hloop. set (out := concat (subst_unit repl <$> text)).
    assert (Hout : Forall (not_needle repl) out).
    { apply Forall_concat, Forall_fmap, Forall_true. intros c. apply subst_unit_clean.
      intros e e' k Hie Hie' Hk. by apply (re_expansion_none entries entries Hre e e' k);
        [apply Hin|apply Hin|]. }
    clearbody out. induction Hout as [|c out Hc _ IH]; [done|].
    rewrite fmap_cons. cbn [concat]. rewrite (subst_unit_not_needle repl c Hc). cbn [app]. by rewrite IH.
Qed.

Definition default_fields : list (jstr * Json) := (fun e => (e.1, Jstring e.2)) <$> DEFAULT_MAP.
Definition default_parse (_ : jstr) : option Json := Some (Jobject default_fields).

Definition example_replaced : Replaced := {| rp_text := js "MOCKBA ok"; rp_cursor := 9 |}.

Lemma example_applies : applyTextReplacements default_parse (js "МОСКВА оk") 9 (js "{}") = Some example_replaced.
Proof. by vm_compute. Qed.

Lemma text_replacement_settles_witness :
  0 <= example_replaced.(rp_cursor) <= len example_replaced.(rp_text)
  /\ forall cursor', applyTextReplacements default_parse example_replaced.(rp_text) cursor' (js "{}") = None.
Proof.
  apply (text_replacement_settles default_parse (js "{}") None default_fields (js "МОСКВА оk") 9 example_replaced).
  - reflexivity.
  - by vm_compute.
  - by apply (bool_decide_eq_true_1 _).
  - by vm_compute.
  - exact example_applies.
Defined.

(** The setting compares needles with each replacement alone: one that a replacement makes with
    the text after it is accepted, and expands again at the next keystroke. *)
Definition crossing_parse (_ : jstr) : option Json :=
  Some (Jobject [(js "ab", Jstring (js "x")); (js "xc", Jstring (js "y"))]).
Example crossing_re_expands :
  (setTextReplaceMapJson crossing_parse (js "{}") None).2 = None
  /\ rp_text <$> applyTextReplacements crossing_parse (js "abc") 3 (js "{}") = Some (js "xc")
  /\ rp_text <$> applyTextReplacements crossing_parse (js "xc") 2 (js "{}") = Some (js "y").
Proof. by vm_compute. Qed.
