(* ===== verification/CommunityFrames.v ===== *)
(** Packets other observers heard, as the server relays them: the frame checks of
    [utils/livePackets.ts] and the buffer and relay status of [stores/livePacketStore.ts].

    A frame arrives as a value of [JSON.parse]; [undefined] is [None]. *)
From S2P Require Import Prelude JsString JsCollections JsNum Types PathUtils Regex Json RichPayloads.
From Corelib Require Import SpecFloat.

(** ** Frames *)

Definition LIVE_COMMUNITY_SCHEMA : Z := 2.

Inductive LiveHopConfidence := Exact | Probable | Unresolved.
#[export] Instance LiveHopConfidence_eq_dec : EqDecision LiveHopConfidence.
Proof. solve_decision. Defined.
Inductive LiveRouteKind := RkFlood | RkDirect | RkUnknown.
#[export] Instance LiveRouteKind_eq_dec : EqDecision LiveRouteKind.
Proof. solve_decision. Defined.
Inductive EarSource := EarAdvert | EarIata | EarLocal.

Record CommunityPacketHop := {
  cph_token : jstr;
  cph_confidence : LiveHopConfidence;
  cph_lat : option num;
  cph_lon : option num;
  cph_reason : option jstr;
  cph_pubkey : option jstr;
  cph_name : option jstr;
}.

(** [advert] or [iata]. *)
Record CommunityPacketEar := { ce_lat : num; ce_lon : num; ce_source : EarSource }.

Record CommunityPacket := {
  cp_event_id : jstr;
  cp_hash8 : jstr;
  cp_packet_hash : option jstr;
  cp_type : jstr;
  cp_path : list jstr;
  cp_hops : list CommunityPacketHop;
  cp_ear : option CommunityPacketEar;
  cp_origin : option CommunityPacketHop;
  cp_route_kind : option LiveRouteKind;
  cp_snr : option num;
  cp_iata : jstr;
  cp_t : num;
  cp_ear_id : jstr;
}.

(** ** Checks *)

(** The strings and numbers of a value, when it is one. *)
Definition as_string (v : option Json) : option jstr :=
  match v with Some (Jstring s) => Some s | _ => None end.
Definition as_number (v : option Json) : option num :=
  match v with Some (Jnumber x) => Some x | _ => None end.
(** [typeof v === 'string' && v] *)
Definition nonempty_string (v : option Json) : option jstr := truthy (as_string v).

Definition PACKET_TYPE_RE : regex :=
  ReSeq ReStart (ReSeq (ReChar is_lower)
    (ReSeq (ReStar (ReChar (fun c => is_lower c || is_digit c || (c =? 95)))) ReEnd)).
Definition HEX8_RE : regex := ReSeq ReStart (ReSeq (ReTimes 8 (ReChar is_lower_hex)) ReEnd).
Definition PACKET_HASH16_RE : regex :=
  ReSeq ReStart (ReSeq (ReTimes 16 (ReChar is_lower_hex)) (ReSeq (ReStar (ReChar is_lower_hex)) ReEnd)).
Definition PUBKEY64_RE : regex := ReSeq ReStart (ReSeq (ReTimes 64 (ReChar is_hex)) ReEnd).

Definition isCommunityPacketType (v : option Json) : option jstr :=
  s ← as_string v; if re_test PACKET_TYPE_RE s then Some s else None.

Definition confidence_of (s : jstr) : option LiveHopConfidence :=
  if s ≟ js "exact" then Some Exact
  else if s ≟ js "probable" then Some Probable
  else if s ≟ js "unresolved" then Some Unresolved
  else None.
Definition isLiveHopConfidence (v : option Json) : option LiveHopConfidence := as_string v ≫= confidence_of.

(** 16 lowercase hexadecimal digits, not all zero; a longer hash is cut. *)
Definition normalizePacketHash16 (v : option jstr) : option jstr :=
  value ← v;
  let hex := toLowerCase (trim value) in
  if negb (re_test PACKET_HASH16_RE hex) then None else
  let sliced := slice hex 0 16 in
  if sliced ≟ replicate 16 48 then None else Some sliced.

Definition finiteCoord (v : option Json) : option num :=
  x ← as_number v; if num_isFinite x then Some x else None.

(** The outer [None] is the [undefined] of a refused ear. *)
Definition readEar (v : option Json) : option (option CommunityPacketEar) :=
  match v with
  | None | Some Jnull => Some None
  | Some (Jobject value) =>
    lat ← finiteCoord (om_get value (js "lat"));
    lon ← finiteCoord (om_get value (js "lon"));
    if negb (isValidLocation (Some lat) (Some lon)) then None else
    source ← as_string (om_get value (js "source"));
    if source ≟ js "advert" then Some (Some {| ce_lat := lat; ce_lon := lon; ce_source := EarAdvert |})
    else if source ≟ js "iata" then Some (Some {| ce_lat := lat; ce_lon := lon; ce_source := EarIata |})
    else None
  | Some _ => None
  end.

Definition readHop (v : option Json) : option CommunityPacketHop :=
  match v with
  | Some (Jobject value) =>
    token ← as_string (om_get value (js "token"));
    if len (trim token) =? 0 then None else
    confidence ← isLiveHopConfidence (om_get value (js "confidence"));
    let hop lat lon :=
      {| cph_token := trim token; cph_confidence := confidence; cph_lat := lat; cph_lon := lon;
         cph_reason := nonempty_string (om_get value (js "reason"));
         cph_pubkey := nonempty_string (om_get value (js "pubkey"));
         cph_name := nonempty_string (om_get value (js "name")) |} in
    if confidence ≟ Unresolved then Some (hop None None) else
    lat ← finiteCoord (om_get value (js "lat"));
    lon ← finiteCoord (om_get value (js "lon"));
    if negb (isValidLocation (Some lat) (Some lon)) then None else Some (hop (Some lat) (Some lon))
  | _ => None
  end.

Definition readOrigin (v : option Json) : option CommunityPacketHop :=
  match v with
  | Some (Jobject value) =>
    hop ← readHop v;
    let named :=
      match as_string (om_get value (js "pubkey")) with
      | Some pubkey => if re_test PUBKEY64_RE pubkey then Some pubkey else None
      | None => None
      end in
    match named with
    | Some pubkey =>
      Some {| cph_token := hop.(cph_token); cph_confidence := hop.(cph_confidence); cph_lat := hop.(cph_lat);
              cph_lon := hop.(cph_lon); cph_reason := hop.(cph_reason);
              cph_pubkey := Some (toLowerCase pubkey); cph_name := hop.(cph_name) |}
    | None => if hop.(cph_confidence) ≟ Unresolved then None else Some hop
    end
  | _ => None
  end.

(** The strings of an array of strings. *)
Definition strings_of (l : list Json) : option (list jstr) := mapM (fun x => as_string (Some x)) l.

(** [value.path], or the hops' tokens when it is absent. *)
Definition read_path (v : option Json) (hops : list CommunityPacketHop) : option (list jstr) :=
  match v with
  | None => Some (cph_token <$> hops)
  | Some (Jarray l) => if len l =? len hops then strings_of l else None
  | Some _ => None
  end.

Definition route_kind_of (s : jstr) : option LiveRouteKind :=
  if s ≟ js "flood" then Some RkFlood
  else if s ≟ js "direct" then Some RkDirect
  else if s ≟ js "unknown" then Some RkUnknown
  else None.

Definition asCommunityPacket (v : option Json) : option CommunityPacket :=
  match v with
  | Some (Jobject value) =>
    let get k := om_get value k in
    v ← as_number (get (js "v"));
    if negb (num_eq v (num_of_Z LIVE_COMMUNITY_SCHEMA)) then None else
    event_id ← nonempty_string (get (js "event_id"));
    hash8 ← as_string (get (js "hash8"));
    let hash8 := slice (toLowerCase (trim hash8)) 0 8 in
    if negb (re_test HEX8_RE hash8) then None else
    type ← isCommunityPacketType (get (js "type"));
    hops ← match get (js "hops") with Some (Jarray l) => mapM (fun x => readHop (Some x)) l | _ => None end;
    path ← read_path (get (js "path")) hops;
    hop_count ← match get (js "hop_count") with
                | None => Some tt
                | Some (Jnumber n) => if num_eq n (num_of_Z (len hops)) then Some tt else None
                | Some _ => None
                end;
    ear_id ← nonempty_string (get (js "ear_id"));
    t ← as_number (get (js "t"));
    if negb (num_isFinite t) then None else
    ear ← readEar (get (js "ear"));
    iata ← match get (js "iata") with
           | None => Some []
           | Some (Jstring s) => Some s
           | Some _ => None
           end;
    Some {|
      cp_event_id := event_id; cp_hash8 := hash8;
      cp_packet_hash :=
        match normalizePacketHash16 (as_string (get (js "packet_hash"))) with
        | Some packetHash => if slice packetHash 0 8 ≟ hash8 then Some packetHash else None
        | None => None
        end;
      cp_type := type; cp_path := path; cp_hops := hops; cp_ear := ear;
      cp_origin := match get (js "origin") with None => None | origin => readOrigin origin end;
      cp_route_kind := as_string (get (js "route_kind")) ≫= route_kind_of;
      cp_snr := (x ← as_number (get (js "snr")); if num_isFinite x then Some x else None);
      cp_iata := iata; cp_t := t; cp_ear_id := ear_id |}
  | _ => None
  end.

(** ** Frames as values *)

(** The object a frame is: absent fields are left out. *)
Definition opt_field {A} (k : jstr) (f : A -> Json) (v : option A) : list (jstr * Json) :=
  match v with Some x => [(k, f x)] | None => [] end.
Definition confidence_str (c : LiveHopConfidence) : jstr :=
  match c with Exact => js "exact" | Probable => js "probable" | Unresolved => js "unresolved" end.
Definition route_kind_str (k : LiveRouteKind) : jstr :=
  match k with RkFlood => js "flood" | RkDirect => js "direct" | RkUnknown => js "unknown" end.

Definition hop_value (h : CommunityPacketHop) : Json :=
  Jobject ([(js "token", Jstring h.(cph_token)); (js "confidence", Jstring (confidence_str h.(cph_confidence)))]
    ++ opt_field (js "reason") Jstring h.(cph_reason) ++ opt_field (js "pubkey") Jstring h.(cph_pubkey)
    ++ opt_field (js "name") Jstring h.(cph_name) ++ opt_field (js "lat") Jnumber h.(cph_lat)
    ++ opt_field (js "lon") Jnumber h.(cph_lon)).
Definition ear_value (e : option CommunityPacketEar) : Json :=
  match e with
  | None => Jnull
  | Some e => Jobject [(js "lat", Jnumber e.(ce_lat)); (js "lon", Jnumber e.(ce_lon));
      (js "source", Jstring (match e.(ce_source) with EarIata => js "iata" | _ => js "advert" end))]
  end.
Definition frame_value (p : CommunityPacket) : Json :=
  Jobject ([(js "v", Jnumber (num_of_Z LIVE_COMMUNITY_SCHEMA)); (js "event_id", Jstring p.(cp_event_id));
     (js "hash8", Jstring p.(cp_hash8)); (js "type", Jstring p.(cp_type));
     (js "path", Jarray (Jstring <$> p.(cp_path))); (js "hop_count", Jnumber (num_of_Z (len p.(cp_hops))));
     (js "hops", Jarray (hop_value <$> p.(cp_hops))); (js "ear", ear_value p.(cp_ear));
     (js "iata", Jstring p.(cp_iata)); (js "t", Jnumber p.(cp_t)); (js "ear_id", Jstring p.(cp_ear_id))]
    ++ opt_field (js "snr") Jnumber p.(cp_snr) ++ opt_field (js "packet_hash") Jstring p.(cp_packet_hash)
    ++ opt_field (js "origin") hop_value p.(cp_origin)
    ++ opt_field (js "route_kind") (fun k => Jstring (route_kind_str k)) p.(cp_route_kind)).

(** ** The buffer *)

Definition MAX_LIVE_COMMUNITY_PACKETS : Z := 200.

(** The packets after a frame, and whether the subscribers are told. *)
Definition recordCommunityPacket (packet : option Json) (packets : list CommunityPacket)
    : list CommunityPacket * bool :=
  match asCommunityPacket packet with
  | None => (packets, false)
  | Some frame =>
    if existsb (fun existing => existing.(cp_event_id) ≟ frame.(cp_event_id)) packets then (packets, false)
    else
      let next := packets ++ [frame] in
      let overflow := len next - MAX_LIVE_COMMUNITY_PACKETS in
      (if 0 <? overflow then slice_from next overflow else next, true)
  end.

(** ** The relay *)

Inductive LiveAuthError := ClockSkew | TokenRejected.
#[export] Instance LiveAuthError_eq_dec : EqDecision LiveAuthError.
Proof. solve_decision. Defined.
Inductive LiveBannerKind := BannerOptOut | BannerAuthRejected | BannerBanned.
#[export] Instance LiveBannerKind_eq_dec : EqDecision LiveBannerKind.
Proof. solve_decision. Defined.

Record LiveConnectionState := {
  lc_optOut : bool;
  lc_authError : option LiveAuthError;
  lc_clockSkewS : option jint;
  lc_paused : bool;
  lc_banned : bool;
  lc_banner : option LiveBannerKind;
}.
Definition INITIAL_CONNECTION : LiveConnectionState :=
  {| lc_optOut := false; lc_authError := None; lc_clockSkewS := None; lc_paused := false;
     lc_banned := false; lc_banner := None |}.

Definition liveBanner (optOut banned : bool) (authError : option LiveAuthError) : option LiveBannerKind :=
  if optOut then Some BannerOptOut
  else if banned then Some BannerBanned
  else match authError with Some _ => Some BannerAuthRejected | None => None end.

Definition normalizeAuthError (v : option Json) : option LiveAuthError :=
  s ← as_string v;
  if s ≟ js "clock_skew" then Some ClockSkew
  else if s ≟ js "token_rejected" then Some TokenRejected
  else None.

Inductive LiveBannerI18nKey := KeyOptOut | KeyBanned | KeyClockSkew | KeyTokenRejected.
Definition liveBannerI18nKey (s : LiveConnectionState) : option LiveBannerI18nKey :=
  match s.(lc_banner) with
  | Some BannerOptOut => Some KeyOptOut
  | Some BannerBanned => Some KeyBanned
  | Some BannerAuthRejected =>
    Some (match s.(lc_authError) with Some ClockSkew => KeyClockSkew | _ => KeyTokenRejected end)
  | None => None
  end.

(** A relay status, as the fields of its object. *)
Definition applyLiveStatus (status : list (jstr * Json)) : LiveConnectionState :=
  let get k := om_get status k in
  let state := as_string (get (js "state")) in
  let optOut := match get (js "opted_out") with Some (Jbool true) => true | _ => false end in
  let banned := negb optOut && (state ≟ Some (js "banned")) in
  let authError :=
    if optOut || banned then None
    else match normalizeAuthError (get (js "auth_error")) with
         | Some e => Some e
         | None => if state ≟ Some (js "auth_rejected") then Some TokenRejected else None
         end in
  let clockSkewS :=
    match authError, as_number (get (js "clock_skew_s")) with
    | Some _, Some x => Some (math_round x)
    | _, _ => None
    end in
  let paused := negb optOut && negb banned && (authError ≟ None) && (state ≟ Some (js "paused")) in
  {| lc_optOut := optOut; lc_authError := authError; lc_clockSkewS := clockSkewS; lc_paused := paused;
     lc_banned := banned; lc_banner := liveBanner optOut banned authError |}.
