(* ===== verification/CommunityFramesProps.v ===== *)
(** Frames: what the checks accept is accepted again unchanged, the buffer stays bounded and the
    relay's banner says what its state is. *)
From S2P Require Import Prelude JsString JsCollections JsNum Types PathUtils Regex Json RichPayloads.
From S2P Require Import UrlHash RichPayloadsProps.
From S2P Require Import CommunityFrames.
From Corelib Require Import SpecFloat.

(** ** Reading the fields of a frame back *)

Lemma om_get_opt_field {A} k (f : A -> Json) v x :
  om_get (opt_field k f v) x = if k ≟ x then f <$> v else None.
Proof. unfold opt_field. destruct v; cbn; repeat case_decide; case_bool_decide; done. Qed.

Ltac read_fields := rewrite ?om_get_app, ?om_get_cons, ?om_get_opt_field; cbn [om_get]; eval_keys.

(** ** Well-formed frames *)

Definition located (lat lon : option num) : Prop :=
  exists x y, lat = Some x /\ lon = Some y /\ num_isFinite x = true /\ num_isFinite y = true
    /\ isValidLocation lat lon = true.

Record hop_ok (h : CommunityPacketHop) : Prop := {
  ho_token : h.(cph_token) <> [] /\ trim h.(cph_token) = h.(cph_token);
  ho_reason : h.(cph_reason) <> Some [];
  ho_pubkey : h.(cph_pubkey) <> Some [];
  ho_name : h.(cph_name) <> Some [];
  ho_place : if h.(cph_confidence) ≟ Unresolved then h.(cph_lat) = None /\ h.(cph_lon) = None
             else located h.(cph_lat) h.(cph_lon);
}.

Lemma truthy_not_empty s : truthy s <> Some [].
Proof. by destruct s as [[|c s]|]. Qed.
Lemma truthy_id s : s <> Some [] -> truthy s = s.
Proof. by destruct s as [[|c s]|]. Qed.

Lemma trimStart_idem s : trimStart (trimStart s) = trimStart s.
Proof.
  apply trimStart_id. induction s as [|c s IH]; cbn; [done|]. by destruct (is_space c) eqn:E.
Qed.

Lemma trimStart_suffix s : exists k, s = k ++ trimStart s.
Proof.
  induction s as [|c s [k IH]]; [by exists []|]. cbn. destruct (is_space c); [|by exists []].
  exists (c :: k). cbn. by rewrite <- IH.
Qed.

Lemma trim_idem s : trim (trim s) = trim s.
Proof.
  unfold trim. set (a := trimStart s). set (b := trimStart (reverse a)).
  assert (Hb : trimStart (reverse b) = reverse b).
  { apply trimStart_id. destruct (reverse b) as [|c r] eqn:E; [done|].
    destruct (trimStart_suffix (reverse a)) as [k Hk]. fold b in Hk.
    apply (f_equal reverse) in Hk. rewrite reverse_involutive, reverse_app, E in Hk.
    pose proof (trimStart_idem s) as Ha. fold a in Ha. rewrite Hk in Ha. cbn [app] in Ha.
    cbn [trimStart] in Ha. destruct (is_space c) eqn:Ec; [|done]. exfalso.
    destruct (trimStart_suffix (r ++ reverse k)) as [k' Hk']. rewrite Ha in Hk'.
    apply (f_equal length) in Hk'. rewrite !length_app in Hk'. cbn [length] in Hk'. rewrite length_app in Hk'. lia. }
  rewrite Hb, reverse_involutive. unfold b. by rewrite trimStart_idem.
Qed.

Lemma read_hop_ok v h : readHop v = Some h -> hop_ok h.
Proof.
  unfold readHop. destruct v as [[| | | | |value]|]; try done.
  destruct (as_string _) as [token|]; [|done]. cbn [mbind option_bind].
  destruct (len (trim token) =? 0) eqn:Et; [done|].
  assert (Htok : trim token <> [] /\ trim (trim token) = trim token).
  { split; [|apply trim_idem]. intros E. by rewrite E in Et. }
  destruct (isLiveHopConfidence _) as [c|]; [|done]. cbn [mbind option_bind].
  destruct (bool_decide_reflect (c = Unresolved)) as [->|Hc].
  - intros H. apply (inj Some) in H as <-. by split; [exact Htok|apply truthy_not_empty..|].
  - unfold finiteCoord. destruct (as_number (om_get value (js "lat"))) as [lat|]; [|done]. cbn [mbind option_bind].
    destruct (num_isFinite lat) eqn:Elat; [|done]. cbn [mbind option_bind].
    destruct (as_number (om_get value (js "lon"))) as [lon|]; [|done]. cbn [mbind option_bind].
    destruct (num_isFinite lon) eqn:Elon; [|done]. cbn [mbind option_bind].
    destruct (isValidLocation (Some lat) (Some lon)) eqn:El; [|done].
    intros H. apply (inj Some) in H as <-. split; [exact Htok|apply truthy_not_empty..|].
    cbn [cph_confidence cph_lat cph_lon]. rewrite bool_decide_eq_false_2 by done. by exists lat, lon.
Qed.

Lemma confidence_of_str c : confidence_of (confidence_str c) = Some c.
Proof. by destruct c. Qed.

Lemma as_string_fmap s : as_string (Jstring <$> s) = s.
Proof. by destruct s. Qed.
Lemma as_number_fmap x : as_number (Jnumber <$> x) = x.
Proof. by destruct x. Qed.
Lemma nonempty_string_fmap s : s <> Some [] -> nonempty_string (Jstring <$> s) = s.
Proof. unfold nonempty_string. rewrite as_string_fmap. apply truthy_id. Qed.

Lemma match_option_id {A} (o : option A) : match o with Some x => Some x | None => None end = o.
Proof. by destruct o. Qed.

Lemma read_hop_value h : hop_ok h -> readHop (Some (hop_value h)) = Some h.
Proof.
  intros [[Ht Htrim] Hr Hp Hn Hplace]. unfold readHop, hop_value. read_fields.
  cbn [as_string mbind option_bind]. rewrite Htrim.
  assert (Hlen : (len (cph_token h) =? 0) = false) by (apply Z.eqb_neq; intros E; by apply len_zero in E).
  rewrite Hlen. unfold isLiveHopConfidence. cbn [as_string mbind option_bind].
  rewrite confidence_of_str. cbn [mbind option_bind].
  rewrite !match_option_id, !nonempty_string_fmap by done.
  destruct h as [token c lat lon reason pubkey name].
  cbn [cph_token cph_confidence cph_lat cph_lon cph_reason cph_pubkey cph_name] in *.
  destruct (bool_decide_reflect (c = Unresolved)) as [->|Hc]; [by destruct Hplace as [-> ->]|].
  destruct Hplace as (x & y & -> & -> & Hx & Hy & Hv).
  unfold finiteCoord. cbn [as_number fmap option_fmap option_map mbind option_bind]. rewrite Hx. cbn [mbind option_bind].
  rewrite Hy. cbn [mbind option_bind]. by rewrite Hv.
Qed.

Lemma mapM_hops l hops :
  mapM (fun x => readHop (Some x)) l = Some hops -> Forall hop_ok hops.
Proof.
  revert hops. induction l as [|x l IH]; intros hops; cbn [mapM].
  - intros [= <-]. constructor.
  - destruct (readHop (Some x)) as [h|] eqn:E; [|done]. cbn [mbind option_bind].
    destruct (mapM _ l) as [hs|] eqn:E2; [|done]. cbn [mbind option_bind]. intros H. apply (inj Some) in H as <-.
    constructor; [by eapply read_hop_ok|by apply IH].
Qed.

Lemma mapM_hop_values hops :
  Forall hop_ok hops -> mapM (fun x => readHop (Some x)) (hop_value <$> hops) = Some hops.
Proof.
  induction 1 as [|h hops Hh _ IH]; [done|]. cbn [fmap list_fmap mapM]. rewrite read_hop_value by done.
  cbn [mbind option_bind]. by rewrite IH.
Qed.

(** ** Hashes and keys *)

Lemma lower_hex_lower c : is_lower_hex c = true -> unit_lower c = c.
Proof.
  unfold is_lower_hex, is_digit, unit_lower. rewrite orb_true_iff, !in_range_true. intros H.
  by rewrite (proj2 (in_range_false _ _ _)) by lia.
Qed.

Lemma lower_hex_string s :
  Forall (fun c => is_lower_hex c = true) s -> toLowerCase s = s /\ trim s = s.
Proof.
  intros Hs. split.
  - unfold toLowerCase. induction Hs as [|c s Hc _ IH]; [done|]. cbn. by rewrite lower_hex_lower, IH.
  - destruct s as [|c s]; [done|]. destruct s as [|d s] using rev_ind.
    + apply Forall_cons in Hs as [Hs _]. unfold trim. cbn [trimStart]. rewrite lower_hex_not_space by done.
      cbn [reverse rev_append]. change (reverse [c]) with [c]. cbn [trimStart].
      by rewrite lower_hex_not_space by done.
    + clear IHs. apply Forall_cons in Hs as [Hc [_ [Hd _]%Forall_cons]%Forall_app].
      by apply trim_id; apply lower_hex_not_space.
Qed.

Lemma hex8_fixed s : re_test HEX8_RE s = true -> slice (toLowerCase (trim s)) 0 8 = s.
Proof.
  intros [Hl Hf]%re_test_times. destruct (lower_hex_string s Hf) as [E1 E2]. rewrite E2, E1.
  apply slice_full. unfold len. by rewrite Hl.
Qed.

Lemma hash16_fixed v h : normalizePacketHash16 v = Some h -> normalizePacketHash16 (Some h) = Some h.
Proof.
  unfold normalizePacketHash16 at 1. destruct v as [v|]; [|done]. cbn [mbind option_bind]. cbv zeta.
  set (hex := toLowerCase (trim v)).
  destruct (re_test PACKET_HASH16_RE hex) eqn:E; [|done]. cbn [negb].
  apply re_test_at_least in E as [Hl Hf].
  assert (Hs : Forall (fun c => is_lower_hex c = true) (slice hex 0 16) /\ length (slice hex 0 16) = 16%nat).
  { rewrite slice_to by lia. split; [by apply Forall_take|]. rewrite length_take_le; [done|exact Hl]. }
  destruct Hs as [Hs Hlen].
  destruct (slice hex 0 16 ≟ replicate 16 48) eqn:Ez; [done|]. intros H. apply (inj Some) in H as <-.
  destruct (lower_hex_string _ Hs) as [E1 E2].
  unfold normalizePacketHash16. cbn [mbind option_bind]. rewrite E2, E1.
  assert (Et : re_test PACKET_HASH16_RE (slice hex 0 16) = true)
    by (apply re_test_at_least; split; [rewrite Hlen; done|exact Hs]).
  rewrite Et. cbn [negb]. rewrite slice_full by (unfold len; rewrite Hlen; done). by rewrite Ez.
Qed.

Lemma hex_lower_val c : is_hex c = true -> is_hex (unit_lower c) = true.
Proof.
  unfold is_hex. rewrite !bool_decide_eq_true. unfold unit_lower.
  destruct (in_range 65 90 c) eqn:Eu; [|done]. apply in_range_true in Eu. unfold hex_val.
  rewrite (proj2 (in_range_false 48 57 c)), (proj2 (in_range_false 97 102 c)) by lia.
  destruct (in_range 65 70 c) eqn:E; [|by intros [? ?]]. apply in_range_true in E. intros _.
  rewrite (proj2 (in_range_false 48 57 (c + 32))) by lia.
  rewrite (proj2 (in_range_true 97 102 (c + 32))) by lia. by eexists.
Qed.

Lemma pubkey64_lower s :
  re_test PUBKEY64_RE s = true -> re_test PUBKEY64_RE (toLowerCase s) = true.
Proof.
  unfold PUBKEY64_RE. rewrite !re_test_times. intros [Hl Hf]. split; [by rewrite length_toLowerCase|].
  unfold toLowerCase. apply Forall_fmap. eapply Forall_impl; [exact Hf|]. intros c. apply hex_lower_val.
Qed.

Lemma toLowerCase_idem s : toLowerCase (toLowerCase s) = toLowerCase s.
Proof.
  unfold toLowerCase. rewrite <- list_fmap_compose. apply list_fmap_ext. intros _ c _. cbn.
  unfold unit_lower. destruct (in_range 65 90 c) eqn:E; [|by rewrite E].
  apply in_range_true in E. by rewrite (proj2 (in_range_false 65 90 (c + 32))) by lia.
Qed.

#[local] Instance CommunityPacketHop_eta : Eta CommunityPacketHop := fun h =>
  Build_CommunityPacketHop h.(cph_token) h.(cph_confidence) h.(cph_lat) h.(cph_lon) h.(cph_reason)
    h.(cph_pubkey) h.(cph_name).

(** ** Frames *)

Definition ear_ok (e : option CommunityPacketEar) : Prop :=
  match e with
  | None => True
  | Some e => located (Some e.(ce_lat)) (Some e.(ce_lon)) /\ e.(ce_source) <> EarLocal
  end.

Record frame_ok (p : CommunityPacket) : Prop := {
  fo_event_id : p.(cp_event_id) <> [];
  fo_ear_id : p.(cp_ear_id) <> [];
  fo_hash8 : re_test HEX8_RE p.(cp_hash8) = true;
  fo_packet_hash : forall h, p.(cp_packet_hash) = Some h ->
    normalizePacketHash16 (Some h) = Some h /\ slice h 0 8 = p.(cp_hash8);
  fo_type : re_test PACKET_TYPE_RE p.(cp_type) = true;
  fo_hops : Forall hop_ok p.(cp_hops);
  fo_path : len p.(cp_path) = len p.(cp_hops);
  fo_ear : ear_ok p.(cp_ear);
  fo_origin : forall o, p.(cp_origin) = Some o -> readOrigin (Some (hop_value o)) = Some o;
  fo_snr : forall x, p.(cp_snr) = Some x -> num_isFinite x = true;
  fo_t : num_isFinite p.(cp_t) = true;
}.

Lemma read_ear_ok v e : readEar v = Some e -> ear_ok e.
Proof.
  unfold readEar. destruct v as [[| | | | |value]|]; try done; try (by intros [= <-]).
  unfold finiteCoord.
  destruct (as_number (om_get value (js "lat"))) as [lat|]; [|done]. cbn [mbind option_bind].
  destruct (num_isFinite lat) eqn:Elat; [|done]. cbn [mbind option_bind].
  destruct (as_number (om_get value (js "lon"))) as [lon|]; [|done]. cbn [mbind option_bind].
  destruct (num_isFinite lon) eqn:Elon; [|done]. cbn [mbind option_bind].
  destruct (isValidLocation (Some lat) (Some lon)) eqn:El; [|done]. cbn [negb].
  destruct (as_string _) as [source|]; [|done]. cbn [mbind option_bind].
  destruct (source ≟ js "advert"); [|destruct (source ≟ js "iata"); [|done]];
    intros H; apply (inj Some) in H as <-; (split; [by exists lat, lon|done]).
Qed.

Lemma read_ear_value e : ear_ok e -> readEar (Some (ear_value e)) = Some e.
Proof.
  destruct e as [[lat lon source]|]; [|done]. intros [(x & y & [= <-] & [= <-] & Hx & Hy & Hv) Hs].
  cbn [ce_lat ce_lon ce_source] in *. unfold readEar, ear_value. cbn [ce_lat ce_lon ce_source]. read_fields.
  unfold finiteCoord. cbn [as_number mbind option_bind]. rewrite Hx. cbn [mbind option_bind].
  rewrite Hy. cbn [mbind option_bind]. rewrite Hv. cbn [negb as_string mbind option_bind].
  by destruct source.
Qed.

Lemma read_origin_value v o : readOrigin v = Some o -> readOrigin (Some (hop_value o)) = Some o.
Proof.
  unfold readOrigin at 1. destruct v as [[| | | | |value]|]; try done.
  destruct (readHop _) as [hop|] eqn:Eh; [|done]. cbn [mbind option_bind]. cbv zeta.
  pose proof (read_hop_ok _ _ Eh) as Hok.
  assert (Hpub : hop.(cph_pubkey) = nonempty_string (om_get value (js "pubkey"))).
  { revert Eh. unfold readHop. destruct (as_string _) as [token|]; [|done]. cbn [mbind option_bind].
    destruct (len _ =? 0); [done|]. destruct (isLiveHopConfidence _); [|done]. cbn [mbind option_bind].
    destruct (_ ≟ Unresolved); [by intros H; apply (inj Some) in H as <-|].
    intros (lat & _ & (lon & _ & H)%bind_Some)%bind_Some. destruct (negb _); [done|].
    by apply (inj Some) in H as <-. }
  set (P := as_string (om_get value (js "pubkey"))) in *. unfold nonempty_string in Hpub. fold P in Hpub.
  assert (Hread : forall o, hop_ok o -> readOrigin (Some (hop_value o))
    = match match o.(cph_pubkey) with Some k => if re_test PUBKEY64_RE k then Some k else None | None => None end with
      | Some k => Some (o <| cph_pubkey := Some (toLowerCase k) |>)
      | None => if o.(cph_confidence) ≟ Unresolved then None else Some o
      end).
  { intros o0 Ho. unfold readOrigin. pose proof (read_hop_value o0 Ho) as E. unfold hop_value in *. rewrite E.
    cbn [mbind option_bind]. cbv zeta. read_fields. by rewrite match_option_id, as_string_fmap. }
  destruct (match P with Some k => if re_test PUBKEY64_RE k then Some k else None | None => None end) as [pk|] eqn:EP.
  - intros H. apply (inj Some) in H as <-.
    assert (Hpk : P = Some pk /\ re_test PUBKEY64_RE pk = true).
    { destruct P as [k|]; [|done]. destruct (re_test PUBKEY64_RE k) eqn:Ek; [|done]. by injection EP as ->. }
    destruct Hpk as [HP Ht]. apply pubkey64_lower in Ht.
    rewrite Hread.
    + cbn [cph_pubkey]. rewrite Ht, toLowerCase_idem. reflexivity.
    + destruct Hok. split; try done. cbn [cph_pubkey]. intros E. injection E as E. by rewrite E in Ht.
  - destruct (bool_decide_reflect (cph_confidence hop = Unresolved)) as [|Hc]; [done|].
    intros H. apply (inj Some) in H as <-. rewrite Hread by done. rewrite Hpub, bool_decide_eq_false_2 by done.
    destruct P as [[|c k]|]; [done| |done]. cbn [truthy]. by destruct (re_test PUBKEY64_RE (c :: k)).
Qed.

Lemma strings_of_values l : strings_of (Jstring <$> l) = Some l.
Proof.
  unfold strings_of. induction l as [|s l IH]; [done|]. rewrite fmap_cons. cbn [mapM].
  change (as_string (Some (Jstring s))) with (Some s). cbn [mbind option_bind].
  by rewrite IH.
Qed.

Lemma read_path_len v hops path : read_path v hops = Some path -> len path = len hops.
Proof.
  unfold read_path. destruct v as [[| | | |l|]|]; try done.
  - destruct (Z.eqb_spec (len l) (len hops)) as [<-|]; [|done]. unfold strings_of. intros H.
    apply length_mapM in H. unfold len. by rewrite H.
  - intros H. apply (inj Some) in H as <-. apply len_fmap.
Qed.

Lemma num_eq_refl x : x <> S754_nan -> num_eq x x = true.
Proof.
  unfold num_eq, SFeqb. intros Hx. destruct (SFcompare x x) as [[]|] eqn:E; try done.
  - pose proof (num_lt_irrefl x) as H. unfold num_lt, SFltb in H. by rewrite E in H.
  - destruct x as [s|s| |s m e]; try done; cbn in E; try by destruct s.
    rewrite Z.compare_refl in E. destruct s; by rewrite Pos.compare_refl in E.
  - apply SFcompare_None in E. by destruct E.
Qed.

(** What the checks accept is well formed. *)
Lemma accepted_ok v p : asCommunityPacket v = Some p -> frame_ok p.
Proof.
  unfold asCommunityPacket. destruct v as [[| | | | |value]|]; try done. cbv zeta.
  intros (vn & _ & H)%bind_Some. destruct (negb _); [done|].
  apply bind_Some in H as (event_id & Hev & H). apply bind_Some in H as (h8 & _ & H).
  set (hash8 := slice (toLowerCase (trim h8)) 0 8) in *.
  destruct (re_test HEX8_RE hash8) eqn:Eh; [|done]. cbn [negb] in H.
  apply bind_Some in H as (type & Ht & H). apply bind_Some in H as (hops & Hhops & H).
  apply bind_Some in H as (path & Hpath & H). apply bind_Some in H as (_ & _ & H).
  apply bind_Some in H as (ear_id & Hear_id & H). apply bind_Some in H as (t & _ & H).
  destruct (num_isFinite t) eqn:Eft; [|done]. cbn [negb] in H.
  apply bind_Some in H as (ear & Hear & H). apply bind_Some in H as (iata & _ & H).
  apply (inj Some) in H as <-. split; cbn [cp_event_id cp_ear_id cp_hash8 cp_packet_hash cp_type cp_hops
    cp_path cp_ear cp_origin cp_snr cp_t].
  - intros ->. by apply truthy_not_empty in Hev.
  - intros ->. by apply truthy_not_empty in Hear_id.
  - exact Eh.
  - intros h. destruct (normalizePacketHash16 _) as [ph|] eqn:E; [|done].
    destruct (bool_decide_reflect (slice ph 0 8 = hash8)) as [E8|]; [|done]. intros [= <-].
    split; [by eapply hash16_fixed|exact E8].
  - unfold isCommunityPacketType in Ht. apply bind_Some in Ht as (s & _ & Hs).
    destruct (re_test PACKET_TYPE_RE s) eqn:E; [|done]. by apply (inj Some) in Hs as <-.
  - destruct (om_get value (js "hops")) as [[| | | |l|]|]; try done. by eapply mapM_hops.
  - by eapply read_path_len.
  - by eapply read_ear_ok.
  - intros o. destruct (om_get value (js "origin")) as [j|]; [|done]. apply read_origin_value.
  - intros x (y & _ & Hy)%bind_Some. destruct (num_isFinite y) eqn:E; [|done]. by apply (inj Some) in Hy as <-.
  - exact Eft.
Qed.

(** A well-formed frame, written as a value, is read back. *)
Lemma ok_accepted p : frame_ok p -> asCommunityPacket (Some (frame_value p)) = Some p.
Proof.
  intros []. unfold asCommunityPacket, frame_value. cbv zeta. read_fields.
  cbn [as_number as_string mbind option_bind].
  change (num_eq (num_of_Z LIVE_COMMUNITY_SCHEMA) (num_of_Z LIVE_COMMUNITY_SCHEMA)) with true. cbn [negb].
  unfold nonempty_string. cbn [as_string]. rewrite !truthy_id by congruence. cbn [mbind option_bind].
  rewrite (hex8_fixed _ fo_hash9), fo_hash9. cbn [negb].
  unfold isCommunityPacketType. cbn [as_string mbind option_bind]. rewrite fo_type0. cbn [mbind option_bind].
  rewrite mapM_hop_values by done. cbn [mbind option_bind]. unfold read_path. rewrite len_fmap, fo_path0, Z.eqb_refl.
  rewrite strings_of_values. cbn [mbind option_bind].
  rewrite num_eq_refl by apply num_of_Z_not_nan. cbn [mbind option_bind]. rewrite fo_t0. cbn [negb].
  rewrite read_ear_value by done. cbn [mbind option_bind]. rewrite !match_option_id, as_string_fmap, as_number_fmap.
  destruct p as [event_id hash8 packet_hash type path hops ear origin route_kind snr iata t ear_id].
  cbn [cp_event_id cp_ear_id cp_hash8 cp_packet_hash cp_type cp_hops cp_path cp_ear cp_origin cp_snr cp_t
    cp_route_kind cp_iata] in *. f_equal. f_equal.
  - destruct packet_hash as [h|]; [|done]. destruct (fo_packet_hash0 h eq_refl) as [-> ->].
    by rewrite bool_decide_eq_true_2.
  - destruct origin as [o|]; [|done]. by apply fo_origin0.
  - destruct route_kind as [[]|]; done.
  - destruct snr as [x|]; [|done]. cbn [mbind option_bind]. by rewrite fo_snr0.
Qed.

(** ** Buffers *)

Record buffer_ok (packets : list CommunityPacket) : Prop := {
  bu_bound : len packets <= MAX_LIVE_COMMUNITY_PACKETS;
  bu_ids : NoDup (cp_event_id <$> packets);
  bu_frames : Forall frame_ok packets;
}.

Lemma slice_from_submseteq {A} (l : list A) n : 0 <= n -> exists k, l = k ++ slice_from l n.
Proof. intros Hn. exists (take (Z.to_nat n) l). rewrite slice_from_nonneg by done. by rewrite take_drop. Qed.

Lemma record_ok v packets : buffer_ok packets -> buffer_ok (recordCommunityPacket v packets).1.
Proof.
  intros [Hb Hi Hf]. unfold recordCommunityPacket.
  destruct (asCommunityPacket v) as [frame|] eqn:E; [|by split]. cbv zeta.
  destruct (existsb _ packets) eqn:Ex; [by split|]. cbn [fst].
  set (next := packets ++ [frame]).
  assert (Hni : NoDup (cp_event_id <$> next)).
  { unfold next. rewrite fmap_app. apply NoDup_app. split_and!; [done| |apply NoDup_singleton].
    intros x Hx Hx'%list_elem_of_singleton. subst x. apply list_elem_of_fmap in Hx as (y & Ey & Hy).
    apply not_true_iff_false in Ex. apply Ex, existsb_exists. exists y.
    split; [by apply list_elem_of_In|by apply bool_decide_eq_true]. }
  assert (Hnf : Forall frame_ok next).
  { apply Forall_app. split; [done|]. constructor; [by eapply accepted_ok|constructor]. }
  destruct (Z.ltb_spec 0 (len next - MAX_LIVE_COMMUNITY_PACKETS)) as [Ho|Ho].
  - destruct (slice_from_submseteq next (len next - MAX_LIVE_COMMUNITY_PACKETS)) as [k Hk]; [lia|].
    split.
    + unfold slice_from. rewrite len_slice; unfold MAX_LIVE_COMMUNITY_PACKETS in *; lia.
    + rewrite Hk, fmap_app in Hni. by apply NoDup_app in Hni as (_ & _ & Hni).
    + rewrite Hk in Hnf. by apply Forall_app in Hnf as [_ Hnf].
  - split; [lia|done|done].
Qed.

(** The frames received since the page was opened. *)
Definition received_frames (values : list (option Json)) : list CommunityPacket :=
  foldl (fun packets v => (recordCommunityPacket v packets).1) [] values.

Lemma received_frames_ok values : buffer_ok (received_frames values).
Proof.
  unfold received_frames. induction values as [|v values IH] using rev_ind.
  - split; [done|constructor|constructor].
  - rewrite foldl_app. by apply record_ok.
Qed.

(** C13: what is buffered can be trusted: after any sequence of values, the frames kept are at most
    200, none twice, and each is accepted again, unchanged, when it is written back as a value,
    as the reader of the buffer does. *)
Theorem buffered_frames_reaccepted (values : list (option Json)) :
  let packets := received_frames values in
  len packets <= 200
  /\ NoDup (cp_event_id <$> packets)
  /\ forall p, p ∈ packets -> asCommunityPacket (Some (frame_value p)) = Some p.
Proof.
  cbv zeta. destruct (received_frames_ok values) as [Hb Hi Hf]. split_and!; [exact Hb|exact Hi|].
  intros p Hp. rewrite Forall_forall in Hf. by apply ok_accepted, Hf.
Qed.

(** ** The relay's banner *)

(** The banner is the state's: opted out, else banned, else refused; a paused feed and a clock
    skew are told only without, and only with, a refusal. *)
Lemma live_status_consistent status :
  let s := applyLiveStatus status in
  (s.(lc_optOut) = true <-> s.(lc_banner) = Some BannerOptOut)
  /\ (s.(lc_banned) = true <-> s.(lc_banner) = Some BannerBanned)
  /\ (s.(lc_authError) <> None <-> s.(lc_banner) = Some BannerAuthRejected)
  /\ (s.(lc_paused) = true -> s.(lc_banner) = None)
  /\ (s.(lc_clockSkewS) <> None -> s.(lc_banner) = Some BannerAuthRejected)
  /\ (liveBannerI18nKey s = None <-> s.(lc_banner) = None).
Proof.
  cbv zeta. unfold applyLiveStatus. cbv zeta.
  set (optOut := match om_get status (js "opted_out") with Some (Jbool true) => true | _ => false end).
  set (st := as_string (om_get status (js "state"))).
  set (auth := match normalizeAuthError _ with Some e => Some e | None => _ end).
  set (skew := as_number _). clearbody optOut st auth skew.
  unfold liveBannerI18nKey, liveBanner. cbn [lc_optOut lc_banned lc_authError lc_banner lc_paused lc_clockSkewS].
  generalize (st ≟ Some (js "banned")) (st ≟ Some (js "paused")). intros b1 b2.
  destruct optOut, b1, b2, auth as [[]|], skew; cbn; split_and!; try done; intuition (try done; congruence).
Qed.

Definition example_frame_value : Json :=
  Jobject [(js "v", Jnumber (num_of_Z 2)); (js "event_id", Jstring (js "e1")); (js "hash8", Jstring (js " 90FD00AA "));
    (js "packet_hash", Jstring (js "90FD00AA11223344ff")); (js "type", Jstring (js "advert"));
    (js "hops", Jarray [Jobject [(js "token", Jstring (js " ab12 ")); (js "confidence", Jstring (js "exact"));
       (js "lat", Jnumber (num_of_Z 48)); (js "lon", Jnumber (num_of_Z 2)); (js "reason", Jstring [])]]);
    (js "ear", Jnull); (js "t", Jnumber (num_of_Z 1700000000)); (js "ear_id", Jstring (js "ear"));
    (js "origin", Jobject [(js "token", Jstring (js "x")); (js "confidence", Jstring (js "unresolved"))])].

Example frame_buffered :
  (fun p => (cp_hash8 p, cp_packet_hash p, cp_path p, cp_origin p)) <$> received_frames [Some example_frame_value; None]
  = [(js "90fd00aa", Some (js "90fd00aa11223344"), [js "ab12"], None)].
Proof. by vm_compute. Qed.
