(* ===== verification/LivePackets.v ===== *)
(** The live map's observations: [utils/livePackets.ts], from a packet of this radio or of another
    observer to the points it is drawn through, where it came from, and the rays of a flood.

    The packet decoder and [Math]'s functions are the parameters of the visualizer and of the path
    utilities. A key that prints coordinates is kept as a value, [LiveKey]. *)
From S2P Require Import Prelude JsString JsCollections JsNum Types PathUtils Regex Json RichPayloads.
From S2P Require Import CommunityFrames.
From S2P Require Import Visualizer.
From Corelib Require Import SpecFloat.

(** ** Observations *)

Inductive LiveSource := SrcLocal | SrcCommunity.
#[export] Instance LiveSource_eq_dec : EqDecision LiveSource.
Proof. solve_decision. Defined.
Inductive WaypointKind := WkHop | WkEar | WkOrigin.
#[export] Instance WaypointKind_eq_dec : EqDecision WaypointKind.
Proof. solve_decision. Defined.

Record LiveWaypoint := {
  lw_lat : num;
  lw_lon : num;
  lw_token : jstr;
  lw_kind : WaypointKind;
  lw_confidence : LiveHopConfidence;
  lw_reason : option jstr;
  lw_label : option jstr;
  lw_pubkey : option jstr;
}.

Record LiveEar := { le_lat : num; le_lon : num; le_source : EarSource }.
Record OriginGps := { og_lat : num; og_lon : num; og_name : option jstr }.

Record LiveObservation := {
  lo_id : jstr;
  lo_hash8 : jstr;
  lo_packetHash : option jstr;
  lo_source : LiveSource;
  lo_type : jstr;
  lo_snr : option num;
  lo_iata : option jstr;
  lo_t : num;
  lo_earId : jstr;
  lo_ear : option LiveEar;
  lo_waypoints : list LiveWaypoint;
  lo_routeKind : LiveRouteKind;
  lo_advertPubkey : option jstr;
  lo_srcHash : option jstr;
  lo_originGps : option OriginGps;
}.

(** ** Display weights *)

Definition snrWeight (snr : option num) : num :=
  match snr with
  | Some x =>
    if num_isFinite x
    then num_min (num_of_Z 1) (num_max (num_dec 35 2) (num_div (num_add x (num_of_Z 20)) (num_of_Z 30)))
    else num_dec 65 2
  | None => num_dec 65 2
  end.

Definition liveOpacity (source : LiveSource) (snr : option num) (hash8HasLocalTwin : bool) : num :=
  let weight := snrWeight snr in
  match source with
  | SrcLocal =>
    num_min (num_of_Z 1) (num_mul (if hash8HasLocalTwin then num_dec 98 2 else num_dec 9 1) weight)
  | SrcCommunity => num_mul (if hash8HasLocalTwin then num_dec 32 2 else num_dec 5 1) weight
  end.

(** ** Contacts by key prefix *)

(** [token.trim().replace(/\s+/g, '').length] *)
Definition hopTokenHexLength (token : jstr) : Z := len (filter (fun c => is_space c = false) (trim token)).
Definition isOneByteHopToken (token : jstr) : bool := hopTokenHexLength token <? MIN_NAMED_HOP_HEX_CHARS.

Definition bucket_contact (index : list (jstr * list Contact)) (contact : Contact) : list (jstr * list Contact) :=
  let key := toLowerCase contact.(c_public_key) in
  foldl (fun index n =>
    if len key <? n then index
    else
      let prefix := slice key 0 n in
      match om_get index prefix with
      | Some bucket => om_set index prefix (bucket ++ [contact])
      | None => om_set index prefix [contact]
      end) index [4; 6; 8; 12].
Definition buildPrefixIndex (contacts : list Contact) : list (jstr * list Contact) :=
  foldl bucket_contact [] contacts.

Definition uniqueGpsContact (token : jstr) (prefixIndex : list (jstr * list Contact)) : option Contact :=
  if isOneByteHopToken token then None else
  match om_get prefixIndex (toLowerCase (trim token)) with
  | Some [contact] => if isValidLocation contact.(c_lat) contact.(c_lon) then Some contact else None
  | _ => None
  end.

(** ** Types and hashes of a raw packet *)

Definition RAW_PAYLOAD_TYPES : list (Z * jstr) :=
  [(0, js "req"); (1, js "response"); (2, js "text"); (3, js "ack"); (4, js "advert"); (5, js "grp_txt");
   (6, js "grp_data"); (7, js "anon_req"); (8, js "path"); (9, js "trace"); (10, js "multipart");
   (11, js "control"); (15, js "raw_custom")].
Definition packetTypeFromRaw (payloadType : Z) : jstr := default (js "other") (om_get RAW_PAYLOAD_TYPES payloadType).

Definition FIRMWARE_HASH_RE : regex :=
  ReSeq ReStart (ReSeq (ReTimes 8 (ReChar is_hex)) (ReSeq (ReStar (ReChar is_hex)) ReEnd)).

Definition packetHashFromRaw (packet : RawPacket) : option jstr := normalizePacketHash16 packet.(rp_packet_hash).

Definition routeKindFromRawHex (data : jstr) : LiveRouteKind :=
  let hex := trim data in
  if len hex <? 2 then RkUnknown else
  match parseInt16 (slice hex 0 2) with
  | None => RkUnknown
  | Some header =>
    let routeType := Z.land header 3 in
    if (routeType =? 0) || (routeType =? 1) then RkFlood else RkDirect
  end.

Definition mergeRouteKind (a b : LiveRouteKind) : LiveRouteKind :=
  if a ≟ b then a else if a ≟ RkUnknown then b else if b ≟ RkUnknown then a else RkUnknown.

Definition inferFloodForAdvert (obs : LiveObservation) : LiveRouteKind :=
  if obs.(lo_type) ≟ js "advert" then RkFlood else obs.(lo_routeKind).

(** ** Waypoints *)

Definition hopHasCoords (hop : CommunityPacketHop) : bool :=
  ((hop.(cph_confidence) ≟ Exact) || (hop.(cph_confidence) ≟ Probable))
  && isValidLocation hop.(cph_lat) hop.(cph_lon).

Definition arrivalConfidence (hopConfidence : LiveHopConfidence) (skippedUnresolved : bool) : LiveHopConfidence :=
  if negb skippedUnresolved then hopConfidence
  else if hopConfidence ≟ Exact then Probable else hopConfidence.

Definition appendEarWaypoint (waypoints : list LiveWaypoint) (ear : LiveEar) (earId : jstr)
    (skippedUnresolved : bool) : list LiveWaypoint :=
  let point :=
    {| lw_lat := ear.(le_lat); lw_lon := ear.(le_lon); lw_token := earId; lw_kind := WkEar;
       lw_confidence := if skippedUnresolved then Probable else Exact;
       lw_reason := if skippedUnresolved then Some (js "skipped_unresolved") else None;
       lw_label := None; lw_pubkey := None |} in
  match last waypoints with
  | None => waypoints ++ [point]
  | Some l =>
    if num_eq l.(lw_lat) ear.(le_lat) && num_eq l.(lw_lon) ear.(le_lon) then waypoints
    else waypoints ++ [point]
  end.

(** One turn of the loop: the waypoints so far, and whether the hop before had no place. *)
Definition community_hop (st : list LiveWaypoint * bool) (hop : CommunityPacketHop) : list LiveWaypoint * bool :=
  let '(waypoints, skippedUnresolved) := st in
  if negb (hopHasCoords hop) then (waypoints, true) else
  match hop.(cph_lat), hop.(cph_lon) with
  | Some lat, Some lon =>
    (waypoints ++ [{| lw_lat := lat; lw_lon := lon; lw_token := hop.(cph_token); lw_kind := WkHop;
        lw_confidence := arrivalConfidence hop.(cph_confidence) skippedUnresolved;
        lw_reason := match hop.(cph_reason) with
                     | Some r => Some r
                     | None => if skippedUnresolved && (hop.(cph_confidence) ≟ Exact)
                               then Some (js "skipped_unresolved") else None
                     end;
        lw_label := hop.(cph_name); lw_pubkey := truthy hop.(cph_pubkey) |}], false)
  | _, _ => (waypoints, true)
  end.

Definition waypointsFromCommunity (packet : CommunityPacket) : list LiveWaypoint :=
  let '(waypoints, skippedUnresolved) := foldl community_hop ([], false) packet.(cp_hops) in
  match packet.(cp_ear) with
  | Some ear =>
    appendEarWaypoint waypoints {| le_lat := ear.(ce_lat); le_lon := ear.(ce_lon); le_source := ear.(ce_source) |}
      packet.(cp_ear_id) skippedUnresolved
  | None => waypoints
  end.

Definition exactOriginGps (origin : option CommunityPacketHop) : option OriginGps :=
  origin ← origin;
  if negb (origin.(cph_confidence) ≟ Exact) || negb (hopHasCoords origin) then None else
  lat ← origin.(cph_lat);
  lon ← origin.(cph_lon);
  Some {| og_lat := lat; og_lon := lon; og_name := truthy origin.(cph_name) |}.

Definition observationFromCommunity (packet : option Json) : option LiveObservation :=
  frame ← asCommunityPacket packet;
  Some {|
    lo_id := frame.(cp_event_id); lo_hash8 := frame.(cp_hash8); lo_packetHash := frame.(cp_packet_hash);
    lo_source := SrcCommunity; lo_type := frame.(cp_type); lo_snr := frame.(cp_snr);
    lo_iata := if negb (len (trim frame.(cp_iata)) =? 0) then Some (toUpperCase (trim frame.(cp_iata))) else None;
    lo_t := frame.(cp_t); lo_earId := frame.(cp_ear_id);
    lo_ear := (fun ear => {| le_lat := ear.(ce_lat); le_lon := ear.(ce_lon); le_source := ear.(ce_source) |})
              <$> frame.(cp_ear);
    lo_waypoints := waypointsFromCommunity frame;
    lo_routeKind := default RkUnknown frame.(cp_route_kind);
    lo_advertPubkey := frame.(cp_origin) ≫= cph_pubkey;
    lo_srcHash := None;
    lo_originGps := exactOriginGps frame.(cp_origin) |}.

(** ** This radio's packets *)

Definition raw_hop (prefixIndex : list (jstr * list Contact)) (st : list LiveWaypoint * bool) (token : jstr)
    : list LiveWaypoint * bool :=
  let '(waypoints, skippedUnresolved) := st in
  match uniqueGpsContact token prefixIndex with
  | Some contact =>
    match contact.(c_lat), contact.(c_lon) with
    | Some lat, Some lon =>
      (waypoints ++ [{| lw_lat := lat; lw_lon := lon; lw_token := token; lw_kind := WkHop;
          lw_confidence := arrivalConfidence Exact skippedUnresolved;
          lw_reason := if skippedUnresolved then Some (js "skipped_unresolved") else None;
          lw_label := contact.(c_name); lw_pubkey := Some contact.(c_public_key) |}], false)
    | _, _ => (waypoints, true)
    end
  | None => (waypoints, true)
  end.

Section decoder.
Context `{MeshDecoder}.

Definition hash8FromRaw (packet : RawPacket) : jstr :=
  let firmware := truthy (trim <$> packet.(rp_packet_hash)) in
  let known := f ← firmware;
               if re_test FIRMWARE_HASH_RE f && negb (f ≟ replicate (length f) 48) then Some f else None in
  match known with
  | Some f => toLowerCase (slice f 0 8)
  | None =>
    let raw := default (js "00000000") (truthy (parsePacket packet.(rp_data) ≫= pp_messageHash)) in
    toLowerCase (slice raw 0 8)
  end.

Definition waypointsFromRaw (packet : RawPacket) (prefixIndex : list (jstr * list Contact))
    (ear : option LiveEar) (earId : jstr) : list LiveWaypoint :=
  match parsePacket packet.(rp_data) with
  | None => []
  | Some parsed =>
    let '(waypoints, skippedUnresolved) := foldl (raw_hop prefixIndex) ([], false) parsed.(pp_pathBytes) in
    match ear with
    | Some ear => appendEarWaypoint waypoints ear earId skippedUnresolved
    | None => waypoints
    end
  end.

Definition observationFromRaw (packet : RawPacket) (prefixIndex : list (jstr * list Contact))
    (config : option RadioConfig) : option LiveObservation :=
  parsed ← parsePacket packet.(rp_data);
  let ear := c ← config;
             if isValidLocation (Some c.(rc_lat)) (Some c.(rc_lon))
             then Some {| le_lat := c.(rc_lat); le_lon := c.(rc_lon); le_source := EarLocal |} else None in
  let earId := slice (default (js "local-ear") (truthy (rc_public_key <$> config))) 0 16 in
  let t := default (if 1000000000000 <? packet.(rp_timestamp) then packet.(rp_timestamp)
                    else packet.(rp_timestamp) * 1000) packet.(rp_received_at_ms) in
  Some {|
    lo_id := js "local:" ++ int_str (default packet.(rp_id) packet.(rp_observation_id));
    lo_hash8 := hash8FromRaw packet; lo_packetHash := packetHashFromRaw packet; lo_source := SrcLocal;
    lo_type := packetTypeFromRaw parsed.(pp_payloadType); lo_snr := packet.(rp_snr); lo_iata := None;
    lo_t := num_of_Z t; lo_earId := earId; lo_ear := ear;
    lo_waypoints := waypointsFromRaw packet prefixIndex ear earId;
    lo_routeKind := routeKindFromRawHex packet.(rp_data); lo_advertPubkey := parsed.(pp_advertPubkey);
    lo_srcHash := parsed.(pp_srcHash); lo_originGps := None |}.
End decoder.

(** ** Identities *)

Definition observationBucketKey (obs : LiveObservation) : jstr := default obs.(lo_hash8) obs.(lo_packetHash).

Definition firstHopWaypoint (obs : LiveObservation) : option LiveWaypoint :=
  array_find (fun point =>
    (point.(lw_kind) ≟ WkHop) && negb (point.(lw_confidence) ≟ Unresolved)
    && isValidLocation (Some point.(lw_lat)) (Some point.(lw_lon))) obs.(lo_waypoints).

Definition observationCoalesceKey (obs : LiveObservation) : jstr :=
  let hopToken := match firstHopWaypoint obs with Some p => toLowerCase (trim p.(lw_token)) | None => [] end in
  observationBucketKey obs ++ js ":" ++ hopToken ++ js ":" ++ obs.(lo_earId).

Definition observationHasLocalTwin (obs : LiveObservation) (localKeys : list jstr) : bool :=
  match truthy obs.(lo_packetHash) with
  | Some h => bool_decide (h ∈ localKeys)
  | None => bool_decide (obs.(lo_hash8) ∈ localKeys)
  end.

(** ** Origins *)

Record LiveOriginPin := { op_public_key : jstr; op_lat : num; op_lon : num }.
#[export] Instance LiveOriginPin_eq_dec : EqDecision LiveOriginPin.
Proof. solve_decision. Defined.

Definition LIVE_ORIGIN_ANCHOR_KM : num := num_of_Z 20.
Definition pinKey (public_key : jstr) : jstr := toLowerCase (trim public_key).

Definition add_pin (pins : list LiveOriginPin) (node : LiveOriginPin) : list LiveOriginPin :=
  if negb (isValidLocation (Some node.(op_lat)) (Some node.(op_lon))) then pins else
  let key := pinKey node.(op_public_key) in
  if (len key =? 0) || existsb (fun p => p.(op_public_key) ≟ key) pins then pins
  else pins ++ [{| op_public_key := key; op_lat := node.(op_lat); op_lon := node.(op_lon) |}].

(** The keys seen are those of the pins kept. *)
Definition pinsIncludingLocalRadio (nodes : list LiveOriginPin) (config : option RadioConfig) : list LiveOriginPin :=
  let pins := foldl add_pin [] nodes in
  match config with
  | None => pins
  | Some config =>
    if len config.(rc_public_key) =? 0 then pins
    else add_pin pins {| op_public_key := config.(rc_public_key); op_lat := config.(rc_lat); op_lon := config.(rc_lon) |}
  end.

Definition findPinByKey (key : option jstr) (pins : list LiveOriginPin) : option LiveOriginPin :=
  key ← truthy key;
  let needle := pinKey key in
  if len needle =? 0 then None else
  let matches :=
    filter (fun pin => (pinKey pin.(op_public_key) ≟ needle) || startsWith (pinKey pin.(op_public_key)) needle = true) pins in
  if 16 <=? len needle then array_find (fun pin => pinKey pin.(op_public_key) ≟ needle) pins
  else match matches with [pin] => Some pin | _ => None end.

Definition firstHopAnchor (obs : LiveObservation) : option (num * num) :=
  match array_find (fun point => (point.(lw_kind) ≟ WkHop)
                                 && isValidLocation (Some point.(lw_lat)) (Some point.(lw_lon))) obs.(lo_waypoints) with
  | Some point => Some (point.(lw_lat), point.(lw_lon))
  | None =>
    ear ← obs.(lo_ear);
    if isValidLocation (Some ear.(le_lat)) (Some ear.(le_lon)) then Some (ear.(le_lat), ear.(le_lon)) else None
  end.

Definition sameLocation (lat1 lon1 lat2 lon2 : num) : bool := num_eq lat1 lat2 && num_eq lon1 lon2.

Section origin.
Context `{JsMath}.

Definition near_pin (src : jstr) (anchor : num * num) (pin : LiveOriginPin) : bool :=
  startsWith (pinKey pin.(op_public_key)) src
  && match calculateDistance (Some anchor.1) (Some anchor.2) (Some pin.(op_lat)) (Some pin.(op_lon)) with
     | Some km => num_le km LIVE_ORIGIN_ANCHOR_KM
     | None => false
     end.

Definition resolveOriginPin (obs : LiveObservation) (pins : list LiveOriginPin) : option LiveOriginPin :=
  let advert := key ← truthy obs.(lo_advertPubkey); findPinByKey (Some key) pins in
  match advert with
  | Some pin => Some pin
  | None =>
    let src := default [] ((fun s => toLowerCase (trim s)) <$> obs.(lo_srcHash)) in
    if negb (len src =? 2) then None else
    anchor ← firstHopAnchor obs;
    match filter (fun pin => near_pin src anchor pin = true) pins with
    | [pin] => Some pin
    | _ => None
    end
  end.

Definition origin_point (origin : LiveOriginPin) : LiveWaypoint :=
  {| lw_lat := origin.(op_lat); lw_lon := origin.(op_lon); lw_token := slice origin.(op_public_key) 0 8;
     lw_kind := WkOrigin; lw_confidence := Exact; lw_reason := None; lw_label := None;
     lw_pubkey := Some origin.(op_public_key) |}.

Definition prependOrigin (obs : LiveObservation) (pins : list LiveOriginPin) : list LiveWaypoint :=
  match resolveOriginPin obs pins with
  | None => obs.(lo_waypoints)
  | Some origin =>
    origin_point origin
      :: filter (fun p => sameLocation p.(lw_lat) p.(lw_lon) origin.(op_lat) origin.(op_lon) = false) obs.(lo_waypoints)
  end.

(** ** Rays of a flood *)

(** A hop's key: its public key, or its token where it stands. [+0] and [-0] print the same. *)
Inductive LiveKey := KeyOfPubkey (pubkey : jstr) | KeyOfPlace (token : jstr) (lat lon : num).
#[export] Instance LiveKey_eq_dec : EqDecision LiveKey.
Proof. solve_decision. Defined.
Definition printed (x : num) : num := num_add x (num_of_Z 0).
Definition hopIdentity (hop : LiveWaypoint) : LiveKey :=
  match truthy ((fun k => toLowerCase (trim k)) <$> hop.(lw_pubkey)) with
  | Some pubkey => KeyOfPubkey pubkey
  | None => KeyOfPlace (toLowerCase (trim hop.(lw_token))) (printed hop.(lw_lat)) (printed hop.(lw_lon))
  end.

Record FanoutHop := {
  fh_key : LiveKey;
  fh_lat : num;
  fh_lon : num;
  fh_token : jstr;
  fh_pubkey : option jstr;
  fh_label : option jstr;
  fh_confidence : LiveHopConfidence;
}.
Record FanoutLaser := { fl_key : LiveKey; fl_origin : LiveOriginPin; fl_hop : FanoutHop; fl_obs : LiveObservation }.

Definition asFanoutHop (point : LiveWaypoint) : FanoutHop :=
  {| fh_key := hopIdentity point; fh_lat := point.(lw_lat); fh_lon := point.(lw_lon); fh_token := point.(lw_token);
     fh_pubkey := point.(lw_pubkey); fh_label := point.(lw_label);
     fh_confidence := if point.(lw_confidence) ≟ Probable then Probable else Exact |}.

Definition primaryPolylineCoversOriginHop (obs : LiveObservation) (origin : LiveOriginPin) (hop : FanoutHop)
    (pins : list LiveOriginPin) : bool :=
  let waypoints := prependOrigin obs pins in
  existsb (fun p => (p.(lw_kind) ≟ WkOrigin)
                    && sameLocation p.(lw_lat) p.(lw_lon) origin.(op_lat) origin.(op_lon)) waypoints
  && existsb (fun p => (p.(lw_kind) ≟ WkHop)
                       && sameLocation p.(lw_lat) p.(lw_lon) hop.(fh_lat) hop.(fh_lon)) waypoints.

(** The first observation whose origin is known names it. *)
Fixpoint bucket_origin (observations : list LiveObservation) (pins : list LiveOriginPin) : option LiveOriginPin :=
  match observations with
  | [] => None
  | obs :: observations =>
    match resolveOriginPin obs pins with Some origin => Some origin | None => bucket_origin observations pins end
  end.

(** The first hops of the bucket, each once, that were not drawn yet and are not the origin. *)
Definition add_first_hop (origin : option LiveOriginPin) (alreadySpawnedKeys : list LiveKey)
    (hopByKey : list (LiveKey * (FanoutHop * LiveObservation))) (obs : LiveObservation) :=
  match firstHopWaypoint obs with
  | None => hopByKey
  | Some first =>
    let hop := asFanoutHop first in
    if bool_decide (hop.(fh_key) ∈ alreadySpawnedKeys) then hopByKey
    else match om_get hopByKey hop.(fh_key) with
    | Some _ => hopByKey
    | None =>
      match origin with
      | Some o =>
        if sameLocation o.(op_lat) o.(op_lon) hop.(fh_lat) hop.(fh_lon) then hopByKey
        else om_set hopByKey hop.(fh_key) (hop, obs)
      | None => om_set hopByKey hop.(fh_key) (hop, obs)
      end
    end
  end.

(** The origin, and the rays from it to the first hops the drawn line does not already reach. *)
Definition fanoutFromOrigin (observations : list LiveObservation) (pins : list LiveOriginPin)
    (alreadySpawnedKeys : list LiveKey) : option LiveOriginPin * list FanoutLaser :=
  let origin := bucket_origin observations pins in
  let hopByKey := foldl (add_first_hop origin alreadySpawnedKeys) [] observations in
  match origin with
  | None => (None, [])
  | Some o =>
    (Some o, omap (fun '(_, (hop, obs)) =>
       if primaryPolylineCoversOriginHop obs o hop pins then None
       else Some {| fl_key := hop.(fh_key); fl_origin := o; fl_hop := hop; fl_obs := obs |}) hopByKey)
  end.
End origin.

Definition LIVE_DIM_AFTER_MS : Z := 5 * 60 * 1000.
Definition isStaleLiveTime (t now : num) : bool := num_le (num_of_Z LIVE_DIM_AFTER_MS) (num_sub now t).
