(* ===== verification/LivePacketsProps.v ===== *)
(** The live map: what a packet's line claims is what its hops support, and a flood's rays are
    drawn once each, from an origin nothing else could be. *)
From S2P Require Import Prelude JsString JsCollections JsNum Types PathUtils PathProps Regex Json RichPayloads.
From S2P Require Import CommunityFrames CommunityFramesProps.
From S2P Require Import Visualizer LivePackets.

(** ** Waypoints *)

Lemma hopHasCoords_located h : hopHasCoords h = true ->
  exists lat lon, h.(cph_lat) = Some lat /\ h.(cph_lon) = Some lon
    /\ isValidLocation (Some lat) (Some lon) = true
    /\ (h.(cph_confidence) = Exact \/ h.(cph_confidence) = Probable).
Proof.
  unfold hopHasCoords. rewrite andb_true_iff, orb_true_iff, !bool_decide_eq_true. intros [Hc Hv].
  destruct (cph_lat h) as [lat|]; [|done]. destruct (cph_lon h) as [lon|]; [|by destruct lat].
  by exists lat, lon.
Qed.

(** The hop before the [i]th has no place. *)
Definition gap_before (hops : list CommunityPacketHop) (i : nat) : bool :=
  match i with
  | O => false
  | S j => match hops !! j with Some h => negb (hopHasCoords h) | None => false end
  end.

(** A point of the line stands for a hop: at its place, under its token, and no surer than it. *)
Definition stands_for (hops : list CommunityPacketHop) (w : LiveWaypoint) (i : nat) : Prop :=
  exists h, hops !! i = Some h /\ hopHasCoords h = true
    /\ w.(lw_kind) = WkHop /\ w.(lw_token) = h.(cph_token)
    /\ h.(cph_lat) = Some w.(lw_lat) /\ h.(cph_lon) = Some w.(lw_lon)
    /\ w.(lw_confidence) = arrivalConfidence h.(cph_confidence) (gap_before hops i).

Definition hop_points (hops : list CommunityPacketHop) : list LiveWaypoint * bool :=
  foldl community_hop ([], false) hops.

Lemma gap_before_app hops hops' i : (i <= length hops)%nat -> gap_before (hops ++ hops') i = gap_before hops i.
Proof. destruct i as [|i]; [done|]. intros Hi. cbn. by rewrite lookup_app_l by lia. Qed.

Lemma stands_for_app hops hops' w i : stands_for hops w i -> stands_for (hops ++ hops') w i.
Proof.
  intros (h & Hi & Hrest). exists h. pose proof (lookup_lt_Some _ _ _ Hi).
  rewrite lookup_app_l by done. rewrite gap_before_app by lia. by split.
Qed.

(** The points are those of the hops that have a place, in order, and the flag says whether the
    last hop has none. *)
Lemma hop_points_spec hops :
  exists idx, Forall2 (stands_for hops) (hop_points hops).1 idx
    /\ StronglySorted lt idx
    /\ (forall i, i ∈ idx <-> exists h, hops !! i = Some h /\ hopHasCoords h = true)
    /\ (hop_points hops).2 = gap_before hops (length hops).
Proof.
  unfold hop_points. induction hops as [|h hops (idx & Hf & Hs & Hin & Hg)] using rev_ind.
  { exists []. split_and!; [constructor|constructor| |done]. intros i. split; [by intros ?%not_elem_of_nil|].
    by intros (h & Hh & _). }
  rewrite foldl_app. cbn [foldl]. destruct (foldl community_hop ([], false) hops) as [ws b] eqn:E.
  cbn [fst snd] in *. assert (Hlast : (hops ++ [h]) !! length hops = Some h) by by apply list_lookup_middle.
  assert (Hsnoc : forall i x, (hops ++ [h]) !! i = Some x <-> hops !! i = Some x \/ i = length hops /\ x = h).
  { intros i x. destruct (decide (i = length hops)) as [->|Hne].
    - rewrite Hlast, lookup_ge_None_2 by lia. naive_solver.
    - destruct (decide (i < length hops)%nat).
      + rewrite lookup_app_l by done. naive_solver.
      + rewrite !lookup_ge_None_2 by (rewrite ?length_app; cbn; lia). naive_solver. }
  assert (Hgap : gap_before (hops ++ [h]) (length (hops ++ [h])) = negb (hopHasCoords h)).
  { rewrite length_app, Nat.add_1_r. cbn [gap_before]. by rewrite Hlast. }
  rewrite Hgap. unfold community_hop. destruct (hopHasCoords h) eqn:Eh.
  - destruct (hopHasCoords_located h Eh) as (lat & lon & El & Eo & Ev & Ec). rewrite El, Eo. cbn [negb fst snd].
    exists (idx ++ [length hops]). split_and!; [| | |done].
    + apply Forall2_app; [eapply Forall2_impl; [exact Hf|]; intros; by apply stands_for_app|].
      constructor; [|constructor]. exists h. cbn [lw_kind lw_token lw_lat lw_lon lw_confidence].
      rewrite gap_before_app by lia. rewrite <- Hg. by split_and!.
    + apply StronglySorted_app_2; [|done|repeat constructor].
      intros i j Hi ->%list_elem_of_singleton. apply Hin in Hi as (x & Hx & _). by apply lookup_lt_Some in Hx.
    + intros i. rewrite elem_of_app, list_elem_of_singleton, Hin. split.
      * intros [(x & Hx & Hc)| ->]; [exists x|exists h]; by rewrite Hsnoc; auto.
      * intros (x & [Hx|[-> ->]]%Hsnoc & Hc); [left; by exists x|by right].
  - cbn [negb fst snd]. exists idx. split_and!; [|done| |done].
    + eapply Forall2_impl; [exact Hf|]. intros; by apply stands_for_app.
    + intros i. rewrite Hin. split; intros (x & Hx & Hc); exists x; [rewrite Hsnoc; auto|].
      apply Hsnoc in Hx as [Hx|[-> ->]]; [done|congruence].
Qed.

(** The end of the line: nothing without an ear, nothing more when the last point already stands
    on the ear, and else the ear, exact only when no hop was skipped on the way to it. *)
Inductive ear_end (p : CommunityPacket) (points : list LiveWaypoint) : list LiveWaypoint -> Prop :=
  | ear_end_none : p.(cp_ear) = None -> ear_end p points []
  | ear_end_met ear l : p.(cp_ear) = Some ear -> last points = Some l ->
      sameLocation l.(lw_lat) l.(lw_lon) ear.(ce_lat) ear.(ce_lon) = true -> ear_end p points []
  | ear_end_point ear w : p.(cp_ear) = Some ear ->
      w.(lw_kind) = WkEar -> w.(lw_token) = p.(cp_ear_id) -> w.(lw_lat) = ear.(ce_lat) -> w.(lw_lon) = ear.(ce_lon) ->
      w.(lw_confidence) = (if gap_before p.(cp_hops) (length p.(cp_hops)) then Probable else Exact) ->
      ear_end p points [w].

Lemma waypointsFromCommunity_split p :
  exists rest, waypointsFromCommunity p = (hop_points p.(cp_hops)).1 ++ rest
    /\ ear_end p (hop_points p.(cp_hops)).1 rest.
Proof.
  unfold waypointsFromCommunity. fold (hop_points (cp_hops p)).
  destruct (hop_points_spec (cp_hops p)) as (idx & _ & _ & _ & Hg).
  destruct (hop_points (cp_hops p)) as [ws b]. cbn [fst snd] in *.
  destruct (cp_ear p) as [ear|] eqn:Eear; [|exists []; rewrite app_nil_r; by split; [|constructor]].
  unfold appendEarWaypoint. cbn [le_lat le_lon].
  set (point := Build_LiveWaypoint _ _ _ _ _ _ _ _).
  assert (Hp : ear_end p ws [point]) by (apply (ear_end_point _ _ ear); cbn; rewrite <- ?Hg; done).
  destruct (last ws) as [l|] eqn:El; [|by exists [point]].
  destruct (num_eq (lw_lat l) (ce_lat ear) && num_eq (lw_lon l) (ce_lon ear)) eqn:Es; [|by exists [point]].
  exists []. rewrite app_nil_r. split; [done|]. by apply (ear_end_met _ _ ear l).
Qed.

Lemma stands_for_placed hops w i : stands_for hops w i ->
  w.(lw_confidence) <> Unresolved /\ isValidLocation (Some w.(lw_lat)) (Some w.(lw_lon)) = true.
Proof.
  intros (h & _ & Hh & _ & _ & Elat & Elon & ->).
  destruct (hopHasCoords_located h Hh) as (lat & lon & E1 & E2 & Hv & Hc).
  rewrite E1 in Elat. rewrite E2 in Elon. apply (inj Some) in Elat as <-, Elon as <-. split; [|done].
  unfold arrivalConfidence. destruct Hc as [-> | ->]; by destruct (gap_before _ _).
Qed.

Lemma ear_end_placed p points rest : ear_ok p.(cp_ear) -> ear_end p points rest ->
  Forall (fun w => w.(lw_confidence) <> Unresolved /\ isValidLocation (Some w.(lw_lat)) (Some w.(lw_lon)) = true) rest.
Proof.
  intros He [| |ear w Eear _ _ Elat Elon Ec]; [constructor..|]. rewrite Eear in He.
  destruct He as [(x & y & [= Ex] & [= Ey] & _ & _ & Hv) _]. constructor; [|constructor].
  split; [rewrite Ec; by destruct (gap_before _ _)|]. by rewrite Elat, Elon.
Qed.

(** C26: a community packet's line claims no more than its hops support: its points are the located
    hops, in the order of the path and each once, then the ear; no point is unresolved or at an
    invalid place; a hop's point is exact only when the hop is and the hop before it has a place,
    and the ear's only when the last hop has one. *)
Theorem waypoints_honest (json : option Json) (frame : CommunityPacket) (obs : LiveObservation)
    (Hframe : asCommunityPacket json = Some frame) (Hobs : observationFromCommunity json = Some obs) :
  exists points rest idx,
    obs.(lo_waypoints) = points ++ rest
    /\ Forall2 (stands_for frame.(cp_hops)) points idx /\ StronglySorted lt idx
    /\ (forall i, i ∈ idx <-> exists h, frame.(cp_hops) !! i = Some h /\ hopHasCoords h = true)
    /\ ear_end frame points rest
    /\ Forall (fun w => w.(lw_confidence) <> Unresolved
                        /\ isValidLocation (Some w.(lw_lat)) (Some w.(lw_lon)) = true) obs.(lo_waypoints).
Proof.
  unfold observationFromCommunity in Hobs. rewrite Hframe in Hobs. cbn [mbind option_bind] in Hobs.
  apply (inj Some) in Hobs as <-. cbn [lo_waypoints].
  destruct (waypointsFromCommunity_split frame) as (rest & E & Hend).
  destruct (hop_points_spec (cp_hops frame)) as (idx & Hf & Hs & Hin & _).
  exists (hop_points (cp_hops frame)).1, rest, idx. split_and!; try done. rewrite E. apply Forall_app. split.
  - apply Forall_forall. intros w Hw. apply list_elem_of_lookup in Hw as [k Hk].
    destruct (Forall2_lookup_l _ _ _ _ _ Hf Hk) as (i & _ & Hi). exact (stands_for_placed _ _ _ Hi).
  - eapply ear_end_placed; [|exact Hend]. exact (fo_ear _ (accepted_ok _ _ Hframe)).
Qed.

Definition live_hop_value (token confidence : jstr) (lat lon : Z) : Json :=
  Jobject [(js "token", Jstring token); (js "confidence", Jstring confidence);
    (js "lat", Jnumber (num_of_Z lat)); (js "lon", Jnumber (num_of_Z lon))].
Definition live_frame_value : Json :=
  Jobject [(js "v", Jnumber (num_of_Z 2)); (js "event_id", Jstring (js "e1")); (js "hash8", Jstring (js "90fd00aa"));
    (js "type", Jstring (js "advert"));
    (js "hops", Jarray [live_hop_value (js "ab12") (js "exact") 48 2;
       Jobject [(js "token", Jstring (js "cd34")); (js "confidence", Jstring (js "unresolved"))];
       live_hop_value (js "ef56") (js "exact") 49 3]);
    (js "ear", Jobject [(js "lat", Jnumber (num_of_Z 50)); (js "lon", Jnumber (num_of_Z 4)); (js "source", Jstring (js "iata"))]);
    (js "t", Jnumber (num_of_Z 1700000000)); (js "ear_id", Jstring (js "ear"))].

Lemma waypoints_honest_witness :
  exists frame obs, asCommunityPacket (Some live_frame_value) = Some frame
    /\ observationFromCommunity (Some live_frame_value) = Some obs
    /\ lw_confidence <$> obs.(lo_waypoints) = [Exact; Probable; Exact]
    /\ exists points rest, obs.(lo_waypoints) = points ++ rest /\ ear_end frame points rest.
Proof.
  assert (H : (fun o => lw_confidence <$> o.(lo_waypoints)) <$> observationFromCommunity (Some live_frame_value)
              = Some [Exact; Probable; Exact]) by (vm_compute; reflexivity).
  destruct (asCommunityPacket (Some live_frame_value)) as [frame|] eqn:Ef.
  2: { exfalso. revert H. unfold observationFromCommunity. rewrite Ef. done. }
  destruct (observationFromCommunity (Some live_frame_value)) as [obs|] eqn:Eo; [|done].
  apply (inj Some) in H. exists frame, obs. split_and!; try done.
  destruct (waypoints_honest _ _ _ Ef Eo) as (points & rest & idx & E & _ & _ & _ & Hend & _).
  by exists points, rest.
Defined.

(** ** Rays of a flood *)

Section rays.
Context `{JsMath}.
Implicit Types observations : list LiveObservation.

(** What an observation offers: its first hop, when it was not drawn yet and is not the origin. *)
Definition candidate (origin : option LiveOriginPin) (spawned : list LiveKey) (obs : LiveObservation)
    : option (LiveKey * (FanoutHop * LiveObservation)) :=
  first ← firstHopWaypoint obs;
  let hop := asFanoutHop first in
  if bool_decide (hop.(fh_key) ∈ spawned) then None else
  match origin with
  | Some o => if sameLocation o.(op_lat) o.(op_lon) hop.(fh_lat) hop.(fh_lon) then None
              else Some (hop.(fh_key), (hop, obs))
  | None => Some (hop.(fh_key), (hop, obs))
  end.

Definition hops_by_key (origin : option LiveOriginPin) (spawned : list LiveKey) observations :=
  foldl (add_first_hop origin spawned) [] observations.

Lemma add_first_hop_candidate origin spawned m obs :
  add_first_hop origin spawned m obs
  = match candidate origin spawned obs with
    | Some (k, v) => match om_get m k with Some _ => m | None => om_set m k v end
    | None => m
    end.
Proof.
  unfold add_first_hop, candidate. destruct (firstHopWaypoint obs) as [first|]; [|done]. cbn [mbind option_bind].
  destruct (bool_decide _); [done|].
  destruct origin as [o|]; [|done].
  destruct (sameLocation _ _ _ _); [by destruct (om_get m _)|done].
Qed.

Lemma candidate_key origin spawned obs k v : candidate origin spawned obs = Some (k, v) ->
  k ∉ spawned /\ v.2 = obs /\ k = v.1.(fh_key)
  /\ (exists first, firstHopWaypoint obs = Some first /\ v.1 = asFanoutHop first)
  /\ (forall o, origin = Some o -> sameLocation o.(op_lat) o.(op_lon) v.1.(fh_lat) v.1.(fh_lon) = false).
Proof.
  unfold candidate. destruct (firstHopWaypoint obs) as [first|] eqn:E; [|done]. cbn [mbind option_bind].
  case_bool_decide as Hk; [done|]. destruct origin as [o|].
  - destruct (sameLocation _ _ _ _) eqn:Es; [done|]. intros [= <- <-]. cbn [fst snd].
    split_and!; [done..|by exists first|by intros ? [= <-]].
  - intros [= <- <-]. cbn [fst snd]. split_and!; [done..|by exists first|done].
Qed.

(** The map holds, for each key, the first candidate under it. *)
Lemma hops_fold_get origin spawned observations m k :
  om_get (foldl (add_first_hop origin spawned) m observations) k
  = match om_get m k with
    | Some v => Some v
    | None => head (omap (fun obs => '(k', v) ← candidate origin spawned obs; if decide (k' = k) then Some v else None)
                         observations)
    end.
Proof.
  revert m. induction observations as [|obs l IH]; intros m; cbn [foldl omap list_omap].
  { by destruct (om_get m k). }
  rewrite IH, add_first_hop_candidate. destruct (candidate origin spawned obs) as [[k' v]|]; cbn; [|done].
  destruct (decide (k' = k)) as [->|Hne].
  - destruct (om_get m k) eqn:E; [by rewrite E|]. by rewrite om_get_set_eq.
  - destruct (om_get m k'); [done|]. by rewrite om_get_set_ne.
Qed.

Lemma hops_by_key_wf origin spawned observations : om_wf (hops_by_key origin spawned observations).
Proof.
  unfold hops_by_key. assert (Hm : om_wf (@nil (LiveKey * (FanoutHop * LiveObservation)))) by apply NoDup_nil_2.
  revert Hm. generalize (@nil (LiveKey * (FanoutHop * LiveObservation))).
  induction observations as [|obs l IH]; [done|]. intros m Hm. cbn. apply IH. rewrite add_first_hop_candidate.
  destruct (candidate _ _ _) as [[k v]|]; [|done]. destruct (om_get m k); [done|]. by apply om_wf_set.
Qed.

Lemma hops_by_key_get origin spawned observations k v :
  om_get (hops_by_key origin spawned observations) k = Some v ->
  exists obs, obs ∈ observations /\ candidate origin spawned obs = Some (k, v).
Proof.
  unfold hops_by_key. rewrite hops_fold_get. cbn [om_get]. intros E%head_Some_elem_of.
  apply list_elem_of_omap in E as (obs & Hin & E). exists obs. split; [done|].
  destruct (candidate _ _ _) as [[k' v']|]; [|done]. cbn in E. by destruct (decide (k' = k)) as [->|]; simplify_eq.
Qed.

Lemma hops_by_key_complete origin spawned observations obs k v :
  obs ∈ observations -> candidate origin spawned obs = Some (k, v) ->
  is_Some (om_get (hops_by_key origin spawned observations) k).
Proof.
  intros Hin E. unfold hops_by_key. rewrite hops_fold_get. cbn [om_get].
  assert (Hv : v ∈ omap (fun obs => '(k', v) ← candidate origin spawned obs; if decide (k' = k) then Some v else None)
                  observations).
  { apply list_elem_of_omap. exists obs. split; [done|]. rewrite E. cbn. by rewrite decide_True. }
  destruct (omap _ _); [by apply not_elem_of_nil in Hv|by eexists].
Qed.

Lemma candidate_more origin spawned spawned' obs k v :
  candidate origin spawned obs = Some (k, v) -> k ∉ spawned' -> candidate origin (spawned ++ spawned') obs = Some (k, v).
Proof.
  unfold candidate. destruct (firstHopWaypoint obs) as [first|]; [|done]. cbn [mbind option_bind].
  case_bool_decide as Hk; [done|]. intros E Hk'.
  assert (k = fh_key (asFanoutHop first)) as -> by (destruct origin as [o|]; [destruct (sameLocation _ _ _ _)|]; congruence).
  rewrite bool_decide_eq_false_2; [done|]. rewrite elem_of_app. by intros [?|?].
Qed.

Lemma candidate_fewer origin spawned spawned' obs k v :
  candidate origin (spawned ++ spawned') obs = Some (k, v) -> candidate origin spawned obs = Some (k, v) /\ k ∉ spawned'.
Proof.
  intros E. pose proof (candidate_key _ _ _ _ _ E) as (Hk & _). rewrite not_elem_of_app in Hk. split; [|tauto].
  revert E. unfold candidate. destruct (firstHopWaypoint obs) as [first|]; [|done]. cbn [mbind option_bind].
  case_bool_decide as Hk'; [done|]. rewrite bool_decide_eq_false_2; [done|]. by intros ?; apply Hk'; apply elem_of_app; left.
Qed.

Lemma hops_by_key_more origin spawned spawned' observations k v :
  om_get (hops_by_key origin (spawned ++ spawned') observations) k = Some v ->
  om_get (hops_by_key origin spawned observations) k = Some v /\ k ∉ spawned'.
Proof.
  intros E. pose proof (hops_by_key_get _ _ _ _ _ E) as (obs & _ & [_ Hk]%candidate_fewer). split; [|done].
  rewrite <- E. unfold hops_by_key. rewrite !hops_fold_get. cbn [om_get]. f_equal. clear E obs v.
  induction observations as [|obs l IH]; [done|]. cbn [omap list_omap]. rewrite IH.
  destruct (candidate origin spawned obs) as [[k1 v1]|] eqn:E1.
  - destruct (decide (k1 = k)) as [->|Hne].
    + by rewrite (candidate_more _ _ _ _ _ _ E1 Hk).
    + cbn. rewrite decide_False by done. destruct (candidate origin (spawned ++ spawned') obs) as [[k2 v2]|] eqn:E2; [|done].
      apply candidate_fewer in E2 as [E2 _]. rewrite E1 in E2. simplify_eq. cbn. by rewrite decide_False.
  - destruct (candidate origin (spawned ++ spawned') obs) as [[k2 v2]|] eqn:E2; [|done].
    apply candidate_fewer in E2 as [E2 _]. by rewrite E1 in E2.
Qed.

(** A ray is of a hop of the map that the drawn line does not cover. *)
Lemma fanout_rays_elem observations pins spawned o ray :
  bucket_origin observations pins = Some o ->
  ray ∈ (fanoutFromOrigin observations pins spawned).2 <->
  exists hop obs, om_get (hops_by_key (Some o) spawned observations) hop.(fh_key) = Some (hop, obs)
    /\ primaryPolylineCoversOriginHop obs o hop pins = false
    /\ ray = {| fl_key := hop.(fh_key); fl_origin := o; fl_hop := hop; fl_obs := obs |}.
Proof.
  intros Eo. unfold fanoutFromOrigin. rewrite Eo. fold (hops_by_key (Some o) spawned observations). cbn [snd].
  rewrite list_elem_of_omap. split.
  - intros ([k [hop obs]] & Hin & E). apply om_elem_get in Hin; [|apply hops_by_key_wf].
    destruct (primaryPolylineCoversOriginHop obs o hop pins) eqn:Ep; [done|]. apply (inj Some) in E as <-.
    exists hop, obs. split_and!; try done.
    destruct (hops_by_key_get _ _ _ _ _ Hin) as (obs' & _ & (_ & _ & -> & _)%candidate_key). exact Hin.
  - intros (hop & obs & E & Ep & ->). exists (hop.(fh_key), (hop, obs)).
    split; [by apply om_get_Some_elem|]. by rewrite Ep.
Qed.

Lemma fanout_keys_NoDup observations pins spawned :
  NoDup (fl_key <$> (fanoutFromOrigin observations pins spawned).2).
Proof.
  unfold fanoutFromOrigin. destruct (bucket_origin observations pins) as [o|]; [|by apply NoDup_nil_2].
  fold (hops_by_key (Some o) spawned observations). cbn [snd].
  pose proof (hops_by_key_wf (Some o) spawned observations) as Hwf.
  assert (Hk : Forall (fun p : LiveKey * (FanoutHop * LiveObservation) => p.1 = fh_key p.2.1)
                 (hops_by_key (Some o) spawned observations)).
  { apply Forall_forall. intros [k v] Hin%om_elem_get; [|done]. cbn.
    by destruct (hops_by_key_get _ _ _ _ _ Hin) as (? & _ & (_ & _ & -> & _)%candidate_key). }
  revert Hwf Hk. generalize (hops_by_key (Some o) spawned observations) as m. unfold om_wf, om_keys.
  induction m as [|[k [hop obs]] m IH]; cbn [omap list_omap fmap list_fmap fst]; [constructor|].
  intros [Hn Hd]%NoDup_cons [Hk Hf]%Forall_cons. cbn [fst snd] in Hk.
  destruct (primaryPolylineCoversOriginHop obs o hop pins); [by apply IH|].
  cbn [fmap list_fmap fl_key]. apply NoDup_cons. split; [|by apply IH]. rewrite <- Hk. intros Hin. apply Hn.
  apply list_elem_of_fmap in Hin as (ray & -> & ([k' [hop' obs']] & Hin & E)%list_elem_of_omap).
  destruct (primaryPolylineCoversOriginHop obs' o hop' pins); [done|]. apply (inj Some) in E as <-. cbn [fl_key].
  rewrite Forall_forall in Hf. specialize (Hf _ Hin). cbn [fst snd] in Hf. rewrite <- Hf.
  apply list_elem_of_fmap. by exists (k', (hop', obs')).
Qed.

(** The rays of a flood start at the origin of the first observation that names one and go to
    first hops of its observations: one ray a hop, never to the origin itself, to a hop drawn
    before or to one the drawn line reaches; every other first hop has its ray; and once they are
    drawn the same observations give none. *)
Theorem fanout_rays observations (pins : list LiveOriginPin) (spawned : list LiveKey) (o : LiveOriginPin)
    (Ho : bucket_origin observations pins = Some o) :
  let rays := (fanoutFromOrigin observations pins spawned).2 in
  NoDup (fl_key <$> rays)
  /\ Forall (fun ray => ray.(fl_origin) = o /\ ray.(fl_obs) ∈ observations /\ ray.(fl_key) ∉ spawned
       /\ (exists first, firstHopWaypoint ray.(fl_obs) = Some first /\ ray.(fl_hop) = asFanoutHop first)
       /\ sameLocation o.(op_lat) o.(op_lon) ray.(fl_hop).(fh_lat) ray.(fl_hop).(fh_lon) = false
       /\ primaryPolylineCoversOriginHop ray.(fl_obs) o ray.(fl_hop) pins = false) rays
  /\ (forall obs first, obs ∈ observations -> firstHopWaypoint obs = Some first ->
        let hop := asFanoutHop first in
        hop.(fh_key) ∈ spawned
        \/ sameLocation o.(op_lat) o.(op_lon) hop.(fh_lat) hop.(fh_lon) = true
        \/ (exists ray, ray ∈ rays /\ ray.(fl_key) = hop.(fh_key))
        \/ exists obs' first', obs' ∈ observations /\ firstHopWaypoint obs' = Some first'
             /\ (asFanoutHop first').(fh_key) = hop.(fh_key)
             /\ primaryPolylineCoversOriginHop obs' o (asFanoutHop first') pins = true)
  /\ (fanoutFromOrigin observations pins (spawned ++ (fl_key <$> rays))).2 = [].
Proof.
  cbv zeta. split_and!.
  - apply fanout_keys_NoDup.
  - apply Forall_forall. intros ray (hop & obs & E & Ep & ->)%(fanout_rays_elem _ _ _ _ _ Ho).
    destruct (hops_by_key_get _ _ _ _ _ E) as (obs' & Hin & (Hk & Eobs & _ & Hf & Hs)%candidate_key).
    cbn [fst snd] in *. subst obs'. split_and!; try done. by apply Hs.
  - intros obs first Hin Ef. destruct (candidate (Some o) spawned obs) as [[k [hop ob]]|] eqn:Ec.
    + right; right. pose proof (candidate_key _ _ _ _ _ Ec) as (_ & _ & Ek & (first' & Ef' & Eh) & _).
      rewrite Ef in Ef'. apply (inj Some) in Ef' as <-. cbn [fst] in *. subst hop k.
      destruct (hops_by_key_complete _ _ _ _ _ _ Hin Ec) as [[hop' obs'] E].
      destruct (hops_by_key_get _ _ _ _ _ E) as (ob' & Hin' & (_ & Eob & Ek & (first' & Ef' & Eh) & _)%candidate_key).
      cbn [fst snd] in *. subst ob'. destruct (primaryPolylineCoversOriginHop obs' o hop' pins) eqn:Ep.
      * right. exists obs', first'. by rewrite <- Eh.
      * left. exists {| fl_key := hop'.(fh_key); fl_origin := o; fl_hop := hop'; fl_obs := obs' |}.
        split; [apply (fanout_rays_elem _ _ _ _ _ Ho); exists hop', obs'; by rewrite <- Ek|by symmetry].
    + revert Ec. unfold candidate. rewrite Ef. cbn [mbind option_bind]. case_bool_decide; [by left|].
      destruct (sameLocation _ _ _ _) eqn:Es; [by right; left|done].
  - apply elem_of_nil_inv. intros ray (hop & obs & E & Ep & ->)%(fanout_rays_elem _ _ _ _ _ Ho).
    apply hops_by_key_more in E as [E Hk]. apply Hk.
    apply list_elem_of_fmap. eexists. split; [|apply (fanout_rays_elem _ _ _ _ _ Ho); by exists hop, obs]. done.
Qed.
End rays.

(** Two observations of one flood, first heard through two located hops. *)
Definition ray_point (kind : WaypointKind) (token : jstr) (lat lon : Z) : LiveWaypoint :=
  {| lw_lat := num_of_Z lat; lw_lon := num_of_Z lon; lw_token := token; lw_kind := kind; lw_confidence := Exact;
     lw_reason := None; lw_label := None; lw_pubkey := None |}.
Definition ray_observation (id : jstr) (advert : option jstr) (points : list LiveWaypoint) : LiveObservation :=
  {| lo_id := id; lo_hash8 := js "90fd00aa"; lo_packetHash := None; lo_source := SrcCommunity; lo_type := js "advert";
     lo_snr := None; lo_iata := None; lo_t := num_of_Z 0; lo_earId := js "ear"; lo_ear := None; lo_waypoints := points;
     lo_routeKind := RkFlood; lo_advertPubkey := advert; lo_srcHash := None;
     lo_originGps := None |}.
Definition ray_pin : LiveOriginPin :=
  {| op_public_key := js "aabbccddeeff00112233"; op_lat := num_of_Z 48; op_lon := num_of_Z 2 |}.
Definition ray_observations : list LiveObservation :=
  [ray_observation (js "a") (Some (js "aabbccddeeff00112233")) [ray_point WkHop (js "ab12") 49 3];
   ray_observation (js "b") None [ray_point WkHop (js "cd34") 50 4];
   ray_observation (js "c") None [ray_point WkHop (js "cd34") 50 4]].
#[local] Existing Instance example_math.
Lemma fanout_rays_witness :
  bucket_origin ray_observations [ray_pin] = Some ray_pin
  /\ (fun r => r.(fl_hop).(fh_token)) <$> (fanoutFromOrigin ray_observations [ray_pin] []).2 = [js "cd34"]
  /\ (fanoutFromOrigin ray_observations [ray_pin]
       ([] ++ (fl_key <$> (fanoutFromOrigin ray_observations [ray_pin] []).2))).2 = [].
Proof.
  assert (H : bucket_origin ray_observations [ray_pin] = Some ray_pin) by (vm_compute; reflexivity).
  split_and!; [done|vm_compute; reflexivity|].
  destruct (fanout_rays ray_observations [ray_pin] [] ray_pin H) as (_ & _ & _ & E). exact E.
Defined.
