(* ===== verification/ApiErrors.v ===== *)
(** Requests that fail: [fetchJson] and the errors of [api.ts], and the notice of an expired
    session of [utils/edgeSession.ts].

    A request ends in what [fetch] threw or in a response; the probe of the session is an answer
    of its own. [JSON.parse], the origin of a URL, [String] of a value and [i18n.t] are
    parameters. *)
From S2P Require Import Prelude JsString JsCollections JsNum Json.

(** ** Errors *)

Record ApiError := { ae_message : jstr; ae_status : Z; ae_detail : option Json }.

(** What a handler can catch: an [ApiError], another [Error] with its name, or any value, as
    [String] prints it. *)
Inductive JsError :=
  | ErrApi (e : ApiError)
  | ErrError (name message : jstr)
  | ErrOther (printed : jstr).

Definition isAbortError (err : JsError) : bool :=
  match err with
  | ErrApi _ => false
  | ErrError name _ => name ≟ js "AbortError"
  | ErrOther _ => false
  end.

(** [value || other] on values. *)
Definition truthy_value (v : option Json) : option Json :=
  match v with
  | None | Some Jnull | Some (Jbool false) | Some (Jstring []) => None
  | Some (Jnumber x) => if num_eq x (num_of_Z 0) || negb (num_eq x x) then None else v
  | _ => v
  end.

Definition getApiErrorCode (detail : option Json) : option (jstr * list (jstr * Json)) :=
  match detail with
  | Some (Jobject record) =>
    match om_get record (js "code") with
    | Some (Jstring code) =>
      if len code =? 0 then None
      else Some (code, match om_get record (js "params") with Some (Jobject params) => params | _ => [] end)
    | _ => None
    end
  | _ => None
  end.

Section translated.
Context (t : jstr -> list (jstr * Json) -> jstr).

Definition formatApiError (err : JsError) : jstr :=
  match err with
  | ErrApi e =>
    match getApiErrorCode e.(ae_detail) with
    | Some (code, params) =>
      let key := js "errors." ++ code in
      let translated := t key params in
      if negb (translated ≟ key) then translated else e.(ae_message)
    | None => e.(ae_message)
    end
  | ErrError _ message => message
  | ErrOther printed => printed
  end.
End translated.

(** ** Responses *)

Record HttpResponse := {
  res_status : Z;
  res_statusText : jstr;
  res_redirected : bool;
  res_url : jstr;
  res_text : jstr;
}.
Definition res_ok (res : HttpResponse) : bool := (200 <=? res.(res_status)) && (res.(res_status) <=? 299).

Section requests.
Context (json_parse : jstr -> option Json) (json_String : Json -> jstr).
Context (origin_of : jstr -> option jstr) (location_origin syntax_message : jstr).

(** [super(message)] converts a message that is not a string. *)
Definition as_message (v : Json) : jstr := match v with Jstring s => s | _ => json_String v end.

Definition apiErrorFrom (res : HttpResponse) : ApiError :=
  let errorText := res.(res_text) in
  let errorMessage := if len errorText =? 0 then res.(res_statusText) else errorText in
  let unread := {| ae_message := errorMessage; ae_status := res.(res_status); ae_detail := Some (Jstring errorText) |} in
  match json_parse errorText ≫= (fun errorJson => field (Some errorJson) (js "detail")) with
  | None | Some None => unread
  | Some (Some detail) =>
    let property k :=
      match detail with Jobject fields => truthy_value (om_get fields k) | _ => None end in
    let message :=
      match detail with
      | Jstring s => s
      | _ => match property (js "message") with
             | Some m => as_message m
             | None => match property (js "reason") with Some r => as_message r | None => errorText end
             end
      end in
    {| ae_message := message; ae_status := res.(res_status); ae_detail := Some detail |}
  end.

Definition isEdgeRedirect (res : HttpResponse) : bool :=
  if negb res.(res_redirected) then false
  else match origin_of res.(res_url) with Some o => negb (o ≟ location_origin) | None => false end.

(** What the probe of the session answered: the type of its response, or nothing. *)
Definition edgeSessionLost (probe : option jstr) : bool :=
  match probe with Some type => type ≟ js "opaqueredirect" | None => false end.

(** The page's notice: whether it was given, and how often its listeners were called. *)
Record EdgeSession := { es_alreadyReported : bool; es_notices : Z }.
Definition reportEdgeSessionExpired (s : EdgeSession) : EdgeSession :=
  if s.(es_alreadyReported) then s
  else {| es_alreadyReported := true; es_notices := s.(es_notices) + 1 |}.

(** [fetchJson]: the value or the error, and the page's notice. [res.json()] throws a
    [SyntaxError] when the body does not parse. *)
Definition fetchJson (sent : JsError + HttpResponse) (probe : option jstr) (s : EdgeSession)
    : (JsError + Json) * EdgeSession :=
  match sent with
  | inl err =>
    if isAbortError err then (inl err, s)
    else (inl err, if edgeSessionLost probe then reportEdgeSessionExpired s else s)
  | inr res =>
    if isEdgeRedirect res then
      (inl (ErrApi {| ae_message := js "Authentication required"; ae_status := res.(res_status); ae_detail := None |}),
       reportEdgeSessionExpired s)
    else if negb (res_ok res) then (inl (ErrApi (apiErrorFrom res)), s)
    else match json_parse res.(res_text) with
         | Some v => (inr v, s)
         | None => (inl (ErrError (js "SyntaxError") syntax_message), s)
         end
  end.
End requests.

(** Failed requests: what the reader is told, and that an expired session is told once. *)

Section requests.
Context (json_parse : jstr -> option Json) (json_String : Json -> jstr).
Context (origin_of : jstr -> option jstr) (location_origin syntax_message : jstr).
Notation fetch := (fetchJson json_parse json_String origin_of location_origin syntax_message).

(** The [detail] of a body: [None] when it does not parse or is [null], [Some None] without one. *)
Definition detail_of (res : HttpResponse) : option (option Json) :=
  json_parse res.(res_text) ≫= fun body => field (Some body) (js "detail").

(** The code an error's detail carries, with its translation. *)
Definition translation (t : jstr -> list (jstr * Json) -> jstr) (detail : option Json) : option jstr :=
  '(code, params) ← getApiErrorCode detail;
  let key := js "errors." ++ code in
  if t key params ≟ key then None else Some (t key params).

Lemma formatApiError_eq t e :
  formatApiError t (ErrApi e) = default e.(ae_message) (translation t e.(ae_detail)).
Proof.
  unfold formatApiError, translation. destruct (getApiErrorCode (ae_detail e)) as [[code params]|]; [|done].
  cbn [mbind option_bind]. by case_bool_decide.
Qed.

(** A refused request tells the reader what the server said: the translation of the code it
    gave when there is one, else its message, else its reason, else the body as it came, or the
    status line when the body is empty; the error keeps the response's status, and the request
    leaves the notice of an expired session alone. *)
Theorem failed_response_shown (t : jstr -> list (jstr * Json) -> jstr) (res : HttpResponse) (probe : option jstr)
    (s : EdgeSession)
    (Hhere : isEdgeRedirect origin_of location_origin res = false) (Hfailed : res_ok res = false) :
  let raw := if len res.(res_text) =? 0 then res.(res_statusText) else res.(res_text) in
  exists e, fetch (inr res) probe s = (inl (ErrApi e), s) /\ e.(ae_status) = res.(res_status)
  /\ formatApiError t (ErrApi e) =
     match detail_of res with
     | None | Some None => raw
     | Some (Some (Jstring message)) => message
     | Some (Some (Jobject fields)) =>
       default (match truthy_value (om_get fields (js "message")), truthy_value (om_get fields (js "reason")) with
                | Some m, _ => as_message json_String m
                | None, Some r => as_message json_String r
                | None, None => res.(res_text)
                end) (translation t (Some (Jobject fields)))
     | Some (Some _) => res.(res_text)
     end.
Proof.
  cbv zeta. unfold fetchJson. rewrite Hhere, Hfailed. cbn [negb]. eexists. split; [reflexivity|].
  rewrite formatApiError_eq. unfold apiErrorFrom, detail_of. destruct (json_parse (res_text res) ≫= _) as [[detail|]|];
    cbn [ae_message ae_status ae_detail]; (split; [done|]); [|done..].
  by destruct detail.
Qed.

(** The notice of an expired session is given once, however many requests find it so. *)
Lemma edge_notice_once (requests : list ((JsError + HttpResponse) * option jstr)) s :
  s = {| es_alreadyReported := false; es_notices := 0 |} ->
  let s' := foldl (fun s r => (fetch r.1 r.2 s).2) s requests in
  s'.(es_notices) = if s'.(es_alreadyReported) then 1 else 0.
Proof.
  intros ->. cbv zeta. induction requests as [|[sent probe] l IH] using rev_ind; [done|].
  rewrite foldl_app. cbn [foldl fst snd]. set (s1 := foldl _ _ l) in *. clearbody s1.
  assert (Hr : es_notices (reportEdgeSessionExpired s1) = if es_alreadyReported (reportEdgeSessionExpired s1) then 1 else 0).
  { unfold reportEdgeSessionExpired. destruct (es_alreadyReported s1) eqn:E; [by rewrite E|]. cbn. lia. }
  unfold fetchJson. destruct sent as [err|res].
  - destruct (isAbortError err); [done|]. cbn [snd]. by destruct (edgeSessionLost probe).
  - destruct (isEdgeRedirect _ _ _); [done|]. destruct (negb _); [done|]. by destruct (json_parse _).
Qed.
End requests.

(** A body that parses to a refusal with a code. *)
Definition refused_body : Json :=
  Jobject [(js "detail", Jobject [(js "code", Jstring (js "radio_busy")); (js "message", Jstring (js "busy"))])].
Definition refused_response : HttpResponse :=
  {| res_status := 409; res_statusText := js "Conflict"; res_redirected := false; res_url := js "/x"; res_text := js "{}" |}.

Lemma failed_response_shown_witness :
  exists e, (fetchJson (fun _ => Some refused_body) (fun _ => []) (fun _ => None) (js "o") (js "bad") (inr refused_response) None
     {| es_alreadyReported := false; es_notices := 0 |}).1 = inl (ErrApi e)
  /\ formatApiError (fun key _ => key ++ js "!") (ErrApi e) = js "errors.radio_busy!".
Proof.
  destruct (failed_response_shown (fun _ => Some refused_body) (fun _ => []) (fun _ => None) (js "o") (js "bad")
    (fun key _ => key ++ js "!") refused_response None {| es_alreadyReported := false; es_notices := 0 |} eq_refl eq_refl)
    as (e & E1 & _ & E3).
  exists e. split; [by rewrite E1|]. rewrite E3. vm_compute. reflexivity.
Defined.
