(* ===== verification/RepeaterDashboard.v ===== *)
(** The dashboard of a repeater: [hooks/useRepeaterDashboard.ts], what it keeps between visits
    ([utils/repeaterDashboardStore.ts], [utils/repeaterSession.ts]) and the attempt it reports
    ([utils/serverLoginState.ts]).

    The hook is a record of its state and refs, with the asynchronous calls that are under way:
    a call waits for a reply or for its retry timer, and its record says where it goes on. An
    event runs to the next [await] of the call it wakes; React then renders and the effects run.
    The dashboard is keyed by its conversation, which does not change while it is mounted.

    The values a repeater answers are never inspected: they are JSON values. What is kept in
    [localStorage] is the value that was written, storage that throws is not modelled.
    [Date.now()] is an argument and [i18n.t] the parameter [t]. *)
From S2P Require Import Prelude JsString JsCollections JsNum Json ApiErrors Types.

(** ** Panes *)

Inductive PaneName :=
  | PnStatus | PnNodeInfo | PnNeighbors | PnAcl | PnRadioSettings | PnAdvertIntervals | PnOwnerInfo
  | PnLppTelemetry | PnRegions.
#[export] Instance PaneName_eq_dec : EqDecision PaneName.
Proof. solve_decision. Defined.

(** [Record<PaneName, A>] *)
Record Panes (A : Type) := {
  pn_status : A; pn_nodeInfo : A; pn_neighbors : A; pn_acl : A; pn_radioSettings : A;
  pn_advertIntervals : A; pn_ownerInfo : A; pn_lppTelemetry : A; pn_regions : A;
}.
Arguments Build_Panes {A} _ _ _ _ _ _ _ _ _.
Arguments pn_status {A} _. Arguments pn_nodeInfo {A} _. Arguments pn_neighbors {A} _.
Arguments pn_acl {A} _. Arguments pn_radioSettings {A} _. Arguments pn_advertIntervals {A} _.
Arguments pn_ownerInfo {A} _. Arguments pn_lppTelemetry {A} _. Arguments pn_regions {A} _.

Definition pane_get {A} (m : Panes A) (p : PaneName) : A :=
  match p with
  | PnStatus => m.(pn_status) | PnNodeInfo => m.(pn_nodeInfo) | PnNeighbors => m.(pn_neighbors)
  | PnAcl => m.(pn_acl) | PnRadioSettings => m.(pn_radioSettings) | PnAdvertIntervals => m.(pn_advertIntervals)
  | PnOwnerInfo => m.(pn_ownerInfo) | PnLppTelemetry => m.(pn_lppTelemetry) | PnRegions => m.(pn_regions)
  end.
Definition panes_of {A} (f : PaneName -> A) : Panes A :=
  Build_Panes (f PnStatus) (f PnNodeInfo) (f PnNeighbors) (f PnAcl) (f PnRadioSettings) (f PnAdvertIntervals)
    (f PnOwnerInfo) (f PnLppTelemetry) (f PnRegions).
(** [{ ...m, [p]: v }] *)
Definition pane_set {A} (m : Panes A) (p : PaneName) (v : A) : Panes A :=
  panes_of (fun q => if q ≟ p then v else pane_get m q).

Record PaneState := {
  ps_loading : bool;
  ps_attempt : Z;
  ps_error : option jstr;
  ps_queued : option bool;
  ps_fetched_at : option Z;
}.
#[export] Instance PaneState_eta : Eta PaneState :=
  fun r => Build_PaneState r.(ps_loading) r.(ps_attempt) r.(ps_error) r.(ps_queued) r.(ps_fetched_at).

Definition PaneData := Panes (option Json).
Definition PaneStates := Panes PaneState.

Definition INITIAL_PANE_STATE : PaneState :=
  {| ps_loading := false; ps_attempt := 0; ps_error := None; ps_queued := None; ps_fetched_at := None |}.
Definition createInitialPaneStates : PaneStates := panes_of (fun _ => INITIAL_PANE_STATE).
Definition createInitialPaneData : PaneData := panes_of (fun _ => None).
Definition normalizePaneStates (paneStates : PaneStates) : PaneStates :=
  panes_of (fun p => (pane_get paneStates p) <| ps_loading := false |>).

Definition API_PANE_TO_STATE (apiPane : jstr) : option PaneName :=
  om_get [(js "status", PnStatus); (js "node_info", PnNodeInfo); (js "neighbors", PnNeighbors); (js "acl", PnAcl);
    (js "radio_settings", PnRadioSettings); (js "advert_intervals", PnAdvertIntervals); (js "owner_info", PnOwnerInfo);
    (js "lpp_telemetry", PnLppTelemetry); (js "regions", PnRegions)] apiPane.

Definition PANE_LABEL_KEYS (p : PaneName) : jstr :=
  match p with
  | PnStatus => js "repeater.telemetry" | PnNodeInfo => js "repeater.nodeInfo" | PnNeighbors => js "repeater.neighbors"
  | PnRadioSettings => js "repeater.radioSettings" | PnAcl => js "repeater.acl"
  | PnAdvertIntervals => js "repeater.advertIntervals" | PnOwnerInfo => js "repeater.ownerInfo"
  | PnLppTelemetry => js "repeater.lppSensors" | PnRegions => js "repeater.regions"
  end.

Definition MAX_RETRIES : Z := 3.
Definition MAX_CACHED_REPEATERS : Z := 20.
Definition MAX_STORED_CONSOLE_ENTRIES : Z := 100.

(** ** Login attempts *)

Inductive ServerLoginMethod := MethodPassword | MethodBlank.
Inductive LoginOutcome := Confirmed | NotConfirmed | RequestFailed.
Record ServerLoginAttempt := {
  la_method : ServerLoginMethod;
  la_outcome : LoginOutcome;
  la_summary : jstr;
  la_details : option jstr;
  la_heardBack : bool;
  la_at : Z;
}.
Record RepeaterLoginResponse := { lr_status : jstr; lr_authenticated : bool; lr_message : option jstr }.

Section attempts.
Context (t : jstr -> list (jstr * Json) -> jstr).

Definition getServerLoginMethodLabel (method : ServerLoginMethod) (entity : jstr) : jstr :=
  match method with
  | MethodPassword => t (entity ++ js ".loginMethodPassword") []
  | MethodBlank => t (entity ++ js ".loginMethodExisting") []
  end.

Definition buildServerLoginAttemptFromResponse (method : ServerLoginMethod) (result : RepeaterLoginResponse)
    (entity : jstr) (now : Z) : ServerLoginAttempt :=
  let methodLabel := getServerLoginMethodLabel method entity in
  if result.(lr_authenticated) then
    {| la_method := method; la_outcome := Confirmed; la_summary := t (entity ++ js ".loginConfirmedSummary") [];
       la_details := None; la_heardBack := true; la_at := now |}
  else if result.(lr_status) ≟ js "timeout" then
    {| la_method := method; la_outcome := NotConfirmed; la_summary := t (entity ++ js ".loginUnconfirmedSummary") [];
       la_details := Some (default (t (entity ++ js ".loginTimeoutDetail") [(js "method", Jstring methodLabel)])
                   result.(lr_message));
       la_heardBack := false; la_at := now |}
  else
    {| la_method := method; la_outcome := NotConfirmed; la_summary := t (entity ++ js ".loginNotConfirmedSummary") [];
       la_details := Some (default (t (entity ++ js ".loginRespondedUnconfirmedDetail") [(js "method", Jstring methodLabel)])
                   result.(lr_message));
       la_heardBack := true; la_at := now |}.

Definition buildServerLoginAttemptFromError (method : ServerLoginMethod) (message entity : jstr) (now : Z)
    : ServerLoginAttempt :=
  let methodLabel := getServerLoginMethodLabel method entity in
  {| la_method := method; la_outcome := RequestFailed; la_summary := t (entity ++ js ".loginRequestFailedSummary") [];
     la_details := Some (t (entity ++ js ".loginRequestFailedDetail")
                          [(js "method", Jstring methodLabel); (js "message", Jstring message)]);
     la_heardBack := false; la_at := now |}.
End attempts.

Inductive LoginTone := ToneSuccess | ToneWarning | ToneDestructive | ToneMuted.
Definition getServerLoginAttemptTone (attempt : option ServerLoginAttempt) : LoginTone :=
  match attempt with
  | None => ToneMuted
  | Some a => match a.(la_outcome) with
              | Confirmed => ToneSuccess | NotConfirmed => ToneWarning | RequestFailed => ToneDestructive
              end
  end.

(** ** What is kept between visits *)

Record ConsoleEntry := { co_command : jstr; co_response : jstr; co_timestamp : Z; co_outgoing : bool }.

Record PersistedDashboard := {
  pd_savedAt : Z; pd_loggedIn : bool; pd_paneData : PaneData; pd_paneStates : PaneStates;
}.
Record DashboardCacheEntry := {
  dc_loggedIn : bool;
  dc_loginError : option jstr;
  dc_lastLoginAttempt : option ServerLoginAttempt;
  dc_paneData : PaneData;
  dc_paneStates : PaneStates;
  dc_consoleHistory : list ConsoleEntry;
}.

#[export] Instance DashboardCacheEntry_eta : Eta DashboardCacheEntry :=
  fun r => Build_DashboardCacheEntry r.(dc_loggedIn) r.(dc_loginError) r.(dc_lastLoginAttempt) r.(dc_paneData)
    r.(dc_paneStates) r.(dc_consoleHistory).

(** The module's cache, in the order of its keys, and the entries of [localStorage] by public key. *)
Record DashboardStorage := {
  sg_cache : list (jstr * DashboardCacheEntry);
  sg_dashboards : gmap jstr PersistedDashboard;
  sg_sessions : gmap jstr Z;
  sg_consoles : gmap jstr (list ConsoleEntry);
}.
#[export] Instance DashboardStorage_eta : Eta DashboardStorage :=
  fun r => Build_DashboardStorage r.(sg_cache) r.(sg_dashboards) r.(sg_sessions) r.(sg_consoles).

Definition DASHBOARD_TTL_MS : Z := 24 * 60 * 60 * 1000.
Definition SESSION_TTL_MS : Z := 12 * 60 * 60 * 1000.

Definition loadPersistedDashboard (publicKey : option jstr) (now : Z) (sg : DashboardStorage)
    : option PersistedDashboard * DashboardStorage :=
  match truthy publicKey with
  | None => (None, sg)
  | Some key =>
    match sg.(sg_dashboards) !! key with
    | None => (None, sg)
    | Some parsed =>
      if DASHBOARD_TTL_MS <? now - parsed.(pd_savedAt)
      then (None, sg <| sg_dashboards := delete key sg.(sg_dashboards) |>)
      else (Some parsed, sg)
    end
  end.
Definition persistDashboard (publicKey : option jstr) (entry : DashboardCacheEntry) (now : Z) (sg : DashboardStorage)
    : DashboardStorage :=
  match truthy publicKey with
  | None => sg
  | Some key =>
    sg <| sg_dashboards := <[key := {| pd_savedAt := now; pd_loggedIn := entry.(dc_loggedIn);
            pd_paneData := entry.(dc_paneData); pd_paneStates := entry.(dc_paneStates) |}]> sg.(sg_dashboards) |>
  end.
Definition forgetPersistedDashboard (publicKey : option jstr) (sg : DashboardStorage) : DashboardStorage :=
  match truthy publicKey with
  | None => sg
  | Some key => sg <| sg_dashboards := delete key sg.(sg_dashboards) |>
  end.

Definition rememberRepeaterSession (publicKey : option jstr) (now : Z) (sg : DashboardStorage) : DashboardStorage :=
  match truthy publicKey with
  | None => sg
  | Some key => sg <| sg_sessions := <[key := now]> sg.(sg_sessions) |>
  end.
Definition hasRememberedRepeaterSession (publicKey : option jstr) (now : Z) (sg : DashboardStorage)
    : bool * DashboardStorage :=
  match truthy publicKey with
  | None => (false, sg)
  | Some key =>
    match sg.(sg_sessions) !! key with
    | None => (false, sg)
    | Some at_ =>
      if SESSION_TTL_MS <? now - at_ then (false, sg <| sg_sessions := delete key sg.(sg_sessions) |>)
      else (true, sg)
    end
  end.
Definition forgetRepeaterSession (publicKey : option jstr) (sg : DashboardStorage) : DashboardStorage :=
  match truthy publicKey with
  | None => sg
  | Some key => sg <| sg_sessions := delete key sg.(sg_sessions) |>
  end.

Definition loadStoredConsoleHistory (publicKey : jstr) (sg : DashboardStorage) : list ConsoleEntry :=
  slice_from (default [] (sg.(sg_consoles) !! publicKey)) (- MAX_STORED_CONSOLE_ENTRIES).
Definition saveStoredConsoleHistory (publicKey : jstr) (history : list ConsoleEntry) (sg : DashboardStorage)
    : DashboardStorage :=
  sg <| sg_consoles := <[publicKey := slice_from history (- MAX_STORED_CONSOLE_ENTRIES)]> sg.(sg_consoles) |>.

Definition getCachedState (publicKey : option jstr) (now : Z) (sg : DashboardStorage)
    : option DashboardCacheEntry * DashboardStorage :=
  match truthy publicKey with
  | None => (None, sg)
  | Some key =>
    match om_get sg.(sg_cache) key with
    | None =>
      let '(persisted, sg) := loadPersistedDashboard (Some key) now sg in
      match persisted with
      | None => (None, sg)
      | Some persisted =>
        (Some {| dc_loggedIn := persisted.(pd_loggedIn); dc_loginError := None; dc_lastLoginAttempt := None;
                 dc_paneData := persisted.(pd_paneData); dc_paneStates := normalizePaneStates persisted.(pd_paneStates);
                 dc_consoleHistory := loadStoredConsoleHistory key sg |}, sg)
      end
    | Some cached =>
      (Some {| dc_loggedIn := cached.(dc_loggedIn); dc_loginError := cached.(dc_loginError);
               dc_lastLoginAttempt := cached.(dc_lastLoginAttempt); dc_paneData := cached.(dc_paneData);
               dc_paneStates := normalizePaneStates cached.(dc_paneStates);
               dc_consoleHistory := cached.(dc_consoleHistory) |},
       sg <| sg_cache := om_set (om_delete sg.(sg_cache) key) key cached |>)
    end
  end.

(** [if (lruKey)]: the empty key is never deleted. *)
Definition evict_dashboard (cache : list (jstr * DashboardCacheEntry)) : list (jstr * DashboardCacheEntry) :=
  if MAX_CACHED_REPEATERS <? len cache then
    match truthy (om_first_key cache) with Some lruKey => om_delete cache lruKey | None => cache end
  else cache.
Definition cacheState (publicKey : jstr) (entry : DashboardCacheEntry) (now : Z) (sg : DashboardStorage)
    : DashboardStorage :=
  let sg := persistDashboard (Some publicKey) entry now sg in
  let kept := {| dc_loggedIn := entry.(dc_loggedIn); dc_loginError := entry.(dc_loginError);
                 dc_lastLoginAttempt := entry.(dc_lastLoginAttempt); dc_paneData := entry.(dc_paneData);
                 dc_paneStates := normalizePaneStates entry.(dc_paneStates);
                 dc_consoleHistory := entry.(dc_consoleHistory) |} in
  sg <| sg_cache := evict_dashboard (om_set (om_delete sg.(sg_cache) publicKey) publicKey kept) |>.

(** ** The hook *)

(** A run of Load All: the panes done once the current one returns, the panes after it, and the
    option its [refreshPane] was made with. *)
Record LoadAllRun := { al_done : Z; al_rest : list PaneName; al_hasAdvertLocation : bool }.

(** A call of [runAttempts] at its [await]: on the reply, or on the retry timer. [pc_then] is the
    pane to run next, when this one is prefetched for it; [pc_all] the Load All it serves. *)
Record PaneCall := {
  pc_key : jstr;
  pc_pane : PaneName;
  pc_attempt : Z;
  pc_delaying : bool;
  pc_then : option PaneName;
  pc_all : option LoadAllRun;
}.
#[export] Instance PaneCall_eta : Eta PaneCall :=
  fun r => Build_PaneCall r.(pc_key) r.(pc_pane) r.(pc_attempt) r.(pc_delaying) r.(pc_then) r.(pc_all).

Inductive DashCall :=
  | CallPane (c : PaneCall)
  | CallLogin (key : jstr) (method : ServerLoginMethod)
  | CallConsole (key command : jstr) (now : Z).

Inductive DashEffect :=
  | FetchPane (key : jstr) (pane : PaneName)
  | LoginRequest (key password : jstr)
  | CommandRequest (key command : jstr)
  | ToastError (title description : jstr).

(** [da_stale*] say which dependencies of the effects were set since they last ran. *)
Record Dash := {
  da_publicKey : option jstr;
  da_hasAdvertLocation : bool;
  da_loggedIn : bool;
  da_loginLoading : bool;
  da_loginError : option jstr;
  da_lastLoginAttempt : option ServerLoginAttempt;
  da_paneData : PaneData;
  da_paneStates : PaneStates;
  da_paneDataRef : PaneData;
  da_paneStatesRef : PaneStates;
  da_consoleHistory : list ConsoleEntry;
  da_consoleLoading : bool;
  da_activeIdRef : option jstr;
  da_mountedRef : bool;
  da_queuedPanes : list PaneName;
  da_loadAllProgress : option (Z * Z);
  da_cancelLoadAllRef : bool;
  da_hydrating : bool;
  da_calls : list (Z * DashCall);
  da_nextCall : Z;
  da_staleData : bool;
  da_staleStates : bool;
  da_staleRest : bool;
  da_log : list DashEffect;
}.
#[export] Instance Dash_eta : Eta Dash :=
  fun r => Build_Dash r.(da_publicKey) r.(da_hasAdvertLocation) r.(da_loggedIn) r.(da_loginLoading) r.(da_loginError)
    r.(da_lastLoginAttempt) r.(da_paneData) r.(da_paneStates) r.(da_paneDataRef) r.(da_paneStatesRef)
    r.(da_consoleHistory) r.(da_consoleLoading) r.(da_activeIdRef) r.(da_mountedRef) r.(da_queuedPanes)
    r.(da_loadAllProgress) r.(da_cancelLoadAllRef) r.(da_hydrating) r.(da_calls) r.(da_nextCall) r.(da_staleData)
    r.(da_staleStates) r.(da_staleRest) r.(da_log).

(** *** Setters, calls and effects *)

Definition setPaneData (f : PaneData -> PaneData) (d : Dash) : Dash :=
  d <| da_paneData := f d.(da_paneData) |> <| da_staleData := true |>.
Definition setPaneStates (f : PaneStates -> PaneStates) (d : Dash) : Dash :=
  d <| da_paneStates := f d.(da_paneStates) |> <| da_staleStates := true |>.
Definition setLoggedIn (b : bool) (d : Dash) : Dash :=
  if d.(da_loggedIn) ≟ b then d else d <| da_loggedIn := b |> <| da_staleRest := true |>.
Definition setLoginError (e : option jstr) (d : Dash) : Dash :=
  if d.(da_loginError) ≟ e then d else d <| da_loginError := e |> <| da_staleRest := true |>.
Definition setLastLoginAttempt (a : option ServerLoginAttempt) (d : Dash) : Dash :=
  match a, d.(da_lastLoginAttempt) with
  | None, None => d
  | _, _ => d <| da_lastLoginAttempt := a |> <| da_staleRest := true |>
  end.
Definition setConsoleHistory (f : list ConsoleEntry -> list ConsoleEntry) (d : Dash) : Dash :=
  d <| da_consoleHistory := f d.(da_consoleHistory) |> <| da_staleRest := true |>.

Definition da_emit (e : DashEffect) (d : Dash) : Dash := d <| da_log := d.(da_log) ++ [e] |>.
Definition await_call (c : DashCall) (d : Dash) : Dash :=
  d <| da_calls := d.(da_calls) ++ [(d.(da_nextCall), c)] |> <| da_nextCall := d.(da_nextCall) + 1 |>.

(** [!mountedRef.current || activeIdRef.current !== conversationId], negated. *)
Definition still_here (key : jstr) (d : Dash) : bool := d.(da_mountedRef) && (d.(da_activeIdRef) ≟ Some key).

(** [err instanceof Error ? err.message : fallback] *)
Definition err_message (err : JsError) (fallback : jstr) : jstr :=
  match err with ErrApi e => e.(ae_message) | ErrError _ message => message | ErrOther _ => fallback end.

(** *** Panes *)

(** One turn of the retry loop of [runAttempts], to its [await]; [false] when it returned. *)
Definition start_attempt (c : PaneCall) (d : Dash) : Dash * bool :=
  if MAX_RETRIES <? c.(pc_attempt) then (d, false)
  else if negb (still_here c.(pc_key) d) then (d, false)
  else
    let loadingState :=
      {| ps_loading := true; ps_attempt := c.(pc_attempt); ps_error := None; ps_queued := None;
         ps_fetched_at := (pane_get d.(da_paneStatesRef) c.(pc_pane)).(ps_fetched_at) |} in
    let d := d <| da_paneStatesRef := pane_set d.(da_paneStatesRef) c.(pc_pane) loadingState |> in
    let d := setPaneStates (fun prev => pane_set prev c.(pc_pane) loadingState) d in
    let d := da_emit (FetchPane c.(pc_key) c.(pc_pane)) d in
    (await_call (CallPane (c <| pc_delaying := false |>)) d, true).

Definition needsNodeInfoPrefetch (d : Dash) : bool :=
  let nodeInfoState := d.(da_paneStatesRef).(pn_nodeInfo) in
  match nodeInfoState.(ps_error) with
  | Some _ => true
  | None => match nodeInfoState.(ps_fetched_at), d.(da_paneDataRef).(pn_nodeInfo) with None, None => true | _, _ => false end
  end.

Definition refreshPane (pane : PaneName) (hasAdvertLocation : bool) (all : option LoadAllRun) (d : Dash) : Dash * bool :=
  match truthy d.(da_publicKey) with
  | None => (d, false)
  | Some key =>
    let run p next :=
      start_attempt {| pc_key := key; pc_pane := p; pc_attempt := 1; pc_delaying := false; pc_then := next; pc_all := all |} in
    if (pane ≟ PnNeighbors) && negb hasAdvertLocation && needsNodeInfoPrefetch d then
      let '(d, waits) := run PnNodeInfo (Some pane) d in
      if waits || negb (still_here key d) then (d, waits) else run pane None d
    else run pane None d
  end.

(** *** Load All *)

Definition LOAD_ALL_PANES : list PaneName :=
  [PnStatus; PnNodeInfo; PnNeighbors; PnRadioSettings; PnAcl; PnAdvertIntervals; PnOwnerInfo; PnLppTelemetry; PnRegions].

Definition markQueued (pending : list PaneName) (d : Dash) : Dash :=
  let next := panes_of (fun p => (pane_get d.(da_paneStatesRef) p) <| ps_queued := Some (bool_decide (p ∈ pending)) |>) in
  setPaneStates (fun _ => next) (d <| da_paneStatesRef := next |>).

Definition load_all_progress (done : Z) (d : Dash) : Dash :=
  d <| da_loadAllProgress := Some (done, len LOAD_ALL_PANES) |>.

(** The [finally] of [loadAll]. *)
Definition finish_load_all (d : Dash) : Dash :=
  (markQueued [] (d <| da_queuedPanes := [] |>)) <| da_loadAllProgress := None |> <| da_cancelLoadAllRef := false |>.

(** The loop of [loadAll] from its [done]th pane on, to its [await]. *)
Fixpoint load_loop (panes : list PaneName) (done : Z) (hasAdvertLocation : bool) (d : Dash) : Dash :=
  match panes with
  | [] => finish_load_all d
  | pane :: pending =>
    if d.(da_cancelLoadAllRef) || negb d.(da_mountedRef) then finish_load_all d
    else
      let d := markQueued pending (d <| da_queuedPanes := pending |>) in
      let run := {| al_done := done + 1; al_rest := pending; al_hasAdvertLocation := hasAdvertLocation |} in
      let '(d, waits) := refreshPane pane hasAdvertLocation (Some run) d in
      if waits then d else load_loop pending (done + 1) hasAdvertLocation (load_all_progress (done + 1) d)
  end.

Definition loadAll (d : Dash) : Dash :=
  let d := d <| da_cancelLoadAllRef := false |> <| da_queuedPanes := LOAD_ALL_PANES |> in
  let d := load_all_progress 0 (markQueued LOAD_ALL_PANES d) in
  load_loop LOAD_ALL_PANES 0 d.(da_hasAdvertLocation) d.

Definition cancelLoadAll (d : Dash) : Dash := d <| da_cancelLoadAllRef := true |>.

(** *** Where a pane's call goes on *)

(** [refreshPane] returned. *)
Definition refresh_returned (all : option LoadAllRun) (d : Dash) : Dash :=
  match all with
  | None => d
  | Some run => load_loop run.(al_rest) run.(al_done) run.(al_hasAdvertLocation) (load_all_progress run.(al_done) d)
  end.

(** [runAttempts] returned: the pane it was prefetched for runs, or [refreshPane] returns. *)
Definition attempts_returned (c : PaneCall) (d : Dash) : Dash :=
  match c.(pc_then) with
  | None => refresh_returned c.(pc_all) d
  | Some pane =>
    if negb (still_here c.(pc_key) d) then refresh_returned c.(pc_all) d
    else
      let '(d, waits) :=
        start_attempt {| pc_key := c.(pc_key); pc_pane := pane; pc_attempt := 1; pc_delaying := false;
                         pc_then := None; pc_all := c.(pc_all) |} d in
      if waits then d else refresh_returned c.(pc_all) d
  end.

(** A value that is [null] is no value. *)
Definition as_pane_value (data : Json) : option Json := match data with Jnull => None | _ => Some data end.

Definition pane_replied (c : PaneCall) (data : Json) (now : Z) (d : Dash) : Dash :=
  if negb (still_here c.(pc_key) d) then attempts_returned c d
  else
    let successState :=
      {| ps_loading := false; ps_attempt := c.(pc_attempt); ps_error := None; ps_queued := None; ps_fetched_at := Some now |} in
    let d := d <| da_paneDataRef := pane_set d.(da_paneDataRef) c.(pc_pane) (as_pane_value data) |>
               <| da_paneStatesRef := pane_set d.(da_paneStatesRef) c.(pc_pane) successState |> in
    let d := setPaneData (fun prev => pane_set prev c.(pc_pane) (as_pane_value data)) d in
    let d := setPaneStates (fun prev => pane_set prev c.(pc_pane) successState) d in
    attempts_returned c d.

Definition is_retryable (err : JsError) : bool :=
  match err with
  | ErrApi e => negb ((400 <=? e.(ae_status)) && (e.(ae_status) <? 500))
  | _ => true
  end.

Section translated.
Context (t : jstr -> list (jstr * Json) -> jstr).

Definition pane_failed (c : PaneCall) (err : JsError) (d : Dash) : Dash :=
  if negb (still_here c.(pc_key) d) then attempts_returned c d
  else
    let msg := err_message err (t (js "toast.requestFailed") []) in
    if (c.(pc_attempt) =? MAX_RETRIES) || negb (is_retryable err) then
      let errorState :=
        {| ps_loading := false; ps_attempt := c.(pc_attempt); ps_error := Some msg; ps_queued := None;
           ps_fetched_at := (pane_get d.(da_paneStatesRef) c.(pc_pane)).(ps_fetched_at) |} in
      let d := d <| da_paneStatesRef := pane_set d.(da_paneStatesRef) c.(pc_pane) errorState |> in
      let d := setPaneStates (fun prev => pane_set prev c.(pc_pane) errorState) d in
      let d := da_emit (ToastError
        (t (js "toast.fetchPaneFailed") [(js "pane", Jstring (t (PANE_LABEL_KEYS c.(pc_pane)) []))])
        (default msg (truthy (Some (formatApiError t err))))) d in
      attempts_returned c d
    else await_call (CallPane (c <| pc_delaying := true |>)) d.

Definition delay_over (c : PaneCall) (d : Dash) : Dash :=
  let next := c <| pc_attempt := c.(pc_attempt) + 1 |> <| pc_delaying := false |> in
  let '(d, waits) := start_attempt next d in
  if waits then d else attempts_returned next d.

(** *** Login *)

Definition login (password : jstr) (d : Dash) : Dash :=
  match truthy d.(da_publicKey) with
  | None => d
  | Some key =>
    let method := if 0 <? len (trim password) then MethodPassword else MethodBlank in
    let d := setLoginError None (d <| da_loginLoading := true |>) in
    await_call (CallLogin key method) (da_emit (LoginRequest key password) d)
  end.
Definition loginAsGuest (d : Dash) : Dash := login [] d.

Definition getLoginToastTitle (status : jstr) : jstr :=
  if status ≟ js "timeout" then t (js "toast.loginNotHeard") []
  else if status ≟ js "error" then t (js "toast.loginNotConfirmed") []
  else t (js "toast.repeaterLoginNotConfirmed") [].

Definition login_replied (key : jstr) (method : ServerLoginMethod) (result : RepeaterLoginResponse) (now : Z)
    (s : Dash * DashboardStorage) : Dash * DashboardStorage :=
  let '(d, sg) := s in
  if negb (d.(da_activeIdRef) ≟ Some key) then s
  else
    let d := setLastLoginAttempt (Some (buildServerLoginAttemptFromResponse t method result (js "repeater") now)) d in
    let d := setLoggedIn true d in
    let sg := rememberRepeaterSession (Some key) now sg in
    let d :=
      if negb result.(lr_authenticated) then
        let msg := default (t (js "repeater.loginNotConfirmed") []) result.(lr_message) in
        da_emit (ToastError (getLoginToastTitle result.(lr_status)) msg) (setLoginError (Some msg) d)
      else d in
    (d <| da_loginLoading := false |>, sg).

Definition login_failed (key : jstr) (method : ServerLoginMethod) (err : JsError) (now : Z)
    (s : Dash * DashboardStorage) : Dash * DashboardStorage :=
  let '(d, sg) := s in
  if negb (d.(da_activeIdRef) ≟ Some key) then s
  else
    let msg := err_message err (t (js "toast.loginFailed") []) in
    let d := setLastLoginAttempt (Some (buildServerLoginAttemptFromError t method msg (js "repeater") now)) d in
    let d := setLoginError (Some msg) (setLoggedIn true d) in
    let sg := rememberRepeaterSession (Some key) now sg in
    let d := da_emit (ToastError (t (js "toast.loginRequestFailed") [])
                        (t (js "toast.loginRequestFailedDetail") [(js "message", Jstring msg)])) d in
    (d <| da_loginLoading := false |>, sg).

Definition resetLogin (s : Dash * DashboardStorage) : Dash * DashboardStorage :=
  let '(d, sg) := s in
  (setLastLoginAttempt None (setLoginError None (setLoggedIn false d)), forgetRepeaterSession d.(da_publicKey) sg).

(** *** Console *)

Definition sendConsoleCommand (command : jstr) (now : Z) (d : Dash) : Dash :=
  match truthy d.(da_publicKey) with
  | None => d
  | Some key =>
    let seconds := now / 1000 in
    let d := setConsoleHistory (fun prev => prev ++ [{| co_command := command; co_response := [];
               co_timestamp := seconds; co_outgoing := true |}]) d in
    let d := d <| da_consoleLoading := true |> in
    await_call (CallConsole key command seconds) (da_emit (CommandRequest key command) d)
  end.

(** The reply, [response] and [sender_timestamp], or the error. *)
Definition command_settled (key command : jstr) (now : Z) (result : JsError + jstr * option Z) (d : Dash) : Dash :=
  if negb (d.(da_activeIdRef) ≟ Some key) then d
  else
    let entry :=
      match result with
      | inr (response, sender_timestamp) =>
        {| co_command := command; co_response := response; co_timestamp := default now sender_timestamp;
           co_outgoing := false |}
      | inl err =>
        let msg := err_message err (t (js "toast.commandFailed") []) in
        {| co_command := command; co_response := t (js "repeater.consoleError") [(js "message", Jstring msg)];
           co_timestamp := now; co_outgoing := false |}
      end in
    (setConsoleHistory (fun prev => prev ++ [entry]) d) <| da_consoleLoading := false |>.

Definition sendZeroHopAdvert (now : Z) (d : Dash) : Dash := sendConsoleCommand (js "advert.zerohop") now d.
Definition sendFloodAdvert (now : Z) (d : Dash) : Dash := sendConsoleCommand (js "advert") now d.
Definition rebootRepeater (now : Z) (d : Dash) : Dash := sendConsoleCommand (js "reboot") now d.
Definition syncClock (now : Z) (d : Dash) : Dash := sendConsoleCommand (js "time " ++ int_str (now / 1000)) now d.

(** *** The server's cache of the panes *)

Definition hydrate_pane (st : PaneData * PaneStates * bool) (entry : jstr * (Json * Z)) : PaneData * PaneStates * bool :=
  let '(nextData, nextStates, changed) := st in
  let '(apiPane, (data, fetched_at)) := entry in
  match API_PANE_TO_STATE apiPane with
  | None => st
  | Some pane =>
    match pane_get nextData pane with
    | Some _ => st
    | None =>
      (pane_set nextData pane (as_pane_value data),
       pane_set nextStates pane
         ((pane_get nextStates pane) <| ps_loading := false |> <| ps_error := None |>
            <| ps_fetched_at := Some (fetched_at * 1000) |>),
       true)
    end
  end.
Definition hydrate (cached : list (jstr * (Json * Z))) (d : Dash) : Dash :=
  if negb (d.(da_mountedRef) && (d.(da_activeIdRef) ≟ d.(da_publicKey))) then d
  else
    let '(nextData, nextStates, changed) := foldl hydrate_pane (d.(da_paneDataRef), d.(da_paneStatesRef), false) cached in
    if negb changed then d
    else
      let d := d <| da_paneDataRef := nextData |> <| da_paneStatesRef := nextStates |> in
      setPaneStates (fun _ => nextStates) (setPaneData (fun _ => nextData) d).

(** *** Renders *)

(** The render, which reads the cache, and the effects whose dependencies were set. *)
Definition commit_dash (now : Z) (s : Dash * DashboardStorage) : Dash * DashboardStorage :=
  let '(d, sg) := s in
  if negb d.(da_mountedRef) then s
  else
    let sg := (getCachedState d.(da_publicKey) now sg).2 in
    let sg :=
      match truthy d.(da_publicKey) with
      | Some key =>
        if d.(da_staleData) || d.(da_staleStates) || d.(da_staleRest) then
          let entry := {| dc_loggedIn := d.(da_loggedIn); dc_loginError := d.(da_loginError);
                          dc_lastLoginAttempt := d.(da_lastLoginAttempt); dc_paneData := d.(da_paneData);
                          dc_paneStates := d.(da_paneStates); dc_consoleHistory := d.(da_consoleHistory) |} in
          saveStoredConsoleHistory key d.(da_consoleHistory) (cacheState key entry now sg)
        else sg
      | None => sg
      end in
    let d := if d.(da_staleData) then d <| da_paneDataRef := d.(da_paneData) |> else d in
    let d := if d.(da_staleStates) then d <| da_paneStatesRef := d.(da_paneStates) |> else d in
    (d <| da_staleData := false |> <| da_staleStates := false |> <| da_staleRest := false |>, sg).

(** The first render, whose every effect runs: the server's cache is asked for. *)
Definition mount_dash (publicKey : option jstr) (hasAdvertLocation : bool) (now : Z) (sg : DashboardStorage)
    : Dash * DashboardStorage :=
  let '(cached, sg) := getCachedState publicKey now sg in
  let '(loggedIn, sg) :=
    match cached with Some c => (c.(dc_loggedIn), sg) | None => hasRememberedRepeaterSession publicKey now sg end in
  let data := match cached with Some c => c.(dc_paneData) | None => createInitialPaneData end in
  let states := match cached with Some c => c.(dc_paneStates) | None => createInitialPaneStates end in
  let history :=
    match cached with
    | Some c => c.(dc_consoleHistory)
    | None => match truthy publicKey with Some key => loadStoredConsoleHistory key sg | None => [] end
    end in
  commit_dash now
    ({| da_publicKey := publicKey; da_hasAdvertLocation := hasAdvertLocation; da_loggedIn := loggedIn;
        da_loginLoading := false; da_loginError := cached ≫= dc_loginError;
        da_lastLoginAttempt := cached ≫= dc_lastLoginAttempt; da_paneData := data; da_paneStates := states;
        da_paneDataRef := data; da_paneStatesRef := states; da_consoleHistory := history; da_consoleLoading := false;
        da_activeIdRef := publicKey; da_mountedRef := true; da_queuedPanes := []; da_loadAllProgress := None;
        da_cancelLoadAllRef := false; da_hydrating := bool_decide (is_Some (truthy publicKey)); da_calls := [];
        da_nextCall := 0; da_staleData := true; da_staleStates := true; da_staleRest := true; da_log := [] |}, sg).

(** *** Events *)

(** What ends an [await]: a reply, an error, the timer. *)
Inductive CallOutcome :=
  | PaneReply (data : Json)
  | PaneError (err : JsError)
  | DelayOver
  | LoginReply (result : RepeaterLoginResponse)
  | LoginError (err : JsError)
  | CommandSettled (result : JsError + jstr * option Z).

Inductive DashEvent :=
  | DvAdvertLocation (hasAdvertLocation : bool)
  | DvHydrated (cached : option (list (jstr * (Json * Z))))
  | DvSettled (id : Z) (outcome : CallOutcome)
  | DvLogin (password : jstr)
  | DvResetLogin
  | DvRefreshPane (pane : PaneName)
  | DvLoadAll
  | DvCancelLoadAll
  | DvCommand (command : jstr)
  | DvUnmount.

Definition settle_call (c : DashCall) (outcome : CallOutcome) (now : Z) (s : Dash * DashboardStorage)
    : option (Dash * DashboardStorage) :=
  let '(d, sg) := s in
  match c, outcome with
  | CallPane c, PaneReply data => if c.(pc_delaying) then None else Some (pane_replied c data now d, sg)
  | CallPane c, PaneError err => if c.(pc_delaying) then None else Some (pane_failed c err d, sg)
  | CallPane c, DelayOver => if c.(pc_delaying) then Some (delay_over c d, sg) else None
  | CallLogin key method, LoginReply result => Some (login_replied key method result now s)
  | CallLogin key method, LoginError err => Some (login_failed key method err now s)
  | CallConsole key command at_, CommandSettled result => Some (command_settled key command at_ result d, sg)
  | _, _ => None
  end.

(** A settled call is no longer under way; an outcome that is not its own does not happen. *)
Definition settle (id : Z) (outcome : CallOutcome) (now : Z) (s : Dash * DashboardStorage) : Dash * DashboardStorage :=
  match om_get s.1.(da_calls) id with
  | None => s
  | Some c =>
    default s (settle_call c outcome now (s.1 <| da_calls := om_delete s.1.(da_calls) id |>, s.2))
  end.

Definition dash_event (now : Z) (ev : DashEvent) (s : Dash * DashboardStorage) : Dash * DashboardStorage :=
  let '(d, sg) := s in
  match ev with
  | DvAdvertLocation b => (d <| da_hasAdvertLocation := b |>, sg)
  | DvHydrated cached =>
    if negb d.(da_hydrating) then s
    else
      let d := d <| da_hydrating := false |> in
      (match cached with Some cached => hydrate cached d | None => d end, sg)
  | DvSettled id outcome => settle id outcome now s
  | DvLogin password => (login password d, sg)
  | DvResetLogin => resetLogin s
  | DvRefreshPane pane => ((refreshPane pane d.(da_hasAdvertLocation) None d).1, sg)
  | DvLoadAll => (loadAll d, sg)
  | DvCancelLoadAll => (cancelLoadAll d, sg)
  | DvCommand command => (sendConsoleCommand command now d, sg)
  | DvUnmount => (d <| da_mountedRef := false |> <| da_hydrating := false |>, sg)
  end.

(** An event and the render after it. Only replies and timers reach an unmounted dashboard. *)
Definition handle_dash (s : Dash * DashboardStorage) (ev : Z * DashEvent) : Dash * DashboardStorage :=
  let '(now, ev) := ev in
  match ev with
  | DvSettled _ _ => commit_dash now (dash_event now ev s)
  | _ => if s.1.(da_mountedRef) then commit_dash now (dash_event now ev s) else s
  end.
End translated.
