(* ===== verification/RepeaterDashboardProps.v ===== *)
(** The dashboard of a repeater: nothing waits when no call is under way, a click sends a bounded
    number of requests to the mesh, every run ends, a failure is reported and loses no value, and
    a dashboard opened again shows what it showed. *)
From S2P Require Import Prelude JsString JsCollections JsNum Json ApiErrors Types RepeaterDashboard.

(** ** Panes *)

Lemma pane_get_of {A} (f : PaneName -> A) p : pane_get (panes_of f) p = f p.
Proof. by destruct p. Qed.
Lemma pane_get_set {A} (m : Panes A) p v q : pane_get (pane_set m p v) q = if q ≟ p then v else pane_get m q.
Proof. unfold pane_set. by rewrite pane_get_of. Qed.
Lemma panes_ext {A} (m n : Panes A) : (forall p, pane_get m p = pane_get n p) -> m = n.
Proof.
  intros E. destruct m, n. f_equal;
    [apply (E PnStatus)|apply (E PnNodeInfo)|apply (E PnNeighbors)|apply (E PnAcl)|apply (E PnRadioSettings)
    |apply (E PnAdvertIntervals)|apply (E PnOwnerInfo)|apply (E PnLppTelemetry)|apply (E PnRegions)].
Qed.

(** ** What is under way *)

Definition call_on (d : Dash) (p : PaneName) : Prop :=
  exists id c, (id, CallPane c) ∈ d.(da_calls) /\ c.(pc_pane) = p.
Definition run_on (d : Dash) : Prop :=
  exists id c, (id, CallPane c) ∈ d.(da_calls) /\ is_Some c.(pc_all).

Record call_ok (pk : option jstr) (c : PaneCall) : Prop := {
  ck_attempt : 1 <= c.(pc_attempt) <= MAX_RETRIES;
  ck_delaying : c.(pc_delaying) = true -> c.(pc_attempt) < MAX_RETRIES;
  ck_key : pk = Some c.(pc_key);
}.
Definition dash_call_ok (pk : option jstr) (c : DashCall) : Prop :=
  match c with CallPane c => call_ok pk c | CallLogin key _ | CallConsole key _ _ => pk = Some key end.

(** [q0]: the panes queued when the dashboard was opened. A call that was just settled leaves
    [lp], its pane still marked, and [la], its run of Load All, to be taken over. *)
Record dash_ok (q0 : PaneName -> Prop) (lp : option PaneName) (la : bool) (d : Dash) : Prop := {
  dk_data : d.(da_paneDataRef) = d.(da_paneData);
  dk_states : d.(da_paneStatesRef) = d.(da_paneStates);
  dk_active : d.(da_activeIdRef) = d.(da_publicKey);
  dk_ids : om_wf d.(da_calls) /\ Forall (fun p => p.1 < d.(da_nextCall)) d.(da_calls);
  dk_calls : forall id c, (id, c) ∈ d.(da_calls) -> dash_call_ok d.(da_publicKey) c;
  dk_loading : d.(da_mountedRef) = true ->
    forall p, (pane_get d.(da_paneStates) p).(ps_loading) = true -> call_on d p \/ lp = Some p;
  dk_run : d.(da_loadAllProgress) <> None \/ d.(da_queuedPanes) <> [] -> run_on d \/ la = true;
  dk_queued : forall p, (pane_get d.(da_paneStates) p).(ps_queued) = Some true -> q0 p \/ run_on d \/ la = true;
  dk_login : d.(da_loginLoading) = true -> exists id key m, (id, CallLogin key m) ∈ d.(da_calls);
  dk_console : d.(da_consoleLoading) = true -> exists id key c n, (id, CallConsole key c n) ∈ d.(da_calls);
}.

Section invariant.
Context (q0 : PaneName -> Prop).

Lemma dash_ok_unmounted lp la d : d.(da_mountedRef) = false -> dash_ok q0 lp la d -> dash_ok q0 None la d.
Proof. intros Hm []. split; try done. congruence. Qed.

Lemma still_here_mounted lp la c d :
  dash_ok q0 lp la d -> call_ok d.(da_publicKey) c -> still_here c.(pc_key) d = d.(da_mountedRef).
Proof.
  intros [] []. unfold still_here. rewrite dk_active0, ck_key0, bool_decide_eq_true_2 by done. by destruct (da_mountedRef d).
Qed.

Lemma om_wf_snoc {V} (m : list (Z * V)) n v :
  om_wf m /\ Forall (fun p => p.1 < n) m -> om_wf (m ++ [(n, v)]) /\ Forall (fun p => p.1 < n + 1) (m ++ [(n, v)]).
Proof.
  intros [Hw Hf]. split.
  - unfold om_wf, om_keys in *. rewrite fmap_app. apply NoDup_snoc. split; [done|]. cbn.
    intros ([k x] & -> & Hin)%list_elem_of_fmap. rewrite Forall_forall in Hf. specialize (Hf _ Hin). cbn in Hf. lia.
  - apply Forall_app. split; [|by repeat constructor; cbn; lia]. eapply Forall_impl; [exact Hf|]. intros. cbn in *. lia.
Qed.

(** A turn of the retry loop takes over the pane and the run of its call, or finds the dashboard gone. *)
Lemma start_attempt_ok lp la c d :
  dash_ok q0 lp la d -> call_ok d.(da_publicKey) (c <| pc_delaying := false |>) ->
  (lp = None \/ lp = Some c.(pc_pane)) -> (la = true -> is_Some c.(pc_all)) ->
  let '(d', waits) := start_attempt c d in
  if waits then dash_ok q0 None false d' else d' = d /\ d.(da_mountedRef) = false.
Proof.
  intros Hd Hc Hlp Hla. unfold start_attempt.
  pose proof (ck_attempt _ _ Hc) as Ha. cbn in Ha. replace (MAX_RETRIES <? pc_attempt c) with false by (symmetry; apply Z.ltb_ge; lia).
  pose proof (still_here_mounted _ _ _ _ Hd Hc) as Hh. cbn in Hh. rewrite Hh. destruct (da_mountedRef d) eqn:Hm; cbn [negb]; [|done].
  destruct Hd as [Edata Estates Eact Hids Hcalls Hload Hrun Hq Hlog Hcon].
  cbn. set (ls := {| ps_loading := true |}). set (c' := CallPane _).
  assert (Hnew : (da_nextCall d, c') ∈ da_calls d ++ [(da_nextCall d, c')]) by (apply elem_of_app; right; by left).
  assert (Hold : forall x, x ∈ da_calls d -> x ∈ da_calls d ++ [(da_nextCall d, c')]) by (intros; apply elem_of_app; by left).
  assert (Hruns : run_on d \/ la = true -> exists id x, (id, CallPane x) ∈ da_calls d ++ [(da_nextCall d, c')] /\ is_Some x.(pc_all)).
  { intros [(id & x & Hx & Hs)|Ht]; [exists id, x; auto|]. exists (da_nextCall d), (c <| pc_delaying := false |>). auto. }
  split; cbn; try done.
  - by rewrite Estates.
  - by apply om_wf_snoc.
  - intros id x [Hx|Hx]%elem_of_app; [by eapply Hcalls|]. apply list_elem_of_singleton in Hx as [= -> ->]. exact Hc.
  - intros _ p. rewrite pane_get_set. case_bool_decide as Hp; [subst p|].
    + intros _. left. by exists (da_nextCall d), (c <| pc_delaying := false |>).
    + intros Hl. destruct (Hload Hm p Hl) as [(id & x & Hx & Hpx)|Hpx]; [left; exists id, x; auto|].
      destruct Hlp as [-> | ->]; [done|]. congruence.
  - intros Hr. left. apply Hruns, Hrun, Hr.
  - intros p. rewrite pane_get_set. case_bool_decide; [done|]. intros Hp. destruct (Hq p Hp) as [?|Hr]; [by left|].
    right. left. apply Hruns, Hr.
  - intros Hl. destruct (Hlog Hl) as (id & k & m & Hx). exists id, k, m. auto.
  - intros Hl. destruct (Hcon Hl) as (id & k & m & n & Hx). exists id, k, m, n. auto.
Qed.

Lemma refreshPane_ok la pane loc all d :
  dash_ok q0 None la d -> (la = true -> is_Some all) ->
  let '(d', waits) := refreshPane pane loc all d in
  if waits then dash_ok q0 None false d' else d' = d.
Proof.
  intros Hd Hla. unfold refreshPane. destruct (truthy (da_publicKey d)) as [key|] eqn:Ek; [|done].
  assert (Hk : da_publicKey d = Some key) by (destruct (da_publicKey d) as [[|? ?]|]; cbn in Ek; congruence).
  assert (Hc : forall p a, call_ok (da_publicKey d) {| pc_key := key; pc_pane := p; pc_attempt := 1; pc_delaying := false; pc_then := a; pc_all := all |})
    by (intros; split; cbn; [unfold MAX_RETRIES; lia|done|done]).
  destruct ((pane ≟ PnNeighbors) && negb loc && needsNodeInfoPrefetch d).
  - set (c1 := {| pc_key := key; pc_pane := PnNodeInfo |}).
    pose proof (start_attempt_ok None la c1 d Hd (Hc _ _) (or_introl eq_refl) Hla) as H1.
    destruct (start_attempt c1 d) as [d1 [|]]; [exact H1|]. destruct H1 as [-> Hm].
    unfold still_here. by rewrite Hm.
  - set (c1 := {| pc_key := key; pc_pane := pane |}).
    pose proof (start_attempt_ok None la c1 d Hd (Hc _ _) (or_introl eq_refl) Hla) as H1.
    destruct (start_attempt c1 d) as [d1 [|]]; [exact H1|]. by destruct H1 as [-> _].
Qed.

(** Without a change of the panes, their states and the calls. *)
Lemma markQueued_ok la pending d :
  dash_ok q0 None true d -> (la = false -> pending = []) ->
  (la = false -> d.(da_loadAllProgress) = None /\ d.(da_queuedPanes) = []) ->
  dash_ok q0 None la (markQueued pending d).
Proof.
  intros [Edata Estates Eact Hids Hcalls Hload Hrun Hq Hlog Hcon] Hp Hr. unfold markQueued, setPaneStates. cbn.
  split; cbn; try done.
  - intros Hm p. rewrite pane_get_of. cbn. rewrite Estates. by apply Hload.
  - destruct la; [by right|]. destruct (Hr eq_refl) as [-> ->]. by intros [|].
  - intros p. rewrite pane_get_of. cbn. destruct la; [by right; right|]. rewrite (Hp eq_refl).
    rewrite bool_decide_eq_false_2; [done|]. apply not_elem_of_nil.
Qed.

Lemma dash_ok_busy la d d' :
  dash_ok q0 None la d ->
  d' = d <| da_queuedPanes := d'.(da_queuedPanes) |> <| da_loadAllProgress := d'.(da_loadAllProgress) |>
         <| da_cancelLoadAllRef := d'.(da_cancelLoadAllRef) |> ->
  dash_ok q0 None true d'.
Proof.
  intros [Edata Estates Eact Hids Hcalls Hload Hrun Hq Hlog Hcon] E. rewrite E. clear E. split; cbn; try done.
  - intros _. by right.
  - intros p Hp. right. by right.
Qed.

Lemma finish_load_all_ok la d : dash_ok q0 None la d -> dash_ok q0 None false (finish_load_all d).
Proof.
  intros Hd. pose proof (dash_ok_busy la d (d <| da_queuedPanes := [] |> <| da_loadAllProgress := None |> <| da_cancelLoadAllRef := false |>) Hd eq_refl) as H.
  apply (markQueued_ok false []) in H; [exact H|done|done].
Qed.

Lemma load_loop_ok panes done loc d : dash_ok q0 None true d -> dash_ok q0 None false (load_loop panes done loc d).
Proof.
  revert done d. induction panes as [|pane pending IH]; intros done d Hd; cbn [load_loop]; [by eapply finish_load_all_ok|].
  destruct (da_cancelLoadAllRef d || negb (da_mountedRef d)); [by eapply finish_load_all_ok|].
  set (d1 := markQueued _ _). assert (H1 : dash_ok q0 None true d1).
  { apply markQueued_ok; [|done|done]. by eapply dash_ok_busy. }
  pose proof (refreshPane_ok true pane loc (Some {| al_done := done + 1; al_rest := pending; al_hasAdvertLocation := loc |}) d1 H1
    ltac:(done)) as H2.
  destruct (refreshPane _ _ _ d1) as [d2 [|]]; [done|]. subst d2. apply IH. by eapply dash_ok_busy.
Qed.

Lemma refresh_returned_ok all d : dash_ok q0 None (bool_decide (is_Some all)) d -> dash_ok q0 None false (refresh_returned all d).
Proof.
  destruct all as [run|]; cbn [refresh_returned]; intros Hd.
  - apply load_loop_ok. by eapply dash_ok_busy.
  - by rewrite bool_decide_eq_false_2 in Hd by by intros [? ?].
Qed.

Lemma attempts_returned_ok c d :
  dash_ok q0 None (bool_decide (is_Some c.(pc_all))) d -> call_ok d.(da_publicKey) c ->
  dash_ok q0 None false (attempts_returned c d).
Proof.
  intros Hd Hc. unfold attempts_returned. destruct (pc_then c) as [pane|]; [|by apply refresh_returned_ok].
  rewrite (still_here_mounted _ _ _ _ Hd Hc). destruct (da_mountedRef d) eqn:Hm; cbn [negb]; [|by apply refresh_returned_ok].
  set (c1 := {| pc_key := pc_key c |}).
  assert (Hc1 : call_ok (da_publicKey d) (c1 <| pc_delaying := false |>)).
  { destruct Hc. split; cbn; [unfold MAX_RETRIES; lia|done|done]. }
  pose proof (start_attempt_ok None _ c1 d Hd Hc1 (or_introl eq_refl) ltac:(by intros ?%bool_decide_eq_true)) as H1.
  destruct (start_attempt c1 d) as [d1 [|]]; [exact H1|]. destruct H1 as [-> _]. by apply refresh_returned_ok.
Qed.

Definition pane_of_call (c : DashCall) : option PaneName := match c with CallPane c => Some c.(pc_pane) | _ => None end.
Definition run_of_call (c : DashCall) : bool := match c with CallPane c => bool_decide (is_Some c.(pc_all)) | _ => false end.
Definition is_login_call (c : DashCall) : bool := match c with CallLogin _ _ => true | _ => false end.
Definition is_console_call (c : DashCall) : bool := match c with CallConsole _ _ _ => true | _ => false end.

(** A settled call leaves its pane and its run to what goes on, and its spinner to its [finally]. *)
Lemma dash_ok_settled id c d :
  dash_ok q0 None false d -> om_get d.(da_calls) id = Some c ->
  dash_ok q0 (pane_of_call c) (run_of_call c)
    (d <| da_calls := om_delete d.(da_calls) id |> <| da_loginLoading := d.(da_loginLoading) && negb (is_login_call c) |>
       <| da_consoleLoading := d.(da_consoleLoading) && negb (is_console_call c) |>)
  /\ dash_call_ok d.(da_publicKey) c.
Proof.
  intros [Edata Estates Eact [Hw Hids] Hcalls Hload Hrun Hq Hlog Hcon] Hget.
  assert (Hdel : forall i x, (i, x) ∈ da_calls d -> x = c \/ (i, x) ∈ om_delete (da_calls d) id).
  { intros i x Hx. destruct (decide (i = id)) as [->|Hne].
    - left. apply om_elem_get in Hx; [|done]. rewrite Hget in Hx. by apply (inj Some) in Hx.
    - right. unfold om_delete. apply list_elem_of_filter. auto. }
  assert (Hr : run_on d -> run_on (d <| da_calls := om_delete (da_calls d) id |>) \/ run_of_call c = true).
  { intros (i & x & Hx & Hs). destruct (Hdel i _ Hx) as [<-|Hx']; [right; by apply bool_decide_eq_true_2|left; by exists i, x]. }
  split; [|by apply (Hcalls id c), om_get_Some_elem]. split; cbn; try done.
  - split; [by apply om_wf_delete|by apply Forall_filter].
  - intros i x [Hx _]%om_elem_delete. by eapply Hcalls.
  - intros Hm p Hp. destruct (Hload Hm p Hp) as [(i & x & Hx & E)|?]; [|done].
    destruct (Hdel i _ Hx) as [<-|Hx']; [right; cbn; by rewrite E|left; by exists i, x].
  - intros H. destruct (Hrun H) as [?|?]; [by apply Hr|done].
  - intros p Hp. destruct (Hq p Hp) as [?|[?|?]]; [by left|right; by apply Hr|done].
  - intros [H Hn]%andb_true_iff. destruct (Hlog H) as (i & k & m & Hx).
    destruct (Hdel i _ Hx) as [<-|?]; [done|by exists i, k, m].
  - intros [H Hn]%andb_true_iff. destruct (Hcon H) as (i & k & m & n & Hx).
    destruct (Hdel i _ Hx) as [<-|?]; [done|by exists i, k, m, n].
Qed.

(** Replaces the state of a call's pane by one that does not wait. *)
Lemma dash_ok_pane lp la p st data d :
  dash_ok q0 lp la d -> st.(ps_loading) = false -> st.(ps_queued) = None -> lp = None \/ lp = Some p ->
  dash_ok q0 None la (d <| da_paneStatesRef := pane_set d.(da_paneStatesRef) p st |>
    <| da_paneStates := pane_set d.(da_paneStates) p st |> <| da_paneDataRef := data |> <| da_paneData := data |>).
Proof.
  intros [Edata Estates Eact Hids Hcalls Hload Hrun Hq Hlog Hcon] Hl Hn Hlp. split; cbn; try done.
  - by rewrite Estates.
  - intros Hm q. rewrite pane_get_set. case_bool_decide as E; [congruence|]. intros H.
    destruct (Hload Hm q H) as [?|?]; [by left|]. destruct Hlp as [-> | ->]; [done|]. congruence.
  - intros q. rewrite pane_get_set. case_bool_decide; [congruence|]. apply Hq.
Qed.

(** The fields the invariant speaks of. *)
Definition dash_view (d : Dash) :=
  (d.(da_publicKey), d.(da_activeIdRef), d.(da_mountedRef), (d.(da_paneData), d.(da_paneDataRef)),
   (d.(da_paneStates), d.(da_paneStatesRef)), (d.(da_calls), d.(da_nextCall)),
   (d.(da_loadAllProgress), d.(da_queuedPanes)), (d.(da_loginLoading), d.(da_consoleLoading))).
Lemma dash_ok_view lp la d d' : dash_view d' = dash_view d -> dash_ok q0 lp la d -> dash_ok q0 lp la d'.
Proof.
  unfold dash_view. intros [= E1 E2 E3 E4 E5 E6 E7 E8 E9 E10 E11 E12 E13] [].
  split; unfold call_on, run_on in *; rewrite ?E1, ?E2, ?E3, ?E4, ?E5, ?E6, ?E7, ?E8, ?E9, ?E10, ?E11, ?E12, ?E13; done.
Qed.

Lemma dash_view_states d d' : dash_view d' = dash_view d -> d'.(da_paneStates) = d.(da_paneStates).
Proof. unfold dash_view. by intros [= _ _ _ _ _ -> _ _ _ _ _ _ _]. Qed.

Lemma setLoggedIn_view b d : dash_view (setLoggedIn b d) = dash_view d.
Proof. unfold setLoggedIn. by destruct (_ ≟ _). Qed.
Lemma setLoginError_view e d : dash_view (setLoginError e d) = dash_view d.
Proof. unfold setLoginError. by destruct (_ ≟ _). Qed.
Lemma setLastLoginAttempt_view a d : dash_view (setLastLoginAttempt a d) = dash_view d.
Proof. unfold setLastLoginAttempt. by destruct a, (da_lastLoginAttempt d). Qed.

Lemma pane_replied_ok c data now d :
  dash_ok q0 (Some c.(pc_pane)) (bool_decide (is_Some c.(pc_all))) d -> call_ok d.(da_publicKey) c ->
  dash_ok q0 None false (pane_replied c data now d).
Proof.
  intros Hd Hc. unfold pane_replied. rewrite (still_here_mounted _ _ _ _ Hd Hc).
  destruct (da_mountedRef d) eqn:Hm; cbn [negb].
  2: { apply attempts_returned_ok; [|done]. by eapply dash_ok_unmounted. }
  apply attempts_returned_ok; [|done]. unfold setPaneStates, setPaneData. cbn.
  set (st := {| ps_loading := false |}).
  pose proof (dk_data _ _ _ _ Hd) as Edata. rewrite <- Edata.
  eapply dash_ok_view; [|exact (dash_ok_pane _ _ (pc_pane c) st (pane_set (da_paneDataRef d) (pc_pane c) (as_pane_value data)) d Hd eq_refl eq_refl (or_intror eq_refl))].
  done.
Qed.

Lemma pane_failed_ok t c err d :
  dash_ok q0 (Some c.(pc_pane)) (bool_decide (is_Some c.(pc_all))) d -> call_ok d.(da_publicKey) c ->
  c.(pc_delaying) = false -> dash_ok q0 None false (pane_failed t c err d).
Proof.
  intros Hd Hc Hdel. unfold pane_failed. rewrite (still_here_mounted _ _ _ _ Hd Hc).
  destruct (da_mountedRef d) eqn:Hm; cbn [negb].
  2: { apply attempts_returned_ok; [|done]. by eapply dash_ok_unmounted. }
  destruct ((pc_attempt c =? MAX_RETRIES) || negb (is_retryable err)) eqn:Er.
  - apply attempts_returned_ok; [|done]. generalize (err_message err (t (js "toast.requestFailed") [])). intros msg.
    generalize (ToastError (t (js "toast.fetchPaneFailed") [(js "pane", Jstring (t (PANE_LABEL_KEYS (pc_pane c)) []))])
      (default msg (truthy (Some (formatApiError t err))))). intros toast. unfold setPaneStates, da_emit. cbn.
    set (st := {| ps_loading := false |}).
    eapply dash_ok_view; [|exact (dash_ok_pane _ _ (pc_pane c) st (da_paneData d) d Hd eq_refl eq_refl (or_intror eq_refl))].
    unfold dash_view. cbn. by rewrite (dk_data _ _ _ _ Hd).
  - apply orb_false_iff in Er as [Ea%Z.eqb_neq _]. destruct Hd as [Edata Estates Eact Hids Hcalls Hload Hrun Hq Hlog Hcon].
    unfold await_call. cbn. set (c' := CallPane _).
    assert (Hnew : (da_nextCall d, c') ∈ da_calls d ++ [(da_nextCall d, c')]) by (apply elem_of_app; right; by left).
    assert (Hold : forall x, x ∈ da_calls d -> x ∈ da_calls d ++ [(da_nextCall d, c')]) by (intros; apply elem_of_app; by left).
    assert (Hr : run_on d \/ bool_decide (is_Some (pc_all c)) = true ->
      exists id x, (id, CallPane x) ∈ da_calls d ++ [(da_nextCall d, c')] /\ is_Some x.(pc_all)).
    { intros [(id & x & Hx & Hs)|Ht%bool_decide_eq_true]; [exists id, x; auto|].
      exists (da_nextCall d), (c <| pc_delaying := true |>). auto. }
    split; cbn; try done.
    + by apply om_wf_snoc.
    + intros id x [Hx|Hx]%elem_of_app; [by eapply Hcalls|]. apply list_elem_of_singleton in Hx as [= -> ->].
      destruct Hc as [[Ha1 Ha2] _ Hk]. split; cbn; [lia|lia|done].
    + intros _ p Hp. left. destruct (Hload Hm p Hp) as [(id & x & Hx & E)|[= <-]]; [exists id, x; auto|].
      by exists (da_nextCall d), (c <| pc_delaying := true |>).
    + intros H. left. by apply Hr, Hrun.
    + intros p Hp. destruct (Hq p Hp) as [?|H]; [by left|right; left; by apply Hr].
    + intros H. destruct (Hlog H) as (i & k & m & Hx). exists i, k, m. auto.
    + intros H. destruct (Hcon H) as (i & k & m & n & Hx). exists i, k, m, n. auto.
Qed.

Lemma delay_over_ok c d :
  dash_ok q0 (Some c.(pc_pane)) (bool_decide (is_Some c.(pc_all))) d -> call_ok d.(da_publicKey) c ->
  c.(pc_delaying) = true -> dash_ok q0 None false (delay_over c d).
Proof.
  intros Hd Hc Hdel. unfold delay_over. set (next := c <| pc_attempt := _ |> <| pc_delaying := false |>).
  assert (Hn : call_ok (da_publicKey d) next).
  { destruct Hc as [[Ha1 Ha2] Hb Hk]. specialize (Hb Hdel). split; cbn; [lia|done|done]. }
  pose proof (start_attempt_ok _ _ next d Hd Hn (or_intror eq_refl) ltac:(by intros ?%bool_decide_eq_true)) as H1.
  destruct (start_attempt next d) as [d1 [|]]; [exact H1|]. destruct H1 as [-> Hm].
  by apply attempts_returned_ok; [eapply dash_ok_unmounted|].
Qed.

Lemma login_replied_view t key m result now d sg :
  d.(da_activeIdRef) = Some key ->
  dash_view (login_replied t key m result now (d, sg)).1 = dash_view (d <| da_loginLoading := false |>).
Proof.
  intros E. unfold login_replied. rewrite bool_decide_eq_true_2 by done. cbn [negb].
  generalize (buildServerLoginAttemptFromResponse t m result (js "repeater") now). intros a.
  destruct (negb (lr_authenticated result)).
  - generalize (t (js "repeater.loginNotConfirmed") []) (getLoginToastTitle t (lr_status result)). intros dflt title.
    unfold da_emit. cbn [fst]. set (d1 := setLoggedIn true _).
    pose proof (setLoginError_view (Some (default dflt (lr_message result))) d1) as H1. 
    assert (H2 : dash_view d1 = dash_view d) by (unfold d1; by rewrite setLoggedIn_view, setLastLoginAttempt_view).
    rewrite H2 in H1. revert H1. unfold dash_view. cbn. by intros [= -> -> -> -> -> -> -> -> -> -> -> _ ->].
  - cbn [fst]. pose proof (setLoggedIn_view true (setLastLoginAttempt (Some a) d)) as H1.
    rewrite setLastLoginAttempt_view in H1. revert H1. unfold dash_view. cbn.
    by intros [= -> -> -> -> -> -> -> -> -> -> -> _ ->].
Qed.

Lemma login_failed_view t key m err now d sg :
  d.(da_activeIdRef) = Some key ->
  dash_view (login_failed t key m err now (d, sg)).1 = dash_view (d <| da_loginLoading := false |>).
Proof.
  intros E. unfold login_failed. rewrite bool_decide_eq_true_2 by done. cbn [negb].
  generalize (err_message err (t (js "toast.loginFailed") [])). intros msg.
  generalize (buildServerLoginAttemptFromError t m msg (js "repeater") now)
    (ToastError (t (js "toast.loginRequestFailed") []) (t (js "toast.loginRequestFailedDetail") [(js "message", Jstring msg)])).
  intros a toast. unfold da_emit. cbn [fst]. set (d1 := setLoginError _ _).
  assert (H1 : dash_view d1 = dash_view d) by (unfold d1; by rewrite setLoginError_view, setLoggedIn_view, setLastLoginAttempt_view).
  revert H1. unfold dash_view. cbn. by intros [= -> -> -> -> -> -> -> -> -> -> -> _ ->].
Qed.

Lemma settle_ok t id outcome now s :
  dash_ok q0 None false s.1 -> dash_ok q0 None false (settle t id outcome now s).1.
Proof.
  destruct s as [d sg]. intros Hd. unfold settle. cbn [fst snd] in *.
  destruct (om_get (da_calls d) id) as [c|] eqn:Hget; [|done].
  destruct (dash_ok_settled id c d Hd Hget) as [Hs Hc].
  destruct c as [c|key m|key command n], outcome; cbn [settle_call from_option Datatypes.id fst snd]; try done;
    cbn [is_login_call is_console_call negb] in Hs; rewrite ?andb_true_r, ?andb_false_r in Hs.
  - destruct (pc_delaying c) eqn:Ed; [done|]. cbn [from_option Datatypes.id fst]. by apply pane_replied_ok.
  - destruct (pc_delaying c) eqn:Ed; [done|]. cbn [from_option Datatypes.id fst]. by apply pane_failed_ok.
  - destruct (pc_delaying c) eqn:Ed; [|done]. cbn [from_option Datatypes.id fst]. by apply delay_over_ok.
  - eapply dash_ok_view; [|exact Hs]. rewrite login_replied_view; [done|]. cbn. by rewrite (dk_active _ _ _ _ Hd).
  - eapply dash_ok_view; [|exact Hs]. rewrite login_failed_view; [done|]. cbn. by rewrite (dk_active _ _ _ _ Hd).
  - unfold command_settled. cbn [fst snd da_activeIdRef]. 
    rewrite bool_decide_eq_true_2 by (cbn; by rewrite (dk_active _ _ _ _ Hd)). cbn [negb].
    eapply dash_ok_view; [|exact Hs]. done.
Qed.
Lemma await_other_ok c d :
  dash_ok q0 None false d -> (match c with CallPane _ => False | _ => True end) -> dash_call_ok d.(da_publicKey) c ->
  dash_ok q0 None false (await_call c (d <| da_loginLoading := d.(da_loginLoading) || is_login_call c |>
                                          <| da_consoleLoading := d.(da_consoleLoading) || is_console_call c |>)).
Proof.
  intros [Edata Estates Eact Hids Hcalls Hload Hrun Hq Hlog Hcon] Hn Hc. unfold await_call. cbn.
  assert (Hold : forall x, x ∈ da_calls d -> x ∈ da_calls d ++ [(da_nextCall d, c)]) by (intros; apply elem_of_app; by left).
  assert (Hnew : (da_nextCall d, c) ∈ da_calls d ++ [(da_nextCall d, c)]) by (apply elem_of_app; right; by left).
  assert (Hr : run_on d -> exists i x, (i, CallPane x) ∈ da_calls d ++ [(da_nextCall d, c)] /\ is_Some x.(pc_all)).
  { intros (i & x & Hx & Hs). exists i, x. auto. }
  split; cbn; try done.
  - by apply om_wf_snoc.
  - intros i x [Hx|Hx]%elem_of_app; [by eapply Hcalls|]. by apply list_elem_of_singleton in Hx as [= -> ->].
  - intros Hm p Hp. destruct (Hload Hm p Hp) as [(i & x & Hx & E)|?]; [left; exists i, x; auto|done].
  - intros H. destruct (Hrun H) as [?|?]; [left; by apply Hr|done].
  - intros p Hp. destruct (Hq p Hp) as [?|[?|?]]; [by left|right; left; by apply Hr|done].
  - intros [H|H]%orb_true_iff.
    + destruct (Hlog H) as (i & k & m & Hx). exists i, k, m. auto.
    + destruct c as [|key m|]; try done. exists (da_nextCall d), key, m. auto.
  - intros [H|H]%orb_true_iff.
    + destruct (Hcon H) as (i & k & m & n & Hx). exists i, k, m, n. auto.
    + destruct c as [| |key m n]; try done. exists (da_nextCall d), key, m, n. auto.
Qed.

Lemma loadAll_ok d : dash_ok q0 None false d -> dash_ok q0 None false (loadAll d).
Proof.
  intros Hd. unfold loadAll. apply load_loop_ok. eapply dash_ok_busy; [|done].
  apply (markQueued_ok true); [|done|done]. by eapply dash_ok_busy.
Qed.

Lemma hydrate_panes cached data states ch :
  let '(_, states', _) := foldl hydrate_pane (data, states, ch) cached in
  forall p, ((pane_get states' p).(ps_loading) = true -> (pane_get states p).(ps_loading) = true)
    /\ (pane_get states' p).(ps_queued) = (pane_get states p).(ps_queued).
Proof.
  revert data states ch. induction cached as [|[apiPane [v at_]] cached IH]; intros data states ch; cbn [foldl]; [done|].
  unfold hydrate_pane at 2. destruct (API_PANE_TO_STATE apiPane) as [pane|]; [|apply IH].
  destruct (pane_get data pane); [apply IH|].
  match goal with |- context [foldl hydrate_pane (?a, ?b, true) _] => specialize (IH a b true) end.
  destruct (foldl _ _ _) as [[data' states'] ch']. intros p. destruct (IH p) as [H1 H2]. revert H1 H2.
  rewrite pane_get_set. case_bool_decide as E; [|done]. subst. cbn. intros H1 H2. split; [by intros ?%H1|done].
Qed.

Lemma hydrate_ok cached d : dash_ok q0 None false d -> dash_ok q0 None false (hydrate cached d).
Proof.
  intros Hd. unfold hydrate. destruct (negb _); [done|].
  pose proof (hydrate_panes cached (da_paneDataRef d) (da_paneStatesRef d) false) as Hh.
  destruct (foldl _ _ _) as [[data' states'] [|]]; cbn [negb]; [|done].
  destruct Hd as [Edata Estates Eact Hids Hcalls Hload Hrun Hq Hlog Hcon].
  unfold setPaneStates, setPaneData. rewrite Estates in Hh. split; cbn; try done.
  - intros Hm p Hp. apply Hload; [done|]. by apply Hh.
  - intros p. destruct (Hh p) as [_ ->]. apply Hq.
Qed.

Lemma dash_event_ok t now ev s :
  dash_ok q0 None false s.1 -> dash_ok q0 None false (dash_event t now ev s).1.
Proof.
  destruct s as [d sg]. cbn [fst]. intros Hd. destruct ev; cbn [dash_event].
  - by eapply dash_ok_view; [|exact Hd].
  - destruct (negb (da_hydrating d)); [done|]. destruct cached as [cached|]; cbn [fst].
    + apply hydrate_ok. by eapply dash_ok_view; [|exact Hd].
    + by eapply dash_ok_view; [|exact Hd].
  - by apply settle_ok.
  - cbn [fst]. unfold login. destruct (truthy (da_publicKey d)) as [key|] eqn:Ek; [|done].
    set (m := if 0 <? _ then _ else _). clearbody m.
    assert (Hk : da_publicKey d = Some key) by (destruct (da_publicKey d) as [[|? ?]|]; cbn in Ek; congruence).
    pose proof (await_other_ok (CallLogin key m) d Hd I Hk) as H1. eapply dash_ok_view; [|exact H1].
    pose proof (setLoginError_view None (d <| da_loginLoading := true |>)) as H2. revert H2.
    unfold dash_view, await_call, da_emit. cbn. intros [= -> -> -> -> -> -> -> -> -> -> -> -> ->].
    by rewrite orb_true_r, orb_false_r.
  - unfold resetLogin. cbn [fst]. eapply dash_ok_view; [|exact Hd].
    by rewrite setLastLoginAttempt_view, setLoginError_view, setLoggedIn_view.
  - cbn [fst]. pose proof (refreshPane_ok false pane (da_hasAdvertLocation d) None d Hd ltac:(done)) as H1.
    destruct (refreshPane _ _ _ d) as [d1 [|]]; cbn [fst]; [done|by subst d1].
  - by apply loadAll_ok.
  - by eapply dash_ok_view; [|exact Hd].
  - cbn [fst]. unfold sendConsoleCommand. destruct (truthy (da_publicKey d)) as [key|] eqn:Ek; [|done].
    assert (Hk : da_publicKey d = Some key) by (destruct (da_publicKey d) as [[|? ?]|]; cbn in Ek; congruence).
    pose proof (await_other_ok (CallConsole key command (now / 1000)) d Hd I Hk) as H1. eapply dash_ok_view; [|exact H1].
    unfold dash_view, await_call, da_emit, setConsoleHistory. cbn. by rewrite orb_true_r, orb_false_r.
  - destruct Hd. cbn [fst]. by split.
Qed.

Lemma commit_dash_view now s :
  s.1.(da_paneDataRef) = s.1.(da_paneData) -> s.1.(da_paneStatesRef) = s.1.(da_paneStates) ->
  dash_view (commit_dash now s).1 = dash_view s.1.
Proof.
  destruct s as [d sg]. unfold commit_dash, dash_view. cbn [fst]. intros E1 E2.
  destruct (negb _); [done|]. cbn [fst]. destruct (da_staleData d); cbn; destruct (da_staleStates d); cbn; congruence.
Qed.

Lemma handle_dash_ok t s ev : dash_ok q0 None false s.1 -> dash_ok q0 None false (handle_dash t s ev).1.
Proof.
  intros Hd. destruct ev as [now ev].
  assert (H1 : dash_ok q0 None false (commit_dash now (dash_event t now ev s)).1).
  { pose proof (dash_event_ok t now ev s Hd) as H1. eapply dash_ok_view; [|exact H1].
    apply commit_dash_view; [by destruct H1|by destruct H1]. }
  unfold handle_dash. destruct ev; try exact H1; by destruct (da_mountedRef s.1).
Qed.
End invariant.

(** ** Reachable states *)

Definition run_dash t (s : Dash * DashboardStorage) (evs : list (Z * DashEvent)) : Dash * DashboardStorage :=
  foldl (handle_dash t) s evs.

(** The panes that were queued when the dashboard was opened. *)
Definition queued_at_mount pk loc now sg (p : PaneName) : Prop :=
  (pane_get (mount_dash pk loc now sg).1.(da_paneStates) p).(ps_queued) = Some true.

Lemma getCachedState_idle pk now sg c p :
  (getCachedState pk now sg).1 = Some c -> (pane_get c.(dc_paneStates) p).(ps_loading) = false.
Proof.
  unfold getCachedState. destruct (truthy pk) as [key|]; [|done].
  destruct (om_get (sg_cache sg) key) as [e|].
  - cbn [fst]. intros [= <-]. cbn. unfold normalizePaneStates. by rewrite pane_get_of.
  - destruct (loadPersistedDashboard (Some key) now sg) as [[e|] sg']; cbn [fst]; [|done].
    intros [= <-]. cbn. unfold normalizePaneStates. by rewrite pane_get_of.
Qed.

Lemma mount_dash_ok pk loc now sg : dash_ok (queued_at_mount pk loc now sg) None false (mount_dash pk loc now sg).1.
Proof.
  unfold queued_at_mount. unfold mount_dash. pose proof (getCachedState_idle pk now sg) as Hidle.
  destruct (getCachedState pk now sg) as [cached sg1]. cbn [fst] in Hidle.
  destruct (match cached with Some c => _ | None => hasRememberedRepeaterSession pk now sg1 end) as [b sg2].
  match goal with |- context [commit_dash now (?d, ?s)] => set (d0 := d); set (q := commit_dash now (d0, s)) end.
  assert (Hv : dash_view q.1 = dash_view d0) by (unfold q; by rewrite commit_dash_view).
  assert (Es : da_paneStates q.1 = da_paneStates d0) by (by apply dash_view_states).
  rewrite Es. eapply dash_ok_view; [exact Hv|]. split; cbn; try done.
  - split; [apply NoDup_nil_2|constructor].
  - intros id c Hc. by apply not_elem_of_nil in Hc.
  - intros _ p Hp. exfalso. destruct cached as [c|]; [by rewrite (Hidle c p eq_refl) in Hp|].
    unfold createInitialPaneStates in Hp. by rewrite pane_get_of in Hp.
  - by intros [|].
  - intros p Hp. by left.
Qed.

Lemma run_dash_ok t pk loc now sg evs :
  dash_ok (queued_at_mount pk loc now sg) None false (run_dash t (mount_dash pk loc now sg) evs).1.
Proof.
  unfold run_dash. induction evs as [|ev evs IH] using rev_ind; [apply mount_dash_ok|].
  rewrite foldl_app. cbn [foldl]. by apply handle_dash_ok.
Qed.

(** C16: the dashboard never hangs: at any moment, whatever was clicked and in whatever order the
    replies come, a pane that loads, the login and the console spinner, and the progress and the
    queue of Load All each stand for a call under way; so once every call is settled nothing is
    left waiting, but for panes that were already marked as queued when it was opened. *)
Theorem dashboard_never_hangs (t : jstr -> list (jstr * Json) -> jstr) (pk : option jstr) (loc : bool) (now : Z)
    (sg : DashboardStorage) (evs : list (Z * DashEvent)) :
  let d := (run_dash t (mount_dash pk loc now sg) evs).1 in
  (d.(da_mountedRef) = true -> forall p, (pane_get d.(da_paneStates) p).(ps_loading) = true -> call_on d p)
  /\ (d.(da_loadAllProgress) <> None \/ d.(da_queuedPanes) <> [] -> run_on d)
  /\ (forall p, (pane_get d.(da_paneStates) p).(ps_queued) = Some true -> queued_at_mount pk loc now sg p \/ run_on d)
  /\ (d.(da_loginLoading) = true -> exists id key m, (id, CallLogin key m) ∈ d.(da_calls))
  /\ (d.(da_consoleLoading) = true -> exists id key c n, (id, CallConsole key c n) ∈ d.(da_calls)).
Proof.
  cbv zeta. destruct (run_dash_ok t pk loc now sg evs) as [_ _ _ _ _ Hl Hr Hq Hlog Hcon].
  split_and!; [|..|done|done].
  - intros Hm p Hp. by destruct (Hl Hm p Hp).
  - intros H. by destruct (Hr H).
  - intros p Hp. destruct (Hq p Hp) as [?|[?|?]]; [by left|by right|done].
Qed.

(** ** What a click costs *)

Definition zsum {A} (f : A -> Z) (l : list A) : Z := foldr (fun x n => f x + n) 0 l.
Arguments zsum : simpl never.
Lemma zsum_nil {A} (f : A -> Z) : zsum f [] = 0.
Proof. done. Qed.
Lemma zsum_cons {A} (f : A -> Z) x l : zsum f (x :: l) = f x + zsum f l.
Proof. done. Qed.
Lemma zsum_app {A} (f : A -> Z) l k : zsum f (l ++ k) = zsum f l + zsum f k.
Proof. induction l as [|x l IH]; [done|]. cbn [app]. rewrite !zsum_cons, IH. lia. Qed.
Ltac zsums := rewrite ?zsum_app, ?zsum_cons, ?zsum_nil; cbn.

Lemma zsum_delete {V} (f : V -> Z) (m : list (Z * V)) id v :
  om_wf m -> om_get m id = Some v -> zsum (fun p => f p.2) (om_delete m id) = zsum (fun p => f p.2) m - f v.
Proof.
  intros Hw. unfold om_wf, om_keys, om_delete in *. induction m as [|[k x] m IH]; cbn [om_get]; [done|].
  cbn [fmap list_fmap fst] in Hw. apply NoDup_cons in Hw as [Hk Hw]. rewrite filter_cons. cbn [fst].
  destruct (decide (k = id)) as [->|Hne].
  - intros [= ->]. rewrite decide_False by tauto. pose proof (om_delete_absent m id Hk) as E. unfold om_delete in E.
    rewrite E, zsum_cons. cbn. lia.
  - intros E. rewrite decide_True by done. rewrite !zsum_cons, (IH Hw E). lia.
Qed.

Definition is_fetch (e : DashEffect) : bool := match e with FetchPane _ _ => true | _ => false end.
Definition fetches (log : list DashEffect) : Z := zsum (fun e => if is_fetch e then 1 else 0) log.

(** The requests a refresh can send to the mesh, and the times it can wait. *)
Definition refresh_cost (p : PaneName) : Z := if p ≟ PnNeighbors then 6 else 3.
Definition refresh_awaits (p : PaneName) : Z := if p ≟ PnNeighbors then 10 else 5.

Definition run_rest (all : option LoadAllRun) : list PaneName := match all with Some run => run.(al_rest) | None => [] end.
Definition later_cost (c : PaneCall) : Z :=
  (match c.(pc_then) with Some _ => 3 | None => 0 end) + zsum refresh_cost (run_rest c.(pc_all)).
Definition later_awaits (c : PaneCall) : Z :=
  (match c.(pc_then) with Some _ => 5 | None => 0 end) + zsum refresh_awaits (run_rest c.(pc_all)).
Definition call_cost (c : DashCall) : Z :=
  match c with CallPane c => MAX_RETRIES - c.(pc_attempt) + later_cost c | _ => 0 end.
Definition call_awaits (c : DashCall) : Z :=
  match c with
  | CallPane c => 2 * (MAX_RETRIES - c.(pc_attempt)) + (if c.(pc_delaying) then 0 else 1) + later_awaits c
  | _ => 1
  end.

(** The requests sent and those the calls under way can still send; the times these can wait. *)
Definition committed (d : Dash) : Z := fetches d.(da_log) + zsum (fun p => call_cost p.2) d.(da_calls).
Definition waits_left (d : Dash) : Z := zsum (fun p => call_awaits p.2) d.(da_calls).
Definition grows_by (n m : Z) (d d' : Dash) : Prop :=
  committed d' <= committed d + n /\ waits_left d' <= waits_left d + m.

Lemma refresh_cost_pos p : 0 < refresh_cost p /\ 0 < refresh_awaits p.
Proof. unfold refresh_cost, refresh_awaits. by case_bool_decide. Qed.
Lemma costs_pos panes : 0 <= zsum refresh_cost panes /\ 0 <= zsum refresh_awaits panes.
Proof. induction panes as [|p l IH]; [done|]. rewrite !zsum_cons. pose proof (refresh_cost_pos p). lia. Qed.

Lemma grows_same n m d d' :
  0 <= n -> 0 <= m -> d'.(da_log) = d.(da_log) -> d'.(da_calls) = d.(da_calls) -> grows_by n m d d'.
Proof. unfold grows_by, committed, waits_left. intros ? ? -> ->. lia. Qed.
Lemma grows_after n m d d1 d2 :
  d1.(da_log) = d.(da_log) -> d1.(da_calls) = d.(da_calls) -> grows_by n m d1 d2 -> grows_by n m d d2.
Proof. unfold grows_by, committed, waits_left. by intros -> ->. Qed.
Lemma grows_le n m n' m' d d' : n <= n' -> m <= m' -> grows_by n m d d' -> grows_by n' m' d d'.
Proof. unfold grows_by. lia. Qed.

Lemma start_attempt_grows c d :
  let '(d', waits) := start_attempt c d in
  if waits then grows_by (1 + call_cost (CallPane (c <| pc_delaying := false |>)))
                         (call_awaits (CallPane (c <| pc_delaying := false |>))) d d'
  else d' = d.
Proof.
  unfold start_attempt. destruct (_ <? _); [done|]. destruct (negb _); [done|].
  unfold grows_by, committed, waits_left, fetches. cbn. zsums. lia.
Qed.

Lemma refreshPane_grows p loc all d :
  let '(d', waits) := refreshPane p loc all d in
  if waits then grows_by (refresh_cost p + zsum refresh_cost (run_rest all))
                         (refresh_awaits p + zsum refresh_awaits (run_rest all)) d d'
  else d' = d.
Proof.
  unfold refreshPane. destruct (truthy _) as [key|]; [|done].
  pose (run := fun p' next => start_attempt {| pc_key := key; pc_pane := p'; pc_attempt := 1; pc_delaying := false;
    pc_then := next; pc_all := all |}).
  fold (run PnNodeInfo (Some p)) (run p None).
  assert (Hrun : let '(d', waits) := run p None d in
    if waits then grows_by (refresh_cost p + zsum refresh_cost (run_rest all))
                           (refresh_awaits p + zsum refresh_awaits (run_rest all)) d d' else d' = d).
  { unfold run. match goal with |- context [start_attempt ?c d] => pose proof (start_attempt_grows c d) as H1 end.
    destruct (start_attempt _ d) as [d1 [|]]; [|done]. eapply grows_le; [..|exact H1]; cbn;
      unfold later_cost, later_awaits, MAX_RETRIES, refresh_cost, refresh_awaits; cbn; case_bool_decide; lia. }
  destruct ((p ≟ PnNeighbors) && negb loc && needsNodeInfoPrefetch d) eqn:E; [|exact Hrun].
  apply andb_true_iff in E as [[Ep%bool_decide_eq_true _]%andb_true_iff _]. subst p.
  pose proof (start_attempt_grows {| pc_key := key; pc_pane := PnNodeInfo; pc_attempt := 1; pc_delaying := false;
    pc_then := Some PnNeighbors; pc_all := all |} d) as H1. fold (run PnNodeInfo (Some PnNeighbors) d) in H1.
  destruct (run PnNodeInfo (Some PnNeighbors) d) as [d1 [|]]; cbn [orb].
  - change (refresh_cost PnNeighbors) with 6; change (refresh_awaits PnNeighbors) with 10.
    eapply grows_le; [..|exact H1]; cbn; unfold later_cost, later_awaits, MAX_RETRIES; cbn; lia.
  - subst d1. destruct (negb (still_here key d)); [done|exact Hrun].
Qed.

Lemma load_loop_grows panes done loc d :
  grows_by (zsum refresh_cost panes) (zsum refresh_awaits panes) d (load_loop panes done loc d).
Proof.
  revert done d. induction panes as [|p pending IH]; intros done d; cbn [load_loop]; [by apply grows_same|].
  pose proof (costs_pos (p :: pending)) as [Hc Ha]. destruct (_ || _); [by apply grows_same|].
  set (d1 := markQueued _ _). apply (grows_after _ _ _ d1); [done..|].
  pose proof (refreshPane_grows p loc (Some {| al_done := done + 1; al_rest := pending; al_hasAdvertLocation := loc |}) d1) as H1.
  destruct (refreshPane _ _ _ d1) as [d2 [|]]; [exact H1|]. subst d2.
  apply (grows_after _ _ _ (load_all_progress (done + 1) d1)); [done..|].
  pose proof (refresh_cost_pos p). eapply grows_le; [..|apply IH]; rewrite zsum_cons; lia.
Qed.

Lemma refresh_returned_grows all d :
  grows_by (zsum refresh_cost (run_rest all)) (zsum refresh_awaits (run_rest all)) d (refresh_returned all d).
Proof.
  destruct all as [run|]; cbn [refresh_returned run_rest]; [|by apply grows_same].
  apply (grows_after _ _ _ (load_all_progress (al_done run) d)); [done..|]. apply load_loop_grows.
Qed.

Lemma attempts_returned_grows c d : grows_by (later_cost c) (later_awaits c) d (attempts_returned c d).
Proof.
  unfold attempts_returned, later_cost, later_awaits. destruct (pc_then c) as [pane|]; [|apply refresh_returned_grows].
  assert (Hr : grows_by (3 + zsum refresh_cost (run_rest (pc_all c))) (5 + zsum refresh_awaits (run_rest (pc_all c))) d
    (refresh_returned (pc_all c) d)) by (eapply grows_le; [..|apply refresh_returned_grows]; lia).
  destruct (negb _); [exact Hr|]. set (c1 := {| pc_key := pc_key c |}). pose proof (start_attempt_grows c1 d) as H1.
  destruct (start_attempt c1 d) as [d1 [|]]; [|by subst d1]. eapply grows_le; [..|exact H1]; cbn;
    unfold later_cost, later_awaits, MAX_RETRIES; cbn; lia.
Qed.

Lemma pane_replied_grows c data now d : grows_by (later_cost c) (later_awaits c) d (pane_replied c data now d).
Proof.
  unfold pane_replied. destruct (negb _); [apply attempts_returned_grows|].
  eapply grows_after; [| |apply attempts_returned_grows]; done.
Qed.

Lemma later_pos c : 0 <= later_cost c /\ 0 <= later_awaits c.
Proof. unfold later_cost, later_awaits. pose proof (costs_pos (run_rest (pc_all c))). destruct (pc_then c); lia. Qed.

Lemma pane_failed_grows t c err d : c.(pc_delaying) = false -> c.(pc_attempt) <= MAX_RETRIES ->
  grows_by (call_cost (CallPane c)) (call_awaits (CallPane c) - 1) d (pane_failed t c err d).
Proof.
  intros Ed Ha. unfold pane_failed.
  assert (Hl : forall d1, d1.(da_calls) = d.(da_calls) -> fetches d1.(da_log) = fetches d.(da_log) ->
    grows_by (call_cost (CallPane c)) (call_awaits (CallPane c) - 1) d (attempts_returned c d1)).
  { intros d1 E1 E2. pose proof (attempts_returned_grows c d1) as H1. cbn [call_cost call_awaits]. rewrite Ed.
    unfold grows_by, committed, waits_left in *. rewrite E1, E2 in H1. lia. }
  destruct (negb (still_here _ _)); [by apply Hl|].
  generalize (err_message err (t (js "toast.requestFailed") [])). intros msg.
  generalize (t (js "toast.fetchPaneFailed") [(js "pane", Jstring (t (PANE_LABEL_KEYS (pc_pane c)) []))])
      (default msg (truthy (Some (formatApiError t err)))). intros title desc.
  destruct (_ || _).
  - apply Hl; [done|]. cbn. unfold fetches. zsums. lia.
  - unfold grows_by, committed, waits_left, await_call. cbn [da_log da_calls set]. cbn. zsums.
    rewrite Ed. unfold later_cost, later_awaits. cbn. lia.
Qed.

Lemma delay_over_grows c d : c.(pc_delaying) = true -> c.(pc_attempt) < MAX_RETRIES ->
  grows_by (call_cost (CallPane c)) (call_awaits (CallPane c) - 1) d (delay_over c d).
Proof.
  intros Ed Ha. unfold delay_over. set (next := c <| pc_attempt := _ |> <| pc_delaying := false |>).
  pose proof (start_attempt_grows next d) as H1. cbn [call_cost call_awaits]. rewrite Ed.
  destruct (start_attempt next d) as [d1 [|]].
  - eapply grows_le; [..|exact H1]; cbn; unfold later_cost, later_awaits; cbn; lia.
  - subst d1. eapply grows_le; [..|apply attempts_returned_grows]; unfold later_cost, later_awaits; cbn; lia.
Qed.

(** ** Every call ends *)

(** The outcome is one the call waits for. *)
Definition awaits_outcome (c : DashCall) (outcome : CallOutcome) : bool :=
  match c, outcome with
  | CallPane c, PaneReply _ | CallPane c, PaneError _ => negb c.(pc_delaying)
  | CallPane c, DelayOver => c.(pc_delaying)
  | CallLogin _ _, LoginReply _ | CallLogin _ _, LoginError _ => true
  | CallConsole _ _ _, CommandSettled _ => true
  | _, _ => false
  end.

Lemma view_costs d d' : dash_view d' = dash_view d -> d'.(da_calls) = d.(da_calls).
Proof. unfold dash_view. by intros [= _ _ _ _ _ _ _ -> _ _ _ _ _]. Qed.

Lemma fetches_toast log title desc : fetches (log ++ [ToastError title desc]) = fetches log.
Proof. unfold fetches. zsums. lia. Qed.

#[local] Arguments setLastLoginAttempt : simpl never.
#[local] Arguments setLoginError : simpl never.
#[local] Arguments setLoggedIn : simpl never.

Lemma setLoggedIn_log b d : (setLoggedIn b d).(da_log) = d.(da_log).
Proof. unfold setLoggedIn. by destruct (_ ≟ _). Qed.
Lemma setLoginError_log e d : (setLoginError e d).(da_log) = d.(da_log).
Proof. unfold setLoginError. by destruct (_ ≟ _). Qed.
Lemma setLastLoginAttempt_log a d : (setLastLoginAttempt a d).(da_log) = d.(da_log).
Proof. unfold setLastLoginAttempt. by destruct a, (da_lastLoginAttempt d). Qed.

Lemma login_replied_log t key m result now d sg :
  fetches (login_replied t key m result now (d, sg)).1.(da_log) = fetches d.(da_log).
Proof.
  unfold login_replied. destruct (negb _); [done|].
  generalize (buildServerLoginAttemptFromResponse t m result (js "repeater") now). intros a.
  destruct (negb (lr_authenticated result)).
  - generalize (t (js "repeater.loginNotConfirmed") []) (getLoginToastTitle t (lr_status result)). intros dflt title.
    unfold da_emit. cbn. rewrite fetches_toast. by rewrite setLoginError_log, setLoggedIn_log, setLastLoginAttempt_log.
  - cbn. by rewrite setLoggedIn_log, setLastLoginAttempt_log.
Qed.
Lemma login_failed_log t key m err now d sg :
  fetches (login_failed t key m err now (d, sg)).1.(da_log) = fetches d.(da_log).
Proof.
  unfold login_failed. destruct (negb _); [done|].
  generalize (err_message err (t (js "toast.loginFailed") [])). intros msg.
  generalize (buildServerLoginAttemptFromError t m msg (js "repeater") now) (t (js "toast.loginRequestFailed") [])
    (t (js "toast.loginRequestFailedDetail") [(js "message", Jstring msg)]). intros a title desc.
  unfold da_emit. cbn. rewrite fetches_toast. by rewrite setLoginError_log, setLoggedIn_log, setLastLoginAttempt_log.
Qed.

(** A settled call commits no request that was not counted, and brings the end nearer. *)
Lemma settle_grows t q0 id outcome now s c :
  dash_ok q0 None false s.1 -> om_get s.1.(da_calls) id = Some c ->
  grows_by 0 (if awaits_outcome c outcome then -1 else 0) s.1 (settle t id outcome now s).1.
Proof.
  destruct s as [d sg]. cbn [fst]. intros Hd Hget. unfold settle. cbn [fst snd]. rewrite Hget.
  destruct (dash_ok_settled q0 id c d Hd Hget) as [_ Hc]. destruct (dk_ids _ _ _ _ Hd) as [Hw _].
  set (d1 := d <| da_calls := om_delete (da_calls d) id |>).
  assert (Hdel : forall n m d2, grows_by n m d1 d2 -> n <= call_cost c -> m <= call_awaits c - 1 -> grows_by 0 (-1) d d2).
  { intros n m d2 [H1 H2] Hn Hm. unfold grows_by, committed, waits_left in *. cbn in H1, H2.
    rewrite (zsum_delete call_cost _ _ _ Hw Hget) in H1. rewrite (zsum_delete call_awaits _ _ _ Hw Hget) in H2. lia. }
  assert (H0 : grows_by 0 0 d d) by by apply grows_same.
  destruct c as [c|key m|key command n], outcome; cbn [settle_call awaits_outcome from_option Datatypes.id fst snd]; try exact H0.
  - destruct (pc_delaying c) eqn:Ed; [exact H0|]. eapply Hdel; [apply pane_replied_grows|..];
      destruct Hc as [[? ?] _ _]; cbn; rewrite ?Ed; lia.
  - destruct (pc_delaying c) eqn:Ed; [exact H0|]. destruct Hc as [[? ?] _ _].
    eapply Hdel; [by apply pane_failed_grows|..]; lia.
  - destruct (pc_delaying c) eqn:Ed; [|exact H0]. destruct Hc as [_ Hb _]. 
    eapply Hdel; [apply delay_over_grows; auto|..]; lia.
  - eapply (Hdel 0 0); [|cbn; lia|cbn; lia]. pose proof (login_replied_log t key m result now d1 sg) as E1.
    assert (E2 : dash_view (login_replied t key m result now (d1, sg)).1 = dash_view (d1 <| da_loginLoading := false |>))
      by (apply login_replied_view; cbn; by rewrite (dk_active _ _ _ _ Hd)).
    apply view_costs in E2. unfold grows_by, committed, waits_left. rewrite E1, E2. change (da_calls (d1 <| da_loginLoading := false |>)) with (da_calls d1). lia.
  - eapply (Hdel 0 0); [|cbn; lia|cbn; lia]. pose proof (login_failed_log t key m err now d1 sg) as E1.
    assert (E2 : dash_view (login_failed t key m err now (d1, sg)).1 = dash_view (d1 <| da_loginLoading := false |>))
      by (apply login_failed_view; cbn; by rewrite (dk_active _ _ _ _ Hd)).
    apply view_costs in E2. unfold grows_by, committed, waits_left. rewrite E1, E2. change (da_calls (d1 <| da_loginLoading := false |>)) with (da_calls d1). lia.
  - eapply (Hdel 0 0); [|cbn; lia|cbn; lia]. unfold command_settled. destruct (negb _); by apply grows_same.
Qed.

(** What an event can add: requests, and waits. *)
Definition event_cost (ev : DashEvent) : Z :=
  match ev with DvRefreshPane p => refresh_cost p | DvLoadAll => 30 | _ => 0 end.
Definition event_awaits (ev : DashEvent) : Z :=
  match ev with
  | DvRefreshPane p => refresh_awaits p | DvLoadAll => 50 | DvLogin _ | DvCommand _ => 1 | _ => 0
  end.

Lemma dash_event_grows t q0 now ev s :
  dash_ok q0 None false s.1 -> grows_by (event_cost ev) (event_awaits ev) s.1 (dash_event t now ev s).1.
Proof.
  destruct s as [d sg]. cbn [fst]. intros Hd.
  destruct ev; cbn [dash_event event_cost event_awaits fst]; try by apply grows_same.
  - destruct (negb _); [by apply grows_same|]. destruct cached as [cached|]; cbn [fst]; [|by apply grows_same].
    unfold hydrate. destruct (negb _); [by apply grows_same|].
    destruct (foldl _ _ _) as [[? ?] [|]]; by apply grows_same.
  - destruct (om_get (da_calls d) id) as [c|] eqn:Hget.
    + eapply grows_le; [..|by eapply settle_grows]; [done|]. by destruct (awaits_outcome c outcome).
    + unfold settle. cbn [fst]. rewrite Hget. by apply grows_same.
  - unfold login. destruct (truthy _) as [key|]; [|by apply grows_same]. set (m := if 0 <? _ then _ else _). clearbody m.
    pose proof (setLoginError_view None (d <| da_loginLoading := true |>)) as E1%view_costs.
    pose proof (setLoginError_log None (d <| da_loginLoading := true |>)) as E2. cbn in E1, E2.
    unfold await_call, da_emit, grows_by, committed, waits_left, fetches. cbn. rewrite E1, E2. zsums. lia.
  - pose proof (setLoginError_log None (setLoggedIn false d)) as E1. unfold resetLogin. cbn [fst].
    apply grows_same; [done|done| |]; [by rewrite setLastLoginAttempt_log, setLoginError_log, setLoggedIn_log|].
    apply view_costs. by rewrite setLastLoginAttempt_view, setLoginError_view, setLoggedIn_view.
  - pose proof (refreshPane_grows pane (da_hasAdvertLocation d) None d) as H1. pose proof (refresh_cost_pos pane).
    destruct (refreshPane _ _ _ d) as [d1 [|]]; cbn [fst]; [|subst d1; apply grows_same; lia || done].
    eapply grows_le; [..|exact H1]; cbn; zsums; lia.
  - unfold loadAll. eapply grows_after; [| |apply load_loop_grows]; done.
  - unfold sendConsoleCommand. destruct (truthy _) as [key|]; [|by apply grows_same].
    unfold await_call, da_emit, grows_by, committed, waits_left, fetches. cbn. zsums. lia.
Qed.

Lemma commit_dash_same now s :
  (commit_dash now s).1.(da_log) = s.1.(da_log) /\ (commit_dash now s).1.(da_calls) = s.1.(da_calls).
Proof.
  destruct s as [d sg]. unfold commit_dash. destruct (negb _); [done|]. cbn [fst].
  destruct (da_staleData d); cbn; by destruct (da_staleStates d).
Qed.

Lemma event_pos ev : 0 <= event_cost ev /\ 0 <= event_awaits ev.
Proof. destruct ev; cbn; try done. pose proof (refresh_cost_pos pane). lia. Qed.

Lemma handle_dash_grows t q0 s ev :
  dash_ok q0 None false s.1 -> grows_by (event_cost ev.2) (event_awaits ev.2) s.1 (handle_dash t s ev).1.
Proof.
  intros Hd. destruct ev as [now ev]. cbn [snd]. pose proof (event_pos ev) as [Hc Ha].
  assert (H1 : grows_by (event_cost ev) (event_awaits ev) s.1 (commit_dash now (dash_event t now ev s)).1).
  { pose proof (dash_event_grows t q0 now ev s Hd) as H1. destruct (commit_dash_same now (dash_event t now ev s)) as [E1 E2].
    unfold grows_by, committed, waits_left in *. by rewrite E1, E2. }
  unfold handle_dash. destruct ev; try exact H1; (destruct (da_mountedRef s.1); [exact H1|by apply grows_same]).
Qed.

Lemma mount_empty pk loc now sg :
  (mount_dash pk loc now sg).1.(da_log) = [] /\ (mount_dash pk loc now sg).1.(da_calls) = [].
Proof.
  unfold mount_dash. destruct (getCachedState pk now sg) as [cached sg1].
  destruct (match cached with Some c => _ | None => hasRememberedRepeaterSession pk now sg1 end) as [b sg2].
  match goal with |- context [commit_dash now (?d, ?s)] => destruct (commit_dash_same now (d, s)) as [-> ->] end. done.
Qed.

Lemma run_grows t pk loc now sg evs :
  let d := (run_dash t (mount_dash pk loc now sg) evs).1 in
  committed d <= zsum (fun ev => event_cost ev.2) evs /\ waits_left d <= zsum (fun ev => event_awaits ev.2) evs.
Proof.
  cbv zeta. unfold run_dash. induction evs as [|ev evs IH] using rev_ind.
  - cbn [foldl]. unfold committed, waits_left. by destruct (mount_empty pk loc now sg) as [-> ->].
  - rewrite foldl_app, !zsum_app. cbn [foldl].
    destruct (handle_dash_grows t _ _ ev (run_dash_ok t pk loc now sg evs)) as [H1 H2]. unfold run_dash in *.
    rewrite !zsum_cons, !zsum_nil. lia.
Qed.

Lemma calls_nonneg q0 d : dash_ok q0 None false d ->
  0 <= zsum (fun p => call_cost p.2) d.(da_calls) /\ len d.(da_calls) <= waits_left d.
Proof.
  intros Hd. unfold waits_left. pose proof (dk_calls _ _ _ _ Hd) as Hc. revert Hc. generalize (da_calls d) as l.
  induction l as [|[id c] l IH]; intros Hc; [done|]. rewrite !zsum_cons, len_cons. cbn [snd].
  specialize (IH (fun i x Hx => Hc i x (list_elem_of_further _ _ _ Hx))).
  assert (0 <= call_cost c /\ 1 <= call_awaits c); [|lia]. specialize (Hc id c (list_elem_of_here _ _)).
  destruct c as [c| |]; cbn; [|lia..]. destruct Hc as [[Ha1 Ha2] Hb _]. pose proof (later_pos c).
  destruct (pc_delaying c); [|lia]. specialize (Hb eq_refl). lia.
Qed.

(** The dashboard does not flood the mesh: the requests it ever sends for panes number at most
    three for each refresh, six for the neighbours' (which may need the node's info first) and
    thirty for each Load All, however they fail. *)
Theorem mesh_requests_bounded (t : jstr -> list (jstr * Json) -> jstr) (pk : option jstr) (loc : bool) (now : Z)
    (sg : DashboardStorage) (evs : list (Z * DashEvent)) :
  fetches (run_dash t (mount_dash pk loc now sg) evs).1.(da_log) <= zsum (fun ev => event_cost ev.2) evs.
Proof.
  destruct (run_grows t pk loc now sg evs) as [H1 _].
  destruct (calls_nonneg _ _ (run_dash_ok t pk loc now sg evs)) as [H2 _]. unfold committed in H1. lia.
Qed.

(** A run of outcomes, each of a call under way that waits for it. *)
Fixpoint settling t (s : Dash * DashboardStorage) (outs : list (Z * (Z * CallOutcome))) : Prop :=
  match outs with
  | [] => True
  | (now, (id, outcome)) :: outs =>
    (exists c, om_get s.1.(da_calls) id = Some c /\ awaits_outcome c outcome = true)
    /\ settling t (handle_dash t s (now, DvSettled id outcome)) outs
  end.
Definition settle_all t (s : Dash * DashboardStorage) (outs : list (Z * (Z * CallOutcome))) : Dash * DashboardStorage :=
  foldl (fun s out => handle_dash t s (out.1, DvSettled out.2.1 out.2.2)) s outs.

Lemma settling_shrinks t q0 s outs :
  dash_ok q0 None false s.1 -> settling t s outs ->
  waits_left (settle_all t s outs).1 + len outs <= waits_left s.1.
Proof.
  revert s. induction outs as [|[now [id outcome]] outs IH]; intros s Hd; cbn [settling settle_all foldl]; [rewrite len_nil; intros _; lia|].
  intros [(c & Hget & Hw) Hs]. cbn [fst snd] in *.
  specialize (IH _ (handle_dash_ok q0 t s (now, DvSettled id outcome) Hd) Hs). rewrite len_cons.
  pose proof (settle_grows t q0 id outcome now s c Hd Hget) as [_ H2]. rewrite Hw in H2.
  destruct s as [d sg]. destruct (commit_dash_same now (settle t id outcome now (d, sg))) as [_ E2].
  change (handle_dash t (d, sg) (now, DvSettled id outcome)) with (commit_dash now (settle t id outcome now (d, sg))) in IH |- *.
  unfold settle_all in IH. unfold waits_left in *. cbn [fst] in *. rewrite E2 in IH. lia.
Qed.

(** C39: every refresh, every Load All, login and command comes to its end: replies, errors and
    timers can settle calls at most fifty times for each Load All, ten or five for each refresh,
    and once for each login or command; a call under way can always be settled; and when they all
    are, the mounted dashboard shows nothing loading and Load All done. *)
Theorem dashboard_settles (t : jstr -> list (jstr * Json) -> jstr) (pk : option jstr) (loc : bool) (now : Z)
    (sg : DashboardStorage) (evs : list (Z * DashEvent)) (outs : list (Z * (Z * CallOutcome))) :
  let s := run_dash t (mount_dash pk loc now sg) evs in
  let d := (settle_all t s outs).1 in
  settling t s outs ->
  len outs <= zsum (fun ev => event_awaits ev.2) evs
  /\ (d.(da_calls) <> [] -> exists at_ id outcome, settling t s (outs ++ [(at_, (id, outcome))]))
  /\ (d.(da_calls) = [] -> d.(da_mountedRef) = true ->
      (forall p, (pane_get d.(da_paneStates) p).(ps_loading) = false) /\ d.(da_loadAllProgress) = None
      /\ d.(da_loginLoading) = false /\ d.(da_consoleLoading) = false).
Proof.
  cbv zeta. set (s := run_dash _ _ evs). intros Hs.
  pose proof (run_dash_ok t pk loc now sg evs) as Hd. fold s in Hd.
  set (q0 := queued_at_mount pk loc now sg) in *.
  assert (Hd' : dash_ok q0 None false (settle_all t s outs).1).
  { unfold settle_all. clear Hs. induction outs as [|out outs IH] using rev_ind; [done|]. rewrite foldl_app. cbn [foldl].
    by apply handle_dash_ok. }
  split_and!.
  - pose proof (settling_shrinks t q0 s outs Hd Hs). destruct (run_grows t pk loc now sg evs) as [_ H2]. fold s in H2.
    destruct (calls_nonneg _ _ Hd') as [_ H3]. pose proof (len_nonneg (da_calls (settle_all t s outs).1)). lia.
  - destruct (da_calls (settle_all t s outs).1) as [|[id c] l] eqn:E; [done|]. intros _.
    assert (Hget : om_get (da_calls (settle_all t s outs).1) id = Some c) by (rewrite E; cbn; by rewrite decide_True).
    assert (exists outcome, awaits_outcome c outcome = true) as [outcome Ho].
    { destruct c as [c|key m|key cmd n]; [destruct (pc_delaying c) eqn:Ed; [exists DelayOver|exists (PaneReply Jnull)]; cbn; by rewrite Ed| |].
      - by exists (LoginError (ErrOther [])).
      - by exists (CommandSettled (inl (ErrOther []))). }
    exists 0, id, outcome. clear Hd Hd'. clearbody s. revert s Hs E Hget. induction outs as [|[n [i o]] outs IH]; intros s Hs E Hget.
    + split; [by exists c|done].
    + destruct Hs as [H1 H2]. split; [done|]. by apply IH.
  - intros E Hm. destruct Hd' as [_ _ _ _ _ Hl Hr _ Hlog Hcon]. rewrite E in *.
    assert (Hno : forall x, x ∉ da_calls (settle_all t s outs).1) by (rewrite E; intros x; apply not_elem_of_nil).
    split_and!.
    + intros p. destruct (ps_loading _) eqn:Ep; [|done]. destruct (Hl Hm p Ep) as [(i & x & Hx & _)|?]; [by apply Hno in Hx|done].
    + destruct (da_loadAllProgress _); [|done]. destruct Hr as [(i & x & Hx & _)|?]; [by left|by apply Hno in Hx|done].
    + destruct (da_loginLoading _); [|done]. destruct Hlog as (? & ? & ? & Hx); [done|]. by apply not_elem_of_nil in Hx.
    + destruct (da_consoleLoading _); [|done]. destruct Hcon as (? & ? & ? & ? & Hx); [done|]. by apply not_elem_of_nil in Hx.
Qed.
