(* ===== verification/RepeaterDashboardErrors.v ===== *)
(** The dashboard of a repeater: a pane that fails says so and keeps its value (a node info asked again
    at once by the neighbours shows the new attempt), and a dashboard
    that is opened again shows what it showed. *)
From S2P Require Import Prelude JsString JsCollections JsNum Json ApiErrors Types RepeaterDashboard RepeaterDashboardProps.

(** ** Where calls go on *)

(** The info of the node is only fetched first for the neighbours, and a run of Load All goes on
    with the panes after its own. *)
Definition call_fits (c : PaneCall) : Prop :=
  (match c.(pc_then) with Some q => c.(pc_pane) = PnNodeInfo /\ q = PnNeighbors | None => True end)
  /\ match c.(pc_all) with
     | None => True
     | Some run => exists pre, LOAD_ALL_PANES = pre ++ default c.(pc_pane) c.(pc_then) :: run.(al_rest)
     end.
Definition calls_fit (d : Dash) : Prop := forall id c, (id, CallPane c) ∈ d.(da_calls) -> call_fits c.

Lemma calls_fit_same d d' : d'.(da_calls) = d.(da_calls) -> calls_fit d -> calls_fit d'.
Proof. by unfold calls_fit; intros ->. Qed.

Lemma calls_fit_snoc id c d d' :
  d'.(da_calls) = d.(da_calls) ++ [(id, c)] -> match c with CallPane c => call_fits c | _ => True end ->
  calls_fit d -> calls_fit d'.
Proof.
  intros E Hc Hd i x. rewrite E. intros [Hx|Hx]%elem_of_app; [by eapply Hd|]. by apply list_elem_of_singleton in Hx as [= -> <-].
Qed.

Lemma start_attempt_fits c d : call_fits c -> calls_fit d -> calls_fit (start_attempt c d).1.
Proof.
  intros Hc Hd. unfold start_attempt. destruct (_ <? _); [done|]. destruct (negb _); [done|].
  by eapply calls_fit_snoc; [done| |done].
Qed.

Lemma refreshPane_fits p loc all d :
  (match all with Some run => exists pre, LOAD_ALL_PANES = pre ++ p :: run.(al_rest) | None => True end) ->
  calls_fit d -> calls_fit (refreshPane p loc all d).1.
Proof.
  intros Ha Hd. unfold refreshPane. destruct (truthy _) as [key|]; [|done].
  destruct (_ && _) eqn:E; [|by apply start_attempt_fits].
  apply andb_true_iff in E as [[Ep%bool_decide_eq_true _]%andb_true_iff _]. subst p.
  match goal with |- context [start_attempt ?c d] => pose proof (start_attempt_fits c d) as H1; destruct (start_attempt c d) as [d1 w] end.
  cbn [fst] in H1. specialize (H1 ltac:(done) Hd). destruct (w || _); [done|]. by apply start_attempt_fits.
Qed.

Lemma load_loop_fits panes done_ loc d :
  (exists pre, LOAD_ALL_PANES = pre ++ panes) -> calls_fit d -> calls_fit (load_loop panes done_ loc d).
Proof.
  revert done_ d. induction panes as [|p pending IH]; intros done_ d [pre Hpre] Hd; cbn [load_loop]; [done|].
  destruct (_ || _); [done|]. set (d1 := markQueued _ _).
  set (run := {| al_done := done_ + 1 |}).
  pose proof (refreshPane_fits p loc (Some run) d1 (ex_intro _ pre Hpre) Hd) as H1.
  destruct (refreshPane _ _ _ d1) as [d2 [|]]; [done|]. apply IH; [|done]. exists (pre ++ [p]). by rewrite <- app_assoc.
Qed.

Lemma refresh_returned_fits c d :
  call_fits c -> calls_fit d -> calls_fit (refresh_returned c.(pc_all) d).
Proof.
  intros [_ Hc] Hd. unfold refresh_returned. destruct (pc_all c) as [run|]; [|done]. apply load_loop_fits; [|done].
  destruct Hc as [pre E]. exists (pre ++ [default (pc_pane c) (pc_then c)]). by rewrite <- app_assoc.
Qed.

Lemma attempts_returned_fits c d : call_fits c -> calls_fit d -> calls_fit (attempts_returned c d).
Proof.
  intros Hc Hd. unfold attempts_returned. pose proof (refresh_returned_fits c d Hc Hd) as Hr.
  destruct (pc_then c) as [q|] eqn:Et; [|exact Hr]. destruct (negb _); [exact Hr|].
  set (c1 := {| pc_key := pc_key c |}). assert (H1 : calls_fit (start_attempt c1 d).1).
  { apply start_attempt_fits; [|done]. destruct Hc as [_ Hc]. rewrite Et in Hc. by split. }
  unfold start_attempt in *. destruct (_ <? _); [exact Hr|]. by destruct (negb _).
Qed.

Lemma calls_fit_deleted id d : calls_fit d -> calls_fit (d <| da_calls := om_delete d.(da_calls) id |>).
Proof. intros Hd i c [Hc _]%om_elem_delete. by eapply Hd. Qed.

Lemma settle_fits t id outcome now s : calls_fit s.1 -> calls_fit (settle t id outcome now s).1.
Proof.
  destruct s as [d sg]. intros Hd. unfold settle. cbn [fst snd] in *.
  destruct (om_get (da_calls d) id) as [c|] eqn:Hget; [|done].
  pose proof (calls_fit_deleted id d Hd) as H1. set (d1 := d <| da_calls := _ |>) in *.
  destruct c as [c|key m|key command n], outcome; cbn [settle_call from_option Datatypes.id fst snd]; try exact Hd.
  - pose proof (Hd id c (om_get_Some_elem _ _ _ Hget)) as Hc. destruct (pc_delaying c); [exact Hd|].
    cbn [from_option Datatypes.id fst]. unfold pane_replied. destruct (negb _); by apply attempts_returned_fits.
  - pose proof (Hd id c (om_get_Some_elem _ _ _ Hget)) as Hc. destruct (pc_delaying c); [exact Hd|].
    cbn [from_option Datatypes.id fst]. unfold pane_failed. destruct (negb _); [by apply attempts_returned_fits|].
    generalize (err_message err (t (js "toast.requestFailed") [])). intros msg.
    generalize (ToastError (t (js "toast.fetchPaneFailed") [(js "pane", Jstring (t (PANE_LABEL_KEYS (pc_pane c)) []))])
      (default msg (truthy (Some (formatApiError t err))))). intros toast.
    destruct (_ || _); [by apply attempts_returned_fits|]. eapply (calls_fit_snoc _ _ d1); [reflexivity|exact Hc|exact H1].
  - pose proof (Hd id c (om_get_Some_elem _ _ _ Hget)) as Hc. destruct (pc_delaying c); [|exact Hd].
    cbn [from_option Datatypes.id fst]. unfold delay_over. set (next := c <| pc_attempt := _ |> <| pc_delaying := _ |>).
    assert (Hn : call_fits next) by exact Hc. pose proof (start_attempt_fits next d1 Hn H1) as H2.
    destruct (start_attempt next d1) as [d2 [|]]; [exact H2|]. by apply attempts_returned_fits.
  - assert (E : da_calls (login_replied t key m result now (d1, sg)).1 = da_calls d1); [|by eapply calls_fit_same].
    destruct (decide (da_activeIdRef d1 = Some key)) as [Ea|Ea].
    + pose proof (login_replied_view t key m result now d1 sg Ea) as Hv. by apply view_costs in Hv.
    + unfold login_replied. by rewrite bool_decide_eq_false_2.
  - assert (E : da_calls (login_failed t key m err now (d1, sg)).1 = da_calls d1); [|by eapply calls_fit_same].
    destruct (decide (da_activeIdRef d1 = Some key)) as [Ea|Ea].
    + pose proof (login_failed_view t key m err now d1 sg Ea) as Hv. by apply view_costs in Hv.
    + unfold login_failed. by rewrite bool_decide_eq_false_2.
  - unfold command_settled. by destruct (negb _).
Qed.

Lemma dash_event_fits t now ev s : calls_fit s.1 -> calls_fit (dash_event t now ev s).1.
Proof.
  destruct s as [d sg]. cbn [fst]. intros Hd. destruct ev; cbn [dash_event fst]; try done.
  - destruct (negb _); [done|]. destruct cached as [cached|]; [|done]. cbn [fst]. unfold hydrate. destruct (negb _); [done|].
    by destruct (foldl _ _ _) as [[? ?] [|]].
  - by apply settle_fits.
  - unfold login. destruct (truthy _) as [key|]; [|done]. set (m := if 0 <? _ then _ else _). clearbody m.
    pose proof (setLoginError_view None (d <| da_loginLoading := true |>)) as E1%view_costs.
    eapply (calls_fit_snoc _ (CallLogin key m) d); [|exact I|exact Hd]. unfold await_call, da_emit. cbn. by rewrite E1.
  - eapply calls_fit_same; [|exact Hd]. unfold resetLogin. cbn [fst]. apply view_costs.
    by rewrite setLastLoginAttempt_view, setLoginError_view, setLoggedIn_view.
  - by apply refreshPane_fits.
  - unfold loadAll. apply load_loop_fits; [by exists []|done].
  - unfold sendConsoleCommand. destruct (truthy _) as [key|]; [|done]. by eapply (calls_fit_snoc _ (CallConsole key command (now / 1000)) d); [reflexivity|exact I|].
Qed.

Lemma run_fits t pk loc now sg evs : calls_fit (run_dash t (mount_dash pk loc now sg) evs).1.
Proof.
  unfold run_dash. induction evs as [|[at_ ev] evs IH] using rev_ind.
  - intros id c. cbn [foldl]. destruct (mount_empty pk loc now sg) as [_ ->]. by intros ?%not_elem_of_nil.
  - rewrite foldl_app. cbn [foldl]. generalize dependent (foldl (handle_dash t) (mount_dash pk loc now sg) evs). intros s IH.
    assert (H1 : calls_fit (commit_dash at_ (dash_event t at_ ev s)).1).
    { eapply calls_fit_same; [apply commit_dash_same|]. by apply dash_event_fits. }
    unfold handle_dash. destruct ev; try exact H1; by destruct (da_mountedRef s.1).
Qed.

(** ** What going on leaves alone *)

(** What a pane shows, but for its place in the queue. *)
Definition pane_view (st : PaneState) : bool * Z * option jstr * option Z :=
  (st.(ps_loading), st.(ps_attempt), st.(ps_error), st.(ps_fetched_at)).

Record pane_shows (p : PaneName) v data (log : list DashEffect) (d : Dash) : Prop := {
  sh_state : pane_view (pane_get d.(da_paneStates) p) = v;
  sh_ref : pane_view (pane_get d.(da_paneStatesRef) p) = v;
  sh_data : d.(da_paneData) = data;
  sh_log : exists more, d.(da_log) = log ++ more;
}.

(** The panes a refresh of [q] may fetch. *)
Definition fetches_of (q : PaneName) : list PaneName := if q ≟ PnNeighbors then [PnNodeInfo; q] else [q].

Section shows.
Context (p : PaneName) (v : bool * Z * option jstr * option Z) (data : PaneData) (log : list DashEffect).

Lemma pane_shows_same d d' :
  d'.(da_paneStates) = d.(da_paneStates) -> d'.(da_paneStatesRef) = d.(da_paneStatesRef) ->
  d'.(da_paneData) = d.(da_paneData) -> d'.(da_log) = d.(da_log) ->
  pane_shows p v data log d -> pane_shows p v data log d'.
Proof. intros E1 E2 E3 E4 []. split; by rewrite ?E1, ?E2, ?E3, ?E4. Qed.

Lemma markQueued_shows pending d : pane_shows p v data log d -> pane_shows p v data log (markQueued pending d).
Proof. intros []. split; cbn; try done; by rewrite pane_get_of. Qed.

Lemma start_attempt_shows c d :
  c.(pc_pane) <> p -> pane_shows p v data log d -> pane_shows p v data log (start_attempt c d).1.
Proof.
  intros Hp Hd. unfold start_attempt. destruct (_ <? _); [done|]. destruct (negb _); [done|].
  destruct Hd as [Hs Hr Hda [more Hl]]. split; cbn; rewrite ?pane_get_set, ?bool_decide_eq_false_2 by congruence; try done.
  rewrite Hl, <- app_assoc. by eexists.
Qed.

Lemma refreshPane_shows q loc all d :
  p ∉ fetches_of q -> pane_shows p v data log d -> pane_shows p v data log (refreshPane q loc all d).1.
Proof.
  intros Hp Hd. assert (Hq : q <> p) by (intros ->; apply Hp; unfold fetches_of; case_bool_decide; repeat constructor).
  unfold refreshPane. destruct (truthy _) as [key|]; [|done]. destruct (_ && _) eqn:E; [|by apply start_attempt_shows].
  apply andb_true_iff in E as [[Eq%bool_decide_eq_true _]%andb_true_iff _]. subst q.
  assert (Hn : PnNodeInfo <> p) by (intros <-; apply Hp; by left).
  match goal with |- context [start_attempt ?c d] => pose proof (start_attempt_shows c d Hn Hd) as H1; destruct (start_attempt c d) as [d1 w] end.
  cbn [fst] in H1. destruct (w || _); [done|]. by apply start_attempt_shows.
Qed.

Lemma finish_load_all_shows d : pane_shows p v data log d -> pane_shows p v data log (finish_load_all d).
Proof.
  intros Hd. unfold finish_load_all. eapply pane_shows_same; [| | | |apply (markQueued_shows [] (d <| da_queuedPanes := [] |>))];
    [reflexivity..|]. by eapply pane_shows_same; [| | | |exact Hd].
Qed.

Lemma load_loop_shows panes done_ loc d :
  (forall q, q ∈ panes -> p ∉ fetches_of q) -> pane_shows p v data log d ->
  pane_shows p v data log (load_loop panes done_ loc d).
Proof.
  revert done_ d. induction panes as [|q pending IH]; intros done_ d Hp Hd; cbn [load_loop]; [by apply finish_load_all_shows|].
  destruct (_ || _); [by apply finish_load_all_shows|].
  set (d1 := markQueued _ _). assert (H1 : pane_shows p v data log d1).
  { apply markQueued_shows. by eapply pane_shows_same; [| | | |exact Hd]. }
  set (run := {| al_done := done_ + 1 |}).
  pose proof (refreshPane_shows q loc (Some run) d1 (Hp q (list_elem_of_here _ _)) H1) as H2.
  destruct (refreshPane _ _ _ d1) as [d2 [|]]; [done|]. apply IH; [|by eapply pane_shows_same; [| | | |exact H2]].
  intros x Hx. by apply Hp, list_elem_of_further.
Qed.

Lemma refresh_returned_shows all d :
  (forall q, q ∈ run_rest all -> p ∉ fetches_of q) -> pane_shows p v data log d ->
  pane_shows p v data log (refresh_returned all d).
Proof.
  intros Hp Hd. destruct all as [run|]; [|done]. cbn [refresh_returned]. apply load_loop_shows; [exact Hp|].
  by eapply pane_shows_same; [| | | |exact Hd].
Qed.
End shows.

(** The node's info on its own turn in Load All: the neighbours come next. *)
Definition own_turn (c : PaneCall) : Prop :=
  c.(pc_pane) = PnNodeInfo /\ c.(pc_then) = None /\ is_Some c.(pc_all).

Lemma after_NodeInfo pre rest :
  LOAD_ALL_PANES = pre ++ PnNodeInfo :: rest ->
  exists rest', rest = PnNeighbors :: rest' /\ forall q, q ∈ rest' -> PnNodeInfo ∉ fetches_of q.
Proof.
  intros E. destruct pre as [|x [|y pre]]; [discriminate E|injection E as _ <-|injection E as _ _ E].
  - eexists. split; [done|]. rewrite <- Forall_forall. apply (decide_by_vm _). by vm_compute.
  - exfalso. assert (Hin : PnNodeInfo ∈ pre ++ PnNodeInfo :: rest) by (apply elem_of_app; right; left).
    rewrite <- E in Hin. revert Hin. apply (decide_by_vm (_ ∉ _)). by vm_compute.
Qed.

Lemma after_Neighbors pre rest :
  LOAD_ALL_PANES = pre ++ PnNeighbors :: rest -> forall q, q ∈ rest -> PnNodeInfo ∉ fetches_of q.
Proof.
  intros E. destruct pre as [|x [|y [|z pre]]];
    [discriminate E..|injection E as _ _ <-|injection E as _ _ _ E].
  - rewrite <- Forall_forall. apply (decide_by_vm _). by vm_compute.
  - exfalso. assert (Hin : PnNeighbors ∈ pre ++ PnNeighbors :: rest) by (apply elem_of_app; right; left).
    rewrite <- E in Hin. revert Hin. apply (decide_by_vm (_ ∉ _)). by vm_compute.
Qed.

Lemma after_other p pre rest :
  p <> PnNodeInfo -> LOAD_ALL_PANES = pre ++ p :: rest -> forall q, q ∈ rest -> p ∉ fetches_of q.
Proof.
  intros Hn E q Hq Hin. assert (Hp : p = q).
  { unfold fetches_of in Hin. case_bool_decide; [apply elem_of_cons in Hin as [?|Hin]; [done|]|];
      by apply list_elem_of_singleton in Hin. }
  assert (Hnd : NoDup LOAD_ALL_PANES) by (apply (decide_by_vm _); by vm_compute).
  rewrite E in Hnd. apply NoDup_app in Hnd as (_ & _ & [Hx _]%NoDup_cons). by subst q.
Qed.

Section again.
Context (v : bool * Z * option jstr * option Z) (data : PaneData) (log : list DashEffect).
Let asked : bool * Z * option jstr * option Z := (true, 1, None, v.2).

(** A first attempt of the pane itself shows it asked again, or does nothing. *)
Lemma start_attempt_again p c d :
  c.(pc_pane) = p -> c.(pc_attempt) = 1 -> pane_shows p v data log d ->
  (start_attempt c d).2 = true /\ pane_shows p asked data log (start_attempt c d).1
  \/ start_attempt c d = (d, false).
Proof.
  intros <- Ha Hd. unfold start_attempt. rewrite Ha. destruct (MAX_RETRIES <? 1); [by right|].
  destruct (negb _); [by right|]. left. split; [done|].
  destruct Hd as [Hs Hr Hda [more Hl]]. unfold pane_view in Hr.
  split; cbn; rewrite ?pane_get_set, ?bool_decide_eq_true_2 by done; try done;
    [by unfold pane_view, asked; rewrite <- Hr..|]. rewrite Hl, <- app_assoc. by eexists.
Qed.

Lemma neighbors_again panes done_ loc d :
  (forall q, q ∈ panes -> PnNodeInfo ∉ fetches_of q) -> pane_shows PnNodeInfo v data log d ->
  pane_shows PnNodeInfo v data log (load_loop (PnNeighbors :: panes) done_ loc d)
  \/ pane_shows PnNodeInfo asked data log (load_loop (PnNeighbors :: panes) done_ loc d).
Proof.
  intros Hp Hd. cbn [load_loop]. destruct (_ || _); [left; by apply finish_load_all_shows|].
  set (d1 := markQueued _ _). set (run := {| al_done := done_ + 1 |}).
  assert (H1 : pane_shows PnNodeInfo v data log d1).
  { apply markQueued_shows. by eapply pane_shows_same; [| | | |exact Hd]. }
  assert (H2 : pane_shows PnNodeInfo v data log (refreshPane PnNeighbors loc (Some run) d1).1
    \/ (refreshPane PnNeighbors loc (Some run) d1).2 = true
       /\ pane_shows PnNodeInfo asked data log (refreshPane PnNeighbors loc (Some run) d1).1).
  { unfold refreshPane. destruct (truthy _) as [key|]; [|by left].
    destruct (_ && _ && _); [|left; by apply start_attempt_shows].
    match goal with |- context [start_attempt ?c d1] =>
      destruct (start_attempt_again PnNodeInfo c d1 eq_refl eq_refl H1) as [[E Hs]|E];
      [destruct (start_attempt c d1) as [d2 w]; cbn [fst snd] in E, Hs; subst w; by right|rewrite E] end.
    cbn [orb]. left. destruct (negb _); [done|]. by apply start_attempt_shows. }
  destruct (refreshPane _ _ _ d1) as [d2 w]. cbn [fst snd] in H2.
  destruct H2 as [H2|[-> H2]]; [|by right]. left. destruct w; [done|].
  apply load_loop_shows; [done|]. by eapply pane_shows_same; [| | | |exact H2].
Qed.

(** What goes on after a pane leaves it alone, but for the node's info on its own turn. *)
Lemma attempts_returned_shows c d :
  call_fits c -> pane_shows c.(pc_pane) v data log d ->
  pane_shows c.(pc_pane) v data log (attempts_returned c d)
  \/ own_turn c /\ pane_shows c.(pc_pane) asked data log (attempts_returned c d).
Proof.
  intros [Ht Ha] Hd. unfold attempts_returned. destruct (pc_then c) as [x|] eqn:Et.
  - destruct Ht as [Ep ->]. cbn [default from_option] in Ha. left.
    assert (Hrest : forall q, q ∈ run_rest (pc_all c) -> pc_pane c ∉ fetches_of q).
    { rewrite Ep. destruct (pc_all c) as [run|]; [destruct Ha as [pre E]; by apply (after_Neighbors pre)|].
      by intros q ?%not_elem_of_nil. }
    destruct (negb _); [by apply refresh_returned_shows|].
    match goal with |- context [start_attempt ?y d] =>
      assert (H1 : pane_shows (pc_pane c) v data log (start_attempt y d).1)
        by (apply start_attempt_shows; [cbn; by rewrite Ep|done]);
      destruct (start_attempt y d) as [d1 []] end; [done|]. by apply refresh_returned_shows.
  - cbn [default from_option] in Ha. destruct (pc_all c) as [run|] eqn:Eall; [|by left].
    destruct Ha as [pre E]. destruct (decide (pc_pane c = PnNodeInfo)) as [Ep|Ep].
    + rewrite Ep in *. destruct (after_NodeInfo pre _ E) as (rest & Er & Hrest). cbn [refresh_returned].
      rewrite Er. destruct (neighbors_again rest run.(al_done) run.(al_hasAdvertLocation)
        (load_all_progress run.(al_done) d) Hrest) as [H|H]; [|by left|right; split; [|done]].
      * by eapply pane_shows_same; [| | | |exact Hd].
      * split_and!; [done|done|by rewrite Eall].
    + left. apply refresh_returned_shows; [|done]. cbn [run_rest default]. by apply (after_other _ pre).
Qed.
End again.

(** C10: a pane that fails loses nothing and says so: a server error in the first two attempts only
    waits for the retry timer; a third failure, or a refusal (4xx), ends the refresh with a notice
    and the error in the pane, the pane keeping its value and the time of its last answer. One
    case is different: when node info fails on its own turn in Load All, which goes on with the
    neighbours, these may ask for it again at once, and the pane then shows the new attempt in
    place of the error. *)
Theorem failed_pane_reported (t : jstr -> list (jstr * Json) -> jstr) (pk : option jstr) (loc : bool) (now : Z)
    (sg : DashboardStorage) (evs : list (Z * DashEvent)) (at_ id : Z) (c : PaneCall) (err : JsError)
    (Hmounted : (run_dash t (mount_dash pk loc now sg) evs).1.(da_mountedRef) = true)
    (Hcall : om_get (run_dash t (mount_dash pk loc now sg) evs).1.(da_calls) id = Some (CallPane c))
    (Hwaits : c.(pc_delaying) = false) :
  let s := run_dash t (mount_dash pk loc now sg) evs in
  let d := s.1 in
  let d' := (handle_dash t s (at_, DvSettled id (PaneError err))).1 in
  let before := pane_get d.(da_paneStates) c.(pc_pane) in
  let after := pane_get d'.(da_paneStates) c.(pc_pane) in
  let msg := err_message err (t (js "toast.requestFailed") []) in
  d'.(da_paneData) = d.(da_paneData) /\ after.(ps_fetched_at) = before.(ps_fetched_at)
  /\ if (c.(pc_attempt) <? MAX_RETRIES) && is_retryable err
     then after = before /\ d'.(da_log) = d.(da_log)
          /\ exists id', (id', CallPane (c <| pc_delaying := true |>)) ∈ d'.(da_calls)
     else (exists title, ToastError title (default msg (truthy (Some (formatApiError t err)))) ∈ d'.(da_log))
          /\ ((after.(ps_loading), after.(ps_attempt), after.(ps_error)) = (false, c.(pc_attempt), Some msg)
              \/ own_turn c /\ (after.(ps_loading), after.(ps_attempt), after.(ps_error)) = (true, 1, None)).
Proof.
  cbv zeta. set (s := run_dash _ _ evs) in *. pose proof (run_dash_ok t pk loc now sg evs) as Hok. fold s in Hok.
  pose proof (run_fits t pk loc now sg evs) as Hfit. fold s in Hfit.
  set (q0 := queued_at_mount pk loc now sg) in *. clearbody s q0. destruct s as [d sg1]. cbn [fst] in *.
  assert (Hc0 : call_fits c) by (eapply Hfit, om_get_Some_elem, Hcall).
  destruct (dash_ok_settled q0 id _ d Hok Hcall) as [Hs Hc]. cbn [dash_call_ok] in Hc.
  cbn [is_login_call is_console_call negb] in Hs. rewrite !andb_true_r in Hs.
  pose proof (settle_ok q0 t id (PaneError err) at_ (d, sg1) Hok) as Hok'.
  set (s2 := settle t id (PaneError err) at_ (d, sg1)) in *.
  change (handle_dash t (d, sg1) (at_, DvSettled id (PaneError err))) with (commit_dash at_ s2).
  assert (Hv : dash_view (commit_dash at_ s2).1 = dash_view s2.1)
    by (apply commit_dash_view; [exact (dk_data _ _ _ _ Hok')|exact (dk_states _ _ _ _ Hok')]).
  rewrite (dash_view_states _ _ Hv), (view_costs _ _ Hv), (proj1 (commit_dash_same at_ s2)).
  assert (Edata : da_paneData (commit_dash at_ s2).1 = da_paneData s2.1)
    by (revert Hv; unfold dash_view; by intros [= _ _ _ -> _ _ _ _ _ _ _ _ _]).
  rewrite Edata. clear Hv Edata Hok'. unfold s2, settle. cbn [fst]. rewrite Hcall.
  cbn [settle_call from_option Datatypes.id fst snd]. rewrite Hwaits. cbn [from_option Datatypes.id fst].
  set (d1 := d <| da_calls := om_delete (da_calls d) id |>) in *.
  assert (Hh : still_here (pc_key c) d1 = true).
  { unfold still_here. cbn. rewrite Hmounted, (dk_active _ _ _ _ Hok). apply bool_decide_eq_true_2. by destruct Hc. }
  unfold pane_failed. rewrite Hh. cbn [negb].
  generalize (err_message err (t (js "toast.requestFailed") [])). intros msg.
  generalize (t (js "toast.fetchPaneFailed") [(js "pane", Jstring (t (PANE_LABEL_KEYS (pc_pane c)) []))]). intros title.
  set (desc := default msg (truthy (Some (formatApiError t err)))). clearbody desc.
  destruct Hc as [[Ha1 Ha2] _ _].
  assert (Eif : (pc_attempt c <? MAX_RETRIES) && is_retryable err
                = negb ((pc_attempt c =? MAX_RETRIES) || negb (is_retryable err))).
  { rewrite negb_orb, negb_involutive. f_equal. destruct (Z.eqb_spec (pc_attempt c) MAX_RETRIES); [apply Z.ltb_ge|apply Z.ltb_lt]; lia. }
  rewrite Eif. destruct (_ || _); cbn [negb].
  - set (errorState := {| ps_loading := false; ps_attempt := pc_attempt c; ps_error := Some msg |}).
    match goal with |- context [attempts_returned c ?x] => set (d2 := x) end.
    assert (H2 : pane_shows (pc_pane c) (pane_view errorState) (da_paneData d) (da_log d ++ [ToastError title desc]) d2).
    { unfold d2, da_emit, setPaneStates. split; cbn; rewrite ?pane_get_set, ?bool_decide_eq_true_2 by done; try done.
      exists []. by rewrite app_nil_r. }
    assert (Hf : ps_fetched_at (pane_get (da_paneStatesRef d) (pc_pane c))
                 = ps_fetched_at (pane_get (da_paneStates d) (pc_pane c))) by (by rewrite (dk_states _ _ _ _ Hok)).
    destruct (attempts_returned_shows _ _ _ c _ Hc0 H2) as [H3|(Hown & H3)];
      destruct H3 as [Hst _ Hda [more Hl]]; unfold pane_view in Hst; injection Hst as E1 E2 E3 E4;
      rewrite E1, E2, E3, E4, Hda, Hl; cbn; rewrite Hf; split_and!; try done;
      try (exists title; apply elem_of_app; left; apply elem_of_app; right; by left); [by left|by right].
  - split_and!; try done. eexists. cbn. apply elem_of_app. right. by left.
Qed.

(** ** What is kept *)

(** The state that is kept, and whether it was set since it was stored. *)
Definition kept (d : Dash) :=
  (d.(da_loggedIn), d.(da_loginError), d.(da_lastLoginAttempt), d.(da_paneData), d.(da_paneStates), d.(da_consoleHistory)).
Definition stale (d : Dash) : bool := d.(da_staleData) || d.(da_staleStates) || d.(da_staleRest).
(** The dashboard it is, and whether it is mounted. *)
Definition home (d : Dash) := (d.(da_publicKey), d.(da_mountedRef)).
Definition marks (d d' : Dash) : Prop :=
  home d' = home d /\ (stale d' = true \/ kept d' = kept d /\ stale d' = stale d).

#[global] Instance marks_trans : Transitive marks.
Proof.
  intros d1 d2 d3 [E1 H1] [E2 H2]. split; [congruence|].
  destruct H1 as [H1|[H1 H1']], H2 as [H2|[H2 H2']]; rewrite ?H2, ?H2', ?H1, ?H1'; auto.
Qed.
#[global] Instance marks_refl : Reflexive marks.
Proof. intros d. split; [done|by right]. Qed.

Lemma marks_same d d' : home d' = home d -> kept d' = kept d -> stale d' = stale d -> marks d d'.
Proof. split; [done|by right]. Qed.
Lemma marks_states d d' : home d' = home d -> d'.(da_staleStates) = true -> marks d d'.
Proof. split; [done|left]. unfold stale. by rewrite H0, orb_true_r. Qed.
Lemma marks_rest d d' : home d' = home d -> d'.(da_staleRest) = true -> marks d d'.
Proof. split; [done|left]. unfold stale. by rewrite H0, orb_true_r. Qed.

Lemma setLoggedIn_marks b d : marks d (setLoggedIn b d).
Proof. unfold setLoggedIn. destruct (_ ≟ _); [by apply marks_same|]. by apply marks_rest. Qed.
Lemma setLoginError_marks e d : marks d (setLoginError e d).
Proof. unfold setLoginError. destruct (_ ≟ _); [by apply marks_same|]. by apply marks_rest. Qed.
Lemma setLastLoginAttempt_marks a d : marks d (setLastLoginAttempt a d).
Proof.
  unfold setLastLoginAttempt. destruct a, (da_lastLoginAttempt d) eqn:E;
    [by apply marks_rest|by apply marks_rest|by apply marks_rest|by apply marks_same].
Qed.

Lemma markQueued_marks pending d : marks d (markQueued pending d).
Proof. by apply marks_states. Qed.

Lemma start_attempt_marks c d : marks d (start_attempt c d).1.
Proof.
  unfold start_attempt. destruct (_ <? _); [by apply marks_same|]. destruct (negb _); [by apply marks_same|]. by apply marks_states.
Qed.

Lemma refreshPane_marks p loc all d : marks d (refreshPane p loc all d).1.
Proof.
  unfold refreshPane. destruct (truthy _) as [key|]; [|by apply marks_same]. destruct (_ && _); [|apply start_attempt_marks].
  match goal with |- context [start_attempt ?c d] => pose proof (start_attempt_marks c d) as H1; destruct (start_attempt c d) as [d1 w] end.
  cbn [fst] in H1. destruct (w || _); [done|]. etrans; [exact H1|apply start_attempt_marks].
Qed.

Lemma load_loop_marks panes n loc d : marks d (load_loop panes n loc d).
Proof.
  revert n d. induction panes as [|p pending IH]; intros n d; cbn [load_loop]; [by apply marks_states|].
  destruct (_ || _); [by apply marks_states|].
  set (d1 := markQueued _ _). assert (H1 : marks d d1) by by apply marks_states.
  set (run := {| al_done := n + 1 |}). pose proof (refreshPane_marks p loc (Some run) d1) as H2.
  destruct (refreshPane _ _ _ d1) as [d2 [|]]; cbn [fst] in H2; [by etrans|].
  etrans; [exact H1|]. etrans; [exact H2|]. etrans; [|apply IH]. by apply marks_same.
Qed.

Lemma refresh_returned_marks all d : marks d (refresh_returned all d).
Proof.
  destruct all as [run|]; [|by apply marks_same]. cbn [refresh_returned].
  etrans; [|apply load_loop_marks]. by apply marks_same.
Qed.

Lemma attempts_returned_marks c d : marks d (attempts_returned c d).
Proof.
  unfold attempts_returned. destruct (pc_then c); [|apply refresh_returned_marks].
  destruct (negb _); [apply refresh_returned_marks|]. set (c1 := {| pc_key := pc_key c |}).
  pose proof (start_attempt_marks c1 d) as H1. destruct (start_attempt c1 d) as [d1 [|]]; [done|].
  etrans; [exact H1|apply refresh_returned_marks].
Qed.

Lemma hydrate_marks cached d : marks d (hydrate cached d).
Proof.
  unfold hydrate. destruct (negb _); [by apply marks_same|]. destruct (foldl _ _ _) as [[data states] [|]]; [|by apply marks_same].
  by apply marks_states.
Qed.

Lemma login_replied_marks t key m result now d sg : marks d (login_replied t key m result now (d, sg)).1.
Proof.
  unfold login_replied. destruct (negb _); [by apply marks_same|].
  generalize (buildServerLoginAttemptFromResponse t m result (js "repeater") now). intros a.
  assert (H1 : marks d (setLoggedIn true (setLastLoginAttempt (Some a) d)))
    by (etrans; [apply setLastLoginAttempt_marks|apply setLoggedIn_marks]).
  destruct (negb (lr_authenticated result)).
  - generalize (t (js "repeater.loginNotConfirmed") []) (getLoginToastTitle t (lr_status result)). intros dflt title. cbn [fst].
    etrans; [exact H1|]. etrans; [apply (setLoginError_marks (Some (default dflt (lr_message result))))|]. by apply marks_same.
  - cbn [fst]. etrans; [exact H1|]. by apply marks_same.
Qed.
Lemma login_failed_marks t key m err now d sg : marks d (login_failed t key m err now (d, sg)).1.
Proof.
  unfold login_failed. destruct (negb _); [by apply marks_same|].
  generalize (err_message err (t (js "toast.loginFailed") [])). intros msg.
  generalize (buildServerLoginAttemptFromError t m msg (js "repeater") now)
    (ToastError (t (js "toast.loginRequestFailed") []) (t (js "toast.loginRequestFailedDetail") [(js "message", Jstring msg)])).
  intros a toast. cbn [fst]. etrans; [apply (setLastLoginAttempt_marks (Some a))|].
  etrans; [apply (setLoggedIn_marks true)|]. etrans; [apply (setLoginError_marks (Some msg))|]. by apply marks_same.
Qed.

Lemma settle_marks t id outcome now s : marks s.1 (settle t id outcome now s).1.
Proof.
  destruct s as [d sg]. unfold settle. cbn [fst snd]. destruct (om_get (da_calls d) id) as [c|]; [|by apply marks_same].
  set (d1 := d <| da_calls := _ |>). assert (H1 : marks d d1) by by apply marks_same.
  destruct c as [c|key m|key command n], outcome; cbn [settle_call from_option Datatypes.id fst snd]; try reflexivity.
  - destruct (pc_delaying c); [reflexivity|]. cbn [from_option Datatypes.id fst]. unfold pane_replied.
    destruct (negb _); (etrans; [|apply attempts_returned_marks]); [by apply marks_same|]. by apply marks_states.
  - destruct (pc_delaying c); [reflexivity|]. cbn [from_option Datatypes.id fst]. unfold pane_failed.
    destruct (negb _); [etrans; [exact H1|apply attempts_returned_marks]|].
    generalize (err_message err (t (js "toast.requestFailed") [])). intros msg.
    generalize (ToastError (t (js "toast.fetchPaneFailed") [(js "pane", Jstring (t (PANE_LABEL_KEYS (pc_pane c)) []))])
      (default msg (truthy (Some (formatApiError t err))))). intros toast.
    destruct (_ || _); [|by apply marks_same]. etrans; [|apply attempts_returned_marks]. by apply marks_states.
  - destruct (pc_delaying c); [|reflexivity]. cbn [from_option Datatypes.id fst]. unfold delay_over.
    set (next := c <| pc_attempt := _ |> <| pc_delaying := _ |>). pose proof (start_attempt_marks next d1) as H2.
    destruct (start_attempt next d1) as [d2 [|]]; cbn [fst] in H2; (etrans; [exact H1|]); [done|].
    etrans; [exact H2|apply attempts_returned_marks].
  - etrans; [exact H1|apply login_replied_marks].
  - etrans; [exact H1|apply login_failed_marks].
  - unfold command_settled. destruct (negb _); [done|]. by apply marks_rest.
Qed.

Lemma dash_event_marks t now ev s : ev <> DvUnmount -> marks s.1 (dash_event t now ev s).1.
Proof.
  destruct s as [d sg]. intros Hev. destruct ev; cbn [dash_event fst]; try by apply marks_same.
  - destruct (negb _); [by apply marks_same|]. destruct cached as [cached|]; [|by apply marks_same]. cbn [fst]. etrans; [|apply hydrate_marks]. by apply marks_same.
  - apply settle_marks.
  - unfold login. destruct (truthy _) as [key|]; [|by apply marks_same]. set (m := if 0 <? _ then _ else _). clearbody m.
    etrans; [|etrans; [apply (setLoginError_marks None (d <| da_loginLoading := true |>))|]]; by apply marks_same.
  - unfold resetLogin. cbn [fst]. etrans; [apply setLoggedIn_marks|]. etrans; [apply setLoginError_marks|]. apply setLastLoginAttempt_marks.
  - apply refreshPane_marks.
  - unfold loadAll. etrans; [|apply load_loop_marks]. by apply marks_states.
  - unfold sendConsoleCommand. destruct (truthy _) as [key|]; [|by apply marks_same]. by apply marks_rest.
Qed.

Definition same_stores (sg sg' : DashboardStorage) : Prop :=
  sg'.(sg_cache) = sg.(sg_cache) /\ sg'.(sg_dashboards) = sg.(sg_dashboards) /\ sg'.(sg_consoles) = sg.(sg_consoles).

Lemma dash_event_stores t now ev s : same_stores s.2 (dash_event t now ev s).2.
Proof.
  destruct s as [d sg]. destruct ev; cbn [dash_event snd]; try done.
  - by destruct (negb _).
  - unfold settle. cbn [fst snd]. destruct (om_get _ _) as [c|]; [|done].
    destruct c as [c|key m|key command n], outcome; cbn [settle_call from_option Datatypes.id snd]; try done;
      try (destruct (pc_delaying c); done).
    + unfold login_replied. destruct (negb _); [done|]. cbn [snd]. unfold rememberRepeaterSession. by destruct (truthy _).
    + unfold login_failed. destruct (negb _); [done|]. cbn [snd]. unfold rememberRepeaterSession. by destruct (truthy _).
  - unfold resetLogin. cbn [snd]. unfold forgetRepeaterSession. by destruct (truthy _).
Qed.

(** The entry the dashboard leaves in the cache. *)
Definition kept_entry (d : Dash) : DashboardCacheEntry :=
  {| dc_loggedIn := d.(da_loggedIn); dc_loginError := d.(da_loginError); dc_lastLoginAttempt := d.(da_lastLoginAttempt);
     dc_paneData := d.(da_paneData); dc_paneStates := normalizePaneStates d.(da_paneStates);
     dc_consoleHistory := d.(da_consoleHistory) |}.

Definition keys_ok (m : list (jstr * DashboardCacheEntry)) : Prop :=
  om_wf m /\ [] ∉ om_keys m /\ len m <= MAX_CACHED_REPEATERS.
Definition cache_ok (sg : DashboardStorage) : Prop := keys_ok sg.(sg_cache).

Record stored (key : jstr) (d : Dash) (sg : DashboardStorage) : Prop := {
  st_key : truthy d.(da_publicKey) = Some key;
  st_cache : cache_ok sg;
  st_entry : om_get sg.(sg_cache) key = Some (kept_entry d);
  st_console : sg.(sg_consoles) !! key = Some (slice_from d.(da_consoleHistory) (- MAX_STORED_CONSOLE_ENTRIES));
  st_dashboard : exists at_, sg.(sg_dashboards) !! key = Some {| pd_savedAt := at_; pd_loggedIn := d.(da_loggedIn);
    pd_paneData := d.(da_paneData); pd_paneStates := d.(da_paneStates) |};
}.

Lemma move_ok (m : list (jstr * DashboardCacheEntry)) key v :
  om_wf m -> om_set (om_delete m key) key v = om_delete m key ++ [(key, v)] /\ om_wf (om_delete m key ++ [(key, v)]).
Proof.
  intros Hw. pose proof (om_delete_notin m key) as Hn. rewrite (om_set_absent _ _ _ Hn). split; [done|].
  rewrite <- (om_set_absent _ _ v Hn). by apply om_wf_set, om_wf_delete.
Qed.

Lemma evict_dashboard_ok m key v :
  keys_ok m -> key <> [] ->
  let m' := evict_dashboard (om_set (om_delete m key) key v) in keys_ok m' /\ om_get m' key = Some v.
Proof.
  intros (Hw & He & Hl) Hk. cbv zeta. destruct (move_ok m key v Hw) as [E Hw'].
  assert (Hget : om_get (om_delete m key ++ [(key, v)]) key = Some v) by (rewrite <- E; apply om_get_set_eq).
  rewrite E. assert (Hle : len (om_delete m key) <= len m) by (pose proof (om_delete_length_le m key); unfold len; lia).
  assert (He' : [] ∉ om_keys (om_delete m key ++ [(key, v)])).
  { unfold om_keys in *. rewrite fmap_app, elem_of_app. intros [Hin|Hin%list_elem_of_singleton]; [|by cbn in Hin].
    apply He. fold (om_keys (om_delete m key)) in Hin. rewrite om_keys_delete in Hin. by apply list_elem_of_filter in Hin as [_ ?]. }
  unfold evict_dashboard. destruct (Z.ltb_spec MAX_CACHED_REPEATERS (len (om_delete m key ++ [(key, v)]))) as [Hgt|Hle2];
    [|by split_and!].
  destruct (om_delete m key) as [|[k0 v0] m0] eqn:Em; [by apply Z.lt_irrefl in Hgt || (revert Hgt; unfold MAX_CACHED_REPEATERS, len; cbn; lia)|].
  assert (Hk0 : k0 <> key).
  { pose proof (om_delete_notin m key) as Hn. rewrite Em in Hn. intros ->. apply Hn. by left. }
  cbn [app om_first_key om_keys fmap list_fmap head fst] in *.
  replace (truthy (Some k0)) with (Some k0).
  2: { destruct k0; [|done]. exfalso. apply He'. by left. }
  assert (Edel : om_delete ((k0, v0) :: m0 ++ [(key, v)]) k0 = m0 ++ [(key, v)]).
  { unfold om_delete. rewrite filter_cons, decide_False by (cbn; tauto). apply (om_delete_absent (m0 ++ [(key, v)]) k0).
    by apply NoDup_cons in Hw' as [? _]. }
  rewrite Edel. split; [split_and!|].
  - by apply NoDup_cons in Hw' as [_ ?].
  - intros Hin. apply He'. by right.
  - rewrite len_cons in Hle. rewrite len_app. change (len [(key, v)]) with 1. lia.
  - cbn [om_get] in Hget. by rewrite decide_False in Hget.
Qed.

Lemma getCachedState_hit key now sg e :
  truthy (Some key) = Some key -> om_get sg.(sg_cache) key = Some e -> cache_ok sg ->
  let '(c, sg') := getCachedState (Some key) now sg in
  c = Some (e <| dc_paneStates := normalizePaneStates e.(dc_paneStates) |>)
  /\ cache_ok sg' /\ om_get sg'.(sg_cache) key = Some e
  /\ sg'.(sg_dashboards) = sg.(sg_dashboards) /\ sg'.(sg_consoles) = sg.(sg_consoles).
Proof.
  intros Ht Hget (Hw & He & Hl). unfold getCachedState. rewrite Ht, Hget. split; [done|].
  destruct (move_ok sg.(sg_cache) key e Hw) as [E Hw']. cbn. split_and!; [|by rewrite om_get_set_eq|done..].
  unfold cache_ok. cbn. rewrite E. split_and!; [done| |].
  - unfold om_keys in *. rewrite fmap_app, elem_of_app. intros [Hin|Hin%list_elem_of_singleton].
    + apply He. fold (om_keys (om_delete sg.(sg_cache) key)) in Hin. rewrite om_keys_delete in Hin.
      by apply list_elem_of_filter in Hin as [_ ?].
    + cbn in Hin. by subst key.
  - pose proof (om_delete_length sg.(sg_cache) key Hw) as Hd. rewrite len_app. change (len [(key, e)]) with 1.
    assert (key ∈ om_keys sg.(sg_cache)) by (apply list_elem_of_fmap; exists (key, e); split; [done|by apply om_get_Some_elem]).
    specialize (Hd H). unfold len in *. lia.
Qed.

Lemma truthy_Some pk key : truthy pk = Some key -> pk = Some key /\ key <> [].
Proof. destruct pk as [[|c s]|]; cbn; try done. by intros [= <-]. Qed.

Lemma getCachedState_ok pk now sg : cache_ok sg -> cache_ok (getCachedState pk now sg).2.
Proof.
  intros Hok. destruct (truthy pk) as [key|] eqn:Ek; [|by unfold getCachedState; rewrite Ek].
  pose proof (truthy_Some _ _ Ek) as [-> _]. destruct (om_get (sg_cache sg) key) as [e|] eqn:Eg.
  - pose proof (getCachedState_hit key now sg e Ek Eg Hok) as H1.
    destruct (getCachedState (Some key) now sg). by destruct H1 as (_ & ? & _).
  - unfold getCachedState. rewrite Ek, Eg. unfold loadPersistedDashboard. rewrite Ek.
    destruct (sg_dashboards sg !! key); [|done]. by destruct (_ <? _).
Qed.

Lemma kept_commit now s : kept (commit_dash now s).1 = kept s.1 /\ (s.1.(da_mountedRef) = true -> stale (commit_dash now s).1 = false)
  /\ (commit_dash now s).1.(da_publicKey) = s.1.(da_publicKey) /\ (commit_dash now s).1.(da_mountedRef) = s.1.(da_mountedRef).
Proof.
  destruct s as [d sg]. unfold commit_dash. cbn [fst]. destruct (da_mountedRef d) eqn:Em; cbn [negb]; [|by split_and!].
  cbn [fst]. destruct (da_staleData d); cbn; destruct (da_staleStates d); cbn; rewrite ?Em; by split_and!.
Qed.

Lemma kept_stored key d d' sg :
  kept d' = kept d -> d'.(da_publicKey) = d.(da_publicKey) -> stored key d sg -> stored key d' sg.
Proof.
  unfold kept. intros [= E1 E2 E3 E4 E5 E6] E7 []. split; unfold kept_entry in *; by rewrite ?E1, ?E2, ?E3, ?E4, ?E5, ?E6, ?E7.
Qed.

Lemma commit_stored key now d sg :
  d.(da_mountedRef) = true -> truthy d.(da_publicKey) = Some key ->
  cache_ok sg -> stale d = true \/ stored key d sg ->
  stored key (commit_dash now (d, sg)).1 (commit_dash now (d, sg)).2.
Proof.
  intros Hm Hk Hok Hst. destruct (kept_commit now (d, sg)) as (Ekept & _ & Epk & _). cbn [fst] in *.
  eapply kept_stored; [exact Ekept|exact Epk|]. clear Ekept Epk.
  pose proof (truthy_Some _ _ Hk) as [Epk Hne]. unfold commit_dash. rewrite Hm. cbn [negb snd]. rewrite Hk. fold (stale d).
  pose proof (getCachedState_ok (da_publicKey d) now sg Hok) as Hok1.
  destruct (stale d) eqn:Est.
  - destruct (getCachedState (da_publicKey d) now sg) as [c sg1]. cbn [snd] in *.
    destruct (evict_dashboard_ok (sg_cache sg1) key (kept_entry d) Hok1 Hne) as [H1 H2].
    unfold cacheState, persistDashboard, saveStoredConsoleHistory. rewrite <- Epk, Hk. split; cbn; try done.
    + by rewrite lookup_insert_eq.
    + exists now. by rewrite lookup_insert_eq.
  - destruct Hst as [?|Hst]; [done|]. destruct Hst as [_ _ He Hc Hd].
    rewrite Epk in *. pose proof (getCachedState_hit key now sg _ Hk He Hok) as H1.
    destruct (getCachedState (Some key) now sg) as [c sg1]. cbn [snd] in *. destruct H1 as (_ & H1 & H2 & E1 & E2).
    split; rewrite ?Epk, ?E1, ?E2; done.
Qed.

Lemma same_stores_stored key d sg sg' : same_stores sg sg' -> stored key d sg -> stored key d sg'.
Proof. intros (E1 & E2 & E3) []. split; unfold cache_ok in *; by rewrite ?E1, ?E2, ?E3. Qed.

Record run_kept (key : jstr) (pk : option jstr) (s : Dash * DashboardStorage) : Prop := {
  rk_key : s.1.(da_publicKey) = pk;
  rk_cache : cache_ok s.2;
  rk_stored : s.1.(da_mountedRef) = true -> stale s.1 = false /\ stored key s.1 s.2;
}.

Lemma home_eq d d' : home d' = home d -> d'.(da_publicKey) = d.(da_publicKey) /\ d'.(da_mountedRef) = d.(da_mountedRef).
Proof. unfold home. by intros [= -> ->]. Qed.

Lemma commit_kept key pk now d sg :
  truthy pk = Some key -> d.(da_publicKey) = pk -> cache_ok sg ->
  (d.(da_mountedRef) = true -> stale d = true \/ stored key d sg) ->
  run_kept key pk (commit_dash now (d, sg)).
Proof.
  intros Hk Hpk Hok Hst. destruct (kept_commit now (d, sg)) as (_ & Hstale & Epk & Em). cbn [fst] in *.
  split; [congruence| |].
  - destruct (da_mountedRef d) eqn:Ed.
    + by destruct (commit_stored key now d sg Ed ltac:(congruence) Hok (Hst eq_refl)).
    + unfold commit_dash. by rewrite Ed.
  - rewrite Em. intros Ed. split; [by apply Hstale|]. apply commit_stored; [done|congruence|done|by apply Hst].
Qed.

Lemma handle_kept key pk t s ev : truthy pk = Some key -> run_kept key pk s -> run_kept key pk (handle_dash t s ev).
Proof.
  intros Hk Hs. destruct ev as [now ev], s as [d sg].
  assert (H1 : ev <> DvUnmount -> run_kept key pk (commit_dash now (dash_event t now ev (d, sg)))).
  { intros Hev. pose proof (dash_event_marks t now ev (d, sg) Hev) as [Hh Hmk].
    pose proof (dash_event_stores t now ev (d, sg)) as Hss. cbn [fst snd] in *. apply home_eq in Hh as [E1 E2].
    destruct (dash_event t now ev (d, sg)) as [d' sg']. cbn [fst snd] in *. destruct Hs as [Hpk Hc Hst]. cbn [fst snd] in *.
    apply commit_kept; [done|congruence| |].
    - destruct Hss as (E & _). unfold cache_ok. by rewrite E.
    - rewrite E2. intros Hm. destruct (Hst Hm) as [Hs0 Hst0]. destruct Hmk as [?|[Hkept _]]; [by left|right].
      eapply kept_stored; [exact Hkept|exact E1|]. by eapply same_stores_stored. }
  unfold handle_dash. cbn [fst]. destruct ev; try (destruct (da_mountedRef d); [by apply H1|done]); [by apply H1|].
  destruct (da_mountedRef d) eqn:Em; [|done]. destruct Hs as [Hpk Hc Hst]. cbn [dash_event fst snd] in *.
  apply commit_kept; [done|done|done|]. cbn. done.
Qed.

(** While it is mounted, the dashboard has left in the stores what it shows. *)
Lemma run_stays_kept key t pk loc now sg evs :
  truthy pk = Some key -> cache_ok sg -> run_kept key pk (run_dash t (mount_dash pk loc now sg) evs).
Proof.
  intros Hk Hok. unfold run_dash. induction evs as [|ev evs IH] using rev_ind.
  - cbn [foldl]. unfold mount_dash. pose proof (getCachedState_ok pk now sg Hok) as H1.
    destruct (getCachedState pk now sg) as [cached sg1]. cbn [snd] in H1.
    assert (H2 : cache_ok (match cached with Some c => (c.(dc_loggedIn), sg1)
                           | None => hasRememberedRepeaterSession pk now sg1 end).2).
    { destruct cached; [done|]. unfold hasRememberedRepeaterSession. destruct (truthy pk) as [k|]; [|done].
      destruct (sg_sessions sg1 !! k); [|done]. by destruct (_ <? _). }
    destruct (match cached with Some c => _ | None => _ end) as [b sg2]. apply commit_kept; try done. intros _. by left.
  - rewrite foldl_app. cbn [foldl]. by apply handle_kept.
Qed.

Lemma normalize_twice st : normalizePaneStates (normalizePaneStates st) = normalizePaneStates st.
Proof. apply panes_ext. intros p. unfold normalizePaneStates. by rewrite !pane_get_of. Qed.

Lemma mount_kept pk loc now sg c :
  (getCachedState pk now sg).1 = Some c ->
  kept (mount_dash pk loc now sg).1
  = (c.(dc_loggedIn), c.(dc_loginError), c.(dc_lastLoginAttempt), c.(dc_paneData), c.(dc_paneStates), c.(dc_consoleHistory)).
Proof.
  intros E. unfold mount_dash. destruct (getCachedState pk now sg) as [cached sg1]. cbn [fst] in E. subst cached.
  match goal with |- context [commit_dash now (?d, ?s)] => destruct (kept_commit now (d, s)) as [-> _] end. done.
Qed.

Lemma slice_last_twice {A} (l : list A) n : 0 < n -> slice_from (slice_from l (- n)) (- n) = slice_from l (- n).
Proof.
  intros Hn. rewrite (slice_from_neg (slice_from l (- n))) by done. pose proof (len_slice_from_neg l n Hn) as Hl.
  replace (length (slice_from l (- n)) - Z.to_nat n)%nat with 0%nat by (unfold len in Hl; lia). done.
Qed.

(** C36: a dashboard left and opened again shows what it showed: its values and their times, the
    errors, the login and the console, nothing loading; after a reload of the page, within a day
    of the last change, its values, their times, whether it was logged in and the last hundred
    console entries; and at most twenty dashboards are kept. *)
Theorem reopened_dashboard_restored (t : jstr -> list (jstr * Json) -> jstr) (key : jstr) (loc loc' : bool) (now gone at_ : Z)
    (sg : DashboardStorage) (evs : list (Z * DashEvent))
    (Hkey : key <> []) (Hcache : cache_ok sg)
    (Hmounted : (run_dash t (mount_dash (Some key) loc now sg) evs).1.(da_mountedRef) = true) :
  let s := run_dash t (mount_dash (Some key) loc now sg) evs in
  let d := s.1 in
  let left_ := (handle_dash t s (gone, DvUnmount)).2 in
  let again := (mount_dash (Some key) loc' at_ left_).1 in
  let reloaded := (mount_dash (Some key) loc' at_ (left_ <| sg_cache := [] |>)).1 in
  kept again = (d.(da_loggedIn), d.(da_loginError), d.(da_lastLoginAttempt), d.(da_paneData),
                normalizePaneStates d.(da_paneStates), d.(da_consoleHistory))
  /\ (exists saved, pd_savedAt <$> left_.(sg_dashboards) !! key = Some saved
      /\ (at_ - saved <= DASHBOARD_TTL_MS ->
          kept reloaded = (d.(da_loggedIn), None, None, d.(da_paneData), normalizePaneStates d.(da_paneStates),
                           slice_from d.(da_consoleHistory) (- MAX_STORED_CONSOLE_ENTRIES))))
  /\ len left_.(sg_cache) <= MAX_CACHED_REPEATERS.
Proof.
  cbv zeta. assert (Hk : truthy (Some key) = Some key) by by destruct key.
  pose proof (run_stays_kept key t (Some key) loc now sg evs Hk Hcache) as [_ _ Hst].
  set (s := run_dash _ _ evs) in *. clearbody s. destruct s as [d sg1]. cbn [fst snd] in *.
  destruct (Hst Hmounted) as [_ [_ Hok He Hc [saved Hd]]].
  assert (El : (handle_dash t (d, sg1) (gone, DvUnmount)).2 = sg1) by (unfold handle_dash; cbn [fst]; by rewrite Hmounted).
  rewrite El. split; [|split; [|by destruct Hok as (_ & _ & ?)]].
  - pose proof (getCachedState_hit key at_ sg1 _ Hk He Hok) as H1.
    destruct (getCachedState (Some key) at_ sg1) as [c sg2] eqn:Eg. destruct H1 as [-> _].
    rewrite (mount_kept _ _ _ _ _ (f_equal fst Eg)). cbn. by rewrite normalize_twice.
  - exists saved. rewrite Hd. split; [done|]. intros Httl.
    assert (Eg : (getCachedState (Some key) at_ (sg1 <| sg_cache := [] |>)).1
      = Some {| dc_loggedIn := d.(da_loggedIn); dc_loginError := None; dc_lastLoginAttempt := None;
                dc_paneData := d.(da_paneData); dc_paneStates := normalizePaneStates d.(da_paneStates);
                dc_consoleHistory := slice_from d.(da_consoleHistory) (- MAX_STORED_CONSOLE_ENTRIES) |}).
    { set (sg2 := sg1 <| sg_cache := [] |>). assert (E2 : sg_cache sg2 = []) by done.
      change (sg_dashboards sg1) with (sg_dashboards sg2) in Hd. change (sg_consoles sg1) with (sg_consoles sg2) in Hc.
      clearbody sg2. unfold getCachedState, loadPersistedDashboard. rewrite Hk, E2. cbn [om_get]. rewrite Hk, Hd.
      cbn [pd_savedAt]. rewrite (proj2 (Z.ltb_ge _ _) Httl). cbn [fst pd_loggedIn pd_paneData pd_paneStates].
      unfold loadStoredConsoleHistory. rewrite Hc. cbn [from_option Datatypes.id]. by rewrite slice_last_twice. }
    by rewrite (mount_kept _ _ _ _ _ Eg).
Qed.

(** ** Concrete dashboards *)

Definition example_t (key : jstr) (_ : list (jstr * Json)) : jstr := key.
Definition empty_storage : DashboardStorage :=
  {| sg_cache := []; sg_dashboards := ∅; sg_sessions := ∅; sg_consoles := ∅ |}.
Definition example_mount : Dash * DashboardStorage := mount_dash (Some (js "aabb")) false 0 empty_storage.
Definition refusal : JsError := ErrApi {| ae_message := js "mesh timeout"; ae_status := 422; ae_detail := None |}.
Definition answered : list (Z * DashEvent) :=
  [(0, DvRefreshPane PnStatus); (5, DvSettled 0 (PaneReply (Jbool true)))].

Lemma empty_storage_ok : cache_ok empty_storage.
Proof. split_and!; [apply NoDup_nil_2|apply not_elem_of_nil|done]. Qed.

Lemma dashboard_settles_witness :
  settling example_t (run_dash example_t example_mount [(0, DvRefreshPane PnStatus)]) [(5, (0, PaneReply (Jbool true)))]
  /\ len [(5, (0, PaneReply (Jbool true)))] <= zsum (fun ev : Z * DashEvent => event_awaits ev.2) [(0, DvRefreshPane PnStatus)].
Proof.
  assert (H : settling example_t (run_dash example_t example_mount [(0, DvRefreshPane PnStatus)]) [(5, (0, PaneReply (Jbool true)))]).
  { split; [|exact I]. eexists. split; [vm_compute; reflexivity|reflexivity]. }
  split; [exact H|].
  exact (proj1 (dashboard_settles example_t (Some (js "aabb")) false 0 empty_storage [(0, DvRefreshPane PnStatus)]
    [(5, (0, PaneReply (Jbool true)))] H)).
Defined.

Definition example_call : PaneCall :=
  {| pc_key := js "aabb"; pc_pane := PnStatus; pc_attempt := 1; pc_delaying := false; pc_then := None; pc_all := None |}.
Lemma failed_pane_reported_witness :
  let s := run_dash example_t example_mount [(0, DvRefreshPane PnStatus)] in
  let d' := (handle_dash example_t s (5, DvSettled 0 (PaneError refusal))).1 in
  (pane_get d'.(da_paneStates) PnStatus).(ps_error) = Some (js "mesh timeout").
Proof.
  cbv zeta.
  assert (H : om_get (run_dash example_t example_mount [(0, DvRefreshPane PnStatus)]).1.(da_calls) 0 = Some (CallPane example_call))
    by (vm_compute; reflexivity).
  destruct (failed_pane_reported example_t (Some (js "aabb")) false 0 empty_storage [(0, DvRefreshPane PnStatus)] 5 0
    example_call refusal ltac:(vm_compute; reflexivity) H eq_refl) as (_ & _ & _ & [E|[[E _] _]]); [|discriminate E].
  exact (f_equal snd E).
Defined.

Lemma reopened_dashboard_restored_witness :
  let s := run_dash example_t example_mount answered in
  let again := (mount_dash (Some (js "aabb")) false 9 (handle_dash example_t s (7, DvUnmount)).2).1 in
  s.1.(da_mountedRef) = true /\ pane_get s.1.(da_paneData) PnStatus = Some (Jbool true)
  /\ again.(da_paneData) = s.1.(da_paneData).
Proof.
  cbv zeta. split_and!; [vm_compute; reflexivity|vm_compute; reflexivity|].
  destruct (reopened_dashboard_restored example_t (js "aabb") false false 0 7 9 empty_storage answered
    ltac:(discriminate) empty_storage_ok ltac:(vm_compute; reflexivity)) as [E _].
  exact (f_equal (fun k => k.1.1.2) E).
Defined.

(** A dashboard left in the middle of Load All comes back with its panes marked as queued, though
    no run goes on: the cache clears [loading] and keeps [queued]. *)
Example queued_badge_survives :
  let s := handle_dash example_t (run_dash example_t example_mount [(0, DvLoadAll)]) (5, DvUnmount) in
  let again := (mount_dash (Some (js "aabb")) false 9 s.2).1 in
  again.(da_calls) = [] /\ (pane_get again.(da_paneStates) PnRegions).(ps_queued) = Some true.
Proof. split; vm_compute; reflexivity. Qed.

(** Load All asks for the node's info again as soon as it was refused, on the way to the
    neighbours. *)
Example refused_info_asked_again :
  let s := run_dash example_t example_mount
    [(0, DvLoadAll); (1, DvSettled 0 (PaneReply (Jbool true))); (2, DvSettled 1 (PaneError refusal))] in
  filter (fun e => is_fetch e = true) s.1.(da_log)
  = [FetchPane (js "aabb") PnStatus; FetchPane (js "aabb") PnNodeInfo; FetchPane (js "aabb") PnNodeInfo].
Proof. vm_compute. reflexivity. Qed.

(** The server's cache takes down the spinner of a pane whose request is on the air. *)
Example hydration_hides_request :
  let s := run_dash example_t example_mount [(0, DvRefreshPane PnStatus); (1, DvHydrated (Some [(js "status", (Jbool true, 3))]))] in
  (pane_get s.1.(da_paneStates) PnStatus).(ps_loading) = false /\ len s.1.(da_calls) = 1.
Proof. split; vm_compute; reflexivity. Qed.
