(* ===== verification/ObserverReach.v ===== *)
(** How many observers heard a message: [utils/observerReach.ts] and
    [hooks/useVisibleObserverReach.ts].

    The counts, the times they were fetched and the ears already counted are kept in the module
    ([ReachModule]); the hook that is mounted is a record of its props, its counts and the run of
    its polling effect ([PollRun]). A run waits for its debounce timer, then for the reply to its
    request, then for its wake timer; a render that changes what it depends on starts another run,
    and the reply to the request of an earlier run finds it cancelled.

    [Date.now()] and [getServerClockOffsetSec()] are arguments of the events that read them.
    Timers hold the time they are due; an event that fires one earlier does nothing. *)
From S2P Require Import Prelude JsString JsCollections Regex Types CommunityFrames.

(** ** Ages and cadence *)

Definition OUTGOING_REACH_DELAY_MS : Z := 0.
Definition YOUNG_REACH_MS : Z := 60000.
Definition MID_REACH_MS : Z := 600000.
Definition YOUNG_POLL_MS : Z := 2000.
Definition MID_POLL_MS : Z := 60000.

(** [msg.packet_hash], [null] and [undefined] alike. *)
Definition reach_hash (msg : Message) : option jstr := mjoin msg.(m_packet_hash).

Definition isObserverReachEligible (msg : Message) : bool :=
  match truthy (reach_hash msg) with
  | None => false
  | Some _ => negb (msg.(m_observer_reach_eligible) ≟ Some (Some false))
  end.

Definition messageAgeMs (msg : Message) (nowMs serverClockOffsetSec : Z) : Z :=
  nowMs - (msg.(m_received_at) + serverClockOffsetSec) * 1000.

Definition isOutgoingReachReady (msg : Message) (nowMs serverClockOffsetSec : Z) : bool :=
  if negb msg.(m_outgoing) then true
  else OUTGOING_REACH_DELAY_MS <=? messageAgeMs msg nowMs serverClockOffsetSec.

Definition observerReachPollIntervalMs (ageMs : Z) : option Z :=
  if ageMs <? YOUNG_REACH_MS then Some YOUNG_POLL_MS
  else if ageMs <? MID_REACH_MS then Some MID_POLL_MS
  else None.

(** ** What the module keeps *)

Definition REACH_DEBOUNCE_MS : Z := 250.
Definition BATCH_MAX : Z := 20.
Definition RETRY_BACKOFF_MS : Z := 30000.
Definition RETRY_BACKOFF_MAX_MS : Z := 240000.

Inductive ObserverReachCountState := CountLoading | CountOk (count : Z) | CountError.
#[export] Instance ObserverReachCountState_eq_dec : EqDecision ObserverReachCountState.
Proof. solve_decision. Defined.

Record CountCacheEntry := {
  cc_at : Z;
  cc_state : ObserverReachCountState;
  cc_sealed : bool;
  cc_failures : Z;
}.
Record ReachModule := {
  rm_countCache : list (jstr * CountCacheEntry);
  rm_lastFetchAt : list (jstr * Z);
  rm_liveSeenEars : list jstr;
}.
#[export] Instance ReachModule_eta : Eta ReachModule :=
  fun m => Build_ReachModule m.(rm_countCache) m.(rm_lastFetchAt) m.(rm_liveSeenEars).

Definition reach_module0 : ReachModule :=
  {| rm_countCache := []; rm_lastFetchAt := []; rm_liveSeenEars := [] |}.

Definition retryBackoffMs (failures : Z) : Z :=
  let exp := Z.max (failures - 1) 0 in
  Z.min (RETRY_BACKOFF_MS * 2 ^ exp) RETRY_BACKOFF_MAX_MS.

Definition reach_key (originConversation hash : jstr) : jstr :=
  originConversation ++ js ":" ++ toUpperCase hash.

(** [false] when the ear was counted already. *)
Definition noteSeenEar (hashUpper earId : jstr) (m : ReachModule) : bool * ReachModule :=
  let key := hashUpper ++ js ":" ++ earId in
  if decide (key ∈ m.(rm_liveSeenEars)) then (false, m)
  else (true, m <| rm_liveSeenEars := m.(rm_liveSeenEars) ++ [key] |>).

Definition bumpVisibleCount (originConversation hashUpper : jstr) (now : Z) (m : ReachModule)
    : ObserverReachCountState * ReachModule :=
  let key := reach_key originConversation hashUpper in
  let prev := om_get m.(rm_countCache) key in
  let nextCount := match prev with Some {| cc_state := CountOk c |} => c + 1 | _ => 1 end in
  let state := CountOk nextCount in
  (state, m <| rm_countCache := om_set m.(rm_countCache) key
      {| cc_at := now; cc_state := state;
         cc_sealed := match prev with Some e => e.(cc_sealed) | None => false end;
         cc_failures := match prev with Some e => e.(cc_failures) | None => 0 end |} |>).

(** ** Packets heard live *)

Inductive ObserverReachLiveEvent :=
  | Hash16 (hash earId : jstr)
  | Hash8 (hash8 earId : jstr).
Definition live_ear (event : ObserverReachLiveEvent) : jstr :=
  match event with Hash16 _ ear | Hash8 _ ear => ear end.

(** The event [applyCommunityPacketObserverTick] hands to the listeners. *)
Definition observer_tick (packet_hash hash8 ear_id : option jstr) : option ObserverReachLiveEvent :=
  match truthy ear_id with
  | None => None
  | Some earId =>
    match normalizePacketHash16 packet_hash with
    | Some hash16 => Some (Hash16 (toUpperCase hash16) earId)
    | None =>
      let hash8 := match hash8 with Some h => toLowerCase (trim h) | None => [] end in
      if re_test HEX8_RE hash8 then Some (Hash8 hash8 earId) else None
    end
  end.

(** ** The hook *)

(** A run of the polling effect, with its timers' due times. *)
Record PollRun := {
  pr_id : Z;
  pr_startedFor : jstr;
  pr_signature : jstr;
  pr_debounce : option Z;
  pr_wake : option Z;
}.
#[export] Instance PollRun_eta : Eta PollRun :=
  fun r => Build_PollRun r.(pr_id) r.(pr_startedFor) r.(pr_signature) r.(pr_debounce) r.(pr_wake).

(** The props of the last render, which the refs hold, and the state. *)
Record ReachHook := {
  rh_directoryEnabled : bool;
  rh_conversationKey : option jstr;
  rh_messages : list Message;
  rh_visibleIndexes : list Z;
  rh_counts : list (jstr * ObserverReachCountState);
  rh_delayTick : Z;
  rh_listener : option jstr;
  rh_hashSignature : jstr;
  rh_run : option PollRun;
}.
#[export] Instance ReachHook_eta : Eta ReachHook :=
  fun h => Build_ReachHook h.(rh_directoryEnabled) h.(rh_conversationKey) h.(rh_messages) h.(rh_visibleIndexes)
    h.(rh_counts) h.(rh_delayTick) h.(rh_listener) h.(rh_hashSignature) h.(rh_run).

(** The module, the hook when it is mounted, and the requests under way with their run;
    [rw_log] lists the requests that were sent. *)
Record ReachWorld := {
  rw_module : ReachModule;
  rw_hook : option ReachHook;
  rw_flights : list (Z * (jstr * list jstr));
  rw_nextRun : Z;
  rw_log : list (jstr * list jstr);
}.
#[export] Instance ReachWorld_eta : Eta ReachWorld :=
  fun w => Build_ReachWorld w.(rw_module) w.(rw_hook) w.(rw_flights) w.(rw_nextRun) w.(rw_log).

Definition reach_world0 : ReachWorld :=
  {| rw_module := reach_module0; rw_hook := None; rw_flights := []; rw_nextRun := 0; rw_log := [] |}.

(** [messages[index]] *)
Definition message_at (messages : list Message) (index : Z) : option Message :=
  if index <? 0 then None else messages !! Z.to_nat index.

Definition eligible_step (messages : list Message) (hashes : list jstr) (index : Z) : list jstr :=
  match message_at messages index with
  | None => hashes
  | Some msg =>
    if negb (isObserverReachEligible msg) then hashes
    else
      let hash := toUpperCase (default [] (reach_hash msg)) in
      if decide (hash ∈ hashes) then hashes else hashes ++ [hash]
  end.
Definition eligibleVisibleHashes (messages : list Message) (visibleIndexes : list Z) : list jstr :=
  foldl (eligible_step messages) [] visibleIndexes.

Definition polls (directoryEnabled : bool) (conversationKey : option jstr) : option jstr :=
  if directoryEnabled then truthy conversationKey else None.

Definition hashSignature (directoryEnabled : bool) (conversationKey : option jstr) (messages : list Message)
    (visibleIndexes : list Z) : jstr :=
  match polls directoryEnabled conversationKey with
  | None => []
  | Some _ => join (js ",") (eligibleVisibleHashes messages visibleIndexes)
  end.

(** *** The listener of live packets *)

(** Every eligible message with its index, and whether it is on screen. *)
Definition eligible_messages (hook : ReachHook) : list (Z * Message) :=
  filter (fun p => isObserverReachEligible p.2 = true)
    (imap (fun i msg => (Z.of_nat i, msg)) hook.(rh_messages)).
Definition is_visible (hook : ReachHook) (p : Z * Message) : bool := bool_decide (p.1 ∈ hook.(rh_visibleIndexes)).

Definition live_target (event : ObserverReachLiveEvent) (hook : ReachHook) : option Message :=
  match event with
  | Hash16 hash _ =>
    snd <$> List.find (fun p => toUpperCase <$> reach_hash p.2 ≟ Some hash)
                      (filter (fun p => is_visible hook p = true) (eligible_messages hook))
  | Hash8 hash8 _ =>
    match filter (fun p => (fun h => slice (toLowerCase h) 0 8) <$> reach_hash p.2 = Some hash8)
                 (eligible_messages hook) with
    | [p] => if is_visible hook p then Some p.2 else None
    | _ => None
    end
  end.

Definition setCounts (f : list (jstr * ObserverReachCountState) -> list (jstr * ObserverReachCountState))
    (hook : ReachHook) : ReachHook := hook <| rh_counts := f hook.(rh_counts) |>.

(** [{ ...prev, ...entries }] *)
Definition spread (entries : list (jstr * ObserverReachCountState)) (prev : list (jstr * ObserverReachCountState))
    : list (jstr * ObserverReachCountState) :=
  foldl (fun acc p => om_set acc p.1 p.2) prev entries.

Definition onEvent (event : ObserverReachLiveEvent) (now offsetSec : Z) (m : ReachModule) (hook : ReachHook)
    : ReachModule * ReachHook :=
  match hook.(rh_listener) with
  | None => (m, hook)
  | Some startedFor =>
    if negb (hook.(rh_conversationKey) ≟ Some startedFor) then (m, hook)
    else match live_target event hook with
    | None => (m, hook)
    | Some target =>
      if YOUNG_REACH_MS <=? messageAgeMs target now offsetSec then (m, hook)
      else
        let hash := toUpperCase (default [] (reach_hash target)) in
        let '(fresh, m) := noteSeenEar hash (live_ear event) m in
        if negb fresh then (m, hook)
        else
          let '(state, m) := bumpVisibleCount startedFor hash now m in
          (m, setCounts (fun prev => om_set prev hash state) hook)
    end
  end.

(** *** The polling effect *)

(** The hashes of a signature, [hashSignature ? hashSignature.split(',') : []]. *)
Definition signature_hashes (signature : jstr) : list jstr :=
  match signature with [] => [] | _ => split_char 44 signature end.

Definition consider (soonest : option Z) (wait : Z) : option Z :=
  if wait <=? 0 then soonest
  else match soonest with None => Some wait | Some s => Some (Z.min s wait) end.

Definition wake_step (startedFor : jstr) (now offsetSec : Z) (m : ReachModule) (messages : list Message)
    (soonest : option Z) (index : Z) : option Z :=
  match message_at messages index with
  | None => soonest
  | Some msg =>
    if negb (isObserverReachEligible msg) then soonest
    else if negb (isOutgoingReachReady msg now offsetSec) then
      consider soonest (OUTGOING_REACH_DELAY_MS - messageAgeMs msg now offsetSec)
    else
      let hash := toUpperCase (default [] (reach_hash msg)) in
      let key := reach_key startedFor hash in
      let entry := om_get m.(rm_countCache) key in
      if match entry with Some e => e.(cc_sealed) | None => false end then soonest
      else
        let interval := observerReachPollIntervalMs (messageAgeMs msg now offsetSec) in
        match om_get m.(rm_lastFetchAt) key with
        | None => consider soonest 1
        | Some last =>
          let waitFor :=
            default (retryBackoffMs (match entry with Some e => e.(cc_failures) | None => 1 end)) interval in
          consider soonest (waitFor - (now - last))
        end
  end.
Definition nextWakeMs (startedFor : jstr) (now offsetSec : Z) (m : ReachModule) (messages : list Message)
    (visibleIndexes : list Z) : option Z :=
  foldl (wake_step startedFor now offsetSec m messages) None visibleIndexes.

(** Of the run that is not cancelled. *)
Definition scheduleWake (now offsetSec : Z) (run : PollRun) (w : ReachWorld) (hook : ReachHook) : ReachWorld :=
  let wake :=
    match nextWakeMs run.(pr_startedFor) now offsetSec w.(rw_module) hook.(rh_messages) hook.(rh_visibleIndexes) with
    | None => run.(pr_wake)
    | Some wait => Some (now + wait + 25)
    end in
  w <| rw_hook := Some (hook <| rh_run := Some (run <| pr_wake := wake |>) |>) |>.

Definition reach_due (cached : option CountCacheEntry) (last interval : option Z) (now : Z) : bool :=
  if match cached with Some e => e.(cc_sealed) | None => false end then false
  else
    let wait :=
      match interval with
      | Some i => i
      | None => retryBackoffMs (match cached with Some e => e.(cc_failures) | None => 0 end)
      end in
    match last with None => true | Some l => wait <=? now - l end.

(** One turn of the loop over the visible hashes: [toFetch] and [fromCache]. *)
Definition fetch_step (startedFor : jstr) (now offsetSec : Z) (m : ReachModule) (messages : list Message)
    (acc : list jstr * list (jstr * ObserverReachCountState)) (hash : jstr)
    : list jstr * list (jstr * ObserverReachCountState) :=
  let '(toFetch, fromCache) := acc in
  let key := reach_key startedFor hash in
  let cached := om_get m.(rm_countCache) key in
  let last := om_get m.(rm_lastFetchAt) key in
  let msg := List.find (fun item => toUpperCase <$> reach_hash item ≟ Some hash) messages in
  if match msg with Some msg => negb (isOutgoingReachReady msg now offsetSec) | None => false end then acc
  else
    let interval := msg ≫= fun msg => observerReachPollIntervalMs (messageAgeMs msg now offsetSec) in
    let fromCache :=
      match cached with Some e => om_set fromCache hash e.(cc_state) | None => fromCache end in
    (if reach_due cached last interval now then toFetch ++ [hash] else toFetch, fromCache).

(** The debounce timer fires. *)
Definition debounced (now offsetSec : Z) (run : PollRun) (hook : ReachHook) (w : ReachWorld) : ReachWorld :=
  let startedFor := run.(pr_startedFor) in
  let '(toFetch, fromCache) :=
    foldl (fetch_step startedFor now offsetSec w.(rw_module) hook.(rh_messages)) ([], [])
          (signature_hashes run.(pr_signature)) in
  let run := run <| pr_debounce := None |> in
  let hook := (setCounts (spread fromCache) hook) <| rh_run := Some run |> in
  match toFetch with
  | [] => scheduleWake now offsetSec run w hook
  | _ =>
    let requested := slice toFetch 0 BATCH_MAX in
    w <| rw_hook := Some hook |>
      <| rw_flights := w.(rw_flights) ++ [(run.(pr_id), (startedFor, requested))] |>
      <| rw_log := w.(rw_log) ++ [(startedFor, requested)] |>
  end.

(** *** The reply *)

(** [counts[hash]] may be missing or not a number. *)
Record CountsResponse := {
  cr_directory_enabled : bool;
  cr_counts : list (jstr * option Z);
  cr_sealed : option (list (jstr * bool));
}.

Definition responseSealed (sealed : option (list (jstr * bool))) (hash : jstr) : bool :=
  match sealed with
  | None => false
  | Some s => (om_get s hash ≟ Some true) || (om_get s (toLowerCase hash) ≟ Some true)
  end.

Definition store_count (key : jstr) (entry : CountCacheEntry) (fetchedAt : Z) (m : ReachModule) : ReachModule :=
  m <| rm_countCache := om_set m.(rm_countCache) key entry |>
    <| rm_lastFetchAt := om_set m.(rm_lastFetchAt) key fetchedAt |>.

Definition failures_of (m : ReachModule) (key : jstr) : Z :=
  match om_get m.(rm_countCache) key with Some e => e.(cc_failures) | None => 0 end.

(** The loop of a refused request, and of a reply with the directory off. *)
Definition fail_step (startedFor : jstr) (fetchedAt : Z)
    (acc : ReachModule * list (jstr * ObserverReachCountState)) (hash : jstr)
    : ReachModule * list (jstr * ObserverReachCountState) :=
  let '(m, failed) := acc in
  let key := reach_key startedFor hash in
  (store_count key {| cc_at := fetchedAt; cc_state := CountError; cc_sealed := false;
                      cc_failures := failures_of m key + 1 |} fetchedAt m,
   om_set failed hash CountError).

Definition count_step (response : CountsResponse) (startedFor : jstr) (fetchedAt : Z)
    (acc : ReachModule * list (jstr * ObserverReachCountState)) (hash : jstr)
    : ReachModule * list (jstr * ObserverReachCountState) :=
  let '(m, fetched) := acc in
  let count :=
    match mjoin (om_get response.(cr_counts) hash) with
    | Some c => Some c
    | None => mjoin (om_get response.(cr_counts) (toLowerCase hash))
    end in
  let sealed := responseSealed response.(cr_sealed) hash in
  let state := match count with Some c => CountOk c | None => CountError end in
  let key := reach_key startedFor hash in
  let final := sealed && match state with CountOk _ => true | _ => false end in
  (store_count key {| cc_at := fetchedAt; cc_state := state; cc_sealed := final;
                      cc_failures := if final then 0 else failures_of m key + 1 |} fetchedAt m,
   om_set fetched hash state).

(** [None] is a request that failed. *)
Definition receive_counts (response : option CountsResponse) (startedFor : jstr) (requested : list jstr)
    (fetchedAt : Z) (m : ReachModule) : ReachModule * list (jstr * ObserverReachCountState) :=
  match response with
  | None => foldl (fail_step startedFor fetchedAt) (m, []) requested
  | Some response =>
    if negb response.(cr_directory_enabled) then foldl (fail_step startedFor fetchedAt) (m, []) requested
    else foldl (count_step response startedFor fetchedAt) (m, []) requested
  end.

(** The reply to the request of a run; every run has sent at most one. *)
Definition counts_replied (id : Z) (response : option CountsResponse) (now offsetSec : Z) (w : ReachWorld) : ReachWorld :=
  match om_get w.(rw_flights) id with
  | None => w
  | Some (startedFor, requested) =>
    let w := w <| rw_flights := om_delete w.(rw_flights) id |> in
    match w.(rw_hook) with
    | None => w
    | Some hook =>
      match hook.(rh_run) with
      | None => w
      | Some run =>
        if negb (run.(pr_id) =? id) then w
        else if negb (hook.(rh_conversationKey) ≟ Some startedFor) then scheduleWake now offsetSec run w hook
        else
          let '(m, entries) := receive_counts response startedFor requested now w.(rw_module) in
          scheduleWake now offsetSec run (w <| rw_module := m |>) (setCounts (spread entries) hook)
      end
    end
  end.

(** *** Renders and events *)

(** A render with these props and this [delayTick], and the effects whose dependencies changed. *)
Definition reach_render (directoryEnabled : bool) (conversationKey : option jstr) (messages : list Message)
    (visibleIndexes : list Z) (delayTick : Z) (now : Z) (w : ReachWorld) : ReachWorld :=
  let signature := hashSignature directoryEnabled conversationKey messages visibleIndexes in
  let changed :=
    match w.(rw_hook) with
    | None => true
    | Some h =>
      negb ((h.(rh_directoryEnabled) ≟ directoryEnabled) && (h.(rh_conversationKey) ≟ conversationKey)
            && (h.(rh_hashSignature) ≟ signature) && (h.(rh_delayTick) ≟ delayTick))
    end in
  let fresh :=
    (fun startedFor => {| pr_id := w.(rw_nextRun); pr_startedFor := startedFor; pr_signature := signature;
                          pr_debounce := Some (now + REACH_DEBOUNCE_MS); pr_wake := None |})
    <$> polls directoryEnabled conversationKey in
  let hook :=
    {| rh_directoryEnabled := directoryEnabled; rh_conversationKey := conversationKey; rh_messages := messages;
       rh_visibleIndexes := visibleIndexes;
       rh_counts := match w.(rw_hook) with Some h => h.(rh_counts) | None => [] end;
       rh_delayTick := delayTick; rh_listener := polls directoryEnabled conversationKey;
       rh_hashSignature := signature;
       rh_run := if changed then fresh else (w.(rw_hook) ≫= rh_run) |} in
  let w := w <| rw_hook := Some hook |> in
  if changed then w <| rw_nextRun := w.(rw_nextRun) + 1 |> else w.

Inductive ReachEvent :=
  | RvRender (directoryEnabled : bool) (conversationKey : option jstr) (messages : list Message) (visibleIndexes : list Z) (now : Z)
  | RvUnmount
  | RvTick (packet_hash hash8 ear_id : option jstr) (now offsetSec : Z)
  | RvDebounce (now offsetSec : Z)
  | RvReply (id : Z) (response : option CountsResponse) (now offsetSec : Z)
  | RvWake (now : Z).

Definition reach_step (w : ReachWorld) (e : ReachEvent) : ReachWorld :=
  match e with
  | RvRender enabled conversation messages visible now =>
    reach_render enabled conversation messages visible
      (match w.(rw_hook) with Some h => h.(rh_delayTick) | None => 0 end) now w
  | RvUnmount => w <| rw_hook := None |>
  | RvTick packet_hash hash8 ear_id now offsetSec =>
    match observer_tick packet_hash hash8 ear_id, w.(rw_hook) with
    | Some event, Some hook =>
      let '(m, hook) := onEvent event now offsetSec w.(rw_module) hook in
      w <| rw_module := m |> <| rw_hook := Some hook |>
    | _, _ => w
    end
  | RvDebounce now offsetSec =>
    match w.(rw_hook) with
    | Some hook =>
      match hook.(rh_run) with
      | Some run =>
        match run.(pr_debounce) with
        | Some due => if due <=? now then debounced now offsetSec run hook w else w
        | None => w
        end
      | None => w
      end
    | None => w
    end
  | RvReply id response now offsetSec => counts_replied id response now offsetSec w
  | RvWake now =>
    match w.(rw_hook) with
    | Some h =>
      match h.(rh_run) ≫= pr_wake with
      | Some due =>
        if due <=? now then
          reach_render h.(rh_directoryEnabled) h.(rh_conversationKey) h.(rh_messages) h.(rh_visibleIndexes)
            (h.(rh_delayTick) + 1) now w
        else w
      | None => w
      end
    | None => w
    end
  end.

Definition reach_run (events : list ReachEvent) (w : ReachWorld) : ReachWorld := foldl reach_step w events.
