(* ===== verification/ObserverReachProps.v ===== *)
(** What [ObserverReach] promises: a badge shows what the cache holds, a final count is never
    asked for again, a request names messages on screen that are due, an ear counts once, and
    while a message is young its polling goes on until its count is final. *)
From S2P Require Import Prelude JsString JsCollections Regex Types CommunityFrames ObserverReach.

(** ** Hashes *)

(** The server's packet hashes are hexadecimal. *)
Definition hex_hash (msg : Message) : Prop :=
  forall h, reach_hash msg = Some h -> Forall (fun c => is_hex c = true) h.

(** What [eligibleVisibleHashes] collects. *)
Definition upper_hex (h : jstr) : Prop :=
  Forall (fun c => is_hex c = true) h /\ toUpperCase h = h /\ h <> [].

Lemma is_hex_bounds c : is_hex c = true -> in_range 48 57 c || in_range 65 70 c || in_range 97 102 c = true.
Proof.
  unfold is_hex, hex_val. intros H%bool_decide_eq_true.
  destruct (in_range 48 57 c), (in_range 97 102 c), (in_range 65 70 c); try done.
Qed.

Lemma is_hex_upper c : is_hex c = true -> is_hex (unit_upper c) = true.
Proof.
  intros H%is_hex_bounds. unfold is_hex, hex_val, unit_upper.
  rewrite !orb_true_iff, !in_range_true in H.
  destruct (in_range 97 122 c) eqn:E; apply bool_decide_eq_true; ranges; try done; exfalso; lia.
Qed.

Lemma upper_hex_of msg h :
  hex_hash msg -> truthy (reach_hash msg) = Some h -> upper_hex (toUpperCase h).
Proof.
  intros Hx Ht. assert (Hr : reach_hash msg = Some h /\ h <> []).
  { destruct (reach_hash msg) as [[|c s]|]; simplify_eq/=; done. }
  destruct Hr as [Hr Hn]. split_and!.
  - apply Forall_fmap. eapply Forall_impl; [by apply Hx|]. intros c. apply is_hex_upper.
  - apply toUpperCase_idemp.
  - by destruct h.
Qed.

Lemma hex_not c d : is_hex c = true -> is_hex d = false -> c <> d.
Proof. congruence. Qed.

Lemma eligible_truthy msg :
  isObserverReachEligible msg = true -> truthy (reach_hash msg) = Some (default [] (reach_hash msg)).
Proof. unfold isObserverReachEligible. by destruct (reach_hash msg) as [[|c s]|]. Qed.

Lemma split_char_cons c s t :
  Forall (fun x => x <> c) s -> split_char c (s ++ c :: t) = s :: split_char c t.
Proof.
  intros Hs. induction Hs as [|x s Hx _ IH]; cbn [split_char app].
  - by rewrite Z.eqb_refl.
  - by rewrite (proj2 (Z.eqb_neq x c) Hx), IH.
Qed.
Lemma split_char_one c s : Forall (fun x => x <> c) s -> split_char c s = [s].
Proof.
  intros Hs. induction Hs as [|x s Hx _ IH]; [done|]. cbn [split_char].
  by rewrite (proj2 (Z.eqb_neq x c) Hx), IH.
Qed.
Lemma split_char_join c hs :
  hs <> [] -> Forall (Forall (fun x => x <> c)) hs -> split_char c (join [c] hs) = hs.
Proof.
  intros Hn Hall. induction Hall as [|h hs Hh Hall IH]; [done|].
  destruct hs as [|h' hs]; [by apply split_char_one|].
  change (join [c] (h :: h' :: hs)) with (h ++ [c] ++ join [c] (h' :: hs)).
  cbn [app]. rewrite split_char_cons by done. by rewrite IH.
Qed.

Lemma upper_hex_no c h : is_hex c = false -> upper_hex h -> Forall (fun x => x <> c) h.
Proof. intros Hc [Hh _]. eapply Forall_impl; [exact Hh|]. intros x Hx. by eapply hex_not. Qed.

(** The signature loses nothing. *)
Lemma signature_hashes_join hs : Forall upper_hex hs -> signature_hashes (join (js ",") hs) = hs.
Proof.
  intros Hall. destruct hs as [|h hs]; [done|]. unfold signature_hashes.
  change (js ",") with [44].
  assert (E : join [44] (h :: hs) <> []).
  { apply Forall_cons in Hall as [(_ & _ & Hh) _]. destruct hs; [done|]. by destruct h. }
  destruct (join [44] (h :: hs)) as [|x xs] eqn:Ej; [done|]. rewrite <- Ej.
  apply split_char_join; [done|]. eapply Forall_impl; [exact Hall|]. intros k. by apply upper_hex_no.
Qed.

(** A key of the cache names one conversation and one hash. *)
Lemma last_colon_inj (a b h k : jstr) :
  Forall (fun x => x <> 58) h -> Forall (fun x => x <> 58) k -> a ++ 58 :: h = b ++ 58 :: k -> a = b /\ h = k.
Proof.
  intros Hh Hk E.
  assert (Hcut : forall a b h k, Forall (fun x => x <> 58) h -> a ++ 58 :: h = b ++ 58 :: k ->
                   (length a < length b)%nat -> False).
  { clear. intros a b h k Hh E Hl.
    assert (Hin : 58 ∈ h); [|by rewrite Forall_forall in Hh; apply (Hh 58)].
    apply (f_equal (drop (S (length a)))) in E.
    rewrite (cons_middle 58 a h), app_assoc, drop_app_length' in E by (rewrite length_app; cbn; lia).
    rewrite E. rewrite drop_app_le by lia. apply elem_of_app. right. left. }
  destruct (Nat.lt_trichotomy (length a) (length b)) as [Hl|[Hl|Hl]].
  - by edestruct (Hcut a b h k).
  - by apply app_inj_1 in E as [-> [=]].
  - by edestruct (Hcut b a k h).
Qed.

Lemma reach_key_inj a b h k :
  upper_hex h -> upper_hex k -> reach_key a h = reach_key b k -> a = b /\ h = k.
Proof.
  intros Hh Hk. unfold reach_key. change (js ":") with [58]. cbn [app].
  destruct (Hh) as (_ & -> & _), (Hk) as (_ & -> & _).
  apply last_colon_inj; by apply upper_hex_no.
Qed.

(** ** The messages on screen *)

(** The message at this index is eligible, and this is its hash. *)
Definition hash_at (messages : list Message) (index : Z) (h : jstr) : Prop :=
  exists msg, message_at messages index = Some msg /\ isObserverReachEligible msg = true
    /\ h = toUpperCase (default [] (reach_hash msg)).

Definition on_screen (hook : ReachHook) (h : jstr) : Prop :=
  exists index, index ∈ hook.(rh_visibleIndexes) /\ hash_at hook.(rh_messages) index h.

Lemma message_at_elem messages index msg : message_at messages index = Some msg -> msg ∈ messages.
Proof. unfold message_at. case_match; [done|]. apply list_elem_of_lookup_2. Qed.

Lemma eligible_hash_upper messages msg :
  Forall hex_hash messages -> msg ∈ messages -> isObserverReachEligible msg = true ->
  upper_hex (toUpperCase (default [] (reach_hash msg))).
Proof.
  intros Hall Hin He. rewrite Forall_forall in Hall. eapply upper_hex_of; [by apply Hall|].
  by apply eligible_truthy.
Qed.

Definition collected (messages : list Message) (done_ : list Z) (hashes : list jstr) : Prop :=
  NoDup hashes /\ forall h, h ∈ hashes <-> exists index, index ∈ done_ /\ hash_at messages index h.

Lemma eligible_step_hashes messages hashes index h :
  h ∈ eligible_step messages hashes index <-> h ∈ hashes \/ hash_at messages index h.
Proof.
  unfold eligible_step, hash_at. destruct (message_at messages index) as [msg|].
  2: { split; [by left|]. by intros [?|(m & ? & _)]. }
  destruct (isObserverReachEligible msg) eqn:Ee; cbn [negb].
  2: { split; [by left|]. intros [?|(m & [= <-] & ? & _)]; congruence. }
  case_decide as Hd; rewrite ?elem_of_app, ?list_elem_of_singleton.
  - split; [by left|]. by intros [?|(m & [= <-] & _ & ->)].
  - split; [intros [?| ->]; [by left | right; by exists msg]|].
    intros [?|(m & [= <-] & _ & ->)]; [by left | by right].
Qed.

Lemma eligible_step_collects messages done_ hashes index :
  collected messages done_ hashes -> collected messages (done_ ++ [index]) (eligible_step messages hashes index).
Proof.
  intros [Hnd Hin]. split.
  - unfold eligible_step. repeat case_match; try done. by apply NoDup_snoc.
  - intros h. rewrite eligible_step_hashes, Hin. split.
    + intros [(i & Hi & Hh)|Hh]; [exists i | exists index]; (split; [|done]); rewrite elem_of_app; [by left|right; left].
    + intros (i & [Hi| ->%list_elem_of_singleton]%elem_of_app & Hh); [left; by exists i | by right].
Qed.

Lemma eligibleVisibleHashes_collects messages visible :
  collected messages visible (eligibleVisibleHashes messages visible).
Proof.
  assert (H : forall l done_ acc, collected messages done_ acc ->
                collected messages (done_ ++ l) (foldl (eligible_step messages) acc l)).
  { induction l as [|i l IH]; intros done_ acc Hc; cbn [foldl]; [by rewrite app_nil_r|].
    rewrite (cons_middle i done_ l), app_assoc. apply IH. by apply eligible_step_collects. }
  apply (H visible []). split; [constructor|]. intros h. split.
  - by intros ?%not_elem_of_nil.
  - by intros (? & ?%not_elem_of_nil & _).
Qed.

Lemma signature_on_screen hook conversation :
  Forall hex_hash hook.(rh_messages) ->
  polls hook.(rh_directoryEnabled) hook.(rh_conversationKey) = Some conversation ->
  let hashes := signature_hashes (hashSignature hook.(rh_directoryEnabled) hook.(rh_conversationKey)
                                    hook.(rh_messages) hook.(rh_visibleIndexes)) in
  NoDup hashes /\ Forall upper_hex hashes /\ forall h, h ∈ hashes <-> on_screen hook h.
Proof.
  intros Hx Hp. unfold hashSignature. rewrite Hp.
  destruct (eligibleVisibleHashes_collects hook.(rh_messages) hook.(rh_visibleIndexes)) as [Hnd Hin].
  assert (Hu : Forall upper_hex (eligibleVisibleHashes hook.(rh_messages) hook.(rh_visibleIndexes))).
  { apply Forall_forall. intros h (i & _ & msg & Hm & He & ->)%Hin.
    eapply eligible_hash_upper; [exact Hx| |done]. by eapply message_at_elem. }
  cbv zeta. rewrite signature_hashes_join by done. done.
Qed.

(** ** The invariant *)

(** A final count is a count, and what was fetched is cached. *)
Definition module_ok (m : ReachModule) : Prop :=
  (forall k e, om_get m.(rm_countCache) k = Some e -> e.(cc_sealed) = true -> exists n, e.(cc_state) = CountOk n)
  /\ (forall k, is_Some (om_get m.(rm_lastFetchAt) k) -> is_Some (om_get m.(rm_countCache) k)).

Definition unsealed (m : ReachModule) (k : jstr) : Prop :=
  forall e, om_get m.(rm_countCache) k = Some e -> e.(cc_sealed) = false.

(** Every count on screen is what the cache holds for its hash. *)
Definition shown (m : ReachModule) (counts : jstr -> option ObserverReachCountState) : Prop :=
  forall h s, counts h = Some s ->
    upper_hex h /\ exists conversation e, om_get m.(rm_countCache) (reach_key conversation h) = Some e /\ e.(cc_state) = s.

Record run_ok (w : ReachWorld) (hook : ReachHook) (run : PollRun) : Prop := {
  ro_id : run.(pr_id) < w.(rw_nextRun);
  ro_for : polls hook.(rh_directoryEnabled) hook.(rh_conversationKey) = Some run.(pr_startedFor);
  ro_signature : run.(pr_signature) = hook.(rh_hashSignature);
  ro_debounce : is_Some run.(pr_debounce) -> om_get w.(rw_flights) run.(pr_id) = None;
  ro_flight : forall sf requested, om_get w.(rw_flights) run.(pr_id) = Some (sf, requested) ->
    sf = run.(pr_startedFor)
    /\ Forall (fun h => h ∈ signature_hashes run.(pr_signature) /\ unsealed w.(rw_module) (reach_key sf h)) requested;
}.

Record hook_ok (w : ReachWorld) (hook : ReachHook) : Prop := {
  ho_hex : Forall hex_hash hook.(rh_messages);
  ho_signature : hook.(rh_hashSignature) = hashSignature hook.(rh_directoryEnabled) hook.(rh_conversationKey)
                                             hook.(rh_messages) hook.(rh_visibleIndexes);
  ho_listener : hook.(rh_listener) = polls hook.(rh_directoryEnabled) hook.(rh_conversationKey);
  ho_shown : shown w.(rw_module) (om_get hook.(rh_counts));
  ho_run : forall run, hook.(rh_run) = Some run -> run_ok w hook run;
}.

Record reach_ok (w : ReachWorld) : Prop := {
  rk_module : module_ok w.(rw_module);
  rk_flights : forall id, is_Some (om_get w.(rw_flights) id) -> id < w.(rw_nextRun);
  rk_hook : forall hook, w.(rw_hook) = Some hook -> hook_ok w hook;
}.

(** *** Writing counts *)

Lemma om_get_set {K V} `{EqDecision K} (m : list (K * V)) (k : K) (v : V) (k' : K) :
  om_get (om_set m k v) k' = if decide (k' = k) then Some v else om_get m k'.
Proof. case_decide; subst; [apply om_get_set_eq | by apply om_get_set_ne]. Qed.

Lemma spread_set h s entries prev :
  h ∉ om_keys entries -> om_get (spread entries (om_set prev h s)) h = Some s.
Proof.
  revert prev. assert (G : forall l p, om_get p h = Some s -> h ∉ om_keys l -> om_get (spread l p) h = Some s).
  { induction l as [|[k v] l IH]; intros p Hp Hn; [done|]. apply not_elem_of_cons in Hn as [Hk Hn].
    cbn in Hk. apply IH; [|done]. cbn. by rewrite om_get_set_ne by congruence. }
  intros prev Hn. apply G; [|done]. apply om_get_set_eq.
Qed.

Lemma om_get_spread entries prev h :
  om_wf entries ->
  om_get (spread entries prev) h = match om_get entries h with Some s => Some s | None => om_get prev h end.
Proof.
  revert prev. induction entries as [|[k s] entries IH]; intros prev Hwf; [done|].
  apply NoDup_cons in Hwf as [Hk Hwf]. cbn [om_get]. case_decide as Hd.
  - subst k. by apply spread_set.
  - change (spread ((k, s) :: entries) prev) with (spread entries (om_set prev k s)).
    rewrite IH by done. by rewrite om_get_set_ne by done.
Qed.

Lemma shown_ext m f g : (forall h, f h = g h) -> shown m f -> shown m g.
Proof. intros E Hs h s. rewrite <- E. apply Hs. Qed.

(** A write to the cache, shown under its hash. *)
Lemma shown_write m m' counts conversation h e :
  m'.(rm_countCache) = om_set m.(rm_countCache) (reach_key conversation h) e -> upper_hex h ->
  shown m counts -> shown m' (fun k => if decide (k = h) then Some e.(cc_state) else counts k).
Proof.
  intros Em Hh Hs k s. case_decide as Hd.
  - intros [= <-]. subst k. split; [done|]. exists conversation, e. by rewrite Em, om_get_set_eq.
  - intros Hk. destruct (Hs k s Hk) as [Hku (c & e' & He & Hst)]. split; [done|]. exists c, e'.
    rewrite Em, om_get_set_ne; [done|]. by intros [_ ->]%reach_key_inj.
Qed.

Lemma module_ok_store key e t m :
  (e.(cc_sealed) = true -> exists n, e.(cc_state) = CountOk n) -> module_ok m -> module_ok (store_count key e t m).
Proof.
  intros He [H1 H2]. split; intros k; cbn -[om_get om_set]; rewrite ?om_get_set.
  - intros e'. case_decide; [by intros [= <-]|]. apply H1.
  - case_decide; [by intros; eexists|]. apply H2.
Qed.

(** What a turn of either loop over a reply does with its hash. *)
Definition stores (sf : jstr) (t : Z)
    (step : ReachModule * list (jstr * ObserverReachCountState) -> jstr -> ReachModule * list (jstr * ObserverReachCountState)) : Prop :=
  forall m acc h, exists e, step (m, acc) h = (store_count (reach_key sf h) e t m, om_set acc h e.(cc_state))
    /\ (e.(cc_sealed) = true -> exists n, e.(cc_state) = CountOk n).

Lemma fail_step_stores sf t : stores sf t (fail_step sf t).
Proof.
  intros m acc h.
  exists {| cc_at := t; cc_state := CountError; cc_sealed := false; cc_failures := failures_of m (reach_key sf h) + 1 |}.
  done.
Qed.

Lemma count_step_stores response sf t : stores sf t (count_step response sf t).
Proof.
  intros m acc h. unfold count_step. cbv zeta.
  lazymatch goal with |- context [store_count _ ?e _ _] => exists e end. split; [reflexivity|].
  cbn [cc_sealed cc_state]. intros [_ H]%andb_true_iff. case_match; by eauto.
Qed.

Record received (sf : jstr) (t : Z) (requested : list jstr) (counts : jstr -> option ObserverReachCountState)
    (m m' : ReachModule) (entries : list (jstr * ObserverReachCountState)) : Prop := {
  rv_module : module_ok m';
  rv_wf : om_wf entries;
  rv_shown : shown m' (fun h => match om_get entries h with Some s => Some s | None => counts h end);
  rv_ears : m'.(rm_liveSeenEars) = m.(rm_liveSeenEars);
  rv_other : forall k, Forall (fun h => reach_key sf h <> k) requested ->
    om_get m'.(rm_countCache) k = om_get m.(rm_countCache) k;
  rv_fetched : Forall (fun h => om_get m'.(rm_lastFetchAt) (reach_key sf h) = Some t) requested;
}.

Lemma stores_received sf t step requested counts m :
  stores sf t step -> Forall upper_hex requested -> module_ok m -> shown m counts ->
  received sf t requested counts m (foldl step (m, []) requested).1 (foldl step (m, []) requested).2.
Proof.
  intros Hstep Hall Hm Hs. induction requested as [|h req IH] using rev_ind.
  - cbn. split; try done; first [apply NoDup_nil_2 | apply Forall_nil_2].
  - apply Forall_app in Hall as [Hall Hh]. rewrite Forall_singleton in Hh.
    rewrite !foldl_app. cbn [foldl]. destruct (foldl step (m, []) req) as [m1 acc]. cbn [fst snd] in IH.
    destruct IH as [IH1 IH2 IH3 IH4 IH5 IH6]; [done|].
    destruct (Hstep m1 acc h) as (e & -> & He). cbn [fst snd]. split.
    + by apply module_ok_store.
    + by apply om_wf_set.
    + eapply shown_ext; [|eapply (shown_write m1 _ _ sf h e); [reflexivity|done|exact IH3]].
      intros k. cbn beta. rewrite om_get_set. by case_decide.
    + done.
    + intros k [Hk Hkh]%Forall_app. rewrite Forall_singleton in Hkh.
      cbn -[om_get om_set]. rewrite om_get_set_ne by congruence. by apply IH5.
    + cbn -[om_get om_set]. apply Forall_app. split; [|apply Forall_singleton, om_get_set_eq].
      eapply Forall_impl; [exact IH6|]. intros k Hk. cbn beta in *. rewrite om_get_set. by case_decide.
Qed.

Lemma receive_counts_received response sf requested t m counts :
  Forall upper_hex requested -> module_ok m -> shown m counts ->
  let '(m', entries) := receive_counts response sf requested t m in received sf t requested counts m m' entries.
Proof.
  intros. unfold receive_counts. destruct response as [r|]; [destruct r.(cr_directory_enabled); cbn [negb]|];
    rewrite (surjective_pairing (foldl _ _ _)); apply stores_received;
    auto using fail_step_stores, count_step_stores.
Qed.

(** *** Every event keeps the invariant *)

Definition reach_event_ok (e : ReachEvent) : Prop :=
  match e with RvRender _ _ messages _ _ => Forall hex_hash messages | _ => True end.

Lemma reach_render_ok enabled conversation messages visible tick now w :
  Forall hex_hash messages -> reach_ok w -> reach_ok (reach_render enabled conversation messages visible tick now w).
Proof.
  intros Hx [Hm Hf Hh]. unfold reach_render. cbv zeta.
  set (signature := hashSignature enabled conversation messages visible).
  assert (Hshown : shown w.(rw_module) (om_get (match w.(rw_hook) with Some h => h.(rh_counts) | None => [] end))).
  { destruct (rw_hook w) as [h|]; [by apply Hh|done]. }
  set (changed := match w.(rw_hook) with None => true | Some h => _ end).
  destruct changed eqn:Ec.
  - split; cbn; [done| |].
    + intros id Hid. apply Hf in Hid. lia.
    + intros hook [= <-]. split; cbn; try done. intros run Hrun.
      destruct (polls enabled conversation) as [sf|] eqn:Ep; [|done]. injection Hrun as <-.
      assert (Hn : om_get (rw_flights w) (rw_nextRun w) = None).
      { destruct (om_get (rw_flights w) (rw_nextRun w)) eqn:E; [|done].
        assert (rw_nextRun w < rw_nextRun w); [apply Hf; by eexists | lia]. }
      split; cbn; rewrite ?Hn; try done. lia.
  - split; cbn; [done..|]. intros hook [= <-]. split; cbn; try done. intros run Hrun.
    subst changed. destruct (rw_hook w) as [h|] eqn:Eh; [|done]. cbn in Hrun. to_prop.
    destruct (Hh h eq_refl) as [_ _ _ _ Hr]. destruct (Hr run Hrun) as [R1 R2 R3 R4 R5].
    split; cbn; try done; congruence.
Qed.

Lemma run_ok_mono w w' hook hook' run run' :
  run'.(pr_id) = run.(pr_id) -> run'.(pr_startedFor) = run.(pr_startedFor) -> run'.(pr_signature) = run.(pr_signature) ->
  (is_Some run'.(pr_debounce) -> is_Some run.(pr_debounce)) ->
  hook'.(rh_directoryEnabled) = hook.(rh_directoryEnabled) -> hook'.(rh_conversationKey) = hook.(rh_conversationKey) ->
  hook'.(rh_hashSignature) = hook.(rh_hashSignature) ->
  w'.(rw_nextRun) = w.(rw_nextRun) -> om_get w'.(rw_flights) run.(pr_id) = om_get w.(rw_flights) run.(pr_id) ->
  (forall k, unsealed w.(rw_module) k -> unsealed w'.(rw_module) k) ->
  run_ok w hook run -> run_ok w' hook' run'.
Proof.
  intros E1 E2 E3 E4 E5 E6 E7 E8 E9 Hs [R1 R2 R3 R4 R5]. split.
  - by rewrite E1, E8.
  - by rewrite E2, E5, E6.
  - by rewrite E3, E7.
  - intros H. rewrite E1, E9. auto.
  - intros sf requested. rewrite E1, E2, E3, E9. intros H. destruct (R5 sf requested H) as [? Hall].
    split; [done|]. eapply Forall_impl; [exact Hall|]. intros h [? ?]. auto.
Qed.

Lemma bump_cache conversation hash now m :
  let '(state, m') := bumpVisibleCount conversation hash now m in
  exists e, m'.(rm_countCache) = om_set m.(rm_countCache) (reach_key conversation hash) e
    /\ e.(cc_state) = state /\ (exists n, state = CountOk n)
    /\ e.(cc_sealed) = match om_get m.(rm_countCache) (reach_key conversation hash) with
                       | Some p => p.(cc_sealed) | None => false end
    /\ m'.(rm_lastFetchAt) = m.(rm_lastFetchAt).
Proof. unfold bumpVisibleCount. cbv zeta. eexists. split; [reflexivity|]. cbn. eauto 10. Qed.

Lemma live_target_eligible event hook msg :
  live_target event hook = Some msg -> msg ∈ hook.(rh_messages) /\ isObserverReachEligible msg = true.
Proof.
  assert (He : forall p, p ∈ eligible_messages hook -> p.2 ∈ hook.(rh_messages) /\ isObserverReachEligible p.2 = true).
  { intros p [Hp (i & x & -> & Hi)%elem_of_lookup_imap]%list_elem_of_filter.
    split; [by eapply list_elem_of_lookup_2 | done]. }
  destruct event as [hash ear|hash8 ear]; cbn [live_target].
  - intros (p & Hp & ->)%fmap_Some. apply List.find_some in Hp as [Hp _].
    apply list_elem_of_In, list_elem_of_filter in Hp as [_ Hp]. by apply He.
  - destruct (filter _ (eligible_messages hook)) as [|p [|]] eqn:Ef; try done. case_match; [|done].
    intros [= <-]. apply He. assert (Hp : p ∈ [p]) by left. rewrite <- Ef in Hp.
    by apply list_elem_of_filter in Hp as [_ Hp].
Qed.

Lemma unsealed_bump m m' key e :
  m'.(rm_countCache) = om_set m.(rm_countCache) key e ->
  e.(cc_sealed) = match om_get m.(rm_countCache) key with Some p => p.(cc_sealed) | None => false end ->
  forall k, unsealed m k -> unsealed m' k.
Proof.
  intros Ec He k Hk e'. rewrite Ec, om_get_set. case_decide as Hd; [|by apply Hk].
  intros [= <-]. rewrite He. subst k. destruct (om_get _ key) eqn:E; [|done]. by apply Hk.
Qed.

Lemma onEvent_ok event now offset w hook :
  reach_ok w -> w.(rw_hook) = Some hook ->
  let '(m, hook') := onEvent event now offset w.(rw_module) hook in
  reach_ok (w <| rw_module := m |> <| rw_hook := Some hook' |>).
Proof.
  intros Hw Eh. pose proof (rk_hook _ Hw hook Eh) as [Hx Hsig Hl Hs Hr]. destruct Hw as [[Hm1 Hm2] Hf Hh].
  assert (Hsame : reach_ok (w <| rw_module := w.(rw_module) |> <| rw_hook := Some hook |>)).
  { split; cbn; [done..|]. intros ? [= <-]. split; try done. intros run Hrun. by eapply run_ok_mono, Hr. }
  unfold onEvent. destruct (rh_listener hook) as [sf|] eqn:Elh; [|done].
  destruct (negb _); [done|]. destruct (live_target event hook) as [msg|] eqn:Et; [|done].
  destruct (YOUNG_REACH_MS <=? _); [done|].
  apply live_target_eligible in Et as [Hin He].
  pose proof (eligible_hash_upper _ _ Hx Hin He) as Hu. cbv zeta. revert Hu.
  generalize (toUpperCase (default [] (reach_hash msg))). intros hash Hu.
  unfold noteSeenEar. case_decide; [done|]. cbn [negb].
  set (m1 := (rw_module w) <| rm_liveSeenEars := _ |>).
  pose proof (bump_cache sf hash now m1) as Hb.
  destruct (bumpVisibleCount sf hash now m1) as [state m'].
  destruct Hb as (e & Ec & Ee & [n ->] & Esl & El).
  change (rm_countCache m1) with (rm_countCache (rw_module w)) in *.
  change (rm_lastFetchAt m1) with (rm_lastFetchAt (rw_module w)) in *. clearbody m1.
  split; cbn -[om_get om_set]; [split|done|].
  - intros k e'. rewrite Ec, om_get_set. case_decide; [intros [= <-]; eauto|apply Hm1].
  - intros k. rewrite El, Ec, om_get_set. case_decide; [done|apply Hm2].
  - intros ? [= <-]. split; try done; cbn -[om_get om_set]; [congruence|..].
    + eapply shown_ext; [|eapply (shown_write (rw_module w) _ _ sf hash e); done].
      intros k. cbn beta. rewrite om_get_set, Ee. done.
    + intros run Hrun. eapply run_ok_mono; [..|by apply Hr]; try done.
      by eapply unsealed_bump.
Qed.

(** What a poll asks for is not final, and was never fetched or at least two seconds ago. *)
Definition to_poll (m : ReachModule) (sf : jstr) (now : Z) (h : jstr) : Prop :=
  unsealed m (reach_key sf h)
  /\ match om_get m.(rm_lastFetchAt) (reach_key sf h) with None => True | Some last => 2000 <= now - last end.

Lemma retryBackoffMs_bounds f : 30000 <= retryBackoffMs f <= 240000.
Proof.
  unfold retryBackoffMs, RETRY_BACKOFF_MS, RETRY_BACKOFF_MAX_MS.
  assert (0 < 2 ^ Z.max (f - 1) 0) by (apply Z.pow_pos_nonneg; lia). lia.
Qed.

Lemma poll_interval_bounds age i : observerReachPollIntervalMs age = Some i -> 2000 <= i <= 60000.
Proof. unfold observerReachPollIntervalMs, YOUNG_POLL_MS, MID_POLL_MS. intros H. repeat case_match; simplify_eq; lia. Qed.

Lemma reach_due_to_poll m sf now h interval :
  (forall i, interval = Some i -> 2000 <= i) ->
  reach_due (om_get m.(rm_countCache) (reach_key sf h)) (om_get m.(rm_lastFetchAt) (reach_key sf h)) interval now = true ->
  to_poll m sf now h.
Proof.
  intros Hi Hd. unfold reach_due in Hd. unfold to_poll, unsealed.
  assert (Hs : match om_get m.(rm_countCache) (reach_key sf h) with Some e => e.(cc_sealed) | None => false end = false).
  { revert Hd. by destruct (match om_get (rm_countCache m) _ with Some e => cc_sealed e | None => false end). }
  rewrite Hs in Hd. split; [intros e He; by rewrite He in Hs|].
  destruct (om_get (rm_lastFetchAt m) _) as [last|]; [|done]. to_prop.
  destruct interval as [i|]; [specialize (Hi i eq_refl); lia|].
  match type of Hd with retryBackoffMs ?f <= _ => pose proof (retryBackoffMs_bounds f) end. lia.
Qed.

Record polled (m : ReachModule) (sf : jstr) (now : Z) (hashes : list jstr)
    (toFetch : list jstr) (fromCache : list (jstr * ObserverReachCountState)) : Prop := {
  pd_sub : toFetch `sublist_of` hashes;
  pd_due : Forall (to_poll m sf now) toFetch;
  pd_wf : om_wf fromCache;
  pd_cached : forall h s, om_get fromCache h = Some s ->
    h ∈ hashes /\ exists e, om_get m.(rm_countCache) (reach_key sf h) = Some e /\ e.(cc_state) = s;
}.

Lemma fetch_fold_polled sf now offset m messages hashes :
  let '(toFetch, fromCache) := foldl (fetch_step sf now offset m messages) ([], []) hashes in
  polled m sf now hashes toFetch fromCache.
Proof.
  induction hashes as [|h hashes IH] using rev_ind; [|].
  { split; cbn; [apply sublist_nil_l | apply Forall_nil_2 | apply NoDup_nil_2 | done]. }
  rewrite foldl_app. cbn [foldl]. destruct (foldl _ _ hashes) as [toFetch fromCache].
  destruct IH as [P1 P2 P3 P4].
  assert (Hkeep : toFetch `sublist_of` hashes ++ [h]) by (etrans; [done|]; by apply sublist_inserts_r).
  assert (Hcached : forall h' s, om_get fromCache h' = Some s -> h' ∈ hashes ++ [h] /\
            exists e, om_get (rm_countCache m) (reach_key sf h') = Some e /\ cc_state e = s).
  { intros h' s Hs. destruct (P4 h' s Hs) as [? ?]. split; [|done]. rewrite elem_of_app. by left. }
  unfold fetch_step. cbv zeta. set (msg := List.find _ messages).
  destruct (match msg with Some _ => _ | None => _ end); [done|]. split.
  - case_match; [by apply sublist_app|done].
  - case_match; [|done]. apply Forall_app. split; [done|]. apply Forall_singleton.
    eapply reach_due_to_poll; [|done]. intros i (msg' & _ & Hi)%bind_Some. apply poll_interval_bounds in Hi. lia.
  - case_match; [by apply om_wf_set|done].
  - intros h' s. case_match eqn:Ee; [|apply Hcached]. rewrite om_get_set. case_decide; [|apply Hcached].
    intros [= <-]. subst h'. split; [rewrite elem_of_app; right; left | by eexists].
Qed.

(** *** The effect of a poll *)

Lemma scheduleWake_ok now offset run w hook :
  reach_ok (w <| rw_hook := Some (hook <| rh_run := Some run |>) |>) ->
  reach_ok (scheduleWake now offset run w hook).
Proof.
  intros [Hm Hf Hh]. unfold scheduleWake. cbv zeta. split; cbn; [done..|]. intros ? [= <-].
  destruct (Hh _ eq_refl) as [H1 H2 H3 H4 H5]. split; try done. intros ? [= <-].
  eapply run_ok_mono; [..|by apply H5]; done.
Qed.

Lemma debounced_ok now offset run hook w :
  reach_ok w -> w.(rw_hook) = Some hook -> hook.(rh_run) = Some run -> is_Some run.(pr_debounce) ->
  reach_ok (debounced now offset run hook w).
Proof.
  intros Hw Eh Er Hd. pose proof (rk_hook _ Hw hook Eh) as [Hx Hsig Hl Hs Hr].
  pose proof (Hr run Er) as Hrun. destruct Hw as [Hm Hf Hh]. destruct (Hrun) as [R1 R2 R3 R4 R5].
  specialize (R4 Hd). unfold debounced. cbv zeta.
  pose proof (fetch_fold_polled run.(pr_startedFor) now offset w.(rw_module) hook.(rh_messages)
                (signature_hashes run.(pr_signature))) as Hp.
  destruct (foldl _ _ _) as [toFetch fromCache]. destruct Hp as [P1 P2 P3 P4].
  destruct (signature_on_screen hook _ Hx R2) as (Hnd & Hu & _). rewrite <- Hsig, <- R3 in Hnd, Hu.
  assert (Hshown : shown w.(rw_module) (om_get (spread fromCache hook.(rh_counts)))).
  { intros h s. rewrite om_get_spread by done. destruct (om_get fromCache h) as [s'|] eqn:E; [|apply Hs].
    intros [= <-]. destruct (P4 h s' E) as [Hin (e & He & Hst)]. rewrite Forall_forall in Hu.
    split; [by apply Hu|]. by exists run.(pr_startedFor), e. }
  destruct toFetch as [|x xs].
  - apply scheduleWake_ok. split; cbn; [done..|]. intros ? [= <-]. split; try done. intros ? [= <-].
    eapply run_ok_mono; [..|exact Hrun]; done.
  - split; cbn -[slice]; [done| |].
    + intros id. rewrite om_get_app. cbn. destruct (om_get (rw_flights w) id) eqn:E; [intros _; apply Hf; by eexists|].
      case_decide; [intros _; by subst|by intros []].
    + intros ? [= <-]. split; try done. intros ? [= <-]. split; cbn -[slice]; try done.
      intros sf requested. rewrite om_get_app, R4. cbn -[slice]. rewrite decide_True by done.
      intros [= <- <-]. split; [done|]. rewrite slice_to by done. apply Forall_take, Forall_forall.
      intros h Hin. split; [by eapply elem_of_sublist|]. rewrite Forall_forall in P2. by apply P2.
Qed.

Lemma counts_replied_ok id response now offset w :
  reach_ok w -> reach_ok (counts_replied id response now offset w).
Proof.
  intros Hw. unfold counts_replied. destruct (om_get (rw_flights w) id) as [[sf requested]|] eqn:Ef; [|done].
  cbv zeta. set (w1 := w <| rw_flights := om_delete (rw_flights w) id |>).
  destruct Hw as [Hm Hf Hh].
  assert (Hdel : forall i, is_Some (om_get (om_delete (rw_flights w) id) i) -> i < rw_nextRun w).
  { intros i Hi. apply Hf. destruct (decide (id = i)) as [->|Hne].
    - rewrite om_get_delete_eq in Hi. by destruct Hi.
    - by rewrite om_get_delete_ne in Hi. }
  assert (Hrun : forall m hook hook' run, rw_hook w = Some hook -> rh_run hook = Some run ->
     hook'.(rh_directoryEnabled) = hook.(rh_directoryEnabled) -> hook'.(rh_conversationKey) = hook.(rh_conversationKey) ->
     hook'.(rh_hashSignature) = hook.(rh_hashSignature) ->
     (run.(pr_id) = id \/ m = w.(rw_module)) -> run_ok (w1 <| rw_module := m |>) hook' run).
  { intros m hook hook' run Eh Er E1 E2 E3 Hid. destruct (ho_run _ _ (Hh hook Eh) run Er) as [R1 R2 R3 R4 R5].
    split; cbn; [done|congruence|congruence| |]; destruct (decide (id = pr_id run)) as [->|Hne];
      rewrite ?om_get_delete_eq, ?om_get_delete_ne by done; try done.
    intros sf' req Hg. destruct Hid as [|Hid]; [congruence|]. rewrite Hid. by apply R5. }
  change (rw_hook w1) with (rw_hook w).
  destruct (rw_hook w) as [hook|] eqn:Eh.
  2: { split; [done..|]. intros h. change (rw_hook w1) with (rw_hook w). by rewrite Eh. }
  assert (Hkeep : reach_ok w1).
  { split; [done..|]. intros h. change (rw_hook w1) with (rw_hook w). rewrite Eh. intros [= <-].
    destruct (Hh hook eq_refl) as [H1 H2 H3 H4 H5]. split; try done. intros run Er.
    change w1 with (w1 <| rw_module := rw_module w |>). eapply Hrun; eauto. }
  destruct (rh_run hook) as [run|] eqn:Er; [|done]. destruct (Z.eqb_spec (pr_id run) id) as [<-|]; [|done]. cbn [negb].
  destruct (Hh hook eq_refl) as [Hx Hsig Hl Hs Hr].
  destruct (negb _).
  - apply scheduleWake_ok. destruct Hkeep as [K1 K2 K3]. split; [done..|]. intros ? [= <-].
    split; try done. intros ? [= <-].
    eapply run_ok_mono; [..|eapply (Hrun (rw_module w) hook hook run); eauto]; done.
  - destruct (Hr run Er) as [R1 R2 R3 R4 R5]. destruct (R5 _ _ Ef) as [-> Hreq].
    destruct (signature_on_screen hook _ Hx R2) as (_ & Hu & _). rewrite <- Hsig, <- R3 in Hu.
    assert (Hru : Forall upper_hex requested).
    { eapply Forall_impl; [exact Hreq|]. intros h [Hin _]. rewrite Forall_forall in Hu. by apply Hu. }
    pose proof (receive_counts_received response (pr_startedFor run) requested now (rw_module w) _ Hru Hm Hs) as Hrec.
    change (rw_module w1) with (rw_module w).
    destruct (receive_counts _ _ _ _ _) as [m entries]. destruct Hrec as [V1 V2 V3 _ _ _].
    apply scheduleWake_ok. split; [done..|]. intros ? [= <-]. split; try done.
    + cbn. eapply shown_ext; [|exact V3]. intros h. by rewrite om_get_spread.
    + intros ? [= <-]. eapply run_ok_mono; [..|eapply (Hrun m hook hook run); eauto]; done.
Qed.

Lemma reach_step_ok w e : reach_event_ok e -> reach_ok w -> reach_ok (reach_step w e).
Proof.
  intros He Hw. destruct e as [en conv msgs vis now| |ph h8 ear now off|now off|id r now off|now]; cbn [reach_step].
  - by apply reach_render_ok.
  - destruct Hw. by split.
  - destruct (observer_tick _ _ _) as [event|]; [|done]. destruct (rw_hook w) as [hook|] eqn:Eh; [|done].
    pose proof (onEvent_ok event now off w hook Hw Eh) as H. by destruct (onEvent _ _ _ _ _).
  - destruct (rw_hook w) as [hook|] eqn:Eh; [|done]. destruct (rh_run hook) as [run|] eqn:Er; [|done].
    destruct (pr_debounce run) as [due|] eqn:Ed; [|done]. case_match; [|done]. by apply debounced_ok.
  - by apply counts_replied_ok.
  - destruct (rw_hook w) as [hook|] eqn:Eh; [|done]. case_match; [|done]. case_match; [|done].
    apply reach_render_ok; [|done]. by apply (rk_hook _ Hw hook Eh).
Qed.

Lemma reach_world0_ok : reach_ok reach_world0.
Proof. split; [split|..]; cbn; try done; by intros ? []. Qed.

Lemma reach_run_ok events w : Forall reach_event_ok events -> reach_ok w -> reach_ok (reach_run events w).
Proof.
  intros Hall. revert w. induction Hall as [|e events He _ IH]; intros w Hw; [done|]. by apply IH, reach_step_ok.
Qed.

(** Whatever the renders, live packets, timers and replies, and in any order: a count on screen
    is the count the cache holds for its hash, a count said to be final is a count and not an
    error, and every hash with a fetch time has a cached count. *)
Theorem badges_show_cache events :
  Forall reach_event_ok events ->
  let w := reach_run events reach_world0 in
  (forall hook h s, w.(rw_hook) = Some hook -> om_get hook.(rh_counts) h = Some s ->
     exists conversation e, om_get w.(rw_module).(rm_countCache) (reach_key conversation h) = Some e /\ e.(cc_state) = s)
  /\ (forall k e, om_get w.(rw_module).(rm_countCache) k = Some e -> e.(cc_sealed) = true ->
        exists n, e.(cc_state) = CountOk n)
  /\ (forall k, is_Some (om_get w.(rw_module).(rm_lastFetchAt) k) -> is_Some (om_get w.(rw_module).(rm_countCache) k)).
Proof.
  intros Hall w. destruct (reach_run_ok events reach_world0 Hall reach_world0_ok) as [[H1 H2] _ Hh].
  split_and!; [|done..]. intros hook h s Eh Es. by apply (ho_shown _ _ (Hh hook Eh)) in Es as [_ ?].
Qed.

(** ** Requests *)

(** A request sent at this time: at most twenty hashes, each once, each of an eligible message on
    screen, none final, none fetched less than two seconds ago. *)
Definition request_ok (w : ReachWorld) (now : Z) (sf : jstr) (requested : list jstr) : Prop :=
  exists hook, w.(rw_hook) = Some hook
    /\ polls hook.(rh_directoryEnabled) hook.(rh_conversationKey) = Some sf
    /\ 1 <= len requested <= BATCH_MAX /\ NoDup requested
    /\ Forall (fun h => on_screen hook h /\ to_poll w.(rw_module) sf now h) requested.

Lemma debounced_log now offset run hook w :
  reach_ok w -> w.(rw_hook) = Some hook -> hook.(rh_run) = Some run ->
  (debounced now offset run hook w).(rw_module) = w.(rw_module)
  /\ ((debounced now offset run hook w).(rw_log) = w.(rw_log)
      \/ exists sf requested, (debounced now offset run hook w).(rw_log) = w.(rw_log) ++ [(sf, requested)]
           /\ request_ok w now sf requested).
Proof.
  intros Hw Eh Er. pose proof (rk_hook _ Hw hook Eh) as [Hx Hsig _ _ Hr]. destruct (Hr run Er) as [_ R2 R3 _ _].
  destruct (signature_on_screen hook _ Hx R2) as (Hnd & _ & Hin). rewrite <- Hsig, <- R3 in Hnd, Hin.
  unfold debounced. cbv zeta.
  pose proof (fetch_fold_polled run.(pr_startedFor) now offset w.(rw_module) hook.(rh_messages)
                (signature_hashes run.(pr_signature))) as Hp.
  destruct (foldl _ _ _) as [toFetch fromCache]. destruct Hp as [P1 P2 _ _].
  destruct toFetch as [|x xs]; [by split; [|left]|]. split; [done|]. right.
  exists run.(pr_startedFor), (slice (x :: xs) 0 BATCH_MAX). split; [done|]. exists hook. split_and!; try done.
  - rewrite slice_to by done. change (Z.to_nat BATCH_MAX) with (S 19). cbn [take]. rewrite len_cons.
    pose proof (len_nonneg (take 19 xs)). lia.
  - by apply len_slice_le.
  - rewrite slice_to by done. eapply sublist_NoDup; [|apply sublist_take]. by eapply sublist_NoDup.
  - rewrite slice_to by done. apply Forall_take. rewrite !Forall_forall in *. intros h Hh.
    split; [|by apply P2]. apply Hin. by eapply elem_of_sublist.
Qed.

Lemma reach_step_log w e :
  reach_ok w ->
  (reach_step w e).(rw_log) = w.(rw_log)
  \/ exists now offset sf requested, e = RvDebounce now offset
       /\ (reach_step w e).(rw_log) = w.(rw_log) ++ [(sf, requested)] /\ request_ok w now sf requested.
Proof.
  intros Hw. destruct e as [en conv msgs vis now| |ph h8 ear now off|now off|id r now off|now]; cbn [reach_step].
  - left. unfold reach_render. cbv zeta. by case_match.
  - by left.
  - left. destruct (observer_tick _ _ _), (rw_hook w); try done. by destruct (onEvent _ _ _ _ _).
  - destruct (rw_hook w) as [hook|] eqn:Eh; [|by left]. destruct (rh_run hook) as [run|] eqn:Er; [|by left].
    destruct (pr_debounce run); [|by left]. case_match; [|by left].
    destruct (debounced_log now off run hook w Hw Eh Er) as [_ [?|(sf & req & ? & ?)]]; [by left|].
    right. by exists now, off, sf, req.
  - left. unfold counts_replied. destruct (om_get _ _) as [[sf req]|]; [|done]. cbv zeta.
    cbn [rw_hook set]. destruct (rw_hook w); [|done]. destruct (rh_run _) as [run|]; [|done].
    repeat (case_match; try done).
  - left. destruct (rw_hook w); [|done]. repeat (case_match; try done). unfold reach_render. cbv zeta. by case_match.
Qed.

(** A request for counts, whenever one is sent: it names between one and twenty hashes, no hash
    twice, each the hash of an eligible message on screen in the conversation that is open; none of
    them has a final count, and each was never fetched or fetched at least two seconds before. *)
Theorem reach_requests_due events e :
  Forall reach_event_ok events ->
  let w := reach_run events reach_world0 in
  (reach_step w e).(rw_log) <> w.(rw_log) ->
  exists now offset sf requested, e = RvDebounce now offset
    /\ (reach_step w e).(rw_log) = w.(rw_log) ++ [(sf, requested)]
    /\ request_ok w now sf requested.
Proof.
  intros Hall w Hne. assert (Hw : reach_ok w) by (apply reach_run_ok; [done | apply reach_world0_ok]).
  by destruct (reach_step_log w e Hw).
Qed.

(** ** Final counts *)

Definition final_count (m : ReachModule) (k : jstr) (n : Z) : Prop :=
  exists e, om_get m.(rm_countCache) k = Some e /\ e.(cc_sealed) = true /\ e.(cc_state) = CountOk n.

Lemma bump_final conversation hash now m k n :
  final_count m k n -> exists n', n <= n' /\ final_count (bumpVisibleCount conversation hash now m).2 k n'.
Proof.
  intros (e & He & Hs & Hn). unfold bumpVisibleCount. cbv zeta. cbn [snd].
  destruct (decide (reach_key conversation hash = k)) as [->|Hne].
  - rewrite He. destruct e as [at' st sl f]. cbn in Hs, Hn. subst. exists (n + 1). split; [lia|].
    eexists. cbn -[om_get om_set]. rewrite om_get_set_eq. done.
  - exists n. split; [lia|]. exists e. cbn -[om_get om_set]. by rewrite om_get_set_ne.
Qed.

Lemma final_not_unsealed m k n : final_count m k n -> ~ unsealed m k.
Proof. intros (e & He & Hs & _) Hu. by rewrite (Hu e He) in Hs. Qed.

Lemma onEvent_final event now offset m hook k n :
  final_count m k n -> exists n', n <= n' /\ final_count (onEvent event now offset m hook).1 k n'.
Proof.
  intros Hf. assert (Hsame : exists n', n <= n' /\ final_count m k n') by (exists n; split; [lia|done]).
  unfold onEvent. destruct (rh_listener hook) as [sf|]; [|done].
  destruct (negb _); [done|]. destruct (live_target event hook) as [msg|]; [|done].
  destruct (YOUNG_REACH_MS <=? _); [done|]. cbv zeta. generalize (toUpperCase (default [] (reach_hash msg))).
  intros hash. unfold noteSeenEar. case_decide; [done|]. cbn [negb].
  set (m1 := m <| rm_liveSeenEars := _ |>).
  destruct (bump_final sf hash now m1 k n) as (n' & Hle & Hn'); [exact Hf|].
  exists n'. split; [done|]. by destruct (bumpVisibleCount sf hash now m1).
Qed.

Lemma counts_replied_final id response now offset w k n :
  reach_ok w -> final_count w.(rw_module) k n -> final_count (counts_replied id response now offset w).(rw_module) k n.
Proof.
  intros Hw Hf. unfold counts_replied. destruct (om_get (rw_flights w) id) as [[sf requested]|] eqn:Ef; [|done].
  cbv zeta. set (w1 := w <| rw_flights := _ |>). change (rw_hook w1) with (rw_hook w).
  destruct (rw_hook w) as [hook|] eqn:Eh; [|done]. destruct (rh_run hook) as [run|] eqn:Er; [|done].
  destruct (Z.eqb_spec (pr_id run) id) as [<-|]; [|done]. cbn [negb]. destruct (negb _); [done|].
  pose proof (rk_hook _ Hw hook Eh) as [Hx Hsig _ Hs Hr]. destruct (Hr run Er) as [R1 R2 R3 R4 R5].
  destruct (R5 _ _ Ef) as [-> Hreq].
  destruct (signature_on_screen hook _ Hx R2) as (_ & Hu & _). rewrite <- Hsig, <- R3 in Hu.
  assert (Hru : Forall upper_hex requested).
  { eapply Forall_impl; [exact Hreq|]. intros h [Hin _]. rewrite Forall_forall in Hu. by apply Hu. }
  pose proof (receive_counts_received response (pr_startedFor run) requested now (rw_module w) _ Hru
                (rk_module _ Hw) Hs) as Hrec.
  change (rw_module w1) with (rw_module w). destruct (receive_counts _ _ _ _ _) as [m entries].
  destruct Hrec as [_ _ _ _ Hother _]. destruct Hf as (e & He & Hse & Hn). exists e. split; [|done].
  cbn -[om_get]. rewrite Hother; [done|]. eapply Forall_impl; [exact Hreq|]. intros h [_ Hun] E.
  rewrite <- E in He. by rewrite (Hun e He) in Hse.
Qed.

Lemma reach_step_final w e k n :
  reach_ok w -> final_count w.(rw_module) k n ->
  exists n', n <= n' /\ final_count (reach_step w e).(rw_module) k n'.
Proof.
  intros Hw Hf. assert (Hsame : exists n', n <= n' /\ final_count w.(rw_module) k n') by (exists n; split; [lia|done]).
  destruct e as [en conv msgs vis now| |ph h8 ear now off|now off|id r now off|now]; cbn [reach_step]; try done.
  - unfold reach_render. cbv zeta. by case_match.
  - destruct (observer_tick _ _ _) as [event|]; [|done]. destruct (rw_hook w) as [hook|]; [|done].
    destruct (onEvent_final event now off (rw_module w) hook k n Hf) as (n' & ? & ?).
    exists n'. split; [done|]. by destruct (onEvent _ _ _ _ _).
  - destruct (rw_hook w) as [hook|] eqn:Eh; [|done]. destruct (rh_run hook) as [run|] eqn:Er; [|done].
    destruct (pr_debounce run); [|done]. case_match; [|done].
    by destruct (debounced_log now off run hook w Hw Eh Er) as [-> _].
  - exists n. split; [lia|]. by apply counts_replied_final.
  - destruct (rw_hook w); [|done]. repeat (case_match; try done). unfold reach_render. cbv zeta. by case_match.
Qed.

(** No request of [log] names the key. *)
Definition not_requested (k : jstr) (log : list (jstr * list jstr)) : Prop :=
  Forall (fun r => Forall (fun h => reach_key r.1 h <> k) r.2) log.

Lemma reach_run_final events w k n :
  Forall reach_event_ok events -> reach_ok w -> final_count w.(rw_module) k n ->
  exists n' more, n <= n' /\ final_count (reach_run events w).(rw_module) k n'
    /\ (reach_run events w).(rw_log) = w.(rw_log) ++ more /\ not_requested k more.
Proof.
  intros Hall. revert w n. induction Hall as [|e events He _ IH]; intros w n Hw Hf.
  - exists n, []. split_and!; [lia|done|by rewrite app_nil_r|apply Forall_nil_2].
  - destruct (reach_step_final w e k n Hw Hf) as (n1 & Hn1 & Hf1).
    destruct (IH (reach_step w e) n1) as (n' & more & Hn' & Hf' & Hlog & Hmore); [by apply reach_step_ok|done|].
    change (reach_run (e :: events) w) with (reach_run events (reach_step w e)). rewrite Hlog.
    destruct (reach_step_log w e Hw) as [->|(now & off & sf & req & _ & -> & hook & _ & _ & _ & _ & Hreq)].
    + exists n', more. split_and!; [lia|done..].
    + exists n', ((sf, req) :: more). split_and!; [lia|done|by rewrite <- app_assoc|].
      apply Forall_cons. split; [|done]. eapply Forall_impl; [exact Hreq|].
      intros h [_ [Hun _]] E. apply (final_not_unsealed _ _ _ Hf). by rewrite <- E.
Qed.

(** C24: once the server has said a count is final, it stays a final count that can only rise (an
    observer heard live adds to it), and whatever happens next no request names it again. *)
Theorem final_count_never_refetched events events' conversation h n :
  Forall reach_event_ok (events ++ events') ->
  let w := reach_run events reach_world0 in
  let w' := reach_run (events ++ events') reach_world0 in
  final_count w.(rw_module) (reach_key conversation h) n ->
  exists n' more, n <= n' /\ final_count w'.(rw_module) (reach_key conversation h) n'
    /\ w'.(rw_log) = w.(rw_log) ++ more
    /\ Forall (fun r => Forall (fun k => reach_key r.1 k <> reach_key conversation h) r.2) more.
Proof.
  intros [Hall Hall']%Forall_app w w' Hf. unfold w', reach_run. rewrite foldl_app.
  apply (reach_run_final events' w); [done| |done]. apply reach_run_ok; [done | apply reach_world0_ok].
Qed.

(** ** Polling goes on *)

Definition sooner (soonest wait : option Z) : option Z :=
  match wait, soonest with
  | None, _ => soonest
  | _, None => wait
  | Some w, Some s => Some (Z.min s w)
  end.

Lemma consider_sooner soonest wait : consider soonest wait = sooner soonest (consider None wait).
Proof. unfold consider. by destruct (wait <=? 0). Qed.

Lemma wake_step_sooner sf now offset m messages soonest index :
  wake_step sf now offset m messages soonest index = sooner soonest (wake_step sf now offset m messages None index).
Proof. unfold wake_step. cbv zeta. repeat case_match; try done; apply consider_sooner. Qed.

Lemma wake_step_positive sf now offset m messages index w :
  wake_step sf now offset m messages None index = Some w -> 0 < w.
Proof.
  assert (Hc : forall x, consider None x = Some w -> 0 < w).
  { intros x. unfold consider. destruct (Z.leb_spec x 0); [done|]. by intros [= <-]. }
  unfold wake_step. cbv zeta. repeat case_match; try done; apply Hc.
Qed.

Lemma nextWakeMs_soonest sf now offset m messages visible index wait :
  index ∈ visible -> wake_step sf now offset m messages None index = Some wait ->
  exists s, nextWakeMs sf now offset m messages visible = Some s /\ 0 < s <= wait.
Proof.
  intros Hin Hw. unfold nextWakeMs. set (step := wake_step sf now offset m messages) in *.
  assert (Hpos : forall l acc, (forall s, acc = Some s -> 0 < s) -> forall s, foldl step acc l = Some s -> 0 < s).
  { induction l as [|i l IH]; intros acc Ha s; [apply Ha|]. apply IH. intros s'. unfold step at 1.
    rewrite wake_step_sooner. destruct (wake_step _ _ _ _ _ None i) as [x|] eqn:Ex; cbn; [|apply Ha].
    apply wake_step_positive in Ex. destruct acc as [a|]; intros [= <-]; [|done]. specialize (Ha a eq_refl). lia. }
  assert (Hle : forall l acc s0, acc = Some s0 -> exists s, foldl step acc l = Some s /\ s <= s0).
  { induction l as [|i l IH]; intros acc s0 ->; [exists s0; split; [done|lia]|]. cbn [foldl]. unfold step at 2.
    rewrite wake_step_sooner. destruct (wake_step _ _ _ _ _ None i) as [x|]; cbn [sooner]; [|by apply IH].
    destruct (IH (Some (Z.min s0 x)) _ eq_refl) as (s & -> & ?). exists s. split; [done|lia]. }
  assert (Hex : exists s, foldl step None visible = Some s /\ s <= wait).
  { apply list_elem_of_split in Hin as (l1 & l2 & ->). rewrite foldl_app. cbn [foldl]. unfold step at 2.
    rewrite wake_step_sooner. unfold step in Hw. rewrite Hw. destruct (foldl step None l1) as [a|]; cbn [sooner].
    - destruct (Hle l2 (Some (Z.min a wait)) _ eq_refl) as (s & -> & ?). exists s. split; [done|lia].
    - by apply Hle. }
  destruct Hex as (s & Hs & ?). exists s. split; [done|]. split; [|done]. by eapply (Hpos visible None).
Qed.

(** How long a message waits for its next poll: one ready to be counted for the interval of its age,
    one of mine stamped ahead of this clock until the clock has caught up. *)
Definition next_poll_within (msg : Message) (now offset : Z) : option Z :=
  if isOutgoingReachReady msg now offset then observerReachPollIntervalMs (messageAgeMs msg now offset)
  else Some (OUTGOING_REACH_DELAY_MS - messageAgeMs msg now offset).

Lemma next_poll_known msg now offset :
  messageAgeMs msg now offset < MID_REACH_MS -> exists within, next_poll_within msg now offset = Some within.
Proof.
  intros Ha. unfold next_poll_within, observerReachPollIntervalMs.
  destruct (isOutgoingReachReady _ _ _); [|by eexists].
  destruct (_ <? YOUNG_REACH_MS); [by eexists|]. rewrite (proj2 (Z.ltb_lt _ _) Ha). by eexists.
Qed.

(** The wait of a hash that was just fetched and is not final. *)
Lemma wake_step_fetched sf now offset m messages index msg within :
  message_at messages index = Some msg -> isObserverReachEligible msg = true ->
  let key := reach_key sf (toUpperCase (default [] (reach_hash msg))) in
  unsealed m key -> om_get m.(rm_lastFetchAt) key = Some now -> next_poll_within msg now offset = Some within ->
  wake_step sf now offset m messages None index = Some within.
Proof.
  intros Hm He key Hu Hl. unfold next_poll_within, wake_step. rewrite Hm, He. cbn [negb]. cbv zeta.
  destruct (isOutgoingReachReady msg now offset) eqn:Er; cbn [negb].
  - intros Ei. assert (Hs : match om_get (rm_countCache m) key with
                            | Some e => cc_sealed e | None => false end = false) by (case_match eqn:Ee; [by apply Hu|done]).
    subst key. rewrite Hs, Hl, Ei. cbn [default from_option]. unfold Datatypes.id.
    apply poll_interval_bounds in Ei. unfold consider. by rewrite Z.sub_diag, Z.sub_0_r, (proj2 (Z.leb_gt within 0)) by lia.
  - intros [= <-]. unfold isOutgoingReachReady in Er. case_match; [done|]. to_prop. unfold consider.
    by rewrite (proj2 (Z.leb_gt _ 0)) by lia.
Qed.

(** C21: while a message is young, its polling goes on until its count is final. When the reply to the
    request under way arrives (counts, an error, or the directory is off) and leaves a hash it
    asked for without a final count, and a message of that hash on screen is less than ten minutes
    old, a timer is set that looks again: later than now, and within two seconds for a message
    under a minute old, within a minute for an older one, and for one of mine whose time is ahead
    of this clock when the clock has caught up (each plus the 25 milliseconds the code adds). *)
Theorem polling_goes_on events hook run sf requested response now offset index msg :
  Forall reach_event_ok events ->
  let w := reach_run events reach_world0 in
  let h := toUpperCase (default [] (reach_hash msg)) in
  w.(rw_hook) = Some hook -> hook.(rh_run) = Some run ->
  om_get w.(rw_flights) run.(pr_id) = Some (sf, requested) -> h ∈ requested ->
  index ∈ hook.(rh_visibleIndexes) -> message_at hook.(rh_messages) index = Some msg ->
  isObserverReachEligible msg = true -> messageAgeMs msg now offset < MID_REACH_MS ->
  let w' := reach_step w (RvReply run.(pr_id) response now offset) in
  unsealed w'.(rw_module) (reach_key sf h) ->
  exists hook' run' within due,
    w'.(rw_hook) = Some hook' /\ hook'.(rh_run) = Some run' /\ run'.(pr_wake) = Some due
    /\ next_poll_within msg now offset = Some within /\ now + 25 < due <= now + within + 25.
Proof.
  intros Hall w h Eh Er Ef Hin Hvis Hmsg He Hage w'.
  assert (Hw : reach_ok w) by (apply reach_run_ok; [done | apply reach_world0_ok]).
  pose proof (rk_hook _ Hw hook Eh) as [Hx Hsig _ Hs Hr]. destruct (Hr run Er) as [_ R2 R3 _ R5].
  destruct (R5 _ _ Ef) as [-> Hreq].
  destruct (signature_on_screen hook _ Hx R2) as (_ & Hu & _). rewrite <- Hsig, <- R3 in Hu.
  assert (Hru : Forall upper_hex requested).
  { eapply Forall_impl; [exact Hreq|]. intros k [Hk _]. rewrite Forall_forall in Hu. by apply Hu. }
  pose proof (receive_counts_received response (pr_startedFor run) requested now (rw_module w) _ Hru
                (rk_module _ Hw) Hs) as Hrec.
  subst w'. cbn [reach_step]. unfold counts_replied. rewrite Ef. cbv zeta.
  change (rw_hook (w <| rw_flights := ?f |>)) with (rw_hook w). rewrite Eh, Er, Z.eqb_refl. cbn [negb].
  assert (Ec : rh_conversationKey hook = Some (pr_startedFor run)).
  { unfold polls in R2. destruct (rh_directoryEnabled hook); [|done].
    destruct (rh_conversationKey hook) as [[|c s]|]; done. }
  rewrite (bool_decide_eq_true_2 _ Ec). cbn [negb].
  change (rw_module (w <| rw_flights := ?f |>)) with (rw_module w).
  destruct (receive_counts _ _ _ _ _) as [m entries]. destruct Hrec as [_ _ _ _ _ Hfetched].
  rewrite Forall_forall in Hfetched. specialize (Hfetched h Hin).
  intros Hun. change (unsealed m (reach_key (pr_startedFor run) h)) in Hun.
  destruct (next_poll_known msg now offset Hage) as [within Hwithin].
  pose proof (wake_step_fetched _ now offset m _ index msg within Hmsg He Hun Hfetched Hwithin) as Hwait.
  destruct (nextWakeMs_soonest _ _ _ _ _ (rh_visibleIndexes hook) _ _ Hvis Hwait) as (s & Hs' & Hb).
  unfold scheduleWake. cbv zeta. cbn -[nextWakeMs]. rewrite Hs'. eexists _, _, within, (now + s + 25).
  split_and!; [done..|lia|lia].
Qed.

(** ** Witnesses *)

(** A message on screen, its first poll, and observers of its packet. *)
Definition a_hash : jstr := [65; 66].
Definition a_message (id received_at : Z) (hash : jstr) : Message :=
  {| m_id := id; m_type := CHAN; m_conversation_key := [67]; m_text := []; m_sender_timestamp := None;
     m_received_at := received_at; m_paths := None; m_txt_type := 0; m_signature := None; m_sender_key := None;
     m_outgoing := false; m_acked := 0; m_sender_name := None; m_channel_name := None; m_packet_id := None;
     m_transport_code := None; m_region := None; m_packet_hash := Some (Some hash); m_observer_reach_eligible := None |}.
Definition counted (hash : jstr) (count : Z) (sealed : bool) : option CountsResponse :=
  Some {| cr_directory_enabled := true; cr_counts := [(hash, Some count)]; cr_sealed := Some [(hash, sealed)] |}.
Definition a_screen : ReachEvent := RvRender true (Some [67]) [a_message 1 100 a_hash] [0] 100000.
Definition a_poll : list ReachEvent := [a_screen; RvDebounce 100250 0].

Lemma a_poll_ok : Forall reach_event_ok a_poll.
Proof.
  repeat constructor. intros h [= <-]. repeat constructor.
Qed.

Lemma badges_show_cache_witness :
  exists hook, (reach_run (a_poll ++ [RvReply 0 (counted a_hash 3 true) 100400 0]) reach_world0).(rw_hook) = Some hook
  /\ om_get hook.(rh_counts) a_hash = Some (CountOk 3)
  /\ exists conversation e,
       om_get (reach_run (a_poll ++ [RvReply 0 (counted a_hash 3 true) 100400 0]) reach_world0).(rw_module).(rm_countCache)
         (reach_key conversation a_hash) = Some e /\ e.(cc_state) = CountOk 3.
Proof.
  destruct (badges_show_cache (a_poll ++ [RvReply 0 (counted a_hash 3 true) 100400 0])) as (H & _).
  { apply Forall_app. split; [apply a_poll_ok | repeat constructor]. }
  eexists. split; [vm_compute; reflexivity|]. split; [vm_compute; reflexivity|].
  eapply H; vm_compute; reflexivity.
Defined.

Lemma reach_requests_due_witness :
  let w := reach_run [a_screen] reach_world0 in
  exists requested, (reach_step w (RvDebounce 100250 0)).(rw_log) = [([67], requested)] /\ NoDup requested
    /\ Forall (to_poll w.(rw_module) [67] 100250) requested.
Proof.
  destruct (reach_requests_due [a_screen] (RvDebounce 100250 0)) as (now & off & sf & req & He & Hlog & hook & Eh & Hp & _ & Hnd & Hall).
  - constructor; [exact (Forall_inv a_poll_ok) | constructor].
  - vm_compute. done.
  - injection He as <- <-. exists req. cbv zeta. rewrite Hlog.
    assert (Hsf : sf = [67]). { vm_compute in Eh. injection Eh as <-. vm_compute in Hp. congruence. }
    subst sf. split_and!; [done|done|]. eapply Forall_impl; [exact Hall|]. by intros h [].
Defined.

Lemma final_count_never_refetched_witness :
  exists n' more, 3 <= n'
    /\ final_count (reach_run ((a_poll ++ [RvReply 0 (counted a_hash 3 true) 100400 0])
         ++ [RvTick (Some a_hash) (Some (js "ab000000")) (Some [1]) 101000 0; RvWake 200000; RvDebounce 300000 0]) reach_world0).(rw_module)
         (reach_key [67] a_hash) n'
    /\ Forall (fun r => Forall (fun k => reach_key r.1 k <> reach_key [67] a_hash) r.2) more.
Proof.
  destruct (final_count_never_refetched (a_poll ++ [RvReply 0 (counted a_hash 3 true) 100400 0])
    [RvTick (Some a_hash) (Some (js "ab000000")) (Some [1]) 101000 0; RvWake 200000; RvDebounce 300000 0] [67] a_hash 3)
    as (n' & more & H1 & H2 & _ & H3).
  - repeat (apply Forall_app; split); [apply a_poll_ok | repeat constructor..].
  - eexists. split; [vm_compute; reflexivity|]. split; reflexivity.
  - by exists n', more.
Defined.

Lemma polling_goes_on_witness :
  exists hook' run' due,
    (reach_step (reach_run a_poll reach_world0) (RvReply 0 (counted a_hash 3 false) 100400 0)).(rw_hook) = Some hook'
    /\ hook'.(rh_run) = Some run' /\ run'.(pr_wake) = Some due /\ 100425 < due <= 102425.
Proof.
  destruct (polling_goes_on a_poll
    (default (Build_ReachHook false None [] [] [] 0 None [] None) (reach_run a_poll reach_world0).(rw_hook))
    (Build_PollRun 0 [67] [65; 66] None None) [67] [a_hash] (counted a_hash 3 false) 100400 0 0 (a_message 1 100 a_hash))
    as (hook' & run' & within & due & H1 & H2 & H3 & H4 & H5).
  - apply a_poll_ok.
  - vm_compute. reflexivity.
  - vm_compute. reflexivity.
  - vm_compute. reflexivity.
  - left.
  - vm_compute. left.
  - vm_compute. reflexivity.
  - reflexivity.
  - reflexivity.
  - intros e He. vm_compute in He. by injection He as <-.
  - exists hook', run', due. split_and!; [done..|apply H5|]. injection H4 as <-. apply H5.
Defined.

(** A hash that is overdue when a reply arrives is not waited for: with another hash just made
    final, no timer is set, and it is not polled again until something else changes. *)
Example overdue_hash_forgotten :
  let two := RvRender true (Some [67]) [a_message 1 100 a_hash; a_message 2 100 [67]] [0; 1] 101000 in
  let w := reach_run (a_poll ++ [RvReply 0 (counted a_hash 3 false) 100400 0; two; RvDebounce 101250 0;
                                 RvReply 1 (counted [67] 1 true) 104000 0]) reach_world0 in
  match w.(rw_hook) ≫= rh_run with
  | Some run => run.(pr_debounce) = None /\ run.(pr_wake) = None /\ w.(rw_flights) = []
                /\ match om_get w.(rw_module).(rm_countCache) (reach_key [67] a_hash) with
                   | Some e => e.(cc_sealed) = false | None => False end
  | None => False
  end.
Proof. vm_compute. done. Qed.
