(* ===== verification/ObserverReachLive.v ===== *)
(** Observers heard live: between two polls the badge counts each of them once, whatever the order
    of their frames and however often each is repeated. *)
From S2P Require Import Prelude JsString JsCollections Regex Types CommunityFrames ObserverReach ObserverReachProps.

(** The hash and the observer a live packet counts for, on this screen. *)
Definition tick_target (hook : ReachHook) (e : ReachEvent) : option (jstr * jstr) :=
  match e with
  | RvTick packet_hash hash8 ear_id now offset =>
    event ← observer_tick packet_hash hash8 ear_id;
    msg ← live_target event hook;
    if YOUNG_REACH_MS <=? messageAgeMs msg now offset then None
    else Some (toUpperCase (default [] (reach_hash msg)), live_ear event)
  | _ => None
  end.

Definition is_tick (e : ReachEvent) : Prop := match e with RvTick _ _ _ _ _ => True | _ => False end.

Definition ear_key (hash ear : jstr) : jstr := hash ++ js ":" ++ ear.

(** The observers these packets count for the hash, those already counted left out. *)
Definition new_ears (w : ReachWorld) (hook : ReachHook) (hash : jstr) (ticks : list ReachEvent) : gset jstr :=
  list_to_set (filter (fun ear => ear_key hash ear ∉ w.(rw_module).(rm_liveSeenEars))
    (omap (fun e => p ← tick_target hook e; if decide (p.1 = hash) then Some p.2 else None) ticks)).

(** The count of a hash; no count, or an error, is zero. *)
Definition live_count (m : ReachModule) (key : jstr) : Z :=
  match om_get m.(rm_countCache) key with Some {| cc_state := CountOk c |} => c | _ => 0 end.

Lemma first_colon_inj (a b h k : jstr) :
  Forall (fun x => x <> 58) a -> Forall (fun x => x <> 58) b -> a ++ 58 :: h = b ++ 58 :: k -> a = b /\ h = k.
Proof.
  intros Ha. revert b. induction Ha as [|x a Hx _ IH]; intros b Hb E; destruct Hb as [|y b Hy Hb]; cbn in E.
  - by injection E as ->.
  - injection E as E1 _. congruence.
  - injection E as E1 _. congruence.
  - injection E as -> E. by destruct (IH b Hb E) as [-> ->].
Qed.

Lemma ear_key_inj a b h k : upper_hex a -> upper_hex b -> ear_key a h = ear_key b k -> a = b /\ h = k.
Proof.
  intros Ha Hb. unfold ear_key. change (js ":") with [58]. cbn [app].
  apply first_colon_inj; by apply upper_hex_no.
Qed.

(** A screen during live packets: only the counts change. *)
Definition same_screen (hook hook' : ReachHook) : Prop :=
  hook'.(rh_messages) = hook.(rh_messages) /\ hook'.(rh_visibleIndexes) = hook.(rh_visibleIndexes)
  /\ hook'.(rh_conversationKey) = hook.(rh_conversationKey) /\ hook'.(rh_listener) = hook.(rh_listener).

Lemma tick_target_same hook hook' e : same_screen hook hook' -> tick_target hook' e = tick_target hook e.
Proof.
  intros (E1 & E2 & _ & _). destruct e; try done. cbn [tick_target].
  destruct (observer_tick _ _ _) as [event|]; [|done]. cbn [mbind option_bind].
  assert (Et : live_target event hook' = live_target event hook).
  { unfold live_target, eligible_messages, is_visible. by rewrite E1, E2. }
  by rewrite Et.
Qed.

Lemma live_count_bump sf hash now m key :
  live_count (bumpVisibleCount sf hash now m).2 key
  = if decide (reach_key sf hash = key) then live_count m key + 1 else live_count m key.
Proof.
  unfold live_count, bumpVisibleCount. cbv zeta. cbn -[om_get om_set reach_key]. rewrite om_get_set. case_decide as Hd.
  - subst key. rewrite decide_True by done. cbn. by destruct (om_get _ _) as [[? [| |] ? ?]|].
  - by rewrite decide_False by congruence.
Qed.

(** What one live packet does. *)
Lemma tick_step w hook e sf :
  is_tick e -> w.(rw_hook) = Some hook -> hook.(rh_listener) = Some sf -> hook.(rh_conversationKey) = Some sf ->
  match tick_target hook e with
  | None => reach_step w e = w
  | Some (hash, ear) =>
    if decide (ear_key hash ear ∈ w.(rw_module).(rm_liveSeenEars)) then reach_step w e = w
    else exists hook', (reach_step w e).(rw_hook) = Some hook' /\ same_screen hook hook'
      /\ (reach_step w e).(rw_module).(rm_liveSeenEars) = w.(rw_module).(rm_liveSeenEars) ++ [ear_key hash ear]
      /\ (forall key, live_count (reach_step w e).(rw_module) key
            = if decide (reach_key sf hash = key) then live_count w.(rw_module) key + 1 else live_count w.(rw_module) key)
      /\ hook'.(rh_counts) = om_set hook.(rh_counts) hash (CountOk (live_count (reach_step w e).(rw_module) (reach_key sf hash)))
  end.
Proof.
  intros Ht Eh El Ec. assert (Hself : w <| rw_module := w.(rw_module) |> <| rw_hook := Some hook |> = w).
  { destruct w as [m h f n l]. cbn in *. by subst. }
  destruct e as [| |ph h8 ear_id now off| | |]; try done. cbn [tick_target reach_step].
  destruct (observer_tick ph h8 ear_id) as [event|]; [|done]. cbn [mbind option_bind]. rewrite Eh.
  unfold onEvent. rewrite El, (bool_decide_eq_true_2 _ Ec). cbn [negb].
  destruct (live_target event hook) as [msg|]; cbn [mbind option_bind]; [|done].
  destruct (YOUNG_REACH_MS <=? _); [done|]. cbv zeta.
  generalize (toUpperCase (default [] (reach_hash msg))). intros hash. unfold noteSeenEar. fold (ear_key hash (live_ear event)).
  case_decide; [done|]. cbn [negb].
  set (m1 := (rw_module w) <| rm_liveSeenEars := _ |>).
  pose proof (live_count_bump sf hash now m1) as Hb.
  assert (Hs : (bumpVisibleCount sf hash now m1).1 = CountOk (live_count (bumpVisibleCount sf hash now m1).2 (reach_key sf hash))).
  { rewrite Hb, decide_True by done. unfold bumpVisibleCount, live_count. cbv zeta. cbn [fst].
    f_equal. by destruct (om_get _ _) as [[? [| |] ? ?]|]. }
  assert (Hears : (bumpVisibleCount sf hash now m1).2.(rm_liveSeenEars) = m1.(rm_liveSeenEars)) by done.
  destruct (bumpVisibleCount sf hash now m1) as [state m2]. cbn [fst snd] in *.
  eexists. split; [done|]. split; [done|]. split; [done|]. split; [exact Hb|]. cbn -[om_set live_count]. by rewrite Hs.
Qed.

Section ticks.
Context (w : ReachWorld) (hook : ReachHook) (sf hash : jstr).
Hypothesis Hhook : w.(rw_hook) = Some hook.
Hypothesis Hlistener : hook.(rh_listener) = Some sf.
Hypothesis Hconversation : hook.(rh_conversationKey) = Some sf.
Hypothesis Hhex : Forall hex_hash hook.(rh_messages).
Hypothesis Hhash : upper_hex hash.

Lemma tick_target_hex e h ear : tick_target hook e = Some (h, ear) -> upper_hex h.
Proof.
  destruct e; try done. cbn [tick_target].
  destruct (observer_tick _ _ _) as [event|]; [|done]. cbn [mbind option_bind].
  destruct (live_target event hook) as [msg|] eqn:Et; [|done]. cbn [mbind option_bind].
  case_match; [done|]. intros [= <- <-]. apply live_target_eligible in Et as [Hin He]. by eapply eligible_hash_upper.
Qed.

(** Where the world is after these packets. *)
Record heard (ticks : list ReachEvent) (w' : ReachWorld) : Prop := {
  hd_screen : exists hook', w'.(rw_hook) = Some hook' /\ same_screen hook hook'
    /\ (new_ears w hook hash ticks <> ∅ ->
        om_get hook'.(rh_counts) hash = Some (CountOk (live_count w'.(rw_module) (reach_key sf hash))));
  hd_seen : forall h ear, upper_hex h ->
    ear_key h ear ∈ w'.(rw_module).(rm_liveSeenEars)
    <-> ear_key h ear ∈ w.(rw_module).(rm_liveSeenEars) \/ ear ∈ new_ears w hook h ticks;
  hd_count : live_count w'.(rw_module) (reach_key sf hash)
             = live_count w.(rw_module) (reach_key sf hash) + Z.of_nat (size (new_ears w hook hash ticks));
}.

Lemma new_ears_snoc h ticks e :
  new_ears w hook h (ticks ++ [e])
  = new_ears w hook h ticks ∪
    match tick_target hook e with
    | Some (h', ear) => if decide (h' = h /\ ear_key h ear ∉ w.(rw_module).(rm_liveSeenEars)) then {[ear]} else ∅
    | None => ∅
    end.
Proof.
  unfold new_ears. rewrite omap_app, filter_app, list_to_set_app_L. f_equal.
  change (omap ?f [e]) with (match f e with Some x => [x] | None => [] end).
  cbn beta. destruct (tick_target hook e) as [[h' ear]|]; cbn [mbind option_bind fst snd]; [|done].
  destruct (decide (h' = h)) as [->|Hne].
  - rewrite filter_cons. case_decide as H1.
    + rewrite decide_True by done. cbn. set_solver.
    + rewrite decide_False by tauto. done.
  - by rewrite decide_False by tauto.
Qed.


(** A packet that counts nothing new leaves the sets as they are. *)
Lemma heard_idle ticks e w' :
  heard ticks w' ->
  (forall h ear, tick_target hook e = Some (h, ear) -> ear_key h ear ∈ w'.(rw_module).(rm_liveSeenEars)) ->
  heard (ticks ++ [e]) w'.
Proof.
  intros [H1 H2 H3] Hidle.
  assert (E : forall h, upper_hex h -> new_ears w hook h (ticks ++ [e]) = new_ears w hook h ticks).
  { intros h Hh. rewrite new_ears_snoc. destruct (tick_target hook e) as [[h' ear]|] eqn:Et; [|by rewrite (right_id_L ∅ (∪))].
    case_decide as Hd; [|by rewrite (right_id_L ∅ (∪))]. destruct Hd as [-> Hns].
    specialize (Hidle h ear eq_refl). apply H2 in Hidle as [?|Hin]; [done| |done].
    apply leibniz_equiv. intros x. rewrite elem_of_union, elem_of_singleton. naive_solver. }
  split; [|intros h ear Hh|]; rewrite E by done; auto.
Qed.

Lemma heard_run ticks : Forall is_tick ticks -> heard ticks (reach_run ticks w).
Proof.
  induction ticks as [|e ticks IH] using rev_ind; intros Hall.
  - split; cbn [reach_run foldl].
    + exists hook. split; [done|]. split; [done|]. by intros [].
    + intros h ear _. unfold new_ears. cbn. set_solver.
    + unfold new_ears. cbn [omap list_omap filter list_filter list_to_set]. rewrite size_empty. lia.
  - apply Forall_app in Hall as [Hall He]. rewrite Forall_singleton in He. specialize (IH Hall).
    unfold reach_run in *. rewrite foldl_app. cbn [foldl]. set (w1 := foldl reach_step w ticks) in *.
    destruct (IH) as [(hook1 & E1 & Hsame & Hshown) Hseen Hcount].
    pose proof Hsame as (_ & _ & Ec & El).
    pose proof (tick_step w1 hook1 e sf He E1 (eq_trans El Hlistener) (eq_trans Ec Hconversation)) as Hstep.
    rewrite (tick_target_same hook hook1) in Hstep by done.
    destruct (tick_target hook e) as [[h' ear]|] eqn:Et; [|rewrite Hstep; by apply heard_idle; [|rewrite Et]].
    destruct (decide _) as [Hold|Hnew]; [rewrite Hstep; apply heard_idle; [done|]; rewrite Et; by intros ? ? [= <- <-]|].
    destruct Hstep as (hook2 & E2 & Hsame2 & Hears & Hcounts & Hget).
    pose proof (tick_target_hex e h' ear Et) as Hh'.
    assert (Hfresh : ear_key h' ear ∉ w.(rw_module).(rm_liveSeenEars) /\ ear ∉ new_ears w hook h' ticks).
    { rewrite Hseen in Hnew by done. tauto. }
    assert (Enew : forall h, new_ears w hook h (ticks ++ [e])
              = if decide (h' = h) then {[ear]} ∪ new_ears w hook h ticks else new_ears w hook h ticks).
    { intros h. rewrite new_ears_snoc, Et. destruct (decide (h' = h)) as [->|].
      - rewrite decide_True by tauto. by rewrite (comm_L (∪)).
      - rewrite decide_False by tauto. by rewrite (right_id_L ∅ (∪)). }
    split.
    + exists hook2. split; [done|]. split; [by destruct Hsame as (?&?&?&?), Hsame2 as (?&?&?&?); split_and!; congruence|].
      rewrite Enew, Hget, om_get_set. case_decide as Hd; intros Hne.
      * subst h'. by rewrite decide_True by done.
      * rewrite decide_False by congruence. rewrite Hshown by done. by rewrite Hcounts, decide_False by (by intros [_ ?]%reach_key_inj).
    + intros h ear' Hh. rewrite Hears, elem_of_app, list_elem_of_singleton, Hseen, Enew by done.
      case_decide as Hd.
      * subst h'. rewrite elem_of_union, elem_of_singleton. split; [|naive_solver].
        intros [?|[_ ->]%ear_key_inj]; naive_solver.
      * split; [|tauto]. intros [?|[? _]%ear_key_inj]; [done|congruence|done|done].
    + rewrite Hcounts, Enew, Hcount. case_decide as Hd.
      * apply reach_key_inj in Hd as [_ <-]; [|done..]. rewrite decide_True by done.
        rewrite size_union, size_singleton by set_solver. lia.
      * rewrite decide_False; [done|]. by intros ->.
Qed.
End ticks.

(** Between two polls the count of a message rises by the number of distinct observers not counted
    before, in the set of those whose packets are for it: the order of the packets, and how often
    each is repeated, make no difference; the badge shows that count as soon as it changes. *)
Theorem live_count_is_a_set events hook sf hash ticks :
  Forall reach_event_ok events -> Forall is_tick ticks -> upper_hex hash ->
  let w := reach_run events reach_world0 in
  let w' := reach_run ticks w in
  w.(rw_hook) = Some hook -> hook.(rh_listener) = Some sf ->
  let key := reach_key sf hash in
  live_count w'.(rw_module) key = live_count w.(rw_module) key + Z.of_nat (size (new_ears w hook hash ticks))
  /\ (new_ears w hook hash ticks <> ∅ ->
      exists hook', w'.(rw_hook) = Some hook'
        /\ om_get hook'.(rh_counts) hash = Some (CountOk (live_count w'.(rw_module) key))).
Proof.
  intros Hall Hticks Hhash w w' Eh El key.
  assert (Hw : reach_ok w) by (apply reach_run_ok; [done | apply reach_world0_ok]).
  pose proof (rk_hook _ Hw hook Eh) as [Hx _ Hl _ _]. rewrite El in Hl.
  assert (Ec : rh_conversationKey hook = Some sf).
  { unfold polls in Hl. destruct (rh_directoryEnabled hook); [|done].
    destruct (rh_conversationKey hook) as [[|c s]|]; done. }
  destruct (heard_run w hook sf hash Eh El Ec Hx Hhash ticks Hticks) as [(hook' & E' & _ & Hshown) _ Hcount].
  split; [exact Hcount|]. intros Hne. exists hook'. split; [done|]. by apply Hshown.
Qed.

(** Two observers, one of them heard twice. *)
Lemma live_count_is_a_set_witness :
  let hash := toUpperCase (js "0123456789abcdef") in
  let w := reach_run [RvRender true (Some [67]) [a_message 1 100 (js "0123456789abcdef")] [0] 100000] reach_world0 in
  let tick ear := RvTick (Some (js "0123456789abcdef")) None (Some ear) 101000 0 in
  live_count (reach_run [tick [1]; tick [2]; tick [1]] w).(rw_module) (reach_key [67] hash) = 2.
Proof.
  set (h := js "0123456789abcdef"). cbv zeta.
  set (tick := fun ear => RvTick (Some h) None (Some ear) 101000 0).
  set (events := [RvRender true (Some [67]) [a_message 1 100 h] [0] 100000]).
  edestruct (live_count_is_a_set events
    (default (Build_ReachHook false None [] [] [] 0 None [] None) (reach_run events reach_world0).(rw_hook))
    [67] (toUpperCase h) [tick [1]; tick [2]; tick [1]]) as [H _].
  - constructor; [|constructor]. constructor; [|constructor]. intros k [= <-].
    apply Forall_forall. intros c Hc. vm_compute in Hc. repeat (apply elem_of_cons in Hc as [->|Hc]; [done|]).
    by apply not_elem_of_nil in Hc.
  - repeat constructor.
  - split; [|split; [|done]]; [|by vm_compute].
    apply Forall_forall. intros c Hc. vm_compute in Hc. repeat (apply elem_of_cons in Hc as [->|Hc]; [done|]).
    by apply not_elem_of_nil in Hc.
  - vm_compute. reflexivity.
  - vm_compute. reflexivity.
  - refine (eq_trans H _). vm_compute. reflexivity.
Defined.
