(* ===== verification/Aes.v ===== *)
(** AES-128, as [utils/parseGroupData.ts] decrypts with it: the tables, the key schedule on 32-bit
    words and the inverse cipher on a state of sixteen bytes, in place.

    A [Uint8Array] is a list of bytes, a [Uint32Array] a list of words; what is stored is cut to
    the width, reading past the end gives [undefined], which the operators take as 0, and writing
    past the end does nothing. The bitwise operators work on 32-bit signed integers. *)
From S2P Require Import Prelude JsString.

(** ** 32-bit operators *)

Definition uint32 (n : Z) : Z := n mod 4294967296.
(** [a << n], [a >>> n], [a | b], [a ^ b], [a & b] *)
Definition js_shl (a n : Z) : Z := wrap32 (Z.shiftl (wrap32 a) n).
Definition js_shr (a n : Z) : Z := Z.shiftr (uint32 a) n.
Definition js_or (a b : Z) : Z := Z.lor (wrap32 a) (wrap32 b).
Definition js_xor (a b : Z) : Z := Z.lxor (wrap32 a) (wrap32 b).
Definition js_and (a b : Z) : Z := Z.land (wrap32 a) (wrap32 b).

(** [l[i]] in an expression, [l[i] = v] on bytes and on words. *)
Definition at_ (l : list Z) (i : Z) : Z := default 0 (l !! Z.to_nat i).
Definition set8 (l : list Z) (i v : Z) : list Z := <[Z.to_nat i := v mod 256]> l.
Definition set32 (l : list Z) (i v : Z) : list Z := <[Z.to_nat i := uint32 v]> l.

(** ** Tables *)

Definition SBOX : list Z :=
  [99; 124; 119; 123; 242; 107; 111; 197; 48; 1; 103; 43; 254; 215; 171; 118;
   202; 130; 201; 125; 250; 89; 71; 240; 173; 212; 162; 175; 156; 164; 114; 192;
   183; 253; 147; 38; 54; 63; 247; 204; 52; 165; 229; 241; 113; 216; 49; 21;
   4; 199; 35; 195; 24; 150; 5; 154; 7; 18; 128; 226; 235; 39; 178; 117;
   9; 131; 44; 26; 27; 110; 90; 160; 82; 59; 214; 179; 41; 227; 47; 132;
   83; 209; 0; 237; 32; 252; 177; 91; 106; 203; 190; 57; 74; 76; 88; 207;
   208; 239; 170; 251; 67; 77; 51; 133; 69; 249; 2; 127; 80; 60; 159; 168;
   81; 163; 64; 143; 146; 157; 56; 245; 188; 182; 218; 33; 16; 255; 243; 210;
   205; 12; 19; 236; 95; 151; 68; 23; 196; 167; 126; 61; 100; 93; 25; 115;
   96; 129; 79; 220; 34; 42; 144; 136; 70; 238; 184; 20; 222; 94; 11; 219;
   224; 50; 58; 10; 73; 6; 36; 92; 194; 211; 172; 98; 145; 149; 228; 121;
   231; 200; 55; 109; 141; 213; 78; 169; 108; 86; 244; 234; 101; 122; 174; 8;
   186; 120; 37; 46; 28; 166; 180; 198; 232; 221; 116; 31; 75; 189; 139; 138;
   112; 62; 181; 102; 72; 3; 246; 14; 97; 53; 87; 185; 134; 193; 29; 158;
   225; 248; 152; 17; 105; 217; 142; 148; 155; 30; 135; 233; 206; 85; 40; 223;
   140; 161; 137; 13; 191; 230; 66; 104; 65; 153; 45; 15; 176; 84; 187; 22].

Definition INV_SBOX : list Z :=
  foldl (fun inv i => set8 inv (at_ SBOX (Z.of_nat i)) (Z.of_nat i)) (replicate 256 0) (seq 0 256).

Definition RCON : list Z := [0; 1; 2; 4; 8; 16; 32; 64; 128; 27; 54].

(** ** The field *)

Definition xtime (value : Z) : Z :=
  js_and (js_xor (js_shl value 1) (if js_and value 128 =? 0 then 0 else 27)) 255.

(** [while (bb)]: a positive 32-bit [bb] has at most 31 digits. *)
Fixpoint multiply_loop (fuel : nat) (result aa bb : Z) : Z :=
  match fuel with
  | O => result
  | S fuel =>
    if bb =? 0 then result
    else
      let result := if js_and bb 1 =? 0 then result else js_xor result aa in
      multiply_loop fuel result (xtime aa) (Z.shiftr (wrap32 bb) 1)
  end.
Definition multiply (a b : Z) : Z := multiply_loop 32 0 a b.

(** ** The key schedule *)

Definition load_word (key w : list Z) (i : Z) : list Z :=
  set32 w i (js_or (js_or (js_or (js_shl (at_ key (i * 4)) 24) (js_shl (at_ key (i * 4 + 1)) 16))
                          (js_shl (at_ key (i * 4 + 2)) 8))
                   (at_ key (i * 4 + 3))).

Definition sub_word (rotated : Z) : Z :=
  js_or (js_or (js_or (js_shl (at_ SBOX (js_and (js_shr rotated 24) 255)) 24)
                      (js_shl (at_ SBOX (js_and (js_shr rotated 16) 255)) 16))
               (js_shl (at_ SBOX (js_and (js_shr rotated 8) 255)) 8))
        (at_ SBOX (js_and rotated 255)).

Definition expand_word (w : list Z) (i : Z) : list Z :=
  let temp := at_ w (i - 1) in
  let temp :=
    if i mod 4 =? 0 then
      let rotated := js_shr (js_or (js_shl temp 8) (js_shr temp 24)) 0 in
      js_shr (js_xor (sub_word rotated) (js_shl (at_ RCON (i / 4)) 24)) 0
    else temp in
  set32 w i (js_shr (js_xor (at_ w (i - 4)) temp) 0).

(** [for (let i = a; i < b; i += 1)] *)
Definition range (a b : Z) : list Z := Z.of_nat <$> seq (Z.to_nat a) (Z.to_nat (b - a)).

Definition expandKey (key : list Z) : list Z :=
  foldl expand_word (foldl (load_word key) (replicate 44 0) (range 0 4)) (range 4 44).

(** ** The inverse cipher *)

Definition add_key_column (w : list Z) (round : Z) (state : list Z) (c : Z) : list Z :=
  let word := at_ w (round * 4 + c) in
  let state := set8 state (c * 4) (js_xor (at_ state (c * 4)) (js_and (js_shr word 24) 255)) in
  let state := set8 state (c * 4 + 1) (js_xor (at_ state (c * 4 + 1)) (js_and (js_shr word 16) 255)) in
  let state := set8 state (c * 4 + 2) (js_xor (at_ state (c * 4 + 2)) (js_and (js_shr word 8) 255)) in
  set8 state (c * 4 + 3) (js_xor (at_ state (c * 4 + 3)) (js_and word 255)).
Definition addRoundKey (state w : list Z) (round : Z) : list Z :=
  foldl (add_key_column w round) state (range 0 4).

Definition invShiftRows (state : list Z) : list Z :=
  let t := state in
  let state := set8 state 1 (at_ t 13) in
  let state := set8 state 5 (at_ t 1) in
  let state := set8 state 9 (at_ t 5) in
  let state := set8 state 13 (at_ t 9) in
  let state := set8 state 2 (at_ t 10) in
  let state := set8 state 6 (at_ t 14) in
  let state := set8 state 10 (at_ t 2) in
  let state := set8 state 14 (at_ t 6) in
  let state := set8 state 3 (at_ t 7) in
  let state := set8 state 7 (at_ t 11) in
  let state := set8 state 11 (at_ t 15) in
  set8 state 15 (at_ t 3).

Definition invSubBytes (state : list Z) : list Z :=
  foldl (fun state i => set8 state i (at_ INV_SBOX (at_ state i))) state (range 0 16).

Definition inv_mix_column (state : list Z) (c : Z) : list Z :=
  let i := c * 4 in
  let a0 := at_ state i in
  let a1 := at_ state (i + 1) in
  let a2 := at_ state (i + 2) in
  let a3 := at_ state (i + 3) in
  let state := set8 state i (js_xor (js_xor (js_xor (multiply a0 14) (multiply a1 11)) (multiply a2 13)) (multiply a3 9)) in
  let state := set8 state (i + 1) (js_xor (js_xor (js_xor (multiply a0 9) (multiply a1 14)) (multiply a2 11)) (multiply a3 13)) in
  let state := set8 state (i + 2) (js_xor (js_xor (js_xor (multiply a0 13) (multiply a1 9)) (multiply a2 14)) (multiply a3 11)) in
  set8 state (i + 3) (js_xor (js_xor (js_xor (multiply a0 11) (multiply a1 13)) (multiply a2 9)) (multiply a3 14)).
Definition invMixColumns (state : list Z) : list Z := foldl inv_mix_column state (range 0 4).

Definition inv_round (w state : list Z) (round : Z) : list Z :=
  invMixColumns (addRoundKey (invSubBytes (invShiftRows state)) w round).

Definition decryptBlock (block w : list Z) : list Z :=
  let state := addRoundKey block w 10 in
  let state := foldl (inv_round w) state [9; 8; 7; 6; 5; 4; 3; 2; 1] in
  addRoundKey (invSubBytes (invShiftRows state)) w 0.

(** The blocks of the ciphertext; [plaintext.set] writes each at its offset. *)
Definition aes128EcbDecrypt (key ciphertext : list Z) : list Z :=
  let w := expandKey key in
  foldl (fun plaintext i =>
           let offset := Z.of_nat i * 16 in
           list_inserts (Z.to_nat offset) (decryptBlock (slice ciphertext offset (offset + 16)) w) plaintext)
        (replicate (length ciphertext) 0) (seq 0 (Nat.div (length ciphertext + 15) 16)).
