(* ===== verification/AesProps.v ===== *)
(** The inverse cipher of [Aes] against the cipher of FIPS 197: the reference multiplies
    polynomials over GF(2), derives the S-box from inverses and works on bytes; the code shifts,
    looks up tables and packs words of 32 bits. *)
From S2P Require Import Prelude JsString PacketWire Aes.
From Stdlib Require Import Btauto.

(** ** FIPS 197 *)

(** Bytes are polynomials over GF(2): product, and remainder by x^8 + x^4 + x^3 + x + 1. *)
Definition poly_mul (a b : Z) : Z :=
  foldl (fun acc i => if Z.testbit b i then Z.lxor acc (Z.shiftl a i) else acc) 0 (range 0 8).
Definition poly_rem (x : Z) : Z :=
  foldl (fun x i => if Z.testbit x i then Z.lxor x (Z.shiftl 283 (i - 8)) else x) x [14; 13; 12; 11; 10; 9; 8].
Definition gf_mul (a b : Z) : Z := poly_rem (poly_mul a b).

(** The inverse of b is b^254, and of 0 is 0. *)
Definition gf_inv (b : Z) : Z :=
  let b2 := gf_mul b b in let b4 := gf_mul b2 b2 in let b8 := gf_mul b4 b4 in let b16 := gf_mul b8 b8 in
  let b32 := gf_mul b16 b16 in let b64 := gf_mul b32 b32 in let b128 := gf_mul b64 b64 in
  gf_mul (gf_mul (gf_mul b128 b64) (gf_mul b32 b16)) (gf_mul (gf_mul b8 b4) b2).
Definition rotl8 (b n : Z) : Z := (Z.shiftl b n) mod 256 + Z.shiftr b (8 - n).
Definition sub_byte (b : Z) : Z :=
  let x := gf_inv b in
  Z.lxor (Z.lxor (Z.lxor (Z.lxor (Z.lxor x (rotl8 x 1)) (rotl8 x 2)) (rotl8 x 3)) (rotl8 x 4)) 99.

(** The state is its sixteen bytes, column by column. *)
Definition sub_bytes (s : list Z) : list Z := sub_byte <$> s.
Definition shift_rows (s : list Z) : list Z :=
  (fun i => at_ s (i mod 4 + 4 * ((i / 4 + i mod 4) mod 4))) <$> range 0 16.
Definition mix_column (a0 a1 a2 a3 : Z) : list Z :=
  [Z.lxor (Z.lxor (gf_mul 2 a0) (gf_mul 3 a1)) (Z.lxor a2 a3);
   Z.lxor (Z.lxor a0 (gf_mul 2 a1)) (Z.lxor (gf_mul 3 a2) a3);
   Z.lxor (Z.lxor a0 a1) (Z.lxor (gf_mul 2 a2) (gf_mul 3 a3));
   Z.lxor (Z.lxor (gf_mul 3 a0) a1) (Z.lxor a2 (gf_mul 2 a3))].
Fixpoint mix_columns (s : list Z) : list Z :=
  match s with
  | a0 :: a1 :: a2 :: a3 :: s' => mix_column a0 a1 a2 a3 ++ mix_columns s'
  | _ => []
  end.
Definition xor_bytes (s k : list Z) : list Z := zip_with Z.lxor s k.

(** The key schedule: words are lists of four bytes. *)
Definition rot_word (w : list Z) : list Z := drop 1 w ++ take 1 w.
Definition rcon_word (j : nat) : list Z := [Nat.iter (j - 1) (gf_mul 2) 1; 0; 0; 0].
Definition nth_word (ws : list (list Z)) (i : nat) : list Z := default [] (ws !! i).
Definition next_word (ws : list (list Z)) (i : nat) : list Z :=
  let temp := nth_word ws (i - 1) in
  let temp := if (i mod 4 =? 0)%nat then xor_bytes (sub_byte <$> rot_word temp) (rcon_word (i / 4)) else temp in
  xor_bytes (nth_word ws (i - 4)) temp.
Definition key_words (key : list Z) : list (list Z) :=
  [take 4 key; take 4 (drop 4 key); take 4 (drop 8 key); take 4 (drop 12 key)].
Definition key_schedule (key : list Z) : list (list Z) :=
  foldl (fun ws i => ws ++ [next_word ws i]) (key_words key) (seq 4 40).
Definition round_key (ws : list (list Z)) (round : nat) : list Z := mjoin (take 4 (drop (4 * round) ws)).

Definition aes_round (ws : list (list Z)) (s : list Z) (round : nat) : list Z :=
  xor_bytes (mix_columns (shift_rows (sub_bytes s))) (round_key ws round).
(** The cipher with a 128-bit key: ten rounds, the last without [mix_columns]. *)
Definition aes_encrypt (key block : list Z) : list Z :=
  let ws := key_schedule key in
  let s := foldl (aes_round ws) (xor_bytes block (round_key ws 0)) (seq 1 9) in
  xor_bytes (shift_rows (sub_bytes s)) (round_key ws 10).

(** The vectors of appendix C.1 and appendix B. *)
Example aes_c1 :
  aes_encrypt [0; 1; 2; 3; 4; 5; 6; 7; 8; 9; 10; 11; 12; 13; 14; 15]
    [0; 17; 34; 51; 68; 85; 102; 119; 136; 153; 170; 187; 204; 221; 238; 255]
  = [105; 196; 224; 216; 106; 123; 4; 48; 216; 205; 183; 128; 112; 180; 197; 90].
Proof. vm_compute. reflexivity. Qed.

(** ** Bytes *)

Definition bytes (l : list Z) : Prop := Forall is_byte l.
Definition block (l : list Z) : Prop := length l = 16%nat /\ bytes l.

Lemma is_byte_bits b : is_byte b <-> 0 <= b /\ Z.land b 255 = b.
Proof.
  unfold is_byte. change 255 with (Z.ones 8). split.
  - intros Hb. split; [lia|]. rewrite Z.land_ones by lia. change (2 ^ 8) with 256. apply Z.mod_small. lia.
  - intros [H0 H]. rewrite Z.land_ones in H by lia. change (2 ^ 8) with 256 in H.
    pose proof (Z.mod_pos_bound b 256). lia.
Qed.
Lemma lxor_byte a b : is_byte a -> is_byte b -> is_byte (Z.lxor a b).
Proof.
  rewrite !is_byte_bits. intros [Ha Ea] [Hb Eb]. split; [by rewrite Z.lxor_nonneg|].
  apply Z.bits_inj'. intros n Hn. rewrite Z.land_spec, Z.lxor_spec.
  rewrite <- Ea, <- Eb at 1. rewrite <- Ea at 2. rewrite <- Eb at 2. rewrite !Z.land_spec. btauto.
Qed.
Lemma byte_mod b : is_byte b -> b mod 256 = b.
Proof. intros. by apply Z.mod_small. Qed.
Lemma wrap32_small n : 0 <= n < 2147483648 -> wrap32 n = n.
Proof. intros. unfold wrap32. rewrite Z.mod_small; lia. Qed.
Lemma wrap32_byte b : is_byte b -> wrap32 b = b.
Proof. unfold is_byte. intros. apply wrap32_small. lia. Qed.
Lemma js_xor_byte a b : is_byte a -> is_byte b -> js_xor a b = Z.lxor a b.
Proof. intros. unfold js_xor. by rewrite !wrap32_byte. Qed.

Lemma mod_byte n : is_byte (n mod 256).
Proof. apply Z.mod_pos_bound. lia. Qed.

Lemma js_and_255 n : js_and n 255 = n mod 256.
Proof.
  unfold js_and. rewrite (wrap32_small 255) by lia. change 255 with (Z.ones 8). rewrite Z.land_ones by lia.
  unfold wrap32. change (2 ^ 8) with 256.
  rewrite Zminus_mod, <- Znumtheory.Zmod_div_mod, <- Zminus_mod by (lia || by exists 16777216).
  f_equal. lia.
Qed.

(** Facts about every byte, by evaluation. *)
Ltac by_bytes b :=
  lazymatch goal with |- is_byte b -> ?G =>
    let P := eval pattern b in G in
    lazymatch P with ?Q b => apply (byte_cases Q); vm_compute; reflexivity end
  end.

Lemma SBOX_fips b : is_byte b -> at_ SBOX b = sub_byte b.
Proof. by_bytes b. Qed.
Lemma sub_byte_byte b : is_byte b -> 0 <= sub_byte b < 256.
Proof. by_bytes b. Qed.
Lemma INV_SBOX_inverts b : is_byte b -> at_ INV_SBOX (sub_byte b) = b.
Proof. by_bytes b. Qed.

Lemma xtime_byte b : is_byte b -> 0 <= xtime b < 256.
Proof. by_bytes b. Qed.
Lemma gf_mul_2 b : is_byte b -> gf_mul 2 b = xtime b.
Proof. by_bytes b. Qed.
Lemma gf_mul_3 b : is_byte b -> gf_mul 3 b = Z.lxor (xtime b) b.
Proof. by_bytes b. Qed.
(** The four products of the inverse cipher. *)
Lemma multiply_9 b : is_byte b -> multiply b 9 = Z.lxor b (xtime (xtime (xtime b))).
Proof. by_bytes b. Qed.
Lemma multiply_11 b : is_byte b -> multiply b 11 = Z.lxor (Z.lxor b (xtime b)) (xtime (xtime (xtime b))).
Proof. by_bytes b. Qed.
Lemma multiply_13 b : is_byte b -> multiply b 13 = Z.lxor (Z.lxor b (xtime (xtime b))) (xtime (xtime (xtime b))).
Proof. by_bytes b. Qed.
Lemma multiply_14 b :
  is_byte b -> multiply b 14 = Z.lxor (Z.lxor (xtime b) (xtime (xtime b))) (xtime (xtime (xtime b))).
Proof. by_bytes b. Qed.

Lemma xtime_form b :
  is_byte b -> xtime b = Z.lxor (Z.land (Z.shiftl b 1) 255) (if Z.testbit b 7 then 27 else 0).
Proof. by_bytes b. Qed.

(** Doubling is linear. *)
Lemma xtime_lxor a b : is_byte a -> is_byte b -> xtime (Z.lxor a b) = Z.lxor (xtime a) (xtime b).
Proof.
  intros Ha Hb. rewrite !xtime_form by auto using lxor_byte. rewrite Z.shiftl_lxor, Z.lxor_spec.
  apply Z.bits_inj'. intros n Hn. rewrite !Z.lxor_spec, !Z.land_spec, !Z.lxor_spec.
  destruct (Z.testbit a 7), (Z.testbit b 7); cbn [xorb]; rewrite ?Z.testbit_0_l; btauto.
Qed.

Create HintDb aes.
Lemma xtime_is_byte b : is_byte b -> is_byte (xtime b).
Proof. apply xtime_byte. Qed.
Lemma sub_byte_is_byte b : is_byte b -> is_byte (sub_byte b).
Proof. apply sub_byte_byte. Qed.
#[export] Hint Resolve lxor_byte xtime_is_byte sub_byte_is_byte mod_byte : aes.

(** An equality of exclusive ors, term by term. *)
Ltac xors := apply Z.bits_inj'; intros ? _; rewrite ?Z.lxor_spec, ?Z.bits_0; btauto.

(** ** A column *)

Section column.
Context (a0 a1 a2 a3 : Z) (H0 : is_byte a0) (H1 : is_byte a1) (H2 : is_byte a2) (H3 : is_byte a3).

(** Over the powers of x, with nothing reduced. *)
Ltac column :=
  rewrite ?gf_mul_2, ?gf_mul_3, ?multiply_9, ?multiply_11, ?multiply_13, ?multiply_14 by auto 10 with aes;
  rewrite ?gf_mul_2, ?gf_mul_3 by auto 10 with aes;
  repeat rewrite xtime_lxor by auto 20 with aes; xors.

Let b0 := Z.lxor (Z.lxor (gf_mul 2 a0) (gf_mul 3 a1)) (Z.lxor a2 a3).
Let b1 := Z.lxor (Z.lxor a0 (gf_mul 2 a1)) (Z.lxor (gf_mul 3 a2) a3).
Let b2 := Z.lxor (Z.lxor a0 a1) (Z.lxor (gf_mul 2 a2) (gf_mul 3 a3)).
Let b3 := Z.lxor (Z.lxor (gf_mul 3 a0) a1) (Z.lxor a2 (gf_mul 2 a3)).

Lemma column_byte a : is_byte a -> is_byte (gf_mul 2 a) /\ is_byte (gf_mul 3 a).
Proof. intros. rewrite gf_mul_2, gf_mul_3 by done. auto with aes. Qed.

Lemma mix_column_bytes : is_byte b0 /\ is_byte b1 /\ is_byte b2 /\ is_byte b3.
Proof.
  destruct (column_byte a0 H0), (column_byte a1 H1), (column_byte a2 H2), (column_byte a3 H3).
  unfold b0, b1, b2, b3. auto 10 with aes.
Qed.

Ltac inv_column :=
  destruct mix_column_bytes as (B0 & B1 & B2 & B3);
  rewrite multiply_9, multiply_11, multiply_13, multiply_14 by done; unfold b0, b1, b2, b3; column.

Lemma inv_column_0 :
  Z.lxor (Z.lxor (Z.lxor (multiply b0 14) (multiply b1 11)) (multiply b2 13)) (multiply b3 9) = a0.
Proof. inv_column. Qed.
Lemma inv_column_1 :
  Z.lxor (Z.lxor (Z.lxor (multiply b0 9) (multiply b1 14)) (multiply b2 11)) (multiply b3 13) = a1.
Proof. inv_column. Qed.
Lemma inv_column_2 :
  Z.lxor (Z.lxor (Z.lxor (multiply b0 13) (multiply b1 9)) (multiply b2 14)) (multiply b3 11) = a2.
Proof. inv_column. Qed.
Lemma inv_column_3 :
  Z.lxor (Z.lxor (Z.lxor (multiply b0 11) (multiply b1 13)) (multiply b2 9)) (multiply b3 14) = a3.
Proof. inv_column. Qed.
End column.

(** ** The steps of the inverse cipher on a block *)

(** Sixteen bytes, by name. *)
Ltac sixteen s :=
  lazymatch goal with
  | H : block s |- _ =>
    let Hl := fresh "Hl" in let Hb := fresh "Hb" in
    destruct H as [Hl Hb]; do 16 (destruct s as [|? s]; [done|]); destruct s; [clear Hl|done];
    unfold bytes in Hb; rewrite !Forall_cons in Hb; decompose [and] Hb; clear Hb
  end.
Definition word_bytes (word : Z) : list Z :=
  [js_and (js_shr word 24) 255; js_and (js_shr word 16) 255; js_and (js_shr word 8) 255; js_and word 255].
Definition round_bytes (w : list Z) (round : Z) : list Z :=
  mjoin ((fun c => word_bytes (at_ w (round * 4 + c))) <$> range 0 4).

Lemma js_and_255_byte n : is_byte (js_and n 255).
Proof. rewrite js_and_255. apply mod_byte. Qed.
Lemma js_xor_is_byte a b : is_byte a -> is_byte b -> is_byte (js_xor a b).
Proof. intros. rewrite js_xor_byte by done. by apply lxor_byte. Qed.
#[export] Hint Resolve js_and_255_byte js_xor_is_byte : aes.

Lemma round_bytes_block w round : block (round_bytes w round).
Proof. split; [done|]. unfold round_bytes, bytes. cbn [range mjoin]. repeat constructor; apply js_and_255_byte. Qed.

Lemma store_xor a b : is_byte a -> is_byte b -> js_xor a b mod 256 = Z.lxor a b.
Proof. intros. rewrite js_xor_byte by done. apply byte_mod. by apply lxor_byte. Qed.

Lemma at_app p l i k : i = len p + k -> 0 <= k -> at_ (p ++ l) i = at_ l k.
Proof.
  intros -> Hk. unfold at_, len. f_equal. rewrite lookup_app_r by lia. f_equal. lia.
Qed.
Lemma set8_app p l i k v : i = len p + k -> 0 <= k -> set8 (p ++ l) i v = p ++ set8 l k v.
Proof.
  intros -> Hk. unfold set8, len. rewrite insert_app_r_alt by lia. do 2 f_equal. lia.
Qed.

(** What is read and written within four bytes at [c * 4]. *)
Ltac in_column p c :=
  rewrite !(set8_app p _ (c * 4) 0), ?(at_app p _ (c * 4) 0) by lia;
  rewrite !(set8_app p _ (c * 4 + 1) 1), ?(at_app p _ (c * 4 + 1) 1) by lia;
  rewrite !(set8_app p _ (c * 4 + 2) 2), ?(at_app p _ (c * 4 + 2) 2) by lia;
  rewrite !(set8_app p _ (c * 4 + 3) 3), ?(at_app p _ (c * 4 + 3) 3) by lia;
  unfold at_, set8;
  cbv [Z.to_nat Pos.to_nat Pos.iter_op Nat.add lookup list_lookup insert list_insert default from_option Datatypes.id];
  cbn [app].

Lemma add_key_column_at w round c p x0 x1 x2 x3 q :
  len p = c * 4 -> is_byte x0 -> is_byte x1 -> is_byte x2 -> is_byte x3 ->
  add_key_column w round (p ++ x0 :: x1 :: x2 :: x3 :: q) c
  = p ++ xor_bytes [x0; x1; x2; x3] (word_bytes (at_ w (round * 4 + c))) ++ q.
Proof.
  intros Hp H0 H1 H2 H3. unfold add_key_column. cbv zeta. generalize (at_ w (round * 4 + c)). intros word.
  in_column p c. unfold xor_bytes, word_bytes. cbn [zip_with app]. by rewrite !store_xor by auto with aes.
Qed.

Lemma inv_mix_column_at c p x0 x1 x2 x3 q :
  len p = c * 4 -> is_byte x0 -> is_byte x1 -> is_byte x2 -> is_byte x3 ->
  inv_mix_column (p ++ mix_column x0 x1 x2 x3 ++ q) c = p ++ [x0; x1; x2; x3] ++ q.
Proof.
  intros Hp H0 H1 H2 H3. unfold inv_mix_column, mix_column. cbv zeta.
  pose proof (inv_column_0 x0 x1 x2 x3 H0 H1 H2 H3) as E0. pose proof (inv_column_1 x0 x1 x2 x3 H0 H1 H2 H3) as E1.
  pose proof (inv_column_2 x0 x1 x2 x3 H0 H1 H2 H3) as E2. pose proof (inv_column_3 x0 x1 x2 x3 H0 H1 H2 H3) as E3.
  destruct (mix_column_bytes x0 x1 x2 x3 H0 H1 H2 H3) as (B0 & B1 & B2 & B3). cbn [app] in *.
  set (b0 := Z.lxor (Z.lxor (gf_mul 2 x0) _) _) in *. set (b1 := Z.lxor (Z.lxor x0 (gf_mul 2 x1)) _) in *.
  set (b2 := Z.lxor (Z.lxor x0 x1) _) in *. set (b3 := Z.lxor (Z.lxor (gf_mul 3 x0) x1) _) in *.
  clearbody b0 b1 b2 b3. in_column p c.
  assert (Hm : forall b, is_byte b ->
    (is_byte (multiply b 9) /\ is_byte (multiply b 11)) /\ is_byte (multiply b 13) /\ is_byte (multiply b 14)).
  { intros b Hb. rewrite multiply_9, multiply_11, multiply_13, multiply_14 by done. auto 10 with aes. }
  destruct (Hm b0 B0) as [[? ?] [? ?]], (Hm b1 B1) as [[? ?] [? ?]], (Hm b2 B2) as [[? ?] [? ?]], (Hm b3 B3) as [[? ?] [? ?]].
  rewrite !store_xor, !js_xor_byte by auto 10 with aes.
  by rewrite E0, E1, E2, E3.
Qed.

(** Columns from the [c]th on. *)
Fixpoint columns_from (c : Z) (n : nat) : list Z :=
  match n with O => [] | S n => c :: columns_from (c + 1) n end.

Lemma bytes_cons x l : bytes (x :: l) <-> is_byte x /\ bytes l.
Proof. apply Forall_cons. Qed.

Ltac four s Hb Hl :=
  destruct s as [|x0 [|x1 [|x2 [|x3 s]]]]; try (cbn in Hl; lia);
  rewrite !bytes_cons in Hb; destruct Hb as (H0 & H1 & H2 & H3 & Hb); cbn in Hl.

Lemma add_key_columns w round n : forall s p c,
  length s = (4 * n)%nat -> bytes s -> len p = c * 4 ->
  foldl (add_key_column w round) (p ++ s) (columns_from c n)
  = p ++ xor_bytes s (mjoin ((fun c => word_bytes (at_ w (round * 4 + c))) <$> columns_from c n)).
Proof.
  induction n as [|n IH]; intros s p c Hl Hb Hp.
  - apply nil_length_inv in Hl as ->. done.
  - four s Hb Hl. cbn [columns_from foldl fmap list_fmap]. rewrite add_key_column_at by done.
    rewrite app_assoc, IH; [|lia|done|].
    + rewrite <- app_assoc. done.
    + rewrite len_app, Hp. change (len (xor_bytes _ _)) with 4. lia.
Qed.

Lemma addRoundKey_xor s w round : block s -> addRoundKey s w round = xor_bytes s (round_bytes w round).
Proof. intros [Hl Hb]. by apply (add_key_columns w round 4 s [] 0). Qed.

Lemma inv_mix_columns n : forall s p c,
  length s = (4 * n)%nat -> bytes s -> len p = c * 4 ->
  foldl inv_mix_column (p ++ mix_columns s) (columns_from c n) = p ++ s.
Proof.
  induction n as [|n IH]; intros s p c Hl Hb Hp.
  - apply nil_length_inv in Hl as ->. done.
  - four s Hb Hl. cbn [columns_from foldl]. cbn [mix_columns]. rewrite inv_mix_column_at by done.
    rewrite app_assoc, IH; [|lia|done|].
    + rewrite <- app_assoc. done.
    + rewrite len_app, Hp. change (len [x0; x1; x2; x3]) with 4. lia.
Qed.

Lemma invMixColumns_inverts s : block s -> invMixColumns (mix_columns s) = s.
Proof. intros [Hl Hb]. by apply (inv_mix_columns 4 s [] 0). Qed.

Lemma update_each (f : Z -> Z) s : forall p i,
  len p = i ->
  foldl (fun state i => set8 state i (f (at_ state i))) (p ++ s) (columns_from i (length s))
  = p ++ ((fun b => f b mod 256) <$> s).
Proof.
  induction s as [|x s IH]; intros p i Hp; [done|]. cbn [length columns_from foldl fmap list_fmap].
  rewrite (set8_app p _ i 0), (at_app p _ i 0) by lia. change (at_ (x :: s) 0) with x.
  change (set8 (x :: s) 0 (f x)) with ([f x mod 256] ++ s).
  rewrite app_assoc, IH; [by rewrite <- app_assoc|]. rewrite len_app, Hp. done.
Qed.

Lemma invSubBytes_map s : length s = 16%nat -> invSubBytes s = (fun b => at_ INV_SBOX b mod 256) <$> s.
Proof.
  intros Hl. unfold invSubBytes. pose proof (update_each (at_ INV_SBOX) s [] 0 eq_refl) as E. by rewrite Hl in E.
Qed.

Lemma invSubBytes_inverts s : block s -> invSubBytes (sub_bytes s) = s.
Proof.
  intros [Hl Hb]. unfold sub_bytes. rewrite invSubBytes_map by (by rewrite length_fmap).
  rewrite <- list_fmap_compose. rewrite <- (list_fmap_id s) at 2. apply list_fmap_ext.
  intros i b Hi. unfold compose. unfold bytes in Hb. rewrite Forall_lookup in Hb. apply Hb in Hi.
  by rewrite INV_SBOX_inverts, byte_mod.
Qed.

Lemma invShiftRows_inverts s : block s -> invShiftRows (shift_rows s) = s.
Proof.
  intros Hs. sixteen s.
  lazymatch goal with |- context [shift_rows ?l] => let v := eval cbv in (shift_rows l) in change (shift_rows l) with v end.
  cbv -[Z.modulo]. by rewrite !byte_mod.
Qed.

(** ** The cipher keeps blocks *)

Lemma xor_bytes_block s k : block s -> block k -> block (xor_bytes s k).
Proof.
  intros [Hl Hb] [Hlk Hbk]. split; [unfold xor_bytes; by rewrite length_zip_with, Hl, Hlk|].
  unfold bytes. apply Forall_lookup. intros i x Hx.
  apply lookup_zip_with_Some in Hx as (a & b & -> & Ha & Hb').
  unfold bytes in Hb, Hbk. rewrite Forall_lookup in Hb, Hbk.
  apply lxor_byte; [by eapply Hb | by eapply Hbk].
Qed.

(** Adding the key twice adds nothing. *)
Lemma xor_bytes_twice s k : length s = length k -> xor_bytes (xor_bytes s k) k = s.
Proof.
  revert k. induction s as [|x s IH]; intros [|y k] Hl; try done. cbn. injection Hl as Hl.
  unfold xor_bytes in IH. rewrite IH by done. by rewrite Z.lxor_assoc, Z.lxor_nilpotent, Z.lxor_0_r.
Qed.

Lemma sub_bytes_block s : block s -> block (sub_bytes s).
Proof.
  intros [Hl Hb]. split; [unfold sub_bytes; by rewrite length_fmap|].
  apply Forall_fmap. eapply Forall_impl; [exact Hb|]. intros b. apply sub_byte_is_byte.
Qed.

Lemma shift_rows_block s : block s -> block (shift_rows s).
Proof.
  intros Hs. sixteen s.
  lazymatch goal with |- context [shift_rows ?l] => let v := eval cbv in (shift_rows l) in change (shift_rows l) with v end.
  split; [done|]. repeat (apply bytes_cons; split; [done|]). apply Forall_nil_2.
Qed.

Lemma mix_columns_bytes n : forall s, length s = (4 * n)%nat -> bytes s -> length (mix_columns s) = length s /\ bytes (mix_columns s).
Proof.
  induction n as [|n IH]; intros s Hl Hb.
  - apply nil_length_inv in Hl as ->. done.
  - four s Hb Hl. cbn [mix_columns]. destruct (IH s) as [El Eb]; [lia|done|].
    destruct (mix_column_bytes x0 x1 x2 x3 H0 H1 H2 H3) as (B0 & B1 & B2 & B3).
    unfold mix_column. cbn [app length]. rewrite El. split; [done|]. by repeat (apply bytes_cons; split; [done|]).
Qed.
Lemma mix_columns_block s : block s -> block (mix_columns s).
Proof. intros [Hl Hb]. destruct (mix_columns_bytes 4 s Hl Hb). split; [congruence|done]. Qed.

(** ** Words *)

(** Four bytes as a word, the first the most significant. *)
Definition pack (w : list Z) : Z :=
  match w with [a; b; c; d] => ((a * 256 + b) * 256 + c) * 256 + d | _ => 0 end.
Definition word (w : list Z) : Prop := length w = 4%nat /\ bytes w.

Lemma land_disjoint x y k : 0 <= k -> 0 <= y < 2 ^ k -> Z.land (x * 2 ^ k) y = 0.
Proof.
  intros Hk Hy. apply Z.bits_inj'. intros n Hn. rewrite Z.land_spec, Z.bits_0.
  destruct (Z.lt_ge_cases n k) as [Hlt|Hge].
  - by rewrite Z.mul_pow2_bits_low by lia.
  - rewrite <- (Z.mod_small y (2 ^ k)), Z.mod_pow2_bits_high by lia. apply andb_false_r.
Qed.
Lemma lor_disjoint x y k : 0 <= k -> 0 <= y < 2 ^ k -> Z.lor (x * 2 ^ k) y = x * 2 ^ k + y.
Proof. intros. pose proof (land_disjoint x y k) as E. rewrite Z.add_nocarry_lxor, Z.lxor_lor by auto. done. Qed.
Lemma lxor_cat x y x' y' :
  is_byte y -> is_byte y' -> Z.lxor (x * 256 + y) (x' * 256 + y') = Z.lxor x x' * 256 + Z.lxor y y'.
Proof.
  intros Hy Hy'. assert (E : forall a b, is_byte b -> a * 256 + b = Z.lxor (Z.shiftl a 8) b).
  { intros a b Hb. rewrite Z.shiftl_mul_pow2 by lia. apply Z.add_nocarry_lxor. by apply (land_disjoint a b 8). }
  rewrite !E by auto with aes. rewrite Z.shiftl_lxor. xors.
Qed.

Lemma pack_bound w : word w -> 0 <= pack w < 4294967296.
Proof.
  intros [Hl Hb]. four w Hb Hl. destruct w; [|done]. unfold is_byte in *. cbn. lia.
Qed.
Lemma pack_xor v w : word v -> word w -> Z.lxor (pack v) (pack w) = pack (xor_bytes v w).
Proof.
  intros [Hl Hb] [Hl' Hb']. four v Hb Hl. destruct v; [|done].
  destruct w as [|y0 [|y1 [|y2 [|y3 [|]]]]]; try done.
  rewrite !bytes_cons in Hb'. destruct Hb' as (Y0 & Y1 & Y2 & Y3 & _).
  unfold pack, xor_bytes. cbn [zip_with]. by rewrite !lxor_cat.
Qed.

Lemma uint32_land n : uint32 n = Z.land n (Z.ones 32).
Proof. unfold uint32. by rewrite Z.land_ones. Qed.
Lemma uint32_wrap n : uint32 (wrap32 n) = uint32 n.
Proof.
  unfold uint32, wrap32. rewrite Zminus_mod_idemp_l. f_equal. lia.
Qed.
Lemma uint32_or a b : uint32 (js_or a b) = Z.lor (uint32 a) (uint32 b).
Proof.
  rewrite <- (uint32_wrap a), <- (uint32_wrap b). unfold js_or. rewrite !uint32_land.
  apply Z.bits_inj'. intros n Hn. rewrite !Z.land_spec, !Z.lor_spec, !Z.land_spec. btauto.
Qed.
Lemma uint32_xor a b : uint32 (js_xor a b) = Z.lxor (uint32 a) (uint32 b).
Proof.
  rewrite <- (uint32_wrap a), <- (uint32_wrap b). unfold js_xor. rewrite !uint32_land.
  apply Z.bits_inj'. intros n Hn. rewrite !Z.land_spec, !Z.lxor_spec, !Z.land_spec. btauto.
Qed.
Lemma uint32_shl a n : 0 <= n -> uint32 (js_shl a n) = uint32 (a * 2 ^ n).
Proof.
  intros Hn. unfold js_shl. rewrite uint32_wrap, Z.shiftl_mul_pow2 by done. unfold uint32.
  rewrite <- (Z.mul_mod_idemp_l (wrap32 a)), <- (Z.mul_mod_idemp_l a) by done. f_equal. f_equal. apply uint32_wrap.
Qed.
Lemma uint32_small n : 0 <= n < 4294967296 -> uint32 n = n.
Proof. apply Z.mod_small. Qed.
Lemma js_shr_div a n : 0 <= n -> js_shr a n = uint32 a / 2 ^ n.
Proof. intros. unfold js_shr. by apply Z.shiftr_div_pow2. Qed.
Lemma js_shr_0 a : js_shr a 0 = uint32 a.
Proof. rewrite js_shr_div by done. apply Z.div_1_r. Qed.

(** [a << 24 | b << 16 | c << 8 | d] *)
Lemma or_bytes a b c d :
  is_byte a -> is_byte b -> is_byte c -> is_byte d ->
  uint32 (js_or (js_or (js_or (js_shl a 24) (js_shl b 16)) (js_shl c 8)) d) = pack [a; b; c; d].
Proof.
  unfold is_byte. intros Ha Hb Hc Hd. rewrite !uint32_or, !uint32_shl by lia.
  rewrite !uint32_small by lia. unfold pack.
  change (2 ^ 24) with 16777216. change (2 ^ 16) with 65536. change (2 ^ 8) with 256.
  pose proof (lor_disjoint a (b * 65536) 24) as E1. pose proof (lor_disjoint (a * 256 + b) (c * 256) 16) as E2.
  pose proof (lor_disjoint ((a * 256 + b) * 256 + c) d 8) as E3.
  change (2 ^ 24) with 16777216 in E1. change (2 ^ 16) with 65536 in E2. change (2 ^ 8) with 256 in E3.
  rewrite E1 by lia. replace (a * 16777216 + b * 65536) with ((a * 256 + b) * 65536) by lia.
  rewrite E2 by lia. replace ((a * 256 + b) * 65536 + c * 256) with (((a * 256 + b) * 256 + c) * 256) by lia.
  apply E3; lia.
Qed.

(** The bytes of a packed word. *)
Lemma pack_bytes a b c d :
  is_byte a -> is_byte b -> is_byte c -> is_byte d ->
  word_bytes (pack [a; b; c; d]) = [a; b; c; d] /\ uint32 (pack [a; b; c; d]) = pack [a; b; c; d].
Proof.
  intros Ha Hb Hc Hd. unfold is_byte in *.
  assert (Hu : uint32 (pack [a; b; c; d]) = pack [a; b; c; d]) by (apply uint32_small; cbn; lia).
  split; [|done]. unfold word_bytes. rewrite !js_and_255, !js_shr_div, Hu by lia. unfold pack.
  change (2 ^ 24) with 16777216. change (2 ^ 16) with 65536. change (2 ^ 8) with 256.
  repeat f_equal; Z.div_mod_to_equations; lia.
Qed.

Lemma sub_word_pack a b c d :
  is_byte a -> is_byte b -> is_byte c -> is_byte d ->
  uint32 (sub_word (pack [a; b; c; d])) = pack (sub_byte <$> [a; b; c; d]).
Proof.
  intros Ha Hb Hc Hd. destruct (pack_bytes a b c d Ha Hb Hc Hd) as [E _]. unfold word_bytes in E.
  set (p := pack [a; b; c; d]) in *. clearbody p. injection E as E1 E2 E3 E4. unfold sub_word. rewrite E1, E2, E3, E4, !SBOX_fips by done.
  by rewrite or_bytes by auto with aes.
Qed.

Lemma rotate_pack a b c d :
  is_byte a -> is_byte b -> is_byte c -> is_byte d ->
  js_shr (js_or (js_shl (pack [a; b; c; d]) 8) (js_shr (pack [a; b; c; d]) 24)) 0 = pack [b; c; d; a].
Proof.
  intros Ha Hb Hc Hd. destruct (pack_bytes a b c d Ha Hb Hc Hd) as [_ Hu].
  rewrite js_shr_0, uint32_or, uint32_shl, js_shr_div, Hu by lia. unfold is_byte in *. unfold pack.
  change (2 ^ 24) with 16777216. change (2 ^ 8) with 256.
  replace ((((a * 256 + b) * 256 + c) * 256 + d) / 16777216) with a by (Z.div_mod_to_equations; lia).
  rewrite (uint32_small a) by lia.
  replace (uint32 ((((a * 256 + b) * 256 + c) * 256 + d) * 256)) with (((b * 256 + c) * 256 + d) * 256)
    by (unfold uint32; Z.div_mod_to_equations; lia).
  by apply (lor_disjoint _ a 8).
Qed.

(** ** The key schedule *)

Lemma word_inv w : word w -> exists a b c d, w = [a; b; c; d] /\ is_byte a /\ is_byte b /\ is_byte c /\ is_byte d.
Proof. intros [Hl Hb]. four w Hb Hl. destruct w; [|done]. by exists x0, x1, x2, x3. Qed.

Lemma word_of a b c d : is_byte a -> is_byte b -> is_byte c -> is_byte d -> word [a; b; c; d].
Proof. intros. split; [done|]. repeat (apply bytes_cons; split; [done|]). apply Forall_nil_2. Qed.

Lemma xor_word v w : word v -> word w -> word (xor_bytes v w).
Proof.
  intros (a & b & c & d & -> & ? & ? & ? & ?)%word_inv (e & f & g & h & -> & ? & ? & ? & ?)%word_inv.
  apply word_of; auto with aes.
Qed.

Lemma rcon_fips j :
  (1 <= j <= 10)%nat -> at_ RCON (Z.of_nat j) = Nat.iter (j - 1) (gf_mul 2) 1 /\ is_byte (Nat.iter (j - 1) (gf_mul 2) 1).
Proof.
  intros Hj. do 11 (destruct j as [|j]; [try lia; unfold is_byte; vm_compute; repeat split; done|]). lia.
Qed.

(** The words written so far are the schedule. *)
Record schedule (w : list Z) (ws : list (list Z)) (i : nat) : Prop := {
  sc_length : length w = 44%nat;
  sc_words : length ws = i;
  sc_word : Forall word ws;
  sc_pack : forall j, (j < i)%nat -> w !! j = Some (pack (nth_word ws j));
}.

Lemma nth_word_word ws j : Forall word ws -> (j < length ws)%nat -> word (nth_word ws j).
Proof.
  intros Hall Hj. unfold nth_word. destruct (lookup_lt_is_Some_2 ws j Hj) as [x Hx]. rewrite Hx.
  rewrite Forall_lookup in Hall. by eapply Hall.
Qed.

Lemma schedule_at w ws i j : schedule w ws i -> (j < i)%nat -> at_ w (Z.of_nat j) = pack (nth_word ws j) /\ word (nth_word ws j).
Proof.
  intros [Hl Hn Hw Hp] Hj. split; [|apply nth_word_word; [done|lia]].
  unfold at_. rewrite Nat2Z.id, Hp by done. done.
Qed.

Lemma uint32_pack w : word w -> uint32 (pack w) = pack w.
Proof. intros. by apply uint32_small, pack_bound. Qed.

Lemma next_word_step w ws i :
  schedule w ws i -> (4 <= i < 44)%nat ->
  expand_word w (Z.of_nat i) = <[i := pack (next_word ws i)]> w /\ word (next_word ws i).
Proof.
  intros Hs Hi. destruct (schedule_at w ws i (i - 1) Hs) as [E1 W1]; [lia|].
  destruct (schedule_at w ws i (i - 4) Hs) as [E4 W4]; [lia|].
  replace (Z.of_nat (i - 1)) with (Z.of_nat i - 1) in E1 by lia.
  replace (Z.of_nat (i - 4)) with (Z.of_nat i - 4) in E4 by lia.
  unfold expand_word, next_word. rewrite E1, E4.
  set (temp := nth_word ws (i - 1)) in *. set (w4 := nth_word ws (i - 4)) in *. clearbody temp w4. clear E1 E4 Hs.
  assert (Htemp : exists t, word t
    /\ (if Z.of_nat i mod 4 =? 0
        then js_shr (js_xor (sub_word (js_shr (js_or (js_shl (pack temp) 8) (js_shr (pack temp) 24)) 0))
                            (js_shl (at_ RCON (Z.of_nat i / 4)) 24)) 0
        else pack temp) = pack t
    /\ t = if (i mod 4 =? 0)%nat then xor_bytes (sub_byte <$> rot_word temp) (rcon_word (i / 4)) else temp).
  { replace (Z.of_nat i mod 4 =? 0) with (i mod 4 =? 0)%nat.
    2: { change (Z.of_nat i mod 4) with (Z.of_nat i mod Z.of_nat 4). rewrite <- Nat2Z.inj_mod.
         destruct (Nat.eqb_spec (i mod 4) 0), (Z.eqb_spec (Z.of_nat (i mod 4)) 0); try done; lia. }
    destruct (Nat.eqb_spec (i mod 4) 0) as [Hm|Hm]; [|by exists temp].
    apply word_inv in W1 as (a & b & c & d & -> & Ha & Hb & Hc & Hd). rewrite rotate_pack by done.
    destruct (rcon_fips (i / 4)) as [Er Hr]; [split; [apply Nat.div_le_lower_bound; lia | apply Nat.lt_succ_r, Nat.Div0.div_lt_upper_bound; lia]|].
    rewrite Nat2Z.inj_div in Er. change (Z.of_nat 4) with 4 in Er.
    change (rot_word [a; b; c; d]) with [b; c; d; a]. cbn [fmap list_fmap].
    assert (Wr : word (rcon_word (i / 4))) by (apply word_of; done).
    assert (Wt : word [sub_byte b; sub_byte c; sub_byte d; sub_byte a]) by (apply word_of; auto with aes).
    exists (xor_bytes [sub_byte b; sub_byte c; sub_byte d; sub_byte a] (rcon_word (i / 4))). split; [by apply xor_word|]. split; [|done].
    rewrite js_shr_0, uint32_xor, sub_word_pack, uint32_shl, Er by done.
    rewrite <- pack_xor by done. f_equal. unfold rcon_word. cbn [pack]. unfold is_byte in Hr.
    change (2 ^ 24) with 16777216. rewrite uint32_small by lia. lia. }
  destruct Htemp as (t & Wt & -> & <-). split; [|by apply xor_word].
  unfold set32. rewrite Nat2Z.id, js_shr_0, uint32_xor, !uint32_pack, pack_xor by done.
  f_equal. apply uint32_pack. by apply xor_word.
Qed.

Lemma schedule_step w ws i :
  schedule w ws i -> (4 <= i < 44)%nat ->
  schedule (expand_word w (Z.of_nat i)) (ws ++ [next_word ws i]) (S i).
Proof.
  intros Hs Hi. destruct (next_word_step w ws i Hs Hi) as [-> Hw]. destruct Hs as [Hl Hn Hall Hp]. split.
  - by rewrite length_insert.
  - rewrite length_app, Hn. cbn. lia.
  - apply Forall_app. split; [done|]. by apply Forall_singleton.
  - intros j Hj. unfold nth_word. destruct (decide (j = i)) as [->|Hne].
    + rewrite list_lookup_insert_eq by lia. rewrite lookup_app_r, Hn, Nat.sub_diag by lia. done.
    + rewrite list_lookup_insert_ne by done. rewrite lookup_app_l by lia. apply Hp. lia.
Qed.

Lemma schedule_loop n : forall w ws i,
  schedule w ws i -> (4 <= i)%nat -> (i + n <= 44)%nat ->
  schedule (foldl expand_word w (columns_from (Z.of_nat i) n)) (foldl (fun ws i => ws ++ [next_word ws i]) ws (seq i n)) (i + n).
Proof.
  induction n as [|n IH]; intros w ws i Hs H4 H44; cbn [columns_from seq foldl]; [by rewrite Nat.add_0_r|].
  replace (Z.of_nat i + 1) with (Z.of_nat (S i)) by lia. rewrite Nat.add_succ_r, <- Nat.add_succ_l.
  apply IH; [|lia..]. apply schedule_step; [done|lia].
Qed.

Lemma schedule_key key :
  block key -> schedule (foldl (load_word key) (replicate 44 0) (range 0 4)) (key_words key) 4.
Proof.
  intros Hk. sixteen key. unfold load_word. change (range 0 4) with [0; 1; 2; 3]. cbn [foldl].
  unfold key_words. cbn [take drop].
  assert (E : forall l i a b c d, at_ l (i * 4) = a -> at_ l (i * 4 + 1) = b -> at_ l (i * 4 + 2) = c -> at_ l (i * 4 + 3) = d ->
    is_byte a -> is_byte b -> is_byte c -> is_byte d -> forall w,
    set32 w i (js_or (js_or (js_or (js_shl (at_ l (i * 4)) 24) (js_shl (at_ l (i * 4 + 1)) 16))
      (js_shl (at_ l (i * 4 + 2)) 8)) (at_ l (i * 4 + 3))) = <[Z.to_nat i := pack [a; b; c; d]]> w).
  { intros l i a b c d -> -> -> -> ? ? ? ? w. unfold set32. by rewrite or_bytes. }
  erewrite !E by (reflexivity || assumption). clear E.
  split; [done|done|repeat (constructor; [by apply word_of|]); constructor|].
  intros j Hj. do 4 (destruct j as [|j]; [done|]). lia.
Qed.

(** The words of the code are the words of FIPS 197, packed. *)
Lemma expandKey_schedule key : block key -> schedule (expandKey key) (key_schedule key) 44.
Proof. intros Hk. apply (schedule_loop 40 _ _ 4); [by apply schedule_key | lia..]. Qed.

(** [expandKey], which shifts and rotates 32-bit words, computes the key schedule of FIPS 197,
    each word packed with its first byte the most significant, for every 128-bit key. *)
Theorem expandKey_fips key : block key -> expandKey key = pack <$> key_schedule key.
Proof.
  intros Hk. destruct (expandKey_schedule key Hk) as [Hl Hn _ Hp]. apply list_eq. intros j.
  rewrite list_lookup_fmap. destruct (decide (j < 44)%nat) as [Hj|Hj].
  - rewrite Hp by done. unfold nth_word. destruct (lookup_lt_is_Some_2 (key_schedule key) j) as [x ->]; [lia|]. done.
  - rewrite !lookup_ge_None_2 by lia. done.
Qed.

Lemma round_key_words ws r :
  length ws = 44%nat -> (r <= 10)%nat ->
  round_key ws r = nth_word ws (4 * r) ++ nth_word ws (4 * r + 1) ++ nth_word ws (4 * r + 2) ++ nth_word ws (4 * r + 3).
Proof.
  intros Hl Hr. unfold round_key.
  assert (E : forall k i, (i < 44)%nat -> take (S k) (drop i ws) = nth_word ws i :: take k (drop (S i) ws)).
  { intros k i Hi. unfold nth_word. destruct (lookup_lt_is_Some_2 ws i) as [x Hx]; [lia|]. rewrite Hx.
    by rewrite (drop_S _ _ _ Hx). }
  rewrite !E by lia. rewrite take_0. cbn [mjoin list_join]. rewrite app_nil_r.
  repeat f_equal; lia.
Qed.

Lemma word_bytes_pack w : word w -> word_bytes (pack w) = w.
Proof. intros (a & b & c & d & -> & ? & ? & ? & ?)%word_inv. by apply pack_bytes. Qed.

Lemma round_bytes_fips key r :
  block key -> (r <= 10)%nat -> round_bytes (expandKey key) (Z.of_nat r) = round_key (key_schedule key) r.
Proof.
  intros Hk Hr. pose proof (expandKey_schedule key Hk) as Hs. rewrite round_key_words by (apply Hs || done).
  unfold round_bytes. change (range 0 4) with [0; 1; 2; 3]. cbn [fmap list_fmap mjoin list_join]. rewrite app_nil_r.
  assert (E : forall c, (c < 4)%nat -> word_bytes (at_ (expandKey key) (Z.of_nat r * 4 + Z.of_nat c))
                = nth_word (key_schedule key) (4 * r + c)).
  { intros c Hc. destruct (schedule_at _ _ 44 (4 * r + c) Hs) as [E W]; [lia|].
    replace (Z.of_nat r * 4 + Z.of_nat c) with (Z.of_nat (4 * r + c)) by lia. rewrite E. by apply word_bytes_pack. }
  pose proof (E 0%nat) as E0. pose proof (E 1%nat) as E1. pose proof (E 2%nat) as E2. pose proof (E 3%nat) as E3.
  change (Z.of_nat 0) with 0 in E0. change (Z.of_nat 1) with 1 in E1. change (Z.of_nat 2) with 2 in E2.
  change (Z.of_nat 3) with 3 in E3.
  rewrite E0, E1, E2, E3 by lia. by rewrite Nat.add_0_r.
Qed.

Lemma round_key_block key r : block key -> (r <= 10)%nat -> block (round_key (key_schedule key) r).
Proof. intros. rewrite <- round_bytes_fips by done. apply round_bytes_block. Qed.

(** ** Decryption *)

Section decryption.
Context (key : list Z) (Hkey : block key).
Let ws := key_schedule key.
Let w := expandKey key.

Lemma aes_round_block s r : block s -> (r <= 10)%nat -> block (aes_round ws s r).
Proof.
  intros Hs Hr. unfold aes_round.
  apply xor_bytes_block; [by apply mix_columns_block, shift_rows_block, sub_bytes_block | by apply round_key_block].
Qed.

Lemma add_round_key s r : block s -> (r <= 10)%nat -> addRoundKey s w (Z.of_nat r) = xor_bytes s (round_key ws r).
Proof. intros. unfold w, ws. rewrite addRoundKey_xor by done. by rewrite round_bytes_fips. Qed.

(** A round of the inverse cipher undoes the round of the cipher, from inside its substitution. *)
Lemma inv_round_undoes s r :
  block s -> (r <= 10)%nat ->
  inv_round w (shift_rows (sub_bytes (aes_round ws s r))) (Z.of_nat r) = shift_rows (sub_bytes s).
Proof.
  intros Hs Hr. unfold inv_round. pose proof (aes_round_block s r Hs Hr) as Hb.
  rewrite invShiftRows_inverts by (by apply sub_bytes_block). rewrite invSubBytes_inverts by done.
  rewrite add_round_key by done. unfold aes_round.
  pose proof (mix_columns_block _ (shift_rows_block _ (sub_bytes_block s Hs))) as Hm.
  rewrite xor_bytes_twice by (rewrite (proj1 Hm); symmetry; by apply round_key_block).
  apply invMixColumns_inverts. by apply shift_rows_block, sub_bytes_block.
Qed.

Lemma inv_rounds_undo rs s :
  block s -> Forall (fun r => (r <= 10)%nat) rs ->
  block (foldl (aes_round ws) s rs)
  /\ foldl (inv_round w) (shift_rows (sub_bytes (foldl (aes_round ws) s rs))) (Z.of_nat <$> reverse rs)
     = shift_rows (sub_bytes s).
Proof.
  intros Hs. induction rs as [|r rs IH] using rev_ind; intros Hall; [done|].
  apply Forall_app in Hall as [Hall Hr]. rewrite Forall_singleton in Hr. destruct (IH Hall) as [Hb Hu].
  rewrite foldl_app, reverse_snoc. cbn [foldl fmap list_fmap]. split; [by apply aes_round_block|].
  by rewrite inv_round_undoes.
Qed.

Lemma decryptBlock_inverts s : block s -> decryptBlock (aes_encrypt key s) w = s.
Proof.
  intros Hs. unfold decryptBlock, aes_encrypt. cbv zeta. fold ws.
  assert (H0 : block (round_key ws 0)) by (apply round_key_block; [done|lia]).
  assert (H10 : block (round_key ws 10)) by (apply round_key_block; [done|lia]).
  assert (Hs0 : block (xor_bytes s (round_key ws 0))) by (apply xor_bytes_block; [done|apply H0]).
  destruct (inv_rounds_undo (seq 1 9) _ Hs0) as [Hb Hu]; [by repeat (constructor; [lia|])|].
  pose proof (shift_rows_block _ (sub_bytes_block _ Hb)) as Hc.
  pose proof (add_round_key _ 10 (xor_bytes_block _ _ Hc H10) (le_n 10)) as E10. change (Z.of_nat 10) with 10 in E10.
  pose proof (add_round_key _ 0 Hs0 (Nat.le_0_l 10)) as E0. change (Z.of_nat 0) with 0 in E0.
  rewrite E10, xor_bytes_twice by (rewrite (proj1 Hc); symmetry; apply H10).
  change [9; 8; 7; 6; 5; 4; 3; 2; 1] with (Z.of_nat <$> reverse (seq 1 9)). rewrite Hu.
  rewrite invShiftRows_inverts by (by apply sub_bytes_block). rewrite invSubBytes_inverts by done.
  rewrite E0. apply xor_bytes_twice. rewrite (proj1 Hs). symmetry. apply H0.
Qed.
End decryption.

(** ** The blocks of a text *)

(** The cipher, block by block. *)
Fixpoint ecb_encrypt (n : nat) (key text : list Z) : list Z :=
  match n with O => [] | S n => aes_encrypt key (take 16 text) ++ ecb_encrypt n key (drop 16 text) end.

Lemma aes_encrypt_block key s : block key -> block s -> block (aes_encrypt key s).
Proof.
  intros Hk Hs. unfold aes_encrypt. cbv zeta. apply xor_bytes_block; [|apply round_key_block; [done|lia]].
  apply shift_rows_block, sub_bytes_block. apply (inv_rounds_undo key Hk (seq 1 9)).
  - apply xor_bytes_block; [done|]. apply round_key_block; [done|lia].
  - by repeat (constructor; [lia|]).
Qed.

Lemma take_block n text : length text = (16 * S n)%nat -> bytes text -> block (take 16 text).
Proof. intros Hl Hb. split; [rewrite length_take; lia | by apply Forall_take]. Qed.

Lemma ecb_encrypt_bytes key n : forall text,
  block key -> length text = (16 * n)%nat -> bytes text ->
  length (ecb_encrypt n key text) = length text /\ bytes (ecb_encrypt n key text).
Proof.
  induction n as [|n IH]; intros text Hk Hl Hb; cbn [ecb_encrypt]; [by apply nil_length_inv in Hl as ->|].
  destruct (aes_encrypt_block key _ Hk (take_block n text Hl Hb)) as [El Eb].
  destruct (IH (drop 16 text) Hk) as [Dl Db]; [rewrite length_drop; lia | by apply Forall_drop|].
  rewrite length_app, El, Dl, length_drop. split; [lia|]. by apply Forall_app.
Qed.

Lemma decrypt_blocks key n : block key -> forall text before done_ i,
  length text = (16 * n)%nat -> bytes text -> length before = (16 * i)%nat -> length done_ = (16 * i)%nat ->
  foldl (fun plaintext i =>
           let offset := Z.of_nat i * 16 in
           list_inserts (Z.to_nat offset)
             (decryptBlock (slice (before ++ ecb_encrypt n key text) offset (offset + 16)) (expandKey key)) plaintext)
        (done_ ++ replicate (16 * n) 0) (seq i n)
  = done_ ++ text.
Proof.
  intros Hk. induction n as [|n IH]; intros text before done_ i Hl Hb Hbefore Hdone; cbn [seq foldl].
  - apply nil_length_inv in Hl as ->. done.
  - pose proof (take_block n text Hl Hb) as Ht. destruct (aes_encrypt_block key _ Hk Ht) as [El Eb].
    cbn [ecb_encrypt]. cbv zeta.
    rewrite (slice_app_mid before (aes_encrypt key (take 16 text))) by (unfold len; rewrite ?El, Hbefore; lia).
    rewrite decryptBlock_inverts by done.
    replace (Z.to_nat (Z.of_nat i * 16)) with (length done_ + 0)%nat by lia.
    rewrite list_inserts_app_r.
    replace (replicate (16 * S n) 0) with (replicate 16 0 ++ replicate (16 * n) 0 : list Z)
      by (rewrite <- replicate_add; f_equal; lia).
    rewrite list_inserts_0_r by (by rewrite length_replicate, (proj1 Ht)).
    cbv zeta in IH. rewrite (app_assoc before), (app_assoc done_).
    transitivity ((done_ ++ take 16 text) ++ drop 16 text); [|by rewrite <- app_assoc, take_drop].
    apply IH; [rewrite length_drop; lia|by apply Forall_drop|rewrite length_app, El; lia|rewrite length_app, (proj1 Ht); lia].
Qed.

Lemma ecb_decrypts key text n :
  block key -> bytes text -> length text = (16 * n)%nat ->
  aes128EcbDecrypt key (ecb_encrypt n key text) = text.
Proof.
  intros Hk Hb Hl. unfold aes128EcbDecrypt. cbv zeta.
  destruct (ecb_encrypt_bytes key n text Hk Hl Hb) as [El _]. rewrite El, Hl.
  replace (Nat.div (16 * n + 15) 16) with n
    by (apply (Nat.div_unique _ _ _ 15); lia).
  by apply (decrypt_blocks key n Hk text [] [] 0).
Qed.

(** C8: the client's AES-128 decrypts what the cipher of FIPS 197 encrypts: for every key of sixteen
    bytes and every text of whole blocks, [aes128EcbDecrypt] gives the text back. The cipher is
    written from the standard (products of polynomials over GF(2), an S-box made of inverses);
    the code has tables, shifts, and a key schedule on 32-bit words. *)
Theorem aes128EcbDecrypt_inverts key text n :
  block key -> bytes text -> length text = (16 * n)%nat ->
  aes128EcbDecrypt key (ecb_encrypt n key text) = text.
Proof. apply ecb_decrypts. Qed.

(** A literal list of bytes. *)
Lemma bytes_check l : forallb (fun b => (0 <=? b) && (b <? 256)) l = true -> bytes l.
Proof.
  intros H. apply Forall_forall. intros b Hb%list_elem_of_In. rewrite forallb_forall in H. apply H in Hb.
  to_prop. done.
Qed.
Lemma block_check l : (length l =? 16)%nat && forallb (fun b => (0 <=? b) && (b <? 256)) l = true -> block l.
Proof. intros [Hl Hb]%andb_true_iff. split; [by apply Nat.eqb_eq | by apply bytes_check]. Qed.

(** The first vector of FIPS 197, appendix C. *)
Lemma aes128EcbDecrypt_inverts_witness :
  aes128EcbDecrypt [0; 1; 2; 3; 4; 5; 6; 7; 8; 9; 10; 11; 12; 13; 14; 15]
    [105; 196; 224; 216; 106; 123; 4; 48; 216; 205; 183; 128; 112; 180; 197; 90]
  = [0; 17; 34; 51; 68; 85; 102; 119; 136; 153; 170; 187; 204; 221; 238; 255].
Proof.
  pose proof (aes128EcbDecrypt_inverts [0; 1; 2; 3; 4; 5; 6; 7; 8; 9; 10; 11; 12; 13; 14; 15]
    [0; 17; 34; 51; 68; 85; 102; 119; 136; 153; 170; 187; 204; 221; 238; 255] 1) as H.
  refine (eq_trans _ (H _ _ eq_refl)).
  - vm_compute. reflexivity.
  - apply block_check. reflexivity.
  - apply bytes_check. reflexivity.
Defined.

Lemma expandKey_fips_witness : expandKey (replicate 16 0) = pack <$> key_schedule (replicate 16 0).
Proof.
  apply expandKey_fips, block_check. reflexivity.
Defined.
