(* ===== verification/GroupData.v ===== *)
(** GroupData packets and hashtag channels: [utils/parseGroupData.ts] from its bytes to its
    plaintext (its cipher is in [Aes]), [utils/hashtagKey.ts] and [utils/tryHashtagCandidates.ts].

    The hash of a channel key, the MAC, the key of a room name and the checks on a decrypted
    text are third-party code: the class [ChannelCryptoLib]. *)
From S2P Require Import Prelude JsString PacketWire Types Aes.

Record GroupTextData := { gx_timestamp : Z; gx_sender : option jstr; gx_message : jstr }.

Class ChannelCryptoLib := {
  getChannelHash : jstr -> jstr;
  (** ciphertext, MAC and key, in hexadecimal *)
  verifyMac : jstr -> jstr -> jstr -> bool;
  deriveKeyFromRoomName : jstr -> jstr;
  (** [None]: not a success, or no data. *)
  decryptGroupTextMessage : jstr -> jstr -> jstr -> option GroupTextData;
  isTimestampValid : Z -> option Z -> option Z -> bool;
  isValidUtf8 : jstr -> bool;
}.

(** ** Hexadecimal *)

(** [/[\s:]+/g] and [/\s+/g], removed. *)
Definition drop_separators (s : jstr) : jstr := filter (fun c => negb (is_space c || (c =? 58)) = true) s.
Definition drop_spaces (s : jstr) : jstr := filter (fun c => negb (is_space c) = true) s.
(** [/^0x/i] and [/^0x/], removed. *)
Definition drop_0x_i (s : jstr) : jstr :=
  match s with 48 :: 120 :: s' | 48 :: 88 :: s' => s' | _ => s end.
Definition drop_0x (s : jstr) : jstr := match s with 48 :: 120 :: s' => s' | _ => s end.

Definition is_hex_lower (c : Z) : bool := in_range 48 57 c || in_range 97 102 c.

Definition hexToBytes (hex : jstr) : option (list Z) :=
  let normalized := drop_separators (drop_0x_i (trim hex)) in
  if (len normalized =? 0) || negb (len normalized mod 2 =? 0) || negb (forallb is_hex normalized) then None
  else Some ((fun i => default 0 (parseInt16 (slice normalized (i * 2) (i * 2 + 2))) mod 256)
             <$> range 0 (len normalized / 2)).

Definition bytesToHex (bytes : list Z) : jstr := mjoin ((fun byte => padStart (toString_radix 16 byte) 2 48) <$> bytes).

(** [Uint8Array | string] *)
Inductive BytesOrHex := AsBytes (bytes : list Z) | AsHex (hex : jstr).
Definition asBytes (input : BytesOrHex) : option (list Z) :=
  match input with AsHex hex => hexToBytes hex | AsBytes bytes => Some bytes end.

Definition normalizeChannelKey (key : jstr) : option jstr :=
  let normalized := drop_separators (drop_0x (toLowerCase (trim key))) in
  if negb (len normalized =? 32) || negb (forallb is_hex_lower normalized) then None else Some normalized.

(** ** The plaintext and the envelope *)

Definition GROUP_DATA_PAYLOAD_TYPE : Z := 6.

Definition parseGroupDataPlaintext (plaintext : list Z) : option GroupDataInfo :=
  if len plaintext <? 3 then None
  else
    let dataType := Z.lor (at_ plaintext 0) (js_shl (at_ plaintext 1) 8) in
    let dataLen := at_ plaintext 2 in
    if len plaintext <? 3 + dataLen then None
    else
      let data := slice plaintext 3 (3 + dataLen) in
      Some {| gd_data_type := dataType; gd_data_len := dataLen; gd_data_hex := bytesToHex data;
              gd_data_text := text_decode data |}.

Section crypto.
Context `{ChannelCryptoLib}.

(** The loop over the keys. *)
Fixpoint try_keys (hashHex macHex ciphertextHex : jstr) (ciphertext : list Z) (keys : list jstr) : option GroupDataInfo :=
  match keys with
  | [] => None
  | key :: keys =>
    let next := try_keys hashHex macHex ciphertextHex ciphertext keys in
    match normalizeChannelKey key with
    | None => next
    | Some normalized =>
      if negb (getChannelHash normalized ≟ hashHex) then next
      else if negb (verifyMac ciphertextHex macHex normalized) then next
      else match hexToBytes normalized with
      | None => next
      | Some keyBytes =>
        match parseGroupDataPlaintext (aes128EcbDecrypt keyBytes ciphertext) with
        | Some parsed => Some parsed
        | None => next
        end
      end
    end
  end.

Definition decryptEnvelope (payload : list Z) (keys : list jstr) : option GroupDataInfo :=
  if len payload <? 3 then None
  else
    let hashHex := padStart (toString_radix 16 (at_ payload 0)) 2 48 in
    let macHex := bytesToHex (slice payload 1 3) in
    let ciphertext := slice_from payload 3 in
    if (len ciphertext =? 0) || negb (len ciphertext mod 16 =? 0) then None
    else try_keys hashHex macHex (bytesToHex ciphertext) ciphertext keys.

(** A payload, ['skip'] or [null]. *)
Inductive ExtractedPayload := Extracted (payload : list Z) | ExtractSkip | ExtractNone.

Definition extractGroupDataPayload (bytes : list Z) : ExtractedPayload :=
  if len bytes <? 2 then ExtractNone
  else
    let header := at_ bytes 0 in
    if negb (Z.land (Z.shiftr header 2) 15 =? GROUP_DATA_PAYLOAD_TYPE) then ExtractNone
    else if negb (Z.land (Z.shiftr header 6) 3 =? 0) then ExtractSkip
    else match truthy (extractPacketPayloadHex (bytesToHex bytes)) with
    | None => ExtractNone
    | Some payloadHex =>
      match hexToBytes payloadHex with
      | None => ExtractNone
      | Some payload =>
        if (len payload <? 3) || negb ((len payload - 3) mod 16 =? 0) then ExtractNone else Extracted payload
      end
    end.

Definition isNonGroupDataMeshPacket (bytes : list Z) : bool :=
  if len bytes <? 2 then false
  else
    let payloadType := Z.land (Z.shiftr (at_ bytes 0) 2) 15 in
    if payloadType =? GROUP_DATA_PAYLOAD_TYPE then false
    else match truthy (extractPacketPayloadHex (bytesToHex bytes)) with
    | None => false
    | Some payloadHex =>
      match hexToBytes payloadHex with
      | None => false
      | Some payload => len payload <=? len bytes - 2
      end
    end.

Definition parseGroupData (payloadOrPacket : BytesOrHex) (keys : list jstr) : option GroupDataInfo :=
  match asBytes payloadOrPacket with
  | None => None
  | Some bytes =>
    if len keys =? 0 then None
    else match extractGroupDataPayload bytes with
    | ExtractSkip => None
    | Extracted extracted => decryptEnvelope extracted keys
    | ExtractNone => if isNonGroupDataMeshPacket bytes then None else decryptEnvelope bytes keys
    end
  end.

(** ** Hashtag channels *)

Definition normalizeHashtagName (name : jstr) : jstr := match name with 35 :: rest => rest | _ => name end.
Definition deriveHashtagKeyHex (name : jstr) : jstr := toLowerCase (deriveKeyFromRoomName (js "#" ++ normalizeHashtagName name)).
Definition deriveChannelHashByte (keyHex : jstr) : jstr := toLowerCase (getChannelHash keyHex).

Record GroupTextFields := { gt_channelHash : jstr; gt_cipherMac : jstr; gt_ciphertext : jstr }.

(** [/^[0-9a-f]+$/i] is [is_hex] on every unit, and one at least. *)
Definition extractGroupTextFields (packetHex : jstr) : option GroupTextFields :=
  let cleanHex := drop_0x_i (drop_spaces (trim packetHex)) in
  if negb (len cleanHex mod 2 =? 0) || (len cleanHex <? 2) || negb (forallb is_hex cleanHex) then None
  else
    let header := default 0 (parseInt16 (slice cleanHex 0 2)) in
    if negb (Z.land (Z.shiftr header 2) 15 =? 5) then None
    else match truthy (extractPacketPayloadHex cleanHex) with
    | None => None
    | Some payload =>
      if len payload <? 6 then None
      else
        let ciphertext := toLowerCase (slice_from payload 6) in
        if (len ciphertext =? 0) || negb (len ciphertext mod 32 =? 0) then None
        else Some {| gt_channelHash := toLowerCase (slice payload 0 2);
                     gt_cipherMac := toLowerCase (slice payload 2 6); gt_ciphertext := ciphertext |}
    end.

Record TryHashtagOptions := {
  ho_nowSec : option Z; ho_validSeconds : option Z;
  ho_useTimestampFilter : option bool; ho_useSenderFilter : option bool; ho_useUtf8Filter : option bool;
}.
Record HashtagCandidateMatch := { hm_key : jstr; hm_roomName : jstr; hm_message : jstr }.

Definition tryHashtagName (packetHex name : jstr) (opts : TryHashtagOptions) : option HashtagCandidateMatch :=
  match extractGroupTextFields packetHex with
  | None => None
  | Some fields =>
    let roomName := normalizeHashtagName name in
    let key := deriveHashtagKeyHex (js "#" ++ roomName) in
    if negb (deriveChannelHashByte key ≟ fields.(gt_channelHash))
       || negb (verifyMac fields.(gt_ciphertext) fields.(gt_cipherMac) key) then None
    else match decryptGroupTextMessage fields.(gt_ciphertext) fields.(gt_cipherMac) key with
    | None => None
    | Some d =>
      if (default true opts.(ho_useTimestampFilter)
            && negb (isTimestampValid d.(gx_timestamp) opts.(ho_validSeconds) opts.(ho_nowSec)))
         || (default true opts.(ho_useUtf8Filter) && negb (isValidUtf8 d.(gx_message)))
         || (default true opts.(ho_useSenderFilter) && negb (bool_decide (is_Some (truthy d.(gx_sender))))) then None
      else Some {| hm_key := key; hm_roomName := roomName;
                   hm_message := match truthy d.(gx_sender) with
                                 | Some sender => sender ++ js ": " ++ d.(gx_message)
                                 | None => d.(gx_message)
                                 end |}
    end
  end.

Fixpoint tryHashtagCandidates (packetHex : jstr) (names : list jstr) (opts : TryHashtagOptions)
    : option HashtagCandidateMatch :=
  match names with
  | [] => None
  | name :: names =>
    match tryHashtagName packetHex name opts with
    | Some found => Some found
    | None => tryHashtagCandidates packetHex names opts
    end
  end.
End crypto.

(** [/^[a-z0-9](?:[a-z0-9]|-(?!-))*[a-z0-9]$|^[a-z0-9]$/]: letters and digits, with hyphens
    between them, never two in a row. *)
Definition is_room_unit (c : Z) : bool := in_range 97 122 c || in_range 48 57 c.
Fixpoint room_tail (s : jstr) : bool :=
  match s with
  | [] => true
  | 45 :: s' => match s' with c :: s'' => is_room_unit c && room_tail s'' | [] => false end
  | c :: s' => is_room_unit c && room_tail s'
  end.
Definition isValidDictionaryName (name : jstr) : bool :=
  match name with [] => false | c :: s => is_room_unit c && room_tail s end.

Definition partition_step (acc : list jstr * list jstr) (name : jstr) : list jstr * list jstr :=
  let '(verbatim, dictionary) := acc in
  let normalized := normalizeHashtagName name in
  if isValidDictionaryName normalized then (verbatim, dictionary ++ [normalized])
  else (verbatim ++ [normalized], dictionary).
Definition partitionWordlistNames (names : list jstr) : list jstr * list jstr := foldl partition_step ([], []) names.

(** [merged] holds what [seen] holds; [lower] is [toLowerCase] on any text. *)
Definition merge_step (lower : jstr -> jstr) (merged : list jstr) (name : jstr) : list jstr :=
  let normalized := lower (trim (normalizeHashtagName name)) in
  if isValidDictionaryName normalized && negb (bool_decide (normalized ∈ merged)) then merged ++ [normalized] else merged.
Definition mergePriorityWordlist (lower : jstr -> jstr) (priority english : list jstr) : list jstr :=
  foldl (merge_step lower) [] (priority ++ english).
