(* ===== verification/GroupDataProps.v ===== *)
(** What [GroupData] promises: a packet encrypted by the firmware's layout comes back whole, nothing
    is read without a MAC that verifies, and packets that are not GroupData are refused. *)
From S2P Require Import Prelude JsString PacketWire Types Aes AesProps GroupData.

(** ** Hexadecimal *)

Lemma is_hex_cases c : is_hex c = true <-> in_range 48 57 c || in_range 97 102 c || in_range 65 70 c = true.
Proof.
  unfold is_hex, hex_val. rewrite bool_decide_eq_true.
  destruct (in_range 48 57 c), (in_range 97 102 c), (in_range 65 70 c); cbn; split; try done; by intros []; eauto.
Qed.

Lemma hex_not_space c : is_hex c = true -> is_space c = false.
Proof.
  rewrite is_hex_cases, !orb_true_iff, !in_range_true. intros Hc. unfold is_space.
  rewrite !orb_false_iff, !in_range_false, !Z.eqb_neq. lia.
Qed.

Lemma is_hex_upper_inv c : is_hex (unit_upper c) = true -> is_hex c = true.
Proof.
  rewrite !is_hex_cases, !orb_true_iff, !in_range_true. unfold unit_upper. destruct (in_range 97 122 c) eqn:E; ranges; lia.
Qed.

Lemma hex_byte_hex b : is_byte b -> forallb is_hex (hex_byte b) = true.
Proof. apply (byte_cases (fun b => forallb is_hex (hex_byte b) = true)). vm_compute. reflexivity. Qed.

Lemma hex_bytes_hex bs : bytes bs -> Forall (fun c => is_hex c = true) (hex_bytes bs).
Proof.
  intros Hb. induction Hb as [|b bs Hb _ IH]; [apply Forall_nil_2|]. rewrite hex_bytes_cons. apply Forall_app. split; [|done].
  pose proof (hex_byte_hex b Hb) as Hh. rewrite forallb_forall in Hh. apply Forall_forall. intros c Hc.
  by apply Hh, list_elem_of_In.
Qed.

Lemma upper_hex_units s bs : bytes bs -> toUpperCase s = hex_bytes bs -> Forall (fun c => is_hex c = true) s.
Proof.
  intros Hb E. pose proof (hex_bytes_hex bs Hb) as H. rewrite <- E in H. unfold toUpperCase in H.
  rewrite Forall_fmap in H. eapply Forall_impl; [exact H|]. intros c. apply is_hex_upper_inv.
Qed.

Lemma trimStart_hex s : Forall (fun c => is_hex c = true) s -> trimStart s = s.
Proof. intros [|c s' Hc _]; [done|]. cbn [trimStart]. by rewrite hex_not_space. Qed.
Lemma trim_hex s : Forall (fun c => is_hex c = true) s -> trim s = s.
Proof.
  intros Hs. unfold trim. rewrite (trimStart_hex s), trimStart_hex, reverse_involutive by (done || by apply Forall_reverse).
  done.
Qed.
Lemma drop_separators_hex s : Forall (fun c => is_hex c = true) s -> drop_separators s = s.
Proof.
  intros Hs. unfold drop_separators. induction Hs as [|c s Hc _ IH]; [done|]. rewrite filter_cons_True; [by rewrite IH|].
  rewrite hex_not_space by done. apply negb_true_iff, orb_false_iff. split; [done|]. apply Z.eqb_neq. by intros ->.
Qed.
Lemma drop_0x_i_hex s : Forall (fun c => is_hex c = true) s -> drop_0x_i s = s.
Proof.
  intros Hs. unfold drop_0x_i. destruct Hs as [|c s Hc [|d s' Hd _]]; [done|by repeat case_match|].
  destruct (decide (d = 120)) as [->|]; [done|]. destruct (decide (d = 88)) as [->|]; [done|].
  by repeat (case_match; simplify_eq/=).
Qed.

(** Two digits, in either case. *)
Definition hex_units : list Z := (Z.of_nat <$> seq 48 10) ++ (Z.of_nat <$> seq 65 6) ++ (Z.of_nat <$> seq 97 6).
Lemma hex_units_all c : is_hex c = true -> c ∈ hex_units.
Proof.
  rewrite is_hex_cases, !orb_true_iff, !in_range_true. intros Hc. unfold hex_units. rewrite !elem_of_app, !list_elem_of_fmap.
  destruct Hc as [[Hc|Hc]|Hc]; [left|right; right|right; left]; exists (Z.to_nat c); rewrite elem_of_seq; lia.
Qed.
Lemma parse_pair_case c d :
  is_hex c = true -> is_hex d = true -> parseInt16 [c; d] = parseInt16 (toUpperCase [c; d]).
Proof.
  intros Hc%hex_units_all Hd%hex_units_all.
  assert (H : forallb (fun c => forallb (fun d => bool_decide (parseInt16 [c; d] = parseInt16 (toUpperCase [c; d]))) hex_units) hex_units = true)
    by (vm_compute; reflexivity).
  rewrite forallb_forall in H. apply list_elem_of_In in Hc, Hd. apply H in Hc. rewrite forallb_forall in Hc.
  apply Hc in Hd. by apply bool_decide_eq_true in Hd.
Qed.

(** The pairs of digits of a text, parsed. *)
Lemma parse_pairs bs : forall s,
  bytes bs -> toUpperCase s = hex_bytes bs ->
  (fun i => default 0 (parseInt16 (slice s (i * 2) (i * 2 + 2))) mod 256) <$> (Z.of_nat <$> seq 0 (length bs)) = bs.
Proof.
  induction bs as [|b bs IH]; intros s Hb E; [done|].
  pose proof (upper_hex_units s (b :: bs) Hb E) as Hh. apply bytes_cons in Hb as [Hb Hbs]. rewrite hex_bytes_cons in E.
  destruct s as [|c [|d s]]; try done. change (hex_byte b) with [hex_digit_upper (b / 16); hex_digit_upper (b mod 16)] in E.
  cbn [toUpperCase fmap list_fmap app] in E. injection E as E1 E2 E3.
  apply Forall_cons in Hh as [Hc [Hd _]%Forall_cons]. cbn [length seq fmap list_fmap].
  f_equal.
  - rewrite slice_to by done. change (take (Z.to_nat (Z.of_nat 0 * 2 + 2)) (c :: d :: s)) with [c; d].
    rewrite parse_pair_case by done. cbn [toUpperCase fmap list_fmap]. rewrite E1, E2.
    change [hex_digit_upper (b / 16); hex_digit_upper (b mod 16)] with (hex_byte b).
    rewrite parseInt16_hex_byte by done. by apply byte_mod.
  - rewrite <- fmap_S_seq, <- !list_fmap_compose. rewrite <- (IH s Hbs E3) at 2. rewrite <- list_fmap_compose.
    apply list_fmap_ext. intros j i _. unfold compose.
    rewrite !slice_nonneg by lia. do 3 f_equal.
    replace (Z.to_nat (Z.of_nat (S i) * 2)) with (S (S (Z.to_nat (Z.of_nat i * 2)))) by lia. cbn [drop]. f_equal; lia.
Qed.

Lemma len_upper_hex s bs : toUpperCase s = hex_bytes bs -> len s = 2 * len bs.
Proof. intros E. rewrite <- (len_toUpperCase s), E. apply len_hex_bytes. Qed.

Lemma hexToBytes_hex s bs : bytes bs -> bs <> [] -> toUpperCase s = hex_bytes bs -> hexToBytes s = Some bs.
Proof.
  intros Hb Hn E. pose proof (upper_hex_units s bs Hb E) as Hs. unfold hexToBytes.
  rewrite trim_hex, drop_0x_i_hex, drop_separators_hex by done. cbv zeta. pose proof (len_upper_hex s bs E) as El.
  assert (Hp : 0 < len bs) by (destruct bs; [done|]; rewrite len_cons; pose proof (len_nonneg bs); lia).
  replace (len s =? 0) with false by (symmetry; apply Z.eqb_neq; lia).
  replace (len s mod 2 =? 0) with true by (symmetry; apply Z.eqb_eq; rewrite El, Z.mul_comm; apply Z_mod_mult).
  replace (forallb is_hex s) with true.
  2: { symmetry. apply forallb_forall. intros c Hc%list_elem_of_In. rewrite Forall_forall in Hs. by apply Hs. }
  cbn [negb orb]. f_equal. unfold range. replace (Z.to_nat (len s / 2 - 0)) with (length bs).
  - by apply parse_pairs.
  - rewrite El, Z.mul_comm, Z.div_mul by lia. unfold len. lia.
Qed.

Lemma byte_hex_upper b : is_byte b -> toUpperCase (padStart (toString_radix 16 b) 2 48) = hex_byte b.
Proof. apply (byte_cases (fun b => toUpperCase (padStart (toString_radix 16 b) 2 48) = hex_byte b)). vm_compute. reflexivity. Qed.

Lemma bytesToHex_upper bs : bytes bs -> toUpperCase (bytesToHex bs) = hex_bytes bs.
Proof.
  intros Hb. induction Hb as [|b bs Hb _ IH]; [done|]. rewrite hex_bytes_cons, <- IH, <- byte_hex_upper by done.
  apply toUpperCase_app.
Qed.

(** ** Packets *)

Definition wire_bytes (p : wire_packet) : list Z :=
  p.(wp_header) :: p.(wp_transport) ++ wire_path_byte p :: mjoin p.(wp_hops) ++ p.(wp_payload).

Lemma encode_packet_bytes p : encode_packet p = hex_bytes (wire_bytes p).
Proof. unfold encode_packet, wire_bytes. by rewrite hex_bytes_cons, hex_bytes_app, hex_bytes_cons, hex_bytes_app. Qed.

(** The type and the version of the header byte. *)
Definition payload_type (p : wire_packet) : Z := Z.land (Z.shiftr p.(wp_header) 2) 15.
Definition payload_version (p : wire_packet) : Z := Z.land (Z.shiftr p.(wp_header) 6) 3.

Section crypto.
Context `{ChannelCryptoLib}.

Section packet.
Context (p : wire_packet) (Hp : wire_ok p) (Hb : bytes (wire_bytes p)).

Lemma wire_payload_bytes : bytes p.(wp_payload).
Proof.
  unfold wire_bytes in Hb. apply bytes_cons in Hb as [_ Hb'].
  apply Forall_app in Hb' as [_ Hb']. apply Forall_cons in Hb' as [_ Hb']. by apply Forall_app in Hb' as [_ Hb'].
Qed.

Lemma wire_len : 2 + len p.(wp_payload) <= len (wire_bytes p).
Proof.
  unfold wire_bytes. rewrite len_cons, len_app, len_cons, len_app.
  pose proof (len_nonneg p.(wp_transport)). pose proof (len_nonneg (mjoin p.(wp_hops))). lia.
Qed.

Lemma wire_two : (len (wire_bytes p) <? 2) = false.
Proof. apply Z.ltb_ge. pose proof wire_len. pose proof (len_nonneg p.(wp_payload)). lia. Qed.

Lemma wire_extract : exists s, truthy (extractPacketPayloadHex (bytesToHex (wire_bytes p))) = Some s /\ hexToBytes s = Some p.(wp_payload).
Proof.
  pose proof wire_payload_bytes as Hpay. pose proof (ok_payload p Hp) as Hne. exists (hex_bytes p.(wp_payload)).
  rewrite (extract_encoded p) by (done || (rewrite bytesToHex_upper by done; symmetry; apply encode_packet_bytes)). split.
  - destruct (wp_payload p) as [|b bs]; [done|]. done.
  - apply hexToBytes_hex; [done..|]. by apply toUpperCase_hex_bytes.
Qed.

Lemma wire_non_group : payload_type p <> 6 -> isNonGroupDataMeshPacket (wire_bytes p) = true.
Proof.
  intros Ht. unfold isNonGroupDataMeshPacket. rewrite wire_two. cbv zeta. change (at_ (wire_bytes p) 0) with p.(wp_header).
  fold (payload_type p). rewrite (proj2 (Z.eqb_neq (payload_type p) GROUP_DATA_PAYLOAD_TYPE) Ht).
  destruct wire_extract as (s & -> & ->). apply Z.leb_le. pose proof wire_len. lia.
Qed.

Lemma wire_group : payload_type p = 6 -> extractGroupDataPayload (wire_bytes p) =
  if negb (payload_version p =? 0) then ExtractSkip
  else if (len p.(wp_payload) <? 3) || negb ((len p.(wp_payload) - 3) mod 16 =? 0) then ExtractNone
  else Extracted p.(wp_payload).
Proof.
  intros Ht. unfold extractGroupDataPayload. rewrite wire_two. cbv zeta. change (at_ (wire_bytes p) 0) with p.(wp_header).
  fold (payload_type p) (payload_version p). rewrite Ht. cbn [negb Z.eqb GROUP_DATA_PAYLOAD_TYPE Pos.eqb].
  by destruct wire_extract as (s & -> & ->).
Qed.

Lemma wire_other : payload_type p <> 6 -> extractGroupDataPayload (wire_bytes p) = ExtractNone.
Proof.
  intros Ht. unfold extractGroupDataPayload. rewrite wire_two. cbv zeta. change (at_ (wire_bytes p) 0) with p.(wp_header).
  fold (payload_type p). by rewrite (proj2 (Z.eqb_neq (payload_type p) GROUP_DATA_PAYLOAD_TYPE) Ht).
Qed.

Lemma wire_as_hex s : toUpperCase s = encode_packet p -> hexToBytes s = Some (wire_bytes p).
Proof. rewrite encode_packet_bytes. intros E. by apply hexToBytes_hex. Qed.
End packet.

(** A packet of the mesh that is not GroupData, or a GroupData packet of a later version, is
    refused whatever the keys: its bytes are never taken for an envelope. *)
Theorem parseGroupData_refuses (p : wire_packet) s keys :
  wire_ok p -> bytes (wire_bytes p) -> toUpperCase s = encode_packet p ->
  payload_type p <> 6 \/ payload_version p <> 0 ->
  parseGroupData (AsHex s) keys = None.
Proof.
  intros Hp Hb Hs Hrefuse. unfold parseGroupData. cbn [asBytes]. rewrite (wire_as_hex p Hb s Hs).
  destruct (len keys =? 0); [done|]. destruct (decide (payload_type p = 6)) as [Ht|Ht].
  - destruct Hrefuse as [|Hv]; [done|]. rewrite wire_group by done.
    by rewrite (proj2 (Z.eqb_neq (payload_version p) 0) Hv).
  - rewrite wire_other, wire_non_group by done. done.
Qed.

(** ** What the sender encrypts *)

(** The type, the length and the data, then padding. *)
Definition group_plaintext (dataType : Z) (data pad : list Z) : list Z :=
  [dataType mod 256; dataType / 256; len data] ++ data ++ pad.
(** The channel's hash byte, the MAC and the encrypted text. *)
Definition group_payload (hash : Z) (mac : list Z) (n : nat) (keyBytes plaintext : list Z) : list Z :=
  hash :: mac ++ ecb_encrypt n keyBytes plaintext.

Lemma parse_plaintext dataType data pad :
  0 <= dataType < 65536 ->
  parseGroupDataPlaintext (group_plaintext dataType data pad)
  = Some {| gd_data_type := dataType; gd_data_len := len data; gd_data_hex := bytesToHex data; gd_data_text := text_decode data |}.
Proof.
  intros Ht. unfold parseGroupDataPlaintext, group_plaintext. cbn [app].
  change (at_ (?a :: ?l) 0) with a. change (at_ (?a :: ?b :: ?l) 1) with b. change (at_ (?a :: ?b :: ?c :: ?l) 2) with c. cbv zeta.
  rewrite !len_cons, len_app. pose proof (len_nonneg data). pose proof (len_nonneg pad).
  replace (len data + len pad + 1 + 1 + 1 <? 3) with false by (symmetry; apply Z.ltb_ge; lia).
  replace (len data + len pad + 1 + 1 + 1 <? 3 + len data) with false by (symmetry; apply Z.ltb_ge; lia).
  rewrite (slice_app_mid [dataType mod 256; dataType / 256; len data] data pad) by (rewrite ?len_cons, ?len_nil; lia).
  do 2 f_equal. unfold js_shl. assert (Hd : 0 <= dataType / 256 < 256) by (Z.div_mod_to_equations; lia).
  rewrite (wrap32_byte (dataType / 256)), Z.shiftl_mul_pow2, wrap32_small by (done || (change (2 ^ 8) with 256; lia)).
  rewrite Z.lor_comm, lor_disjoint by (change (2 ^ 8) with 256; lia || (apply Z.mod_pos_bound; lia)).
  change (2 ^ 8) with 256. pose proof (Z.div_mod dataType 256). lia.
Qed.

Lemma try_keys_finds hashHex macHex ciphertextHex ciphertext key kn keyBytes d keys :
  key ∈ keys -> normalizeChannelKey key = Some kn -> getChannelHash kn = hashHex ->
  verifyMac ciphertextHex macHex kn = true -> hexToBytes kn = Some keyBytes ->
  parseGroupDataPlaintext (aes128EcbDecrypt keyBytes ciphertext) = Some d ->
  (forall k kn', k ∈ keys -> normalizeChannelKey k = Some kn' -> kn' <> kn -> verifyMac ciphertextHex macHex kn' = false) ->
  try_keys hashHex macHex ciphertextHex ciphertext keys = Some d.
Proof.
  intros Hin Hk Hh Hm Hbytes Hd. induction keys as [|k keys IH]; intros Hothers; [by apply not_elem_of_nil in Hin|].
  cbn [try_keys]. cbv zeta. destruct (decide (normalizeChannelKey k = Some kn)) as [->|Hne].
  - rewrite (bool_decide_eq_true_2 _ Hh), Hm. cbn [negb]. by rewrite Hbytes, Hd.
  - assert (Hnext : try_keys hashHex macHex ciphertextHex ciphertext keys = Some d).
    { apply IH; [apply elem_of_cons in Hin as [->|]; [congruence|done]|]. intros k' kn' Hk'. apply Hothers. by right. }
    rewrite Hnext. destruct (normalizeChannelKey k) as [kn'|] eqn:Ek; [|done].
    rewrite (Hothers k kn') by (done || left || congruence). cbn [negb]. by destruct (negb _).
Qed.

(** The key's bytes, written as the key. *)
Lemma key_bytes keyBytes : block keyBytes -> hexToBytes (bytesToHex keyBytes) = Some keyBytes.
Proof.
  intros [Hl Hb]. apply hexToBytes_hex; [done|by intros ->|]. by apply bytesToHex_upper.
Qed.

(** C9: a GroupData packet comes back whole. Of a plaintext (a type, at most 255 bytes of data,
    padding to whole blocks) encrypted with a channel key by AES-128, put behind the key's hash and
    its MAC and carried by a packet of any route, the client reads the type and the data, with one of
    its keys being that key, in any case of the hexadecimal letters, if the MAC verifies under
    that key and under no other of them. *)
Theorem group_data_roundtrip (p : wire_packet) s keys key keyBytes hash mac n dataType data pad :
  wire_ok p -> bytes (wire_bytes p) -> payload_type p = 6 -> payload_version p = 0 -> toUpperCase s = encode_packet p ->
  p.(wp_payload) = group_payload hash mac n keyBytes (group_plaintext dataType data pad) ->
  len mac = 2 -> 0 <= dataType < 65536 -> len data < 256 -> bytes data -> bytes pad ->
  length (group_plaintext dataType data pad) = (16 * n)%nat ->
  block keyBytes -> key ∈ keys -> normalizeChannelKey key = Some (bytesToHex keyBytes) ->
  let ciphertext := ecb_encrypt n keyBytes (group_plaintext dataType data pad) in
  getChannelHash (bytesToHex keyBytes) = bytesToHex [hash] ->
  verifyMac (bytesToHex ciphertext) (bytesToHex mac) (bytesToHex keyBytes) = true ->
  (forall k kn, k ∈ keys -> normalizeChannelKey k = Some kn -> kn <> bytesToHex keyBytes ->
     verifyMac (bytesToHex ciphertext) (bytesToHex mac) kn = false) ->
  parseGroupData (AsHex s) keys
  = Some {| gd_data_type := dataType; gd_data_len := len data; gd_data_hex := bytesToHex data; gd_data_text := text_decode data |}.
Proof.
  intros Hp Hb Ht Hv Hs Hpay Hmac Hdt Hdl Hdata Hpad Hl Hkey Hin Hnorm ciphertext Hhash Hver Hothers.
  assert (Hplain : bytes (group_plaintext dataType data pad)).
  { unfold group_plaintext. cbn [app]. rewrite !bytes_cons. pose proof (len_nonneg data). unfold is_byte.
    split_and!; try lia; try (Z.div_mod_to_equations; lia). by apply Forall_app. }
  destruct (ecb_encrypt_bytes keyBytes n _ Hkey Hl Hplain) as [El _]. fold ciphertext in El.
  assert (Ec : len ciphertext = 16 * Z.of_nat n) by (unfold len; rewrite El, Hl; lia).
  assert (Hn : 0 < Z.of_nat n).
  { pose proof (len_nonneg data). pose proof (len_nonneg pad). unfold group_plaintext in Hl.
    rewrite !length_app in Hl. cbn in Hl. lia. }
  assert (Elen : len p.(wp_payload) = 3 + 16 * Z.of_nat n).
  { rewrite Hpay. unfold group_payload. fold ciphertext. rewrite len_cons, len_app. lia. }
  unfold parseGroupData. cbn [asBytes]. rewrite (wire_as_hex p Hb s Hs).
  replace (len keys =? 0) with false.
  2: { symmetry. apply Z.eqb_neq. destruct keys; [by apply not_elem_of_nil in Hin|]. rewrite len_cons. pose proof (len_nonneg keys). lia. }
  rewrite wire_group by done. rewrite Hv, Elen. cbn [negb Z.eqb].
  replace (3 + 16 * Z.of_nat n <? 3) with false by (symmetry; apply Z.ltb_ge; lia).
  replace ((3 + 16 * Z.of_nat n - 3) mod 16 =? 0) with true
    by (symmetry; apply Z.eqb_eq; replace (3 + 16 * Z.of_nat n - 3) with (Z.of_nat n * 16) by lia; apply Z_mod_mult).
  cbn [orb negb]. unfold decryptEnvelope. rewrite Elen.
  replace (3 + 16 * Z.of_nat n <? 3) with false by (symmetry; apply Z.ltb_ge; lia).
  rewrite Hpay. unfold group_payload. fold ciphertext. cbv zeta.
  change (hash :: mac ++ ciphertext) with ([hash] ++ mac ++ ciphertext).
  rewrite (slice_app_mid [hash] mac ciphertext) by (rewrite ?Hmac; done).
  rewrite (app_assoc [hash] mac), slice_from_app by (rewrite len_app, Hmac; done).
  rewrite Ec. replace (16 * Z.of_nat n =? 0) with false by (symmetry; apply Z.eqb_neq; lia).
  replace (16 * Z.of_nat n mod 16 =? 0) with true by (symmetry; apply Z.eqb_eq; rewrite Z.mul_comm; apply Z_mod_mult).
  cbn [orb negb]. change (at_ (([hash] ++ mac) ++ ciphertext) 0) with hash.
  eapply try_keys_finds; [exact Hin|exact Hnorm| |exact Hver|by apply key_bytes| |exact Hothers].
  - rewrite Hhash. unfold bytesToHex. cbn [fmap list_fmap mjoin list_join]. apply app_nil_r.
  - unfold ciphertext. rewrite ecb_decrypts by done. by apply parse_plaintext.
Qed.

(** ** What is read is authentic *)

Lemma try_keys_authentic hashHex macHex ciphertextHex ciphertext keys d :
  try_keys hashHex macHex ciphertextHex ciphertext keys = Some d ->
  exists key kn keyBytes, key ∈ keys /\ normalizeChannelKey key = Some kn /\ hexToBytes kn = Some keyBytes
    /\ getChannelHash kn = hashHex /\ verifyMac ciphertextHex macHex kn = true
    /\ parseGroupDataPlaintext (aes128EcbDecrypt keyBytes ciphertext) = Some d.
Proof.
  induction keys as [|k keys IH]; cbn [try_keys]; [done|]. cbv zeta.
  assert (Hnext : try_keys hashHex macHex ciphertextHex ciphertext keys = Some d ->
    exists key kn keyBytes, key ∈ k :: keys /\ normalizeChannelKey key = Some kn /\ hexToBytes kn = Some keyBytes
      /\ getChannelHash kn = hashHex /\ verifyMac ciphertextHex macHex kn = true
      /\ parseGroupDataPlaintext (aes128EcbDecrypt keyBytes ciphertext) = Some d).
  { intros (key & kn & kb & Hin & Hrest)%IH. exists key, kn, kb. split; [by right|done]. }
  destruct (normalizeChannelKey k) as [kn|] eqn:Ek; [|done].
  destruct (negb (getChannelHash kn ≟ hashHex)) eqn:Eh; [done|].
  destruct (negb (verifyMac _ _ kn)) eqn:Ev; [done|].
  destruct (hexToBytes kn) as [kb|] eqn:Eb; [|done].
  destruct (parseGroupDataPlaintext _) as [d'|] eqn:Ed; [|done]. intros [= ->]. to_prop.
  exists k, kn, kb. split_and!; try done. left.
Qed.

(** C28: nothing is read that does not verify: data that the client shows was decrypted with one of
    its keys, a key whose hash is the hash byte in front of the encrypted text and under which the
    MAC of that text verifies. *)
Theorem group_data_authentic input keys d :
  parseGroupData input keys = Some d ->
  exists payload key kn keyBytes,
    key ∈ keys /\ normalizeChannelKey key = Some kn /\ hexToBytes kn = Some keyBytes
    /\ getChannelHash kn = padStart (toString_radix 16 (at_ payload 0)) 2 48
    /\ verifyMac (bytesToHex (slice_from payload 3)) (bytesToHex (slice payload 1 3)) kn = true
    /\ len (slice_from payload 3) mod 16 = 0
    /\ parseGroupDataPlaintext (aes128EcbDecrypt keyBytes (slice_from payload 3)) = Some d.
Proof.
  unfold parseGroupData. destruct (asBytes input) as [bs|]; [|done]. destruct (len keys =? 0); [done|].
  assert (Henv : forall payload, decryptEnvelope payload keys = Some d -> exists payload key kn keyBytes,
    key ∈ keys /\ normalizeChannelKey key = Some kn /\ hexToBytes kn = Some keyBytes
    /\ getChannelHash kn = padStart (toString_radix 16 (at_ payload 0)) 2 48
    /\ verifyMac (bytesToHex (slice_from payload 3)) (bytesToHex (slice payload 1 3)) kn = true
    /\ len (slice_from payload 3) mod 16 = 0
    /\ parseGroupDataPlaintext (aes128EcbDecrypt keyBytes (slice_from payload 3)) = Some d).
  { intros payload. unfold decryptEnvelope. destruct (len payload <? 3); [done|]. cbv zeta.
    destruct (_ || _) eqn:Em; [done|]. intros Hk. to_prop.
    destruct (try_keys_authentic _ _ _ _ _ _ Hk) as (key & kn & kb & ? & ? & ? & ? & ? & ?).
    exists payload, key, kn, kb. by split_and!. }
  destruct (extractGroupDataPayload bs); [apply Henv|done|]. destruct (isNonGroupDataMeshPacket bs); [done|apply Henv].
Qed.
End crypto.

(** ** Witnesses *)

(** One key of the channel, under which every MAC verifies. *)
Definition a_key : list Z := replicate 16 7.
#[local] Instance a_crypto : ChannelCryptoLib := {|
  getChannelHash := fun _ => js "2a";
  verifyMac := fun _ _ k => k ≟ bytesToHex a_key;
  deriveKeyFromRoomName := fun _ => bytesToHex a_key;
  decryptGroupTextMessage := fun _ _ _ => None;
  isTimestampValid := fun _ _ _ => true;
  isValidUtf8 := fun _ => true;
|}.
Definition a_plaintext : list Z := group_plaintext 258 [104; 105] (replicate 11 0).
Definition a_packet : wire_packet :=
  {| wp_header := 25; wp_transport := []; wp_hash_mode := 0; wp_hops := [[171]];
     wp_payload := group_payload 42 [1; 2] 1 a_key a_plaintext |}.

Lemma a_packet_ok : wire_ok a_packet.
Proof. constructor; try done. by constructor. Qed.
Lemma a_packet_bytes : bytes (wire_bytes a_packet).
Proof. apply bytes_check. vm_compute. reflexivity. Qed.

Lemma group_data_roundtrip_witness :
  parseGroupData (AsHex (encode_packet a_packet)) [js "not a key"; bytesToHex a_key]
  = Some {| gd_data_type := 258; gd_data_len := 2; gd_data_hex := js "6869"; gd_data_text := Some (js "hi") |}.
Proof.
  refine (eq_trans (group_data_roundtrip a_packet (encode_packet a_packet) [js "not a key"; bytesToHex a_key]
    (bytesToHex a_key) a_key 42 [1; 2] 1 258 [104; 105] (replicate 11 0) a_packet_ok a_packet_bytes
    eq_refl eq_refl _ eq_refl eq_refl _ eq_refl _ _ eq_refl _ _ _ _ _ _) _).
  - vm_compute. reflexivity.
  - lia.
  - by apply bytes_check.
  - by apply bytes_check.
  - by apply block_check.
  - right. left.
  - vm_compute. reflexivity.
  - vm_compute. reflexivity.
  - cbn. by apply bool_decide_eq_true_2.
  - intros k kn _ _ Hne. cbn. by apply bool_decide_eq_false_2.
  - vm_compute. reflexivity.
Defined.

(** A text message of the mesh, type 2. *)
Lemma parseGroupData_refuses_witness : parseGroupData (AsHex (encode_packet example_wire)) [bytesToHex a_key] = None.
Proof.
  apply (parseGroupData_refuses example_wire).
  - apply example_wire_ok.
  - apply bytes_check. reflexivity.
  - vm_compute. reflexivity.
  - left. vm_compute. done.
Defined.

Lemma group_data_authentic_witness : exists key, key ∈ [bytesToHex a_key] /\ normalizeChannelKey key = Some (bytesToHex a_key).
Proof.
  destruct (group_data_authentic (AsHex (encode_packet a_packet)) [bytesToHex a_key]
    {| gd_data_type := 258; gd_data_len := 2; gd_data_hex := js "6869"; gd_data_text := Some (js "hi") |})
    as (payload & key & kn & kb & Hin & Hn & _ & _ & Hv & _).
  - vm_compute. reflexivity.
  - exists key. split; [done|]. rewrite Hn. f_equal. by apply bool_decide_eq_true in Hv.
Defined.

(** An envelope on its own is refused when its bytes also read as a packet: the hash byte is taken
    for a header, the first byte of the MAC for the length of a path. *)
Example envelope_refused :
  let envelope := group_payload 42 [1; 2] 1 a_key a_plaintext in
  is_Some (decryptEnvelope envelope [bytesToHex a_key]) /\ parseGroupData (AsBytes envelope) [bytesToHex a_key] = None.
Proof. vm_compute. eauto. Qed.
