(* ===== verification/HashtagProps.v ===== *)
(** The word lists the client tries on hashtag channels, and what a match is. *)
From S2P Require Import Prelude JsString PacketWire Types Aes GroupData.

(** ** Room names *)

Definition room_word (w : jstr) : Prop := w <> [] /\ Forall (fun c => is_room_unit c = true) w.

Lemma room_unit_not_hyphen c : is_room_unit c = true -> c <> 45.
Proof. unfold is_room_unit. intros H ->. done. Qed.

Lemma room_tail_unit c s : is_room_unit c = true -> room_tail (c :: s) = room_tail s.
Proof.
  intros Hc. pose proof (room_unit_not_hyphen c Hc) as Hne. cbn [room_tail]. rewrite Hc.
  destruct c as [|c|c]; try done. by repeat (destruct c as [c|c|]; try done).
Qed.
Lemma room_tail_hyphen s : room_tail (45 :: s) = match s with c :: s' => is_room_unit c && room_tail s' | [] => false end.
Proof. reflexivity. Qed.
Lemma room_tail_cases c s : room_tail (c :: s) = true -> c = 45 \/ is_room_unit c = true.
Proof.
  destruct (decide (c = 45)) as [->|Hne]; [by left|]. intros H. right. revert H. cbn [room_tail].
  destruct c as [|c|c]; try by intros [? _]%andb_true_iff.
  repeat (destruct c as [c|c|]; try by intros [? _]%andb_true_iff). done.
Qed.

(** A tail is what is left of a word, then words behind hyphens. *)
Lemma room_tail_words s :
  room_tail s = true <->
  exists w ws, Forall (fun c => is_room_unit c = true) w /\ Forall room_word ws
    /\ s = w ++ mjoin ((fun v => 45 :: v) <$> ws).
Proof.
  split.
  - remember (length s) as n eqn:En. revert s En. induction n as [n IH] using lt_wf_ind. intros s -> Hs.
    destruct s as [|c s]; [by exists [], []|]. destruct (room_tail_cases c s Hs) as [->|Hc].
    + rewrite room_tail_hyphen in Hs. destruct s as [|d s]; [done|]. apply andb_true_iff in Hs as [Hd Hs].
      destruct (IH (length s)) with s as (w & ws & Hw & Hws & ->); [cbn; lia|done|done|].
      exists [], ((d :: w) :: ws). split; [done|]. split; [|done]. apply Forall_cons. split; [|done].
      split; [done|]. by apply Forall_cons.
    + rewrite room_tail_unit in Hs by done.
      destruct (IH (length s)) with s as (w & ws & Hw & Hws & ->); [cbn; lia|done|done|].
      exists (c :: w), ws. split; [by apply Forall_cons|done].
  - intros (w & ws & Hw & Hws & ->). induction Hw as [|c w Hc _ IHw].
    + cbn [app]. induction Hws as [|v ws [Hne Hv] _ IH]; [done|]. cbn [fmap list_fmap mjoin list_join app].
      rewrite room_tail_hyphen. destruct Hv as [|d v Hd Hv]; [done|]. cbn [app]. rewrite Hd. cbn [andb].
      clear Hne. induction Hv as [|e v He _ IHv]; [done|]. cbn [app]. by rewrite room_tail_unit.
    + cbn [app]. by rewrite room_tail_unit.
Qed.

Lemma join_hyphen w ws : join [45] (w :: ws) = w ++ mjoin ((fun v => 45 :: v) <$> ws).
Proof.
  revert w. induction ws as [|v ws IH]; intros w; [by rewrite app_nil_r|].
  change (join [45] (w :: v :: ws)) with (w ++ [45] ++ join [45] (v :: ws)). by rewrite IH.
Qed.

(** The names of dictionary rooms are words of letters and digits joined by single hyphens. *)
Theorem dictionary_names name :
  isValidDictionaryName name = true <-> exists w ws, Forall room_word (w :: ws) /\ name = join [45] (w :: ws).
Proof.
  unfold isValidDictionaryName. split.
  - destruct name as [|c s]; [done|]. intros [Hc (w & ws & Hw & Hws & ->)%room_tail_words]%andb_true_iff.
    exists (c :: w), ws. rewrite join_hyphen. split; [|done]. apply Forall_cons. split; [|done]. split; [done|].
    by apply Forall_cons.
  - intros (w & ws & [[Hne Hw] Hws]%Forall_cons & ->). rewrite join_hyphen. destruct Hw as [|c w Hc Hw]; [done|].
    cbn [app]. apply andb_true_iff. split; [done|]. apply room_tail_words. by exists w, ws.
Qed.

(** ** Word lists *)

Section lists.
Context (lower : jstr -> jstr).

Definition candidate (name : jstr) : jstr := lower (trim (normalizeHashtagName name)).

Lemma merge_fold names : forall merged,
  NoDup merged ->
  NoDup (foldl (merge_step lower) merged names)
  /\ merged `prefix_of` foldl (merge_step lower) merged names
  /\ forall n, n ∈ foldl (merge_step lower) merged names <->
       n ∈ merged \/ (isValidDictionaryName n = true /\ exists name, name ∈ names /\ n = candidate name).
Proof.
  induction names as [|name names IH]; intros merged Hnd; cbn [foldl].
  - split; [done|]. split; [done|]. intros n. split; [by left|]. intros [?|(_ & ? & ?%not_elem_of_nil & _)]; done.
  - set (next := merge_step lower merged name).
    assert (Hnext : NoDup next /\ merged `prefix_of` next
      /\ forall n, n ∈ next <-> n ∈ merged \/ (isValidDictionaryName n = true /\ n = candidate name)).
    { unfold next, merge_step. fold (candidate name). cbv zeta. destruct (isValidDictionaryName (candidate name)) eqn:Ev; cbn [andb].
      - destruct (bool_decide_reflect (candidate name ∈ merged)) as [Hin|Hni]; cbn [negb].
        + split_and!; try done. intros n. split; [by left|]. by intros [?|[_ ->]].
        + split; [by apply NoDup_snoc|]. split; [by apply prefix_app_r|]. intros n.
          rewrite elem_of_app, list_elem_of_singleton. split; intros [?|?]; try (by left); right; [by subst | tauto].
      - split_and!; try done. intros n. split; [by left|]. intros [?|[? ->]]; [done|congruence]. }
    destruct Hnext as (H1 & H2 & H3). destruct (IH next H1) as (I1 & I2 & I3).
    split; [done|]. split; [by etrans|]. intros n. rewrite I3, H3. split.
    + intros [[?|[? ->]]|(Hv & x & Hx & ->)]; [by left| |].
      * right. split; [done|]. exists name. by split; [left|].
      * right. split; [done|]. exists x. by split; [right|].
    + intros [?|(Hv & x & [->|Hx]%elem_of_cons & ->)]; [by left; left|by left; right|].
      right. split; [done|]. by exists x.
Qed.

(** The merged list holds each valid candidate of either list once, those of the priority list first. *)
Theorem merged_wordlist priority english :
  NoDup (mergePriorityWordlist lower priority english)
  /\ mergePriorityWordlist lower priority [] `prefix_of` mergePriorityWordlist lower priority english
  /\ forall n, n ∈ mergePriorityWordlist lower priority english <->
       isValidDictionaryName n = true /\ exists name, name ∈ priority ++ english /\ n = candidate name.
Proof.
  unfold mergePriorityWordlist. destruct (merge_fold (priority ++ english) [] (NoDup_nil_2)) as (H1 & _ & H3).
  split; [done|]. split.
  - rewrite app_nil_r, foldl_app. apply merge_fold. by apply (merge_fold priority []), NoDup_nil_2.
  - intros n. rewrite H3. split; [|by right]. by intros [?%not_elem_of_nil|?].
Qed.
End lists.

(** Every name goes to one of the two lists, in order, without its [#]. *)
Theorem partitioned_wordlist names :
  let '(verbatim, dictionary) := partitionWordlistNames names in
  verbatim = filter (fun n => isValidDictionaryName n = false) (normalizeHashtagName <$> names)
  /\ dictionary = filter (fun n => isValidDictionaryName n = true) (normalizeHashtagName <$> names).
Proof.
  unfold partitionWordlistNames. induction names as [|name names IH] using rev_ind; [done|].
  rewrite foldl_app. cbn [foldl]. destruct (foldl partition_step ([], []) names) as [v d]. destruct IH as [-> ->].
  rewrite fmap_app, !filter_app. unfold partition_step. cbv zeta. cbn [fmap list_fmap]. rewrite !filter_cons, !filter_nil.
  destruct (isValidDictionaryName (normalizeHashtagName name)) eqn:E; cbn; by rewrite ?app_nil_r.
Qed.

(** ** Matches *)

Section crypto.
Context `{ChannelCryptoLib}.

(** A match is of the first name that matches; its key hashes to the packet's hash byte and the MAC
    of the packet's text verifies under it. *)
Theorem hashtag_match packetHex names opts m :
  tryHashtagCandidates packetHex names opts = Some m ->
  exists before name after fields,
    names = before ++ name :: after
    /\ Forall (fun n => tryHashtagName packetHex n opts = None) before
    /\ extractGroupTextFields packetHex = Some fields
    /\ m.(hm_roomName) = normalizeHashtagName name
    /\ m.(hm_key) = deriveHashtagKeyHex (js "#" ++ normalizeHashtagName name)
    /\ deriveChannelHashByte m.(hm_key) = fields.(gt_channelHash)
    /\ verifyMac fields.(gt_ciphertext) fields.(gt_cipherMac) m.(hm_key) = true.
Proof.
  induction names as [|name names IH]; cbn [tryHashtagCandidates]; [done|].
  destruct (tryHashtagName packetHex name opts) as [m'|] eqn:En.
  - intros [= ->]. unfold tryHashtagName in En. destruct (extractGroupTextFields packetHex) as [fields|] eqn:Ef; [|done].
    cbv zeta in En. destruct (_ || _) eqn:Eg in En; [done|]. destruct (decryptGroupTextMessage _ _ _) as [d|]; [|done].
    destruct (_ || _ || _) in En; [done|]. injection En as <-. to_prop.
    exists [], name, names, fields. split_and!; done.
  - intros Hm. destruct (IH Hm) as (before & n & after & fields & -> & Hb & Hrest).
    exists (name :: before), n, after, fields. split; [done|]. split; [by apply Forall_cons|done].
Qed.
End crypto.
