(* ===== verification/OssUpdates.v ===== *)
(** The updates of the server, as the client follows them: [hooks/useOssUpdates.ts] and
    [utils/updateHold.ts].

    One life of the hook, from its mount to its unmount. Its state and refs are a record, with
    the due times of its timers; requests are put in flight by the event that sends them and
    answered by a later one, in any order. A timer that fires before its due time is ignored.
    [status] and [statusRef] are one field: [persistStatus] is the only writer of both. A reply
    has the type [api.ts] declares, except where the code looks; the [typeof api.f] tests, which
    [api.ts] passes, are left out. [i18n.t] is the parameter [t]. *)
From S2P Require Import Prelude JsString JsCollections JsNum Json ApiErrors.

(** ** Types *)

Inductive OssUpdateJobState := JobIdle | JobApplying | JobSucceeded | JobFailed.
#[export] Instance OssUpdateJobState_eq_dec : EqDecision OssUpdateJobState.
Proof. solve_decision. Defined.
Inductive OssUpdateJobPhase := PhPreparing | PhDownloading | PhInstalling | PhRestarting | PhDone.
#[export] Instance OssUpdateJobPhase_eq_dec : EqDecision OssUpdateJobPhase.
Proof. solve_decision. Defined.

Record OssUpdateJob := {
  uj_state : OssUpdateJobState;
  uj_phase : option OssUpdateJobPhase;
  uj_percent : option num;
  uj_error : option jstr;
}.

(** What the hook reads of a status; a catalogue payload may leave [job] out. *)
Record OssUpdateStatus := {
  us_current : jstr;
  us_latest : option jstr;
  us_update_available : bool;
  us_apply_supported : bool;
  us_auto_update : bool;
  us_auto_update_held : option bool;
  us_job : option OssUpdateJob;
}.

Record OssUpdateHoldReason := { hr_fr : jstr; hr_en : jstr }.

Definition OSS_UPDATE_POLL_MS : Z := 5 * 60 * 1000.
Definition OSS_UPDATE_JOB_POLL_MS : Z := 1500.
Definition OSS_UPDATE_RESTART_TIMEOUT_MS : Z := 5 * 60 * 1000.
Definition OSS_UPDATE_SUCCEEDED_STALE_MS : Z := 15 * 1000.
Definition OSS_UPDATE_RELOAD_FLASH_MS : Z := 500.

Definition PHASE_PERCENT (phase : OssUpdateJobPhase) : num :=
  num_of_Z match phase with
           | PhPreparing => 10 | PhDownloading => 50 | PhInstalling => 80 | PhRestarting => 90 | PhDone => 100
           end.

(** ** Versions and progress *)

Definition normalizeUpdateVersion (value : option jstr) : jstr :=
  match truthy value with
  | None => []
  | Some value =>
    let text := trim value in
    match text with
    | c :: d :: _ => if ((c =? 118) || (c =? 86)) && is_digit d then slice_from text 1 else text
    | _ => text
    end
  end.

Definition versionsMatch (left right : option jstr) : bool :=
  let a := normalizeUpdateVersion left in
  let b := normalizeUpdateVersion right in
  (0 <? len a) && (a ≟ b).

Definition jobProgressPercent (job : option OssUpdateJob) (fallbackPhase : option OssUpdateJobPhase) : num :=
  match job ≫= uj_percent with
  | Some percent =>
    if num_isFinite percent then num_max (num_of_Z 0) (num_min (num_of_Z 100) percent)
    else match (job ≫= uj_phase) ∪ fallbackPhase with Some p => PHASE_PERCENT p | None => num_of_Z 0 end
  | None => match (job ≫= uj_phase) ∪ fallbackPhase with Some p => PHASE_PERCENT p | None => num_of_Z 0 end
  end.

(** ** Updates held back ([updateHold.ts]) *)

Definition updateHoldNeedsAttention (status : option OssUpdateStatus) : bool :=
  match status with
  | None => false
  | Some s =>
    s.(us_update_available) && s.(us_auto_update) && (s.(us_auto_update_held) ≟ Some true)
    && s.(us_apply_supported) && bool_decide (is_Some (truthy s.(us_latest)))
  end.

Definition reason_text (reason : option OssUpdateHoldReason) (locale : jstr) : option jstr :=
  r ← reason;
  if locale ≟ js "fr" then Some r.(hr_fr) else if locale ≟ js "en" then Some r.(hr_en) else None.

Definition resolveHoldReason (reason : option OssUpdateHoldReason) (language : option jstr) (fallback : jstr)
    : jstr :=
  let locale := default [] (head (split_char 45 (default [] language))) in
  let localized := reason_text reason locale in
  match List.find (fun text => match text with Some s => 0 <? len (trim s) | None => false end)
          [localized; hr_en <$> reason] with
  | Some (Some text) => text
  | _ => fallback
  end.

(** The version whose banner was dismissed, in [localStorage]. *)
Record HoldStorage := { hs_readable : bool; hs_writable : bool; hs_dismissed : option jstr }.
#[export] Instance HoldStorage_eta : Eta HoldStorage :=
  fun s => Build_HoldStorage s.(hs_readable) s.(hs_writable) s.(hs_dismissed).
Definition readDismissedHold (s : HoldStorage) : option jstr := if s.(hs_readable) then s.(hs_dismissed) else None.
Definition writeDismissedHold (latest : jstr) (s : HoldStorage) : HoldStorage :=
  if s.(hs_writable) then s <| hs_dismissed := Some latest |> else s.

(** ** The hook *)

(** The two keys in [sessionStorage], and whether the browser lets it be read and written. *)
Record UpdateStorage := {
  st_readable : bool;
  st_writable : bool;
  st_target : option jstr;
  st_toastSeen : option jstr;
}.
#[export] Instance UpdateStorage_eta : Eta UpdateStorage :=
  fun s => Build_UpdateStorage s.(st_readable) s.(st_writable) s.(st_target) s.(st_toastSeen).

Definition readUpdateTarget (s : UpdateStorage) : option jstr := if s.(st_readable) then s.(st_target) else None.
Definition writeUpdateTarget (latest : jstr) (s : UpdateStorage) : UpdateStorage :=
  if s.(st_writable) then s <| st_target := Some latest |> else s.
Definition clearUpdateTarget (s : UpdateStorage) : UpdateStorage :=
  if s.(st_readable) then s <| st_target := None |> else s.
Definition readToastSeen (s : UpdateStorage) : option jstr := if s.(st_readable) then s.(st_toastSeen) else None.
Definition writeToastSeen (latest : jstr) (s : UpdateStorage) : UpdateStorage :=
  if s.(st_writable) then s <| st_toastSeen := Some latest |> else s.

Record OssHook := {
  oh_status : option OssUpdateStatus;
  oh_showProgress : bool;
  oh_applying : bool;
  oh_checking : bool;
  oh_progressPercent : num;
  oh_progressPhase : option OssUpdateJobPhase;
  oh_applyError : option jstr;
  oh_toastSeen : option jstr;
  oh_target : option jstr;
  oh_jobTimer : option Z;
  oh_restartTimer : option Z;
  oh_succeededTimer : option Z;
  oh_pollTimer : option Z;
  oh_flash : option Z;
  oh_reloading : bool;
  oh_cancelled : bool;
}.
#[export] Instance OssHook_eta : Eta OssHook :=
  fun h => Build_OssHook h.(oh_status) h.(oh_showProgress) h.(oh_applying) h.(oh_checking) h.(oh_progressPercent)
    h.(oh_progressPhase) h.(oh_applyError) h.(oh_toastSeen) h.(oh_target) h.(oh_jobTimer) h.(oh_restartTimer)
    h.(oh_succeededTimer) h.(oh_pollTimer) h.(oh_flash) h.(oh_reloading) h.(oh_cancelled).

(** A request under way, with what its continuation closed over. *)
Inductive Flight :=
  | FlLoad
  | FlTick (target : option jstr)
  | FlHealth (target : option jstr)
  | FlCheck
  | FlApply
  | FlSettings.

(** The hook, the storage of the tab, the requests under way; [ow_toasts] lists the versions
    announced and [ow_reloads] counts the calls of [reloadWindow]. *)
Record OssWorld := {
  ow_hook : OssHook;
  ow_storage : UpdateStorage;
  ow_flights : list (Z * Flight);
  ow_next : Z;
  ow_toasts : list jstr;
  ow_reloads : Z;
}.
#[export] Instance OssWorld_eta : Eta OssWorld :=
  fun w => Build_OssWorld w.(ow_hook) w.(ow_storage) w.(ow_flights) w.(ow_next) w.(ow_toasts) w.(ow_reloads).

Definition upd (f : OssHook -> OssHook) (w : OssWorld) : OssWorld := w <| ow_hook := f w.(ow_hook) |>.
Definition oss_send (f : Flight) (w : OssWorld) : OssWorld :=
  (w <| ow_flights := w.(ow_flights) ++ [(w.(ow_next), f)] |>) <| ow_next := w.(ow_next) + 1 |>.

Definition notifyIfUpdateAvailable (next : OssUpdateStatus) (w : OssWorld) : OssWorld :=
  match next.(us_update_available), truthy next.(us_latest) with
  | true, Some latest =>
    if updateHoldNeedsAttention (Some next) then w
    else
      let seen := w.(ow_hook).(oh_toastSeen) ∪ readToastSeen w.(ow_storage) in
      if seen ≟ Some latest then w
      else
        let w := upd (fun h => h <| oh_toastSeen := Some latest |>) w in
        (w <| ow_storage := writeToastSeen latest w.(ow_storage) |>) <| ow_toasts := w.(ow_toasts) ++ [latest] |>
  | _, _ => w
  end.

Definition persistStatus (next : OssUpdateStatus) (w : OssWorld) : OssWorld :=
  notifyIfUpdateAvailable next (upd (fun h => h <| oh_status := Some next |>) w).

(** *** Timers *)

Definition stopRestartTimeout (h : OssHook) : OssHook := h <| oh_restartTimer := None |>.
Definition stopSucceededTimeout (h : OssHook) : OssHook := h <| oh_succeededTimer := None |>.
Definition stopJobPolling (h : OssHook) : OssHook :=
  stopSucceededTimeout (stopRestartTimeout (h <| oh_jobTimer := None |>)).

Definition armRestartTimeout (now : Z) (h : OssHook) : OssHook :=
  match h.(oh_restartTimer) with
  | Some _ => h
  | None => h <| oh_restartTimer := Some (now + OSS_UPDATE_RESTART_TIMEOUT_MS) |>
  end.
Definition armSucceededStaleTimeout (now : Z) (h : OssHook) : OssHook :=
  match h.(oh_succeededTimer) with
  | Some _ => h
  | None => h <| oh_succeededTimer := Some (now + OSS_UPDATE_SUCCEEDED_STALE_MS) |>
  end.

(** [setApplying], [setShowProgress], [setApplyError], [setProgressPhase], [setProgressPercent] *)
Definition setApplying (b : bool) (h : OssHook) : OssHook := h <| oh_applying := b |>.
Definition setShowProgress (b : bool) (h : OssHook) : OssHook := h <| oh_showProgress := b |>.
Definition setApplyError (e : option jstr) (h : OssHook) : OssHook := h <| oh_applyError := e |>.
Definition setProgress (phase : option OssUpdateJobPhase) (percent : num) (h : OssHook) : OssHook :=
  (h <| oh_progressPhase := phase |>) <| oh_progressPercent := percent |>.

(** The progress as a job reports it. *)
Definition showJob (job : OssUpdateJob) (h : OssHook) : OssHook :=
  setProgress job.(uj_phase) (jobProgressPercent (Some job) None)
    (setApplyError None (setShowProgress true (setApplying true h))).

(** Up to the [await] of the flash; [oh_flash] is its timer. *)
Definition flashAndReload (now : Z) (h : OssHook) : OssHook :=
  if h.(oh_reloading) || h.(oh_cancelled) then h
  else
    let h := stopJobPolling (h <| oh_reloading := true |>) in
    let h := setProgress (Some PhDone) (num_of_Z 100) (setApplyError None (setShowProgress true (setApplying true h))) in
    h <| oh_flash := Some (now + OSS_UPDATE_RELOAD_FLASH_MS) |>.

Definition currentTarget (w : OssWorld) : option jstr :=
  w.(ow_hook).(oh_target) ∪ readUpdateTarget w.(ow_storage) ∪ (w.(ow_hook).(oh_status) ≫= us_latest).

(** [tickJob] up to its request. *)
Definition tickJob (w : OssWorld) : OssWorld :=
  if w.(ow_hook).(oh_reloading) || w.(ow_hook).(oh_cancelled) then w
  else
    let target := currentTarget w in
    let w := match truthy target with Some t => upd (fun h => h <| oh_target := Some t |>) w | None => w end in
    oss_send (FlTick target) w.

Definition startJobPolling (now : Z) (w : OssWorld) : OssWorld :=
  upd (fun h => h <| oh_jobTimer := Some (now + OSS_UPDATE_JOB_POLL_MS) |>) (tickJob w).

Section translated.
Context (t : jstr -> list (jstr * Json) -> jstr).

Definition failRestartTimeout (h : OssHook) : OssHook :=
  setApplyError (Some (t (js "updates.restartTimeout") [])) (setShowProgress true (setApplying false (stopJobPolling h))).
Definition failSucceededStale (h : OssHook) : OssHook :=
  setApplyError (Some (t (js "updates.versionUnchanged") [])) (setShowProgress true (setApplying false (stopJobPolling h))).

Definition job_error (job : OssUpdateJob) : jstr := default (t (js "updates.failed") []) (truthy job.(uj_error)).

(** What [tickJob] makes of a status that is not of the target. *)
Definition tick_job (now : Z) (job : OssUpdateJob) (h : OssHook) : OssHook :=
  match job.(uj_state) with
  | JobFailed =>
    setProgress job.(uj_phase) (jobProgressPercent (Some job) None)
      (setApplyError (Some (job_error job)) (setShowProgress true (setApplying false (stopJobPolling h))))
  | JobSucceeded => armSucceededStaleTimeout now (stopRestartTimeout (showJob job h))
  | JobApplying =>
    let h := showJob job (stopSucceededTimeout h) in
    if job.(uj_phase) ≟ Some PhRestarting then armRestartTimeout now h else stopRestartTimeout h
  | JobIdle => h
  end.

Definition tick_answered (target : option jstr) (data : option OssUpdateStatus) (now : Z) (w : OssWorld) : OssWorld :=
  if w.(ow_hook).(oh_cancelled) then w
  else match data with
       | None => w
       | Some data =>
         let w := persistStatus data w in
         if versionsMatch (Some data.(us_current)) target then upd (flashAndReload now) w
         else match data.(us_job) with
              | Some job => upd (tick_job now job) w
              | None => w
              end
       end.

Definition tick_failed (target : option jstr) (now : Z) (w : OssWorld) : OssWorld :=
  if w.(ow_hook).(oh_cancelled) then w
  else
    let w := upd (fun h => armRestartTimeout now
               (setProgress (Some PhRestarting) (PHASE_PERCENT PhRestarting)
                 (setShowProgress true (setApplying true (stopSucceededTimeout h))))) w in
    oss_send (FlHealth target) w.

Definition health_answered (target version : option jstr) (now : Z) (w : OssWorld) : OssWorld :=
  if w.(ow_hook).(oh_cancelled) then w
  else if versionsMatch version target then upd (flashAndReload now) w
  else w.

(** *** Loading the status *)

Definition handleLoadFailure (now : Z) (w : OssWorld) : OssWorld :=
  match truthy (readUpdateTarget w.(ow_storage)) with
  | None => w
  | Some stored =>
    if w.(ow_hook).(oh_cancelled) then w
    else startJobPolling now
           (upd (fun h => setProgress (Some PhRestarting) (PHASE_PERCENT PhRestarting)
                   (setApplying true (setShowProgress true (h <| oh_target := Some stored |>)))) w)
  end.

(** [data.job.phase] throws on a payload without a job, which the chain catches. *)
Definition applyLoadedStatus (data : option OssUpdateStatus) (now : Z) (w : OssWorld) : OssWorld :=
  if w.(ow_hook).(oh_cancelled) then w
  else match data with
       | None => w
       | Some data =>
         let w := persistStatus data w in
         let stored := truthy (readUpdateTarget w.(ow_storage)) in
         let live := match stored with Some _ => versionsMatch (Some data.(us_current)) stored | None => false end in
         if live then
           upd (fun h => h <| oh_target := None |>) (w <| ow_storage := clearUpdateTarget w.(ow_storage) |>)
         else if (uj_state <$> data.(us_job) ≟ Some JobApplying) || bool_decide (is_Some stored) then
           let w := upd (fun h => setApplyError None (setApplying true (setShowProgress true
                      (h <| oh_target := readUpdateTarget w.(ow_storage) ∪ data.(us_latest) |>)))) w in
           match data.(us_job) with
           | None => handleLoadFailure now w
           | Some job =>
             let fallbackPhase := job.(uj_phase) ∪ (if decide (is_Some stored) then Some PhRestarting else None) in
             startJobPolling now (upd (setProgress fallbackPhase (jobProgressPercent (Some job) fallbackPhase)) w)
           end
         else w
       end.

(** *** The calls of the views *)

(** [apply] up to its request. *)
Definition apply_call (w : OssWorld) : OssWorld :=
  let w := match truthy (w.(ow_hook).(oh_status) ≫= us_latest) with
           | Some latest =>
             upd (fun h => h <| oh_target := Some latest |>)
               (w <| ow_storage := writeUpdateTarget latest w.(ow_storage) |>)
           | None => w
           end in
  oss_send FlApply
    (upd (fun h => setProgress (Some PhPreparing) (PHASE_PERCENT PhPreparing)
            (setApplyError None (setApplying true (setShowProgress true h)))) w).

Definition apply_answered (next : OssUpdateStatus) (now : Z) (w : OssWorld) : OssWorld :=
  if w.(ow_hook).(oh_cancelled) then w
  else
    let w := persistStatus next w in
    if versionsMatch (Some next.(us_current)) w.(ow_hook).(oh_target) then upd (flashAndReload now) w
    else
      let go := startJobPolling now
        (upd (setProgress (Some (default PhPreparing (next.(us_job) ≫= uj_phase)))
                (jobProgressPercent next.(us_job) (Some (default PhPreparing (next.(us_job) ≫= uj_phase))))) w) in
      match next.(us_job) with
      | Some job =>
        if job.(uj_state) ≟ JobFailed then
          upd (fun h => setProgress job.(uj_phase) (jobProgressPercent (Some job) None)
                 (setApplyError (Some (job_error job)) (setApplying false (stopJobPolling h)))) w
        else go
      | None => go
      end.

Definition isApplyInProgressError (err : JsError) : bool :=
  match err with
  | ErrApi e =>
    (e.(ae_status) =? 409)
    && (match e.(ae_detail) with Some (Jstring d) => d ≟ js "apply_in_progress" | _ => false end
        || (e.(ae_message) ≟ js "apply_in_progress"))
  | _ => false
  end.

Definition apply_failed (err : JsError) (now : Z) (w : OssWorld) : OssWorld :=
  let restarting := startJobPolling now (upd (setProgress (Some PhRestarting) (PHASE_PERCENT PhRestarting)) w) in
  if w.(ow_hook).(oh_cancelled) then w
  else if isApplyInProgressError err then startJobPolling now w
  else match err with
       | ErrApi e =>
         if (400 <=? e.(ae_status)) && (e.(ae_status) <? 500) then
           upd (fun h => setApplyError (Some e.(ae_message)) (setApplying false h)) w
         else restarting
       | _ => restarting
       end.

Definition check_replied (data : option OssUpdateStatus) (w : OssWorld) : OssWorld :=
  if w.(ow_hook).(oh_cancelled) then w
  else upd (fun h => h <| oh_checking := false |>) (match data with Some data => persistStatus data w | None => w end).

Definition settings_answered (next : OssUpdateStatus) (w : OssWorld) : OssWorld :=
  if w.(ow_hook).(oh_cancelled) then w else persistStatus next w.

Definition dismissProgress (h : OssHook) : OssHook :=
  let busy := h.(oh_applying) && negb (bool_decide (is_Some (truthy h.(oh_applyError)))) in
  let h := h <| oh_showProgress := h.(oh_showProgress) && busy |> in
  if busy then h else setApplyError None h.

(** *** Events *)

(** The answer to a request: a status ([None] when it has no [current]), a health report with
    its version, or what was thrown. *)
Inductive Answer :=
  | AnsStatus (data : option OssUpdateStatus)
  | AnsHealth (version : option jstr)
  | AnsError (err : JsError).

Definition replied (f : Flight) (a : Answer) (now : Z) (w : OssWorld) : OssWorld :=
  match f, a with
  | FlLoad, AnsStatus data => applyLoadedStatus data now w
  | FlLoad, AnsError _ => handleLoadFailure now w
  | FlTick target, AnsStatus data => tick_answered target data now w
  | FlTick target, AnsError _ => tick_failed target now w
  | FlHealth target, AnsHealth version => health_answered target version now w
  | FlCheck, AnsStatus data => check_replied data w
  | FlCheck, AnsError _ => check_replied None w
  | FlApply, AnsStatus (Some next) => apply_answered next now w
  | FlApply, AnsError err => apply_failed err now w
  | FlSettings, AnsStatus (Some next) => settings_answered next w
  | _, _ => w
  end.

Inductive OssEvent :=
  | OuReply (id : Z) (a : Answer) (now : Z)
  | OuPollTimer (now : Z)
  | OuJobTimer (now : Z)
  | OuRestartTimer (now : Z)
  | OuSucceededTimer (now : Z)
  | OuFlashTimer (now : Z)
  | OuRefresh
  | OuCheckNow
  | OuApply
  | OuSettings
  | OuDismiss
  | OuUnmount.

Definition due (timer : option Z) (now : Z) : bool := match timer with Some at_ => at_ <=? now | None => false end.

Definition oss_step (w : OssWorld) (e : OssEvent) : OssWorld :=
  let h := w.(ow_hook) in
  match e with
  | OuReply id a now =>
    match om_get w.(ow_flights) id with
    | Some f => replied f a now (w <| ow_flights := om_delete w.(ow_flights) id |>)
    | None => w
    end
  | OuPollTimer now =>
    if due h.(oh_pollTimer) now then
      let w := upd (fun h => h <| oh_pollTimer := Some (now + OSS_UPDATE_POLL_MS) |>) w in
      match h.(oh_jobTimer) with Some _ => w | None => oss_send FlLoad w end
    else w
  | OuJobTimer now =>
    if due h.(oh_jobTimer) now then
      tickJob (upd (fun h => h <| oh_jobTimer := Some (now + OSS_UPDATE_JOB_POLL_MS) |>) w)
    else w
  | OuRestartTimer now =>
    if due h.(oh_restartTimer) now then upd (fun h => failRestartTimeout (stopRestartTimeout h)) w else w
  | OuSucceededTimer now =>
    if due h.(oh_succeededTimer) now then upd (fun h => failSucceededStale (stopSucceededTimeout h)) w else w
  | OuFlashTimer now =>
    if due h.(oh_flash) now then
      let w := upd (fun h => h <| oh_flash := None |>) w in
      if h.(oh_cancelled) then w else w <| ow_reloads := w.(ow_reloads) + 1 |>
    else w
  | OuRefresh => oss_send FlLoad w
  | OuCheckNow => oss_send FlCheck (upd (fun h => h <| oh_checking := true |>) w)
  | OuApply => apply_call w
  | OuSettings => oss_send FlSettings w
  | OuDismiss => upd dismissProgress w
  | OuUnmount => upd (fun h => stopJobPolling ((h <| oh_cancelled := true |>) <| oh_pollTimer := None |>)) w
  end.

Definition oss_run (events : list OssEvent) (w : OssWorld) : OssWorld := foldl oss_step w events.
End translated.

Definition oss_hook0 (toastSeen : option jstr) : OssHook :=
  {| oh_status := None; oh_showProgress := false; oh_applying := false; oh_checking := false;
     oh_progressPercent := num_of_Z 0; oh_progressPhase := None; oh_applyError := None; oh_toastSeen := toastSeen;
     oh_target := None; oh_jobTimer := None; oh_restartTimer := None; oh_succeededTimer := None; oh_pollTimer := None;
     oh_flash := None; oh_reloading := false; oh_cancelled := false |}.

(** A page that opens with this storage: the first render and the mount effect. *)
Definition oss_mount (s : UpdateStorage) (now : Z) : OssWorld :=
  oss_send FlLoad
    {| ow_hook := (oss_hook0 (readToastSeen s)) <| oh_pollTimer := Some (now + OSS_UPDATE_POLL_MS) |>;
       ow_storage := s; ow_flights := []; ow_next := 0; ow_toasts := []; ow_reloads := 0 |}.
