(* ===== verification/OssUpdatesProps.v ===== *)
(** What [OssUpdates] promises: the page reloads once, and only when the server runs the version
    that a request under way was waiting for; a version is announced once; the progress is a percentage; an update that
    finishes reloads the page and a server that does not come back ends in an error; a page
    opened during an update takes it up; nothing happens after the unmount. *)
From Stdlib Require Import SpecFloat.
From S2P Require Import Prelude JsString JsCollections JsNum Json ApiErrors OssUpdates.

(** ** Versions *)

Lemma versionsMatch_spec l r :
  versionsMatch l r = true <-> normalizeUpdateVersion l <> [] /\ normalizeUpdateVersion l = normalizeUpdateVersion r.
Proof.
  unfold versionsMatch. rewrite andb_true_iff, Z.ltb_lt, bool_decide_eq_true.
  destruct (normalizeUpdateVersion l) as [|c s]; [by split; intros []|].
  rewrite len_cons. pose proof (len_nonneg s). split; intros []; split; try done; lia.
Qed.

Lemma versionsMatch_truthy l r : versionsMatch l r = true -> exists v, r = Some v /\ v <> [].
Proof.
  intros [Hn E]%versionsMatch_spec. rewrite E in Hn.
  destruct r as [[|c s]|]; [done| by eexists |done].
Qed.

(** ** Percentages *)

Definition in_percent (x : num) : Prop := num_le (num_of_Z 0) x = true /\ num_le x (num_of_Z 100) = true.

Lemma PHASE_PERCENT_in p : in_percent (PHASE_PERCENT p).
Proof. destruct p; split; vm_compute; reflexivity. Qed.

Lemma clamp_in x :
  num_isFinite x = true -> in_percent (num_max (num_of_Z 0) (num_min (num_of_Z 100) x)).
Proof.
  intros Hx%num_isFinite_not_nan.
  assert (Hmin : num_le (num_min (num_of_Z 100) x) (num_of_Z 100) = true).
  { unfold num_min. destruct (SFcompare (num_of_Z 100) x) as [[]|] eqn:E; [by vm_compute..| |].
    - apply num_lt_total; [by vm_compute|done|]. unfold num_lt, SFltb. by rewrite E.
    - apply SFcompare_None in E as [E|E]; [by vm_compute in E|done]. }
  set (y := num_min (num_of_Z 100) x) in *. clearbody y.
  unfold num_max. destruct (SFcompare (num_of_Z 0) y) as [[]|] eqn:E.
  - by split; vm_compute.
  - split; [unfold num_le, SFleb; by rewrite E|done].
  - by split; vm_compute.
  - apply SFcompare_None in E as [E|E]; [by vm_compute in E|]. subst. by vm_compute in Hmin.
Qed.

Lemma jobProgressPercent_in job fallback : in_percent (jobProgressPercent job fallback).
Proof.
  assert (Hf : in_percent match (job ≫= uj_phase) ∪ fallback with
                          | Some p => PHASE_PERCENT p | None => num_of_Z 0 end).
  { destruct (_ ∪ _); [apply PHASE_PERCENT_in|by split; vm_compute]. }
  unfold jobProgressPercent. destruct (job ≫= uj_percent) as [x|]; [|done].
  destruct (num_isFinite x) eqn:E; [by apply clamp_in|done].
Qed.

(** ** The invariant *)

(** No two neighbours are equal. *)
Fixpoint no_repeat (l : list jstr) : Prop :=
  match l with
  | a :: (b :: _) as l' => a <> b /\ no_repeat l'
  | _ => True
  end.

Lemma no_repeat_snoc l x : no_repeat l -> last l <> Some x -> no_repeat (l ++ [x]).
Proof.
  induction l as [|a [|b l] IH]; intros Hl Hx; [done| |].
  - split; [|done]. by intros ->.
  - destruct Hl as [Hab Hl]. split; [done|]. by apply IH.
Qed.

Definition reports (a : Answer) : option jstr :=
  match a with AnsStatus (Some d) => Some d.(us_current) | AnsHealth v => v | _ => None end.
Definition announces (a : Answer) : option jstr :=
  match a with AnsStatus (Some d) => d.(us_latest) | _ => None end.
(** A status that calls for a toast. *)
Definition calls_for (d : OssUpdateStatus) (v : jstr) : Prop :=
  d.(us_update_available) = true /\ truthy d.(us_latest) = Some v /\ updateHoldNeedsAttention (Some d) = false.

Definition flight_target (f : Flight) : option jstr :=
  match f with FlTick target | FlHealth target => target | _ => None end.
Definition flashing (h : OssHook) : Z := match h.(oh_flash) with Some _ => 1 | None => 0 end.

(** [known] are the versions that can be waited for, [toasted] those that can be announced,
    [seen] what had been announced before the page opened and [live] says that a version waited
    for was seen running. *)
Record oss_wf (seen : list jstr) (known toasted : jstr -> Prop) (live : Prop) (w : OssWorld) : Prop := {
  wf_target v : w.(ow_hook).(oh_target) = Some v -> known v;
  wf_stored v : w.(ow_storage).(st_target) = Some v -> known v;
  wf_latest v : w.(ow_hook).(oh_status) ≫= us_latest = Some v -> known v;
  wf_flights i f v : (i, f) ∈ w.(ow_flights) -> flight_target f = Some v -> known v;
  wf_once : 0 <= w.(ow_reloads) /\ w.(ow_reloads) + flashing w.(ow_hook) <= 1;
  wf_idle : w.(ow_hook).(oh_reloading) = false -> w.(ow_reloads) + flashing w.(ow_hook) = 0;
  wf_live : w.(ow_hook).(oh_reloading) = true -> live;
  wf_percent : in_percent w.(ow_hook).(oh_progressPercent);
  wf_toasts : Forall toasted w.(ow_toasts);
  wf_history : no_repeat (seen ++ w.(ow_toasts));
  wf_last : w.(ow_hook).(oh_toastSeen) = last (seen ++ w.(ow_toasts));
  wf_seen : w.(ow_hook).(oh_toastSeen) = None -> readToastSeen w.(ow_storage) = None;
}.

Lemma flashing_nonneg h : 0 <= flashing h.
Proof. unfold flashing. by destruct (oh_flash h). Qed.

(** An update of the hook that leaves its target, its status, its toasts, the reload
    and [cancelled] alone. *)
Definition inert (f : OssHook -> OssHook) : Prop :=
  forall h,
    (f h).(oh_target) = h.(oh_target) /\ (f h).(oh_status) = h.(oh_status) /\
    (f h).(oh_toastSeen) = h.(oh_toastSeen) /\ (f h).(oh_flash) = h.(oh_flash) /\
    (f h).(oh_reloading) = h.(oh_reloading) /\ (f h).(oh_cancelled) = h.(oh_cancelled) /\
    (in_percent h.(oh_progressPercent) -> in_percent (f h).(oh_progressPercent)).

Lemma inert_comp f g : inert f -> inert g -> inert (fun h => f (g h)).
Proof.
  intros Hf Hg h. destruct (Hf (g h)) as (?&?&?&?&?&?&?), (Hg h) as (?&?&?&?&?&?&?).
  split_and!; try congruence. auto.
Qed.

Create HintDb oss.
#[local] Hint Resolve PHASE_PERCENT_in jobProgressPercent_in : oss.

Ltac inertly := intros h; split_and!; try reflexivity; intros ?; try assumption; try (apply PHASE_PERCENT_in);
  try (apply jobProgressPercent_in).

Lemma showJob_inert job : inert (showJob job).
Proof. inertly. Qed.
Lemma armRestart_inert now : inert (armRestartTimeout now).
Proof. intros h. unfold armRestartTimeout. by destruct (oh_restartTimer h). Qed.
Lemma armStale_inert now : inert (armSucceededStaleTimeout now).
Proof. intros h. unfold armSucceededStaleTimeout. by destruct (oh_succeededTimer h). Qed.
Lemma setProgress_inert p x : in_percent x -> inert (setProgress p x).
Proof. intros Hx h. split_and!; done. Qed.
Lemma dismiss_inert : inert dismissProgress.
Proof. intros h. unfold dismissProgress. by destruct (_ && negb _). Qed.
Lemma tick_job_inert t now job : inert (tick_job t now job).
Proof.
  unfold tick_job. destruct (uj_state job).
  - inertly.
  - case_bool_decide.
    + apply (inert_comp (armRestartTimeout now)); [apply armRestart_inert|].
      apply (inert_comp (showJob job)); [apply showJob_inert|inertly].
    + apply (inert_comp stopRestartTimeout); [inertly|].
      apply (inert_comp (showJob job)); [apply showJob_inert|inertly].
  - apply (inert_comp (armSucceededStaleTimeout now)); [apply armStale_inert|].
    apply (inert_comp stopRestartTimeout); [inertly|apply showJob_inert].
  - inertly.
Qed.
#[local] Hint Resolve showJob_inert armRestart_inert armStale_inert dismiss_inert tick_job_inert : oss.

(** What a status may tell the hook. *)
Definition status_ok (known toasted : jstr -> Prop) (d : OssUpdateStatus) : Prop :=
  (forall v, us_latest d = Some v -> known v) /\ (forall v, calls_for d v -> toasted v).

(** A property of worlds that holds on through the primitives of the hook holds on through its
    events, but for the unmount. [known] bounds the versions the primitives handle. *)
Class HoldsOn (known toasted : jstr -> Prop) (live : Prop) (P : OssWorld -> Prop) := {
  on_upd f w : inert f -> P w -> P (upd f w);
  on_target v w : (forall x, v = Some x -> known x) -> P w -> P (upd (fun h => h <| oh_target := v |>) w);
  on_send f w : (forall v, flight_target f = Some v -> known v) -> P w -> P (oss_send f w);
  on_flash now w : live -> P w -> P (upd (flashAndReload now) w);
  on_persist d w : status_ok known toasted d -> P w -> P (persistStatus d w);
  on_clear w : P w -> P (w <| ow_storage := clearUpdateTarget w.(ow_storage) |>);
  on_write v w : known v -> P w -> P (w <| ow_storage := writeUpdateTarget v w.(ow_storage) |>);
  on_deliver id w : P w -> P (w <| ow_flights := om_delete w.(ow_flights) id |>);
  on_flashed t now w : P w -> P (oss_step t w (OuFlashTimer now));
  on_known w v : P w ->
    w.(ow_hook).(oh_target) = Some v \/ w.(ow_storage).(st_target) = Some v
    \/ w.(ow_hook).(oh_status) ≫= us_latest = Some v
    \/ (exists i f, (i, f) ∈ w.(ow_flights) /\ flight_target f = Some v) -> known v;
}.

Lemma truthy_inv (s : option jstr) v : truthy s = Some v -> s = Some v.
Proof. by destruct s as [[]|]. Qed.

Section preservation.
Context (t : jstr -> list (jstr * Json) -> jstr).
Context (known toasted : jstr -> Prop) (live : Prop) (P : OssWorld -> Prop) `{!HoldsOn known toasted live P}.

Lemma upd_target_holds f v w :
  inert f -> (forall x, v = Some x -> known x) -> P w -> P (upd (fun h => f (h <| oh_target := v |>)) w).
Proof. intros Hf Hv Hw. exact (on_upd f _ Hf (on_target v w Hv Hw)). Qed.

Lemma readTarget_known w v : P w -> readUpdateTarget w.(ow_storage) = Some v -> known v.
Proof. intros Hw H. apply (on_known w v Hw). right; left. unfold readUpdateTarget in H. by destruct (st_readable _). Qed.

Lemma currentTarget_known w v : P w -> currentTarget w = Some v -> known v.
Proof.
  intros Hw H. pose proof (readTarget_known w v Hw) as Hr. pose proof (on_known w v Hw) as Hk.
  unfold currentTarget in H.
  unfold union, option_union, union_with, option_union_with in H.
  destruct (oh_target (ow_hook w)), (readUpdateTarget _), (oh_status (ow_hook w) ≫= us_latest);
    simplify_eq; (by apply Hr) || (apply Hk; tauto).
Qed.

Lemma tickJob_holds w : P w -> P (tickJob w).
Proof.
  intros Hw. unfold tickJob. destruct (_ || _); [done|].
  apply on_send; [intros v; by apply currentTarget_known|].
  destruct (truthy _) as [v|] eqn:E; [|done].
  apply on_target; [|done]. intros x [= <-]. by apply (currentTarget_known w), truthy_inv.
Qed.

Lemma startJobPolling_holds now w : P w -> P (startJobPolling now w).
Proof. intros Hw. apply on_upd; [inertly|by apply tickJob_holds]. Qed.

Lemma handleLoadFailure_holds now w : P w -> P (handleLoadFailure now w).
Proof.
  intros Hw. unfold handleLoadFailure. destruct (truthy _) as [v|] eqn:E; [|done].
  destruct (oh_cancelled _); [done|]. apply startJobPolling_holds.
  apply (upd_target_holds (fun h => setProgress (Some PhRestarting) (PHASE_PERCENT PhRestarting)
    (setApplying true (setShowProgress true h)))); [inertly| |done]. intros x [= <-]. by apply (readTarget_known w), truthy_inv.
Qed.

Lemma applyLoadedStatus_holds data now w :
  (forall d, data = Some d -> status_ok known toasted d) -> P w -> P (applyLoadedStatus data now w).
Proof.
  intros Hd Hw. unfold applyLoadedStatus. destruct (oh_cancelled _); [done|]. destruct data as [d|]; [|done].
  specialize (Hd d eq_refl). apply (on_persist d) in Hw; [|done]. set (w1 := persistStatus d w) in *.
  clearbody w1. destruct (match truthy _ with Some _ => _ | None => false end).
  - apply (on_target None); [done|]. by apply on_clear.
  - destruct (_ || _); [|done]. set (w2 := upd _ w1).
    assert (Hw2 : P w2).
    { apply (upd_target_holds (fun h => setApplyError None (setApplying true (setShowProgress true h))));
        [inertly| |done]. intros x Hx. pose proof (readTarget_known w1 x Hw).
      unfold union, option_union, union_with, option_union_with in Hx. pose proof (proj1 Hd).
      destruct (readUpdateTarget _), (us_latest d); simplify_eq; eauto. }
    destruct (us_job d); [|by apply handleLoadFailure_holds].
    apply startJobPolling_holds, on_upd; [|done]. apply setProgress_inert, jobProgressPercent_in.
Qed.

(** An answer reaches the hook through the request it answers. *)
Lemma replied_holds f a now w :
  (forall d, a = AnsStatus (Some d) -> status_ok known toasted d) ->
  (forall v target, reports a = Some v -> known target -> versionsMatch (Some v) (Some target) = true -> live) ->
  (forall v, flight_target f = Some v -> known v) ->
  P w -> P (replied t f a now w).
Proof.
  intros Ha Hl Hf Hw.
  assert (Hflash : forall v target w', reports a = Some v -> (forall x, target = Some x -> known x) ->
    versionsMatch (Some v) target = true -> P w' -> P (upd (flashAndReload now) w')).
  { intros v target w' Hr Hk Hm Hw'. apply on_flash; [|done].
    destruct (versionsMatch_truthy _ _ Hm) as (x & -> & _). exact (Hl v x Hr (Hk x eq_refl) Hm). }
  destruct f as [|target|target| | |], a as [data|version|err]; try done; cbn [replied flight_target] in *.
  - apply applyLoadedStatus_holds; [|done]. intros d ->. by apply Ha.
  - by apply handleLoadFailure_holds.
  - unfold tick_answered. destruct (oh_cancelled _); [done|]. destruct data as [d|]; [|done].
    assert (Hp : P (persistStatus d w)) by (apply on_persist; auto).
    destruct (versionsMatch _ _) eqn:Hm; [by eapply Hflash|].
    destruct (us_job d); [|done]. apply on_upd; [apply tick_job_inert|done].
  - unfold tick_failed. destruct (oh_cancelled _); [done|]. apply on_send; [done|]. apply on_upd; [|done].
    apply (inert_comp (armRestartTimeout now)); [apply armRestart_inert|inertly].
  - unfold health_answered. destruct (oh_cancelled _); [done|]. destruct (versionsMatch _ _) eqn:Hm; [|done].
    destruct version as [v|]; [|by apply versionsMatch_spec in Hm as []]. by eapply Hflash.
  - unfold check_replied. destruct (oh_cancelled _); [done|]. apply on_upd; [inertly|].
    destruct data as [d|]; [|done]. apply on_persist; auto.
  - unfold check_replied. destruct (oh_cancelled _); [done|]. apply on_upd; [inertly|done].
  - destruct data as [d|]; [|done]. unfold apply_answered. destruct (oh_cancelled _); [done|].
    assert (Hp : P (persistStatus d w)) by (apply on_persist; auto).
    destruct (versionsMatch _ _) eqn:Hm; [refine (Hflash _ _ _ eq_refl _ Hm Hp); intros x Hx; apply (on_known _ x Hp); by left|].
    assert (Hgo : P (startJobPolling now
      (upd (setProgress (Some (default PhPreparing (us_job d ≫= uj_phase)))
              (jobProgressPercent (us_job d) (Some (default PhPreparing (us_job d ≫= uj_phase))))) (persistStatus d w)))).
    { apply startJobPolling_holds, on_upd; [|done]. apply setProgress_inert, jobProgressPercent_in. }
    destruct (us_job d); [|done]. case_bool_decide; [|done]. apply on_upd; [inertly|done].
  - unfold apply_failed. destruct (oh_cancelled _); [done|].
    assert (Hgo : P (startJobPolling now (upd (setProgress (Some PhRestarting) (PHASE_PERCENT PhRestarting)) w))).
    { apply startJobPolling_holds, on_upd; [|done]. apply setProgress_inert, PHASE_PERCENT_in. }
    destruct (isApplyInProgressError err); [by apply startJobPolling_holds|].
    destruct err; [|done..]. destruct (_ && _); [|done]. apply on_upd; [inertly|done].
  - destruct data as [d|]; [|done]. unfold settings_answered. destruct (oh_cancelled _); [done|].
    apply on_persist; auto.
Qed.

Lemma apply_call_holds w : P w -> P (apply_call w).
Proof.
  intros Hw. unfold apply_call. apply on_send; [done|]. apply on_upd; [inertly|].
  destruct (truthy _) as [v|] eqn:E; [|done].
  assert (Hv : known v).
  { apply (on_known w v Hw). right; right; left. by apply truthy_inv. }
  apply on_target; [by intros x [= <-]|]. by apply on_write.
Qed.

Lemma oss_step_holds w e :
  (forall id a now, e = OuReply id a now ->
     (forall d, a = AnsStatus (Some d) -> status_ok known toasted d) /\
     (forall v target, reports a = Some v -> known target -> versionsMatch (Some v) (Some target) = true -> live)) ->
  (e = OuUnmount -> P (oss_step t w OuUnmount)) ->
  P w -> P (oss_step t w e).
Proof.
  intros He Hu Hw. destruct e as [id a now|now|now|now|now|now| | | | | |]; cbn [oss_step].
  - destruct (om_get _ id) as [f|] eqn:E; [|done]. destruct (He id a now eq_refl) as [Ha Hl].
    apply replied_holds; [done|done| |].
    + intros v Hv. apply (on_known w v Hw). right; right; right. exists id, f. split; [|done].
      by apply om_get_Some_elem.
    + by apply on_deliver.
  - destruct (due _ _); [|done]. assert (Hp : P (upd (fun h => h <| oh_pollTimer := Some (now + OSS_UPDATE_POLL_MS) |>) w)).
    { apply on_upd; [inertly|done]. }
    destruct (oh_jobTimer _); [done|]. by apply on_send.
  - destruct (due _ _); [|done]. apply tickJob_holds, on_upd; [inertly|done].
  - destruct (due _ _); [|done]. apply on_upd; [inertly|done].
  - destruct (due _ _); [|done]. apply on_upd; [inertly|done].
  - by apply (on_flashed t).
  - by apply on_send.
  - apply on_send; [done|]. apply on_upd; [inertly|done].
  - by apply apply_call_holds.
  - by apply on_send.
  - apply on_upd; [apply dismiss_inert|done].
  - by apply Hu.
Qed.
End preservation.

Section wf.
Context (seen : list jstr) (known toasted : jstr -> Prop) (live : Prop).
Abbreviation wf := (oss_wf seen known toasted live).

Lemma upd_wf f w : inert f -> wf w -> wf (upd f w).
Proof.
  intros Hf []. destruct (Hf (ow_hook w)) as (E1&E2&E3&E4&E5&_&E6).
  split; cbn; unfold flashing in *; rewrite ?E1, ?E2, ?E3, ?E4, ?E5; eauto.
Qed.

Lemma target_wf v w : (forall x, v = Some x -> known x) -> wf w -> wf (upd (fun h => h <| oh_target := v |>) w).
Proof. intros Hv []. split; cbn; eauto. Qed.

Lemma send_wf f w : (forall v, flight_target f = Some v -> known v) -> wf w -> wf (oss_send f w).
Proof.
  intros Hf []. split; cbn; eauto.
  intros i g v [Hi|Hi]%elem_of_app; [eauto|].
  apply list_elem_of_singleton in Hi. simplify_eq. eauto.
Qed.

Lemma flash_wf now w : live -> wf w -> wf (upd (flashAndReload now) w).
Proof.
  intros Hl Hw. unfold upd, flashAndReload.
  destruct (oh_reloading (ow_hook w)) eqn:Er; [by destruct w|].
  destruct (oh_cancelled (ow_hook w)) eqn:Ec; [by destruct w|].
  destruct Hw. specialize (wf_idle0 Er). pose proof (flashing_nonneg (ow_hook w)).
  split; cbn; eauto; try done. lia.
Qed.

Lemma notify_wf d w : (forall v, calls_for d v -> toasted v) -> wf w -> wf (notifyIfUpdateAvailable d w).
Proof.
  intros Ht Hw. unfold notifyIfUpdateAvailable.
  destruct (us_update_available d) eqn:Ea; [|done]. destruct (truthy _) as [v|] eqn:El; [|done].
  destruct (updateHoldNeedsAttention _) eqn:Eh; [done|]. case_bool_decide as Hs; [done|].
  destruct Hw. assert (Hne : last (seen ++ ow_toasts w) <> Some v).
  { rewrite <- wf_last0. intros E. apply Hs. rewrite E. by destruct (readToastSeen _). }
  assert (Hstorage : st_target (writeToastSeen v (ow_storage w)) = st_target (ow_storage w)).
  { unfold writeToastSeen. by destruct (st_writable _). }
  split; cbn; rewrite ?Hstorage; eauto.
  - apply Forall_app. split; [done|]. apply Forall_singleton, Ht. done.
  - rewrite app_assoc. by apply no_repeat_snoc.
  - by rewrite app_assoc, last_snoc.
  - done.
Qed.

Lemma persistStatus_wf d w :
  (forall v, us_latest d = Some v -> known v) -> (forall v, calls_for d v -> toasted v) ->
  wf w -> wf (persistStatus d w).
Proof.
  intros Hk Ht []. apply notify_wf; [done|]. split; cbn; eauto.
Qed.

#[export] Instance oss_wf_holds : HoldsOn known toasted live wf.
Proof.
  split.
  - apply upd_wf.
  - apply target_wf.
  - apply send_wf.
  - apply flash_wf.
  - intros d w []. by apply persistStatus_wf.
  - intros w []. split; cbn; eauto; unfold clearUpdateTarget; destruct (st_readable _) eqn:Er; cbn; eauto; done.
  - intros v w Hv []. split; cbn; eauto; unfold writeUpdateTarget; destruct (st_writable _); cbn; eauto.
    by intros x [= <-].
  - intros id w []. split; cbn; eauto. intros i g v Hi%om_elem_delete. destruct Hi as [Hi _]. eauto.
  - intros t now w Hw. cbn [oss_step]. unfold due.
    destruct (oh_flash (ow_hook w)) as [d|] eqn:Ef; [|done]. destruct (d <=? now); [|done].
    destruct Hw. unfold flashing in *. rewrite Ef in *.
    destruct (oh_cancelled _); split; cbn; eauto; try lia; intros; lia || (specialize (wf_idle0 ltac:(done)); lia).
  - intros w v [] [H|[H|[H|(i & f & H & Hf)]]]; eauto.
Qed.

Lemma unmount_wf t w : wf w -> wf (oss_step t w OuUnmount).
Proof. intros []. by split. Qed.
End wf.

(** ** Runs *)

Section runs.
Context (t : jstr -> list (jstr * Json) -> jstr).

(** The versions a page can wait for: the target it found in the storage, and what it was told. *)
Definition known_by (s : UpdateStorage) (events : list OssEvent) (v : jstr) : Prop :=
  s.(st_target) = Some v \/ exists id a now, OuReply id a now ∈ events /\ announces a = Some v.
(** An answer said that the server runs one of them. *)
Definition target_live (s : UpdateStorage) (events : list OssEvent) : Prop :=
  exists id a now v target, OuReply id a now ∈ events /\ reports a = Some v /\ known_by s events target /\
    versionsMatch (Some v) (Some target) = true.
Definition called_for (events : list OssEvent) (v : jstr) : Prop :=
  exists id d now, OuReply id (AnsStatus (Some d)) now ∈ events /\ calls_for d v.

Lemma oss_mount_wf s now events :
  oss_wf (option_list (readToastSeen s)) (known_by s events) (called_for events) (target_live s events)
    (oss_mount s now).
Proof.
  split; cbn; try done.
  - intros v Hv. by left.
  - intros i f v [= -> ->]%list_elem_of_singleton. done.
  - unfold readToastSeen. destruct (st_readable s), (st_toastSeen s); done.
  - by destruct (readToastSeen s).
Qed.

Lemma oss_run_wf s now events :
  oss_wf (option_list (readToastSeen s)) (known_by s events) (called_for events) (target_live s events)
    (oss_run t events (oss_mount s now)).
Proof.
  assert (Hrun : forall l w, l ⊆ events ->
    oss_wf (option_list (readToastSeen s)) (known_by s events) (called_for events) (target_live s events) w ->
    oss_wf (option_list (readToastSeen s)) (known_by s events) (called_for events) (target_live s events)
      (foldl (oss_step t) w l)); [|apply Hrun; [done|apply oss_mount_wf]].
  intros l. induction l as [|e l IH]; intros w Hin Hw; [done|]. cbn [foldl].
  apply IH; [intros x Hx; apply Hin; by right|]. eapply oss_step_holds; [apply oss_wf_holds| |intros _; by apply unmount_wf|done].
  intros id a nw ->. assert (He : OuReply id a nw ∈ events) by (apply Hin; left). split.
  - intros d ->. split; [intros v Hv; right; by exists id, (AnsStatus (Some d)), nw|].
    intros v Hv. by exists id, d, nw.
  - intros v target Hr Hk Hm. by exists id, a, nw, v, target.
Qed.

(** *** What a reload takes *)

(** The version a request waits for: the one it closed over, or the hook's at the answer to the
    request to apply. The other requests wait for none. *)
Definition awaited (f : Flight) (w : OssWorld) : option jstr :=
  match f with
  | FlTick target | FlHealth target => target
  | FlApply => w.(ow_hook).(oh_target)
  | FlLoad | FlCheck | FlSettings => None
  end.

(** The answer starts the reload: the request waits for the version it reports. *)
Definition answers_target (w : OssWorld) (e : OssEvent) (target : jstr) : Prop :=
  exists id a now f v, e = OuReply id a now /\ om_get w.(ow_flights) id = Some f /\
    awaited f w = Some target /\ reports a = Some v /\ versionsMatch (Some v) (Some target) = true.

(** An update is under way for the page: the user asked for it, the tab had stored its target, or
    a status says that the server is applying one. *)
Definition update_asked (s : UpdateStorage) (events : list OssEvent) : Prop :=
  is_Some (truthy (readUpdateTarget s)) \/ OuApply ∈ events \/
  exists id d at_, OuReply id (AnsStatus (Some d)) at_ ∈ events /\ uj_state <$> d.(us_job) = Some JobApplying.

Lemma persist_frame d w :
  let w' := persistStatus d w in
  w'.(ow_hook).(oh_reloading) = w.(ow_hook).(oh_reloading) /\
  w'.(ow_hook).(oh_jobTimer) = w.(ow_hook).(oh_jobTimer) /\
  w'.(ow_hook).(oh_target) = w.(ow_hook).(oh_target) /\
  w'.(ow_flights) = w.(ow_flights) /\
  readUpdateTarget w'.(ow_storage) = readUpdateTarget w.(ow_storage).
Proof.
  unfold persistStatus, notifyIfUpdateAvailable.
  destruct (us_update_available d); [|done]. destruct (truthy _); [|done].
  destruct (updateHoldNeedsAttention _); [done|]. case_bool_decide; [done|].
  split_and!; try done. cbn. unfold readUpdateTarget, writeToastSeen. by destruct (st_writable _) eqn:E.
Qed.

Lemma tickJob_reloading w : (tickJob w).(ow_hook).(oh_reloading) = w.(ow_hook).(oh_reloading).
Proof. unfold tickJob. destruct (_ || _); [done|]. by destruct (truthy _). Qed.

Lemma polling_reloading now w : (startJobPolling now w).(ow_hook).(oh_reloading) = w.(ow_hook).(oh_reloading).
Proof. apply tickJob_reloading. Qed.

Lemma loadFailure_reloading now w :
  (handleLoadFailure now w).(ow_hook).(oh_reloading) = w.(ow_hook).(oh_reloading).
Proof.
  unfold handleLoadFailure. destruct (truthy _); [|done]. destruct (oh_cancelled _); [done|].
  etrans; [apply polling_reloading|done].
Qed.

Lemma tick_job_reloading now job h : (tick_job t now job h).(oh_reloading) = h.(oh_reloading).
Proof. by destruct (tick_job_inert t now job h) as (_&_&_&_&E&_). Qed.

Lemma loaded_reloading data now w :
  (applyLoadedStatus data now w).(ow_hook).(oh_reloading) = w.(ow_hook).(oh_reloading).
Proof.
  unfold applyLoadedStatus. destruct (oh_cancelled _); [done|]. destruct data as [d|]; [|done].
  destruct (persist_frame d w) as (E & _). set (w1 := persistStatus d w) in *. clearbody w1.
  destruct (match truthy _ with Some _ => _ | None => false end); [done|].
  destruct (_ || _); [|done]. destruct (us_job d).
  - etrans; [apply polling_reloading|done].
  - etrans; [apply loadFailure_reloading|done].
Qed.

(** The reload starts with such an answer, and with nothing else. *)
Lemma replied_reloads f a now w :
  w.(ow_hook).(oh_reloading) = false -> (replied t f a now w).(ow_hook).(oh_reloading) = true ->
  exists target v, awaited f w = Some target /\ reports a = Some v /\ versionsMatch (Some v) (Some target) = true.
Proof.
  intros Hr Hr'. destruct f as [|target|target| | |], a as [[d|]|version|err]; cbn [replied awaited reports] in *;
    try congruence.
  - by rewrite loaded_reloading, Hr in Hr'.
  - by rewrite loaded_reloading, Hr in Hr'.
  - by rewrite loadFailure_reloading, Hr in Hr'.
  - unfold tick_answered in Hr'. destruct (oh_cancelled _); [congruence|].
    destruct (persist_frame d w) as (E & _). destruct (versionsMatch _ _) eqn:Em.
    + destruct (versionsMatch_truthy _ _ Em) as (x & -> & _). by exists x, d.(us_current).
    + destruct (us_job d); [|congruence]. cbn in Hr'. rewrite tick_job_reloading in Hr'. congruence.
  - unfold tick_answered in Hr'. by destruct (oh_cancelled _); congruence.
  - unfold tick_failed in Hr'. destruct (oh_cancelled _); [congruence|]. cbn in Hr'.
    unfold armRestartTimeout in Hr'. cbn in Hr'. destruct (oh_restartTimer _); cbn in Hr'; congruence.
  - unfold health_answered in Hr'. destruct (oh_cancelled _); [congruence|].
    destruct (versionsMatch _ _) eqn:Em; [|congruence].
    destruct (versionsMatch_truthy _ _ Em) as (x & -> & _).
    destruct version as [v|]; [by exists x, v|by apply versionsMatch_spec in Em as []].
  - unfold check_replied in Hr'. destruct (oh_cancelled _); [congruence|]. cbn in Hr'.
    destruct (persist_frame d w) as (E & _). congruence.
  - unfold check_replied in Hr'. destruct (oh_cancelled _); [congruence|]. cbn in Hr'. congruence.
  - unfold check_replied in Hr'. destruct (oh_cancelled _); [congruence|]. cbn in Hr'. congruence.
  - unfold apply_answered in Hr'. destruct (oh_cancelled _); [congruence|].
    destruct (persist_frame d w) as (E & _ & Et & _). destruct (versionsMatch _ _) eqn:Em.
    + rewrite Et in Em. destruct (versionsMatch_truthy _ _ Em) as (x & E' & _). rewrite E' in *.
      by exists x, d.(us_current).
    + exfalso. destruct (us_job d) as [job|]; [destruct (_ ≟ JobFailed)|];
        rewrite ?polling_reloading in Hr'; cbn in Hr'; congruence.
  - unfold apply_failed in Hr'. destruct (oh_cancelled _); [congruence|].
    destruct (isApplyInProgressError err); [rewrite polling_reloading in Hr'; congruence|].
    destruct err; [destruct (_ && _)|..]; rewrite ?polling_reloading in Hr'; cbn in Hr'; congruence.
  - unfold settings_answered in Hr'. destruct (oh_cancelled _); [congruence|].
    destruct (persist_frame d w) as (E & _). congruence.
Qed.

Lemma oss_step_reloads w e :
  w.(ow_hook).(oh_reloading) = false -> (oss_step t w e).(ow_hook).(oh_reloading) = true ->
  exists target, answers_target w e target.
Proof.
  intros Hr Hr'. destruct e as [id a now|now|now|now|now|now| | | | | |]; cbn [oss_step] in Hr'.
  - destruct (om_get _ id) as [f|] eqn:Ef; [|congruence].
    edestruct replied_reloads as (target & v & Ha & Hv & Hm); [|exact Hr'|]; [exact Hr|].
    exists target, id, a, now, f, v. by destruct f.
  - destruct (due _ _); [|congruence]. cbn in Hr'. destruct (oh_jobTimer _); cbn in Hr'; congruence.
  - destruct (due _ _); [|congruence]. rewrite tickJob_reloading in Hr'. cbn in Hr'. congruence.
  - destruct (due _ _); cbn in Hr'; congruence.
  - destruct (due _ _); cbn in Hr'; congruence.
  - destruct (due _ _); [|congruence]. cbn in Hr'. destruct (oh_cancelled _); cbn in Hr'; congruence.
  - cbn in Hr'. congruence.
  - cbn in Hr'. congruence.
  - unfold apply_call in Hr'. destruct (truthy _); cbn in Hr'; congruence.
  - cbn in Hr'. congruence.
  - cbn in Hr'. unfold dismissProgress in Hr'. cbn in Hr'.
    destruct (_ && negb _); cbn in Hr'; congruence.
  - cbn in Hr'. congruence.
Qed.

(** *** No update was asked for *)

(** No request that waits for a version, and nothing that would send one. *)
Record at_rest (w : OssWorld) : Prop := {
  ar_timer : w.(ow_hook).(oh_jobTimer) = None;
  ar_stored : truthy (readUpdateTarget w.(ow_storage)) = None;
  ar_flights i f : (i, f) ∈ w.(ow_flights) -> match f with FlLoad | FlCheck | FlSettings => True | _ => False end;
}.

Lemma persist_rest d w : at_rest w -> at_rest (persistStatus d w).
Proof.
  intros []. destruct (persist_frame d w) as (_ & E1 & _ & E2 & E3).
  split; rewrite ?E1, ?E2, ?E3; done.
Qed.

Lemma send_rest f w :
  match f with FlLoad | FlCheck | FlSettings => True | _ => False end -> at_rest w -> at_rest (oss_send f w).
Proof.
  intros Hf []. split; cbn; try done. intros i g [Hi|Hi]%elem_of_app; [by eapply ar_flights0|].
  apply list_elem_of_singleton in Hi. by simplify_eq.
Qed.

Lemma upd_rest f w :
  (forall h, h.(oh_jobTimer) = None -> (f h).(oh_jobTimer) = None) -> at_rest w -> at_rest (upd f w).
Proof. intros Hf []. split; cbn; auto. Qed.

Lemma replied_rest f a now w :
  match f with FlLoad | FlCheck | FlSettings => True | _ => False end ->
  (forall d, a = AnsStatus (Some d) -> uj_state <$> d.(us_job) <> Some JobApplying) ->
  at_rest w -> at_rest (replied t f a now w).
Proof.
  intros Hf Ha Hw. destruct f, a as [[d|]|version|err]; cbn [replied]; try done.
  - unfold applyLoadedStatus. destruct (oh_cancelled _); [done|].
    apply (persist_rest d) in Hw. rewrite (ar_stored _ Hw).
    rewrite bool_decide_eq_false_2 by (by apply Ha). done.
  - unfold applyLoadedStatus. by destruct (oh_cancelled _).
  - unfold handleLoadFailure. by rewrite (ar_stored _ Hw).
  - unfold check_replied. destruct (oh_cancelled _); [done|]. by apply upd_rest, persist_rest.
  - unfold check_replied. destruct (oh_cancelled _); [done|]. by apply upd_rest.
  - unfold check_replied. destruct (oh_cancelled _); [done|]. by apply upd_rest.
  - unfold settings_answered. destruct (oh_cancelled _); [done|]. by apply persist_rest.
Qed.

Lemma oss_step_rest w e :
  e <> OuApply ->
  (forall id d now, e = OuReply id (AnsStatus (Some d)) now -> uj_state <$> d.(us_job) <> Some JobApplying) ->
  at_rest w -> at_rest (oss_step t w e).
Proof.
  intros Hne He Hw. destruct e as [id a now|now|now|now|now|now| | | | | |]; cbn [oss_step]; try done.
  - destruct (om_get _ id) as [f|] eqn:E; [|done]. apply om_get_Some_elem in E.
    apply replied_rest; [by apply (ar_flights _ Hw id)|by intros d ->; eapply He|].
    destruct Hw. split; cbn; try done. intros i g Hi%om_elem_delete. by apply (ar_flights0 i), Hi.
  - destruct (due _ _); [|done]. assert (Hp : at_rest (upd (fun h => h <| oh_pollTimer := Some (now + OSS_UPDATE_POLL_MS) |>) w))
      by by apply upd_rest.
    cbv zeta. destruct (oh_jobTimer _); [done|]. by apply send_rest.
  - by rewrite (ar_timer _ Hw).
  - destruct (due _ _); [|done]. by apply upd_rest.
  - destruct (due _ _); [|done]. by apply upd_rest.
  - destruct (due _ _); [|done]. assert (Hp : at_rest (upd (fun h => h <| oh_flash := None |>) w)) by by apply upd_rest.
    destruct (oh_cancelled _); [done|]. destruct Hp. by split.
  - by apply send_rest.
  - by apply send_rest, upd_rest.
  - by apply send_rest.
  - apply upd_rest; [|done]. intros h. unfold dismissProgress. by destruct (_ && negb _).
  - by apply upd_rest.
Qed.

Lemma rest_or_asked s now events :
  at_rest (oss_run t events (oss_mount s now)) \/ update_asked s events.
Proof.
  destruct (truthy (readUpdateTarget s)) as [v|] eqn:Es; [right; left; by rewrite Es|].
  unfold oss_run. induction events as [|e l IH] using rev_ind.
  - left. split; cbn; try done. by intros i f [= -> ->]%list_elem_of_singleton.
  - assert (Hmono : update_asked s l -> update_asked s (l ++ [e])).
    { intros [H|[H|(id & d & at_ & Hin & H)]]; [by left| |]; right; [left|right; exists id, d, at_];
        rewrite ?elem_of_app; auto. }
    destruct IH as [IH|IH]; [|right; auto]. rewrite foldl_app. cbn [foldl].
    destruct e as [id a at_| | | | | | | | | | |]; try (left; by apply oss_step_rest).
    + destruct a as [[d|]|version|err]; try (left; by apply oss_step_rest).
      destruct (decide (uj_state <$> d.(us_job) = Some JobApplying)) as [Hj|Hj].
      * right. right. right. exists id, d, at_. split; [|done]. apply elem_of_app. right. left.
      * left. apply oss_step_rest; [done| |done]. by intros ? ? ? [= -> -> ->].
    + right. right. left. apply elem_of_app. right. left.
Qed.

Lemma first_reload w events :
  w.(ow_hook).(oh_reloading) = false -> (oss_run t events w).(ow_hook).(oh_reloading) = true ->
  exists pre e post target, events = pre ++ e :: post /\ answers_target (oss_run t pre w) e target.
Proof.
  unfold oss_run. revert w. induction events as [|e l IH]; intros w Hr Hr'; cbn [foldl] in *; [congruence|].
  destruct (oss_step t w e).(ow_hook).(oh_reloading) eqn:E.
  - destruct (oss_step_reloads w e Hr E) as (target & H). by exists [], e, l, target.
  - destruct (IH _ E Hr') as (pre & e' & post & target & -> & H). by exists (e :: pre), e', post, target.
Qed.

(** C25: the page reloads itself at most once, and only in an update: by then the user had asked
    for one, or the tab had stored its target, or a status said that the server was applying one.
    The reload starts with the answer to a poll, to the health check after it, or to the request
    to apply, and that answer reports the very version this request was waiting for, which the
    storage of the tab held or a status had announced: no failure, no timeout, no late answer and
    no other request makes the page reload. *)
Theorem reload_needs_target s now events :
  let w := oss_run t events (oss_mount s now) in
  0 <= w.(ow_reloads) <= 1 /\
  (0 < w.(ow_reloads) ->
   exists pre id a at_ post f v target,
     events = pre ++ OuReply id a at_ :: post /\ update_asked s pre /\
     om_get (oss_run t pre (oss_mount s now)).(ow_flights) id = Some f /\
     awaited f (oss_run t pre (oss_mount s now)) = Some target /\
     reports a = Some v /\ versionsMatch (Some v) (Some target) = true /\ known_by s pre target).
Proof.
  intros w. pose proof (oss_run_wf s now events) as Hw. fold w in Hw. destruct Hw.
  pose proof (flashing_nonneg (ow_hook w)). split; [lia|]. intros Hr.
  destruct (oh_reloading (ow_hook w)) eqn:E; [|specialize (wf_idle0 eq_refl); lia].
  destruct (first_reload (oss_mount s now) events eq_refl E)
    as (pre & e & post & target & -> & id & a & at_ & f & v & -> & Hf & Ht & Hv & Hm).
  exists pre, id, a, at_, post, f, v, target. split; [done|]. split; [|split_and!; try done].
  - destruct (rest_or_asked s now pre) as [Hrest|]; [|done]. exfalso.
    apply om_get_Some_elem in Hf. pose proof (ar_flights _ Hrest id f Hf). by destruct f.
  - pose proof (oss_run_wf s now pre) as []. apply om_get_Some_elem in Hf.
    destruct f; try done; cbn [awaited] in Ht; eauto.
Qed.

(** A version is announced once: no toast repeats the one before it, nor the first the one the
    tab had shown before the page opened, and each announces the latest version of a status that
    has an update and leaves none to the banner of updates held back. *)
Theorem toasts_once s now events :
  let w := oss_run t events (oss_mount s now) in
  no_repeat (option_list (readToastSeen s) ++ w.(ow_toasts)) /\
  Forall (fun v => exists id d at_, OuReply id (AnsStatus (Some d)) at_ ∈ events /\
            d.(us_update_available) = true /\ truthy d.(us_latest) = Some v /\
            updateHoldNeedsAttention (Some d) = false) w.(ow_toasts).
Proof. intros w. pose proof (oss_run_wf s now events) as Hw. fold w in Hw. by destruct Hw. Qed.

(** Whatever percentages the server sends, negative, above 100, infinite or not numbers, the
    progress shown lies between 0 and 100. *)
Theorem progress_is_a_percentage s now events :
  let x := (oss_run t events (oss_mount s now)).(ow_hook).(oh_progressPercent) in
  num_le (num_of_Z 0) x = true /\ num_le x (num_of_Z 100) = true.
Proof. intros x. pose proof (oss_run_wf s now events) as Hw. by destruct Hw. Qed.
End runs.
