(* ===== verification/OssUpdatesLive.v ===== *)
(** How an update ends, by [OssUpdates]: a server that comes back reloads the page, one that does
    not ends in an error; a page opened on the way takes the update up; an unmounted hook is
    silent. Then the updates that do not end. *)
From S2P Require Import Prelude JsString JsCollections JsNum Json ApiErrors OssUpdates OssUpdatesProps.

Section endings.
Context (t : jstr -> list (jstr * Json) -> jstr).

(** ** The server runs the target *)

(** A reload under way, due at [at_] or done, [n] reloads having come before it. *)
Record reload_due (n at_ : Z) (w : OssWorld) : Prop := {
  rd_reloading : w.(ow_hook).(oh_reloading) = true;
  rd_mounted : w.(ow_hook).(oh_cancelled) = false;
  rd_timer : w.(ow_hook).(oh_flash) = Some at_ /\ w.(ow_reloads) = n
             \/ w.(ow_hook).(oh_flash) = None /\ w.(ow_reloads) = n + 1;
}.

Instance reload_due_holds n at_ :
  HoldsOn (fun _ => True) (fun _ => True) True (reload_due n at_).
Proof.
  split; try done.
  - intros f w Hf []. destruct (Hf (ow_hook w)) as (_&_&_&E1&E2&E3&_).
    split; cbn; by rewrite ?E1, ?E2, ?E3.
  - intros v w _ []. by split.
  - intros f w _ []. by split.
  - intros now w _ []. unfold upd, flashAndReload. rewrite rd_reloading0. by split.
  - intros d w _ []. unfold persistStatus, notifyIfUpdateAvailable.
    destruct (us_update_available d); [|by split]. destruct (truthy _); [|by split].
    destruct (updateHoldNeedsAttention _); [by split|]. case_bool_decide; by split.
  - intros w []. by split.
  - intros v w _ []. by split.
  - intros id w []. by split.
  - intros t' now w []. cbn [oss_step]. destruct (due _ _) eqn:E; [|by split].
    rewrite rd_mounted0. destruct rd_timer0 as [[Ef En]|[Ef _]]; [|by rewrite Ef in E].
    split; cbn; [done..|]. right. split; [done|lia].
Qed.

Lemma reload_due_run n at_ events w :
  Forall (fun e => e <> OuUnmount) events -> reload_due n at_ w -> reload_due n at_ (oss_run t events w).
Proof.
  intros He. revert w. induction He as [|e l He _ IH]; intros w Hw; [done|]. apply IH.
  eapply oss_step_holds; [apply reload_due_holds| |by intros ->|done].
  intros id a now _. by split; [split|].
Qed.

(** An answer to a poll of the target, which says that the server runs it. *)
Definition back_on (target v : jstr) (f : Flight) (a : Answer) : Prop :=
  (f = FlTick (Some target) \/ f = FlHealth (Some target)) /\
  match f, a with
  | FlTick _, AnsStatus (Some d) => d.(us_current) = v
  | FlHealth _, AnsHealth (Some v') => v' = v
  | _, _ => False
  end.

(** C6: an update finishes: when a poll, or the health check that follows one that failed, says
    that the server runs the version waited for, the page reloads half a second later, once,
    whatever happens meanwhile short of the unmount: late answers, other timers, other calls. *)
Theorem finished_update_reloads w id f a now target v events :
  w.(ow_hook).(oh_cancelled) = false -> w.(ow_hook).(oh_reloading) = false -> 
  om_get w.(ow_flights) id = Some f -> back_on target v f a -> versionsMatch (Some v) (Some target) = true ->
  Forall (fun e => e <> OuUnmount) events ->
  let w' := oss_run t (OuReply id a now :: events) w in
  (oss_step t w' (OuFlashTimer (now + OSS_UPDATE_RELOAD_FLASH_MS))).(ow_reloads) = w.(ow_reloads) + 1.
Proof.
  intros Hc Hr Hf Hb Hm Hev w'.
  assert (Hw' : reload_due w.(ow_reloads) (now + OSS_UPDATE_RELOAD_FLASH_MS) w').
  { change w' with (oss_run t events (oss_step t w (OuReply id a now))).
    apply reload_due_run; [done|]. cbn [oss_step]. rewrite Hf.
    set (w1 := w <| ow_flights := _ |>).
    assert (Hflash : forall w2, w2.(ow_hook).(oh_cancelled) = false -> w2.(ow_hook).(oh_reloading) = false ->
      w2.(ow_reloads) = w.(ow_reloads) ->
      reload_due w.(ow_reloads) (now + OSS_UPDATE_RELOAD_FLASH_MS) (upd (flashAndReload now) w2)).
    { intros w2 Hc2 Hr2 Hn. unfold upd, flashAndReload. rewrite Hc2, Hr2. split; cbn; auto. }
    destruct Hb as [[-> | ->] Hb]; destruct a as [[d|]|[v'|]|err]; try done; subst;
      cbn [replied]; unfold tick_answered, health_answered; cbn [w1 ow_hook set]; rewrite Hc.
    - rewrite Hm. apply Hflash; unfold persistStatus, notifyIfUpdateAvailable;
        destruct (us_update_available d); try done; destruct (truthy _); try done;
        destruct (updateHoldNeedsAttention _); try done; by case_bool_decide.
    - rewrite Hm. by apply Hflash. }
  clearbody w'. destruct Hw' as [_ Hc' Ht]. cbn [oss_step]. unfold due. destruct Ht as [[Ef En]|[Ef En]]; rewrite Ef.
  - rewrite Z.leb_refl, Hc'. cbn. lia.
  - done.
Qed.

(** ** The server does not come back *)

Lemma persistStatus_frame d w :
  let w' := persistStatus d w in
  w'.(ow_hook).(oh_applying) = w.(ow_hook).(oh_applying) /\
  w'.(ow_hook).(oh_restartTimer) = w.(ow_hook).(oh_restartTimer) /\
  w'.(ow_hook).(oh_succeededTimer) = w.(ow_hook).(oh_succeededTimer) /\
  w'.(ow_hook).(oh_target) = w.(ow_hook).(oh_target) /\
  w'.(ow_hook).(oh_cancelled) = w.(ow_hook).(oh_cancelled) /\
  readUpdateTarget w'.(ow_storage) = readUpdateTarget w.(ow_storage) /\
  w'.(ow_flights) = w.(ow_flights) /\
  w'.(ow_hook).(oh_showProgress) = w.(ow_hook).(oh_showProgress) /\
  w'.(ow_hook).(oh_applyError) = w.(ow_hook).(oh_applyError).
Proof.
  unfold persistStatus, notifyIfUpdateAvailable.
  destruct (us_update_available d); [|done]. destruct (truthy _); [|done].
  destruct (updateHoldNeedsAttention _); [done|]. case_bool_decide; [done|].
  split_and!; try done. cbn. unfold readUpdateTarget, writeToastSeen. by destruct (st_writable _) eqn:E.
Qed.

Definition flight_waits (busy : Prop) (target : jstr) (f : Flight) : Prop :=
  match f with FlTick v | FlHealth v => v = Some target | FlApply => ~ busy | _ => True end.

(** Waiting for [target], at the latest until [deadline] if there is one; [busy]: no request to
    apply is under way, so that the page says it is applying. *)
Record waits (busy : Prop) (target : jstr) (deadline : option Z) (w : OssWorld) : Prop := {
  wt_named : target <> [];
  wt_mounted : w.(ow_hook).(oh_cancelled) = false;
  wt_applying : busy -> w.(ow_hook).(oh_applying) = true;
  wt_restart : w.(ow_hook).(oh_restartTimer) = deadline;
  wt_succeeded : w.(ow_hook).(oh_succeededTimer) = None;
  wt_target : w.(ow_hook).(oh_target) = Some target;
  wt_stored v : readUpdateTarget w.(ow_storage) = Some v -> v = target;
  wt_flights i f : (i, f) ∈ w.(ow_flights) -> flight_waits busy target f;
}.



Lemma truthy_named (v : jstr) : v <> [] -> truthy (Some v) = Some v.
Proof. by destruct v. Qed.

Section waiting.
Context {busy : Prop} {target : jstr} {deadline : option Z}.
Abbreviation waiting := (waits busy target deadline).

(** An update of the hook that leaves the wait alone. *)
Lemma upd_waits f w :
  (forall h, (f h).(oh_cancelled) = h.(oh_cancelled) /\ (h.(oh_applying) = true -> (f h).(oh_applying) = true) /\
     (f h).(oh_restartTimer) = h.(oh_restartTimer) /\
     (h.(oh_succeededTimer) = None -> (f h).(oh_succeededTimer) = None) /\
     (h.(oh_target) = Some target -> (f h).(oh_target) = Some target)) ->
  waiting w -> waiting (upd f w).
Proof.
  intros Hf []. destruct (Hf (ow_hook w)) as (E1&E2&E3&E4&E5). split; cbn; rewrite ?E1, ?E3; auto.
Qed.

Lemma send_waits f w :
  flight_waits busy target f -> waiting w -> waiting (oss_send f w).
Proof.
  intros Hf []. split; cbn; try done. intros i g [Hi|Hi]%elem_of_app; [by eapply wt_flights0|].
  apply list_elem_of_singleton in Hi. by simplify_eq.
Qed.

Lemma tickJob_waits w : waiting w -> waiting (tickJob w).
Proof.
  intros Hw. unfold tickJob. destruct (_ || _); [done|].
  assert (Ht : currentTarget w = Some target).
  { destruct Hw. unfold currentTarget. rewrite wt_target0.
    by destruct (readUpdateTarget _), (oh_status _ ≫= _). }
  rewrite Ht, truthy_named by (by destruct Hw). apply send_waits; [done|]. apply upd_waits; [|done]. done.
Qed.



Lemma persist_waits d w : waiting w -> waiting (persistStatus d w).
Proof.
  intros []. destruct (persistStatus_frame d w) as (E1&E2&E3&E4&E5&E6&E7&_).
  split; rewrite ?E1, ?E2, ?E3, ?E4, ?E5, ?E6, ?E7; done.
Qed.

End waiting.

Section restarting.
Context (busy : Prop) (target : jstr) (deadline : Z).
Abbreviation waiting := (waits busy target (Some deadline)).




End restarting.



(** ** Another page *)

(** A page that opened on a storage with this target, its first request answered. *)
Record opening (target : jstr) (w : OssWorld) : Prop := {
  op_named : target <> [];
  op_stored : readUpdateTarget w.(ow_storage) = Some target;
  op_readable : w.(ow_storage).(st_readable) = true;
  op_hook : w.(ow_hook).(oh_cancelled) = false /\ w.(ow_hook).(oh_reloading) = false /\
    w.(ow_hook).(oh_applyError) = None /\ w.(ow_hook).(oh_target) = None /\
    w.(ow_hook).(oh_showProgress) = false /\ w.(ow_hook).(oh_applying) = false /\ w.(ow_hook).(oh_jobTimer) = None;
  op_flights : w.(ow_flights) = [];
  op_next : w.(ow_next) = 1;
}.

Lemma persist_opening target d w : opening target w -> opening target (persistStatus d w).
Proof.
  intros []. unfold persistStatus, notifyIfUpdateAvailable.
  destruct (us_update_available d); [|by split]. destruct (truthy _); [|by split].
  destruct (updateHoldNeedsAttention _); [by split|]. case_bool_decide; [by split|].
  split; try done; unfold readUpdateTarget, writeToastSeen in *; cbn; by destruct (st_writable _).
Qed.

(** The page shows the progress of an update to [target] and polls for it. *)
Definition taken_up (target : jstr) (at_ : Z) (w : OssWorld) : Prop :=
  let h := w.(ow_hook) in
  h.(oh_showProgress) = true /\ h.(oh_applying) = true /\ h.(oh_applyError) = None /\
  h.(oh_jobTimer) = Some (at_ + OSS_UPDATE_JOB_POLL_MS) /\ h.(oh_target) = Some target /\
  w.(ow_flights) = [(1, FlTick (Some target))].

Lemma polling_taken_up target at_ w :
  target <> [] -> w.(ow_flights) = [] -> w.(ow_next) = 1 ->
  w.(ow_hook).(oh_cancelled) = false -> w.(ow_hook).(oh_reloading) = false -> w.(ow_hook).(oh_applyError) = None ->
  w.(ow_hook).(oh_target) = Some target -> w.(ow_hook).(oh_showProgress) = true -> w.(ow_hook).(oh_applying) = true ->
  taken_up target at_ (startJobPolling at_ w).
Proof.
  intros Hn Ef En Ec El Ee Et Es Ea. unfold startJobPolling, tickJob, currentTarget. rewrite El, Ec, Et.
  assert (Hu : forall x y : option jstr, Some target ∪ x ∪ y = Some target) by by intros [] [].
  rewrite Hu, truthy_named by done. by repeat split; cbn; rewrite ?Ef, ?En.
Qed.

Lemma failure_taken_up target at_ w :
  target <> [] -> readUpdateTarget w.(ow_storage) = Some target ->
  w.(ow_flights) = [] -> w.(ow_next) = 1 -> w.(ow_hook).(oh_cancelled) = false ->
  w.(ow_hook).(oh_reloading) = false -> w.(ow_hook).(oh_applyError) = None ->
  taken_up target at_ (handleLoadFailure at_ w).
Proof.
  intros Hn Es Ef En Ec El Ee. unfold handleLoadFailure. rewrite Es, truthy_named, Ec by done.
  by apply polling_taken_up.
Qed.

(** An update survives its page: after a call of [apply] for a version, a page opened on the
    storage takes the update up, showing its progress and polling for that version, when it finds
    the server away or on another version; on a server that runs the version it forgets the
    target, and shows nothing. *)
Theorem reopened_page_follows w now a at_ target :
  w.(ow_storage).(st_readable) = true -> w.(ow_storage).(st_writable) = true ->
  target <> [] -> w.(ow_hook).(oh_status) ≫= us_latest = Some target ->
  let s := (oss_step t w OuApply).(ow_storage) in
  let w' := oss_step t (oss_mount s now) (OuReply 0 a at_) in
  let h := w'.(ow_hook) in
  match a with
  | AnsError _ => taken_up target at_ w'
  | AnsStatus (Some d) =>
    if versionsMatch (Some d.(us_current)) (Some target) then
      readUpdateTarget w'.(ow_storage) = None /\ h.(oh_target) = None /\ h.(oh_showProgress) = false /\
      h.(oh_applying) = false /\ h.(oh_jobTimer) = None /\ w'.(ow_flights) = []
    else taken_up target at_ w'
  | _ => h.(oh_showProgress) = false
  end.
Proof.
  intros Hr Hw Hn Hl s w' h.
  assert (Ho : opening target ((oss_mount s now) <| ow_flights := [] |>)).
  { assert (Hs : s = w.(ow_storage) <| st_target := Some target |>).
    { unfold s. cbn [oss_step]. unfold apply_call. rewrite Hl, truthy_named by done. cbn.
      unfold writeUpdateTarget. by rewrite Hw. }
    rewrite Hs. split; try done. unfold readUpdateTarget. cbn. by rewrite Hr. }
  unfold h, w'. clear w' h Hr Hw Hl. clearbody s. cbn [oss_step]. 
  change (om_get (ow_flights (oss_mount s now)) 0) with (Some FlLoad).
  change ((oss_mount s now) <| ow_flights := om_delete (ow_flights (oss_mount s now)) 0 |>)
    with ((oss_mount s now) <| ow_flights := [] |>).
  set (w0 := (oss_mount s now) <| ow_flights := [] |>) in *. clearbody w0. cbn [replied].
  pose proof Ho as [_ Es Er (Ec & El & Ee & Et & Esp & Ea & Ej) Ef En].
  destruct a as [[d|]|v|err]; cbn [replied].
  - unfold applyLoadedStatus. rewrite Ec. apply (persist_opening target d) in Ho.
    set (w1 := persistStatus d w0) in *. clearbody w1. clear w0 Es Er Ec El Ee Et Esp Ea Ej Ef En.
    destruct Ho as [_ Es Er (Ec & El & Ee & Et & Esp & Ea & Ej) Ef En].
    rewrite Es, truthy_named by done. destruct (versionsMatch _ _).
    + unfold clearUpdateTarget. rewrite Er. by unfold readUpdateTarget; cbn; rewrite Er.
    + rewrite (bool_decide_eq_true_2 (is_Some (Some target))), orb_true_r by done. destruct (us_job d) as [job|].
      * apply polling_taken_up; try done. cbn. by destruct (us_latest d).
      * by apply failure_taken_up.
  - unfold applyLoadedStatus. by rewrite Ec.
  - done.
  - by apply failure_taken_up.
Qed.

(** ** After the unmount *)

Definition is_call (e : OssEvent) : bool :=
  match e with OuRefresh | OuCheckNow | OuApply | OuSettings => true | _ => false end.

(** What [w] had announced, reloaded and shown is unchanged, and no timer is armed. *)
Definition silent (w w' : OssWorld) : Prop :=
  w'.(ow_hook).(oh_cancelled) = true /\ w'.(ow_toasts) = w.(ow_toasts) /\ w'.(ow_reloads) = w.(ow_reloads) /\
  w'.(ow_hook).(oh_status) = w.(ow_hook).(oh_status) /\
  w'.(ow_hook).(oh_jobTimer) = None /\ w'.(ow_hook).(oh_restartTimer) = None /\
  w'.(ow_hook).(oh_succeededTimer) = None /\ w'.(ow_hook).(oh_pollTimer) = None.

Lemma replied_cancelled f a now w : w.(ow_hook).(oh_cancelled) = true -> replied t f a now w = w.
Proof.
  intros Hc. destruct f, a as [[d|]|v|err]; cbn [replied]; try done;
    unfold applyLoadedStatus, handleLoadFailure, tick_answered, tick_failed, health_answered, check_replied,
      apply_answered, apply_failed, settings_answered; rewrite ?Hc; try done; by destruct (truthy _).
Qed.

Lemma silent_step w w' e : silent w w' -> silent w (oss_step t w' e).
Proof.
  intros (Hc & H1 & H2 & H3 & H4 & H5 & H6 & H7).
  destruct e as [id a now|now|now|now|now|now| | | | | |]; cbn [oss_step]; rewrite ?H4, ?H5, ?H6, ?H7; cbn [due];
    try by split_and!.
  - destruct (om_get _ id); [|by split_and!]. rewrite replied_cancelled by done. by split_and!.
  - destruct (due _ _); [|by split_and!]. rewrite Hc. by split_and!.
  - unfold apply_call. destruct (truthy _); by split_and!.
  - unfold dismissProgress, upd. destruct (_ && negb _) eqn:E; split_and!; cbn; rewrite ?E; done.
Qed.

Lemma no_call_flights w e :
  w.(ow_hook).(oh_cancelled) = true -> w.(ow_hook).(oh_pollTimer) = None -> w.(ow_hook).(oh_jobTimer) = None ->
  is_call e = false -> (oss_step t w e).(ow_flights) ⊆ w.(ow_flights).
Proof.
  intros Hc Hp Hj He. destruct e as [id a now|now|now|now|now|now| | | | | |]; try done; cbn [oss_step];
    rewrite ?Hp, ?Hj; cbn [due]; try done.
  - destruct (om_get _ id); [|done]. rewrite replied_cancelled by done. cbn. intros x Hx%om_elem_delete. apply Hx.
  - by destruct (due _ _).
  - by destruct (due _ _).
  - destruct (due _ _); [|done]. by rewrite Hc.
Qed.

Lemma silent_run w w' events : silent w w' -> silent w (oss_run t events w').
Proof. revert w'. induction events as [|e l IH]; intros w' H; [done|]. by apply IH, silent_step. Qed.

Lemma no_call_run w w' events :
  silent w w' -> Forall (fun e => is_call e = false) events -> (oss_run t events w').(ow_flights) ⊆ w'.(ow_flights).
Proof.
  intros H Hev. revert w' H. induction Hev as [|e l He _ IH]; intros w' H; [done|].
  etrans; [by apply IH, silent_step|]. by apply no_call_flights; [apply H..|].
Qed.

(** An unmounted hook is silent: whatever answers arrive after the unmount, and whatever is
    still called, there is no toast, no reload, no new status, and no timer runs; and without a
    call no request is sent. *)
Theorem unmounted_is_silent w events :
  let w' := oss_run t events (oss_step t w OuUnmount) in
  silent w w' /\ (Forall (fun e => is_call e = false) events -> w'.(ow_flights) ⊆ w.(ow_flights)).
Proof.
  intros w'. assert (H0 : silent w (oss_step t w OuUnmount)) by by split_and!.
  split; [by apply silent_run|]. intros Hev. etrans; [by apply (no_call_run w)|]. done.
Qed.

(** ** Updates that do not end *)

(** Waiting for [target] with the progress shown, no error and no timer that would end it. *)
Definition stuck (target : jstr) (w : OssWorld) : Prop :=
  waits True target None w /\ readUpdateTarget w.(ow_storage) = Some target /\
  w.(ow_hook).(oh_showProgress) = true /\ w.(ow_hook).(oh_applyError) = None.

(** A status of a server that runs another version, has no job, and offers the target. *)
Definition nothing_to_do (target : jstr) (d : OssUpdateStatus) : Prop :=
  versionsMatch (Some d.(us_current)) (Some target) = false /\
  exists job, d.(us_job) = Some job /\ job.(uj_state) = JobIdle.

Definition quiet_event (target : jstr) (e : OssEvent) : Prop :=
  match e with
  | OuReply _ (AnsStatus (Some d)) _ => nothing_to_do target d
  | OuReply _ _ _ | OuApply | OuUnmount => False
  | _ => True
  end.

Lemma startJobPolling_shown now w :
  (startJobPolling now w).(ow_hook).(oh_showProgress) = w.(ow_hook).(oh_showProgress) /\
  (startJobPolling now w).(ow_hook).(oh_applyError) = w.(ow_hook).(oh_applyError) /\
  (startJobPolling now w).(ow_storage) = w.(ow_storage).
Proof.
  unfold startJobPolling, tickJob. destruct (_ || _); [done|]. by destruct (truthy _).
Qed.
Lemma tickJob_shown w :
  (tickJob w).(ow_hook).(oh_showProgress) = w.(ow_hook).(oh_showProgress) /\
  (tickJob w).(ow_hook).(oh_applyError) = w.(ow_hook).(oh_applyError) /\
  (tickJob w).(ow_storage) = w.(ow_storage).
Proof. unfold tickJob. destruct (_ || _); [done|]. by destruct (truthy _). Qed.

(** An update of the hook that leaves a stuck page alone. *)
Lemma upd_stuck target f w :
  (forall h, (f h).(oh_cancelled) = h.(oh_cancelled) /\ (h.(oh_applying) = true -> (f h).(oh_applying) = true) /\
     (f h).(oh_restartTimer) = h.(oh_restartTimer) /\
     (h.(oh_succeededTimer) = None -> (f h).(oh_succeededTimer) = None) /\
     (h.(oh_target) = Some target -> (f h).(oh_target) = Some target) /\
     (h.(oh_showProgress) = true -> (f h).(oh_showProgress) = true) /\
     (h.(oh_applyError) = None -> (f h).(oh_applyError) = None)) ->
  stuck target w -> stuck target (upd f w).
Proof.
  intros Hf (Hw & Hs & Hp & He). split_and!.
  - apply upd_waits; [|done]. intros h. destruct (Hf h) as (?&?&?&?&?&_). done.
  - done.
  - by apply (Hf (ow_hook w)).
  - by apply (Hf (ow_hook w)).
Qed.

Lemma persist_stuck target d w : stuck target w -> stuck target (persistStatus d w).
Proof.
  intros (Hw & Hs & Hp & He). destruct (persistStatus_frame d w) as (_&_&_&_&_&E6&_&E8&E9).
  split_and!; [by apply persist_waits|by rewrite E6|by rewrite E8|by rewrite E9].
Qed.

Lemma tickJob_stuck target w : stuck target w -> stuck target (tickJob w).
Proof.
  intros (Hw & Hs & Hp & He). destruct (tickJob_shown w) as (E1 & E2 & E3).
  split_and!; [by apply tickJob_waits|by rewrite E3|by rewrite E1|by rewrite E2].
Qed.

Lemma polling_stuck target now w : stuck target w -> stuck target (startJobPolling now w).
Proof. intros Hw. apply upd_stuck; [done|by apply tickJob_stuck]. Qed.

Lemma send_stuck target f w :
  flight_waits True target f ->
  stuck target w -> stuck target (oss_send f w).
Proof. intros Hf (Hw & Hs & Hp & He). split_and!; try done. by apply send_waits. Qed.

Lemma replied_stuck target f d now w :
  nothing_to_do target d -> flight_waits True target f ->
  stuck target w -> stuck target (replied t f (AnsStatus (Some d)) now w).
Proof.
  intros (Hm & job & Ej & Es) Hf Hw. assert (Hc : w.(ow_hook).(oh_cancelled) = false) by by destruct Hw as [[] _].
  destruct f as [|v|v| | |]; cbn [replied]; try done.
  - unfold applyLoadedStatus. rewrite Hc. apply (persist_stuck target d) in Hw.
    set (w1 := persistStatus d w) in *. clearbody w1. pose proof Hw as (Hwt & Hst & _).
    rewrite Hst, truthy_named, Hm, (bool_decide_eq_true_2 (is_Some (Some target))), orb_true_r, Ej
      by (done || by destruct Hwt).
    apply polling_stuck, upd_stuck; [done|]. apply upd_stuck; [|done].
    intros h. split_and!; try done. cbn. by destruct (us_latest d).
  - unfold tick_answered. rewrite Hc. apply (persist_stuck target d) in Hw.
    rewrite Hf, Hm, Ej. apply upd_stuck; [|done]. unfold tick_job. by rewrite Es.
  - unfold check_replied. rewrite Hc. by apply upd_stuck, persist_stuck.
  - unfold settings_answered. rewrite Hc. by apply persist_stuck.
Qed.

Lemma oss_step_stuck target w e : quiet_event target e -> stuck target w -> stuck target (oss_step t w e).
Proof.
  intros He Hw. pose proof Hw as (Hwt & Hst & Hp & Hne).
  destruct e as [id a now|now|now|now|now|now| | | | | |]; cbn [oss_step]; try done.
  - destruct a as [[d|]|v|err]; try done. destruct (om_get _ id) as [f|] eqn:E; [|done].
    apply om_get_Some_elem in E. apply replied_stuck; [done|by apply (wt_flights _ _ _ _ Hwt id)|].
    split_and!; try done. destruct Hwt. split; try done. intros i g Hi%om_elem_delete. by apply (wt_flights0 i), Hi.
  - destruct (due _ _); [|done]. cbv zeta.
    assert (Hq : stuck target (upd (fun h => h <| oh_pollTimer := Some (now + OSS_UPDATE_POLL_MS) |>) w)).
    { by apply upd_stuck. }
    destruct (oh_jobTimer _); [done|]. by apply send_stuck.
  - destruct (due _ _); [|done]. by apply tickJob_stuck, upd_stuck.
  - by rewrite (wt_restart _ _ _ _ Hwt).
  - by rewrite (wt_succeeded _ _ _ _ Hwt).
  - destruct (due _ _); [|done].
    assert (Hq : stuck target (upd (fun h => h <| oh_flash := None |>) w)) by by apply upd_stuck.
    destruct (oh_cancelled _); [done|]. destruct Hq as ([] & ? & ? & ?). by split_and!.
  - by apply send_stuck.
  - by apply send_stuck, upd_stuck.
  - by apply send_stuck.
  - unfold upd, dismissProgress. rewrite Hne, (wt_applying _ _ _ _ Hwt I). cbn.
    apply (upd_stuck target (fun h => h <| oh_showProgress := h.(oh_showProgress) && true |>)); [|done].
    intros h. split_and!; try done. cbn. by intros ->.
Qed.

Lemma stuck_run target w events :
  Forall (quiet_event target) events -> stuck target w -> stuck target (oss_run t events w).
Proof.
  intros He. revert w. induction He as [|e l He _ IH]; intros w Hw; [done|]. by apply IH, oss_step_stuck.
Qed.
End endings.

(** ** Concrete runs *)

(** Evaluates every goal that is not quantified. *)
Ltac by_vm := lazymatch goal with |- forall _, _ => idtac | |- Forall _ _ => idtac | |- _ => by vm_compute end.

Definition t0 (key : jstr) (_ : list (jstr * Json)) : jstr := key.
Definition empty_storage : UpdateStorage :=
  {| st_readable := true; st_writable := true; st_target := None; st_toastSeen := None |}.
Definition job_of (state : OssUpdateJobState) (phase : option OssUpdateJobPhase) : OssUpdateJob :=
  {| uj_state := state; uj_phase := phase; uj_percent := None; uj_error := None |}.
Definition status_of (current : string) (job : OssUpdateJob) : OssUpdateStatus :=
  {| us_current := js current; us_latest := Some (js "1.1.0"); us_update_available := true; us_apply_supported := true;
     us_auto_update := false; us_auto_update_held := None; us_job := Some job |}.
Definition idle_status : Answer := AnsStatus (Some (status_of "1.0.0" (job_of JobIdle None))).

(** An update the server refused: the target stays in the storage, and the next check of the
    status shows the progress of an update nobody started. *)
Definition refused : list OssEvent :=
  [OuReply 0 idle_status 1; OuApply;
   OuReply 1 (AnsError (ErrApi {| ae_message := js "update_not_available"; ae_status := 409;
                                  ae_detail := Some (Jstring (js "update_not_available")) |})) 2;
   OuDismiss; OuPollTimer 300000; OuReply 2 idle_status 300001].

(** Once a refused update is taken for one under way, it never ends: as long as the server says
    it has nothing to do, the progress stays on screen with no error, no timer that would end it,
    and cannot be dismissed. *)
Theorem refused_update_never_ends events :
  Forall (quiet_event (js "1.1.0")) events ->
  stuck (js "1.1.0") (oss_run t0 (refused ++ events) (oss_mount empty_storage 0)).
Proof.
  intros Hev. unfold oss_run. rewrite foldl_app. apply stuck_run; [done|]. clear.
  set (w := foldl _ _ refused).
  assert (Hs : readUpdateTarget w.(ow_storage) = Some (js "1.1.0")) by by vm_compute.
  assert (Hf : w.(ow_flights) = [(3, FlTick (Some (js "1.1.0")))]) by by vm_compute.
  split; [split; by_vm|split_and!; by_vm].
  - intros _. by vm_compute.
  - intros v. rewrite Hs. by intros [= <-].
  - intros i f. rewrite Hf. by intros [= -> ->]%list_elem_of_singleton.
Qed.

(** A failed update comes back: dismissed, its progress is shown again by the next check of the
    status, as the target is never cleared. *)
Definition failed_status : Answer := AnsStatus (Some (status_of "1.0.0" (job_of JobFailed (Some PhInstalling)))).
Definition failed_update : list OssEvent :=
  [OuReply 0 idle_status 1; OuApply; OuReply 1 failed_status 2; OuDismiss].
Example failed_update_comes_back :
  let w := oss_run t0 failed_update (oss_mount empty_storage 0) in
  let w' := oss_run t0 [OuPollTimer 300000; OuReply 2 failed_status 300001] w in
  w.(ow_hook).(oh_showProgress) = false /\ w.(ow_hook).(oh_applyError) = None /\
  w'.(ow_hook).(oh_showProgress) = true /\ w'.(ow_hook).(oh_applying) = true.
Proof. by vm_compute. Qed.

(** Answers out of order: the failure of the job is answered first, and the answer to an earlier
    poll then hides it. Nothing polls any more; the next checks of the status find the job failed
    and leave the progress on screen. *)
Definition working_status : Answer := AnsStatus (Some (status_of "1.0.0" (job_of JobApplying (Some PhInstalling)))).
Example late_answer_hides_failure :
  let w := oss_run t0 [OuReply 0 working_status 1; OuJobTimer 1501; OuReply 2 failed_status 1600;
                       OuReply 1 working_status 1700; OuPollTimer 300000; OuReply 3 failed_status 300001;
                       OuDismiss] (oss_mount empty_storage 0) in
  w.(ow_hook).(oh_applying) = true /\ w.(ow_hook).(oh_showProgress) = true /\ w.(ow_hook).(oh_applyError) = None /\
  w.(ow_hook).(oh_jobTimer) = None /\ w.(ow_hook).(oh_restartTimer) = None /\ w.(ow_flights) = [].
Proof. by vm_compute. Qed.

(** ** Witnesses *)

Definition done_status : Answer := AnsStatus (Some (status_of "v1.1.0" (job_of JobSucceeded (Some PhDone)))).
Definition apply_events : list OssEvent := [OuReply 0 idle_status 1; OuApply; OuReply 1 working_status 2].

Lemma reload_needs_target_witness :
  0 < (oss_run t0 (apply_events ++ [OuReply 2 done_status 100; OuFlashTimer 600]) (oss_mount empty_storage 0)).(ow_reloads) <= 1.
Proof.
  split; [by vm_compute|].
  apply (reload_needs_target t0 empty_storage 0 (apply_events ++ [OuReply 2 done_status 100; OuFlashTimer 600])).
Defined.

Lemma finished_update_reloads_witness :
  let w := oss_run t0 apply_events (oss_mount empty_storage 0) in
  let w' := oss_run t0 (OuReply 2 done_status 100 :: [OuJobTimer 1501; OuDismiss]) w in
  (oss_step t0 w' (OuFlashTimer (100 + OSS_UPDATE_RELOAD_FLASH_MS))).(ow_reloads) = 1.
Proof.
  intros w w'. change 1 with (w.(ow_reloads) + 1).
  apply (finished_update_reloads t0 w 2 (FlTick (Some (js "1.1.0"))) done_status 100 (js "1.1.0") (js "v1.1.0")
           [OuJobTimer 1501; OuDismiss]); try by_vm.
  - split; [by left|]. by vm_compute.
  - by repeat constructor.
Defined.


Lemma reopened_page_follows_witness :
  let w := oss_run t0 [OuReply 0 idle_status 1] (oss_mount empty_storage 0) in
  let s := (oss_step t0 w OuApply).(ow_storage) in
  taken_up (js "1.1.0") 2000 (oss_step t0 (oss_mount s 1000) (OuReply 0 idle_status 2000)).
Proof.
  intros w s.
  pose proof (reopened_page_follows t0 w 1000 idle_status 2000 (js "1.1.0") eq_refl eq_refl ltac:(by vm_compute)
    ltac:(by vm_compute)) as H.
  assert (E : versionsMatch (Some (js "1.0.0")) (Some (js "1.1.0")) = false) by by vm_compute.
  cbv beta zeta iota delta [idle_status status_of us_current] in H. rewrite E in H. exact H.
Defined.

Lemma unmounted_is_silent_witness :
  (oss_run t0 [OuReply 2 done_status 100; OuFlashTimer 600]
     (oss_step t0 (oss_run t0 apply_events (oss_mount empty_storage 0)) OuUnmount)).(ow_flights)
  ⊆ (oss_run t0 apply_events (oss_mount empty_storage 0)).(ow_flights).
Proof.
  apply (unmounted_is_silent t0 (oss_run t0 apply_events (oss_mount empty_storage 0))
           [OuReply 2 done_status 100; OuFlashTimer 600]).
  by repeat constructor.
Defined.
