(* ===== verification/RadioWifi.v ===== *)
(** The Wi-Fi state of the radio: [stores/radioWifiStore.ts].

    The variables of the module are a record; requests are put in flight with what their
    continuation closed over, and answered by a later event, in any order. [state === current]
    compares objects: a state carries the identity of its object. What [loadRadioWifi] resolves
    to is for its caller and is left out, as are the listeners, which read the snapshot. *)
From S2P Require Import Prelude JsString JsCollections JsNum Json.

(** ** Types *)

Inductive WifiCheck := CheckPending | CheckDone | CheckFailed.
#[export] Instance WifiCheck_eq_dec : EqDecision WifiCheck.
Proof. solve_decision. Defined.

(** What the store reads of a state; [rws_object] is its identity as an object. *)
Record RadioWifiState := {
  rws_object : Z;
  rws_check : WifiCheck;
  rws_supported : option bool;
  rws_enabled : option bool;
  rws_connected : option bool;
  rws_ip : option jstr;
}.

(** What the client's own logic reads of a health report; the rest is only shown. *)
Record RadioHealth := {
  hl_radio_connected : bool;
  hl_radio_initializing : bool;
  hl_radio_state : option jstr;
  hl_shown : Json;
}.
#[export] Instance RadioHealth_eta : Eta RadioHealth :=
  fun h => Build_RadioHealth h.(hl_radio_connected) h.(hl_radio_initializing) h.(hl_radio_state) h.(hl_shown).

Definition PENDING_RELOAD_MS : Z := 3000.
Definition REBOOT_WATCH_MS : Z := 5 * 60000.

Inductive RebootWatch := WatchIdle | WatchArmed | WatchReturning.
#[export] Instance RebootWatch_eq_dec : EqDecision RebootWatch.
Proof. solve_decision. Defined.

(** ** The store *)

Record WifiStore := {
  wi_current : option RadioWifiState;
  wi_version : Z;
  wi_ready : bool;
  wi_loadFailed : bool;
  wi_reload : option Z;
  wi_watch : RebootWatch;
  wi_deadline : Z;
  wi_handler : bool;
}.
#[export] Instance WifiStore_eta : Eta WifiStore :=
  fun s => Build_WifiStore s.(wi_current) s.(wi_version) s.(wi_ready) s.(wi_loadFailed) s.(wi_reload) s.(wi_watch)
    s.(wi_deadline) s.(wi_handler).

Definition wifi_store0 : WifiStore :=
  {| wi_current := None; wi_version := 0; wi_ready := false; wi_loadFailed := false; wi_reload := None;
     wi_watch := WatchIdle; wi_deadline := 0; wi_handler := false |}.

(** A [loadRadioWifi] under way. *)
Record WifiLoad := { wl_started : Z; wl_refresh : bool }.

(** The store, the requests under way, and the states the handler was called with. *)
Record WifiWorld := {
  ww_store : WifiStore;
  ww_loads : list (Z * WifiLoad);
  ww_next : Z;
  ww_back : list RadioWifiState;
}.
#[export] Instance WifiWorld_eta : Eta WifiWorld :=
  fun w => Build_WifiWorld w.(ww_store) w.(ww_loads) w.(ww_next) w.(ww_back).

Definition wifi_world0 : WifiWorld := {| ww_store := wifi_store0; ww_loads := []; ww_next := 0; ww_back := [] |}.

Definition wifi_upd (f : WifiStore -> WifiStore) (w : WifiWorld) : WifiWorld := w <| ww_store := f w.(ww_store) |>.

Definition wifi_emit (next : option RadioWifiState) (s : WifiStore) : WifiStore :=
  ((s <| wi_current := next |>) <| wi_loadFailed := false |>) <| wi_version := s.(wi_version) + 1 |>.
Definition setLoadFailed (next : bool) (s : WifiStore) : WifiStore := s <| wi_loadFailed := next |>.
Definition cancelPendingReload (s : WifiStore) : WifiStore := s <| wi_reload := None |>.

Definition same_state (a b : option RadioWifiState) : bool := (rws_object <$> a) ≟ (rws_object <$> b).

(** The reboot that is watched, once a state has been set. *)
Definition watch_state (state : RadioWifiState) (now : Z) (w : WifiWorld) : WifiWorld :=
  let s := w.(ww_store) in
  if negb (s.(wi_watch) ≟ WatchReturning) || negb (state.(rws_check) ≟ CheckDone) then w
  else if (s.(wi_deadline) <? now) || (state.(rws_supported) ≟ Some false) || (state.(rws_enabled) ≟ Some false) then
    wifi_upd (fun s => s <| wi_watch := WatchIdle |>) w
  else if (state.(rws_connected) ≟ Some true) && bool_decide (is_Some (truthy state.(rws_ip))) then
    let w := wifi_upd (fun s => s <| wi_watch := WatchIdle |>) w in
    if s.(wi_handler) then w <| ww_back := w.(ww_back) ++ [state] |> else w
  else w.

Definition setRadioWifiState (state : option RadioWifiState) (now : Z) (w : WifiWorld) : WifiWorld :=
  if same_state state w.(ww_store).(wi_current) then w
  else
    let cancel := match state with Some st => negb (st.(rws_check) ≟ CheckPending) | None => false end in
    let w := wifi_upd (fun s => wifi_emit state (if cancel then cancelPendingReload s else s)) w in
    match state with Some st => watch_state st now w | None => w end.

Definition noteWifiRebootStarted (now : Z) (s : WifiStore) : WifiStore :=
  (s <| wi_watch := WatchArmed |>) <| wi_deadline := now + REBOOT_WATCH_MS |>.

Definition setWifiBackWithIpHandler (handler : bool) (s : WifiStore) : WifiStore := s <| wi_handler := handler |>.

(** [loadRadioWifi] up to its request. *)
Definition loadRadioWifi (refresh : bool) (w : WifiWorld) : WifiWorld :=
  (w <| ww_loads := w.(ww_loads) ++ [(w.(ww_next), {| wl_started := w.(ww_store).(wi_version); wl_refresh := refresh |})] |>)
    <| ww_next := w.(ww_next) + 1 |>.

Definition wifi_failed (l : WifiLoad) (w : WifiWorld) : WifiWorld :=
  let s := w.(ww_store) in
  if s.(wi_ready) && (s.(wi_version) =? l.(wl_started)) && negb (bool_decide (is_Some s.(wi_current))) then
    wifi_upd (setLoadFailed true) w
  else w.

Definition wifi_answered (l : WifiLoad) (state : RadioWifiState) (now : Z) (w : WifiWorld) : WifiWorld :=
  if negb w.(ww_store).(wi_ready) then w
  else if negb (w.(ww_store).(wi_version) =? l.(wl_started)) then w
  else
    let w := setRadioWifiState (Some state) now w in
    if (state.(rws_check) ≟ CheckPending) && negb l.(wl_refresh)
       && negb (bool_decide (is_Some w.(ww_store).(wi_reload))) then
      wifi_upd (fun s => s <| wi_reload := Some (now + PENDING_RELOAD_MS) |>) w
    else w.

Definition healthReady (health : option RadioHealth) : bool :=
  match health with
  | None => false
  | Some h =>
    if negb h.(hl_radio_connected) || h.(hl_radio_initializing) then false
    else match h.(hl_radio_state) with None => true | Some st => st ≟ js "connected" end
  end.

Definition noteRadioWifiHealth (health : option RadioHealth) (w : WifiWorld) : WifiWorld :=
  let ready := healthReady health in
  let wasReady := w.(ww_store).(wi_ready) in
  let w := wifi_upd (fun s => s <| wi_ready := ready |>) w in
  if ready && negb wasReady then loadRadioWifi false w
  else if negb ready && wasReady then
    wifi_upd (fun s =>
      let s := cancelPendingReload s in
      wifi_emit None (if s.(wi_watch) ≟ WatchArmed then s <| wi_watch := WatchReturning |> else s)) w
  else w.

Definition refreshRadioWifiAfterReconnect (w : WifiWorld) : WifiWorld :=
  if w.(ww_store).(wi_ready) then loadRadioWifi false w else w.

(** ** Events *)

Inductive WifiEvent :=
  | WiHealth (health : option RadioHealth)
  | WiState (state : RadioWifiState) (now : Z)
  | WiLoad (refresh : bool)
  | WiAnswer (id : Z) (answer : option RadioWifiState) (now : Z)
  | WiReloadTimer (now : Z)
  | WiReconnect
  | WiReboot (now : Z)
  | WiHandler (handler : bool).

Definition wifi_step (w : WifiWorld) (e : WifiEvent) : WifiWorld :=
  match e with
  | WiHealth health => noteRadioWifiHealth health w
  | WiState state now => setRadioWifiState (Some state) now w
  | WiLoad refresh => loadRadioWifi refresh w
  | WiAnswer id answer now =>
    match om_get w.(ww_loads) id with
    | Some l =>
      let w := w <| ww_loads := om_delete w.(ww_loads) id |> in
      match answer with Some state => wifi_answered l state now w | None => wifi_failed l w end
    | None => w
    end
  | WiReloadTimer now =>
    match w.(ww_store).(wi_reload) with
    | Some due =>
      if due <=? now then
        let w := wifi_upd cancelPendingReload w in
        if w.(ww_store).(wi_ready) then loadRadioWifi false w else w
      else w
    | None => w
    end
  | WiReconnect => refreshRadioWifiAfterReconnect w
  | WiReboot now => wifi_upd (noteWifiRebootStarted now) w
  | WiHandler handler => wifi_upd (setWifiBackWithIpHandler handler) w
  end.

Definition wifi_run (events : list WifiEvent) (w : WifiWorld) : WifiWorld := foldl wifi_step w events.
