(* ===== verification/RadioWifiProps.v ===== *)
(** What [RadioWifi] promises: an answer older than the state is dropped; a radio that is ready
    has a state, or is being asked for it, or the failure is shown; the switch to TCP is offered
    once per reboot, and only to a radio that went away after it and came back on Wi-Fi. *)
From S2P Require Import Prelude JsString JsCollections JsNum Json RadioWifi.

(** ** Loads and versions *)

(** Loads have the version of the store when they were sent, and identifiers of their own. *)
Record loads_wf (w : WifiWorld) : Prop := {
  lw_started i l : (i, l) ∈ w.(ww_loads) -> l.(wl_started) <= w.(ww_store).(wi_version);
  lw_ids i l : (i, l) ∈ w.(ww_loads) -> i < w.(ww_next);
  lw_nodup : NoDup (om_keys w.(ww_loads));
}.

(** What an event can do to the loads and the version. *)
Definition advances (w w' : WifiWorld) : Prop :=
  w.(ww_store).(wi_version) <= w'.(ww_store).(wi_version) /\ w.(ww_next) <= w'.(ww_next) /\
  (forall i l, (i, l) ∈ w'.(ww_loads) ->
     (i, l) ∈ w.(ww_loads) \/ w.(ww_next) <= i < w'.(ww_next) /\ l.(wl_started) <= w'.(ww_store).(wi_version)) /\
  (NoDup (om_keys w.(ww_loads)) -> (forall i l, (i, l) ∈ w.(ww_loads) -> i < w.(ww_next)) ->
   NoDup (om_keys w'.(ww_loads))).

Instance advances_refl : Reflexive advances.
Proof. intros w. split_and!; [lia|lia|by left|done]. Qed.
Instance advances_trans : Transitive advances.
Proof.
  intros w1 w2 w3 (H1 & H2 & H3 & H4) (K1 & K2 & K3 & K4). split_and!; [lia|lia| |].
  - intros i l [Hi|[Hi Hl]]%K3; [|right; lia]. destruct (H3 i l Hi) as [?|[? ?]]; [by left|right; lia].
  - intros Hn Hb. apply K4; [by apply H4|]. intros i l [Hi%Hb|[Hi _]]%H3; lia.
Qed.

Lemma store_advances w w' :
  w.(ww_store).(wi_version) <= w'.(ww_store).(wi_version) -> w'.(ww_loads) = w.(ww_loads) ->
  w'.(ww_next) = w.(ww_next) -> advances w w'.
Proof. intros Hv El En. split_and!; rewrite ?El, ?En; [done|done|by left|done]. Qed.

Lemma load_advances refresh w : advances w (loadRadioWifi refresh w).
Proof.
  split_and!; [done|cbn; lia| |].
  - cbn. intros i l [Hi|Hi]%elem_of_app; [by left|]. apply list_elem_of_singleton in Hi. simplify_eq.
    right. cbn. lia.
  - cbn. intros Hn Hb. unfold om_keys. rewrite fmap_app. apply NoDup_snoc. split; [done|].
    intros ([i l] & E & Hi)%list_elem_of_fmap. specialize (Hb _ _ Hi). cbn in *. lia.
Qed.

Lemma delete_advances id w : advances w (w <| ww_loads := om_delete w.(ww_loads) id |>).
Proof.
  split_and!; [done|done| |].
  - intros i l Hi%om_elem_delete. left. apply Hi.
  - intros Hn _. change (NoDup (om_keys (om_delete w.(ww_loads) id))). rewrite om_keys_delete.
    by apply NoDup_filter.
Qed.

Lemma set_state_version state now w :
  let w' := setRadioWifiState state now w in
  w'.(ww_loads) = w.(ww_loads) /\ w'.(ww_next) = w.(ww_next) /\
  w'.(ww_store).(wi_ready) = w.(ww_store).(wi_ready) /\
  if same_state state w.(ww_store).(wi_current) then w' = w
  else w'.(ww_store).(wi_version) = w.(ww_store).(wi_version) + 1 /\ w'.(ww_store).(wi_current) = state.
Proof.
  intros w'. unfold w', setRadioWifiState. destruct (same_state _ _); [done|].
  destruct state as [st|]; [|done]. unfold watch_state.
  destruct (_ || negb (rws_check st ≟ CheckDone)).
  { by destruct (negb _). }
  destruct (_ || _ || _); [by destruct (negb _)|]. destruct (_ && _); [|by destruct (negb _)].
  destruct (negb _); by destruct (wi_handler _).
Qed.

Lemma set_state_advances state now w : advances w (setRadioWifiState state now w).
Proof.
  destruct (set_state_version state now w) as (E1 & E2 & _ & E3). apply store_advances; [|done|done].
  destruct (same_state _ _); [by rewrite E3|]. destruct E3 as [-> _]. lia.
Qed.

Lemma health_advances health w : advances w (noteRadioWifiHealth health w).
Proof.
  unfold noteRadioWifiHealth. destruct (_ && _).
  { etrans; [|apply load_advances]. by apply store_advances. }
  destruct (_ && _); [|by apply store_advances]. apply store_advances; [|done|done].
  cbn. destruct (_ ≟ _); cbn; lia.
Qed.

Lemma wifi_step_advances w e : advances w (wifi_step w e).
Proof.
  destruct e as [health|state now|refresh|id answer now|now| |now|handler]; cbn [wifi_step].
  - apply health_advances.
  - apply set_state_advances.
  - apply load_advances.
  - destruct (om_get _ id) as [l|]; [|done]. etrans; [apply (delete_advances id)|].
    destruct answer as [state|].
    + unfold wifi_answered. destruct (negb _); [done|]. destruct (negb _); [done|].
      etrans; [apply (set_state_advances (Some state) now)|]. destruct (_ && _); [|done]. by apply store_advances.
    + unfold wifi_failed. destruct (_ && _ && _); [|done]. by apply store_advances.
  - destruct (wi_reload _) as [due|]; [|done]. destruct (due <=? now); [|done].
    destruct (wi_ready _); [etrans; [|apply load_advances]|]; by apply store_advances.
  - unfold refreshRadioWifiAfterReconnect. destruct (wi_ready _); [apply load_advances|done].
  - by apply store_advances.
  - by apply store_advances.
Qed.

Lemma wifi_run_advances w events : advances w (wifi_run events w).
Proof.
  revert w. induction events as [|e l IH]; intros w; [done|]. etrans; [apply wifi_step_advances|apply IH].
Qed.

Lemma advances_wf w w' : advances w w' -> loads_wf w -> loads_wf w'.
Proof.
  intros (H1 & H2 & H3 & H4) []. split; [| |by apply H4].
  - intros i l [Hi%lw_started0|[_ Hl]]%H3; lia.
  - intros i l [Hi%lw_ids0|[Hi _]]%H3; lia.
Qed.

Lemma wifi_run_wf events : loads_wf (wifi_run events wifi_world0).
Proof.
  apply (advances_wf wifi_world0); [apply wifi_run_advances|].
  split; [by intros i l ?%not_elem_of_nil|by intros i l ?%not_elem_of_nil|constructor].
Qed.

(** An answer to an older request is dropped: once the server has sent another state, or the
    radio has gone away, whatever has happened since, an answer or a failure of a request that
    was already under way leaves the store as it is; it never brings back a radio that went away. *)
Theorem late_wifi_answer_dropped events e events' id answer now :
  let w := wifi_run events wifi_world0 in
  is_Some (om_get w.(ww_loads) id) ->
  match e with
  | WiHealth h => w.(ww_store).(wi_ready) = true /\ healthReady h = false
  | WiState st _ => same_state (Some st) w.(ww_store).(wi_current) = false
  | _ => False
  end ->
  let w' := wifi_run events' (wifi_step w e) in
  (wifi_step w' (WiAnswer id answer now)).(ww_store) = w'.(ww_store).
Proof.
  intros w [l0 Hl0] He w'.
  assert (Hnew : w.(ww_store).(wi_version) < (wifi_step w e).(ww_store).(wi_version)).
  { destruct e as [h|st t| | | | | | ]; try done; cbn [wifi_step].
    - destruct He as [Hr Hh]. unfold noteRadioWifiHealth. rewrite Hr, Hh. cbn. destruct (_ ≟ _); cbn; lia.
    - destruct (set_state_version (Some st) t w) as (_ & _ & _ & H). rewrite He in H. lia. }
  pose proof (wifi_run_wf events) as Hwf. fold w in Hwf.
  assert (Hadv : advances w w').
  { etrans; [apply wifi_step_advances|apply wifi_run_advances]. }
  destruct (wifi_run_advances (wifi_step w e) events') as (Hv & _). fold w' in Hv.
  cbn [wifi_step]. destruct (om_get (ww_loads w') id) as [l|] eqn:El; [|done].
  assert (Hstart : l.(wl_started) < w'.(ww_store).(wi_version)).
  { apply om_get_Some_elem in El, Hl0. destruct Hadv as (_ & _ & Hin & _).
    destruct Hwf. destruct (Hin id l El) as [Hi|[Hi _]]; [specialize (lw_started0 _ _ Hi); lia|].
    specialize (lw_ids0 _ _ Hl0). lia. }
  destruct answer as [state|].
  - unfold wifi_answered. cbn. destruct (negb _); [done|].
    destruct (Z.eqb_spec (wi_version (ww_store w')) (wl_started l)); [lia|done].
  - unfold wifi_failed. cbn. destruct (Z.eqb_spec (wi_version (ww_store w')) (wl_started l)); [lia|].
    by rewrite andb_false_r.
Qed.

(** ** A ready radio *)

(** A request sent since the state last changed is under way. *)
Definition asked (w : WifiWorld) : Prop :=
  exists id l, om_get w.(ww_loads) id = Some l /\ l.(wl_started) = w.(ww_store).(wi_version).

Record wifi_known (w : WifiWorld) : Prop := {
  kn_wf : loads_wf w;
  kn_ready : w.(ww_store).(wi_ready) = true -> w.(ww_store).(wi_current) = None ->
    w.(ww_store).(wi_loadFailed) = true \/ asked w;
  kn_failed : w.(ww_store).(wi_loadFailed) = true ->
    w.(ww_store).(wi_ready) = true /\ w.(ww_store).(wi_current) = None;
}.

Lemma load_asked refresh w : loads_wf w -> asked (loadRadioWifi refresh w).
Proof.
  intros Hw. exists w.(ww_next), {| wl_started := w.(ww_store).(wi_version); wl_refresh := refresh |}. split; [|done].
  pose proof (advances_wf _ _ (load_advances refresh w) Hw) as Hw'. apply om_elem_get; [apply lw_nodup, Hw'|].
  cbn. apply elem_of_app. right. by apply list_elem_of_singleton.
Qed.

(** An update of the store that keeps the version, the loads and what is known. *)
Lemma wifi_upd_known f w :
  (forall s, (f s).(wi_version) = s.(wi_version) /\ (f s).(wi_ready) = s.(wi_ready) /\
     (f s).(wi_current) = s.(wi_current) /\ (f s).(wi_loadFailed) = s.(wi_loadFailed)) ->
  wifi_known w -> wifi_known (wifi_upd f w).
Proof.
  intros Hf [Hw H1 H2]. destruct (Hf (ww_store w)) as (E1 & E2 & E3 & E4).
  split; unfold asked in *; cbn; rewrite ?E1, ?E2, ?E3, ?E4; try done.
  destruct Hw. split; cbn; rewrite ?E1; done.
Qed.

Lemma load_known refresh w : wifi_known w -> wifi_known (loadRadioWifi refresh w).
Proof.
  intros [Hw H1 H2]. split; [by apply (advances_wf w), Hw; apply load_advances| |done].
  intros _ _. right. by apply load_asked.
Qed.

Lemma set_some_known st now w :
  loads_wf w ->
  (w.(ww_store).(wi_loadFailed) = true -> w.(ww_store).(wi_ready) = true /\ w.(ww_store).(wi_current) = None) ->
  wifi_known (setRadioWifiState (Some st) now w).
Proof.
  intros Hwf Hlf. pose proof (advances_wf _ _ (set_state_advances (Some st) now w) Hwf) as Hwf'.
  destruct (set_state_version (Some st) now w) as (E1 & E2 & E3 & E4).
  destruct (same_state _ _) eqn:Es.
  { rewrite E4. split; [done| |done]. intros _ Hn. unfold same_state in Es. by rewrite Hn in Es. }
  destruct E4 as [Ev Ec].
  split; [done|by rewrite Ec|].
  unfold setRadioWifiState. rewrite Es. intros Hf. exfalso. revert Hf. clear. unfold watch_state.
  destruct (_ || negb (rws_check st ≟ CheckDone)); [by destruct (negb _)|].
  destruct (_ || _ || _); [by destruct (negb _)|]. destruct (_ && _); [|by destruct (negb _)].
  destruct (negb _); by destruct (wi_handler _).
Qed.

Lemma delete_not_asked id w :
  loads_wf w -> (forall l, om_get w.(ww_loads) id = Some l -> l.(wl_started) <> w.(ww_store).(wi_version)) ->
  asked w -> asked (w <| ww_loads := om_delete w.(ww_loads) id |>).
Proof.
  intros _ Hne (i & l & Hi & Hl). exists i, l. split; [|done]. cbn. rewrite om_get_delete_ne; [done|].
  intros ->. by apply (Hne l).
Qed.

Lemma answer_known id answer now w : wifi_known w -> wifi_known (wifi_step w (WiAnswer id answer now)).
Proof.
  intros [Hwf H1 H2]. cbn [wifi_step]. destruct (om_get _ id) as [l|] eqn:El; [|done].
  set (w1 := w <| ww_loads := _ |>). assert (Hwf1 : loads_wf w1) by (apply (advances_wf w), Hwf; apply delete_advances).
  assert (Hold : w.(ww_store).(wi_version) <> l.(wl_started) -> wifi_known w1).
  { intros Hne. split; [done| |done]. intros Hr Hc. destruct (H1 Hr Hc) as [?|?]; [by left|right].
    apply delete_not_asked; [done| |done]. intros l' Hl'. rewrite El in Hl'. by simplify_eq. }
  assert (Hs : w1.(ww_store) = w.(ww_store)) by done. clearbody w1. rewrite <- Hs in *.
  destruct answer as [state|].
  - pose proof (set_some_known state now w1 Hwf1 H2). unfold wifi_answered. destruct (wi_ready _) eqn:Er; cbn [negb].
    + destruct (Z.eqb_spec (wi_version (ww_store w1)) (wl_started l)); cbn [negb]; [|by apply Hold].
      destruct (_ && _); [|done]. by apply wifi_upd_known.
    + split; [done|congruence|]. intros Hf. destruct (H2 Hf). congruence.
  - unfold wifi_failed. destruct (wi_ready _) eqn:Er; cbn [andb].
    + destruct (Z.eqb_spec (wi_version (ww_store w1)) (wl_started l)); cbn [andb]; [|by apply Hold].
      destruct (wi_current (ww_store w1)) eqn:Ec; cbn.
      * split; [done|congruence|]. intros Hf. by destruct (H2 Hf).
      * split; [by destruct Hwf1|by left|done].
    + split; [done|congruence|]. intros Hf. destruct (H2 Hf). congruence.
Qed.

Lemma wifi_step_known w e : wifi_known w -> wifi_known (wifi_step w e).
Proof.
  intros Hw. pose proof Hw as [Hwf H1 H2].
  destruct e as [health|state now|refresh|id answer now|now| |now|handler]; try (by apply answer_known);
    cbn [wifi_step].
  - pose proof (advances_wf _ _ (health_advances health w) Hwf) as Hwf'. revert Hwf'. unfold noteRadioWifiHealth.
    destruct (healthReady health) eqn:Eh, (wi_ready (ww_store w)) eqn:Er; cbn [andb negb]; intros Hwf'.
    + split; [done| |]; cbn; auto.
    + split; [done| |].
      * intros _ _. right. apply load_asked. by destruct Hwf.
      * cbn. intros Hf. destruct (H2 Hf). congruence.
    + split; [done|..]; cbn; by destruct (_ ≟ _).
    + split; [done|done|]. cbn. intros Hf. destruct (H2 Hf). congruence.
  - by apply set_some_known.
  - by apply load_known.
  - destruct (wi_reload _) as [due|]; [|done]. destruct (due <=? now); [|done].
    destruct (wi_ready _); [apply load_known|]; by apply wifi_upd_known.
  - unfold refreshRadioWifiAfterReconnect. destruct (wi_ready _); [by apply load_known|done].
  - by apply wifi_upd_known.
  - by apply wifi_upd_known.
Qed.

Lemma wifi_run_known events : wifi_known (wifi_run events wifi_world0).
Proof.
  unfold wifi_run. induction events as [|e l IH] using rev_ind.
  - split; [apply (wifi_run_wf [])|done|done].
  - rewrite foldl_app. by apply wifi_step_known.
Qed.

(** A radio that is connected and set up is never left unknown: whatever the order of health
    reports, events, timers and answers, its Wi-Fi state is known, or a request sent since the
    last change is under way for it, or the failure of that request is shown; and a failure is
    only shown for a ready radio whose state is unknown. *)
Theorem wifi_never_left_unknown events :
  let w := wifi_run events wifi_world0 in
  (w.(ww_store).(wi_ready) = true ->
   is_Some w.(ww_store).(wi_current) \/ w.(ww_store).(wi_loadFailed) = true \/
   exists id l, om_get w.(ww_loads) id = Some l /\ l.(wl_started) = w.(ww_store).(wi_version)) /\
  (w.(ww_store).(wi_loadFailed) = true -> w.(ww_store).(wi_ready) = true /\ w.(ww_store).(wi_current) = None).
Proof.
  intros w. pose proof (wifi_run_known events) as Hw. fold w in Hw.
  destruct Hw as [_ H1 H2]. split; [|done]. intros Hr.
  destruct (wi_current (ww_store w)); [by left|]. right. by apply H1.
Qed.

(** ** The reboot that is watched *)

Definition is_reboot (e : WifiEvent) : bool := match e with WiReboot _ => true | _ => false end.
Definition reboots (events : list WifiEvent) : Z := len (filter (fun e => is_reboot e = true) events).

(** A state of a radio that is back on Wi-Fi. *)
Definition back_on_wifi (st : RadioWifiState) : Prop :=
  st.(rws_check) = CheckDone /\ st.(rws_connected) = Some true /\ exists ip, truthy st.(rws_ip) = Some ip.
(** The state an event can set, and when. *)
Definition sets_state (e : WifiEvent) : option (RadioWifiState * Z) :=
  match e with WiState st now => Some (st, now) | WiAnswer _ (Some st) now => Some (st, now) | _ => None end.

Definition watch_kept (w w' : WifiWorld) : Prop :=
  w'.(ww_store).(wi_watch) = w.(ww_store).(wi_watch) /\ w'.(ww_store).(wi_deadline) = w.(ww_store).(wi_deadline) /\
  w'.(ww_back) = w.(ww_back).
(** The watch ended: given up, or the handler called with the state. *)
Definition watch_over (st : RadioWifiState) (now : Z) (w w' : WifiWorld) : Prop :=
  w.(ww_store).(wi_watch) = WatchReturning /\ w'.(ww_store).(wi_watch) = WatchIdle /\
  (w'.(ww_back) = w.(ww_back) \/
   w'.(ww_back) = w.(ww_back) ++ [st] /\ back_on_wifi st /\ now <= w.(ww_store).(wi_deadline)).

Lemma set_state_watch st now w :
  let w' := setRadioWifiState (Some st) now w in watch_kept w w' \/ watch_over st now w w'.
Proof.
  cbv zeta. unfold setRadioWifiState. destruct (same_state _ _); [by left|]. cbv zeta.
  set (w1 := wifi_upd _ w).
  assert (E : w1.(ww_store).(wi_watch) = w.(ww_store).(wi_watch) /\ w1.(ww_store).(wi_deadline) = w.(ww_store).(wi_deadline)
    /\ w1.(ww_back) = w.(ww_back)) by (unfold w1; by destruct (negb _)).
  destruct E as (E1 & E2 & E3). clearbody w1. unfold watch_state. rewrite E1, E2.
  destruct (negb (wi_watch _ ≟ _)) eqn:Ew; [by left|]. apply negb_false_iff, bool_decide_eq_true in Ew.
  destruct (negb (rws_check st ≟ CheckDone)) eqn:Ec; [by left|]. apply negb_false_iff, bool_decide_eq_true in Ec.
  cbn [orb]. destruct (Z.ltb_spec (wi_deadline (ww_store w)) now) as [Hd|Hd]; cbn [orb].
  { right. split_and!; [done|done|by left]. }
  destruct (_ || _); [right; split_and!; [done|done|by left]|].
  destruct (_ && _) eqn:Eb; [|by left]. apply andb_true_iff in Eb as [Eb1%bool_decide_eq_true Eb2%bool_decide_eq_true].
  right. unfold watch_over. destruct (wi_handler _); split_and!; try done; cbn; [right|by left].
  rewrite E3. split_and!; try done.
Qed.

(** What an event does to the watch. *)
Lemma wifi_step_watch w e :
  let w' := wifi_step w e in
  match e with
  | WiReboot now => w'.(ww_store).(wi_watch) = WatchArmed /\ w'.(ww_store).(wi_deadline) = now + REBOOT_WATCH_MS /\
      w'.(ww_back) = w.(ww_back)
  | _ => watch_kept w w'
      \/ (exists st now, sets_state e = Some (st, now) /\ watch_over st now w w')
      \/ (exists h, e = WiHealth h /\ healthReady h = false /\ w.(ww_store).(wi_watch) = WatchArmed /\
          w'.(ww_store).(wi_watch) = WatchReturning /\ w'.(ww_store).(wi_deadline) = w.(ww_store).(wi_deadline) /\
          w'.(ww_back) = w.(ww_back))
  end.
Proof.
  cbv zeta. destruct e as [h|st now|refresh|id answer now|now| |now|handler]; cbn [wifi_step sets_state]; try by left.
  - unfold noteRadioWifiHealth. destruct (healthReady h) eqn:Eh, (wi_ready (ww_store w)); cbn [andb negb]; try by left.
    destruct (decide (wi_watch (ww_store w) = WatchArmed)) as [Ew|Ew].
    + right; right. exists h. split_and!; try done; cbn; by repeat case_bool_decide.
    + left. split_and!; cbn; by repeat case_bool_decide.
  - destruct (set_state_watch st now w); [by left|]. right; left. by exists st, now.
  - destruct (om_get _ id) as [l|]; [|by left]. destruct answer as [st|].
    + unfold wifi_answered. destruct (negb _); [by left|]. destruct (negb _); [by left|].
      destruct (set_state_watch st now (w <| ww_loads := om_delete w.(ww_loads) id |>)) as [H|H].
      * left. destruct (_ && _); exact H.
      * right; left. exists st, now. split; [done|]. destruct (_ && _); exact H.
    + left. unfold wifi_failed. by destruct (_ && _ && _).
  - destruct (wi_reload _) as [due|]; [|by left]. destruct (due <=? now); [|by left]. left. by destruct (wi_ready _).
  - left. unfold refreshRadioWifiAfterReconnect. by destruct (wi_ready _).
  - done.
Qed.

(** Since its last reboot, at [t0], the radio was seen away. *)
Definition rebooted (events : list WifiEvent) (t0 : Z) : Prop :=
  exists pre mid, events = pre ++ WiReboot t0 :: mid /\ Forall (fun e => is_reboot e = false) mid.
Definition rebooted_away (events : list WifiEvent) (t0 : Z) : Prop :=
  exists pre mid h suf, events = pre ++ WiReboot t0 :: mid ++ WiHealth h :: suf /\ healthReady h = false /\
    Forall (fun e => is_reboot e = false) (mid ++ suf).

Lemma rebooted_snoc events e t0 : is_reboot e = false -> rebooted events t0 -> rebooted (events ++ [e]) t0.
Proof.
  intros He (pre & mid & -> & Hm). exists pre, (mid ++ [e]). split; [by rewrite <- app_assoc|].
  apply Forall_app. split; [done|by constructor].
Qed.
Lemma rebooted_away_snoc events e t0 :
  is_reboot e = false -> rebooted_away events t0 -> rebooted_away (events ++ [e]) t0.
Proof.
  intros He (pre & mid & h & suf & -> & Hh & Hm). exists pre, mid, h, (suf ++ [e]). split_and!; [|done|].
  - rewrite <- app_assoc. cbn. by rewrite <- app_assoc.
  - rewrite app_assoc. apply Forall_app. split; [done|by constructor].
Qed.

Record watch_wf (events : list WifiEvent) (w : WifiWorld) : Prop := {
  wt_armed : w.(ww_store).(wi_watch) = WatchArmed ->
    exists t0, rebooted events t0 /\ w.(ww_store).(wi_deadline) = t0 + REBOOT_WATCH_MS;
  wt_returning : w.(ww_store).(wi_watch) = WatchReturning ->
    exists t0, rebooted_away events t0 /\ w.(ww_store).(wi_deadline) = t0 + REBOOT_WATCH_MS;
  wt_count : len w.(ww_back) + (if w.(ww_store).(wi_watch) ≟ WatchIdle then 0 else 1) <= reboots events;
}.

Lemma reboots_snoc events e : reboots (events ++ [e]) = reboots events + (if is_reboot e then 1 else 0).
Proof.
  unfold reboots. rewrite filter_app, len_app. f_equal. unfold filter; cbn. by destruct (is_reboot e).
Qed.

Lemma wifi_step_watch_wf events w e : watch_wf events w -> watch_wf (events ++ [e]) (wifi_step w e).
Proof.
  intros []. pose proof (wifi_step_watch w e) as H. cbv zeta in H.
  assert (Hb : is_reboot e = true -> exists now, e = WiReboot now) by (destruct e; try done; by eexists).
  destruct (is_reboot e) eqn:Er.
  - destruct (Hb eq_refl) as [now ->]. destruct H as (E1 & E2 & E3).
    split; rewrite ?E1, ?E2, ?E3, ?reboots_snoc; try done; cbn [is_reboot].
    + intros _. exists now. split; [|done]. exists events, []. by split; [|constructor].
    + rewrite bool_decide_eq_false_2 by done. case_bool_decide; lia.
  - clear Hb. assert (Hk : watch_kept w (wifi_step w e) -> watch_wf (events ++ [e]) (wifi_step w e)).
    { intros (E1 & E2 & E3). split; rewrite ?E1, ?E2, ?E3, ?reboots_snoc, ?Er.
      - intros [t0 [? ?]]%wt_armed0. exists t0. by split; [apply rebooted_snoc|].
      - intros [t0 [? ?]]%wt_returning0. exists t0. by split; [apply rebooted_away_snoc|].
      - lia. }
    assert (Ho : forall st now, watch_over st now w (wifi_step w e) -> watch_wf (events ++ [e]) (wifi_step w e)).
    { intros st now (Hr & Hi & Hc). split; rewrite ?Hi, ?reboots_snoc, ?Er; try done.
      rewrite Hr in wt_count0. rewrite bool_decide_eq_true_2 by done.
      rewrite bool_decide_eq_false_2 in wt_count0 by done.
      destruct Hc as [-> | (-> & _)]; [lia|]. rewrite len_app, len_cons, len_nil. lia. }
    assert (Ha : forall h, e = WiHealth h -> healthReady h = false -> w.(ww_store).(wi_watch) = WatchArmed ->
      (wifi_step w e).(ww_store).(wi_watch) = WatchReturning ->
      (wifi_step w e).(ww_store).(wi_deadline) = w.(ww_store).(wi_deadline) ->
      (wifi_step w e).(ww_back) = w.(ww_back) -> watch_wf (events ++ [e]) (wifi_step w e)).
    { intros h -> Hh Ha Hr Hd Hc. split; rewrite ?Hr, ?Hd, ?Hc, ?reboots_snoc; try done.
      - intros _. destruct (wt_armed0 Ha) as (t0 & (pre & mid & -> & Hm) & Ht). exists t0. split; [|done].
        exists pre, mid, h, []. split_and!; [by rewrite <- app_assoc|done|by rewrite app_nil_r].
      - rewrite Ha in wt_count0. rewrite bool_decide_eq_false_2 by done.
        rewrite bool_decide_eq_false_2 in wt_count0 by done. cbn. lia. }
    destruct e; try done; destruct H as [H|[(st' & now' & _ & H)|(h & Eh & Hh & Hw & Hr & Hd & Hc)]]; eauto.
Qed.

Lemma wifi_run_watch_wf events : watch_wf events (wifi_run events wifi_world0).
Proof.
  unfold wifi_run. induction events as [|e l IH] using rev_ind; [by split|].
  rewrite foldl_app. by apply wifi_step_watch_wf.
Qed.

(** The switch to TCP is offered at most once per reboot of the radio, and only when an event
    brings a state of a radio back on Wi-Fi with an address, within five minutes of the last
    reboot, the radio having been seen away since: a state from before it went away never counts. *)
Theorem switch_offered_after_reboot events e :
  let w := wifi_run events wifi_world0 in
  let w' := wifi_run (events ++ [e]) wifi_world0 in
  len w'.(ww_back) <= reboots (events ++ [e]) /\
  (w'.(ww_back) = w.(ww_back) \/
   exists st now t0, w'.(ww_back) = w.(ww_back) ++ [st] /\ sets_state e = Some (st, now) /\ back_on_wifi st /\
     now <= t0 + REBOOT_WATCH_MS /\ rebooted_away events t0).
Proof.
  intros w w'. pose proof (wifi_run_watch_wf events) as Hw. pose proof (wifi_run_watch_wf (events ++ [e])) as [_ _ Hc].
  fold w in Hw. fold w' in Hc. split; [destruct (_ ≟ _) in Hc; lia|].
  assert (Hstep : w' = wifi_step w e) by (unfold w', w, wifi_run; by rewrite foldl_app).
  pose proof (wifi_step_watch w e) as H. cbv zeta in H. rewrite <- Hstep in H. clear Hstep Hc. clearbody w'.
  assert (Ho : forall st now, sets_state e = Some (st, now) -> watch_over st now w w' -> w'.(ww_back) = w.(ww_back) \/
   exists st now t0, w'.(ww_back) = w.(ww_back) ++ [st] /\ sets_state e = Some (st, now) /\ back_on_wifi st /\
     now <= t0 + REBOOT_WATCH_MS /\ rebooted_away events t0).
  { intros st now He (Hr & _ & [Hb|(Hb & Hs & Hd)]); [by left|right].
    destruct (wt_returning _ _ Hw Hr) as (t0 & Ht & Edl). exists st, now, t0. rewrite Edl in Hd. by split_and!. }
  destruct e; try (by left; apply H);
    destruct H as [(_&_&H)|[(st' & now' & Hs & H)|(h & _ & _ & _ & _ & _ & H)]]; eauto.
Qed.

(** ** Concrete runs *)

Definition healthy : option RadioHealth :=
  Some {| hl_radio_connected := true; hl_radio_initializing := false; hl_radio_state := Some (js "connected");
          hl_shown := Jnull |}.
Definition wifi_state (object : Z) (ip : option jstr) : RadioWifiState :=
  {| rws_object := object; rws_check := CheckDone; rws_supported := Some true; rws_enabled := Some true;
     rws_connected := Some true; rws_ip := ip |}.

(** A reboot onto Wi-Fi, from the request to the offer; the state broadcast before the radio went
    away is not taken for its return. *)
Example reboot_to_wifi :
  (wifi_run [WiHandler true; WiHealth healthy; WiAnswer 0 (Some (wifi_state 1 None)) 10; WiReboot 20;
             WiState (wifi_state 2 (Some (js "10.0.0.2"))) 30; WiHealth None; WiHealth healthy;
             WiAnswer 1 (Some (wifi_state 3 (Some (js "10.0.0.2")))) 9000] wifi_world0).(ww_back)
  = [wifi_state 3 (Some (js "10.0.0.2"))].
Proof. by vm_compute. Qed.

Lemma late_wifi_answer_dropped_witness :
  let w' := wifi_run [WiReconnect] (wifi_step (wifi_run [WiHealth healthy] wifi_world0) (WiHealth None)) in
  (wifi_step w' (WiAnswer 0 (Some (wifi_state 1 None)) 50)).(ww_store) = w'.(ww_store).
Proof.
  apply (late_wifi_answer_dropped [WiHealth healthy] (WiHealth None) [WiReconnect] 0 (Some (wifi_state 1 None)) 50).
  - vm_compute. by eexists.
  - by vm_compute.
Defined.

Lemma wifi_never_left_unknown_witness :
  is_Some (wifi_run [WiHealth healthy] wifi_world0).(ww_store).(wi_current)
  \/ (wifi_run [WiHealth healthy] wifi_world0).(ww_store).(wi_loadFailed) = true
  \/ exists id l, om_get (wifi_run [WiHealth healthy] wifi_world0).(ww_loads) id = Some l
       /\ l.(wl_started) = (wifi_run [WiHealth healthy] wifi_world0).(ww_store).(wi_version).
Proof. apply (wifi_never_left_unknown [WiHealth healthy]). by vm_compute. Defined.
