(* ===== verification/RadioControl.v ===== *)
(** The radio's health and configuration: [hooks/useRadioControl.ts], with the Wi-Fi store
    ([RadioWifi]) that follows the health.

    A call of the hook is an event up to its first request; the answer to a request is a later
    event, and its record says where the call goes on. The polling after a reboot is a timer and
    a request in turn. React then renders: the effect that depends on [health] hands it to the
    Wi-Fi store, which ignores a report of the same readiness. Configurations and discoveries are
    JSON values; of toasts, the translation keys are kept. [takePrefetchOrFetch] is one request. *)
From S2P Require Import Prelude JsString JsCollections JsNum Json ApiErrors RadioWifi.

(** The hook's state; [rc_token] is [rebootPollTokenRef]. *)
Record RadioControl := {
  rc_health : option RadioHealth;
  rc_config : option Json;
  rc_meshDiscovery : option Json;
  rc_meshDiscoveryTarget : option jstr;
  rc_regionDiscovery : option Json;
  rc_regionDiscoveryLoading : bool;
  rc_token : Z;
}.
#[export] Instance RadioControl_eta : Eta RadioControl :=
  fun h => Build_RadioControl h.(rc_health) h.(rc_config) h.(rc_meshDiscovery) h.(rc_meshDiscoveryTarget)
    h.(rc_regionDiscovery) h.(rc_regionDiscoveryLoading) h.(rc_token).

(** A request under way, and what follows it. *)
Inductive RadioCall :=
  | CallConfig
  | CallSaveConfig
  | CallPrivateKey
  | CallReboot
  | CallPollHealth (token i : Z)
  | CallDisconnect
  | CallPausedHealth
  | CallReconnect
  | CallRefreshedHealth
  | CallAdvertise (zero_hop : bool)
  | CallDiscoverMesh
  | CallDiscoverRegions
  | CallHealthRefresh.

(** What a request can be answered with. *)
Inductive RadioReply :=
  | ReplyDone
  | ReplyConfig (data : Json)
  | ReplySaved (warnings : list jstr)
  | ReplyHealth (data : RadioHealth)
  | ReplyDiscovery (results : Z) (data : Json)
  | ReplyRegions (queried answered regions : Z) (data : Json)
  | ReplyError.

(** A poll after a reboot that waits for its timer. *)
Record RebootPoll := { rp_token : Z; rp_i : Z; rp_due : Z }.

(** The hook, the Wi-Fi store, the requests and polls under way, whether the hook is mounted; the
    health requests the polls sent, and the toasts. *)
Record RadioWorld := {
  rr_hook : RadioControl;
  rr_wifi : WifiWorld;
  rr_calls : list (Z * RadioCall);
  rr_next : Z;
  rr_polls : list RebootPoll;
  rr_mounted : bool;
  rr_polled : list (Z * Z);
  rr_toasts : list jstr;
}.
#[export] Instance RadioWorld_eta : Eta RadioWorld :=
  fun w => Build_RadioWorld w.(rr_hook) w.(rr_wifi) w.(rr_calls) w.(rr_next) w.(rr_polls) w.(rr_mounted) w.(rr_polled)
    w.(rr_toasts).

Definition radio_upd (f : RadioControl -> RadioControl) (w : RadioWorld) : RadioWorld := w <| rr_hook := f w.(rr_hook) |>.
Definition radio_send (c : RadioCall) (w : RadioWorld) : RadioWorld :=
  (w <| rr_calls := w.(rr_calls) ++ [(w.(rr_next), c)] |>) <| rr_next := w.(rr_next) + 1 |>.
Definition radio_toast (key : jstr) (w : RadioWorld) : RadioWorld := w <| rr_toasts := w.(rr_toasts) ++ [key] |>.

Definition setHealth (health : option RadioHealth) (w : RadioWorld) : RadioWorld :=
  radio_upd (fun h => h <| rc_health := health |>) w.
Definition fetchConfig (w : RadioWorld) : RadioWorld := radio_send CallConfig w.

(** ** The polling after a reboot *)

Definition REBOOT_POLLS : Z := 30.
Definition REBOOT_POLL_MS : Z := 1000.

(** The head of the loop, up to its timer. *)
Definition poll_turn (token i now : Z) (w : RadioWorld) : RadioWorld :=
  if i <? REBOOT_POLLS then
    w <| rr_polls := w.(rr_polls) ++ [{| rp_token := token; rp_i := i; rp_due := now + REBOOT_POLL_MS |}] |>
  else w.

(** The radio has answered the reboot. *)
Definition reboot_answered (now : Z) (w : RadioWorld) : RadioWorld :=
  let w := radio_upd (fun h =>
    (h <| rc_health := (fun prev => (prev <| hl_radio_connected := false |>) <| hl_radio_initializing := false |>)
                       <$> h.(rc_health) |>)
    <| rc_token := h.(rc_token) + 1 |>) w in
  poll_turn w.(rr_hook).(rc_token) 0 now w.

(** The timer of a poll: the loop goes on with its request. *)
Definition poll_due (p : RebootPoll) (w : RadioWorld) : RadioWorld :=
  if negb (w.(rr_hook).(rc_token) =? p.(rp_token)) then w
  else
    radio_send (CallPollHealth p.(rp_token) p.(rp_i))
      (w <| rr_polled := w.(rr_polled) ++ [(p.(rp_token), p.(rp_i))] |>).

Definition poll_answered (token i : Z) (answer : option RadioHealth) (now : Z) (w : RadioWorld) : RadioWorld :=
  match answer with
  | None => poll_turn token (i + 1) now w
  | Some data =>
    if negb (w.(rr_hook).(rc_token) =? token) then w
    else
      let w := setHealth (Some data) w in
      if data.(hl_radio_connected) then fetchConfig w else poll_turn token (i + 1) now w
  end.

(** ** The calls and their answers *)

(** What a call goes on with when its request is answered. *)
Definition call_answered (c : RadioCall) (r : RadioReply) (now : Z) (w : RadioWorld) : RadioWorld :=
  match c, r with
  | CallConfig, ReplyConfig data => radio_upd (fun h => h <| rc_config := Some data |>) w
  | CallSaveConfig, ReplySaved warnings =>
    let w := if decide (js "client_repeat_not_allowed" ∈ warnings)
             then radio_toast (js "settings.radio.clientRepeatDropped") w else w in
    fetchConfig w
  | CallPrivateKey, ReplyDone => fetchConfig w
  | CallReboot, ReplyDone => reboot_answered now w
  | CallPollHealth token i, ReplyHealth data => poll_answered token i (Some data) now w
  | CallPollHealth token i, ReplyError => poll_answered token i None now w
  | CallDisconnect, ReplyDone => radio_send CallPausedHealth w
  | CallPausedHealth, ReplyHealth data => setHealth (Some data) w
  | CallReconnect, ReplyDone => radio_send CallRefreshedHealth w
  | CallRefreshedHealth, ReplyHealth data =>
    let w := setHealth (Some data) w in
    if data.(hl_radio_connected) then fetchConfig w else w
  | CallAdvertise zero_hop, ReplyDone =>
    radio_toast (if zero_hop then js "toast.advertZeroHopSent" else js "toast.advertSent") w
  | CallAdvertise _, ReplyError => radio_toast (js "toast.advertFailed") w
  | CallDiscoverMesh, ReplyDiscovery results data =>
    radio_upd (fun h => (h <| rc_meshDiscovery := Some data |>) <| rc_meshDiscoveryTarget := None |>)
      (radio_toast (if results =? 0 then js "toast.discoverNone" else js "toast.discoverFound") w)
  | CallDiscoverMesh, ReplyError =>
    radio_upd (fun h => h <| rc_meshDiscoveryTarget := None |>) (radio_toast (js "toast.discoverFailed") w)
  | CallDiscoverRegions, ReplyRegions queried _ regions data =>
    radio_upd (fun h => (h <| rc_regionDiscovery := Some data |>) <| rc_regionDiscoveryLoading := false |>)
      (radio_toast (if queried =? 0 then js "toast.regionsNoneAvailable"
                    else if regions =? 0 then js "toast.regionsNoneReported" else js "toast.regionsFound") w)
  | CallDiscoverRegions, ReplyError =>
    radio_upd (fun h => h <| rc_regionDiscoveryLoading := false |>) (radio_toast (js "toast.regionsFailed") w)
  | CallHealthRefresh, ReplyHealth data => setHealth (Some data) w
  | _, _ => w
  end.

(** ** Events *)

Inductive RadioEvent :=
  | RdSetHealth (health : RadioHealth)
  | RdCall (c : RadioCall) (target : jstr)
  | RdReply (id : Z) (r : RadioReply) (now : Z)
  | RdPollTimer (now : Z)
  | RdWifi (e : WifiEvent)
  | RdUnmount.

(** The calls a view can make; the others are made by the hook. *)
Definition view_call (c : RadioCall) : bool :=
  match c with CallPollHealth _ _ | CallPausedHealth | CallRefreshedHealth => false | _ => true end.

Definition radio_call (c : RadioCall) (target : jstr) (w : RadioWorld) : RadioWorld :=
  if negb (view_call c) then w
  else
    radio_send c
      match c with
      | CallDiscoverMesh => radio_upd (fun h => h <| rc_meshDiscoveryTarget := Some target |>) w
      | CallDiscoverRegions => radio_upd (fun h => h <| rc_regionDiscoveryLoading := true |>) w
      | _ => w
      end.

(** The first poll whose timer is due, taken out. *)
Fixpoint take_due (now : Z) (polls : list RebootPoll) : option (RebootPoll * list RebootPoll) :=
  match polls with
  | [] => None
  | p :: rest =>
    if p.(rp_due) <=? now then Some (p, rest)
    else '(q, rest) ← take_due now rest; Some (q, p :: rest)
  end.

Definition radio_event (w : RadioWorld) (e : RadioEvent) : RadioWorld :=
  match e with
  | RdSetHealth health => setHealth (Some health) w
  | RdCall c target => radio_call c target w
  | RdReply id r now =>
    match om_get w.(rr_calls) id with
    | Some c => call_answered c r now (w <| rr_calls := om_delete w.(rr_calls) id |>)
    | None => w
    end
  | RdPollTimer now =>
    match take_due now w.(rr_polls) with
    | Some (p, rest) => poll_due p (w <| rr_polls := rest |>)
    | None => w
    end
  | RdWifi (WiHealth _) => w
  | RdWifi e => w <| rr_wifi := wifi_step w.(rr_wifi) e |>
  | RdUnmount => radio_upd (fun h => h <| rc_token := h.(rc_token) + 1 |>) (w <| rr_mounted := false |>)
  end.

(** The render and the effect that hands the health to the Wi-Fi store. *)
Definition radio_step (w : RadioWorld) (e : RadioEvent) : RadioWorld :=
  let w := radio_event w e in
  if w.(rr_mounted) then w <| rr_wifi := noteRadioWifiHealth w.(rr_hook).(rc_health) w.(rr_wifi) |> else w.

Definition radio_run (events : list RadioEvent) (w : RadioWorld) : RadioWorld := foldl radio_step w events.

Definition radio_world0 : RadioWorld :=
  {| rr_hook := {| rc_health := None; rc_config := None; rc_meshDiscovery := None; rc_meshDiscoveryTarget := None;
                   rc_regionDiscovery := None; rc_regionDiscoveryLoading := false; rc_token := 0 |};
     rr_wifi := wifi_world0; rr_calls := []; rr_next := 0; rr_polls := []; rr_mounted := true; rr_polled := [];
     rr_toasts := [] |}.
