(* ===== verification/RadioControlProps.v ===== *)
(** What [RadioControl] promises: a reboot is followed by at most thirty polls, one at a time, and
    none once another reboot or the unmount has taken over; the Wi-Fi store follows the health,
    so that what [RadioWifiProps] shows of the store holds in the client. *)
From S2P Require Import Prelude JsString JsCollections JsNum Json ApiErrors RadioWifi RadioWifiProps RadioControl.

(** ** The polls after a reboot *)

Definition call_token (c : Z * RadioCall) : option Z :=
  match c.2 with CallPollHealth token _ => Some token | _ => None end.
(** The polls that can still go on, with their token: those that wait for their timer and those
    that wait for their answer. *)
Definition poll_tokens (w : RadioWorld) : list Z := (rp_token <$> w.(rr_polls)) ++ omap call_token w.(rr_calls).

Record polls_wf (w : RadioWorld) : Prop := {
  pw_nodup : NoDup (poll_tokens w);
  pw_timer p : p ∈ w.(rr_polls) ->
    1 <= p.(rp_token) <= w.(rr_hook).(rc_token) /\ 0 <= p.(rp_i) < REBOOT_POLLS /\
    forall i, (p.(rp_token), i) ∈ w.(rr_polled) -> i < p.(rp_i);
  pw_call id token i : (id, CallPollHealth token i) ∈ w.(rr_calls) ->
    1 <= token <= w.(rr_hook).(rc_token) /\ 0 <= i < REBOOT_POLLS /\
    forall i', (token, i') ∈ w.(rr_polled) -> i' <= i;
  pw_token : 0 <= w.(rr_hook).(rc_token);
  pw_polled : NoDup w.(rr_polled);
  pw_range token i : (token, i) ∈ w.(rr_polled) -> 1 <= token <= w.(rr_hook).(rc_token) /\ 0 <= i < REBOOT_POLLS;
}.

(** An update that leaves the polls alone. *)
Lemma frame_polls w w' :
  w'.(rr_polls) = w.(rr_polls) -> w'.(rr_polled) = w.(rr_polled) -> w'.(rr_calls) = w.(rr_calls) ->
  w.(rr_hook).(rc_token) <= w'.(rr_hook).(rc_token) -> polls_wf w -> polls_wf w'.
Proof.
  intros E1 E2 E3 Hle []. split; unfold poll_tokens in *; rewrite ?E1, ?E2, ?E3; try done; try lia.
  - intros p Hp. destruct (pw_timer0 p Hp) as (?&?&?). split_and!; try done; lia.
  - intros id token i Hc. destruct (pw_call0 id token i Hc) as (?&?&?). split_and!; try done; lia.
  - intros token i Hp. destruct (pw_range0 token i Hp) as (?&?). split_and!; try done; lia.
Qed.

Lemma send_polls c w : call_token (0, c) = None -> polls_wf w -> polls_wf (radio_send c w).
Proof.
  intros Hc []. split; try done.
  - unfold poll_tokens in *. cbn. rewrite omap_app. cbn. change (call_token (rr_next w, c)) with (call_token (0, c)).
    rewrite Hc. by rewrite app_nil_r.
  - cbn. intros id token i [Hi|Hi]%elem_of_app; [by apply (pw_call0 id)|].
    apply list_elem_of_singleton in Hi. by simplify_eq.
Qed.

Lemma elem_omap_call id token i (calls : list (Z * RadioCall)) :
  (id, CallPollHealth token i) ∈ calls -> token ∈ omap call_token calls.
Proof. intros Hi. apply list_elem_of_omap. by exists (id, CallPollHealth token i). Qed.

Lemma sublist_omap {A B} (f : A -> option B) l k : sublist l k -> sublist (omap f l) (omap f k).
Proof.
  induction 1 as [|x l k _ IH|x l k _ IH]; [done|..]; cbn; destruct (f x); [by apply sublist_skip|done| |done].
  by apply sublist_cons.
Qed.

Lemma delete_polls id w : polls_wf w -> polls_wf (w <| rr_calls := om_delete w.(rr_calls) id |>).
Proof.
  intros []. split; try done.
  - unfold poll_tokens in *. cbn. eapply sublist_NoDup; [exact pw_nodup0|]. apply sublist_app; [done|].
    apply sublist_omap. unfold om_delete. apply sublist_filter.
  - cbn. intros i token k Hi%om_elem_delete. apply (pw_call0 i), Hi.
Qed.

(** Once its answer is taken, a poll has no continuation left. *)
Lemma delete_poll_token id token i w :
  NoDup (poll_tokens w) -> om_get w.(rr_calls) id = Some (CallPollHealth token i) ->
  token ∉ poll_tokens (w <| rr_calls := om_delete w.(rr_calls) id |>).
Proof.
  intros Hn Hg. apply om_get_Some_elem, list_elem_of_split in Hg as (a & b & E).
  unfold poll_tokens in *. cbn. rewrite E in *. rewrite omap_app in Hn. cbn in Hn.
  apply NoDup_app in Hn as (_ & Hd & Hn). rewrite elem_of_app. intros [Hp|Hc].
  - apply (Hd _ Hp). apply elem_of_app. right. by left.
  - apply NoDup_app in Hn as (_ & Hda & [Hb _]%NoDup_cons).
    apply list_elem_of_omap in Hc as ([k c] & Hk%om_elem_delete & Ec). destruct Hk as [Hk Hne].
    apply elem_of_app in Hk as [Hk|Hk].
    + apply (Hda token); [|by left]. apply list_elem_of_omap. by exists (k, c).
    + apply elem_of_cons in Hk as [Hk|Hk]; [by simplify_eq|]. apply Hb, list_elem_of_omap. by exists (k, c).
Qed.

(** The next turn of a poll whose request has been answered. *)
Lemma poll_turn_polls token i now w :
  polls_wf w -> token ∉ poll_tokens w -> 1 <= token <= w.(rr_hook).(rc_token) -> 0 <= i ->
  (forall i', (token, i') ∈ w.(rr_polled) -> i' < i) -> polls_wf (poll_turn token i now w).
Proof.
  intros [] Hn Ht Hi Hp. unfold poll_turn. destruct (Z.ltb_spec i REBOOT_POLLS); [|by split].
  split; try done.
  - unfold poll_tokens in *. cbn. rewrite fmap_app, <- app_assoc. cbn.
    rewrite <- Permutation_middle. by apply NoDup_cons.
  - cbn. intros p [Hq|Hq]%elem_of_app; [by apply pw_timer0|]. apply list_elem_of_singleton in Hq. by subst.
Qed.

Lemma upd_polls f w :
  (forall h, h.(rc_token) <= (f h).(rc_token)) -> polls_wf w -> polls_wf (radio_upd f w).
Proof. intros Hf Hw. by apply (frame_polls w). Qed.

Lemma toast_polls key w : polls_wf w -> polls_wf (radio_toast key w).
Proof. by apply frame_polls. Qed.

Lemma reboot_polls now w : polls_wf w -> polls_wf (reboot_answered now w).
Proof.
  intros Hw. unfold reboot_answered. cbv zeta.
  match goal with |- context [poll_turn _ _ _ (radio_upd ?f w)] => set (w1 := radio_upd f w) end.
  assert (Hw1 : polls_wf w1) by (apply upd_polls; [cbn; lia|done]).
  assert (Et : w1.(rr_hook).(rc_token) = w.(rr_hook).(rc_token) + 1) by done.
  assert (Ep : w1.(rr_polled) = w.(rr_polled)) by done.
  assert (Hnew : rc_token (rr_hook w1) ∉ poll_tokens w1).
  { change (poll_tokens w1) with (poll_tokens w). rewrite Et. destruct Hw. unfold poll_tokens.
    rewrite elem_of_app. intros [(p & E & Hp)%list_elem_of_fmap|([id c] & Hc & Ec)%list_elem_of_omap].
    - destruct (pw_timer0 p Hp) as [? _]. lia.
    - destruct c; try done. cbn in Ec. injection Ec as ->. destruct (pw_call0 _ _ _ Hc) as [? _]. lia. }
  apply poll_turn_polls; try done; [destruct Hw; lia|].
  intros i'. rewrite Et, Ep. intros Hi. destruct Hw. destruct (pw_range0 _ _ Hi) as [? _]. lia.
Qed.

Lemma take_due_elem now polls p rest :
  take_due now polls = Some (p, rest) -> exists a b, polls = a ++ p :: b /\ rest = a ++ b.
Proof.
  revert rest. induction polls as [|q polls IH]; intros rest; cbn; [done|].
  destruct (rp_due q <=? now).
  - intros [= <- <-]. by exists [], polls.
  - destruct (take_due now polls) as [[p' rest']|]; [|done]. cbn. intros [= -> <-].
    destruct (IH rest' eq_refl) as (a & b & -> & ->). by exists (q :: a), b.
Qed.

Lemma timer_polls now w : polls_wf w -> polls_wf (radio_event w (RdPollTimer now)).
Proof.
  intros []. cbn [radio_event]. destruct (take_due now w.(rr_polls)) as [[p rest]|] eqn:E; [|by split].
  apply take_due_elem in E as (a & b & E & ->).
  assert (Hn : NoDup (rp_token p :: ((rp_token <$> a ++ b) ++ omap call_token w.(rr_calls)))).
  { unfold poll_tokens in pw_nodup0. rewrite E, fmap_app in pw_nodup0. cbn in pw_nodup0.
    rewrite <- Permutation_middle in pw_nodup0. by rewrite fmap_app. }
  apply NoDup_cons in Hn as [Hout Hn].
  assert (Hsub : forall q, q ∈ a ++ b -> q ∈ w.(rr_polls)).
  { intros q. rewrite E, !elem_of_app, elem_of_cons. tauto. }
  assert (Hp : p ∈ w.(rr_polls)) by (rewrite E; apply elem_of_app; right; left).
  destruct (pw_timer0 p Hp) as (Ht & Hi & Hb). unfold poll_due. cbn [rr_hook set].
  assert (Hw1 : polls_wf (w <| rr_polls := a ++ b |>)).
  { split; try done. cbn. intros q Hq. by apply pw_timer0, Hsub. }
  destruct (negb _); [done|]. split; try done; cbn.
  - unfold poll_tokens. cbn. rewrite omap_app. cbn. rewrite app_assoc. by apply NoDup_snoc.
  - intros q Hq. destruct (pw_timer0 q (Hsub q Hq)) as (? & ? & Hq'). split; [done|]. split; [done|].
    intros i [Hin|Hin]%elem_of_app; [by apply Hq'|]. apply list_elem_of_singleton in Hin. simplify_eq.
    destruct Hout. apply elem_of_app. left. apply list_elem_of_fmap. by exists q.
  - intros id token i [Hc|Hc]%elem_of_app.
    + destruct (pw_call0 id token i Hc) as (? & ? & Hq'). split; [done|]. split; [done|].
      intros i' [Hin|Hin]%elem_of_app; [by apply Hq'|]. apply list_elem_of_singleton in Hin. simplify_eq.
      destruct Hout. apply elem_of_app. right. by eapply elem_omap_call.
    + apply list_elem_of_singleton in Hc. simplify_eq. split; [lia|]. split; [done|].
      intros i' [Hin|Hin]%elem_of_app; [specialize (Hb _ Hin); lia|]. apply list_elem_of_singleton in Hin. simplify_eq. lia.
  - apply NoDup_snoc. split; [done|]. intros Hin%Hb. lia.
  - intros token i [Hin|Hin]%elem_of_app; [by apply pw_range0|]. apply list_elem_of_singleton in Hin. by simplify_eq.
Qed.

Lemma reply_polls id r now w : polls_wf w -> polls_wf (radio_event w (RdReply id r now)).
Proof.
  intros Hw. cbn [radio_event]. destruct (om_get (rr_calls w) id) as [c|] eqn:E; [|done].
  pose proof (delete_polls id w Hw) as Hd. pose proof (delete_poll_token id) as Htok.
  assert (Hcall : forall token i, c = CallPollHealth token i ->
    token ∉ poll_tokens (w <| rr_calls := om_delete w.(rr_calls) id |>) /\ 1 <= token <= w.(rr_hook).(rc_token) /\
    0 <= i /\ (forall i', (token, i') ∈ w.(rr_polled) -> i' < i + 1)).
  { intros token i ->. destruct Hw. split; [by eapply Htok|]. apply om_get_Some_elem in E.
    destruct (pw_call0 _ _ _ E) as (? & ? & Hb). split; [done|]. split; [lia|]. intros i' Hi'. specialize (Hb i' Hi'). lia. }
  set (w1 := w <| rr_calls := _ |>) in *. destruct c; destruct r; try done; cbn [call_answered];
    repeat first [ apply toast_polls | apply upd_polls; [done|] | apply send_polls; [done|]
                 | apply reboot_polls | progress case_match | done ].
  all: cbn [poll_answered]; destruct (Hcall _ _ eq_refl) as (H1 & H2 & H3 & H4).
  - destruct (negb _); [done|]. cbv zeta.
    assert (Hs : polls_wf (setHealth (Some data) w1)) by by apply upd_polls.
    destruct (hl_radio_connected data); [by apply send_polls|]. apply poll_turn_polls; try done; lia.
  - apply poll_turn_polls; try done; lia.
Qed.

Lemma radio_step_polls w e : polls_wf w -> polls_wf (radio_step w e).
Proof.
  intros Hw. assert (He : polls_wf (radio_event w e)).
  { destruct e as [health|c target|id r now|now|e|]; cbn [radio_event].
    - by apply upd_polls.
    - unfold radio_call. destruct (negb (view_call c)) eqn:Ev; [done|].
      apply send_polls; [by destruct c|]. destruct c; try done; by apply upd_polls.
    - by apply reply_polls.
    - by apply timer_polls.
    - destruct e; [done|by apply (frame_polls w)..].
    - apply upd_polls; [cbn; lia|by apply (frame_polls w)]. }
  unfold radio_step. destruct (rr_mounted _); [by apply (frame_polls (radio_event w e))|done].
Qed.

Lemma radio_run_polls events : polls_wf (radio_run events radio_world0).
Proof.
  unfold radio_run. induction events as [|e l IH] using rev_ind.
  - split; try done; try by intros ? ?%not_elem_of_nil; try by intros ? ? ?%not_elem_of_nil. all: try constructor.
    all: intros; by apply not_elem_of_nil in H.
  - rewrite foldl_app. by apply radio_step_polls.
Qed.

(** Only the poll of the last reboot sends requests. *)
Lemma radio_step_polled w e :
  w.(rr_hook).(rc_token) <= (radio_step w e).(rr_hook).(rc_token) /\
  ((radio_step w e).(rr_polled) = w.(rr_polled) \/
   exists i, (radio_step w e).(rr_polled) = w.(rr_polled) ++ [(w.(rr_hook).(rc_token), i)]).
Proof.
  assert (Hstep : forall w', w.(rr_hook).(rc_token) <= w'.(rr_hook).(rc_token) /\
      (w'.(rr_polled) = w.(rr_polled) \/ exists i, w'.(rr_polled) = w.(rr_polled) ++ [(w.(rr_hook).(rc_token), i)]) ->
    w' = radio_event w e ->
    w.(rr_hook).(rc_token) <= (radio_step w e).(rr_hook).(rc_token) /\
    ((radio_step w e).(rr_polled) = w.(rr_polled) \/
     exists i, (radio_step w e).(rr_polled) = w.(rr_polled) ++ [(w.(rr_hook).(rc_token), i)])).
  { intros w' H ->. unfold radio_step. by destruct (rr_mounted _). }
  eapply Hstep; [|done]. clear Hstep. destruct e as [health|c target|id r now|now|e|]; cbn [radio_event].
  - split; [done|by left].
  - unfold radio_call. destruct (negb _); [split; [done|by left]|]. by destruct c; (split; [done|by left]).
  - destruct (om_get _ id) as [c|]; [|split; [done|by left]].
    set (w1 := w <| rr_calls := _ |>). assert (Hpt : forall token i now w2, w2.(rr_hook) = (poll_turn token i now w2).(rr_hook)
      /\ w2.(rr_polled) = (poll_turn token i now w2).(rr_polled)).
    { intros. unfold poll_turn. by destruct (_ <? _). }
    destruct c, r; cbn [call_answered]; try (split; [done|by left]).
    + destruct (decide _); (split; [done|by left]).
    + unfold reboot_answered. cbv zeta.
      match goal with |- context [poll_turn ?a ?b ?c ?d] => destruct (Hpt a b c d) as [<- <-] end.
      split; [cbn; lia|by left].
    + unfold poll_answered. destruct (negb _); [split; [done|by left]|]. cbv zeta.
      destruct (hl_radio_connected data); [split; [done|by left]|].
      destruct (Hpt token (i + 1) now (setHealth (Some data) w1)) as [<- <-]. split; [done|by left].
    + unfold poll_answered. destruct (Hpt token (i + 1) now w1) as [<- <-]. split; [done|by left].
    + cbv zeta. destruct (hl_radio_connected data); (split; [done|by left]).
  - destruct (take_due _ _) as [[p rest]|]; [|split; [done|by left]]. unfold poll_due. cbn [rr_hook set].
    destruct (Z.eqb_spec (rc_token (rr_hook w)) (rp_token p)) as [Et|]; cbn [negb]; [|split; [done|by left]].
    split; [done|]. right. exists (rp_i p). by rewrite Et.
  - destruct e; (split; [done|by left]).
  - split; [cbn; lia|by left].
Qed.

Definition polls_of (token : Z) (w : RadioWorld) : list (Z * Z) := filter (fun p => p.1 = token) w.(rr_polled).

Lemma polls_of_kept token w events :
  token < w.(rr_hook).(rc_token) -> polls_of token (radio_run events w) = polls_of token w.
Proof.
  revert w. induction events as [|e l IH]; intros w Ht; [done|]. cbn [radio_run foldl].
  destruct (radio_step_polled w e) as [Hle He]. etrans; [apply IH; lia|].
  unfold polls_of. destruct He as [->|[i ->]]; [done|]. rewrite filter_app, (filter_cons_False _ (_, i)).
  - by rewrite app_nil_r.
  - cbn. lia.
Qed.

(** C40: a reboot is followed by at most thirty requests for the health, one at a time; and once
    the radio has answered another reboot, or the hook is unmounted, the polls of the one before
    send nothing more, whatever happens. *)
Theorem reboot_polls_bounded events token :
  let w := radio_run events radio_world0 in
  len (polls_of token w) <= REBOOT_POLLS /\ NoDup (poll_tokens w) /\
  (token < w.(rr_hook).(rc_token) ->
   forall events', polls_of token (radio_run events' w) = polls_of token w).
Proof.
  intros w. pose proof (radio_run_polls events) as Hw. fold w in Hw.
  split_and!; [|by destruct Hw|intros Ht events'; by apply polls_of_kept].
  destruct Hw. assert (Hsub : polls_of token w ⊆+ (fun i => (token, i)) <$> seqZ 0 30).
  { apply NoDup_submseteq; [by apply NoDup_filter|]. intros [t i] [Et Hi]%list_elem_of_filter. cbn in Et. subst t.
    apply list_elem_of_fmap. exists i. split; [done|]. apply elem_of_seqZ.
    destruct (pw_range0 _ _ Hi) as [_ ?]. unfold REBOOT_POLLS in *. lia. }
  apply submseteq_length in Hsub. rewrite length_fmap in Hsub. unfold len, REBOOT_POLLS. vm_compute (length (seqZ 0 30)) in Hsub. lia.
Qed.

(** ** The Wi-Fi store in the client *)

(** The effect runs at every render here; on a report of the same readiness it does nothing, so
    that it might as well run when [health] changes. *)
Lemma note_health_same health w : w.(ww_store).(wi_ready) = healthReady health -> noteRadioWifiHealth health w = w.
Proof.
  intros E. unfold noteRadioWifiHealth. rewrite E. destruct (healthReady health) eqn:Eh; cbn; destruct w as [s ? ? ?];
    destruct s; cbn in *; by subst.
Qed.

Lemma note_health_ready health w : (noteRadioWifiHealth health w).(ww_store).(wi_ready) = healthReady health.
Proof.
  unfold noteRadioWifiHealth. destruct (healthReady health), (wi_ready (ww_store w)); try done.
  cbn. by case_bool_decide.
Qed.

(** The store of the client is the store alone, driven by some events. *)
Lemma radio_run_wifi events : exists evs, (radio_run events radio_world0).(rr_wifi) = wifi_run evs wifi_world0.
Proof.
  unfold radio_run. induction events as [|e l [evs IH]] using rev_ind; [by exists []|].
  rewrite foldl_app. cbn [foldl]. set (w := foldl _ _ l) in *. clearbody w.
  assert (He : exists evs, (radio_event w e).(rr_wifi) = wifi_run evs wifi_world0).
  { assert (Hsame : (radio_event w e).(rr_wifi) = w.(rr_wifi) \/
      exists we, (radio_event w e).(rr_wifi) = wifi_step w.(rr_wifi) we).
    { destruct e as [health|c target|id r now|now|we|]; cbn [radio_event]; try by left.
      - left. unfold radio_call. destruct (negb _); [done|]. by destruct c.
      - left. destruct (om_get _ id) as [c|]; [|done]. set (w1 := w <| rr_calls := _ |>).
        assert (Hpt : forall token i now w2, (poll_turn token i now w2).(rr_wifi) = w2.(rr_wifi)).
        { intros. unfold poll_turn. by destruct (_ <? _). }
        destruct c, r; cbn [call_answered]; try done.
        + by destruct (decide _).
        + unfold poll_answered. destruct (negb _); [done|]. cbv zeta.
          destruct (hl_radio_connected data); [done|]. by etrans; [apply Hpt|].
        + unfold poll_answered. by etrans; [apply Hpt|].
        + cbv zeta. by destruct (hl_radio_connected data).
      - left. destruct (take_due _ _) as [[p rest]|]; [|done]. unfold poll_due. by destruct (negb _).
      - destruct we; [by left|right; by eexists..]. }
    destruct Hsame as [->|[we ->]]; [by exists evs|]. exists (evs ++ [we]).
    unfold wifi_run. rewrite foldl_app. cbn. by rewrite IH. }
  unfold radio_step. destruct (rr_mounted _); [|done]. destruct He as [evs' He].
  exists (evs' ++ [WiHealth (radio_event w e).(rr_hook).(rc_health)]).
  unfold wifi_run. rewrite foldl_app. cbn. by rewrite He.
Qed.

(** In the client, the Wi-Fi store follows the health that is shown: while the hook is mounted
    the store takes the radio for ready exactly when the health says so, whoever set it (the
    socket, a call, a poll), and the state of a ready radio is known, or being asked for since it
    last changed, or the failure to get it is shown. *)
Theorem ready_radio_wifi_known events :
  Forall (fun e => e <> RdUnmount) events ->
  let w := radio_run events radio_world0 in
  let store := w.(rr_wifi).(ww_store) in
  store.(wi_ready) = healthReady w.(rr_hook).(rc_health) /\
  (healthReady w.(rr_hook).(rc_health) = true ->
   is_Some store.(wi_current) \/ store.(wi_loadFailed) = true \/ asked w.(rr_wifi)).
Proof.
  intros Hev w store.
  assert (Hr : w.(rr_mounted) = true /\ store.(wi_ready) = healthReady w.(rr_hook).(rc_health)).
  { unfold store, w, radio_run. clear store w. induction events as [|e l IH] using rev_ind; [done|].
    apply Forall_app in Hev as [Hl [He _]%Forall_cons]. destruct (IH Hl) as [Hm _].
    rewrite foldl_app. cbn [foldl]. set (w := foldl _ _ l) in *. clearbody w.
    assert (Hm' : (radio_event w e).(rr_mounted) = true).
    { destruct e as [health|c target|id r now|now|we|]; cbn [radio_event]; try done.
      - unfold radio_call. destruct (negb _); [done|]. by destruct c.
      - destruct (om_get _ id) as [c|]; [|done]. destruct c, r; cbn [call_answered]; try done.
        + by destruct (decide _).
        + unfold poll_answered, poll_turn. destruct (negb _); [done|]. cbv zeta.
          destruct (hl_radio_connected data); [done|]. by destruct (_ <? _).
        + unfold poll_answered, poll_turn. by destruct (_ <? _).
        + cbv zeta. by destruct (hl_radio_connected data).
      - destruct (take_due _ _) as [[p rest]|]; [|done]. unfold poll_due. by destruct (negb _).
      - by destruct we. }
    unfold radio_step. rewrite Hm'. split; [done|]. cbn [rr_wifi rr_hook set].
    apply note_health_ready. }
  destruct Hr as [_ Hr]. split; [done|]. intros Hh. rewrite Hh in Hr.
  destruct (radio_run_wifi events) as [evs E]. pose proof (wifi_run_known evs) as [_ Hk _]. rewrite <- E in Hk.
  change (rr_wifi (radio_run events radio_world0)) with w.(rr_wifi) in Hk. fold store in Hk.
  destruct (wi_current store); [by left|right; by apply Hk].
Qed.

(** ** Witnesses *)

Definition reported (connected : bool) : RadioHealth :=
  {| hl_radio_connected := connected; hl_radio_initializing := false; hl_radio_state := None; hl_shown := Jnull |}.

Lemma reboot_polls_bounded_witness :
  let events := [RdSetHealth (reported true); RdCall CallReboot []; RdReply 0 ReplyDone 10; RdPollTimer 1010;
                 RdReply 1 (ReplyHealth (reported false)) 1020; RdCall CallReboot []; RdReply 2 ReplyDone 1500] in
  polls_of 1 (radio_run [RdPollTimer 2020; RdPollTimer 2500] (radio_run events radio_world0)) = [(1, 0)].
Proof.
  intros events. etrans; [apply (reboot_polls_bounded events 1)|]; by vm_compute.
Defined.

Lemma ready_radio_wifi_known_witness :
  let w := radio_run [RdSetHealth (reported true); RdWifi (WiAnswer 0 (Some (wifi_state 1 None)) 5)] radio_world0 in
  is_Some w.(rr_wifi).(ww_store).(wi_current) \/ w.(rr_wifi).(ww_store).(wi_loadFailed) = true \/ asked w.(rr_wifi).
Proof.
  intros w. apply (ready_radio_wifi_known [RdSetHealth (reported true); RdWifi (WiAnswer 0 (Some (wifi_state 1 None)) 5)]).
  - by repeat constructor.
  - by vm_compute.
Defined.
