(* ===== verification/CommunityStore.v ===== *)
(** Whether Community is on: [stores/communityStore.ts].

    The variables of the module are a record; [pending] is the request under way, shared by its
    callers, whose number is kept. A status carries the identity of its object, which
    [state.status === status] compares. Listeners read the snapshot; their notifications are
    counted. *)
From S2P Require Import Prelude JsString.

Inductive CommunityState := CommunityOff | CommunityActive | WaitingForPosition.
#[export] Instance CommunityState_eq_dec : EqDecision CommunityState.
Proof. solve_decision. Defined.

(** What the store reads of a status; [cst_object] is its identity. *)
Record CommunityStatus := { cst_object : Z; cst_enabled : bool; cst_state : option CommunityState }.

Record CommunityStore := {
  cs_status : option CommunityStatus;
  cs_enabled : option bool;
  cs_pending : option Z;
  cs_emitted : Z;
  cs_requests : Z;
}.
#[export] Instance CommunityStore_eta : Eta CommunityStore :=
  fun s => Build_CommunityStore s.(cs_status) s.(cs_enabled) s.(cs_pending) s.(cs_emitted) s.(cs_requests).

Definition community_store0 : CommunityStore :=
  {| cs_status := None; cs_enabled := None; cs_pending := None; cs_emitted := 0; cs_requests := 0 |}.

Definition communityStatusActive (status : option CommunityStatus) : bool :=
  match status with Some s => s.(cst_enabled) && negb (s.(cst_state) ≟ Some WaitingForPosition) | None => false end.
Definition communityWaitingForPosition (status : option CommunityStatus) : bool :=
  match status with Some s => s.(cst_enabled) && (s.(cst_state) ≟ Some WaitingForPosition) | None => false end.

Definition community_emit (status : option CommunityStatus) (enabled : option bool) (s : CommunityStore) : CommunityStore :=
  ((s <| cs_status := status |>) <| cs_enabled := enabled |>) <| cs_emitted := s.(cs_emitted) + 1 |>.

Definition setCommunityStatus (status : CommunityStatus) (s : CommunityStore) : CommunityStore :=
  if (cst_object <$> s.(cs_status)) ≟ Some status.(cst_object) then s
  else community_emit (Some status) (Some (communityStatusActive (Some status))) s.

Definition seedCommunityEnabled (enabled : bool) (s : CommunityStore) : CommunityStore :=
  match s.(cs_enabled) with Some _ => s | None => community_emit s.(cs_status) (Some enabled) s end.

(** The call joins the request under way, or sends one. *)
Definition loadCommunityStatus (s : CommunityStore) : CommunityStore :=
  match s.(cs_pending) with
  | Some callers => s <| cs_pending := Some (callers + 1) |>
  | None => (s <| cs_pending := Some 1 |>) <| cs_requests := s.(cs_requests) + 1 |>
  end.

(** The answer: [None] when the request failed or brought no status. *)
Definition community_answered (answer : option CommunityStatus) (s : CommunityStore) : CommunityStore :=
  match s.(cs_pending) with
  | None => s
  | Some _ =>
    let s := match answer with Some status => setCommunityStatus status s | None => s end in
    s <| cs_pending := None |>
  end.

Definition noteCommunityLiveOptedOut (optedOut : option bool) (s : CommunityStore) : CommunityStore :=
  match optedOut, s.(cs_enabled) with
  | Some _, Some _ => loadCommunityStatus s
  | _, _ => s
  end.

Inductive CommunityEvent :=
  | CmSet (status : CommunityStatus)
  | CmSeed (enabled : bool)
  | CmLoad
  | CmAnswer (answer : option CommunityStatus)
  | CmLive (optedOut : option bool).

Definition community_step (s : CommunityStore) (e : CommunityEvent) : CommunityStore :=
  match e with
  | CmSet status => setCommunityStatus status s
  | CmSeed enabled => seedCommunityEnabled enabled s
  | CmLoad => loadCommunityStatus s
  | CmAnswer answer => community_answered answer s
  | CmLive optedOut => noteCommunityLiveOptedOut optedOut s
  end.
Definition community_run (events : list CommunityEvent) (s : CommunityStore) : CommunityStore :=
  foldl community_step s events.

(** ** What the store promises *)

(** Once a status is known, [enabled] is what it says; and it stays known. *)
Definition community_wf (s : CommunityStore) : Prop :=
  forall status, s.(cs_status) = Some status -> s.(cs_enabled) = Some (communityStatusActive (Some status)).

Lemma set_status_wf status s : community_wf s -> community_wf (setCommunityStatus status s).
Proof.
  intros Hs. unfold setCommunityStatus. case_bool_decide; [done|]. intros st. cbn. by intros [= ->].
Qed.

Lemma community_step_wf s e : community_wf s -> community_wf (community_step s e).
Proof.
  intros Hs. destruct e as [status|enabled| |answer|optedOut]; cbn [community_step].
  - by apply set_status_wf.
  - unfold seedCommunityEnabled. destruct (cs_enabled s) eqn:E; [done|].
    intros st Hst. apply Hs in Hst. congruence.
  - unfold loadCommunityStatus. by destruct (cs_pending s).
  - unfold community_answered. destruct (cs_pending s); [|done]. destruct answer as [status|]; [|done].
    by apply (set_status_wf status) in Hs.
  - unfold noteCommunityLiveOptedOut, loadCommunityStatus. destruct optedOut, (cs_enabled s); try done.
    by destruct (cs_pending s).
Qed.

(** What every surface reads agrees with the last status, and the hint of the settings never
    overrides one. *)
Theorem community_enabled_follows_status events status :
  (community_run events community_store0).(cs_status) = Some status ->
  (community_run events community_store0).(cs_enabled) = Some (communityStatusActive (Some status)).
Proof.
  revert status. change (community_wf (community_run events community_store0)).
  unfold community_run. induction events as [|e l IH] using rev_ind; [done|].
  rewrite foldl_app. by apply community_step_wf.
Qed.

(** A change announced while no request is under way is read, and its answer becomes the state. *)
Theorem announced_change_is_read s optedOut status :
  is_Some s.(cs_enabled) -> s.(cs_pending) = None ->
  let s' := community_run [CmLive (Some optedOut); CmAnswer (Some status)] s in
  s'.(cs_requests) = s.(cs_requests) + 1 /\ cst_object <$> s'.(cs_status) = Some status.(cst_object).
Proof.
  intros [b Hb] Hp. cbn. unfold noteCommunityLiveOptedOut, loadCommunityStatus. rewrite Hb, Hp. cbn.
  unfold setCommunityStatus. cbn. by case_bool_decide.
Qed.

(** A change announced while a request is under way is folded into it: its answer, given before
    the change, is the last the store hears. *)
Example change_folded_into_older_read :
  let on := {| cst_object := 1; cst_enabled := true; cst_state := Some CommunityActive |} in
  let s := community_run [CmSeed true; CmLoad; CmLive (Some true); CmAnswer (Some on)] community_store0 in
  s.(cs_requests) = 1 /\ s.(cs_pending) = None /\ s.(cs_enabled) = Some true.
Proof. done. Qed.

(** The answer to an older request replaces the status that a change of the settings brought. *)
Example older_answer_overwrites :
  let on := {| cst_object := 1; cst_enabled := true; cst_state := Some CommunityActive |} in
  let off := {| cst_object := 2; cst_enabled := false; cst_state := Some CommunityOff |} in
  (community_run [CmSeed true; CmLoad; CmSet off; CmAnswer (Some on)] community_store0).(cs_enabled) = Some true.
Proof. done. Qed.
