(* ===== verification/MeshTest.v ===== *)
(** The radio test: the naming and placing of an observer's hops ([utils/observerHops.ts]) and the
    run, the observers, their order and their summary ([utils/meshTest.ts]).

    The text of the session storage is a parameter pair, [JSON.stringify] of a run and
    [JSON.parse]. The times of a run are whole numbers (milliseconds of the browser, seconds of
    the server); a stored fraction is read as its floor. [toLowerCase] of a region name and
    [localeCompare] are parameters. *)
From Corelib Require Import SpecFloat.
From S2P Require Import Prelude JsString JsCollections JsNum Json Regex Types PathUtils CommunityFrames ObserverReach.

(** ** Hops *)

Definition toPathHop (prefix : jstr) (contacts : list Contact) : PathHop :=
  let normalized := toUpperCase prefix in
  {| ph_prefix := normalized; ph_matches := findContactsByPrefix normalized contacts true;
     ph_distanceFromPrev := None |}.

Definition hop_local (hop : PathHop) : LocalHopDisplay := resolveLocalHopDisplay hop.(ph_prefix) hop.(ph_matches).

Definition hopNeedsDirectoryGps (hop : PathHop) : bool :=
  match hop_local hop with
  | UnknownHop => true
  | Known contact => negb (isValidLocation contact.(c_lat) contact.(c_lon))
  | _ => false
  end.

(** [lat], [lon] and [name]. *)
Record NamedPlace := { np_lat : num; np_lon : num; np_name : jstr }.

Definition place_at (lat lon : option num) (name : jstr) : option NamedPlace :=
  match lat, lon with
  | Some lat, Some lon => if isValidLocation (Some lat) (Some lon)
                          then Some {| np_lat := lat; np_lon := lon; np_name := name |} else None
  | _, _ => None
  end.

Definition hopMapLocation (hop : PathHop) (directory : option DirectoryHopHit) : option NamedPlace :=
  let placed local_name :=
    match directory with
    | Some d => place_at d.(dh_lat) d.(dh_lon) (local_name d)
    | None => None
    end in
  match hop_local hop with
  | Known contact =>
    let name := truthy contact.(c_name) ?? hop.(ph_prefix) in
    match place_at contact.(c_lat) contact.(c_lon) name with
    | Some place => Some place
    | None => placed (fun _ => name)
    end
  | HexOnly | Ambiguous _ => None
  | UnknownHop => placed (fun d => truthy (Some d.(dh_name)) ?? hop.(ph_prefix))
  end.

Definition hopDisplayName (hop : PathHop) (directory : option DirectoryHopHit) : option jstr :=
  match resolveHopDisplay hop.(ph_prefix) hop.(ph_matches) directory with
  | Local (Known contact) => Some (truthy contact.(c_name) ?? hop.(ph_prefix))
  | Directory name => Some name
  | _ => None
  end.

(** ** Runs *)

Record MeshTestRun := {
  mr_packetHash : jstr;
  mr_sentAt : Z;
  mr_startedAtMs : option Z;
  mr_floodScope : jstr;
  mr_originLat : option num;
  mr_originLon : option num;
}.

Record MeshPoint := { mp_lat : num; mp_lon : num }.

(** A field of a stored value that is a finite number. *)
Definition stored_time (v : option (option Json)) : option Z :=
  match v with
  | Some (Some (Jnumber x)) => if num_isFinite x then match math_floor x with JInt z => Some z | _ => None end else None
  | _ => None
  end.
Definition stored_string (v : option (option Json)) : option jstr :=
  match v with Some (Some (Jstring s)) => Some s | _ => None end.
Definition stored_number (v : option (option Json)) : option num :=
  match v with Some (Some (Jnumber x)) => Some x | _ => None end.

(** The run a parsed value holds. *)
Definition run_of_json (parsed : Json) : option MeshTestRun :=
  let get k := field (Some parsed) (js k) in
  packetHash ← truthy (stored_string (get "packetHash"%string));
  sentAt ← stored_time (get "sentAt"%string);
  Some {| mr_packetHash := packetHash; mr_sentAt := sentAt;
          mr_startedAtMs := stored_time (get "startedAtMs"%string);
          mr_floodScope := stored_string (get "floodScope"%string) ?? [];
          mr_originLat := stored_number (get "originLat"%string);
          mr_originLon := stored_number (get "originLon"%string) |}.

(** The entry of the session storage: [None] when there is none. *)
Record SessionEntry := { se_readable : bool; se_writable : bool; se_text : option jstr }.
#[export] Instance SessionEntry_eta : Eta SessionEntry :=
  fun s => Build_SessionEntry s.(se_readable) s.(se_writable) s.(se_text).

(** What [JSON.stringify] writes of a run. *)
Class RunText := {
  stringify_run : MeshTestRun -> jstr;
  parse_json : jstr -> option Json;
}.

Section storage.
Context `{RunText}.

Definition readMeshTestRun (s : SessionEntry) : option MeshTestRun :=
  if s.(se_readable) then
    raw ← truthy s.(se_text);
    parsed ← parse_json raw;
    run_of_json parsed
  else None.

Definition saveMeshTestRun (run : MeshTestRun) (s : SessionEntry) : SessionEntry :=
  if s.(se_writable) then s <| se_text := Some (stringify_run run) |> else s.
End storage.

Definition clearMeshTestRun (s : SessionEntry) : SessionEntry :=
  if s.(se_writable) then s <| se_text := None |> else s.

Definition meshTestOrigin (run : option MeshTestRun) : option MeshPoint :=
  match run with
  | Some r =>
    match r.(mr_originLat), r.(mr_originLon) with
    | Some lat, Some lon =>
      if isValidLocation (Some lat) (Some lon) then Some {| mp_lat := lat; mp_lon := lon |} else None
    | _, _ => None
    end
  | None => None
  end.

Definition meshTestAgeMs (run : MeshTestRun) (nowMs : Z) : Z :=
  nowMs - (run.(mr_startedAtMs) ?? run.(mr_sentAt) * 1000).

Inductive MeshTestListenState := Listening | Stopped.
#[export] Instance MeshTestListenState_eq_dec : EqDecision MeshTestListenState.
Proof. solve_decision. Defined.

Definition meshTestListenState (ageMs : Z) (sealed : bool) : MeshTestListenState :=
  if sealed then Stopped
  else match observerReachPollIntervalMs ageMs with None => Stopped | Some _ => Listening end.

(** ** Observers *)

Inductive PositionPrecision := PosExact | PosRounded.
#[export] Instance PositionPrecision_eq_dec : EqDecision PositionPrecision.
Proof. solve_decision. Defined.

(** A row of the reach report. *)
Record ObserverReachEntry := {
  oe_name : jstr;
  oe_public_key : option jstr;
  oe_lat : option num;
  oe_lon : option num;
  oe_position_precision : option PositionPrecision;
  oe_hops : option Z;
  oe_snr : option num;
  oe_role : option jstr;
  oe_rssi : option num;
  oe_path : option (list jstr);
  oe_isMLC : option bool;
}.

Record MeshTestHop := {
  mh_prefix : jstr;
  mh_hopIndex : Z;
  mh_name : option jstr;
  mh_lat : option num;
  mh_lon : option num;
}.

Record MeshTestObserver := {
  mo_key : jstr;
  mo_name : jstr;
  mo_isMLC : bool;
  mo_role : option jstr;
  mo_hops : option Z;
  mo_snr : option num;
  mo_rssi : option num;
  mo_lat : option num;
  mo_lon : option num;
  mo_distanceKm : option num;
  mo_path : list MeshTestHop;
}.

Definition observerRowKey (observer : ObserverReachEntry) (index : Z) : jstr :=
  (observer.(oe_public_key) ?? observer.(oe_name)) ++ js "-" ++ int_str index.

(** [a ?? Infinity] on hops, compared. *)
Definition cmp_hops (a b : option Z) : comparison :=
  match a, b with
  | Some a, Some b => a ?= b
  | Some _, None => Lt
  | None, Some _ => Gt
  | None, None => Eq
  end.
Definition infinity : num := S754_infinity false.
(** [if (a !== b) return a - b] on distances. *)
Definition cmp_distances (a b : option num) : comparison :=
  let a := a ?? infinity in
  let b := b ?? infinity in
  if num_eq a b then Eq else num_cmp a b.

Section order.
Context (localeCompare : jstr -> jstr -> comparison).
Definition cmp_observers (a b : MeshTestObserver) : comparison :=
  match cmp_hops a.(mo_hops) b.(mo_hops) with
  | Eq => match cmp_distances a.(mo_distanceKm) b.(mo_distanceKm) with
          | Eq => localeCompare a.(mo_name) b.(mo_name)
          | c => c
          end
  | c => c
  end.
Definition sortMeshTestObservers (observers : list MeshTestObserver) : list MeshTestObserver :=
  js_sort cmp_observers observers.
End order.

(** ** Where an observer is *)

Record PlacedObserverCoordinates := {
  pc_lat : option num;
  pc_lon : option num;
  pc_byName : bool;
}.

Definition contactCoordinates (publicKey : option jstr) (contacts : list Contact) : option MeshPoint :=
  publicKey ← truthy publicKey;
  let key := toLowerCase publicKey in
  contact ← array_find (fun item => toLowerCase item.(c_public_key) ≟ key) contacts;
  place ← place_at contact.(c_lat) contact.(c_lon) [];
  Some {| mp_lat := place.(np_lat); mp_lon := place.(np_lon) |}.

Definition contactCoordinatesByName (name : option jstr) (contacts : list Contact) : option MeshPoint :=
  label ← truthy (trim <$> name);
  let matches := filter (fun item => (item.(c_name) ≟ Some label)
                                     && isValidLocation item.(c_lat) item.(c_lon) = true) contacts in
  match matches with
  | [item] =>
    place ← place_at item.(c_lat) item.(c_lon) [];
    Some {| mp_lat := place.(np_lat); mp_lon := place.(np_lon) |}
  | _ => None
  end.

Definition FULL_PUBLIC_KEY_RE : regex := ReSeq ReStart (ReSeq (ReTimes 64 (ReChar is_hex)) ReEnd).

Definition placedObserverCoordinates (entry : ObserverReachEntry) (contacts : list Contact)
    : PlacedObserverCoordinates :=
  let nowhere := {| pc_lat := None; pc_lon := None; pc_byName := false |} in
  if isValidLocation entry.(oe_lat) entry.(oe_lon)
  then {| pc_lat := entry.(oe_lat); pc_lon := entry.(oe_lon); pc_byName := false |}
  else match contactCoordinates entry.(oe_public_key) contacts with
  | Some place => {| pc_lat := Some place.(mp_lat); pc_lon := Some place.(mp_lon); pc_byName := false |}
  | None =>
    if re_test FULL_PUBLIC_KEY_RE (entry.(oe_public_key) ?? []) then nowhere
    else match contactCoordinatesByName (Some entry.(oe_name)) contacts with
    | Some place => {| pc_lat := Some place.(mp_lat); pc_lon := Some place.(mp_lon); pc_byName := true |}
    | None => nowhere
    end
  end.

Section distance.
Context `{JsMath}.
Definition meshTestDistanceKm (origin : option MeshPoint) (lat lon : option num) : option num :=
  match origin with
  | Some o => if isValidLocation lat lon then calculateDistance (Some o.(mp_lat)) (Some o.(mp_lon)) lat lon else None
  | None => None
  end.

Definition meshTestObserverDistanceKm (origin : option MeshPoint) (entry : ObserverReachEntry)
    (placed : PlacedObserverCoordinates) : option num :=
  if (entry.(oe_position_precision) ≟ Some PosRounded) || placed.(pc_byName) then None
  else meshTestDistanceKm origin placed.(pc_lat) placed.(pc_lon).
End distance.

(** ** Lines and summary *)

Record MeshTestPathPoint := {
  pp_lat : num;
  pp_lon : num;
  pp_hopIndex : option Z;
  pp_label : option jstr;
}.

(** The point a valid location makes. *)
Definition path_point (lat lon : option num) (hopIndex : option Z) (label : option jstr) : option MeshTestPathPoint :=
  place ← place_at lat lon [];
  Some {| pp_lat := place.(np_lat); pp_lon := place.(np_lon); pp_hopIndex := hopIndex; pp_label := label |}.

Definition hop_point (hop : MeshTestHop) : option MeshTestPathPoint :=
  path_point hop.(mh_lat) hop.(mh_lon) (Some hop.(mh_hopIndex)) (Some (hop.(mh_name) ?? hop.(mh_prefix))).

Definition meshTestPathPoints (observer : MeshTestObserver) (origin : option MeshPoint) : list MeshTestPathPoint :=
  match origin with
  | Some o => [{| pp_lat := o.(mp_lat); pp_lon := o.(mp_lon); pp_hopIndex := None; pp_label := None |}]
  | None => []
  end
  ++ omap hop_point observer.(mo_path)
  ++ match path_point observer.(mo_lat) observer.(mo_lon) None (Some observer.(mo_name)) with
     | Some p => [p]
     | None => []
     end.

Record MeshTestSummary := {
  ms_observerCount : Z;
  ms_positionedCount : Z;
  ms_maxHops : option Z;
  ms_maxDistanceKm : option num;
}.
#[export] Instance MeshTestSummary_eta : Eta MeshTestSummary :=
  fun s => Build_MeshTestSummary s.(ms_observerCount) s.(ms_positionedCount) s.(ms_maxHops) s.(ms_maxDistanceKm).

(** [if (x != null && (max == null || x > max)) max = x] *)
Definition raise {A} (lt : A -> A -> bool) (max x : option A) : option A :=
  match x, max with
  | Some x', Some max' => if lt max' x' then x else max
  | Some _, None => x
  | None, _ => max
  end.

Definition summary_step (s : MeshTestSummary) (observer : MeshTestObserver) : MeshTestSummary :=
  {| ms_observerCount := s.(ms_observerCount);
     ms_positionedCount := if isValidLocation observer.(mo_lat) observer.(mo_lon)
                           then s.(ms_positionedCount) + 1 else s.(ms_positionedCount);
     ms_maxHops := raise Z.ltb s.(ms_maxHops) observer.(mo_hops);
     ms_maxDistanceKm := raise num_lt s.(ms_maxDistanceKm) observer.(mo_distanceKm) |}.

Definition meshTestSummary (observers : list MeshTestObserver) : MeshTestSummary :=
  foldl summary_step {| ms_observerCount := len observers; ms_positionedCount := 0; ms_maxHops := None;
                        ms_maxDistanceKm := None |} observers.

(** ** Regions *)

Definition UNSCOPED_OVERRIDE_MARKER : jstr := js "*".
Definition isUnscopedMarker (scope : option jstr) : bool := scope ≟ Some UNSCOPED_OVERRIDE_MARKER.
Definition stripRegionScopePrefix (scope : option jstr) : jstr :=
  match truthy scope with
  | None => []
  | Some scope => if startsWith scope (js "#") then slice_from scope 1 else scope
  end.
Definition floodScopeOverrideLabel (scope : option jstr) : option jstr :=
  scope ← truthy scope;
  if isUnscopedMarker (Some scope) then Some (js "unscoped") else Some scope.

Section regions.
Context (lower : jstr -> jstr).
Definition region_token (scope : option jstr) : jstr := lower (trim (stripRegionScopePrefix scope)).
Definition preselectedFloodScope (floodScope : option jstr) (knownRegions : list jstr) : jstr :=
  let current := region_token floodScope in
  let first := head knownRegions ?? [] in
  match truthy (Some current) with
  | Some _ => match truthy (array_find (fun region => region_token (Some region) ≟ current) knownRegions) with
              | Some match_ => match_
              | None => first
              end
  | None => first
  end.
End regions.
