(* ===== verification/MeshTestView.v ===== *)
(** The page of the radio test: [components/MeshTestView.tsx] and its dialog,
    [components/MeshTestRunDialog.tsx].

    A view is a record of its state, its props and the run of its polling effect; the page keeps
    the view that is mounted, the entry of the session storage, and the requests under way, which
    outlive the view. An event (a click, a reply, a timer, other props) runs to its end; React then
    renders and runs the effects. [Date.now()] is an argument of the event that reads it; a timer
    holds the time it is due, and fires no earlier. *)
From S2P Require Import Prelude JsString JsCollections JsNum Json Types ApiErrors PathUtils ObserverReach MeshTest.

(** What the page reads of a reach report and of the answer to a send. *)
Record ReachReport := { rpt_observers : list ObserverReachEntry; rpt_sealed : option bool }.
Record MeshTestResponse := {
  tr_packet_hash : jstr;
  tr_sent_at : Z;
  tr_flood_scope : jstr;
  tr_origin_lat : option num;
  tr_origin_lon : option num;
}.

(** ** The dialog *)

(** [region], and the open state, scope and regions it was last seeded from. *)
Record RunDialog := {
  rd_region : jstr;
  rd_open : bool;
  rd_floodScope : option jstr;
  rd_seeded : Z;
}.

(** ** The view *)

(** Where the polling effect of a run is: waiting for its request, waiting for its timer, or
    returned, at a time. *)
Inductive PollState := Asking (id : Z) | Waiting (due : Z) | Over (at_ms : Z).
Record PollLoop := { pl_run : MeshTestRun; pl_state : PollState }.

Record MeshTestView := {
  mv_run : option MeshTestRun;
  mv_dialogOpen : bool;
  mv_sending : bool;
  mv_detail : option ReachReport;
  mv_error : option jstr;
  mv_sealed : bool;
  mv_selectedKey : option jstr;
  mv_directoryHits : list (jstr * DirectoryHopHit);
  mv_pollEpoch : Z;
  mv_nowMs : Z;
  mv_contacts : list Contact;
  mv_knownRegions : list jstr;
  mv_regionsVersion : Z;
  mv_floodScope : option jstr;
  mv_radioConnected : bool;
  mv_directoryPrefixes : list jstr;
  mv_resolving : option Z;
  mv_loop : option PollLoop;
  mv_dialog : RunDialog;
  mv_mount : Z;
}.
#[export] Instance MeshTestView_eta : Eta MeshTestView :=
  fun v => Build_MeshTestView v.(mv_run) v.(mv_dialogOpen) v.(mv_sending) v.(mv_detail) v.(mv_error) v.(mv_sealed)
    v.(mv_selectedKey) v.(mv_directoryHits) v.(mv_pollEpoch) v.(mv_nowMs) v.(mv_contacts) v.(mv_knownRegions)
    v.(mv_regionsVersion) v.(mv_floodScope) v.(mv_radioConnected) v.(mv_directoryPrefixes) v.(mv_resolving)
    v.(mv_loop) v.(mv_dialog) v.(mv_mount).

(** A request under way. The one that sends a test remembers its region, the time it was
    requested and the mount whose state it will set. *)
Inductive MeshCall :=
  | CallReach (packetHash : jstr)
  | CallSend (region : jstr) (startedAtMs mount : Z)
  | CallHops (prefixes : list jstr).
Inductive MeshReply :=
  | ReplyReach (report : ReachReport)
  | ReplySent (response : MeshTestResponse)
  | ReplyHops (resolved : list (jstr * DirectoryHopHit))
  | ReplyFailed (err : JsError).

(** The page; [mw_log] is what was asked and sent, with the numbers of the requests. *)
Record MeshWorld := {
  mw_view : option MeshTestView;
  mw_session : SessionEntry;
  mw_calls : list (Z * MeshCall);
  mw_log : list (Z * MeshCall);
  mw_next : Z;
  mw_mounts : Z;
  mw_toasts : list jstr;
}.
#[export] Instance MeshWorld_eta : Eta MeshWorld :=
  fun w => Build_MeshWorld w.(mw_view) w.(mw_session) w.(mw_calls) w.(mw_log) w.(mw_next) w.(mw_mounts) w.(mw_toasts).

Definition mesh_send (c : MeshCall) (w : MeshWorld) : Z * MeshWorld :=
  (w.(mw_next),
   ((w <| mw_calls := w.(mw_calls) ++ [(w.(mw_next), c)] |>) <| mw_log := w.(mw_log) ++ [(w.(mw_next), c)] |>)
   <| mw_next := w.(mw_next) + 1 |>).
Definition set_view (v : MeshTestView) (w : MeshWorld) : MeshWorld := w <| mw_view := Some v |>.

(** ** The dialog seeds its region *)

(** During a render: [knownRegions] is another array when its version differs. *)
Definition seed_region (lower : jstr -> jstr) (v : MeshTestView) : MeshTestView :=
  let d := v.(mv_dialog) in
  if negb (eqb v.(mv_dialogOpen) d.(rd_open)) || negb (v.(mv_floodScope) ≟ d.(rd_floodScope))
     || negb (v.(mv_regionsVersion) =? d.(rd_seeded))
  then v <| mv_dialog :=
    {| rd_region := if v.(mv_dialogOpen) then preselectedFloodScope lower v.(mv_floodScope) v.(mv_knownRegions)
                    else d.(rd_region);
       rd_open := v.(mv_dialogOpen); rd_floodScope := v.(mv_floodScope); rd_seeded := v.(mv_regionsVersion) |} |>
  else v.

(** ** The polling effect *)

Definition start_polling (run : MeshTestRun) (w : MeshWorld) (v : MeshTestView) : MeshWorld :=
  let '(id, w) := mesh_send (CallReach run.(mr_packetHash)) w in
  set_view (v <| mv_loop := Some {| pl_run := run; pl_state := Asking id |} |>) w.

(** The effect that depends on [run] and [pollEpoch], which has changed: the earlier one is
    cancelled. *)
Definition poll_effect (w : MeshWorld) (v : MeshTestView) : MeshWorld :=
  match v.(mv_run) with
  | None => set_view (v <| mv_loop := None |>) w
  | Some run => start_polling run w v
  end.

(** The end of a turn of [poll]. *)
Definition poll_again (run : MeshTestRun) (now : Z) : PollState :=
  match observerReachPollIntervalMs (meshTestAgeMs run now) with
  | None => Over now
  | Some interval => Waiting (now + interval)
  end.

(** ** The names of the hops *)

Definition add_prefix (contacts : list Contact) (prefixes : list jstr) (raw : jstr) : list jstr :=
  let hop := toPathHop raw contacts in
  if hopNeedsDirectoryGps hop && negb (bool_decide (hop.(ph_prefix) ∈ prefixes))
  then prefixes ++ [hop.(ph_prefix)] else prefixes.

(** The set of prefixes, in insertion order. *)
Definition directory_prefixes (detail : option ReachReport) (contacts : list Contact) : list jstr :=
  match detail with
  | None => []
  | Some report =>
    foldl (fun prefixes observer => foldl (add_prefix contacts) prefixes (observer.(oe_path) ?? []))
      [] report.(rpt_observers)
  end.

(** [detail] or [contacts] has changed: the set is another one, earlier hits are dropped when it is
    empty, and its effect asks the directory again. *)
Definition resolve_directory (w : MeshWorld) (v : MeshTestView) : MeshWorld :=
  let prefixes := directory_prefixes v.(mv_detail) v.(mv_contacts) in
  match prefixes with
  | [] => set_view (((v <| mv_directoryPrefixes := [] |>) <| mv_directoryHits := [] |>) <| mv_resolving := None |>) w
  | _ =>
    let '(id, w) := mesh_send (CallHops prefixes) w in
    set_view ((v <| mv_directoryPrefixes := prefixes |>) <| mv_resolving := Some id |>) w
  end.

(** ** What is shown *)

Section shown.
Context (localeCompare : jstr -> jstr -> comparison) `{JsMath}.

Definition shown_hop (v : MeshTestView) (hopIndex : nat) (prefix : jstr) : MeshTestHop :=
  let hop := toPathHop prefix v.(mv_contacts) in
  let hit := om_get v.(mv_directoryHits) hop.(ph_prefix) in
  let name := hopDisplayName hop hit in
  let location :=
    match hopMapLocation hop hit with
    | Some place => Some {| mp_lat := place.(np_lat); mp_lon := place.(np_lon) |}
    | None => contactCoordinatesByName name v.(mv_contacts)
    end in
  {| mh_prefix := hop.(ph_prefix); mh_hopIndex := Z.of_nat hopIndex; mh_name := name;
     mh_lat := mp_lat <$> location; mh_lon := mp_lon <$> location |}.

Definition shown_observer (v : MeshTestView) (index : nat) (entry : ObserverReachEntry) : MeshTestObserver :=
  let placed := placedObserverCoordinates entry v.(mv_contacts) in
  {| mo_key := observerRowKey entry (Z.of_nat index);
     mo_name := entry.(oe_name);
     mo_isMLC := entry.(oe_isMLC) ≟ Some true;
     mo_role := entry.(oe_role);
     mo_hops := entry.(oe_hops);
     mo_snr := entry.(oe_snr);
     mo_rssi := entry.(oe_rssi);
     mo_lat := placed.(pc_lat);
     mo_lon := placed.(pc_lon);
     mo_distanceKm := meshTestObserverDistanceKm (meshTestOrigin v.(mv_run)) entry placed;
     mo_path := imap (shown_hop v) (entry.(oe_path) ?? []) |}.

Definition shown_observers (v : MeshTestView) : list MeshTestObserver :=
  sortMeshTestObservers localeCompare
    (imap (shown_observer v) ((rpt_observers <$> v.(mv_detail)) ?? [])).
End shown.

Definition ageMs (v : MeshTestView) : Z :=
  match v.(mv_run) with Some run => meshTestAgeMs run v.(mv_nowMs) | None => 0 end.
Definition listenState (v : MeshTestView) : MeshTestListenState :=
  match v.(mv_run) with Some _ => meshTestListenState (ageMs v) v.(mv_sealed) | None => Stopped end.

Definition formatAge (ms : Z) : jstr :=
  let total := Z.max 0 (ms / 1000) in
  int_str (total / 60) ++ js ":" ++ padStart (int_str (total mod 60)) 2 48.

(** ** Events *)

Inductive MeshEvent :=
  | MtMount (now : Z) (contacts : list Contact) (knownRegions : list jstr) (floodScope : option jstr)
      (radioConnected : bool)
  | MtUnmount
  | MtTick (now : Z)
  | MtContacts (contacts : list Contact)
  | MtRadio (knownRegions : list jstr) (floodScope : option jstr) (radioConnected : bool)
  | MtDialog (open : bool)
  | MtRegion (candidate : jstr)
  | MtRun (now : Z)
  | MtForget
  | MtResume
  | MtSelect (key : jstr)
  | MtTimer (now : Z)
  | MtAnswer (id : Z) (reply : MeshReply) (now : Z).

Section events.
Context (lower : jstr -> jstr) (t : jstr -> list (jstr * Json) -> jstr) `{RunText}.

Definition mount_view (now : Z) (contacts : list Contact) (knownRegions : list jstr) (floodScope : option jstr)
    (radioConnected : bool) (w : MeshWorld) : MeshWorld :=
  let w := w <| mw_mounts := w.(mw_mounts) + 1 |> in
  let v := {| mv_run := readMeshTestRun w.(mw_session); mv_dialogOpen := false; mv_sending := false;
              mv_detail := None; mv_error := None; mv_sealed := false; mv_selectedKey := None;
              mv_directoryHits := []; mv_pollEpoch := 0; mv_nowMs := now; mv_contacts := contacts;
              mv_knownRegions := knownRegions; mv_regionsVersion := 0; mv_floodScope := floodScope;
              mv_radioConnected := radioConnected; mv_directoryPrefixes := []; mv_resolving := None;
              mv_loop := None;
              mv_dialog := {| rd_region := []; rd_open := false; rd_floodScope := floodScope; rd_seeded := 0 |};
              mv_mount := w.(mw_mounts) |} in
  poll_effect w v.

(** [handleRun], up to its request. The button of the dialog is offered for a region, when none is
    being sent. *)
Definition handleRun (now : Z) (w : MeshWorld) (v : MeshTestView) : MeshWorld :=
  let region := v.(mv_dialog).(rd_region) in
  if negb v.(mv_dialogOpen) || (v.(mv_knownRegions) ≟ []) || v.(mv_sending) || (region ≟ []) then w
  else
    let '(_, w) := mesh_send (CallSend region now v.(mv_mount)) w in
    set_view (v <| mv_sending := true |>) w.

Definition run_of_response (response : MeshTestResponse) (startedAtMs : Z) : MeshTestRun :=
  {| mr_packetHash := response.(tr_packet_hash); mr_sentAt := response.(tr_sent_at);
     mr_startedAtMs := Some startedAtMs; mr_floodScope := response.(tr_flood_scope);
     mr_originLat := response.(tr_origin_lat); mr_originLon := response.(tr_origin_lon) |}.

(** The state setters of a mount do nothing once it is gone. *)
Definition of_mount (mount : Z) (w : MeshWorld) : option MeshTestView :=
  match w.(mw_view) with
  | Some v => if v.(mv_mount) =? mount then Some v else None
  | None => None
  end.

(** The sets that a new run and a forgotten one share. *)
Definition reset_run (run : option MeshTestRun) (v : MeshTestView) : MeshTestView :=
  (((((v <| mv_detail := None |>) <| mv_sealed := false |>) <| mv_error := None |>)
    <| mv_selectedKey := None |>) <| mv_directoryHits := [] |>) <| mv_run := run |>.

(** The effects after a render that set another run: the set of prefixes changes with [detail]. *)
Definition after_reset (had_detail : bool) (w : MeshWorld) (v : MeshTestView) : MeshWorld :=
  let v := seed_region lower v in
  let v := if had_detail then (v <| mv_directoryPrefixes := [] |>) <| mv_resolving := None |> else v in
  poll_effect w v.

(** [handleRun], from the answer to its request. *)
Definition test_sent (startedAtMs mount : Z) (reply : MeshReply) (now : Z) (w : MeshWorld) : MeshWorld :=
  match reply with
  | ReplySent response =>
    let next := run_of_response response startedAtMs in
    let w := w <| mw_session := saveMeshTestRun next w.(mw_session) |> in
    let w := w <| mw_toasts := w.(mw_toasts) ++ [js "meshTest.sent"] |> in
    match of_mount mount w with
    | None => w
    | Some v =>
      let v' := reset_run (Some next) v in
      let v' := ((v' <| mv_nowMs := now |>) <| mv_dialogOpen := false |>) <| mv_sending := false |> in
      after_reset (bool_decide (is_Some v.(mv_detail))) w v'
    end
  | _ =>
    let w := w <| mw_toasts := w.(mw_toasts) ++ [js "meshTest.sendFailed"] |> in
    match of_mount mount w with
    | None => w
    | Some v => set_view (v <| mv_sending := false |>) w
    end
  end.

(** The button is shown with a run. *)
Definition handleForget (w : MeshWorld) (v : MeshTestView) : MeshWorld :=
  match v.(mv_run) with
  | None => w
  | Some _ =>
    let w := w <| mw_session := clearMeshTestRun w.(mw_session) |> in
    after_reset (bool_decide (is_Some v.(mv_detail))) w (reset_run None v)
  end.

(** The answer to the request of [poll] number [id]; a cancelled effect ignores it. *)
Definition reach_answered (id : Z) (reply : MeshReply) (now : Z) (w : MeshWorld) : MeshWorld :=
  match w.(mw_view) with
  | None => w
  | Some v =>
    match v.(mv_loop) with
    | Some {| pl_run := run; pl_state := Asking asked |} =>
      if negb (asked =? id) then w
      else
        let at_ st (v : MeshTestView) := v <| mv_loop := Some {| pl_run := run; pl_state := st |} |> in
        match reply with
        | ReplyReach report =>
          let v := (v <| mv_detail := Some report |>) <| mv_error := None |> in
          if report.(rpt_sealed) ≟ Some true
          then resolve_directory w (at_ (Over now) (v <| mv_sealed := true |>))
          else resolve_directory w (at_ (poll_again run now) v)
        | ReplyFailed err =>
          set_view (at_ (poll_again run now) (v <| mv_error := Some (formatApiError t err) |>)) w
        | _ => w
        end
    | _ => w
    end
  end.

Definition hops_answered (id : Z) (reply : MeshReply) (w : MeshWorld) : MeshWorld :=
  match w.(mw_view) with
  | None => w
  | Some v =>
    if v.(mv_resolving) ≟ Some id then
      set_view (v <| mv_directoryHits := match reply with ReplyHops resolved => resolved | _ => [] end |>) w
    else w
  end.

(** The reply to request [id] has the type of its request, or is a failure. *)
Definition reply_fits (c : MeshCall) (reply : MeshReply) : bool :=
  match c, reply with
  | _, ReplyFailed _ | CallReach _, ReplyReach _ | CallSend _ _ _, ReplySent _ | CallHops _, ReplyHops _ => true
  | _, _ => false
  end.

Definition mesh_answer (id : Z) (reply : MeshReply) (now : Z) (w : MeshWorld) : MeshWorld :=
  match om_get w.(mw_calls) id with
  | None => w
  | Some c =>
    if negb (reply_fits c reply) then w
    else
      let w := w <| mw_calls := om_delete w.(mw_calls) id |> in
      match c with
      | CallReach _ => reach_answered id reply now w
      | CallSend _ startedAtMs mount => test_sent startedAtMs mount reply now w
      | CallHops _ => hops_answered id reply w
      end
  end.

Definition view_event (e : MeshEvent) (w : MeshWorld) (v : MeshTestView) : MeshWorld :=
  match e with
  | MtTick now => set_view (v <| mv_nowMs := now |>) w
  | MtContacts contacts => resolve_directory w (v <| mv_contacts := contacts |>)
  | MtRadio knownRegions floodScope radioConnected =>
    set_view (seed_region lower
      ((((v <| mv_knownRegions := knownRegions |>) <| mv_regionsVersion := v.(mv_regionsVersion) + 1 |>)
        <| mv_floodScope := floodScope |>) <| mv_radioConnected := radioConnected |>)) w
  | MtDialog open =>
    if open && (v.(mv_sending) || negb v.(mv_radioConnected)) then w
    else set_view (seed_region lower (v <| mv_dialogOpen := open |>)) w
  | MtRegion candidate =>
    if v.(mv_dialogOpen) && bool_decide (candidate ∈ v.(mv_knownRegions))
    then set_view (v <| mv_dialog := {| rd_region := candidate; rd_open := v.(mv_dialog).(rd_open);
                                       rd_floodScope := v.(mv_dialog).(rd_floodScope);
                                       rd_seeded := v.(mv_dialog).(rd_seeded) |} |>) w
    else w
  | MtRun now => handleRun now w v
  | MtForget => handleForget w v
  | MtResume =>
    match v.(mv_run), listenState v with
    | Some _, Stopped => poll_effect w (v <| mv_pollEpoch := v.(mv_pollEpoch) + 1 |>)
    | _, _ => w
    end
  | MtSelect key =>
    set_view (v <| mv_selectedKey := if v.(mv_selectedKey) ≟ Some key then None else Some key |>) w
  | MtTimer now =>
    match v.(mv_loop) with
    | Some {| pl_run := run; pl_state := Waiting due |} => if due <=? now then start_polling run w v else w
    | _ => w
    end
  | MtUnmount => w <| mw_view := None |>
  | MtMount _ _ _ _ _ | MtAnswer _ _ _ => w
  end.

Definition mesh_step (w : MeshWorld) (e : MeshEvent) : MeshWorld :=
  match e with
  | MtAnswer id reply now => mesh_answer id reply now w
  | MtMount now contacts knownRegions floodScope radioConnected =>
    match w.(mw_view) with
    | None => mount_view now contacts knownRegions floodScope radioConnected w
    | Some _ => w
    end
  | _ => match w.(mw_view) with Some v => view_event e w v | None => w end
  end.

Definition mesh_run (events : list MeshEvent) (w : MeshWorld) : MeshWorld := foldl mesh_step w events.
End events.

Definition mesh_world0 (session : SessionEntry) : MeshWorld :=
  {| mw_view := None; mw_session := session; mw_calls := []; mw_log := []; mw_next := 0; mw_mounts := 0;
     mw_toasts := [] |}.
