(* ===== verification/MeshTestProps.v ===== *)
(** What [MeshTest] promises: distances come from positions of the observer itself, a placed hop
    has the name it is shown under, the rows are the report's in order of hops, the summary is
    reached and not exceeded, a saved run is read back, the region preselected is offered. *)
From Corelib Require Import SpecFloat.
From S2P Require Import Prelude JsString JsCollections JsNum Json Types PathUtils MeshTest MeshTestView.

(** ** Places *)

Lemma place_at_spec lat lon name place :
  place_at lat lon name = Some place <->
  lat = Some place.(np_lat) /\ lon = Some place.(np_lon) /\ name = place.(np_name) /\ isValidLocation lat lon = true.
Proof.
  unfold place_at. destruct lat as [x|], lon as [y|]; try naive_solver.
  destruct (isValidLocation _ _); [|naive_solver]. destruct place; cbn. naive_solver.
Qed.

Lemma resolve_local_Known prefix matches contact :
  resolveLocalHopDisplay prefix matches = Known contact ->
  matches = [contact] /\ contact.(c_type) = CONTACT_TYPE_REPEATER /\ 4 <= len prefix.
Proof.
  unfold resolveLocalHopDisplay, MIN_NAMED_HOP_HEX_CHARS. destruct (Z.ltb_spec (len prefix) 4); [done|].
  destruct matches as [|c [|]]; try done. destruct (Z.eqb_spec c.(c_type) CONTACT_TYPE_REPEATER); cbn; [|done].
  by intros [= ->].
Qed.

(** A hop drawn on the map carries the name it is listed under; hops of one byte and hops with
    several candidates are not drawn. *)
Theorem placed_hop_named_alike hop directory place :
  hopMapLocation hop directory = Some place ->
  4 <= len hop.(ph_prefix) /\ length hop.(ph_matches) <> 2%nat
  /\ forall name, hopDisplayName hop directory = Some name -> place.(np_name) = name.
Proof.
  unfold hopMapLocation, hop_local, hopDisplayName, resolveHopDisplay, resolveLocalHopDisplay,
    MIN_NAMED_HOP_HEX_CHARS.
  destruct (Z.ltb_spec (len hop.(ph_prefix)) 4); [done|].
  destruct (ph_matches hop) as [|c [|]]; [| |done]; cbn [length].
  - destruct directory as [d|]; [|done]. intros (_ & _ & Hn & _)%place_at_spec. split_and!; [done|done|].
    intros name. destruct (_ && _) eqn:E; [|done]. intros [= <-]. rewrite <- Hn.
    to_prop. unfold truthy. destruct (dh_name d); [done|]. done.
  - destruct (negb _).
    + destruct directory as [d|]; [|done]. intros (_ & _ & Hn & _)%place_at_spec. split_and!; [done|done|].
      intros name. destruct (_ && _) eqn:E; [|done]. intros [= <-]. rewrite <- Hn.
      to_prop. unfold truthy. destruct (dh_name d); [done|]. done.
    + intros Hp. split_and!; [done|done|]. intros name [= <-].
      destruct (place_at (c_lat c) _ _) eqn:E.
      * injection Hp as <-. by apply place_at_spec in E as (_ & _ & <- & _).
      * destruct directory as [d|]; [|done]. by apply place_at_spec in Hp as (_ & _ & <- & _).
Qed.

(** ** Distances *)

(** A position that is the observer's own: the one it reported, or the advert of the contact with
    its key. *)
Definition own_position (contacts : list Contact) (entry : ObserverReachEntry) (lat lon : num) : Prop :=
  (entry.(oe_lat) = Some lat /\ entry.(oe_lon) = Some lon)
  \/ exists key contact, entry.(oe_public_key) = Some key /\ contact ∈ contacts
     /\ toLowerCase contact.(c_public_key) = toLowerCase key
     /\ contact.(c_lat) = Some lat /\ contact.(c_lon) = Some lon.

Lemma contactCoordinates_own contacts entry p :
  contactCoordinates entry.(oe_public_key) contacts = Some p -> own_position contacts entry p.(mp_lat) p.(mp_lon).
Proof.
  unfold contactCoordinates. destruct (oe_public_key entry) as [key|] eqn:Ek; [|done].
  destruct (truthy (Some key)) as [key'|] eqn:Et; [|done].
  assert (key' = key) as -> by (destruct key; naive_solver).
  cbn [mbind option_bind]. destruct (array_find _ contacts) as [c|] eqn:Ef; [|done].
  apply array_find_Some in Ef as [Hin Hkey%bool_decide_eq_true].
  cbn [mbind option_bind]. destruct (place_at _ _ _) as [place|] eqn:Ep; [|done]. intros [= <-].
  apply place_at_spec in Ep as (? & ? & _). right. by exists key, c.
Qed.

Lemma placed_own contacts entry lat lon :
  (placedObserverCoordinates entry contacts).(pc_byName) = false ->
  (placedObserverCoordinates entry contacts).(pc_lat) = Some lat ->
  (placedObserverCoordinates entry contacts).(pc_lon) = Some lon ->
  own_position contacts entry lat lon.
Proof.
  unfold placedObserverCoordinates. destruct (isValidLocation _ _); [by left|].
  destruct (contactCoordinates _ _) eqn:E.
  - intros _ [= <-] [= <-]. by apply contactCoordinates_own in E.
  - destruct (Regex.re_test _ _); [done|]. by destruct (contactCoordinatesByName _ _).
Qed.

(** The distance of [mo], if it has one, is measured from the origin to a position of the
    observer's own. *)
Lemma observer_distance `{JsMath} origin contacts entry d :
  meshTestObserverDistanceKm origin entry (placedObserverCoordinates entry contacts) = Some d ->
  entry.(oe_position_precision) <> Some PosRounded
  /\ exists o lat lon, origin = Some o /\ own_position contacts entry lat lon
     /\ isValidLocation (Some lat) (Some lon) = true
     /\ calculateDistance (Some o.(mp_lat)) (Some o.(mp_lon)) (Some lat) (Some lon) = Some d.
Proof.
  unfold meshTestObserverDistanceKm, meshTestDistanceKm.
  destruct (bool_decide_reflect (entry.(oe_position_precision) = Some PosRounded)); [done|]. cbn [orb].
  destruct (pc_byName _) eqn:Eb; [done|]. destruct origin as [o|]; [|done].
  destruct (isValidLocation _ _) eqn:Ev; [|done]. intros Hd. split; [done|].
  destruct (pc_lat _) as [lat|] eqn:Ela; [|done]. destruct (pc_lon _) as [lon|] eqn:Elo; [|done].
  exists o, lat, lon. eauto using placed_own.
Qed.

(** ** Rows *)

Lemma elem_of_imap_row {A B} (f : nat -> A -> B) l y : y ∈ imap f l -> exists i x, x ∈ l /\ y = f i x.
Proof. intros (i & x & -> & Hx)%elem_of_lookup_imap_1. exists i, x. eauto using list_elem_of_lookup_2. Qed.

Definition report_rows (v : MeshTestView) : list ObserverReachEntry := (rpt_observers <$> v.(mv_detail)) ?? [].

(** A distance shown for an observer is measured to a position of its own (reported, or the
    advert of its key), which is not rounded; never to a place found by its name. *)
Theorem shown_distance_own_position (localeCompare : jstr -> jstr -> comparison) `{JsMath}
    (v : MeshTestView) (o : MeshTestObserver) (d : num)
    (Ho : o ∈ shown_observers localeCompare v) (Hd : o.(mo_distanceKm) = Some d) :
  exists entry origin lat lon,
    entry ∈ report_rows v /\ entry.(oe_position_precision) <> Some PosRounded
    /\ meshTestOrigin v.(mv_run) = Some origin
    /\ own_position v.(mv_contacts) entry lat lon /\ isValidLocation (Some lat) (Some lon) = true
    /\ calculateDistance (Some origin.(mp_lat)) (Some origin.(mp_lon)) (Some lat) (Some lon) = Some d.
Proof.
  unfold shown_observers, sortMeshTestObservers in Ho. rewrite js_sort_perm in Ho.
  apply elem_of_imap_row in Ho as (i & entry & Hin & ->). cbn in Hd.
  apply observer_distance in Hd as (Hp & origin & lat & lon & ? & ? & ? & ?).
  by exists entry, origin, lat, lon.
Qed.

Definition hops_le (a b : MeshTestObserver) : Prop := cmp_hops a.(mo_hops) b.(mo_hops) <> Gt.
#[export] Instance hops_le_trans : Transitive hops_le.
Proof.
  intros a b c. unfold hops_le, cmp_hops.
  destruct (mo_hops a), (mo_hops b), (mo_hops c); try done. rewrite !Z.compare_gt_iff. lia.
Qed.

(** The rows are the observers of the report, each once, by hops, unknown hops last. *)
Theorem rows_by_hops (localeCompare : jstr -> jstr -> comparison) `{JsMath} (v : MeshTestView) :
  shown_observers localeCompare v ≡ₚ imap (shown_observer v) (report_rows v)
  /\ StronglySorted hops_le (shown_observers localeCompare v).
Proof.
  split; [apply js_sort_perm|]. apply js_sort_coarse; [apply _| |]; intros a b; unfold cmp_observers, hops_le.
  - destruct (cmp_hops a.(mo_hops) b.(mo_hops)) eqn:E; congruence.
  - unfold cmp_hops. destruct (mo_hops a) as [x|], (mo_hops b) as [y|]; try done.
    rewrite (Z.compare_antisym x y). by destruct (x ?= y).
Qed.

(** ** The summary *)

Section raise.
Context {A : Type} (lt : A -> A -> bool).
Hypothesis lt_trans : forall x y z, lt x y = true -> lt y z = true -> lt x z = true.
Hypothesis lt_irrefl : forall x, lt x x = false.

(** [max] is among the values, and none exceeds it. *)
Definition is_max (max : option A) (xs : list (option A)) : Prop :=
  match max with
  | Some m => Some m ∈ xs /\ forall x, Some x ∈ xs -> lt m x = false
  | None => forall x, Some x ∉ xs
  end.

Lemma raise_is_max max xs x : is_max max xs -> is_max (raise lt max x) (xs ++ [x]).
Proof using lt_trans lt_irrefl.
  intros Hmax. destruct x as [x|], max as [m|]; cbn in *.
  - destruct Hmax as [Hm Hall]. destruct (lt m x) eqn:E; cbn.
    + split; [apply elem_of_app; right; by left|]. intros y [Hy|Hy%list_elem_of_singleton]%elem_of_app.
      * destruct (lt x y) eqn:E'; [|done]. rewrite <- (Hall y Hy). symmetry. by apply (lt_trans m x y).
      * by injection Hy as ->.
    + split; [apply elem_of_app; by left|]. intros y [Hy|Hy%list_elem_of_singleton]%elem_of_app; [by apply Hall|].
      by injection Hy as ->.
  - split; [apply elem_of_app; right; by left|]. intros y [Hy|Hy%list_elem_of_singleton]%elem_of_app;
      [by destruct (Hmax y)|by injection Hy as ->].
  - destruct Hmax as [Hm Hall]. split; [apply elem_of_app; by left|].
    intros y [Hy|Hy%list_elem_of_singleton]%elem_of_app; [by apply Hall|done].
  - intros y [Hy|Hy%list_elem_of_singleton]%elem_of_app; [by destruct (Hmax y)|done].
Qed.
End raise.

(** The extremes of the summary are values of observers that no other exceeds, and there is none
    exactly when no observer has the value. *)
Theorem summary_extremes (observers : list MeshTestObserver) :
  is_max Z.ltb (meshTestSummary observers).(ms_maxHops) (mo_hops <$> observers)
  /\ is_max num_lt (meshTestSummary observers).(ms_maxDistanceKm) (mo_distanceKm <$> observers)
  /\ (meshTestSummary observers).(ms_positionedCount)
     = len (filter (fun o => isValidLocation o.(mo_lat) o.(mo_lon) = true) observers)
  /\ (meshTestSummary observers).(ms_observerCount) = len observers.
Proof.
  unfold meshTestSummary. generalize (len observers) as n.
  induction observers as [|o l IH] using rev_ind; intros n.
  - unfold is_max. cbn. set_solver.
  - rewrite foldl_app, !fmap_app. destruct (IH n) as (Hh & Hd & Hp & Hc). cbn [foldl].
    unfold summary_step at 1 3 5 7. cbn [ms_maxHops ms_maxDistanceKm ms_positionedCount ms_observerCount].
    split_and!.
    + apply raise_is_max; [intros ? ? ?; rewrite !Z.ltb_lt; lia|intros; apply Z.ltb_irrefl|done].
    + apply raise_is_max; [apply num_lt_trans|apply num_lt_irrefl|done].
    + rewrite Hp, filter_app. unfold len. rewrite length_app. cbn [filter].
      rewrite filter_cons, filter_nil. case_decide as E; rewrite ?E; [cbn; lia|].
      destruct (isValidLocation _ _); [done|cbn; lia].
    + done.
Qed.

(** ** The stored run *)

(** What [JSON.stringify] is given: an absent [startedAtMs] is left out. *)
Definition json_of_run (r : MeshTestRun) : Json :=
  let number x := match x with Some x => Jnumber x | None => Jnull end in
  Jobject ([(js "packetHash", Jstring r.(mr_packetHash)); (js "sentAt", Jnumber (num_of_Z r.(mr_sentAt)))]
    ++ match r.(mr_startedAtMs) with Some s => [(js "startedAtMs", Jnumber (num_of_Z s))] | None => [] end
    ++ [(js "floodScope", Jstring r.(mr_floodScope)); (js "originLat", number r.(mr_originLat));
        (js "originLon", number r.(mr_originLon))]).

(** Numbers that JSON keeps: whole times below 2^53, finite coordinates; a hash that is not empty. *)
Definition storable (r : MeshTestRun) : Prop :=
  r.(mr_packetHash) <> [] /\ Z.abs r.(mr_sentAt) < 2 ^ 53
  /\ (forall s, r.(mr_startedAtMs) = Some s -> Z.abs s < 2 ^ 53)
  /\ (forall x, r.(mr_originLat) = Some x -> num_isFinite x = true)
  /\ (forall x, r.(mr_originLon) = Some x -> num_isFinite x = true).

(** [JSON.parse] reads back what [JSON.stringify] wrote of a storable run, which is not empty. *)
Class RunTextLaws `{RunText} := {
  parse_stringify r : storable r -> parse_json (stringify_run r) = Some (json_of_run r);
  stringify_nonempty r : stringify_run r <> [];
}.

Lemma stored_time_of_Z z : Z.abs z < 2 ^ 53 -> stored_time (Some (Some (Jnumber (num_of_Z z)))) = Some z.
Proof. intros Hz. unfold stored_time. by rewrite num_of_Z_finite, math_floor_of_Z. Qed.

Lemma run_of_json_of_run r : storable r -> run_of_json (json_of_run r) = Some r.
Proof.
  intros (Hh & Hs & Ha & _ & _).
  destruct r as [hash sentAt startedAt scope lat lon]; cbn in Hh, Hs, Ha.
  assert (Htr : truthy (Some hash) = Some hash) by (by destruct hash).
  assert (Hsent := stored_time_of_Z sentAt Hs).
  unfold run_of_json, json_of_run. cbn [field mr_packetHash mr_sentAt mr_startedAtMs mr_floodScope mr_originLat mr_originLon].
  set (s := num_of_Z sentAt) in *. clearbody s.
  destruct startedAt as [a|].
  - assert (Hst := stored_time_of_Z a (Ha a eq_refl)). set (x := num_of_Z a) in *. clearbody x.
    cbn [app]. read_keys. cbn [stored_string]. rewrite Htr, Hsent, Hst. cbn. by destruct lat, lon.
  - cbn [app]. read_keys. cbn [stored_string]. rewrite Htr, Hsent. cbn. by destruct lat, lon.
Qed.

(** A run saved in a storage that works is read back whole. *)
Theorem saved_run_read_back `{RunTextLaws} (run : MeshTestRun) (s : SessionEntry) :
  storable run -> s.(se_readable) = true -> s.(se_writable) = true ->
  readMeshTestRun (saveMeshTestRun run s) = Some run.
Proof.
  intros Hrun Hr Hw. assert (Hp := parse_stringify run Hrun). assert (Hn := stringify_nonempty run).
  unfold readMeshTestRun, saveMeshTestRun. rewrite Hw. cbn [se_readable]. 
  destruct (stringify_run run) as [|c l]; [done|]. cbn. rewrite Hr, Hp. by apply run_of_json_of_run.
Qed.

(** ** Lines *)

Lemma hop_point_index hop p : hop_point hop = Some p -> p.(pp_hopIndex) = Some hop.(mh_hopIndex).
Proof. unfold hop_point, path_point. destruct (place_at _ _ _); [|done]. by intros [= <-]. Qed.

Lemma hop_points_sorted (f : nat -> jstr -> MeshTestHop) l k :
  (forall n x, (f n x).(mh_hopIndex) = k + Z.of_nat n) ->
  StronglySorted Z.lt (omap pp_hopIndex (omap hop_point (imap f l)))
  /\ Forall (Z.le k) (omap pp_hopIndex (omap hop_point (imap f l))).
Proof.
  revert f k. induction l as [|x l IH]; intros f k Hf; [split; constructor|].
  rewrite imap_cons. cbn [omap list_omap].
  destruct (IH (f ∘ S) (k + 1)) as [Hs Hge]; [intros; cbn; rewrite Hf; lia|].
  assert (Hge' : Forall (Z.le k) (omap pp_hopIndex (omap hop_point (imap (f ∘ S) l)))).
  { eapply Forall_impl; [exact Hge|]. cbn. lia. }
  destruct (hop_point (f 0%nat x)) as [p|] eqn:Ep; [|done]. apply hop_point_index in Ep. rewrite Hf in Ep.
  cbn [omap list_omap]. rewrite Ep. split; constructor; [done| |lia|done].
  eapply Forall_impl; [exact Hge|]. cbn. lia.
Qed.

(** The points of a line are the origin, hops that have a position, in the order of the route, and
    the observer: the hops' indexes increase. *)
Theorem line_follows_route `{JsMath} (v : MeshTestView) (i : nat) (entry : ObserverReachEntry) origin :
  StronglySorted Z.lt (omap pp_hopIndex (meshTestPathPoints (shown_observer v i entry) origin)).
Proof.
  unfold meshTestPathPoints. rewrite !omap_app.
  assert (Ho : forall o : option MeshPoint, omap pp_hopIndex match o with
    | Some o => [{| pp_lat := o.(mp_lat); pp_lon := o.(mp_lon); pp_hopIndex := None; pp_label := None |}]
    | None => [] end = []) by by intros [].
  assert (Hl : forall lat lon label, omap pp_hopIndex match path_point lat lon None label with
    | Some p => [p] | None => [] end = []).
  { intros. unfold path_point. by destruct (place_at _ _ _). }
  rewrite Ho, Hl, app_nil_r. cbn [app shown_observer mo_path]. by apply (hop_points_sorted _ _ 0).
Qed.

(** ** Regions *)

Lemma preselected_in (lower : jstr -> jstr) floodScope knownRegions :
  knownRegions <> [] -> preselectedFloodScope lower floodScope knownRegions ∈ knownRegions.
Proof.
  intros Hne. assert (Hhead : head knownRegions ?? [] ∈ knownRegions) by (destruct knownRegions; [done|by left]).
  unfold preselectedFloodScope. destruct (truthy _) as [?|]; [|done].
  destruct (array_find _ knownRegions) as [r|] eqn:Ef; [|done].
  apply array_find_Some in Ef as [Hin _]. by destruct r.
Qed.

(** The region preselected is one the radio offers, and the node's own scope when it is offered. *)
Theorem preselected_is_offered (lower : jstr -> jstr) floodScope knownRegions :
  lower [] = [] ->
  let r := preselectedFloodScope lower floodScope knownRegions in
  (knownRegions <> [] -> r ∈ knownRegions)
  /\ forall region, region ∈ knownRegions -> region_token lower (Some region) = region_token lower floodScope ->
     region_token lower floodScope <> [] -> region_token lower (Some r) = region_token lower floodScope.
Proof.
  intros Hl. split; [apply preselected_in|]. intros region Hin Hreg Hne. unfold preselectedFloodScope.
  set (cur := region_token lower floodScope) in *.
  assert (truthy (Some cur) = Some cur) as -> by (by destruct cur).
  destruct (array_find _ knownRegions) as [r|] eqn:Ef.
  - apply array_find_Some in Ef as [_ Hr%bool_decide_eq_true]. destruct r; [|done]. by rewrite <- Hr in Hne.
  - assert (Hf := array_find_None _ _ _ Ef Hin). cbn in Hf. by apply bool_decide_eq_false in Hf.
Qed.

(** ** Examples *)

(** A text of runs that keeps every storable run. *)
Definition code_num (x : option num) : list Z :=
  match x with
  | None => [0; 0; 0; 0]
  | Some (S754_zero s) => [1; Z.b2z s; 0; 0]
  | Some (S754_infinity s) => [2; Z.b2z s; 0; 0]
  | Some S754_nan => [3; 0; 0; 0]
  | Some (S754_finite s m e) => [4; Z.b2z s; Zpos m; e]
  end.
Definition decode_num (tag s m e : Z) : option num :=
  let s := s =? 1 in
  if tag =? 0 then None
  else if tag =? 1 then Some (S754_zero s)
  else if tag =? 2 then Some (S754_infinity s)
  else if tag =? 3 then Some S754_nan
  else Some (S754_finite s (Z.to_pos m) e).
Lemma decode_code_num x : match code_num x with [t; s; m; e] => decode_num t s m e = x | _ => False end.
Proof. by destruct x as [[[]|[]| |[] m e]|]. Qed.

#[export] Instance plain_text : RunText := {|
  stringify_run r :=
    len r.(mr_packetHash) :: r.(mr_packetHash)
    ++ [r.(mr_sentAt); if r.(mr_startedAtMs) then 1 else 0; r.(mr_startedAtMs) ?? 0]
    ++ code_num r.(mr_originLat) ++ code_num r.(mr_originLon) ++ r.(mr_floodScope);
  parse_json s :=
    match s with
    | n :: rest =>
      match drop (Z.to_nat n) rest with
      | sent :: has :: started :: t1 :: s1 :: m1 :: e1 :: t2 :: s2 :: m2 :: e2 :: scope =>
        Some (json_of_run
          {| mr_packetHash := take (Z.to_nat n) rest; mr_sentAt := sent;
             mr_startedAtMs := if has =? 1 then Some started else None; mr_floodScope := scope;
             mr_originLat := decode_num t1 s1 m1 e1; mr_originLon := decode_num t2 s2 m2 e2 |})
      | _ => None
      end
    | [] => None
    end
|}.
#[export] Instance plain_text_laws : RunTextLaws.
Proof.
  split; [|done]. intros [hash sent started scope lat lon] _. unfold parse_json, plain_text, stringify_run.
  cbn [mr_packetHash mr_sentAt mr_startedAtMs mr_floodScope mr_originLat mr_originLon].
  unfold len. rewrite Nat2Z.id, drop_app_length, take_app_length.
  assert (Hla := decode_code_num lat). assert (Hlo := decode_code_num lon).
  destruct (code_num lat) as [|t1 [|s1 [|m1 [|e1 [|]]]]]; try done.
  destruct (code_num lon) as [|t2 [|s2 [|m2 [|e2 [|]]]]]; try done. cbn [app].
  rewrite Hla, Hlo. by destruct started.
Qed.

#[export] Instance plain_math : JsMath := {|
  math_sin x := x; math_cos _ := num_of_Z 1; math_atan2 y _ := y
|}.

Definition demo_entry (name key : string) (hops : Z) : ObserverReachEntry :=
  {| oe_name := js name; oe_public_key := Some (js key); oe_lat := Some (num_of_Z 48); oe_lon := Some (num_of_Z 2);
     oe_position_precision := Some PosExact; oe_hops := Some hops; oe_snr := None; oe_role := None; oe_rssi := None;
     oe_path := Some [js "a1b2"]; oe_isMLC := None |}.
Definition demo_run : MeshTestRun :=
  {| mr_packetHash := js "90fd"; mr_sentAt := 1700000000; mr_startedAtMs := Some 1700000000500;
     mr_floodScope := js "fr"; mr_originLat := Some (num_of_Z 45); mr_originLon := Some (num_of_Z 3) |}.
Definition demo_view : MeshTestView :=
  {| mv_run := Some demo_run; mv_dialogOpen := false; mv_sending := false;
     mv_detail := Some {| rpt_observers := [demo_entry "far" "aa" 3; demo_entry "near" "bb" 1]; rpt_sealed := None |};
     mv_error := None; mv_sealed := false; mv_selectedKey := None; mv_directoryHits := []; mv_pollEpoch := 0;
     mv_nowMs := 0; mv_contacts := []; mv_knownRegions := []; mv_regionsVersion := 0; mv_floodScope := None;
     mv_radioConnected := true; mv_directoryPrefixes := []; mv_resolving := None; mv_loop := None;
     mv_dialog := {| rd_region := []; rd_open := false; rd_floodScope := None; rd_seeded := 0 |}; mv_mount := 1 |}.

Example demo_rows : mo_name <$> shown_observers str_compare demo_view = [js "near"; js "far"].
Proof. by vm_compute. Qed.

Lemma shown_distance_own_position_witness :
  exists o d entry origin lat lon, o ∈ shown_observers str_compare demo_view /\ o.(mo_distanceKm) = Some d
    /\ entry ∈ report_rows demo_view /\ entry.(oe_position_precision) <> Some PosRounded
    /\ meshTestOrigin demo_view.(mv_run) = Some origin
    /\ own_position demo_view.(mv_contacts) entry lat lon /\ isValidLocation (Some lat) (Some lon) = true
    /\ calculateDistance (Some origin.(mp_lat)) (Some origin.(mp_lon)) (Some lat) (Some lon) = Some d.
Proof.
  destruct (shown_observers str_compare demo_view) as [|o l] eqn:E; [by vm_compute in E|].
  destruct o.(mo_distanceKm) as [d|] eqn:Ed.
  - destruct (shown_distance_own_position str_compare demo_view o d) as (entry & origin & lat & lon & Hrest).
    + rewrite E. by left.
    + done.
    + exists o, d, entry, origin, lat, lon. split; [by left|]. by split.
  - assert (He : head (mo_distanceKm <$> shown_observers str_compare demo_view) <> Some None) by by vm_compute.
    rewrite E in He. cbn in He. congruence.
Defined.
