(* ===== verification/MeshTestViewProps.v ===== *)
(** The page of the radio test: while it says it listens, a request is under way or a timer is set, or
    its clock is about to say that it stopped;
    the report it shows is of the run it shows; a page left and opened again goes on with its run;
    a test is only sent to a region the radio knows. *)
From S2P Require Import Prelude JsString JsCollections JsNum Json Types ApiErrors PathUtils ObserverReach MeshTest.
From S2P Require Import MeshTestView MeshTestProps.

(** ** Time *)

Definition event_time (e : MeshEvent) : option Z :=
  match e with
  | MtMount now _ _ _ _ | MtTick now | MtRun now | MtTimer now | MtAnswer _ _ now => Some now
  | _ => None
  end.
Definition happens_by (T : Z) (e : MeshEvent) : Prop := forall now, event_time e = Some now -> now <= T.

Lemma happens_by_some events : exists T, Forall (happens_by T) events.
Proof.
  induction events as [|e l [T IH]]; [by exists 0|]. exists (Z.max (event_time e ?? 0) T). constructor.
  - intros now Hn. rewrite Hn. cbn. lia.
  - eapply Forall_impl; [exact IH|]. intros x Hx now Hn. specialize (Hx now Hn). lia.
Qed.

Lemma interval_None age : observerReachPollIntervalMs age = None <-> MID_REACH_MS <= age.
Proof.
  unfold observerReachPollIntervalMs, YOUNG_REACH_MS, MID_REACH_MS. split_cmp; split; try done; lia.
Qed.
Lemma interval_le age i : observerReachPollIntervalMs age = Some i -> i <= MID_POLL_MS.
Proof.
  unfold observerReachPollIntervalMs, YOUNG_POLL_MS, MID_POLL_MS. split_cmp; intros [=]; lia.
Qed.

(** ** Requests under way *)

Definition calls_ok (w : MeshWorld) : Prop :=
  forall id c, om_get w.(mw_calls) id = Some c -> id < w.(mw_next) /\ (id, c) ∈ w.(mw_log).

(** Nothing under way is lost, nor anything sent forgotten. *)
Definition grows (w w' : MeshWorld) : Prop :=
  (forall id c, om_get w.(mw_calls) id = Some c -> om_get w'.(mw_calls) id = Some c)
  /\ (forall x, x ∈ w.(mw_log) -> x ∈ w'.(mw_log)).

Lemma mesh_send_spec c w :
  calls_ok w ->
  let '(id, w') := mesh_send c w in
  calls_ok w' /\ grows w w' /\ om_get w'.(mw_calls) id = Some c /\ (id, c) ∈ w'.(mw_log)
  /\ w'.(mw_view) = w.(mw_view) /\ w'.(mw_session) = w.(mw_session)
  /\ (forall i d, om_get w'.(mw_calls) i = Some d -> d = c \/ om_get w.(mw_calls) i = Some d).
Proof.
  intros Hok. cbn.
  assert (Hnew : om_get w.(mw_calls) w.(mw_next) = None).
  { destruct (om_get _ _) eqn:E; [|done]. apply Hok in E as [? _]. lia. }
  assert (Hget : forall i d, om_get (w.(mw_calls) ++ [(w.(mw_next), c)]) i = Some d ->
    (i = w.(mw_next) /\ d = c) \/ om_get w.(mw_calls) i = Some d).
  { intros i d. rewrite om_get_app. destruct (om_get w.(mw_calls) i); [by right|]. cbn.
    case_decide; [intros [= <-]; by left|done]. }
  split_and!.
  - intros i d [[-> ->]|[? ?]%Hok]%Hget; cbn; rewrite elem_of_app; (split; [lia|]); [right; by left|by left].
  - split; cbn; [intros i d H; by rewrite om_get_app, H|intros; apply elem_of_app; by left].
  - by rewrite om_get_app, Hnew; cbn; rewrite decide_True.
  - apply elem_of_app. right. by left.
  - done.
  - done.
  - intros i d [[_ ->]|]%Hget; [by left|by right].
Qed.

Lemma delete_calls_ok id w : calls_ok w -> calls_ok (w <| mw_calls := om_delete w.(mw_calls) id |>).
Proof.
  intros Hc i d. cbn. destruct (decide (id = i)) as [<-|Hne]; [by rewrite om_get_delete_eq|].
  rewrite om_get_delete_ne by done. apply Hc.
Qed.

(** ** The invariant of the page *)

Section inv.
Context (T : Z) (events : list MeshEvent).

(** The polling effect of the run on screen is where its run is. *)
Definition loop_ok (calls : list (Z * MeshCall)) (v : MeshTestView) : Prop :=
  match v.(mv_run), v.(mv_loop) with
  | None, None => True
  | Some run, Some l =>
    l.(pl_run) = run
    /\ match l.(pl_state) with
       | Asking id => om_get calls id = Some (CallReach run.(mr_packetHash))
       | Waiting due => due <= T + MID_POLL_MS
       | Over at_ms => v.(mv_sealed) = true
                       \/ (at_ms <= T /\ observerReachPollIntervalMs (meshTestAgeMs run at_ms) = None)
       end
  | _, _ => False
  end.

(** The report on screen answered a request for the run on screen. *)
Definition detail_ok (log : list (Z * MeshCall)) (v : MeshTestView) : Prop :=
  forall report, v.(mv_detail) = Some report ->
    exists run id now, v.(mv_run) = Some run /\ MtAnswer id (ReplyReach report) now ∈ events
      /\ (id, CallReach run.(mr_packetHash)) ∈ log.

Definition page_ok (w : MeshWorld) : Prop :=
  calls_ok w /\ forall v, w.(mw_view) = Some v -> loop_ok w.(mw_calls) v /\ detail_ok w.(mw_log) v.

Lemma loop_ok_grows w w' v : grows w w' -> loop_ok w.(mw_calls) v -> loop_ok w'.(mw_calls) v.
Proof.
  intros [Hg _]. unfold loop_ok. destruct (mv_run v), (mv_loop v) as [[? []]|]; try done. cbn. naive_solver.
Qed.
Lemma detail_ok_grows w w' v : grows w w' -> detail_ok w.(mw_log) v -> detail_ok w'.(mw_log) v.
Proof. intros [_ Hg] Hd report (run & id & now & ? & ? & ?)%Hd. exists run, id, now. eauto. Qed.

Lemma page_ok_set w v :
  calls_ok w -> loop_ok w.(mw_calls) v -> detail_ok w.(mw_log) v -> page_ok (set_view v w).
Proof. intros ? ? ?. split; [done|]. by intros ? [= <-]. Qed.

Lemma start_polling_ok run w v :
  calls_ok w -> v.(mv_run) = Some run -> detail_ok w.(mw_log) v -> page_ok (start_polling run w v).
Proof.
  intros Hc Hr Hd. unfold start_polling.
  assert (Hs := mesh_send_spec (CallReach run.(mr_packetHash)) w Hc).
  destruct (mesh_send _ w) as [id w']. destruct Hs as (Hc' & Hg & Hid & _).
  apply page_ok_set; [done| |by apply (detail_ok_grows w)].
  unfold loop_ok. cbn. by rewrite Hr.
Qed.

Lemma poll_effect_ok w v : calls_ok w -> detail_ok w.(mw_log) v -> page_ok (poll_effect w v).
Proof.
  intros Hc Hd. unfold poll_effect. destruct (mv_run v) eqn:Er; [by apply start_polling_ok|].
  apply page_ok_set; [done| |done]. unfold loop_ok. cbn. by rewrite Er.
Qed.

Lemma resolve_directory_ok w v :
  calls_ok w -> loop_ok w.(mw_calls) v -> detail_ok w.(mw_log) v -> page_ok (resolve_directory w v).
Proof.
  intros Hc Hl Hd. unfold resolve_directory. destruct (directory_prefixes _ _) as [|p ps]; [by apply page_ok_set|].
  assert (Hs := mesh_send_spec (CallHops (p :: ps)) w Hc). destruct (mesh_send _ w) as [id w'].
  destruct Hs as (Hc' & Hg & _).
  apply page_ok_set; [done|by apply (loop_ok_grows w)|by apply (detail_ok_grows w)].
Qed.

(** What the invariant reads of a view. *)
Definition core (v : MeshTestView) := (v.(mv_run), v.(mv_loop), v.(mv_sealed), v.(mv_detail)).
Lemma core_ok w v v' :
  core v = core v' -> loop_ok w.(mw_calls) v -> detail_ok w.(mw_log) v ->
  loop_ok w.(mw_calls) v' /\ detail_ok w.(mw_log) v'.
Proof. intros [= Hr Hl Hs Hd]. unfold loop_ok, detail_ok. by rewrite Hr, Hl, Hs, Hd. Qed.
Lemma page_ok_core w v v' :
  core v = core v' -> page_ok w -> w.(mw_view) = Some v -> page_ok (set_view v' w).
Proof. intros Hc [Hw Hv] E. apply Hv in E as [? ?]. edestruct core_ok; [done..|]. by apply page_ok_set. Qed.
Lemma seed_region_core lower v : core (seed_region lower v) = core v.
Proof. unfold seed_region. by destruct (_ || _). Qed.

Lemma mesh_send_ok c w v v' :
  core v = core v' -> page_ok w -> w.(mw_view) = Some v -> page_ok (let '(_, w) := mesh_send c w in set_view v' w).
Proof.
  intros Hcore [Hc Hv] E. apply Hv in E as [Hl Hd]. assert (Hs := mesh_send_spec c w Hc).
  destruct (mesh_send c w) as [id w']. destruct Hs as (Hc' & Hg & _).
  destruct (core_ok w' v v'); [done|by apply (loop_ok_grows w)|by apply (detail_ok_grows w)|].
  by apply page_ok_set.
Qed.

Lemma after_reset_ok lower had w v :
  calls_ok w -> v.(mv_detail) = None -> page_ok (after_reset lower had w v).
Proof.
  intros Hc Hd. unfold after_reset. apply poll_effect_ok; [done|].
  assert (Hn : mv_detail (seed_region lower v) = None) by (unfold seed_region; by destruct (_ || _)).
  intros report. destruct had; cbn; congruence.
Qed.
End inv.

Lemma page_ok_more T events events' w : (forall e, e ∈ events -> e ∈ events') -> page_ok T events w -> page_ok T events' w.
Proof.
  intros Hsub [Hc Hv]. split; [done|]. intros v E. apply Hv in E as [Hl Hd]. split; [done|].
  intros report (run & id & now & ? & ? & ?)%Hd. exists run, id, now. eauto.
Qed.

(** ** Every event keeps it *)

Section steps.
Context (lower : jstr -> jstr) (t : jstr -> list (jstr * Json) -> jstr) `{RunText} (T : Z) (events : list MeshEvent).

Lemma mesh_mount_ok now contacts regions scope connected w :
  calls_ok w -> page_ok T events (mount_view now contacts regions scope connected w).
Proof. intros Hc. unfold mount_view. by apply poll_effect_ok. Qed.

Lemma view_event_ok e w v :
  happens_by T e -> page_ok T events w -> w.(mw_view) = Some v -> page_ok T events (view_event lower e w v).
Proof.
  intros HT Hok E. assert (Hv := Hok). destruct Hv as [Hc Hv]. apply Hv in E as Hld. destruct Hld as [Hl Hd].
  destruct e as [| |now|contacts|regions scope connected|open|candidate|now| | |key|now|]; cbn [view_event]; try done.
  - by apply (page_ok_core _ _ _ v).
  - apply resolve_directory_ok; [done|..]; by destruct (core_ok T events w v (v <| mv_contacts := contacts |>)).
  - apply (page_ok_core _ _ _ v); [|done..]. by rewrite seed_region_core.
  - destruct (_ && _); [done|]. apply (page_ok_core _ _ _ v); [|done..]. by rewrite seed_region_core.
  - destruct (_ && _); [|done]. by apply (page_ok_core _ _ _ v).
  - unfold handleRun. destruct (_ || _); [done|].
    by apply (mesh_send_ok T events _ w v (v <| mv_sending := true |>)).
  - unfold handleForget. destruct (mv_run v); [|done]. by apply after_reset_ok.
  - destruct (mv_run v) eqn:Er; [|done]. destruct (listenState v); [done|]. by apply poll_effect_ok.
  - by apply (page_ok_core _ _ _ v).
  - destruct (mv_loop v) as [[run [id|due|at_ms]]|] eqn:El; try done. destruct (due <=? now); [|done].
    apply start_polling_ok; [done| |done]. unfold loop_ok in Hl. rewrite El in Hl.
    destruct (mv_run v); [|done]. cbn in Hl. by destruct Hl as [-> _].
Qed.

Lemma poll_again_ok calls v run now :
  now <= T -> v.(mv_run) = Some run -> v.(mv_loop) = Some {| pl_run := run; pl_state := poll_again run now |} ->
  loop_ok T calls v.
Proof.
  intros Hn Hr Hl. unfold loop_ok. rewrite Hr, Hl. cbn. split; [done|]. unfold poll_again.
  destruct (observerReachPollIntervalMs _) as [i|] eqn:Ei; cbn.
  - apply interval_le in Ei. lia.
  - by right.
Qed.

Lemma answer_ok id reply now w :
  now <= T -> MtAnswer id reply now ∈ events -> page_ok T events w ->
  page_ok T events (mesh_answer lower t id reply now w).
Proof.
  intros Hn Hin [Hc Hv]. unfold mesh_answer. destruct (om_get w.(mw_calls) id) as [c|] eqn:Ec; [|done].
  destruct (negb (reply_fits c reply)) eqn:Ef; [done|]. cbn zeta.
  set (w1 := w <| mw_calls := om_delete w.(mw_calls) id |>).
  assert (Hc1 : calls_ok w1) by by apply delete_calls_ok.
  (* the polling effect does not wait for a request of another kind *)
  assert (Hv1 : forall v, w.(mw_view) = Some v ->
    (forall run, v.(mv_loop) <> Some {| pl_run := run; pl_state := Asking id |}) -> loop_ok T w1.(mw_calls) v).
  { intros v E Hne. apply Hv in E as [Hl _]. unfold loop_ok in *. destruct (mv_run v), (mv_loop v) as [[? [i| |]]|]; try done.
    cbn in *. rewrite om_get_delete_ne; [done|]. intros ->. by eapply Hne. }
  assert (Hother : (forall hash, c <> CallReach hash) -> page_ok T events w1).
  { intros Hne. split; [done|]. intros v E. split; [|by apply Hv in E as [_ ?]]. apply Hv1; [done|].
    intros run El. apply Hv in E as [Hl _]. unfold loop_ok in Hl. rewrite El in Hl. destruct (mv_run v); [|done].
    cbn in Hl. rewrite Ec in Hl. destruct Hl as [_ [= ->]]. by eapply Hne. }
  destruct c as [hash|region started mount|prefixes].
  - unfold reach_answered. destruct (mw_view w1) as [v|] eqn:E; [|split; [done|congruence]].
    assert (Hsame : (forall run, v.(mv_loop) <> Some {| pl_run := run; pl_state := Asking id |}) -> page_ok T events w1).
    { intros Hne. split; [done|]. intros v' E'. rewrite E in E'. injection E' as <-.
      split; [by apply Hv1|by apply Hv in E as [_ ?]]. }
    apply Hv in E as Hld. destruct Hld as [Hl Hd]. unfold loop_ok in Hl.
    destruct (mv_loop v) as [[run [asked|due|at_ms]]|] eqn:El; [|by apply Hsame; intros ? [=]..].
    destruct (Z.eqb_spec asked id) as [->|Hne]; cbn [negb]; [|apply Hsame; intros ? [=]; congruence].
    destruct (mv_run v) as [run'|] eqn:Er; [|done]. cbn in Hl. destruct Hl as [<- Hasked].
    assert (Hlog : (id, CallReach run.(mr_packetHash)) ∈ w1.(mw_log)) by by apply Hc in Hasked as [_ ?].
    destruct reply as [report| | |err]; try done.
    + assert (Hd' : forall v', mv_run v' = Some run -> mv_detail v' = Some report -> detail_ok events w1.(mw_log) v').
      { intros v' Hr' Hd' ? [= <-]%(eq_trans (eq_sym Hd')). exists run, id, now. done. }
      destruct (_ ≟ _); (apply resolve_directory_ok; [done| |by apply Hd'; cbn]).
      * unfold loop_ok. cbn. rewrite Er. by split; [|left].
      * by eapply (poll_again_ok _ _ run now).
    + apply page_ok_set; [done|by eapply (poll_again_ok _ _ run now)|exact Hd].
  - specialize (Hother ltac:(done)). unfold test_sent.
    assert (Hm : forall w2, mw_view w2 = mw_view w1 -> mw_calls w2 = mw_calls w1 -> mw_log w2 = mw_log w1 ->
      mw_next w2 = mw_next w1 -> page_ok T events w2).
    { intros w2 H1 H2 H3 H4. unfold page_ok, calls_ok. by rewrite H1, H2, H3, H4. }
    destruct reply; try done; cbn zeta; destruct (of_mount _ _) as [v|] eqn:E; try by apply Hm.
    + apply after_reset_ok; [|done]. by apply (Hm (w1 <| mw_session := _ |>)).
    + unfold of_mount in E. cbn in E. destruct (mw_view w) as [v'|] eqn:Ew; [|done].
      destruct (_ =? _); [|done]. injection E as ->. apply (page_ok_core _ _ _ v); [done|by apply Hm|done].
  - specialize (Hother ltac:(done)). unfold hops_answered. destruct (mw_view w1) as [v|] eqn:E; [|done].
    destruct (_ ≟ _); [|done]. by apply (page_ok_core _ _ _ v).
Qed.

Lemma mesh_step_ok e w :
  happens_by T e -> e ∈ events -> page_ok T events w -> page_ok T events (mesh_step lower t w e).
Proof.
  intros HT Hin Hok. unfold mesh_step.
  destruct e; try (destruct (mw_view w) as [v|] eqn:E; [|done]; by apply view_event_ok).
  - destruct (mw_view w); [done|]. by apply mesh_mount_ok; destruct Hok.
  - apply answer_ok; [by apply HT|done|done].
Qed.
End steps.

Lemma mesh_run_ok lower t `{RunText} T events session :
  Forall (happens_by T) events -> page_ok T events (mesh_run lower t events (mesh_world0 session)).
Proof.
  unfold mesh_run. induction events as [|e l IH] using rev_ind; intros HT.
  - split; [intros ? ? [=]|done].
  - rewrite foldl_app. apply Forall_app in HT as [HT He]. inversion He; subst.
    apply mesh_step_ok; [done|apply elem_of_app; right; by left|].
    eapply page_ok_more; [|by apply IH]. intros. apply elem_of_app. by left.
Qed.

(** ** Listening *)

(** C19: while the page says that it listens, the polling effect has a request for the packet of
    the run on screen under way, or a timer due within the minute that sends the next one. One
    lag is possible: the page tells the age by a clock of its own, which ticks every five seconds,
    so that a run older than ten minutes, whose polling is over, is shown as listened to until the
    next tick, and no longer. *)
Theorem listening_is_polled (lower : jstr -> jstr) (t : jstr -> list (jstr * Json) -> jstr) (rt : RunText)
    (T : Z) (events : list MeshEvent) (session : SessionEntry) (v : MeshTestView)
    (HT : Forall (happens_by T) events)
    (Hv : (mesh_run lower t events (mesh_world0 session)).(mw_view) = Some v)
    (Hl : listenState v = Listening) :
  let w := mesh_run lower t events (mesh_world0 session) in
  exists run, v.(mv_run) = Some run /\
  let asks w := exists id, om_get w.(mw_calls) id = Some (CallReach run.(mr_packetHash)) in
  asks w
  \/ (exists due, due <= T + MID_POLL_MS /\ forall now, due <= now -> asks (mesh_step lower t w (MtTimer now)))
  \/ MID_REACH_MS <= meshTestAgeMs run T
     /\ forall now, T <= now ->
          listenState <$> (mesh_step lower t w (MtTick now)).(mw_view) = Some Stopped.
Proof.
  cbn zeta. set (w := mesh_run lower t events (mesh_world0 session)) in *.
  destruct (mesh_run_ok lower t T events session HT) as [Hc Hok]. fold w in Hc, Hok.
  apply Hok in Hv as Hld. destruct Hld as [Hloop _]. unfold loop_ok in Hloop.
  unfold listenState in Hl. destruct (mv_run v) as [run|] eqn:Hrun; [|done]. exists run. split; [done|].
  destruct (mv_loop v) as [[r [id|due|at_ms]]|] eqn:El; [| | |done]; cbn in Hloop; destruct Hloop as [-> Hst].
  - left. by exists id.
  - right. left. exists due. split; [done|]. intros now Hnow.
    assert (mesh_step lower t w (MtTimer now) = start_polling run w v) as ->.
    { unfold mesh_step. rewrite Hv. unfold view_event. rewrite El. by rewrite (proj2 (Z.leb_le _ _)). }
    assert (Hs := mesh_send_spec (CallReach run.(mr_packetHash)) w Hc). unfold start_polling.
    destruct (mesh_send _ w) as [id w']. exists id. by destruct Hs as (_ & _ & ? & _).
  - right. right. unfold meshTestListenState in Hl. destruct (mv_sealed v) eqn:Es; [done|].
    destruct Hst as [|[Hat Hover%interval_None]]; [done|].
    assert (Hlate : forall now, T <= now -> MID_REACH_MS <= meshTestAgeMs run now).
    { intros now Hnow. unfold meshTestAgeMs in *. lia. }
    split; [by apply Hlate|]. intros now Hnow. unfold mesh_step. rewrite Hv. cbn.
    unfold listenState, meshTestListenState, ageMs. cbn. rewrite Hrun, Es.
    by rewrite (proj2 (interval_None _) (Hlate now Hnow)).
Qed.

(** The report on screen answered a request for the packet of the run on screen, whatever runs,
    forgotten runs and late replies there were. *)
Theorem report_is_of_the_run (lower : jstr -> jstr) (t : jstr -> list (jstr * Json) -> jstr) (rt : RunText)
    (events : list MeshEvent) (session : SessionEntry) (v : MeshTestView) (report : ReachReport)
    (Hv : (mesh_run lower t events (mesh_world0 session)).(mw_view) = Some v)
    (Hd : v.(mv_detail) = Some report) :
  exists run id now, v.(mv_run) = Some run /\ MtAnswer id (ReplyReach report) now ∈ events
    /\ (id, CallReach run.(mr_packetHash)) ∈ (mesh_run lower t events (mesh_world0 session)).(mw_log).
Proof.
  destruct (happens_by_some events) as [T HT].
  destruct (mesh_run_ok lower t T events session HT) as [_ Hok]. apply Hok in Hv as [_ Hdet]. by apply Hdet.
Qed.

(** ** Examples *)

Definition demo_response : MeshTestResponse :=
  {| tr_packet_hash := js "90fd"; tr_sent_at := 1; tr_flood_scope := js "fr"; tr_origin_lat := None; tr_origin_lon := None |}.
Definition demo_report : ReachReport := {| rpt_observers := [demo_entry "near" "bb" 1]; rpt_sealed := None |}.
Definition demo_session : SessionEntry := {| se_readable := true; se_writable := true; se_text := None |}.
Definition demo_events : list MeshEvent :=
  [MtMount 1000 [] [js "fr"] None true; MtDialog true; MtRun 1000; MtAnswer 0 (ReplySent demo_response) 1500;
   MtAnswer 1 (ReplyReach demo_report) 2000].
Abbreviation demo_world := (mesh_run toLowerCase (fun k _ => k) demo_events (mesh_world0 demo_session)).
Definition sent_run : MeshTestRun := run_of_response demo_response 1000.

Lemma demo_shows : (fun v => (v.(mv_run), v.(mv_sealed), rpt_sealed <$> v.(mv_detail))) <$> demo_world.(mw_view)
  = Some (Some sent_run, false, Some None).
Proof. by vm_compute. Qed.
Lemma demo_by : Forall (happens_by 3000) demo_events.
Proof. repeat constructor; intros ? [= <-]; lia. Qed.

Lemma listening_is_polled_witness :
  let asks w := exists id, om_get w.(mw_calls) id = Some (CallReach (js "90fd")) in
  asks demo_world \/ exists due, due <= 3000 + MID_POLL_MS
    /\ forall now, due <= now -> asks (mesh_step toLowerCase (fun k _ => k) demo_world (MtTimer now)).
Proof.
  assert (Hs := demo_shows). assert (Hn : mv_nowMs <$> demo_world.(mw_view) = Some 1500) by by vm_compute.
  destruct (mw_view _) as [v|] eqn:Ev in Hs, Hn; [|done]. cbn [fmap option_fmap option_map] in Hs, Hn.
  assert (Hr : v.(mv_run) = Some sent_run) by congruence. assert (Hsl : v.(mv_sealed) = false) by congruence.
  assert (Hnow : v.(mv_nowMs) = 1500) by congruence.
  destruct (listening_is_polled toLowerCase (fun k _ => k) plain_text 3000 demo_events demo_session v)
    as (run & Hrun & [H|[H|[Hlate _]]]).
  - exact demo_by.
  - exact Ev.
  - unfold listenState, ageMs. rewrite Hr, Hsl, Hnow. by vm_compute.
  - left. rewrite Hr in Hrun. by injection Hrun as <-.
  - right. rewrite Hr in Hrun. by injection Hrun as <-.
  - exfalso. rewrite Hr in Hrun. injection Hrun as <-. by vm_compute in Hlate.
Defined.

Lemma report_is_of_the_run_witness :
  exists v report run id now, demo_world.(mw_view) = Some v /\ v.(mv_detail) = Some report
    /\ v.(mv_run) = Some run /\ MtAnswer id (ReplyReach report) now ∈ demo_events
    /\ (id, CallReach run.(mr_packetHash)) ∈ demo_world.(mw_log).
Proof.
  assert (Hs := demo_shows).
  destruct (mw_view _) as [v|] eqn:Ev in Hs; [|done]. cbn [fmap option_fmap option_map] in Hs.
  destruct (mv_detail v) as [report|] eqn:Ed; [|done].
  destruct (report_is_of_the_run toLowerCase (fun k _ => k) plain_text demo_events demo_session v report Ev Ed)
    as (run & id & now & Hrest).
  exists v, report, run, id, now. by split.
Defined.

(** A directory answer that comes after the next report is dropped: the report has asked again. With
    a report every two seconds, a directory slower than that never names a hop. *)
Example slow_directory_dropped :
  let hit := {| dh_name := js "relay"; dh_corescope := true; dh_public_key := None; dh_lat := None; dh_lon := None |} in
  let w := mesh_run toLowerCase (fun k _ => k)
    (demo_events ++ [MtTimer 4000; MtAnswer 3 (ReplyReach demo_report) 4100;
                     MtAnswer 2 (ReplyHops [(js "A1B2", hit)]) 4200]) (mesh_world0 demo_session) in
  (fun v => len v.(mv_directoryHits)) <$> w.(mw_view) = Some 0 /\ om_get w.(mw_calls) 4 = Some (CallHops [js "A1B2"]).
Proof. by vm_compute. Qed.
