(* ===== verification/MeshTestLife.v ===== *)
(** A run of the radio test outlives its page, and a test is sent to a region that is offered. *)
From S2P Require Import Prelude JsString JsCollections JsNum Json Types ApiErrors PathUtils ObserverReach MeshTest.
From S2P Require Import MeshTestView MeshTestProps MeshTestViewProps.

(** ** What the effects leave alone *)

(** The parts of a view that only its own events and the answers to its sends change. *)
Definition props (v : MeshTestView) :=
  (v.(mv_run), v.(mv_dialogOpen), v.(mv_sending), v.(mv_mount), v.(mv_dialog), v.(mv_knownRegions),
   v.(mv_regionsVersion), v.(mv_floodScope)).

(** The sends under way. *)
Definition is_send (c : MeshCall) : bool := match c with CallSend _ _ _ => true | _ => false end.
Definition sending_calls (w : MeshWorld) (id : Z) (c : MeshCall) : Prop :=
  om_get w.(mw_calls) id = Some c /\ is_send c = true.

(** [w'] differs from [w] by a view with the props of [v], and by requests that are not sends. *)
Definition framed (w : MeshWorld) (v : MeshTestView) (w' : MeshWorld) : Prop :=
  (exists v', w'.(mw_view) = Some v' /\ props v' = props v) /\ w'.(mw_session) = w.(mw_session)
  /\ (forall id c, sending_calls w' id c -> sending_calls w id c) /\ calls_ok w'.

Lemma set_view_framed w v v' : calls_ok w -> props v' = props v -> framed w v (set_view v' w).
Proof. intros Hc Hp. split_and!; [by exists v'|done|done|done]. Qed.

Lemma mesh_send_framed c w v v' :
  calls_ok w -> is_send c = false -> props v' = props v ->
  framed w v (let '(_, w) := mesh_send c w in set_view v' w).
Proof.
  intros Hc Hn Hp. assert (Hs := mesh_send_spec c w Hc). destruct (mesh_send c w) as [id w'].
  destruct Hs as (Hc' & _ & _ & _ & _ & Hses & Hcalls). split_and!; [by exists v'|done| |done].
  intros i d [[->|?]%Hcalls Hd]; [congruence|done].
Qed.

Lemma start_polling_framed run w v : calls_ok w -> framed w v (start_polling run w v).
Proof.
  intros Hc. unfold start_polling. assert (Hs := mesh_send_spec (CallReach run.(mr_packetHash)) w Hc).
  destruct (mesh_send _ w) as [id w']. destruct Hs as (Hc' & _ & _ & _ & _ & Hses & Hcalls).
  split_and!; [by eexists|done| |done]. by intros i d [[->|?]%Hcalls Hd].
Qed.
Lemma poll_effect_framed w v : calls_ok w -> framed w v (poll_effect w v).
Proof. intros Hc. unfold poll_effect. destruct (mv_run v); [by apply start_polling_framed|by apply set_view_framed]. Qed.
Lemma resolve_directory_framed w v : calls_ok w -> framed w v (resolve_directory w v).
Proof.
  intros Hc. unfold resolve_directory. destruct (directory_prefixes _ _) as [|p ps]; [by apply set_view_framed|].
  assert (Hs := mesh_send_spec (CallHops (p :: ps)) w Hc).
  destruct (mesh_send _ w) as [id w']. destruct Hs as (Hc' & _ & _ & _ & _ & Hses & Hcalls).
  split_and!; [by eexists|done| |done]. by intros i d [[->|?]%Hcalls Hd].
Qed.
Lemma framed_props w v v' w' : props v = props v' -> framed w v w' -> framed w v' w'.
Proof. intros E (H & ?). split; [by rewrite <- E|done]. Qed.

(** ** The dialog *)

Definition dialog_ok (v : MeshTestView) : Prop :=
  let d := v.(mv_dialog) in
  d.(rd_open) = v.(mv_dialogOpen) /\ d.(rd_floodScope) = v.(mv_floodScope) /\ d.(rd_seeded) = v.(mv_regionsVersion)
  /\ (v.(mv_dialogOpen) = true -> v.(mv_knownRegions) <> [] -> d.(rd_region) ∈ v.(mv_knownRegions)).

Lemma dialog_ok_props v v' : props v = props v' -> dialog_ok v -> dialog_ok v'.
Proof. intros [= _ Ho _ _ Hd Hk Hr Hf]. unfold dialog_ok. by rewrite Ho, Hd, Hk, Hr, Hf. Qed.

(** After a render the dialog is in order, if it was before for the same open state and regions. *)
Lemma seed_region_ok lower v :
  (v.(mv_dialogOpen) = true -> v.(mv_dialog).(rd_open) = true -> v.(mv_dialog).(rd_seeded) = v.(mv_regionsVersion) ->
   v.(mv_knownRegions) <> [] -> v.(mv_dialog).(rd_region) ∈ v.(mv_knownRegions)) ->
  dialog_ok (seed_region lower v).
Proof.
  intros Hv. unfold seed_region, dialog_ok. destruct (_ || _) eqn:E; cbn.
  - split_and!; [done..|]. intros Ho Hne. rewrite Ho. by apply preselected_in.
  - apply orb_false_iff in E as [[Eo Ef]%orb_false_iff Es]. apply negb_false_iff in Eo, Ef, Es.
    apply eqb_prop in Eo. apply bool_decide_eq_true in Ef. apply Z.eqb_eq in Es.
    split_and!; [congruence..|]. intros. apply Hv; congruence.
Qed.
Lemma seed_region_other lower v :
  let v' := seed_region lower v in
  v'.(mv_run) = v.(mv_run) /\ v'.(mv_sending) = v.(mv_sending) /\ v'.(mv_mount) = v.(mv_mount).
Proof. unfold seed_region. by destruct (_ || _). Qed.

(** ** The page *)

(** The view shows the run that is stored; the sends under way are its own, and at most one. *)
Definition life_ok (w : MeshWorld) `{RunText} : Prop :=
  w.(mw_session).(se_readable) = true /\ w.(mw_session).(se_writable) = true
  /\ (forall v, w.(mw_view) = Some v -> v.(mv_run) = readMeshTestRun w.(mw_session))
  /\ (forall id c, sending_calls w id c ->
        exists v, w.(mw_view) = Some v /\ v.(mv_sending) = true
          /\ exists region started, c = CallSend region started v.(mv_mount) /\ Z.abs started < 2 ^ 53)
  /\ (forall id c id' c', sending_calls w id c -> sending_calls w id' c' -> id = id').
Definition dialogs_ok (w : MeshWorld) : Prop :=
  calls_ok w /\ forall v, w.(mw_view) = Some v -> dialog_ok v.

Lemma dialogs_ok_framed w v w' : framed w v w' -> dialog_ok v -> dialogs_ok w'.
Proof.
  intros ((v' & Hv' & Hp) & _ & _ & Hc) Hd. split; [done|]. intros v'' E.
  assert (v'' = v') as -> by congruence. by eapply dialog_ok_props.
Qed.

(** The effects after a change of the run and of the storage. *)
Lemma life_ok_changed `{RunText} w v w1 v1 w' :
  w.(mw_view) = Some v -> v1.(mv_sending) = v.(mv_sending) -> v1.(mv_mount) = v.(mv_mount) ->
  framed w1 v1 w' -> w1.(mw_session).(se_readable) = true -> w1.(mw_session).(se_writable) = true ->
  v1.(mv_run) = readMeshTestRun w1.(mw_session) ->
  (forall id c, sending_calls w1 id c -> sending_calls w id c) -> life_ok w -> life_ok w'.
Proof.
  intros E Hs Hm ((v' & Hv' & [= Hr' Ho' Hs' Hm' Hd' Hk' Hg' Hf']) & Hses & Hcalls & _) Hrd Hwr Hr Hsub
    (_ & _ & _ & Hsend & Huniq).
  unfold life_ok. rewrite Hses. split_and!; [done|done| | |].
  - intros v'' E'. assert (v'' = v') as -> by congruence. by rewrite Hr'.
  - intros id c (v0 & E0 & Hs0 & Hc0)%Hcalls%Hsub%Hsend. assert (v0 = v) as -> by congruence.
    exists v'. rewrite Hs', Hs, Hm', Hm. done.
  - intros id c id' c' ?%Hcalls%Hsub ?%Hcalls%Hsub. by eapply Huniq.
Qed.

Lemma life_ok_framed `{RunText} w v w' v1 :
  w.(mw_view) = Some v -> (v1.(mv_run), v1.(mv_sending), v1.(mv_mount)) = (v.(mv_run), v.(mv_sending), v.(mv_mount)) ->
  framed w v1 w' -> life_ok w -> life_ok w'.
Proof.
  intros E [= Hr Hs Hm] Hf Hok. assert (Hok' := Hok). destruct Hok' as (Hrd & Hwr & Hrun & _).
  eapply (life_ok_changed w v w v1); try done. rewrite Hr. by apply Hrun.
Qed.

Section steps.
Context (lower : jstr -> jstr) (t : jstr -> list (jstr * Json) -> jstr) `{RunText}.

(** Events that leave the run, the sends and the dialog alone. *)
Definition quiet (e : MeshEvent) : bool :=
  match e with MtTick _ | MtContacts _ | MtResume | MtSelect _ | MtTimer _ => true | _ => false end.

Lemma quiet_event_framed e w v :
  quiet e = true -> calls_ok w -> view_event lower e w v = w \/ framed w v (view_event lower e w v).
Proof.
  intros Hq Hc. destruct e; try done; cbn [view_event].
  - right. by apply set_view_framed.
  - right. eapply framed_props; [|by apply resolve_directory_framed]. done.
  - destruct (mv_run v); [|by left]. destruct (listenState v); [by left|]. right.
    eapply framed_props; [|by apply poll_effect_framed]. done.
  - right. by apply set_view_framed.
  - destruct (mv_loop v) as [[? []]|]; try by left. destruct (_ <=? _); [|by left].
    right. by apply start_polling_framed.
Qed.

Lemma reach_answered_framed id reply now w v :
  calls_ok w -> w.(mw_view) = Some v -> reach_answered t id reply now w = w \/ framed w v (reach_answered t id reply now w).
Proof.
  intros Hc E. unfold reach_answered. rewrite E. destruct (mv_loop v) as [[run []]|]; try by left.
  destruct (negb _); [by left|]. destruct reply; try by left.
  - right. destruct (_ ≟ _); (eapply framed_props; [|by apply resolve_directory_framed]); done.
  - right. by apply set_view_framed.
Qed.
Lemma hops_answered_framed id reply w v :
  calls_ok w -> w.(mw_view) = Some v -> hops_answered id reply w = w \/ framed w v (hops_answered id reply w).
Proof.
  intros Hc E. unfold hops_answered. rewrite E. destruct (_ ≟ _); [|by left]. right. by apply set_view_framed.
Qed.

(** The answer to a request that is not a send, with the request taken from those under way. *)
Lemma quiet_answer_framed id reply now w c :
  calls_ok w -> om_get w.(mw_calls) id = Some c -> is_send c = false ->
  let w1 := w <| mw_calls := om_delete w.(mw_calls) id |> in
  let w' := mesh_answer lower t id reply now w in
  w' = w \/ w' = w1 \/ exists v, w.(mw_view) = Some v /\ framed w1 v w'.
Proof.
  intros Hc Hid Hn. cbn zeta. unfold mesh_answer. rewrite Hid. destruct (negb _); [by left|]. right. cbn zeta.
  set (w1 := w <| mw_calls := om_delete w.(mw_calls) id |>).
  assert (Hc1 : calls_ok w1) by by apply delete_calls_ok.
  destruct (mw_view w) as [v|] eqn:E.
  - destruct c; [|done|];
      [destruct (reach_answered_framed id reply now w1 v Hc1 E)|destruct (hops_answered_framed id reply w1 v Hc1 E)];
      [by left|right; by exists v|by left|right; by exists v].
  - left. destruct c; [|done|]; unfold reach_answered, hops_answered; change (mw_view w1) with (mw_view w); by rewrite E.
Qed.

Lemma after_reset_framed had w v : calls_ok w -> framed w (seed_region lower v) (after_reset lower had w v).
Proof.
  intros Hc. unfold after_reset. eapply framed_props; [|by apply poll_effect_framed]. by destruct had.
Qed.

Lemma of_mount_view mount w v : of_mount mount w = Some v -> w.(mw_view) = Some v /\ v.(mv_mount) = mount.
Proof.
  unfold of_mount. destruct (mw_view w) as [v'|]; [|done]. destruct (Z.eqb_spec v'.(mv_mount) mount); [|done].
  by intros [= ->].
Qed.

Lemma dialogs_same w w' :
  w'.(mw_view) = w.(mw_view) -> calls_ok w' -> dialogs_ok w -> dialogs_ok w'.
Proof. intros E Hc [_ Hd]. split; [done|]. intros v. rewrite E. apply Hd. Qed.

Lemma view_event_dialogs e w v : dialogs_ok w -> w.(mw_view) = Some v -> dialogs_ok (view_event lower e w v).
Proof.
  intros Hok E. assert (Hok' := Hok). destruct Hok as [Hc Hd]. apply Hd in E as Hdv.
  assert (Hset : forall v', dialog_ok v' -> dialogs_ok (set_view v' w)) by (intros v' Hv'; split; [done|by intros ? [= <-]]).
  destruct (quiet e) eqn:Eq.
  { destruct (quiet_event_framed e w v Eq Hc) as [->|Hf]; [done|by eapply dialogs_ok_framed]. }
  destruct Hdv as (Ho & Hf & Hs & Hr).
  destruct e as [| | | |regions scope connected|open|candidate|now| | | | |]; try done; cbn [view_event].
  - apply Hset, seed_region_ok. cbn. lia.
  - destruct (_ && _); [done|]. apply Hset, seed_region_ok. cbn. naive_solver.
  - destruct (_ && _) eqn:Ei; [|done]. to_prop. apply Hset. unfold dialog_ok. by cbn.
  - unfold handleRun. destruct (_ || _); [done|].
    assert (Hsd := mesh_send_spec (CallSend v.(mv_dialog).(rd_region) now v.(mv_mount)) w Hc).
    destruct (mesh_send _ w) as [id w']. destruct Hsd as (Hc' & _). split; [done|]. by intros ? [= <-].
  - unfold handleForget. destruct (mv_run v); [|done]. eapply dialogs_ok_framed; [by apply after_reset_framed|].
    apply seed_region_ok. cbn. naive_solver.
Qed.

Lemma mesh_step_dialogs e w : dialogs_ok w -> dialogs_ok (mesh_step lower t w e).
Proof.
  intros Hok. unfold mesh_step.
  destruct e as [now contacts regions scope connected| | | | | | | | | | | |id reply now];
    try (destruct (mw_view w) as [v|] eqn:E; [|done]; by apply view_event_dialogs).
  - destruct (mw_view w); [done|]. destruct Hok as [Hc _].
    eapply dialogs_ok_framed; [by apply poll_effect_framed|]. by split_and!.
  - destruct Hok as [Hc Hd]. destruct (om_get w.(mw_calls) id) as [c|] eqn:Ec; [|by unfold mesh_answer; rewrite Ec].
    set (w1 := w <| mw_calls := om_delete w.(mw_calls) id |>).
    assert (Hok1 : dialogs_ok w1) by by split; [apply delete_calls_ok|].
    destruct (is_send c) eqn:Es.
    + unfold mesh_answer. rewrite Ec. destruct (negb _); [by split|]. destruct c as [|region started mount|]; try done.
      cbn zeta. fold w1. unfold test_sent.
      assert (Hsame : forall w2, mw_view w2 = mw_view w -> mw_calls w2 = mw_calls w1 -> mw_log w2 = mw_log w ->
        mw_next w2 = mw_next w -> dialogs_ok w2).
      { intros w2 E1 E2 E3 E4. apply (dialogs_same w); [done|unfold calls_ok; rewrite E2, E3, E4; apply Hok1|by split]. }
      destruct reply as [|response| |]; cbn zeta; destruct (of_mount _ _) as [v|] eqn:E; try by apply Hsame.
      2: eapply dialogs_ok_framed; [apply after_reset_framed; by apply Hsame|by apply seed_region_ok].
      all: apply of_mount_view in E as [E _]; apply Hd in E; split; [exact (proj1 Hok1)|intros ? [= <-]; exact E].
    + destruct (quiet_answer_framed id reply now w c Hc Ec Es) as [->|[->|(v & E & Hf)]]; [by split|done|].
      eapply dialogs_ok_framed; [done|by apply Hd].
Qed.

Lemma mesh_run_dialogs events session : dialogs_ok (mesh_run lower t events (mesh_world0 session)).
Proof.
  unfold mesh_run. induction events as [|e l IH] using rev_ind; [split; [by intros ? ?|done]|].
  rewrite foldl_app. by apply mesh_step_dialogs.
Qed.
End steps.

(** A test is only sent to a region that is offered when it is sent, and one at a time. *)
Theorem test_sent_to_offered_region (lower : jstr -> jstr) (t : jstr -> list (jstr * Json) -> jstr) (rt : RunText)
    (events : list MeshEvent) (session : SessionEntry) (now : Z) :
  let w := mesh_run lower t events (mesh_world0 session) in
  let w' := mesh_step lower t w (MtRun now) in
  w' = w \/ exists v id, w.(mw_view) = Some v /\ v.(mv_sending) = false
    /\ v.(mv_dialog).(rd_region) ∈ v.(mv_knownRegions)
    /\ om_get w'.(mw_calls) id = Some (CallSend v.(mv_dialog).(rd_region) now v.(mv_mount)).
Proof.
  cbn zeta. destruct (mesh_run_dialogs lower t events session) as [Hc Hd].
  set (w := mesh_run _ _ _ _) in *. unfold mesh_step. destruct (mw_view w) as [v|] eqn:E; [|by left].
  destruct (Hd v eq_refl) as (_ & _ & _ & Hr). cbn [view_event]. unfold handleRun.
  destruct (_ || _) eqn:Eg; [by left|]. right. to_prop.
  assert (Hs := mesh_send_spec (CallSend v.(mv_dialog).(rd_region) now v.(mv_mount)) w Hc).
  destruct (mesh_send _ w) as [id w']. destruct Hs as (_ & _ & Hid & _).
  exists v, id. split_and!; [done| | |done].
  - by destruct (mv_sending v).
  - apply Hr; [by destruct (mv_dialogOpen v)|]. intros E'. by rewrite E' in *.
Qed.

(** ** A page left and opened again *)

(** A page is not left while a test is being sent. *)
Definition leaves_settled (w : MeshWorld) (e : MeshEvent) : Prop :=
  e = MtUnmount -> forall v, w.(mw_view) = Some v -> v.(mv_sending) = false.
(** Times, answers and positions are such as JSON keeps. *)
Definition storable_event (e : MeshEvent) : Prop :=
  match e with
  | MtRun now => Z.abs now < 2 ^ 53
  | MtAnswer _ (ReplySent r) _ => forall started, Z.abs started < 2 ^ 53 -> storable (run_of_response r started)
  | _ => True
  end.
Fixpoint settled_run (lower : jstr -> jstr) (t : jstr -> list (jstr * Json) -> jstr) `{RunText}
    (events : list MeshEvent) (w : MeshWorld) : Prop :=
  match events with
  | [] => True
  | e :: events => leaves_settled w e /\ storable_event e /\ settled_run lower t events (mesh_step lower t w e)
  end.

Section life.
Context (lower : jstr -> jstr) (t : jstr -> list (jstr * Json) -> jstr) `{RunTextLaws}.

Lemma life_ok_view w v v' :
  w.(mw_view) = Some v ->
  (v'.(mv_run), v'.(mv_sending), v'.(mv_mount)) = (v.(mv_run), v.(mv_sending), v.(mv_mount)) ->
  calls_ok w -> life_ok w -> life_ok (set_view v' w).
Proof. intros E Hp Hc. by apply (life_ok_framed w v _ v'), set_view_framed. Qed.

(** With no send under way, what is left is the run. *)
Lemma life_ok_intro w :
  w.(mw_session).(se_readable) = true -> w.(mw_session).(se_writable) = true ->
  (forall v, w.(mw_view) = Some v -> v.(mv_run) = readMeshTestRun w.(mw_session)) ->
  (forall id c, ~ sending_calls w id c) -> life_ok w.
Proof. intros ? ? ? Hno. split_and!; [done..| |]; intros id c; [intros []%Hno|intros ? ? []%Hno]. Qed.

Lemma view_event_life e w v :
  leaves_settled w e -> storable_event e -> calls_ok w -> w.(mw_view) = Some v -> life_ok w ->
  life_ok (view_event lower e w v).
Proof.
  intros Hleave Hst Hc E Hok. destruct (quiet e) eqn:Eq.
  { destruct (quiet_event_framed lower e w v Eq Hc) as [->|Hf]; [done|by apply (life_ok_framed w v _ v)]. }
  destruct e as [| | | |regions scope connected|open|candidate|now| | | | |]; try done; cbn [view_event].
  - assert (Hoff : v.(mv_sending) = false) by by apply Hleave.
    destruct Hok as (Hrd & Hwr & _ & Hsend & _). apply life_ok_intro; [done..|by intros ?|].
    intros id c (v' & E' & Hs & _)%Hsend. assert (v' = v) as -> by congruence. congruence.
  - apply (life_ok_view w v); [done| |done..]. by destruct (seed_region_other lower
      ((((v <| mv_knownRegions := regions |>) <| mv_regionsVersion := v.(mv_regionsVersion) + 1 |>)
        <| mv_floodScope := scope |>) <| mv_radioConnected := connected |>)) as (-> & -> & ->).
  - destruct (_ && _); [done|]. apply (life_ok_view w v); [done| |done..].
    by destruct (seed_region_other lower (v <| mv_dialogOpen := open |>)) as (-> & -> & ->).
  - destruct (_ && _); [|done]. by apply (life_ok_view w v).
  - unfold handleRun. destruct (_ || _) eqn:Eg; [done|]. to_prop.
    destruct Hok as (Hrd & Hwr & Hrun & Hsend & Huniq).
    assert (Hno : forall id c, ~ sending_calls w id c).
    { intros id c (v' & E' & Hs & _)%Hsend. assert (v' = v) as -> by congruence. congruence. }
    assert (Hs := mesh_send_spec (CallSend v.(mv_dialog).(rd_region) now v.(mv_mount)) w Hc).
    unfold mesh_send in *. destruct Hs as (_ & _ & _ & _ & _ & _ & Hcalls).
    assert (Hget : forall id c, sending_calls (mesh_send (CallSend v.(mv_dialog).(rd_region) now v.(mv_mount)) w).2 id c ->
      id = w.(mw_next) /\ c = CallSend v.(mv_dialog).(rd_region) now v.(mv_mount)).
    { intros id c [Hg Hc1]. cbn in Hg. rewrite om_get_app in Hg. destruct (om_get w.(mw_calls) id) eqn:Eo.
      - injection Hg as ->. by destruct (Hno id c).
      - cbn in Hg. case_decide; [by injection Hg as <-|done]. }
    unfold life_ok. cbn [mw_session mw_view set_view set]. split_and!; [exact Hrd|exact Hwr| | |].
    + intros ? [= <-]. exact (Hrun v E).
    + intros id c [-> ->]%Hget. exists (v <| mv_sending := true |>). split_and!; [done|done|]. by eexists _, _.
    + intros id c id' c' [-> _]%Hget [-> _]%Hget. done.
  - unfold handleForget. destruct (mv_run v); [|done].
    set (w1 := w <| mw_session := clearMeshTestRun w.(mw_session) |>).
    assert (Hok' := Hok). destruct Hok' as (Hrd & Hwr & _).
    destruct (seed_region_other lower (reset_run None v)) as (Er & Es & Em).
    apply (life_ok_changed w v w1 (seed_region lower (reset_run None v))); try done.
    + by apply after_reset_framed.
    + cbn. unfold clearMeshTestRun. by rewrite Hwr.
    + cbn. unfold clearMeshTestRun. by rewrite Hwr.
    + rewrite Er. cbn. unfold clearMeshTestRun, readMeshTestRun. rewrite Hwr. cbn. by rewrite Hrd.
Qed.

Lemma delete_sends id c w :
  life_ok w -> om_get w.(mw_calls) id = Some c ->
  let w1 := w <| mw_calls := om_delete w.(mw_calls) id |> in
  (forall i d, sending_calls w1 i d -> sending_calls w i d) /\ (is_send c = true -> forall i d, ~ sending_calls w1 i d).
Proof.
  intros (_ & _ & _ & _ & Huniq) Hid w1.
  assert (Hsub : forall i d, sending_calls w1 i d -> sending_calls w i d /\ i <> id).
  { intros i d [Hg Hd]. cbn in Hg. destruct (decide (id = i)) as [<-|Hne]; [by rewrite om_get_delete_eq in Hg|].
    rewrite om_get_delete_ne in Hg by done. done. }
  split; [intros i d ?%Hsub; naive_solver|]. intros Hs i d [Hi Hne]%Hsub. apply Hne. by eapply Huniq.
Qed.

Lemma answer_life id reply now w :
  storable_event (MtAnswer id reply now) -> calls_ok w -> life_ok w -> life_ok (mesh_answer lower t id reply now w).
Proof.
  intros Hst Hc Hok. destruct (om_get w.(mw_calls) id) as [c|] eqn:Ec; [|by unfold mesh_answer; rewrite Ec].
  destruct (delete_sends id c w Hok Ec) as [Hsub Hnone].
  set (w1 := w <| mw_calls := om_delete w.(mw_calls) id |>) in *.
  assert (Hc1 : calls_ok w1) by by apply delete_calls_ok.
  assert (Hok' := Hok). destruct Hok' as (Hrd & Hwr & Hrun & Hsend & Huniq).
  destruct (is_send c) eqn:Es.
  - specialize (Hnone eq_refl).
    destruct (Hsend id c) as (v & E & Hs & region & started & -> & Hb); [by split|].
    unfold mesh_answer. rewrite Ec. destruct reply as [|response| |err]; cbn [reply_fits negb]; [done| |done|].
    all: cbn zeta; fold w1; unfold test_sent, of_mount; cbn zeta; cbn [mw_view set]; change (mw_view w1) with (mw_view w);
      rewrite E, Z.eqb_refl.
    + set (next := run_of_response response started).
      set (w2 := (w1 <| mw_session := saveMeshTestRun next w1.(mw_session) |>) <| mw_toasts := w1.(mw_toasts) ++ [js "meshTest.sent"] |>).
      set (v1 := ((reset_run (Some next) v <| mv_nowMs := now |>) <| mv_dialogOpen := false |>) <| mv_sending := false |>).
      assert (Hf := after_reset_framed lower (bool_decide (is_Some v.(mv_detail))) w2 v1 Hc1).
      destruct (seed_region_other lower v1) as (Er & _).
      destruct Hf as ((v' & Hv' & [= Hr' _ _ _ _ _ _ _]) & Hses & Hcalls & _).
      assert (Hsave : w2.(mw_session) = saveMeshTestRun next w.(mw_session)) by done.
      change (life_ok (after_reset lower (bool_decide (is_Some v.(mv_detail))) w2 v1)).
      apply life_ok_intro.
      * rewrite Hses, Hsave. unfold saveMeshTestRun. by rewrite Hwr.
      * rewrite Hses, Hsave. unfold saveMeshTestRun. by rewrite Hwr.
      * intros v'' E''. assert (v'' = v') as -> by congruence. rewrite Hr', Er, Hses, Hsave.
        symmetry. apply saved_run_read_back; [|done|done]. by apply (Hst started).
      * intros i d ?%Hcalls. by apply (Hnone i d).
    + apply life_ok_intro; [done|done| |].
      * intros ? [= <-]. exact (Hrun v E).
      * intros i d. apply (Hnone i d).
  - destruct (quiet_answer_framed lower t id reply now w c Hc Ec Es) as [->|[->|(v & E & Hf)]]; [done| |].
    + split_and!; [done..| |]; [intros i d Hd; exact (Hsend i d (Hsub i d Hd))
      |intros i d i' d' Hd Hd'; exact (Huniq i d i' d' (Hsub i d Hd) (Hsub i' d' Hd'))].
    + apply (life_ok_changed w v w1 v); try done. by apply Hrun.
Qed.
Lemma mesh_step_life e w :
  leaves_settled w e -> storable_event e -> calls_ok w -> life_ok w -> life_ok (mesh_step lower t w e).
Proof.
  intros Hl Hst Hc Hok. unfold mesh_step.
  destruct e as [now contacts regions scope connected| | | | | | | | | | | |id reply now];
    try (destruct (mw_view w) as [v|] eqn:E; [|done]; by apply view_event_life).
  - destruct (mw_view w) eqn:E; [done|]. destruct Hok as (Hrd & Hwr & _ & Hsend & _).
    assert (Hno : forall i d, ~ sending_calls w i d).
    { intros i d (v & E' & _)%Hsend. congruence. }
    unfold mount_view. cbn zeta. set (w1 := w <| mw_mounts := _ |>). set (v1 := Build_MeshTestView _ _ _ _ _ _ _ _ _ _ _ _ _ _ _ _ _ _ _ _).
    destruct (poll_effect_framed w1 v1 Hc) as ((v' & Hv' & [= Hr' _ _ _ _ _ _ _]) & Hses & Hcalls & _).
    apply life_ok_intro; [by rewrite Hses..| |].
    + intros v'' E''. assert (v'' = v') as -> by congruence. by rewrite Hr', Hses.
    + intros i d Hd. exact (Hno i d (Hcalls i d Hd)).
  - by apply answer_life.
Qed.

Lemma mesh_run_life events w :
  settled_run lower t events w -> dialogs_ok w -> life_ok w ->
  life_ok (mesh_run lower t events w) /\ dialogs_ok (mesh_run lower t events w).
Proof.
  revert w. induction events as [|e l IH]; intros w Hs Hd Hok; [done|]. destruct Hs as (Hl & Hst & Hs).
  apply IH; [done|by apply mesh_step_dialogs|]. apply mesh_step_life; try done. apply Hd.
Qed.
End life.

(** C32: a page left and opened again goes on with its run: the run is on screen, and its packet is
    asked about at once. This needs a session storage that can be read and written, times and
    answers that JSON keeps, and that no page was left while a test was being sent: the answer to
    such a send is saved, but the page opened before it came does not show it
    ([late_send_not_shown]). *)
Theorem reopened_page_listens_on (lower : jstr -> jstr) (t : jstr -> list (jstr * Json) -> jstr) (rt : RunText)
    (laws : RunTextLaws) (events : list MeshEvent) (session : SessionEntry) (v : MeshTestView) (run : MeshTestRun)
    (now : Z) (contacts : list Contact) (regions : list jstr) (scope : option jstr) (connected : bool)
    (Hrd : session.(se_readable) = true) (Hwr : session.(se_writable) = true)
    (Hs : settled_run lower t events (mesh_world0 session))
    (Hv : (mesh_run lower t events (mesh_world0 session)).(mw_view) = Some v)
    (Hrun : v.(mv_run) = Some run) :
  let w := mesh_run lower t (events ++ [MtUnmount; MtMount now contacts regions scope connected]) (mesh_world0 session) in
  exists v' id, w.(mw_view) = Some v' /\ v'.(mv_run) = Some run
    /\ v'.(mv_loop) = Some {| pl_run := run; pl_state := Asking id |}
    /\ om_get w.(mw_calls) id = Some (CallReach run.(mr_packetHash)).
Proof.
  cbn zeta. unfold mesh_run at 1 2. rewrite !foldl_app. fold (mesh_run lower t events (mesh_world0 session)).
  destruct (mesh_run_life lower t events (mesh_world0 session) Hs) as [(_ & _ & Hread & _) [Hc _]].
  { split; [by intros ? ?|done]. }
  { apply life_ok_intro; [done..|]. by intros ? ? [? _]. }
  set (w := mesh_run lower t events (mesh_world0 session)) in *.
  assert (Hstored : readMeshTestRun w.(mw_session) = Some run) by (rewrite <- Hrun; symmetry; by apply Hread).
  cbn [foldl]. unfold mesh_step at 2 4. rewrite Hv. cbn [view_event].
  unfold mesh_step, mount_view. cbn [mw_view set mw_session mw_mounts]. unfold poll_effect. cbn [mv_run].
  rewrite Hstored. unfold start_polling.
  match goal with |- context [mesh_send ?c ?x] => assert (Hsd := mesh_send_spec c x Hc); destruct (mesh_send c x) as [id w'] end.
  destruct Hsd as (_ & _ & Hid & _). eexists _, id. by split_and!.
Qed.

(** ** Examples *)

Lemma demo_settled : settled_run toLowerCase (fun k _ => k) demo_events (mesh_world0 demo_session).
Proof.
  assert (Hst : forall started, Z.abs started < 2 ^ 53 -> storable (run_of_response demo_response started)).
  { intros started Hb. unfold storable. cbn. split_and!; [done|done|by intros ? [= <-]|done|done]. }
  unfold demo_events. cbn [settled_run]. repeat (split; [intros [=]|split; [first [exact I|exact Hst|done]|]]). exact I.
Qed.

Lemma reopened_page_listens_on_witness :
  let w := mesh_run toLowerCase (fun k _ => k) (demo_events ++ [MtUnmount; MtMount 60000 [] [] None true])
             (mesh_world0 demo_session) in
  exists v' id, w.(mw_view) = Some v' /\ v'.(mv_run) = Some sent_run
    /\ v'.(mv_loop) = Some {| pl_run := sent_run; pl_state := Asking id |}
    /\ om_get w.(mw_calls) id = Some (CallReach sent_run.(mr_packetHash)).
Proof.
  assert (Hs := demo_shows).
  destruct (mw_view _) as [v|] eqn:Ev in Hs; [|done]. cbn [fmap option_fmap option_map] in Hs.
  assert (Hr : v.(mv_run) = Some sent_run) by congruence.
  apply (reopened_page_listens_on toLowerCase (fun k _ => k) plain_text plain_text_laws demo_events demo_session v sent_run
           60000 [] [] None true); [done|done|exact demo_settled|exact Ev|exact Hr].
Defined.

(** A test sent from a page that was left and opened again before the answer is stored, and not
    shown: the page opened in between read the storage before. *)
Example late_send_not_shown :
  let w := mesh_run toLowerCase (fun k _ => k)
    [MtMount 1000 [] [js "fr"] None true; MtDialog true; MtRun 1000; MtUnmount; MtMount 1200 [] [js "fr"] None true;
     MtAnswer 0 (ReplySent demo_response) 1500] (mesh_world0 demo_session) in
  (fun v => v.(mv_run)) <$> w.(mw_view) = Some None /\ readMeshTestRun w.(mw_session) = Some sent_run
  /\ w.(mw_toasts) = [js "meshTest.sent"].
Proof. by vm_compute. Qed.
