(* ===== verification/ListActions.v ===== *)
(** The lists of contacts and channels and what changes them: [hooks/useContactsAndChannels.ts],
    with the prefetched requests of [prefetch.ts].

    A handler is an interaction tree, since the paging of the contacts ends only if the server
    does: its events are the requests it awaits, the prefetched promises it takes, the questions
    it asks, and the states it sets. A request answers with an error or a value, and [await] is
    the [await] of the source: an error leaves the function. What happens while a request is
    under way, the server and the rest of the client, is the parameter [Surroundings]: it gives
    the answer and may change everything. [fetchUndecryptedCount()] is called without [await] as
    the last thing two handlers do; it is run to its end here. Toasts are kept as their keys. *)
From ITree Require Import ITree ITreeFacts Events.State Events.StateFacts.
From S2P Require Import Prelude JsString JsCollections JsNum Types ApiErrors Directory.

(** ** Requests *)

Record BulkCreateHashtagChannelsResult := { bc_created_channels : list Channel; bc_decrypt_started : bool }.

Inductive ListRequest :=
  | GetContacts (limit offset : Z)
  | GetChannels
  | GetUndecryptedPacketCount
  | CreateContact (publicKey : jstr) (name : option jstr) (tryHistorical : bool) (type : option Z)
  | CreateChannel (name : jstr) (key : option jstr)
  | DecryptHistoricalPackets (channel_key channel_name : option jstr)
  | BulkCreateHashtagChannels (channelNames : list jstr) (tryHistorical : bool)
  | DeleteChannel (key : jstr)
  | DeleteContact (publicKey : jstr)
  | AdoptChannel (key : jstr)
  | RefuseChannel (key : jstr).

Definition reply_type (r : ListRequest) : Type :=
  match r with
  | GetContacts _ _ => list Contact
  | GetChannels => list Channel
  | GetUndecryptedPacketCount => Z
  | CreateContact _ _ _ _ => Contact
  | CreateChannel _ _ | AdoptChannel _ => Channel
  | BulkCreateHashtagChannels _ _ => BulkCreateHashtagChannelsResult
  | DecryptHistoricalPackets _ _ | DeleteChannel _ | DeleteContact _ | RefuseChannel _ => unit
  end.
Definition Answer (A : Type) : Type := (JsError + A)%type.

(** ** The state *)

(** The hook's state, and what its handlers do to their collaborators: the active conversation,
    the two flags of the router, the conversations whose messages were removed, the toasts. *)
Record ListWorld := {
  lw_contacts : list Contact;
  lw_contactsLoaded : bool;
  lw_channels : list Channel;
  lw_undecryptedCount : Z;
  lw_active : option Conversation;
  lw_pendingDeleteFallback : bool;
  lw_defaultConversationSet : bool;
  lw_removed : list jstr;
  lw_toasts : list jstr;
  lw_prefetched : list jstr;
  lw_requests : list ListRequest;
}.
#[export] Instance ListWorld_eta : Eta ListWorld :=
  fun w => Build_ListWorld w.(lw_contacts) w.(lw_contactsLoaded) w.(lw_channels) w.(lw_undecryptedCount) w.(lw_active)
    w.(lw_pendingDeleteFallback) w.(lw_defaultConversationSet) w.(lw_removed) w.(lw_toasts) w.(lw_prefetched)
    w.(lw_requests).

(** ** Programs *)

Inductive listE : Type -> Type :=
  | Api (r : ListRequest) : listE (Answer (reply_type r))
  | Prefetched (r : ListRequest) : listE (Answer (reply_type r))
  | TakePrefetch (key : jstr) : listE bool
  | Confirm (key : jstr) : listE bool
  | Modify (f : ListWorld -> ListWorld) : listE unit.

Definition prog (A : Type) : Type := itree listE (Answer A).

Definition returns {A} (x : A) : prog A := Ret (inr x).
Definition throws {A} (err : JsError) : prog A := Ret (inl err).
Definition awaits {A B} (t : prog A) (k : A -> prog B) : prog B :=
  ITree.bind t (fun x => match x with inl err => throws err | inr x => k x end).
Definition api (r : ListRequest) : prog (reply_type r) := ITree.trigger (Api r).
Definition modify {B} (f : ListWorld -> ListWorld) (k : prog B) : prog B :=
  ITree.bind (ITree.trigger (Modify f)) (fun _ => k).
Definition asks {B} (e : listE bool) (k : bool -> prog B) : prog B := ITree.bind (ITree.trigger e) k.
(** [try { t } catch (err) { k }] *)
Definition catches {A} (t : prog A) (k : JsError -> prog A) : prog A :=
  ITree.bind t (fun x => match x with inl err => k err | inr x => returns x end).

Notation "'await' x := t 'in' k" := (awaits t (fun x => k)) (at level 200, x name, t at level 100, k at level 200).

Definition setContacts (contacts : list Contact) {B} (k : prog B) : prog B :=
  modify (fun w => w <| lw_contacts := contacts |>) k.
Definition setChannels (channels : list Channel) {B} (k : prog B) : prog B :=
  modify (fun w => w <| lw_channels := channels |>) k.
Definition openConversation (type : ConversationType) (id name : jstr) {B} (k : prog B) : prog B :=
  modify (fun w => w <| lw_active := Some {| cv_type := type; cv_id := id; cv_name := name;
                                            cv_mapFocusKey := None; cv_locateKey := None |} |>) k.
Definition dropMessages (id : jstr) {B} (k : prog B) : prog B :=
  modify (fun w => w <| lw_removed := w.(lw_removed) ++ [id] |>) k.
Definition list_toast (key : string) {B} (k : prog B) : prog B :=
  modify (fun w => w <| lw_toasts := w.(lw_toasts) ++ [js key] |>) k.

(** ** Prefetched requests *)

Definition takePrefetchOrFetch (key : string) (r : ListRequest) : prog (reply_type r) :=
  asks (TakePrefetch (js key)) (fun present =>
    if present then catches (ITree.trigger (Prefetched r)) (fun _ => api r) else api r).

(** ** The handlers *)

Definition fetchUndecryptedCount : prog unit :=
  catches
    (await count := takePrefetchOrFetch "undecryptedCount" GetUndecryptedPacketCount in
     modify (fun w => w <| lw_undecryptedCount := count |>) (returns tt))
    (fun _ => returns tt).

Definition pageSize : Z := 1000.

(** The body of the loop, on [all] and [offset]. *)
Definition next_page (state : list Contact * Z) : itree listE (list Contact * Z + Answer (list Contact)) :=
  let '(all, offset) := state in
  ITree.bind (ITree.trigger (Api (GetContacts pageSize offset))) (fun answer =>
    match answer with
    | inl err => Ret (inr (inl err))
    | inr page =>
      let all := all ++ page in
      if len page <? pageSize then Ret (inr (inr all)) else Ret (inl (all, offset + pageSize))
    end).

Definition fetchAllContacts : prog (list Contact) :=
  await first := takePrefetchOrFetch "contacts" (GetContacts pageSize 0) in
  if len first <? pageSize then returns first else ITree.iter next_page (first, pageSize).

Definition handleCreateContact (name publicKey : jstr) (tryHistorical : bool) (type : option Z) : prog unit :=
  await created := api (CreateContact publicKey (truthy (Some name)) tryHistorical type) in
  await data := fetchAllContacts in
  setContacts data
  (openConversation CtContact created.(c_public_key)
     (getContactDisplayName created.(c_name) created.(c_public_key) created.(c_last_advert))
  (returns tt)).

(** The end shared by the two handlers that create a channel. *)
Definition decrypt_history (tryHistorical : bool) (r : ListRequest) : prog unit :=
  if tryHistorical then await _ := api r in fetchUndecryptedCount else returns tt.

Definition handleCreateChannel (name key : jstr) (tryHistorical : bool) : prog unit :=
  await created := api (CreateChannel name (Some key)) in
  await data := api GetChannels in
  setChannels data
  (openConversation CtChannel created.(ch_key) name
  (decrypt_history tryHistorical (DecryptHistoricalPackets (Some created.(ch_key)) None))).

Definition handleCreateHashtagChannel (name : jstr) (tryHistorical : bool) : prog unit :=
  let channelName := if startsWith name (js "#") then name else js "#" ++ name in
  await created := api (CreateChannel channelName None) in
  await data := api GetChannels in
  setChannels data
  (openConversation CtChannel created.(ch_key) channelName
  (decrypt_history tryHistorical (DecryptHistoricalPackets None (Some channelName)))).

Definition handleBulkCreateHashtagChannels (channelNames : list jstr) (tryHistorical : bool)
    : prog BulkCreateHashtagChannelsResult :=
  await result := api (BulkCreateHashtagChannels channelNames tryHistorical) in
  await data := api GetChannels in
  setChannels data
  (if tryHistorical && result.(bc_decrypt_started)
   then await _ := fetchUndecryptedCount in returns result
   else returns result).

(** [publicChannel?.key || KEY] *)
Definition public_field (f : Channel -> jstr) (otherwise : jstr) (channels : list Channel) : jstr :=
  truthy (f <$> findPublicChannel channels) ?? otherwise.

(** The end shared by the two deletions. *)
Definition leave_to_public (success : string) : prog unit :=
  await refreshedChannels := api GetChannels in
  setChannels refreshedChannels
  (modify (fun w => w <| lw_defaultConversationSet := true |>)
  (openConversation CtChannel (public_field ch_key PUBLIC_CHANNEL_KEY refreshedChannels)
     (public_field ch_name PUBLIC_CHANNEL_NAME refreshedChannels)
  (list_toast success (returns tt)))).

Definition handleDeleteChannel (key : jstr) : prog unit :=
  asks (Confirm (js "toast.deleteChannelConfirm")) (fun confirmed =>
    if negb confirmed then returns tt
    else
      catches
        (modify (fun w => w <| lw_pendingDeleteFallback := true |>)
          (await _ := api (DeleteChannel key) in
           dropMessages key (leave_to_public "toast.channelDeleted")))
        (fun _ => list_toast "toast.deleteChannelFailed" (returns tt))).

Definition handleDeleteContact (publicKey : jstr) : prog unit :=
  asks (Confirm (js "toast.deleteContactConfirm")) (fun confirmed =>
    if negb confirmed then returns tt
    else
      catches
        (modify (fun w => w <| lw_pendingDeleteFallback := true |>)
          (await _ := api (DeleteContact publicKey) in
           dropMessages publicKey
           (modify (fun w => w <| lw_contacts := filter (fun c => c.(c_public_key) <> publicKey) w.(lw_contacts) |>)
             (leave_to_public "toast.contactDeleted"))))
        (fun _ => list_toast "toast.deleteContactFailed" (returns tt))).

Definition handleAdoptChannel (key : jstr) : prog unit :=
  catches
    (await stored := api (AdoptChannel key) in
     await refreshed := api GetChannels in
     setChannels refreshed
     (openConversation CtChannel stored.(ch_key) stored.(ch_name)
     (list_toast "discovered.adopted" (returns tt))))
    (fun _ => list_toast "discovered.adoptFailed" (returns tt)).

Definition handleRefuseChannel (title key : jstr) : prog unit :=
  catches
    (await _ := api (RefuseChannel key) in
     dropMessages key
     (await refreshed := api GetChannels in
      setChannels refreshed
      (openConversation CtDiscovered (js "discovered") title
      (list_toast "discovered.refused" (returns tt)))))
    (fun _ => list_toast "discovered.refuseFailed" (returns tt)).

(** ** Running them *)

(** The server and the rest of the client while a request is under way. *)
Class Surroundings := {
  while_asking : forall r : ListRequest, ListWorld -> ListWorld * Answer (reply_type r);
  prefetched_answer : forall r : ListRequest, ListWorld -> ListWorld * Answer (reply_type r);
  confirmed : jstr -> ListWorld -> bool;
}.

Section runs.
Context `{Surroundings}.

Definition handle_list : listE ~> Monads.stateT ListWorld (itree void1) :=
  fun _ e w =>
    match e with
    | Api r => Ret (while_asking r (w <| lw_requests := w.(lw_requests) ++ [r] |>))
    | Prefetched r => Ret (prefetched_answer r w)
    | TakePrefetch key =>
      Ret (w <| lw_prefetched := filter (fun k => k <> key) w.(lw_prefetched) |>, bool_decide (key ∈ w.(lw_prefetched)))
    | Confirm key => Ret (w, confirmed key w)
    | Modify f => Ret (f w, tt)
    end.

(** [t], started in [w], ends in [w'] with the answer [x]. *)
Definition runs_to {A} (t : itree listE A) (w w' : ListWorld) (x : A) : Prop :=
  eutt eq (interp_state handle_list t w) (Ret (w', x)).
End runs.
