(* ===== verification/ListActionsProps.v ===== *)
(** The lists of contacts and channels: the paging reads the whole list and ends; a deletion, an
    adoption and a refusal never throw, and tell their outcome once. *)
From ITree Require Import ITree ITreeFacts Events.State Events.StateFacts.
From S2P Require Import Prelude JsString JsCollections JsNum Types ApiErrors Directory ListActions.

(** ** Running a program step by step *)

Section rules.
Context `{Surroundings}.

Lemma runs_ret {A} (x : A) w : runs_to (Ret x) w w x.
Proof. unfold runs_to. by rewrite interp_state_ret. Qed.

Lemma runs_bind {A B} (t : itree listE A) (k : A -> itree listE B) w w1 w2 x y :
  runs_to t w w1 x -> runs_to (k x) w1 w2 y -> runs_to (ITree.bind t k) w w2 y.
Proof.
  unfold runs_to. intros Ht Hk. rewrite interp_state_bind, Ht. rewrite bind_ret_l. exact Hk.
Qed.

Lemma runs_trigger {A} (e : listE A) w w' x : handle_list A e w = Ret (w', x) -> runs_to (ITree.trigger e) w w' x.
Proof. unfold runs_to. intros E. rewrite interp_state_trigger, E. reflexivity. Qed.

Lemma runs_await {A B} (t : prog A) (k : A -> prog B) w w1 w2 x y :
  runs_to t w w1 (inr x) -> runs_to (k x) w1 w2 y -> runs_to (awaits t k) w w2 y.
Proof. intros Ht Hk. by eapply runs_bind. Qed.
Lemma runs_await_throws {A B} (t : prog A) (k : A -> prog B) w w1 err :
  runs_to t w w1 (inl err) -> runs_to (awaits t k) w w1 (inl err).
Proof. intros Ht. eapply runs_bind; [done|]. apply runs_ret. Qed.
Lemma runs_modify {B} f (k : prog B) w w' y : runs_to k (f w) w' y -> runs_to (modify f k) w w' y.
Proof. intros Hk. eapply runs_bind; [by apply runs_trigger|done]. Qed.
Lemma runs_asks {B} e (k : bool -> prog B) w w1 b w2 y :
  handle_list bool e w = Ret (w1, b) -> runs_to (k b) w1 w2 y -> runs_to (asks e k) w w2 y.
Proof. intros He Hk. eapply runs_bind; [by apply runs_trigger|done]. Qed.
Lemma runs_catches {A} (t : prog A) k w w1 x : runs_to t w w1 (inr x) -> runs_to (catches t k) w w1 (inr x).
Proof. intros Ht. eapply runs_bind; [done|]. apply runs_ret. Qed.
Lemma runs_catches_throw {A} (t : prog A) k w w1 w2 err x :
  runs_to t w w1 (inl err) -> runs_to (k err) w1 w2 x -> runs_to (catches t k) w w2 x.
Proof. intros Ht Hk. by eapply runs_bind. Qed.

Lemma runs_iter {A B} (body : A -> itree listE (A + B)) a w w1 w2 r y :
  runs_to (body a) w w1 r ->
  match r with inl a' => runs_to (ITree.iter body a') w1 w2 y | inr b => w2 = w1 /\ y = b end ->
  runs_to (ITree.iter body a) w w2 y.
Proof.
  intros Hb Hr. unfold runs_to. rewrite unfold_iter. eapply (runs_bind (body a)); [exact Hb|].
  destruct r as [a'|b].
  - unfold runs_to. by rewrite interp_state_tau, tau_eutt.
  - destruct Hr as [-> ->]. apply runs_ret.
Qed.

(** A program has one outcome. *)
Lemma runs_to_det {A} (t : itree listE A) w w1 w2 x y : runs_to t w w1 x -> runs_to t w w2 y -> w1 = w2 /\ x = y.
Proof.
  unfold runs_to. intros H1 H2. rewrite H1 in H2. apply eutt_inv_Ret in H2. by injection H2 as -> ->.
Qed.
End rules.

(** ** Paging *)

Section paging.
Context `{Surroundings} (contacts : list Contact).

(** The page the server gives of a list that does not change meanwhile. *)
Definition page_at (offset : Z) : list Contact := take (Z.to_nat pageSize) (drop (Z.to_nat offset) contacts).
Definition serves_pages : Prop :=
  forall offset w, exists w', while_asking (GetContacts pageSize offset) w = (w', inr (page_at offset))
    /\ w'.(lw_requests) = w.(lw_requests).
(** The promise of the first page, if there is one, may fail. *)
Definition prefetches_page : Prop :=
  forall w, exists w' answer, prefetched_answer (GetContacts pageSize 0) w = (w', answer)
    /\ w'.(lw_requests) = w.(lw_requests) /\ (forall page, answer = inr page -> page = page_at 0).

(** The requests of [n] pages from an offset on. *)
Fixpoint page_requests (offset : Z) (n : nat) : list ListRequest :=
  match n with O => [] | S n => GetContacts pageSize offset :: page_requests (offset + pageSize) n end.

Lemma paging_loop (Hs : serves_pages) n offset all w :
  0 <= offset -> (length (drop (Z.to_nat offset) contacts) / Z.to_nat pageSize = n)%nat ->
  exists w', runs_to (ITree.iter next_page (all, offset)) w w' (inr (all ++ drop (Z.to_nat offset) contacts))
    /\ w'.(lw_requests) = w.(lw_requests) ++ page_requests offset (S n).
Proof.
  revert offset all w. induction n as [|n IH]; intros offset all w Ho Hn.
  all: destruct (Hs offset (w <| lw_requests := w.(lw_requests) ++ [GetContacts pageSize offset] |>)) as (w1 & Hw1 & Hr1).
  all: assert (Hbody : forall r, r = (if len (page_at offset) <? pageSize then inr (inr (all ++ page_at offset))
                                     else inl (all ++ page_at offset, offset + pageSize)) ->
         runs_to (next_page (all, offset)) w w1 r).
  1,3: intros r ->; unfold next_page; eapply runs_bind; [apply runs_trigger; cbn [handle_list]; by rewrite Hw1|]; cbn;
       destruct (_ <? _); apply runs_ret.
  all: set (rest := drop (Z.to_nat offset) contacts) in *.
  all: assert (Hlen : len (page_at offset) = Z.min pageSize (len rest)) by
         (unfold page_at; fold rest; unfold len; rewrite length_take; unfold pageSize; lia).
  - assert (Hsmall : (length rest < Z.to_nat pageSize)%nat) by (apply Nat.div_small_iff in Hn; [done|unfold pageSize; lia]).
    exists w1. split.
    + eapply runs_iter; [by apply Hbody|]. rewrite (proj2 (Z.ltb_lt _ _)) by (unfold len in *; lia).
      split; [done|]. do 2 f_equal. unfold page_at. fold rest. by rewrite take_ge by lia.
    + by rewrite Hr1.
  - assert (Hbig : (Z.to_nat pageSize <= length rest)%nat).
    { destruct (Nat.le_gt_cases (Z.to_nat pageSize) (length rest)) as [|Hlt]; [done|].
      rewrite Nat.div_small in Hn by done. done. }
    assert (Hdrop : drop (Z.to_nat (offset + pageSize)) contacts = drop (Z.to_nat pageSize) rest).
    { unfold rest. rewrite drop_drop. f_equal. unfold pageSize. lia. }
    destruct (IH (offset + pageSize) (all ++ page_at offset) w1) as (w' & Hrun & Hreq).
    + unfold pageSize. lia.
    + rewrite Hdrop, length_drop. replace (length rest) with (length rest - Z.to_nat pageSize + 1 * Z.to_nat pageSize)%nat in Hn by lia.
      rewrite Nat.div_add in Hn by (unfold pageSize; lia). lia.
    + exists w'. split.
      * eapply runs_iter; [by apply Hbody|]. rewrite (proj2 (Z.ltb_ge _ _)) by (unfold len in *; lia).
        rewrite <- app_assoc, Hdrop in Hrun. unfold page_at in Hrun at 2. fold rest in Hrun. by rewrite take_drop in Hrun.
      * rewrite Hreq, Hr1. cbn [lw_requests set]. by rewrite <- app_assoc.
Qed.
Lemma page_at_0 : page_at 0 = take 1000 contacts.
Proof. done. Qed.

(** What follows the first page. *)
Lemma paging_rest (Hs : serves_pages) w :
  exists w', runs_to (if len (page_at 0) <? pageSize then returns (page_at 0)
                      else ITree.iter next_page (page_at 0, pageSize)) w w' (inr contacts)
    /\ w'.(lw_requests) = w.(lw_requests) ++ page_requests pageSize (length contacts / 1000).
Proof.
  assert (Hlen : len (page_at 0) = Z.min pageSize (len contacts)).
  { unfold len. rewrite page_at_0, length_take. unfold pageSize. lia. }
  destruct (Z.ltb_spec (len (page_at 0)) pageSize) as [Hlt|Hge].
  - exists w. unfold len, pageSize in *. split.
    + rewrite page_at_0, take_ge by lia. apply runs_ret.
    + rewrite Nat.div_small by lia. by rewrite app_nil_r.
  - assert (Hbig : (1000 <= length contacts)%nat) by (unfold len, pageSize in *; lia).
    destruct (paging_loop Hs (length contacts / 1000 - 1) pageSize (page_at 0) w) as (w' & Hrun & Hreq).
    + done.
    + change (Z.to_nat pageSize) with 1000%nat. rewrite length_drop.
      replace (length contacts) with (length contacts - 1000 + 1 * 1000)%nat at 2 by lia. rewrite Nat.div_add by done. lia.
    + exists w'. split.
      * rewrite page_at_0 in *. change (drop (Z.to_nat pageSize) contacts) with (drop 1000 contacts) in Hrun.
        by rewrite take_drop in Hrun.
      * rewrite Hreq. do 2 f_equal.
        assert (1 <= length contacts / 1000)%nat by (apply Nat.div_le_lower_bound; lia). lia.
Qed.

(** The first page, from its promise or from a request. *)
Lemma first_page (Hs : serves_pages) (Hp : prefetches_page) w :
  exists w' skipped, (skipped = [] \/ skipped = [GetContacts pageSize 0])
    /\ runs_to (takePrefetchOrFetch "contacts" (GetContacts pageSize 0)) w w' (inr (page_at 0))
    /\ w'.(lw_requests) = w.(lw_requests) ++ skipped.
Proof.
  set (w0 := w <| lw_prefetched := filter (fun k => k <> js "contacts") w.(lw_prefetched) |>).
  assert (Hapi : forall v, v.(lw_requests) = w.(lw_requests) -> exists v',
    runs_to (api (GetContacts pageSize 0)) v v' (inr (page_at 0))
    /\ v'.(lw_requests) = w.(lw_requests) ++ [GetContacts pageSize 0]).
  { intros v Hv. destruct (Hs 0 (v <| lw_requests := v.(lw_requests) ++ [GetContacts pageSize 0] |>)) as (v' & Hv' & Hr).
    exists v'. split; [apply runs_trigger; cbn [handle_list]; by rewrite Hv'|]. rewrite Hr. cbn. by rewrite Hv. }
  unfold takePrefetchOrFetch.
  destruct (bool_decide (js "contacts" ∈ w.(lw_prefetched))) eqn:Eb.
  - destruct (Hp w0) as (w1 & answer & Hw1 & Hr1 & Hans). destruct answer as [err|page].
    + destruct (Hapi w1) as (w2 & Hw2 & Hr2); [by rewrite Hr1|]. exists w2, [GetContacts pageSize 0].
      split_and!; [by right| |done]. apply (runs_asks _ _ _ w0 true); [cbn [handle_list]; by rewrite Eb|].
      eapply runs_catches_throw; [|exact Hw2]. apply runs_trigger. cbn [handle_list]. by rewrite Hw1.
    + exists w1, []. split_and!; [by left| |by rewrite Hr1, app_nil_r].
      apply (runs_asks _ _ _ w0 true); [cbn [handle_list]; by rewrite Eb|]. rewrite <- (Hans page) by done.
      apply runs_catches, runs_trigger. cbn [handle_list]. by rewrite Hw1.
  - destruct (Hapi w0) as (w1 & Hw1 & Hr1); [done|]. exists w1, [GetContacts pageSize 0].
    split_and!; [by right| |done]. apply (runs_asks _ _ _ w0 false); [cbn [handle_list]; by rewrite Eb|done].
Qed.
End paging.

(** C35: the contacts of a server whose list does not change are all read, in their order, whether
    the first page was prefetched or not, in one request a thousand and one more. *)
Theorem all_contacts_fetched (sr : Surroundings) (contacts : list Contact) (w : ListWorld)
    (Hs : serves_pages contacts) (Hp : prefetches_page contacts) :
  let requests := page_requests 0 (S (length contacts / 1000)) in
  exists w', runs_to fetchAllContacts w w' (inr contacts)
    /\ (w'.(lw_requests) = w.(lw_requests) ++ requests \/ w'.(lw_requests) = w.(lw_requests) ++ tail requests).
Proof.
  cbn [page_requests tail].
  destruct (first_page contacts Hs Hp w) as (w1 & skipped & Hsk & Hw1 & Hr1).
  destruct (paging_rest contacts Hs w1) as (w' & Hrun & Hreq). exists w'. split.
  - eapply runs_await; [exact Hw1|exact Hrun].
  - rewrite Hreq, Hr1, <- app_assoc. destruct Hsk as [-> | ->]; [by right|by left].
Qed.

(** ** Outcomes *)

(** What a request does: the state it is answered in, and the answer. *)
Definition asked `{Surroundings} (r : ListRequest) (w : ListWorld) : ListWorld * Answer (reply_type r) :=
  while_asking r (w <| lw_requests := w.(lw_requests) ++ [r] |>).

Lemma runs_api_eq `{Surroundings} r w w' x : asked r w = (w', x) -> runs_to (api r) w w' x.
Proof. unfold asked. intros E. apply runs_trigger. cbn [handle_list]. by rewrite E. Qed.

(** One step of a program whose requests are answered as the hypotheses say. *)
Ltac run_step :=
  first
    [ apply runs_ret
    | apply runs_modify
    | eapply runs_await; [by apply runs_api_eq|]
    | apply runs_await_throws; by apply runs_api_eq ].
Ltac run := unfold returns, throws, setContacts, setChannels, openConversation, dropMessages, list_toast;
  repeat run_step.

(** The states after the end of a deletion. *)
Definition left_to_public (success : string) (channels : list Channel) (w : ListWorld) : ListWorld :=
  let w := (w <| lw_channels := channels |>) <| lw_defaultConversationSet := true |> in
  let w := w <| lw_active := Some {| cv_type := CtChannel; cv_id := public_field ch_key PUBLIC_CHANNEL_KEY channels;
                                    cv_name := public_field ch_name PUBLIC_CHANNEL_NAME channels;
                                    cv_mapFocusKey := None; cv_locateKey := None |} |> in
  w <| lw_toasts := w.(lw_toasts) ++ [js success] |>.
Definition told (key : string) (w : ListWorld) : ListWorld := w <| lw_toasts := w.(lw_toasts) ++ [js key] |>.

Section outcomes.
Context `{Surroundings}.

(** The request for the channels, and what follows it, with the toast of a failure. *)
Definition after_deletion (success failure : string) (w : ListWorld) : ListWorld :=
  match asked GetChannels w with
  | (w, inr channels) => left_to_public success channels w
  | (w, inl _) => told failure w
  end.

Definition contact_deleted_outcome (publicKey : jstr) (w : ListWorld) : ListWorld :=
  if confirmed (js "toast.deleteContactConfirm") w then
    match asked (DeleteContact publicKey) (w <| lw_pendingDeleteFallback := true |>) with
    | (w, inr _) =>
      let w := w <| lw_removed := w.(lw_removed) ++ [publicKey] |> in
      after_deletion "toast.contactDeleted" "toast.deleteContactFailed"
        (w <| lw_contacts := filter (fun c => c.(c_public_key) <> publicKey) w.(lw_contacts) |>)
    | (w, inl _) => told "toast.deleteContactFailed" w
    end
  else w.

Definition channel_deleted_outcome (key : jstr) (w : ListWorld) : ListWorld :=
  if confirmed (js "toast.deleteChannelConfirm") w then
    match asked (DeleteChannel key) (w <| lw_pendingDeleteFallback := true |>) with
    | (w, inr _) => after_deletion "toast.channelDeleted" "toast.deleteChannelFailed"
                      (w <| lw_removed := w.(lw_removed) ++ [key] |>)
    | (w, inl _) => told "toast.deleteChannelFailed" w
    end
  else w.

Lemma leave_to_public_catches success failure w :
  runs_to (catches (leave_to_public success) (fun _ => list_toast failure (returns tt))) w
    (after_deletion success failure w) (inr tt).
Proof.
  unfold after_deletion, leave_to_public. destruct (asked GetChannels w) as [w1 [err|channels]] eqn:E.
  - eapply runs_catches_throw; run.
  - apply runs_catches. run.
Qed.

(** What a throwing program does before a [catch] it does under it. *)
Lemma catches_await {A B} (t : prog A) (k : A -> prog B) c w w1 x w2 y :
  runs_to t w w1 (inr x) -> runs_to (catches (k x) c) w1 w2 y -> runs_to (catches (awaits t k) c) w w2 y.
Proof.
  intros Ht Hk. unfold runs_to, catches, awaits in *. rewrite bind_bind, interp_state_bind, Ht, bind_ret_l. exact Hk.
Qed.
Lemma catches_modify {B} f (k : prog B) c w w2 y :
  runs_to (catches k c) (f w) w2 y -> runs_to (catches (modify f k) c) w w2 y.
Proof.
  intros Hk. unfold runs_to, catches, modify in *.
  rewrite bind_bind, interp_state_bind, interp_state_trigger. cbn [handle_list]. rewrite bind_ret_l. exact Hk.
Qed.

(** Deleting a contact or a channel never throws: its outcome, for every answer of the server, is
    the one written here without exceptions, and it is announced once. *)
Theorem deletion_outcomes (key : jstr) (w : ListWorld) :
  runs_to (handleDeleteContact key) w (contact_deleted_outcome key w) (inr tt)
  /\ runs_to (handleDeleteChannel key) w (channel_deleted_outcome key w) (inr tt).
Proof.
  split; unfold handleDeleteContact, handleDeleteChannel, contact_deleted_outcome, channel_deleted_outcome.
  all: eapply runs_asks; [done|]; destruct (confirmed _ w); cbn [negb]; [|apply runs_ret].
  all: apply catches_modify; destruct (asked _ _) as [w1 [err|[]]] eqn:E;
    [eapply runs_catches_throw; run|eapply catches_await; [by apply runs_api_eq|]].
  - apply catches_modify, catches_modify. apply leave_to_public_catches.
  - apply catches_modify. apply leave_to_public_catches.
Qed.
End outcomes.

(** A deletion the server made is announced as a failure when the channels cannot be read again, and
    the conversation stays open. *)
Lemma deletion_made_and_told_failed (sr : Surroundings) key w w1 w2 err :
  confirmed (js "toast.deleteChannelConfirm") w = true ->
  asked (DeleteChannel key) (w <| lw_pendingDeleteFallback := true |>) = (w1, inr tt) ->
  asked GetChannels (w1 <| lw_removed := w1.(lw_removed) ++ [key] |>) = (w2, inl err) ->
  runs_to (handleDeleteChannel key) w (told "toast.deleteChannelFailed" w2) (inr tt).
Proof.
  intros Hc Hd Hg. assert (H := proj2 (deletion_outcomes key w)). unfold channel_deleted_outcome, after_deletion in H.
  rewrite Hc, Hd, Hg in H. exact H.
Qed.

(** The handler that creates a contact replaces the list by the pages it read: what the socket
    brought meanwhile, in [w2], is no longer in it. *)
Lemma created_contact_replaces_list (sr : Surroundings) name key historical type w w1 w2 created contacts :
  asked (CreateContact key (truthy (Some name)) historical type) w = (w1, inr created) ->
  runs_to fetchAllContacts w1 w2 (inr contacts) ->
  exists w', runs_to (handleCreateContact name key historical type) w w' (inr tt) /\ w'.(lw_contacts) = contacts
    /\ cv_id <$> w'.(lw_active) = Some created.(c_public_key).
Proof.
  intros Hc Hf. eexists. split.
  - eapply runs_await; [by apply runs_api_eq|]. eapply runs_await; [exact Hf|]. run.
  - done.
Qed.

(** ** Examples *)

Definition plain_contact (key : string) : Contact :=
  {| c_public_key := js key; c_name := None; c_type := 1; c_flags := 0; c_direct_path := None; c_direct_path_len := -1;
     c_direct_path_hash_mode := 0; c_direct_path_updated_at := None; c_route_override_path := None;
     c_route_override_len := None; c_route_override_hash_mode := None; c_effective_route := None;
     c_effective_route_source := None; c_direct_route := None; c_route_override := None; c_last_advert := None;
     c_lat := None; c_lon := None; c_last_seen := None; c_on_radio := false; c_favorite := false; c_pinned := None;
     c_last_contacted := None; c_last_read_at := None; c_first_seen := None |}.

(** A server with a list of contacts, and a client nothing else happens in. *)
Definition quiet_server (contacts : list Contact) : Surroundings := {|
  while_asking r w :=
    (w, match r return Answer (reply_type r) with
        | GetContacts limit offset => inr (take (Z.to_nat limit) (drop (Z.to_nat offset) contacts))
        | GetChannels => inr []
        | CreateContact key _ _ _ => inr (plain_contact "aa")
        | _ => inl (ErrOther [])
        end);
  prefetched_answer r w := (w, inl (ErrOther []));
  confirmed _ _ := true
|}.
Definition list_world0 : ListWorld :=
  {| lw_contacts := []; lw_contactsLoaded := false; lw_channels := []; lw_undecryptedCount := 0; lw_active := None;
     lw_pendingDeleteFallback := false; lw_defaultConversationSet := false; lw_removed := []; lw_toasts := [];
     lw_prefetched := [js "contacts"]; lw_requests := [] |}.

Lemma all_contacts_fetched_witness :
  let contacts := replicate 2000 (plain_contact "aa") in
  exists w', runs_to (H := quiet_server contacts) fetchAllContacts list_world0 w' (inr contacts)
    /\ (w'.(lw_requests) = [GetContacts 1000 0; GetContacts 1000 1000; GetContacts 1000 2000]
        \/ w'.(lw_requests) = [GetContacts 1000 1000; GetContacts 1000 2000]).
Proof.
  cbn zeta. set (contacts := replicate 2000 (plain_contact "aa")).
  destruct (all_contacts_fetched (quiet_server contacts) contacts list_world0) as (w' & Hrun & Hreq).
  - intros offset w. by exists w.
  - intros w. exists w, (inl (ErrOther [])). by split_and!.
  - exists w'. split; [exact Hrun|]. unfold contacts in Hreq. rewrite length_replicate in Hreq. exact Hreq.
Defined.
