(* ===== verification/ResendWindow.v ===== *)
(** The window in which a channel message can be sent again byte for byte: the ages of
    [utils/resendWindow.ts] and the buttons of [components/MessageList.tsx].

    Times are milliseconds of the browser, where the source divides by 1000 to count seconds. The
    buttons are the set of messages that have one, with the due times of the timers that take
    them away. The live sightings are those of [RealtimeApp]. *)
From S2P Require Import Prelude JsString JsCollections JsNum Types RealtimeApp.

Definition RESEND_WINDOW_MS : Z := 30 * 1000.
Definition UNMEASURED_FUTURE_TOLERANCE_MS : Z := 2 * 1000.

Record ResendAge := { ag_ageMs : Z; ag_authoritative : bool }.

Definition resendAge (msg : Message) (nowMs : Z) (measuredOffsetSec : option Z) (seen : gmap Z Z) : option ResendAge :=
  match seen !! msg.(m_id) with
  | Some seenMs => Some {| ag_ageMs := Z.max 0 (nowMs - seenMs); ag_authoritative := true |}
  | None =>
    match msg.(m_sender_timestamp), measuredOffsetSec with
    | None, _ => None
    | Some sent, Some offset =>
      Some {| ag_ageMs := Z.max 0 (nowMs - (sent + offset) * 1000); ag_authoritative := true |}
    | Some sent, None =>
      let rawAge := nowMs - sent * 1000 in
      if rawAge <? - UNMEASURED_FUTURE_TOLERANCE_MS then None
      else Some {| ag_ageMs := Z.max 0 rawAge; ag_authoritative := false |}
    end
  end.

Definition sendAnchorMs (senderTimestamp : option Z) (requestStartMs responseMs : Z) (measuredOffsetSec : option Z) : Z :=
  match senderTimestamp, measuredOffsetSec with
  | Some sent, Some offset => Z.min responseMs (Z.max requestStartMs ((sent + offset) * 1000))
  | _, _ => responseMs
  end.

(** ** The buttons *)

Record ResendButtons := { rb_resendableIds : gset Z; rb_timers : gmap Z Z }.
Definition no_buttons : ResendButtons := {| rb_resendableIds := ∅; rb_timers := ∅ |}.

(** One message of the loop, on the new set and the timers. *)
Definition track_message (nowMs : Z) (offsetSec : option Z) (seen : gmap Z Z) (acc : gset Z * gmap Z Z) (msg : Message)
    : gset Z * gmap Z Z :=
  let '(newResendable, timers) := acc in
  match msg.(m_outgoing), msg.(m_type) with
  | true, CHAN =>
    match resendAge msg nowMs offsetSec seen with
    | None => acc
    | Some age =>
      let remaining := RESEND_WINDOW_MS - age.(ag_ageMs) in
      if remaining <=? 0 then acc
      else ({[msg.(m_id)]} ∪ newResendable,
            match timers !! msg.(m_id) with
            | Some _ => timers
            | None => <[msg.(m_id) := nowMs + remaining]> timers
            end)
    end
  | _, _ => acc
  end.

(** The effect, after the cleanup of the one before: its timers are cleared. *)
Definition resend_effect (messages : list Message) (nowMs : Z) (offsetSec : option Z) (seen : gmap Z Z)
    (prev : ResendButtons) : ResendButtons :=
  let '(newResendable, timers) := foldl (track_message nowMs offsetSec seen) (∅, ∅) messages in
  {| rb_resendableIds :=
       if (size prev.(rb_resendableIds) =? size newResendable)%nat && bool_decide (newResendable ⊆ prev.(rb_resendableIds))
       then prev.(rb_resendableIds) else newResendable;
     rb_timers := timers |}.

(** A timer fires, no earlier than it is due. *)
Definition resend_timer (id nowMs : Z) (s : ResendButtons) : ResendButtons :=
  match s.(rb_timers) !! id with
  | Some due => if due <=? nowMs then {| rb_resendableIds := s.(rb_resendableIds) ∖ {[id]}; rb_timers := delete id s.(rb_timers) |}
                else s
  | None => s
  end.

Inductive ResendEvent :=
  | RsMessages (messages : list Message) (nowMs : Z) (offsetSec : option Z) (seen : gmap Z Z)
  | RsTimer (id nowMs : Z).
Definition resend_step (s : ResendButtons) (e : ResendEvent) : ResendButtons :=
  match e with
  | RsMessages messages nowMs offsetSec seen => resend_effect messages nowMs offsetSec seen s
  | RsTimer id nowMs => resend_timer id nowMs s
  end.
Definition resend_run (events : list ResendEvent) : ResendButtons := foldl resend_step no_buttons events.

(** The age that the request carries: none but an authoritative one. *)
Definition resend_request_age (messages : list Message) (messageId nowMs : Z) (offsetSec : option Z) (seen : gmap Z Z)
    : option Z :=
  msg ← array_find (fun entry => entry.(m_id) =? messageId) messages;
  age ← resendAge msg nowMs offsetSec seen;
  if age.(ag_authoritative) then Some age.(ag_ageMs) else None.

(** ** The buttons stay in the window *)

(** [id] was tracked by a render, with the timer it has. *)
Definition tracked (nowMs : Z) (offsetSec : option Z) (seen : gmap Z Z) (messages : list Message) (id due : Z) : Prop :=
  exists msg age, msg ∈ messages /\ msg.(m_id) = id /\ msg.(m_outgoing) = true /\ msg.(m_type) = CHAN
    /\ resendAge msg nowMs offsetSec seen = Some age /\ age.(ag_ageMs) < RESEND_WINDOW_MS
    /\ due = nowMs + RESEND_WINDOW_MS - age.(ag_ageMs).

Lemma track_messages nowMs offsetSec seen messages ids timers :
  foldl (track_message nowMs offsetSec seen) (∅, ∅) messages = (ids, timers) ->
  dom timers = ids /\ forall id due, timers !! id = Some due -> tracked nowMs offsetSec seen messages id due.
Proof.
  revert ids timers. induction messages as [|msg l IH] using rev_ind; intros ids timers.
  - intros [= <- <-]. split; [apply dom_empty_L|]. intros id due. by rewrite lookup_empty.
  - rewrite foldl_app. cbn [foldl]. destruct (foldl _ _ l) as [ids' timers']. destruct (IH _ _ eq_refl) as [Hdom Ht].
    assert (Hmore : forall id due, tracked nowMs offsetSec seen l id due -> tracked nowMs offsetSec seen (l ++ [msg]) id due).
    { intros id due (m & age & Hin & Hrest). exists m, age. split; [apply elem_of_app; by left|done]. }
    assert (Hsame : dom timers' = ids' /\ forall id due, timers' !! id = Some due ->
      tracked nowMs offsetSec seen (l ++ [msg]) id due) by eauto.
    unfold track_message. destruct (m_outgoing msg) eqn:Eo, (m_type msg) eqn:Et; try by intros [= <- <-].
    destruct (resendAge msg nowMs offsetSec seen) as [age|] eqn:Ea; [|by intros [= <- <-]].
    destruct (Z.leb_spec (RESEND_WINDOW_MS - age.(ag_ageMs)) 0); [by intros [= <- <-]|].
    destruct (timers' !! m_id msg) as [due'|] eqn:El; intros [= <- <-].
    + split; [|by apply Hsame]. rewrite Hdom. assert (m_id msg ∈ ids') by (rewrite <- Hdom; by apply elem_of_dom_2 in El).
      set_solver.
    + split; [rewrite dom_insert_L; by rewrite Hdom|]. intros id due [[<- <-]|[_ Hd]]%lookup_insert_Some; [|by apply Hsame].
      exists msg, age. split_and!; try done; [apply elem_of_app; right; by left|lia|lia].
Qed.

(** The set kept is the set computed. *)
Lemma resend_effect_spec messages nowMs offsetSec seen prev :
  let s := resend_effect messages nowMs offsetSec seen prev in
  dom s.(rb_timers) = s.(rb_resendableIds)
  /\ forall id due, s.(rb_timers) !! id = Some due -> tracked nowMs offsetSec seen messages id due.
Proof.
  unfold resend_effect. destruct (foldl _ _ messages) as [ids timers] eqn:E.
  destruct (track_messages _ _ _ _ _ _ E) as [Hdom Ht]. split; [|done]. cbn. rewrite Hdom.
  destruct (_ && _) eqn:Eb; [|done]. apply andb_true_iff in Eb as [Hs%Nat.eqb_eq Hsub%bool_decide_eq_true].
  apply set_eq. intros x. split; [apply Hsub|]. apply (set_subseteq_size_equiv ids) in Hsub; [set_solver|lia].
Qed.

(** Every button has a timer, which an earlier render of the message set. *)
Lemma resend_run_inv events :
  let s := resend_run events in
  dom s.(rb_timers) = s.(rb_resendableIds)
  /\ forall id due, s.(rb_timers) !! id = Some due ->
     exists messages nowMs offsetSec seen, RsMessages messages nowMs offsetSec seen ∈ events
       /\ tracked nowMs offsetSec seen messages id due.
Proof.
  unfold resend_run. induction events as [|e l IH] using rev_ind.
  - split; [apply dom_empty_L|]. intros id due. cbn. by rewrite lookup_empty.
  - rewrite foldl_app. cbn [foldl]. set (s := foldl resend_step no_buttons l) in *. destruct IH as [Hdom Ht].
    assert (Hold : forall id due, s.(rb_timers) !! id = Some due ->
      exists messages nowMs offsetSec seen, RsMessages messages nowMs offsetSec seen ∈ l ++ [e]
        /\ tracked nowMs offsetSec seen messages id due).
    { intros id due (m & n & o & sn & Hin & Htr)%Ht. exists m, n, o, sn. split; [apply elem_of_app; by left|done]. }
    destruct e as [messages nowMs offsetSec seen|id0 nowMs]; cbn [resend_step].
    + destruct (resend_effect_spec messages nowMs offsetSec seen s) as [Hd Hs]. split; [done|].
      intros id due Hl. exists messages, nowMs, offsetSec, seen. split; [apply elem_of_app; right; by left|by apply Hs].
    + unfold resend_timer. destruct (rb_timers s !! id0) as [due0|]; [|done]. destruct (due0 <=? nowMs); [|done].
      cbn. split; [by rewrite dom_delete_L, Hdom|]. intros id due [_ Hl]%lookup_delete_Some. by apply Hold.
Qed.

(** C29: a message has its resend button only in the thirty seconds from its anchor. At a time when no
    timer is overdue, each button belongs to an outgoing channel message that a render found young
    enough, and which the time passed since leaves so. *)
Theorem resend_button_in_window (events : list ResendEvent) (id T : Z)
    (Hid : id ∈ (resend_run events).(rb_resendableIds))
    (Hfired : forall id due, (resend_run events).(rb_timers) !! id = Some due -> T < due) :
  exists messages nowMs offsetSec seen msg age,
    RsMessages messages nowMs offsetSec seen ∈ events /\ msg ∈ messages /\ msg.(m_id) = id
    /\ msg.(m_outgoing) = true /\ msg.(m_type) = CHAN
    /\ resendAge msg nowMs offsetSec seen = Some age /\ age.(ag_ageMs) + (T - nowMs) < RESEND_WINDOW_MS.
Proof.
  destruct (resend_run_inv events) as [Hdom Ht]. rewrite <- Hdom in Hid. apply elem_of_dom in Hid as [due Hd].
  destruct (Ht id due Hd) as (messages & nowMs & offsetSec & seen & Hin & msg & age & Hm & Hi & Ho & Hty & Ha & _ & ->).
  exists messages, nowMs, offsetSec, seen, msg, age. specialize (Hfired id _ Hd). split_and!; try done. lia.
Qed.

(** ** The anchors *)

(** The anchor of a sent message lies between the request and the response, and is the server's
    stamp when that does. *)
Theorem sendAnchorMs_bounds stamp start response offset :
  start <= response ->
  start <= sendAnchorMs stamp start response offset <= response
  /\ forall s o, stamp = Some s -> offset = Some o -> start <= (s + o) * 1000 <= response ->
     sendAnchorMs stamp start response offset = (s + o) * 1000.
Proof.
  intros Hle. unfold sendAnchorMs. split; [destruct stamp, offset; lia|]. intros s o -> ->. lia.
Qed.

(** The sightings noted, one after the other. *)
Definition note_all (notes : list (Message * Z)) (seen : gmap Z Z) : gmap Z Z :=
  foldl (fun seen n => noteLiveOutgoingChannelMessage n.1 n.2 seen) seen notes.
Definition is_sighting (msg : Message) : bool :=
  match msg.(m_outgoing), msg.(m_type) with true, CHAN => true | _, _ => false end.
Definition first_step (id : Z) (first : option Z) (n : Message * Z) : option Z :=
  if is_sighting n.1 && (n.1.(m_id) =? id)
  then Some (match first with Some e => Z.min e n.2 | None => n.2 end) else first.
Definition first_sighting (id : Z) (notes : list (Message * Z)) : option Z := foldl (first_step id) None notes.

Lemma prune_lookup now seen id x :
  seen !! id = x -> (forall e, x = Some e -> now - e <= LIVE_SIGHTING_RETENTION_MS) ->
  pruneLiveSightings now seen !! id = x.
Proof.
  intros Hx Hret. unfold pruneLiveSightings. destruct x as [e|].
  - apply map_lookup_filter_Some. split; [done|]. by apply Hret.
  - apply map_lookup_filter_None. by left.
Qed.

(** Noting one sighting, on the entry of [id]. *)
Lemma note_lookup id msg at_ms seen first :
  seen !! id = first ->
  (forall e, first_step id first (msg, at_ms) = Some e -> at_ms - e <= LIVE_SIGHTING_RETENTION_MS) ->
  noteLiveOutgoingChannelMessage msg at_ms seen !! id = first_step id first (msg, at_ms).
Proof.
  intros Hf. unfold noteLiveOutgoingChannelMessage, first_step, is_sighting. cbn [fst snd].
  destruct (m_outgoing msg), (m_type msg); try done.
  intros Hret. apply prune_lookup; [|done]. cbn [andb] in *.
  destruct (Z.eqb_spec (m_id msg) id) as [<-|Hne].
  - rewrite Hf. destruct first as [e|]; [|by rewrite lookup_insert_eq].
    destruct (Z.ltb_spec at_ms e); [rewrite lookup_insert_eq|rewrite Hf]; f_equal; lia.
  - destruct (seen !! m_id msg) as [e|]; [destruct (at_ms <? e)|]; rewrite ?lookup_insert_ne by done; done.
Qed.

(** The first sighting of a message is the one kept, whatever the order in which the sightings are
    noted, as long as none is noted more than ten minutes after it. *)
Theorem sighting_is_first (notes : list (Message * Z)) (id : Z) :
  (forall e n, first_sighting id notes = Some e -> n ∈ notes -> n.2 - e <= LIVE_SIGHTING_RETENTION_MS) ->
  note_all notes ∅ !! id = first_sighting id notes.
Proof.
  unfold note_all, first_sighting. induction notes as [|[msg at_ms] l IH] using rev_ind; intros Hret.
  - cbn. by rewrite lookup_empty.
  - rewrite !foldl_app in *. cbn [foldl fst snd] in *. apply note_lookup.
    + apply IH. intros e n He Hn. set (first := foldl _ None l) in *.
      assert (exists e', first_step id first (msg, at_ms) = Some e' /\ e' <= e) as (e' & He' & Hle).
      { rewrite He. unfold first_step. destruct (_ && _); eexists; (split; [done|]); cbn; lia. }
      assert (Hn' : n.2 - e' <= LIVE_SIGHTING_RETENTION_MS) by (apply Hret; [done|apply elem_of_app; by left]). lia.
    + intros e He. apply (Hret e (msg, at_ms)); [done|]. apply elem_of_app. right. by left.
Qed.

(** ** Examples *)

Definition plain_message (id : Z) : Message :=
  {| m_id := id; m_type := CHAN; m_conversation_key := js "aa"; m_text := js "hi"; m_sender_timestamp := Some 1700000000;
     m_received_at := 1700000000; m_paths := None; m_txt_type := 0; m_signature := None; m_sender_key := None;
     m_outgoing := true; m_acked := 0; m_sender_name := None; m_channel_name := None; m_packet_id := None;
     m_transport_code := None; m_region := None; m_packet_hash := None; m_observer_reach_eligible := None |}.

(** A clock of the server that runs ahead by more than two seconds, not measured: no button. *)
Example clock_ahead : resendAge (plain_message 7) 1699999990000 None ∅ = None.
Proof. done. Qed.

Lemma resend_button_in_window_witness :
  let events := [RsMessages [plain_message 7] 1700000005000 (Some 1) ∅] in
  exists messages nowMs offsetSec seen msg age,
    RsMessages messages nowMs offsetSec seen ∈ events /\ msg ∈ messages /\ msg.(m_id) = 7
    /\ msg.(m_outgoing) = true /\ msg.(m_type) = CHAN
    /\ resendAge msg nowMs offsetSec seen = Some age /\ age.(ag_ageMs) + (1700000010000 - nowMs) < RESEND_WINDOW_MS.
Proof.
  cbn zeta. apply (resend_button_in_window [RsMessages [plain_message 7] 1700000005000 (Some 1) ∅] 7 1700000010000).
  - apply (bool_decide_eq_true_1 _). by vm_compute.
  - intros id due Hl. destruct (resend_run_inv [RsMessages [plain_message 7] 1700000005000 (Some 1) ∅]) as [_ Ht].
    destruct (Ht id due Hl) as (m & n & o & sn & Hin & msg & age & Hm & _ & _ & _ & Ha & _ & ->).
    apply list_elem_of_singleton in Hin. injection Hin as -> -> -> ->. apply list_elem_of_singleton in Hm as ->.
    vm_compute in Ha. injection Ha as <-. cbn. unfold RESEND_WINDOW_MS. lia.
Defined.
