(* ===== verification/ConversationActions.v ===== *)
(** What the conversation on screen can be asked: [hooks/useConversationActions.ts] and
    [hooks/useConversationNavigation.ts].

    A call of the hook is an event up to its request, the answer is a later event, in any order;
    the conversation on screen may change in between. [observeMessage] is a log, as are the calls
    of the input and the toasts. A send that fails throws to the composer, which is told. *)
From S2P Require Import Prelude JsString JsCollections JsNum Types ApiErrors Directory RealtimeApp ResendWindow.

(** ** Actions *)

(** A request under way, with what its continuation remembers. *)
Inductive ActionCall :=
  | CallSendMessage (conversationId : jstr) (startedAtMs : Z)
  | CallResend (newTimestamp : bool)
  | CallFloodScope
  | CallPathHashMode
  | CallTrace
  | CallPathDiscovery.
Inductive ActionReply :=
  | ReplyMessage (sent : Message)
  | ReplyResent (message : option Message)
  | ReplyChannel (updated : Channel)
  | ReplyTrace (remote_snr local_snr : option num)
  | ReplyPathDiscovery (contact : IncomingContact)
  | ReplyError (err : JsError).

Inductive InputCall := StartReply (sender quote : jstr) | AppendText (text : jstr).

Record Actions := {
  ac_active : option Conversation;
  ac_contacts : list Contact;
  ac_channels : list Channel;
  ac_sightings : gmap Z Z;
  ac_observed : list Message;
  ac_input : list InputCall;
  ac_toasts : list jstr;
  ac_refused : list Z;
  ac_calls : list (Z * ActionCall);
  ac_next : Z;
}.
#[export] Instance Actions_eta : Eta Actions :=
  fun s => Build_Actions s.(ac_active) s.(ac_contacts) s.(ac_channels) s.(ac_sightings) s.(ac_observed) s.(ac_input)
    s.(ac_toasts) s.(ac_refused) s.(ac_calls) s.(ac_next).

Definition action_send (c : ActionCall) (s : Actions) : Actions :=
  (s <| ac_calls := s.(ac_calls) ++ [(s.(ac_next), c)] |>) <| ac_next := s.(ac_next) + 1 |>.
Definition action_toast (key : string) (s : Actions) : Actions := s <| ac_toasts := s.(ac_toasts) ++ [js key] |>.
Definition action_observe (msg : Message) (s : Actions) : Actions := s <| ac_observed := s.(ac_observed) ++ [msg] |>.

Definition handleSendMessage (startedAtMs : Z) (s : Actions) : Actions :=
  match s.(ac_active) with
  | None => s
  | Some conversation => action_send (CallSendMessage conversation.(cv_id) startedAtMs) s
  end.

(** [handleSendMessage], from its answer on. *)
Definition message_sent (conversationId : jstr) (startedAtMs : Z) (sent : Message) (respondedAtMs : Z)
    (measuredOffsetSec : option Z) (s : Actions) : Actions :=
  let anchor := sendAnchorMs sent.(m_sender_timestamp) startedAtMs respondedAtMs measuredOffsetSec in
  let s := s <| ac_sightings := noteLiveOutgoingChannelMessage sent anchor s.(ac_sightings) |> in
  if (cv_id <$> s.(ac_active)) ≟ Some conversationId then action_observe sent s else s.

Definition message_resent (newTimestamp : bool) (resent : option Message) (s : Actions) : Actions :=
  let s :=
    match newTimestamp, resent, s.(ac_active) with
    | true, Some message, Some active =>
      match active.(cv_type) with
      | CtChannel => if active.(cv_id) ≟ message.(m_conversation_key) then action_observe message s else s
      | _ => s
      end
    | _, _, _ => s
    end in
  action_toast (if newTimestamp then "toast.resentNewTimestamp" else "toast.resent") s.

Definition handleSenderClick (sender : jstr) (quote : option jstr) (s : Actions) : Actions :=
  s <| ac_input := s.(ac_input) ++
    [match quote with Some quote => StartReply sender quote | None => AppendText (js "@[" ++ sender ++ js "] ") end] |>.

Definition handleTrace (s : Actions) : Actions :=
  match s.(ac_active) with
  | Some {| cv_type := CtContact |} => action_send CallTrace (action_toast "toast.traceStarted" s)
  | _ => s
  end.

(** [i18n.t] of the parts is left out: the toast says whether there is one. *)
Definition trace_done (remote_snr local_snr : option num) (s : Actions) : Actions :=
  action_toast match remote_snr, local_snr with
               | None, None => "toast.traceComplete"
               | _, _ => "toast.traceCompleteDetail"
               end s.

Section locale.
Context (localeCompare : jstr -> jstr -> comparison).

Definition merge_channel (updated : Channel) (s : Actions) : Actions :=
  s <| ac_channels := mergeChannelIntoList localeCompare updated s.(ac_channels) |>.

(** The answer to a request: a handler with a [catch] tells the failure, the others throw. *)
Definition action_answered (c : ActionCall) (reply : ActionReply) (id nowMs : Z) (measuredOffsetSec : option Z)
    (s : Actions) : Actions :=
  match c, reply with
  | CallSendMessage conversationId startedAtMs, ReplyMessage sent =>
    message_sent conversationId startedAtMs sent nowMs measuredOffsetSec s
  | CallResend newTimestamp, ReplyResent message => message_resent newTimestamp message s
  | CallFloodScope, ReplyChannel updated =>
    action_toast (match truthy updated.(ch_flood_scope_override) with
                  | Some _ => "toast.regionalOverrideSaved" | None => "toast.regionalOverrideCleared" end)
      (merge_channel updated s)
  | CallPathHashMode, ReplyChannel updated =>
    action_toast (match updated.(ch_path_hash_mode_override) with
                  | Some _ => "toast.pathHopOverrideSaved" | None => "toast.pathHopOverrideCleared" end)
      (merge_channel updated s)
  | CallTrace, ReplyTrace remote_snr local_snr => trace_done remote_snr local_snr s
  | CallPathDiscovery, ReplyPathDiscovery contact =>
    s <| ac_contacts := mergeContactIntoList s.(ac_contacts) contact ?? s.(ac_contacts) |>
  | CallResend _, ReplyError _ => action_toast "toast.resendFailed" s
  | CallFloodScope, ReplyError _ => action_toast "toast.regionalOverrideFailed" s
  | CallPathHashMode, ReplyError _ => action_toast "toast.pathHopOverrideFailed" s
  | CallTrace, ReplyError _ => action_toast "toast.traceFailed" s
  | (CallSendMessage _ _ | CallPathDiscovery), ReplyError _ => s <| ac_refused := s.(ac_refused) ++ [id] |>
  | _, _ => s
  end.

Inductive ActionEvent :=
  | AcOpen (conversation : option Conversation)
  | AcSend (nowMs : Z)
  | AcResend (newTimestamp : bool)
  | AcFloodScope | AcPathHashMode | AcTrace | AcPathDiscovery
  | AcSenderClick (sender : jstr) (quote : option jstr)
  | AcSighting (msg : Message) (nowMs : Z)
  | AcAnswer (id : Z) (reply : ActionReply) (nowMs : Z) (measuredOffsetSec : option Z).

Definition action_step (s : Actions) (e : ActionEvent) : Actions :=
  match e with
  | AcOpen conversation => s <| ac_active := conversation |>
  | AcSend nowMs => handleSendMessage nowMs s
  | AcResend newTimestamp => action_send (CallResend newTimestamp) s
  | AcFloodScope => action_send CallFloodScope s
  | AcPathHashMode => action_send CallPathHashMode s
  | AcTrace => handleTrace s
  | AcPathDiscovery => action_send CallPathDiscovery s
  | AcSenderClick sender quote => handleSenderClick sender quote s
  | AcSighting msg nowMs => s <| ac_sightings := noteLiveOutgoingChannelMessage msg nowMs s.(ac_sightings) |>
  | AcAnswer id reply nowMs measuredOffsetSec =>
    match om_get s.(ac_calls) id with
    | None => s
    | Some c => action_answered c reply id nowMs measuredOffsetSec (s <| ac_calls := om_delete s.(ac_calls) id |>)
    end
  end.
Definition action_run (events : list ActionEvent) (s : Actions) : Actions := foldl action_step s events.
End locale.

(** ** Navigation *)

Record SearchNavigateTarget := {
  st_id : Z;
  st_type : MessageType;
  st_conversation_key : jstr;
  st_conversation_name : jstr;
}.
Record Navigation := {
  nv_targetMessageId : option Z;
  nv_infoPaneContactKey : option jstr;
  nv_infoPaneFromChannel : bool;
  nv_infoPaneChannelKey : option jstr;
  nv_searchPrefillRequest : option (jstr * Z);
  nv_selected : list Conversation;
}.
#[export] Instance Navigation_eta : Eta Navigation :=
  fun n => Build_Navigation n.(nv_targetMessageId) n.(nv_infoPaneContactKey) n.(nv_infoPaneFromChannel)
    n.(nv_infoPaneChannelKey) n.(nv_searchPrefillRequest) n.(nv_selected).

Definition plain_conversation (type : ConversationType) (id name : jstr) : Conversation :=
  {| cv_type := type; cv_id := id; cv_name := name; cv_mapFocusKey := None; cv_locateKey := None |}.

Definition handleOpenContactInfo (publicKey : jstr) (fromChannel : option bool) (n : Navigation) : Navigation :=
  (n <| nv_infoPaneContactKey := Some publicKey |>) <| nv_infoPaneFromChannel := fromChannel ?? false |>.
Definition handleCloseContactInfo (n : Navigation) : Navigation := n <| nv_infoPaneContactKey := None |>.
Definition handleOpenChannelInfo (channelKey : jstr) (n : Navigation) : Navigation :=
  n <| nv_infoPaneChannelKey := Some channelKey |>.
Definition handleCloseChannelInfo (n : Navigation) : Navigation := n <| nv_infoPaneChannelKey := None |>.

Definition handleSelectConversationWithTargetReset (conv : Conversation) (preserveTarget : bool) (n : Navigation) : Navigation :=
  let n := match conv.(cv_type), preserveTarget with
           | CtSearch, _ | _, true => n
           | _, _ => n <| nv_targetMessageId := None |>
           end in
  n <| nv_selected := n.(nv_selected) ++ [conv] |>.

Definition handleNavigateToChannel (channels : list Channel) (channelKey : jstr) (n : Navigation) : Navigation :=
  match array_find (fun item => item.(ch_key) ≟ channelKey) channels with
  | None => n
  | Some channel =>
    handleSelectConversationWithTargetReset (plain_conversation CtChannel channel.(ch_key) channel.(ch_name)) false n
    <| nv_infoPaneContactKey := None |>
  end.

Definition handleNavigateToMessage (target : SearchNavigateTarget) (n : Navigation) : Navigation :=
  let convType := match target.(st_type) with CHAN => CtChannel | PRIV => CtContact end in
  handleSelectConversationWithTargetReset
    (plain_conversation convType target.(st_conversation_key) target.(st_conversation_name)) true
    (n <| nv_targetMessageId := Some target.(st_id) |>).

Definition handleOpenSearchWithQuery (query : jstr) (n : Navigation) : Navigation :=
  let n := (n <| nv_targetMessageId := None |>) <| nv_infoPaneContactKey := None |> in
  let n := handleSelectConversationWithTargetReset (plain_conversation CtSearch (js "search") (js "Message Search")) false n in
  n <| nv_searchPrefillRequest := Some (query, ((snd <$> n.(nv_searchPrefillRequest)) ?? 0) + 1) |>.

(** ** What they promise *)

(** The handlers of the hook, and the end of a scroll. [App.tsx] also sets the target to a message of the
    conversation on screen, its first unread one; that is left out. *)

Inductive NavEvent :=
  | NvContactInfo (publicKey : jstr) (fromChannel : option bool) | NvCloseContactInfo
  | NvChannelInfo (channelKey : jstr) | NvCloseChannelInfo
  | NvSelect (conv : Conversation) | NvChannel (channels : list Channel) (channelKey : jstr)
  | NvMessage (target : SearchNavigateTarget) | NvSearch (query : jstr) | NvTargetReached.
Definition nav_step (n : Navigation) (e : NavEvent) : Navigation :=
  match e with
  | NvContactInfo publicKey fromChannel => handleOpenContactInfo publicKey fromChannel n
  | NvCloseContactInfo => handleCloseContactInfo n
  | NvChannelInfo channelKey => handleOpenChannelInfo channelKey n
  | NvCloseChannelInfo => handleCloseChannelInfo n
  | NvSelect conv => handleSelectConversationWithTargetReset conv false n
  | NvChannel channels channelKey => handleNavigateToChannel channels channelKey n
  | NvMessage target => handleNavigateToMessage target n
  | NvSearch query => handleOpenSearchWithQuery query n
  | NvTargetReached => n <| nv_targetMessageId := None |>
  end.
Definition nav_run (events : list NavEvent) (n : Navigation) : Navigation := foldl nav_step n events.
Definition nav0 : Navigation :=
  {| nv_targetMessageId := None; nv_infoPaneContactKey := None; nv_infoPaneFromChannel := false;
     nv_infoPaneChannelKey := None; nv_searchPrefillRequest := None; nv_selected := [] |}.

(** The last conversation selected that is not the search. *)
Definition not_search (conv : Conversation) : bool := match conv.(cv_type) with CtSearch => false | _ => true end.
Definition last_conversation (n : Navigation) : option Conversation :=
  last (filter (fun conv => not_search conv = true) n.(nv_selected)).

Lemma last_conversation_snoc conv n :
  last (filter (fun c => not_search c = true) (n.(nv_selected) ++ [conv]))
  = if not_search conv then Some conv else last_conversation n.
Proof.
  unfold last_conversation. rewrite filter_app, filter_cons, filter_nil.
  destruct (not_search conv); [by rewrite decide_True, last_snoc|by rewrite decide_False, app_nil_r].
Qed.

(** The message to scroll to is in the conversation last opened: another conversation never takes
    it over. *)
Theorem target_in_its_conversation (events : list NavEvent) (id : Z) :
  (nav_run events nav0).(nv_targetMessageId) = Some id ->
  exists target, NvMessage target ∈ events /\ target.(st_id) = id
    /\ cv_id <$> last_conversation (nav_run events nav0) = Some target.(st_conversation_key).
Proof.
  unfold nav_run. induction events as [|e l IH] using rev_ind; [done|].
  rewrite foldl_app. cbn [foldl]. set (n := foldl nav_step nav0 l) in *. intros Hid.
  assert (Hkeep : n.(nv_targetMessageId) = Some id -> last_conversation (nav_step n e) = last_conversation n ->
    exists target, NvMessage target ∈ l ++ [e] /\ target.(st_id) = id
      /\ cv_id <$> last_conversation (nav_step n e) = Some target.(st_conversation_key)).
  { intros (target & Hin & Ht & Hc)%IH Hlast. exists target. rewrite Hlast. split_and!; [apply elem_of_app; by left|done|done]. }
  destruct e as [key from| |key| |conv|channels key|target|query|]; try (by apply Hkeep); try done.
  - cbn in Hid. unfold handleSelectConversationWithTargetReset in Hid.
    apply Hkeep.
    + destruct (cv_type conv); done.
    + unfold last_conversation. cbn. rewrite last_conversation_snoc. unfold not_search. destruct (cv_type conv); done.
  - cbn [nav_step] in *. unfold handleNavigateToChannel in *. destruct (array_find _ channels) as [ch|] eqn:E; [done|].
    by apply Hkeep.
  - exists target. split; [apply elem_of_app; right; by left|]. cbn in Hid.
    destruct (st_type target) eqn:Et; cbn in Hid; injection Hid as ->; (split; [done|]);
      unfold last_conversation; cbn; rewrite Et; cbn; by rewrite last_conversation_snoc.
Qed.

(** Each search prefill is a new request. *)
Theorem search_request_renewed n query :
  exists nonce, (handleOpenSearchWithQuery query n).(nv_searchPrefillRequest) = Some (query, nonce)
    /\ forall query' nonce', n.(nv_searchPrefillRequest) = Some (query', nonce') -> nonce' < nonce.
Proof. eexists. split; [done|]. intros q k Hk. cbn. rewrite Hk. cbn. lia. Qed.

(** The answer to a send enters the list on screen only if the conversation it was sent to is still
    open, and starts its resend window within the request. *)
Theorem sent_message_answered localeCompare s id conversationId started sent now offset :
  om_get s.(ac_calls) id = Some (CallSendMessage conversationId started) -> started <= now ->
  is_sighting sent = true -> s.(ac_sightings) !! sent.(m_id) = None ->
  let s' := action_step localeCompare s (AcAnswer id (ReplyMessage sent) now offset) in
  s'.(ac_observed) = s.(ac_observed) ++ (if (cv_id <$> s.(ac_active)) ≟ Some conversationId then [sent] else [])
  /\ exists anchor, s'.(ac_sightings) !! sent.(m_id) = Some anchor /\ started <= anchor <= now.
Proof.
  intros Hid Hle Hs Hnew. cbn [action_step]. rewrite Hid. cbn [action_answered]. unfold message_sent.
  set (anchor := sendAnchorMs _ _ _ _).
  assert (Ha : started <= anchor <= now) by by apply sendAnchorMs_bounds.
  assert (Hl : noteLiveOutgoingChannelMessage sent anchor s.(ac_sightings) !! sent.(m_id) = Some anchor).
  { erewrite note_lookup; [|exact Hnew|].
    - unfold first_step. cbn [fst snd]. by rewrite Hs, Z.eqb_refl.
    - unfold first_step. cbn [fst snd]. rewrite Hs, Z.eqb_refl. intros e [= <-]. unfold LIVE_SIGHTING_RETENTION_MS. lia. }
  cbn zeta. change (ac_active (s <| ac_calls := _ |> <| ac_sightings := _ |>)) with (ac_active s).
  case_bool_decide; (split; [cbn; by rewrite ?app_nil_r|exists anchor; split; [exact Hl|exact Ha]]).
Qed.
