(* ===== verification/VisualizerFocus.v ===== *)
(** The packet handed from the packet feed to the visualizer: [utils/visualizerFocusHandoff.ts],
    [handleOpenVisualizer] of [components/RawPacketFeedView.tsx] and the inspector that
    [components/VisualizerView.tsx] opens on it.

    The handoff lives in three entries of the session storage and in a variable of the module
    that a timer of zero milliseconds empties. The state holds both, with the timer. The JSON text
    of the filter ids is a parameter, [IdsText]. *)
From S2P Require Import Prelude JsString JsCollections JsNum Types Json RawPacketStats.

Record VisualizerFocusHandoff := {
  vf_observationKey : jstr;
  vf_packetHash : option jstr;
  vf_filterIds : option (list jstr);
}.
#[export] Instance VisualizerFocusHandoff_eq_dec : EqDecision VisualizerFocusHandoff.
Proof. solve_decision. Defined.

(** The entries of the session storage, and whether the browser lets them be read and written. *)
Record FocusStorage := {
  fs_readable : bool;
  fs_writable : bool;
  fs_key : option jstr;
  fs_hash : option jstr;
  fs_ids : option jstr;
}.
#[export] Instance FocusStorage_eta : Eta FocusStorage :=
  fun s => Build_FocusStorage s.(fs_readable) s.(fs_writable) s.(fs_key) s.(fs_hash) s.(fs_ids).

(** The module: [fw_timer] when the timer that forgets the handoff is set. *)
Record FocusWorld := {
  fw_storage : FocusStorage;
  fw_remembered : option VisualizerFocusHandoff;
  fw_timer : bool;
}.
#[export] Instance FocusWorld_eta : Eta FocusWorld :=
  fun w => Build_FocusWorld w.(fw_storage) w.(fw_remembered) w.(fw_timer).

Definition rememberHandoff (handoff : option VisualizerFocusHandoff) (w : FocusWorld) : FocusWorld :=
  (w <| fw_remembered := handoff |>)
    <| fw_timer := match handoff with Some _ => true | None => false end |>.

(** The timer's callback. *)
Definition forgetHandoff (w : FocusWorld) : FocusWorld :=
  if w.(fw_timer) then (w <| fw_remembered := None |>) <| fw_timer := false |> else w.

(** [/^\d+$/.test(trimmed)] *)
Definition all_digits (s : jstr) : bool := negb (s ≟ []) && forallb is_digit s.

Definition normalizeObservationKey (value : jstr) : jstr :=
  let trimmed := trim value in
  if all_digits trimmed then js "obs-" ++ trimmed else trimmed.

Definition normalizePacketHash (value : option jstr) : option jstr :=
  value ← value; truthy (Some (trim value)).

Definition normalizeFilterIds (value : option (list jstr)) : option (list jstr) :=
  value ← value;
  let ids := filter (fun id => trim id <> []) value in
  if ids ≟ [] then None else Some ids.

(** [JSON.stringify] of an array of strings, and [JSON.parse]. *)
Class IdsText := {
  stringify_ids : list jstr -> jstr;
  parse_ids_json : jstr -> option Json;
}.

Section handoff.
Context `{IdsText}.

Definition parseFilterIds (raw : option jstr) : option (list jstr) :=
  raw ← truthy raw;
  parsed ← parse_ids_json raw;
  match parsed with
  | Jarray l => normalizeFilterIds (Some (omap (fun v => match v with Jstring s => Some s | _ => None end) l))
  | _ => None
  end.

Definition readStorageHandoff (s : FocusStorage) : option VisualizerFocusHandoff :=
  if s.(fs_readable) then
    rawKey ← truthy s.(fs_key);
    observationKey ← truthy (Some (normalizeObservationKey rawKey));
    Some {| vf_observationKey := observationKey;
            vf_packetHash := normalizePacketHash s.(fs_hash);
            vf_filterIds := parseFilterIds s.(fs_ids) |}
  else None.

Definition writeStorageHandoff (handoff : VisualizerFocusHandoff) (s : FocusStorage) : FocusStorage :=
  if s.(fs_writable) then
    ((s <| fs_key := Some handoff.(vf_observationKey) |>)
       <| fs_hash := truthy handoff.(vf_packetHash) |>)
       <| fs_ids := match handoff.(vf_filterIds) with
                    | Some ((_ :: _) as ids) => Some (stringify_ids ids)
                    | _ => None
                    end |>
  else s.

Definition clearStorageHandoff (s : FocusStorage) : FocusStorage :=
  if s.(fs_writable) then ((s <| fs_key := None |>) <| fs_hash := None |>) <| fs_ids := None |> else s.

Definition setVisualizerFocusHandoff (observationKey : jstr) (packetHash : option jstr)
    (filterIds : option (list jstr)) (w : FocusWorld) : FocusWorld :=
  let observationKey := normalizeObservationKey observationKey in
  if observationKey ≟ [] then w else
  let handoff := {| vf_observationKey := observationKey;
                    vf_packetHash := normalizePacketHash packetHash;
                    vf_filterIds := normalizeFilterIds filterIds |} in
  let w := rememberHandoff (Some handoff) w in
  w <| fw_storage := writeStorageHandoff handoff w.(fw_storage) |>.

Definition peekVisualizerFocusHandoff (w : FocusWorld) : option VisualizerFocusHandoff :=
  match readStorageHandoff w.(fw_storage) with Some h => Some h | None => w.(fw_remembered) end.

Definition consumeVisualizerFocusHandoff (w : FocusWorld) : option VisualizerFocusHandoff * FocusWorld :=
  match readStorageHandoff w.(fw_storage) with
  | Some stored =>
    (Some stored, rememberHandoff (Some stored) (w <| fw_storage := clearStorageHandoff w.(fw_storage) |>))
  | None => (w.(fw_remembered), w)
  end.

Definition resetVisualizerFocusHandoff (w : FocusWorld) : FocusWorld :=
  ((w <| fw_remembered := None |>) <| fw_timer := false |>)
    <| fw_storage := clearStorageHandoff w.(fw_storage) |>.

(** The button of the feed's inspector; the packet's hash is left out when it is empty. *)
Definition handleOpenVisualizer (packet : RawPacket) (w : FocusWorld) : FocusWorld :=
  setVisualizerFocusHandoff (getRawPacketObservationKey packet) (truthy packet.(rp_packet_hash)) None w.
End handoff.

(** ** The packet a handoff names *)

Definition observed_as (handoff : VisualizerFocusHandoff) (packet : RawPacket) : bool :=
  getRawPacketObservationKey packet ≟ handoff.(vf_observationKey).
Definition hashed_as (hash : jstr) (packet : RawPacket) : bool :=
  toLowerCase (packet.(rp_packet_hash) ?? []) ≟ toLowerCase hash.

Definition findVisualizerFocusPacket (packets : list RawPacket) (handoff : option VisualizerFocusHandoff)
    : option RawPacket :=
  handoff ← handoff;
  match array_find (observed_as handoff) packets with
  | Some packet => Some packet
  | None => hash ← truthy handoff.(vf_packetHash); array_find (hashed_as hash) packets
  end.

Definition packetMatchesVisualizerFocus (packet : RawPacket) (handoff : option VisualizerFocusHandoff)
    : bool :=
  match handoff with
  | None => false
  | Some handoff =>
    if observed_as handoff packet then true
    else match truthy handoff.(vf_packetHash) with
         | None => false
         | Some hash => hashed_as hash packet
         end
  end.

(** ** The inspector of the view *)

Record InspectorView := {
  iv_focusHandoff : option VisualizerFocusHandoff;
  iv_selectedPacket : option RawPacket;
  iv_applied : bool;
}.
#[export] Instance InspectorView_eta : Eta InspectorView :=
  fun v => Build_InspectorView v.(iv_focusHandoff) v.(iv_selectedPacket) v.(iv_applied).

(** The states of the first render: strict mode runs the initialiser twice and keeps the first
    result. *)
Definition mount_inspector `{IdsText} (packets : list RawPacket) (w : FocusWorld)
    : InspectorView * FocusWorld :=
  let '(handoff, w) := consumeVisualizerFocusHandoff w in
  let initial := findVisualizerFocusPacket packets handoff in
  ({| iv_focusHandoff := handoff; iv_selectedPacket := initial;
      iv_applied := match initial with Some _ => true | None => false end |}, w).

Inductive InspectorEvent :=
| IvRender (packets : list RawPacket)
| IvSelect (packet : RawPacket)
| IvClose.

Definition inspector_step (v : InspectorView) (e : InspectorEvent) : InspectorView :=
  match e with
  | IvRender packets =>
    match v.(iv_focusHandoff) with
    | Some _ =>
      if v.(iv_applied) then v else
      match findVisualizerFocusPacket packets v.(iv_focusHandoff) with
      | Some packet => (v <| iv_selectedPacket := Some packet |>) <| iv_applied := true |>
      | None => v
      end
    | None => v
    end
  | IvSelect packet => v <| iv_selectedPacket := Some packet |>
  | IvClose => v <| iv_selectedPacket := None |>
  end.
Definition inspector_run : list InspectorEvent -> InspectorView -> InspectorView := flip (foldl inspector_step).

(** ** Properties *)

Class IdsTextLaws `{IdsText} := {
  stringify_ids_nonempty ids : stringify_ids ids <> [];
  parse_stringify_ids ids : parse_ids_json (stringify_ids ids) = Some (Jarray (Jstring <$> ids));
}.

Lemma normalizeObservationKey_idemp k : normalizeObservationKey (normalizeObservationKey k) = normalizeObservationKey k.
Proof.
  unfold normalizeObservationKey at 2 3. destruct (all_digits (trim k)) eqn:E.
  - unfold all_digits in E. to_prop. destruct (trim k) as [|c t] eqn:Et using rev_ind; [done|clear IHt].
    assert (Hc : is_digit c = true).
    { match goal with H : forallb _ _ = true |- _ => rewrite forallb_app in H; cbn in H end. to_prop. done. }
    assert (Hs : is_space c = false).
    { unfold is_digit in Hc. apply in_range_true in Hc. unfold is_space.
      rewrite !(proj2 (in_range_false _ _ _)) by lia. cbn. by rewrite !(proj2 (Z.eqb_neq _ _)) by lia. }
    unfold normalizeObservationKey. change (js "obs-") with (111 :: [98; 115; 45]).
    rewrite <- app_comm_cons, app_assoc, trim_id by done. done.
  - unfold normalizeObservationKey. by rewrite trim_idemp, E.
Qed.

(** A packet's own key is its normal form. *)
Lemma packet_key_normal packet :
  0 <= packet.(rp_observation_id) ?? packet.(rp_id) ->
  normalizeObservationKey (getRawPacketObservationKey packet) = getRawPacketObservationKey packet.
Proof.
  intros Hn. unfold getRawPacketObservationKey.
  assert (Hkey : forall c t n, 0 <= n -> is_space c = false -> is_digit c = false ->
            normalizeObservationKey ((c :: t) ++ int_str n) = (c :: t) ++ int_str n).
  { clear. intros c t n Hn Hc Hd.
    assert (Hdig := int_str_digits n Hn). destruct (int_str n) as [|d l] eqn:E using rev_ind.
    - exfalso. assert (E' := f_equal length E). unfold int_str, toString_radix in E'.
      replace (n <? 0) with false in E' by (symmetry; apply Z.ltb_ge; lia).
      rewrite length_fmap, length_reverse in E'. unfold digits in E'. cbn in E'. by destruct (n <? 10).
    - apply Forall_app in Hdig as [_ [Hdd _]%Forall_cons].
      assert (Hs : is_space d = false).
      { unfold is_digit in Hdd. apply in_range_true in Hdd. unfold is_space.
        rewrite !(proj2 (in_range_false _ _ _)) by lia. cbn. by rewrite !(proj2 (Z.eqb_neq _ _)) by lia. }
      unfold normalizeObservationKey. rewrite <- app_comm_cons, app_assoc, trim_id by done.
      unfold all_digits. cbn [forallb]. by rewrite Hd, andb_false_l, andb_false_r. }
  destruct (rp_observation_id packet); cbn in Hn; by apply Hkey.
Qed.

Section laws.
Context `{IdsTextLaws}.

Definition usable (s : FocusStorage) : Prop := s.(fs_readable) = true /\ s.(fs_writable) = true.

(** The handoff that stands for the values given. *)
Definition handoff_of (observationKey : jstr) (packetHash : option jstr) (filterIds : option (list jstr)) :=
  {| vf_observationKey := normalizeObservationKey observationKey;
     vf_packetHash := normalizePacketHash packetHash;
     vf_filterIds := normalizeFilterIds filterIds |}.

Lemma normalizePacketHash_idemp h : normalizePacketHash (truthy (normalizePacketHash h)) = normalizePacketHash h.
Proof.
  destruct h as [s|]; [|done]. unfold normalizePacketHash at 2 3. cbn.
  destruct (trim s) as [|c t] eqn:E; [done|].
  assert (Ht : trim (c :: t) = c :: t) by (rewrite <- E; apply trim_idemp).
  unfold normalizePacketHash. cbn [truthy mbind option_bind]. by rewrite Ht.
Qed.

Lemma omap_strings (ids : list jstr) : omap (fun v => match v with Jstring s => Some s | _ => None end) (Jstring <$> ids) = ids.
Proof. induction ids as [|x ids IH]; [done|]. cbn. by rewrite IH. Qed.

Lemma parse_normal_ids ids :
  parseFilterIds (match normalizeFilterIds ids with Some ((_ :: _) as l) => Some (stringify_ids l) | _ => None end)
  = normalizeFilterIds ids.
Proof.
  destruct ids as [ids|]; [|done]. unfold normalizeFilterIds. cbn.
  set (l := filter (fun id => trim id <> []) ids).
  destruct (l ≟ []) eqn:E; [done|]. to_prop. destruct l as [|x l'] eqn:El; [done|].
  unfold parseFilterIds. assert (Hne := stringify_ids_nonempty (x :: l')).
  destruct (stringify_ids (x :: l')) as [|c t] eqn:Es; [done|].
  cbn -[omap fmap normalizeFilterIds]. rewrite <- Es, parse_stringify_ids.
  cbn -[omap fmap normalizeFilterIds]. rewrite omap_strings, <- El.
  unfold normalizeFilterIds. cbn -[filter]. subst l. rewrite list_filter_filter_l by done. by rewrite El.
Qed.

(** A handoff that is written is read back, in its normal form. *)
Lemma read_written key hash ids s :
  usable s -> normalizeObservationKey key <> [] ->
  readStorageHandoff (writeStorageHandoff (handoff_of key hash ids) s) = Some (handoff_of key hash ids).
Proof.
  intros [Hr Hw] Hk. unfold readStorageHandoff, writeStorageHandoff. rewrite Hw. cbn. rewrite Hr.
  destruct (normalizeObservationKey key) as [|c t] eqn:E; [done|]. cbn.
  rewrite <- E, normalizeObservationKey_idemp, E. cbn.
  rewrite normalizePacketHash_idemp, parse_normal_ids. unfold handoff_of. by rewrite E.
Qed.

(** With no entry the storage hands nothing over. *)
Lemma read_cleared s : usable s -> readStorageHandoff (clearStorageHandoff s) = None.
Proof. intros [Hr Hw]. unfold readStorageHandoff, clearStorageHandoff. rewrite Hw. cbn. by rewrite Hr. Qed.

(** A handoff that is set is handed over to the view that mounts, in the same turn or in a later
    one, and again to its second mount in strict mode, and to no later one. *)
Theorem focus_handed_over (key : jstr) (hash : option jstr) (ids : option (list jstr)) (w : FocusWorld) (late : bool) :
  usable w.(fw_storage) -> normalizeObservationKey key <> [] ->
  let w := setVisualizerFocusHandoff key hash ids w in
  let w := if late then forgetHandoff w else w in
  let '(first, w1) := consumeVisualizerFocusHandoff w in
  let '(second, w2) := consumeVisualizerFocusHandoff w1 in
  peekVisualizerFocusHandoff w = Some (handoff_of key hash ids)
  /\ first = Some (handoff_of key hash ids) /\ second = first
  /\ fst (consumeVisualizerFocusHandoff (forgetHandoff w2)) = None.
Proof.
  intros Hu Hk w0 w1. assert (Hst : w1.(fw_storage) = writeStorageHandoff (handoff_of key hash ids) w.(fw_storage)).
  { subst w1 w0. unfold setVisualizerFocusHandoff. rewrite bool_decide_false by done. by destruct late. }
  assert (Hu1 : usable w1.(fw_storage)).
  { rewrite Hst. destruct Hu as [Hr Hw]. unfold usable, writeStorageHandoff. by rewrite Hw. }
  unfold consumeVisualizerFocusHandoff at 1, peekVisualizerFocusHandoff.
  rewrite Hst, read_written by done. rewrite <- Hst. unfold consumeVisualizerFocusHandoff at 1. cbn.
  rewrite read_cleared by done. repeat split. unfold consumeVisualizerFocusHandoff. cbn.
  by rewrite read_cleared by done.
Qed.

(** Where the storage cannot be read, the handoff only lives to the end of the turn. *)
Theorem private_handoff_forgotten (key : jstr) (hash : option jstr) (ids : option (list jstr)) (w : FocusWorld) :
  w.(fw_storage).(fs_readable) = false -> normalizeObservationKey key <> [] ->
  let w := setVisualizerFocusHandoff key hash ids w in
  fst (consumeVisualizerFocusHandoff w) = Some (handoff_of key hash ids)
  /\ fst (consumeVisualizerFocusHandoff (forgetHandoff w)) = None.
Proof.
  intros Hr Hk. unfold setVisualizerFocusHandoff. rewrite bool_decide_false by done.
  assert (Hn : forall h, readStorageHandoff (writeStorageHandoff h w.(fw_storage)) = None).
  { intros h. unfold readStorageHandoff, writeStorageHandoff. destruct (fs_writable _); cbn; by rewrite Hr. }
  unfold consumeVisualizerFocusHandoff. cbn. by rewrite Hn.
Qed.

(** The module never remembers a handoff without the timer that forgets it. *)
Inductive FocusCall :=
| FcSet (key : jstr) (hash : option jstr) (ids : option (list jstr))
| FcConsume
| FcReset
| FcTimer.
Definition focus_call (w : FocusWorld) (c : FocusCall) : FocusWorld :=
  match c with
  | FcSet key hash ids => setVisualizerFocusHandoff key hash ids w
  | FcConsume => (consumeVisualizerFocusHandoff w).2
  | FcReset => resetVisualizerFocusHandoff w
  | FcTimer => forgetHandoff w
  end.
Definition expires (w : FocusWorld) : Prop := w.(fw_timer) = false -> w.(fw_remembered) = None.

Theorem remembered_expires (calls : list FocusCall) (w : FocusWorld) :
  expires w -> expires (foldl focus_call w calls).
Proof.
  revert w. induction calls as [|c calls IH]; intros w Hw; [done|]. apply IH.
  destruct c; cbn; unfold expires, setVisualizerFocusHandoff, consumeVisualizerFocusHandoff, forgetHandoff.
  - by case_bool_decide.
  - by destruct (readStorageHandoff _).
  - done.
  - destruct (fw_timer w) eqn:E; [done|]. intros _. by apply Hw.
Qed.
End laws.

(** ** The packet found *)

(** The search by handoff finds a packet exactly when one matches, and one that matches. *)
Theorem focus_search_agrees (packets : list RawPacket) (handoff : option VisualizerFocusHandoff) :
  match findVisualizerFocusPacket packets handoff with
  | Some packet => packet ∈ packets /\ packetMatchesVisualizerFocus packet handoff = true
  | None => Forall (fun packet => packetMatchesVisualizerFocus packet handoff = false) packets
  end.
Proof.
  destruct handoff as [h|]; cbn; [|by apply Forall_true].
  destruct (array_find (observed_as h) packets) as [p|] eqn:E.
  { apply array_find_Some in E as [Hin Hp]. split; [done|]. by rewrite Hp. }
  assert (E0 := fun x => array_find_None _ _ x E). destruct (truthy (vf_packetHash h)) as [hash|]; cbn.
  - destruct (array_find (hashed_as hash) packets) as [p|] eqn:E2.
    + apply array_find_Some in E2 as [Hin Hp]. split; [done|]. rewrite Hp. by destruct (observed_as h p).
    + apply Forall_forall. intros x Hx. by rewrite (E0 x Hx), (array_find_None _ _ x E2 Hx).
  - apply Forall_forall. intros x Hx. by rewrite (E0 x Hx).
Qed.

(** Packets are told apart by their keys. *)
Lemma find_by_key (packets : list RawPacket) (packet : RawPacket) hash ids :
  NoDup (getRawPacketObservationKey <$> packets) -> packet ∈ packets ->
  findVisualizerFocusPacket packets (Some {| vf_observationKey := getRawPacketObservationKey packet;
                                             vf_packetHash := hash; vf_filterIds := ids |}) = Some packet.
Proof.
  intros Hnd Hin. cbn. rewrite (array_find_unique _ _ packet); [done|done|by apply bool_decide_eq_true|].
  intros y Hy Hp. unfold observed_as in Hp. to_prop. cbn in Hp.
  apply list_elem_of_lookup in Hy as [i Hi]. apply list_elem_of_lookup in Hin as [j Hj].
  assert (i = j) as ->; [|congruence].
  eapply (NoDup_lookup (getRawPacketObservationKey <$> packets)); [done|..]; rewrite list_lookup_fmap.
  - by rewrite Hi.
  - by rewrite Hj, Hp.
Qed.

(** ** The inspector *)

(** The view that opens for a packet of the feed selects that packet, if the store still holds it
    when the view mounts. *)
Theorem opened_packet_selected `{IdsTextLaws} (packets : list RawPacket) (packet : RawPacket) (w : FocusWorld)
    (late : bool) :
  usable w.(fw_storage) -> 0 <= packet.(rp_observation_id) ?? packet.(rp_id) ->
  NoDup (getRawPacketObservationKey <$> packets) -> packet ∈ packets ->
  let w := handleOpenVisualizer packet w in
  let v := fst (mount_inspector packets (if late then forgetHandoff w else w)) in
  v.(iv_selectedPacket) = Some packet /\ v.(iv_applied) = true.
Proof.
  intros Hu Hid Hnd Hin. unfold handleOpenVisualizer.
  assert (Hk : normalizeObservationKey (getRawPacketObservationKey packet) <> []).
  { rewrite packet_key_normal by done. unfold getRawPacketObservationKey. by destruct (rp_observation_id packet). }
  assert (Hh := focus_handed_over _ (truthy packet.(rp_packet_hash)) None w late Hu Hk). cbn zeta in Hh.
  unfold mount_inspector. destruct (consumeVisualizerFocusHandoff _) as [first w1].
  destruct (consumeVisualizerFocusHandoff w1) as [second w2]. destruct Hh as (_ & -> & _).
  unfold handoff_of. rewrite packet_key_normal, find_by_key by done. done.
Qed.

(** Without the packet at hand the inspector stays closed, until the first render that has it. *)
Theorem awaited_packet_selected (v : InspectorView) (h : VisualizerFocusHandoff) (packets : list RawPacket) (packet : RawPacket) :
  v.(iv_focusHandoff) = Some h -> v.(iv_applied) = false ->
  findVisualizerFocusPacket packets (Some h) = Some packet ->
  let v := inspector_step v (IvRender packets) in
  v.(iv_selectedPacket) = Some packet /\ v.(iv_applied) = true.
Proof. intros Hh Ha Hf. cbn. by rewrite Hh, Ha, Hf. Qed.

Definition by_user (e : InspectorEvent) : bool := match e with IvRender _ => false | _ => true end.

(** Once it has opened on the packet, renders leave the inspector as the user left it. *)
Theorem inspector_opens_once (events : list InspectorEvent) (v : InspectorView) :
  v.(iv_applied) = true ->
  inspector_run events v
  = inspector_run (filter (fun e => by_user e = true) events) v.
Proof.
  revert v. induction events as [|e events IH]; intros v Ha; [done|].
  rewrite filter_cons. destruct e as [packets|packet|]; cbn [inspector_run flip foldl] in *.
  - rewrite decide_False by done. unfold inspector_run, flip in *. cbn [foldl].
    replace (inspector_step v (IvRender packets)) with v; [by apply IH|].
    cbn. rewrite Ha. by destruct (iv_focusHandoff v).
  - rewrite decide_True by done. by apply (IH (inspector_step v (IvSelect packet))).
  - rewrite decide_True by done. by apply (IH (inspector_step v IvClose)).
Qed.
