(* ===== verification/VisualizerDirectory.v ===== *)
(** Names of the community directory for nodes of the packet network:
    [utils/visualizerDirectoryNames.ts]. The directory's answers are a finite map from prefixes,
    since the client only reads them by prefix. *)
From S2P Require Import Prelude JsString JsCollections JsNum Types Regex PathUtils Visualizer NetworkGraph.

Definition DIRECTORY_RESOLVE_HOPS_MAX : nat := 64.
Definition DIRECTORY_RESOLVE_DEBOUNCE_MS : Z := 400.

(** The kinds of node ids, with the token of those that have one. *)
Inductive DirectoryNodeLookup :=
| LkSelf
| LkNamed
| LkHop (token : jstr)
| LkPubkey (token : jstr)
| LkOther.
#[export] Instance DirectoryNodeLookup_eq_dec : EqDecision DirectoryNodeLookup.
Proof. solve_decision. Defined.

Definition is_hex_unit (c : Z) : bool := is_digit c || in_range 97 102 c.
Definition HOP_ID : regex :=
  ReSeq ReStart (ReSeq (ReLit (js "?")) (ReSeq (ReGroup 1 (RePlus (ReChar (ci is_hex_unit))))
    (ReSeq (ReOpt (ReSeq (ReLit (js ":>")) (RePlus (ReChar (ci is_hex_unit))))) ReEnd))).
Definition PUBKEY_ID : regex := ReSeq ReStart (ReSeq (ReTimes 12 (ReChar (ci is_hex_unit))) ReEnd).

Definition parseVisualizerNodeLookup (nodeId : jstr) : DirectoryNodeLookup :=
  if nodeId ≟ js "self" then LkSelf
  else if startsWith nodeId (js "name:") then LkNamed
  else match exec HOP_ID nodeId with
       | Some hopMatch => LkHop (toUpperCase (default [] (hopMatch !! 1%nat)))
       | None => if re_test PUBKEY_ID nodeId then LkPubkey (toUpperCase nodeId) else LkOther
       end.

Definition directoryPrefixesForLookup (lookup : DirectoryNodeLookup) : list jstr :=
  match lookup with
  | LkHop token =>
    if token ≟ [] then []
    else if negb (len token =? 4) && negb (len token =? 6) then [] else [token]
  | LkPubkey token => if token ≟ [] then [] else [slice token 0 6; slice token 0 4]
  | _ => []
  end.

Definition isEligibleForDirectoryName (node : PacketNetworkNode) (contacts : list Contact) : bool :=
  match truthy (node.(nd_probableIdentity) ≫= id) with
  | Some _ => false
  | None =>
    let lookup := parseVisualizerNodeLookup node.(nd_id) in
    let local token :=
      match array_find (fun candidate => toUpperCase (slice candidate.(c_public_key) 0 12) ≟ token) contacts with
      | Some contact => match truthy contact.(c_name) with Some _ => false | None => true end
      | None => true
      end in
    match lookup with
    | LkHop token =>
      if directoryPrefixesForLookup lookup ≟ [] then false
      else if len token <? MIN_NAMED_HOP_HEX_CHARS then false
      else len (findContactsByPrefix token contacts true) =? 0
    | LkPubkey token => if directoryPrefixesForLookup lookup ≟ [] then false else local token
    | _ => false
    end
  end.

(** [set.add(prefix)] on the entries of a [Set]. *)
Definition js_set_add (prefixes : list jstr) (prefix : jstr) : list jstr :=
  if bool_decide (prefix ∈ prefixes) then prefixes else prefixes ++ [prefix].

Definition collect_node (contacts : list Contact) (prefixes : list jstr) (node : PacketNetworkNode) : list jstr :=
  if isEligibleForDirectoryName node contacts
  then foldl js_set_add prefixes (directoryPrefixesForLookup (parseVisualizerNodeLookup node.(nd_id)))
  else prefixes.
Definition collectDirectoryPrefixes (nodes : list PacketNetworkNode) (contacts : list Contact) : list jstr :=
  foldl (collect_node contacts) [] nodes.

(** The loop [for (let i = 0; i < prefixes.length; i += max)]; the fuel is the length, since each
    round takes [max > 0] entries. *)
Fixpoint chunks_from (fuel max : nat) (prefixes : list jstr) : list (list jstr) :=
  match fuel, prefixes with
  | S fuel, _ :: _ => take max prefixes :: chunks_from fuel max (drop max prefixes)
  | _, _ => []
  end.
Definition chunkDirectoryPrefixes (prefixes : list jstr) (max : nat) : list (list jstr) :=
  chunks_from (length prefixes) max prefixes.

Definition normalizeDirectoryHits (resolved : list (jstr * DirectoryHopHit)) : gmap jstr DirectoryHopHit :=
  foldl (fun normalized p => <[toUpperCase p.1 := p.2]> normalized) ∅ resolved.

Definition named_hit (hit : DirectoryHopHit) : option jstr :=
  if hit.(dh_corescope) then truthy (Some hit.(dh_name)) else None.

(** The first of the prefixes whose answer carries the node's own public key. *)
Fixpoint pubkey_name (nodePrefix : jstr) (resolved : gmap jstr DirectoryHopHit) (prefixes : list jstr) : option jstr :=
  match prefixes with
  | [] => None
  | prefix :: prefixes =>
    match (hit ← resolved !! prefix; name ← named_hit hit; key ← truthy hit.(dh_public_key); Some (name, key)) with
    | Some (name, key) =>
      if startsWith (toLowerCase key) nodePrefix then Some name else pubkey_name nodePrefix resolved prefixes
    | None => pubkey_name nodePrefix resolved prefixes
    end
  end.

(** The name of the overlay, whose source is always ['community']. *)
Definition applyDirectoryName (node : PacketNetworkNode) (resolved : gmap jstr DirectoryHopHit)
    (contacts : list Contact) : option jstr :=
  if negb (isEligibleForDirectoryName node contacts) then None else
  match parseVisualizerNodeLookup node.(nd_id) with
  | LkHop token => if token ≟ [] then None else hit ← resolved !! token; named_hit hit
  | LkPubkey token =>
    if token ≟ [] then None
    else pubkey_name (toLowerCase node.(nd_id)) resolved
           (directoryPrefixesForLookup (parseVisualizerNodeLookup node.(nd_id)))
  | _ => None
  end.

Definition buildCommunityNames (nodes : list PacketNetworkNode) (resolved : gmap jstr DirectoryHopHit)
    (contacts : list Contact) : gmap jstr jstr :=
  foldl (fun names node =>
    match applyDirectoryName node resolved contacts with
    | Some communityName => <[node.(nd_id) := communityName]> names
    | None => names
    end) ∅ nodes.

Example hop_token : parseVisualizerNodeLookup (js "?aabb:>ccdd") = LkHop (js "AABB").
Proof. by vm_compute. Qed.
Example pubkey_token : parseVisualizerNodeLookup (js "aabbccddeeff") = LkPubkey (js "AABBCCDDEEFF").
Proof. by vm_compute. Qed.
Example named_node : parseVisualizerNodeLookup (js "name:bob") = LkNamed.
Proof. by vm_compute. Qed.

(** ** Properties *)

Lemma set_add_spec prefixes prefix :
  NoDup prefixes -> NoDup (js_set_add prefixes prefix) /\ forall x, x ∈ js_set_add prefixes prefix <-> x ∈ prefixes \/ x = prefix.
Proof.
  intros Hnd. unfold js_set_add. case_bool_decide as H.
  - split; [done|]. intros x. split; [by left|]. by intros [?| ->].
  - split; [by apply NoDup_snoc|]. intros x. rewrite elem_of_app, list_elem_of_singleton. done.
Qed.

Lemma set_adds_spec l prefixes :
  NoDup prefixes -> NoDup (foldl js_set_add prefixes l) /\ forall x, x ∈ foldl js_set_add prefixes l <-> x ∈ prefixes \/ x ∈ l.
Proof.
  revert prefixes. induction l as [|p l IH]; intros prefixes Hnd; cbn [foldl].
  - split; [done|]. intros x. rewrite elem_of_nil. tauto.
  - destruct (set_add_spec prefixes p Hnd) as [Hnd' Hin]. destruct (IH _ Hnd') as [Hf Hx]. split; [done|].
    intros x. rewrite Hx, Hin, elem_of_cons. tauto.
Qed.

(** The prefixes asked of the directory: each once, and exactly those of the nodes that it may name. *)
Theorem prefixes_of_eligible (nodes : list PacketNetworkNode) (contacts : list Contact) :
  NoDup (collectDirectoryPrefixes nodes contacts)
  /\ forall prefix, prefix ∈ collectDirectoryPrefixes nodes contacts
     <-> exists node, node ∈ nodes /\ isEligibleForDirectoryName node contacts = true
                      /\ prefix ∈ directoryPrefixesForLookup (parseVisualizerNodeLookup node.(nd_id)).
Proof.
  unfold collectDirectoryPrefixes.
  assert (H : forall acc, NoDup acc ->
    NoDup (foldl (collect_node contacts) acc nodes) /\ forall prefix, prefix ∈ foldl (collect_node contacts) acc nodes
      <-> prefix ∈ acc \/ exists node, node ∈ nodes /\ isEligibleForDirectoryName node contacts = true
                      /\ prefix ∈ directoryPrefixesForLookup (parseVisualizerNodeLookup node.(nd_id))).
  { induction nodes as [|n nodes IH]; intros acc Hnd; cbn [foldl].
    - split; [done|]. intros p. split; [by left|]. intros [?|(? & ?%elem_of_nil & _)]; done.
    - unfold collect_node at 2 4. destruct (isEligibleForDirectoryName n contacts) eqn:E.
      + destruct (set_adds_spec (directoryPrefixesForLookup (parseVisualizerNodeLookup n.(nd_id))) acc Hnd) as [Hnd' Hin].
        destruct (IH _ Hnd') as [Hf Hx]. split; [done|]. intros p. rewrite Hx, Hin. split.
        * intros [[?|?]|(x & ? & ?)]; [by left|right..]; [exists n|exists x]; split; try done; [by left|by right].
        * intros [?|(x & [->|?]%elem_of_cons & ? & ?)]; [by left; left|by left; right|right; by exists x].
      + destruct (IH _ Hnd) as [Hf Hx]. split; [done|]. intros p. rewrite Hx. split.
        * intros [?|(x & ? & ?)]; [by left|right; exists x]. split; [by right|done].
        * intros [?|(x & [->|?]%elem_of_cons & ? & ?)]; [by left|congruence|right; by exists x]. }
  destruct (H [] (NoDup_nil_2)) as [Hnd Hin]. split; [done|]. intros p. rewrite Hin, elem_of_nil. tauto.
Qed.

Lemma chunks_from_spec fuel max prefixes :
  (0 < max)%nat -> (length prefixes <= fuel)%nat ->
  concat (chunks_from fuel max prefixes) = prefixes
  /\ Forall (fun c => (0 < length c <= max)%nat) (chunks_from fuel max prefixes).
Proof.
  intros Hmax. revert prefixes. induction fuel as [|fuel IH]; intros [|x l] Hl; cbn [chunks_from concat]; [done|cbn in Hl; lia|done|].
  destruct (IH (drop max (x :: l))) as [Hc Hf]; [rewrite length_drop; cbn in *; lia|]. rewrite Hc, take_drop. split; [done|].
  constructor; [|done]. rewrite length_take. cbn [length]. lia.
Qed.

(** The chunks are the prefixes in their order, none empty and none longer than the limit. *)
Theorem chunks_partition (prefixes : list jstr) (max : nat) :
  (0 < max)%nat ->
  concat (chunkDirectoryPrefixes prefixes max) = prefixes
  /\ Forall (fun c => (0 < length c <= max)%nat) (chunkDirectoryPrefixes prefixes max).
Proof. intros Hmax. by apply chunks_from_spec. Qed.

Lemma pubkey_name_own nodePrefix resolved prefixes name :
  pubkey_name nodePrefix resolved prefixes = Some name ->
  exists prefix hit key, prefix ∈ prefixes /\ resolved !! prefix = Some hit /\ hit.(dh_name) = name
    /\ hit.(dh_public_key) = Some key /\ nodePrefix `prefix_of` toLowerCase key.
Proof.
  induction prefixes as [|p prefixes IH]; cbn [pubkey_name]; [done|].
  assert (Hnext : pubkey_name nodePrefix resolved prefixes = Some name ->
    exists prefix hit key, prefix ∈ p :: prefixes /\ resolved !! prefix = Some hit /\ hit.(dh_name) = name
      /\ hit.(dh_public_key) = Some key /\ nodePrefix `prefix_of` toLowerCase key).
  { intros Hn. destruct (IH Hn) as (q & hit & key & ? & ?). exists q, hit, key. split; [by right|done]. }
  destruct (resolved !! p) as [hit|] eqn:Er; cbn; [|done].
  destruct (named_hit hit) as [n|] eqn:En; cbn; [|done].
  destruct (truthy (dh_public_key hit)) as [key|] eqn:Ek; cbn; [|done].
  destruct (startsWith (toLowerCase key) nodePrefix) eqn:Es; [|done]. intros [= ->].
  exists p, hit, key. split; [by left|]. split; [done|]. split.
  - unfold named_hit in En. destruct (dh_corescope hit); [|done]. destruct (dh_name hit); [done|]. by injection En.
  - split; [by destruct (dh_public_key hit) as [[|? ?]|]; simplify_eq/=|by apply startsWith_spec].
Qed.

(** A node that stands for a public key only takes the name the directory gives that key: the
    12 digits of its id open the key of the answer, whatever other answer shares the prefix. *)
Theorem pubkey_named_by_own_key (node : PacketNetworkNode) (resolved : gmap jstr DirectoryHopHit)
    (contacts : list Contact) (token name : jstr) :
  parseVisualizerNodeLookup node.(nd_id) = LkPubkey token ->
  applyDirectoryName node resolved contacts = Some name ->
  exists prefix hit key, resolved !! prefix = Some hit /\ hit.(dh_name) = name
    /\ hit.(dh_public_key) = Some key /\ toLowerCase node.(nd_id) `prefix_of` toLowerCase key.
Proof.
  intros Hl. unfold applyDirectoryName. destruct (negb _); [done|]. rewrite Hl.
  destruct (token ≟ []); [done|]. intros (prefix & hit & key & _ & ?)%pubkey_name_own. by exists prefix, hit, key.
Qed.
