(* ===== verification/VisualizerData.v ===== *)
(** The data of the packet visualizer: [components/visualizer/useVisualizerData3D.ts], without the
    force simulation that places the nodes and the animation that stretches it.

    The hook's refs and states are one record. [vd_live] are the timers the browser holds, with the
    packet each publishes and when it is due; [vd_timers] is the hook's own map of them. The refs
    that repeat a prop are that prop. A prop compared by reference carries a version, which changes
    when a new object comes. [vd_asked] lists the requests sent to the directory.

    [node_order] is the order in which a [Map] lists its nodes, which the network does not keep. *)
From S2P Require Import Prelude JsString JsCollections JsNum Types PathUtils RawPacketStats Visualizer NetworkGraph VisualizerFocus VisualizerDirectory.

Record Versioned (A : Type) := { vr_version : Z; vr_value : A }.
Arguments vr_version {A}. Arguments vr_value {A}. Arguments Build_Versioned {A}.
Definition same_ref {A} (a b : Versioned A) : bool := a.(vr_version) =? b.(vr_version).

Record DataProps := {
  vp_packets : Versioned (list RawPacket);
  vp_contacts : Versioned (list Contact);
  vp_config : Versioned (option RadioConfig);
  vp_repeaterAdvertPaths : Versioned (list ContactAdvertPathSummary);
  vp_visibility : VisibilityOptions;
  vp_useAdvertPathHints : bool;
  vp_splitAmbiguousByTraffic : bool;
  vp_particleSpeedMultiplier : num;
  vp_observationWindowSec : Z;
  vp_pruneStaleNodes : bool;
  vp_pruneStaleMinutes : Z;
  vp_directoryEnabled : bool;
  vp_focusHandoff : option VisualizerFocusHandoff;
}.

#[export] Instance DataProps_eta : Eta DataProps := fun p =>
  Build_DataProps p.(vp_packets) p.(vp_contacts) p.(vp_config) p.(vp_repeaterAdvertPaths) p.(vp_visibility)
    p.(vp_useAdvertPathHints) p.(vp_splitAmbiguousByTraffic) p.(vp_particleSpeedMultiplier) p.(vp_observationWindowSec)
    p.(vp_pruneStaleNodes) p.(vp_pruneStaleMinutes) p.(vp_directoryEnabled) p.(vp_focusHandoff).

(** ** Particles *)

Definition PARTICLE_SPEED : num := num_dec 8 3.

Definition particle_color (label : jstr) : jstr :=
  if label ≟ js "AD" then js "#f59e0b"
  else if label ≟ js "GT" then js "#06b6d4"
  else if label ≟ js "DM" then js "#8b5cf6"
  else if label ≟ js "ACK" then js "#22c55e"
  else if label ≟ js "TR" then js "#f97316"
  else if label ≟ js "RQ" then js "#ec4899"
  else if label ≟ js "RS" then js "#14b8a6"
  else js "#6b7280".

Record Particle := {
  pt_linkKey : jstr;
  pt_progress : Z;
  pt_speed : num;
  pt_color : jstr;
  pt_label : jstr;
  pt_fromNodeId : jstr;
  pt_toNodeId : jstr;
}.

Record ObservedPath := { op_nodes : list jstr; op_snr : option num; op_timestamp : Z }.

Record PendingPacket := {
  pk_key : jstr;
  pk_label : jstr;
  pk_paths : list ObservedPath;
  pk_firstSeen : Z;
  pk_expiresAt : Z;
}.
#[export] Instance PendingPacket_eta : Eta PendingPacket := fun p =>
  Build_PendingPacket p.(pk_key) p.(pk_label) p.(pk_paths) p.(pk_firstSeen) p.(pk_expiresAt).

(** ** Nodes and links as drawn; their coordinates belong to the simulation *)

Record GraphNode := {
  gn_id : jstr;
  gn_name : option jstr;
  gn_type : NodeType;
  gn_isAmbiguous : bool;
  gn_lastActivity : Z;
  gn_lastActivityReason : option jstr;
  gn_lastSeen : option (option Z);
  gn_probableIdentity : option (option jstr);
  gn_ambiguousNames : option (list jstr);
  gn_communityName : option jstr;
}.
#[export] Instance GraphNode_eta : Eta GraphNode := fun n =>
  Build_GraphNode n.(gn_id) n.(gn_name) n.(gn_type) n.(gn_isAmbiguous) n.(gn_lastActivity) n.(gn_lastActivityReason)
    n.(gn_lastSeen) n.(gn_probableIdentity) n.(gn_ambiguousNames) n.(gn_communityName).

Record GraphLink := {
  gl_source : jstr;
  gl_target : jstr;
  gl_lastActivity : Z;
  gl_hasDirectObservation : bool;
  gl_hasHiddenIntermediate : bool;
  gl_hiddenHopLabels : list jstr;
}.

Definition buildInitialRenderNode (node : PacketNetworkNode) : GraphNode :=
  {| gn_id := node.(nd_id); gn_name := node.(nd_name); gn_type := node.(nd_type);
     gn_isAmbiguous := node.(nd_isAmbiguous); gn_lastActivity := node.(nd_lastActivity);
     gn_lastActivityReason := node.(nd_lastActivityReason); gn_lastSeen := node.(nd_lastSeen);
     gn_probableIdentity := node.(nd_probableIdentity); gn_ambiguousNames := node.(nd_ambiguousNames);
     gn_communityName := None |}.

Definition upsertRenderNode (node : PacketNetworkNode) (existing : option GraphNode) : GraphNode :=
  match existing with
  | None => buildInitialRenderNode node
  | Some existing =>
    {| gn_id := existing.(gn_id); gn_name := node.(nd_name); gn_type := node.(nd_type);
       gn_isAmbiguous := node.(nd_isAmbiguous); gn_lastActivity := node.(nd_lastActivity);
       gn_lastActivityReason := node.(nd_lastActivityReason); gn_lastSeen := node.(nd_lastSeen);
       gn_probableIdentity := node.(nd_probableIdentity); gn_ambiguousNames := node.(nd_ambiguousNames);
       gn_communityName := existing.(gn_communityName) |}
  end.

(** ** The hook *)

Record DataStats := { vs_processed : Z; vs_animated : Z; vs_nodes : Z; vs_links : Z }.
#[export] Instance DataStats_eta : Eta DataStats :=
  fun s => Build_DataStats s.(vs_processed) s.(vs_animated) s.(vs_nodes) s.(vs_links).

Record FocusHighlight := { fh_observationKey : option jstr; fh_nodeIds : list jstr; fh_linkKeys : list jstr }.
Definition no_highlight : FocusHighlight := {| fh_observationKey := None; fh_nodeIds := []; fh_linkKeys := [] |}.

(** A loop over the chunks of one flush: the chunk under way and those after it. *)
Record DirectoryResolve := { dr_chunks : list (list jstr); dr_merged : gmap jstr DirectoryHopHit }.

Record VisualizerData := {
  vd_props : DataProps;
  vd_network : PacketNetworkState;
  vd_nodes : gmap jstr GraphNode;
  vd_links : gmap jstr GraphLink;
  vd_particles : list Particle;
  vd_processed : list jstr;
  vd_observationPaths : gmap jstr (list jstr);
  vd_pending : list (jstr * PendingPacket);
  vd_timers : gmap jstr nat;
  vd_live : gmap nat (jstr * Z);
  vd_nextTimer : nat;
  vd_requested : gset jstr;
  vd_pendingPrefixes : list jstr;
  vd_flushTimer : option Z;
  vd_resolves : gmap nat DirectoryResolve;
  vd_nextResolve : nat;
  vd_asked : list (list jstr);
  vd_directoryHits : gmap jstr DirectoryHopHit;
  vd_communityNames : gmap jstr jstr;
  vd_stats : DataStats;
  vd_highlight : FocusHighlight;
  vd_mounted : bool;
}.
#[export] Instance VisualizerData_eta : Eta VisualizerData := fun s =>
  Build_VisualizerData s.(vd_props) s.(vd_network) s.(vd_nodes) s.(vd_links) s.(vd_particles) s.(vd_processed)
    s.(vd_observationPaths) s.(vd_pending) s.(vd_timers) s.(vd_live) s.(vd_nextTimer) s.(vd_requested)
    s.(vd_pendingPrefixes) s.(vd_flushTimer) s.(vd_resolves) s.(vd_nextResolve) s.(vd_asked) s.(vd_directoryHits)
    s.(vd_communityNames) s.(vd_stats) s.(vd_highlight) s.(vd_mounted).

Definition config_name (p : DataProps) : option jstr := rc_name <$> p.(vp_config).(vr_value).
(** [config?.name || 'Me'] *)
Definition self_name (p : DataProps) : jstr := truthy (config_name p) ?? js "Me".

Definition packetNetworkContext (p : DataProps) : PacketNetworkContext :=
  buildPacketNetworkContext p.(vp_config).(vr_value) p.(vp_contacts).(vr_value) p.(vp_repeaterAdvertPaths).(vr_value)
    p.(vp_splitAmbiguousByTraffic) p.(vp_useAdvertPathHints).

(** *** Timers *)

Definition stop_packet_timer (id : option nat) (s : VisualizerData) : VisualizerData :=
  match id with Some id => s <| vd_live := delete id s.(vd_live) |> | None => s end.

Definition set_timer (packetKey : jstr) (due : Z) (s : VisualizerData) : VisualizerData :=
  ((s <| vd_timers := <[packetKey := s.(vd_nextTimer)]> s.(vd_timers) |>)
     <| vd_live := <[s.(vd_nextTimer) := (packetKey, due)]> s.(vd_live) |>)
     <| vd_nextTimer := S s.(vd_nextTimer) |>.

Definition clear_all_timers (s : VisualizerData) : VisualizerData :=
  (s <| vd_live := filter (fun p => p.1 ∉ (map_to_list s.(vd_timers)).*2) s.(vd_live) |>)
    <| vd_timers := ∅ |>.

(** *** Publishing a packet *)

Definition path_particle (speed : num) (label : jstr) (p : nat * (jstr * jstr)) : Particle :=
  {| pt_linkKey := buildLinkKey p.2.1 p.2.2; pt_progress := - Z.of_nat p.1;
     pt_speed := num_mul PARTICLE_SPEED speed; pt_color := particle_color label; pt_label := label;
     pt_fromNodeId := p.2.1; pt_toNodeId := p.2.2 |}.

Definition path_particles (speed : num) (label : jstr) (path : ObservedPath) : list Particle :=
  let dedupedPath := dedupeConsecutive path.(op_nodes) in
  if len dedupedPath <? 2 then [] else path_particle speed label <$> index_list (path_edges dedupedPath).

Definition publishPacket (hidden : bool) (packetKey : jstr) (s : VisualizerData) : VisualizerData :=
  match om_get s.(vd_pending) packetKey with
  | None => s
  | Some pending =>
    let s := (s <| vd_pending := om_delete s.(vd_pending) packetKey |>)
               <| vd_timers := delete packetKey s.(vd_timers) |> in
    if hidden then s else
    s <| vd_particles := s.(vd_particles) ++
           (pending.(pk_paths) ≫= path_particles s.(vd_props).(vp_particleSpeedMultiplier) pending.(pk_label)) |>
  end.

Definition fire_timer (hidden : bool) (id : nat) (s : VisualizerData) : VisualizerData :=
  match s.(vd_live) !! id with
  | Some (packetKey, _) => publishPacket hidden packetKey (s <| vd_live := delete id s.(vd_live) |>)
  | None => s
  end.

(** *** Names from the directory *)

Section hook.
Context `{MeshDecoder} (localeCompare : jstr -> jstr -> comparison)
  (node_order : gmap jstr PacketNetworkNode -> list PacketNetworkNode).

Definition send_chunk (s : VisualizerData) (r : DirectoryResolve) : VisualizerData :=
  match r.(dr_chunks) with
  | chunk :: _ => s <| vd_asked := s.(vd_asked) ++ [chunk] |>
  | [] => s
  end.

Definition flushPendingDirectoryPrefixes (s : VisualizerData) : VisualizerData :=
  let s := s <| vd_flushTimer := None |> in
  let prefixes := s.(vd_pendingPrefixes) in
  let s := s <| vd_pendingPrefixes := [] |> in
  if negb s.(vd_props).(vp_directoryEnabled) then s else
  if prefixes ≟ [] then s else
  let s := s <| vd_requested := s.(vd_requested) ∪ list_to_set prefixes |> in
  let resolve := {| dr_chunks := chunkDirectoryPrefixes prefixes DIRECTORY_RESOLVE_HOPS_MAX; dr_merged := ∅ |} in
  let s := (s <| vd_resolves := <[s.(vd_nextResolve) := resolve]> s.(vd_resolves) |>)
             <| vd_nextResolve := S s.(vd_nextResolve) |> in
  send_chunk s resolve.

Definition scheduleDirectoryResolve (now : Z) (s : VisualizerData) : VisualizerData :=
  if negb s.(vd_props).(vp_directoryEnabled) then s else
  let prefixes :=
    filter (fun prefix => prefix ∉ s.(vd_requested) /\ prefix ∉ s.(vd_pendingPrefixes))
      (collectDirectoryPrefixes (node_order s.(vd_network).(ns_nodes)) s.(vd_props).(vp_contacts).(vr_value)) in
  if prefixes ≟ [] then s else
  let s := s <| vd_pendingPrefixes := foldl js_set_add s.(vd_pendingPrefixes) prefixes |> in
  match s.(vd_flushTimer) with
  | Some _ => s
  | None => s <| vd_flushTimer := Some (now + DIRECTORY_RESOLVE_DEBOUNCE_MS) |>
  end.

(** *** Drawing the network *)

Definition syncSimulation (s : VisualizerData) : VisualizerData :=
  s <| vd_stats := (s.(vd_stats) <| vs_nodes := Z.of_nat (size s.(vd_nodes)) |>)
                     <| vs_links := Z.of_nat (size s.(vd_links)) |> |>.

Definition render_node (s : VisualizerData) (nodeId : jstr) (node : PacketNetworkNode) : GraphNode :=
  let overlay :=
    if s.(vd_props).(vp_directoryEnabled)
    then applyDirectoryName node s.(vd_directoryHits) s.(vd_props).(vp_contacts).(vr_value) else None in
  (upsertRenderNode node (s.(vd_nodes) !! nodeId)) <| gn_communityName := overlay |>.

Definition render_link (link : ProjectedLink) : GraphLink :=
  {| gl_source := link.(pl_sourceId); gl_target := link.(pl_targetId); gl_lastActivity := link.(pl_lastActivity);
     gl_hasDirectObservation := link.(pl_hasDirectObservation);
     gl_hasHiddenIntermediate := link.(pl_hasHiddenIntermediate);
     gl_hiddenHopLabels := link.(pl_hiddenHopLabels) |}.

Definition rebuildRenderProjection (now : Z) (s : VisualizerData) : VisualizerData :=
  let projection := projectPacketNetwork s.(vd_network) s.(vd_props).(vp_visibility) in
  let nextCommunityNames :=
    if s.(vd_props).(vp_directoryEnabled)
    then buildCommunityNames (node_order s.(vd_network).(ns_nodes)) s.(vd_directoryHits)
           s.(vd_props).(vp_contacts).(vr_value)
    else ∅ in
  let nextNodes := map_imap (fun nodeId node => Some (render_node s nodeId node)) projection.(pn_nodes) in
  let s := (s <| vd_nodes := nextNodes |>) <| vd_links := render_link <$> projection.(pn_links) |> in
  scheduleDirectoryResolve now (syncSimulation (s <| vd_communityNames := nextCommunityNames |>)).

Definition draw_self (s : VisualizerData) (existing : option GraphNode) : VisualizerData :=
  match s.(vd_network).(ns_nodes) !! self_id with
  | Some selfNode => s <| vd_nodes := <[self_id := upsertRenderNode selfNode existing]> s.(vd_nodes) |>
  | None => s
  end.

(** *** The effects, in their order *)

Definition self_effect (now : Z) (s : VisualizerData) : VisualizerData :=
  let s := s <| vd_network := ensureSelfNode now s.(vd_network) (self_name s.(vd_props)) |> in
  syncSimulation (draw_self s (s.(vd_nodes) !! self_id)).

(** Everything heard is forgotten; [clearAndReset] and the effect of the settings share it. *)
Definition forget_packets (now : Z) (s : VisualizerData) : VisualizerData :=
  let s := clear_all_timers s in
  let s := ((s <| vd_processed := [] |>) <| vd_observationPaths := ∅ |>) <| vd_pending := [] |> in
  let s := (((s <| vd_network := clearPacketNetworkState now (self_name s.(vd_props)) |>)
              <| vd_nodes := ∅ |>) <| vd_links := ∅ |>) <| vd_particles := [] |> in
  let s := draw_self s None in
  (s <| vd_stats := {| vs_processed := 0; vs_animated := 0;
                       vs_nodes := match s.(vd_network).(ns_nodes) !! self_id with Some _ => 1 | None => 0 end;
                       vs_links := 0 |} |>)
    <| vd_highlight := no_highlight |>.

Definition reset_effect (now : Z) (s : VisualizerData) : VisualizerData := syncSimulation (forget_packets now s).
Definition clearAndReset (now : Z) (s : VisualizerData) : VisualizerData := forget_packets now s.

(** *** The effect that takes packets in *)

(** The locals of the loop. *)
Record Pass := {
  pa_data : VisualizerData;
  pa_newProcessed : Z;
  pa_newAnimated : Z;
  pa_needsRebuild : bool;
  pa_focus : option FocusHighlight;
}.
#[export] Instance Pass_eta : Eta Pass := fun a =>
  Build_Pass a.(pa_data) a.(pa_newProcessed) a.(pa_newAnimated) a.(pa_needsRebuild) a.(pa_focus).

Definition path_links (nodes : list jstr) : list jstr :=
  omap (fun e => if e.1 ≟ e.2 then None else Some (buildLinkKey e.1 e.2)) (path_edges nodes).
Definition highlight_path (observationKey : jstr) (nodes : list jstr) : FocusHighlight :=
  {| fh_observationKey := Some observationKey; fh_nodeIds := nodes; fh_linkKeys := path_links nodes |}.

Definition MAX_PROCESSED : nat := 1000.
Definition KEPT_PROCESSED : nat := 500.
Definition MAX_PENDING : nat := 100.
Definition EVICTED_PENDING : nat := 50.

Definition last_n {A} (n : nat) (l : list A) : list A := drop (length l - n) l.

Definition trim_processed (processed : list jstr) : list jstr :=
  if (MAX_PROCESSED <? length processed)%nat then last_n KEPT_PROCESSED processed else processed.
Arguments trim_processed : simpl never.
Definition mark_processed (observationKey : jstr) (s : VisualizerData) : VisualizerData :=
  s <| vd_processed := trim_processed (s.(vd_processed) ++ [observationKey]) |>.

Definition evict_pending (s : VisualizerData) : VisualizerData :=
  if (MAX_PENDING <? length s.(vd_pending))%nat then
    foldl (fun s e =>
      let s := stop_packet_timer (s.(vd_timers) !! e.1) s in
      (s <| vd_timers := delete e.1 s.(vd_timers) |>) <| vd_pending := om_delete s.(vd_pending) e.1 |>)
      s (take EVICTED_PENDING (js_sort (by_key (fun e => e.2.(pk_firstSeen))) s.(vd_pending)))
  else s.

(** The packet joins the copies heard within the window, or opens a window of its own. *)
Definition add_pending (now : Z) (isFocus : bool) (packetKey label : jstr) (path : ObservedPath)
    (s : VisualizerData) : VisualizerData :=
  let open_window :=
    let s := stop_packet_timer (s.(vd_timers) !! packetKey) s in
    let windowMs := s.(vd_props).(vp_observationWindowSec) * 1000 in
    let s := s <| vd_pending := om_set s.(vd_pending) packetKey
                    {| pk_key := packetKey; pk_label := label; pk_paths := [path]; pk_firstSeen := now;
                       pk_expiresAt := now + windowMs |} |> in
    if isFocus then s else set_timer packetKey (now + windowMs) s in
  match om_get s.(vd_pending) packetKey with
  | Some existing =>
    if now <? existing.(pk_expiresAt)
    then s <| vd_pending := om_set s.(vd_pending) packetKey
                (existing <| pk_paths := existing.(pk_paths) ++ [path] |>) |>
    else open_window
  | None => open_window
  end.

Definition animate_packet (now : Z) (hidden isFocus : bool) (packet : RawPacket) (ingested : IngestResult)
    (nodes : list jstr) (s : VisualizerData) : VisualizerData :=
  let observationKey := getRawPacketObservationKey packet in
  let packetKey := generatePacketKey ingested.(ir_parsed) packet in
  let s := s <| vd_observationPaths := <[observationKey := nodes]> s.(vd_observationPaths) |> in
  let s := add_pending now isFocus packetKey ingested.(ir_label)
             {| op_nodes := nodes; op_snr := packet.(rp_snr); op_timestamp := now |} s in
  let s := if isFocus then publishPacket hidden packetKey s else s in
  evict_pending s.

Definition loop_packet (now : Z) (hidden : bool) (a : Pass) (packet : RawPacket) : Pass :=
  let s := a.(pa_data) in
  let observationKey := getRawPacketObservationKey packet in
  let isFocus := packetMatchesVisualizerFocus packet s.(vd_props).(vp_focusHandoff) in
  if bool_decide (observationKey ∈ s.(vd_processed)) then
    match s.(vd_observationPaths) !! observationKey with
    | Some storedPath =>
      if isFocus && (2 <=? len storedPath)
      then a <| pa_focus := Some (highlight_path observationKey storedPath) |> else a
    | None => a
    end
  else
    let s := mark_processed observationKey s in
    let a := a <| pa_newProcessed := a.(pa_newProcessed) + 1 |> in
    let '(ingested, network) :=
      ingestPacketIntoPacketNetwork localeCompare now s.(vd_network) (packetNetworkContext s.(vd_props)) packet in
    let s := s <| vd_network := network |> in
    match ingested with
    | None => a <| pa_data := s |>
    | Some ingested =>
      let a := a <| pa_needsRebuild := true |> in
      let projectedPath := projectCanonicalPath s.(vd_network) ingested.(ir_canonicalPath) s.(vd_props).(vp_visibility) in
      if len projectedPath.(pj_nodes) <? 2 then a <| pa_data := s |> else
      let a := if isFocus then a <| pa_focus := Some (highlight_path observationKey projectedPath.(pj_nodes)) |> else a in
      (a <| pa_data := animate_packet now hidden isFocus packet ingested projectedPath.(pj_nodes) s |>)
        <| pa_newAnimated := a.(pa_newAnimated) + 1 |>
    end.

Definition packets_effect (now : Z) (hidden : bool) (s : VisualizerData) : VisualizerData :=
  let a := foldl (loop_packet now hidden)
             {| pa_data := s; pa_newProcessed := 0; pa_newAnimated := 0; pa_needsRebuild := false; pa_focus := None |}
             s.(vd_props).(vp_packets).(vr_value) in
  let s := a.(pa_data) in
  let s := match a.(pa_focus) with Some highlight => s <| vd_highlight := highlight |> | None => s end in
  let s := if a.(pa_needsRebuild) then rebuildRenderProjection now s else s in
  if 0 <? a.(pa_newProcessed)
  then s <| vd_stats := (s.(vd_stats) <| vs_processed := s.(vd_stats).(vs_processed) + a.(pa_newProcessed) |>)
                          <| vs_animated := s.(vd_stats).(vs_animated) + a.(pa_newAnimated) |> |>
  else s.

(** *** Renders *)

Definition visibility_eqb (a b : VisibilityOptions) : bool :=
  Bool.eqb a.(vo_showAmbiguousNodes) b.(vo_showAmbiguousNodes)
  && Bool.eqb a.(vo_showAmbiguousPaths) b.(vo_showAmbiguousPaths)
  && Bool.eqb a.(vo_collapseLikelyKnownSiblingRepeaters) b.(vo_collapseLikelyKnownSiblingRepeaters).

(** Whether the dependencies of each effect are those of the last render. *)
Definition same_self (p q : DataProps) : bool := config_name p ≟ config_name q.
Definition same_reset (p q : DataProps) : bool :=
  same_self p q && Bool.eqb p.(vp_splitAmbiguousByTraffic) q.(vp_splitAmbiguousByTraffic)
  && Bool.eqb p.(vp_useAdvertPathHints) q.(vp_useAdvertPathHints).
Definition same_projection (p q : DataProps) : bool :=
  visibility_eqb p.(vp_visibility) q.(vp_visibility) && same_ref p.(vp_contacts) q.(vp_contacts)
  && Bool.eqb p.(vp_directoryEnabled) q.(vp_directoryEnabled).
Definition same_context (p q : DataProps) : bool :=
  same_ref p.(vp_contacts) q.(vp_contacts) && same_ref p.(vp_config) q.(vp_config)
  && same_ref p.(vp_repeaterAdvertPaths) q.(vp_repeaterAdvertPaths)
  && Bool.eqb p.(vp_splitAmbiguousByTraffic) q.(vp_splitAmbiguousByTraffic)
  && Bool.eqb p.(vp_useAdvertPathHints) q.(vp_useAdvertPathHints).
Definition same_packets (p q : DataProps) : bool :=
  same_ref p.(vp_packets) q.(vp_packets) && same_context p q && (p.(vp_focusHandoff) ≟ q.(vp_focusHandoff)).

(** The effects after a render; [hits] when the directory's answers are new. *)
Definition visualizer_effects (now : Z) (hidden hits : bool) (p : DataProps) (s : VisualizerData) : VisualizerData :=
  let q := s.(vd_props) in
  let s := if same_self p q then s else self_effect now s in
  let s := if same_reset p q then s else reset_effect now s in
  let project := hits || negb (same_projection p q) in
  let s := if project then rebuildRenderProjection now s else s in
  if project || negb (same_packets p q) then packets_effect now hidden s else s.

Definition visualizer_render (now : Z) (hidden : bool) (q : DataProps) (s : VisualizerData) : VisualizerData :=
  visualizer_effects now hidden false s.(vd_props) (s <| vd_props := q |>).

Definition initial_data (now : Z) (p : DataProps) : VisualizerData :=
  {| vd_props := p; vd_network := createPacketNetworkState now (self_name p); vd_nodes := ∅; vd_links := ∅;
     vd_particles := []; vd_processed := []; vd_observationPaths := ∅; vd_pending := []; vd_timers := ∅;
     vd_live := ∅; vd_nextTimer := 0; vd_requested := ∅; vd_pendingPrefixes := []; vd_flushTimer := None;
     vd_resolves := ∅; vd_nextResolve := 0; vd_asked := []; vd_directoryHits := ∅; vd_communityNames := ∅;
     vd_stats := {| vs_processed := 0; vs_animated := 0; vs_nodes := 0; vs_links := 0 |};
     vd_highlight := no_highlight; vd_mounted := true |}.

(** The first render runs every effect. *)
Definition visualizer_mount (now : Z) (hidden : bool) (p : DataProps) : VisualizerData :=
  packets_effect now hidden (rebuildRenderProjection now (reset_effect now (self_effect now (initial_data now p)))).

Definition unmount_visualizer (s : VisualizerData) : VisualizerData :=
  ((clear_all_timers (s <| vd_flushTimer := None |>)) <| vd_pending := [] |>) <| vd_mounted := false |>.

(** An answer of the directory, [None] when the request failed: the loop goes on to its next chunk,
    and after the last one sets the answers, which renders. *)
Definition directory_reply (now : Z) (hidden : bool) (id : nat) (reply : option (list (jstr * DirectoryHopHit)))
    (s : VisualizerData) : VisualizerData :=
  match s.(vd_resolves) !! id with
  | None => s
  | Some r =>
    let merged := match reply with
                  | Some resolved => normalizeDirectoryHits resolved ∪ r.(dr_merged)
                  | None => r.(dr_merged)
                  end in
    match tail r.(dr_chunks) with
    | [] =>
      let s := s <| vd_resolves := delete id s.(vd_resolves) |> in
      if (merged ≟ ∅) || negb s.(vd_mounted) then s else
      let s := s <| vd_directoryHits := merged ∪ s.(vd_directoryHits) |> in
      visualizer_effects now hidden true s.(vd_props) s
    | chunks =>
      let r := {| dr_chunks := chunks; dr_merged := merged |} in
      send_chunk (s <| vd_resolves := <[id := r]> s.(vd_resolves) |>) r
    end
  end.

Definition prune_tick (now : Z) (s : VisualizerData) : VisualizerData :=
  if negb s.(vd_props).(vp_pruneStaleNodes) then s else
  let '(pruned, network) :=
    prunePacketNetworkState s.(vd_network) (now - s.(vd_props).(vp_pruneStaleMinutes) * 60 * 1000) in
  let s := s <| vd_network := network |> in
  if pruned then rebuildRenderProjection now s else s.

Inductive VisualizerEvent :=
| VeRender (now : Z) (hidden : bool) (p : DataProps)
| VeTimer (hidden : bool) (id : nat)
| VeFlush
| VeReply (now : Z) (hidden : bool) (id : nat) (reply : option (list (jstr * DirectoryHopHit)))
| VePrune (now : Z)
| VeClear (now : Z)
| VeUnmount.

Definition visualizer_step (s : VisualizerData) (e : VisualizerEvent) : VisualizerData :=
  match e with
  | VeTimer hidden id => fire_timer hidden id s
  | VeReply now hidden id reply => directory_reply now hidden id reply s
  | _ =>
    if negb s.(vd_mounted) then s else
    match e with
    | VeRender now hidden p => visualizer_render now hidden p s
    | VeFlush => match s.(vd_flushTimer) with Some _ => flushPendingDirectoryPrefixes s | None => s end
    | VePrune now => prune_tick now s
    | VeClear now => clearAndReset now s
    | _ => unmount_visualizer s
    end
  end.
Definition visualizer_run : list VisualizerEvent -> VisualizerData -> VisualizerData := flip (foldl visualizer_step).
End hook.
