(* ===== verification/VisualizerDataProps.v ===== *)
(** What the data of the visualizer keeps true: its bounds, the timers of the packets that wait,
    the particles, and the network as the fold of the packets heard. *)
From S2P Require Import Prelude JsString JsCollections JsNum Types PathUtils RawPacketStats Visualizer VisualizerProps NetworkGraph VisualizerFocus VisualizerDirectory VisualizerData.

(** A packet that waits has a live timer that publishes it no later than its window ends. *)
Definition timed (s : VisualizerData) (packetKey : jstr) (p : PendingPacket) : Prop :=
  exists id due, s.(vd_timers) !! packetKey = Some id /\ s.(vd_live) !! id = Some (packetKey, due)
                 /\ due <= p.(pk_expiresAt).

(** A particle goes from one node to another along their link. *)
Definition particle_ok (p : Particle) : Prop :=
  p.(pt_fromNodeId) <> p.(pt_toNodeId) /\ p.(pt_linkKey) = buildLinkKey p.(pt_fromNodeId) p.(pt_toNodeId).

(** The timers; [except] is a packet on its way out. *)
Record timers_ok (except : option jstr) (s : VisualizerData) : Prop := {
  to_wf : om_wf s.(vd_pending);
  to_timed packetKey p : Some packetKey <> except -> om_get s.(vd_pending) packetKey = Some p -> timed s packetKey p;
  to_own packetKey id k due : s.(vd_timers) !! packetKey = Some id -> s.(vd_live) !! id = Some (k, due) -> k = packetKey;
  to_fresh id : (s.(vd_nextTimer) <= id)%nat -> s.(vd_live) !! id = None /\ forall k, s.(vd_timers) !! k <> Some id;
}.

Record visualizer_ok (s : VisualizerData) : Prop := {
  dk_timers : timers_ok None s;
  dk_pending : (length s.(vd_pending) <= MAX_PENDING)%nat;
  dk_processed : (length s.(vd_processed) <= MAX_PROCESSED)%nat;
  dk_processed_nodup : NoDup s.(vd_processed);
  dk_particles : Forall particle_ok s.(vd_particles);
}.

(** ** Operations on the timers *)

Lemma timers_ok_same e s s' :
  s'.(vd_pending) = s.(vd_pending) -> s'.(vd_timers) = s.(vd_timers) -> s'.(vd_live) = s.(vd_live) ->
  s'.(vd_nextTimer) = s.(vd_nextTimer) -> timers_ok e s -> timers_ok e s'.
Proof.
  intros Hp Ht Hl Hn [Hwf Htd Ho Hf]. split.
  - by rewrite Hp.
  - intros k p Hk. rewrite Hp. intros Hg. destruct (Htd k p Hk Hg) as (id & due & ?). exists id, due. by rewrite Ht, Hl.
  - rewrite Ht, Hl. exact Ho.
  - intros id. rewrite Hn, Hl, Ht. apply Hf.
Qed.

(** Stopping a packet's timer, when the packet is on its way out. *)
Lemma stop_packet_timer_ok packetKey s :
  timers_ok None s -> timers_ok (Some packetKey) (stop_packet_timer (s.(vd_timers) !! packetKey) s).
Proof.
  intros [Hwf Htd Ho Hf]. destruct (vd_timers s !! packetKey) as [id|] eqn:Eid; cbn.
  - split; cbn; [done|..].
    + intros k p Hk Hg. destruct (Htd k p ltac:(done) Hg) as (i & due & Hi & Hl & Hd). exists i, due. cbn.
      rewrite lookup_delete_ne; [done|]. intros ->. apply Hk. f_equal. by rewrite (Ho _ _ _ _ Eid Hl).
    + intros k i k' d Hi. rewrite lookup_delete_Some. intros [_ Hl]. by apply (Ho k i k' d).
    + intros i Hi. rewrite lookup_delete_None. destruct (Hf i Hi). tauto.
  - split; try done. intros k p _. by apply Htd.
Qed.

(** A packet leaves, with its entry among the timers. *)
Lemma drop_pending_ok packetKey s :
  timers_ok (Some packetKey) s ->
  timers_ok None ((s <| vd_pending := om_delete s.(vd_pending) packetKey |>)
                    <| vd_timers := delete packetKey s.(vd_timers) |>).
Proof.
  intros [Hwf Htd Ho Hf]. split; cbn.
  - by apply om_wf_delete.
  - intros k p _. destruct (decide (k = packetKey)) as [->|Hk]; [by rewrite om_get_delete_eq|].
    rewrite om_get_delete_ne by done. intros Hg. destruct (Htd k p ltac:(congruence) Hg) as (i & due & ?).
    exists i, due. cbn. by rewrite lookup_delete_ne by done.
  - intros k i k' d. rewrite lookup_delete_Some. intros [_ Hk]. by apply Ho.
  - intros i Hi. destruct (Hf i Hi) as [Hl Ht]. split; [done|]. intros k. rewrite lookup_delete_Some. intros [_ ?]. by eapply Ht.
Qed.

Lemma timers_ok_weaken k s : timers_ok None s -> timers_ok (Some k) s.
Proof. intros [Hwf Htd Ho Hf]. split; [done| |done|done]. intros k' p _. by apply Htd. Qed.

Lemma publish_timers k hidden s : timers_ok (Some k) s -> is_Some (om_get s.(vd_pending) k) -> timers_ok None (publishPacket hidden k s).
Proof.
  intros Hok [p Hp]. unfold publishPacket. rewrite Hp. apply drop_pending_ok in Hok.
  destruct hidden; [done|]. by eapply timers_ok_same; [..|exact Hok].
Qed.

Lemma publish_timers_ok k hidden s : timers_ok None s -> timers_ok None (publishPacket hidden k s).
Proof.
  intros Hok. destruct (om_get s.(vd_pending) k) as [p|] eqn:E.
  - apply publish_timers; [by apply timers_ok_weaken|by rewrite E].
  - unfold publishPacket. by rewrite E.
Qed.

Lemma fire_timer_ok hidden id s : timers_ok None s -> timers_ok None (fire_timer hidden id s).
Proof.
  intros Hok. unfold fire_timer. destruct (vd_live s !! id) as [[k due]|] eqn:E; [|done].
  set (s1 := s <| vd_live := delete id s.(vd_live) |>).
  assert (H1 : timers_ok (Some k) s1).
  { destruct Hok as [Hwf Htd Ho Hf]. split; cbn; [done|..].
    - intros k' p Hk Hg. destruct (Htd k' p ltac:(done) Hg) as (i & d & Hi & Hl & Hd). exists i, d. cbn.
      rewrite lookup_delete_ne; [done|]. intros <-. congruence.
    - intros k' i k2 d Hi. rewrite lookup_delete_Some. intros [_ ?]. by eapply Ho.
    - intros i Hi. rewrite lookup_delete_None. destruct (Hf i Hi). tauto. }
  destruct (om_get s1.(vd_pending) k) as [p|] eqn:Ep; [apply publish_timers; [done|by rewrite Ep]|].
  unfold publishPacket. rewrite Ep. destruct H1 as [Hwf Htd Ho Hf]. split; [done| |done|done].
  intros k' p _ Hg. apply Htd; [|done]. intros [= ->]. congruence.
Qed.

(** A window opens: the packet waits for the timer set for it. *)
Lemma set_timer_ok packetKey p due s :
  timers_ok (Some packetKey) s -> due <= p.(pk_expiresAt) ->
  timers_ok None (set_timer packetKey due (s <| vd_pending := om_set s.(vd_pending) packetKey p |>)).
Proof.
  intros [Hwf Htd Ho Hf] Hd. destruct (Hf s.(vd_nextTimer) ltac:(lia)) as [Hl Ht]. split; cbn.
  - by apply om_wf_set.
  - intros k q _. destruct (decide (k = packetKey)) as [->|Hk].
    + rewrite om_get_set_eq. intros [= <-]. exists (vd_nextTimer s), due. cbn. by rewrite !lookup_insert_eq.
    + rewrite om_get_set_ne by congruence. intros Hg. destruct (Htd k q ltac:(congruence) Hg) as (i & d & Hi & Hli & ?).
      exists i, d. cbn. rewrite lookup_insert_ne by congruence. split; [done|].
      rewrite lookup_insert_ne; [done|]. intros <-. congruence.
  - intros k i k' d. rewrite !lookup_insert_Some. intros [[-> <-]|[Hk Hi]].
    + intros [[_ [= <- <-]]|[Hn _]]; done.
    + intros [[<- _]|[_ Hli]]; [by destruct (Ht k)|by eapply Ho].
  - intros i Hi. rewrite lookup_insert_ne by lia. destruct (Hf i ltac:(lia)) as [Hli Hti]. split; [done|].
    intros k. rewrite lookup_insert_Some. intros [[_ <-]|[_ ?]]; [lia|by eapply Hti].
Qed.

(** ** Operations on the packets that wait *)

Lemma length_om_set {V} (m : list (jstr * V)) k v : (length (om_set m k v) <= S (length m))%nat.
Proof.
  induction m as [|[k' v'] m IH]; cbn; [lia|]. case_decide; cbn; lia.
Qed.

Lemma add_pending_frame now isFocus k label path s :
  (length (add_pending now isFocus k label path s).(vd_pending) <= S (length s.(vd_pending)))%nat
  /\ (add_pending now isFocus k label path s).(vd_processed) = s.(vd_processed)
  /\ (add_pending now isFocus k label path s).(vd_particles) = s.(vd_particles)
  /\ is_Some (om_get (add_pending now isFocus k label path s).(vd_pending) k).
Proof.
  assert (Hc : forall (id : option nat) s0, (stop_packet_timer id s0).(vd_pending) = s0.(vd_pending)
    /\ (stop_packet_timer id s0).(vd_processed) = s0.(vd_processed)
    /\ (stop_packet_timer id s0).(vd_particles) = s0.(vd_particles)) by by intros [?|] ?.
  unfold add_pending. destruct (om_get (vd_pending s) k) as [p|]; [destruct (now <? pk_expiresAt p)|];
    [|destruct isFocus..]; cbn; rewrite ?om_get_set_eq; rewrite ?(proj1 (Hc _ _)), ?(proj1 (proj2 (Hc _ _))), ?(proj2 (proj2 (Hc _ _)));
    (split; [apply length_om_set|done]).
Qed.

Lemma add_pending_timers now (isFocus : bool) k label path s :
  timers_ok None s ->
  timers_ok (if isFocus then Some k else None) (add_pending now isFocus k label path s).
Proof.
  intros Hok.
  assert (Hopen : forall windowMs : Z,
    let s0 := stop_packet_timer (vd_timers s !! k) s in
    let p := {| pk_key := k; pk_label := label; pk_paths := [path]; pk_firstSeen := now; pk_expiresAt := now + windowMs |} in
    let s1 := s0 <| vd_pending := om_set s0.(vd_pending) k p |> in
    timers_ok (if isFocus then Some k else None) (if isFocus then s1 else set_timer k (now + windowMs) s1)).
  { intros w s0 p s1. assert (H0 := stop_packet_timer_ok k s Hok). fold s0 in H0. destruct isFocus.
    - destruct H0 as [Hwf Htd Ho Hf]. split; cbn; [by apply om_wf_set| |done|done].
      intros k' q Hk. rewrite om_get_set_ne by congruence. by apply Htd.
    - apply set_timer_ok; [done|]. cbn. lia. }
  unfold add_pending. destruct (om_get (vd_pending s) k) as [p|] eqn:Ep; [|apply Hopen].
  destruct (now <? pk_expiresAt p); [|apply Hopen].
  assert (H1 : timers_ok None (s <| vd_pending := om_set s.(vd_pending) k (p <| pk_paths := p.(pk_paths) ++ [path] |>) |>)).
  { destruct Hok as [Hwf Htd Ho Hf]. split; cbn; [by apply om_wf_set| |done|done].
    intros k' q Hk. destruct (decide (k' = k)) as [->|Hne].
    - rewrite om_get_set_eq. intros [= <-]. by apply (Htd k p).
    - rewrite om_get_set_ne by congruence. by apply Htd. }
  destruct isFocus; [by apply timers_ok_weaken|done].
Qed.

Definition evict_one (s : VisualizerData) (e : jstr * PendingPacket) : VisualizerData :=
  let s := stop_packet_timer (s.(vd_timers) !! e.1) s in
  (s <| vd_timers := delete e.1 s.(vd_timers) |>) <| vd_pending := om_delete s.(vd_pending) e.1 |>.

Lemma evict_one_ok s e :
  timers_ok None s -> timers_ok None (evict_one s e)
  /\ (evict_one s e).(vd_pending) = om_delete s.(vd_pending) e.1
  /\ (evict_one s e).(vd_processed) = s.(vd_processed) /\ (evict_one s e).(vd_particles) = s.(vd_particles).
Proof.
  intros Hok. split.
  - eapply timers_ok_same; [..|apply (drop_pending_ok e.1), (stop_packet_timer_ok e.1), Hok]; done.
  - unfold evict_one. by destruct (vd_timers s !! e.1).
Qed.

Lemma evict_all_ok l s :
  timers_ok None s ->
  let s' := foldl evict_one s l in
  timers_ok None s' /\ s'.(vd_processed) = s.(vd_processed) /\ s'.(vd_particles) = s.(vd_particles)
  /\ s'.(vd_pending) = foldl (fun m e => om_delete m e.1) s.(vd_pending) l.
Proof.
  revert s. induction l as [|e l IH]; intros s Hok; cbn; [done|].
  destruct (evict_one_ok s e Hok) as (Hok' & Hp & Hpr & Hpa). destruct (IH _ Hok') as (? & -> & -> & ->).
  by rewrite Hpr, Hpa, Hp.
Qed.

Lemma deletions_shorter {V} (l m : list (jstr * V)) : (length (foldl (fun m e => om_delete m e.1) m l) <= length m)%nat.
Proof.
  revert m. induction l as [|e l IH]; intros m; cbn; [done|]. etrans; [apply IH|apply om_delete_length_le].
Qed.

Lemma evict_pending_ok s :
  timers_ok None s -> (length s.(vd_pending) <= S MAX_PENDING)%nat ->
  timers_ok None (evict_pending s) /\ (length (evict_pending s).(vd_pending) <= MAX_PENDING)%nat
  /\ (evict_pending s).(vd_processed) = s.(vd_processed) /\ (evict_pending s).(vd_particles) = s.(vd_particles).
Proof.
  intros Hok Hlen. unfold evict_pending. fold evict_one.
  destruct (MAX_PENDING <? length (vd_pending s))%nat eqn:E; [|by apply Nat.ltb_ge in E].
  apply Nat.ltb_lt in E. set (cmp := by_key _).
  destruct (js_sort cmp (vd_pending s)) as [|e l] eqn:Es.
  { assert (Hl := length_js_sort cmp (vd_pending s)). rewrite Es in Hl. cbn in Hl. lia. }
  change (take EVICTED_PENDING (e :: l)) with (e :: take 49 l).
  destruct (evict_all_ok (e :: take 49 l) s Hok) as (? & ? & ? & Hp). split; [done|]. split; [|done].
  rewrite Hp. cbn [foldl]. etrans; [apply deletions_shorter|].
  assert (Hin : e.1 ∈ om_keys (vd_pending s)).
  { apply list_elem_of_fmap_2. rewrite <- (js_sort_perm cmp), Es. by left. }
  assert (Hd := om_delete_length _ _ (to_wf _ _ Hok) Hin). unfold MAX_PENDING in *. cbn in *. lia.
Qed.

(** ** The packets taken in *)

(** What the invariant is about. *)
Definition publish_core (s : VisualizerData) :=
  (s.(vd_particles), s.(vd_processed), s.(vd_pending), s.(vd_timers), s.(vd_live), s.(vd_nextTimer)).

Lemma data_ok_core s s' : publish_core s' = publish_core s -> visualizer_ok s -> visualizer_ok s'.
Proof.
  unfold publish_core. intros [= Hpa Hpr Hpe Ht Hl Hn] [Ho Hle Hp Hnd Hf]. split; rewrite ?Hpa, ?Hpr, ?Hpe; try done.
  by eapply timers_ok_same; [..|exact Ho].
Qed.

Lemma path_edges_distinct (x : jstr) l :
  Forall (fun e => e.1 <> e.2) (path_edges (x :: dedupe_after x l)).
Proof.
  revert x. induction l as [|y l IH]; intros x; cbn [dedupe_after]; [constructor|].
  case_decide as Hd; [subst; apply IH|]. cbn [path_edges]. constructor; [cbn; congruence|apply IH].
Qed.

Lemma path_particles_ok speed label path : Forall particle_ok (path_particles speed label path).
Proof.
  unfold path_particles. destruct (len _ <? 2); [constructor|].
  apply Forall_fmap. unfold index_list. rewrite Forall_forall. intros [i e] Hin.
  apply list_elem_of_lookup in Hin as [j Hj]. rewrite list_lookup_imap in Hj.
  destruct (path_edges _ !! j) as [e'|] eqn:E; [|done]. injection Hj as <- <-. split; [|done]. cbn.
  assert (Hall : Forall (fun e => e.1 <> e.2) (path_edges (dedupeConsecutive (op_nodes path)))).
  { destruct (op_nodes path) as [|x l]; [constructor|apply path_edges_distinct]. }
  rewrite Forall_forall in Hall. by apply Hall, (list_elem_of_lookup_2 _ j).
Qed.

Lemma publish_particles hidden k s : Forall particle_ok s.(vd_particles) -> Forall particle_ok (publishPacket hidden k s).(vd_particles).
Proof.
  intros Hf. unfold publishPacket. destruct (om_get _ _) as [p|]; [|done]. destruct hidden; [done|]. cbn.
  apply Forall_app. split; [done|]. apply Forall_bind, Forall_true. intros. apply path_particles_ok.
Qed.

Lemma publish_frame hidden k s :
  (publishPacket hidden k s).(vd_processed) = s.(vd_processed)
  /\ (length (publishPacket hidden k s).(vd_pending) <= length s.(vd_pending))%nat.
Proof.
  unfold publishPacket. destruct (om_get _ _) as [p|]; [|done].
  destruct hidden; cbn; (split; [done|apply om_delete_length_le]).
Qed.

Lemma fire_timer_data_ok hidden id s : visualizer_ok s -> visualizer_ok (fire_timer hidden id s).
Proof.
  intros [Ho Hle Hp Hnd Hf]. assert (Ho' := fire_timer_ok hidden id s Ho). unfold fire_timer in *.
  destruct (vd_live s !! id) as [[k due]|]; [|done].
  set (s1 := s <| vd_live := delete id s.(vd_live) |>) in *.
  destruct (publish_frame hidden k s1) as [Hpr Hlen]. split; [done|..]; rewrite ?Hpr; try done.
  - etrans; [exact Hlen|done].
  - by apply publish_particles.
Qed.

Section hook.
Context `{MeshDecoder} (localeCompare : jstr -> jstr -> comparison)
  (node_order : gmap jstr PacketNetworkNode -> list PacketNetworkNode).

Lemma animate_packet_ok now hidden isFocus packet ingested nodes s :
  visualizer_ok s -> visualizer_ok (animate_packet now hidden isFocus packet ingested nodes s).
Proof.
  intros [Ho Hle Hp Hnd Hf]. unfold animate_packet.
  set (s1 := s <| vd_observationPaths := _ |>). set (path := Build_ObservedPath _ _ _). set (k := generatePacketKey _ _).
  assert (Ho1 : timers_ok None s1) by (by eapply timers_ok_same; [..|exact Ho]).
  destruct (add_pending_frame now isFocus k (ir_label ingested) path s1) as (Hl2 & Hpr2 & Hpa2 & Hk2).
  assert (Ho2 := add_pending_timers now isFocus k (ir_label ingested) path s1 Ho1).
  set (s2 := add_pending _ _ _ _ _ _) in *.
  assert (H3 : let s3 := if isFocus then publishPacket hidden k s2 else s2 in
    timers_ok None s3 /\ (length s3.(vd_pending) <= S MAX_PENDING)%nat /\ s3.(vd_processed) = s.(vd_processed)
    /\ Forall particle_ok s3.(vd_particles)).
  { assert (Hlen : (length s2.(vd_pending) <= S MAX_PENDING)%nat) by (change (vd_pending s1) with (vd_pending s) in Hl2; lia).
    assert (Hf2 : Forall particle_ok (vd_particles s2)) by (rewrite Hpa2; exact Hf).
    destruct isFocus; cbn zeta; [|done]. destruct (publish_frame hidden k s2) as [-> Hlen'].
    split; [by apply publish_timers|]. split; [lia|]. split; [done|by apply publish_particles]. }
  cbn zeta in H3. set (s3 := if isFocus then _ else s2) in *. destruct H3 as (Ho3 & Hl3 & Hpr3 & Hf3).
  destruct (evict_pending_ok s3 Ho3 Hl3) as (Ho4 & Hl4 & Hpr4 & Hpa4).
  split; [done|done|by rewrite Hpr4, Hpr3|by rewrite Hpr4, Hpr3|by rewrite Hpa4].
Qed.

Lemma trim_processed_ok l :
  NoDup l -> NoDup (trim_processed l) /\ (length (trim_processed l) <= MAX_PROCESSED)%nat.
Proof.
  intros Hn. unfold trim_processed. destruct (Nat.ltb_spec MAX_PROCESSED (length l)); [|done].
  split; [|unfold last_n; rewrite length_drop; unfold KEPT_PROCESSED, MAX_PROCESSED; lia].
  unfold last_n. rewrite <- (take_drop (length l - KEPT_PROCESSED) l) in Hn. by apply NoDup_app in Hn as (_ & _ & ?).
Qed.

Lemma mark_processed_ok k s : k ∉ s.(vd_processed) -> visualizer_ok s -> visualizer_ok (mark_processed k s).
Proof.
  intros Hk [Ho Hle Hp Hnd Hf]. unfold mark_processed.
  destruct (trim_processed_ok (vd_processed s ++ [k])) as [Hn Hl]; [by apply NoDup_snoc|].
  split; cbn; try done. by eapply timers_ok_same; [..|exact Ho].
Qed.

Lemma loop_packet_ok now hidden a packet :
  visualizer_ok a.(pa_data) -> visualizer_ok (loop_packet localeCompare now hidden a packet).(pa_data).
Proof.
  intros Hok. unfold loop_packet. case_bool_decide as Hin.
  - destruct (vd_observationPaths _ !! _); [|done]. by destruct (_ && _).
  - destruct (ingestPacketIntoPacketNetwork _ _ _ _ _) as [ingested network].
    assert (H1 : visualizer_ok ((mark_processed (getRawPacketObservationKey packet) (pa_data a)) <| vd_network := network |>)).
    { by eapply data_ok_core, mark_processed_ok. }
    destruct ingested as [ingested|]; [|done]. destruct (len _ <? 2); [done|].
    cbn [pa_data set]. by apply animate_packet_ok.
Qed.

Lemma core_schedule now s : publish_core (scheduleDirectoryResolve node_order now s) = publish_core s.
Proof.
  unfold scheduleDirectoryResolve. destruct (negb _); [done|]. cbn zeta. case_bool_decide; [done|]. cbn. by destruct (vd_flushTimer s).
Qed.

Lemma core_rebuild now s : publish_core (rebuildRenderProjection node_order now s) = publish_core s.
Proof. unfold rebuildRenderProjection. by rewrite core_schedule. Qed.

Lemma packets_effect_ok now hidden s : visualizer_ok s -> visualizer_ok (packets_effect localeCompare node_order now hidden s).
Proof.
  intros Hok. unfold packets_effect. set (a0 := Build_Pass _ _ _ _ _).
  assert (Ha : visualizer_ok (foldl (loop_packet localeCompare now hidden) a0 (vr_value (vp_packets (vd_props s)))).(pa_data)).
  { assert (H0 : visualizer_ok a0.(pa_data)) by done. revert H0. generalize a0 as a.
    induction (vr_value (vp_packets (vd_props s))) as [|p l IH]; intros a Ha; [done|]. by apply IH, loop_packet_ok. }
  set (a := foldl _ _ _) in *.
  set (s1 := match pa_focus a with Some _ => _ | None => _ end).
  assert (H1 : visualizer_ok s1) by (subst s1; destruct (pa_focus a); [by apply (data_ok_core (pa_data a))|done]).
  set (s2 := if pa_needsRebuild a then _ else _).
  assert (H2 : visualizer_ok s2) by (subst s2; destruct (pa_needsRebuild a); [by apply (data_ok_core s1); [apply core_rebuild|]|done]).
  destruct (0 <? _); [by apply (data_ok_core s2)|done].
Qed.

(** Whatever the fields of the drawing, a hook that forgot its packets has nothing left to publish. *)
Lemma emptied_ok s s' :
  visualizer_ok s -> s'.(vd_pending) = [] -> s'.(vd_timers) = ∅ -> s'.(vd_live) = (clear_all_timers s).(vd_live) ->
  s'.(vd_nextTimer) = s.(vd_nextTimer) -> s'.(vd_processed) = [] \/ s'.(vd_processed) = s.(vd_processed) ->
  s'.(vd_particles) = [] \/ s'.(vd_particles) = s.(vd_particles) -> visualizer_ok s'.
Proof.
  intros [[Hwf Htd Ho Hf] Hle Hp Hnd Hpa] Hpe Ht Hl Hn Hpr Hpt. split; rewrite ?Hpe; [split; rewrite ?Hpe| |..].
  - constructor.
  - done.
  - intros k id k' due. by rewrite Ht.
  - intros id. rewrite Hn, Hl, Ht. intros Hid. destruct (Hf id Hid) as [Hli _]. split; [|done].
    cbn. apply map_lookup_filter_None_2. by left.
  - cbn. lia.
  - destruct Hpr as [-> | ->]; [cbn; lia|done].
  - destruct Hpr as [-> | ->]; [constructor|done].
  - destruct Hpt as [-> | ->]; [constructor|done].
Qed.

Lemma core_draw_self s existing : publish_core (draw_self s existing) = publish_core s.
Proof. unfold draw_self. by destruct (_ !! self_id). Qed.

Lemma forget_packets_ok now s : visualizer_ok s -> visualizer_ok (forget_packets now s).
Proof.
  intros Hok. unfold forget_packets. cbn zeta. set (s1 := _ <| vd_particles := [] |>).
  apply (data_ok_core s1); [exact (core_draw_self s1 None)|].
  apply (emptied_ok s); try done; by left.
Qed.

Lemma core_reset now s : publish_core (reset_effect now s) = publish_core (forget_packets now s).
Proof. done. Qed.

Lemma core_self now s : publish_core (self_effect now s) = publish_core s.
Proof. unfold self_effect. exact (core_draw_self _ _). Qed.

Lemma run_effects_ok now hidden hits p s :
  visualizer_ok s -> visualizer_ok (visualizer_effects localeCompare node_order now hidden hits p s).
Proof.
  intros Hok. unfold visualizer_effects.
  set (s1 := if same_self _ _ then _ else _).
  assert (H1 : visualizer_ok s1).
  { subst s1. destruct (same_self _ _); [done|]. apply (data_ok_core s); [apply core_self|done]. }
  set (s2 := if same_reset _ _ then _ else _).
  assert (H2 : visualizer_ok s2).
  { subst s2. destruct (same_reset _ _); [done|].
    apply (data_ok_core (forget_packets now s1)); [apply core_reset|by apply forget_packets_ok]. }
  set (s3 := if hits || _ then _ else s2).
  assert (H3 : visualizer_ok s3).
  { subst s3. destruct (hits || _); [|done]. apply (data_ok_core s2); [apply core_rebuild|done]. }
  clearbody s3. case_match; [by apply packets_effect_ok|exact H3].
Qed.

Lemma visualizer_step_ok s e : visualizer_ok s -> visualizer_ok (visualizer_step localeCompare node_order s e).
Proof.
  intros Hok. unfold visualizer_step.
  destruct e as [now hidden p|hidden id| |now hidden id reply|now|now|]; try (destruct (negb _); [done|]).
  - by apply run_effects_ok, (data_ok_core s).
  - by apply fire_timer_data_ok.
  - destruct (vd_flushTimer s); [|done]. unfold flushPendingDirectoryPrefixes. cbn zeta.
    destruct (negb _); [by apply (data_ok_core s)|]. case_bool_decide; [by apply (data_ok_core s)|].
    unfold send_chunk. cbn [dr_chunks]. destruct (chunkDirectoryPrefixes _ _); by apply (data_ok_core s).
  - unfold directory_reply. destruct (vd_resolves s !! id) as [r|]; [|done]. cbn zeta.
    destruct (tail (dr_chunks r)) as [|c cs]; [|by apply (data_ok_core s)].
    destruct (_ || _); [by apply (data_ok_core s)|]. by apply run_effects_ok, (data_ok_core s).
  - unfold prune_tick. destruct (negb _); [done|]. destruct (prunePacketNetworkState _ _) as [pruned network].
    destruct pruned; [|by apply (data_ok_core s)].
    apply (data_ok_core s); [|done]. by rewrite core_rebuild.
  - by apply forget_packets_ok.
  - apply (emptied_ok s); try done; by right.
Qed.

Lemma visualizer_mount_ok now hidden p : visualizer_ok (visualizer_mount localeCompare node_order now hidden p).
Proof.
  unfold visualizer_mount. apply packets_effect_ok.
  eapply data_ok_core; [apply core_rebuild|]. eapply data_ok_core; [apply core_reset|]. apply forget_packets_ok.
  eapply data_ok_core; [apply core_self|]. split; cbn; [|unfold MAX_PENDING, MAX_PROCESSED; lia..|constructor|constructor].
  split; cbn; [constructor|done|by intros; simplify_map_eq|by intros; simplify_map_eq].
Qed.

Lemma visualizer_run_ok events s : visualizer_ok s -> visualizer_ok (visualizer_run localeCompare node_order events s).
Proof. revert s. induction events as [|e l IH]; intros s Hok; [done|]. by apply IH, visualizer_step_ok. Qed.

(** Whatever happens to a visualizer once it is open, at most 100 packets wait, at most 1000
    observations are remembered, each once, every packet that waits has a live timer that shows it
    before its window ends, and every particle travels the link between two distinct nodes. *)
Theorem visualizer_invariant now hidden p events :
  visualizer_ok (visualizer_run localeCompare node_order events (visualizer_mount localeCompare node_order now hidden p)).
Proof. apply visualizer_run_ok, visualizer_mount_ok. Qed.

(** C18: a packet that waits is shown: one of the timers the browser holds is its own, due before its
    window ends, and puts on the screen a particle for each link of each of its paths. *)
Theorem waiting_packet_shown now hidden props events packetKey p :
  let s := visualizer_run localeCompare node_order events (visualizer_mount localeCompare node_order now hidden props) in
  om_get s.(vd_pending) packetKey = Some p ->
  exists id due, s.(vd_live) !! id = Some (packetKey, due) /\ due <= p.(pk_expiresAt)
    /\ let s' := visualizer_step localeCompare node_order s (VeTimer false id) in
       om_get s'.(vd_pending) packetKey = None
       /\ s'.(vd_particles) = s.(vd_particles) ++
            (p.(pk_paths) ≫= path_particles s.(vd_props).(vp_particleSpeedMultiplier) p.(pk_label)).
Proof.
  intros s Hp. assert (Hok : visualizer_ok s) by apply visualizer_run_ok, visualizer_mount_ok. clearbody s.
  destruct (to_timed _ _ (dk_timers s Hok) packetKey p ltac:(done) Hp) as (id & due & _ & Hl & Hd).
  exists id, due. split; [done|]. split; [done|]. cbn [visualizer_step]. unfold fire_timer. rewrite Hl.
  unfold publishPacket. cbn [vd_pending set]. rewrite Hp. split; [apply om_get_delete_eq|done].
Qed.
End hook.

(** A visualizer opened on a store of packets. *)
Definition example_props (packets : list RawPacket) : DataProps :=
  {| vp_packets := {| vr_version := 0; vr_value := packets |};
     vp_contacts := {| vr_version := 0; vr_value := [] |}; vp_config := {| vr_version := 0; vr_value := None |};
     vp_repeaterAdvertPaths := {| vr_version := 0; vr_value := [] |};
     vp_visibility := {| vo_showAmbiguousNodes := true; vo_showAmbiguousPaths := true;
                         vo_collapseLikelyKnownSiblingRepeaters := false |};
     vp_useAdvertPathHints := false; vp_splitAmbiguousByTraffic := false; vp_particleSpeedMultiplier := num_of_Z 2;
     vp_observationWindowSec := 15; vp_pruneStaleNodes := false; vp_pruneStaleMinutes := 5;
     vp_directoryEnabled := true; vp_focusHandoff := None |}.
Definition map_order (m : gmap jstr PacketNetworkNode) : list PacketNetworkNode := (map_to_list m).*2.

Lemma waiting_packet_shown_witness :
  exists p id due,
    om_get (visualizer_run (H := example_decoder) str_compare map_order [VeFlush]
              (visualizer_mount (H := example_decoder) str_compare map_order 200 false (example_props [example_packet 100]))).(vd_pending)
      (js "ad:AABBCCDDEEFF") = Some p
    /\ length (p.(pk_paths) ≫= path_particles (num_of_Z 2) p.(pk_label)) = 2%nat
    /\ (visualizer_run (H := example_decoder) str_compare map_order [VeFlush]
          (visualizer_mount (H := example_decoder) str_compare map_order 200 false (example_props [example_packet 100]))).(vd_live) !! id
       = Some (js "ad:AABBCCDDEEFF", due).
Proof.
  eexists.
  edestruct (waiting_packet_shown (H := example_decoder) str_compare map_order 200 false (example_props [example_packet 100])
    [VeFlush] (js "ad:AABBCCDDEEFF")) as (id & due & Hl & _); [vm_compute; reflexivity|].
  exists id, due. split; [vm_compute; reflexivity|]. split; [vm_compute; reflexivity|exact Hl].
Defined.

(** ** The requests to the directory *)

(** The prefixes of the chunks still to be sent. *)
Definition unsent (s : VisualizerData) : list jstr :=
  map_to_list s.(vd_resolves) ≫= fun r => concat (tail r.2.(dr_chunks)).

Record directory_ok (s : VisualizerData) : Prop := {
  dy_once : NoDup (concat s.(vd_asked) ++ unsent s);
  dy_requested x : x ∈ concat s.(vd_asked) ++ unsent s -> x ∈ s.(vd_requested);
  dy_pending : NoDup s.(vd_pendingPrefixes);
  dy_new x : x ∈ s.(vd_pendingPrefixes) -> x ∉ s.(vd_requested);
  dy_asked : Forall (fun c => (0 < length c <= DIRECTORY_RESOLVE_HOPS_MAX)%nat) s.(vd_asked);
  dy_chunks id r : s.(vd_resolves) !! id = Some r ->
    Forall (fun c => (0 < length c <= DIRECTORY_RESOLVE_HOPS_MAX)%nat) r.(dr_chunks);
  dy_fresh id : (s.(vd_nextResolve) <= id)%nat -> s.(vd_resolves) !! id = None;
}.

Definition directory_core (s : VisualizerData) :=
  (s.(vd_asked), s.(vd_resolves), s.(vd_requested), s.(vd_pendingPrefixes), s.(vd_nextResolve)).

Lemma directory_ok_core s s' : directory_core s' = directory_core s -> directory_ok s -> directory_ok s'.
Proof.
  unfold directory_core. intros [= Ha Hr Hq Hp Hn] [H1 H2 H3 H4 H5 H6 H7].
  split; unfold unsent in *; rewrite ?Ha, ?Hr, ?Hq, ?Hp, ?Hn; done.
Qed.

Lemma set_adds_new (prefixes l : list jstr) (P : jstr -> Prop) :
  NoDup prefixes -> (forall x, x ∈ prefixes -> P x) -> (forall x, x ∈ l -> P x) ->
  NoDup (foldl js_set_add prefixes l) /\ forall x, x ∈ foldl js_set_add prefixes l -> P x.
Proof.
  intros Hnd Hp Hl. destruct (set_adds_spec l prefixes Hnd) as [Hn Hx]. split; [done|].
  intros x [?|?]%Hx; auto.
Qed.

Lemma schedule_directory_ok node_order now s : directory_ok s -> directory_ok (scheduleDirectoryResolve node_order now s).
Proof.
  intros [H1 H2 H3 H4 H5 H6 H7]. unfold scheduleDirectoryResolve. destruct (negb _); [done|]. cbn zeta.
  set (l := filter _ _). case_bool_decide; [done|].
  destruct (set_adds_new s.(vd_pendingPrefixes) l (fun x => x ∉ s.(vd_requested))) as [Hn Hx]; [done|done|..].
  { intros x Hin. apply list_elem_of_filter in Hin as [[? _] _]. done. }
  set (s1 := s <| vd_pendingPrefixes := _ |>). assert (Hs1 : directory_ok s1) by by split.
  cbn. destruct (vd_flushTimer s); [done|]. by apply (directory_ok_core s1).
Qed.

Lemma bind_concat_perm (l k : list (nat * DirectoryResolve)) :
  l ≡ₚ k -> (l ≫= fun r => concat (tail r.2.(dr_chunks))) ≡ₚ (k ≫= fun r => concat (tail r.2.(dr_chunks))).
Proof. intros Hp. by rewrite Hp. Qed.

(** A chunk sent: it leaves the unsent ones of its loop. *)
Lemma unsent_insert s id r :
  s.(vd_resolves) !! id = None -> map_to_list (<[id := r]> s.(vd_resolves)) ≫= (fun r => concat (tail r.2.(dr_chunks)))
    ≡ₚ concat (tail r.(dr_chunks)) ++ unsent s.
Proof. intros Hn. rewrite map_to_list_insert by done. done. Qed.

Lemma flush_directory_ok s : directory_ok s -> directory_ok (flushPendingDirectoryPrefixes s).
Proof.
  intros [H1 H2 H3 H4 H5 H6 H7]. unfold flushPendingDirectoryPrefixes. cbn zeta.
  set (s0 := (s <| vd_flushTimer := None |>) <| vd_pendingPrefixes := [] |>).
  assert (Hs0 : directory_ok s0) by (split; try done; [constructor|intros x Hx; by apply elem_of_nil in Hx]).
  change (vd_pendingPrefixes (s <| vd_flushTimer := None |>)) with s.(vd_pendingPrefixes).
  destruct (negb _); [done|]. case_bool_decide as He; [done|].
  set (chunks := chunkDirectoryPrefixes _ _).
  destruct (chunks_from_spec (length s.(vd_pendingPrefixes)) DIRECTORY_RESOLVE_HOPS_MAX s.(vd_pendingPrefixes)) as [Hc Hlen];
    [unfold DIRECTORY_RESOLVE_HOPS_MAX; lia|lia|]. fold (chunkDirectoryPrefixes s.(vd_pendingPrefixes) DIRECTORY_RESOLVE_HOPS_MAX) in Hc, Hlen. fold chunks in Hc, Hlen.
  destruct chunks as [|c cs] eqn:Ec; [by destruct (vd_pendingPrefixes s)|]. cbn [send_chunk dr_chunks].
  set (r := {| dr_chunks := c :: cs; dr_merged := ∅ |}).
  assert (Hperm : concat (s.(vd_asked) ++ [c]) ++ (map_to_list (<[s.(vd_nextResolve) := r]> s.(vd_resolves)) ≫= fun r => concat (tail r.2.(dr_chunks)))
                  ≡ₚ s.(vd_pendingPrefixes) ++ (concat s.(vd_asked) ++ unsent s)).
  { rewrite (unsent_insert s), concat_app, <- Hc by (apply H7; lia). cbn. rewrite app_nil_r. solve_Permutation. }
  split; unfold unsent; cbn; rewrite ?Hperm.
  - apply NoDup_app. split; [done|]. split; [|done]. intros x Hx Hin. by apply (H4 x Hx), H2.
  - intros x. rewrite Hperm. intros [Hx|Hx]%elem_of_app; apply elem_of_union; [right; by apply elem_of_list_to_set|left; by apply H2].
  - constructor.
  - intros x Hx. by apply elem_of_nil in Hx.
  - apply Forall_app. split; [done|]. apply Forall_cons in Hlen as [? _]. by constructor.
  - intros id r'. rewrite lookup_insert_Some. intros [[_ <-]|[_ ?]]; [done|by eapply H6].
  - intros id Hid. rewrite lookup_insert_ne by lia. apply H7. lia.
Qed.

Lemma delete_resolve_perm s id r :
  s.(vd_resolves) !! id = Some r ->
  unsent s ≡ₚ concat (tail r.(dr_chunks)) ++ (map_to_list (delete id s.(vd_resolves)) ≫= fun r => concat (tail r.2.(dr_chunks))).
Proof. intros Hr. unfold unsent. by rewrite <- (map_to_list_delete _ _ _ Hr). Qed.

(** A loop that ends. *)
Lemma end_resolve_ok s id r :
  s.(vd_resolves) !! id = Some r -> tail r.(dr_chunks) = [] -> directory_ok s ->
  directory_ok (s <| vd_resolves := delete id s.(vd_resolves) |>).
Proof.
  intros Hr Ht [H1 H2 H3 H4 H5 H6 H7]. assert (Hperm := delete_resolve_perm s id r Hr). rewrite Ht in Hperm. cbn in Hperm.
  split; unfold unsent; cbn; rewrite <- ?Hperm; try done.
  - intros x. rewrite <- Hperm. apply H2.
  - intros i r'. rewrite lookup_delete_Some. intros [_ ?]. by eapply H6.
  - intros i Hi. rewrite lookup_delete_None. right. by apply H7.
Qed.

(** A loop that goes on to its next chunk. *)
Lemma next_chunk_ok s id r c cs merged :
  s.(vd_resolves) !! id = Some r -> tail r.(dr_chunks) = c :: cs -> directory_ok s ->
  let r' := {| dr_chunks := c :: cs; dr_merged := merged |} in
  directory_ok (send_chunk (s <| vd_resolves := <[id := r']> s.(vd_resolves) |>) r').
Proof.
  intros Hr Ht [H1 H2 H3 H4 H5 H6 H7] r'. assert (Hperm := delete_resolve_perm s id r Hr). rewrite Ht in Hperm.
  assert (Hl := H6 _ _ Hr). assert (Hl' : Forall (fun c => (0 < length c <= DIRECTORY_RESOLVE_HOPS_MAX)%nat) (c :: cs)).
  { rewrite <- Ht. destruct (dr_chunks r); [done|]. by apply Forall_cons in Hl as [_ ?]. }
  assert (Hp : concat (s.(vd_asked) ++ [c]) ++ (map_to_list (<[id := r']> s.(vd_resolves)) ≫= fun r => concat (tail r.2.(dr_chunks)))
               ≡ₚ concat s.(vd_asked) ++ unsent s).
  { rewrite Hperm, <- insert_delete_eq, map_to_list_insert by apply lookup_delete_eq.
    cbn. rewrite concat_app. cbn. rewrite app_nil_r. solve_Permutation. }
  split; unfold unsent; cbn; rewrite ?Hp; try done.
  - intros x. rewrite Hp. apply H2.
  - apply Forall_app. split; [done|]. apply Forall_cons in Hl' as [? _]. by constructor.
  - intros i r0. rewrite lookup_insert_Some. intros [[_ <-]|[_ ?]]; [done|by eapply H6].
  - intros i Hi. rewrite lookup_insert_ne; [by apply H7|]. intros <-. rewrite H7 in Hr by done. done.
Qed.

(** *** What does not touch the requests *)

Lemma dcore_clear_timer id s : directory_core (stop_packet_timer id s) = directory_core s.
Proof. by destruct id. Qed.

Lemma dcore_publish hidden k s : directory_core (publishPacket hidden k s) = directory_core s.
Proof. unfold publishPacket. destruct (om_get _ _); [|done]. by destruct hidden. Qed.

Lemma dcore_add_pending now isFocus k label path s : directory_core (add_pending now isFocus k label path s) = directory_core s.
Proof.
  unfold add_pending. assert (Hc := dcore_clear_timer (vd_timers s !! k) s). unfold directory_core in *.
  destruct (om_get _ _) as [p|]; [destruct (now <? _)|]; [done|destruct isFocus; cbn; exact Hc..].
Qed.

Lemma dcore_evict s : directory_core (evict_pending s) = directory_core s.
Proof.
  unfold evict_pending. fold evict_one. destruct (_ <? _)%nat; [|done].
  generalize (take EVICTED_PENDING (js_sort (by_key (fun e : jstr * PendingPacket => e.2.(pk_firstSeen))) (vd_pending s))) as l.
  intros l. revert s. induction l as [|e l IH]; intros s; cbn [foldl]; [done|]. rewrite IH.
  exact (dcore_clear_timer (vd_timers s !! e.1) s).
Qed.

Lemma dcore_draw_self s existing : directory_core (draw_self s existing) = directory_core s.
Proof. unfold draw_self. by destruct (_ !! self_id). Qed.

Section directory.
Context `{MeshDecoder} (localeCompare : jstr -> jstr -> comparison)
  (node_order : gmap jstr PacketNetworkNode -> list PacketNetworkNode).

Lemma dcore_loop now hidden a packet :
  directory_core (loop_packet localeCompare now hidden a packet).(pa_data) = directory_core a.(pa_data).
Proof.
  unfold loop_packet. case_bool_decide.
  - destruct (vd_observationPaths _ !! _); [|done]. by destruct (_ && _).
  - destruct (ingestPacketIntoPacketNetwork _ _ _ _ _) as [[ingested|] network]; [|done].
    destruct (len _ <? 2); [done|]. cbn [pa_data set]. unfold animate_packet. rewrite dcore_evict.
    destruct (packetMatchesVisualizerFocus _ _); rewrite ?dcore_publish; by rewrite dcore_add_pending.
Qed.

Lemma rebuild_directory_ok now s : directory_ok s -> directory_ok (rebuildRenderProjection node_order now s).
Proof. intros Hok. apply schedule_directory_ok. by apply (directory_ok_core s). Qed.

Lemma packets_effect_directory_ok now hidden s :
  directory_ok s -> directory_ok (packets_effect localeCompare node_order now hidden s).
Proof.
  intros Hok. unfold packets_effect. set (a0 := Build_Pass _ _ _ _ _).
  set (a := foldl _ _ _). assert (Ha : directory_core a.(pa_data) = directory_core s).
  { change (directory_core s) with (directory_core a0.(pa_data)). subst a. generalize a0 as a1.
    induction (vr_value (vp_packets (vd_props s))) as [|p l IH]; intros a1; [done|]. cbn [foldl]. by rewrite IH, dcore_loop. }
  set (s1 := match pa_focus a with Some _ => _ | None => _ end).
  assert (H1 : directory_ok s1) by (apply (directory_ok_core s); [subst s1; by destruct (pa_focus a)|done]).
  set (s2 := if pa_needsRebuild a then _ else _).
  assert (H2 : directory_ok s2) by (subst s2; destruct (pa_needsRebuild a); [by apply rebuild_directory_ok|done]).
  destruct (0 <? _); [by apply (directory_ok_core s2)|done].
Qed.

Lemma dcore_forget now s : directory_core (forget_packets now s) = directory_core s.
Proof. unfold forget_packets. exact (dcore_draw_self _ _). Qed.

Lemma dcore_self now s : directory_core (self_effect now s) = directory_core s.
Proof. unfold self_effect. exact (dcore_draw_self _ _). Qed.

Lemma dcore_reset now s : directory_core (reset_effect now s) = directory_core s.
Proof. rewrite <- (dcore_forget now s). done. Qed.

Lemma run_effects_directory_ok now hidden hits p s :
  directory_ok s -> directory_ok (visualizer_effects localeCompare node_order now hidden hits p s).
Proof.
  intros Hok. unfold visualizer_effects.
  set (s1 := if same_self _ _ then _ else _).
  assert (H1 : directory_ok s1) by (subst s1; destruct (same_self _ _); [done|by apply (directory_ok_core s); [apply dcore_self|]]).
  set (s2 := if same_reset _ _ then _ else _).
  assert (H2 : directory_ok s2) by (subst s2; destruct (same_reset _ _); [done|by apply (directory_ok_core s1); [apply dcore_reset|]]).
  set (s3 := if hits || _ then _ else s2).
  assert (H3 : directory_ok s3) by (subst s3; destruct (hits || _); [by apply rebuild_directory_ok|done]).
  clearbody s3. case_match; [by apply packets_effect_directory_ok|exact H3].
Qed.

Lemma visualizer_step_directory_ok s e : directory_ok s -> directory_ok (visualizer_step localeCompare node_order s e).
Proof.
  intros Hok. unfold visualizer_step.
  destruct e as [now hidden p|hidden id| |now hidden id reply|now|now|]; try (destruct (negb _); [done|]).
  - by apply run_effects_directory_ok, (directory_ok_core s).
  - unfold fire_timer. destruct (vd_live s !! id) as [[k due]|]; [|done].
    apply (directory_ok_core s); [by rewrite dcore_publish|done].
  - destruct (vd_flushTimer s); [by apply flush_directory_ok|done].
  - unfold directory_reply. destruct (vd_resolves s !! id) as [r|] eqn:Er; [|done]. cbn zeta.
    destruct (tail (dr_chunks r)) as [|c cs] eqn:Et; [|by apply (next_chunk_ok _ _ r)].
    assert (He := end_resolve_ok s id r Er Et Hok). destruct (_ || _); [done|].
    apply run_effects_directory_ok. by eapply directory_ok_core, He.
  - unfold prune_tick. destruct (negb _); [done|]. destruct (prunePacketNetworkState _ _) as [pruned network].
    destruct pruned; [|by apply (directory_ok_core s)]. by apply rebuild_directory_ok, (directory_ok_core s).
  - apply (directory_ok_core s); [apply dcore_forget|done].
  - by apply (directory_ok_core s).
Qed.

Lemma initial_directory_ok now p : directory_ok (initial_data now p).
Proof.
  split; unfold unsent; cbn; rewrite ?map_to_list_empty; try done; cbn; try constructor; by intros x Hx%elem_of_nil.
Qed.

Lemma mount_directory_ok now hidden p : directory_ok (visualizer_mount localeCompare node_order now hidden p).
Proof.
  unfold visualizer_mount. generalize (initial_directory_ok now p). generalize (initial_data now p) as s. intros s Hs.
  apply packets_effect_directory_ok, rebuild_directory_ok.
  apply (directory_ok_core (self_effect now s)); [apply dcore_reset|]. by apply (directory_ok_core s); [apply dcore_self|].
Qed.

Lemma visualizer_run_directory_ok events s :
  directory_ok s -> directory_ok (visualizer_run localeCompare node_order events s).
Proof. revert s. induction events as [|e l IH]; intros s Hok; [done|]. by apply IH, visualizer_step_directory_ok. Qed.

(** However packets, answers and settings come, the visualizer asks the directory for each prefix
    at most once, in requests of 1 to 64 prefixes. *)
Theorem directory_asked_once now hidden p events :
  let s := visualizer_run localeCompare node_order events (visualizer_mount localeCompare node_order now hidden p) in
  NoDup (concat s.(vd_asked)) /\ Forall (fun c => (0 < length c <= DIRECTORY_RESOLVE_HOPS_MAX)%nat) s.(vd_asked).
Proof.
  intros s. assert (Hok : directory_ok s) by (apply visualizer_run_directory_ok, mount_directory_ok).
  clearbody s. destruct Hok as [H1 _ _ _ H5 _ _]. split; [|done]. by apply NoDup_app in H1 as (? & _ & _).
Qed.
End directory.
