(* ===== verification/VisualizerStream.v ===== *)
(** The visualizer over the packet store: the packets recorded by [stores/rawPacketStore.ts] reach
    the hook of [components/visualizer/useVisualizerData3D.ts] as snapshots of the newest 500, and
    between two resets the network it draws is the fold of every packet, each taken in once, and of
    the prune ticks. *)
From S2P Require Import Prelude JsString JsCollections JsNum Types PathUtils RawPacketStats RawPacketStore RawPacketStoreProps Visualizer VisualizerProps NetworkGraph VisualizerFocus VisualizerDirectory VisualizerData VisualizerDataProps.

(** ** The newest entries of a list *)

Section last_n.
Context {A : Type}.
Implicit Types l k : list A.

Lemma last_n_all n l : (length l <= n)%nat -> last_n n l = l.
Proof. intros Hl. unfold last_n. by replace (length l - n)%nat with 0%nat by lia. Qed.

Lemma last_n_app n l k : last_n n (l ++ k) = last_n (n - length k) l ++ last_n n k.
Proof.
  unfold last_n. rewrite length_app, drop_app. f_equal; [|f_equal; lia].
  destruct (decide (length k <= n)%nat); [f_equal; lia|]. by rewrite !drop_ge by lia.
Qed.

Lemma last_n_last_n m n l : (m <= n)%nat -> last_n m (last_n n l) = last_n m l.
Proof. intros Hmn. unfold last_n. rewrite drop_drop, length_drop. f_equal. lia. Qed.

Lemma last_n_app_last n l k : last_n n (last_n n l ++ k) = last_n n (l ++ k).
Proof. rewrite !last_n_app, last_n_last_n by lia. done. Qed.

Lemma last_n_incl n l x : x ∈ last_n n l -> x ∈ l.
Proof. unfold last_n. intros H. rewrite <- (take_drop (length l - n) l). apply elem_of_app. by right. Qed.

Lemma last_n_mono m n l x : (m <= n)%nat -> x ∈ last_n m l -> x ∈ last_n n l.
Proof. intros Hmn. rewrite <- (last_n_last_n m n l Hmn). apply last_n_incl. Qed.

Lemma last_n_NoDup n l : NoDup l -> NoDup (last_n n l).
Proof.
  intros Hn. unfold last_n. rewrite <- (take_drop (length l - n) l) in Hn. by apply NoDup_app in Hn as (_ & _ & ?).
Qed.
End last_n.

Lemma last_n_fmap {A B} (f : A -> B) n l : f <$> last_n n l = last_n n (f <$> l).
Proof. unfold last_n. by rewrite length_fmap, fmap_drop. Qed.

(** ** The store *)

Lemma stamp_key now packet : getRawPacketObservationKey (stamp now packet) = getRawPacketObservationKey packet.
Proof. unfold stamp. by destruct (rp_received_at_ms packet). Qed.

Section stream.
Context `{MeshDecoder} (lowerName : jstr -> jstr) (localeCompare : jstr -> jstr -> comparison)
  (node_order : gmap jstr PacketNetworkNode -> list PacketNetworkNode).

(** Packets heard, each with the time it came. *)
Definition record_all (heard : list (Z * RawPacket)) (st : Store) : Store :=
  foldl (fun st h => recordRawPacket lowerName h.1 h.2 MAX_RAW_PACKETS st) st heard.
Definition stamped (heard : list (Z * RawPacket)) : list RawPacket := (fun h => stamp h.1 h.2) <$> heard.

Notation key := getRawPacketObservationKey.

Lemma record_all_packets heard st :
  store_ok st -> NoDup (key <$> st.(st_packets) ++ stamped heard) -> (length st.(st_packets) <= MAX_RAW_PACKETS)%nat ->
  store_ok (record_all heard st)
  /\ (record_all heard st).(st_packets) = last_n MAX_RAW_PACKETS (st.(st_packets) ++ stamped heard).
Proof.
  revert st. induction heard as [|[t p] heard IH]; intros st Hok Hnd Hl; cbn [record_all stamped foldl fmap list_fmap].
  - rewrite app_nil_r, last_n_all by done. done.
  - destruct (recordRawPacket_spec lowerName MAX_RAW_PACKETS t p st Hok) as (Hok1 & Habs & _).
    set (st1 := recordRawPacket _ _ _ _ _) in *. cbn [fst snd].
    change (stamped ((t, p) :: heard)) with (stamp t p :: stamped heard) in *.
    change ((fun h : Z * RawPacket => stamp h.1 h.2) <$> (t, p) :: heard) with (stamp t p :: stamped heard) in *.
    replace (st_packets st ++ stamp t p :: stamped heard) with ((st_packets st ++ [stamp t p]) ++ stamped heard) in *
      by by rewrite <- app_assoc.
    rewrite fmap_app in Hnd. apply NoDup_app in Hnd as (Ha & Hd & Hb).
    assert (Hp1 : st1.(st_packets) = last_n MAX_RAW_PACKETS (st.(st_packets) ++ [stamp t p])).
    { change (st_packets st1) with (sp_packets (abs st1)). rewrite Habs. cbn [spec_call sp_packets abs].
      unfold append_scan. rewrite decide_False.
      - cbn. unfold last_n. by rewrite length_app.
      - rewrite (fmap_app key (st_packets st) [stamp t p]) in Ha. apply NoDup_app in Ha as (_ & Ha & _). intros Hin. apply (Ha _ Hin). by left. }
    destruct (IH st1 Hok1) as [Hok2 Hp2].
    + rewrite Hp1, fmap_app, last_n_fmap. apply NoDup_app. split; [by apply last_n_NoDup|].
      split; [|done]. intros x Hx. by apply Hd, (last_n_incl MAX_RAW_PACKETS).
    + rewrite Hp1. unfold last_n. rewrite length_drop. lia.
    + split; [done|]. change (foldl _ st1 heard) with (record_all heard st1). rewrite Hp2, Hp1, last_n_app_last.
      by rewrite <- app_assoc.
Qed.

(** ** One run of the effect *)

(** What the loop leaves alone or adds to. *)
Definition base (s : VisualizerData) :=
  (s.(vd_props), s.(vd_network), s.(vd_processed), s.(vd_stats), s.(vd_mounted)).

Lemma base_clear_timer id s : base (stop_packet_timer id s) = base s.
Proof. by destruct id. Qed.

Lemma base_publish hidden k s : base (publishPacket hidden k s) = base s.
Proof. unfold publishPacket. destruct (om_get _ _); [|done]. by destruct hidden. Qed.

Lemma base_add_pending now isFocus k label path s : base (add_pending now isFocus k label path s) = base s.
Proof.
  unfold add_pending. assert (Hc := base_clear_timer (vd_timers s !! k) s). unfold base in *.
  destruct (om_get _ _) as [p|]; [destruct (now <? _)|]; [done|destruct isFocus; cbn; exact Hc..].
Qed.

Lemma base_evict s : base (evict_pending s) = base s.
Proof.
  unfold evict_pending. destruct (_ <? _)%nat; [|done].
  generalize (take EVICTED_PENDING (js_sort (by_key (fun e : jstr * PendingPacket => e.2.(pk_firstSeen))) (vd_pending s))) as l.
  intros l. revert s. induction l as [|e l IH]; intros s; cbn [foldl]; [done|]. rewrite IH.
  assert (Hc := base_clear_timer (vd_timers s !! e.1) s). exact Hc.
Qed.

Lemma base_animate now hidden isFocus packet ingested nodes s :
  base (animate_packet now hidden isFocus packet ingested nodes s) = base s.
Proof.
  unfold animate_packet. rewrite base_evict.
  destruct isFocus; rewrite ?base_publish; by rewrite base_add_pending.
Qed.

(** An observation already taken in changes nothing but the highlight. *)
Lemma loop_known now hidden a packet :
  key packet ∈ a.(pa_data).(vd_processed) ->
  let a' := loop_packet localeCompare now hidden a packet in
  a'.(pa_data) = a.(pa_data) /\ a'.(pa_newProcessed) = a.(pa_newProcessed)
  /\ a'.(pa_newAnimated) = a.(pa_newAnimated) /\ a'.(pa_needsRebuild) = a.(pa_needsRebuild).
Proof.
  intros Hin. unfold loop_packet. rewrite bool_decide_true by done.
  destruct (vd_observationPaths _ !! _); [|done]. by destruct (_ && _).
Qed.

Definition ingest (now : Z) (context : PacketNetworkContext) (network : PacketNetworkState) (packet : RawPacket) :=
  (ingestPacketIntoPacketNetwork localeCompare now network context packet).2.

(** A new one is remembered and goes into the network. *)
Lemma loop_new now hidden a packet :
  key packet ∉ a.(pa_data).(vd_processed) ->
  let s := a.(pa_data) in
  let a' := loop_packet localeCompare now hidden a packet in
  base a'.(pa_data) = (s.(vd_props), ingest now (packetNetworkContext s.(vd_props)) s.(vd_network) packet,
                       trim_processed (s.(vd_processed) ++ [key packet]), s.(vd_stats), s.(vd_mounted))
  /\ a'.(pa_newProcessed) = a.(pa_newProcessed) + 1.
Proof.
  intros Hni s. unfold loop_packet. rewrite bool_decide_false by done. fold s. unfold ingest.
  cbn [vd_network vd_props mark_processed set].
  destruct (ingestPacketIntoPacketNetwork _ _ _ _ _) as [[ingested|] network]; [|done]. cbn [snd].
  destruct (len _ <? 2); [done|]. cbn [pa_data pa_newProcessed set]. rewrite base_animate.
  by destruct (packetMatchesVisualizerFocus _ _).
Qed.
Lemma pass_known now hidden l a :
  (forall k, k ∈ key <$> l -> k ∈ a.(pa_data).(vd_processed)) ->
  let a' := foldl (loop_packet localeCompare now hidden) a l in
  a'.(pa_data) = a.(pa_data) /\ a'.(pa_newProcessed) = a.(pa_newProcessed)
  /\ a'.(pa_newAnimated) = a.(pa_newAnimated) /\ a'.(pa_needsRebuild) = a.(pa_needsRebuild).
Proof.
  revert a. induction l as [|x l IH]; intros a Hin; [done|]. cbn [foldl].
  destruct (loop_known now hidden a x) as (Hd & Hp & Ha & Hn); [apply Hin; by left|].
  destruct (IH (loop_packet localeCompare now hidden a x)) as (-> & -> & -> & ->); [|done].
  intros k Hk. rewrite Hd. apply Hin. by right.
Qed.

Lemma trim_incl l x : x ∈ trim_processed l -> x ∈ l.
Proof. unfold trim_processed. case_match; [apply last_n_incl|done]. Qed.

Lemma last_n_trim l k : last_n KEPT_PROCESSED (trim_processed l ++ k) = last_n KEPT_PROCESSED (l ++ k).
Proof. unfold trim_processed. case_match; [apply last_n_app_last|done]. Qed.

Lemma pass_new now hidden l a :
  NoDup (key <$> l) -> (forall k, k ∈ key <$> l -> k ∉ a.(pa_data).(vd_processed)) ->
  let s := a.(pa_data) in
  let a' := foldl (loop_packet localeCompare now hidden) a l in
  exists processed,
    base a'.(pa_data) = (s.(vd_props), foldl (ingest now (packetNetworkContext s.(vd_props))) s.(vd_network) l,
                         processed, s.(vd_stats), s.(vd_mounted))
    /\ last_n KEPT_PROCESSED processed = last_n KEPT_PROCESSED (s.(vd_processed) ++ (key <$> l))
    /\ (forall k, k ∈ processed -> k ∈ s.(vd_processed) ++ (key <$> l))
    /\ a'.(pa_newProcessed) = a.(pa_newProcessed) + len l.
Proof.
  revert a. induction l as [|x l IH]; intros a Hnd Hni; cbn [foldl fmap list_fmap].
  - exists (vd_processed (pa_data a)). rewrite app_nil_r. repeat split; [done|]. rewrite len_nil. lia.
  - apply NoDup_cons in Hnd as [Hx Hnd].
    destruct (loop_new now hidden a x) as [Hb Hp]; [apply Hni; by left|]. cbn zeta in Hb.
    set (a1 := loop_packet localeCompare now hidden a x) in *. unfold base in Hb. injection Hb as Hpr Hnet Hproc Hst Hmt.
    destruct (IH a1) as (processed & Hb' & Hl & Hi & Hn); [done|..].
    { intros k Hk. rewrite Hproc. intros [Hin|Hin%list_elem_of_singleton]%trim_incl%elem_of_app.
      - apply (Hni k); [by right|done].
      - by subst. }
    exists processed. rewrite Hb', Hpr, Hnet, Hst, Hmt, Hn, Hp, len_cons. split; [done|].
    rewrite Hl, Hproc, last_n_trim, <- app_assoc. split; [done|]. split; [|lia].
    intros k Hk. apply Hi in Hk. rewrite Hproc in Hk. apply elem_of_app in Hk as [Hk%trim_incl|Hk]; [|set_solver].
    apply elem_of_app in Hk. set_solver.
Qed.

Lemma base_schedule now s : base (scheduleDirectoryResolve node_order now s) = base s.
Proof.
  unfold scheduleDirectoryResolve. destruct (negb _); [done|]. cbn zeta. case_bool_decide; [done|]. cbn. by destruct (vd_flushTimer s).
Qed.

(** Drawing the network counts its nodes and links anew, nothing else. *)
Lemma rebuild_base now s :
  let s' := rebuildRenderProjection node_order now s in
  s'.(vd_props) = s.(vd_props) /\ s'.(vd_network) = s.(vd_network) /\ s'.(vd_processed) = s.(vd_processed)
  /\ s'.(vd_stats).(vs_processed) = s.(vd_stats).(vs_processed) /\ s'.(vd_mounted) = s.(vd_mounted).
Proof.
  unfold rebuildRenderProjection. cbn zeta. set (s0 := syncSimulation _).
  assert (Hb := base_schedule now s0). unfold base in Hb. injection Hb as -> -> -> -> ->. done.
Qed.

(** The effect on a snapshot whose first packets are known and whose others are new. *)
Lemma packets_effect_spec now hidden s known new :
  s.(vd_props).(vp_packets).(vr_value) = known ++ new ->
  (forall k, k ∈ key <$> known -> k ∈ s.(vd_processed)) ->
  NoDup (key <$> new) -> (forall k, k ∈ key <$> new -> k ∉ s.(vd_processed)) ->
  let s' := packets_effect localeCompare node_order now hidden s in
  s'.(vd_props) = s.(vd_props)
  /\ s'.(vd_network) = foldl (ingest now (packetNetworkContext s.(vd_props))) s.(vd_network) new
  /\ last_n KEPT_PROCESSED s'.(vd_processed) = last_n KEPT_PROCESSED (s.(vd_processed) ++ (key <$> new))
  /\ (forall k, k ∈ s'.(vd_processed) -> k ∈ s.(vd_processed) ++ (key <$> new))
  /\ s'.(vd_stats).(vs_processed) = s.(vd_stats).(vs_processed) + len new
  /\ s'.(vd_mounted) = s.(vd_mounted).
Proof.
  intros Hl Hk Hnd Hn. unfold packets_effect. rewrite Hl, foldl_app.
  set (a0 := Build_Pass s 0 0 false None).
  destruct (pass_known now hidden known a0 Hk) as (Hd1 & Hp1 & _).
  set (a1 := foldl _ a0 known) in *.
  destruct (pass_new now hidden new a1) as (processed & Hb & Hlast & Hin & Hp2); [done|by rewrite Hd1|].
  set (a2 := foldl _ a1 new) in *. cbn zeta in Hb. rewrite Hd1 in Hb, Hlast, Hin.
  rewrite Hp1 in Hp2. change (pa_newProcessed a0) with 0 in Hp2. rewrite Z.add_0_l in Hp2.
  unfold base in Hb. injection Hb as Hpr Hnet Hproc Hst Hmt.
  set (s1 := match pa_focus a2 with Some _ => _ | None => _ end).
  assert (H1 : base s1 = base (pa_data a2)) by (subst s1; by destruct (pa_focus a2)).
  set (s2 := if pa_needsRebuild a2 then _ else _).
  assert (H2 : s2.(vd_props) = s.(vd_props) /\ s2.(vd_network) = vd_network (pa_data a2)
               /\ s2.(vd_processed) = processed /\ s2.(vd_stats).(vs_processed) = s.(vd_stats).(vs_processed)
               /\ s2.(vd_mounted) = s.(vd_mounted)).
  { unfold base in H1. injection H1 as H1a H1b H1c H1d H1e.
    rewrite <- Hproc, <- Hst, <- Hpr, <- Hmt, <- H1a, <- H1b, <- H1c, <- H1d, <- H1e.
    subst s2. destruct (pa_needsRebuild a2); [apply rebuild_base|done]. }
  destruct H2 as (Hpr2 & Hnet2 & Hproc2 & Hst2 & Hmt2). change (pa_data a0) with s in *.
  destruct (Z.ltb_spec 0 (pa_newProcessed a2)) as [Hpos|Hnpos]; cbn;
    (split; [exact Hpr2|split; [by rewrite Hnet2|rewrite Hproc2, Hst2, Hmt2; split; [done|split; [done|split; [|done]]]]]).
  - by rewrite Hp2.
  - assert (0 <= len new) by apply len_nonneg. lia.
Qed.
(** ** Store and visualizer together *)

(** Between two renders of the visualizer: its timers, the prune ticks, the requests to the
    directory and its answers, and the packets the store recorded; then the render that brings
    the store's packets. *)
Record Batch := {
  ba_events : list VisualizerEvent;
  ba_heard : list (Z * RawPacket);
  ba_now : Z;
  ba_hidden : bool;
}.
Definition between (e : VisualizerEvent) : Prop :=
  match e with VeTimer _ _ | VeFlush | VeReply _ _ _ _ | VePrune _ => True | _ => False end.

(** The store's packets as the hook gets them: a new array. *)
Definition show_packets (now : Z) (hidden : bool) (st : Store) (v : VisualizerData) : VisualizerData :=
  let p := v.(vd_props) in
  visualizer_render localeCompare node_order now hidden
    (p <| vp_packets := {| vr_version := p.(vp_packets).(vr_version) + 1; vr_value := st.(st_packets) |} |>) v.

Definition watch (w : Store * VisualizerData) (b : Batch) : Store * VisualizerData :=
  let st := record_all b.(ba_heard) w.1 in
  let v := visualizer_run localeCompare node_order b.(ba_events) w.2 in
  (st, show_packets b.(ba_now) b.(ba_hidden) st v).

(** The network as a fold of everything heard and of the prune ticks, whatever the hook
    remembers. *)
Definition fold_event (p : DataProps) (network : PacketNetworkState) (e : VisualizerEvent) : PacketNetworkState :=
  match e with
  | VePrune now =>
    if p.(vp_pruneStaleNodes) then (prunePacketNetworkState network (now - p.(vp_pruneStaleMinutes) * 60 * 1000)).2
    else network
  | _ => network
  end.
Definition fold_batch (p : DataProps) (network : PacketNetworkState) (b : Batch) : PacketNetworkState :=
  foldl (ingest b.(ba_now) (packetNetworkContext p)) (foldl (fold_event p) network b.(ba_events))
    (stamped b.(ba_heard)).
Definition fold_batches (p : DataProps) (network : PacketNetworkState) (batches : list Batch) :=
  foldl (fold_batch p) network batches.
Definition heard_in (batches : list Batch) : list RawPacket := batches ≫= fun b => stamped b.(ba_heard).

Lemma base_fire_timer hidden id s : base (fire_timer hidden id s) = base s.
Proof. unfold fire_timer. destruct (vd_live s !! id) as [[k due]|]; [|done]. by rewrite base_publish. Qed.

(** A render that only brings packets runs the one effect that reads them. *)
Lemma show_packets_effect now hidden st v :
  exists packets, packets.(vr_value) = st.(st_packets)
  /\ show_packets now hidden st v
     = packets_effect localeCompare node_order now hidden (v <| vd_props := v.(vd_props) <| vp_packets := packets |> |>).
Proof.
  exists {| vr_version := v.(vd_props).(vp_packets).(vr_version) + 1; vr_value := st.(st_packets) |}. split; [done|].
  unfold show_packets, visualizer_render, visualizer_effects. cbn [vd_props set]. destruct (vd_props v) as [packets contacts config paths vis f1 f2 f3 f4 f5 f6 f7 f8].
  unfold same_reset, same_projection, same_packets, same_context, same_self, visibility_eqb, same_ref, config_name.
  cbn [vp_packets vp_contacts vp_config vp_repeaterAdvertPaths vp_visibility vp_useAdvertPathHints
       vp_splitAmbiguousByTraffic vp_directoryEnabled vp_focusHandoff set vr_version].
  rewrite !bool_decide_true, !Bool.eqb_reflx, !Z.eqb_refl by done. cbn [negb andb orb].
  by replace (vr_version packets =? vr_version packets + 1) with false by (symmetry; apply Z.eqb_neq; lia).
Qed.

(** The hook's props, but for the packets. *)
Definition settings (p : DataProps) : DataProps := p <| vp_packets := {| vr_version := 0; vr_value := [] |} |>.

Lemma settings_context p q : settings p = settings q -> packetNetworkContext p = packetNetworkContext q.
Proof. intros E. exact (f_equal packetNetworkContext E). Qed.

(** What holds at any time: the store keeps the newest of the packets heard, the hook shows those
    of its last render, and remembers their observations. *)
Record watching (p : DataProps) (heard : list RawPacket) (network : PacketNetworkState)
    (w : Store * VisualizerData) : Prop := {
  wa_store : store_ok w.1;
  wa_newest : w.1.(st_packets) = last_n MAX_RAW_PACKETS heard;
  wa_nodup : NoDup (key <$> heard);
  wa_settings : settings w.2.(vd_props) = settings p;
  wa_shown : w.2.(vd_props).(vp_packets).(vr_value) = last_n MAX_RAW_PACKETS heard;
  wa_network : w.2.(vd_network) = network;
  wa_last : last_n KEPT_PROCESSED w.2.(vd_processed) = last_n KEPT_PROCESSED (key <$> heard);
  wa_known k : k ∈ w.2.(vd_processed) -> k ∈ key <$> heard;
  wa_count : w.2.(vd_stats).(vs_processed) = len heard;
  wa_mounted : w.2.(vd_mounted) = true;
}.

(** The observations of the newest packets are remembered. *)
Lemma shown_known p heard network w n k :
  (n <= MAX_RAW_PACKETS)%nat -> watching p heard network w ->
  k ∈ key <$> last_n n heard -> k ∈ w.2.(vd_processed).
Proof.
  intros Hn Hw Hk. apply (last_n_incl KEPT_PROCESSED). rewrite (wa_last _ _ _ _ Hw).
  rewrite last_n_fmap in Hk. apply (last_n_mono n); [|done].
  unfold MAX_RAW_PACKETS, KEPT_PROCESSED in *. lia.
Qed.

Lemma watching_base p heard network st v v' :
  base v' = base v -> watching p heard network (st, v) -> watching p heard network (st, v').
Proof.
  unfold base. intros [= E1 E2 E3 E4 E5] []. cbn [fst snd] in *.
  split; cbn [fst snd]; rewrite ?E1, ?E2, ?E3, ?E4, ?E5; done.
Qed.

Lemma same_self_refl p : same_self p p = true.
Proof. unfold same_self. by rewrite ?bool_decide_true. Qed.

Lemma same_reset_refl p : same_reset p p = true.
Proof. unfold same_reset. by rewrite same_self_refl, !Bool.eqb_reflx. Qed.

Lemma flush_base s : base (flushPendingDirectoryPrefixes s) = base s.
Proof.
  unfold flushPendingDirectoryPrefixes. cbn zeta. destruct (negb _); [done|]. case_bool_decide; [done|].
  unfold send_chunk. by destruct (dr_chunks _).
Qed.

(** An answer of the directory draws the network again, and takes in no packet. *)
Lemma reply_watching p heard network st v now hidden id reply :
  watching p heard network (st, v) ->
  watching p heard network (st, directory_reply localeCompare node_order now hidden id reply v).
Proof.
  intros Hw. unfold directory_reply. destruct (vd_resolves v !! id) as [r|]; [|done]. cbn zeta.
  destruct (tail (dr_chunks r)) as [|c cs]; [|by apply (watching_base _ _ _ _ v)].
  destruct (_ || _); [by apply (watching_base _ _ _ _ v)|].
  set (s := set vd_directoryHits _ _).
  assert (Hs : watching p heard network (st, s)) by by apply (watching_base _ _ _ _ v).
  clearbody s. clear Hw v. unfold visualizer_effects. rewrite same_self_refl, same_reset_refl. cbn [orb].
  destruct (rebuild_base now s) as (E1 & E2 & E3 & E4 & E5). set (s1 := rebuildRenderProjection _ _ _) in *.
  clearbody s1. destruct (packets_effect_spec now hidden s1 (last_n MAX_RAW_PACKETS heard) [])
    as (F1 & F2 & F3 & F4 & F5 & F6).
  - rewrite app_nil_r, E1. apply Hs.
  - intros k Hk. rewrite E3. by apply (shown_known p heard network (st, s) MAX_RAW_PACKETS k (le_n _) Hs).
  - constructor.
  - intros k []%elem_of_nil.
  - destruct Hs. cbn [fst snd] in *. rewrite E1 in F1. rewrite E2 in F2. rewrite E3 in F3, F4.
    rewrite E4 in F5. rewrite E5 in F6. cbn [fmap list_fmap] in *. rewrite app_nil_r in F3.
    split; cbn [fst snd]; try done; [by rewrite F1|by rewrite F1|by rewrite F2|by rewrite F3| | |by rewrite F6].
    + intros k Hk%F4. rewrite app_nil_r in Hk. by apply wa_known0.
    + rewrite F5. rewrite len_nil. lia.
Qed.

Lemma event_watching p heard network st v e :
  between e -> watching p heard network (st, v) ->
  watching p heard (fold_event p network e) (st, visualizer_step localeCompare node_order v e).
Proof.
  intros He Hw. unfold visualizer_step. pose proof (wa_mounted _ _ _ _ Hw) as Hm. cbn [snd] in Hm.
  destruct e as [|hidden id| |now hidden id reply|now| |]; try done; cbn [fold_event]; rewrite ?Hm; cbn [negb].
  - apply (watching_base _ _ _ _ v); [apply base_fire_timer|done].
  - destruct (vd_flushTimer v); [|done]. apply (watching_base _ _ _ _ v); [apply flush_base|done].
  - by apply reply_watching.
  - assert (Ep : vp_pruneStaleNodes (vd_props v) = vp_pruneStaleNodes p
      /\ vp_pruneStaleMinutes (vd_props v) = vp_pruneStaleMinutes p).
    { pose proof (wa_settings _ _ _ _ Hw) as E. cbn [snd] in E. split;
        [exact (f_equal vp_pruneStaleNodes E)|exact (f_equal vp_pruneStaleMinutes E)]. }
    destruct Ep as [Ep1 Ep2]. unfold prune_tick. rewrite Ep1, Ep2.
    destruct (vp_pruneStaleNodes p); cbn [negb]; [|done].
    pose proof (wa_network _ _ _ _ Hw) as En. cbn [snd] in En. rewrite En.
    destruct (prunePacketNetworkState _ _) as [pruned network']. cbn [snd].
    assert (H1 : watching p heard network' (st, v <| vd_network := network' |>)).
    { destruct Hw. by split. }
    destruct pruned; [|done]. destruct (rebuild_base now (v <| vd_network := network' |>)) as (E1 & E2 & E3 & E4 & E5).
    destruct H1. cbn [fst snd] in *. split; cbn [fst snd]; rewrite ?E1, ?E2, ?E3, ?E4, ?E5; done.
Qed.

Lemma events_watching p heard network st v es :
  Forall between es -> watching p heard network (st, v) ->
  watching p heard (foldl (fold_event p) network es) (st, visualizer_run localeCompare node_order es v).
Proof.
  intros Hes. revert network v. induction Hes as [|e es He _ IH]; intros network v Hw; [done|].
  unfold visualizer_run, flip. cbn [foldl]. apply IH. by apply event_watching.
Qed.

Lemma watch_batch p heard network w b :
  watching p heard network w -> Forall between b.(ba_events) ->
  NoDup (key <$> heard ++ stamped b.(ba_heard)) -> (length b.(ba_heard) <= MAX_RAW_PACKETS)%nat ->
  watching p (heard ++ stamped b.(ba_heard)) (fold_batch p network b) (watch w b).
Proof.
  destruct w as [st v0]. intros Hw0 Hes Hnd' Hlen.
  apply (events_watching _ _ _ _ _ _ Hes) in Hw0. unfold watch, fold_batch. cbn [fst snd].
  set (net1 := foldl (fold_event p) network _) in *. set (v := visualizer_run _ _ _ v0) in *. clearbody net1 v.
  pose proof Hw0 as [Hst Hnew Hnd Hset Hshown Hnet Hlast Hknown Hcount Hmt]. cbn [fst snd] in *.
  set (new := stamped b.(ba_heard)) in *.
  assert (Hln : (length new <= MAX_RAW_PACKETS)%nat) by (unfold new, stamped; by rewrite length_fmap).
  destruct (record_all_packets b.(ba_heard) st) as [Hst' Hp']; [done|..].
  { fold new. rewrite Hnew, fmap_app, last_n_fmap. rewrite fmap_app in Hnd'. apply NoDup_app in Hnd' as (Ha & Hd & Hb).
    apply NoDup_app. split; [by apply last_n_NoDup|]. split; [|done]. intros x Hx. by apply Hd, (last_n_incl MAX_RAW_PACKETS). }
  { rewrite Hnew. unfold last_n. rewrite length_drop. lia. }
  fold new in Hp'. rewrite Hnew, last_n_app_last, last_n_app, (last_n_all _ new) in Hp' by done.
  set (st' := record_all _ st) in *.
  destruct (show_packets_effect b.(ba_now) b.(ba_hidden) st' v) as (packets & Hval & ->).
  set (v2 := v <| vd_props := _ |>).
  rewrite fmap_app in Hnd'. pose proof Hnd' as (_ & Hdis & Hnn)%NoDup_app.
  destruct (packets_effect_spec b.(ba_now) b.(ba_hidden) v2 (last_n (MAX_RAW_PACKETS - length new) heard) new)
    as (Hpr & Hne & Hla & Hkn & Hco & Hmo).
  - cbn. by rewrite Hval, Hp'.
  - intros k. apply (shown_known p heard net1 (st, v)); [lia|done].
  - done.
  - intros k Hk Hin. by apply (Hdis k); [apply Hknown|].
  - change (vd_processed v2) with (vd_processed v) in *. change (vd_network v2) with (vd_network v) in *.
    change (vd_stats v2) with (vd_stats v) in *. change (vd_mounted v2) with (vd_mounted v) in *.
    assert (Hset2 : settings (vd_props v2) = settings p) by exact Hset.
    split; cbn [fst snd]; [done|by rewrite Hp', last_n_app, (last_n_all _ new)|by rewrite fmap_app|by rewrite Hpr|..].
    + rewrite Hpr. change (vr_value packets = last_n MAX_RAW_PACKETS (heard ++ new)).
      by rewrite Hval, Hp', last_n_app, (last_n_all _ new).
    + by rewrite Hne, (settings_context _ _ Hset2), Hnet.
    + rewrite Hla, <- last_n_app_last, Hlast, last_n_app_last, fmap_app. done.
    + intros k [Hk|Hk]%Hkn%elem_of_app; rewrite fmap_app; apply elem_of_app; [left; by apply Hknown|by right].
    + rewrite Hco, Hcount, len_app. done.
    + by rewrite Hmo.
Qed.

(** A batch of what goes on: at most 500 packets between two renders. *)
Definition batch_ok (b : Batch) : Prop :=
  Forall between b.(ba_events) /\ (length b.(ba_heard) <= MAX_RAW_PACKETS)%nat.

Lemma watch_batches p batches heard network w :
  watching p heard network w ->
  NoDup (key <$> heard ++ heard_in batches) -> Forall batch_ok batches ->
  watching p (heard ++ heard_in batches) (fold_batches p network batches) (foldl watch w batches).
Proof.
  revert heard network w. induction batches as [|b batches IH]; intros heard network w Hw Hnd Hall.
  - cbn. by rewrite app_nil_r.
  - apply Forall_cons in Hall as [[He Hb] Hall]. unfold heard_in in *. cbn [mbind list_bind] in *.
    rewrite app_assoc in *. cbn [fold_batches foldl]. apply IH; [|done|done].
    apply watch_batch; [done|done| |done]. rewrite fmap_app in Hnd. by apply NoDup_app in Hnd as (? & _ & _).
Qed.

Lemma forget_packets_base now s :
  let s' := reset_effect now s in
  s'.(vd_props) = s.(vd_props) /\ s'.(vd_network) = clearPacketNetworkState now (self_name s.(vd_props))
  /\ s'.(vd_processed) = [] /\ s'.(vd_stats).(vs_processed) = 0 /\ s'.(vd_mounted) = s.(vd_mounted).
Proof.
  unfold reset_effect, forget_packets. cbn zeta. set (s1 := _ <| vd_particles := [] |>).
  assert (Hd : (draw_self s1 None).(vd_props) = s.(vd_props)
    /\ (draw_self s1 None).(vd_network) = clearPacketNetworkState now (self_name s.(vd_props))
    /\ (draw_self s1 None).(vd_processed) = [] /\ (draw_self s1 None).(vd_mounted) = s.(vd_mounted))
    by (unfold draw_self; by destruct (_ !! self_id)).
  destruct Hd as (Hp & Hn & Hr & Hm). split; [exact Hp|]. split; [exact Hn|]. by split_and!.
Qed.

Lemma self_effect_props now s :
  (self_effect now s).(vd_props) = s.(vd_props) /\ (self_effect now s).(vd_mounted) = s.(vd_mounted).
Proof. unfold self_effect, draw_self. by destruct (_ !! self_id). Qed.

Lemma mount_watching now hidden p st :
  store_ok st -> (length st.(st_packets) <= MAX_RAW_PACKETS)%nat -> p.(vp_packets).(vr_value) = st.(st_packets) ->
  watching p st.(st_packets)
    (foldl (ingest now (packetNetworkContext p)) (clearPacketNetworkState now (self_name p)) st.(st_packets))
    (st, visualizer_mount localeCompare node_order now hidden p).
Proof.
  intros Hst Hl Hp. unfold visualizer_mount. set (s0 := self_effect now (initial_data now p)).
  assert (Hp0 : s0.(vd_props) = p /\ s0.(vd_mounted) = true)
    by (subst s0; by destruct (self_effect_props now (initial_data now p)) as [-> ->]).
  destruct Hp0 as [Hp0 Hm0].
  destruct (forget_packets_base now s0) as (Hb1 & Hb2 & Hb3 & Hs & Hb5). rewrite Hp0 in Hb1, Hb2. rewrite Hm0 in Hb5. clearbody s0.
  destruct (rebuild_base now (reset_effect now s0)) as (Hr1 & Hr2 & Hr3 & Hr4 & Hr5).
  set (s1 := rebuildRenderProjection _ _ _) in *. clearbody s1.
  rewrite Hb1 in Hr1. rewrite Hb2 in Hr2. rewrite Hb3 in Hr3. rewrite Hs in Hr4. rewrite Hb5 in Hr5.
  destruct (packets_effect_spec now hidden s1 [] st.(st_packets)) as (Hpr & Hne & Hla & Hkn & Hco & Hmo).
  - by rewrite Hr1.
  - intros k Hk. by apply elem_of_nil in Hk.
  - apply Hst.
  - intros k _. rewrite Hr3. apply not_elem_of_nil.
  - rewrite Hr1 in Hpr, Hne. rewrite Hr2 in Hne. rewrite Hr3 in Hla, Hkn. rewrite Hr4 in Hco. rewrite Hr5 in Hmo.
    split; cbn [fst snd]; [done|by rewrite last_n_all by done|apply Hst|by rewrite Hpr|by rewrite Hpr, last_n_all by done
                          |done|done|done|by rewrite Hco|done].
Qed.

(** C17: the network that is drawn is the fold of everything heard and of the prune ticks, in
    order, each packet taken in once when it is rendered: the memory of 1000 observations, cut back
    to 500, never takes a packet in twice, and the count on the screen is the number of packets.
    Between two renders any timer may fire, the directory be asked and answer, and stale nodes be
    pruned, and at most 500 packets come. The run is one between two resets: no Clear & Reset, and
    the renders bring packets, with the contacts, the config and the settings of the mount. *)
Theorem network_is_the_fold now hidden p st batches :
  store_ok st -> (length st.(st_packets) <= MAX_RAW_PACKETS)%nat -> p.(vp_packets).(vr_value) = st.(st_packets) ->
  NoDup (key <$> st.(st_packets) ++ heard_in batches) ->
  Forall batch_ok batches ->
  let '(st', v) := foldl watch (st, visualizer_mount localeCompare node_order now hidden p) batches in
  v.(vd_network) = fold_batches p
    (foldl (ingest now (packetNetworkContext p)) (clearPacketNetworkState now (self_name p)) st.(st_packets)) batches
  /\ v.(vd_stats).(vs_processed) = len (st.(st_packets) ++ heard_in batches)
  /\ st'.(st_packets) = last_n MAX_RAW_PACKETS (st.(st_packets) ++ heard_in batches).
Proof.
  intros Hst Hl Hp Hnd Hall.
  assert (Hw := watch_batches _ batches _ _ _ (mount_watching now hidden p st Hst Hl Hp) Hnd Hall).
  destruct (foldl watch _ batches) as [st' v]. by destruct Hw.
Qed.

(** ** Clearing *)

(** "Clear & Reset" empties the drawing, and the next packet brings it back whole: the packets the
    store preserves are taken in again with it. *)
Theorem cleared_network_returns now t hidden v st heard :
  store_ok st -> (length st.(st_packets) <= MAX_RAW_PACKETS)%nat ->
  NoDup (key <$> st.(st_packets) ++ stamped heard) ->
  let v1 := clearAndReset t v in
  let st' := record_all heard st in
  let v2 := show_packets now hidden st' v1 in
  v1.(vd_network) = clearPacketNetworkState t (self_name v.(vd_props))
  /\ v1.(vd_links) = ∅ /\ v1.(vd_stats).(vs_processed) = 0
  /\ v2.(vd_network)
     = foldl (ingest now (packetNetworkContext v.(vd_props))) v1.(vd_network) st'.(st_packets)
  /\ v2.(vd_stats).(vs_processed) = len st'.(st_packets).
Proof.
  intros Hst Hl Hnd v1 st' v2.
  destruct (forget_packets_base t v) as (Hb1 & Hb2 & Hb3 & Hs & _).
  change (vd_props (reset_effect t v)) with (vd_props v1) in Hb1. change (vd_network (reset_effect t v)) with (vd_network v1) in Hb2.
  change (vd_processed (reset_effect t v)) with (vd_processed v1) in Hb3.
  change (vs_processed (vd_stats (reset_effect t v))) with (vs_processed (vd_stats v1)) in Hs.
  split; [done|]. split; [subst v1; unfold clearAndReset, forget_packets, draw_self; by destruct (_ !! self_id)|]. split; [done|].
  destruct (show_packets_effect now hidden st' v1) as (packets & Hval & Heq). subst v2. rewrite Heq.
  destruct (record_all_packets heard st Hst Hnd Hl) as [Hst' _].
  destruct (packets_effect_spec now hidden (v1 <| vd_props := v1.(vd_props) <| vp_packets := packets |> |>) [] st'.(st_packets))
    as (_ & Hne & _ & _ & Hco & _).
  - cbn. by rewrite Hval.
  - intros k Hk. by apply elem_of_nil in Hk.
  - apply Hst'.
  - intros k _. change (k ∉ vd_processed v1). rewrite Hb3. apply not_elem_of_nil.
  - rewrite Hne, Hco. split; [|change (vd_stats (set vd_props _ v1)) with (vd_stats v1); rewrite Hs; lia].
    change (vd_network (set vd_props _ v1)) with (vd_network v1).
    change (packetNetworkContext (vd_props (set vd_props _ v1))) with (packetNetworkContext (vd_props v1)).
    by rewrite Hb1.
Qed.
End stream.

(** Two renders, of one packet and of two. *)
Definition example_batches : list Batch :=
  [{| ba_events := [VePrune 250]; ba_heard := [(300, packet_numbered 1)]; ba_now := 300; ba_hidden := false |};
   {| ba_events := [VeTimer false 0; VePrune 350]; ba_heard := [(400, packet_numbered 2); (410, packet_numbered 3)]; ba_now := 420;
      ba_hidden := false |}].

Definition pruned_props : DataProps := (example_props []) <| vp_pruneStaleNodes := true |>.

Lemma network_is_the_fold_witness :
  (foldl (watch (H := example_decoder) id str_compare map_order)
     (initial_store 0, visualizer_mount (H := example_decoder) str_compare map_order 200 false pruned_props)
     example_batches).2.(vd_stats).(vs_processed) = 3.
Proof.
  assert (Hw := network_is_the_fold (H := example_decoder) id str_compare map_order 200 false pruned_props
    (initial_store 0) example_batches).
  destruct (foldl (watch (H := example_decoder) id str_compare map_order) _ example_batches) as [st v].
  apply Hw.
  - apply initial_store_ok.
  - cbn. lia.
  - reflexivity.
  - apply (bool_decide_unpack _). vm_compute. reflexivity.
  - repeat constructor.
Defined.
