(* ===== verification/Locate.v ===== *)
(** Where a node may be: [utils/locateOverlay.ts], the calibration and the opacity of
    [utils/locateZone.ts]. The server answers with disks around the ears that heard the node; the
    community directory adds its own and resolves the hops the server could not.

    Optional fields that are [null] or missing are [None] alike, since the code never tells them
    apart. *)
From Stdlib Require Import SpecFloat.
From S2P Require Import Prelude JsString JsCollections JsNum Types PathUtils Json Regex ApiErrors.

(** ** Answers *)

Inductive LocateSource := SrcLocal | SrcCorescope | SrcMixte.
Inductive LocateEmptyReason := InsufficientIdentity | DirectoryOff | NoAnchors.
Inductive LocateAnchorKind := Local0hop | Corescope0hop | FirstHop.
Inductive UnresolvedReason := UrAmbiguous | UrNoGps | UrUnmatched | UrOneByte.
#[export] Instance LocateSource_eq_dec : EqDecision LocateSource.
Proof. solve_decision. Defined.
#[export] Instance LocateEmptyReason_eq_dec : EqDecision LocateEmptyReason.
Proof. solve_decision. Defined.
#[export] Instance LocateAnchorKind_eq_dec : EqDecision LocateAnchorKind.
Proof. solve_decision. Defined.

Record LocateCandidate := {
  lc_public_key : jstr;
  lc_name : option jstr;
  lc_type : option Z;
  lc_last_seen : option Z;
  lc_role : option jstr;
}.

Record LocateIdentity := {
  li_public_key : jstr;
  li_name : option jstr;
  li_contact_type : option Z;
  li_inferred : bool;
  li_last_seen : option Z;
}.
#[export] Instance LocateIdentity_eta : Eta LocateIdentity :=
  fun i => Build_LocateIdentity i.(li_public_key) i.(li_name) i.(li_contact_type) i.(li_inferred) i.(li_last_seen).

(** [an_corescope]: the source is the directory, not the radio. *)
Record LocateAnchor := {
  an_kind : LocateAnchorKind;
  an_corescope : bool;
  an_name : jstr;
  an_public_key : option jstr;
  an_hop_prefix : option jstr;
  an_lat : num;
  an_lon : num;
  an_radius_km : num;
  an_snr : option num;
  an_heard_count : option Z;
  an_last_seen : option Z;
  an_calibratable : bool;
}.
#[export] Instance LocateAnchor_eta : Eta LocateAnchor := fun a =>
  Build_LocateAnchor a.(an_kind) a.(an_corescope) a.(an_name) a.(an_public_key) a.(an_hop_prefix) a.(an_lat) a.(an_lon)
    a.(an_radius_km) a.(an_snr) a.(an_heard_count) a.(an_last_seen) a.(an_calibratable).

Record LocateUnresolvedHop := { uh_prefix : jstr; uh_reason : UnresolvedReason; uh_candidates : list LocateCandidate }.

(** [dg_corescope]: from the directory, not from an advertisement. *)
Record LocateDeclaredGps := { dg_lat : num; dg_lon : num; dg_corescope : bool }.

Record LocateResponse := {
  lr_query : jstr;
  lr_identity : option LocateIdentity;
  lr_source : option LocateSource;
  lr_directory_enabled : bool;
  lr_default_radius_km : num;
  lr_anchors : list LocateAnchor;
  lr_unresolved_hops : list LocateUnresolvedHop;
  lr_declared_gps : option LocateDeclaredGps;
  lr_heard_locally_0hop : bool;
  lr_radio_has_gps : bool;
  lr_empty_reason : option LocateEmptyReason;
}.
#[export] Instance LocateResponse_eta : Eta LocateResponse := fun r =>
  Build_LocateResponse r.(lr_query) r.(lr_identity) r.(lr_source) r.(lr_directory_enabled) r.(lr_default_radius_km)
    r.(lr_anchors) r.(lr_unresolved_hops) r.(lr_declared_gps) r.(lr_heard_locally_0hop) r.(lr_radio_has_gps)
    r.(lr_empty_reason).

Record ReachNode := { nn_public_key : jstr; nn_name : option jstr; nn_lat : option num; nn_lon : option num }.
Record ReachObserver := {
  ro_public_key : jstr; ro_name : jstr; ro_count : Z; ro_avg_snr : option num; ro_lat : option num; ro_lon : option num;
}.
Record ReachFirstHop := {
  rf_hop_prefix : jstr; rf_public_key : option jstr; rf_name : jstr; rf_lat : num; rf_lon : num; rf_count : Z;
}.
Record DirectoryReachResponse := {
  dr_node : option ReachNode;
  dr_observers : list ReachObserver;
  dr_first_hops : list ReachFirstHop;
  dr_unresolved_first_hops : list (jstr * UnresolvedReason);
}.

(** ** Helpers *)

Definition is_hop_hex_len (prefix : jstr) : bool := (len prefix =? 4) || (len prefix =? 6).

Definition num_abs (x : num) : num :=
  match x with
  | S754_zero _ => S754_zero false
  | S754_infinity _ => S754_infinity false
  | S754_finite _ m e => S754_finite false m e
  | S754_nan => S754_nan
  end.

Definition valid_position (lat lon : option num) : bool :=
  match lat, lon with
  | Some lat, Some lon =>
    num_isFinite lat && num_isFinite lon && num_le (num_abs lat) (num_of_Z 90) && num_le (num_abs lon) (num_of_Z 180)
    && negb (num_eq lat (num_of_Z 0) && num_eq lon (num_of_Z 0))
  | _, _ => false
  end.

(** [x.toFixed(5)] of a finite number below 10^21: the nearest multiple of 10^-5, ties upwards. *)
Definition fixed5_units (m : positive) (e : Z) : Z :=
  if 0 <=? e then Zpos m * 2 ^ e * 100000 else (2 * Zpos m * 100000 + 2 ^ (- e)) / 2 ^ (1 - e).
Definition fixed5_digits (n : Z) : jstr := int_str (n / 100000) ++ js "." ++ padStart (int_str (n mod 100000)) 5 48.
Definition toFixed5 (x : num) : jstr :=
  match x with
  | S754_finite s m e => (if s then js "-" else []) ++ fixed5_digits (fixed5_units m e)
  | _ => fixed5_digits 0
  end.

Definition kind_str (k : LocateAnchorKind) : jstr :=
  match k with Local0hop => js "local_0hop" | Corescope0hop => js "corescope_0hop" | FirstHop => js "first_hop" end.

Definition anchor_key (anchor : LocateAnchor) : jstr :=
  kind_str anchor.(an_kind) ++ js ":" ++ (anchor.(an_public_key) ?? []) ++ js ":" ++ toFixed5 anchor.(an_lat) ++ js ":"
    ++ toFixed5 anchor.(an_lon).

Fixpoint dedupe_anchors_from (seen : gset jstr) (anchors : list LocateAnchor) : list LocateAnchor :=
  match anchors with
  | [] => []
  | anchor :: anchors =>
    if bool_decide (anchor_key anchor ∈ seen) then dedupe_anchors_from seen anchors
    else anchor :: dedupe_anchors_from ({[anchor_key anchor]} ∪ seen) anchors
  end.
Definition dedupeAnchors (anchors : list LocateAnchor) : list LocateAnchor := dedupe_anchors_from ∅ anchors.

Definition sourceBadge (anchors : list LocateAnchor) : option LocateSource :=
  match anchors with
  | [] => None
  | _ =>
    if forallb (fun anchor => negb anchor.(an_corescope)) anchors then Some SrcLocal
    else if forallb an_corescope anchors then Some SrcCorescope
    else Some SrcMixte
  end.

Definition is_direct (anchor : LocateAnchor) : bool := negb (anchor.(an_kind) ≟ FirstHop).
Definition directEarKeys (anchors extra : list LocateAnchor) : gset jstr :=
  list_to_set (omap (fun anchor =>
    if is_direct anchor then toLowerCase <$> truthy anchor.(an_public_key) else None) (anchors ++ extra)).

(** [n || null] *)
Definition count_or_null (n : Z) : option Z := if n =? 0 then None else Some n.

Definition empty_reason_of (anchors : list LocateAnchor) (before : option LocateEmptyReason) : option LocateEmptyReason :=
  match anchors with
  | _ :: _ => None
  | [] => if before ≟ Some DirectoryOff then Some DirectoryOff else Some NoAnchors
  end.

(** ** What the community heard *)

Definition observer_anchor (radius : num) (observer : ReachObserver) : option LocateAnchor :=
  if negb (valid_position observer.(ro_lat) observer.(ro_lon)) then None else
  lat ← observer.(ro_lat); lon ← observer.(ro_lon);
  Some {| an_kind := Corescope0hop; an_corescope := true; an_name := observer.(ro_name);
          an_public_key := Some observer.(ro_public_key); an_hop_prefix := None; an_lat := lat; an_lon := lon;
          an_radius_km := radius; an_snr := observer.(ro_avg_snr); an_heard_count := count_or_null observer.(ro_count);
          an_last_seen := None; an_calibratable := false |}.

Definition first_hop_anchor (radius : num) (ears : gset jstr) (hop : ReachFirstHop) : option LocateAnchor :=
  if negb (valid_position (Some hop.(rf_lat)) (Some hop.(rf_lon))) then None else
  let key := truthy (toLowerCase <$> hop.(rf_public_key)) in
  if match key with Some key => bool_decide (key ∈ ears) | None => false end then None else
  Some {| an_kind := FirstHop; an_corescope := true;
          an_name := truthy (Some hop.(rf_name)) ?? (truthy ((fun key => slice key 0 12) <$> key) ?? hop.(rf_hop_prefix));
          an_public_key := key; an_hop_prefix := Some (toLowerCase hop.(rf_hop_prefix));
          an_lat := hop.(rf_lat); an_lon := hop.(rf_lon); an_radius_km := radius; an_snr := None;
          an_heard_count := count_or_null hop.(rf_count); an_last_seen := None;
          an_calibratable := match key with Some _ => true | None => false end |}.

Definition add_unresolved (acc : gset jstr * list LocateUnresolvedHop) (hop : jstr * UnresolvedReason)
    : gset jstr * list LocateUnresolvedHop :=
  let prefix := toLowerCase hop.1 in
  if bool_decide (prefix ∈ acc.1) then acc
  else ({[prefix]} ∪ acc.1, acc.2 ++ [{| uh_prefix := prefix; uh_reason := hop.2; uh_candidates := [] |}]).

Definition mergeReachOverlay (result : LocateResponse) (reach : option DirectoryReachResponse) : LocateResponse :=
  match reach with
  | None => result
  | Some reach =>
    let radius := result.(lr_default_radius_km) in
    let observers := omap (observer_anchor radius) reach.(dr_observers) in
    let ears := directEarKeys result.(lr_anchors) observers in
    let extra := observers ++ omap (first_hop_anchor radius ears) reach.(dr_first_hops) in
    let seenUnresolved := list_to_set ((fun hop => toLowerCase hop.(uh_prefix)) <$> result.(lr_unresolved_hops)) in
    let unresolved := (foldl add_unresolved (seenUnresolved, result.(lr_unresolved_hops))
                         reach.(dr_unresolved_first_hops)).2 in
    let declaredGps :=
      match result.(lr_declared_gps) with
      | Some gps => Some gps
      | None =>
        node ← reach.(dr_node);
        if valid_position node.(nn_lat) node.(nn_lon)
        then lat ← node.(nn_lat); lon ← node.(nn_lon); Some {| dg_lat := lat; dg_lon := lon; dg_corescope := true |}
        else None
      end in
    let identity :=
      match result.(lr_identity), truthy (reach.(dr_node) ≫= nn_name) with
      | Some identity, Some name =>
        match truthy identity.(li_name) with
        | None => Some (identity <| li_name := Some name |>)
        | Some _ => Some identity
        end
      | identity, _ => identity
      end in
    let anchors := dedupeAnchors (result.(lr_anchors) ++ extra) in
    (((((result <| lr_identity := identity |>) <| lr_anchors := anchors |>) <| lr_unresolved_hops := unresolved |>)
       <| lr_declared_gps := declaredGps |>) <| lr_source := sourceBadge anchors |>)
      <| lr_empty_reason := empty_reason_of anchors result.(lr_empty_reason) |>
  end.

(** ** Hops the directory resolves *)

(** The prefixes of a [Set], in the order in which they were added. *)
Definition add_hop_prefix (prefixes : list jstr) (prefix : jstr) : list jstr :=
  if bool_decide (prefix ∈ prefixes) then prefixes else prefixes ++ [prefix].

Definition firstHopPrefixes (unresolved : list LocateUnresolvedHop) (anchors : list LocateAnchor) : list jstr :=
  let prefixes := foldl (fun prefixes hop =>
    if is_hop_hex_len hop.(uh_prefix) then add_hop_prefix prefixes (toUpperCase hop.(uh_prefix)) else prefixes) [] unresolved in
  foldl (fun prefixes anchor =>
    match (if anchor.(an_kind) ≟ FirstHop then truthy anchor.(an_hop_prefix) else None) with
    | Some hop_prefix => if is_hop_hex_len hop_prefix then add_hop_prefix prefixes (toUpperCase hop_prefix) else prefixes
    | None => prefixes
    end) prefixes anchors.

(** The disk of a hop the directory knows, with what was known of the hop it replaces. *)
Definition hit_anchor (radius lat lon : num) (prefix : jstr) (hit : DirectoryHopHit) (heard_count last_seen : option Z)
    : LocateAnchor :=
  {| an_kind := FirstHop; an_corescope := true;
     an_name := truthy (Some hit.(dh_name)) ?? (truthy ((fun key => slice key 0 12) <$> hit.(dh_public_key)) ?? prefix);
     an_public_key := hit.(dh_public_key); an_hop_prefix := Some (toLowerCase prefix); an_lat := lat; an_lon := lon;
     an_radius_km := radius; an_snr := None; an_heard_count := heard_count; an_last_seen := last_seen;
     an_calibratable := match truthy hit.(dh_public_key) with Some _ => true | None => false end |}.

(** What becomes of one entry: it stays, it gets a disk, or it is listed as unresolved. *)
Inductive HopOutcome := Kept (anchor : LocateAnchor) | Replaced (anchor : LocateAnchor) | Unresolved (hop : LocateUnresolvedHop).

Definition anchor_outcome (radius : num) (hits : gmap jstr DirectoryHopHit) (requested : list jstr) (anchor : LocateAnchor)
    : HopOutcome :=
  match (if anchor.(an_kind) ≟ FirstHop then truthy anchor.(an_hop_prefix) else None) with
  | None => Kept anchor
  | Some hop_prefix =>
    let prefix := toUpperCase hop_prefix in
    if negb (is_hop_hex_len prefix) || negb (bool_decide (prefix ∈ (toUpperCase <$> requested))) then Kept anchor else
    match hits !! prefix with
    | None => Unresolved {| uh_prefix := prefix; uh_reason := UrUnmatched; uh_candidates := [] |}
    | Some hit =>
      match (if valid_position hit.(dh_lat) hit.(dh_lon) then lat ← hit.(dh_lat); lon ← hit.(dh_lon); Some (lat, lon) else None) with
      | None => Unresolved {| uh_prefix := prefix; uh_reason := UrNoGps; uh_candidates := [] |}
      | Some (lat, lon) => Replaced (hit_anchor radius lat lon prefix hit anchor.(an_heard_count) anchor.(an_last_seen))
      end
    end
  end.

Definition unresolved_outcome (radius : num) (hits : gmap jstr DirectoryHopHit) (hop : LocateUnresolvedHop) : HopOutcome :=
  let prefix := toUpperCase hop.(uh_prefix) in
  match hits !! prefix with
  | None => Unresolved hop
  | Some hit =>
    if negb (is_hop_hex_len prefix) then Unresolved hop else
    match (if valid_position hit.(dh_lat) hit.(dh_lon) then lat ← hit.(dh_lat); lon ← hit.(dh_lon); Some (lat, lon) else None) with
    | None => Unresolved {| uh_prefix := prefix; uh_reason := UrNoGps; uh_candidates := hop.(uh_candidates) |}
    | Some (lat, lon) => Replaced (hit_anchor radius lat lon prefix hit None None)
    end
  end.

Definition kept_of (o : HopOutcome) : option LocateAnchor := match o with Kept a => Some a | _ => None end.
Definition replaced_of (o : HopOutcome) : option LocateAnchor := match o with Replaced a => Some a | _ => None end.
Definition unresolved_of (o : HopOutcome) : option LocateUnresolvedHop := match o with Unresolved h => Some h | _ => None end.

Definition hop_outcomes (result : LocateResponse) (hits : gmap jstr DirectoryHopHit) (requestedPrefixes : list jstr)
    : list HopOutcome :=
  (anchor_outcome result.(lr_default_radius_km) hits requestedPrefixes <$> result.(lr_anchors))
  ++ (unresolved_outcome result.(lr_default_radius_km) hits <$> result.(lr_unresolved_hops)).

Definition applyHopOverlay (result : LocateResponse) (hits : gmap jstr DirectoryHopHit) (requestedPrefixes : list jstr)
    : LocateResponse :=
  let outcomes := hop_outcomes result hits requestedPrefixes in
  let anchors := dedupeAnchors (omap kept_of outcomes ++ omap replaced_of outcomes) in
  (((result <| lr_anchors := anchors |>) <| lr_unresolved_hops := omap unresolved_of outcomes |>)
     <| lr_source := sourceBadge anchors |>)
    <| lr_empty_reason := empty_reason_of anchors result.(lr_empty_reason) |>.

(** ** Radii *)

Definition LOCATE_RADIUS_MARGIN : num := num_dec 12 1.
Definition MIN_CALIBRATED_RADIUS_KM : num := num_of_Z 5.
Definition MAX_CALIBRATED_RADIUS_KM : num := num_of_Z 50.

Definition usable_distance (d : num) : bool := num_isFinite d && num_lt (num_of_Z 0) d.

Definition calibrateRadiusKm (distancesKm : list num) : option num :=
  match filter (fun d => usable_distance d = true) distancesKm with
  | [] => None
  | usable =>
    let raw := num_mul (foldl num_max (S754_infinity true) usable) LOCATE_RADIUS_MARGIN in
    Some (num_max MIN_CALIBRATED_RADIUS_KM (num_min MAX_CALIBRATED_RADIUS_KM raw))
  end.

Definition snrToOpacity (snr : option num) : num :=
  match snr with
  | None | Some S754_nan => num_dec 7 1
  | Some snr =>
    let t := num_max (num_of_Z 0) (num_min (num_of_Z 1) (num_div (num_add snr (num_of_Z 16)) (num_of_Z 24))) in
    num_add (num_dec 4 1) (num_mul t (num_dec 55 2))
  end.

Section bounds.
Context `{JsMath}.

(** The corners of the boxes around the disks, then the declared position. *)
Definition diskBounds (anchors : list LocateAnchor) (declaredGps : option LocateDeclaredGps) : list (num * num) :=
  let kmPerDegLat := num_of_Z 111 in
  (anchors ≫= fun anchor =>
    let latDelta := num_div anchor.(an_radius_km) kmPerDegLat in
    let lonScale := num_max (num_dec 2 1) (math_cos (num_div (num_mul anchor.(an_lat) math_pi) (num_of_Z 180))) in
    let lonDelta := num_div anchor.(an_radius_km) (num_mul kmPerDegLat lonScale) in
    [(num_sub anchor.(an_lat) latDelta, num_sub anchor.(an_lon) lonDelta);
     (num_add anchor.(an_lat) latDelta, num_add anchor.(an_lon) lonDelta)])
  ++ match declaredGps with Some gps => [(gps.(dg_lat), gps.(dg_lon))] | None => [] end.
End bounds.

(** The page that locates a node: the state and the requests of [components/LocatePane.tsx].

    A request is put in flight with the run of the effect that sent it; the effect's cleanup
    cancels the run. The two requests to the community are answered together, as [Promise.all]
    waits for them, [None] standing for one that failed. The candidates a refusal carries are the
    objects of its detail. [lw_selected] lists the calls of [onSelectLocate]. *)

(** What the list under the search offers: a contact or directory node, or a candidate of the server. *)
Inductive PickEntry := PkCandidate (c : LocateCandidate) | PkDetail (j : Json).

Inductive LocateError :=
| LeMessage (message : jstr)
| LeDetail (detail : jstr)
| LeLoadFailed
| LeCalibrateEmpty
| LeCalibrateFailed.

Inductive LocateFlight :=
| FlLocate (run : nat)
| FlCommunity (run : nat) (payload : LocateResponse) (prefixes : list jstr)
| FlNeighbors (anchor : LocateAnchor) (contacts : list Contact)
| FlSearch (run : nat).

(** A neighbour of a disk's node: placed by the directory, or named by the radio. *)
Inductive NeighborReply :=
| NbPlaced (ambiguous : bool) (lat lon : option num)
| NbNamed (pubkey_prefix : jstr).

Record LocateProps := {
  lp_locateKey : option jstr;
  lp_directoryEnabled : bool;
  lp_language : Z;
  lp_contacts : list Contact;
}.

Record LocateState := {
  ls_props : LocateProps;
  ls_query : jstr;
  ls_loading : bool;
  ls_communityPending : bool;
  ls_communityError : bool;
  ls_error : option LocateError;
  ls_result : option LocateResponse;
  ls_candidates : list PickEntry;
  ls_radiusOverrides : gmap jstr num;
  ls_calibratingKey : option jstr;
  ls_directoryHits : list LocateCandidate;
}.
#[export] Instance LocateState_eta : Eta LocateState := fun s =>
  Build_LocateState s.(ls_props) s.(ls_query) s.(ls_loading) s.(ls_communityPending) s.(ls_communityError) s.(ls_error)
    s.(ls_result) s.(ls_candidates) s.(ls_radiusOverrides) s.(ls_calibratingKey) s.(ls_directoryHits).

(** [lw_run] numbers the runs of the effect that locates; the last one is live when [lw_live].
    [lw_search] is the needle the effect that searches the directory runs for, [lw_searchTimer]
    whether its timer is set, [lw_searchRun] its run. *)
Record LocateWorld := {
  lw_state : LocateState;
  lw_run : nat;
  lw_live : bool;
  lw_flights : gmap nat LocateFlight;
  lw_next : nat;
  lw_selected : list jstr;
  lw_search : option jstr;
  lw_searchRun : nat;
  lw_searchTimer : bool;
}.
#[export] Instance LocateWorld_eta : Eta LocateWorld := fun w =>
  Build_LocateWorld w.(lw_state) w.(lw_run) w.(lw_live) w.(lw_flights) w.(lw_next) w.(lw_selected) w.(lw_search) w.(lw_searchRun) w.(lw_searchTimer).

Definition put (f : LocateState -> LocateState) (w : LocateWorld) : LocateWorld := w <| lw_state := f w.(lw_state) |>.

Definition depart (f : LocateFlight) (w : LocateWorld) : LocateWorld :=
  (w <| lw_flights := <[w.(lw_next) := f]> w.(lw_flights) |>) <| lw_next := S w.(lw_next) |>.

Definition cancelled (run : nat) (w : LocateWorld) : bool := negb w.(lw_live) || negb (run =? w.(lw_run))%nat.

(** ** The effect that locates *)

(** A key that is an empty string counts as none. *)
Definition key_of (p : LocateProps) : option jstr := truthy p.(lp_locateKey).

Definition locate_effect (w : LocateWorld) : LocateWorld :=
  let w := w <| lw_run := S w.(lw_run) |> in
  match key_of w.(lw_state).(ls_props) with
  | None => w <| lw_live := false |>
  | Some _ => depart (FlLocate w.(lw_run)) (w <| lw_live := true |>)
  end.

(** The states adjusted during a render with other inputs. *)
Definition reset_request (s : LocateState) : LocateState :=
  match key_of s.(ls_props) with
  | None =>
    ((((s <| ls_result := None |>) <| ls_candidates := [] |>) <| ls_error := None |>)
       <| ls_communityPending := false |>) <| ls_communityError := false |>
  | Some _ =>
    (((((s <| ls_loading := true |>) <| ls_error := None |>) <| ls_candidates := [] |>)
        <| ls_radiusOverrides := ∅ |>) <| ls_communityPending := false |>) <| ls_communityError := false |>
  end.

Definition same_request (p q : LocateProps) : bool :=
  (p.(lp_locateKey) ≟ q.(lp_locateKey)) && Bool.eqb p.(lp_directoryEnabled) q.(lp_directoryEnabled)
  && (p.(lp_language) =? q.(lp_language)).

Definition locate_render (q : LocateProps) (w : LocateWorld) : LocateWorld :=
  let p := w.(lw_state).(ls_props) in
  let w := put (fun s => s <| ls_props := q |>) w in
  let w := if p.(lp_locateKey) ≟ q.(lp_locateKey) then w
           else put (fun s => s <| ls_query := default [] q.(lp_locateKey) |>) w in
  if same_request p q then w else locate_effect (put reset_request w).

Definition locate_mount (p : LocateProps) : LocateWorld :=
  locate_effect
    {| lw_state := {| ls_props := p; ls_query := default [] p.(lp_locateKey);
                      ls_loading := match key_of p with Some _ => true | None => false end;
                      ls_communityPending := false; ls_communityError := false; ls_error := None; ls_result := None;
                      ls_candidates := []; ls_radiusOverrides := ∅; ls_calibratingKey := None; ls_directoryHits := [] |};
       lw_run := 0; lw_live := false; lw_flights := ∅; lw_next := 0; lw_selected := [];
       lw_search := None; lw_searchRun := 0; lw_searchTimer := false |}.

Definition locate_unmount (w : LocateWorld) : LocateWorld :=
  ((w <| lw_live := false |>) <| lw_searchRun := S w.(lw_searchRun) |>) <| lw_searchTimer := false |>.

(** ** Replies *)

Definition isAmbiguousDetail (detail : option Json) : option (list Json) :=
  match detail with
  | Some (Jobject fields) =>
    match om_get fields (js "reason"), om_get fields (js "candidates") with
    | Some (Jstring reason), Some (Jarray l) => if reason ≟ js "ambiguous" then Some l else None
    | _, _ => None
    end
  | _ => None
  end.

Definition locate_failed (err : JsError) (s : LocateState) : LocateState :=
  let s := s <| ls_loading := false |> in
  match err with
  | ErrApi e =>
    match (if e.(ae_status) =? 409 then isAmbiguousDetail e.(ae_detail) else None) with
    | Some candidates => (s <| ls_result := None |>) <| ls_candidates := PkDetail <$> candidates |>
    | None =>
      if e.(ae_status) =? 400 then
        (s <| ls_result := None |>)
          <| ls_error := Some (match e.(ae_detail) with
                               | Some (Jstring detail) => LeDetail detail
                               | _ => LeMessage e.(ae_message)
                               end) |>
      else (s <| ls_result := None |>) <| ls_error := Some (LeMessage e.(ae_message)) |>
    end
  | ErrError _ message => (s <| ls_result := None |>) <| ls_error := Some (LeMessage message) |>
  | ErrOther _ => (s <| ls_result := None |>) <| ls_error := Some LeLoadFailed |>
  end.

Definition locate_answered (run : nat) (answer : LocateResponse + JsError) (w : LocateWorld) : LocateWorld :=
  if cancelled run w then w else
  match answer with
  | inl payload =>
    let w := put (fun s => (s <| ls_result := Some payload |>) <| ls_loading := false |>) w in
    match payload.(lr_identity) with
    | Some _ =>
      if negb w.(lw_state).(ls_props).(lp_directoryEnabled) then w else
      depart (FlCommunity run payload (firstHopPrefixes payload.(lr_unresolved_hops) payload.(lr_anchors)))
        (put (fun s => s <| ls_communityPending := true |>) w)
    | None => w
    end
  | inr err => put (locate_failed err) w
  end.

Definition overlays_answered (run : nat) (payload : LocateResponse) (prefixes : list jstr)
    (reach : option DirectoryReachResponse) (hops : option (gmap jstr DirectoryHopHit)) (w : LocateWorld) : LocateWorld :=
  if cancelled run w then w else
  let hops := if prefixes ≟ [] then None else hops in
  let next := mergeReachOverlay payload reach in
  let next := match hops with Some hits => applyHopOverlay next hits prefixes | None => next end in
  let w := match reach, hops with None, None => put (fun s => s <| ls_communityError := true |>) w | _, _ => w end in
  put (fun s => (s <| ls_result := Some next |>) <| ls_communityPending := false |>) w.

(** ** Calibration *)

Section calibration.
Context `{JsMath}.

(** [distance == null] where a position is missing; a position out of range is passed over. *)
Definition neighbor_distance (anchor : LocateAnchor) (contacts : list Contact) (neighbor : NeighborReply) : option num :=
  match neighbor with
  | NbPlaced ambiguous lat lon =>
    if ambiguous || negb (isValidLocation lat lon) then None
    else calculateDistance (Some anchor.(an_lat)) (Some anchor.(an_lon)) lat lon
  | NbNamed pubkey_prefix =>
    contact ← array_find (fun contact =>
      startsWith (toLowerCase contact.(c_public_key)) (toLowerCase pubkey_prefix)
      && isValidLocation contact.(c_lat) contact.(c_lon)) contacts;
    calculateDistance (Some anchor.(an_lat)) (Some anchor.(an_lon)) contact.(c_lat) contact.(c_lon)
  end.

Definition calibrateAnchor (anchor : LocateAnchor) (w : LocateWorld) : LocateWorld :=
  match truthy anchor.(an_public_key) with
  | None => w
  | Some key =>
    depart (FlNeighbors anchor w.(lw_state).(ls_props).(lp_contacts)) (put (fun s => s <| ls_calibratingKey := Some key |>) w)
  end.

Definition neighbors_answered (anchor : LocateAnchor) (contacts : list Contact) (answer : list NeighborReply + JsError)
    (s : LocateState) : LocateState :=
  let s :=
    match answer with
    | inl neighbors =>
      match calibrateRadiusKm (omap (neighbor_distance anchor contacts) neighbors) with
      | None => s <| ls_error := Some LeCalibrateEmpty |>
      | Some nextRadius =>
        (s <| ls_radiusOverrides := <[anchor.(an_public_key) ?? [] := nextRadius]> s.(ls_radiusOverrides) |>)
          <| ls_error := None |>
      end
    | inr (ErrApi e) => s <| ls_error := Some (LeMessage e.(ae_message)) |>
    | inr (ErrError _ message) => s <| ls_error := Some (LeMessage message) |>
    | inr (ErrOther _) => s <| ls_error := Some LeCalibrateFailed |>
    end in
  s <| ls_calibratingKey := None |>.

(** The disks on the map. *)
Definition anchor_override_key (num_str : num -> jstr) (anchor : LocateAnchor) : jstr :=
  match anchor.(an_public_key) with
  | Some key => key
  | None => kind_str anchor.(an_kind) ++ js ":" ++ num_str anchor.(an_lat) ++ js ":" ++ num_str anchor.(an_lon)
  end.
Definition shown_anchors (num_str : num -> jstr) (s : LocateState) : list LocateAnchor :=
  match s.(ls_result) with
  | None => []
  | Some result =>
    (fun anchor =>
      match s.(ls_radiusOverrides) !! anchor_override_key num_str anchor with
      | Some override => anchor <| an_radius_km := override |>
      | None => anchor
      end) <$> result.(lr_anchors)
  end.

(** ** The search box *)

Definition hex_any (c : Z) : bool := is_digit c || in_range 97 102 c || in_range 65 70 c.
Definition PUBKEY_RE : regex := ReSeq ReStart (ReSeq (ReTimes 64 (ReChar hex_any)) ReEnd).
Definition HEX_RE : regex := ReSeq ReStart (ReSeq (RePlus (ReChar hex_any)) ReEnd).

(** [lowerName] lowers a name, which may hold any character. *)
Context (lowerName : jstr -> jstr).

Definition toCandidate (contact : Contact) : LocateCandidate :=
  {| lc_public_key := contact.(c_public_key); lc_name := contact.(c_name); lc_type := Some contact.(c_type);
     lc_last_seen := contact.(c_last_seen); lc_role := None |}.

Definition localSuggestions (s : LocateState) : list LocateCandidate :=
  let needle := lowerName (trim s.(ls_query)) in
  if (needle ≟ []) || re_test PUBKEY_RE needle then [] else
  toCandidate <$> take 12 (filter (fun contact =>
    str_includes (lowerName (contact.(c_name) ?? [])) needle || startsWith (toLowerCase contact.(c_public_key)) needle = true)
    s.(ls_props).(lp_contacts)).

Definition directory_needle (s : LocateState) : option jstr :=
  let needle := trim s.(ls_query) in
  if s.(ls_props).(lp_directoryEnabled) && (len (localSuggestions s) =? 0) && (3 <=? len needle)
     && negb (re_test PUBKEY_RE needle)
  then Some needle else None.

(** The effect that searches, after a change of what it depends on. *)
Definition search_effect (w : LocateWorld) : LocateWorld :=
  let needle := directory_needle w.(lw_state) in
  if w.(lw_search) ≟ needle then w else
  let w := match needle with Some _ => w | None => put (fun s => s <| ls_directoryHits := [] |>) w end in
  ((w <| lw_search := needle |>) <| lw_searchRun := S w.(lw_searchRun) |>)
    <| lw_searchTimer := match needle with Some _ => true | None => false end |>.

Definition search_timer (w : LocateWorld) : LocateWorld :=
  if w.(lw_searchTimer) then depart (FlSearch w.(lw_searchRun)) (w <| lw_searchTimer := false |>) else w.

Definition search_answered (run : nat) (nodes : option (list LocateCandidate)) (w : LocateWorld) : LocateWorld :=
  if negb (run =? w.(lw_searchRun))%nat then w else
  put (fun s => s <| ls_directoryHits := match nodes with Some nodes => take 12 nodes | None => [] end |>) w.

Definition select_locate (key : jstr) (w : LocateWorld) : LocateWorld := w <| lw_selected := w.(lw_selected) ++ [key] |>.

(** What the list under the search offers, and whether it is shown before a search. *)
Definition pickList (s : LocateState) : list PickEntry :=
  match s.(ls_candidates), localSuggestions s with
  | _ :: _ as candidates, _ => candidates
  | [], (_ :: _ as suggestions) => PkCandidate <$> suggestions
  | [], [] => PkCandidate <$> s.(ls_directoryHits)
  end.
Definition showTypeahead (s : LocateState) : bool :=
  match key_of s.(ls_props) with None => (len s.(ls_candidates) =? 0) && (0 <? len (pickList s)) | Some _ => false end.

(** The map is shown while there is a disk, a declared position, or an answer to wait for. *)
Definition showMap (num_str : num -> jstr) (s : LocateState) : bool :=
  (0 <? len (shown_anchors num_str s))
  || match s.(ls_result) ≫= lr_declared_gps with Some _ => true | None => false end || s.(ls_communityPending).
Definition showEmpty (num_str : num -> jstr) (s : LocateState) : bool :=
  ((s.(ls_result) ≫= lr_empty_reason) ≟ Some NoAnchors) && negb s.(ls_communityPending) && (len (shown_anchors num_str s) =? 0).

(** What [directoryHits] offers after the local contacts. *)
Definition submit_directory (next : jstr) (w : LocateWorld) : LocateWorld :=
  match w.(lw_state).(ls_directoryHits) with
  | [hit] => select_locate hit.(lc_public_key) w
  | _ :: _ as hits => put (fun s => s <| ls_candidates := PkCandidate <$> hits |>) w
  | [] => select_locate next w
  end.

Definition handleSubmit (w : LocateWorld) : LocateWorld :=
  let next := trim w.(lw_state).(ls_query) in
  if next ≟ [] then w
  else if re_test PUBKEY_RE next then select_locate (toLowerCase next) w
  else if re_test HEX_RE next && (len next =? 2) then w
  else match localSuggestions w.(lw_state) with
       | [suggestion] => select_locate suggestion.(lc_public_key) w
       | _ :: _ as suggestions => put (fun s => s <| ls_candidates := PkCandidate <$> suggestions |>) w
       | [] => submit_directory next w
       end.

(** The button is disabled on an empty query and while loading. *)
Definition press_submit (w : LocateWorld) : LocateWorld :=
  if (trim w.(lw_state).(ls_query) ≟ []) || w.(lw_state).(ls_loading) then w else handleSubmit w.

(** ** Steps *)

Inductive LocateAnswer :=
| AnLocate (answer : LocateResponse + JsError)
| AnCommunity (reach : option DirectoryReachResponse) (hops : option (gmap jstr DirectoryHopHit))
| AnNeighbors (answer : list NeighborReply + JsError)
| AnSearch (nodes : option (list LocateCandidate)).

Inductive LocateEvent :=
| LvRender (p : LocateProps)
| LvType (query : jstr)
| LvSubmit
| LvCalibrate (anchor : LocateAnchor)
| LvSearchTimer
| LvAnswer (id : nat) (answer : LocateAnswer)
| LvUnmount.

Definition locate_landed (id : nat) (answer : LocateAnswer) (w : LocateWorld) : LocateWorld :=
  match w.(lw_flights) !! id with
  | None => w
  | Some flight =>
    let w' := w <| lw_flights := delete id w.(lw_flights) |> in
    match flight, answer with
    | FlLocate run, AnLocate answer => locate_answered run answer w'
    | FlCommunity run payload prefixes, AnCommunity reach hops => overlays_answered run payload prefixes reach hops w'
    | FlNeighbors anchor contacts, AnNeighbors answer => put (neighbors_answered anchor contacts answer) w'
    | FlSearch run, AnSearch nodes => search_answered run nodes w'
    | _, _ => w
    end
  end.

Definition locate_step (w : LocateWorld) (e : LocateEvent) : LocateWorld :=
  match e with
  | LvRender p => search_effect (locate_render p w)
  | LvType query => search_effect (put (fun s => s <| ls_query := query |>) w)
  | LvSubmit => press_submit w
  | LvCalibrate anchor => calibrateAnchor anchor w
  | LvSearchTimer => search_timer w
  | LvAnswer id answer => locate_landed id answer w
  | LvUnmount => locate_unmount w
  end.
(** The page as it is first shown. *)
Definition locate_page (p : LocateProps) : LocateWorld := search_effect (locate_mount p).
Definition locate_run : list LocateEvent -> LocateWorld -> LocateWorld := flip (foldl locate_step).
End calibration.
