(* ===== verification/LocateProofs.v ===== *)
(** What locating a node promises: the disks of the overlays ([dedupeAnchors], the hops accounted
    for, the calibrated radius), and the page: its spinners, and the request its result answers. *)
From Stdlib Require Import SpecFloat.
From S2P Require Import Prelude JsString JsCollections JsNum Types Json Regex PathUtils ApiErrors Locate.

(** ** Disks *)

Lemma dedupe_from_spec seen anchors :
  NoDup (anchor_key <$> dedupe_anchors_from seen anchors)
  /\ (forall k, k ∈ anchor_key <$> dedupe_anchors_from seen anchors -> k ∉ seen)
  /\ sublist (dedupe_anchors_from seen anchors) anchors
  /\ (forall a, a ∈ anchors -> anchor_key a ∈ seen \/ anchor_key a ∈ anchor_key <$> dedupe_anchors_from seen anchors).
Proof.
  revert seen. induction anchors as [|x l IH]; intros seen; cbn [dedupe_anchors_from].
  - split; [constructor|]. split; [by intros k ?%elem_of_nil|]. split; [constructor|by intros a ?%elem_of_nil].
  - case_bool_decide as Hx.
    + destruct (IH seen) as (Hnd & Hns & Hsub & Hall). split; [done|]. split; [done|]. split; [by constructor|].
      intros a [->|Ha]%elem_of_cons; [by left|by apply Hall].
    + destruct (IH ({[anchor_key x]} ∪ seen)) as (Hnd & Hns & Hsub & Hall). rewrite fmap_cons. split.
      { constructor; [|done]. intros Hin. apply Hns in Hin. set_solver. }
      split; [intros k [->|Hk]%elem_of_cons; [done|apply Hns in Hk; set_solver]|].
      split; [by constructor|]. intros a [->|Ha]%elem_of_cons; [right; by left|].
      destruct (Hall a Ha) as [Hs|Hi]; [|right; by right]. apply elem_of_union in Hs as [->%elem_of_singleton|]; [right; by left|by left].
Qed.

(** The disks of a list, each place and kind once; no place is lost. *)
Lemma dedupe_spec anchors :
  NoDup (anchor_key <$> dedupeAnchors anchors) /\ sublist (dedupeAnchors anchors) anchors
  /\ forall a, a ∈ anchors -> anchor_key a ∈ anchor_key <$> dedupeAnchors anchors.
Proof.
  destruct (dedupe_from_spec ∅ anchors) as (Hnd & _ & Hsub & Hall). split; [done|]. split; [done|].
  intros a Ha. destruct (Hall a Ha) as [?%elem_of_empty|?]; done.
Qed.

(** A response drawn by an overlay: disks of distinct places, a reason to be empty exactly when
    there are none, and a badge that tells whose disks they are. *)
Record drawn (r : LocateResponse) : Prop := {
  dw_distinct : NoDup (anchor_key <$> r.(lr_anchors));
  dw_empty : is_Some r.(lr_empty_reason) <-> r.(lr_anchors) = [];
  dw_local : r.(lr_source) = Some SrcLocal <-> r.(lr_anchors) <> [] /\ Forall (fun a => a.(an_corescope) = false) r.(lr_anchors);
  dw_mixed : r.(lr_source) = Some SrcMixte <->
    Exists (fun a => a.(an_corescope) = false) r.(lr_anchors) /\ Exists (fun a => a.(an_corescope) = true) r.(lr_anchors);
}.

Lemma forallb_spec {A} (f : A -> bool) l : forallb f l = true <-> Forall (fun x => f x = true) l.
Proof. induction l as [|x l IH]; cbn; [done|]. by rewrite Forall_cons, andb_true_iff, IH. Qed.

Lemma forallb_false {A} (f : A -> bool) l : forallb f l = false <-> Exists (fun x => f x = false) l.
Proof.
  induction l as [|x l IH]; cbn; [by rewrite Exists_nil|]. rewrite Exists_cons, andb_false_iff, IH. done.
Qed.

Lemma drawn_parts r anchors before :
  NoDup (anchor_key <$> anchors) -> r.(lr_anchors) = anchors -> r.(lr_source) = sourceBadge anchors ->
  r.(lr_empty_reason) = empty_reason_of anchors before -> drawn r.
Proof.
  intros Hnd Ha Hs He. split; rewrite Ha.
  - done.
  - rewrite He. destruct anchors as [|x l]; cbn.
    + split; [done|]. intros _. by destruct (before ≟ Some DirectoryOff).
    + split; [by intros []|done].
  - rewrite Hs. unfold sourceBadge. destruct anchors as [|x l]; [split; [done|by intros []]|].
    destruct (forallb (fun anchor => negb (an_corescope anchor)) (x :: l)) eqn:E1.
    + apply forallb_spec in E1. split; [|done]. intros _. split; [done|].
      eapply Forall_impl; [exact E1|]. intros a. apply negb_true_iff.
    + apply forallb_false in E1. split; [by destruct (forallb _ _)|]. intros [_ Hall].
      apply Exists_exists in E1 as (a & Hin & Hn). rewrite Forall_forall in Hall. rewrite (Hall a Hin) in Hn. done.
  - rewrite Hs. unfold sourceBadge. destruct anchors as [|x l]; [split; [done|by intros [?%Exists_nil _]]|].
    destruct (forallb (fun anchor => negb (an_corescope anchor)) (x :: l)) eqn:E1.
    + apply forallb_spec in E1. split; [done|]. intros [_ He2]. apply Exists_exists in He2 as (a & Hin & Hn).
      rewrite Forall_forall in E1. specialize (E1 a Hin). by rewrite Hn in E1.
    + apply forallb_false in E1. destruct (forallb an_corescope (x :: l)) eqn:E2.
      * apply forallb_spec in E2. split; [done|]. intros [He1 _]. apply Exists_exists in He1 as (a & Hin & Hn).
        rewrite Forall_forall in E2. specialize (E2 a Hin). by rewrite Hn in E2.
      * apply forallb_false in E2. split; [|done]. intros _. split; [exact E2|].
        eapply Exists_impl; [exact E1|]. intros a. apply negb_false_iff.
Qed.

(** Both overlays draw. *)
Theorem merged_reach_drawn (result : LocateResponse) (reach : DirectoryReachResponse) :
  drawn (mergeReachOverlay result (Some reach)).
Proof. by eapply drawn_parts; [apply dedupe_spec|..]. Qed.

Theorem hop_overlay_drawn (result : LocateResponse) (hits : gmap jstr DirectoryHopHit) (requested : list jstr) :
  drawn (applyHopOverlay result hits requested).
Proof. by eapply drawn_parts; [apply dedupe_spec|..]. Qed.

(** ** Hops accounted for *)

(** What stands for an outcome in a response. *)
Definition accounted (r : LocateResponse) (o : HopOutcome) : Prop :=
  match o with
  | Kept a | Replaced a => anchor_key a ∈ anchor_key <$> r.(lr_anchors)
  | Unresolved h => h ∈ r.(lr_unresolved_hops)
  end.

(** The hop overlay loses nothing: each disk and each unresolved hop it is given stays, is replaced by
    the disk of the directory, at a valid place, or is listed as unresolved under its prefix. *)
Theorem hops_accounted (result : LocateResponse) (hits : gmap jstr DirectoryHopHit) (requested : list jstr) :
  let r := applyHopOverlay result hits requested in
  Forall (accounted r) (hop_outcomes result hits requested)
  /\ length (hop_outcomes result hits requested)
     = (length result.(lr_anchors) + length result.(lr_unresolved_hops))%nat
  /\ length r.(lr_unresolved_hops)
     = length (filter (fun o => is_Some (unresolved_of o)) (hop_outcomes result hits requested)).
Proof.
  intros r. set (outcomes := hop_outcomes result hits requested). split; [|split].
  - apply Forall_forall. intros o Ho. destruct o as [a|a|h]; cbn.
    + apply (dedupe_spec (omap kept_of outcomes ++ omap replaced_of outcomes)), elem_of_app. left.
      apply list_elem_of_omap. by exists (Kept a).
    + apply (dedupe_spec (omap kept_of outcomes ++ omap replaced_of outcomes)), elem_of_app. right.
      apply list_elem_of_omap. by exists (Replaced a).
    + apply list_elem_of_omap. by exists (Unresolved h).
  - subst outcomes. unfold hop_outcomes. by rewrite length_app, !length_fmap.
  - change (lr_unresolved_hops r) with (omap unresolved_of outcomes). clearbody outcomes. clear r.
    induction outcomes as [|o l IH]; [done|]. rewrite filter_cons. cbn [omap list_omap].
    destruct o as [a|a|h]; cbn [unresolved_of].
    + rewrite decide_False by by intros []. exact IH.
    + rewrite decide_False by by intros []. exact IH.
    + rewrite decide_True by done. cbn. by f_equal.
Qed.

(** A hop that was asked about and that the directory does not know loses its disk and is listed. *)
Theorem unmatched_hop_revoked (radius : num) (hits : gmap jstr DirectoryHopHit) (requested : list jstr) (a : LocateAnchor) (prefix : jstr) :
  a.(an_kind) = FirstHop -> a.(an_hop_prefix) = Some prefix -> len prefix = 4 \/ len prefix = 6 ->
  prefix ∈ requested -> hits !! toUpperCase prefix = None ->
  anchor_outcome radius hits requested a
  = Unresolved {| uh_prefix := toUpperCase prefix; uh_reason := UrUnmatched; uh_candidates := [] |}.
Proof.
  intros Hk Hp Hl Hin Hm. unfold anchor_outcome. rewrite bool_decide_true by done. rewrite Hp.
  destruct prefix as [|c s]; [by destruct Hl as [Hl|Hl]; cbn in Hl|]. cbn [truthy].
  assert (Hh : is_hop_hex_len (toUpperCase (c :: s)) = true).
  { unfold is_hop_hex_len. rewrite len_toUpperCase. destruct Hl as [-> | ->]; done. }
  rewrite Hh, bool_decide_true, Hm by by apply list_elem_of_fmap_2. done.
Qed.

Lemma sublist_elem {A} (l k : list A) x : sublist l k -> x ∈ l -> x ∈ k.
Proof. induction 1; set_solver. Qed.

(** A node that heard directly gets no disk of a first hop from the community. *)
Theorem no_hop_of_a_direct_ear (result : LocateResponse) (reach : DirectoryReachResponse) (a ear : LocateAnchor) (key : jstr) :
  let r := mergeReachOverlay result (Some reach) in
  a ∈ r.(lr_anchors) -> a ∉ result.(lr_anchors) -> a.(an_kind) = FirstHop -> a.(an_public_key) = Some key ->
  ear ∈ r.(lr_anchors) -> ear.(an_kind) <> FirstHop -> toLowerCase <$> ear.(an_public_key) <> Some key.
Proof.
  intros r Ha Hna Hk Hkey Hear Hd Heq.
  set (radius := result.(lr_default_radius_km)) in *.
  set (observers := omap (observer_anchor radius) reach.(dr_observers)) in *.
  set (ears := directEarKeys result.(lr_anchors) observers) in *.
  set (hops := omap (first_hop_anchor radius ears) reach.(dr_first_hops)) in *.
  assert (Hsub : forall x, x ∈ r.(lr_anchors) -> x ∈ result.(lr_anchors) \/ x ∈ observers \/ x ∈ hops).
  { intros x Hx. apply (sublist_elem _ (result.(lr_anchors) ++ (observers ++ hops))) in Hx;
      [by rewrite !elem_of_app in Hx|apply dedupe_spec]. }
  assert (Hh : forall x, x ∈ hops -> x.(an_kind) = FirstHop /\ (forall k, x.(an_public_key) = Some k -> k ∉ ears /\ k <> [])).
  { intros x (hop & _ & Hx)%list_elem_of_omap. unfold first_hop_anchor in Hx. destruct (negb _); [done|]. cbn zeta in Hx.
    destruct (truthy (toLowerCase <$> rf_public_key hop)) as [k|] eqn:Ek; [|by injection Hx as <-].
    case_bool_decide as Hb; [done|]. injection Hx as <-. split; [done|]. cbn. intros k' [= <-]. split; [done|].
    intros ->. by destruct (rf_public_key hop) as [[|? ?]|]. }
  assert (Ho : forall x, x ∈ observers -> x.(an_kind) = Corescope0hop).
  { intros x (o & _ & Hx)%list_elem_of_omap. unfold observer_anchor in Hx. destruct (negb _); [done|].
    destruct (ro_lat o); [|done]. destruct (ro_lon o); [|done]. by injection Hx as <-. }
  destruct (Hsub a Ha) as [|[Hin|Hin]]; [done|apply Ho in Hin; congruence|].
  destruct (Hh a Hin) as [_ Hkk]. destruct (Hkk key Hkey) as [Hni Hne]. apply Hni.
  assert (He : ear ∈ result.(lr_anchors) ++ observers).
  { destruct (Hsub ear Hear) as [|[|Hin2]]; [apply elem_of_app; by left|apply elem_of_app; by right|].
    by apply Hh in Hin2 as [? _]. }
  unfold ears, directEarKeys. apply elem_of_list_to_set, list_elem_of_omap. exists ear. split; [done|].
  unfold is_direct. rewrite bool_decide_false by done. cbn [negb].
  destruct (an_public_key ear) as [[|c s]|]; cbn in Heq; [|exact Heq|done]. injection Heq as Heq. by subst.
Qed.

(** ** Radii *)

Lemma num_max_either x y : x <> S754_nan -> y <> S754_nan -> num_max x y = x \/ num_max x y = y.
Proof.
  intros Hx Hy. unfold num_max. destruct (SFcompare x y) as [[]|] eqn:E; [|by right|by left|].
  - destruct x as [[]| | |]; auto.
  - by apply SFcompare_None in E as [].
Qed.

Lemma usable_spec d : usable_distance d = true -> exists m e, d = S754_finite false m e.
Proof. unfold usable_distance. intros [Hf Hl]%andb_true_iff. destruct d as [[]|[]| |[] m e]; try done. by exists m, e. Qed.

Lemma max_usable l x :
  (exists m e, x = S754_finite false m e) -> Forall (fun d => usable_distance d = true) l ->
  exists m e, foldl num_max x l = S754_finite false m e.
Proof.
  intros Hx Hl. revert x Hx. induction Hl as [|d l Hd Hl IH]; intros x Hx; [done|]. cbn [foldl]. apply IH.
  destruct (usable_spec d Hd) as (m & e & ->). destruct Hx as (m' & e' & ->).
  destruct (num_max_either (S754_finite false m' e') (S754_finite false m e)) as [-> | ->]; [done..|eauto|eauto].
Qed.

Lemma clamp_bounds x :
  x <> S754_nan ->
  let r := num_max MIN_CALIBRATED_RADIUS_KM (num_min MAX_CALIBRATED_RADIUS_KM x) in
  num_le MIN_CALIBRATED_RADIUS_KM r = true /\ num_le r MAX_CALIBRATED_RADIUS_KM = true.
Proof.
  intros Hx. unfold num_min. destruct (SFcompare MAX_CALIBRATED_RADIUS_KM x) as [c|] eqn:E;
    [|by apply SFcompare_None in E as []].
  destruct c; [by vm_compute..|]. unfold num_max.
  destruct (SFcompare MIN_CALIBRATED_RADIUS_KM x) as [c|] eqn:E2; [|by apply SFcompare_None in E2 as []].
  destruct c; [by vm_compute| |by vm_compute]. split.
  - unfold num_le, SFleb. by rewrite E2.
  - apply num_lt_total; [done|done|]. unfold num_lt, SFltb. by rewrite E.
Qed.

(** A calibrated radius lies between 5 and 50 km, and there is one exactly when some distance is
    usable: finite and positive. *)
Theorem calibrated_radius_bounded (distances : list num) :
  match calibrateRadiusKm distances with
  | Some radius => num_le MIN_CALIBRATED_RADIUS_KM radius = true /\ num_le radius MAX_CALIBRATED_RADIUS_KM = true
  | None => Forall (fun d => usable_distance d = false) distances
  end.
Proof.
  unfold calibrateRadiusKm. destruct (filter _ distances) as [|d l] eqn:E.
  - apply Forall_forall. intros x Hx. destruct (usable_distance x) eqn:Ex; [|done].
    assert (Hin : x ∈ filter (fun d => usable_distance d = true) distances) by by apply list_elem_of_filter.
    rewrite E in Hin. by apply elem_of_nil in Hin.
  - apply clamp_bounds. assert (Hall : Forall (fun d => usable_distance d = true) (d :: l)).
    { rewrite <- E. apply Forall_forall. by intros x [? _]%list_elem_of_filter. }
    apply Forall_cons in Hall as [Hd Hl]. cbn [foldl].
    assert (H0 : num_max (S754_infinity true) d = d) by (destruct (usable_spec d Hd) as (m & e & ->); done).
    rewrite H0. destruct (max_usable l d (usable_spec d Hd) Hl) as (m & e & ->).
    unfold num_mul, SFmul. change LOCATE_RADIUS_MARGIN with (S754_finite false 5404319552844595 (-52)).
    by apply binary_round_aux_not_nan.
Qed.

(** ** The page *)

(** The spinners of a live run stand for its requests, and runs are numbered as they go. *)
Record locate_ok (w : LocateWorld) : Prop := {
  lo_fresh id : (w.(lw_next) <= id)%nat -> w.(lw_flights) !! id = None;
  lo_live : w.(lw_live) = true -> is_Some (key_of w.(lw_state).(ls_props));
  lo_loading : w.(lw_live) = true ->
    w.(lw_state).(ls_loading) = true <-> exists id, w.(lw_flights) !! id = Some (FlLocate w.(lw_run));
  lo_once id id' : w.(lw_flights) !! id = Some (FlLocate w.(lw_run)) ->
    w.(lw_flights) !! id' = Some (FlLocate w.(lw_run)) -> id = id';
  lo_pending : w.(lw_live) = true ->
    w.(lw_state).(ls_communityPending) = true <-> exists id payload prefixes,
      w.(lw_flights) !! id = Some (FlCommunity w.(lw_run) payload prefixes);
  lo_phase id payload prefixes : w.(lw_flights) !! id = Some (FlCommunity w.(lw_run) payload prefixes) ->
    (forall id', w.(lw_flights) !! id' <> Some (FlLocate w.(lw_run)))
    /\ forall id' payload' prefixes', w.(lw_flights) !! id' = Some (FlCommunity w.(lw_run) payload' prefixes') -> id' = id;
  lo_past id f : w.(lw_flights) !! id = Some f ->
    match f with FlLocate run | FlCommunity run _ _ => (run <= w.(lw_run))%nat | _ => True end;
}.

(** Steps that only touch other parts of the state. *)
Lemma locate_ok_frame w w' :
  w'.(lw_state).(ls_props) = w.(lw_state).(ls_props) -> w'.(lw_state).(ls_loading) = w.(lw_state).(ls_loading) ->
  w'.(lw_state).(ls_communityPending) = w.(lw_state).(ls_communityPending) -> w'.(lw_run) = w.(lw_run) ->
  w'.(lw_live) = w.(lw_live) -> w'.(lw_flights) = w.(lw_flights) -> w'.(lw_next) = w.(lw_next) ->
  locate_ok w -> locate_ok w'.
Proof.
  intros Hp Hl Hc Hr Hv Hf Hn [H1 H2 H3 H4 H5 H6 H7]. split; rewrite ?Hp, ?Hl, ?Hc, ?Hr, ?Hv, ?Hf, ?Hn; done.
Qed.

(** Another request leaves, not of the effect that locates. *)
Lemma depart_other w f :
  match f with FlLocate _ | FlCommunity _ _ _ => False | _ => True end ->
  locate_ok w -> locate_ok (depart f w).
Proof.
  intros Hf [H1 H2 H3 H4 H5 H6 H7]. assert (Hn := H1 w.(lw_next) ltac:(lia)).
  assert (Hl : forall id g, match g with FlLocate _ | FlCommunity _ _ _ => True | _ => False end ->
    <[w.(lw_next) := f]> w.(lw_flights) !! id = Some g <-> w.(lw_flights) !! id = Some g).
  { intros id g Hg. destruct (decide (id = w.(lw_next))) as [->|Hne].
    - rewrite lookup_insert_eq, Hn. split; [|done]. intros [= ->]. by destruct g.
    - by rewrite lookup_insert_ne by congruence. }
  split; cbn.
  - intros id Hid. rewrite lookup_insert_ne by lia. apply H1. lia.
  - exact H2.
  - intros Hv. rewrite (H3 Hv). split; intros [id Hid]; exists id; by apply Hl.
  - intros id id' Hi Hi'. apply H4; by apply Hl.
  - intros Hv. rewrite (H5 Hv). split; intros (id & p & q & Hid); exists id, p, q; by apply Hl.
  - intros id p q Hid%Hl; [|done]. destruct (H6 _ _ _ Hid) as [Ha Hb]. split.
    + intros id' Hi%Hl; [by eapply Ha|done].
    + intros id' p' q' Hi%Hl; [by eapply Hb|done].
  - intros id g. rewrite lookup_insert_Some. intros [[_ <-]|[_ Hg]]; [by destruct f|by eapply H7].
Qed.

(** A request that is no longer of the live run lands. *)
Lemma land_other w id f :
  w.(lw_flights) !! id = Some f ->
  match f with FlLocate run | FlCommunity run _ _ => w.(lw_live) = true -> run <> w.(lw_run) | _ => True end ->
  locate_ok w -> locate_ok (w <| lw_flights := delete id w.(lw_flights) |>).
Proof.
  intros Hid Hf [H1 H2 H3 H4 H5 H6 H7]. split; cbn.
  - intros i Hi. rewrite lookup_delete_None. right. by apply H1.
  - exact H2.
  - intros Hv. rewrite (H3 Hv). split; intros [i Hi]; exists i.
    + rewrite lookup_delete_ne; [done|]. intros <-. rewrite Hid in Hi. injection Hi as ->. by apply (Hf Hv).
    + by apply lookup_delete_Some in Hi as [_ ?].
  - intros i i' [_ Hi]%lookup_delete_Some [_ Hi']%lookup_delete_Some. by eapply H4.
  - intros Hv. rewrite (H5 Hv). split; intros (i & p & q & Hi); exists i, p, q.
    + rewrite lookup_delete_ne; [done|]. intros <-. rewrite Hid in Hi. injection Hi as ->. by apply (Hf Hv).
    + by apply lookup_delete_Some in Hi as [_ ?].
  - intros i p q [_ Hi]%lookup_delete_Some. destruct (H6 _ _ _ Hi) as [Ha Hb]. split.
    + intros i' [_ Hi']%lookup_delete_Some. by eapply Ha.
    + intros i' p' q' [_ Hi']%lookup_delete_Some. by eapply Hb.
  - intros i g [_ Hi]%lookup_delete_Some. by eapply H7.
Qed.

(** A new run: nothing of it is under way yet but the request it sends. *)
Lemma new_run_ok w s :
  locate_ok w -> s.(ls_communityPending) = false ->
  (is_Some (key_of s.(ls_props)) -> s.(ls_loading) = true) ->
  locate_ok (locate_effect (w <| lw_state := s |>)).
Proof.
  intros [H1 H2 H3 H4 H5 H6 H7] Hc Hl. unfold locate_effect.
  change (key_of (ls_props (lw_state (set lw_run _ (set lw_state _ w))))) with (key_of s.(ls_props)).
  assert (Hold : forall i, w.(lw_flights) !! i <> Some (FlLocate (S w.(lw_run)))).
  { intros i Hi. apply H7 in Hi. lia. }
  assert (Holdc : forall i p q, w.(lw_flights) !! i <> Some (FlCommunity (S w.(lw_run)) p q)).
  { intros i p q Hi. apply H7 in Hi. lia. }
  destruct (key_of (ls_props s)) as [key|] eqn:Ek.
  - assert (Hn := H1 w.(lw_next) ltac:(lia)). split; cbn.
    + intros id Hid. rewrite lookup_insert_ne by lia. apply H1. lia.
    + by rewrite Ek.
    + intros _. split; [intros _; exists (lw_next w); by rewrite lookup_insert_eq|intros _; by apply Hl].
    + intros i i'. rewrite !lookup_insert_Some. intros [[<- _]|[_ Hi]] [[<- _]|[_ Hi']]; try done; by apply Hold in Hi || by apply Hold in Hi'.
    + intros _. rewrite Hc. split; [done|]. intros (i & p & q & Hi). rewrite lookup_insert_Some in Hi.
      destruct Hi as [[_ Hi]|[_ Hi]]; [done|by apply Holdc in Hi].
    + intros i p q. rewrite lookup_insert_Some. intros [[_ Hi]|[_ Hi]]; [done|by apply Holdc in Hi].
    + intros i f. rewrite lookup_insert_Some. intros [[_ <-]|[_ Hi]]; [done|]. apply H7 in Hi. destruct f; try done; lia.
  - split; cbn; try done.
    + intros i i' Hi. by apply Hold in Hi.
    + intros i p q Hi. by apply Holdc in Hi.
    + intros i f Hi. apply H7 in Hi. destruct f; try done; lia.
Qed.

Lemma search_frame `{JsMath} lowerName w : locate_ok w -> locate_ok (search_effect lowerName w).
Proof.
  intros Hok. unfold search_effect. case_bool_decide; [done|]. cbn zeta.
  destruct (directory_needle lowerName (lw_state w)); by eapply locate_ok_frame, Hok.
Qed.

Lemma locate_render_ok q w : locate_ok w -> locate_ok (locate_render q w).
Proof.
  intros Hok. unfold locate_render. cbn zeta. set (s0 := w.(lw_state)).
  set (s1 := (if s0.(ls_props).(lp_locateKey) ≟ q.(lp_locateKey) then s0 <| ls_props := q |>
              else (s0 <| ls_props := q |>) <| ls_query := default [] q.(lp_locateKey) |>)).
  assert (Hw : forall w', (if s0.(ls_props).(lp_locateKey) ≟ q.(lp_locateKey) then put (fun s => s <| ls_props := q |>) w
      else put (fun s => s <| ls_query := default [] q.(lp_locateKey) |>) (put (fun s => s <| ls_props := q |>) w)) = w' ->
      w' = w <| lw_state := s1 |>) by (intros w' <-; subst s1; by case_bool_decide).
  destruct (same_request (ls_props s0) q) eqn:Es; erewrite (Hw _ eq_refl).
  - assert (Hkey : s0.(ls_props).(lp_locateKey) = q.(lp_locateKey)).
    { unfold same_request in Es. apply andb_true_iff in Es as [Es _]. by apply andb_true_iff in Es as [?%bool_decide_eq_true _]. }
    destruct Hok as [H1 H2 H3 H4 H5 H6 H7].
    assert (Hs1 : s1.(ls_loading) = s0.(ls_loading) /\ s1.(ls_communityPending) = s0.(ls_communityPending)
                  /\ s1.(ls_props) = q) by (subst s1; by case_bool_decide).
    destruct Hs1 as (Hl & Hc & Hp). split; cbn; rewrite ?Hl, ?Hc, ?Hp; try done.
    intros Hv. unfold key_of. rewrite <- Hkey. exact (H2 Hv).
  - apply (new_run_ok w (reset_request s1)); [done|unfold reset_request; by destruct (key_of _)|].
    unfold reset_request. destruct (key_of (ls_props s1)) eqn:Ek; cbn; rewrite Ek; [done|by intros []].
Qed.

Lemma not_cancelled run w : cancelled run w = false -> w.(lw_live) = true /\ run = w.(lw_run).
Proof. unfold cancelled. intros [?%negb_false_iff ?%negb_false_iff%Nat.eqb_eq]%orb_false_iff. done. Qed.

Lemma is_cancelled run w : cancelled run w = true -> w.(lw_live) = true -> run <> w.(lw_run).
Proof. unfold cancelled. intros [H|H]%orb_true_iff Hv; [by rewrite Hv in H|]. by apply negb_true_iff, Nat.eqb_neq in H. Qed.

(** The answer of the live run ends its loading. *)
Lemma land_locate w id s :
  w.(lw_flights) !! id = Some (FlLocate w.(lw_run)) -> w.(lw_live) = true -> locate_ok w ->
  s.(ls_props) = w.(lw_state).(ls_props) -> s.(ls_loading) = false ->
  s.(ls_communityPending) = w.(lw_state).(ls_communityPending) ->
  let w' := (w <| lw_flights := delete id w.(lw_flights) |>) <| lw_state := s |> in
  locate_ok w' /\ s.(ls_communityPending) = false
  /\ (forall i p q, w'.(lw_flights) !! i <> Some (FlCommunity w.(lw_run) p q))
  /\ (forall i, w'.(lw_flights) !! i <> Some (FlLocate w.(lw_run))).
Proof.
  intros Hid Hv [H1 H2 H3 H4 H5 H6 H7] Hp Hl Hc w'.
  assert (Hno : forall i, w'.(lw_flights) !! i <> Some (FlLocate w.(lw_run))).
  { intros i Hi. apply (lookup_delete_Some (lw_flights w) id i) in Hi as [Hne Hi]. by apply Hne, (H4 id i). }
  assert (Hnoc : forall i p q, w.(lw_flights) !! i <> Some (FlCommunity w.(lw_run) p q)).
  { intros i p q Hi. by eapply (proj1 (H6 _ _ _ Hi)). }
  assert (Hpend : s.(ls_communityPending) = false).
  { rewrite Hc. destruct (ls_communityPending (lw_state w)) eqn:E; [|done].
    destruct (proj1 (H5 Hv) eq_refl) as (i & p & q & Hi). by apply Hnoc in Hi. }
  assert (Hnoc' : forall i p q, w'.(lw_flights) !! i <> Some (FlCommunity w.(lw_run) p q)).
  { intros i p q Hi. apply (lookup_delete_Some (lw_flights w) id i) in Hi as [_ Hi]. by apply Hnoc in Hi. }
  split; [|done]. split; subst w'; cbn in *.
  - intros i Hi. rewrite lookup_delete_None. right. by apply H1.
  - by rewrite Hp.
  - intros _. rewrite Hl. split; [done|]. intros [i Hi]. by apply Hno in Hi.
  - intros i i' Hi. by apply Hno in Hi.
  - intros _. rewrite Hpend. split; [done|]. intros (i & p & q & Hi). by apply Hnoc' in Hi.
  - intros i p q Hi. by apply Hnoc' in Hi.
  - intros i f [_ Hi]%lookup_delete_Some. by eapply H7.
Qed.

(** The requests to the community leave once the answer has landed. *)
Lemma depart_community w payload prefixes :
  w.(lw_live) = true -> w.(lw_state).(ls_communityPending) = true -> w.(lw_state).(ls_loading) = false ->
  (forall i p q, w.(lw_flights) !! i <> Some (FlCommunity w.(lw_run) p q)) ->
  (forall i, w.(lw_flights) !! i <> Some (FlLocate w.(lw_run))) ->
  is_Some (key_of w.(lw_state).(ls_props)) ->
  (forall id, (w.(lw_next) <= id)%nat -> w.(lw_flights) !! id = None) ->
  (forall id f, w.(lw_flights) !! id = Some f ->
    match f with FlLocate run | FlCommunity run _ _ => (run <= w.(lw_run))%nat | _ => True end) ->
  locate_ok (depart (FlCommunity w.(lw_run) payload prefixes) w).
Proof.
  intros Hv Hc Hl Hnoc Hno Hk H1 H7.
  assert (Hloc : forall i, <[w.(lw_next) := FlCommunity w.(lw_run) payload prefixes]> w.(lw_flights) !! i <> Some (FlLocate w.(lw_run))).
  { intros i. rewrite lookup_insert_Some. intros [[_ Hi]|[_ Hi]]; [done|by apply Hno in Hi]. }
  assert (Hcom : forall i p q, <[w.(lw_next) := FlCommunity w.(lw_run) payload prefixes]> w.(lw_flights) !! i
      = Some (FlCommunity w.(lw_run) p q) -> i = w.(lw_next)).
  { intros i p q. rewrite lookup_insert_Some. intros [[? _]|[_ Hi]]; [done|by apply Hnoc in Hi]. }
  split; cbn.
  - intros id Hid. rewrite lookup_insert_ne by lia. apply H1. lia.
  - done.
  - intros _. rewrite Hl. split; [done|]. intros [i Hi]. by apply Hloc in Hi.
  - intros i i' Hi. by apply Hloc in Hi.
  - intros _. rewrite Hc. split; [|done]. intros _. exists (lw_next w), payload, prefixes. by rewrite lookup_insert_eq.
  - intros i p q Hi. split; [done|]. intros i' p' q' Hi'. by rewrite (Hcom _ _ _ Hi), (Hcom _ _ _ Hi').
  - intros i f. rewrite lookup_insert_Some. intros [[_ <-]|[_ Hi]]; [done|by eapply H7].
Qed.

Lemma failed_frame err s :
  (locate_failed err s).(ls_props) = s.(ls_props) /\ (locate_failed err s).(ls_loading) = false
  /\ (locate_failed err s).(ls_communityPending) = s.(ls_communityPending).
Proof.
  unfold locate_failed. destruct err as [e|name m|p]; [|done..]. cbn zeta.
  destruct (if ae_status e =? 409 then _ else _); [done|]. by destruct (ae_status e =? 400).
Qed.

Lemma locate_answered_ok w id run answer :
  w.(lw_flights) !! id = Some (FlLocate run) -> locate_ok w ->
  locate_ok (locate_answered run answer (w <| lw_flights := delete id w.(lw_flights) |>)).
Proof.
  intros Hid Hok. unfold locate_answered.
  change (cancelled run (w <| lw_flights := _ |>)) with (cancelled run w). destruct (cancelled run w) eqn:Hc.
  { eapply land_other; [exact Hid|exact (is_cancelled run w Hc)|exact Hok]. }
  apply not_cancelled in Hc as [Hv ->]. assert (Hk := lo_live _ Hok Hv). destruct answer as [payload|err]; cbn zeta.
  - edestruct (land_locate w id ((w.(lw_state) <| ls_result := Some payload |>) <| ls_loading := false |>))
      as (Hok' & Hpend & Hnoc & Hno); [done..|].
    destruct (lr_identity payload); [|exact Hok'].
    match goal with |- locate_ok (if ?b then _ else _) => destruct b end; [exact Hok'|].
    match goal with |- locate_ok (depart _ ?v) =>
      refine (depart_community v payload _ Hv eq_refl eq_refl Hnoc Hno Hk _ _) end.
    + exact (lo_fresh _ Hok').
    + exact (lo_past _ Hok').
  - destruct (failed_frame err w.(lw_state)) as (Hp & Hl & Hcm). by apply (land_locate w id (locate_failed err w.(lw_state))).
Qed.

(** The answer of the live run's requests to the community ends their waiting. *)
Lemma land_community w id payload prefixes s :
  w.(lw_flights) !! id = Some (FlCommunity w.(lw_run) payload prefixes) -> w.(lw_live) = true -> locate_ok w ->
  s.(ls_props) = w.(lw_state).(ls_props) -> s.(ls_loading) = w.(lw_state).(ls_loading) ->
  s.(ls_communityPending) = false ->
  locate_ok ((w <| lw_flights := delete id w.(lw_flights) |>) <| lw_state := s |>).
Proof.
  intros Hid Hv [H1 H2 H3 H4 H5 H6 H7] Hp Hl Hc. destruct (H6 _ _ _ Hid) as [Hno Hone].
  assert (Hnoc : forall i p q, delete id w.(lw_flights) !! i <> Some (FlCommunity w.(lw_run) p q)).
  { intros i p q [Hne Hi]%lookup_delete_Some. by apply Hne, eq_sym, (Hone i p q). }
  split; cbn.
  - intros i Hi. rewrite lookup_delete_None. right. by apply H1.
  - by rewrite Hp.
  - intros _. rewrite Hl, (H3 Hv). split; intros [i Hi]; [by apply Hno in Hi|].
    apply lookup_delete_Some in Hi as [_ Hi]. by apply Hno in Hi.
  - intros i i' [_ Hi]%lookup_delete_Some. by apply Hno in Hi.
  - intros _. rewrite Hc. split; [done|]. intros (i & p & q & Hi). by apply Hnoc in Hi.
  - intros i p q Hi. by apply Hnoc in Hi.
  - intros i f [_ Hi]%lookup_delete_Some. by eapply H7.
Qed.

Lemma overlays_answered_ok w id run payload prefixes reach hops :
  w.(lw_flights) !! id = Some (FlCommunity run payload prefixes) -> locate_ok w ->
  locate_ok (overlays_answered run payload prefixes reach hops (w <| lw_flights := delete id w.(lw_flights) |>)).
Proof.
  intros Hid Hok. unfold overlays_answered.
  change (cancelled run (w <| lw_flights := _ |>)) with (cancelled run w). destruct (cancelled run w) eqn:Hc.
  { eapply land_other; [exact Hid|exact (is_cancelled run w Hc)|exact Hok]. }
  apply not_cancelled in Hc as [Hv ->]. cbn zeta.
  destruct reach, (if prefixes ≟ [] then None else hops); unfold put; cbn;
    by eapply (land_community w id payload prefixes _ Hid Hv Hok).
Qed.

Section steps.
Context `{JsMath} (lowerName : jstr -> jstr).

Lemma neighbors_answered_frame anchor contacts answer s :
  let s' := neighbors_answered anchor contacts answer s in
  s'.(ls_props) = s.(ls_props) /\ s'.(ls_loading) = s.(ls_loading) /\ s'.(ls_communityPending) = s.(ls_communityPending).
Proof.
  unfold neighbors_answered. cbn zeta. destruct answer as [l|[]]; try done. by destruct (calibrateRadiusKm _).
Qed.

Lemma locate_landed_ok id answer w : locate_ok w -> locate_ok (locate_landed id answer w).
Proof.
  intros Hok. unfold locate_landed. destruct (lw_flights w !! id) as [f|] eqn:Hid; [|done]. cbn zeta.
  destruct f, answer; try done.
  - by apply locate_answered_ok.
  - by apply overlays_answered_ok.
  - destruct (neighbors_answered_frame anchor contacts answer (lw_state w)) as (Hp & Hl & Hc).
    eapply (locate_ok_frame (w <| lw_flights := delete id w.(lw_flights) |>)); try done.
    by eapply land_other; [exact Hid|..].
  - unfold search_answered. assert (Hd : locate_ok (w <| lw_flights := delete id w.(lw_flights) |>)) by (by eapply land_other; [exact Hid|..]).
    destruct (negb _); [exact Hd|]. by eapply locate_ok_frame, Hd.
Qed.

Lemma press_submit_frame w :
  let w' := press_submit lowerName w in
  w'.(lw_state).(ls_props) = w.(lw_state).(ls_props) /\ w'.(lw_state).(ls_loading) = w.(lw_state).(ls_loading)
  /\ w'.(lw_state).(ls_communityPending) = w.(lw_state).(ls_communityPending) /\ w'.(lw_run) = w.(lw_run)
  /\ w'.(lw_live) = w.(lw_live) /\ w'.(lw_flights) = w.(lw_flights) /\ w'.(lw_next) = w.(lw_next).
Proof.
  cbn zeta. unfold press_submit, handleSubmit, submit_directory. destruct (_ || _); [done|]. cbn zeta.
  destruct (_ ≟ []); [done|]. destruct (re_test _ _); [done|]. destruct (_ && _); [done|].
  destruct (localSuggestions lowerName (lw_state w)) as [|x []]; try done. by destruct (ls_directoryHits (lw_state w)) as [|y []].
Qed.

Lemma locate_step_ok w e : locate_ok w -> locate_ok (locate_step lowerName w e).
Proof.
  intros Hok. destruct e as [p|q| |anchor| |id answer|]; cbn [locate_step].
  - by apply search_frame, locate_render_ok.
  - apply search_frame. by eapply locate_ok_frame, Hok.
  - destruct (press_submit_frame w) as (H1 & H2 & H3 & H4 & H5 & H6 & H7). by eapply locate_ok_frame, Hok.
  - unfold calibrateAnchor. destruct (truthy _); [|done]. apply depart_other; [done|]. by eapply locate_ok_frame, Hok.
  - unfold search_timer. destruct (lw_searchTimer w); [|done]. apply depart_other; [done|]. by eapply locate_ok_frame, Hok.
  - by apply locate_landed_ok.
  - destruct Hok as [H1 H2 H3 H4 H5 H6 H7]. by split.
Qed.

Lemma locate_mount_ok p : locate_ok (locate_mount p).
Proof.
  unfold locate_mount.
  set (s := {| ls_props := p; ls_query := _; ls_loading := _; ls_communityPending := _; ls_communityError := _; ls_error := _;
               ls_result := _; ls_candidates := _; ls_radiusOverrides := _; ls_calibratingKey := _; ls_directoryHits := _ |}).
  apply (new_run_ok {| lw_state := s; lw_run := 0; lw_live := false; lw_flights := ∅; lw_next := 0; lw_selected := [];
                       lw_search := None; lw_searchRun := 0; lw_searchTimer := false |} s); [|done|].
  - split; cbn; done.
  - subst s. cbn. destruct (key_of p); [done|by intros []].
Qed.

Lemma locate_run_ok p es : locate_ok (locate_run lowerName es (locate_page lowerName p)).
Proof.
  assert (H0 : locate_ok (locate_page lowerName p)) by apply search_frame, locate_mount_ok. revert H0.
  generalize (locate_page lowerName p). unfold locate_run, flip. induction es as [|e es IH]; intros w Hw; cbn; [done|].
  apply IH, locate_step_ok, Hw.
Qed.
End steps.

(** A request of the present run is under way. *)
Definition locating (w : LocateWorld) : Prop := exists id, w.(lw_flights) !! id = Some (FlLocate w.(lw_run)).
Definition asking_community (w : LocateWorld) : Prop :=
  exists id payload prefixes, w.(lw_flights) !! id = Some (FlCommunity w.(lw_run) payload prefixes).

(** C20: The page's spinners are honest: whatever the renders, the keystrokes, the presses and the order
    in which requests are answered, while a key is shown the page is loading exactly while the
    request for that key is under way, it waits for the community exactly while the requests of that
    key are, and never for both. *)
Theorem locate_spinners_honest `{JsMath} lowerName (p : LocateProps) (events : list LocateEvent) :
  let w := locate_run lowerName events (locate_page lowerName p) in
  w.(lw_live) = true ->
  (w.(lw_state).(ls_loading) = true <-> locating w)
  /\ (w.(lw_state).(ls_communityPending) = true <-> asking_community w)
  /\ ~ (w.(lw_state).(ls_loading) = true /\ w.(lw_state).(ls_communityPending) = true).
Proof.
  intros w Hv. destruct (locate_run_ok lowerName p events) as [_ _ Hl _ Hc Hph _]. fold w in Hl, Hc, Hph.
  split; [exact (Hl Hv)|]. split; [exact (Hc Hv)|]. rewrite (Hl Hv), (Hc Hv). intros [[i Hi] (j & q & r & Hj)].
  by eapply (proj1 (Hph _ _ _ Hj)).
Qed.

(** An answer that comes after the page has moved to another key changes nothing it shows. *)
Theorem stale_locate_dropped `{JsMath} (w : LocateWorld) (id run : nat) (answer : LocateAnswer) (f : LocateFlight) :
  w.(lw_flights) !! id = Some f -> (f = FlLocate run \/ exists payload prefixes, f = FlCommunity run payload prefixes) ->
  run <> w.(lw_run) -> (locate_landed id answer w).(lw_state) = w.(lw_state) /\ (locate_landed id answer w).(lw_selected) = w.(lw_selected).
Proof.
  intros Hid Hf Hr. unfold locate_landed. rewrite Hid. cbn zeta.
  assert (Hc : forall w', w'.(lw_run) = w.(lw_run) -> cancelled run w' = true).
  { intros w' Hw. unfold cancelled. rewrite Hw. apply orb_true_iff. right. by apply negb_true_iff, Nat.eqb_neq. }
  destruct Hf as [->|(payload & prefixes & ->)]; destruct answer; try done;
    unfold locate_answered, overlays_answered; by rewrite Hc.
Qed.

(** ** A page without a key *)

Definition keeps_keyless (e : LocateEvent) : Prop := match e with LvRender p => key_of p = None | _ => True end.

(** No key is shown, and the page says it is loading. *)
Record keyless_stuck (w : LocateWorld) : Prop := {
  sk_keyless : key_of w.(lw_state).(ls_props) = None;
  sk_loading : w.(lw_state).(ls_loading) = true;
  sk_dead : w.(lw_live) = false;
}.

Lemma stuck_frame w w' :
  w'.(lw_state).(ls_props) = w.(lw_state).(ls_props) -> w'.(lw_state).(ls_loading) = w.(lw_state).(ls_loading) ->
  w'.(lw_live) = w.(lw_live) -> keyless_stuck w -> keyless_stuck w'.
Proof. intros Hp Hl Hv [H1 H2 H3]. split; rewrite ?Hp, ?Hl, ?Hv; done. Qed.

Lemma search_keeps `{JsMath} lowerName w : keyless_stuck w -> keyless_stuck (search_effect lowerName w).
Proof.
  intros Hs. unfold search_effect. case_bool_decide; [done|]. cbn zeta.
  destruct (directory_needle lowerName (lw_state w)); by eapply stuck_frame, Hs.
Qed.

Lemma render_keyless q w :
  key_of q = None -> w.(lw_state).(ls_loading) = true -> w.(lw_live) = false \/ key_of w.(lw_state).(ls_props) <> None ->
  keyless_stuck (locate_render q w).
Proof.
  intros Hq Hl Hv. unfold locate_render. cbn zeta.
  assert (Hw : exists s, s.(ls_props) = q /\ s.(ls_loading) = true /\
    (if w.(lw_state).(ls_props).(lp_locateKey) ≟ q.(lp_locateKey) then put (fun s => s <| ls_props := q |>) w
     else put (fun s => s <| ls_query := default [] q.(lp_locateKey) |>) (put (fun s => s <| ls_props := q |>) w)) = w <| lw_state := s |>).
  { case_bool_decide; unfold put; cbn; eexists; (split; [|split; [|done]]); done. }
  destruct Hw as (s & Hp & Hs & ->). destruct (same_request _ q) eqn:Es.
  - split; cbn; [by rewrite Hp|done|]. destruct Hv as [|Hv]; [done|]. exfalso. apply Hv.
    unfold same_request in Es. apply andb_true_iff in Es as [[Hk%bool_decide_eq_true _]%andb_true_iff _].
    unfold key_of in *. by rewrite Hk.
  - unfold locate_effect, put, reset_request. cbn. rewrite Hp, Hq. cbn. rewrite Hp, Hq. by split; cbn; rewrite ?Hp.
Qed.

Lemma stuck_step `{JsMath} lowerName w e : keeps_keyless e -> keyless_stuck w -> keyless_stuck (locate_step lowerName w e).
Proof.
  intros He Hs. pose proof Hs as [H1 H2 H3]. destruct e as [p|q| |anchor| |id answer|]; cbn [locate_step].
  - apply search_keeps, render_keyless; [done|done|by left].
  - apply search_keeps. by eapply stuck_frame, Hs.
  - destruct (press_submit_frame lowerName w) as (Ha & Hb & _ & _ & Hd & _). by eapply stuck_frame, Hs.
  - unfold calibrateAnchor. destruct (truthy _); [|done]. by eapply stuck_frame, Hs.
  - unfold search_timer. destruct (lw_searchTimer w); [|done]. by eapply stuck_frame, Hs.
  - unfold locate_landed. destruct (lw_flights w !! id) as [f|]; [|done]. cbn zeta.
    destruct f, answer; try done.
    + unfold locate_answered, cancelled. cbn. rewrite H3. by eapply stuck_frame, Hs.
    + unfold overlays_answered, cancelled. cbn. rewrite H3. by eapply stuck_frame, Hs.
    + destruct (neighbors_answered_frame anchor contacts answer (lw_state w)) as (Hp & Hl & _). by eapply stuck_frame, Hs.
    + unfold search_answered. destruct (negb _); by eapply stuck_frame, Hs.
  - by eapply stuck_frame, Hs.
Qed.

(** A page whose key is taken away while the request for it is under way says it is loading for as
    long as it is given no other key, whatever is answered, typed or pressed; and its submit button
    selects nothing. *)
Theorem keyless_loading_sticks `{JsMath} lowerName (q : LocateProps) (events : list LocateEvent) (w : LocateWorld) :
  key_of w.(lw_state).(ls_props) <> None -> w.(lw_state).(ls_loading) = true -> key_of q = None ->
  Forall keeps_keyless events ->
  let w' := locate_run lowerName events (locate_step lowerName w (LvRender q)) in
  w'.(lw_state).(ls_loading) = true /\ locate_step lowerName w' LvSubmit = w'.
Proof.
  intros Hk Hl Hq Hes w'.
  assert (Hs : keyless_stuck w').
  { subst w'. assert (H0 : keyless_stuck (locate_step lowerName w (LvRender q))) by (apply search_keeps, render_keyless; [done|done|by right]).
    revert H0. generalize (locate_step lowerName w (LvRender q)). unfold locate_run, flip.
    induction Hes as [|e es He _ IH]; intros v Hv; cbn; [done|]. apply IH. by apply stuck_step. }
  destruct Hs as [_ Hload _]. split; [done|]. cbn. unfold press_submit. rewrite Hload. by rewrite orb_true_r.
Qed.

(** ** A run of the page *)

(** The page at a key, with the directory on; the server knows the node, and the community is asked. *)
Definition located_math : JsMath := {| math_sin := fun x => x; math_cos := fun _ => num_of_Z 1; math_atan2 := fun x _ => x |}.
Definition demo_page : LocateProps :=
  {| lp_locateKey := Some (js "ab12"); lp_directoryEnabled := true; lp_language := 0; lp_contacts := [] |}.
Definition demo_located : LocateResponse :=
  {| lr_query := js "ab12";
     lr_identity := Some {| li_public_key := js "ab12"; li_name := None; li_contact_type := None; li_inferred := true; li_last_seen := None |};
     lr_source := None; lr_directory_enabled := true; lr_default_radius_km := num_of_Z 20; lr_anchors := [];
     lr_unresolved_hops := [{| uh_prefix := js "cd34"; uh_reason := UrUnmatched; uh_candidates := [] |}];
     lr_declared_gps := None; lr_heard_locally_0hop := false; lr_radio_has_gps := false; lr_empty_reason := Some NoAnchors |}.
Definition demo_search : list LocateEvent :=
  [LvType (js "someone"); LvSearchTimer; LvAnswer 0 (AnLocate (inl demo_located))].

Lemma locate_spinners_honest_witness :
  exists w, w.(lw_live) = true /\ w.(lw_state).(ls_communityPending) = true /\ asking_community w.
Proof.
  pose proof (@locate_spinners_honest located_math id demo_page demo_search) as H. cbv zeta in H.
  eexists. destruct H as (_ & Hp & _); [by vm_compute|].
  split; [|split; [|apply Hp]]; by vm_compute.
Defined.
