(* ===== verification/Composer.v ===== *)
(** The composer: [components/MessageInput.tsx] and the drafts of [utils/conversationDrafts.ts].

    One composer serves the conversations one after another: it stays while the conversation on
    screen changes, and a view without a field takes it down; a [Desk] holds the composer on screen,
    those that are gone, and the drafts they share. A send is a request put in flight with the conversation it was made in; its
    answer comes later, in any order with renders and keystrokes. The storage of the drafts may
    refuse access ([cm_drafts] is [None]). What the cursor, the focus and the height of the field
    do is left out. *)
From S2P Require Import Prelude JsString JsNum Types UnreadState UnreadProps Json Uri RichPayloads TextReplace ApiErrors.

(** ** Bytes *)

Definition is_high (c : Z) : bool := in_range 55296 56319 c.
Definition is_low (c : Z) : bool := in_range 56320 57343 c.

(** [TextEncoder] writes a lone surrogate as U+FFFD, three bytes. *)
Definition unit_bytes (c : Z) : Z := if c <? 128 then 1 else if c <? 2048 then 2 else 3.
Fixpoint byteLen (s : jstr) : Z :=
  match s with
  | [] => 0
  | c :: s' =>
    match s' with
    | c2 :: s'' => if is_high c && is_low c2 then 4 + byteLen s'' else unit_bytes c + byteLen s'
    | [] => unit_bytes c
    end
  end.

Definition DM_HARD_LIMIT : Z := 156.
Definition DM_WARNING_THRESHOLD : Z := 140.
Definition CHANNEL_HARD_LIMIT : Z := 156.
Definition CHANNEL_WARNING_THRESHOLD : Z := 120.
Definition CHANNEL_DANGER_BUFFER : Z := 8.
Definition RADIO_NO_RESPONSE_SNIPPET : jstr := js "no response was heard back".

(** ** Drafts *)

#[export] Instance StateKind_eq_dec : EqDecision StateKind.
Proof. solve_decision. Defined.

Record DraftIdentity := { di_type : StateKind; di_id : jstr }.
#[export] Instance DraftIdentity_eq_dec : EqDecision DraftIdentity.
Proof. solve_decision. Defined.

Definition draftIdentityOf (type : option ConversationType) (id : option jstr) : option DraftIdentity :=
  id ← truthy id;
  match type with
  | Some CtContact => Some {| di_type := KContact; di_id := id |}
  | Some CtChannel => Some {| di_type := KChannel; di_id := id |}
  | _ => None
  end.

Definition CONVERSATION_DRAFT_PREFIX : jstr := js "meshloom-conversation-draft:".
Definition conversationDraftStorageKey (d : DraftIdentity) : jstr :=
  CONVERSATION_DRAFT_PREFIX ++ getStateKey d.(di_type) d.(di_id).

Definition Drafts := option (gmap jstr jstr).

Definition loadConversationDraft (d : DraftIdentity) (drafts : Drafts) : jstr :=
  default [] (drafts ≫= lookup (conversationDraftStorageKey d)).
Definition saveConversationDraft (d : DraftIdentity) (text : jstr) (drafts : Drafts) : Drafts :=
  (if trim text ≟ [] then delete (conversationDraftStorageKey d) else insert (conversationDraftStorageKey d) text) <$> drafts.

(** ** State *)

Record ComposerProps := {
  cp_disabled : bool;
  cp_type : option ConversationType;
  cp_id : option jstr;
  cp_senderName : option jstr;
  cp_radioLat : option num;
  cp_radioLon : option num;
}.

Inductive ComposerTab := TabEmoji | TabGif | TabLocation.

(** A text of the field, sent from a conversation, or a payload of the panel. *)
Inductive ComposerSend := SendText (draft : option DraftIdentity) | SendPayload.

Inductive ComposerToast := ToRadioNoConfirm (description : jstr) | ToFailedToSend (description : jstr) | ToNoLocation.

(** [cm_sent] lists the calls of [onSend] with the inputs of their render. *)
Record Composer := {
  cm_props : ComposerProps;
  cm_mounted : bool;
  cm_text : jstr;
  cm_textRef : jstr;
  cm_replyQuote : option (jstr * jstr);
  cm_sending : bool;
  cm_panel : option ComposerTab;
  cm_draftKey : option DraftIdentity;
  cm_drafts : Drafts;
  cm_flights : gmap nat ComposerSend;
  cm_next : nat;
  cm_sent : list (ComposerProps * ComposerSend * jstr);
  cm_toasts : list ComposerToast;
}.
#[export] Instance Composer_eta : Eta Composer := fun c =>
  Build_Composer c.(cm_props) c.(cm_mounted) c.(cm_text) c.(cm_textRef) c.(cm_replyQuote) c.(cm_sending) c.(cm_panel)
    c.(cm_draftKey) c.(cm_drafts) c.(cm_flights) c.(cm_next) c.(cm_sent) c.(cm_toasts).

Definition draft_of (c : Composer) : option DraftIdentity := draftIdentityOf c.(cm_props).(cp_type) c.(cm_props).(cp_id).

(** ** Limits *)

Inductive LimitState := LimNormal | LimWarning | LimDanger | LimError.
#[export] Instance LimitState_eq_dec : EqDecision LimitState.
Proof. solve_decision. Defined.

Record ComposerLimits := { cl_warningAt : Z; cl_dangerAt : Z; cl_hardLimit : Z }.

Definition composer_limits (p : ComposerProps) : option ComposerLimits :=
  match p.(cp_type) with
  | Some CtContact =>
    Some {| cl_warningAt := DM_WARNING_THRESHOLD; cl_dangerAt := DM_HARD_LIMIT; cl_hardLimit := DM_HARD_LIMIT |}
  | Some CtChannel =>
    let nameByteLen := match truthy p.(cp_senderName) with Some name => byteLen name | None => 10 end in
    let hardLimit := Z.max 1 (CHANNEL_HARD_LIMIT - nameByteLen - 2) in
    Some {| cl_warningAt := CHANNEL_WARNING_THRESHOLD; cl_dangerAt := Z.max 1 (hardLimit - CHANNEL_DANGER_BUFFER);
            cl_hardLimit := hardLimit |}
  | _ => None
  end.

Definition limitState (c : Composer) : LimitState :=
  match composer_limits c.(cm_props) with
  | None => LimNormal
  | Some limits =>
    let textByteLen := byteLen c.(cm_text) in
    if limits.(cl_hardLimit) <=? textByteLen then LimError
    else if limits.(cl_dangerAt) <=? textByteLen then LimDanger
    else if limits.(cl_warningAt) <=? textByteLen then LimWarning
    else LimNormal
  end.

Definition composer_remaining (c : Composer) : Z :=
  match composer_limits c.(cm_props) with Some limits => limits.(cl_hardLimit) - byteLen c.(cm_text) | None => 0 end.
Definition canSubmit (c : Composer) : bool := (0 <? len (trim c.(cm_text))) && negb (limitState c ≟ LimError).

(** ** Sending *)

Definition depart_send (send : ComposerSend) (text : jstr) (c : Composer) : Composer :=
  (((c <| cm_sending := true |>) <| cm_sent := c.(cm_sent) ++ [(c.(cm_props), send, text)] |>)
     <| cm_flights := <[c.(cm_next) := send]> c.(cm_flights) |>) <| cm_next := S c.(cm_next) |>.

Definition submitMessage (c : Composer) : Composer :=
  let trimmed := trim c.(cm_text) in
  if (trimmed ≟ []) || c.(cm_sending) || c.(cm_props).(cp_disabled) || (limitState c ≟ LimError) then c
  else depart_send (SendText (draft_of c)) trimmed c.

(** [kp_composing]: an input method is composing, as the event or the key code 229 says. *)
Record KeyPress := { kp_enter : bool; kp_composing : bool; kp_modified : bool }.
Definition handleKeyDown (enterSends : bool) (k : KeyPress) (c : Composer) : Composer :=
  if negb k.(kp_enter) || k.(kp_composing) || k.(kp_modified) || negb enterSends then c else submitMessage c.

Definition reply_prefix (sender : jstr) : jstr := js "@[" ++ sender ++ js "] ".

Definition sendPayload (wire : jstr) (c : Composer) : Composer :=
  if c.(cm_sending) || c.(cm_props).(cp_disabled) then c else
  depart_send SendPayload (match c.(cm_replyQuote) with Some (sender, _) => reply_prefix sender ++ wire | None => wire end) c.

Definition composer_toast (toast : ComposerToast) (c : Composer) : Composer := c <| cm_toasts := c.(cm_toasts) ++ [toast] |>.

Section sends.
(** [i18n.t] of the text without a message. *)
Context (checkRadio : jstr).

Definition send_failed (err : JsError) (c : Composer) : Composer :=
  let message := match err with ErrApi e => Some e.(ae_message) | ErrError _ message => Some message | ErrOther _ => None end in
  let isRadioNoResponse :=
    match message with Some m => str_includes (toLowerCase m) RADIO_NO_RESPONSE_SNIPPET | None => false end in
  let description := default checkRadio message in
  composer_toast (if isRadioNoResponse then ToRadioNoConfirm description else ToFailedToSend description) c.

(** A send ends. A component that is gone keeps no state, but the draft is still saved. *)
Definition send_answered (send : ComposerSend) (answer : option JsError) (c : Composer) : Composer :=
  let c :=
    match answer, send with
    | Some err, _ => send_failed err c
    | None, SendText draft =>
      let c := (c <| cm_text := [] |>) <| cm_replyQuote := None |> in
      match draft with
      | Some d => c <| cm_drafts := saveConversationDraft d [] c.(cm_drafts) |>
      | None => c
      end
    | None, SendPayload => (c <| cm_replyQuote := None |>) <| cm_panel := None |>
    end in
  c <| cm_sending := false |>.
End sends.

Definition sendLocation (c : Composer) : Composer :=
  let c := c <| cm_panel := None |> in
  let zero := num_of_Z 0 in
  match formatLocation (c.(cm_props).(cp_radioLat) ?? zero) (c.(cm_props).(cp_radioLon) ?? zero)
          (truthy c.(cm_props).(cp_senderName) ?? js "pin") LkLoc with
  | None => composer_toast ToNoLocation c
  | Some wire => sendPayload wire c
  end.

Definition hasShareableLocation (p : ComposerProps) : bool :=
  match p.(cp_radioLat), p.(cp_radioLon) with
  | Some lat, Some lon =>
    num_isFinite lat && num_isFinite lon && negb (num_eq lat (num_of_Z 0) && num_eq lon (num_of_Z 0))
  | _, _ => false
  end.

(** ** Typing *)

Definition persistDraft (next : jstr) (c : Composer) : Composer :=
  match draft_of c with
  | Some d => c <| cm_drafts := saveConversationDraft d next c.(cm_drafts) |>
  | None => c
  end.
Definition write_text (next : jstr) (c : Composer) : Composer := persistDraft next (c <| cm_text := next |>).

Definition appendText (appended : jstr) (c : Composer) : Composer := write_text (c.(cm_text) ++ appended) c.

Definition startReply (sender quote : jstr) (c : Composer) : Composer :=
  let prefix := reply_prefix sender in
  write_text (if startsWith c.(cm_text) prefix then c.(cm_text) else prefix ++ c.(cm_text))
    (c <| cm_replyQuote := Some (sender, quote) |>).

Section typing.
Context (json_parse : jstr -> option Json).

(** [replacing] is the map read from the storage, when the replacements are on. *)
Definition handleChange (raw : jstr) (selectionStart : option Z) (isComposing : bool) (replacing : option jstr)
    (c : Composer) : Composer :=
  if isComposing then write_text raw c else
  match replacing with
  | Some mapJson =>
    match applyTextReplacements json_parse raw (selectionStart ?? len raw) mapJson with
    | Some result => write_text result.(rp_text) c
    | None => write_text raw c
    end
  | None => write_text raw c
  end.
End typing.

Definition insertEmoji (emoji : jstr) (selectionStart selectionEnd : option Z) (c : Composer) : Composer :=
  let start := selectionStart ?? len c.(cm_text) in
  let stop := selectionEnd ?? len c.(cm_text) in
  write_text (slice c.(cm_text) 0 start ++ emoji ++ slice_from c.(cm_text) stop) c.

(** ** Renders *)

(** Each render notes the text. *)
Definition noted (c : Composer) : Composer := if c.(cm_mounted) then c <| cm_textRef := c.(cm_text) |> else c.

(** The effect that saves the draft of the conversation left and loads the one of the next. *)
Definition draft_effect (c : Composer) : Composer :=
  let next := draft_of c in
  let c :=
    match c.(cm_draftKey) with
    | Some previous =>
      if bool_decide (Some previous = next) then c
      else c <| cm_drafts := saveConversationDraft previous c.(cm_textRef) c.(cm_drafts) |>
    | None => c
    end in
  let c := c <| cm_draftKey := next |> in
  let loaded := match next with Some d => Some (loadConversationDraft d c.(cm_drafts)) | None => None end in
  (((match loaded with
     | Some text => (c <| cm_text := text |>) <| cm_textRef := text |>
     | None => c <| cm_text := [] |>
     end) <| cm_replyQuote := None |>) <| cm_panel := None |>).

Definition composer_render (p : ComposerProps) (c : Composer) : Composer :=
  let q := c.(cm_props) in
  let c := noted (c <| cm_props := p |>) in
  if bool_decide (q.(cp_type) = p.(cp_type)) && bool_decide (q.(cp_id) = p.(cp_id)) then c else noted (draft_effect c).

Definition composer_mount (p : ComposerProps) (drafts : Drafts) : Composer :=
  noted (draft_effect
    {| cm_props := p; cm_mounted := true; cm_text := []; cm_textRef := []; cm_replyQuote := None; cm_sending := false;
       cm_panel := None; cm_draftKey := None; cm_drafts := drafts; cm_flights := ∅; cm_next := 0; cm_sent := [];
       cm_toasts := [] |}).

Definition composer_unmount (c : Composer) : Composer :=
  let c := match c.(cm_draftKey) with
           | Some current => c <| cm_drafts := saveConversationDraft current c.(cm_textRef) c.(cm_drafts) |>
           | None => c
           end in
  c <| cm_mounted := false |>.

(** ** Steps *)

Inductive ComposerEvent :=
| CvRender (p : ComposerProps)
| CvInput (raw : jstr) (selectionStart : option Z) (isComposing : bool) (replacing : option jstr)
| CvAppend (text : jstr)
| CvReply (sender quote : jstr)
| CvCancelReply
| CvAttach
| CvTab (tab : ComposerTab)
| CvClosePanel
| CvEmoji (emoji : jstr) (selectionStart selectionEnd : option Z)
| CvGif (gifId : jstr)
| CvLocation
| CvSubmit
| CvKey (enterSends : bool) (k : KeyPress)
| CvAnswer (id : nat) (answer : option JsError)
| CvUnmount.

Section step.
Context (json_parse : jstr -> option Json) (checkRadio : jstr).

Definition send_landed (id : nat) (answer : option JsError) (c : Composer) : Composer :=
  match c.(cm_flights) !! id with
  | None => c
  | Some send => send_answered checkRadio send answer (c <| cm_flights := delete id c.(cm_flights) |>)
  end.

(** The field and the button of the panel are disabled with the composer; the panel's picker
    while a send is under way too. *)
Definition composer_handler (e : ComposerEvent) (c : Composer) : Composer :=
  let picker f := match c.(cm_panel) with Some _ => if c.(cm_props).(cp_disabled) || c.(cm_sending) then c else f c | None => c end in
  match e with
  | CvRender p => composer_render p c
  | CvInput raw selectionStart isComposing replacing =>
    if c.(cm_props).(cp_disabled) then c else handleChange json_parse raw selectionStart isComposing replacing c
  | CvAppend text => appendText text c
  | CvReply sender quote => startReply sender quote c
  | CvCancelReply => c <| cm_replyQuote := None |>
  | CvAttach =>
    if c.(cm_props).(cp_disabled) then c
    else c <| cm_panel := match c.(cm_panel) with Some _ => None | None => Some TabEmoji end |>
  | CvTab tab => match c.(cm_panel) with Some _ => c <| cm_panel := Some tab |> | None => c end
  | CvClosePanel => c <| cm_panel := None |>
  | CvEmoji emoji selectionStart selectionEnd => picker (insertEmoji emoji selectionStart selectionEnd)
  | CvGif gifId => picker (sendPayload (formatGif gifId))
  | CvLocation => picker (fun c => if hasShareableLocation c.(cm_props) then sendLocation c else c)
  | CvSubmit => submitMessage c
  | CvKey enterSends k => if c.(cm_props).(cp_disabled) then c else handleKeyDown enterSends k c
  | CvAnswer id answer => send_landed id answer c
  | CvUnmount => composer_unmount c
  end.

(** A composer that is gone only hears the answers of its sends. *)
Definition composer_step (c : Composer) (e : ComposerEvent) : Composer :=
  if c.(cm_mounted) then noted (composer_handler e c)
  else match e with CvAnswer id answer => send_landed id answer c | _ => c end.
Definition composer_run : list ComposerEvent -> Composer -> Composer := flip (foldl composer_step).

(** *** One composer after another *)

(** The composer on screen, if any, those that are gone, whose sends may still be answered, and the
    drafts, which they share: a view without a field takes the composer down, and a conversation
    opened from it mounts another. *)
Record Desk := {
  de_on : option Composer;
  de_gone : list Composer;
  de_drafts : Drafts;
}.

Inductive DeskEvent :=
| DeOn (e : ComposerEvent)
| DeMount (p : ComposerProps)
| DeLate (i : nat) (id : nat) (answer : option JsError).

Definition lend (w : Desk) (c : Composer) : Composer := c <| cm_drafts := w.(de_drafts) |>.

Definition desk_step (w : Desk) (e : DeskEvent) : Desk :=
  match e with
  | DeOn e =>
    match w.(de_on) with
    | Some c =>
      let c := composer_step (lend w c) e in
      if c.(cm_mounted) then {| de_on := Some c; de_gone := w.(de_gone); de_drafts := c.(cm_drafts) |}
      else {| de_on := None; de_gone := w.(de_gone) ++ [c]; de_drafts := c.(cm_drafts) |}
    | None => w
    end
  | DeMount p =>
    match w.(de_on) with
    | Some _ => w
    | None =>
      let c := composer_mount p w.(de_drafts) in
      {| de_on := Some c; de_gone := w.(de_gone); de_drafts := c.(cm_drafts) |}
    end
  | DeLate i id answer =>
    match w.(de_gone) !! i with
    | Some c =>
      let c := composer_step (lend w c) (CvAnswer id answer) in
      {| de_on := w.(de_on); de_gone := <[i := c]> w.(de_gone); de_drafts := c.(cm_drafts) |}
    | None => w
    end
  end.
Definition desk_run : list DeskEvent -> Desk -> Desk := flip (foldl desk_step).

(** A conversation is opened: in the composer on screen, or in a new one. *)
Definition desk_open (p : ComposerProps) (w : Desk) : Desk :=
  desk_step w (match w.(de_on) with Some _ => DeOn (CvRender p) | None => DeMount p end).
Definition desk_text (w : Desk) : jstr := match w.(de_on) with Some c => c.(cm_text) | None => [] end.
Definition desk0 (drafts : Drafts) : Desk := {| de_on := None; de_gone := []; de_drafts := drafts |}.
End step.

(** What the composer promises: a message sent from the field fits the radio's packet, one send at
    a time, and a draft left in a conversation is there on return, unless a send ends in between. *)

(** ** Bytes *)

Lemma unit_bytes_pos c : 1 <= unit_bytes c <= 3.
Proof. unfold unit_bytes. destruct (c <? 128), (c <? 2048); lia. Qed.

Lemma byteLen_nil : byteLen [] = 0.
Proof. done. Qed.

Lemma byteLen_pair c c2 s : is_high c = true -> is_low c2 = true -> byteLen (c :: c2 :: s) = 4 + byteLen s.
Proof. intros H1 H2. cbn. by rewrite H1, H2. Qed.

(** No pair starts here. *)
Lemma byteLen_single c s :
  is_high c = false \/ match s with c2 :: _ => is_low c2 = false | [] => True end ->
  byteLen (c :: s) = unit_bytes c + byteLen s.
Proof.
  intros H. destruct s as [|c2 s]; [cbn; lia|].
  change (byteLen (c :: c2 :: s)) with (if is_high c && is_low c2 then 4 + byteLen s else unit_bytes c + byteLen (c2 :: s)).
  destruct H as [->| ->]; [done|]. by rewrite andb_false_r.
Qed.

(** Units read one by one, a pair at once. *)
Lemma units_ind (P : jstr -> Prop) :
  P [] -> (forall c c2 s, is_high c = true -> is_low c2 = true -> P s -> P (c :: c2 :: s)) ->
  (forall c s, is_high c = false \/ match s with c2 :: _ => is_low c2 = false | [] => True end -> P s -> P (c :: s)) ->
  forall s, P s.
Proof.
  intros Hn Hp Hs s. remember (length s) as n eqn:En. revert s En. induction n as [n IH] using lt_wf_ind. intros s ->.
  destruct s as [|c [|c2 s]]; [done| |].
  - apply Hs; [by right|done].
  - destruct (is_high c) eqn:E1; [destruct (is_low c2) eqn:E2|].
    + apply Hp; [done..|]. eapply IH; [|done]. cbn. lia.
    + apply Hs; [by right|]. eapply IH; [|done]. cbn. lia.
    + apply Hs; [by left|]. eapply IH; [|done]. cbn. lia.
Qed.

Lemma byteLen_nonneg s : 0 <= byteLen s.
Proof.
  induction s as [|c c2 s H1 H2 IH|c s H IH] using units_ind; [done|rewrite byteLen_pair by done; lia|].
  rewrite byteLen_single by done. pose proof (unit_bytes_pos c). lia.
Qed.

(** A text that does not start with the second half of a pair adds its bytes. *)
Lemma byteLen_app s t : match t with c :: _ => is_low c = false | [] => True end -> byteLen (s ++ t) = byteLen s + byteLen t.
Proof.
  intros Ht. induction s as [|c c2 s H1 H2 IH|c s H IH] using units_ind; [cbn [app byteLen]; lia|..].
  - cbn [app]. rewrite !byteLen_pair by done. lia.
  - cbn [app]. rewrite !byteLen_single; [lia|done|]. destruct H as [H|H]; [by left|right]. by destruct s, t.
Qed.

Lemma space_unpaired c : is_space c = true -> is_high c = false /\ is_low c = false.
Proof.
  unfold is_space, is_high, is_low, in_range. intros H. split; apply andb_false_iff; rewrite !Z.leb_gt; revert H;
    rewrite ?orb_true_iff, ?andb_true_iff, ?Z.eqb_eq, ?Z.leb_le; lia.
Qed.

Lemma trimStart_split s : exists sp, s = sp ++ trimStart s /\ Forall (fun c => is_space c = true) sp.
Proof.
  induction s as [|c s (sp & Hs & Hf)]; [by exists []|]. cbn. destruct (is_space c) eqn:E; [|by exists []].
  exists (c :: sp). split; [cbn; by rewrite <- Hs|by constructor].
Qed.

(** Trimming takes spaces off both ends. *)
Lemma trim_split s : exists a b, s = a ++ trim s ++ b /\ Forall (fun c => is_space c = true) a /\ Forall (fun c => is_space c = true) b.
Proof.
  destruct (trimStart_split s) as (a & Ha & Hfa). destruct (trimStart_split (reverse (trimStart s))) as (b & Hb & Hfb).
  exists a, (reverse b). split; [|split; [done|by apply Forall_reverse]]. unfold trim. rewrite Ha at 1. f_equal.
  rewrite <- (reverse_involutive (trimStart s)) at 1. rewrite Hb at 1. by rewrite reverse_app.
Qed.

Lemma byteLen_trim s : byteLen (trim s) <= byteLen s.
Proof.
  destruct (trim_split s) as (a & b & Hs & Ha & Hb). rewrite Hs at 2. clear Hs.
  assert (Hsp : forall l r, Forall (fun c => is_space c = true) l -> byteLen (l ++ r) = byteLen l + byteLen r).
  { induction l as [|c l IH]; intros r Hl; [done|]. apply Forall_cons in Hl as [Hc Hl]. apply space_unpaired in Hc as [Hc _].
    cbn [app]. rewrite !byteLen_single by by left. rewrite IH by done. lia. }
  rewrite Hsp by done. rewrite byteLen_app.
  - pose proof (byteLen_nonneg a). pose proof (byteLen_nonneg b). lia.
  - destruct b as [|c b]; [done|]. apply Forall_cons in Hb as [Hc _]. by apply space_unpaired in Hc as [_ ?].
Qed.

(** The bytes of a well-formed text are those [encodeURIComponent] writes. *)
Lemma byteLen_utf8 s cps : code_points s = Some cps -> byteLen s = len (concat (utf8_bytes <$> cps)).
Proof.
  revert cps. induction s as [|c c2 s H1 H2 IH|c s H IH] using units_ind; intros cps.
  - by intros [= <-].
  - cbn [code_points]. unfold is_high in H1. unfold is_low in H2. rewrite H1, H2.
    intros (r & Hr & ->)%fmap_Some. rewrite byteLen_pair, (IH r Hr) by done. cbn. rewrite len_app. f_equal.
    unfold in_range in H1, H2. to_prop. unfold utf8_bytes.
    rewrite !(proj2 (Z.ltb_ge _ _)) by lia. done.
  - rewrite byteLen_single by done. cbn [code_points].
    destruct (in_range 55296 56319 c) eqn:E1.
    { destruct s as [|c2 s]; [done|]. destruct H as [H|H]; [unfold is_high in H; by rewrite E1 in H|].
      unfold is_low in H. by rewrite H. }
    destruct (in_range 56320 57343 c) eqn:E2; [done|]. destruct (in_range 0 65535 c) eqn:E3; [|done].
    intros (r & Hr & ->)%fmap_Some. rewrite (IH r Hr). cbn. rewrite len_app. f_equal.
    unfold in_range in E3. to_prop. unfold unit_bytes, utf8_bytes.
    destruct (c <? 128); [done|]. destruct (c <? 2048); [done|]. by rewrite (proj2 (Z.ltb_lt _ _)) by lia.
Qed.

(** ** The state of a composer *)

(** One send at a time, and the effects have run: the draft under the conversation of the render,
    the text noted. *)
Record composer_ok (c : Composer) : Prop := {
  co_draft : c.(cm_mounted) = true -> c.(cm_draftKey) = draft_of c /\ c.(cm_textRef) = c.(cm_text);
  co_fresh id : (c.(cm_next) <= id)%nat -> c.(cm_flights) !! id = None;
  co_sending : c.(cm_sending) = true <-> exists id, is_Some (c.(cm_flights) !! id);
  co_once id id' : is_Some (c.(cm_flights) !! id) -> is_Some (c.(cm_flights) !! id') -> id = id';
}.

(** The draft stored for a conversation. *)
Definition stored (d : DraftIdentity) (c : Composer) : option jstr := c.(cm_drafts) ≫= lookup (conversationDraftStorageKey d).

Lemma draft_key_inj d d' : conversationDraftStorageKey d = conversationDraftStorageKey d' -> d = d'.
Proof. intros [Ht Hi]%app_inv_head%getStateKey_inj. destruct d, d'. cbn in *. congruence. Qed.

Lemma save_other d d' text c :
  d <> d' -> stored d (c <| cm_drafts := saveConversationDraft d' text c.(cm_drafts) |>) = stored d c.
Proof.
  intros Hne. unfold stored, saveConversationDraft. cbn. destruct (cm_drafts c) as [m|]; [|done]. cbn.
  assert (Hk : conversationDraftStorageKey d' <> conversationDraftStorageKey d) by (by intros H%draft_key_inj).
  case_bool_decide; [by rewrite lookup_delete_ne|by rewrite lookup_insert_ne].
Qed.

Lemma save_own d text c m :
  c.(cm_drafts) = Some m ->
  stored d (c <| cm_drafts := saveConversationDraft d text c.(cm_drafts) |>) = (if trim text ≟ [] then None else Some text)
  /\ is_Some (saveConversationDraft d text c.(cm_drafts)).
Proof.
  intros Hm. unfold stored, saveConversationDraft. cbn. rewrite Hm. cbn. split; [|done].
  case_bool_decide; [by rewrite lookup_delete_eq|by rewrite lookup_insert_eq].
Qed.

(** What a step that sends nothing leaves alone. *)
Record quiet (c c' : Composer) : Prop := {
  qu_mounted : c'.(cm_mounted) = c.(cm_mounted);
  qu_props : c'.(cm_props) = c.(cm_props);
  qu_key : c'.(cm_draftKey) = c.(cm_draftKey);
  qu_sending : c'.(cm_sending) = c.(cm_sending);
  qu_flights : c'.(cm_flights) = c.(cm_flights);
  qu_next : c'.(cm_next) = c.(cm_next);
  qu_sent : c'.(cm_sent) = c.(cm_sent);
  qu_stored d : draft_of c <> Some d -> stored d c' = stored d c;
}.

Lemma quiet_refl c : quiet c c.
Proof. done. Qed.

Lemma quiet_trans a b c : quiet a b -> quiet b c -> quiet a c.
Proof.
  intros [] [P1 P2 P3 P4 P5 P6 P7 P8]. split; try congruence. intros d Hd. rewrite P8; [by auto|].
  unfold draft_of in *. by rewrite qu_props0.
Qed.

Lemma noted_quiet c : quiet c (noted c).
Proof. unfold noted. by destruct (cm_mounted c). Qed.

Lemma noted_ok c :
  (c.(cm_mounted) = true -> c.(cm_draftKey) = draft_of c) ->
  (forall id, (c.(cm_next) <= id)%nat -> c.(cm_flights) !! id = None) ->
  (c.(cm_sending) = true <-> exists id, is_Some (c.(cm_flights) !! id)) ->
  (forall id id', is_Some (c.(cm_flights) !! id) -> is_Some (c.(cm_flights) !! id') -> id = id') ->
  composer_ok (noted c).
Proof.
  intros Hd Hf Hs Ho. destruct (noted_quiet c) as [Q1 Q2 Q3 Q4 Q5 Q6 _ _]. split; rewrite ?Q1, ?Q3, ?Q4, ?Q5, ?Q6; try done.
  intros Hm. unfold draft_of. rewrite Q2. split; [by apply Hd|]. unfold noted. by rewrite Hm.
Qed.

Lemma quiet_ok c c' : quiet c c' -> composer_ok c -> composer_ok (noted c').
Proof.
  intros [Q1 Q2 Q3 Q4 Q5 Q6 _ _] [H1 H2 H3 H4]. apply noted_ok; rewrite ?Q1, ?Q3, ?Q4, ?Q5, ?Q6; try done.
  intros Hm. unfold draft_of. rewrite Q2. by apply H1.
Qed.

Lemma write_text_quiet next c : quiet c (write_text next c).
Proof.
  unfold write_text, persistDraft. change (draft_of (c <| cm_text := next |>)) with (draft_of c).
  destruct (draft_of c) as [d|] eqn:Ed; [|done]. split; try done. intros d' Hd'. by rewrite save_other by congruence.
Qed.

Lemma handleChange_quiet json_parse raw st co re c : quiet c (handleChange json_parse raw st co re c).
Proof.
  unfold handleChange. destruct co; [apply write_text_quiet|]. destruct re as [m|]; [|apply write_text_quiet].
  destruct (applyTextReplacements _ _ _ _); apply write_text_quiet.
Qed.

(** A send leaves, or nothing happens. *)
Lemma submit_cases c :
  submitMessage c = c \/
  (c.(cm_sending) = false /\ trim c.(cm_text) <> [] /\ limitState c <> LimError
   /\ submitMessage c = depart_send (SendText (draft_of c)) (trim c.(cm_text)) c).
Proof.
  unfold submitMessage. destruct (bool_decide_reflect (trim (cm_text c) = [])); [by left|].
  destruct (cm_sending c); [by left|]. destruct (cp_disabled (cm_props c)); [by left|].
  destruct (bool_decide_reflect (limitState c = LimError)); [by left|]. by right.
Qed.

Lemma payload_cases wire c :
  sendPayload wire c = c \/ (c.(cm_sending) = false /\ exists text, sendPayload wire c = depart_send SendPayload text c).
Proof.
  unfold sendPayload. destruct (cm_sending c); [by left|]. destruct (cp_disabled (cm_props c)); [by left|].
  right. split; [done|]. by eexists.
Qed.

Lemma depart_ok send text c : c.(cm_sending) = false -> composer_ok c -> composer_ok (noted (depart_send send text c)).
Proof.
  intros Hs [H1 H2 H3 H4]. assert (Hno : forall id, c.(cm_flights) !! id = None).
  { intros id. destruct (cm_flights c !! id) eqn:E; [|done]. rewrite Hs in H3.
    assert (false = true) by (apply H3; exists id; by rewrite E). done. }
  apply noted_ok; cbn.
  - intros Hm. by apply H1.
  - intros id Hid. rewrite lookup_insert_ne by lia. apply Hno.
  - split; [intros _; exists (cm_next c); by rewrite lookup_insert_eq|done].
  - intros id id' [x Hx] [y Hy]. rewrite lookup_insert_Some in Hx. rewrite lookup_insert_Some in Hy.
    destruct Hx as [[<- _]|[_ Hx]]; [|by rewrite Hno in Hx]. destruct Hy as [[<- _]|[_ Hy]]; [done|by rewrite Hno in Hy].
Qed.

Lemma answered_parts checkRadio send answer c :
  let c' := send_answered checkRadio send answer c in
  c'.(cm_mounted) = c.(cm_mounted) /\ c'.(cm_props) = c.(cm_props) /\ c'.(cm_draftKey) = c.(cm_draftKey)
  /\ c'.(cm_sending) = false /\ c'.(cm_flights) = c.(cm_flights) /\ c'.(cm_next) = c.(cm_next) /\ c'.(cm_sent) = c.(cm_sent).
Proof. unfold send_answered. destruct answer as [err|], send as [[d|]|]; done. Qed.

Lemma landed_ok checkRadio id answer c :
  composer_ok c -> composer_ok (noted (send_landed checkRadio id answer c)).
Proof.
  intros Hok. unfold send_landed. destruct (cm_flights c !! id) as [send|] eqn:Hid; [|by eapply quiet_ok; [apply quiet_refl|]].
  destruct (answered_parts checkRadio send answer (c <| cm_flights := delete id c.(cm_flights) |>))
    as (A1 & A2 & A3 & A4 & A5 & A6 & A7). destruct Hok as [H1 H2 H3 H4].
  assert (Hno : forall i, delete id (cm_flights c) !! i = None).
  { intros i. destruct (decide (i = id)) as [->|Hne]; [by rewrite lookup_delete_eq|]. rewrite lookup_delete_ne by done.
    destruct (cm_flights c !! i) eqn:E; [|done]. exfalso. apply Hne, H4; eexists; eassumption. }
  apply noted_ok; rewrite ?A1, ?A3, ?A4, ?A5, ?A6; cbn.
  - intros Hm. unfold draft_of. rewrite A2. by apply H1.
  - intros i Hi. apply Hno.
  - split; [done|]. intros [i [x Hx]]. by rewrite Hno in Hx.
  - intros i i' [x Hx]. by rewrite Hno in Hx.
Qed.

Lemma draft_effect_parts c :
  let c' := draft_effect c in
  c'.(cm_mounted) = c.(cm_mounted) /\ c'.(cm_props) = c.(cm_props) /\ c'.(cm_draftKey) = draft_of c
  /\ c'.(cm_sending) = c.(cm_sending) /\ c'.(cm_flights) = c.(cm_flights) /\ c'.(cm_next) = c.(cm_next) /\ c'.(cm_sent) = c.(cm_sent).
Proof.
  unfold draft_effect. cbn zeta. destruct (cm_draftKey c) as [previous|]; [destruct (bool_decide _)|];
    (destruct (draft_of c) as [d|] eqn:E; cbn; rewrite ?E; done).
Qed.

(** A message of the field fits. *)
Definition field_fits (c : Composer) (send : ComposerSend) (text : jstr) : Prop :=
  match send with
  | SendText d => d = draft_of c /\ text = trim c.(cm_text) /\ text <> [] /\ limitState c <> LimError
  | SendPayload => True
  end.

(** What an event of a composer on screen does. *)
Inductive handled (c : Composer) (e : ComposerEvent) : Composer -> Prop :=
| hd_quiet c' : quiet c c' -> handled c e c'
| hd_sent c0 send text : quiet c c0 -> c.(cm_sending) = false -> field_fits c send text -> handled c e (depart_send send text c0)
| hd_answer checkRadio id answer : e = CvAnswer id answer -> handled c e (send_landed checkRadio id answer c)
| hd_render p : e = CvRender p -> handled c e (composer_render p c)
| hd_unmount : e = CvUnmount -> handled c e (composer_unmount c).

Lemma submit_handled e c : handled c e (submitMessage c).
Proof.
  destruct (submit_cases c) as [-> | (Hs & Ht & Hl & ->)]; [by apply hd_quiet|]. by apply hd_sent.
Qed.

Lemma payload_handled e c0 c wire : quiet c c0 -> handled c e (sendPayload wire c0).
Proof.
  intros Hq. destruct (payload_cases wire c0) as [-> | (Hs & text & ->)]; [by apply hd_quiet|]. apply hd_sent; [done| |done].
  by rewrite <- (qu_sending _ _ Hq).
Qed.

Lemma handler_handled json_parse checkRadio e c : handled c e (composer_handler json_parse checkRadio e c).
Proof.
  assert (Hw : forall next, handled c e (write_text next c)) by (intros; apply hd_quiet, write_text_quiet).
  destruct e as [p|raw st co re|t|sender quote| | |tab| |emoji st en|gif| | |es k|id answer|]; cbn [composer_handler].
  - by apply hd_render.
  - destruct (cp_disabled _); apply hd_quiet; [done|apply handleChange_quiet].
  - apply Hw.
  - apply hd_quiet. eapply (quiet_trans _ (c <| cm_replyQuote := Some (sender, quote) |>)); [done|apply write_text_quiet].
  - by apply hd_quiet.
  - destruct (cp_disabled _); by apply hd_quiet.
  - destruct (cm_panel c); by apply hd_quiet.
  - by apply hd_quiet.
  - destruct (cm_panel c); [|by apply hd_quiet]. destruct (_ || _); [by apply hd_quiet|apply Hw].
  - destruct (cm_panel c); [|by apply hd_quiet]. destruct (_ || _); [by apply hd_quiet|by apply payload_handled].
  - destruct (cm_panel c); [|by apply hd_quiet]. destruct (_ || _); [by apply hd_quiet|].
    destruct (hasShareableLocation _); [|by apply hd_quiet]. unfold sendLocation. cbn zeta.
    destruct (formatLocation _ _ _ _); [by apply payload_handled|by apply hd_quiet].
  - apply submit_handled.
  - destruct (cp_disabled _); [by apply hd_quiet|]. unfold handleKeyDown.
    destruct (_ || _); [by apply hd_quiet|apply submit_handled].
  - by apply hd_answer.
  - by apply hd_unmount.
Qed.

Lemma render_draft_ok p c : composer_ok c -> composer_ok (noted (composer_render p c)).
Proof.
  intros [H1 H2 H3 H4]. unfold composer_render. cbn zeta.
  destruct (noted_quiet (c <| cm_props := p |>)) as [Q1 Q2 Q3 Q4 Q5 Q6 _ _]. cbn in Q1, Q2, Q3, Q4, Q5, Q6.
  destruct (bool_decide (cp_type (cm_props c) = cp_type p) && bool_decide (cp_id (cm_props c) = cp_id p)) eqn:E.
  - apply andb_true_iff in E as [Ht%bool_decide_eq_true Hi%bool_decide_eq_true].
    apply noted_ok; rewrite ?Q1, ?Q3, ?Q4, ?Q5, ?Q6; try done. intros Hm. rewrite (proj1 (H1 Hm)).
    unfold draft_of. rewrite Q2. by rewrite Ht, Hi.
  - destruct (draft_effect_parts (noted (c <| cm_props := p |>))) as (A1 & A2 & A3 & A4 & A5 & A6 & _).
    assert (Hok : composer_ok (noted (draft_effect (noted (c <| cm_props := p |>)))))
      by (apply noted_ok; rewrite ?A1, ?A3, ?A4, ?A5, ?A6, ?Q1, ?Q3, ?Q4, ?Q5, ?Q6; try done; intros _; unfold draft_of; by rewrite A2).
    by eapply quiet_ok, Hok.
Qed.

Lemma unmount_parts c :
  let c' := composer_unmount c in
  c'.(cm_mounted) = false /\ c'.(cm_sending) = c.(cm_sending) /\ c'.(cm_flights) = c.(cm_flights)
  /\ c'.(cm_next) = c.(cm_next) /\ c'.(cm_sent) = c.(cm_sent).
Proof. unfold composer_unmount. by destruct (cm_draftKey c). Qed.

Lemma noted_unmounted c : c.(cm_mounted) = false -> noted c = c.
Proof. intros H. unfold noted. by rewrite H. Qed.

Lemma composer_mount_ok p drafts : composer_ok (composer_mount p drafts).
Proof.
  unfold composer_mount. match goal with |- composer_ok (noted (draft_effect ?c)) => set (c0 := c) end.
  destruct (draft_effect_parts c0) as (A1 & A2 & A3 & A4 & A5 & A6 & _).
  apply noted_ok; rewrite ?A1, ?A3, ?A4, ?A5, ?A6.
  - intros _. unfold draft_of. by rewrite A2.
  - done.
  - split; [done|]. by intros [id [x Hx]].
  - intros id id' [x Hx]. done.
Qed.

Section runs.
Context (json_parse : jstr -> option Json) (checkRadio : jstr).

Lemma composer_step_ok c e : composer_ok c -> composer_ok (composer_step json_parse checkRadio c e).
Proof.
  intros Hok. unfold composer_step. destruct (cm_mounted c) eqn:Hm.
  - destruct (handler_handled json_parse checkRadio e c) as [c' Hq|c0 send text Hq Hs Hf|cr id answer _|p _|_].
    + by eapply quiet_ok.
    + assert (H0 : composer_ok (noted c0)) by by eapply quiet_ok.
      apply (depart_ok send text (noted c0)) in H0; [|by rewrite (qu_sending _ _ (noted_quiet c0)), (qu_sending _ _ Hq)].
      eapply quiet_ok, H0. unfold noted. destruct (cm_mounted c0) eqn:E; cbn; by rewrite E.
    + by apply landed_ok.
    + by apply render_draft_ok.
    + destruct (unmount_parts c) as (A1 & A2 & A3 & A4 & _). destruct Hok as [H1 H2 H3 H4].
      apply noted_ok; rewrite ?A1, ?A2, ?A3, ?A4; done.
  - destruct e; try done. assert (Hl := landed_ok checkRadio id answer c Hok).
    unfold send_landed in *. destruct (cm_flights c !! id) as [send|]; [|done].
    rewrite noted_unmounted in Hl; [done|]. by rewrite (proj1 (answered_parts _ _ _ _)).
Qed.

Lemma composer_run_ok events c : composer_ok c -> composer_ok (composer_run json_parse checkRadio events c).
Proof.
  unfold composer_run, flip. revert c. induction events as [|e l IH]; intros c Hc; cbn; [done|]. by apply IH, composer_step_ok.
Qed.
End runs.

(** ** Sends *)

(** A message sent from the field, on the air after the name of its sender in a channel. *)
Definition message_fits (entry : ComposerProps * ComposerSend * jstr) : Prop :=
  match entry with
  | (p, SendText d, text) =>
    d = draftIdentityOf p.(cp_type) p.(cp_id) /\ text <> [] /\ trim text = text
    /\ match p.(cp_type), truthy p.(cp_senderName) with
       | Some CtContact, _ => byteLen text < 156
       | Some CtChannel, Some name => byteLen (name ++ js ": " ++ text) < 156
       | Some CtChannel, None => byteLen text < 144
       | _, _ => True
       end
  | (_, SendPayload, _) => True
  end.

Lemma limit_error c :
  limitState c <> LimError -> match composer_limits c.(cm_props) with Some l => byteLen c.(cm_text) < l.(cl_hardLimit) | None => True end.
Proof.
  unfold limitState. destruct (composer_limits _) as [l|]; [|done].
  destruct (Z.leb_spec (cl_hardLimit l) (byteLen (cm_text c))); [done|lia].
Qed.

Lemma byteLen_prefixed name text : byteLen (name ++ js ": " ++ text) = byteLen name + 2 + byteLen text.
Proof.
  rewrite byteLen_app by done. change (js ": " ++ text) with (58 :: 32 :: text).
  rewrite !byteLen_single by by left. change (unit_bytes 58) with 1. change (unit_bytes 32) with 1. lia.
Qed.

Lemma byteLen_pos s : s <> [] -> 1 <= byteLen s.
Proof.
  induction s as [|c c2 s H1 H2 _|c s H _] using units_ind; [done|intros _; rewrite byteLen_pair by done; pose proof (byteLen_nonneg s); lia|].
  intros _. rewrite byteLen_single by done. pose proof (unit_bytes_pos c). pose proof (byteLen_nonneg s). lia.
Qed.

Lemma field_message c send text : field_fits c send text -> message_fits (c.(cm_props), send, text).
Proof.
  destruct send as [d|]; [|done]. intros (-> & -> & Hne & Hl). cbn [message_fits]. split; [done|]. split; [done|].
  split; [apply trim_idemp|]. apply limit_error in Hl. pose proof (byteLen_trim c.(cm_text)). pose proof (byteLen_pos _ Hne).
  unfold composer_limits in Hl. destruct (cp_type (cm_props c)) as [[]|]; try done.
  - unfold DM_HARD_LIMIT in Hl. cbn in Hl. lia.
  - cbn zeta in Hl. cbn [cl_hardLimit] in Hl. unfold CHANNEL_HARD_LIMIT in Hl.
    destruct (truthy _) as [name|]; [rewrite byteLen_prefixed|]; lia.
Qed.

Section sends.
Context (json_parse : jstr -> option Json) (checkRadio : jstr).

Lemma step_sent c e :
  let c' := composer_step json_parse checkRadio c e in
  c'.(cm_sent) = c.(cm_sent) \/ exists entry, message_fits entry /\ c'.(cm_sent) = c.(cm_sent) ++ [entry].
Proof.
  assert (Hland : forall cr id answer, (send_landed cr id answer c).(cm_sent) = c.(cm_sent)).
  { intros cr id answer. unfold send_landed. destruct (cm_flights c !! id) as [send|]; [|done].
    exact (proj2 (proj2 (proj2 (proj2 (proj2 (proj2 (answered_parts cr send answer _))))))). }
  cbn zeta. unfold composer_step. destruct (cm_mounted c).
  - rewrite (qu_sent _ _ (noted_quiet _)).
    destruct (handler_handled json_parse checkRadio e c) as [c' Hq|c0 send text Hq Hs Hf|cr id answer _|p _|_].
    + left. apply Hq.
    + right. exists (c.(cm_props), send, text). split; [by apply field_message|]. cbn.
      by rewrite (qu_sent _ _ Hq), (qu_props _ _ Hq).
    + left. apply Hland.
    + left. unfold composer_render. cbn zeta. destruct (_ && _).
      { by rewrite (qu_sent _ _ (noted_quiet _)). }
      rewrite (qu_sent _ _ (noted_quiet _)). destruct (draft_effect_parts (noted (c <| cm_props := p |>))) as (_ & _ & _ & _ & _ & _ & ->).
      by rewrite (qu_sent _ _ (noted_quiet _)).
    + left. exact (proj2 (proj2 (proj2 (proj2 (unmount_parts c))))).
  - left. destruct e; try done.
Qed.

(** C38: Every message sent from the field fits its packet: under 156 bytes in UTF-8 to a contact, and
    in a channel under 156 bytes with the name of the radio in front of it; it is trimmed, not
    empty, and sent in the conversation of its render. *)
Theorem field_message_fits (p : ComposerProps) (drafts : Drafts) (events : list ComposerEvent) :
  Forall message_fits (composer_run json_parse checkRadio events (composer_mount p drafts)).(cm_sent).
Proof.
  assert (H0 : Forall message_fits (cm_sent (composer_mount p drafts))).
  { unfold composer_mount. rewrite (qu_sent _ _ (noted_quiet _)).
    match goal with |- Forall _ (cm_sent (draft_effect ?c)) => destruct (draft_effect_parts c) as (_ & _ & _ & _ & _ & _ & ->) end. done. }
  revert H0. generalize (composer_mount p drafts). unfold composer_run, flip.
  induction events as [|e l IH]; intros c Hc; cbn; [done|]. apply IH.
  destruct (step_sent c e) as [-> | (entry & He & ->)]; [done|]. apply Forall_app. split; [done|]. by constructor.
Qed.

(** One send at a time: the composer is sending exactly while one request is under way. *)
Theorem sends_one_at_a_time (p : ComposerProps) (drafts : Drafts) (events : list ComposerEvent) :
  let c := composer_run json_parse checkRadio events (composer_mount p drafts) in
  (c.(cm_sending) = true <-> exists id, is_Some (c.(cm_flights) !! id))
  /\ forall id id', is_Some (c.(cm_flights) !! id) -> is_Some (c.(cm_flights) !! id') -> id = id'.
Proof. cbn zeta. by destruct (composer_run_ok json_parse checkRadio events _ (composer_mount_ok p drafts)). Qed.
End sends.

(** ** Drafts *)

(** Another conversation than [d] is open, and no text sent from [d] waits for its answer. *)
Record away (d : DraftIdentity) (c : Composer) : Prop := {
  aw_mounted : c.(cm_mounted) = true;
  aw_other : draft_of c <> Some d;
  aw_flights id : c.(cm_flights) !! id <> Some (SendText (Some d));
}.

(** The composer stays, and does not open [d]. *)
Definition keeps_away (d : DraftIdentity) (e : ComposerEvent) : Prop :=
  match e with CvRender p => draftIdentityOf p.(cp_type) p.(cp_id) <> Some d | CvUnmount => False | _ => True end.

Lemma stored_drafts d c c' : c'.(cm_drafts) = c.(cm_drafts) -> stored d c' = stored d c.
Proof. unfold stored. by intros ->. Qed.

Lemma noted_drafts c : (noted c).(cm_drafts) = c.(cm_drafts).
Proof. unfold noted. by destruct (cm_mounted c). Qed.

Lemma noted_draft_of c : draft_of (noted c) = draft_of c.
Proof. unfold draft_of. by rewrite (qu_props _ _ (noted_quiet c)). Qed.

Lemma noted_away d c : away d c -> away d (noted c).
Proof.
  intros [H1 H2 H3]. split; [by rewrite (qu_mounted _ _ (noted_quiet c))|by rewrite noted_draft_of|].
  by rewrite (qu_flights _ _ (noted_quiet c)).
Qed.

(** A render with other inputs, before its effects. *)
Lemma noted_render p c :
  let c1 := noted (c <| cm_props := p |>) in
  c1.(cm_mounted) = c.(cm_mounted) /\ c1.(cm_draftKey) = c.(cm_draftKey) /\ c1.(cm_flights) = c.(cm_flights)
  /\ c1.(cm_drafts) = c.(cm_drafts) /\ draft_of c1 = draftIdentityOf p.(cp_type) p.(cp_id)
  /\ (c.(cm_mounted) = true -> c1.(cm_textRef) = c.(cm_text)).
Proof. unfold noted, draft_of. cbn. destruct (cm_mounted c) eqn:E; cbn; by rewrite ?E. Qed.

(** The effect saves the text under the conversation left, and shows what is stored for the next. *)
Lemma draft_effect_saves c :
  (draft_effect c).(cm_drafts)
  = match c.(cm_draftKey) with
    | Some previous => if bool_decide (Some previous = draft_of c) then c.(cm_drafts)
                       else saveConversationDraft previous c.(cm_textRef) c.(cm_drafts)
    | None => c.(cm_drafts)
    end
  /\ (draft_effect c).(cm_text) = match draft_of c with Some d => default [] (stored d (draft_effect c)) | None => [] end.
Proof.
  unfold draft_effect, stored. cbn zeta. destruct (cm_draftKey c) as [previous|]; [destruct (bool_decide _)|];
    destruct (draft_of c); by cbn.
Qed.

Lemma answered_drafts checkRadio send answer c :
  (send_answered checkRadio send answer c).(cm_drafts)
  = match send, answer with
    | SendText (Some d), None => saveConversationDraft d [] c.(cm_drafts)
    | _, _ => c.(cm_drafts)
    end.
Proof. unfold send_answered. by destruct answer, send as [[d|]|]. Qed.

Lemma landed_away d checkRadio id answer c :
  away d c -> away d (send_landed checkRadio id answer c) /\ stored d (send_landed checkRadio id answer c) = stored d c.
Proof.
  intros [H1 H2 H3]. unfold send_landed. destruct (cm_flights c !! id) as [send|] eqn:Hid; [|done].
  set (c1 := c <| cm_flights := delete id c.(cm_flights) |>).
  destruct (answered_parts checkRadio send answer c1) as (A1 & A2 & _ & _ & A5 & _ & _). split.
  - split; [by rewrite A1|unfold draft_of; by rewrite A2|]. rewrite A5. intros i Hi.
    apply (lookup_delete_Some (cm_flights c) id i) in Hi as [_ Hi]. by eapply H3.
  - assert (Hd := answered_drafts checkRadio send answer c1). destruct send as [[d'|]|], answer; try by apply stored_drafts.
    assert (Hne : d <> d') by (intros <-; by eapply H3).
    rewrite <- (save_other d d' [] c Hne). by apply stored_drafts.
Qed.

Lemma render_away d p c :
  composer_ok c -> away d c -> draftIdentityOf p.(cp_type) p.(cp_id) <> Some d ->
  away d (composer_render p c) /\ stored d (composer_render p c) = stored d c.
Proof.
  intros Hok [H1 H2 H3] Hp. unfold composer_render. cbn zeta. set (c1 := noted (c <| cm_props := p |>)).
  destruct (noted_render p c) as (Hm1 & Hk1 & Hf1 & Hd1 & Ho1 & _). fold c1 in Hm1, Hk1, Hf1, Hd1, Ho1.
  rewrite (proj1 (co_draft _ Hok H1)) in Hk1. rewrite H1 in Hm1. rewrite <- Ho1 in Hp.
  destruct (_ && _).
  - split; [|by apply stored_drafts]. split; [done|done|]. by rewrite Hf1.
  - destruct (draft_effect_parts c1) as (A1 & A2 & _ & _ & A5 & _). destruct (draft_effect_saves c1) as [Hs _]. split.
    + apply noted_away. split; [by rewrite A1|unfold draft_of; by rewrite A2|]. by rewrite A5, Hf1.
    + rewrite (stored_drafts d (draft_effect c1) _ (noted_drafts _)). rewrite Hk1 in Hs.
      rewrite <- (stored_drafts d c c1 Hd1). destruct (draft_of c) as [previous|]; [|by apply stored_drafts].
      destruct (bool_decide _); [by apply stored_drafts|].
      rewrite <- (save_other d previous c1.(cm_textRef) c1) by congruence. by apply stored_drafts.
Qed.

(** A render that opens another conversation runs the effect. *)
Lemma render_effect p c :
  draft_of c <> draftIdentityOf p.(cp_type) p.(cp_id) ->
  composer_render p c = noted (draft_effect (noted (c <| cm_props := p |>))).
Proof.
  intros Hne. unfold composer_render. cbn zeta.
  destruct (bool_decide (cp_type (cm_props c) = cp_type p) && bool_decide (cp_id (cm_props c) = cp_id p)) eqn:E; [|done].
  apply andb_true_iff in E as [Ht%bool_decide_eq_true Hi%bool_decide_eq_true]. exfalso. apply Hne. unfold draft_of. by rewrite Ht, Hi.
Qed.

(** Leaving [d] stores its text. *)
Lemma leave_draft d p c m :
  composer_ok c -> c.(cm_mounted) = true -> c.(cm_drafts) = Some m -> draft_of c = Some d ->
  (forall id, c.(cm_flights) !! id <> Some (SendText (Some d))) -> draftIdentityOf p.(cp_type) p.(cp_id) <> Some d ->
  away d (composer_render p c) /\ stored d (composer_render p c) = (if trim c.(cm_text) ≟ [] then None else Some c.(cm_text)).
Proof.
  intros Hok Hm Hs Hd Hf Hp. destruct (co_draft _ Hok Hm) as [Hk Htr]. rewrite render_effect by congruence.
  set (c1 := noted (c <| cm_props := p |>)).
  destruct (noted_render p c) as (Hm1 & Hk1 & Hf1 & Hs1 & Hd1 & Ht1). fold c1 in Hm1, Hk1, Hf1, Hs1, Hd1, Ht1.
  rewrite Hm in Hm1. rewrite Hk, Hd in Hk1. rewrite Hs in Hs1. specialize (Ht1 Hm).
  destruct (draft_effect_parts c1) as (A1 & A2 & _ & _ & A5 & _). destruct (draft_effect_saves c1) as [Hsv _]. split.
  - apply noted_away. split; [by rewrite A1|unfold draft_of; rewrite A2; by fold (draft_of c1); rewrite Hd1|].
    by rewrite A5, Hf1.
  - rewrite (stored_drafts d (draft_effect c1) _ (noted_drafts _)). rewrite Hk1, Hd1, bool_decide_false in Hsv by congruence.
    rewrite <- Ht1. destruct (save_own d c1.(cm_textRef) c1 m Hs1) as [<- _]. by apply stored_drafts.
Qed.

(** Opening [d] shows what is stored for it. *)
Lemma enter_draft d p c :
  composer_ok c -> away d c -> draftIdentityOf p.(cp_type) p.(cp_id) = Some d ->
  (composer_render p c).(cm_text) = default [] (stored d c).
Proof.
  intros Hok [Hm Ho _] Hp. destruct (co_draft _ Hok Hm) as [Hk _]. rewrite render_effect by congruence.
  set (c1 := noted (c <| cm_props := p |>)).
  destruct (noted_render p c) as (_ & Hk1 & _ & Hs1 & Hd1 & _). fold c1 in Hk1, Hs1, Hd1. rewrite Hk in Hk1. rewrite Hp in Hd1.
  assert (Htext : forall c', (noted c').(cm_text) = c'.(cm_text)) by (intros c'; unfold noted; by destruct (cm_mounted c')).
  destruct (draft_effect_saves c1) as [Hsv Ht]. rewrite Htext, Ht, Hd1. f_equal.
  rewrite <- (stored_drafts d c c1 Hs1). rewrite Hk1, Hd1 in Hsv. destruct (draft_of c) as [previous|]; [|by apply stored_drafts].
  rewrite bool_decide_false in Hsv by congruence. rewrite <- (save_other d previous c1.(cm_textRef) c1) by congruence.
  by apply stored_drafts.
Qed.

Section drafts.
Context (json_parse : jstr -> option Json) (checkRadio : jstr).

Lemma step_away d c e :
  composer_ok c -> away d c -> keeps_away d e ->
  let c' := composer_step json_parse checkRadio c e in away d c' /\ stored d c' = stored d c.
Proof.
  intros Hok Ha He. unfold composer_step. rewrite (aw_mounted _ _ Ha).
  assert (Hn : forall c', away d c' /\ stored d c' = stored d c -> away d (noted c') /\ stored d (noted c') = stored d c).
  { intros c' [Hc' <-]. split; [by apply noted_away|apply stored_drafts, noted_drafts]. }
  apply Hn. clear Hn. destruct (handler_handled json_parse checkRadio e c) as [c' Hq|c0 send text Hq Hs Hf|cr id answer Ee|p Ee|Ee].
  - destruct Ha as [H1 H2 H3]. split; [|by apply Hq].
    split; [by rewrite (qu_mounted _ _ Hq)|unfold draft_of; by rewrite (qu_props _ _ Hq)|by rewrite (qu_flights _ _ Hq)].
  - destruct Ha as [H1 H2 H3]. split; [|rewrite <- (qu_stored _ _ Hq d H2); by apply stored_drafts].
    split; cbn; [by rewrite (qu_mounted _ _ Hq)|unfold draft_of; cbn; by rewrite (qu_props _ _ Hq)|].
    intros id. rewrite (qu_flights _ _ Hq), lookup_insert_Some. intros [[_ ->]|[_ Hi]]; [|by eapply H3].
    destruct Hf as [Hf _]. by apply H2.
  - by apply landed_away.
  - subst e. by apply render_away.
  - by subst e.
Qed.

Lemma run_away d c events :
  composer_ok c -> away d c -> Forall (keeps_away d) events ->
  let c' := composer_run json_parse checkRadio events c in away d c' /\ stored d c' = stored d c.
Proof.
  intros Hok Ha Hev. unfold composer_run, flip. revert c Hok Ha. induction Hev as [|e l He _ IH]; intros c Hok Ha; [done|].
  cbn. destruct (step_away d c e Hok Ha He) as [Ha' <-]. apply IH; [by apply composer_step_ok|done].
Qed.

(** *** The drafts outlive the composers *)

Abbreviation desk_step := (desk_step json_parse checkRadio).
Abbreviation desk_run := (desk_run json_parse checkRadio).
Abbreviation desk_open := (desk_open json_parse checkRadio).

(** No text sent from [d] waits for its answer. *)
Definition unsent (d : DraftIdentity) (c : Composer) : Prop :=
  forall id, c.(cm_flights) !! id <> Some (SendText (Some d)).

Record desk_ok (w : Desk) : Prop := {
  dk_on c : w.(de_on) = Some c -> composer_ok c /\ c.(cm_mounted) = true;
  dk_gone c : c ∈ w.(de_gone) -> c.(cm_mounted) = false;
}.

Lemma insert_member {A} (l : list A) (i : nat) (x y : A) : x ∈ <[i := y]> l -> x = y \/ x ∈ l.
Proof.
  intros [j Hj]%list_elem_of_lookup. apply list_lookup_insert_Some in Hj as [(_ & -> & _)|[_ Hj]]; [by left|].
  right. by eapply list_elem_of_lookup_2.
Qed.

Lemma lend_ok w c : composer_ok c -> composer_ok (lend w c).
Proof. intros []. by split. Qed.

Lemma gone_step w c id answer :
  c.(cm_mounted) = false ->
  composer_step json_parse checkRadio (lend w c) (CvAnswer id answer) = send_landed checkRadio id answer (lend w c).
Proof. intros E. unfold composer_step. cbn [lend cm_mounted set]. by rewrite E. Qed.

Lemma landed_mounted id answer c : (send_landed checkRadio id answer c).(cm_mounted) = c.(cm_mounted).
Proof.
  unfold send_landed. destruct (cm_flights c !! id) as [send|]; [|done].
  by destruct (answered_parts checkRadio send answer (c <| cm_flights := delete id c.(cm_flights) |>)) as (-> & _).
Qed.

Lemma desk_step_ok w e : desk_ok w -> desk_ok (desk_step w e).
Proof.
  intros [Hon Hgone]. destruct e as [e|p|i id answer]; cbn [Composer.desk_step].
  - destruct (de_on w) as [c|] eqn:E; [|by split; [rewrite E|]]. destruct (Hon c eq_refl) as [Hok _].
    assert (Hok' : composer_ok (composer_step json_parse checkRadio (lend w c) e)) by by apply composer_step_ok, lend_ok.
    set (c' := composer_step _ _ _ _) in *. destruct (cm_mounted c') eqn:Em; split; cbn; try done.
    + by intros ? [= <-].
    + intros x [Hx|Hx]%elem_of_app; [by apply Hgone|]. apply list_elem_of_singleton in Hx. by subst.
  - destruct (de_on w) as [c|] eqn:E; [by split; [rewrite E|]|]. split; [|exact Hgone].
    intros c [= <-]. split; [apply composer_mount_ok|]. unfold composer_mount.
    match goal with |- context [draft_effect ?x] => destruct (draft_effect_parts x) as (A & _) end.
    by rewrite (qu_mounted _ _ (noted_quiet _)), A.
  - destruct (de_gone w !! i) as [c|] eqn:E; [|by split]. split; [exact Hon|].
    pose proof (Hgone c (list_elem_of_lookup_2 _ _ _ E)) as Hm. rewrite gone_step by done.
    intros x Hx. cbn in Hx. apply insert_member in Hx as [->|Hx]; [|by apply Hgone].
    by rewrite landed_mounted.
Qed.

Lemma desk_run_ok events w : desk_ok w -> desk_ok (desk_run events w).
Proof.
  unfold Composer.desk_run, flip. revert w. induction events as [|e l IH]; intros w Hw; [done|]. by apply IH, desk_step_ok.
Qed.

(** The text of [d] is stored, [d] is not on screen, and no text of it waits for its answer. *)
Record left_behind (d : DraftIdentity) (text : jstr) (w : Desk) : Prop := {
  lb_ok : desk_ok w;
  lb_stored : w.(de_drafts) ≫= lookup (conversationDraftStorageKey d) = Some text;
  lb_on c : w.(de_on) = Some c -> draft_of c <> Some d /\ unsent d c;
  lb_gone c : c ∈ w.(de_gone) -> unsent d c;
}.

(** [d] is not opened. *)
Definition stays_away (d : DraftIdentity) (e : DeskEvent) : Prop :=
  match e with
  | DeOn (CvRender p) | DeMount p => draftIdentityOf p.(cp_type) p.(cp_id) <> Some d
  | _ => True
  end.

Lemma lend_away d w c : c.(cm_mounted) = true -> draft_of c <> Some d -> unsent d c -> away d (lend w c).
Proof. by split. Qed.

(** Taking the composer down saves the draft of its own conversation. *)
Lemma unmount_away d c :
  composer_ok c -> away d c ->
  stored d (composer_unmount c) = stored d c /\ unsent d (composer_unmount c) /\ (composer_unmount c).(cm_mounted) = false.
Proof.
  intros Hok [Hm Ho Hf]. destruct (co_draft _ Hok Hm) as [Hk _]. unfold composer_unmount. rewrite Hk.
  split_and!; [|intros id; destruct (draft_of c); apply Hf|done].
  destruct (draft_of c) as [x|]; [|done]. rewrite <- (save_other d x c.(cm_textRef) c) by congruence. by apply stored_drafts.
Qed.

Lemma noted_gone c : c.(cm_mounted) = false -> noted c = c.
Proof. intros E. unfold noted. by rewrite E. Qed.

Lemma landed_unsent d id answer c :
  unsent d c -> unsent d (send_landed checkRadio id answer c)
  /\ stored d (send_landed checkRadio id answer c) = stored d c.
Proof.
  intros H3. unfold send_landed. destruct (cm_flights c !! id) as [send|] eqn:Hid; [|done].
  set (c1 := c <| cm_flights := delete id c.(cm_flights) |>).
  destruct (answered_parts checkRadio send answer c1) as (_ & _ & _ & _ & A5 & _ & _). split.
  - intros i. rewrite A5. intros Hi. apply (lookup_delete_Some (cm_flights c) id i) in Hi as [_ Hi]. by eapply H3.
  - assert (Hd := answered_drafts checkRadio send answer c1). destruct send as [[d'|]|], answer; try by apply stored_drafts.
    assert (Hne : d <> d') by (intros <-; by eapply H3).
    rewrite <- (save_other d d' [] c Hne). by apply stored_drafts.
Qed.

(** An event of the composer on screen that does not open [d]. *)
Lemma on_left_behind d text w c e :
  w.(de_on) = Some c -> stays_away d (DeOn e) -> left_behind d text w -> left_behind d text (desk_step w (DeOn e)).
Proof.
  intros E He Hw. destruct (dk_on _ (lb_ok _ _ _ Hw) c E) as [Hok Hm].
  destruct (lb_on _ _ _ Hw c E) as [Ho Hu]. assert (Ha : away d (lend w c)) by by apply lend_away.
  assert (Hst : stored d (lend w c) = Some text) by exact (lb_stored _ _ _ Hw).
  assert (Hok' := desk_step_ok w (DeOn e) (lb_ok _ _ _ Hw)). revert Hok'. cbn [Composer.desk_step]. rewrite E.
  assert (Hc : e = CvUnmount \/ e <> CvUnmount) by (destruct e; by (left + right)).
  destruct Hc as [->|Hne].
  - destruct (unmount_away d (lend w c) (lend_ok w c Hok) Ha) as (Hs1 & Hu1 & Hm1).
    unfold composer_step. cbn [composer_handler]. change (cm_mounted (lend w c)) with (cm_mounted c).
    rewrite Hm, noted_gone, Hm1 by done. intros Hok'. split; [done| |done|].
    + cbn. rewrite <- Hst, <- Hs1. done.
    + intros x [Hx|Hx]%elem_of_app; [by apply (lb_gone _ _ _ Hw)|]. apply list_elem_of_singleton in Hx. by subst.
  - destruct (step_away d (lend w c) e (lend_ok w c Hok) Ha) as [Ha' Hs'].
    { destruct e; done. }
    set (c' := composer_step _ _ _ _) in *. rewrite (aw_mounted _ _ Ha'). intros Hok'.
    split; [done| | |exact (lb_gone _ _ _ Hw)].
    + cbn. rewrite <- Hst, <- Hs'. done.
    + intros x [= <-]. by destruct Ha'.
Qed.

Lemma mount_shows p drafts d :
  draftIdentityOf p.(cp_type) p.(cp_id) = Some d ->
  (composer_mount p drafts).(cm_text) = default [] (drafts ≫= lookup (conversationDraftStorageKey d)).
Proof.
  intros Hp. unfold composer_mount, noted, draft_effect, draft_of. cbn. rewrite Hp. done.
Qed.

Lemma mount_drafts p drafts : (composer_mount p drafts).(cm_drafts) = drafts.
Proof. unfold composer_mount. rewrite noted_drafts. unfold draft_effect, draft_of. cbn. by destruct (draftIdentityOf _ _). Qed.

Lemma mount_fresh p drafts :
  draft_of (composer_mount p drafts) = draftIdentityOf p.(cp_type) p.(cp_id)
  /\ (composer_mount p drafts).(cm_flights) = ∅.
Proof.
  unfold composer_mount. rewrite noted_draft_of, (qu_flights _ _ (noted_quiet _)).
  match goal with |- context [draft_effect ?x] => destruct (draft_effect_parts x) as (_ & A2 & _ & _ & A5 & _) end.
  unfold draft_of. by rewrite A2, A5.
Qed.

Lemma step_left_behind d text w e :
  stays_away d e -> left_behind d text w -> left_behind d text (desk_step w e).
Proof.
  intros He Hw. destruct e as [e|p|i id answer].
  - destruct (de_on w) as [c|] eqn:E; [by eapply on_left_behind|]. cbn [Composer.desk_step]. by rewrite E.
  - assert (Hok' := desk_step_ok w (DeMount p) (lb_ok _ _ _ Hw)). revert Hok'. cbn [Composer.desk_step].
    destruct (de_on w) as [c|] eqn:E; [done|]. intros Hok'. destruct (mount_fresh p (de_drafts w)) as [Hd Hf].
    split; [done| | |exact (lb_gone _ _ _ Hw)]; cbn [de_drafts de_on].
    + rewrite mount_drafts. apply Hw.
    + intros c [= <-]. rewrite Hd. split; [exact He|]. intros id. by rewrite Hf.
  - assert (Hok' := desk_step_ok w (DeLate i id answer) (lb_ok _ _ _ Hw)). revert Hok'. cbn [Composer.desk_step].
    destruct (de_gone w !! i) as [c|] eqn:E; [|done]. apply list_elem_of_lookup_2 in E as Hin.
    rewrite gone_step by by apply (dk_gone _ (lb_ok _ _ _ Hw)). intros Hok'.
    destruct (landed_unsent d id answer (lend w c) (lb_gone _ _ _ Hw c Hin)) as [Hu Hs].
    split; [done| |exact (lb_on _ _ _ Hw)|]; cbn [de_drafts de_gone].
    + etrans; [exact Hs|exact (lb_stored _ _ _ Hw)].
    + intros x Hx. apply insert_member in Hx as [->|Hx]; [done|by apply (lb_gone _ _ _ Hw)].
Qed.

Lemma run_left_behind d text w events :
  Forall (stays_away d) events -> left_behind d text w -> left_behind d text (desk_run events w).
Proof.
  unfold Composer.desk_run, flip. intros He. revert w. induction He as [|e l He _ IH]; intros w Hw; [done|].
  by apply IH, step_left_behind.
Qed.

(** The conversation is left: another is opened in the composer, or the composer is taken down. *)
Definition leaves (d : DraftIdentity) (e : ComposerEvent) : Prop :=
  match e with
  | CvRender p => draftIdentityOf p.(cp_type) p.(cp_id) <> Some d
  | CvUnmount => True
  | _ => False
  end.

Lemma leave_left_behind d w c m e :
  desk_ok w -> w.(de_on) = Some c -> w.(de_drafts) = Some m -> draft_of c = Some d -> trim c.(cm_text) <> [] ->
  unsent d c -> (forall x, x ∈ w.(de_gone) -> unsent d x) -> leaves d e ->
  left_behind d c.(cm_text) (desk_step w (DeOn e)).
Proof.
  intros Hok E Hm Hd Ht Hu Hg He. destruct (dk_on _ Hok c E) as [Hc Hmt].
  assert (Hok' := desk_step_ok w (DeOn e) Hok). revert Hok'. cbn [Composer.desk_step]. rewrite E.
  unfold composer_step. change (cm_mounted (lend w c)) with (cm_mounted c). rewrite Hmt.
  destruct e as [p| | | | | | | | | | | | | |]; try done; cbn [composer_handler].
  - destruct (leave_draft d p (lend w c) m (lend_ok w c Hc) Hmt Hm Hd Hu He) as [Ha Hs].
    apply noted_away in Ha. rewrite (aw_mounted _ _ Ha). intros Hok'. split; [done| | |done]; cbn [de_drafts de_on].
    + rewrite noted_drafts. etrans; [exact Hs|]. change (cm_text (lend w c)) with (cm_text c). by rewrite bool_decide_false.
    + intros x [= <-]. by destruct Ha.
  - destruct (co_draft _ Hc Hmt) as [Hk Htr].
    assert (Hcu : composer_unmount (lend w c)
      = ((lend w c) <| cm_drafts := saveConversationDraft d c.(cm_text) (Some m) |>) <| cm_mounted := false |>).
    { unfold composer_unmount. change (cm_draftKey (lend w c)) with (cm_draftKey c).
      change (cm_textRef (lend w c)) with (cm_textRef c). rewrite Hk, Hd. cbn.
      by rewrite Hm, Htr. }
    rewrite noted_gone, Hcu by by rewrite Hcu. cbn [cm_mounted set]. intros Hok'. split; [done| |done|]; cbn [de_drafts de_gone].
    + cbn. unfold saveConversationDraft. rewrite bool_decide_false by done. cbn. apply lookup_insert_eq.
    + intros x [Hx|Hx]%elem_of_app; [by apply Hg|]. apply list_elem_of_singleton in Hx. by subst.
Qed.

(** Whatever composer opens [d], it shows what is stored for it. *)
Lemma open_left_behind d text w p :
  draftIdentityOf p.(cp_type) p.(cp_id) = Some d -> left_behind d text w -> desk_text (desk_open p w) = text.
Proof.
  intros Hp Hw. unfold Composer.desk_open, desk_text. destruct (de_on w) as [c|] eqn:E; cbn [Composer.desk_step]; rewrite E.
  - destruct (dk_on _ (lb_ok _ _ _ Hw) c E) as [Hok Hm]. destruct (lb_on _ _ _ Hw c E) as [Ho Hu].
    assert (Ha : away d (lend w c)) by by apply lend_away.
    unfold composer_step. change (cm_mounted (lend w c)) with (cm_mounted c). rewrite Hm. cbn [composer_handler].
    assert (Hm' : (noted (composer_render p (lend w c))).(cm_mounted) = true).
    { rewrite (qu_mounted _ _ (noted_quiet _)), render_effect by (change (draft_of (lend w c)) with (draft_of c); congruence).
      rewrite (qu_mounted _ _ (noted_quiet _)). destruct (draft_effect_parts (noted ((lend w c) <| cm_props := p |>))) as (A & _).
      rewrite A. by rewrite (qu_mounted _ _ (noted_quiet _)). }
    rewrite Hm'. cbn [de_on].
    assert (Htext : forall c', (noted c').(cm_text) = c'.(cm_text)) by (intros c'; unfold noted; by destruct (cm_mounted c')).
    rewrite Htext, (enter_draft d p (lend w c) (lend_ok w c Hok) Ha Hp).
    change (stored d (lend w c)) with (w.(de_drafts) ≫= lookup (conversationDraftStorageKey d)). by rewrite (lb_stored _ _ _ Hw).
  - cbn [de_on]. by rewrite (mount_shows _ _ d Hp), (lb_stored _ _ _ Hw).
Qed.

(** C34: A draft is there on return: a text other than blanks, left in a conversation, is what the
    field shows when the conversation is opened again, whether it was left for another one or for
    a view without a field, and whatever is typed, sent, answered, opened, taken down and mounted
    elsewhere in between, as long as the storage works and, when it is left, none of its own texts
    waits for an answer. *)
Theorem draft_returns (drafts : Drafts) (before events : list DeskEvent) (leave : ComposerEvent)
    (c : Composer) (d : DraftIdentity) (p : ComposerProps) :
  let w := desk_run before (desk0 drafts) in
  w.(de_on) = Some c -> is_Some w.(de_drafts) -> draft_of c = Some d -> trim c.(cm_text) <> [] ->
  unsent d c -> (forall x, x ∈ w.(de_gone) -> unsent d x) ->
  leaves d leave -> Forall (stays_away d) events -> draftIdentityOf p.(cp_type) p.(cp_id) = Some d ->
  desk_text (desk_open p (desk_run events (desk_step w (DeOn leave)))) = c.(cm_text).
Proof.
  intros w Hon [m Hm] Hd Ht Hu Hg Hl Hev Hp.
  assert (Hok : desk_ok w) by (apply desk_run_ok; split; [done|intros x Hx; by apply not_elem_of_nil in Hx]).
  clearbody w. apply (open_left_behind d); [done|]. apply run_left_behind; [done|].
  by apply (leave_left_behind d w c m).
Qed.

(** A text sent from one conversation and confirmed in another takes the draft of the other with
    it: the field is emptied, and what is stored for the conversation on screen is deleted when it
    is left. *)
Theorem send_erases_next_draft (c : Composer) (id : nat) (a d : DraftIdentity) (p : ComposerProps) :
  composer_ok c -> c.(cm_mounted) = true -> is_Some c.(cm_drafts) -> draft_of c = Some d ->
  c.(cm_flights) !! id = Some (SendText (Some a)) -> a <> d -> draftIdentityOf p.(cp_type) p.(cp_id) <> Some d ->
  stored d (composer_run json_parse checkRadio [CvAnswer id None; CvRender p] c) = None.
Proof.
  intros Hok Hm [m Hs] Hd Hid Ha Hp. set (c1 := composer_step json_parse checkRadio c (CvAnswer id None)).
  assert (Hc1 : c1 = noted (send_answered checkRadio (SendText (Some a)) None (c <| cm_flights := delete id c.(cm_flights) |>))).
  { subst c1. unfold composer_step. rewrite Hm. cbn [composer_handler]. unfold send_landed. by rewrite Hid. }
  assert (Hm1 : c1.(cm_mounted) = true) by (rewrite Hc1; unfold noted; cbn; by rewrite Hm).
  destruct (save_own a [] c m Hs) as [_ [m' Hs1]].
  change (stored d (composer_step json_parse checkRadio c1 (CvRender p)) = None). unfold composer_step.
  rewrite Hm1, (stored_drafts d _ _ (noted_drafts _)). cbn [composer_handler].
  destruct (leave_draft d p c1 m') as [_ ->]; try done.
  - by apply composer_step_ok.
  - by rewrite Hc1, noted_drafts.
  - by rewrite Hc1, noted_draft_of.
  - intros i. rewrite Hc1. rewrite (qu_flights _ _ (noted_quiet _)). cbn. intros [Hne Hi]%lookup_delete_Some.
    apply Hne, (co_once _ Hok); [by rewrite Hid|by rewrite Hi].
  - rewrite Hc1. unfold noted. cbn. by rewrite Hm.
Qed.
End drafts.

(** ** A conversation left and opened again *)

Definition demo_composer (type : ConversationType) (id : string) : ComposerProps :=
  {| cp_disabled := false; cp_type := Some type; cp_id := Some (js id); cp_senderName := Some (js "Radio");
     cp_radioLat := None; cp_radioLon := None |}.
Definition typed (text : string) : ComposerEvent := CvInput (js text) None false None.

(** A contact's conversation left for the map, a channel's opened meanwhile, and back. *)
Lemma draft_returns_witness :
  let step := desk_step (fun _ => None) [] in
  let w := desk_run (fun _ => None) [] [DeMount (demo_composer CtContact "ab"); DeOn (typed "hello")] (desk0 (Some ∅)) in
  let w' := desk_run (fun _ => None) []
    [DeMount (demo_composer CtChannel "cd"); DeOn (typed "bye"); DeOn CvSubmit; DeOn CvUnmount; DeLate 1 0 None]
    (step w (DeOn CvUnmount)) in
  desk_text (desk_open (fun _ => None) [] (demo_composer CtContact "ab") w') = js "hello".
Proof.
  intros step w w'.
  assert (Htext : cm_text <$> w.(de_on) = Some (js "hello")) by by vm_compute.
  assert (Hd : draft_of <$> w.(de_on) = Some (Some {| di_type := KContact; di_id := js "ab" |})) by by vm_compute.
  assert (Hf : (fun c => map_to_list c.(cm_flights)) <$> w.(de_on) = Some []) by by vm_compute.
  destruct w.(de_on) as [c|] eqn:Hon; [|done]. injection Htext as Htext. injection Hd as Hd. injection Hf as Hf.
  apply map_to_list_empty_iff in Hf. rewrite <- Htext.
  apply (draft_returns (fun _ => None) [] (Some ∅) [DeMount (demo_composer CtContact "ab"); DeOn (typed "hello")]
    [DeMount (demo_composer CtChannel "cd"); DeOn (typed "bye"); DeOn CvSubmit; DeOn CvUnmount; DeLate 1 0 None]
    CvUnmount c {| di_type := KContact; di_id := js "ab" |}).
  - exact Hon.
  - by apply (bool_decide_unpack (is_Some (de_drafts w))).
  - exact Hd.
  - rewrite Htext. by vm_compute.
  - intros id. by rewrite Hf.
  - intros x Hx. exfalso. by apply (not_elem_of_nil x).
  - exact I.
  - repeat constructor. by vm_compute.
  - by vm_compute.
Defined.
