(* ===== verification/SearchView.v ===== *)
(** The search of messages: [components/SearchView.tsx].

    A request is put in flight with what it asks for; aborting it leaves it in flight until its
    rejection is heard, whose [finally] runs like any other. The component renders and runs its
    effects after each event. What the server finds for a query is another list at each answer: the
    messages it holds and may show change meanwhile. The highlighting of the matches is left out. *)
From S2P Require Import Prelude JsString JsCollections JsNum Types ConversationActions.

Definition SEARCH_PAGE_SIZE : Z := 50.

Record SearchResult := {
  sr_id : Z;
  sr_type : MessageType;
  sr_conversation_key : jstr;
  sr_text : jstr;
  sr_received_at : Z;
  sr_outgoing : bool;
  sr_sender_name : option jstr;
}.

(** A request to prefill is told from another by its object, numbered by [pr_object]. *)
Record PrefillRequest := { pr_object : Z; pr_query : jstr }.
#[export] Instance PrefillRequest_eq_dec : EqDecision PrefillRequest.
Proof. solve_decision. Defined.

Record SearchProps := { sp_visibilityVersion : Z; sp_prefillRequest : option PrefillRequest }.

Record SearchState := {
  ss_query : jstr;
  ss_debouncedQuery : jstr;
  ss_results : list SearchResult;
  ss_loading : bool;
  ss_hasMore : bool;
  ss_offset : Z;
  ss_searchedFrom : jstr * Z;
  ss_prevPrefill : option PrefillRequest;
}.
#[export] Instance SearchState_eta : Eta SearchState := fun s =>
  Build_SearchState s.(ss_query) s.(ss_debouncedQuery) s.(ss_results) s.(ss_loading) s.(ss_hasMore) s.(ss_offset)
    s.(ss_searchedFrom) s.(ss_prevPrefill).

(** [fr_more]: a further page, asked for by the button. *)
Record FoundRequest := { fr_more : bool; fr_q : jstr; fr_offset : Z; fr_aborted : bool }.
#[export] Instance FoundRequest_eta : Eta FoundRequest := fun r =>
  Build_FoundRequest r.(fr_more) r.(fr_q) r.(fr_offset) r.(fr_aborted).

(** [sw_abortRef] and [sw_effect] name the request of the controller the ref holds and of the one
    the cleanup of the effect aborts; [sw_timer] is the text the timer of the debounce sets. *)
Record SearchWorld := {
  sw_state : SearchState;
  sw_visibilityVersion : Z;
  sw_ran : option (jstr * Z);
  sw_timer : option jstr;
  sw_abortRef : option nat;
  sw_effect : option nat;
  sw_flights : gmap nat FoundRequest;
  sw_next : nat;
  sw_navigated : list SearchNavigateTarget;
}.
#[export] Instance SearchWorld_eta : Eta SearchWorld := fun w =>
  Build_SearchWorld w.(sw_state) w.(sw_visibilityVersion) w.(sw_ran) w.(sw_timer) w.(sw_abortRef) w.(sw_effect)
    w.(sw_flights) w.(sw_next) w.(sw_navigated).

Definition on_state (f : SearchState -> SearchState) (w : SearchWorld) : SearchWorld := w <| sw_state := f w.(sw_state) |>.

(** ** Requests *)

Definition abort_found (id : option nat) (w : SearchWorld) : SearchWorld :=
  match id with
  | Some id => w <| sw_flights := alter (fun r => r <| fr_aborted := true |>) id w.(sw_flights) |>
  | None => w
  end.

(** A new controller takes the place of the one in the ref, and its request leaves. *)
Definition ask_found (more : bool) (q : jstr) (offset : Z) (w : SearchWorld) : SearchWorld :=
  let w := abort_found w.(sw_abortRef) w in
  ((w <| sw_abortRef := Some w.(sw_next) |>)
     <| sw_flights := <[w.(sw_next) := {| fr_more := more; fr_q := q; fr_offset := offset; fr_aborted := false |}]> w.(sw_flights) |>)
    <| sw_next := S w.(sw_next) |>.

(** ** Renders *)

(** The states adjusted while rendering, until nothing more changes. *)
Definition adjust_prefill (prefillRequest : option PrefillRequest) (s : SearchState) : SearchState :=
  if s.(ss_prevPrefill) ≟ prefillRequest then s else
  let s := s <| ss_prevPrefill := prefillRequest |> in
  match prefillRequest with
  | Some request =>
    let nextQuery := trim request.(pr_query) in
    (s <| ss_query := nextQuery |>) <| ss_debouncedQuery := nextQuery |>
  | None => s
  end.

Definition adjust_search (visibilityVersion : Z) (s : SearchState) : SearchState :=
  if bool_decide (s.(ss_searchedFrom) = (s.(ss_debouncedQuery), visibilityVersion)) then s else
  let s := (((s <| ss_searchedFrom := (s.(ss_debouncedQuery), visibilityVersion) |>) <| ss_results := [] |>)
              <| ss_offset := 0 |>) <| ss_hasMore := false |> in
  if s.(ss_debouncedQuery) ≟ [] then s else s <| ss_loading := true |>.

(** The effect on the query of the debounce and the version: cleanup, then the search. *)
Definition search_run_effect (w : SearchWorld) : SearchWorld :=
  let inputs := (w.(sw_state).(ss_debouncedQuery), w.(sw_visibilityVersion)) in
  if bool_decide (w.(sw_ran) = Some inputs) then w else
  let w := abort_found w.(sw_effect) (w <| sw_ran := Some inputs |>) in
  if w.(sw_state).(ss_debouncedQuery) ≟ [] then w <| sw_effect := None |>
  else (fun w => w <| sw_effect := w.(sw_abortRef) |>) (ask_found false w.(sw_state).(ss_debouncedQuery) 0 w).

(** The effect on the query: its timer is set anew. *)
Definition debounce_effect (before : jstr) (w : SearchWorld) : SearchWorld :=
  if before ≟ w.(sw_state).(ss_query) then w else w <| sw_timer := Some (trim w.(sw_state).(ss_query)) |>.

(** A render and its effects. *)
Definition search_rendered (p : SearchProps) (before : jstr) (w : SearchWorld) : SearchWorld :=
  let w := w <| sw_visibilityVersion := p.(sp_visibilityVersion) |> in
  let w := on_state (fun s => adjust_search p.(sp_visibilityVersion) (adjust_prefill p.(sp_prefillRequest) s)) w in
  search_run_effect (debounce_effect before w).

(** Before the first render. *)
Definition search_blank (p : SearchProps) : SearchWorld :=
  {| sw_state := {| ss_query := []; ss_debouncedQuery := []; ss_results := []; ss_loading := false; ss_hasMore := false;
                    ss_offset := 0; ss_searchedFrom := ([], p.(sp_visibilityVersion)); ss_prevPrefill := None |};
     sw_visibilityVersion := p.(sp_visibilityVersion); sw_ran := None; sw_timer := Some []; sw_abortRef := None;
     sw_effect := None; sw_flights := ∅; sw_next := 0; sw_navigated := [] |}.
Definition search_mount (p : SearchProps) : SearchWorld := search_rendered p [] (search_blank p).

Definition search_unmount (w : SearchWorld) : SearchWorld :=
  (abort_found w.(sw_abortRef) (abort_found w.(sw_effect) w)) <| sw_timer := None |>.

(** ** Replies *)

Definition merge_page (prev data : list SearchResult) : list SearchResult :=
  let existingIds : gset Z := list_to_set (sr_id <$> prev) in
  prev ++ filter (fun r => r.(sr_id) ∉ existingIds) data.

Definition page_found (more : bool) (data : list SearchResult) (s : SearchState) : SearchState :=
  let s := if more then s <| ss_results := merge_page s.(ss_results) data |> else s <| ss_results := data |> in
  (s <| ss_hasMore := SEARCH_PAGE_SIZE <=? len data |>)
    <| ss_offset := if more then s.(ss_offset) + len data else len data |>.

(** An answer, or a failure ([None]); an aborted request only fails. *)
Definition found_answered (id : nat) (answer : option (list SearchResult)) (w : SearchWorld) : SearchWorld :=
  match w.(sw_flights) !! id with
  | None => w
  | Some r =>
    let w := w <| sw_flights := delete id w.(sw_flights) |> in
    let w := match (if r.(fr_aborted) then None else answer) with
             | Some data => on_state (page_found r.(fr_more) data) w
             | None => w
             end in
    on_state (fun s => s <| ss_loading := false |>) w
  end.

(** ** The user *)

Definition loadMore (w : SearchWorld) : SearchWorld :=
  let s := w.(sw_state) in
  if (s.(ss_debouncedQuery) ≟ []) || s.(ss_loading) then w
  else on_state (fun s => s <| ss_loading := true |>) (ask_found true s.(ss_debouncedQuery) s.(ss_offset) w).

(** The button shows under the results while there are more. *)
Definition press_loadMore (w : SearchWorld) : SearchWorld :=
  if w.(sw_state).(ss_hasMore) && negb w.(sw_state).(ss_loading) then loadMore w else w.

Definition getConversationName (contacts : list Contact) (channels : list Channel) (result : SearchResult) : jstr :=
  match result.(sr_type) with
  | CHAN =>
    let channel := array_find (fun c => toUpperCase c.(ch_key) ≟ toUpperCase result.(sr_conversation_key)) channels in
    truthy (ch_name <$> channel) ?? slice result.(sr_conversation_key) 0 8
  | PRIV =>
    let contact := array_find (fun c => toLowerCase c.(c_public_key) ≟ toLowerCase result.(sr_conversation_key)) contacts in
    truthy (contact ≫= c_name) ?? slice result.(sr_conversation_key) 0 12
  end.

Definition handleResultClick (contacts : list Contact) (channels : list Channel) (result : SearchResult) (w : SearchWorld)
    : SearchWorld :=
  w <| sw_navigated := w.(sw_navigated) ++
    [{| st_id := result.(sr_id); st_type := result.(sr_type); st_conversation_key := result.(sr_conversation_key);
        st_conversation_name := getConversationName contacts channels result |}] |>.

(** The page says that nothing was found. *)
Definition says_no_results (s : SearchState) : bool :=
  negb (s.(ss_debouncedQuery) ≟ []) && (len s.(ss_results) =? 0) && negb s.(ss_loading).

(** ** Steps *)

Inductive SearchEvent :=
| SvRender (p : SearchProps)
| SvType (query : jstr)
| SvTimer
| SvAnswer (id : nat) (answer : option (list SearchResult))
| SvMore
| SvClick (contacts : list Contact) (channels : list Channel) (result : SearchResult).

Definition search_handler (e : SearchEvent) (w : SearchWorld) : SearchWorld :=
  match e with
  | SvRender _ => w
  | SvType query => on_state (fun s => s <| ss_query := query |>) w
  | SvTimer =>
    match w.(sw_timer) with
    | Some query => (on_state (fun s => s <| ss_debouncedQuery := query |>) w) <| sw_timer := None |>
    | None => w
    end
  | SvAnswer id answer => found_answered id answer w
  | SvMore => press_loadMore w
  | SvClick contacts channels result => handleResultClick contacts channels result w
  end.

(** The inputs of the render after an event: new ones after [SvRender], else those of before. *)
Definition search_step (w : SearchWorld) (e : SearchEvent) : SearchWorld :=
  let p := match e with
           | SvRender p => p
           | _ => {| sp_visibilityVersion := w.(sw_visibilityVersion); sp_prefillRequest := w.(sw_state).(ss_prevPrefill) |}
           end in
  search_rendered p w.(sw_state).(ss_query) (search_handler e w).
Definition search_run : list SearchEvent -> SearchWorld -> SearchWorld := flip (foldl search_step).

(** What the search promises, whatever is typed, aborted and answered late and however the messages
    the server holds change meanwhile; and two ways in which it errs. *)

Section search.
(** What the server finds for a query when it makes the answer the event of this number brings, in
    its order. *)
Context (serve : nat -> jstr -> list SearchResult).

(** The page of a list that starts at an offset. *)
Definition served_page (found : list SearchResult) (offset : Z) : list SearchResult := take 50 (drop (Z.to_nat offset) found).

(** A request that is not aborted is answered with the page it asks for. *)
Definition honest (n : nat) (w : SearchWorld) (e : SearchEvent) : Prop :=
  match e with
  | SvAnswer id (Some data) => forall r, w.(sw_flights) !! id = Some r -> r.(fr_aborted) = false ->
      data = served_page (serve n r.(fr_q)) r.(fr_offset)
  | _ => True
  end.

(** The state after the first [n] events. *)
Definition search_after (p : SearchProps) (events : list SearchEvent) (n : nat) : SearchWorld :=
  search_run (take n events) (search_mount p).
Definition honest_run (p : SearchProps) (events : list SearchEvent) : Prop :=
  forall n e, events !! n = Some e -> honest n (search_after p events n) e.

(** What is searched: the query, and the version of what may be seen. *)
Definition searches (w : SearchWorld) : jstr * Z := (w.(sw_state).(ss_debouncedQuery), w.(sw_visibilityVersion)).

(** Between these events the list of a query only grows at its front, by fewer than a page. *)
Definition grows (since now : nat) (q : jstr) : Prop :=
  forall n m, (since <= n)%nat -> (n <= m)%nat -> (m < now)%nat ->
  exists newer, serve m q = newer ++ serve n q /\ len newer < 50.

(** ** Pages *)

(** The first [now] events have happened, and the search was begun after [since] of them. *)
Record found_so_far (q : jstr) (since now : nat) (s : SearchState) : Prop := {
  ff_offset : 0 <= s.(ss_offset) /\ (s.(ss_hasMore) = true -> 50 <= s.(ss_offset));
  ff_once : NoDup (sr_id <$> s.(ss_results));
  ff_served r : r ∈ s.(ss_results) -> exists n, (since <= n < now)%nat /\ r ∈ serve n q;
  ff_front : grows since now q ->
    (s.(ss_results) = [] /\ s.(ss_offset) = 0)
    \/ exists n m newer, (since <= n)%nat /\ (n <= m)%nat /\ (m < now)%nat /\ serve m q = newer ++ serve n q
         /\ s.(ss_results) `prefix_of` serve n q /\ s.(ss_offset) <= len newer + len s.(ss_results)
         /\ (s.(ss_hasMore) = false -> s.(ss_results) = serve n q);
}.

Lemma len_served l offset : 0 <= offset -> len (served_page l offset) = Z.max 0 (Z.min 50 (len l - offset)).
Proof. intros H. unfold served_page, len in *. rewrite length_take, length_drop. lia. Qed.

Lemma served_member l offset r : r ∈ served_page l offset -> r ∈ l.
Proof. intros H. by eapply subseteq_drop, subseteq_take. Qed.

Lemma ids_sublist (l k : list SearchResult) : l `sublist_of` k -> NoDup (sr_id <$> k) -> NoDup (sr_id <$> l).
Proof. intros Hl Hk. eapply sublist_NoDup; [exact Hk|by apply fmap_sublist]. Qed.

Lemma served_once l offset : NoDup (sr_id <$> l) -> NoDup (sr_id <$> served_page l offset).
Proof. apply ids_sublist. unfold served_page. etrans; [apply sublist_take|apply sublist_drop]. Qed.

Lemma merged_member prev data r : r ∈ merge_page prev data -> r ∈ prev \/ r ∈ data.
Proof. unfold merge_page. rewrite elem_of_app, list_elem_of_filter. tauto. Qed.

(** Merging keeps each message once, whatever page comes. *)
Lemma merged_once prev data :
  NoDup (sr_id <$> prev) -> NoDup (sr_id <$> data) -> NoDup (sr_id <$> merge_page prev data).
Proof.
  intros Hp Hd. unfold merge_page. rewrite fmap_app. apply NoDup_app. split; [done|]. split.
  - intros id Hid (r & -> & [Hr _]%list_elem_of_filter)%list_elem_of_fmap. by apply Hr, elem_of_list_to_set.
  - eapply ids_sublist; [|exact Hd]. apply sublist_filter.
Qed.

Lemma filter_none (prev data : list SearchResult) :
  (forall x, x ∈ data -> sr_id x ∈ sr_id <$> prev) ->
  filter (fun r => sr_id r ∉ (list_to_set (sr_id <$> prev) : gset Z)) data = [].
Proof.
  intros H. induction data as [|x k IH]; [done|]. rewrite filter_cons_False.
  - apply IH. intros y Hy. apply H. by right.
  - intros Hx. apply Hx, elem_of_list_to_set, H. by left.
Qed.
Lemma filter_all (prev data : list SearchResult) :
  (forall x, x ∈ data -> sr_id x ∉ sr_id <$> prev) ->
  filter (fun r => sr_id r ∉ (list_to_set (sr_id <$> prev) : gset Z)) data = data.
Proof.
  intros H. induction data as [|x k IH]; [done|]. rewrite filter_cons_True.
  - f_equal. apply IH. intros y Hy. apply H. by right.
  - rewrite elem_of_list_to_set. apply H. by left.
Qed.

(** A page that starts inside the first [k] of a list, or right after them, carries them on: what
    was there already is left out. *)
Lemma merge_carries_on (l : list SearchResult) (j k : nat) :
  NoDup (sr_id <$> l) -> (j <= k)%nat -> merge_page (take k l) (take 50 (drop j l)) = take (k + (50 - (k - j))) l.
Proof.
  intros Hnd Hj. unfold merge_page. rewrite <- (take_take_drop l k). f_equal.
  rewrite <- (take_drop (k - j) (take 50 (drop j l))), filter_app.
  rewrite <- (take_drop k l) in Hnd. rewrite fmap_app in Hnd. apply NoDup_app in Hnd as (_ & Hdis & _).
  assert (Hold : take (k - j) (take 50 (drop j l)) = take (50 `min` (k - j)) (drop j l)) by (rewrite take_take; f_equal; lia).
  assert (Hnew : drop (k - j) (take 50 (drop j l)) = take (50 - (k - j)) (drop k l)).
  { rewrite skipn_firstn_comm, drop_drop. do 2 f_equal. lia. }
  rewrite Hold, Hnew, filter_none, filter_all; [done|..].
  - intros x Hx Hin. apply (Hdis _ Hin), list_elem_of_fmap_2. by eapply subseteq_take.
  - intros x Hx. apply list_elem_of_fmap_2. replace k with (j + (k - j))%nat by lia.
    rewrite <- (take_take_drop l j). apply elem_of_app. right.
    rewrite <- take_take in Hx. by apply (subseteq_take 50) in Hx.
Qed.

(** A first page. *)
Lemma first_page_found q since now s :
  (forall n q, NoDup (sr_id <$> serve n q)) -> (since <= now)%nat ->
  found_so_far q since (S now) (page_found false (served_page (serve now q) 0) s).
Proof.
  intros Hnd Hs. unfold page_found. cbn. pose proof (len_served (serve now q) 0) as Hl. split; cbn.
  - unfold SEARCH_PAGE_SIZE. rewrite Z.leb_le. lia.
  - by apply served_once.
  - intros r Hr. exists now. split; [lia|]. by eapply served_member.
  - intros _. right. exists now, now, []. split_and!; [lia|lia|lia|done|apply prefix_take|unfold len; cbn [length]; lia|].
    unfold SEARCH_PAGE_SIZE, served_page. intros Hf. to_prop. unfold len in *. apply take_ge.
    unfold served_page in Hl. rewrite drop_0 in *. lia.
Qed.

(** A further page. *)
Lemma further_page_found q since now s :
  (forall n q, NoDup (sr_id <$> serve n q)) -> (since <= now)%nat -> 50 <= s.(ss_offset) ->
  found_so_far q since now s ->
  found_so_far q since (S now) (page_found true (served_page (serve now q) s.(ss_offset)) s).
Proof.
  intros Hnd Hs Ho [_ H2 H3 H4]. unfold page_found. cbn. pose proof (len_served (serve now q) s.(ss_offset)) as Hl. split; cbn.
  - lia.
  - by apply merged_once, served_once.
  - intros r [Hr|Hr]%merged_member.
    + destruct (H3 r Hr) as (n & ? & ?). exists n. split; [lia|done].
    + exists now. split; [lia|]. by eapply served_member.
  - intros Hg. right. destruct H4 as [[_ ?]|(n & m & newer & Hn & Hm & Hnow & Hnewer & [rest Hpre] & Hoff & _)];
      [intros i j ? ? ?; apply Hg; lia|lia|].
    destruct (Hg n now) as (newer' & Hnewer' & Hlen); [lia..|]. destruct (Hg m now) as (more & Hmore & _); [lia..|].
    set (k := length s.(ss_results)). assert (Hres : s.(ss_results) = take k (serve n q)) by (unfold k; by rewrite Hpre, take_app_length).
    set (j := (Z.to_nat s.(ss_offset) - length newer')%nat).
    assert (Hpage : served_page (serve now q) s.(ss_offset) = take 50 (drop j (serve n q))).
    { unfold served_page. rewrite Hnewer', drop_app, drop_ge by (unfold len in *; lia). done. }
    assert (Hj : (j <= k)%nat).
    { subst j k. apply (f_equal length) in Hmore, Hnewer, Hnewer'. rewrite !length_app in *. unfold len in *. lia. }
    assert (Hk : (k <= length (serve n q))%nat) by (rewrite Hpre, length_app; lia).
    assert (Hmerge : merge_page s.(ss_results) (served_page (serve now q) s.(ss_offset)) = take (k + (50 - (k - j))) (serve n q)).
    { rewrite Hpage, Hres at 1. by apply merge_carries_on. }
    exists n, now, newer'. rewrite Hmerge. split_and!; [lia|lia|lia|done|apply prefix_take| |].
    + rewrite Hpage. unfold len in *. rewrite !length_take, length_drop. subst j. lia.
    + unfold SEARCH_PAGE_SIZE. rewrite Hpage. intros Hf. to_prop. apply take_ge. unfold len in *.
      rewrite length_take, length_drop in *. lia.
Qed.

Lemma found_later q since now s : found_so_far q since now s -> found_so_far q since (S now) s.
Proof.
  intros [H1 H2 H3 H4]. split; try done.
  - intros r Hr. destruct (H3 r Hr) as (n & ? & ?). exists n. split; [lia|done].
  - intros Hg. destruct H4 as [?|(n & m & newer & ? & ? & ? & Hrest)]; [intros i j ? ? ?; apply Hg; lia|by left|].
    right. exists n, m, newer. by split_and!; [lia..|apply Hrest|apply Hrest|apply Hrest|apply Hrest].
Qed.

(** ** Reachable states *)

(** The results and the requests are those of the query [q] and the version [v] last searched. *)
Record search_at (q : jstr) (v : Z) (since now : nat) (w : SearchWorld) : Prop := {
  sa_fresh id : (w.(sw_next) <= id)%nat -> w.(sw_flights) !! id = None;
  sa_live id r : w.(sw_flights) !! id = Some r -> r.(fr_aborted) = false -> w.(sw_abortRef) = Some id;
  sa_ran : w.(sw_ran) = Some (q, v);
  sa_from : w.(sw_state).(ss_searchedFrom) = (q, v);
  sa_found : q <> [] -> found_so_far q since now w.(sw_state);
  sa_asks id r : q <> [] -> w.(sw_flights) !! id = Some r -> r.(fr_aborted) = false ->
    r.(fr_q) = q /\ r.(fr_offset) = w.(sw_state).(ss_offset)
    /\ if r.(fr_more) then 50 <= r.(fr_offset) else r.(fr_offset) = 0;
}.
Definition search_settled (since now : nat) (w : SearchWorld) : Prop :=
  search_at w.(sw_state).(ss_debouncedQuery) w.(sw_visibilityVersion) since now w.

Lemma found_frame q since now s s' :
  s'.(ss_results) = s.(ss_results) -> s'.(ss_offset) = s.(ss_offset) -> s'.(ss_hasMore) = s.(ss_hasMore) ->
  found_so_far q since now s -> found_so_far q since now s'.
Proof. intros Hr Ho Hh [H1 H2 H3 H4]. split; rewrite ?Hr, ?Ho, ?Hh; done. Qed.

(** Steps that only touch other parts of the state. *)
Lemma at_frame q v since now w w' :
  w'.(sw_flights) = w.(sw_flights) -> w'.(sw_next) = w.(sw_next) -> w'.(sw_abortRef) = w.(sw_abortRef) ->
  w'.(sw_ran) = w.(sw_ran) -> w'.(sw_state).(ss_searchedFrom) = w.(sw_state).(ss_searchedFrom) ->
  w'.(sw_state).(ss_results) = w.(sw_state).(ss_results) -> w'.(sw_state).(ss_offset) = w.(sw_state).(ss_offset) ->
  w'.(sw_state).(ss_hasMore) = w.(sw_state).(ss_hasMore) -> search_at q v since now w -> search_at q v since (S now) w'.
Proof.
  intros Hf Hn Ha Hr Hs Hres Ho Hh [H1 H2 H3 H4 H5 H6]. split; rewrite ?Hf, ?Hn, ?Ha, ?Hr, ?Hs, ?Ho; try done.
  intros Hq. by eapply found_frame, found_later, H5.
Qed.

Lemma abort_lookup id w i r :
  (abort_found id w).(sw_flights) !! i = Some r -> r.(fr_aborted) = false ->
  w.(sw_flights) !! i = Some r /\ Some i <> id.
Proof.
  destruct id as [id|]; [|by intros ? ?]. cbn. rewrite lookup_alter_Some.
  intros [(<- & r' & Hr & ->)|[Hne Hr]] Ha; [done|]. split; [done|congruence].
Qed.

Lemma abort_fresh id w i : w.(sw_flights) !! i = None -> (abort_found id w).(sw_flights) !! i = None.
Proof. destruct id as [id|]; [|done]. cbn. intros Hi. by rewrite lookup_alter_None. Qed.

Lemma abort_parts id w :
  let w' := abort_found id w in
  w'.(sw_state) = w.(sw_state) /\ w'.(sw_visibilityVersion) = w.(sw_visibilityVersion) /\ w'.(sw_ran) = w.(sw_ran)
  /\ w'.(sw_abortRef) = w.(sw_abortRef) /\ w'.(sw_next) = w.(sw_next).
Proof. by destruct id. Qed.

(** A request leaves, and is the only one that is not aborted. *)
Lemma ask_lookup more q offset w i r :
  (forall id r, w.(sw_flights) !! id = Some r -> r.(fr_aborted) = false -> w.(sw_abortRef) = Some id) ->
  (ask_found more q offset w).(sw_flights) !! i = Some r -> r.(fr_aborted) = false ->
  i = w.(sw_next) /\ r = {| fr_more := more; fr_q := q; fr_offset := offset; fr_aborted := false |}.
Proof.
  intros Hlive. unfold ask_found. cbn zeta. cbn [sw_flights sw_next set].
  destruct (abort_parts w.(sw_abortRef) w) as (_ & _ & _ & _ & Hn).
  cbn. rewrite Hn. rewrite lookup_insert_Some. intros [[<- <-]|[_ Hi]] Ha; [done|].
  destruct (abort_lookup _ _ _ _ Hi Ha) as [Hi' Hne]. exfalso. apply Hne. symmetry. by eapply Hlive.
Qed.

Lemma ask_parts more q offset w :
  let w' := ask_found more q offset w in
  w'.(sw_state) = w.(sw_state) /\ w'.(sw_visibilityVersion) = w.(sw_visibilityVersion) /\ w'.(sw_ran) = w.(sw_ran)
  /\ w'.(sw_abortRef) = Some w.(sw_next) /\ w'.(sw_next) = S w.(sw_next)
  /\ forall id, (S w.(sw_next) <= id)%nat -> (forall id, (w.(sw_next) <= id)%nat -> w.(sw_flights) !! id = None) ->
       w'.(sw_flights) !! id = None.
Proof.
  unfold ask_found. cbn zeta. destruct (abort_parts w.(sw_abortRef) w) as (Hs & Hv & Hr & _ & Hn). cbn. rewrite Hs, Hv, Hr, Hn.
  split_and!; try done. intros id Hid Hf. rewrite lookup_insert_ne by lia. apply abort_fresh, Hf. lia.
Qed.

Lemma answered_at q v since now w id answer :
  (forall n q, NoDup (sr_id <$> serve n q)) -> (since <= now)%nat -> honest now w (SvAnswer id answer) ->
  search_at q v since now w -> search_at q v since (S now) (found_answered id answer w).
Proof.
  intros Hnd Hs Hh Hat. unfold found_answered. destruct (sw_flights w !! id) as [r|] eqn:Hid; [|by eapply at_frame, Hat]. cbn zeta.
  set (w1 := w <| sw_flights := delete id w.(sw_flights) |>).
  assert (Hat1 : search_at q v since now w1).
  { destruct Hat as [H1 H2 H3 H4 H5 H6]. split; try done.
    - intros i Hi. apply lookup_delete_None. right. by apply H1.
    - intros i r' Hi Ha. apply (lookup_delete_Some (sw_flights w) id i) in Hi as [_ Hi]. by eapply H2.
    - intros i r' Hq Hi Ha. apply (lookup_delete_Some (sw_flights w) id i) in Hi as [_ Hi]. by eapply H6. }
  destruct (fr_aborted r) eqn:Ha; [by eapply at_frame, Hat1|]. destruct answer as [data|]; [|by eapply at_frame, Hat1].
  assert (Hnone : forall i r', w1.(sw_flights) !! i = Some r' -> r'.(fr_aborted) = false -> False).
  { intros i r' Hi Ha'. apply (lookup_delete_Some (sw_flights w) id i) in Hi as [Hne Hi].
    assert (H1 := sa_live _ _ _ _ _ Hat id r Hid Ha). assert (H2 := sa_live _ _ _ _ _ Hat i r' Hi Ha'). congruence. }
  destruct Hat1 as [H1 H2 H3 H4 H5 _]. split; try done.
  - unfold page_found. cbn. by destruct (fr_more r).
  - intros Hq. destruct (sa_asks _ _ _ _ _ Hat id r Hq Hid Ha) as (Hrq & Hro & Hrm).
    assert (Hd := Hh r Hid Ha). rewrite Hrq, Hro in Hd. subst data. rewrite Hro in Hrm.
    eapply (found_frame q since (S now) (page_found (fr_more r) (served_page (serve now q) (sw_state w).(ss_offset)) w.(sw_state)));
      [done..|]. destruct (fr_more r).
    + by apply further_page_found; [..|apply H5].
    + rewrite Hrm. by apply first_page_found.
  - intros i r' _ Hi Ha'. by destruct (Hnone i r' Hi Ha').
Qed.

Lemma more_at q v since now w :
  w.(sw_state).(ss_debouncedQuery) = q -> search_at q v since now w -> search_at q v since (S now) (press_loadMore w).
Proof.
  intros Hq Hat. unfold press_loadMore. destruct (_ && _) eqn:Hb; [|by eapply at_frame, Hat].
  apply andb_true_iff in Hb as [Hmore _]. unfold loadMore. cbn zeta.
  destruct (_ || _); [by eapply at_frame, Hat|]. rewrite Hq. set (o := (sw_state w).(ss_offset)).
  destruct (ask_parts true q o w) as (Hs & _ & Hr & Ha & Hn & Hf). destruct Hat as [H1 H2 H3 H4 H5 H6].
  assert (Hlk := fun i r => ask_lookup true q o w i r H2). set (w1 := ask_found true q o w) in *. clearbody w1.
  split; cbn; rewrite ?Hs, ?Hr, ?Ha, ?Hn; try done.
  - intros id Hid. by apply Hf.
  - intros id r Hi Hab. by destruct (Hlk id r Hi Hab) as [-> _].
  - intros Hne. by eapply found_frame, found_later, H5.
  - intros id r Hne Hi Hab. destruct (Hlk id r Hi Hab) as [_ ->]. split_and!; [done..|]. cbn.
    by apply (ff_offset _ _ _ _ (H5 Hne)).
Qed.

Lemma handler_at since now w e :
  (forall n q, NoDup (sr_id <$> serve n q)) -> (since <= now)%nat -> honest now w e -> search_settled since now w ->
  search_at w.(sw_state).(ss_debouncedQuery) w.(sw_visibilityVersion) since (S now) (search_handler e w).
Proof.
  intros Hnd Hs Hh Hw. destruct e as [p|query| |id answer| |contacts channels result]; cbn [search_handler].
  - by eapply at_frame, Hw.
  - by eapply at_frame, Hw.
  - destruct (sw_timer w); by eapply at_frame, Hw.
  - by apply answered_at.
  - by apply more_at.
  - by eapply at_frame, Hw.
Qed.

(** ** Renders *)

Lemma prefill_frame request s :
  let s' := adjust_prefill request s in
  s'.(ss_results) = s.(ss_results) /\ s'.(ss_offset) = s.(ss_offset) /\ s'.(ss_hasMore) = s.(ss_hasMore)
  /\ s'.(ss_searchedFrom) = s.(ss_searchedFrom).
Proof. unfold adjust_prefill. cbn zeta. destruct (_ ≟ _); [done|]. by destruct request. Qed.

Lemma adjusted_same v s : s.(ss_searchedFrom) = (s.(ss_debouncedQuery), v) -> adjust_search v s = s.
Proof. intros H. unfold adjust_search. by rewrite bool_decide_true. Qed.

Lemma adjusted_new v s :
  s.(ss_searchedFrom) <> (s.(ss_debouncedQuery), v) ->
  let s' := adjust_search v s in
  s'.(ss_debouncedQuery) = s.(ss_debouncedQuery) /\ s'.(ss_searchedFrom) = (s.(ss_debouncedQuery), v)
  /\ s'.(ss_results) = [] /\ s'.(ss_offset) = 0 /\ s'.(ss_hasMore) = false.
Proof. intros H. unfold adjust_search. rewrite bool_decide_false by done. cbn zeta. by destruct (_ ≟ []). Qed.

Lemma nothing_found q since now s :
  s.(ss_results) = [] -> s.(ss_offset) = 0 -> s.(ss_hasMore) = false -> found_so_far q since now s.
Proof.
  intros Hr Ho Hm. split; rewrite ?Hr, ?Ho, ?Hm; [lia|apply NoDup_nil_2|by intros r ?%not_elem_of_nil|by left].
Qed.

(** The effect of a query or version not yet searched. *)
Lemma effect_new q v now w :
  (forall id, (w.(sw_next) <= id)%nat -> w.(sw_flights) !! id = None) ->
  (forall id r, w.(sw_flights) !! id = Some r -> r.(fr_aborted) = false -> w.(sw_abortRef) = Some id) ->
  w.(sw_state).(ss_debouncedQuery) = q -> w.(sw_visibilityVersion) = v -> w.(sw_state).(ss_searchedFrom) = (q, v) ->
  w.(sw_state).(ss_results) = [] -> w.(sw_state).(ss_offset) = 0 -> w.(sw_state).(ss_hasMore) = false ->
  w.(sw_ran) <> Some (q, v) -> search_settled now now (search_run_effect w).
Proof.
  intros H1 H2 Hq Hv Hfrom Hres Hoff Hmore Hran. unfold search_run_effect. rewrite Hq, Hv, bool_decide_false by done. cbn zeta.
  destruct (abort_parts w.(sw_effect) (w <| sw_ran := Some (q, v) |>)) as (As & Av & Ar & Aa & An).
  assert (Af := abort_fresh w.(sw_effect) (w <| sw_ran := Some (q, v) |>)).
  assert (Al := abort_lookup w.(sw_effect) (w <| sw_ran := Some (q, v) |>)).
  set (w1 := abort_found w.(sw_effect) (w <| sw_ran := Some (q, v) |>)) in *. clearbody w1. cbn in As, Av, Ar, Aa, An, Af, Al.
  assert (H1' : forall id, (w1.(sw_next) <= id)%nat -> w1.(sw_flights) !! id = None) by (intros id Hid; rewrite An in Hid; auto).
  assert (H2' : forall id r, w1.(sw_flights) !! id = Some r -> r.(fr_aborted) = false -> w1.(sw_abortRef) = Some id).
  { intros id r Hi Ha. rewrite Aa. eapply H2; [|exact Ha]. by apply Al. }
  assert (Hfound : forall q', found_so_far q' now now w1.(sw_state)) by (intros q'; apply nothing_found; by rewrite As).
  rewrite As, Hq. unfold search_settled. case_bool_decide as Hne.
  - cbn. rewrite As, Av, Hq, Hv. split; cbn; rewrite ?Ar, ?As; try done. 
  - destruct (ask_parts false q 0 w1) as (Bs & Bv & Br & Ba & Bn & Bf). assert (Bl := fun i r => ask_lookup false q 0 w1 i r H2').
    set (w2 := ask_found false q 0 w1) in *. clearbody w2. cbn. rewrite Bs, Bv, As, Av, Hq, Hv.
    split; cbn; rewrite ?Bs, ?Br, ?Ba, ?Bn, ?As, ?Ar; try done.
    + intros id Hid. by apply Bf.
    + intros id r Hi Ha. by destruct (Bl id r Hi Ha) as [-> _].
    + intros _. by apply nothing_found.
    + intros id r _ Hi Ha. by destruct (Bl id r Hi Ha) as [_ ->].
Qed.

(** A render searches anew when its inputs have changed. *)
Lemma rendered_settled q v since now p before w :
  search_at q v since now w ->
  let w' := search_rendered p before w in
  (searches w' = (q, v) /\ search_settled since now w') \/ search_settled now now w'.
Proof.
  intros [H1 H2 H3 H4 H5 H6]. unfold search_rendered. cbn zeta. set (v' := p.(sp_visibilityVersion)).
  destruct (prefill_frame p.(sp_prefillRequest) w.(sw_state)) as (Hres & Hoff & Hmore & Hfrom).
  set (s1 := adjust_prefill p.(sp_prefillRequest) w.(sw_state)) in *. rewrite H4 in Hfrom.
  set (w1 := debounce_effect before (on_state _ _)).
  assert (Hw1 : w1.(sw_state) = adjust_search v' s1 /\ w1.(sw_visibilityVersion) = v' /\ w1.(sw_ran) = Some (q, v)
    /\ w1.(sw_abortRef) = w.(sw_abortRef) /\ w1.(sw_flights) = w.(sw_flights) /\ w1.(sw_next) = w.(sw_next)).
  { subst w1. unfold debounce_effect. by destruct (_ ≟ _). }
  destruct Hw1 as (Ws & Wv & Wr & Wa & Wf & Wn). clearbody w1 s1.
  destruct (decide ((q, v) = (s1.(ss_debouncedQuery), v'))) as [Heq|Hne].
  - rewrite adjusted_same in Ws by congruence. injection Heq as Hq Hv.
    assert (Hrun : search_run_effect w1 = w1) by (unfold search_run_effect; by rewrite Ws, Wv, Wr, <- Hq, <- Hv, bool_decide_true).
    rewrite Hrun. left. unfold search_settled, searches. rewrite Ws, Wv, <- Hq, <- Hv. split; [done|].
    split; rewrite ?Wf, ?Wn, ?Wa, ?Wr, ?Ws; try done.
    + intros Hn. by eapply found_frame, H5.
    + rewrite Hoff. exact H6.
  - rewrite <- Hfrom in Hne. destruct (adjusted_new v' s1 Hne) as (Aq & Af & Ares & Aoff & Am).
    right. eapply (effect_new s1.(ss_debouncedQuery) v'); rewrite ?Wf, ?Wn, ?Wa, ?Wr, ?Ws; try done. rewrite <- Hfrom. congruence.
Qed.

Lemma mount_settled p : search_settled 0 0 (search_mount p).
Proof.
  unfold search_mount, search_rendered. cbn zeta. set (w0 := search_blank p).
  destruct (prefill_frame p.(sp_prefillRequest) w0.(sw_state)) as (Hres & Hoff & Hmore & Hfrom).
  set (w1 := debounce_effect [] (on_state _ _)). set (v := p.(sp_visibilityVersion)) in *.
  set (s1 := adjust_prefill p.(sp_prefillRequest) w0.(sw_state)) in *.
  assert (Hw1 : w1.(sw_state) = adjust_search v s1 /\ w1.(sw_visibilityVersion) = v /\ w1.(sw_ran) = None
    /\ w1.(sw_flights) = ∅) by (subst w1; unfold debounce_effect; by destruct (_ ≟ _)).
  destruct Hw1 as (Ws & Wv & Wr & Wf). clearbody w1 s1. cbn in Hres, Hoff, Hmore, Hfrom.
  assert (Hs : (adjust_search v s1).(ss_debouncedQuery) = s1.(ss_debouncedQuery)
    /\ (adjust_search v s1).(ss_searchedFrom) = (s1.(ss_debouncedQuery), v)
    /\ (adjust_search v s1).(ss_results) = [] /\ (adjust_search v s1).(ss_offset) = 0
    /\ (adjust_search v s1).(ss_hasMore) = false).
  { destruct (decide (s1.(ss_searchedFrom) = (s1.(ss_debouncedQuery), v))) as [He|Hne]; [|by apply adjusted_new].
    by rewrite adjusted_same. }
  destruct Hs as (Sq & Sf & Sr & So & Sm).
  by eapply (effect_new s1.(ss_debouncedQuery) v); rewrite ?Wf, ?Wr, ?Ws.
Qed.

Lemma settled_step since now w e :
  (forall n q, NoDup (sr_id <$> serve n q)) -> (since <= now)%nat -> honest now w e -> search_settled since now w ->
  (searches (search_step w e) = searches w /\ search_settled since (S now) (search_step w e))
  \/ search_settled (S now) (S now) (search_step w e).
Proof. intros Hnd Hs Hh Hw. unfold search_step. eapply rendered_settled, handler_at; done. Qed.

(** The same query and version have been searched since the first [since] events. *)
Definition searching_since (p : SearchProps) (events : list SearchEvent) (since : nat) : Prop :=
  (since <= length events)%nat
  /\ forall n, (since <= n <= length events)%nat ->
       searches (search_after p events n) = searches (search_after p events (length events)).

Lemma after_snoc p events e n :
  (n <= length events)%nat -> search_after p (events ++ [e]) n = search_after p events n.
Proof. intros Hn. unfold search_after. by rewrite take_app_le. Qed.

Lemma after_last p events e :
  search_after p (events ++ [e]) (length (events ++ [e])) = search_step (search_after p events (length events)) e.
Proof. unfold search_after, search_run, flip. by rewrite !firstn_all, foldl_app. Qed.

Lemma settled_run p events :
  (forall n q, NoDup (sr_id <$> serve n q)) -> honest_run p events ->
  exists since, searching_since p events since
    /\ search_settled since (length events) (search_after p events (length events)).
Proof.
  intros Hnd. induction events as [|e events IH] using rev_ind; intros Hh.
  { exists 0%nat. split; [|apply mount_settled]. split; [done|]. intros n Hn. by replace n with 0%nat by (cbn in Hn; lia). }
  destruct IH as (since & [Hle Hsame] & Hset).
  { intros n x Hx. pose proof (lookup_lt_Some _ _ _ Hx) as Hn. assert (H := Hh n x).
    rewrite after_snoc in H by lia. apply H. by apply lookup_app_l_Some. }
  assert (He : honest (length events) (search_after p events (length events)) e).
  { rewrite <- (after_snoc p events e) by done. apply Hh. by rewrite lookup_app_r, Nat.sub_diag by done. }
  destruct (settled_step since (length events) _ e Hnd Hle He Hset) as [[Hq Hs]|Hs].
  - exists since. rewrite after_last. unfold searching_since. rewrite after_last, length_app, Nat.add_1_r. split; [|exact Hs].
    split; [lia|]. intros n Hn. rewrite Hq. destruct (decide (n = S (length events))) as [->|Hne].
    + replace (S (length events)) with (length (events ++ [e])) by (rewrite length_app; cbn; lia). by rewrite after_last.
    + rewrite after_snoc by lia. apply Hsame. lia.
  - exists (length (events ++ [e])). split; [|by rewrite after_last, length_app, Nat.add_1_r]. split; [done|].
    intros n Hn. by replace n with (length (events ++ [e])) by lia.
Qed.

(** C23: While a query is searched, each message on screen is there once and was found by the server
    for that query in an answer given since the query, and the version of what may be seen, are
    the present ones: whatever is typed, prefilled, hidden, aborted and answered in any order,
    nothing of another query or of an earlier version is left, however the messages the server
    holds change between the pages. If meanwhile the server's list for the query only grows at its
    front, by fewer than fifty messages, the results are a beginning of the list of one of these
    answers, in its order and without a gap, and all of it when no more is offered; or nothing has
    come yet. *)
Theorem search_shows_a_beginning (p : SearchProps) (events : list SearchEvent) :
  (forall n q, NoDup (sr_id <$> serve n q)) -> honest_run p events ->
  let now := length events in
  let s := (search_after p events now).(sw_state) in
  s.(ss_debouncedQuery) <> [] ->
  NoDup (sr_id <$> s.(ss_results))
  /\ exists since, searching_since p events since
     /\ (forall r, r ∈ s.(ss_results) -> exists n, (since <= n < now)%nat /\ r ∈ serve n s.(ss_debouncedQuery))
     /\ (grows since now s.(ss_debouncedQuery) ->
         s.(ss_results) = [] \/ exists n, (since <= n < now)%nat /\ s.(ss_results) `prefix_of` serve n s.(ss_debouncedQuery)
           /\ (s.(ss_hasMore) = false -> s.(ss_results) = serve n s.(ss_debouncedQuery))).
Proof.
  intros Hnd Hh now s Hq. destruct (settled_run p events Hnd Hh) as (since & Hsince & [_ _ _ _ Hf _]).
  destruct (Hf Hq) as [_ H2 H3 H4]. split; [exact H2|]. exists since. split; [done|]. split; [exact H3|].
  intros Hg. destruct (H4 Hg) as [[Hnil _]|(n & m & _ & Hn & Hm & Hnow & _ & Hpre & _ & Hall)]; [by left|right].
  exists n. split; [unfold now; lia|]. by split.
Qed.
End search.

(** ** Runs *)

Definition demo_found (n : nat) : SearchResult :=
  {| sr_id := Z.of_nat n; sr_type := PRIV; sr_conversation_key := js "ab"; sr_text := js "hello"; sr_received_at := 0;
     sr_outgoing := false; sr_sender_name := None |}.
(** Sixty messages at first, and a newer one when the second page is asked for. *)
Definition demo_serve (n : nat) (q : jstr) : list SearchResult :=
  if (n <=? 3)%nat then demo_found <$> seq 0 60 else demo_found 60 :: (demo_found <$> seq 0 60).
Definition demo_search_props : SearchProps := {| sp_visibilityVersion := 0; sp_prefillRequest := None |}.

(** Two pages of the list of sixty, the second one moved by one. *)
Definition demo_search_run : list SearchEvent :=
  [SvType (js "hello"); SvTimer; SvAnswer 0 (Some (served_page (demo_serve 2 []) 0)); SvMore;
   SvAnswer 1 (Some (served_page (demo_serve 4 []) 50))].

Lemma demo_ids n : NoDup (sr_id <$> (demo_found <$> seq 0 n)).
Proof.
  rewrite <- list_fmap_compose. apply NoDup_fmap_2; [|apply NoDup_seq]. intros i j. cbn. lia.
Qed.
Lemma demo_serve_distinct n q : NoDup (sr_id <$> demo_serve n q).
Proof.
  unfold demo_serve. destruct (n <=? 3)%nat; [apply demo_ids|]. rewrite fmap_cons. apply NoDup_cons. split; [|apply demo_ids].
  intros (r & Hr & (i & -> & Hi)%list_elem_of_fmap)%list_elem_of_fmap. apply elem_of_seq in Hi. cbn in Hr. lia.
Qed.
Lemma demo_serve_grows since now q : grows demo_serve since now q.
Proof.
  intros n m _ Hm _. unfold demo_serve. destruct (Nat.leb_spec n 3), (Nat.leb_spec m 3); try lia.
  - by exists [].
  - by exists [demo_found 60].
  - by exists [].
Qed.

(** The overlap of the pages is left out, and what was there at the first page is all on screen. *)
Lemma search_shows_a_beginning_witness :
  let s := (search_after demo_search_props demo_search_run 5).(sw_state) in
  s.(ss_results) = demo_serve 0 [] /\ s.(ss_hasMore) = false /\ NoDup (sr_id <$> s.(ss_results)).
Proof.
  pose proof (search_shows_a_beginning demo_serve demo_search_props demo_search_run demo_serve_distinct) as H.
  cbv zeta in H. destruct H as (Hp & since & Hs & _ & Hg).
  - intros [|[|[|[|[|n]]]]] e; cbn; intros [= <-]; try exact I; intros r Hr _; vm_compute in Hr; by injection Hr as <-.
  - by vm_compute.
  - split_and!; [by vm_compute..|exact Hp].
Defined.

(** A search that is given up for another ends the loading of the other: its rejection clears the
    flag, and the page says that nothing was found while the second search is under way. *)
Theorem aborted_search_says_no_results :
  let w := search_run [SvType (js "ann"); SvTimer; SvType (js "bob"); SvTimer; SvAnswer 0 None] (search_mount demo_search_props) in
  says_no_results w.(sw_state) = true
  /\ w.(sw_flights) !! 1%nat = Some {| fr_more := false; fr_q := js "bob"; fr_offset := 0; fr_aborted := false |}.
Proof. by vm_compute. Qed.

(** A further page asked for before the query is emptied is shown under the empty query. *)
Theorem stale_page_under_empty_query :
  let w := search_run [SvType (js "ann"); SvTimer; SvAnswer 0 (Some (served_page (demo_serve 0 (js "ann")) 0)); SvMore; SvType []; SvTimer;
                       SvAnswer 1 (Some (served_page (demo_serve 0 (js "ann")) 50))] (search_mount demo_search_props) in
  w.(sw_state).(ss_debouncedQuery) = [] /\ w.(sw_state).(ss_results) <> [].
Proof. by vm_compute. Qed.
